(* ===== verification/_CoqProject ===== *)
-Q . S2P
Prelude.v
Text.v
Version.v
Decision.v
Kv.v
FaultKv.v
Reason.v
KvLogic.v
Store.v
StoreViews.v
StoreAttempt.v
StoreReport.v
Boot.v
BootSpec.v
BootRecovery.v
Samples.v
BootProps.v
StoreProps.v
StoreOps.v
StoreRepair.v
StoreOpsProps.v
Config.v
Health.v
WriteAlign.v
Url.v
Hex.v
Wire.v
Fetch.v
Status.v
WorkerPlan.v
WorkerRunProps.v
Reporter.v
Intake.v
MqttSession.v
MqttRunner.v
MqttChunks.v
MqttOutbox.v
MqttAcks.v
MqttTopics.v
Crc32.v
ProvConfig.v
ProvRecord.v
ProvRecordProps.v
ProvStore.v
ProvStoreProps.v
ProvForm.v
ProvFormProps.v
ProvFlow.v
WifiLink.v
WifiSupervisorProps.v
WifiHal.v
ProvKv.v
ProvKvProps.v
Dhcp.v
Dns.v
EspNow.v
EspNowScanProps.v
IdfEspNow.v
EspNowSender.v
EspNowSenderProps.v
ProvSession.v
Http.v
Portal.v
PortalProps.v
Lora.v
LoraProps.v
WaitList.v
MqttConfig.v
IdfMqtt.v
ProvBoot.v
IdfPortal.v
IdfPortalProps.v
OtaHttp.v
HalOta.v
HalMqtt.v
HalMqttProps.v
IdfOta.v
IdfOtaStore.v
OtaRuntime.v
