(* ===== verification/Prelude.v ===== *)
(** * Rustyfarian Network: a verification development (root file)

    The repository is a Rust workspace for ESP32 devices.  [src/crates/juggler] holds the
    platform-independent logic ([no_std], no I/O); [rustyfarian-esp-idf-network] and
    [rustyfarian-esp-hal-network] bind it to the two vendor stacks ("the ESP-IDF tier", "the
    bare-metal tier").  This development models the logic of juggler and what the two tiers build
    on it.  File names below are relative to the [src] directory of the crate.

    ** The program

    - Updates.  A command arrives on an MQTT topic, is handed to a worker through a one-element
      queue guarded by a busy flag; the worker fetches a manifest, decides about the offer, records
      an attempt in non-volatile storage, flashes the image, and restarts.  After the restart the
      records and the hardware facts are reconciled, a health policy accepts the image or rolls it
      back, and a reporter delivers a [rolled_back] report at least once.  Power may fail at every
      write.  The bare-metal tier has an update manager without records.
    - MQTT.  A session machine follows the link and the driver; a runner thread (ESP-IDF) or task
      (bare metal) is the only one that calls the client.  Publishes wait in an outbox, chunks of
      inbound messages are assembled, acknowledged publishes are correlated with the broker's answers.
    - Wi-Fi.  A link machine with exponential back-off, driven by a supervisor thread (ESP-IDF) or a
      task (bare metal), which callers may suspend and resume.
    - Provisioning.  A captive portal (HTTP, DHCP, DNS) takes credentials in a form, commits them to
      a two-sector flash store or a key-value store, and the device boots with them.
    - ESP-NOW and LoRa.  Frames, peers, a channel scan and the sending task; the SX1262 radio driver.

    ** The files, in dependency order within each part

    - [Prelude]: [Result], the state-and-error monad [M] of a [&mut self] method, machine integers,
      the hint database [rn].  [Text]: operations of [str].  [Samples]: concrete stores.
    - Update core (juggler [ota/]).  [Version], [Decision], [Reason]: [version.rs], [error.rs],
      [decision.rs], [reconcile.rs], [state.rs], the wire reasons.  [Kv], [FaultKv], [KvLogic]: the
      storage trait as a class with the contract [KvContract], the fault-injecting backend as an
      instance, and a program logic [sat] over any backend that keeps the contract.  [Store]: every
      operation of [OtaStore] ([persist/store.rs]); [StoreViews], [StoreAttempt], [StoreReport]: its
      specifications on every outcome, torn writes included; [StoreProps].  [Boot], [BootSpec],
      [BootRecovery], [BootProps]: [persist/boot.rs] and reboots as a relation.  [StoreOps],
      [StoreRepair], [StoreOpsProps]: [runtime/store_ops.rs].  [Config] ([Duration] and settings),
      [Health] (the health machine, its traces), [WriteAlign], [Url], [Hex], [Wire], [Status],
      [Fetch]: the files of these names.  [WorkerPlan], [WorkerRunProps]: the worker.  [Reporter]:
      the report service.  [Intake]: submitters, worker and reporter, interleaved.
    - Updates of the ESP-IDF tier ([ota/]).  [IdfOta]: [downloader.rs], [flasher.rs], [mod.rs].
      [IdfOtaStore]: [store.rs], [boot_facts.rs]; the NVS backend is shown to keep [KvContract].
      [OtaRuntime]: start-up, health thread and reporter thread ([runtime/]).
    - Updates of the bare-metal tier.  [OtaHttp]: [ota/http.rs]; [HalOta]: [ota/manager.rs].
    - MQTT.  [MqttSession]: session machine and network gate.  [MqttRunner]: runner, connect helper
      and event loop of the ESP-IDF tier, interleaved.  [MqttChunks], [MqttOutbox], [MqttAcks],
      [MqttTopics], [MqttConfig]: the parts of [mqtt/] in juggler.  [WaitList]: [wait_list.rs].
      [IdfMqtt]: [mqtt/session.rs] and [mqtt/mod.rs] of the ESP-IDF tier.  [HalMqtt],
      [HalMqttProps]: the client of the bare-metal tier.
    - Wi-Fi.  [WifiLink]: link machine, hand-over, supervisor; [WifiSupervisorProps].  [WifiHal]: the
      supervisor task of the bare-metal tier.
    - Provisioning.  [ProvConfig], [ProvForm](Props): the profiles and the form parser.  [Crc32],
      [ProvRecord](Props), [ProvStore](Props): record codec and two-sector store.  [ProvFlow]: form to
      flash.  [ProvKv](Props): the key-value store.  [ProvSession]: the session and its waits.
      [Http], [Portal], [PortalProps]: the portal of the bare-metal tier.  [Dhcp],
      [Dns]: its servers.  [ProvBoot]: names and boot of a provisioned device.  [IdfPortal](Props):
      the portal of the ESP-IDF tier.
    - ESP-NOW.  [EspNow]: frames, peers, scan machine and the bare-metal scan loop; [EspNowScanProps].
      [IdfEspNow]: the driver of the ESP-IDF tier.  [EspNowSender](Props): the sending task of the
      bare-metal tier and its callers.
    - LoRa.  [Lora]: types, credentials, downlink commands, the SX1262 driver; [LoraProps].

    Where components interact, one is a class and the other is proved against it: [OtaKv] with
    [KvContract] (instances [FaultKv] and the NVS backend), [NorFlash] with [NorFlashLaws],
    [ProvisioningKv] with its laws, [LinkRadio] with [LinkRadioLaws], [EspMqtt], the radio and clock
    classes of [EspNow], [IdfEspNow] and [Lora].

    ** What is proved

    - Crash safety: beginning an attempt, and boots interrupted any number of times, leave records
      that one undisturbed boot finishes; unreadable facts or records change nothing; repair
      terminates ([StoreProps], [BootProps], [StoreOpsProps]).
    - Updates: flash, restart and rollback happen only behind their durable records; only a verified
      image is activated, in both tiers, with the deadline checked at every point of the code's
      schedule; a correct answer in any pieces is applied; flash writes are
      aligned; the report is delivered at least once; the health policy acts on what it has proved,
      and ends; a failed start leaves nothing running ([WorkerRunProps], [IdfOta], [HalOta],
      [WriteAlign], [Reporter], [OtaRuntime]); the NVS backend keeps the storage contract
      ([IdfOtaStore]).
    - MQTT: the runner never waits for nobody: what it waits for it has asked for; messages are
      delivered, queued or counted; an acknowledged publish reports the truth; the bare-metal queue is
      a FIFO whose runner recovers, and a session is used only with subscriptions the broker
      acknowledged or reported as kept; no wake-up is lost ([MqttRunner], [IdfMqtt], [HalMqttProps], [WaitList]).
    - Wi-Fi: at most one connect at a time, no retry forgotten; suspends and resumes are honoured
      ([WifiSupervisorProps], [WifiHal]).
    - Provisioning: a save never touches the active record and the stores are registers under faults;
      records round trip and damage is detected; the form parser accepts exactly the valid forms, as far
      as their broker values fit the decode buffer; no address is promised to two clients; answers to
      DNS queries of opcode 0 are exact; the portal commits what the form said and a boot finds it;
      every response is framed by its header lines ([ProvStoreProps], [ProvRecordProps], [ProvFormProps],
      [ProvKvProps], [Dhcp], [Dns], [PortalProps], [IdfPortalProps]).
    - Radio: the scan loops of both tiers refine the shared machine, each of its actions carried out
      by the calls on the radio, and end, and leave power and callback as they found them; a sender
      gets its own result; the traffic of LoRa bring-up is that of its stages up to the first that
      fails ([EspNowScanProps], [IdfEspNow], [EspNowSenderProps], [LoraProps]).

    ** Modelling decisions

    - A [&str] is the string of its UTF-8 bytes, a byte an integer, an unsigned integer a [Z].  The
      release profile does not check overflow, so [u32] addition wraps; the addition of [Duration]s
      panics in every profile, so it is an [option].  [usize] has 32 bits.
    - [&mut self] methods returning [Result] are [M S E A] where many calls are threaded, explicit
      state passing elsewhere.  Log output is not modelled, nor are [Display] and [Debug] texts except
      where they are stored, sent or returned.
    - What happens under one lock is one step; threads and tasks interleave between steps.  What other
      threads, the network, the clock and the hardware do is an environment: events, or arbitrary
      functions of the history.
    - A backend operation may fail at any time; a failed write has happened or not, and a failed string
      write may also have removed the old value.
    - Third-party code is a parameter, with its documented behaviour as the laws of a class where a
      theorem needs them: [serde_json], [sha2], the MQTT, HTTP and OTA clients and servers of ESP-IDF,
      [minimq], NVS, the flash devices, [esp-radio], the sockets, the [sx126x] chip, the events of
      [lorawan-device].  HTML assets and the texts of field errors are arguments.

    ** Fuel and bounds

    Structural recursion wherever the source's loop is over a list.  Otherwise the fuel is the length
    of what the loop consumes (record and option decoding, DHCP options, HTTP headers and bodies,
    template rendering, DNS names, URL and text scanning, downloads), or the source's own budget
    ([repair_all], the 500 polls of the LoRa busy line, the 1024-byte header buffer, retries).
    [fetch_loop] has one unit per read of a buffer of 1025 bytes; [service_report] one unit per
    immediate follow-up and one more; the supervisor's [step_loop] two turns
    ([WifiSupervisorProps.step_loop_enough]); the ESP-NOW scan nine steps and [2 + 2c] per channel for
    [c] confirmations.  Each is proved sufficient, or is the source's bound.  Loops that wait for the
    environment ([wait_loop], [health_loop], the reporter) take their number of turns; liveness
    theorems say how many are enough.

    Counters: fewer than 2^32 queued messages or ids, fewer than 2^64 waits on one list, fewer than
    2^32 suspends and 2^32 health turns, sequence numbers of the credential store below 2^32, fewer
    than 2^31 epoch advances; chunks are shorter than 2^31 bytes; a partition plus one word is below
    2^32.  The bare-metal sender's runner is never dropped, and its tasks share one executor.

    ** Not modelled

    Hardware and start-up bindings: creating the Wi-Fi drivers of both tiers, the task
    spawning around the bare-metal portal, [run_wifi_mqtt_portal] (it starts the radio and restarts
    the chip).  Constants of the status colours, HTML templates, module declarations, examples, mocks
    and test helpers.  JSON syntax.  Log lines, and the scrubbing of secrets in memory, have no
    effect that these models see. *)
From stdpp Require Export base tactics option list strings gmap pretty.
From Stdlib Require Export ZArith Lia.

#[global] Set Default Proof Using "Type".

(** ** Notation scope of the development *)
Declare Scope rn_scope.
Delimit Scope rn_scope with rn.

(** ** Rust's [Result] *)

Inductive result (E A : Type) : Type :=
| Ok (a : A)
| Err (e : E).
Arguments Ok {E A} a.
Arguments Err {E A} e.

#[export] Instance result_eq_dec {E A} `{EqDecision E, EqDecision A} :
  EqDecision (result E A).
Proof. solve_decision. Defined.

Definition map_err {E F A} (f : E → F) (r : result E A) : result F A :=
  match r with Ok a => Ok a | Err e => Err (f e) end.

Definition result_ok {E A} (r : result E A) : option A :=
  match r with Ok a => Some a | Err _ => None end.

#[export] Instance result_ret E : MRet (result E) := λ A a, Ok a.
#[export] Instance result_bind E : MBind (result E) :=
  λ A B f r, match r with Ok a => f a | Err e => Err e end.

(** ** Stateful, fallible code

    [M S E A] is a Rust method taking [&mut self] with [self : S] and returning
    [Result<A, E>].  The bind is the [?] operator: an error stops the sequence
    and the state reached so far is kept. *)

Definition M (S E A : Type) : Type := S → result E A * S.

#[export] Instance M_ret S E : MRet (M S E) := λ A a s, (Ok a, s).
#[export] Instance M_bind S E : MBind (M S E) :=
  λ A B f m s, match m s with
               | (Ok a, s') => f a s'
               | (Err e, s') => (Err e, s')
               end.

Lemma M_bind_eq {S E A B} (m : M S E A) (f : A → M S E B) s :
  (m ≫= f) s = match m s with (Ok a, s') => f a s' | (Err e, s') => (Err e, s') end.
Proof. reflexivity. Qed.

Definition throw {S E A} (e : E) : M S E A := λ s, (Err e, s).

(** [catch m] runs [m] and hands its [Result] to the caller instead of
    returning early: the source's [match m(..) { Ok(..) => .., Err(..) => .. }]. *)
Definition catch {S E F A} (m : M S E A) : M S F (result E A) :=
  λ s, let '(r, s') := m s in (Ok r, s').

(** Leaves with a computed [Result]. *)
Definition of_result {S E A} (r : result E A) : M S E A := λ s, (r, s).

Fixpoint for_each {S E A} (l : list A) (f : A → M S E unit) : M S E unit :=
  match l with
  | [] => mret tt
  | x :: l' => f x ≫= λ _, for_each l' f
  end.

(** ** Machine integers

    Unsigned integers are [Z] with their width written out. *)
Definition u8_max : Z := 255.
Definition u16_max : Z := 65535.
Definition u32_max : Z := 4294967295.
Definition u64_max : Z := 18446744073709551615.

Definition is_u8 (n : Z) : Prop := (0 ≤ n ≤ u8_max)%Z.
Definition is_u16 (n : Z) : Prop := (0 ≤ n ≤ u16_max)%Z.
Definition is_u32 (n : Z) : Prop := (0 ≤ n ≤ u32_max)%Z.

#[export] Instance is_u8_dec n : Decision (is_u8 n).
Proof. unfold is_u8. apply _. Defined.
#[export] Instance is_u16_dec n : Decision (is_u16 n).
Proof. unfold is_u16. apply _. Defined.
#[export] Instance is_u32_dec n : Decision (is_u32 n).
Proof. unfold is_u32. apply _. Defined.

Definition u32_wrap (n : Z) : Z := (n `mod` 4294967296)%Z.
Definition u32_wrapping_add (a b : Z) : Z := u32_wrap (a + b)%Z.
Definition u32_wrapping_sub (a b : Z) : Z := u32_wrap (a - b)%Z.

Lemma u32_wrap_small n : is_u32 n → u32_wrap n = n.
Proof. unfold is_u32, u32_wrap, u32_max. intros. apply Z.mod_small. lia. Qed.

Lemma u32_wrap_range n : is_u32 (u32_wrap n).
Proof. unfold is_u32, u32_wrap, u32_max. pose proof (Z.mod_pos_bound n 4294967296). lia. Qed.

Infix "⊞" := u32_wrapping_add (at level 50, left associativity) : rn_scope.
Infix "⊟" := u32_wrapping_sub (at level 50, left associativity) : rn_scope.

(** ** Automation *)

Create HintDb rn.
#[export] Hint Resolve u32_wrap_range : rn.
