(* ===== verification/Text.v ===== *)
(** * Text: the part of Rust's [str] and integer parsing the program uses

    A Rust [&str] is the [string] of its UTF-8 bytes.  The operations follow the
    documentation of the standard library: [trim] removes leading and trailing
    characters of the Unicode White_Space class (written here as their UTF-8
    encodings), [splitn] cuts at most [n - 1] times, [parse] of an unsigned
    integer accepts one optional leading plus sign and then only digits,
    checking every multiplication and addition against the width. *)
From Stdlib Require Import Ascii.
From S2P Require Import Prelude.
Open Scope Z_scope.

Definition str_len (s : string) : Z := Z.of_nat (String.length s).

Definition byte_of (a : ascii) : Z := Z.of_N (N_of_ascii a).
Definition byte_chr (n : Z) : ascii := ascii_of_N (Z.to_N n).

Definition is_ascii_byte (a : ascii) : bool := byte_of a <? 128.

Fixpoint str_forall (p : ascii → bool) (s : string) : bool :=
  match s with
  | EmptyString => true
  | String a s' => p a && str_forall p s'
  end.

(** [str::is_ascii] *)
Definition is_ascii (s : string) : bool := str_forall is_ascii_byte s.

(** ** [str::trim] *)

Fixpoint strip_prefix (p s : string) : option string :=
  match p, s with
  | EmptyString, _ => Some s
  | String a p', String b s' => if Ascii.eqb a b then strip_prefix p' s' else None
  | _, EmptyString => None
  end.

Definition of_bytes (l : list Z) : string :=
  foldr (λ n s, String (byte_chr n) s) EmptyString l.

(** The Unicode White_Space characters, as UTF-8. *)
Definition whitespace_chars : list string := map of_bytes
  [[9]; [10]; [11]; [12]; [13]; [32]; [194; 133]; [194; 160]; [225; 154; 128];
   [226; 128; 128]; [226; 128; 129]; [226; 128; 130]; [226; 128; 131];
   [226; 128; 132]; [226; 128; 133]; [226; 128; 134]; [226; 128; 135];
   [226; 128; 136]; [226; 128; 137]; [226; 128; 138]; [226; 128; 168];
   [226; 128; 169]; [226; 128; 175]; [226; 129; 159]; [227; 128; 128]].

Fixpoint strip_any (ps : list string) (s : string) : option string :=
  match ps with
  | [] => None
  | p :: ps' => match strip_prefix p s with
                | Some r => Some r
                | None => strip_any ps' s
                end
  end.

Fixpoint trim_start_fuel (fuel : nat) (s : string) : string :=
  match fuel with
  | O => s
  | S f => match strip_any whitespace_chars s with
           | Some r => trim_start_fuel f r
           | None => s
           end
  end.

Definition trim_start (s : string) : string := trim_start_fuel (String.length s) s.

(** Drops the longest suffix made of white space only. *)
Fixpoint trim_end (s : string) : string :=
  match s with
  | EmptyString => EmptyString
  | String a s' => match trim_start s with
                   | EmptyString => EmptyString
                   | _ => String a (trim_end s')
                   end
  end.

Definition trim (s : string) : string := trim_end (trim_start s).

(** ** [str::split_once] and [str::splitn] on one ASCII character *)

Fixpoint split_once (c : ascii) (s : string) : option (string * string) :=
  match s with
  | EmptyString => None
  | String a s' =>
      if Ascii.eqb a c then Some (EmptyString, s')
      else match split_once c s' with
           | Some (l, r) => Some (String a l, r)
           | None => None
           end
  end.

Fixpoint splitn (n : nat) (c : ascii) (s : string) : list string :=
  match n with
  | O => []
  | S O => [s]
  | S m => match split_once c s with
           | Some (l, r) => l :: splitn m c r
           | None => [s]
           end
  end.

(** ** Decimal printing and parsing of unsigned integers *)

Definition digit_char (d : Z) : ascii := byte_chr (48 + d).

Definition digit_val (a : ascii) : option Z :=
  let b := byte_of a in
  if (48 <=? b) && (b <=? 57) then Some (b - 48) else None.

Fixpoint dec_go (fuel : nat) (n : Z) (acc : string) : string :=
  match fuel with
  | O => acc
  | S f => let acc' := String (digit_char (n `mod` 10)) acc in
           if n <? 10 then acc' else dec_go f (n `div` 10) acc'
  end.

(** [Display] of an unsigned integer of at most 64 bits (20 digits). *)
Definition show_uint (n : Z) : string := dec_go 20 n EmptyString.

(** The checked accumulation of [from_str_radix] for a type with maximum [maxv]. *)
Fixpoint parse_digits (maxv : Z) (s : string) (acc : Z) : option Z :=
  match s with
  | EmptyString => Some acc
  | String a s' =>
      match digit_val a with
      | None => None
      | Some d =>
          if acc * 10 <=? maxv then
            if acc * 10 + d <=? maxv then parse_digits maxv s' (acc * 10 + d) else None
          else None
      end
  end.

(** [str::parse::<uN>()]: [None] for any [ParseIntError]. *)
Definition parse_uint (maxv : Z) (s : string) : option Z :=
  match s with
  | EmptyString => None
  | String a s' =>
      if Ascii.eqb a "+"%char
      then match s' with EmptyString => None | _ => parse_digits maxv s' 0 end
      else parse_digits maxv s 0
  end.

Definition parse_u16 (s : string) : option Z := parse_uint u16_max s.

(** ** Lemmas *)

Lemma byte_of_range a : 0 ≤ byte_of a < 256.
Proof. unfold byte_of. pose proof (N_ascii_bounded a). lia. Qed.

Lemma byte_of_chr n : 0 ≤ n < 256 → byte_of (byte_chr n) = n.
Proof. intros. unfold byte_of, byte_chr. rewrite N_ascii_embedding; lia. Qed.

Lemma byte_chr_of a : byte_chr (byte_of a) = a.
Proof. unfold byte_of, byte_chr. by rewrite N2Z.id, ascii_N_embedding. Qed.

Lemma str_forall_app p s t : str_forall p (s +:+ t) = str_forall p s && str_forall p t.
Proof. induction s as [|a s IH]; [done|]. simpl. rewrite <- andb_assoc. by rewrite <- IH. Qed.

Lemma str_len_app s t : str_len (s +:+ t) = str_len s + str_len t.
Proof.
  unfold str_len. rewrite <- Nat2Z.inj_add. f_equal.
  induction s as [|a s IH]; [done|]. simpl. by rewrite <- IH.
Qed.

(** A byte that no white-space character contains. *)
Definition is_plain (a : ascii) : bool :=
  let b := byte_of a in (33 <=? b) && (b <=? 126).

Lemma strip_any_plain a s : is_plain a = true → strip_any whitespace_chars (String a s) = None.
Proof.
  destruct a as [[] [] [] [] [] [] [] []]; vm_compute; intros; done.
Qed.

Lemma trim_start_plain a s : is_plain a = true → trim_start (String a s) = String a s.
Proof. intros. unfold trim_start. cbn [String.length trim_start_fuel]. by rewrite strip_any_plain. Qed.

Lemma trim_end_plain s : str_forall is_plain s = true → trim_end s = s.
Proof.
  induction s as [|a s IH]; [done|]. simpl. intros [Ha Hs]%andb_true_iff.
  rewrite trim_start_plain by done. by rewrite IH.
Qed.

Lemma trim_plain s : str_forall is_plain s = true → trim s = s.
Proof.
  intros H. unfold trim. destruct s as [|a s]; [done|].
  pose proof H as [Ha _]%andb_true_iff.
  rewrite trim_start_plain by done. by apply trim_end_plain.
Qed.

Lemma split_once_app c l r :
  str_forall (λ a, negb (Ascii.eqb a c)) l = true →
  split_once c (l +:+ String c r) = Some (l, r).
Proof.
  induction l as [|a l IH]; simpl.
  - intros _. by rewrite Ascii.eqb_refl.
  - intros [Ha Hl]%andb_true_iff. destruct (Ascii.eqb a c); [done|].
    by rewrite (IH Hl).
Qed.

Lemma split_once_none c s :
  str_forall (λ a, negb (Ascii.eqb a c)) s = true → split_once c s = None.
Proof.
  induction s as [|a s IH]; [done|]. simpl. intros [Ha Hs]%andb_true_iff.
  destruct (Ascii.eqb a c); [done|]. by rewrite IH.
Qed.

Definition is_digit (a : ascii) : bool :=
  let b := byte_of a in (48 <=? b) && (b <=? 57).

Lemma digit_char_is_digit d : 0 ≤ d < 10 → is_digit (digit_char d) = true.
Proof. intros. unfold is_digit, digit_char. rewrite byte_of_chr by lia. lia. Qed.

Lemma digit_val_char d : 0 ≤ d < 10 → digit_val (digit_char d) = Some d.
Proof.
  intros. unfold digit_val, digit_char. rewrite byte_of_chr by lia.
  replace (_ && _) with true by lia. f_equal. lia.
Qed.

Lemma digit_plain a : is_digit a = true → is_plain a = true.
Proof. unfold is_digit, is_plain. lia. Qed.

Lemma digit_ascii a : is_digit a = true → is_ascii_byte a = true.
Proof. unfold is_digit, is_ascii_byte. lia. Qed.

Lemma digit_not_char a c : is_digit a = true → is_digit c = false → negb (Ascii.eqb a c) = true.
Proof. intros Ha Hc. destruct (Ascii.eqb_spec a c); [congruence|done]. Qed.

Lemma str_forall_impl (p q : ascii → bool) s :
  (∀ a, p a = true → q a = true) → str_forall p s = true → str_forall q s = true.
Proof.
  intros Hpq. induction s as [|a s IH]; [done|].
  simpl. intros [??]%andb_true_iff. rewrite Hpq, IH; done.
Qed.

Lemma dec_go_forall (p : ascii → bool) fuel n acc :
  0 ≤ n → (∀ a, is_digit a = true → p a = true) →
  str_forall p acc = true → str_forall p (dec_go fuel n acc) = true.
Proof.
  intros Hn Hp. revert n acc Hn.
  induction fuel as [|f IH]; intros n acc Hn Hacc; [done|]. simpl.
  assert (str_forall p (String (digit_char (n `mod` 10)) acc) = true).
  { simpl. rewrite Hacc, Hp; [done|]. apply digit_char_is_digit.
    apply Z.mod_pos_bound. lia. }
  destruct (n <? 10); [done|]. apply IH; [|done]. apply Z.div_pos; lia.
Qed.

Lemma show_uint_digits n : 0 ≤ n → str_forall is_digit (show_uint n) = true.
Proof. intros. by apply dec_go_forall. Qed.

Lemma dec_go_length fuel n acc k :
  0 ≤ n < 10 ^ k → 1 ≤ k → k ≤ Z.of_nat fuel →
  str_len (dec_go fuel n acc) ≤ k + str_len acc.
Proof.
  revert n acc k. induction fuel as [|f IH]; intros n acc k Hn Hk Hf; [lia|]. simpl.
  assert (Hc : str_len (String (digit_char (n `mod` 10)) acc) = 1 + str_len acc)
    by (unfold str_len; simpl String.length; lia).
  destruct (Z.ltb_spec n 10); [lia|].
  assert (k ≠ 1) by (intros ->; lia).
  assert (Hp : 10 ^ k = 10 * 10 ^ (k - 1)).
  { rewrite <- Z.pow_succ_r by lia. f_equal. lia. }
  assert (0 ≤ n `div` 10 < 10 ^ (k - 1))
    by (split; [apply Z.div_pos; lia|apply Z.div_lt_upper_bound; lia]).
  ospecialize (IH (n `div` 10) (String (digit_char (n `mod` 10)) acc) (k - 1) _ _ _); lia.
Qed.

Lemma parse_digits_dec_go maxv fuel n acc :
  0 ≤ n ≤ maxv → n < 10 ^ Z.of_nat fuel → fuel ≠ O →
  parse_digits maxv (dec_go fuel n acc) 0 = parse_digits maxv acc n.
Proof.
  revert n acc. induction fuel as [|f IH]; intros n acc Hn Hlt Hf; [done|]. simpl.
  pose proof (Z.mod_pos_bound n 10 eq_refl). pose proof (Z.div_mod n 10).
  destruct (Z.ltb_spec n 10).
  - simpl. rewrite digit_val_char by done.
    rewrite Z.mod_small by lia.
    replace (0 * 10 <=? maxv) with true by lia.
    by replace (0 * 10 + n <=? maxv) with true by lia.
  - rewrite Nat2Z.inj_succ, Z.pow_succ_r in Hlt by lia.
    rewrite IH; [|split; [apply Z.div_pos; lia|apply Z.div_le_upper_bound; lia]
                 |apply Z.div_lt_upper_bound; lia
                 |intros ->; simpl in Hlt; lia].
    simpl. rewrite digit_val_char by done.
    replace (n `div` 10 * 10 <=? maxv) with true by lia.
    replace (n `div` 10 * 10 + n `mod` 10 <=? maxv) with true by lia.
    f_equal. lia.
Qed.

Lemma dec_go_head fuel n acc :
  0 ≤ n → fuel ≠ O → ∃ a s, dec_go fuel n acc = String a s ∧ is_digit a = true.
Proof.
  revert n acc. induction fuel as [|f IH]; intros n acc Hn Hf; [done|]. simpl.
  assert (is_digit (digit_char (n `mod` 10)) = true)
    by (apply digit_char_is_digit, Z.mod_pos_bound; lia).
  destruct (Z.ltb_spec n 10); [eauto|].
  destruct f as [|f]; [simpl; eauto|].
  apply IH; [apply Z.div_pos; lia|done].
Qed.

(** Printing then parsing an integer that fits is the identity. *)
Lemma parse_show_uint maxv n :
  0 ≤ n ≤ maxv → n ≤ u64_max → parse_uint maxv (show_uint n) = Some n.
Proof.
  intros Hn Hm. unfold u64_max in Hm. unfold show_uint.
  assert (Hp : parse_digits maxv (dec_go 20 n EmptyString) 0 = Some n)
    by (rewrite parse_digits_dec_go; [done|done|lia|done]).
  destruct (dec_go_head 20 n EmptyString) as (a & s & E & Ha); [lia|done|].
  rewrite E in *. unfold parse_uint.
  destruct (Ascii.eqb_spec a "+"%char) as [->|_]; [done|exact Hp].
Qed.

#[export] Hint Resolve show_uint_digits : rn.
