(* ===== verification/Version.v ===== *)
(** * Version: firmware versions ([ota/version.rs]) and OTA errors ([ota/error.rs])

    [Version] with its parser, its [Display] and its [Ord]; [OtaError] with its
    stable wire codes.  The lemmas show that printing and parsing are inverse
    and that the comparison is the lexicographic total order. *)
From Stdlib Require Import Ascii.
From S2P Require Import Prelude Text.
Open Scope Z_scope.

(** [ota/error.rs]: [OtaError]. *)
Inductive OtaError :=
| ServerUnreachable
| DownloadFailed (status : Z)
| DownloadTimeout
| ChecksumMismatch
| VersionInvalid
| FlashWriteFailed
| PartitionNotFound
| InsufficientSpace.

#[export] Instance OtaError_eq_dec : EqDecision OtaError.
Proof. solve_decision. Defined.

Definition OtaError_code (e : OtaError) : string :=
  match e with
  | ServerUnreachable => "server_unreachable"
  | DownloadFailed _ => "download_failed"
  | DownloadTimeout => "download_timeout"
  | ChecksumMismatch => "checksum_mismatch"
  | VersionInvalid => "version_invalid"
  | FlashWriteFailed => "flash_write_failed"
  | PartitionNotFound => "partition_not_found"
  | InsufficientSpace => "insufficient_space"
  end.

Definition classify_read_error (is_timeout : bool) : OtaError :=
  if is_timeout then DownloadTimeout else ServerUnreachable.

(** [ota/version.rs]: three [u16] components. *)
Record Version := mkVersion { major : Z; minor : Z; patch : Z }.

#[export] Instance Version_eq_dec : EqDecision Version.
Proof. solve_decision. Defined.

(** The type invariant of the three [u16] fields. *)
Definition wf_version (v : Version) : Prop :=
  is_u16 (major v) ∧ is_u16 (minor v) ∧ is_u16 (patch v).

#[export] Instance wf_version_dec v : Decision (wf_version v).
Proof. unfold wf_version. apply _. Defined.

Definition ok_or {E A} (o : option A) (e : E) : result E A :=
  match o with Some a => Ok a | None => Err e end.

(** [Version::parse].  [parts.next()] on the four-way split is a match on the
    list of parts. *)
Definition Version_parse (s : string) : result OtaError Version :=
  let s := trim s in
  match splitn 4 "."%char s with
  | major_str :: minor_str :: patch_str :: rest =>
      match rest with
      | _ :: _ => Err VersionInvalid
      | [] =>
          if bool_decide (major_str = EmptyString) then Err VersionInvalid
          else
            major ← ok_or (parse_u16 major_str) VersionInvalid;
            minor ← ok_or (parse_u16 minor_str) VersionInvalid;
            patch ← ok_or (parse_u16 patch_str) VersionInvalid;
            Ok (mkVersion major minor patch)
      end
  | _ => Err VersionInvalid
  end.

(** [Ord for Version]. *)
Definition Version_cmp (a b : Version) : comparison :=
  match major a ?= major b with
  | Eq => match minor a ?= minor b with
          | Eq => patch a ?= patch b
          | other => other
          end
  | other => other
  end.

(** [Display for Version]: [{}.{}.{}]. *)
Definition Version_display (v : Version) : string :=
  show_uint (major v) +:+ "." +:+ show_uint (minor v) +:+ "." +:+ show_uint (patch v).

(** ** Lemmas *)

Lemma Version_cmp_eq a b : Version_cmp a b = Eq ↔ a = b.
Proof.
  destruct a as [a1 a2 a3], b as [b1 b2 b3]. unfold Version_cmp. simpl.
  destruct (Z.compare_spec a1 b1); [subst|split; [done|intros [= ]; lia]..].
  destruct (Z.compare_spec a2 b2); [subst|split; [done|intros [= ]; lia]..].
  destruct (Z.compare_spec a3 b3); [subst; done|split; [done|intros [= ]; lia]..].
Qed.

Lemma Version_cmp_antisym a b : Version_cmp b a = CompOpp (Version_cmp a b).
Proof.
  unfold Version_cmp.
  rewrite (Z.compare_antisym (major a)), (Z.compare_antisym (minor a)),
    (Z.compare_antisym (patch a)).
  by destruct (major a ?= major b), (minor a ?= minor b), (patch a ?= patch b).
Qed.

(** Weight of a version of [u16] components: the order is that of the weights. *)
Definition version_weight (v : Version) : Z :=
  (major v * 65536 + minor v) * 65536 + patch v.

Lemma Version_cmp_weight a b :
  wf_version a → wf_version b →
  Version_cmp a b = (version_weight a ?= version_weight b).
Proof.
  unfold wf_version, is_u16, u16_max, version_weight, Version_cmp.
  destruct a as [a1 a2 a3], b as [b1 b2 b3]. cbn [major minor patch]. intros Ha Hb.
  destruct (Z.compare_spec a1 b1); [subst b1|symmetry..];
    [|rewrite Z.compare_lt_iff; lia|rewrite Z.compare_gt_iff; lia].
  destruct (Z.compare_spec a2 b2); [subst b2|symmetry..];
    [|rewrite Z.compare_lt_iff; lia|rewrite Z.compare_gt_iff; lia].
  destruct (Z.compare_spec a3 b3); symmetry;
    [rewrite Z.compare_eq_iff|rewrite Z.compare_lt_iff|rewrite Z.compare_gt_iff]; lia.
Qed.

Lemma version_display_chars p v :
  wf_version v → (∀ a, is_digit a = true → p a = true) → p "."%char = true →
  str_forall p (Version_display v) = true.
Proof.
  intros [[? ?] [[? ?] [? ?]]] Hp Hdot. unfold Version_display.
  rewrite !str_forall_app. cbn [str_forall]. rewrite Hdot.
  rewrite !(str_forall_impl is_digit p) by auto using show_uint_digits. done.
Qed.

Lemma version_display_len v : wf_version v → str_len (Version_display v) ≤ 17.
Proof.
  intros [H1 [H2 H3]].
  assert (∀ n, is_u16 n → str_len (show_uint n) ≤ 5) as H5.
  { intros n Hn. unfold is_u16, u16_max in Hn.
    pose proof (dec_go_length 20 n EmptyString 5) as H5.
    unfold show_uint. change (str_len "") with 0 in H5. lia. }
  unfold Version_display. rewrite !str_len_app.
  change (str_len ".") with 1.
  pose proof (H5 _ H1); pose proof (H5 _ H2); pose proof (H5 _ H3). lia.
Qed.

Lemma version_display_ascii v : wf_version v → is_ascii (Version_display v) = true.
Proof. intros. apply version_display_chars; auto using digit_ascii. Qed.

(** Parsing what [Display] prints gives the version back. *)
Lemma version_parse_display_ok v :
  wf_version v → Version_parse (Version_display v) = Ok v.
Proof.
  intros Hwf. unfold Version_parse.
  rewrite trim_plain by (apply version_display_chars; auto using digit_plain).
  destruct Hwf as ([? ?] & [? ?] & [? ?]). unfold u16_max in *.
  assert (∀ n, 0 ≤ n → str_forall (λ a, negb (Ascii.eqb a "."%char)) (show_uint n) = true) as Hd.
  { intros n Hn. apply (str_forall_impl is_digit); [|by apply show_uint_digits].
    intros a Ha. by apply digit_not_char. }
  unfold Version_display. cbn [splitn].
  change ("." +:+ show_uint (patch v)) with (String "."%char (show_uint (patch v))).
  change ("." +:+ show_uint (minor v) +:+ ?x) with (String "."%char (show_uint (minor v) +:+ x)).
  rewrite split_once_app by auto. rewrite split_once_app by auto.
  rewrite split_once_none by auto.
  destruct (dec_go_head 20 (major v) EmptyString) as (a & s & E & _); [done..|].
  rewrite bool_decide_eq_false_2 by (unfold show_uint; congruence).
  unfold parse_u16. rewrite !parse_show_uint by (unfold u16_max, u64_max; lia).
  by destruct v.
Qed.

Lemma parse_digits_range maxv s acc n :
  0 ≤ acc ≤ maxv → parse_digits maxv s acc = Some n → 0 ≤ n ≤ maxv.
Proof.
  revert acc. induction s as [|a s IH]; intros acc Hacc; simpl; [by intros [= <-]|].
  unfold digit_val. case_match eqn:Hd; [|done].
  destruct (_ && _) eqn:Hb in Hd; [|done]. injection Hd as <-.
  case_match; [|done]. case_match; [|done]. apply IH. lia.
Qed.

Lemma parse_u16_range t n : parse_u16 t = Some n → is_u16 n.
Proof.
  destruct t as [|a t]; unfold parse_u16, parse_uint; [done|].
  destruct (Ascii.eqb a "+"%char); [destruct t; [done|]|];
    intros H; apply parse_digits_range in H; unfold is_u16, u16_max in *; lia.
Qed.

(** Every parsed version has [u16] components. *)
Lemma Version_parse_wf s v : Version_parse s = Ok v → wf_version v.
Proof.
  unfold Version_parse.
  destruct (splitn 4 _ _) as [|p1 [|p2 [|p3 [|]]]]; try done.
  case_bool_decide; [done|].
  destruct (parse_u16 p1) eqn:E1; [|done].
  destruct (parse_u16 p2) eqn:E2; [|done].
  destruct (parse_u16 p3) eqn:E3; [|done].
  intros [= <-]. repeat split; eapply parse_u16_range; eauto.
Qed.

#[export] Hint Resolve version_display_ascii version_parse_display_ok Version_parse_wf : rn.
