(* ===== verification/Decision.v ===== *)
(** * Decision: the pure decision core of the OTA subsystem

    [ota/decision.rs] (update and offer decisions, admission), [ota/reconcile.rs]
    (boot reconciliation) and [ota/state.rs] (the linear stage machine).
    Everything here is a total function of persisted evidence and boot facts. *)
From S2P Require Import Prelude Text Version.
Open Scope Z_scope.

(** ** [ota/state.rs] *)

Inductive OtaState := Idle | Downloading | Verifying | Writing | SwapPending | Booted.

#[export] Instance OtaState_eq_dec : EqDecision OtaState.
Proof. solve_decision. Defined.

Definition next_state (s : OtaState) : option OtaState :=
  match s with
  | Idle => Some Downloading
  | Downloading => Some Verifying
  | Verifying => Some Writing
  | Writing => Some SwapPending
  | SwapPending => Some Booted
  | Booted => None
  end.

(** ** [ota/decision.rs] *)

Inductive UpdateDecision := UApply | USkip | UReject.

Definition decide_update (running offered : Version) : UpdateDecision :=
  match Version_cmp offered running with
  | Gt => UApply
  | Eq => USkip
  | Lt => UReject
  end.

Inductive BlockedBy := AttemptUnresolved | ReportPending.
Inductive Admission := Open | Blocked (by_ : BlockedBy).
Inductive OfferDecision := OApply | OSkip | OReject | ORefused | OBlocked.

#[export] Instance BlockedBy_eq_dec : EqDecision BlockedBy.
Proof. solve_decision. Defined.
#[export] Instance Admission_eq_dec : EqDecision Admission.
Proof. solve_decision. Defined.
#[export] Instance OfferDecision_eq_dec : EqDecision OfferDecision.
Proof. solve_decision. Defined.

Definition Admission_from_records (attempt_exists report_undelivered : bool) : Admission :=
  if attempt_exists then Blocked AttemptUnresolved
  else if report_undelivered then Blocked ReportPending
  else Open.

Definition decide_offer (running offered : Version) (refused : option Version)
    (admission : Admission) : OfferDecision :=
  match decide_update running offered with
  | USkip => OSkip
  | UReject => OReject
  | UApply =>
      if bool_decide (refused = Some offered) then ORefused
      else match admission with
           | Blocked _ => OBlocked
           | Open => OApply
           end
  end.

(** ** [ota/reconcile.rs] *)

Record SlotId := mkSlotId { slot_index : Z }.

#[export] Instance SlotId_eq_dec : EqDecision SlotId.
Proof. solve_decision. Defined.

Inductive SlotState := SValid | SPendingVerify | SInvalid | SUnknown.

#[export] Instance SlotState_eq_dec : EqDecision SlotState.
Proof. solve_decision. Defined.

Record AttemptRecord := mkAttempt {
  attempt_id : Z;
  ar_version : option Version;
  ar_slot : SlotId;
  boot_selected : bool;
  activated : bool;
  slot_was_invalid : bool
}.

#[export] Instance AttemptRecord_eq_dec : EqDecision AttemptRecord.
Proof. solve_decision. Defined.

Record BootFacts := mkFacts {
  running_slot : SlotId;
  running_state : SlotState;
  running_version : option Version;
  update_slot : option (SlotId * SlotState);
  report_persisted : bool
}.

Inductive ReconcileAction :=
| NoAttempt
| AwaitHealthCheck (mark_activated : bool)
| CompleteAttempt
| ClearAttempt
| RefuseImage (promised : option Version) (mark_activated : bool)
| ReportRollback (id : Z) (left : option Version) (report_already_persisted : bool)
| Defer.

#[export] Instance ReconcileAction_eq_dec : EqDecision ReconcileAction.
Proof. solve_decision. Defined.

Definition reconcile (attempt : option AttemptRecord) (facts : BootFacts) : ReconcileAction :=
  match attempt with
  | None => NoAttempt
  | Some attempt =>
      if bool_decide (ar_slot attempt = running_slot facts) then
        let pending := bool_decide (running_state facts = SPendingVerify) in
        let matches := bool_decide (is_Some (ar_version attempt)) &&
                       bool_decide (ar_version attempt = running_version facts) in
        if matches then
          match running_state facts with
          | SPendingVerify => AwaitHealthCheck (negb (activated attempt))
          | SValid => CompleteAttempt
          | SInvalid | SUnknown => ClearAttempt
          end
        else if pending then
          RefuseImage (ar_version attempt) (negb (activated attempt))
        else ClearAttempt
      else
        let rollback := ReportRollback (attempt_id attempt) (ar_version attempt)
                          (report_persisted facts) in
        if activated attempt || boot_selected attempt then rollback
        else match update_slot facts with
             | None => Defer
             | Some (slot, SInvalid) =>
                 if bool_decide (slot = ar_slot attempt) && negb (slot_was_invalid attempt)
                 then rollback else ClearAttempt
             | Some _ => ClearAttempt
             end
  end.

(** ** Specification of [reconcile] *)

(** The evidence that the device fell back from an attempted image. *)
Definition rolled_back_evidence (a : AttemptRecord) (f : BootFacts) : Prop :=
  activated a = true ∨ boot_selected a = true ∨
  (update_slot f = Some (ar_slot a, SInvalid) ∧ slot_was_invalid a = false).

(** The running image is the promised one. *)
Definition promised_image (a : AttemptRecord) (f : BootFacts) : Prop :=
  ar_version a ≠ None ∧ ar_version a = running_version f.

(** The decision table of the module documentation, one rule per row. *)
Inductive verdict (a : AttemptRecord) (f : BootFacts) : ReconcileAction → Prop :=
| V_await :
    ar_slot a = running_slot f → promised_image a f → running_state f = SPendingVerify →
    verdict a f (AwaitHealthCheck (negb (activated a)))
| V_complete :
    ar_slot a = running_slot f → promised_image a f → running_state f = SValid →
    verdict a f CompleteAttempt
| V_refuse :
    ar_slot a = running_slot f → ¬ promised_image a f → running_state f = SPendingVerify →
    verdict a f (RefuseImage (ar_version a) (negb (activated a)))
| V_clear_running :
    ar_slot a = running_slot f → running_state f ≠ SPendingVerify →
    (promised_image a f → running_state f ≠ SValid) →
    verdict a f ClearAttempt
| V_report :
    ar_slot a ≠ running_slot f → rolled_back_evidence a f →
    verdict a f (ReportRollback (attempt_id a) (ar_version a) (report_persisted f))
| V_defer :
    ar_slot a ≠ running_slot f → ¬ rolled_back_evidence a f → update_slot f = None →
    verdict a f Defer
| V_clear_interrupted :
    ar_slot a ≠ running_slot f → ¬ rolled_back_evidence a f → update_slot f ≠ None →
    verdict a f ClearAttempt.

#[export] Instance promised_image_dec a f : Decision (promised_image a f).
Proof. unfold promised_image. apply _. Defined.

#[export] Instance rolled_back_evidence_dec a f : Decision (rolled_back_evidence a f).
Proof. unfold rolled_back_evidence. apply _. Defined.

Lemma promised_image_match a f :
  bool_decide (is_Some (ar_version a)) && bool_decide (ar_version a = running_version f)
  = bool_decide (promised_image a f).
Proof.
  assert (is_Some (ar_version a) ↔ ar_version a ≠ None) as Hs by (symmetry; apply not_eq_None_Some).
  unfold promised_image. repeat case_bool_decide; naive_solver.
Qed.

(** Reading [reconcile] off the table. *)
Lemma reconcile_running a f :
  ar_slot a = running_slot f →
  reconcile (Some a) f =
    if bool_decide (promised_image a f) then
      match running_state f with
      | SPendingVerify => AwaitHealthCheck (negb (activated a))
      | SValid => CompleteAttempt
      | SInvalid | SUnknown => ClearAttempt
      end
    else if bool_decide (running_state f = SPendingVerify)
    then RefuseImage (ar_version a) (negb (activated a)) else ClearAttempt.
Proof.
  intros H. unfold reconcile. rewrite bool_decide_eq_true_2 by done.
  by rewrite promised_image_match.
Qed.

Lemma reconcile_previous a f :
  ar_slot a ≠ running_slot f →
  reconcile (Some a) f =
    if bool_decide (rolled_back_evidence a f)
    then ReportRollback (attempt_id a) (ar_version a) (report_persisted f)
    else match update_slot f with None => Defer | Some _ => ClearAttempt end.
Proof.
  intros H. unfold reconcile. rewrite bool_decide_eq_false_2 by done.
  assert (Hb : activated a || boot_selected a = true ∨
               (activated a || boot_selected a = false ∧
                (rolled_back_evidence a f ↔
                 update_slot f = Some (ar_slot a, SInvalid) ∧ slot_was_invalid a = false))).
  { unfold rolled_back_evidence. destruct (activated a), (boot_selected a); simpl; naive_solver. }
  destruct Hb as [Hb|[Hb He]]; rewrite Hb.
  - rewrite bool_decide_eq_true_2; [done|].
    apply orb_true_iff in Hb. unfold rolled_back_evidence. tauto.
  - rewrite (bool_decide_ext _ _ He).
    destruct (update_slot f) as [[sl []]|], (slot_was_invalid a); simpl;
      rewrite ?andb_true_r, ?andb_false_r; repeat case_bool_decide; naive_solver.
Qed.

Lemma reconcile_verdict a f : verdict a f (reconcile (Some a) f).
Proof.
  destruct (decide (ar_slot a = running_slot f)) as [Hs|Hs].
  - rewrite reconcile_running by done.
    case_bool_decide as Hp; [destruct (running_state f) eqn:Hst|case_bool_decide as Hst].
    all: first [by eapply V_await|by eapply V_complete|by eapply V_refuse
               |eapply V_clear_running; try done; congruence].
  - rewrite reconcile_previous by done.
    case_bool_decide as He; [by apply V_report|].
    destruct (update_slot f) eqn:Hu; [apply V_clear_interrupted|apply V_defer]; congruence.
Qed.

Lemma verdict_reconcile a f act : verdict a f act → reconcile (Some a) f = act.
Proof.
  destruct 1 as [Hs Hp Hst|Hs Hp Hst|Hs Hp Hst|Hs Hst Hp|Hs He|Hs He Hu|Hs He Hu];
    rewrite ?reconcile_running, ?reconcile_previous by done.
  - by rewrite bool_decide_eq_true_2, Hst by done.
  - by rewrite bool_decide_eq_true_2, Hst by done.
  - by rewrite bool_decide_eq_false_2, bool_decide_eq_true_2 by done.
  - case_bool_decide; [|by rewrite bool_decide_eq_false_2 by done].
    destruct (running_state f); naive_solver.
  - by rewrite bool_decide_eq_true_2 by done.
  - by rewrite bool_decide_eq_false_2, Hu by done.
  - rewrite bool_decide_eq_false_2 by done. by destruct (update_slot f).
Qed.

Lemma reconcile_spec a f act : reconcile (Some a) f = act ↔ verdict a f act.
Proof. split; [intros <-; apply reconcile_verdict|apply verdict_reconcile]. Qed.

Lemma reconcile_noattempt_iff o f : reconcile o f = NoAttempt ↔ o = None.
Proof.
  destruct o as [a|]; [|done]. split; [|done].
  intros H%reconcile_spec. inversion H.
Qed.

(** ** boot reconciliation is the documented decision table *)

(** boot reconciliation follows the decision table of the module documentation, row by row.  Every attempt
    and set of boot facts falls under exactly one verdict, [reconcile] returns it, and the absence of
    an attempt is the only way to do nothing; in particular a rollback is reported only when another
    slot runs and the evidence of a fallback exists, the image is accepted only when the promised
    version runs from the attempt's slot, and no decision is taken on an unreadable update slot. *)
Lemma reconcile_table :
  (∀ o f, reconcile o f = NoAttempt ↔ o = None) ∧
  ∀ a f,
    (∀ act, reconcile (Some a) f = act ↔ verdict a f act) ∧
    (∀ id left_ p, reconcile (Some a) f = ReportRollback id left_ p →
       ar_slot a ≠ running_slot f ∧ rolled_back_evidence a f ∧
       id = attempt_id a ∧ left_ = ar_version a ∧ p = report_persisted f) ∧
    (reconcile (Some a) f = CompleteAttempt →
       ar_slot a = running_slot f ∧ promised_image a f ∧ running_state f = SValid) ∧
    (update_slot f = None → ar_slot a ≠ running_slot f → ¬ rolled_back_evidence a f →
       reconcile (Some a) f = Defer).
Proof.
  split; [apply reconcile_noattempt_iff|]. intros a f. split_and!.
  - apply reconcile_spec.
  - intros id left_ p H%reconcile_spec. inversion H; subst. done.
  - intros H%reconcile_spec. inversion H; subst. done.
  - intros Hu Hs He. apply reconcile_spec. by constructor.
Qed.
