(* ===== verification/Kv.v ===== *)
(** * Kv: the key-value interface of the OTA record store
    ([ota/persist/kv.rs], [ota/persist/keys.rs])

    [OtaKv] is the trait as a class of state-passing operations.  [KvContract]
    states the contract of the trait's documentation against an abstract durable
    content, a finite map from keys to typed values: every successful write is
    one durable commit, a failed write leaves the old or the new content (a
    power loss right after the commit), a failed string write may also leave the
    key absent, a read never changes the content, [Ok None] means exactly "key
    absent", and the two codes for a bad stored value are reported only for a
    value that is bad.  Nothing is assumed about when operations fail, so every
    theorem proved against the contract holds for power loss after any commit
    and for arbitrary sequences of transient faults.  [healthy] marks a backend
    without pending faults; it is used for progress statements only. *)
From Stdlib Require Import Ascii.
From S2P Require Import Prelude Text Decision.
Open Scope Z_scope.

(** ** [kv.rs] *)

Record KvError := mkKvError { kv_code : Z }.

#[export] Instance KvError_eq_dec : EqDecision KvError.
Proof. solve_decision. Defined.

Definition CODE_TYPE_MISMATCH : Z := -28673.
Definition CODE_INVALID_VALUE : Z := -28674.

Definition type_mismatch : KvError := mkKvError CODE_TYPE_MISMATCH.
Definition invalid_value : KvError := mkKvError CODE_INVALID_VALUE.

(** [store.rs]: whether a read failure means the stored value itself is bad. *)
Definition is_corrupt_code (e : KvError) : bool :=
  (kv_code e =? CODE_TYPE_MISMATCH) || (kv_code e =? CODE_INVALID_VALUE).

(** Capacity of [KvStr], a [heapless::String<32>]. *)
Definition kv_str_cap : Z := 32.

Class OtaKv (K : Type) := {
  get_u8 : string → M K KvError (option Z);
  get_u32 : string → M K KvError (option Z);
  get_str : string → M K KvError (option string);
  set_u8 : string → Z → M K KvError unit;
  set_u32 : string → Z → M K KvError unit;
  set_str : string → string → M K KvError unit;
  remove : string → M K KvError unit
}.
#[global] Hint Mode OtaKv ! : typeclass_instances.

(** ** [keys.rs] *)

Definition RB : string := "rb".
Definition RB_WHY : string := "rb_why".
Definition RB_ID : string := "rb_id".
Definition ATT_CTR : string := "att_ctr".
Definition ATT_EPOCH : string := "att_epoch".
Definition ATT_ID : string := "att_id".
Definition ATT_BOOT : string := "att_boot".
Definition ATT_VER : string := "att_ver".
Definition ATT_SLOT : string := "att_slot".
Definition ATT_ACT : string := "att_act".
Definition ATT_INV : string := "att_inv".
Definition ATT_WHY : string := "att_why".
Definition RQ_ID : string := "rq_id".
Definition RQ_WHY : string := "rq_why".
Definition RQ_FROM : string := "rq_from".
Definition REJ_VER : string := "rej_ver".

Definition FACTORY_SLOT : SlotId := mkSlotId 255.

Definition slot_label (slot : SlotId) : option string :=
  match slot_index slot with
  | 0 => Some "ota_0"
  | 1 => Some "ota_1"
  | 255 => Some "factory"
  | _ => None
  end.

Definition slot_from_label (label : string) : option SlotId :=
  if bool_decide (label = "ota_0") then Some (mkSlotId 0)
  else if bool_decide (label = "ota_1") then Some (mkSlotId 1)
  else if bool_decide (label = "factory") then Some FACTORY_SLOT
  else None.

Definition slot_for_partition (label : string) : SlotId :=
  default FACTORY_SLOT (slot_from_label label).

(** ** Durable content *)

(** [VBad] is a stored string that does not fit [KvStr] or is not ASCII. *)
Inductive Val := VU8 (n : Z) | VU32 (n : Z) | VStr (s : string) | VBad.

#[export] Instance Val_eq_dec : EqDecision Val.
Proof. solve_decision. Defined.

Abbreviation contents := (gmap string Val).

Definition read_u8 (v : option Val) : result KvError (option Z) :=
  match v with
  | None => Ok None
  | Some (VU8 n) => Ok (Some n)
  | Some _ => Err type_mismatch
  end.

Definition read_u32 (v : option Val) : result KvError (option Z) :=
  match v with
  | None => Ok None
  | Some (VU32 n) => Ok (Some n)
  | Some _ => Err type_mismatch
  end.

Definition read_str (v : option Val) : result KvError (option string) :=
  match v with
  | None => Ok None
  | Some (VStr s) => Ok (Some s)
  | Some VBad => Err invalid_value
  | Some _ => Err type_mismatch
  end.

(** A string every backend must accept: at most 32 ASCII bytes, none of them NUL (the NVS backend
    passes C strings). *)
Definition kv_char (a : ascii) : bool := is_ascii_byte a && negb (byte_of a =? 0).
Definition kv_storable (s : string) : Prop := str_forall kv_char s = true ∧ str_len s ≤ kv_str_cap.

#[export] Instance kv_storable_dec s : Decision (kv_storable s).
Proof. unfold kv_storable. apply _. Defined.

(** ** The contract of [OtaKv] *)
Section contract.
Context {K : Type} (content : K → contents) (kv_ok healthy : K → Prop).

Definition read_contract {A} (m : M K KvError A) (f : contents → result KvError A) : Prop :=
  ∀ s, kv_ok s → ∀ r s', m s = (r, s') →
    kv_ok s' ∧ content s' = content s ∧
    (healthy s → healthy s' ∧ r = f (content s)) ∧
    (∀ a, r = Ok a → f (content s) = Ok a) ∧
    (∀ e, r = Err e → is_corrupt_code e = true → f (content s) = Err e).

Definition write_contract (m : M K KvError unit) (accepted : Prop)
    (post : contents → contents) (torn : contents → contents → Prop) : Prop :=
  ∀ s, kv_ok s → ∀ r s', m s = (r, s') →
    kv_ok s' ∧
    (healthy s → healthy s' ∧ (accepted → r = Ok tt)) ∧
    match r with
    | Ok _ => content s' = post (content s)
    | Err _ => torn (content s) (content s')
    end.

(** What a failed write may leave behind. *)
Definition torn_commit (post : contents → contents) (c c' : contents) : Prop :=
  c' = c ∨ c' = post c.
Definition torn_str (k : string) (post : contents → contents) (c c' : contents) : Prop :=
  c' = c ∨ c' = post c ∨ c' = delete k c.
End contract.

Class KvContract (K : Type) `{OtaKv K} := {
  content : K → contents;
  kv_ok : K → Prop;
  healthy : K → Prop;
  get_u8_contract k : read_contract content kv_ok healthy (get_u8 k) (λ c, read_u8 (c !! k));
  get_u32_contract k : read_contract content kv_ok healthy (get_u32 k) (λ c, read_u32 (c !! k));
  get_str_contract k : read_contract content kv_ok healthy (get_str k) (λ c, read_str (c !! k));
  set_u8_contract k n :
    write_contract content kv_ok healthy (set_u8 k n) True
      <[k := VU8 n]> (torn_commit <[k := VU8 n]>);
  set_u32_contract k n :
    write_contract content kv_ok healthy (set_u32 k n) True
      <[k := VU32 n]> (torn_commit <[k := VU32 n]>);
  set_str_contract k v :
    write_contract content kv_ok healthy (set_str k v) (kv_storable v)
      <[k := VStr v]> (torn_str k <[k := VStr v]>);
  remove_contract k :
    write_contract content kv_ok healthy (remove k) True (delete k) (torn_commit (delete k))
}.
#[global] Hint Mode KvContract ! - : typeclass_instances.

(** ** Slot labels *)

Lemma slot_label_roundtrip s l : slot_label s = Some l → slot_from_label l = Some s.
Proof.
  destruct s as [i]. unfold slot_label. simpl.
  repeat (case_match; try discriminate); intros [= <-]; subst; reflexivity.
Qed.

Lemma slot_label_storable s l : slot_label s = Some l → kv_storable l.
Proof.
  destruct s as [i]. unfold slot_label. simpl.
  repeat (case_match; try discriminate); intros [= <-]; by split.
Qed.

#[export] Hint Resolve slot_label_roundtrip slot_label_storable : rn.
