(* ===== verification/FaultKv.v ===== *)
(** * FaultKv: the in-memory backend with fault injection
    ([ota/persist/fault_kv.rs])

    The backend the repository's own crash tests use: a map, a commit log and
    counters, and armed faults (power loss after commit [n], failing commit [n],
    failing read [n], unreadable keys).  It is an instance of [OtaKv], and the
    theorem at the end is the proof that it satisfies [KvContract], so every
    theorem about the record store holds on it. *)
From S2P Require Import Prelude Text Decision Kv.
Open Scope Z_scope.

Definition CRASHED : Z := -1.
Definition INJECTED : Z := -2.

(** The three value types of [fault_kv.rs]; [VStr] is a [KvStr]. *)
Inductive Op := OpSet | OpErase | OpRemove.

#[export] Instance Op_eq_dec : EqDecision Op.
Proof. solve_decision. Defined.

Record LogEntry := mkLog { le_op : Op; le_key : string; le_value : option Val }.

Record Inner := mkInner {
  fk_map : gmap string Val;
  fk_log : list LogEntry;
  fk_commits : Z;
  fk_reads : Z;
  fk_crash_after : option Z;
  fk_fail_at : option Z;
  fk_fail_after_erase : option Z;
  fk_fail_read_at : option Z;
  fk_corrupt : gmap string Z;
  fk_crashed : bool
}.

Definition err {A} (code : Z) : result KvError A := Err (mkKvError code).

Definition FaultKv_from_map (m : gmap string Val) : Inner :=
  mkInner m [] 0 0 None None None None ∅ false.

(** [Inner::commit]. *)
Definition fk_commit (op : Op) (key : string) (value : option Val) : M Inner KvError Z :=
  λ i,
  if fk_crashed i then (err CRASHED, i)
  else
    let n := fk_commits i + 1 in
    let i := mkInner (fk_map i) (fk_log i) n (fk_reads i) (fk_crash_after i) (fk_fail_at i)
               (fk_fail_after_erase i) (fk_fail_read_at i) (fk_corrupt i) (fk_crashed i) in
    if bool_decide (fk_fail_at i = Some n) then (err INJECTED, i)
    else
      let '(m, c) := match op, value with
                     | OpSet, Some v => (<[key := v]> (fk_map i), delete key (fk_corrupt i))
                     | _, _ => (delete key (fk_map i), fk_corrupt i)
                     end in
      let dead := bool_decide (fk_crash_after i = Some n) in
      let i := mkInner m (fk_log i ++ [mkLog op key value]) n (fk_reads i) (fk_crash_after i)
                 (fk_fail_at i) (fk_fail_after_erase i) (fk_fail_read_at i) c dead in
      if dead then (err CRASHED, i) else (Ok n, i).

(** [Inner::read]. *)
Definition fk_read {A} (key : string) (pick : Val → option A) : M Inner KvError (option A) :=
  λ i,
  if fk_crashed i then (err CRASHED, i)
  else
    let i := mkInner (fk_map i) (fk_log i) (fk_commits i) (fk_reads i + 1) (fk_crash_after i) (fk_fail_at i)
               (fk_fail_after_erase i) (fk_fail_read_at i) (fk_corrupt i) (fk_crashed i) in
    if bool_decide (fk_fail_read_at i = Some (fk_reads i)) then (err INJECTED, i)
    else match fk_corrupt i !! key with
         | Some code => (err code, i)
         | None =>
             match fk_map i !! key with
             | None => (Ok None, i)
             | Some v => match pick v with
                         | Some x => (Ok (Some x), i)
                         | None => (err CODE_TYPE_MISMATCH, i)
                         end
             end
         end.

Definition pick_u8 (v : Val) : option Z := match v with VU8 x => Some x | _ => None end.
Definition pick_u32 (v : Val) : option Z := match v with VU32 x => Some x | _ => None end.
Definition pick_str (v : Val) : option string := match v with VStr x => Some x | _ => None end.

Definition fault_set_str (key value : string) : M Inner KvError unit :=
  λ i,
  if kv_str_cap <? str_len value then (err CODE_INVALID_VALUE, i)
  else
    match fk_commit OpErase key None i with
    | (Err e, i) => (Err e, i)
    | (Ok erased, i) =>
        if bool_decide (fk_fail_after_erase i = Some erased) then (err INJECTED, i)
        else match fk_commit OpSet key (Some (VStr value)) i with
             | (Ok _, i) => (Ok tt, i)
             | (Err e, i) => (Err e, i)
             end
    end.

Definition fault_remove (key : string) : M Inner KvError unit :=
  λ i,
  if bool_decide (fk_map i !! key = None) && negb (fk_crashed i) then (Ok tt, i)
  else match fk_commit OpRemove key None i with
       | (Ok _, i) =>
           (Ok tt, mkInner (fk_map i) (fk_log i) (fk_commits i) (fk_reads i) (fk_crash_after i) (fk_fail_at i)
                     (fk_fail_after_erase i) (fk_fail_read_at i) (delete key (fk_corrupt i)) (fk_crashed i))
       | (Err e, i) => (Err e, i)
       end.

#[export] Instance FaultKv_OtaKv : OtaKv Inner := {
  get_u8 k := fk_read k pick_u8;
  get_u32 k := fk_read k pick_u32;
  get_str k := fk_read k pick_str;
  set_u8 k v := _ ← fk_commit OpSet k (Some (VU8 v)); mret tt;
  set_u32 k v := _ ← fk_commit OpSet k (Some (VU32 v)); mret tt;
  set_str := fault_set_str;
  remove := fault_remove
}.

(** No fault is armed and the store is alive. *)
Definition fault_free (i : Inner) : Prop :=
  fk_crash_after i = None ∧ fk_fail_at i = None ∧ fk_fail_after_erase i = None ∧
  fk_fail_read_at i = None ∧ fk_corrupt i = ∅ ∧ fk_crashed i = false.

(** The values [fault_kv.rs] can hold (its [Val] has no unreadable string), and
    injected unreadable keys that answer a transient code ([FaultKv::corrupt]; a
    bad stored value is a value of another type). *)
Definition fault_ok (i : Inner) : Prop :=
  map_Forall (λ _ v, v ≠ VBad) (fk_map i) ∧
  map_Forall (λ _ code, is_corrupt_code (mkKvError code) = false) (fk_corrupt i).

(** The map after a commit that applied. *)
Definition commit_post (op : Op) (key : string) (value : option Val) (m : contents) : contents :=
  match op, value with
  | OpSet, Some v => <[key := v]> m
  | _, _ => delete key m
  end.

(** ** Lemmas *)

Lemma commit_cases op key value i r i' :
  fk_commit op key value i = (r, i') →
  (fault_free i → fault_free i' ∧ ∃ n, r = Ok n) ∧
  match r with
  | Ok _ => fk_map i' = commit_post op key value (fk_map i)
  | Err _ => fk_map i' = fk_map i ∨ fk_map i' = commit_post op key value (fk_map i)
  end.
Proof.
  unfold fk_commit, fault_free, err.
  destruct i as [m lg cm rd ca fa fe fr co cr]; simpl. destruct cr; simpl.
  { intros [= <- <-]. simpl. split; [naive_solver|auto]. }
  case_bool_decide as Hfa.
  { intros [= <- <-]. simpl. split; [naive_solver|auto]. }
  destruct op, value; simpl; case_bool_decide as Hca; intros [= <- <-]; simpl;
    (split; [naive_solver eauto using delete_empty|auto]).
Qed.

Lemma fault_ok_post op key value (m : contents) :
  map_Forall (λ _ v, v ≠ VBad) m → value ≠ Some VBad →
  map_Forall (λ _ v, v ≠ VBad) (commit_post op key value m).
Proof.
  intros Hm Hv. destruct op, value; try by apply map_Forall_delete.
  apply map_Forall_insert_2; [congruence|done].
Qed.

Lemma commit_corrupt op key value i r i' :
  fk_commit op key value i = (r, i') →
  fk_corrupt i' = fk_corrupt i ∨ fk_corrupt i' = delete key (fk_corrupt i).
Proof.
  unfold fk_commit, err. destruct i as [m lg cm rd ca fa fe fr co cr]; simpl.
  destruct cr; [intros [= <- <-]; auto|]. case_bool_decide; [intros [= <- <-]; auto|].
  destruct op, value; simpl; case_bool_decide; intros [= <- <-]; auto.
Qed.

Lemma fk_commit_ok op key value i r i' :
  fk_commit op key value i = (r, i') → value ≠ Some VBad → fault_ok i → fault_ok i'.
Proof.
  unfold fault_ok. intros Hc Hv [Hi Hco]. split.
  - apply commit_cases in Hc as [_ Hc].
    pose proof (fault_ok_post op key value _ Hi Hv).
    destruct r; [by rewrite Hc|destruct Hc as [->| ->]; done].
  - apply commit_corrupt in Hc as [->| ->]; [done|by apply map_Forall_delete].
Qed.

Lemma read_contract_fault {A} key (pick : Val → option A) (f : option Val → result KvError (option A)) :
  f None = Ok None →
  (∀ v, v ≠ VBad → f (Some v) = match pick v with
                                | Some x => Ok (Some x)
                                | None => Err type_mismatch
                                end) →
  read_contract fk_map fault_ok fault_free (fk_read key pick) (λ c, f (c !! key)).
Proof.
  intros Hnone Hsome i Hok r i'. unfold fk_read, err.
  destruct i as [m lg cm rd ca fa fe fr co cr]; simpl.
  unfold fault_ok in *. simpl in *. destruct Hok as [Hm Hco].
  destruct cr; simpl.
  { intros [= <- <-]. split_and!; try done; [unfold fault_free; naive_solver|by intros e [= <-]]. }
  case_bool_decide as Hfr.
  { intros [= <- <-]. split_and!; try done; [unfold fault_free; naive_solver|by intros e [= <-]]. }
  destruct (co !! key) as [code|] eqn:Hck.
  { intros [= <- <-]. split_and!; try done.
    - intros (_ & _ & _ & _ & Hc & _). simpl in Hc. by rewrite Hc, lookup_empty in Hck.
    - intros e [= <-]. by rewrite (Hco _ _ Hck). }
  destruct (m !! key) as [v|] eqn:Hk.
  2:{ intros [= <- <-]. rewrite Hnone. unfold fault_free. naive_solver. }
  pose proof (Hsome v (Hm _ _ Hk)) as Hf. unfold type_mismatch in Hf.
  destruct (pick v); intros [= <- <-]; rewrite Hf; unfold fault_free; naive_solver.
Qed.

Lemma set_contract_fault key v :
  v ≠ VBad →
  write_contract fk_map fault_ok fault_free
    (_ ← fk_commit OpSet key (Some v); mret tt) True <[key := v]> (torn_commit <[key := v]>).
Proof.
  intros Hv i Hok r i'. unfold mbind, M_bind.
  destruct (fk_commit OpSet key (Some v) i) as [[n|e] i1] eqn:E; intros [= <- <-];
    (split; [eapply fk_commit_ok; eauto; congruence|]);
    apply commit_cases in E as [Hf Hm]; (split; [|exact Hm]); intros Hff;
    destruct (Hf Hff) as [? [? ?]]; [by split|done].
Qed.

Lemma set_str_contract_fault key v :
  write_contract fk_map fault_ok fault_free (fault_set_str key v) (kv_storable v)
    <[key := VStr v]> (torn_str key <[key := VStr v]>).
Proof.
  intros i Hok r i'. unfold fault_set_str, kv_storable, err.
  destruct (Z.ltb_spec kv_str_cap (str_len v)).
  { intros [= <- <-]. split_and!; [done|split; [done|lia]|by left]. }
  destruct (fk_commit OpErase key None i) as [[n|e] i1] eqn:E1.
  2:{ intros [= <- <-]. split; [eapply fk_commit_ok; eauto|].
      apply commit_cases in E1 as [Hf Hm]. split.
      - intros Hff. destruct (Hf Hff) as [_ [? ?]]. done.
      - cbn [commit_post] in Hm. unfold torn_str. tauto. }
  pose proof (fk_commit_ok _ _ _ _ _ _ E1 ltac:(done) Hok) as Hok1.
  apply commit_cases in E1 as [Hf1 Hm1]. cbn [commit_post] in Hm1.
  case_bool_decide as Hfe.
  { intros [= <- <-]. split_and!; [done| |right; right; done].
    intros Hff. destruct (Hf1 Hff) as [(_ & _ & He & _) _]. congruence. }
  destruct (fk_commit OpSet key (Some (VStr v)) i1) as [[n2|e] i2] eqn:E2; intros [= <- <-];
    (split; [eapply fk_commit_ok; eauto; done|]);
    apply commit_cases in E2 as [Hf2 Hm2]; cbn [commit_post] in Hm2;
    rewrite Hm1, insert_delete_eq in Hm2;
    (split; [intros Hff; destruct (Hf1 Hff) as [Hff1 _];
             destruct (Hf2 Hff1) as [? [? ?]]; first [by split|done]|]).
  - done.
  - unfold torn_str. tauto.
Qed.

Lemma remove_contract_fault key :
  write_contract fk_map fault_ok fault_free (fault_remove key) True
    (delete key) (torn_commit (delete key)).
Proof.
  intros i Hok r i'. unfold fault_remove.
  destruct (bool_decide (fk_map i !! key = None) && negb (fk_crashed i)) eqn:Hg.
  { intros [= <- <-]. apply andb_true_iff in Hg as [Hg _].
    apply bool_decide_eq_true in Hg. split_and!; [done|done|]. by rewrite delete_id. }
  destruct (fk_commit OpRemove key None i) as [[n|e] i1] eqn:E; intros [= <- <-];
    pose proof (fk_commit_ok _ _ _ _ _ _ E ltac:(done) Hok) as Hok1;
    apply commit_cases in E as [Hf Hm];
    (split; [first [exact Hok1|split; [apply Hok1|apply map_Forall_delete, Hok1]]|]);
    (split; [|exact Hm]);
    intros Hff; destruct (Hf Hff) as [(?&?&?&?&Hc&?) [? ?]]; [|done].
  split; [|done]. unfold fault_free. simpl. rewrite Hc, delete_empty. done.
Qed.

#[export] Instance FaultKv_contract : KvContract Inner.
Proof.
  refine {| content := fk_map; kv_ok := fault_ok; healthy := fault_free |}.
  - intros k. apply (read_contract_fault k pick_u8); [done|]. by intros [].
  - intros k. apply (read_contract_fault k pick_u32); [done|]. by intros [].
  - intros k. apply (read_contract_fault k pick_str); [done|]. by intros [].
  - intros k n. by apply set_contract_fault.
  - intros k n. by apply set_contract_fault.
  - intros k v. apply set_str_contract_fault.
  - intros k. apply remove_contract_fault.
Defined.
