(* ===== verification/Reason.v ===== *)
(** * Reason: the frozen reason vocabularies of the OTA status topic
    ([ota/wire/rollback.rs], [ota/wire/reason.rs])

    [RollbackReason] and [FailReason] with their wire strings and parsers.  The
    strings are a wire contract: the lemmas show that they are pairwise distinct
    and that printing followed by parsing loses nothing but what the wire does
    not carry (the HTTP status, and the two [OtaError] codes that are also fixed
    codes). *)
From S2P Require Import Prelude Text Version Decision.
Open Scope Z_scope.

(** A Rust [match] of a string against literals: the first equal arm wins. *)
Fixpoint match_str {A} (s : string) (arms : list (string * A)) : option A :=
  match arms with
  | [] => None
  | (lit, a) :: rest => if bool_decide (s = lit) then Some a else match_str s rest
  end.

(** ** [wire/rollback.rs] *)

Inductive RollbackReason :=
| RR_Operator | RR_HealthDeadline | RR_Unhealthy | RR_VersionMismatch
| RR_Bootloader | RR_Unknown.

#[export] Instance RollbackReason_eq_dec : EqDecision RollbackReason.
Proof. solve_decision. Defined.

Definition RollbackReason_as_str (r : RollbackReason) : string :=
  match r with
  | RR_Operator => "operator"
  | RR_HealthDeadline => "health_deadline"
  | RR_Unhealthy => "unhealthy"
  | RR_VersionMismatch => "version_mismatch"
  | RR_Bootloader => "bootloader"
  | RR_Unknown => "unknown"
  end.

Definition RollbackReason_parse (label : string) : option RollbackReason :=
  match_str label
    [("operator", RR_Operator); ("health_deadline", RR_HealthDeadline);
     ("unhealthy", RR_Unhealthy); ("version_mismatch", RR_VersionMismatch);
     ("bootloader", RR_Bootloader); ("unknown", RR_Unknown)].

Definition RollbackReason_from_label (label : string) : RollbackReason :=
  default RR_Unknown (RollbackReason_parse label).

(** ** [wire/reason.rs] *)

Inductive FailReason :=
| FR_CommandInvalid | FR_Busy | FR_WorkerUnavailable | FR_PendingVerify
| FR_ManifestFetch | FR_ManifestInvalid | FR_TargetMismatch | FR_VersionInvalid
| FR_PreviouslyRolledBack | FR_UpToDate | FR_Downgrade | FR_AttemptUnresolved
| FR_ReportPending | FR_PartitionNotFound | FR_AttemptNotPersisted
| FR_VersionMismatch | FR_RollbackUnavailable | FR_RepairFailed
| FR_RepairNotNeeded | FR_Ota (e : OtaError).

#[export] Instance FailReason_eq_dec : EqDecision FailReason.
Proof. solve_decision. Defined.

Definition FailReason_as_str (r : FailReason) : string :=
  match r with
  | FR_CommandInvalid => "command_invalid"
  | FR_Busy => "busy"
  | FR_WorkerUnavailable => "worker_unavailable"
  | FR_PendingVerify => "pending_verify"
  | FR_ManifestFetch => "manifest_fetch"
  | FR_ManifestInvalid => "manifest_invalid"
  | FR_TargetMismatch => "target_mismatch"
  | FR_VersionInvalid => "version_invalid"
  | FR_PreviouslyRolledBack => "previously_rolled_back"
  | FR_UpToDate => "up_to_date"
  | FR_Downgrade => "downgrade"
  | FR_AttemptUnresolved => "attempt_unresolved"
  | FR_ReportPending => "report_pending"
  | FR_PartitionNotFound => "partition_not_found"
  | FR_AttemptNotPersisted => "attempt_not_persisted"
  | FR_VersionMismatch => "version_mismatch"
  | FR_RollbackUnavailable => "rollback_unavailable"
  | FR_RepairFailed => "repair_failed"
  | FR_RepairNotNeeded => "repair_not_needed"
  | FR_Ota e => OtaError_code e
  end.

Definition FailReason_from_code (code : string) : option FailReason :=
  match_str code
    [("command_invalid", FR_CommandInvalid); ("busy", FR_Busy);
     ("worker_unavailable", FR_WorkerUnavailable); ("pending_verify", FR_PendingVerify);
     ("manifest_fetch", FR_ManifestFetch); ("manifest_invalid", FR_ManifestInvalid);
     ("target_mismatch", FR_TargetMismatch); ("version_invalid", FR_VersionInvalid);
     ("previously_rolled_back", FR_PreviouslyRolledBack); ("up_to_date", FR_UpToDate);
     ("downgrade", FR_Downgrade); ("attempt_unresolved", FR_AttemptUnresolved);
     ("report_pending", FR_ReportPending); ("partition_not_found", FR_PartitionNotFound);
     ("attempt_not_persisted", FR_AttemptNotPersisted);
     ("version_mismatch", FR_VersionMismatch);
     ("rollback_unavailable", FR_RollbackUnavailable); ("repair_failed", FR_RepairFailed);
     ("repair_not_needed", FR_RepairNotNeeded);
     ("server_unreachable", FR_Ota ServerUnreachable);
     ("download_failed", FR_Ota (DownloadFailed 0));
     ("download_timeout", FR_Ota DownloadTimeout);
     ("checksum_mismatch", FR_Ota ChecksumMismatch);
     ("flash_write_failed", FR_Ota FlashWriteFailed);
     ("insufficient_space", FR_Ota InsufficientSpace)].

Definition FailReason_from_offer (decision : OfferDecision) (admission : Admission) :
    option FailReason :=
  match decision with
  | OApply => None
  | OSkip => Some FR_UpToDate
  | OReject => Some FR_Downgrade
  | ORefused => Some FR_PreviouslyRolledBack
  | OBlocked => Some match admission with
                     | Blocked ReportPending => FR_ReportPending
                     | Blocked AttemptUnresolved | Open => FR_AttemptUnresolved
                     end
  end.

(** ** Lemmas *)

Lemma match_str_in {A} s (arms : list (string * A)) a :
  match_str s arms = Some a → (s, a) ∈ arms.
Proof.
  induction arms as [|[lit b] arms IH]; simpl; [done|].
  case_bool_decide as Heq; [intros [= ->]; subst; left|right; auto].
Qed.

Lemma RollbackReason_parse_as_str r : RollbackReason_parse (RollbackReason_as_str r) = Some r.
Proof. by destruct r. Qed.

Lemma RollbackReason_parse_inv s r :
  RollbackReason_parse s = Some r → RollbackReason_as_str r = s.
Proof.
  intros H%match_str_in. repeat (apply elem_of_cons in H as [[= -> ->]|H]; [done|]).
  by apply not_elem_of_nil in H.
Qed.

(** What the wire keeps of a reason: the HTTP status is dropped, and the two
    codes shared with [OtaError] read back as the fixed reasons. *)
Definition wire_normal (r : FailReason) : FailReason :=
  match r with
  | FR_Ota (DownloadFailed _) => FR_Ota (DownloadFailed 0)
  | FR_Ota VersionInvalid => FR_VersionInvalid
  | FR_Ota PartitionNotFound => FR_PartitionNotFound
  | _ => r
  end.

Lemma FailReason_roundtrip r :
  FailReason_from_code (FailReason_as_str r) = Some (wire_normal r).
Proof. destruct r as [| | | | | | | | | | | | | | | | | | |[]]; reflexivity. Qed.

Lemma FailReason_from_code_inv s r :
  FailReason_from_code s = Some r → FailReason_as_str r = s ∧ wire_normal r = r.
Proof.
  intros H%match_str_in. repeat (apply elem_of_cons in H as [[= -> ->]|H]; [done|]).
  by apply not_elem_of_nil in H.
Qed.

Lemma RollbackReason_storable r :
  is_ascii (RollbackReason_as_str r) = true ∧ str_len (RollbackReason_as_str r) ≤ 16.
Proof. by destruct r. Qed.
