(* ===== verification/KvLogic.v ===== *)
(** * KvLogic: a program logic for code over an [OtaKv] backend

    [OtaStore] owns a backend and an entropy source ([ota/persist/store.rs]).
    [sat md m c Q X] says: from every state whose durable content is [c], [m]
    ends with a value satisfying [Q] or an error satisfying [X], both stated on
    the content left behind.  In mode [Faulty] every backend call may fail at any
    time, so the states allowed by [X] include every state a power loss can leave
    (the operation stops at its first error and a dead backend changes nothing
    more); in mode [Healthy] no fault happens and the statement is total
    correctness.  The rules below are the only place where the backend contract
    is used. *)
From S2P Require Import Prelude Text Decision Kv.
Open Scope Z_scope.

(** [OtaStore]: the backend and [entropy: fn() -> u32], whose successive results
    are an arbitrary sequence. *)
Record OtaStore (K : Type) := mkStore { kv : K; entropy : nat → Z; draws : nat }.
Arguments mkStore {K} kv entropy draws.
Arguments kv {K} o.
Arguments entropy {K} o.
Arguments draws {K} o.

Definition OtaStore_open {K} (k : K) (entropy : nat → Z) : OtaStore K := mkStore k entropy 0.

Definition self_kv {K A} (m : M K KvError A) : M (OtaStore K) KvError A :=
  λ s, let '(r, k) := m (kv s) in (r, mkStore k (entropy s) (draws s)).

(** The error conversion done by [?] through [From]. *)
Definition lift_err {S E F A} (f : E → F) (m : M S E A) : M S F A :=
  λ s, let '(r, s') := m s in (map_err f r, s').

(** [(self.entropy)()] *)
Definition draw_entropy {K E} : M (OtaStore K) E Z :=
  λ s, (Ok (entropy s (draws s)), mkStore (kv s) (entropy s) (S (draws s))).

Inductive mode := Faulty | Healthy.

(** A transient failure: only in mode [Faulty], never with a code that claims
    the stored value is bad. *)
Definition faulted (md : mode) (e : KvError) : Prop :=
  md = Faulty ∧ is_corrupt_code e = false.

Section logic.
Context {K : Type} `{HO : OtaKv K} `{HK : !KvContract K}.

Definition cont (s : OtaStore K) : contents := content (kv s).

Definition sat {E A} (md : mode) (m : M (OtaStore K) E A) (c : contents)
    (Q : A → contents → Prop) (X : E → contents → Prop) : Prop :=
  ∀ s, kv_ok (kv s) → cont s = c → (md = Healthy → healthy (kv s)) →
    let '(r, s') := m s in
    kv_ok (kv s') ∧ (md = Healthy → healthy (kv s')) ∧
    match r with Ok a => Q a (cont s') | Err e => X e (cont s') end.

Lemma sat_ret {E A} md (a : A) c Q (X : E → contents → Prop) :
  Q a c → sat md (mret a) c Q X.
Proof. intros HQ s Hok Hc Hh. simpl. by subst. Qed.

Lemma sat_throw {E A} md (e : E) c (Q : A → contents → Prop) X :
  X e c → sat md (throw e) c Q X.
Proof. intros HX s Hok Hc Hh. simpl. by subst. Qed.

Lemma sat_of_result {E A} md (r : result E A) c Q X :
  match r with Ok a => Q a c | Err e => X e c end → sat md (of_result r) c Q X.
Proof. intros Hr s Hok Hc Hh. simpl. subst. by destruct r. Qed.

Lemma sat_mono {E A} md (m : M (OtaStore K) E A) c (Q Q' : A → contents → Prop) X X' :
  sat md m c Q X → (∀ a c', Q a c' → Q' a c') → (∀ e c', X e c' → X' e c') →
  sat md m c Q' X'.
Proof.
  intros Hm HQ HX s Hok Hc Hh. specialize (Hm s Hok Hc Hh).
  destruct (m s) as [[a|e] s']; naive_solver.
Qed.

Lemma sat_bind {E A B} md (m : M (OtaStore K) E A) (f : A → M (OtaStore K) E B) c Q X :
  sat md m c (λ a c', sat md (f a) c' Q X) X → sat md (m ≫= f) c Q X.
Proof.
  intros Hm s Hok Hc Hh. specialize (Hm s Hok Hc Hh).
  unfold mbind, M_bind. destruct (m s) as [[a|e] s']; [|naive_solver].
  destruct Hm as (Hok' & Hh' & Hf). by apply Hf.
Qed.

Lemma sat_catch {E F A} md (m : M (OtaStore K) E A) c
    (Q : result E A → contents → Prop) (X : F → contents → Prop) :
  sat md m c (λ a, Q (Ok a)) (λ e, Q (Err e)) → sat md (catch m) c Q X.
Proof.
  intros Hm s Hok Hc Hh. specialize (Hm s Hok Hc Hh). unfold catch.
  destruct (m s) as [[a|e] s']; naive_solver.
Qed.

Lemma sat_lift_err {E F A} md (f : E → F) (m : M (OtaStore K) E A) c Q X :
  sat md m c Q (λ e, X (f e)) → sat md (lift_err f m) c Q X.
Proof.
  intros Hm s Hok Hc Hh. specialize (Hm s Hok Hc Hh). unfold lift_err.
  destruct (m s) as [[a|e] s']; naive_solver.
Qed.

Lemma sat_draw {E} md c Q (X : E → contents → Prop) :
  (∀ n, Q n c) → sat md draw_entropy c Q X.
Proof. intros HQ s Hok Hc Hh. unfold cont in *. simpl. subst. naive_solver. Qed.

(** Both modes at once: a healthy run is a faulty run. *)
Lemma sat_run {E A} md (m : M (OtaStore K) E A) c Q X s :
  sat md m c Q X → kv_ok (kv s) → cont s = c → (md = Healthy → healthy (kv s)) →
  match m s with
  | (Ok a, s') => kv_ok (kv s') ∧ (md = Healthy → healthy (kv s')) ∧ Q a (cont s')
  | (Err e, s') => kv_ok (kv s') ∧ (md = Healthy → healthy (kv s')) ∧ X e (cont s')
  end.
Proof. intros Hm Hok Hc Hh. specialize (Hm s Hok Hc Hh). by destruct (m s) as [[]]. Qed.

(** *** Reads *)

Lemma sat_read {A} md (m : M K KvError A) (f : contents → result KvError A) c Q X :
  read_contract content kv_ok healthy m f →
  (∀ a, f c = Ok a → Q a c) →
  (∀ e, faulted md e ∨ f c = Err e → X e c) →
  sat md (self_kv m) c Q X.
Proof.
  intros Hm HQ HX s Hok Hc Hh. unfold cont in *. unfold self_kv.
  destruct (m (kv s)) as [r k] eqn:E. simpl.
  destruct (Hm _ Hok _ _ E) as (Hok' & Hc' & Hhl & Hv & He). rewrite Hc', Hc in *.
  split; [done|]. split; [intros ->; naive_solver|].
  destruct r as [a|e]; [auto|]. apply HX. destruct md.
  - destruct (is_corrupt_code e) eqn:Ec; [right; auto|by left].
  - right. destruct Hhl as [_ <-]; auto.
Qed.

Lemma sat_get_u8 md k c Q X :
  (∀ o, read_u8 (c !! k) = Ok o → Q o c) →
  (∀ e, faulted md e ∨ read_u8 (c !! k) = Err e → X e c) →
  sat md (self_kv (get_u8 k)) c Q X.
Proof. apply (sat_read md _ (λ c, read_u8 (c !! k))), get_u8_contract. Qed.

Lemma sat_get_u32 md k c Q X :
  (∀ o, read_u32 (c !! k) = Ok o → Q o c) →
  (∀ e, faulted md e ∨ read_u32 (c !! k) = Err e → X e c) →
  sat md (self_kv (get_u32 k)) c Q X.
Proof. apply (sat_read md _ (λ c, read_u32 (c !! k))), get_u32_contract. Qed.

Lemma sat_get_str md k c Q X :
  (∀ o, read_str (c !! k) = Ok o → Q o c) →
  (∀ e, faulted md e ∨ read_str (c !! k) = Err e → X e c) →
  sat md (self_kv (get_str k)) c Q X.
Proof. apply (sat_read md _ (λ c, read_str (c !! k))), get_str_contract. Qed.

(** *** Writes *)

Lemma sat_write md (m : M K KvError unit) (acc : Prop) post torn c Q X :
  write_contract content kv_ok healthy m acc post torn →
  Q tt (post c) →
  (md = Faulty ∨ ¬ acc → ∀ e c', torn c c' → X e c') → (acc ∨ ¬ acc) →
  sat md (self_kv m) c Q X.
Proof.
  intros Hm HQ HX Hacc s Hok Hc Hh. unfold cont in *. unfold self_kv.
  destruct (m (kv s)) as [r k] eqn:E. simpl.
  destruct (Hm _ Hok _ _ E) as (Hok' & Hhl & Hr). rewrite Hc in *.
  split; [done|]. split; [intros ->; naive_solver|].
  destruct r as [[]|e]; [by rewrite Hr|]. apply (HX) with (e := e); [|done].
  destruct md; [by left|]. destruct Hacc as [Ha|]; [|by right].
  destruct Hhl as [_ Hok2]; [auto|]. by specialize (Hok2 Ha).
Qed.

Lemma sat_set_u8 md k n c Q X :
  Q tt (<[k := VU8 n]> c) →
  (md = Faulty → ∀ e, X e c ∧ X e (<[k := VU8 n]> c)) →
  sat md (self_kv (set_u8 k n)) c Q X.
Proof.
  intros HQ HX. eapply sat_write; [apply set_u8_contract|done| |by left].
  intros [->|Hf] e c'; [|done]. destruct (HX eq_refl e). by intros [->| ->].
Qed.

Lemma sat_set_u32 md k n c Q X :
  Q tt (<[k := VU32 n]> c) →
  (md = Faulty → ∀ e, X e c ∧ X e (<[k := VU32 n]> c)) →
  sat md (self_kv (set_u32 k n)) c Q X.
Proof.
  intros HQ HX. eapply sat_write; [apply set_u32_contract|done| |by left].
  intros [->|Hf] e c'; [|done]. destruct (HX eq_refl e). by intros [->| ->].
Qed.

Lemma sat_remove md k c Q X :
  Q tt (delete k c) →
  (md = Faulty → ∀ e, X e c ∧ X e (delete k c)) →
  sat md (self_kv (remove k)) c Q X.
Proof.
  intros HQ HX. eapply sat_write; [apply remove_contract|done| |by left].
  intros [->|Hf] e c'; [|done]. destruct (HX eq_refl e). by intros [->| ->].
Qed.

Lemma sat_set_str md k v c Q X :
  kv_storable v ∨ md = Faulty →
  Q tt (<[k := VStr v]> c) →
  (md = Faulty → ∀ e, X e c ∧ X e (<[k := VStr v]> c) ∧ X e (delete k c)) →
  sat md (self_kv (set_str k v)) c Q X.
Proof.
  intros Hv HQ HX. eapply sat_write; [apply set_str_contract|done| |].
  - intros Hf e c'. assert (md = Faulty) as -> by (destruct Hf, Hv; done).
    destruct (HX eq_refl e) as (?&?&?). by intros [->|[->| ->]].
  - destruct (decide (kv_storable v)); [by left|by right].
Qed.
End logic.
