(* ===== verification/Store.v ===== *)
(** * Store: the persisted OTA records ([ota/persist/store.rs])

    Every method of [OtaStore], with the source's order of key operations: the
    order in which the commits are written here IS the crash order.  [kvq] is a
    backend call followed by [?]; [catch] is a [match] on a [Result].  The data
    types of [ota/persist/boot.rs] that the store uses are declared here. *)
From S2P Require Import Prelude Text Version Decision Kv Reason KvLogic.
Open Scope Z_scope.

(** ** Errors and results *)

Inductive CorruptRecord :=
| UnknownAttemptSlotLabel | UnknownRequestSlotLabel | AttemptWithoutId | RequestWithoutId.

Inductive StoreError :=
| SE_Kv (e : KvError)
| SE_Corrupt (c : CorruptRecord)
| SE_NotAdmitted (by_ : BlockedBy)
| SE_ReportPending
| SE_InvalidSlot.

#[export] Instance CorruptRecord_eq_dec : EqDecision CorruptRecord.
Proof. solve_decision. Defined.
#[export] Instance StoreError_eq_dec : EqDecision StoreError.
Proof. solve_decision. Defined.

Record StoredAttempt := mkStored { sa_record : AttemptRecord; sa_why : option string }.

Record ReportRecord := mkReport {
  rr_pending : bool; rr_why : string; rr_attempt_id : option Z }.

Record PendingReport := mkPending { pr_attempt_id : Z; pr_epoch : Z; pr_why : string }.

Definition PendingReport_reason (p : PendingReport) : RollbackReason :=
  RollbackReason_from_label (pr_why p).

Inductive PendingReportView :=
| PV_None | PV_AwaitingBootReconcile | PV_Ready (p : PendingReport).

Record RollbackRequest := mkRequest { rq_id : Z; rq_why : string; rq_from : SlotId }.

Inductive NotedTarget :=
| NT_AttemptReason (slot : SlotId)
| NT_Request (slot : SlotId) (id : Z).

Record RollbackNoted := mkNoted { target : NotedTarget }.

Inductive ReasonNote := RN_Written (n : RollbackNoted) | RN_KeptFirst.

Inductive Delivery := Marked | NotPending | OtherReport (pending_id : Z).

Inductive FailedDownload := FD_NoAttempt | FD_Cleared | FD_Kept (a : ReconcileAction).

Inductive RefusalNote := RF_Written (previous : option Version) | RF_AlreadyRefused.

Inductive SettleOutcome :=
| NoRequest | DroppedNotRolledBack | AlreadyReported | MergedIntoPending | Reported.

Inductive RepairedRecord :=
| RepairedAttempt | RepairedRequest | RepairedReport | RepairedCounter | RepairedRefusal.

Inductive KeyType := KT_U8 | KT_U32 | KT_Str.

#[export] Instance StoredAttempt_eq_dec : EqDecision StoredAttempt.
Proof. solve_decision. Defined.
#[export] Instance SettleOutcome_eq_dec : EqDecision SettleOutcome.
Proof. solve_decision. Defined.
#[export] Instance Delivery_eq_dec : EqDecision Delivery.
Proof. solve_decision. Defined.

Definition ATTEMPT_KEYS : list (string * KeyType) :=
  [(ATT_VER, KT_Str); (ATT_SLOT, KT_Str); (ATT_ID, KT_U32);
   (ATT_BOOT, KT_U8); (ATT_ACT, KT_U8); (ATT_INV, KT_U8)].
Definition REQUEST_KEYS : list (string * KeyType) := [(RQ_FROM, KT_Str); (RQ_ID, KT_U32)].
Definition REPORT_KEYS : list (string * KeyType) := [(RB, KT_U8); (RB_ID, KT_U32)].
Definition COUNTER_KEYS : list (string * KeyType) := [(ATT_CTR, KT_U32); (ATT_EPOCH, KT_U32)].

Record BootRecords := mkBootRecords {
  br_attempt : option StoredAttempt; br_report_persisted : bool }.

(** [boot.rs]: what the hardware reader supplies. *)
Inductive UpdateSlot :=
| US_Present (slot : SlotId) (state : SlotState) | US_Absent | US_Unreadable (code : Z).

Definition UpdateSlot_facts (u : UpdateSlot) : option (SlotId * SlotState) :=
  match u with
  | US_Present slot state => Some (slot, state)
  | US_Absent | US_Unreadable _ => None
  end.

Record HardwareFacts := mkHw {
  hw_running_slot : SlotId; hw_running_state : SlotState; hw_update_slot : UpdateSlot }.

(** [KvStr::try_from(text).unwrap_or_default()] *)
Definition label_str (text : string) : string :=
  if str_len text <=? kv_str_cap then text else EmptyString.

(** [write!(out, "{version}")] into a [KvStr]: at most 17 bytes, so it fits. *)
Definition version_str (version : Version) : string := Version_display version.

Section store.
Context {K : Type} `{HO : OtaKv K}.

(** [self.kv.m(..)?] *)
Definition kvq {A} (m : M K KvError A) : M (OtaStore K) StoreError A :=
  lift_err SE_Kv (self_kv m).

(** *** Reads *)

Definition reason (key : string) : M (OtaStore K) KvError (option string) :=
  r ← catch (self_kv (get_str key));
  match r with
  | Err e => if is_corrupt_code e then mret (Some (label_str "unknown"))
             else of_result (Err e)
  | other => of_result other
  end.

(** [self.reason(key)?] *)
Definition reason_q (key : string) : M (OtaStore K) StoreError (option string) :=
  lift_err SE_Kv (reason key).

Definition corrupt_read (key : string) (ty : KeyType) : M (OtaStore K) StoreError bool :=
  read ← catch (match ty with
                | KT_U8 => _ ← self_kv (get_u8 key); mret tt
                | KT_U32 => _ ← self_kv (get_u32 key); mret tt
                | KT_Str => _ ← self_kv (get_str key); mret tt
                end);
  match read with
  | Ok _ => mret false
  | Err e => if is_corrupt_code e then mret true else throw (SE_Kv e)
  end.

Fixpoint any_corrupt (keys : list (string * KeyType)) : M (OtaStore K) StoreError bool :=
  match keys with
  | [] => mret false
  | (key, ty) :: keys =>
      bad ← corrupt_read key ty;
      if bad : bool then mret true else any_corrupt keys
  end.

Definition scrub (key : string) (ty : KeyType) : M (OtaStore K) StoreError unit :=
  bad ← corrupt_read key ty;
  if bad : bool then kvq (remove key) else mret tt.

Definition flag (key : string) : M (OtaStore K) StoreError bool :=
  v ← kvq (get_u8 key); mret (bool_decide (v = Some 1)).

Definition attempt_exists : M (OtaStore K) StoreError bool :=
  v ← kvq (get_str ATT_VER);
  match v with
  | None => mret false
  | Some _ => s ← kvq (get_str ATT_SLOT); mret (bool_decide (is_Some s))
  end.

Definition attempt_slot : M (OtaStore K) StoreError (option SlotId) :=
  v ← kvq (get_str ATT_VER);
  match v with
  | None => mret None
  | Some _ =>
      l ← kvq (get_str ATT_SLOT);
      match l with
      | None => mret None
      | Some label =>
          match slot_from_label label with
          | Some slot => if bool_decide (slot = FACTORY_SLOT)
                         then throw (SE_Corrupt UnknownAttemptSlotLabel)
                         else mret (Some slot)
          | None => throw (SE_Corrupt UnknownAttemptSlotLabel)
          end
      end
  end.

Definition read_attempt : M (OtaStore K) StoreError (option StoredAttempt) :=
  v ← kvq (get_str ATT_VER);
  match v with
  | None => mret None
  | Some version =>
      s ← attempt_slot;
      match s with
      | None => mret None
      | Some slot =>
          i ← kvq (get_u32 ATT_ID);
          match i with
          | None => throw (SE_Corrupt AttemptWithoutId)
          | Some id =>
              boot ← flag ATT_BOOT;
              act ← flag ATT_ACT;
              inv ← flag ATT_INV;
              why ← reason_q ATT_WHY;
              mret (Some (mkStored
                (mkAttempt id (result_ok (Version_parse version)) slot boot act inv) why))
          end
      end
  end.

Definition report : M (OtaStore K) StoreError (option ReportRecord) :=
  r ← kvq (get_u8 RB);
  match r with
  | None => mret None
  | Some rb =>
      why ← reason_q RB_WHY;
      id ← kvq (get_u32 RB_ID);
      mret (Some (mkReport (rb =? 1) (default (label_str "unknown") why) id))
  end.

Definition report_undelivered : M (OtaStore K) StoreError bool := flag RB.

Definition request_armed : M (OtaStore K) StoreError bool :=
  v ← kvq (get_str RQ_FROM); mret (bool_decide (is_Some v)).

Definition request : M (OtaStore K) StoreError (option RollbackRequest) :=
  f ← kvq (get_str RQ_FROM);
  match f with
  | None => mret None
  | Some from =>
      match slot_from_label from with
      | None => throw (SE_Corrupt UnknownRequestSlotLabel)
      | Some from =>
          i ← kvq (get_u32 RQ_ID);
          match i with
          | None => throw (SE_Corrupt RequestWithoutId)
          | Some id =>
              why ← reason_q RQ_WHY;
              mret (Some (mkRequest id (default (label_str "unknown") why) from))
          end
      end
  end.

Definition refused : M (OtaStore K) StoreError (option Version) :=
  v ← kvq (get_str REJ_VER);
  mret (v ≫= λ s, result_ok (Version_parse s)).

Definition admission {E} : M (OtaStore K) E Admission :=
  a ← catch attempt_exists;
  q ← catch request_armed;
  let unresolved := match a, q with
                    | Ok attempt, Ok request => attempt || request
                    | _, _ => true
                    end in
  if unresolved then mret (Blocked AttemptUnresolved)
  else
    u ← catch report_undelivered;
    mret (match u with
          | Ok undelivered => Admission_from_records false undelivered
          | Err _ => Blocked AttemptUnresolved
          end).

(** *** Ids *)

Fixpoint highest_go (keys : list string) (highest : Z) : M (OtaStore K) StoreError Z :=
  match keys with
  | [] => mret highest
  | key :: keys =>
      v ← kvq (get_u32 key);
      highest_go keys (Z.max highest (default 0 v))
  end.

Definition highest_id (keys : list string) : M (OtaStore K) StoreError Z :=
  highest_go keys 0.

Definition epoch : M (OtaStore K) StoreError Z :=
  v ← kvq (get_u32 ATT_EPOCH);
  match v with
  | Some epoch => mret epoch
  | None =>
      epoch ← draw_entropy;
      _ ← kvq (set_u32 ATT_EPOCH epoch);
      mret epoch
  end.

Definition next_attempt_id : M (OtaStore K) StoreError Z :=
  _ ← epoch;
  floor ← highest_id [ATT_CTR; ATT_ID; RB_ID; RQ_ID];
  let next := u32_wrapping_add floor 1 in
  let next := if next =? 0 then 1 else next in
  _ ← kvq (set_u32 ATT_CTR next);
  mret next.

(** *** Attempt *)

Definition begin_attempt (version : Version) (slot : SlotId) (slot_was_invalid : bool) :
    M (OtaStore K) StoreError Z :=
  adm ← admission;
  match adm with
  | Blocked by_ => throw (SE_NotAdmitted by_)
  | Open =>
      match slot_label slot with
      | Some label =>
          if bool_decide (slot = FACTORY_SLOT) then throw SE_InvalidSlot
          else
            id ← next_attempt_id;
            _ ← for_each [ATT_WHY; ATT_SLOT; ATT_VER; ATT_ACT; ATT_BOOT; ATT_ID]
                  (λ key, kvq (remove key));
            _ ← kvq (set_u32 ATT_ID id);
            _ ← kvq (set_u8 ATT_INV (if slot_was_invalid then 1 else 0));
            _ ← kvq (set_str ATT_VER (version_str version));
            _ ← kvq (set_str ATT_SLOT label);
            mret id
      | None => throw SE_InvalidSlot
      end
  end.

Definition mark_boot_selected : M (OtaStore K) StoreError unit := kvq (set_u8 ATT_BOOT 1).

Definition mark_activated : M (OtaStore K) StoreError unit := kvq (set_u8 ATT_ACT 1).

Definition clear_attempt : M (OtaStore K) StoreError unit :=
  for_each [ATT_VER; ATT_SLOT; ATT_ACT; ATT_BOOT; ATT_INV; ATT_ID; ATT_WHY]
    (λ key, kvq (remove key)).

Definition complete_attempt (running : Version) : M (OtaStore K) StoreError unit :=
  r ← catch (self_kv (get_str REJ_VER));
  _ ← match r with
      | Ok (Some refused) =>
          if bool_decide (result_ok (Version_parse refused) = Some running) then mret tt
          else kvq (remove REJ_VER)
      | Err e => if is_corrupt_code e then kvq (remove REJ_VER) else throw (SE_Kv e)
      | Ok None => mret tt
      end;
  clear_attempt.

(** *** Report *)

Definition persist_report (id : Z) (why : string) : M (OtaStore K) StoreError unit :=
  pending ← flag RB;
  _ ← (if pending : bool then
         other ← kvq (get_u32 RB_ID);
         match other with
         | Some other => if bool_decide (other = id) then mret tt else throw SE_ReportPending
         | None => mret tt
         end
       else mret tt);
  _ ← kvq (remove RB_ID);
  _ ← scrub RB_WHY KT_Str;
  _ ← kvq (set_str RB_WHY why);
  _ ← kvq (set_u8 RB 1);
  _ ← kvq (set_u32 RB_ID id);
  mret tt.

Definition report_rollback (attempt_id : Z) (left_ : option Version) (already : bool) :
    M (OtaStore K) StoreError unit :=
  _ ← (if already then mret tt
       else
         why ← reason_q ATT_WHY;
         persist_report attempt_id (default (label_str "bootloader") why));
  _ ← match left_ with
      | Some left_ =>
          _ ← scrub REJ_VER KT_Str;
          kvq (set_str REJ_VER (version_str left_))
      | None => mret tt
      end;
  clear_attempt.

Definition mark_report_delivered (attempt_id : Z) : M (OtaStore K) StoreError Delivery :=
  pending ← flag RB;
  if negb pending then mret NotPending
  else
    id ← kvq (get_u32 RB_ID);
    match id with
    | Some id =>
        if bool_decide (id = attempt_id) then
          _ ← kvq (set_u8 RB 0); mret Marked
        else mret (OtherReport id)
    | None => mret NotPending
    end.

(** The owner id of a report without one: the armed request's, or a new one. *)
Definition adopt_id : M (OtaStore K) StoreError Z :=
  q ← kvq (get_u32 RQ_ID);
  id ← match q with
       | Some id =>
           armed ← request_armed;
           if armed : bool then mret id else next_attempt_id
       | None => next_attempt_id
       end;
  _ ← kvq (set_u32 RB_ID id);
  mret id.

Definition pending_report : M (OtaStore K) StoreError PendingReportView :=
  pending ← flag RB;
  if negb pending then mret PV_None
  else
    owner ← kvq (get_u32 RB_ID);
    exists_ ← attempt_exists;
    own ← (if exists_ : bool then
             match owner with
             | None => mret true
             | Some id => a ← kvq (get_u32 ATT_ID); mret (bool_decide (a = Some id))
             end
           else mret false);
    if own : bool then mret PV_AwaitingBootReconcile
    else
      id ← match owner with Some id => mret id | None => adopt_id end;
      why ← reason_q RB_WHY;
      ep ← epoch;
      mret (PV_Ready (mkPending id ep (default (label_str "unknown") why))).

(** *** Rollback reasons and requests *)

Definition note_rollback (why : RollbackReason) (running_slot : SlotId) :
    M (OtaStore K) StoreError ReasonNote :=
  s ← attempt_slot;
  if bool_decide (s = Some running_slot) then
    first ← reason_q ATT_WHY;
    match first with
    | Some _ => mret RN_KeptFirst
    | None =>
        _ ← kvq (set_str ATT_WHY (RollbackReason_as_str why));
        mret (RN_Written (mkNoted (NT_AttemptReason running_slot)))
    end
  else
    armed ← request_armed;
    if armed : bool then mret RN_KeptFirst
    else
      match slot_label running_slot with
      | None => throw SE_InvalidSlot
      | Some from =>
          _ ← scrub RQ_WHY KT_Str;
          id ← next_attempt_id;
          _ ← kvq (set_u32 RQ_ID id);
          _ ← kvq (set_str RQ_WHY (RollbackReason_as_str why));
          _ ← kvq (set_str RQ_FROM from);
          mret (RN_Written (mkNoted (NT_Request running_slot id)))
      end.

Definition remove_request : M (OtaStore K) StoreError unit :=
  _ ← kvq (remove RQ_FROM);
  _ ← kvq (remove RQ_WHY);
  _ ← kvq (remove RQ_ID);
  mret tt.

Definition withdraw_rollback (noted : RollbackNoted) : M (OtaStore K) StoreError unit :=
  match target noted with
  | NT_AttemptReason slot =>
      s ← attempt_slot;
      if bool_decide (s = Some slot) then kvq (remove ATT_WHY) else mret tt
  | NT_Request slot id =>
      r ← request;
      match r with
      | Some request =>
          if bool_decide (rq_id request = id) && bool_decide (rq_from request = slot)
          then remove_request else mret tt
      | None => mret tt
      end
  end.

Definition settle_request (running_slot : SlotId) : M (OtaStore K) StoreError SettleOutcome :=
  r ← request;
  match r with
  | None => mret NoRequest
  | Some request =>
      if bool_decide (rq_from request = running_slot) then
        _ ← remove_request; mret DroppedNotRolledBack
      else
        pending ← flag RB;
        report_id ← kvq (get_u32 RB_ID);
        if bool_decide (report_id = Some (rq_id request)) then
          _ ← remove_request; mret AlreadyReported
        else if pending && bool_decide (report_id = None) then
          _ ← kvq (set_u32 RB_ID (rq_id request));
          _ ← remove_request; mret AlreadyReported
        else if pending : bool then
          _ ← remove_request; mret MergedIntoPending
        else
          _ ← persist_report (rq_id request) (rq_why request);
          _ ← remove_request; mret Reported
  end.

Definition report_persisted_for (attempt_id : Z) : M (OtaStore K) StoreError bool :=
  r ← kvq (get_u8 RB);
  match r with
  | None => mret false
  | Some rb =>
      id ← kvq (get_u32 RB_ID);
      mret (bool_decide (id = Some attempt_id) && (rb =? 1))
  end.

Definition settle_failed_download (hw : HardwareFacts) (running_version : option Version) :
    M (OtaStore K) StoreError FailedDownload :=
  a ← read_attempt;
  match a with
  | None => mret FD_NoAttempt
  | Some attempt =>
      persisted ← report_persisted_for (attempt_id (sa_record attempt));
      let facts := mkFacts (hw_running_slot hw) (hw_running_state hw) running_version
                     (UpdateSlot_facts (hw_update_slot hw)) persisted in
      match reconcile (Some (sa_record attempt)) facts with
      | ClearAttempt => _ ← clear_attempt; mret FD_Cleared
      | other => mret (FD_Kept other)
      end
  end.

(** *** Refusal *)

Definition refuse_version (version : Version) : M (OtaStore K) StoreError RefusalNote :=
  r ← kvq (get_str REJ_VER);
  let previous := match r with
                  | Some s => result_ok (Version_parse s)
                  | None => None
                  end in
  if bool_decide (previous = Some version) then mret RF_AlreadyRefused
  else
    _ ← kvq (set_str REJ_VER (version_str version));
    mret (RF_Written previous).

Definition restore_refusal (previous : option Version) : M (OtaStore K) StoreError unit :=
  match previous with
  | Some version => kvq (set_str REJ_VER (version_str version))
  | None => kvq (remove REJ_VER)
  end.

(** *** Repair *)

Definition attempt_label_corrupt : M (OtaStore K) StoreError bool :=
  r ← catch attempt_slot;
  match r with
  | Err (SE_Corrupt _) => mret true
  | Err other => throw other
  | Ok (Some _) => i ← kvq (get_u32 ATT_ID); mret (bool_decide (i = None))
  | Ok None => mret false
  end.

Definition request_label_corrupt : M (OtaStore K) StoreError bool :=
  r ← catch request;
  match r with
  | Err (SE_Corrupt _) => mret true
  | Err other => throw other
  | Ok _ => mret false
  end.

(** [a? || b?] *)
Definition or_else (a b : M (OtaStore K) StoreError bool) : M (OtaStore K) StoreError bool :=
  x ← a; if x : bool then mret true else b.

Definition repair_counter : M (OtaStore K) StoreError unit :=
  bad ← or_else (corrupt_read ATT_EPOCH KT_U32) (corrupt_read ATT_CTR KT_U32);
  _ ← (if bad : bool then kvq (remove ATT_EPOCH) else mret tt);
  bad_ctr ← corrupt_read ATT_CTR KT_U32;
  if bad_ctr : bool then
    highest ← highest_id [ATT_ID; RB_ID; RQ_ID];
    _ ← kvq (remove ATT_CTR);
    if 0 <? highest then kvq (set_u32 ATT_CTR highest) else mret tt
  else mret tt.

Definition repair_corrupt : M (OtaStore K) StoreError (option RepairedRecord) :=
  bad ← or_else (any_corrupt ATTEMPT_KEYS) attempt_label_corrupt;
  if bad : bool then _ ← clear_attempt; mret (Some RepairedAttempt)
  else
  bad ← or_else (any_corrupt REQUEST_KEYS) request_label_corrupt;
  if bad : bool then _ ← remove_request; mret (Some RepairedRequest)
  else
  bad ← any_corrupt REPORT_KEYS;
  if bad : bool then
    bad_id ← corrupt_read RB_ID KT_U32;
    _ ← (if bad_id : bool then kvq (remove RB_ID) else mret tt);
    bad_rb ← corrupt_read RB KT_U8;
    _ ← (if bad_rb : bool then kvq (set_u8 RB 1) else mret tt);
    mret (Some RepairedReport)
  else
  bad ← any_corrupt COUNTER_KEYS;
  if bad : bool then _ ← repair_counter; mret (Some RepairedCounter)
  else
  bad ← corrupt_read REJ_VER KT_Str;
  if bad : bool then _ ← kvq (remove REJ_VER); mret (Some RepairedRefusal)
  else mret None.

Definition corrupt_present : M (OtaStore K) StoreError bool :=
  or_else (any_corrupt ATTEMPT_KEYS)
    (or_else attempt_label_corrupt
      (or_else (any_corrupt REQUEST_KEYS)
        (or_else request_label_corrupt
          (or_else (any_corrupt REPORT_KEYS)
            (or_else (any_corrupt COUNTER_KEYS) (corrupt_read REJ_VER KT_Str)))))).

(** *** Boot phase R *)

Definition read_phase : M (OtaStore K) StoreError BootRecords :=
  attempt ← read_attempt;
  _ ← request;
  _ ← report;
  _ ← catch refused;
  persisted ← match attempt with
              | Some attempt => report_persisted_for (attempt_id (sa_record attempt))
              | None => mret false
              end;
  mret (mkBootRecords attempt persisted).
End store.
