(* ===== verification/StoreViews.v ===== *)
(** * StoreViews: what the store's read methods return, as functions of the
    durable content

    The [v_*] functions are the abstract reading of the records.  [reads m f]
    says that [m] never changes the content and returns [f] of it, unless a
    transient fault is reported; the theorems below give one such statement for
    every read method of the store.  The second half is bookkeeping of the content
    that all store proofs share. *)
From S2P Require Import Prelude Text Version Decision Kv Reason KvLogic Store.
Open Scope Z_scope.

(** ** Views of the content *)

Definition v_str (c : contents) (k : string) : result StoreError (option string) :=
  map_err SE_Kv (read_str (c !! k)).
Definition v_u32 (c : contents) (k : string) : result StoreError (option Z) :=
  map_err SE_Kv (read_u32 (c !! k)).
Definition v_u8 (c : contents) (k : string) : result StoreError (option Z) :=
  map_err SE_Kv (read_u8 (c !! k)).

(** A reason key: an unreadable value reads as the label "unknown". *)
Definition v_reason (c : contents) (k : string) : option string :=
  match c !! k with
  | None => None
  | Some (VStr s) => Some s
  | Some _ => Some "unknown"
  end.

Definition v_flag (c : contents) (k : string) : result StoreError bool :=
  v ← v_u8 c k; Ok (bool_decide (v = Some 1)).

Definition v_attempt_exists (c : contents) : result StoreError bool :=
  v ← v_str c ATT_VER;
  match v with
  | None => Ok false
  | Some _ => s ← v_str c ATT_SLOT; Ok (bool_decide (is_Some s))
  end.

Definition v_attempt_slot (c : contents) : result StoreError (option SlotId) :=
  v ← v_str c ATT_VER;
  match v with
  | None => Ok None
  | Some _ =>
      l ← v_str c ATT_SLOT;
      match l with
      | None => Ok None
      | Some label =>
          match slot_from_label label with
          | Some slot => if bool_decide (slot = FACTORY_SLOT)
                         then Err (SE_Corrupt UnknownAttemptSlotLabel) else Ok (Some slot)
          | None => Err (SE_Corrupt UnknownAttemptSlotLabel)
          end
      end
  end.

Definition v_attempt (c : contents) : result StoreError (option StoredAttempt) :=
  v ← v_str c ATT_VER;
  match v with
  | None => Ok None
  | Some version =>
      s ← v_attempt_slot c;
      match s with
      | None => Ok None
      | Some slot =>
          i ← v_u32 c ATT_ID;
          match i with
          | None => Err (SE_Corrupt AttemptWithoutId)
          | Some id =>
              boot ← v_flag c ATT_BOOT;
              act ← v_flag c ATT_ACT;
              inv ← v_flag c ATT_INV;
              Ok (Some (mkStored
                    (mkAttempt id (result_ok (Version_parse version)) slot boot act inv)
                    (v_reason c ATT_WHY)))
          end
      end
  end.

Definition v_report (c : contents) : result StoreError (option ReportRecord) :=
  r ← v_u8 c RB;
  match r with
  | None => Ok None
  | Some rb => id ← v_u32 c RB_ID;
               Ok (Some (mkReport (rb =? 1) (default "unknown" (v_reason c RB_WHY)) id))
  end.

Definition v_armed (c : contents) : result StoreError bool :=
  v ← v_str c RQ_FROM; Ok (bool_decide (is_Some v)).

Definition v_request (c : contents) : result StoreError (option RollbackRequest) :=
  f ← v_str c RQ_FROM;
  match f with
  | None => Ok None
  | Some from =>
      match slot_from_label from with
      | None => Err (SE_Corrupt UnknownRequestSlotLabel)
      | Some from =>
          i ← v_u32 c RQ_ID;
          match i with
          | None => Err (SE_Corrupt RequestWithoutId)
          | Some id => Ok (Some (mkRequest id (default "unknown" (v_reason c RQ_WHY)) from))
          end
      end
  end.

Definition v_refused (c : contents) : result StoreError (option Version) :=
  v ← v_str c REJ_VER; Ok (v ≫= λ s, result_ok (Version_parse s)).

Definition v_admission (c : contents) : Admission :=
  match v_attempt_exists c, v_armed c, v_flag c RB with
  | Ok a, Ok q, Ok u => if a || q then Blocked AttemptUnresolved
                        else Admission_from_records false u
  | _, _, _ => Blocked AttemptUnresolved
  end.

Definition v_highest (c : contents) (keys : list string) (h : Z) : result StoreError Z :=
  foldl (λ acc k, h ← acc; v ← v_u32 c k; Ok (Z.max h (default 0 v))) (Ok h) keys.

Definition v_bad (c : contents) (k : string) (ty : KeyType) : bool :=
  match ty, c !! k with
  | _, None => false
  | KT_U8, Some (VU8 _) => false
  | KT_U32, Some (VU32 _) => false
  | KT_Str, Some (VStr _) => false
  | _, _ => true
  end.

Definition v_persisted_for (c : contents) (id : Z) : result StoreError bool :=
  r ← v_u8 c RB;
  match r with
  | None => Ok false
  | Some rb => i ← v_u32 c RB_ID; Ok (bool_decide (i = Some id) && (rb =? 1))
  end.

(** ** Read-only methods *)

(** A transient backend failure surfaced by the store. *)
Definition transient (md : mode) (e : StoreError) : Prop :=
  md = Faulty ∧ ∃ e', e = SE_Kv e'.

Lemma transient_healthy e : ¬ transient Healthy e.
Proof. by intros [? _]. Qed.

Lemma transient_not_corrupt md c : ¬ transient md (SE_Corrupt c).
Proof. by intros (_ & ? & ?). Qed.

Section views.
Context {K : Type} `{HO : OtaKv K} `{HK : !KvContract K}.
Implicit Types (c : contents).

Definition reads {A} (m : M (OtaStore K) StoreError A) (f : contents → result StoreError A) :
    Prop :=
  ∀ md c, sat md m c (λ a c', c' = c ∧ f c = Ok a)
                     (λ e c', c' = c ∧ (transient md e ∨ f c = Err e)).

Lemma sat_reads {A} md (m : M (OtaStore K) StoreError A) f c Q X :
  reads m f →
  (∀ a, f c = Ok a → Q a c) →
  (∀ e, transient md e ∨ f c = Err e → X e c) →
  sat md m c Q X.
Proof. intros Hm HQ HX. eapply sat_mono; [apply Hm|naive_solver..]. Qed.

Lemma reads_ext {A} (m : M (OtaStore K) StoreError A) f g :
  reads m f → (∀ c, f c = g c) → reads m g.
Proof. intros Hm Hfg md c. eapply sat_mono; [apply Hm|intros; rewrite <- Hfg; naive_solver..]. Qed.

Lemma reads_ret {A} (a : A) : reads (mret a) (λ _, Ok a).
Proof. intros md c. by apply sat_ret. Qed.

Lemma reads_throw {A} e : reads (@throw _ _ A e) (λ _, Err e).
Proof. intros md c. apply sat_throw. auto. Qed.

Lemma reads_bind {A B} (m : M (OtaStore K) StoreError A)
    (g : A → M (OtaStore K) StoreError B) f h :
  reads m f → (∀ a, reads (g a) (λ c, h c a)) → reads (m ≫= g) (λ c, f c ≫= h c).
Proof.
  intros Hm Hg md c. apply sat_bind. eapply sat_reads; [exact Hm| |].
  - intros a Ha. rewrite Ha. apply Hg.
  - intros e He. split; [done|]. destruct He as [He|He]; [by left|right]. by rewrite He.
Qed.

Lemma sat_kvq {A} md (m : M K KvError A) c Q X :
  sat md (self_kv m) c Q (λ e, X (SE_Kv e)) → sat md (kvq m) c Q X.
Proof. apply sat_lift_err. Qed.

Lemma reads_kvq {A} (m : M K KvError A) f :
  read_contract content kv_ok healthy m f → reads (kvq m) (λ c, map_err SE_Kv (f c)).
Proof.
  intros Hm md c. apply sat_kvq. eapply sat_read; [exact Hm| |].
  - intros a Ha. by rewrite Ha.
  - intros e [He|He]; (split; [done|]); [left; destruct He; split; eauto|right; by rewrite He].
Qed.

Lemma reads_get_str k : reads (kvq (get_str k)) (λ c, v_str c k).
Proof. apply (reads_kvq _ (λ c, read_str (c !! k))), get_str_contract. Qed.
Lemma reads_get_u32 k : reads (kvq (get_u32 k)) (λ c, v_u32 c k).
Proof. apply (reads_kvq _ (λ c, read_u32 (c !! k))), get_u32_contract. Qed.
Lemma reads_get_u8 k : reads (kvq (get_u8 k)) (λ c, v_u8 c k).
Proof. apply (reads_kvq _ (λ c, read_u8 (c !! k))), get_u8_contract. Qed.

(** A read error of a stored value always carries a corruption code. *)
Lemma read_str_err v e : read_str v = Err e → is_corrupt_code e = true.
Proof. destruct v as [[]|]; simpl; intros [= <-]; reflexivity. Qed.
Lemma read_u32_err v e : read_u32 v = Err e → is_corrupt_code e = true.
Proof. destruct v as [[]|]; simpl; intros [= <-]; reflexivity. Qed.
Lemma read_u8_err v e : read_u8 v = Err e → is_corrupt_code e = true.
Proof. destruct v as [[]|]; simpl; intros [= <-]; reflexivity. Qed.

Lemma reads_reason_q k : reads (reason_q k) (λ c, Ok (v_reason c k)).
Proof.
  intros md c. apply sat_lift_err, sat_bind, sat_catch, sat_get_str.
  - intros o Ho. apply sat_of_result. split; [done|]. unfold v_reason.
    destruct (c !! k) as [[]|]; simpl in *; congruence.
  - intros e [[He Hc]|He]; simpl.
    + rewrite Hc. apply sat_of_result. split; [done|]. left. split; eauto.
    + rewrite (read_str_err _ _ He). apply sat_ret. split; [done|]. unfold v_reason.
      destruct (c !! k) as [[]|]; simpl in *; done.
Qed.

Lemma reads_corrupt_read k ty : reads (corrupt_read k ty) (λ c, Ok (v_bad c k ty)).
Proof.
  intros md c. unfold corrupt_read. apply sat_bind, sat_catch.
  destruct ty; apply sat_bind;
    first [apply sat_get_u8|apply sat_get_u32|apply sat_get_str].
  1, 3, 5: intros o Ho; apply sat_ret, sat_ret; split; [done|];
    unfold v_bad; by destruct (c !! k) as [[]|].
  all: intros e [[He Hc]|He];
    [rewrite Hc; apply sat_throw; split; [done|left; split; eauto]|].
  all: pose proof He as He';
    first [apply read_u8_err in He'|apply read_u32_err in He'|apply read_str_err in He'];
    rewrite He'; apply sat_ret; split; [done|];
    unfold v_bad; by destruct (c !! k) as [[]|].
Qed.

Ltac solve_reads := repeat first
  [ apply reads_get_str | apply reads_get_u32 | apply reads_get_u8
  | apply reads_ret | apply reads_throw
  | eapply reads_bind; [|intros ?]
  | match goal with |- reads (match ?x with _ => _ end) _ => destruct x end ].

Lemma reads_flag k : reads (flag k) (λ c, v_flag c k).
Proof. unfold flag, v_flag. solve_reads. Qed.

Lemma reads_attempt_exists : reads attempt_exists v_attempt_exists.
Proof. unfold attempt_exists, v_attempt_exists. solve_reads. Qed.

Lemma reads_attempt_slot : reads attempt_slot v_attempt_slot.
Proof. unfold attempt_slot, v_attempt_slot. solve_reads. Qed.

Lemma reads_request_armed : reads request_armed v_armed.
Proof. unfold request_armed, v_armed. solve_reads. Qed.

Lemma reads_refused : reads refused v_refused.
Proof. unfold refused, v_refused. solve_reads. Qed.

Lemma reads_persisted_for id : reads (report_persisted_for id) (λ c, v_persisted_for c id).
Proof. unfold report_persisted_for, v_persisted_for. solve_reads. Qed.

(** A reason key is read last or first; either way its value is [v_reason]. *)
Lemma reads_reason_bind {B} k (g : option string → M (OtaStore K) StoreError B) h :
  (∀ a, reads (g a) (λ c, h c a)) →
  reads (reason_q k ≫= g) (λ c, h c (v_reason c k)).
Proof. intros Hg. exact (reads_bind _ _ _ _ (reads_reason_q k) Hg). Qed.

Lemma reads_read_attempt : reads read_attempt v_attempt.
Proof.
  unfold read_attempt, v_attempt.
  eapply reads_bind; [apply reads_get_str|intros [version|]]; [|apply reads_ret].
  eapply reads_bind; [apply reads_attempt_slot|intros [slot|]]; [|apply reads_ret].
  eapply reads_bind; [apply reads_get_u32|intros [id|]]; [|apply reads_throw].
  do 3 (eapply reads_bind; [apply reads_flag|intros ?]).
  apply (reads_reason_bind ATT_WHY _ (λ _ why, Ok (Some (mkStored _ why)))).
  intros why. apply reads_ret.
Qed.

Lemma reads_request : reads request v_request.
Proof.
  unfold request, v_request.
  eapply reads_bind; [apply reads_get_str|intros [from|]]; [|apply reads_ret].
  destruct (slot_from_label from) as [sl|]; [|apply reads_throw].
  eapply reads_bind; [apply reads_get_u32|intros [id|]]; [|apply reads_throw].
  apply (reads_reason_bind RQ_WHY _ (λ _ why, Ok (Some (mkRequest _ (default _ why) _)))).
  intros why. apply reads_ret.
Qed.

Lemma reads_report : reads report v_report.
Proof.
  unfold report, v_report.
  eapply reads_bind; [apply reads_get_u8|intros [rb|]]; [|apply reads_ret].
  apply (reads_reason_bind RB_WHY _
    (λ c why, id ← v_u32 c RB_ID; Ok (Some (mkReport _ (default _ why) id)))).
  intros why. eapply reads_bind; [apply reads_get_u32|intros id]. apply reads_ret.
Qed.

Lemma reads_highest_go keys h : reads (highest_go keys h) (λ c, v_highest c keys h).
Proof.
  revert h. induction keys as [|k keys IH]; intros h; simpl; [apply reads_ret|].
  eapply reads_ext; [eapply reads_bind; [apply reads_get_u32|intros a; apply IH]|].
  intros c. unfold v_highest. simpl. destruct (v_u32 c k) as [o|e]; simpl; [done|].
  clear IH. induction keys; simpl; auto.
Qed.

Lemma reads_highest_id keys : reads (highest_id keys) (λ c, v_highest c keys 0).
Proof. apply reads_highest_go. Qed.

Lemma reads_any_corrupt keys :
  reads (any_corrupt keys) (λ c, Ok (existsb (λ '(k, ty), v_bad c k ty) keys)).
Proof.
  induction keys as [|[k ty] keys IH]; simpl; [apply reads_ret|].
  eapply (reads_ext _ (λ c, Ok (v_bad c k ty) ≫= λ bad : bool,
    if bad then Ok true else Ok (existsb (λ '(k, ty), v_bad c k ty) keys))).
  - eapply reads_bind; [apply reads_corrupt_read|intros []]; [apply reads_ret|exact IH].
  - intros c. simpl. by destruct (v_bad c k ty).
Qed.

(** A read under [catch]: its view, or a transient error. *)
Lemma sat_catch_reads {A F} md (m : M (OtaStore K) StoreError A) f c
    (Q : result StoreError A → contents → Prop) (X : F → contents → Prop) :
  reads m f → Q (f c) c → (∀ e, transient md e → Q (Err e) c) → sat md (catch m) c Q X.
Proof.
  intros Hm HQ HE. apply sat_catch. eapply sat_reads; [exact Hm| |].
  - intros a Ha. by rewrite Ha in HQ.
  - intros e [He|He]; [auto|by rewrite He in HQ].
Qed.

(** [admission] never fails; a fault can only close it. *)
Lemma sat_admission {E} md c (Q : Admission → contents → Prop) (X : E → contents → Prop) :
  Q (v_admission c) c →
  (md = Faulty → Q (Blocked AttemptUnresolved) c) →
  sat md (admission (K := K)) c Q X.
Proof.
  intros HQ HF. unfold admission.
  assert (∀ e : StoreError, transient md e → Q (Blocked AttemptUnresolved) c) as HT.
  { intros e [Hf _]. auto. }
  unfold v_admission in HQ.
  apply sat_bind, (sat_catch_reads _ _ _ _ _ _ reads_attempt_exists);
    [|intros e He; apply sat_bind, (sat_catch_reads _ _ _ _ _ _ reads_request_armed);
      intros; apply sat_ret; eauto].
  apply sat_bind, (sat_catch_reads _ _ _ _ _ _ reads_request_armed);
    [|intros e He; destruct (v_attempt_exists c); apply sat_ret; eauto].
  destruct (v_attempt_exists c) as [a|]; [|by apply sat_ret].
  destruct (v_armed c) as [q|]; [|by apply sat_ret].
  destruct (a || q); [apply sat_ret; by destruct (v_flag c RB)|].
  apply sat_bind, (sat_catch_reads _ _ _ _ _ _ (reads_flag RB));
    [|intros e He; apply sat_ret; eauto].
  apply sat_ret. by destruct (v_flag c RB).
Qed.
End views.

(** ** content bookkeeping shared by the store proofs

    Lookups after inserts and deletes of the fixed keys, frames ("nothing
    outside these keys changed"), runs of removals, and the derived rules of
    [KvLogic] for backend calls under [?]. *)

(** ** Lookups at fixed keys *)

Lemma lookup_insert_key (c : contents) k k' v :
  <[k := v]> c !! k' = if bool_decide (k = k') then Some v else c !! k'.
Proof. rewrite lookup_insert. by repeat case_decide || case_bool_decide. Qed.

Lemma lookup_delete_key (c : contents) k k' :
  delete k c !! k' = if bool_decide (k = k') then None else c !! k'.
Proof. rewrite lookup_delete. by repeat case_decide || case_bool_decide. Qed.

Fixpoint delete_all (ks : list string) (c : contents) : contents :=
  match ks with
  | [] => c
  | k :: ks => delete_all ks (delete k c)
  end.

Lemma lookup_delete_all ks c k :
  delete_all ks c !! k = if bool_decide (k ∈ ks) then None else c !! k.
Proof.
  revert c. induction ks as [|k' ks IH]; intros c; simpl; [done|].
  rewrite IH, lookup_delete_key.
  repeat case_bool_decide; set_solver.
Qed.

(** Evaluates the comparisons of closed keys. *)
Ltac key_decide :=
  repeat match goal with
  | |- context [bool_decide ?P] =>
      let b := eval vm_compute in (bool_decide P) in
      lazymatch b with
      | true => change (bool_decide P) with true
      | false => change (bool_decide P) with false
      end
  | H : context [bool_decide ?P] |- _ =>
      let b := eval vm_compute in (bool_decide P) in
      lazymatch b with
      | true => change (bool_decide P) with true in H
      | false => change (bool_decide P) with false in H
      end
  end.

Ltac key_simpl :=
  repeat first [rewrite lookup_insert_key | rewrite lookup_delete_key | rewrite lookup_delete_all];
  key_decide; cbn iota.

Ltac key_simpl_in H :=
  repeat first [rewrite lookup_insert_key in H | rewrite lookup_delete_key in H
               | rewrite lookup_delete_all in H];
  key_decide; cbn iota in H.

(** Proves [k ∈ ks] or [k ∉ ks] of closed keys. *)
Ltac in_keys := apply (bool_decide_unpack _); vm_compute; exact I.

(** ** Frames *)

Definition same_except (ks : list string) (c c' : contents) : Prop :=
  ∀ k, k ∉ ks → c' !! k = c !! k.

Lemma same_refl ks c : same_except ks c c.
Proof. done. Qed.

Lemma same_trans ks c1 c2 c3 :
  same_except ks c1 c2 → same_except ks c2 c3 → same_except ks c1 c3.
Proof. intros H1 H2 k Hk. by rewrite H2, H1. Qed.

Lemma same_insert ks c c' k v :
  k ∈ ks → same_except ks c c' → same_except ks c (<[k := v]> c').
Proof. intros Hk Hs k' Hk'. rewrite lookup_insert_ne by set_solver. by apply Hs. Qed.

Lemma same_delete ks c c' k :
  k ∈ ks → same_except ks c c' → same_except ks c (delete k c').
Proof. intros Hk Hs k' Hk'. rewrite lookup_delete_ne by set_solver. by apply Hs. Qed.

Lemma same_delete_all ks c c' l :
  l ⊆ ks → same_except ks c c' → same_except ks c (delete_all l c').
Proof.
  intros Hl Hs k Hk. rewrite lookup_delete_all. case_bool_decide; [set_solver|by apply Hs].
Qed.

Lemma same_weaken ks ks' c c' :
  (∀ k, k ∈ ks → k ∈ ks') → same_except ks c c' → same_except ks' c c'.
Proof. intros Hks Hs k Hk. apply Hs. naive_solver. Qed.

Lemma take_subseteq {A} n (l : list A) : take n l ⊆ l.
Proof.
  intros x Hx. apply list_elem_of_lookup in Hx as [i Hi]. apply list_elem_of_lookup. exists i.
  apply lookup_take_Some in Hi. tauto.
Qed.

#[export] Hint Resolve same_refl take_subseteq : rn.

Ltac solve_same :=
  repeat first [apply same_refl | assumption
               | apply same_insert; [in_keys|] | apply same_delete; [in_keys|]
               | apply same_delete_all; [first [apply take_subseteq | set_solver]|]
               | eapply same_weaken; [|eassumption]; intros ?; set_solver ].

(** ** Derived rules *)
Section rules.
Context {K : Type} `{HO : OtaKv K} `{HK : !KvContract K}.
Implicit Types (c : contents).

Lemma sat_kset_u8 md k n c (Q : unit → contents → Prop) X :
  Q tt (<[k := VU8 n]> c) →
  (md = Faulty → ∀ e, X (SE_Kv e) c ∧ X (SE_Kv e) (<[k := VU8 n]> c)) →
  sat (K:=K) md (kvq (set_u8 k n)) c Q X.
Proof. intros HQ HX. by apply sat_kvq, sat_set_u8. Qed.

Lemma sat_kset_u32 md k n c (Q : unit → contents → Prop) X :
  Q tt (<[k := VU32 n]> c) →
  (md = Faulty → ∀ e, X (SE_Kv e) c ∧ X (SE_Kv e) (<[k := VU32 n]> c)) →
  sat (K:=K) md (kvq (set_u32 k n)) c Q X.
Proof. intros HQ HX. by apply sat_kvq, sat_set_u32. Qed.

Lemma sat_kset_str md k v c (Q : unit → contents → Prop) X :
  kv_storable v ∨ md = Faulty →
  Q tt (<[k := VStr v]> c) →
  (md = Faulty → ∀ e, X (SE_Kv e) c ∧ X (SE_Kv e) (<[k := VStr v]> c) ∧
                      X (SE_Kv e) (delete k c)) →
  sat (K:=K) md (kvq (set_str k v)) c Q X.
Proof. intros Hv HQ HX. by apply sat_kvq, sat_set_str. Qed.

Lemma sat_kremove md k c (Q : unit → contents → Prop) X :
  Q tt (delete k c) →
  (md = Faulty → ∀ e, X (SE_Kv e) c ∧ X (SE_Kv e) (delete k c)) →
  sat (K:=K) md (kvq (remove k)) c Q X.
Proof. intros HQ HX. by apply sat_kvq, sat_remove. Qed.

(** A run of removals: an error leaves a prefix of it done. *)
Lemma sat_remove_all md ks c (Q : unit → contents → Prop) X :
  Q tt (delete_all ks c) →
  (md = Faulty → ∀ e n, X (SE_Kv e) (delete_all (take n ks) c)) →
  sat (K:=K) md (for_each ks (λ k, kvq (remove k))) c Q X.
Proof.
  revert c. induction ks as [|k ks IH]; intros c HQ HX; simpl; [by apply sat_ret|].
  apply sat_bind, sat_kremove.
  - apply IH; [done|]. intros Hf e n. apply (HX Hf e (S n)).
  - intros Hf e. split; [apply (HX Hf e 0%nat)|].
    exact (HX Hf e 1%nat).
Qed.

(** [scrub] removes a bad value and nothing else. *)
Lemma sat_scrub md k ty c (Q : unit → contents → Prop) X :
  Q tt (if v_bad c k ty then delete k c else c) →
  (md = Faulty → ∀ e, X (SE_Kv e) c ∧ X (SE_Kv e) (delete k c)) →
  sat (K:=K) md (scrub k ty) c Q X.
Proof.
  intros HQ HX. apply sat_bind. eapply sat_reads; [apply reads_corrupt_read| |].
  - intros b [= <-]. destruct (v_bad c k ty); [by apply sat_kremove|by apply sat_ret].
  - intros e [(-> & e' & ->)|?]; [|done]. by apply HX.
Qed.
End rules.
