(* ===== verification/StoreAttempt.v ===== *)
(** * StoreAttempt: ids and the life cycle of the attempt record

    Specifications of [next_attempt_id], [begin_attempt], the two marks,
    [clear_attempt] and [complete_attempt], each for every outcome: the success
    and every state a fault or a power loss can leave. *)
From S2P Require Import Prelude Text Version Decision Kv Reason KvLogic Store StoreViews.
Open Scope Z_scope.

(** ** Vocabulary *)

Definition ID_KEYS : list string := [ATT_CTR; ATT_ID; RB_ID; RQ_ID].
Definition CLEAR_KEYS : list string :=
  [ATT_VER; ATT_SLOT; ATT_ACT; ATT_BOOT; ATT_INV; ATT_ID; ATT_WHY].

(** An attempt exists iff [att_ver] and [att_slot] exist. *)
Definition committed (c : contents) : Prop := is_Some (c !! ATT_VER) ∧ is_Some (c !! ATT_SLOT).

#[export] Instance committed_dec c : Decision (committed c).
Proof. unfold committed. apply _. Defined.

Definition next_id (floor : Z) : Z :=
  let next := u32_wrapping_add floor 1 in if next =? 0 then 1 else next.

(** The complete record of a fresh attempt. *)
Definition attempt_written (c : contents) (id : Z) (v : Version) (label : string) (inv : bool) : Prop :=
  c !! ATT_VER = Some (VStr (version_str v)) ∧ c !! ATT_SLOT = Some (VStr label) ∧
  c !! ATT_ID = Some (VU32 id) ∧ c !! ATT_INV = Some (VU8 (if inv then 1 else 0)) ∧
  c !! ATT_BOOT = None ∧ c !! ATT_ACT = None ∧ c !! ATT_WHY = None.

(** ** Pure facts *)

Lemma v_highest_ext c c' ks h :
  (∀ k, k ∈ ks → c' !! k = c !! k) → v_highest c' ks h = v_highest c ks h.
Proof.
  unfold v_highest. generalize (@Ok StoreError Z h).
  induction ks as [|k ks IH]; intros acc Hk; simpl; [done|].
  rewrite IH by set_solver. unfold v_u32. by rewrite Hk by set_solver.
Qed.

Lemma v_highest_err c ks e :
  foldl (λ acc k, h ← acc; v ← v_u32 c k; Ok (Z.max h (default 0 v))) (Err e) ks = Err e.
Proof. induction ks; simpl; auto. Qed.

Lemma v_highest_bound c ks h floor :
  v_highest c ks h = Ok floor →
  h ≤ floor ∧ ∀ k n, k ∈ ks → c !! k = Some (VU32 n) → n ≤ floor.
Proof.
  unfold v_highest. revert h. induction ks as [|k ks IH]; intros h; simpl.
  - intros [= <-]. split; [lia|]. intros k n []%not_elem_of_nil.
  - destruct (v_u32 c k) as [o|e] eqn:Ho; simpl; [|by rewrite v_highest_err].
    intros [Hle Hin]%IH. split; [lia|]. intros k' n [->|Hk']%elem_of_cons Hn; [|eauto].
    unfold v_u32 in Ho. rewrite Hn in Ho. injection Ho as <-. simpl in Hle. lia.
Qed.

Lemma next_id_succ floor : 0 ≤ floor < u32_max → next_id floor = floor + 1.
Proof.
  intros Hf. unfold next_id, u32_wrapping_add. rewrite u32_wrap_small by (unfold is_u32; lia).
  destruct (Z.eqb_spec (floor + 1) 0); lia.
Qed.

Lemma next_id_u32 floor : is_u32 (next_id floor) ∧ next_id floor ≠ 0.
Proof.
  unfold next_id, u32_wrapping_add. pose proof (u32_wrap_range (floor + 1)).
  destruct (Z.eqb_spec (u32_wrap (floor + 1)) 0); [split; [|done]; by unfold is_u32, u32_max|done].
Qed.

Lemma committed_exists c : v_attempt_exists c = Ok true → committed c.
Proof.
  unfold v_attempt_exists, v_str, committed.
  destruct (c !! ATT_VER) as [[]|], (c !! ATT_SLOT) as [[]|]; simpl; naive_solver.
Qed.

Lemma open_not_committed c : v_admission c = Open → ¬ committed c.
Proof.
  unfold v_admission, v_attempt_exists, v_str, committed.
  destruct (c !! ATT_VER) as [[]|], (c !! ATT_SLOT) as [[]|]; simpl;
    destruct (v_armed c) as [[]|], (v_flag c RB) as [[]|]; simpl; try done; intros _ [[? ?] [? ?]]; done.
Qed.

Lemma open_no_request c : v_admission c = Open → c !! RQ_FROM = None.
Proof.
  unfold v_admission, v_armed, v_str.
  destruct (v_attempt_exists c) as [[]|], (c !! RQ_FROM) as [[]|]; simpl;
    try done; destruct (v_flag c RB) as [[]|]; done.
Qed.

Lemma open_no_report c : v_admission c = Open → v_flag c RB = Ok false.
Proof.
  unfold v_admission.
  destruct (v_attempt_exists c) as [[]|], (v_armed c) as [[]|]; simpl; try done;
    by destruct (v_flag c RB) as [[]|].
Qed.

Lemma not_committed_mono c c' :
  (∀ k, k = ATT_VER ∨ k = ATT_SLOT → c' !! k = c !! k ∨ c' !! k = None) →
  ¬ committed c → ¬ committed c'.
Proof.
  intros Hm Hc [[x Hx] [y Hy]]. apply Hc. unfold committed.
  destruct (Hm ATT_VER) as [E|E]; [auto| |congruence].
  destruct (Hm ATT_SLOT) as [E'|E']; [auto| |congruence].
  rewrite <- E, <- E'. eauto.
Qed.

Lemma attempt_written_committed c id v label inv :
  attempt_written c id v label inv → committed c.
Proof. intros (?&?&_). split; eauto. Qed.

(** A fully written attempt reads back as the attempt that was begun. *)
Lemma attempt_written_view c id v slot label inv :
  wf_version v → slot_label slot = Some label → slot ≠ FACTORY_SLOT →
  attempt_written c id v label inv →
  v_attempt c = Ok (Some (mkStored (mkAttempt id (Some v) slot false false inv) None)).
Proof.
  intros Hv Hl Hs (H1&H2&H3&H4&H5&H6&H7).
  unfold v_attempt, v_attempt_slot, v_flag, v_str, v_u32, v_u8, v_reason.
  rewrite H1, H2, H3, H4, H5, H6, H7. simpl.
  rewrite (slot_label_roundtrip _ _ Hl), (bool_decide_eq_false_2 (slot = FACTORY_SLOT)) by done. simpl.
  unfold version_str. rewrite version_parse_display_ok by done. by destruct inv.
Qed.

Lemma version_str_storable v : wf_version v → kv_storable (version_str v).
Proof.
  intros Hv. split.
  { apply version_display_chars; [done| |done]. intros a Ha. unfold kv_char, is_ascii_byte, is_digit in *.
    apply andb_true_iff in Ha as [H1%Z.leb_le H2%Z.leb_le]. apply andb_true_iff. split; [apply Z.ltb_lt; lia|].
    apply negb_true_iff, Z.eqb_neq. lia. }
  pose proof (version_display_len v Hv). unfold version_str, kv_str_cap. lia.
Qed.

#[export] Hint Resolve version_str_storable next_id_u32 : rn.

Section attempt.
Context {K : Type} `{HO : OtaKv K} `{HK : !KvContract K}.
Implicit Types (c : contents).

(** ** Ids *)

(** What creating the epoch may leave. *)
Definition epoch_ext c c' : Prop :=
  c' = c ∨ (c !! ATT_EPOCH = None ∧ ∃ n, c' = <[ATT_EPOCH := VU32 n]> c).

Lemma epoch_ext_same c c' : epoch_ext c c' → same_except [ATT_EPOCH] c c'.
Proof. intros [->|(_ & n & ->)]; solve_same. Qed.

Lemma epoch_ext_highest c c' h : epoch_ext c c' → v_highest c' ID_KEYS h = v_highest c ID_KEYS h.
Proof. intros Hs%epoch_ext_same. apply v_highest_ext. intros k Hk. apply Hs. set_solver. Qed.

Lemma sat_epoch md c :
  sat (K:=K) md epoch c
    (λ n c', epoch_ext c c' ∧ c' !! ATT_EPOCH = Some (VU32 n))
    (λ e c', epoch_ext c c' ∧ (transient md e ∨ v_u32 c ATT_EPOCH = Err e)).
Proof.
  unfold epoch. apply sat_bind. eapply sat_reads; [apply reads_get_u32| |].
  - intros o Ho. unfold v_u32 in Ho.
    destruct (c !! ATT_EPOCH) as [[]|] eqn:E; simpl in Ho; try done; injection Ho as <-.
    + apply sat_ret. split; [by left|done].
    + apply sat_bind, sat_draw. intros n. apply sat_bind, sat_kset_u32.
      * apply sat_ret. split; [right; eauto|]. by rewrite lookup_insert_eq.
      * intros -> e. split; (split; [|left; split; eauto]); [by left|right; eauto].
  - intros e He. split; [by left|tauto].
Qed.

(** What reserving an id may leave, and what it leaves on success. *)
Definition id_partial c c' : Prop :=
  ∃ c1, epoch_ext c c1 ∧
    (c' = c1 ∨ ∃ floor, v_highest c ID_KEYS 0 = Ok floor ∧
                        c' = <[ATT_CTR := VU32 (next_id floor)]> c1).

Definition id_reserved c (id : Z) c' : Prop :=
  ∃ c1 floor, epoch_ext c c1 ∧ is_Some (c1 !! ATT_EPOCH) ∧
    v_highest c ID_KEYS 0 = Ok floor ∧ id = next_id floor ∧ c' = <[ATT_CTR := VU32 id]> c1.

Lemma id_partial_same c c' : id_partial c c' → same_except [ATT_EPOCH; ATT_CTR] c c'.
Proof.
  intros (c1 & He%epoch_ext_same & Hc).
  assert (same_except [ATT_EPOCH; ATT_CTR] c c1) by solve_same.
  destruct Hc as [->|(fl & _ & ->)]; solve_same.
Qed.

Lemma id_reserved_partial c id c' : id_reserved c id c' → id_partial c c'.
Proof. intros (c1 & fl & He & _ & Hf & -> & ->). exists c1. eauto 10. Qed.

Lemma id_reserved_same c id c' : id_reserved c id c' → same_except [ATT_EPOCH; ATT_CTR] c c'.
Proof. intros ?%id_reserved_partial. by apply id_partial_same. Qed.

Lemma sat_next_id md c :
  sat (K:=K) md next_attempt_id c (id_reserved c)
    (λ e c', id_partial c c' ∧ (transient md e ∨ v_u32 c ATT_EPOCH = Err e ∨
                                v_highest c ID_KEYS 0 = Err e)).
Proof.
  unfold next_attempt_id. apply sat_bind. eapply sat_mono; [apply sat_epoch| |].
  - intros n c1 [He Hn]. apply sat_bind.
    eapply sat_reads; [apply reads_highest_id| |].
    + intros fl Hfl. change (v_highest c1 ID_KEYS 0 = Ok fl) in Hfl. rewrite (epoch_ext_highest c) in Hfl by done.
      fold (next_id fl). apply sat_bind, sat_kset_u32.
      * apply sat_ret. exists c1, fl. split_and!; eauto.
      * intros -> e. split; (split; [|left; split; eauto]); exists c1; eauto.
    + intros e Hr. change (transient md e ∨ v_highest c1 ID_KEYS 0 = Err e) in Hr. rewrite (epoch_ext_highest c) in Hr by done.
      split; [exists c1; eauto|]. tauto.
  - intros e c1 [He Hr]. split; [exists c1; eauto|]. tauto.
Qed.

(** The id is above every id still stored, unless the 32-bit counter wraps. *)
Lemma id_reserved_fresh c id c' :
  id_reserved c id c' →
  is_u32 id ∧ id ≠ 0 ∧
  ∃ floor, v_highest c ID_KEYS 0 = Ok floor ∧
    (floor < u32_max → id = floor + 1 ∧
      ∀ k n, k ∈ ID_KEYS → c !! k = Some (VU32 n) → n < id).
Proof.
  intros (c1 & fl & He & _ & Hf & -> & ->).
  split_and!; [apply next_id_u32..|]. exists fl. split; [done|]. intros Hlt.
  apply v_highest_bound in Hf as [H0 Hin]. rewrite next_id_succ by lia.
  split; [done|]. intros k n Hk Hn. specialize (Hin k n Hk Hn). lia.
Qed.

(** ** [begin_attempt] *)

Definition BEGIN_KEYS : list string := [ATT_WHY; ATT_SLOT; ATT_VER; ATT_ACT; ATT_BOOT; ATT_ID].

Lemma begin_keys_sub n : take n BEGIN_KEYS ⊆ CLEAR_KEYS.
Proof. etrans; [apply take_subseteq|]. intros k. unfold BEGIN_KEYS, CLEAR_KEYS. set_solver. Qed.

(** Keys [begin_attempt] may touch. *)
Definition ATTEMPT_SCOPE : list string := [ATT_EPOCH; ATT_CTR] ++ CLEAR_KEYS.

(** The states an interrupted [begin_attempt] may leave: no attempt is visible,
    or the whole record is. *)
Definition begin_torn c c' (v : Version) (label : string) (inv : bool) : Prop :=
  same_except ATTEMPT_SCOPE c c' ∧
  (¬ committed c' ∨ ∃ id, attempt_written c' id v label inv).

(** The writes after the id was reserved: hidden until the last commit. *)
Lemma sat_begin_writes md c v label (inv : bool) id :
  wf_version v → kv_storable label → ¬ committed c →
  sat (K:=K) md
    (_ ← for_each BEGIN_KEYS (λ key : string, kvq (K:=K) (remove key));
     _ ← kvq (set_u32 ATT_ID id);
     _ ← kvq (set_u8 ATT_INV (if inv then 1 else 0));
     _ ← kvq (set_str ATT_VER (version_str v));
     _ ← kvq (set_str ATT_SLOT label);
     mret id) c
    (λ id' c', id' = id ∧ attempt_written c' id v label inv ∧ same_except CLEAR_KEYS c c')
    (λ e c', transient md e ∧ same_except CLEAR_KEYS c c' ∧
             (¬ committed c' ∨ attempt_written c' id v label inv)).
Proof.
  intros Hv Hl Hnc.
  assert (Hhid : ∀ c' : contents, c' !! ATT_SLOT = None → ¬ committed c')
    by (intros c' Hn [_ [x Hx]]; congruence).
  assert (∀ e, md = Faulty → transient md (SE_Kv e)) as Ht by (intros e Hf; split; eauto).
  apply sat_bind, sat_remove_all.
  2:{ intros Hf e n. split_and!; [auto|apply same_delete_all; [apply begin_keys_sub|solve_same]|left].
      eapply not_committed_mono; [|exact Hnc]. intros k _.
      rewrite lookup_delete_all. case_bool_decide; auto. }
  apply sat_bind, sat_kset_u32; [|intros Hf e; split; split_and!; auto; [solve_same| |solve_same|];
    left; apply Hhid; by key_simpl].
  apply sat_bind, sat_kset_u8; [|intros Hf e; split; split_and!; auto; [solve_same| |solve_same|];
    left; apply Hhid; by key_simpl].
  apply sat_bind, sat_kset_str; [auto with rn|
    |intros Hf e; split_and!; auto; try solve_same; left; apply Hhid; by key_simpl].
  apply sat_bind, sat_kset_str; [auto| |].
  - apply sat_ret. split_and!; [done|by repeat split; key_simpl|].
    repeat (apply same_insert; [in_keys|]).
    apply same_delete_all; [exact (begin_keys_sub 6)|apply same_refl].
  - intros Hf e. split_and!; auto; try solve_same.
    + left; apply Hhid; by key_simpl.
    + right. by repeat split; key_simpl.
    + left; apply Hhid; by key_simpl.
Qed.

(** Why [begin_attempt] may fail before it writes anything. *)
Definition begin_refused md c (slot : SlotId) (e : StoreError) : Prop :=
  (∃ by_, e = SE_NotAdmitted by_ ∧ (v_admission c = Blocked by_ ∨ md = Faulty)) ∨
  (e = SE_InvalidSlot ∧ (slot_label slot = None ∨ slot = FACTORY_SLOT)).

Lemma sat_begin_attempt md c v slot inv :
  wf_version v →
  sat (K:=K) md (begin_attempt v slot inv) c
    (λ id c', v_admission c = Open ∧ slot ≠ FACTORY_SLOT ∧
      ∃ label c1, slot_label slot = Some label ∧ id_reserved c id c1 ∧
        attempt_written c' id v label inv ∧ same_except CLEAR_KEYS c1 c')
    (λ e c', c' = c ∧ begin_refused md c slot e ∨
      v_admission c = Open ∧ slot ≠ FACTORY_SLOT ∧
      (∃ label, slot_label slot = Some label ∧ begin_torn c c' v label inv) ∧
      (transient md e ∨ v_u32 c ATT_EPOCH = Err e ∨ v_highest c ID_KEYS 0 = Err e)).
Proof.
  intros Hv. unfold begin_attempt, begin_refused. apply sat_bind, sat_admission.
  2:{ intros ->. apply sat_throw. eauto 10. }
  destruct (v_admission c) as [|by_] eqn:Ha; [|apply sat_throw; eauto 10].
  pose proof (open_not_committed _ Ha) as Hnc.
  destruct (slot_label slot) as [label|] eqn:Hl; [|apply sat_throw; eauto 10].
  case_bool_decide as Hs; [apply sat_throw; eauto 10|].
  assert (∀ c1, same_except [ATT_EPOCH; ATT_CTR] c c1 → ¬ committed c1) as Hnc1.
  { intros c1 Hsame. eapply not_committed_mono; [|exact Hnc].
    intros k [->| ->]; left; apply Hsame; in_keys. }
  apply sat_bind. eapply sat_mono; [apply sat_next_id| |].
  - intros id c1 Hid. pose proof (id_reserved_same _ _ _ Hid) as Hsame.
    eapply sat_mono; [apply sat_begin_writes; eauto with rn| |].
    + intros id' c2 (-> & Hw & Hs2). split_and!; [done..|]. eauto 10.
    + intros e c2 (Ht & Hs2 & Hd). right. split_and!; [done|done| |by left].
      exists label. split; [done|]. split; [|naive_solver].
      apply (same_trans _ _ c1); [solve_same|]. eapply same_weaken; [|exact Hs2]. set_solver.
  - intros e c1 [Hp%id_partial_same He]. right. split_and!; [done|done| |done].
    exists label. split; [done|]. split; [solve_same|]. left. by apply Hnc1.
Qed.

(** ** Clearing and completing *)

Lemma sat_clear md c :
  sat (K:=K) md clear_attempt c
    (λ _ c', c' = delete_all CLEAR_KEYS c)
    (λ e c', transient md e ∧ ∃ n, c' = delete_all (take n CLEAR_KEYS) c).
Proof.
  unfold clear_attempt. apply sat_remove_all; [done|].
  intros Hf e n. split; [split; eauto|by exists n].
Qed.

(** The refusal after [complete_attempt] decided about it. *)
Definition complete_refusal c (running : Version) : contents :=
  match c !! REJ_VER with
  | None => c
  | Some (VStr s) =>
      if bool_decide (result_ok (Version_parse s) = Some running) then c else delete REJ_VER c
  | Some _ => delete REJ_VER c
  end.

Lemma sat_complete md c running :
  sat (K:=K) md (complete_attempt running) c
    (λ _ c', c' = delete_all CLEAR_KEYS (complete_refusal c running))
    (λ e c', transient md e ∧
      (c' = c ∨ ∃ n, c' = delete_all (take n CLEAR_KEYS) (complete_refusal c running))).
Proof.
  set (X := λ (e : StoreError) c', transient md e ∧
      (c' = c ∨ ∃ n, c' = delete_all (take n CLEAR_KEYS) (complete_refusal c running))).
  assert (Hclear : sat (K:=K) md clear_attempt (complete_refusal c running)
    (λ _ c', c' = delete_all CLEAR_KEYS (complete_refusal c running)) X).
  { eapply sat_mono; [apply sat_clear|done|]. intros e c' [He Hc]. split; auto. }
  assert (Hrm : complete_refusal c running = delete REJ_VER c →
    sat (K:=K) md (_ ← kvq (remove REJ_VER); clear_attempt) c
      (λ _ c', c' = delete_all CLEAR_KEYS (complete_refusal c running)) X).
  { intros Hd. apply sat_bind, sat_kremove; [by rewrite <- Hd|].
    intros Hf e. split; (split; [split; eauto|]); [by left|right; exists 0%nat; by rewrite Hd]. }
  assert (Hkeep : complete_refusal c running = c →
    sat (K:=K) md (_ ← mret tt; clear_attempt) c
      (λ _ c', c' = delete_all CLEAR_KEYS (complete_refusal c running)) X).
  { intros Hd. apply sat_bind, sat_ret. by rewrite <- Hd at 1. }
  unfold complete_attempt. apply sat_bind, sat_catch, sat_get_str.
  - intros o Ho. unfold complete_refusal in *.
    destruct (c !! REJ_VER) as [[]|] eqn:E; simpl in Ho; try done; injection Ho as <-; [|auto].
    case_bool_decide; auto.
  - intros e [[Hf Hc]|He]; [rewrite Hc; apply sat_bind, sat_throw; split; [split|]; eauto|].
    rewrite (read_str_err _ _ He). apply Hrm. unfold complete_refusal.
    by destruct (c !! REJ_VER) as [[]|].
Qed.

Lemma sat_mark k md c :
  sat (K:=K) md (kvq (set_u8 k 1)) c (λ _ c', c' = <[k := VU8 1]> c)
    (λ e c', transient md e ∧ (c' = c ∨ c' = <[k := VU8 1]> c)).
Proof. apply sat_kset_u8; [done|]. intros Hf e. split; (split; [split; eauto|auto]). Qed.
End attempt.

(** ** Consequences for half-done clears *)

Lemma clear_prefix_hides n c :
  delete_all (take n CLEAR_KEYS) c = c ∨ ¬ committed (delete_all (take n CLEAR_KEYS) c).
Proof.
  destruct n as [|n]; [by left|right]. intros [[x Hx] _]. simpl in Hx.
  rewrite lookup_delete_all, lookup_delete_key in Hx. key_decide. by case_bool_decide.
Qed.

Lemma clear_prefix_same n c : same_except CLEAR_KEYS c (delete_all (take n CLEAR_KEYS) c).
Proof. apply same_delete_all; [apply take_subseteq|apply same_refl]. Qed.

(** A repeated clear finishes an interrupted one. *)
Lemma clear_idempotent n c :
  delete_all CLEAR_KEYS (delete_all (take n CLEAR_KEYS) c) = delete_all CLEAR_KEYS c.
Proof.
  apply map_eq. intros k. rewrite !lookup_delete_all.
  case_bool_decide as Hk; [done|]. rewrite bool_decide_eq_false_2; [done|].
  intros Hin. apply Hk. by apply (take_subseteq n).
Qed.

Lemma cleared_no_attempt c : v_attempt (delete_all CLEAR_KEYS c) = Ok None.
Proof. unfold v_attempt, v_str. by key_simpl. Qed.

Lemma complete_refusal_same c v : same_except [REJ_VER] c (complete_refusal c v).
Proof.
  unfold complete_refusal. destruct (c !! REJ_VER) as [[]|]; try case_bool_decide; solve_same.
Qed.

(** After completion only the running version can still be refused. *)
Lemma complete_refusal_lookup c v s :
  complete_refusal c v !! REJ_VER = Some s →
  ∃ t, s = VStr t ∧ result_ok (Version_parse t) = Some v.
Proof.
  unfold complete_refusal. destruct (c !! REJ_VER) as [[]|] eqn:E; try case_bool_decide;
    rewrite ?lookup_delete_eq; intros Hs; simplify_eq; eauto.
Qed.
