(* ===== verification/StoreReport.v ===== *)
(** * StoreReport: the rollback report, rollback reasons and operator-rollback requests

    Specifications of [persist_report], [report_rollback] and
    [mark_report_delivered] for every outcome.  The order of commits is what
    matters: the id is written last, so "pending for this id" implies the reason
    is durable, and the attempt is cleared only after report and refusal are.
    The second half does the same for [note_rollback], the removal and withdrawal of
    a request, and [settle_request]. *)
From S2P Require Import Prelude Text Version Decision Kv Reason KvLogic Store StoreViews StoreAttempt.
Open Scope Z_scope.

(** ** Vocabulary *)

Definition REPORT_SCOPE : list string := [RB; RB_WHY; RB_ID].

(** A report is durable and pending for [id]. *)
Definition reported (c : contents) (id : Z) : Prop :=
  c !! RB = Some (VU8 1) ∧ c !! RB_ID = Some (VU32 id).

(** ... with this reason. *)
Definition reported_why (c : contents) (id : Z) (why : string) : Prop :=
  reported c id ∧ c !! RB_WHY = Some (VStr why).

#[export] Instance reported_dec c id : Decision (reported c id).
Proof. unfold reported. apply _. Defined.

(** A pending report that belongs to another attempt. *)
Definition foreign_report (c : contents) (id : Z) : Prop :=
  c !! RB = Some (VU8 1) ∧ ∃ other, c !! RB_ID = Some (VU32 other) ∧ other ≠ id.

(** Why [persist_report] may stop before its first write. *)
Definition persist_refused (c : contents) (id : Z) (e : StoreError) : Prop :=
  v_flag c RB = Err e ∨ (c !! RB = Some (VU8 1) ∧ v_u32 c RB_ID = Err e) ∨
  (e = SE_ReportPending ∧ foreign_report c id).

(** What an interrupted [persist_report] may leave: the id is either untouched
    (nothing happened), absent, or written after the reason and the flag. *)
Definition torn_report (c c' : contents) (id : Z) (why : string) : Prop :=
  same_except REPORT_SCOPE c c' ∧
  (c' !! RB = c !! RB ∨ c' !! RB = Some (VU8 1)) ∧
  (c' = c ∨ c' !! RB_ID = None ∨ reported_why c' id why).

(** The refusal [report_rollback] records. *)
Definition left_refused (left_ : option Version) (c : contents) : Prop :=
  match left_ with Some v => c !! REJ_VER = Some (VStr (version_str v)) | None => True end.

(** ** Pure facts *)

Lemma v_flag_true c k : v_flag c k = Ok true → c !! k = Some (VU8 1).
Proof.
  unfold v_flag, v_u8. destruct (c !! k) as [[]|]; simpl; try done.
  intros [= Hn]. apply bool_decide_eq_true in Hn. congruence.
Qed.

Lemma v_flag_false c k : v_flag c k = Ok false → c !! k ≠ Some (VU8 1).
Proof.
  unfold v_flag, v_u8. destruct (c !! k) as [[]|]; simpl; try done.
  intros [= Hn] ?. apply bool_decide_eq_false in Hn. congruence.
Qed.

Lemma reported_persisted c id : reported c id → v_persisted_for c id = Ok true.
Proof.
  intros [H1 H2]. unfold v_persisted_for, v_u8, v_u32. rewrite H1, H2. simpl.
  by rewrite bool_decide_eq_true_2.
Qed.

Lemma persisted_reported c id : v_persisted_for c id = Ok true → reported c id.
Proof.
  unfold v_persisted_for, v_u8, v_u32, reported.
  destruct (c !! RB) as [[]|], (c !! RB_ID) as [[]|]; simpl; try done;
    intros [= [Hid%bool_decide_eq_true Hrb%Z.eqb_eq]%andb_true_iff]; simplify_eq; done.
Qed.

Lemma reported_not_foreign c id : reported c id → ¬ foreign_report c id.
Proof. intros [_ H] (_ & o & Ho & Hne). congruence. Qed.

Lemma reported_same ks c c' id :
  RB ∉ ks → RB_ID ∉ ks → same_except ks c c' → reported c id → reported c' id.
Proof. intros H1 H2 Hs [Hr Hi]. split; by rewrite Hs. Qed.

Lemma torn_report_refl c id why : torn_report c c id why.
Proof. split_and!; [solve_same|auto..]. Qed.

(** An interrupted [persist_report] never turns someone else's report into ours,
    and never un-reports. *)
Lemma torn_report_pending c c' id why :
  torn_report c c' id why → c !! RB = Some (VU8 1) → c' !! RB = Some (VU8 1).
Proof. intros (_ & [->| ->] & _); auto. Qed.

Lemma torn_report_own c c' id why :
  torn_report c c' id why → ¬ foreign_report c id → ¬ foreign_report c' id.
Proof.
  intros (_ & _ & [->|[Hn|[Hr _]]]) Hf; [done| |by apply reported_not_foreign].
  intros (_ & o & Ho & _). congruence.
Qed.

Section report.
Context {K : Type} `{HO : OtaKv K} `{HK : !KvContract K}.
Implicit Types (c : contents).

(** ** [persist_report] *)

Lemma sat_persist_writes md c id why :
  kv_storable why ∨ md = Faulty →
  sat (K:=K) md
    (_ ← kvq (remove RB_ID);
     _ ← scrub RB_WHY KT_Str;
     _ ← kvq (set_str RB_WHY why);
     _ ← kvq (set_u8 RB 1);
     _ ← kvq (set_u32 RB_ID id);
     mret tt) c
    (λ _ c', same_except REPORT_SCOPE c c' ∧ reported_why c' id why)
    (λ e c', transient md e ∧ torn_report c c' id why).
Proof.
  intros Hw. assert (∀ e, md = Faulty → transient md (SE_Kv e)) as Ht by (intros e Hf; split; eauto).
  assert (Htorn : ∀ c', same_except REPORT_SCOPE c c' →
    c' !! RB = c !! RB ∨ c' !! RB = Some (VU8 1) → c' !! RB_ID = None → torn_report c c' id why)
    by (intros; split_and!; auto).
  apply sat_bind, sat_kremove.
  2:{ intros Hf e. split; (split; [auto|]); [apply torn_report_refl|].
      apply Htorn; [solve_same|left|]; by key_simpl. }
  set (c1 := delete RB_ID c).
  assert (H1 : same_except REPORT_SCOPE c c1 ∧ c1 !! RB = c !! RB ∧ c1 !! RB_ID = None)
    by (split_and!; [unfold c1; solve_same| |]; unfold c1; by key_simpl).
  destruct H1 as (S1 & R1 & I1). clearbody c1.
  apply sat_bind, sat_scrub.
  2:{ intros Hf e. split; (split; [auto|]); apply Htorn; try solve_same; key_simpl; auto. }
  set (c2 := if v_bad c1 RB_WHY KT_Str then delete RB_WHY c1 else c1).
  assert (H2 : same_except REPORT_SCOPE c c2 ∧ c2 !! RB = c !! RB ∧ c2 !! RB_ID = None).
  { unfold c2. destruct (v_bad c1 RB_WHY KT_Str); [|done]. split_and!; [solve_same| |]; by key_simpl. }
  destruct H2 as (S2 & R2 & I2). clearbody c2. clear c1 S1 R1 I1.
  apply sat_bind, sat_kset_str; [done| |].
  2:{ intros Hf e. split_and!; auto; apply Htorn; try solve_same; key_simpl; auto. }
  apply sat_bind, sat_kset_u8.
  2:{ intros Hf e. split; (split; [auto|]); apply Htorn; try solve_same; key_simpl; auto. }
  apply sat_bind, sat_kset_u32.
  { apply sat_ret. split; [solve_same|]. by repeat split; key_simpl. }
  intros Hf e. split; (split; [auto|]).
  - apply Htorn; try solve_same; key_simpl; auto.
  - split_and!; [solve_same|right; by key_simpl|right; right]. by repeat split; key_simpl.
Qed.

(** Every outcome of [persist_report]. *)
Lemma sat_persist_report md c id why :
  kv_storable why ∨ md = Faulty →
  sat (K:=K) md (persist_report id why) c
    (λ _ c', ¬ foreign_report c id ∧ same_except REPORT_SCOPE c c' ∧ reported_why c' id why)
    (λ e c', c' = c ∧ (transient md e ∨ persist_refused c id e) ∨
             ¬ foreign_report c id ∧ transient md e ∧ torn_report c c' id why).
Proof.
  intros Hw. assert (Hgo : ¬ foreign_report c id → sat (K:=K) md
    (_ ← kvq (remove RB_ID); _ ← scrub RB_WHY KT_Str; _ ← kvq (set_str RB_WHY why);
     _ ← kvq (set_u8 RB 1); _ ← kvq (set_u32 RB_ID id); mret tt) c
    (λ _ c', ¬ foreign_report c id ∧ same_except REPORT_SCOPE c c' ∧ reported_why c' id why)
    (λ e c', c' = c ∧ (transient md e ∨ persist_refused c id e) ∨
             ¬ foreign_report c id ∧ transient md e ∧ torn_report c c' id why)).
  { intros Hnf. eapply sat_mono; [by apply sat_persist_writes|naive_solver..]. }
  unfold persist_report. apply sat_bind. eapply sat_reads; [apply reads_flag| |].
  2:{ intros e [?|?]; left; unfold persist_refused; auto 10. }
  intros [] Hrb; apply sat_bind.
  2:{ apply sat_ret, Hgo. intros [H1 _]. by apply v_flag_false in Hrb. }
  apply v_flag_true in Hrb.
  apply sat_bind. eapply sat_reads; [apply reads_get_u32| |].
  2:{ intros e [?|?]; left; unfold persist_refused; auto 10. }
  intros [other|] Ho; unfold v_u32 in Ho; destruct (c !! RB_ID) as [[]|] eqn:Ei; simpl in Ho;
    simplify_eq.
  - case_bool_decide; [apply sat_ret, Hgo|apply sat_throw].
    + subst. intros (_ & o & Ho & ?). congruence.
    + left. split; [done|]. right. right. right. split; [done|]. split; eauto.
  - apply sat_ret, Hgo. intros (_ & o & Ho & ?). congruence.
Qed.

(** ** [report_rollback] *)

Definition att_why (c : contents) : string := default "bootloader" (v_reason c ATT_WHY).

(** Report and refusal are durable, the attempt is still complete. *)
Definition rollback_durable c (id : Z) (left_ : option Version) (already : bool) c' : Prop :=
  (if already then same_except [REJ_VER] c c'
   else ¬ foreign_report c id ∧ same_except (REJ_VER :: REPORT_SCOPE) c c' ∧
        reported_why c' id (att_why c)) ∧
  left_refused left_ c'.

(** The attempt is untouched; the report may be half-written. *)
Definition rollback_kept c (id : Z) (already : bool) c' : Prop :=
  if already then same_except [REJ_VER] c c'
  else same_except (REJ_VER :: REPORT_SCOPE) c c' ∧
       (c' !! RB = c !! RB ∨ c' !! RB = Some (VU8 1)) ∧
       (c' = c ∨ ¬ foreign_report c id ∧ (c' !! RB_ID = None ∨ reported_why c' id (att_why c))).

Lemma rollback_kept_refl c id already : rollback_kept c id already c.
Proof. destruct already; [solve_same|]. split_and!; [solve_same|auto..]. Qed.

Lemma torn_report_kept c c' id :
  ¬ foreign_report c id → torn_report c c' id (att_why c) → rollback_kept c id false c'.
Proof.
  intros Hf (Hs & Hrb & Hi). split_and!; [eapply same_weaken; [|exact Hs]; set_solver|done|].
  destruct Hi; auto.
Qed.

Lemma kept_refusal_step c c1 c' id already :
  (already = true → same_except [REJ_VER] c c1) →
  (already = false → ¬ foreign_report c id ∧ same_except (REJ_VER :: REPORT_SCOPE) c c1 ∧
                     reported_why c1 id (att_why c)) →
  same_except [REJ_VER] c1 c' → rollback_kept c id already c'.
Proof.
  intros Ht Hf Hs. destruct already; simpl.
  - eapply same_trans; eauto.
  - destruct (Hf eq_refl) as (Hnf & Hs1 & [[H1 H2] H3]).
    split_and!; [eapply same_trans; [exact Hs1|solve_same]|right; by rewrite Hs by in_keys|].
    right. split; [done|]. right. repeat split; by rewrite Hs by in_keys.
Qed.

(** Writing the refusal, from a state where the report is durable. *)
Lemma sat_refusal_step md c c1 id left_ (already : bool) :
  (if already then same_except [REJ_VER] c c1
   else ¬ foreign_report c id ∧ same_except (REJ_VER :: REPORT_SCOPE) c c1 ∧
        reported_why c1 id (att_why c)) →
  (∀ v, left_ = Some v → wf_version v) →
  sat (K:=K) md
    (match left_ with
     | Some left_ => _ ← scrub REJ_VER KT_Str; kvq (set_str REJ_VER (version_str left_))
     | None => mret tt
     end) c1
    (λ _ c', rollback_durable c id left_ already c')
    (λ e c', transient md e ∧ rollback_kept c id already c').
Proof.
  intros Hc1 Hwf.
  assert (Hk : ∀ c', same_except [REJ_VER] c1 c' → rollback_kept c id already c').
  { intros c'. apply kept_refusal_step; intros ->; done. }
  assert (∀ e, md = Faulty → transient md (SE_Kv e)) as Ht by (intros e Hf; split; eauto).
  destruct left_ as [v|]; [|by apply sat_ret].
  apply sat_bind, sat_scrub.
  2:{ intros Hf e. split; (split; [auto|apply Hk; solve_same]). }
  apply sat_kset_str; [left; auto with rn| |].
  2:{ intros Hf e. split_and!; auto; apply Hk; destruct (v_bad _ _ _); solve_same. }
  split; [|by simpl; key_simpl].
  set (c2 := <[REJ_VER := _]> _).
  assert (H12 : same_except [REJ_VER] c1 c2)
    by (unfold c2; destruct (v_bad _ _ _); solve_same).
  clearbody c2. destruct already.
  - eapply same_trans; eauto.
  - destruct Hc1 as (Hnf & Hs1 & [[H1 H2] H3]). split_and!; [done|eapply same_trans; [exact Hs1|solve_same]|].
    repeat split; by rewrite H12 by in_keys.
Qed.

Lemma sat_report_rollback md c id left_ already :
  (∀ v, left_ = Some v → wf_version v) →
  kv_storable (att_why c) ∨ md = Faulty →
  sat (K:=K) md (report_rollback id left_ already) c
    (λ _ c', ∃ c2, rollback_durable c id left_ already c2 ∧ c' = delete_all CLEAR_KEYS c2)
    (λ e c',
      c' = c ∧ already = false ∧
        persist_refused c id e ∨
      transient md e ∧
        (rollback_kept c id already c' ∨
         ∃ c2 n, rollback_durable c id left_ already c2 ∧ c' = delete_all (take n CLEAR_KEYS) c2)).
Proof.
  intros Hwf Hw. unfold report_rollback. apply sat_bind.
  apply sat_mono with
    (Q := λ _ c1, if already then same_except [REJ_VER] c c1
            else ¬ foreign_report c id ∧ same_except (REJ_VER :: REPORT_SCOPE) c c1 ∧
                 reported_why c1 id (att_why c))
    (X := λ e c', c' = c ∧ already = false ∧
            persist_refused c id e ∨
            transient md e ∧ rollback_kept c id already c').
  - destruct already; [apply sat_ret; solve_same|].
    apply sat_bind. eapply sat_reads; [apply reads_reason_q| |].
    2:{ intros e [?|?]; [|done]. right. split; [done|]. by apply (rollback_kept_refl c id false). }
    intros why [= <-]. eapply sat_mono; [by apply sat_persist_report| |].
    + intros _ c' (H1 & H2 & H3). split_and!; [done|eapply same_weaken; [|exact H2]; set_solver|done].
    + intros e c' [(-> & [?|?])|(Hnf & He & Ht)].
      * right. split; [done|]. by apply (rollback_kept_refl c id false).
      * left. by split_and!.
      * right. split; [done|]. by apply torn_report_kept.
  - intros _ c1 Hc1. apply sat_bind. eapply sat_mono; [by apply (sat_refusal_step md c)| |].
    + intros u c2 Hd. cbn beta in Hd. eapply sat_mono; [apply sat_clear|intros u2 c3 ->; by exists c2|].
      intros e c' [He [n ->]]. right. split; [done|]. right. by exists c2, n.
    + intros e c' [He Hk]. auto.
  - intros e c' [?|[? ?]]; auto.
Qed.

(** ** [mark_report_delivered] *)

Lemma sat_mark_delivered md c id :
  sat (K:=K) md (mark_report_delivered id) c
    (λ d c', match d with
             | Marked => reported c id ∧ c' = <[RB := VU8 0]> c
             | NotPending => c' = c ∧ (v_flag c RB = Ok false ∨ c !! RB_ID = None)
             | OtherReport o => c' = c ∧ foreign_report c id ∧ reported c o
             end)
    (λ e c', c' = c ∧ (transient md e ∨ v_flag c RB = Err e ∨ v_u32 c RB_ID = Err e) ∨
             transient md e ∧ reported c id ∧ c' = <[RB := VU8 0]> c).
Proof.
  unfold mark_report_delivered. apply sat_bind. eapply sat_reads; [apply reads_flag| |].
  2:{ intros e [?|?]; auto. }
  intros [] Hrb; simpl; [|apply sat_ret; auto]. apply v_flag_true in Hrb.
  apply sat_bind. eapply sat_reads; [apply reads_get_u32| |].
  2:{ intros e [?|?]; auto 10. }
  intros o Ho. unfold v_u32 in Ho. destruct (c !! RB_ID) as [[]|] eqn:Ei; simpl in Ho; try done;
    injection Ho as <-; [|apply sat_ret; auto].
  case_bool_decide; subst.
  - apply sat_bind, sat_kset_u8; [by apply sat_ret|].
    intros Hf e. split; [left|right]; split_and!; try left; try split; eauto; by eexists.
  - apply sat_ret. split_and!; [done| |done]. split; eauto.
Qed.
End report.

#[export] Hint Resolve torn_report_refl rollback_kept_refl : rn.

(** ** rollback reasons and operator-rollback requests

    Specifications of [note_rollback], [withdraw_rollback] and [settle_request]
    for every outcome.  A request is armed by the last commit of [note_rollback]
    ([rq_from]) and disarmed by the first commit of [remove_request]. *)

(** ** Vocabulary *)

Definition REQ_KEYS : list string := [RQ_FROM; RQ_WHY; RQ_ID].
Definition NOTE_SCOPE : list string := [ATT_EPOCH; ATT_CTR; RQ_FROM; RQ_WHY; RQ_ID].

Definition request_written (c : contents) (id : Z) (why from : string) : Prop :=
  c !! RQ_FROM = Some (VStr from) ∧ c !! RQ_WHY = Some (VStr why) ∧ c !! RQ_ID = Some (VU32 id).

(** How a request is settled, and the content just before it is removed. *)
Inductive settle_case (c : contents) (slot : SlotId) (q : RollbackRequest) :
    SettleOutcome → contents → Prop :=
| sc_dropped : rq_from q = slot → settle_case c slot q DroppedNotRolledBack c
| sc_already : rq_from q ≠ slot → c !! RB_ID = Some (VU32 (rq_id q)) →
    settle_case c slot q AlreadyReported c
| sc_adopted : rq_from q ≠ slot → c !! RB = Some (VU8 1) → c !! RB_ID = None →
    settle_case c slot q AlreadyReported (<[RB_ID := VU32 (rq_id q)]> c)
| sc_merged : rq_from q ≠ slot → foreign_report c (rq_id q) →
    settle_case c slot q MergedIntoPending c
| sc_reported c2 : rq_from q ≠ slot → v_flag c RB = Ok false →
    c !! RB_ID ≠ Some (VU32 (rq_id q)) →
    same_except REPORT_SCOPE c c2 → reported_why c2 (rq_id q) (rq_why q) →
    settle_case c slot q Reported c2.

(** ** Pure facts *)

Lemma v_armed_false c : v_armed c = Ok false → c !! RQ_FROM = None.
Proof. unfold v_armed, v_str. by destruct (c !! RQ_FROM) as [[]|]. Qed.

Lemma unarmed_request c : c !! RQ_FROM = None → v_request c = Ok None ∧ v_armed c = Ok false.
Proof. intros Hn. unfold v_request, v_armed, v_str. by rewrite Hn. Qed.

Lemma v_request_none c : v_request c = Ok None → c !! RQ_FROM = None.
Proof.
  unfold v_request, v_str, v_u32. destruct (c !! RQ_FROM) as [[]|]; simpl; try done.
  destruct (slot_from_label s); simpl; [|done]. by destruct (c !! RQ_ID) as [[]|].
Qed.

Lemma request_written_view c id why from slot :
  slot_from_label from = Some slot → request_written c id why from →
  v_request c = Ok (Some (mkRequest id why slot)).
Proof.
  intros Hf (H1 & H2 & H3). unfold v_request, v_str, v_u32, v_reason.
  rewrite H1, H2, H3. simpl. by rewrite Hf.
Qed.

Lemma request_same ks c c' :
  RQ_FROM ∉ ks → RQ_ID ∉ ks → RQ_WHY ∉ ks → same_except ks c c' → v_request c' = v_request c.
Proof.
  intros H1 H2 H3 Hs. unfold v_request, v_str, v_u32, v_reason. by rewrite !Hs by done.
Qed.

Lemma label_storable r : kv_storable (RollbackReason_as_str r).
Proof.
  destruct (RollbackReason_storable r). split; [by destruct r|]. unfold kv_str_cap. lia.
Qed.

Lemma settle_case_same c slot q o c2 :
  settle_case c slot q o c2 → same_except REPORT_SCOPE c c2.
Proof. intros []; solve_same; done. Qed.

(** A rollback that happened is never forgotten: once settled, a report exists
    that carries its id, or another report is still undelivered. *)
Lemma settle_case_covered c slot q o c2 :
  settle_case c slot q o c2 → rq_from q ≠ slot →
  c2 !! RB_ID = Some (VU32 (rq_id q)) ∨ foreign_report c2 (rq_id q).
Proof.
  intros [] Hne; auto; try done.
  - left. by key_simpl.
  - left. match goal with H : reported_why _ _ _ |- _ => apply H end.
Qed.

Section request.
Context {K : Type} `{HO : OtaKv K} `{HK : !KvContract K}.
Implicit Types (c : contents).

(** ** [note_rollback] *)

Lemma sat_note_request md c why slot from :
  c !! RQ_FROM = None → slot_label slot = Some from →
  sat (K:=K) md
    (_ ← scrub RQ_WHY KT_Str;
     id ← next_attempt_id;
     _ ← kvq (set_u32 RQ_ID id);
     _ ← kvq (set_str RQ_WHY (RollbackReason_as_str why));
     _ ← kvq (set_str RQ_FROM from);
     mret (RN_Written (mkNoted (NT_Request slot id)))) c
    (λ n c', ∃ id floor, n = RN_Written (mkNoted (NT_Request slot id)) ∧
       v_highest c ID_KEYS 0 = Ok floor ∧ id = next_id floor ∧
       same_except NOTE_SCOPE c c' ∧ request_written c' id (RollbackReason_as_str why) from)
    (λ e c', (transient md e ∨ v_u32 c ATT_EPOCH = Err e ∨ v_highest c ID_KEYS 0 = Err e) ∧
       same_except NOTE_SCOPE c c' ∧
       (c' !! RQ_FROM = None ∨
        ∃ id, request_written c' id (RollbackReason_as_str why) from)).
Proof.
  intros Hun Hl. pose proof (slot_label_storable _ _ Hl) as Hst.
  assert (∀ e, md = Faulty → transient md (SE_Kv e)) as Ht by (intros e Hf; split; eauto).
  apply sat_bind, sat_scrub.
  2:{ intros Hf e. split; split_and!; auto; try solve_same; left; key_simpl; auto. }
  set (c1 := if v_bad c RQ_WHY KT_Str then delete RQ_WHY c else c).
  assert (H1 : same_except [RQ_WHY] c c1) by (unfold c1; destruct (v_bad _ _ _); solve_same).
  clearbody c1. assert (Hun1 : c1 !! RQ_FROM = None) by (by rewrite H1 by in_keys).
  assert (Hhigh : v_highest c1 ID_KEYS 0 = v_highest c ID_KEYS 0).
  { apply v_highest_ext. intros k Hk. apply H1. unfold ID_KEYS in Hk. set_solver. }
  apply sat_bind. eapply sat_mono; [apply sat_next_id| |].
  2:{ intros e c2 [Hp%id_partial_same He]. split_and!.
      - rewrite Hhigh in He. unfold v_u32 in He |- *. by rewrite H1 in He by in_keys.
      - apply (same_trans _ _ c1); solve_same.
      - left. by rewrite Hp by in_keys. }
  intros id c2 Hid. pose proof (id_reserved_same _ _ _ Hid) as H2.
  destruct Hid as (_ & floor & _ & _ & Hfl & Hid & _). rewrite Hhigh in Hfl.
  assert (Hun2 : c2 !! RQ_FROM = None) by (by rewrite H2 by in_keys).
  assert (H02 : same_except NOTE_SCOPE c c2) by (apply (same_trans _ _ c1); solve_same).
  clear H2 H1 Hun1 Hhigh. clear c1.
  apply sat_bind, sat_kset_u32.
  2:{ intros Hf e. split; split_and!; auto; try solve_same; left; key_simpl; auto. }
  apply sat_bind, sat_kset_str; [left; apply label_storable| |].
  2:{ intros Hf e. split_and!; auto; try solve_same; left; key_simpl; auto. }
  apply sat_bind, sat_kset_str; [by left| |].
  { apply sat_ret. exists id, floor. split_and!; try done; [solve_same|].
    by repeat split; key_simpl. }
  intros Hf e. split_and!; auto; try solve_same; key_simpl; auto.
  right. exists id. by repeat split; key_simpl.
Qed.

(** Every outcome of [note_rollback]. *)
Lemma sat_note_rollback md c why slot :
  sat (K:=K) md (note_rollback why slot) c
    (λ n c',
      match n with
      | RN_KeptFirst => c' = c ∧
          (v_attempt_slot c = Ok (Some slot) ∧ is_Some (c !! ATT_WHY) ∨ v_armed c = Ok true)
      | RN_Written n =>
          match target n with
          | NT_AttemptReason s => s = slot ∧ v_attempt_slot c = Ok (Some slot) ∧
              c !! ATT_WHY = None ∧ c' = <[ATT_WHY := VStr (RollbackReason_as_str why)]> c
          | NT_Request s id => s = slot ∧ v_attempt_slot c ≠ Ok (Some slot) ∧
              c !! RQ_FROM = None ∧ same_except NOTE_SCOPE c c' ∧
              ∃ from floor, slot_label slot = Some from ∧
                v_highest c ID_KEYS 0 = Ok floor ∧ id = next_id floor ∧
                request_written c' id (RollbackReason_as_str why) from
          end
      end)
    (λ e c', c' = c ∨
      v_attempt_slot c = Ok (Some slot) ∧
        c' = <[ATT_WHY := VStr (RollbackReason_as_str why)]> c ∨
      v_attempt_slot c ≠ Ok (Some slot) ∧ c !! RQ_FROM = None ∧ same_except NOTE_SCOPE c c' ∧
        (c' !! RQ_FROM = None ∨
         ∃ id from, slot_label slot = Some from ∧
           request_written c' id (RollbackReason_as_str why) from)).
Proof.
  unfold note_rollback. apply sat_bind. eapply sat_reads; [apply reads_attempt_slot| |auto].
  intros o Ho. case_bool_decide as Hs.
  - subst o. apply sat_bind. eapply sat_reads; [apply reads_reason_q| |auto].
    intros w [= <-]. destruct (v_reason c ATT_WHY) eqn:Hw.
    + apply sat_ret. split; [done|]. left. split; [done|].
      unfold v_reason in Hw. destruct (c !! ATT_WHY); [eauto|done].
    + assert (Hn : c !! ATT_WHY = None) by (unfold v_reason in Hw; by destruct (c !! ATT_WHY) as [[]|]).
      apply sat_bind, sat_kset_str; [left; apply label_storable|by apply sat_ret|].
      intros Hf e. split_and!; [by left|auto|left; by apply delete_id].
  - assert (Hns : v_attempt_slot c ≠ Ok (Some slot)) by congruence.
    apply sat_bind. eapply sat_reads; [apply reads_request_armed| |auto].
    intros [] Ha; [apply sat_ret; auto|]. apply v_armed_false in Ha.
    destruct (slot_label slot) as [from|] eqn:Hl; [|apply sat_throw; auto].
    eapply sat_mono; [by apply sat_note_request|naive_solver|].
    intros e c' (_ & Hsm & Hd). right. right. split_and!; [done..|]. naive_solver.
Qed.

(** ** Removing and withdrawing *)

Lemma sat_remove_request md c :
  sat (K:=K) md remove_request c
    (λ _ c', c' = delete_all REQ_KEYS c)
    (λ e c', transient md e ∧ ∃ n, c' = delete_all (take n REQ_KEYS) c).
Proof.
  assert (∀ e, md = Faulty → transient md (SE_Kv e)) as Ht by (intros e Hf; split; eauto).
  unfold remove_request.
  apply sat_bind, sat_kremove; [|intros Hf e; split; (split; [auto|]); [by exists 0%nat|by exists 1%nat]].
  apply sat_bind, sat_kremove; [|intros Hf e; split; (split; [auto|]); [by exists 1%nat|by exists 2%nat]].
  apply sat_bind, sat_kremove; [by apply sat_ret|].
  intros Hf e. split; (split; [auto|]); [by exists 2%nat|by exists 3%nat].
Qed.

Lemma request_prefix_same n c : same_except REQ_KEYS c (delete_all (take n REQ_KEYS) c).
Proof. apply same_delete_all; [apply take_subseteq|apply same_refl]. Qed.

Lemma request_prefix_unarmed n c :
  delete_all (take n REQ_KEYS) c = c ∨ delete_all (take n REQ_KEYS) c !! RQ_FROM = None.
Proof.
  destruct n as [|n]; [by left|right]. simpl.
  rewrite lookup_delete_all, lookup_delete_key. key_decide. by case_bool_decide.
Qed.

(** [withdraw_rollback] removes the reason it was given the token of, and only
    while that record is still the stored one. *)
Lemma sat_withdraw md c n :
  sat (K:=K) md (withdraw_rollback n) c
    (λ _ c',
      match target n with
      | NT_AttemptReason slot =>
          v_attempt_slot c = Ok (Some slot) ∧ c' = delete ATT_WHY c ∨
          v_attempt_slot c ≠ Ok (Some slot) ∧ c' = c
      | NT_Request slot id =>
          (∃ why, v_request c = Ok (Some (mkRequest id why slot))) ∧ c' = delete_all REQ_KEYS c ∨
          (∀ why, v_request c ≠ Ok (Some (mkRequest id why slot))) ∧ c' = c
      end)
    (λ e c', (transient md e ∨
              match target n with
              | NT_AttemptReason _ => v_attempt_slot c = Err e
              | NT_Request _ _ => v_request c = Err e
              end) ∧
      (c' = c ∨
       match target n with
       | NT_AttemptReason slot => v_attempt_slot c = Ok (Some slot) ∧ c' = delete ATT_WHY c
       | NT_Request slot id =>
           (∃ why, v_request c = Ok (Some (mkRequest id why slot))) ∧
           c' !! RQ_FROM = None ∧ same_except REQ_KEYS c c'
       end)).
Proof.
  unfold withdraw_rollback. destruct (target n) as [slot|slot id].
  - apply sat_bind. eapply sat_reads; [apply reads_attempt_slot| |auto].
    intros o Ho. case_bool_decide as Hs.
    + subst o. apply sat_kremove; [auto|]. intros Hf e.
      split; (split; [left; split; eauto|auto]).
    + apply sat_ret. right. split; [congruence|done].
  - apply sat_bind. eapply sat_reads; [apply reads_request| |auto].
    intros [[i w f]|] Hr; [|apply sat_ret; right; split; [intros ?; congruence|done]]. simpl.
    case_bool_decide as Hi; simpl; [case_bool_decide as Hf; simpl|].
    + subst. eapply sat_mono; [apply sat_remove_request|eauto|].
      intros e c' [Ht [k ->]]. split; [by left|].
      destruct (request_prefix_unarmed k c) as [->|Hun]; [by left|right].
      split_and!; eauto. apply request_prefix_same.
    + apply sat_ret. right. split; [intros w' Hw'; congruence|done].
    + apply sat_ret. right. split; [intros w' Hw'; congruence|done].
Qed.

(** ** [settle_request] *)

(** [settle_request] could not read what it needs; nothing was written. *)
Definition settle_unread md c (e : StoreError) : Prop :=
  transient md e ∨ v_request c = Err e ∨
  (∃ q, v_request c = Ok (Some q)) ∧ (v_flag c RB = Err e ∨ v_u32 c RB_ID = Err e).

(** An interruption inside [settle_request]. *)
Definition settle_torn c slot (q : RollbackRequest) c' : Prop :=
  same_except REPORT_SCOPE c c' ∧ rq_from q ≠ slot ∧ v_flag c RB = Ok false ∧
    torn_report c c' (rq_id q) (rq_why q) ∨
  (∃ o c2 n, settle_case c slot q o c2 ∧ c' = delete_all (take n REQ_KEYS) c2).

Lemma sat_settle_request md c slot :
  (∀ q, v_request c = Ok (Some q) → kv_storable (rq_why q)) ∨ md = Faulty →
  sat (K:=K) md (settle_request slot) c
    (λ o c', o = NoRequest ∧ v_request c = Ok None ∧ c' = c ∨
      ∃ q c2, v_request c = Ok (Some q) ∧ settle_case c slot q o c2 ∧ c' = delete_all REQ_KEYS c2)
    (λ e c', c' = c ∧ settle_unread md c e ∨
      transient md e ∧ ∃ q, v_request c = Ok (Some q) ∧ settle_torn c slot q c').
Proof.
  intros Hst. unfold settle_request. apply sat_bind. eapply sat_reads; [apply reads_request| |].
  2:{ intros e [?|?]; left; unfold settle_unread; naive_solver. }
  intros [q|] Hq; [|apply sat_ret; auto].
  assert (Hrem : ∀ o c2, settle_case c slot q o c2 →
    sat (K:=K) md (_ ← remove_request; mret o) c2
      (λ o c', o = NoRequest ∧ v_request c = Ok None ∧ c' = c ∨
        ∃ q c2, v_request c = Ok (Some q) ∧ settle_case c slot q o c2 ∧
                c' = delete_all REQ_KEYS c2)
      (λ e c', c' = c ∧ settle_unread md c e ∨
        transient md e ∧ ∃ q, v_request c = Ok (Some q) ∧ settle_torn c slot q c')).
  { intros o c2 Hc. apply sat_bind. eapply sat_mono; [apply sat_remove_request| |].
    - intros _ c' ->. apply sat_ret. right. eauto.
    - intros e c' [Ht [n ->]]. right. split; [done|]. exists q. split; [done|]. right. eauto. }
  case_bool_decide as Hf; [by apply Hrem, sc_dropped|].
  apply sat_bind. eapply sat_reads; [apply reads_flag| |].
  2:{ intros e [?|?]; left; unfold settle_unread; naive_solver. }
  intros pending Hp. apply sat_bind. eapply sat_reads; [apply reads_get_u32| |].
  2:{ intros e [?|?]; left; unfold settle_unread; naive_solver. }
  intros o Ho.
  assert (Hid : c !! RB_ID = VU32 <$> o).
  { unfold v_u32 in Ho. destruct (c !! RB_ID) as [[]|]; simpl in Ho; by simplify_eq. }
  case_bool_decide as Hsame; [apply Hrem, sc_already; [done|by rewrite Hid, Hsame]|].
  destruct pending; simpl.
  - apply v_flag_true in Hp. case_bool_decide as Hn.
    + subst o. simpl in Hid. apply sat_bind, sat_kset_u32; [by apply Hrem, sc_adopted|].
      intros Hfa e. split; [left; split; [done|left; split; eauto]|right].
      split; [split; eauto|]. exists q. split; [done|]. right.
      exists AlreadyReported, (<[RB_ID := VU32 (rq_id q)]> c), 0%nat.
      split; [by apply sc_adopted|done].
    + apply Hrem, sc_merged; [done|]. split; [done|].
      destruct o as [other|]; [|done]. exists other. split; [done|congruence].
  - apply sat_bind. eapply sat_mono; [apply sat_persist_report; naive_solver| |].
    + intros _ c2 (_ & Hs & Hr). apply Hrem, sc_reported; try done.
      rewrite Hid. destruct o; simpl; congruence.
    + intros e c' [(-> & Hc)|(Hnf & Ht & Htorn)].
      * left. split; [done|]. unfold settle_unread.
        destruct Hc as [?|[?|[[? ?]|[-> [Hrb _]]]]]; [naive_solver..|].
        by apply v_flag_false in Hp.
      * right. split; [done|]. exists q. split; [done|]. left. split_and!; try done. apply Htorn.
Qed.
End request.
