(* ===== verification/Boot.v ===== *)
(** * Boot: the early-boot slot note and the two-phase boot reconciliation
    ([ota/persist/boot.rs])

    [reconcile_boot] reads everything first (any failure fails closed with no
    write) and then runs the persistence sequence of the decision core's action.
    The source's [&mut BootWarnings] is returned next to the result; a method
    that cannot fail has the empty error type. *)
From S2P Require Import Prelude Text Version Decision Kv Reason KvLogic Store.
Open Scope Z_scope.

Inductive HardwareReadError := HRE_Busy | HRE_Read (code : Z).

#[export] Instance HardwareReadError_eq_dec : EqDecision HardwareReadError.
Proof. solve_decision. Defined.

(** ** [BusyTally] *)

Record BusyTally := mkTally { bt_any : bool; bt_all_busy : bool; bt_last_code : Z }.

Definition BusyTally_new : BusyTally := mkTally false true 0.

Definition BusyTally_record (t : BusyTally) (code : Z) (busy : bool) : BusyTally :=
  mkTally true (bt_all_busy t && busy) code.

Definition BusyTally_into_error (t : BusyTally) : HardwareReadError :=
  if bt_any t && negb (bt_all_busy t) then HRE_Read (bt_last_code t) else HRE_Busy.

(** ** Results *)

Inductive NoteBoot := NB_NoAttempt | NB_AlreadyActivated | NB_OtherSlot | NB_Activated.

Inductive NoteBootError := NBE_Store (e : StoreError) | NBE_Hardware (e : HardwareReadError).

Inductive BootFault := BF_Hardware (e : HardwareReadError) | BF_Store (e : StoreError).

Inductive BootDisposition :=
| BD_Settled (o : SettleOutcome)
| BD_AwaitHealthCheck
| BD_RollBackNow
| BD_ReportedRollback
| BD_Deferred
| BD_Incomplete (e : StoreError)
| BD_FailedClosed (f : BootFault).

#[export] Instance BootFault_eq_dec : EqDecision BootFault.
Proof. solve_decision. Defined.
#[export] Instance BootDisposition_eq_dec : EqDecision BootDisposition.
Proof. solve_decision. Defined.

Record BootWarnings := mkWarnings {
  activation_not_recorded : option StoreError; reason_not_recorded : option StoreError }.

Definition BootWarnings_default : BootWarnings := mkWarnings None None.

Record BootOutcome := mkOutcome {
  bo_disposition : BootDisposition;
  bo_action : option ReconcileAction;
  bo_slot_released : bool;
  bo_admission_open_at_boot : bool;
  bo_refuse_mark_valid : bool;
  bo_roll_back_now : bool;
  bo_report_pending : bool;
  bo_warnings : BootWarnings
}.

Section boot.
Context {K : Type} `{HO : OtaKv K}.

(** [read_running] is consulted only where the source calls it. *)
Definition note_boot_slot (read_running : unit → result HardwareReadError SlotId) :
    M (OtaStore K) NoteBootError NoteBoot :=
  a ← lift_err NBE_Store read_attempt;
  match a with
  | None => mret NB_NoAttempt
  | Some attempt =>
      if activated (sa_record attempt) then mret NB_AlreadyActivated
      else
        running ← of_result (map_err NBE_Hardware (read_running tt));
        if bool_decide (running ≠ ar_slot (sa_record attempt)) then mret NB_OtherSlot
        else _ ← lift_err NBE_Store mark_activated; mret NB_Activated
  end.

Definition settle (running_slot : SlotId) : M (OtaStore K) StoreError BootDisposition :=
  o ← settle_request running_slot;
  mret (match o with
        | Reported => BD_ReportedRollback
        | outcome => BD_Settled outcome
        end).

(** The warning, when the activation could not be recorded. *)
Definition note_activation {E} (warnings : BootWarnings) : M (OtaStore K) E BootWarnings :=
  r ← catch mark_activated;
  mret (match r with
        | Err e => mkWarnings (Some e) (reason_not_recorded warnings)
        | Ok _ => warnings
        end).

Definition sequence {E} (hw : HardwareFacts) (action : ReconcileAction)
    (running_version : option Version) (warnings : BootWarnings) :
    M (OtaStore K) E (result StoreError BootDisposition * BootWarnings) :=
  match action with
  | NoAttempt => r ← catch (settle (hw_running_slot hw)); mret (r, warnings)
  | Defer => mret (Ok BD_Deferred, warnings)
  | ClearAttempt =>
      r ← catch (_ ← clear_attempt; settle (hw_running_slot hw)); mret (r, warnings)
  | CompleteAttempt =>
      r ← catch (_ ← match running_version with
                     | Some version => complete_attempt version
                     | None => clear_attempt
                     end;
                 settle (hw_running_slot hw));
      mret (r, warnings)
  | AwaitHealthCheck mark_activated =>
      w ← (if mark_activated then note_activation warnings else mret warnings);
      mret (Ok BD_AwaitHealthCheck, w)
  | RefuseImage _ mark_activated =>
      w ← (if mark_activated then note_activation warnings else mret warnings);
      r ← catch (note_rollback RR_VersionMismatch (hw_running_slot hw));
      mret (Ok BD_RollBackNow,
            match r with
            | Err e => mkWarnings (activation_not_recorded w) (Some e)
            | Ok _ => w
            end)
  | ReportRollback id left_ already =>
      r ← catch (_ ← report_rollback id left_ already; mret BD_ReportedRollback);
      mret (r, warnings)
  end.

Definition outcome {E} (hw : option HardwareFacts) (disposition : BootDisposition)
    (action : option ReconcileAction) (warnings : BootWarnings) : M (OtaStore K) E BootOutcome :=
  let failed_closed := match disposition with BD_FailedClosed _ => true | _ => false end in
  let roll_back_now := bool_decide (disposition = BD_RollBackNow) in
  let unverified := match hw with
                    | Some hw => bool_decide (hw_running_state hw = SPendingVerify)
                    | None => true
                    end in
  let slot_released := negb unverified in
  open ← (if slot_released && negb failed_closed then
            adm ← admission; mret (bool_decide (adm = Open))
          else mret false);
  pending ← catch report_undelivered;
  mret (mkOutcome disposition action slot_released open (failed_closed || roll_back_now)
          roll_back_now (default true (result_ok pending)) warnings).

Definition reconcile_boot {E} (hw : result HardwareReadError HardwareFacts)
    (running_version : option Version) : M (OtaStore K) E BootOutcome :=
  match hw with
  | Err e => outcome None (BD_FailedClosed (BF_Hardware e)) None BootWarnings_default
  | Ok hw =>
      r ← catch read_phase;
      match r with
      | Err e => outcome (Some hw) (BD_FailedClosed (BF_Store e)) None BootWarnings_default
      | Ok records =>
          let facts := mkFacts (hw_running_slot hw) (hw_running_state hw) running_version
                         (UpdateSlot_facts (hw_update_slot hw)) (br_report_persisted records) in
          let action := reconcile (option_map sa_record (br_attempt records)) facts in
          dw ← sequence hw action running_version BootWarnings_default;
          let '(d, w) := dw in
          outcome (Some hw) (match d with Ok d => d | Err e => BD_Incomplete e end)
            (Some action) w
      end
  end.
End boot.
