(* ===== verification/BootSpec.v ===== *)
(** * BootSpec: what every run of [reconcile_boot] does

    [sequence_post] describes, per action of the decision core, the disposition
    and every content a complete, failed or interrupted sequence may leave;
    [outcome_of] describes the derived flags. *)
From S2P Require Import Prelude Text Version Decision Kv Reason KvLogic Store StoreViews StoreAttempt StoreReport Boot.
Open Scope Z_scope.

(** ** Views *)

Definition v_records (c : contents) : result StoreError BootRecords :=
  a ← v_attempt c;
  _ ← v_request c;
  _ ← v_report c;
  match a with
  | Some a => p ← v_persisted_for c (attempt_id (sa_record a)); Ok (mkBootRecords (Some a) p)
  | None => Ok (mkBootRecords None false)
  end.

Definition boot_facts (hw : HardwareFacts) (rv : option Version) (r : BootRecords) : BootFacts :=
  mkFacts (hw_running_slot hw) (hw_running_state hw) rv (UpdateSlot_facts (hw_update_slot hw))
    (br_report_persisted r).

Definition boot_action (hw : HardwareFacts) (rv : option Version) (r : BootRecords) : ReconcileAction :=
  reconcile (option_map sa_record (br_attempt r)) (boot_facts hw rv r).

(** Every reason the sequence may copy fits a [KvStr]. *)
Definition reasons_storable (c : contents) : Prop :=
  kv_storable (att_why c) ∧ ∀ q, v_request c = Ok (Some q) → kv_storable (rq_why q).

(** ** Outcomes of the sequence *)

Definition settled_as (o : SettleOutcome) : BootDisposition :=
  match o with Reported => BD_ReportedRollback | o => BD_Settled o end.

Definition settle_post (md : mode) (c : contents) (slot : SlotId)
    (r : result StoreError BootDisposition) (c' : contents) : Prop :=
  match r with
  | Ok d =>
      d = BD_Settled NoRequest ∧ v_request c = Ok None ∧ c' = c ∨
      ∃ q o c2, v_request c = Ok (Some q) ∧ settle_case c slot q o c2 ∧
                d = settled_as o ∧ c' = delete_all REQ_KEYS c2
  | Err e =>
      c' = c ∧ settle_unread md c e ∨
      transient md e ∧ ∃ q, v_request c = Ok (Some q) ∧ settle_torn c slot q c'
  end.

Definition cleared_post (md : mode) (c : contents) (slot : SlotId)
    (r : result StoreError BootDisposition) (c' : contents) : Prop :=
  (∃ e n, r = Err e ∧ transient md e ∧ c' = delete_all (take n CLEAR_KEYS) c) ∨
  settle_post md (delete_all CLEAR_KEYS c) slot r c'.

Definition sequence_post (md : mode) (c : contents) (hw : HardwareFacts) (rv : option Version)
    (act : ReconcileAction) (r : result StoreError BootDisposition) (c' : contents) : Prop :=
  match act with
  | NoAttempt => settle_post md c (hw_running_slot hw) r c'
  | Defer => r = Ok BD_Deferred ∧ c' = c
  | ClearAttempt => cleared_post md c (hw_running_slot hw) r c'
  | CompleteAttempt =>
      match rv with
      | Some v => (∃ e, r = Err e ∧ transient md e ∧ c' = c) ∨
                  cleared_post md (complete_refusal c v) (hw_running_slot hw) r c'
      | None => cleared_post md c (hw_running_slot hw) r c'
      end
  | AwaitHealthCheck mark =>
      r = Ok BD_AwaitHealthCheck ∧ (c' = c ∨ mark = true ∧ c' = <[ATT_ACT := VU8 1]> c)
  | RefuseImage _ mark =>
      r = Ok BD_RollBackNow ∧ same_except [ATT_ACT; ATT_WHY] c c'
  | ReportRollback id left_ already =>
      match r with
      | Ok d => d = BD_ReportedRollback ∧
                ∃ c2, rollback_durable c id left_ already c2 ∧ c' = delete_all CLEAR_KEYS c2
      | Err e =>
          c' = c ∧ already = false ∧
            persist_refused c id e ∨
          transient md e ∧
            (rollback_kept c id already c' ∨
             ∃ c2 n, rollback_durable c id left_ already c2 ∧
                     c' = delete_all (take n CLEAR_KEYS) c2)
      end
  end.

(** The flags of an outcome, given the final content. *)
Definition outcome_of (md : mode) (c : contents) (hw : option HardwareFacts) (d : BootDisposition)
    (act : option ReconcileAction) (o : BootOutcome) : Prop :=
  let failed_closed := match d with BD_FailedClosed _ => true | _ => false end in
  let released := match hw with
                  | Some hw => negb (bool_decide (hw_running_state hw = SPendingVerify))
                  | None => false
                  end in
  bo_disposition o = d ∧ bo_action o = act ∧ bo_slot_released o = released ∧
  (bo_admission_open_at_boot o = true →
     released = true ∧ failed_closed = false ∧ v_admission c = Open) ∧
  (md = Healthy → bo_admission_open_at_boot o =
     released && negb failed_closed && bool_decide (v_admission c = Open)) ∧
  bo_refuse_mark_valid o = failed_closed || bool_decide (d = BD_RollBackNow) ∧
  bo_roll_back_now o = bool_decide (d = BD_RollBackNow) ∧
  (bo_report_pending o = false → v_flag c RB = Ok false).

(** ** Pure facts *)

Lemma v_records_attempt c r : v_records c = Ok r →
  v_attempt c = Ok (br_attempt r) ∧ (∃ q, v_request c = Ok q) ∧ (∃ p, v_report c = Ok p) ∧
  match br_attempt r with
  | Some a => v_persisted_for c (attempt_id (sa_record a)) = Ok (br_report_persisted r)
  | None => br_report_persisted r = false
  end.
Proof.
  unfold v_records. destruct (v_attempt c) as [[a|]|]; simpl; try done;
    destruct (v_request c) as [q|]; simpl; try done; destruct (v_report c) as [p|]; simpl; try done.
  - destruct (v_persisted_for c _) eqn:E; simpl; [|done]. intros [= <-]. simpl. eauto 10.
  - intros [= <-]. simpl. eauto 10.
Qed.

Lemma v_attempt_wf c a v :
  v_attempt c = Ok (Some a) → ar_version (sa_record a) = Some v → wf_version v.
Proof.
  unfold v_attempt, v_str. destruct (c !! ATT_VER) as [[]|]; simpl; try done.
  destruct (v_attempt_slot c) as [[sl|]|]; simpl; try done.
  destruct (v_u32 c ATT_ID) as [[i|]|]; simpl; try done.
  destruct (v_flag c ATT_BOOT); simpl; [|done]. destruct (v_flag c ATT_ACT); simpl; [|done].
  destruct (v_flag c ATT_INV); simpl; [|done]. intros [= <-]. simpl.
  destruct (Version_parse s) as [w|] eqn:E; simpl; [|done]. intros [= <-].
  by eapply Version_parse_wf.
Qed.

Lemma v_attempt_view_slot c a :
  v_attempt c = Ok (Some a) → v_attempt_slot c = Ok (Some (ar_slot (sa_record a))).
Proof.
  unfold v_attempt, v_str. destruct (c !! ATT_VER) as [[]|]; simpl; try done.
  destruct (v_attempt_slot c) as [[sl|]|]; simpl; try done.
  destruct (v_u32 c ATT_ID) as [[i|]|]; simpl; try done.
  destruct (v_flag c ATT_BOOT); simpl; [|done]. destruct (v_flag c ATT_ACT); simpl; [|done].
  destruct (v_flag c ATT_INV); simpl; [|done]. by intros [= <-].
Qed.

Lemma attempt_slot_same ks c c' :
  ATT_VER ∉ ks → ATT_SLOT ∉ ks → same_except ks c c' → v_attempt_slot c' = v_attempt_slot c.
Proof. intros H1 H2 Hs. unfold v_attempt_slot, v_str. by rewrite !Hs by done. Qed.

Lemma report_action_wf c hw rv r id v al :
  v_records c = Ok r → boot_action hw rv r = ReportRollback id (Some v) al → wf_version v.
Proof.
  intros (Ha & _)%v_records_attempt Hact. unfold boot_action in Hact.
  destruct (br_attempt r) as [a|]; [|done]. cbn [option_map] in Hact.
  apply reconcile_spec in Hact. inversion Hact; subst. eapply v_attempt_wf; eauto.
Qed.

Lemma refuse_action_slot c hw rv r p mk :
  v_records c = Ok r → boot_action hw rv r = RefuseImage p mk →
  v_attempt_slot c = Ok (Some (hw_running_slot hw)).
Proof.
  intros (Ha & _)%v_records_attempt Hact. unfold boot_action in Hact.
  destruct (br_attempt r) as [a|]; [|done]. cbn [option_map] in Hact.
  apply reconcile_spec in Hact. inversion Hact; subst. simpl in *.
  rewrite (v_attempt_view_slot _ _ Ha). congruence.
Qed.

Lemma reasons_storable_same ks c c' :
  (∀ k, k ∈ [ATT_WHY; RQ_FROM; RQ_ID; RQ_WHY] → k ∉ ks) → same_except ks c c' →
  reasons_storable c → reasons_storable c'.
Proof.
  intros Hk Hs [H1 H2]. split.
  - unfold att_why, v_reason. rewrite Hs; [exact H1|apply Hk; set_solver].
  - intros q. rewrite (request_same ks c c'); [apply H2|apply Hk; set_solver..|done].
Qed.

(** The sequence never fails closed: by then everything was readable. *)
Lemma settle_not_failed md c slot d c' f : settle_post md c slot (Ok d) c' → d ≠ BD_FailedClosed f.
Proof. intros [(-> & _)|(q & o & c2 & _ & _ & -> & _)]; [done|by destruct o]. Qed.

Lemma cleared_not_failed md c slot d c' f : cleared_post md c slot (Ok d) c' → d ≠ BD_FailedClosed f.
Proof. intros [(e & n & ? & _)|?]; [done|by eapply settle_not_failed]. Qed.

Lemma sequence_not_failed md c hw rv act d c' f :
  sequence_post md c hw rv act (Ok d) c' → d ≠ BD_FailedClosed f.
Proof.
  destruct act; cbn [sequence_post].
  - exact (settle_not_failed _ _ _ _ _ _).
  - by intros [[= ->] _].
  - destruct rv; [intros [(e & ? & _)|H]; [done|]|intros H]; exact (cleared_not_failed _ _ _ _ _ _ H).
  - exact (cleared_not_failed _ _ _ _ _ _).
  - by intros [[= ->] _].
  - by intros [-> _].
  - by intros [[= ->] _].
Qed.

Section boot_spec.
Context {K : Type} `{HO : OtaKv K} `{HK : !KvContract K}.
Implicit Types (c : contents).

Lemma sat_read_phase md c :
  sat (K:=K) md read_phase c (λ r c', c' = c ∧ v_records c = Ok r)
    (λ e c', c' = c ∧ (transient md e ∨ v_records c = Err e)).
Proof.
  unfold read_phase, v_records.
  apply sat_bind. eapply sat_reads; [apply reads_read_attempt| |].
  2:{ intros e [?|He]; split; auto. rewrite He. auto. }
  intros a Ha. rewrite Ha. simpl. apply sat_bind. eapply sat_reads; [apply reads_request| |].
  2:{ intros e [?|He]; split; auto. rewrite He. auto. }
  intros q Hq. rewrite Hq. simpl. apply sat_bind. eapply sat_reads; [apply reads_report| |].
  2:{ intros e [?|He]; split; auto. rewrite He. auto. }
  intros p Hp. rewrite Hp. simpl.
  assert (Hend : sat (K:=K) md
    (persisted ← match a with
                 | Some attempt => report_persisted_for (attempt_id (sa_record attempt))
                 | None => mret false
                 end;
     mret (mkBootRecords a persisted)) c
    (λ r c', c' = c ∧ match a with
       | Some a => p ← v_persisted_for c (attempt_id (sa_record a)); Ok (mkBootRecords (Some a) p)
       | None => Ok (mkBootRecords None false)
       end = Ok r)
    (λ e c', c' = c ∧ (transient md e ∨ match a with
       | Some a => p ← v_persisted_for c (attempt_id (sa_record a)); Ok (mkBootRecords (Some a) p)
       | None => Ok (mkBootRecords None false)
       end = Err e))).
  { apply sat_bind. destruct a as [a|]; [|by repeat apply sat_ret].
    eapply sat_reads; [apply reads_persisted_for| |].
    - intros b Hb. apply sat_ret. by rewrite Hb.
    - intros e [?|He]; split; auto. rewrite He. auto. }
  apply sat_bind, (sat_catch_reads _ _ _ _ _ _ reads_refused); [exact Hend|by intros].
Qed.

Lemma sat_outcome {E} md c hw d act w :
  sat (K:=K) md (outcome (E:=E) hw d act w) c (λ o c', c' = c ∧ outcome_of md c hw d act o)
    (λ _ _, False).
Proof.
  unfold outcome, outcome_of.
  set (fc := match d with BD_FailedClosed _ => true | _ => false end).
  set (rel := match hw with
              | Some hw => negb (bool_decide (hw_running_state hw = SPendingVerify))
              | None => false
              end).
  assert (Hrel : negb match hw with
    | Some hw => bool_decide (hw_running_state hw = SPendingVerify) | None => true end = rel)
    by (unfold rel; by destruct hw).
  rewrite Hrel. apply sat_bind.
  apply sat_mono with
    (Q := λ (b : bool) c', c' = c ∧ (b = true → rel = true ∧ fc = false ∧ v_admission c = Open) ∧
            (md = Healthy → b = rel && negb fc && bool_decide (v_admission c = Open)))
    (X := λ _ _, False); [|intros b c' (-> & Hb & Hh)|done].
  - destruct rel, fc; simpl; try by apply sat_ret.
    apply sat_bind, sat_admission.
    + apply sat_ret. split_and!; try done. intros ?%bool_decide_eq_true. done.
    + intros ->. apply sat_ret. by split_and!.
  - apply sat_bind, (sat_catch_reads _ _ _ _ _ _ (reads_flag RB)).
    + apply sat_ret. split_and!; try done. simpl. destruct (v_flag c RB) as [[]|]; done.
    + intros e He. apply sat_ret. by split_and!.
Qed.

Lemma sat_settle md c slot :
  (∀ q, v_request c = Ok (Some q) → kv_storable (rq_why q)) ∨ md = Faulty →
  sat (K:=K) md (settle slot) c (λ d, settle_post md c slot (Ok d)) (λ e, settle_post md c slot (Err e)).
Proof.
  intros Hst. unfold settle. apply sat_bind. eapply sat_mono; [by apply sat_settle_request| |].
  - intros o c' [(-> & Hr & ->)|(q & c2 & Hq & Hc & ->)]; apply sat_ret.
    + left. done.
    + right. exists q, o, c2. split_and!; done.
  - intros e c' H. exact H.
Qed.

Lemma sat_settle_catch {E} md c slot (w : BootWarnings) :
  (∀ q, v_request c = Ok (Some q) → kv_storable (rq_why q)) ∨ md = Faulty →
  sat (K:=K) md (r ← catch (settle slot); mret (r, w)) c
    (λ rw, settle_post md c slot (rw.1)) (λ (_ : E) _, False).
Proof.
  intros Hst. apply sat_bind, sat_catch.
  eapply sat_mono; [by apply sat_settle|intros; by apply sat_ret..].
Qed.

Lemma sat_cleared md c slot (m : M (OtaStore K) StoreError unit) c0 Y :
  reasons_storable c ∨ md = Faulty →
  sat (K:=K) md m c0 (λ _ c', c' = delete_all CLEAR_KEYS c)
    (λ e c', Y e c' ∨ transient md e ∧ ∃ n, c' = delete_all (take n CLEAR_KEYS) c) →
  sat (K:=K) md (_ ← m; settle slot) c0
    (λ d, cleared_post md c slot (Ok d)) (λ e c', Y e c' ∨ cleared_post md c slot (Err e) c').
Proof.
  intros Hst Hm. apply sat_bind. eapply sat_mono; [exact Hm| |].
  - intros _ c' ->. eapply sat_mono; [apply sat_settle| |].
    + destruct Hst as [[_ Hst]|]; [left|by right]. intros q. rewrite (request_same CLEAR_KEYS c).
      * apply Hst.
      * in_keys.
      * in_keys.
      * in_keys.
      * apply same_delete_all; [done|apply same_refl].
    + intros d c' H. right. exact H.
    + intros e c' H. right. right. exact H.
  - intros e c' [?|[Ht [n ->]]]; [by left|right; left; eauto].
Qed.

(** The result of a persistence sequence next to the warnings. *)
Lemma sat_catch_pair {E} md c (m : M (OtaStore K) StoreError BootDisposition)
    (P : result StoreError BootDisposition → contents → Prop) (w : BootWarnings) :
  sat (K:=K) md m c (λ d, P (Ok d)) (λ e, P (Err e)) →
  sat (K:=K) md (r ← catch m; mret (r, w)) c (λ dw, P dw.1) (λ (_ : E) _, False).
Proof. intros Hm. apply sat_bind, sat_catch. eapply sat_mono; [exact Hm|intros; by apply sat_ret..]. Qed.

(** The optional activation mark. *)
Lemma sat_note_activation {E} md c (mk : bool) w (Q : BootWarnings → contents → Prop) :
  (∀ w, Q w c) → (∀ w, mk = true → Q w (<[ATT_ACT := VU8 1]> c)) →
  sat (K:=K) md (if mk then note_activation w else mret w) c Q (λ (_ : E) _, False).
Proof.
  intros HQ1 HQ2. destruct mk; [|by apply sat_ret]. apply sat_bind, sat_catch.
  eapply sat_mono; [apply sat_mark|intros _ c' ->; by apply sat_ret; auto|].
  intros e c' [_ [->| ->]]; apply sat_ret; auto.
Qed.

(** The reason of a refused image: it goes to the attempt of the running slot. *)
Lemma sat_refusal_note {E} md c c1 hw (w : BootWarnings) :
  v_attempt_slot c = Ok (Some (hw_running_slot hw)) → same_except [ATT_ACT; ATT_WHY] c c1 →
  sat (K:=K) md (r ← catch (note_rollback RR_VersionMismatch (hw_running_slot hw));
     mret (@Ok StoreError _ BD_RollBackNow,
           match r with Err e => mkWarnings (activation_not_recorded w) (Some e) | Ok _ => w end))
    c1 (λ dw c', dw.1 = Ok BD_RollBackNow ∧ same_except [ATT_ACT; ATT_WHY] c c')
    (λ (_ : E) _, False).
Proof.
  intros Hslot Hs.
  assert (Hslot1 : v_attempt_slot c1 = Ok (Some (hw_running_slot hw)))
    by (rewrite <- Hslot; eapply attempt_slot_same; [..|exact Hs]; in_keys).
  apply sat_bind, sat_catch. eapply sat_mono; [apply sat_note_rollback| |].
  - intros n c2 Hn. apply sat_ret. split; [done|]. destruct n as [n|]; [|by destruct Hn as [-> _]].
    destruct (target n); [destruct Hn as (_ & _ & _ & ->); solve_same|].
    destruct Hn as (_ & Hne & _). done.
  - intros e c2 Hn. apply sat_ret. split; [done|].
    destruct Hn as [->|[[_ ->]|[? _]]]; [done|solve_same|done].
Qed.

Lemma sat_sequence {E} md c hw rv r w :
  v_records c = Ok r →
  reasons_storable c ∨ md = Faulty →
  sat (K:=K) md (sequence (E:=E) hw (boot_action hw rv r) rv w) c
    (λ dw, sequence_post md c hw rv (boot_action hw rv r) dw.1) (λ _ _, False).
Proof.
  intros Hr Hst.
  destruct (boot_action hw rv r) as [|mk| | |p mk|id left_ al|] eqn:Hact; simpl.
  - apply sat_settle_catch. destruct Hst as [[_ ?]|]; auto.
  - apply sat_bind, sat_note_activation; intros; apply sat_ret; simpl; auto.
  - apply (sat_catch_pair _ _ _ (λ r, _ r)). destruct rv as [v|].
    + eapply sat_mono; [apply (sat_cleared md (complete_refusal c v) _ _ _
        (λ e c', transient md e ∧ c' = c))| |].
      * destruct Hst as [Hst|]; [left|by right].
        eapply reasons_storable_same; [|apply complete_refusal_same|exact Hst].
        set_solver.
      * eapply sat_mono; [apply sat_complete|done|]. naive_solver.
      * intros d c' H. right. exact H.
      * intros e c' [[? ->]|H]; [left; eauto|by right].
    + eapply sat_mono; [apply (sat_cleared md c _ _ _ (λ _ _, False))|done|naive_solver]; [done|].
      eapply sat_mono; [apply sat_clear|done|auto].
  - apply (sat_catch_pair _ _ _ (λ r, _ r)).
    eapply sat_mono; [apply (sat_cleared md c _ _ _ (λ _ _, False))|done|naive_solver]; [done|].
    eapply sat_mono; [apply sat_clear|done|auto].
  - pose proof (refuse_action_slot _ _ _ _ _ _ Hr Hact) as Hslot.
    apply sat_bind, sat_note_activation; intros; apply sat_refusal_note; try done; solve_same.
  - apply (sat_catch_pair _ _ _ (λ r, _ r)). apply sat_bind.
    eapply sat_mono; [apply sat_report_rollback| |].
    + intros v ->. eapply report_action_wf; eauto.
    + destruct Hst as [[? _]|]; auto.
    + intros u c1 H. apply sat_ret. simpl in *. by split.
    + intros e c' H. exact H.
  - by apply sat_ret.
Qed.

(** What a boot with readable hardware facts does. *)
Definition boot_post md c hw rv (o : BootOutcome) c' : Prop :=
  (c' = c ∧ ∃ e, (transient md e ∨ v_records c = Err e) ∧
     outcome_of md c' (Some hw) (BD_FailedClosed (BF_Store e)) None o) ∨
  (∃ r d, v_records c = Ok r ∧ sequence_post md c hw rv (boot_action hw rv r) d c' ∧
     outcome_of md c' (Some hw) (match d with Ok d => d | Err e => BD_Incomplete e end)
       (Some (boot_action hw rv r)) o).

Lemma sat_reconcile_boot {E} md c hw rv :
  reasons_storable c ∨ md = Faulty →
  sat (K:=K) md (reconcile_boot (E:=E) (Ok hw) rv) c (boot_post md c hw rv) (λ _ _, False).
Proof.
  intros Hst. unfold reconcile_boot. apply sat_bind, sat_catch.
  eapply sat_mono; [apply sat_read_phase| |].
  - intros r c1 [-> Hr]. apply sat_bind.
    eapply sat_mono; [by apply (sat_sequence md c hw rv r)| |done].
    intros [d w] c' Hd. simpl in Hd. eapply sat_mono; [apply sat_outcome| |done].
    intros o c'' [-> Ho]. right. eauto.
  - intros e c1 [-> He]. eapply sat_mono; [apply sat_outcome| |done].
    intros o c'' [-> Ho]. left. eauto.
Qed.
End boot_spec.
