(* ===== verification/BootRecovery.v ===== *)
(** * BootRecovery: boots that are interrupted and repeated

    [reboot hw rv s s'] is one boot whose backend may fail or lose power anywhere
    and then comes back with the same durable content and an arbitrary fault
    state.  The invariants below describe every content a sequence of such boots
    can reach, and a final undisturbed boot finishes the work. *)
From S2P Require Import Prelude Text Version Decision Kv FaultKv Reason KvLogic Store StoreViews StoreAttempt StoreReport Boot BootSpec.
Open Scope Z_scope.

Section recovery.
Context {K : Type} `{HO : OtaKv K} `{HK : !KvContract K}.
Context (hw : HardwareFacts) (rv : option Version).

Definition reboot (s s' : OtaStore K) : Prop :=
  ∃ o s1, reconcile_boot (E:=Empty_set) (Ok hw) rv s = (Ok o, s1) ∧
    kv_ok (kv s') ∧ cont s' = cont s1.

(** An invariant of the content under arbitrary boots is one under [rtc reboot]. *)
Lemma reboots_inv (I : contents → Prop) (s s' : OtaStore K) :
  (∀ c o c', I c → boot_post Faulty c hw rv o c' → I c') →
  kv_ok (kv s) → I (cont s) → rtc reboot s s' → kv_ok (kv s') ∧ I (cont s').
Proof.
  intros Hstep Hok HI Hr. induction Hr as [s|s s1 s2 (o & s1' & Hrun & Hok1 & Hc1) _ IH]; [done|].
  apply IH; [done|]. rewrite Hc1.
  pose proof (sat_run Faulty _ (cont s) _ _ s
    (sat_reconcile_boot (E:=Empty_set) Faulty (cont s) hw rv (or_intror eq_refl)) Hok eq_refl) as H.
  rewrite Hrun in H. destruct H as (_ & _ & Hp); [done|]. eauto.
Qed.

(** The final, undisturbed boot. *)
Lemma final_boot (s : OtaStore K) :
  kv_ok (kv s) → healthy (kv s) → reasons_storable (cont s) →
  ∃ o s', reconcile_boot (E:=Empty_set) (Ok hw) rv s = (Ok o, s') ∧
    boot_post Healthy (cont s) hw rv o (cont s').
Proof.
  intros Hok Hh Hst.
  pose proof (sat_run Healthy _ (cont s) _ _ s
    (sat_reconcile_boot (E:=Empty_set) Healthy (cont s) hw rv (or_introl Hst)) Hok eq_refl
    (λ _, Hh)) as H.
  destruct (reconcile_boot (Ok hw) rv s) as [[o|[]] s']. naive_solver.
Qed.
End recovery.

(** ** Boots without an attempt and without a request *)

Lemma boot_noattempt md c hw rv r o c' :
  v_records c = Ok r → br_attempt r = None → c !! RQ_FROM = None →
  boot_post md c hw rv o c' →
  c' = c ∧ (md = Healthy → bo_disposition o = BD_Settled NoRequest ∧
            (bo_report_pending o = false → v_flag c RB = Ok false)).
Proof.
  intros Hr Ha Hun. pose proof (unarmed_request _ Hun) as [Hreq _].
  intros [[-> (e & He & Ho)]|(r' & d & Hr' & Hs & Ho)].
  - split; [done|]. intros ->. destruct He as [He|He]; [by apply transient_healthy in He|congruence].
  - rewrite Hr in Hr'. injection Hr' as <-. unfold boot_action in Hs. rewrite Ha in Hs. simpl in Hs.
    destruct d as [d|e]; simpl in Hs.
    + destruct Hs as [(-> & _ & ->)|(q & ? & ? & Hq & _)]; [|congruence].
      split; [done|]. intros ->. split; apply Ho.
    + destruct Hs as [(-> & Hs)|(_ & q & Hq & _)]; [|congruence]. split; [done|].
      intros ->. destruct Hs as [Hs|[Hs|[[q Hq] _]]]; [by apply transient_healthy in Hs|congruence..].
Qed.

(** ** Views of contents that differ in the report and the refusal only *)

Lemma attempt_same ks c c' :
  (∀ k, k ∈ CLEAR_KEYS → k ∉ ks) → same_except ks c c' → v_attempt c' = v_attempt c.
Proof.
  intros Hk Hs. unfold v_attempt, v_attempt_slot, v_flag, v_str, v_u32, v_u8, v_reason.
  rewrite !Hs by (apply Hk; in_keys). done.
Qed.

Lemma report_ok_iff c :
  (∃ p, v_report c = Ok p) ↔
  (∃ b, v_u8 c RB = Ok b) ∧ (c !! RB ≠ None → ∃ i, v_u32 c RB_ID = Ok i).
Proof.
  unfold v_report, v_u8. destruct (c !! RB) as [[]|]; simpl; try naive_solver.
  destruct (v_u32 c RB_ID); simpl; naive_solver.
Qed.

Lemma records_intro c a q p b :
  v_attempt c = Ok a → v_request c = Ok q → v_report c = Ok p →
  match a with Some a => v_persisted_for c (attempt_id (sa_record a)) = Ok b | None => b = false end →
  v_records c = Ok (mkBootRecords a b).
Proof.
  intros Ha Hq Hp Hb. unfold v_records. rewrite Ha, Hq, Hp. simpl.
  destruct a; [by rewrite Hb|by subst].
Qed.

Lemma persisted_total c id : (∃ p, v_report c = Ok p) → ∃ b, v_persisted_for c id = Ok b.
Proof.
  intros [[b Hb] Hi]%report_ok_iff. unfold v_persisted_for. rewrite Hb. simpl.
  destruct b; [|eauto]. destruct Hi as [i ->]; simpl; [|eauto].
  unfold v_u8 in Hb. by destruct (c !! RB).
Qed.

Lemma prefix_lookup ks (c : contents) k :
  delete_all ks c !! k = c !! k ∨ delete_all ks c !! k = None.
Proof. rewrite lookup_delete_all. case_bool_decide; auto. Qed.

(** The reason of the attempt is the original one or gone. *)
Definition why_kept (c0 c : contents) : Prop :=
  c !! ATT_WHY = c0 !! ATT_WHY ∨ c !! ATT_WHY = None.

Lemma why_kept_prefix ks c0 c : c !! ATT_WHY = c0 !! ATT_WHY → why_kept c0 (delete_all ks c).
Proof. intros Hc. unfold why_kept. rewrite <- Hc. apply prefix_lookup. Qed.

Lemma why_kept_storable c0 c :
  why_kept c0 c → c !! RQ_FROM = None → kv_storable (att_why c0) → reasons_storable c.
Proof.
  intros Hw Hun Hst. split.
  - unfold att_why, v_reason in *. destruct Hw as [->| ->]; [done|by split].
  - apply unarmed_request in Hun as [-> _]. intros q. done.
Qed.

(** ** An interrupted rollback report *)
Section rollback.
Context (hw : HardwareFacts) (rv : option Version) (c0 : contents) (r0 : BootRecords).
Context (id : Z) (left_ : option Version) (al : bool).
Context (Hr0 : v_records c0 = Ok r0).
Context (Hact0 : boot_action hw rv r0 = ReportRollback id left_ al).
Context (Hun0 : c0 !! RQ_FROM = None) (Hnf0 : ¬ foreign_report c0 id).

(** The attempt is still recorded. *)
Definition rb_pre (c : contents) : Prop := rollback_kept c0 id al c.
(** Report and refusal are durable and the attempt is no longer visible. *)
Definition rb_post (c : contents) : Prop :=
  ∃ c2 n, rollback_durable c0 id left_ al c2 ∧ c = delete_all (take (S n) CLEAR_KEYS) c2.

Lemma rb_attempt : ∃ a, br_attempt r0 = Some a ∧ attempt_id (sa_record a) = id ∧
  al = br_report_persisted r0 ∧
  ∀ r, br_attempt r = Some a →
    boot_action hw rv r = ReportRollback id left_ (br_report_persisted r).
Proof using All.
  unfold boot_action in Hact0. destruct (br_attempt r0) as [a|]; [|done].
  cbn [option_map] in Hact0. apply reconcile_spec in Hact0.
  exists a. inversion Hact0; subst. split_and!; try done.
  intros r Hr. unfold boot_action. rewrite Hr. cbn [option_map]. apply reconcile_spec.
  by apply (V_report _ (boot_facts hw rv r)).
Qed.

Lemma rb_reported : al = true → reported c0 id.
Proof using All.
  destruct rb_attempt as (a & Ha & Hid & Hal & _). intros ->.
  apply v_records_attempt in Hr0 as (_ & _ & _ & Hp). rewrite Ha in Hp.
  apply persisted_reported. congruence.
Qed.

Lemma kept_scope c : rollback_kept c0 id al c → same_except (REJ_VER :: REPORT_SCOPE) c0 c.
Proof using All.
  unfold rollback_kept. destruct al; [|tauto]. intros Hs. solve_same.
Qed.

Lemma kept_report c : rollback_kept c0 id al c →
  ¬ foreign_report c id ∧ (∃ p, v_report c = Ok p).
Proof using All.
  intros Hk. pose proof (v_records_attempt _ _ Hr0) as (_ & _ & Hp0 & _).
  pose proof rb_reported as Hal. unfold rollback_kept in Hk. destruct al eqn:Eal.
  - pose proof (Hal eq_refl) as Hrep.
    apply (reported_same [REJ_VER] c0 c) in Hrep; [|in_keys|in_keys|done].
    split; [by apply reported_not_foreign|]. destruct Hrep as [H1 H2].
    apply report_ok_iff. unfold v_u8, v_u32. rewrite H1, H2. simpl. eauto.
  - destruct Hk as (_ & Hrb & [->|[_ Hi]]); [done|]. split.
    + destruct Hi as [Hi|[Hi _]]; [|by apply reported_not_foreign].
      intros (_ & o & Ho & _). congruence.
    + apply report_ok_iff in Hp0 as [Hb Hi0]. apply report_ok_iff. split.
      * destruct Hrb as [Hrb|Hrb]; unfold v_u8 in *; rewrite Hrb; [done|simpl; eauto].
      * intros _. unfold v_u32. destruct Hi as [->|[[_ ->] _]]; simpl; eauto.
Qed.

Lemma pre_records c : rb_pre c → ∃ r, v_records c = Ok r ∧
  boot_action hw rv r = ReportRollback id left_ (br_report_persisted r) ∧
  ¬ foreign_report c id ∧ (∃ p, v_report c = Ok p) ∧ att_why c = att_why c0 ∧
  (if br_report_persisted r then al = true ∨ al = false ∧ reported_why c id (att_why c0)
   else al = false ∧ (c = c0 ∨ c !! RB_ID = None)).
Proof using All.
  intros Hk. destruct (kept_report c Hk) as [Hnf Hrep]. pose proof (kept_scope c Hk) as Hs.
  destruct rb_attempt as (a & Ha & Hid & Hal & Hact).
  pose proof (v_records_attempt _ _ Hr0) as (Hatt & _ & _ & Hp0). rewrite Ha in Hatt, Hp0.
  rewrite Hid, <- Hal in Hp0.
  destruct (persisted_total c id Hrep) as [b Hb]. destruct Hrep as [p Hp].
  exists (mkBootRecords (Some a) b). split_and!; try done.
  - eapply records_intro; [|apply unarmed_request|exact Hp|by rewrite Hid].
    + rewrite <- Hatt. eapply attempt_same; [|exact Hs]. set_solver.
    + by rewrite Hs by in_keys.
  - by apply Hact.
  - eauto.
  - unfold att_why, v_reason. by rewrite Hs by in_keys.
  - simpl. unfold rb_pre, rollback_kept in Hk.
    pose proof rb_reported as Hrb. destruct b, al eqn:Eal.
    + auto.
    + right. split; [done|]. destruct Hk as (_ & _ & [->|[_ [Hn|Hw]]]); [congruence| |done].
      apply persisted_reported in Hb as [_ Hb]. congruence.
    + specialize (Hrb eq_refl). apply (reported_same [REJ_VER] c0 c) in Hrb; [|in_keys|in_keys|done].
      apply reported_persisted in Hrb. congruence.
    + split; [done|]. destruct Hk as (_ & _ & [->|[_ [Hn|[Hw _]]]]); auto.
      apply reported_persisted in Hw. congruence.
Qed.

(** One boot from a state where the attempt is still recorded. *)
Lemma kept_trans c p c' :
  rb_pre c →
  (if p : bool then al = true ∨ al = false ∧ reported_why c id (att_why c0)
   else al = false ∧ (c = c0 ∨ c !! RB_ID = None)) →
  att_why c = att_why c0 → rollback_kept c id p c' → rb_pre c'.
Proof using All.
  intros Hk Hp Hw Hk'. pose proof (kept_scope c Hk) as Hs. unfold rb_pre in *.
  destruct p; simpl in Hk'.
  - destruct Hp as [->|[-> [[H1 H2] H3]]]; simpl in *; [eapply same_trans; eauto|].
    split_and!; [eapply same_trans; [exact Hs|solve_same]|right; by rewrite Hk' by in_keys|].
    right. split; [done|]. right. repeat split; by rewrite Hk' by in_keys.
  - destruct Hp as [-> Hc]. simpl in *. destruct Hk' as (Hs' & Hrb & Hi).
    destruct Hk as (_ & Hrb0 & Hi0).
    split_and!; [eapply same_trans; eauto|destruct Hrb as [->|]; auto|].
    destruct Hi as [->|[_ Hi]]; [destruct Hc as [->|Hc]; auto|].
    right. split; [done|]. rewrite <- Hw. done.
Qed.

Lemma durable_trans c p c' :
  rb_pre c →
  (if p : bool then al = true ∨ al = false ∧ reported_why c id (att_why c0)
   else al = false ∧ (c = c0 ∨ c !! RB_ID = None)) →
  att_why c = att_why c0 → rollback_durable c id left_ p c' → rollback_durable c0 id left_ al c'.
Proof using All.
  intros Hk Hp Hw [Hd Hl]. pose proof (kept_scope c Hk) as Hs. split; [|done].
  unfold rb_pre in *. destruct p.
  - destruct Hp as [->|[-> [[H1 H2] H3]]]; simpl in *; [eapply same_trans; eauto|].
    split_and!; [done|eapply same_trans; [exact Hs|solve_same]|].
    repeat split; by rewrite Hd by in_keys.
  - destruct Hp as [-> Hc]. simpl in *. destruct Hd as (_ & Hs' & Hr).
    split_and!; [done|eapply same_trans; eauto|by rewrite <- Hw].
Qed.

(** What the recovery ends with. *)
Definition rb_done (c : contents) : Prop :=
  reported c id ∧ (al = false → c !! RB_WHY = Some (VStr (att_why c0))) ∧
  left_refused left_ c ∧ v_attempt c = Ok None ∧ c !! RQ_FROM = None ∧
  why_kept c0 c ∧ same_except (REJ_VER :: REPORT_SCOPE ++ CLEAR_KEYS) c0 c.

Lemma durable_done c2 n : rollback_durable c0 id left_ al c2 →
  rb_done (delete_all (take (S n) CLEAR_KEYS) c2).
Proof using All.
  intros [Hd Hl]. pose proof rb_reported as Hal.
  assert (Hk : ∀ k, k ∉ CLEAR_KEYS → delete_all (take (S n) CLEAR_KEYS) c2 !! k = c2 !! k)
    by (apply (clear_prefix_same (S n) c2)).
  assert (Hs2 : same_except (REJ_VER :: REPORT_SCOPE) c0 c2).
  { destruct al; [|tauto]. solve_same. }
  assert (Hrep : reported c2 id ∧ (al = false → c2 !! RB_WHY = Some (VStr (att_why c0)))).
  { destruct al; [split; [|done]|destruct Hd as (_ & _ & [? ?]); done].
    eapply reported_same; [..|exact Hd|by apply Hal]; in_keys. }
  destruct Hrep as [[H1 H2] H3]. unfold rb_done, reported. split_and!.
  - by rewrite Hk by in_keys.
  - by rewrite Hk by in_keys.
  - intros ?. rewrite Hk by in_keys. auto.
  - unfold left_refused in *. destruct left_; [|done]. by rewrite Hk by in_keys.
  - unfold v_attempt, v_str. simpl. rewrite lookup_delete_all, lookup_delete_key. key_decide.
    by case_bool_decide.
  - rewrite Hk by in_keys. by rewrite Hs2 by in_keys.
  - apply why_kept_prefix. by rewrite Hs2 by in_keys.
  - eapply same_trans; [eapply same_weaken; [|exact Hs2]; set_solver|].
    eapply same_weaken; [|exact (clear_prefix_same (S n) c2)]. set_solver.
Qed.

Lemma done_records c : rb_done c → ∃ r, v_records c = Ok r ∧ br_attempt r = None ∧
  v_flag c RB = Ok true.
Proof using Type.
  intros ([H1 H2] & _ & _ & Ha & Hun & _).
  exists (mkBootRecords None false). split_and!; [|done|unfold v_flag, v_u8; by rewrite H1].
  destruct (proj2 (report_ok_iff c)) as [p Hp].
  { unfold v_u8, v_u32. rewrite H1, H2. simpl. eauto. }
  eapply records_intro; [exact Ha|by apply unarmed_request|exact Hp|done].
Qed.

Lemma boot_rb_pre md c o c' :
  rb_pre c → boot_post md c hw rv o c' →
  rb_pre c' ∨ (∃ c2 n, rollback_durable c0 id left_ al c2 ∧ c' = delete_all (take (S n) CLEAR_KEYS) c2).
Proof using All.
  intros Hk Hb. destruct (pre_records c Hk) as (r & Hr & Hact & Hnf & Hrep & Hw & Hp).
  destruct Hb as [[-> _]|(r' & d & Hr' & Hs & _)]; [by left|].
  rewrite Hr in Hr'. injection Hr' as <-. rewrite Hact in Hs. destruct d as [d|e]; simpl in Hs.
  - destruct Hs as (_ & c2 & Hd & ->). right. exists c2, 6%nat. split; [|done].
    by eapply durable_trans.
  - destruct Hs as [[-> _]|(_ & [Hk'|(c2 & n & Hd & ->)])]; [by left|left; by eapply kept_trans|].
    assert (Hd0 : rollback_durable c0 id left_ al c2) by (by eapply durable_trans).
    destruct n as [|n]; [left|right; eauto].
    simpl. unfold rb_pre. destruct Hd0 as [Hd0 _]. destruct al; [done|].
    destruct Hd0 as (H1 & H2 & [[H3 H4] H5]). split_and!; [done|auto|].
    right. split; [done|]. right. by repeat split.
Qed.

Lemma rb_invariant md c o c' :
  rb_pre c ∨ rb_done c → boot_post md c hw rv o c' → rb_pre c' ∨ rb_done c'.
Proof using All.
  intros [Hk|Hd] Hb.
  - destruct (boot_rb_pre md c o c' Hk Hb) as [?|(c2 & n & Hd & ->)]; [by left|right].
    by apply durable_done.
  - destruct (done_records c Hd) as (r & Hr & Ha & _).
    right. destruct (boot_noattempt md c hw rv r o c' Hr Ha) as [-> _]; try done. apply Hd.
Qed.

Lemma rb_final c o c' :
  rb_pre c ∨ rb_done c → boot_post Healthy c hw rv o c' →
  rb_done c' ∧ bo_report_pending o = true ∧
  (bo_disposition o = BD_ReportedRollback ∨ bo_disposition o = BD_Settled NoRequest).
Proof using All.
  intros [Hk|Hd] Hb.
  - destruct (pre_records c Hk) as (r & Hr & Hact & Hnf & Hrep & Hw & Hp).
    destruct Hb as [[_ (e & [He|He] & _)]|(r' & d & Hr' & Hs & Ho)];
      [by apply transient_healthy in He|congruence|].
    rewrite Hr in Hr'. injection Hr' as <-. rewrite Hact in Hs. destruct d as [d|e]; simpl in Hs.
    + destruct Hs as (-> & c2 & Hd & ->).
      assert (Hdone : rb_done (delete_all CLEAR_KEYS c2))
        by (apply (durable_done c2 6); by eapply durable_trans).
      split; [done|]. destruct (done_records _ Hdone) as (rx & _ & _ & Hrb).
      destruct Ho as (Hd1 & _ & _ & _ & _ & _ & _ & Hp1). split; [|by left].
      destruct (bo_report_pending o); [done|].
      specialize (Hp1 eq_refl). simpl in Hp1, Hrb. congruence.
    + exfalso. apply report_ok_iff in Hrep as [[b Hb] Hi].
      destruct Hs as [(_ & _ & [He|[[Hrb He]|[_ He]]])|[He _]]; try done;
        [| |by apply transient_healthy in He].
      * unfold v_flag in He. by rewrite Hb in He.
      * destruct Hi as [i Hi]; congruence.
  - destruct (done_records c Hd) as (r & Hr & Ha & Hrb).
    destruct (boot_noattempt Healthy c hw rv r o c' Hr Ha) as [-> Hn]; [apply Hd|done|].
    destruct (Hn eq_refl) as [Hdis Hp]. split_and!; [done| |auto].
    destruct (bo_report_pending o); [done|]. specialize (Hp eq_refl). congruence.
Qed.
End rollback.

(** ** An interrupted completion *)

Lemma records_same_refusal c c' : same_except [REJ_VER] c c' → v_records c' = v_records c.
Proof.
  intros Hs. unfold v_records. rewrite (attempt_same [REJ_VER] c c') by (done || set_solver).
  rewrite (request_same [REJ_VER] c c') by (done || in_keys).
  assert (v_report c' = v_report c) as ->.
  { unfold v_report, v_u8, v_u32, v_reason. by rewrite !Hs by in_keys. }
  destruct (v_attempt c) as [[a|]|]; simpl; try done.
  assert (v_persisted_for c' (attempt_id (sa_record a)) = v_persisted_for c (attempt_id (sa_record a)))
    as ->; [|done].
  unfold v_persisted_for, v_u8, v_u32. by rewrite !Hs by in_keys.
Qed.

Lemma complete_refusal_idem c v : complete_refusal (complete_refusal c v) v = complete_refusal c v.
Proof.
  unfold complete_refusal at 1. destruct (complete_refusal c v !! REJ_VER) as [s|] eqn:E; [|done].
  apply complete_refusal_lookup in E as (t & -> & Ht). by rewrite bool_decide_eq_true_2.
Qed.

Lemma settle_none md c slot r c' :
  c !! RQ_FROM = None → settle_post md c slot r c' →
  c' = c ∧ (md = Healthy → r = Ok (BD_Settled NoRequest)).
Proof.
  intros Hun. pose proof (unarmed_request _ Hun) as [Hreq _]. destruct r as [d|e]; simpl.
  - intros [(-> & _ & ->)|(q & ? & ? & Hq & _)]; [done|congruence].
  - intros [(-> & Hs)|(_ & q & Hq & _)]; [|congruence]. split; [done|].
    intros ->. destruct Hs as [Hs|[Hs|[[q Hq] _]]]; [by apply transient_healthy in Hs|congruence..].
Qed.

Section completion.
Context (hw : HardwareFacts) (rv : option Version) (c0 : contents) (r0 : BootRecords).
Context (Hr0 : v_records c0 = Ok r0).
Context (Hact0 : boot_action hw rv r0 = CompleteAttempt).
Context (Hun0 : c0 !! RQ_FROM = None).

Lemma completion_version : ∃ v, rv = Some v.
Proof using All.
  pose proof Hact0 as Hact. unfold boot_action in Hact.
  destruct (br_attempt r0) as [a|]; [|done]. cbn [option_map] in Hact.
  apply reconcile_spec in Hact. inversion Hact as [|? [Hp1 Hp2] ?| | | | |]. simpl in *.
  destruct rv; [eauto|congruence].
Qed.

Context (v : Version) (Hrv : rv = Some v).

Definition cp_pre (c : contents) : Prop := c = c0 ∨ c = complete_refusal c0 v.
Definition cp_done (c : contents) : Prop :=
  v_attempt c = Ok None ∧ c !! RQ_FROM = None ∧
  c !! REJ_VER = complete_refusal c0 v !! REJ_VER ∧
  why_kept c0 c ∧ same_except (REJ_VER :: CLEAR_KEYS) c0 c.

Lemma cp_cleared n : cp_done (delete_all (take (S n) CLEAR_KEYS) (complete_refusal c0 v)).
Proof using All.
  pose proof (clear_prefix_same (S n) (complete_refusal c0 v)) as Hk.
  pose proof (complete_refusal_same c0 v) as Hs. split_and!.
  - unfold v_attempt, v_str. simpl. rewrite lookup_delete_all, lookup_delete_key. key_decide.
    by case_bool_decide.
  - rewrite Hk by in_keys. by rewrite Hs by in_keys.
  - by rewrite Hk by in_keys.
  - apply why_kept_prefix. by rewrite Hs by in_keys.
  - eapply same_trans; [eapply same_weaken; [|exact Hs]|eapply same_weaken; [|exact Hk]]; set_solver.
Qed.

Lemma cp_pre_records c : cp_pre c →
  v_records c = Ok r0 ∧ complete_refusal c v = complete_refusal c0 v ∧ c !! RQ_FROM = None.
Proof using All.
  intros [->| ->]; [done|]. pose proof (complete_refusal_same c0 v) as Hs.
  split_and!; [by rewrite (records_same_refusal c0)|apply complete_refusal_idem|].
  by rewrite Hs by in_keys.
Qed.

Lemma cp_done_boot md c o c' : cp_done c → boot_post md c hw rv o c' →
  c' = c ∧ (md = Healthy → bo_disposition o = BD_Settled NoRequest).
Proof using All.
  intros (Ha & Hun & Hrej & _ & Hs) Hb. pose proof (v_records_attempt _ _ Hr0) as (_ & _ & [p Hp] & _).
  assert (Hrep : v_report c = Ok p).
  { rewrite <- Hp. unfold v_report, v_u8, v_u32, v_reason. by rewrite !Hs by in_keys. }
  destruct (boot_noattempt md c hw rv (mkBootRecords None false) o c') as [-> Hn]; try done.
  - eapply records_intro; [exact Ha|by apply unarmed_request|exact Hrep|done].
  - split; [done|]. intros Hm. by apply Hn.
Qed.

Lemma cp_step md c o c' : cp_pre c → boot_post md c hw rv o c' →
  (cp_pre c' ∧ md = Faulty) ∨
  cp_done c' ∧ (md = Healthy → bo_disposition o = BD_Settled NoRequest).
Proof using All.
  intros Hc Hb. destruct (cp_pre_records c Hc) as (Hr & Hcr & Hun).
  assert (Htr : ∀ e, transient md e → md = Faulty) by (by intros e [? _]).
  destruct Hb as [[-> (e & [He|He] & _)]|(r & d & Hr' & Hs & Ho)]; [left; eauto|congruence|].
  rewrite Hr in Hr'. injection Hr' as <-. rewrite Hact0, Hrv in Hs. simpl in Hs. rewrite Hcr in Hs.
  destruct Hs as [(e & -> & He & ->)|[(e & n & -> & He & ->)|Hs]]; [left; eauto| |].
  - destruct n as [|n]; [left; split; [by right|eauto]|right].
    split; [apply cp_cleared|]. intros ->. by apply transient_healthy in He.
  - pose proof (cp_cleared 6) as Hd. change (take 7 CLEAR_KEYS) with CLEAR_KEYS in Hd.
    destruct (settle_none _ _ _ _ _ (proj1 (proj2 Hd)) Hs) as [-> Hn]. right. split; [done|].
    intros Hm. rewrite (Hn Hm) in Ho. apply Ho.
Qed.
End completion.
