(* ===== verification/Samples.v ===== *)
(** * Samples: concrete stores for the closed instances of the theorems *)
From S2P Require Import Prelude Text Version Decision Kv FaultKv Reason KvLogic Store.
Open Scope Z_scope.

(** A store over the fault-injecting backend, with power loss after commit [n]. *)
Definition sample (m : contents) (crash : option Z) : OtaStore Inner :=
  OtaStore_open (mkInner m [] 0 0 crash None None None ∅ false) (λ n, 1000 + Z.of_nat n).

(** The store after a power cycle: the durable content survives. *)
Definition revive (s : OtaStore Inner) : OtaStore Inner :=
  OtaStore_open (FaultKv_from_map (fk_map (kv s))) (λ n, 2000 + Z.of_nat n).

Definition slot0 : SlotId := mkSlotId 0.
Definition slot1 : SlotId := mkSlotId 1.
Definition v120 : Version := mkVersion 1 2 0.
Definition v110 : Version := mkVersion 1 1 0.

(** Running [ota_0], verified, with [ota_1] as the update slot. *)
Definition hw_previous : HardwareFacts := mkHw slot0 SValid (US_Present slot1 SInvalid).
(** Running [ota_1], verified. *)
Definition hw_new : HardwareFacts := mkHw slot1 SValid (US_Present slot0 SValid).

(** An attempt of 1.2.0 into [ota_1], boot slot switched. *)
Definition m_attempt : contents :=
  <[ATT_ID := VU32 7]> (<[ATT_VER := VStr "1.2.0"]> (<[ATT_SLOT := VStr "ota_1"]>
  (<[ATT_BOOT := VU8 1]> (<[ATT_INV := VU8 0]> (<[ATT_CTR := VU32 7]> (<[ATT_EPOCH := VU32 5]> ∅)))))).

#[export] Instance fault_ok_dec i : Decision (fault_ok i).
Proof. unfold fault_ok. apply _. Defined.
#[export] Instance fault_free_dec i : Decision (fault_free i).
Proof. unfold fault_free. apply _. Defined.

(** Closes [kv_ok], [healthy] and other decidable facts of a sample store. *)
Ltac sample_ok := apply (bool_decide_unpack _); vm_compute; exact I.
