(* ===== verification/BootProps.v ===== *)
(** * BootProps: the guarantees of the boot reconciliation *)
From S2P Require Import Prelude Text Version Decision Kv FaultKv Reason KvLogic Store StoreViews StoreAttempt StoreReport Boot BootSpec BootRecovery Samples.
Open Scope Z_scope.

(** C1: a rollback report survives any number of interrupted boots.  The device runs the
    previous image and the attempt's records say a rollback happened.  Whatever boots follow,
    each with a power loss or faults at any point, one undisturbed boot ends with the report
    pending under the attempt's id (with the attempt's reason, unless it was already persisted),
    the version left behind refused, the attempt gone and the outcome asking for delivery. *)
Theorem boot_recovers_rollback {K} `{HO : OtaKv K} `{HK : !KvContract K}
    hw rv r0 id left_ al (s s' : OtaStore K) :
  kv_ok (kv s) → v_records (cont s) = Ok r0 →
  boot_action hw rv r0 = ReportRollback id left_ al →
  cont s !! RQ_FROM = None → ¬ foreign_report (cont s) id → kv_storable (att_why (cont s)) →
  rtc (reboot hw rv) s s' → healthy (kv s') →
  ∃ o s'', reconcile_boot (E:=Empty_set) (Ok hw) rv s' = (Ok o, s'') ∧
    reported (cont s'') id ∧
    (al = false → cont s'' !! RB_WHY = Some (VStr (att_why (cont s)))) ∧
    left_refused left_ (cont s'') ∧ v_attempt (cont s'') = Ok None ∧
    bo_report_pending o = true ∧
    (bo_disposition o = BD_ReportedRollback ∨ bo_disposition o = BD_Settled NoRequest).
Proof.
  intros Hok Hr Hact Hun Hnf Hst Hrt Hh.
  destruct (reboots_inv hw rv (λ c, rb_pre (cont s) id al c ∨ rb_done (cont s) id left_ al c) s s')
    as [Hok' Hinv]; try done.
  - intros c o c' Hc Hb. by eapply rb_invariant.
  - left. apply rollback_kept_refl.
  - destruct (final_boot hw rv s' Hok' Hh) as (o & s'' & Hrun & Hb).
    { destruct Hinv as [Hk|Hd].
      - pose proof (kept_scope hw rv _ _ _ _ _ Hr Hact Hun Hnf _ Hk) as Hs.
        eapply why_kept_storable; [left|by rewrite Hs by in_keys|exact Hst].
        by rewrite Hs by in_keys.
      - eapply why_kept_storable; [apply Hd|apply Hd|exact Hst]. }
    destruct (rb_final hw rv _ _ _ _ _ Hr Hact Hun Hnf _ _ _ Hinv Hb) as ((?&?&?&?&_) & ? & ?).
    eauto 12.
Qed.

(** A power loss after the third commit of the report, then an undisturbed boot. *)
Lemma boot_recovers_rollback_witness :
  ∃ o s'', reconcile_boot (E:=Empty_set) (Ok hw_previous) (Some v110)
             (revive (reconcile_boot (E:=Empty_set) (Ok hw_previous) (Some v110)
                        (sample m_attempt (Some 3))).2) = (Ok o, s'') ∧
    reported (cont s'') 7.
Proof.
  destruct (boot_recovers_rollback hw_previous (Some v110)
    (mkBootRecords (Some (mkStored (mkAttempt 7 (Some v120) slot1 true false false) None)) false)
    7 (Some v120) false (sample m_attempt (Some 3))
    (revive (reconcile_boot (E:=Empty_set) (Ok hw_previous) (Some v110)
                        (sample m_attempt (Some 3))).2)) as (o & s'' & Hrun & Hrep & _).
  - sample_ok.
  - vm_compute. reflexivity.
  - vm_compute. reflexivity.
  - vm_compute. reflexivity.
  - intros [Hrb _]. vm_compute in Hrb. discriminate.
  - sample_ok.
  - eapply rtc_once. eexists _, _. split; [vm_compute; reflexivity|].
    split; [sample_ok|vm_compute; reflexivity].
  - sample_ok.
  - eauto.
Defined.

(** completing an attempt survives any number of interrupted boots.  Once the promised image
    runs verified, whatever boots follow, one undisturbed boot ends with no attempt, nothing but
    the attempt and the refusal touched since, and a refusal that is kept only if it names the
    running version. *)
Lemma boot_recovers_completion {K} `{HO : OtaKv K} `{HK : !KvContract K}
    hw v r0 (s s' : OtaStore K) :
  kv_ok (kv s) → v_records (cont s) = Ok r0 → boot_action hw (Some v) r0 = CompleteAttempt →
  cont s !! RQ_FROM = None → kv_storable (att_why (cont s)) →
  rtc (reboot hw (Some v)) s s' → healthy (kv s') →
  ∃ o s'', reconcile_boot (E:=Empty_set) (Ok hw) (Some v) s' = (Ok o, s'') ∧
    bo_disposition o = BD_Settled NoRequest ∧ v_attempt (cont s'') = Ok None ∧
    same_except (REJ_VER :: CLEAR_KEYS) (cont s) (cont s'') ∧
    (∀ x, cont s'' !! REJ_VER = Some x → cont s !! REJ_VER = Some x ∧
       ∃ t, x = VStr t ∧ result_ok (Version_parse t) = Some v).
Proof.
  intros Hok Hr Hact Hun Hst Hrt Hh.
  assert (Hstep := λ md c o c', cp_step hw (Some v) (cont s) r0 Hr Hact Hun v eq_refl md c o c').
  assert (Hdone := λ md c o c', cp_done_boot hw (Some v) (cont s) r0 Hr Hact Hun v eq_refl md c o c').
  destruct (reboots_inv hw (Some v) (λ c, cp_pre (cont s) v c ∨ cp_done (cont s) v c) s s')
    as [Hok' Hinv]; try done.
  { intros c o c' [Hc|Hc] Hb; [destruct (Hstep _ _ _ _ Hc Hb); naive_solver|].
    destruct (Hdone _ _ _ _ Hc Hb) as [-> _]. by right. }
  { left. by left. }
  destruct (final_boot hw (Some v) s' Hok' Hh) as (o & s'' & Hrun & Hb).
  { assert (why_kept (cont s) (cont s') ∧ cont s' !! RQ_FROM = None) as [? ?].
    { unfold why_kept. pose proof (complete_refusal_same (cont s) v) as Hs.
      destruct Hinv as [[->| ->]|Hd]; [auto|rewrite !Hs by in_keys; auto|split; apply Hd]. }
    by eapply why_kept_storable. }
  assert (cp_done (cont s) v (cont s'') ∧ bo_disposition o = BD_Settled NoRequest) as [Hd Hdis].
  { destruct Hinv as [Hc|Hc].
    - destruct (Hstep _ _ _ _ Hc Hb) as [[_ ?]|[? ?]]; [done|auto].
    - destruct (Hdone _ _ _ _ Hc Hb) as [-> ?]. auto. }
  exists o, s''. destruct Hd as (Ha & _ & Hrej & _ & Hs). split_and!; try done.
  intros x Hx. rewrite Hrej in Hx. split; [|by eapply complete_refusal_lookup].
  revert Hx. unfold complete_refusal. destruct (cont s !! REJ_VER) as [[]|] eqn:E; try case_bool_decide;
    rewrite ?lookup_delete_eq; congruence.
Qed.

(** Completion of 1.2.0 with another version refused; power loss after the first commit. *)
Lemma boot_recovers_completion_witness :
  let s := sample (<[REJ_VER := VStr "1.1.9"]> m_attempt) (Some 1) in
  ∃ o s'', reconcile_boot (E:=Empty_set) (Ok hw_new) (Some v120)
             (revive (reconcile_boot (E:=Empty_set) (Ok hw_new) (Some v120) s).2) = (Ok o, s'') ∧
    v_attempt (cont s'') = Ok None.
Proof.
  intros s.
  destruct (boot_recovers_completion hw_new v120
    (mkBootRecords (Some (mkStored (mkAttempt 7 (Some v120) slot1 true false false) None)) false)
    s (revive (reconcile_boot (E:=Empty_set) (Ok hw_new) (Some v120) s).2))
    as (o & s'' & Hrun & _ & Ha & _).
  - sample_ok.
  - vm_compute. reflexivity.
  - vm_compute. reflexivity.
  - vm_compute. reflexivity.
  - sample_ok.
  - eapply rtc_once. eexists _, _. split; [vm_compute; reflexivity|].
    split; [sample_ok|vm_compute; reflexivity].
  - sample_ok.
  - eauto.
Defined.

(** C2: unreadable facts or records fail closed, on every run.  [reconcile_boot] always returns
    an outcome; when the hardware facts or any record could not be read it ran no action, wrote
    nothing, refuses to mark the image valid, does not roll back and admits no offer; and an
    unreadable record always ends that way. *)
Theorem boot_fails_closed {K} `{HO : OtaKv K} `{HK : !KvContract K}
    hw rv (s : OtaStore K) (Hok : kv_ok (kv s)) :
  ∃ o s', reconcile_boot (E:=Empty_set) hw rv s = (Ok o, s') ∧
    ((∃ e, hw = Err e) ∨ (∃ e, v_records (cont s) = Err e) →
       ∃ f, bo_disposition o = BD_FailedClosed f) ∧
    ((∃ f, bo_disposition o = BD_FailedClosed f) ∨ bo_action o = None →
       cont s' = cont s ∧ bo_action o = None ∧ bo_refuse_mark_valid o = true ∧
       bo_roll_back_now o = false ∧ bo_admission_open_at_boot o = false).
Proof.
  assert (Hflags : ∀ md c h f o, outcome_of md c h (BD_FailedClosed f) None o →
    (∃ f, bo_disposition o = BD_FailedClosed f) ∧ bo_action o = None ∧ bo_refuse_mark_valid o = true ∧
    bo_roll_back_now o = false ∧ bo_admission_open_at_boot o = false).
  { intros md c h f o (H1 & H2 & _ & H3 & _ & H4 & H5 & _). split_and!; eauto.
    destruct (bo_admission_open_at_boot o); [|done]. destruct H3 as (_ & ? & _); done. }
  destruct hw as [hw|e].
  - pose proof (sat_run Faulty _ (cont s) _ _ s
      (sat_reconcile_boot (E:=Empty_set) Faulty (cont s) hw rv (or_intror eq_refl)) Hok eq_refl) as H.
    destruct (reconcile_boot (Ok hw) rv s) as [[o|[]] s'].
    destruct H as (_ & _ & [[Hc (e & He & Ho)]|(r & d & Hr & Hs & Ho)]); [done| |];
      exists o, s'; (split; [done|]).
    + apply Hflags in Ho as [Hf Ho]. split; [by intros _|]. intros _. by split.
    + split; [intros [[? ?]|[? ?]]; congruence|]. destruct Ho as (Hd & Ha & _).
      intros [[f Hf]|Hn]; [|congruence]. exfalso. rewrite Hd in Hf. destruct d as [d|e]; [|done]. subst d.
      by eapply sequence_not_failed.
  - pose proof (sat_run Faulty _ (cont s) _ _ s
      (sat_outcome (E:=Empty_set) Faulty (cont s) None (BD_FailedClosed (BF_Hardware e)) None
         BootWarnings_default) Hok eq_refl) as H.
    simpl. destruct (outcome _ _ _ _ s) as [[o|[]] s'].
    destruct H as (_ & _ & Hc & Ho); [done|]. exists o, s'. split; [done|].
    apply Hflags in Ho as [Hf Ho]. split; [by intros _|]. intros _. by split.
Qed.

(** An attempt whose id is missing is an unreadable record. *)
Lemma boot_fails_closed_witness :
  ∃ o s', reconcile_boot (E:=Empty_set) (Ok hw_new) (Some v120)
            (sample (delete ATT_ID m_attempt) None) = (Ok o, s') ∧
    cont s' = delete ATT_ID m_attempt ∧ bo_refuse_mark_valid o = true.
Proof.
  destruct (boot_fails_closed (Ok hw_new) (Some v120) (sample (delete ATT_ID m_attempt) None))
    as (o & s' & Hrun & H1 & H2); [sample_ok|].
  exists o, s'. split; [exact Hrun|].
  destruct H2 as (Hc & _ & Hm & _); [left; apply H1; right; eexists; vm_compute; reflexivity|].
  split; [exact Hc|exact Hm].
Defined.

(** ** what each disposition of [reconcile_boot] means for the records *)

(** Everything a boot may write: never the counter, the epoch. *)
Definition BOOT_SCOPE : list string := REJ_VER :: CLEAR_KEYS ++ REPORT_SCOPE ++ REQ_KEYS.

(** What a disposition promises about the content [c'] it leaves. *)
Definition disposition_sound (c : contents) (hw : HardwareFacts) (rv : option Version)
    (d : BootDisposition) (c' : contents) : Prop :=
  match d with
  | BD_Settled o => o ≠ Reported ∧ v_attempt c' = Ok None ∧ c' !! RQ_FROM = None
  | BD_ReportedRollback => v_attempt c' = Ok None ∧ ∃ id, reported c' id
  | BD_AwaitHealthCheck =>
      hw_running_state hw = SPendingVerify ∧ same_except [ATT_ACT] c c' ∧
      ∃ a, v_attempt c = Ok (Some a) ∧ ar_slot (sa_record a) = hw_running_slot hw ∧
           rv ≠ None ∧ ar_version (sa_record a) = rv
  | BD_RollBackNow =>
      hw_running_state hw = SPendingVerify ∧ same_except [ATT_ACT; ATT_WHY] c c' ∧
      ∃ a, v_attempt c = Ok (Some a) ∧ ar_slot (sa_record a) = hw_running_slot hw ∧
           ¬ (rv ≠ None ∧ ar_version (sa_record a) = rv)
  | BD_Deferred | BD_FailedClosed _ => c' = c
  | BD_Incomplete _ => True
  end.

Lemma settle_case_frame c slot q o c2 :
  settle_case c slot q o c2 → same_except BOOT_SCOPE c (delete_all REQ_KEYS c2).
Proof.
  intros Hs%settle_case_same. eapply same_trans; [eapply same_weaken; [|exact Hs]; set_solver|].
  apply same_delete_all; [set_solver|apply same_refl].
Qed.

Lemma settle_torn_frame c slot q c' : settle_torn c slot q c' → same_except BOOT_SCOPE c c'.
Proof.
  intros [(Hs & _)|(o & c2 & n & Hs%settle_case_same & ->)];
    [eapply same_weaken; [|exact Hs]; set_solver|].
  eapply same_trans; [eapply same_weaken; [|exact Hs]; set_solver|].
  eapply same_weaken; [|apply request_prefix_same]. set_solver.
Qed.

Lemma settle_frame md c slot r c' : settle_post md c slot r c' → same_except BOOT_SCOPE c c'.
Proof.
  destruct r as [d|e]; simpl.
  - intros [(_ & _ & ->)|(q & o & c2 & _ & Hc & _ & ->)]; [apply same_refl|].
    by eapply settle_case_frame.
  - intros [[-> _]|(_ & q & _ & Ht)]; [apply same_refl|by eapply settle_torn_frame].
Qed.

Lemma clear_frame ks c : ks ⊆ CLEAR_KEYS → same_except BOOT_SCOPE c (delete_all ks c).
Proof. intros Hks. apply same_delete_all; [set_solver|apply same_refl]. Qed.

Lemma cleared_frame md c slot r c' : cleared_post md c slot r c' → same_except BOOT_SCOPE c c'.
Proof.
  intros [(e & n & _ & _ & ->)|Hs]; [apply clear_frame, take_subseteq|].
  eapply same_trans; [by apply clear_frame|by eapply settle_frame].
Qed.

Lemma durable_frame c id l al c2 : rollback_durable c id l al c2 → same_except BOOT_SCOPE c c2.
Proof.
  intros [Hd _]. destruct al; [|destruct Hd as (_ & Hd & _)];
    (eapply same_weaken; [|exact Hd]); set_solver.
Qed.

Lemma kept_frame c id al c' : rollback_kept c id al c' → same_except BOOT_SCOPE c c'.
Proof.
  intros Hk. destruct al; [|destruct Hk as (Hk & _)];
    (eapply same_weaken; [|exact Hk]); set_solver.
Qed.

Lemma sequence_frame md c hw rv act r c' :
  sequence_post md c hw rv act r c' → same_except BOOT_SCOPE c c'.
Proof.
  destruct act as [|mk| | |p mk|id l al|]; cbn [sequence_post].
  - apply settle_frame.
  - intros [_ [->|[_ ->]]]; [apply same_refl|]. apply same_insert; [in_keys|apply same_refl].
  - destruct rv as [v|]; [intros [(e & _ & _ & ->)|Hc]; [apply same_refl|]|intros Hc];
      apply cleared_frame in Hc; [|done].
    eapply same_trans; [eapply same_weaken; [|apply complete_refusal_same]; set_solver|exact Hc].
  - apply cleared_frame.
  - intros [_ Hs]. eapply same_weaken; [|exact Hs]. set_solver.
  - destruct r as [d|e].
    + intros (_ & c2 & Hd & ->). eapply same_trans; [by eapply durable_frame|by apply clear_frame].
    + intros [[-> _]|(_ & [Hk|(c2 & n & Hd & ->)])]; [apply same_refl|by eapply kept_frame|].
      eapply same_trans; [by eapply durable_frame|apply clear_frame, take_subseteq].
  - intros [_ ->]. apply same_refl.
Qed.

Lemma settle_sound md c hw rv slot d c' c0 :
  v_attempt c = Ok None → settle_post md c slot (Ok d) c' → disposition_sound c0 hw rv d c'.
Proof.
  intros Ha [(-> & Hr & ->)|(q & o & c2 & Hq & Hc & -> & ->)].
  - simpl. split_and!; [done|done|by apply v_request_none].
  - assert (Hat : v_attempt (delete_all REQ_KEYS c2) = Ok None).
    { rewrite <- Ha. apply (attempt_same (REPORT_SCOPE ++ REQ_KEYS)); [set_solver|].
      eapply same_trans; [eapply same_weaken; [|by eapply settle_case_same]; set_solver|].
      apply same_delete_all; [set_solver|apply same_refl]. }
    destruct Hc; cbn [disposition_sound settled_as]; try (split_and!; [done|done|by key_simpl]).
    split; [done|]. match goal with H : reported_why _ _ _ |- _ => destruct H as [[Hb Hi] _] end.
    eexists. split; key_simpl; [done|exact Hi].
Qed.

Lemma cleared_sound md c hw rv slot d c' c0 :
  cleared_post md c slot (Ok d) c' → disposition_sound c0 hw rv d c'.
Proof.
  intros [(e & n & ? & _)|Hs]; [done|]. eapply settle_sound; [|exact Hs]. apply cleared_no_attempt.
Qed.

Lemma reported_durable c id l al c2 :
  (al = true → reported c id) → rollback_durable c id l al c2 → reported c2 id.
Proof.
  intros Hal [Hd _]. destruct al; [|by destruct Hd as (_ & _ & [? _])].
  eapply reported_same; [..|exact Hd|by apply Hal]; in_keys.
Qed.

Lemma sequence_sound md c hw rv r d c' :
  v_records c = Ok r → sequence_post md c hw rv (boot_action hw rv r) (Ok d) c' →
  disposition_sound c hw rv d c'.
Proof.
  intros Hr Hs. destruct (v_records_attempt _ _ Hr) as (Ha & _ & _ & Hp).
  unfold boot_action in Hs. destruct (br_attempt r) as [a|] eqn:Ea; cbn [option_map] in Hs;
    [|cbn [reconcile sequence_post] in Hs; by eapply settle_sound].
  pose proof (reconcile_verdict (sa_record a) (boot_facts hw rv r)) as Hv.
  destruct Hv as [Hsl Hpi Hst|Hsl Hpi Hst|Hsl Hpi Hst|Hsl Hst Hpi|Hsl He|Hsl He Hu|Hsl He Hu];
    cbn [sequence_post] in Hs.
  - destruct Hs as [[= ->] Hc]. unfold promised_image in Hpi. simpl in *.
    split_and!; [done|destruct Hc as [->|[_ ->]]; solve_same|]. exists a. split_and!; naive_solver.
  - destruct rv as [v|]; [destruct Hs as [(e & ? & _)|Hs]; [done|]|]; by eapply cleared_sound.
  - destruct Hs as [[= ->] Hc]. unfold promised_image in Hpi. simpl in *.
    split_and!; [done|done|]. exists a. split_and!; [done|done|]. intros [? ?]. apply Hpi. split; congruence.
  - by eapply cleared_sound.
  - destruct Hs as (-> & c2 & Hd & ->). split; [apply cleared_no_attempt|].
    exists (attempt_id (sa_record a)).
    assert (Hrep : reported c2 (attempt_id (sa_record a))).
    { eapply reported_durable; [|exact Hd]. simpl. intros Ht. apply persisted_reported. congruence. }
    destruct Hrep as [H1 H2]. split; by key_simpl.
  - by destruct Hs as [[= ->] ->].
  - by eapply cleared_sound.
Qed.

(** what the outcome of a boot says is true of the records, on every run.  Settled: no attempt
    and no request are left; reported: the attempt is gone and a report with an id is pending;
    awaiting the health check: the promised image runs unverified from the attempt's slot and only
    the activation mark was written; roll back now: another image runs unverified from the
    attempt's slot and the attempt is kept.  Mark-valid is refused exactly for a roll back and a
    fail-closed boot, admission is open only when the records allow it, and no boot touches the id
    counter or the epoch. *)
Lemma boot_outcome_sound {K} `{HO : OtaKv K} `{HK : !KvContract K}
    hw rv (s : OtaStore K) (Hok : kv_ok (kv s)) :
  ∃ o s', reconcile_boot (E:=Empty_set) (Ok hw) rv s = (Ok o, s') ∧ kv_ok (kv s') ∧
    disposition_sound (cont s) hw rv (bo_disposition o) (cont s') ∧
    same_except BOOT_SCOPE (cont s) (cont s') ∧
    (bo_refuse_mark_valid o = true ↔
       bo_disposition o = BD_RollBackNow ∨ ∃ f, bo_disposition o = BD_FailedClosed f) ∧
    (bo_admission_open_at_boot o = true →
       hw_running_state hw ≠ SPendingVerify ∧ v_admission (cont s') = Open).
Proof.
  pose proof (sat_run Faulty _ (cont s) _ _ s
    (sat_reconcile_boot (E:=Empty_set) Faulty (cont s) hw rv (or_intror eq_refl)) Hok eq_refl) as H.
  assert (Hflags : ∀ c d act o, outcome_of Faulty c (Some hw) d act o →
    bo_disposition o = d ∧ (bo_refuse_mark_valid o = true ↔
       d = BD_RollBackNow ∨ ∃ f, d = BD_FailedClosed f) ∧
    (bo_admission_open_at_boot o = true → hw_running_state hw ≠ SPendingVerify ∧ v_admission c = Open)).
  { intros c d act o (-> & _ & _ & Had & _ & -> & _). split_and!; [done| |].
    - destruct d; simpl; naive_solver.
    - intros Hop. destruct (Had Hop) as (Hn%negb_true_iff%bool_decide_eq_false & _ & ?). done. }
  destruct (reconcile_boot (Ok hw) rv s) as [[o|[]] s'].
  destruct H as (Hok' & _ & [[Hc (e & _ & Ho)]|(r & d & Hr & Hs & Ho)]); [done| |];
    exists o, s'; apply Hflags in Ho as (Hd & Hm & Had); rewrite Hd.
  - split_and!; try done. rewrite Hc. apply same_refl.
  - split_and!; try done; [|by eapply sequence_frame].
    destruct d as [d|e]; [by eapply sequence_sound|done].
Qed.

(** The promised image on its first, unverified boot. *)
Lemma boot_outcome_sound_witness :
  let hw := mkHw slot1 SPendingVerify (US_Present slot0 SValid) in
  ∃ o s', reconcile_boot (E:=Empty_set) (Ok hw) (Some v120) (sample m_attempt None) = (Ok o, s') ∧
    disposition_sound m_attempt hw (Some v120) (bo_disposition o) (cont s').
Proof.
  intros hw. destruct (boot_outcome_sound hw (Some v120) (sample m_attempt None))
    as (o & s' & Hrun & _ & Hd & _); [sample_ok|eauto].
Defined.
