(* ===== verification/StoreProps.v ===== *)
(** * StoreProps: the guarantees of the record store

    Each theorem is about one run from an arbitrary store over any backend that
    meets the contract, so it covers power loss after any commit and any pattern
    of transient faults. *)
From S2P Require Import Prelude Text Version Decision Kv FaultKv Reason KvLogic Store StoreViews StoreAttempt StoreReport BootRecovery Samples.
Open Scope Z_scope.

Section props.
Context {K : Type} `{HO : OtaKv K} `{HK : !KvContract K}.

(** C3: [begin_attempt] is atomic under faults and power loss.  On success the admission was open, the id
    is new and non-zero, the whole record reads back as the attempt that was begun and blocks the
    next admission, and nothing outside the attempt's keys, the counter and the epoch changed.  On any
    failure either nothing was written, or no attempt is visible, or the complete record is: a partial
    attempt is never seen. *)
Theorem begin_attempt_crash_safe v slot inv (s : OtaStore K) :
  kv_ok (kv s) → wf_version v →
  let '(r, s') := begin_attempt v slot inv s in
  same_except ATTEMPT_SCOPE (cont s) (cont s') ∧
  match r with
  | Ok id =>
      v_admission (cont s) = Open ∧ is_u32 id ∧ id ≠ 0 ∧
      v_attempt (cont s') = Ok (Some (mkStored (mkAttempt id (Some v) slot false false inv) None)) ∧
      v_admission (cont s') = Blocked AttemptUnresolved
  | Err _ =>
      cont s' = cont s ∨
      v_admission (cont s) = Open ∧
        (¬ committed (cont s') ∨
         ∃ id, v_attempt (cont s') =
               Ok (Some (mkStored (mkAttempt id (Some v) slot false false inv) None)))
  end.
Proof.
  intros Hok Hv. pose proof (sat_run Faulty _ (cont s) _ _ s
    (sat_begin_attempt Faulty (cont s) v slot inv Hv) Hok eq_refl) as H.
  destruct (begin_attempt v slot inv s) as [[id|e] s']; destruct H as (_ & _ & H); try done.
  - destruct H as (Ho & Hf & label & c1 & Hl & Hid & Hw & Hs).
    pose proof (id_reserved_same _ _ _ Hid) as Hs1.
    destruct (id_reserved_fresh _ _ _ Hid) as (Hu & Hz & _).
    split; [apply (same_trans _ _ c1); [solve_same|eapply same_weaken; [|exact Hs]; set_solver]|].
    split_and!; try done; [by eapply attempt_written_view|].
    destruct Hw as (H1 & H2 & _). unfold v_admission, v_attempt_exists, v_str.
    rewrite H1, H2. simpl. by destruct (v_armed (cont s')) as [[]|], (v_flag (cont s') RB).
  - destruct H as [[-> _]|(Ho & Hf & (label & Hl & Hs & Ht) & _)]; [split; [apply same_refl|by left]|].
    split; [done|]. right. split; [done|].
    destruct Ht as [?|[id Hw]]; [by left|]. right. exists id. by eapply attempt_written_view.
Qed.

(** attempt ids are never reused while a record still carries one.  [next_attempt_id] returns a
    non-zero u32 above every id stored in the counter, the attempt, the report and the request, unless
    the 32-bit counter is exhausted; the id is durable in the counter before it is returned; and only the
    counter and the epoch are written, on failure too. *)
Lemma next_attempt_id_fresh (s : OtaStore K) :
  kv_ok (kv s) →
  let '(r, s') := next_attempt_id s in
  same_except [ATT_EPOCH; ATT_CTR] (cont s) (cont s') ∧
  match r with
  | Ok id =>
      is_u32 id ∧ id ≠ 0 ∧ cont s' !! ATT_CTR = Some (VU32 id) ∧ is_Some (cont s' !! ATT_EPOCH) ∧
      ∃ floor, v_highest (cont s) ID_KEYS 0 = Ok floor ∧
        (floor < u32_max → id = floor + 1 ∧
           ∀ k n, k ∈ ID_KEYS → cont s !! k = Some (VU32 n) → n < id)
  | Err e => True
  end.
Proof.
  intros Hok. pose proof (sat_run Faulty _ (cont s) _ _ s
    (sat_next_id Faulty (cont s)) Hok eq_refl) as H.
  destruct (next_attempt_id s) as [[id|e] s']; destruct H as (_ & _ & H); try done.
  - split; [by eapply id_reserved_same|]. destruct (id_reserved_fresh _ _ _ H) as (? & ? & ?).
    destruct H as (c1 & fl & _ & He & _ & _ & Hc). rewrite Hc. split_and!; try done; key_simpl; auto.
  - split; [|done]. destruct H as [H _]. by apply id_partial_same.
Qed.

(** [report_rollback] never loses a rollback.  Whatever happens, the attempt is still recorded
    unless the report is durable and pending for its id and the version left behind is refused; on
    success the attempt is gone and both are durable; a pending report of another attempt is never
    altered and stops the operation before any write. *)
Lemma report_rollback_no_loss id left_ (s : OtaStore K) :
  kv_ok (kv s) → (∀ v, left_ = Some v → wf_version v) →
  let '(r, s') := report_rollback id left_ false s in
  (v_attempt (cont s') = v_attempt (cont s) ∨ reported (cont s') id ∧ left_refused left_ (cont s')) ∧
  (r = Ok tt → reported_why (cont s') id (att_why (cont s)) ∧ left_refused left_ (cont s') ∧
               v_attempt (cont s') = Ok None) ∧
  (foreign_report (cont s) id → cont s' = cont s ∧ ∃ e, r = Err e).
Proof.
  intros Hok Hwf. pose proof (sat_run Faulty _ (cont s) _ _ s
    (sat_report_rollback Faulty (cont s) id left_ false Hwf (or_intror eq_refl)) Hok eq_refl) as H.
  assert (Hpre : ∀ c2 n, rollback_durable (cont s) id left_ false c2 →
    reported_why (delete_all (take n CLEAR_KEYS) c2) id (att_why (cont s)) ∧
    left_refused left_ (delete_all (take n CLEAR_KEYS) c2) ∧ ¬ foreign_report (cont s) id).
  { intros c2 n [(Hnf & _ & (H1 & H2) & H3) Hl]. pose proof (clear_prefix_same n c2) as Hs.
    split_and!; [|destruct left_; [|done]; simpl in *; by rewrite Hs by in_keys|done].
    repeat split; by rewrite Hs by in_keys. }
  destruct (report_rollback id left_ false s) as [[[]|e] s']; destruct H as (_ & _ & H); try done.
  - destruct H as (c2 & Hd & Hc). rewrite Hc. destruct (Hpre c2 7%nat Hd) as ([Hr Hw] & Hl & Hnf).
    change (take 7 CLEAR_KEYS) with CLEAR_KEYS in *. split_and!; [by right| |done].
    intros _. split_and!; [done|done|apply cleared_no_attempt].
  - destruct H as [(-> & _ & _)|(_ & [Hk|(c2 & n & Hd & Hc)])].
    + split_and!; [by left|done|]. intros _. split; [done|by exists e].
    + split_and!; [left|done|].
      * destruct Hk as (Hs & _). eapply attempt_same; [|exact Hs]. set_solver.
      * intros Hf. destruct Hk as (_ & _ & [->|[Hnf _]]); [by split; eauto|done].
    + rewrite Hc. destruct (Hpre c2 n Hd) as ([Hr Hw] & Hl & Hnf). split_and!; [by right|done|done].
Qed.

(** a delivery mark affects exactly the report it names.  [mark_report_delivered id] clears the pending
    flag only when the pending report carries [id]; any other record is untouched, on every path. *)
Lemma mark_report_delivered_exact id (s : OtaStore K) :
  kv_ok (kv s) →
  let '(r, s') := mark_report_delivered id s in
  (cont s' = cont s ∨ reported (cont s) id ∧ cont s' = <[RB := VU8 0]> (cont s)) ∧
  match r with
  | Ok Marked => reported (cont s) id ∧ v_flag (cont s') RB = Ok false
  | Ok NotPending => cont s' = cont s ∧ ∀ i, ¬ reported (cont s) i
  | Ok (OtherReport o) => cont s' = cont s ∧ reported (cont s) o ∧ o ≠ id
  | Err _ => True
  end.
Proof.
  intros Hok. pose proof (sat_run Faulty _ (cont s) _ _ s
    (sat_mark_delivered Faulty (cont s) id) Hok eq_refl) as H.
  destruct (mark_report_delivered id s) as [[d|e] s']; destruct H as (_ & _ & H); try done.
  - destruct d as [| |o].
    + destruct H as [Hr Hc]. split; [by right|]. split; [done|]. rewrite Hc.
      unfold v_flag, v_u8. by key_simpl.
    + destruct H as [Hc H]. split; [by left|]. split; [done|]. intros i [H1 H2].
      destruct H as [H|H]; [by apply v_flag_false in H|congruence].
    + destruct H as (Hc & (_ & o' & Ho' & Hne) & Hr). split; [by left|]. split_and!; [done|done|].
      destruct Hr as [_ Hr]. congruence.
  - split; [|done]. destruct H as [[? _]|(_ & ? & ?)]; auto.
Qed.

(** a noted rollback can be withdrawn.  If [note_rollback] wrote a reason and no fault happens,
    [withdraw_rollback] with its token leaves no rollback intent of its own behind: the attempt, its
    reason, the request, the report and the refusal read as before. *)
Theorem note_withdraw_roundtrip why slot (s : OtaStore K) n s1 :
  kv_ok (kv s) → healthy (kv s) →
  note_rollback why slot s = (Ok (RN_Written n), s1) →
  ∃ s2, withdraw_rollback n s1 = (Ok tt, s2) ∧
    same_except NOTE_SCOPE (cont s) (cont s2) ∧ v_request (cont s2) = v_request (cont s) ∧
    v_attempt (cont s2) = v_attempt (cont s).
Proof.
  intros Hok Hh Hrun. pose proof (sat_run Healthy _ (cont s) _ _ s
    (sat_note_rollback Healthy (cont s) why slot) Hok eq_refl (λ _, Hh)) as H.
  rewrite Hrun in H. destruct H as (Hok1 & Hh1 & H). specialize (Hh1 eq_refl).
  pose proof (sat_run Healthy _ (cont s1) _ _ s1
    (sat_withdraw Healthy (cont s1) n) Hok1 eq_refl (λ _, Hh1)) as H2.
  assert (Hno : ∀ e, ¬ transient Healthy e) by (intros e; apply transient_healthy).
  destruct (target n) as [sl|sl id] eqn:Et.
  - destruct H as (-> & Hsl & Hw & Hc1).
    assert (Hsl1 : v_attempt_slot (cont s1) = Ok (Some slot)).
    { rewrite <- Hsl, Hc1. unfold v_attempt_slot, v_str. by key_simpl. }
    destruct (withdraw_rollback n s1) as [[[]|e] s2]; destruct H2 as (_ & _ & H2); try done.
    + exists s2. split; [done|]. assert (cont s2 = cont s) as ->; [|by split_and!].
      destruct H2 as [[_ Hc2]|[? _]]; [|done]. rewrite Hc2, Hc1, delete_insert_eq. by apply delete_id.
    + destruct H2 as [[?|?] _]; [by edestruct Hno|congruence].
  - destruct H as (-> & Hne & Hun & Hs1 & from & fl & Hl & _ & _ & Hw).
    pose proof (request_written_view _ _ _ _ slot (slot_label_roundtrip _ _ Hl) Hw) as Hv.
    destruct (withdraw_rollback n s1) as [[[]|e] s2]; destruct H2 as (_ & _ & H2); try done.
    + exists s2. split; [done|]. destruct H2 as [[_ Hc2]|[Hn _]]; [|by apply Hn in Hv].
      assert (Hs2 : same_except NOTE_SCOPE (cont s) (cont s2)).
      { eapply same_trans; [exact Hs1|]. rewrite Hc2. apply same_delete_all; [|apply same_refl].
        unfold REQ_KEYS, NOTE_SCOPE. set_solver. }
      split_and!; [done| |eapply attempt_same; [|exact Hs2]; set_solver].
      rewrite (proj1 (unarmed_request _ Hun)). apply unarmed_request. rewrite Hc2. by key_simpl.
    + destruct H2 as [[?|?] _]; [by edestruct Hno|congruence].
Qed.

(** settling a request never loses a rollback that happened.  When the requester's slot is not the
    running one, every run leaves the request armed or an undelivered or matching report behind; when
    it completes, the request is gone, and what it answers says which; a request of the running slot is
    dropped without a report. *)
Lemma settle_request_no_loss slot q (s : OtaStore K) :
  kv_ok (kv s) → v_request (cont s) = Ok (Some q) →
  let '(r, s') := settle_request slot s in
  let covered := cont s' !! RB_ID = Some (VU32 (rq_id q)) ∨ foreign_report (cont s') (rq_id q) in
  match r with
  | Ok o =>
      cont s' !! RQ_FROM = None ∧
      (rq_from q ≠ slot → covered) ∧
      (o = DroppedNotRolledBack ↔ rq_from q = slot) ∧
      (o = Reported → reported_why (cont s') (rq_id q) (rq_why q)) ∧
      (o = DroppedNotRolledBack → same_except REQ_KEYS (cont s) (cont s'))
  | Err _ => v_request (cont s') = Ok (Some q) ∨ rq_from q = slot ∨ covered
  end.
Proof.
  intros Hok Hq. pose proof (sat_run Faulty _ (cont s) _ _ s
    (sat_settle_request Faulty (cont s) slot (or_intror eq_refl)) Hok eq_refl) as H.
  assert (Hcov : ∀ c2 n,
    (c2 !! RB_ID = Some (VU32 (rq_id q)) ∨ foreign_report c2 (rq_id q)) →
    delete_all (take n REQ_KEYS) c2 !! RB_ID = Some (VU32 (rq_id q)) ∨
    foreign_report (delete_all (take n REQ_KEYS) c2) (rq_id q)).
  { intros c2 n Hc. pose proof (request_prefix_same n c2) as Hs. unfold foreign_report.
    by rewrite !Hs by in_keys. }
  destruct (settle_request slot s) as [[o|e] s']; destruct H as (_ & _ & H); try done.
  - destruct H as [(_ & Hn & _)|(q' & c2 & Hq' & Hc & Hc')]; [congruence|].
    rewrite Hq in Hq'. injection Hq' as <-. rewrite Hc'. split_and!.
    + by key_simpl.
    + intros Hne. apply (Hcov c2 3%nat). by eapply settle_case_covered.
    + destruct Hc; naive_solver.
    + intros ->. inversion Hc as [| | | |? ? ? ? ? [[H1 H2] H3]]; subst.
      repeat split; by key_simpl.
    + intros ->. inversion Hc; subst. apply same_delete_all; [done|apply same_refl].
  - destruct H as [[Hc _]|(_ & q' & Hq' & Ht)]; [left; by rewrite Hc|].
    rewrite Hq in Hq'. injection Hq' as <-. destruct Ht as [(Hs & _)|(o & c2 & n & Hc & Hc')].
    + left. rewrite <- Hq. eapply request_same; [..|exact Hs]; in_keys.
    + destruct (decide (rq_from q = slot)) as [|Hne]; [by right; left|]. right. right. rewrite Hc'.
      apply (Hcov c2 n). by eapply settle_case_covered.
Qed.
End props.

(** ** Closed instances *)

(** Power loss after the fourth commit of a fresh [begin_attempt]. *)
Lemma begin_attempt_crash_safe_witness :
  let s := sample ∅ (Some 4) in
  same_except ATTEMPT_SCOPE ∅ (cont (begin_attempt v120 slot1 false s).2) ∧
  ¬ committed (cont (begin_attempt v120 slot1 false s).2).
Proof.
  intros s. pose proof (begin_attempt_crash_safe v120 slot1 false s) as H.
  split; [|sample_ok].
  destruct (begin_attempt v120 slot1 false s) as [r s']. apply H; [sample_ok|].
  vm_compute. repeat split; discriminate.
Defined.

(** A counter behind the id of a stored report. *)
Lemma next_attempt_id_fresh_witness :
  let s := sample (<[RB_ID := VU32 41]> (<[ATT_CTR := VU32 3]> ∅)) None in
  ∃ id s', next_attempt_id s = (Ok id, s') ∧ id = 42 ∧ id ≠ 0.
Proof.
  intros s. pose proof (next_attempt_id_fresh s) as H.
  destruct (next_attempt_id s) as [[id|e] s'] eqn:E; vm_compute in E; [|discriminate].
  destruct H as (_ & _ & Hz & _); [sample_ok|].
  exists id, s'. split; [reflexivity|]. split; [congruence|exact Hz].
Defined.

(** Power loss after the report's id was written, before the attempt is cleared. *)
Lemma report_rollback_no_loss_witness :
  let s' := (report_rollback 7 (Some v120) false (sample m_attempt (Some 4))).2 in
  v_attempt (cont s') = v_attempt m_attempt ∨ reported (cont s') 7 ∧ left_refused (Some v120) (cont s').
Proof.
  pose proof (report_rollback_no_loss 7 (Some v120) (sample m_attempt (Some 4))) as H.
  intros s'. subst s'. destruct (report_rollback _ _ _ _) as [r s'].
  apply H; [sample_ok|]. intros v [= <-]. vm_compute. repeat split; discriminate.
Defined.

(** The mark for another id leaves the pending report alone. *)
Lemma mark_report_delivered_exact_witness :
  let s := sample (<[RB := VU8 1]> (<[RB_ID := VU32 7]> ∅)) None in
  ∃ s', mark_report_delivered 8 s = (Ok (OtherReport 7), s') ∧ cont s' = cont s.
Proof.
  intros s. pose proof (mark_report_delivered_exact 8 s) as H.
  destruct (mark_report_delivered 8 s) as [r s'] eqn:E. vm_compute in E.
  injection E as <- <-. eexists. split; [reflexivity|]. apply H. sample_ok.
Defined.

(** An operator rollback requested from [ota_0] and withdrawn. *)
Lemma note_withdraw_roundtrip_witness :
  let s := sample ∅ None in
  ∃ n s1 s2, note_rollback RR_Operator slot0 s = (Ok (RN_Written n), s1) ∧
    withdraw_rollback n s1 = (Ok tt, s2) ∧ v_request (cont s2) = Ok None.
Proof.
  intros s.
  destruct (note_rollback RR_Operator slot0 s) as [r s1] eqn:E. pose proof E as E'.
  vm_compute in E'. injection E' as Hr _. subst r.
  destruct (note_withdraw_roundtrip RR_Operator slot0 s (mkNoted (NT_Request slot0 1)) s1) as (s2 & Hw & _ & Hq & _);
    [sample_ok|sample_ok|exact E|].
  eexists _, s1, s2. split; [reflexivity|]. split; [exact Hw|exact Hq].
Defined.

(** The request of [ota_1], settled while [ota_0] runs. *)
Lemma settle_request_no_loss_witness :
  let s := sample (<[RQ_FROM := VStr "ota_1"]> (<[RQ_WHY := VStr "operator"]>
             (<[RQ_ID := VU32 9]> ∅))) None in
  ∃ s', settle_request slot0 s = (Ok Reported, s') ∧ reported_why (cont s') 9 "operator".
Proof.
  intros s. pose proof (settle_request_no_loss slot0 (mkRequest 9 "operator" slot1) s) as H.
  destruct (settle_request slot0 s) as [r s'] eqn:E. pose proof E as E'. vm_compute in E'.
  injection E' as Hr _. subst r. exists s'. split; [reflexivity|].
  destruct H as (_ & _ & _ & Hrep & _); [sample_ok|vm_compute; reflexivity|].
  apply Hrep. reflexivity.
Defined.
