(* ===== verification/StoreOps.v ===== *)
(** * StoreOps: record sequences of the runtime ([ota/runtime/store_ops.rs])

    Operations that need more than one store call; each runs inside one store
    lock.  [catch] is the source's [match] on a store call's [Result]. *)
From S2P Require Import Prelude Text Version Decision Kv Reason KvLogic Store Boot.
Open Scope Z_scope.

Definition blocked_reason (by_ : BlockedBy) : FailReason :=
  match by_ with
  | AttemptUnresolved => FR_AttemptUnresolved
  | ReportPending => FR_ReportPending
  end.

Record ArmedRollback := mkArmed {
  ao_noted : option RollbackNoted; ao_refusal : option (option Version) }.

Definition ArmedRollback_wrote_reason (a : ArmedRollback) : bool := bool_decide (is_Some (ao_noted a)).
Definition ArmedRollback_wrote_refusal (a : ArmedRollback) : bool := bool_decide (is_Some (ao_refusal a)).

Record Undone := mkUndone {
  ud_refusal : option (result StoreError unit); ud_reason : option (result StoreError unit) }.

Definition Undone_is_clean (u : Undone) : bool :=
  negb (match ud_refusal u with Some (Err _) => true | _ => false end) &&
  negb (match ud_reason u with Some (Err _) => true | _ => false end).

Inductive CompletionTry := CT_Completed | CT_Gone | CT_StillFailing.

Inductive RepairError := RE_Capped | RE_Store (e : StoreError).

Definition RepairError_reason (e : RepairError) : FailReason := FR_RepairFailed.

Inductive FailedSettle :=
| FS_Settled (o : FailedDownload) | FS_HardwareUnreadable (e : HardwareReadError)
| FS_Store (e : StoreError).

Section ops.
Context {K : Type} `{HO : OtaKv K}.

Definition rollback_arm (running_slot : SlotId) (running : Version) :
    M (OtaStore K) FailReason ArmedRollback :=
  adm ← admission;
  match adm with
  | Blocked by_ => throw (blocked_reason by_)
  | Open =>
      n ← catch (note_rollback RR_Operator running_slot);
      match n with
      | Err SE_InvalidSlot => throw FR_RollbackUnavailable
      | Err _ => throw FR_AttemptNotPersisted
      | Ok note =>
          let noted := match note with RN_Written token => Some token | RN_KeptFirst => None end in
          r ← catch (refuse_version running);
          match r with
          | Ok (RF_Written previous) => mret (mkArmed noted (Some previous))
          | Ok RF_AlreadyRefused => mret (mkArmed noted None)
          | Err _ =>
              _ ← match noted with
                  | Some token => _ ← catch (withdraw_rollback token); mret tt
                  | None => mret tt
                  end;
              throw FR_AttemptNotPersisted
          end
      end
  end.

Definition rollback_undo {E} (armed : ArmedRollback) : M (OtaStore K) E Undone :=
  refusal ← match ao_refusal armed with
            | Some previous => r ← catch (restore_refusal previous); mret (Some r)
            | None => mret None
            end;
  reason ← match ao_noted armed with
           | Some token => r ← catch (withdraw_rollback token); mret (Some r)
           | None => mret None
           end;
  mret (mkUndone refusal reason).

Definition ack_delivered (attempt_id : Z) : M (OtaStore K) StoreError Delivery :=
  mark_report_delivered attempt_id.

Definition retry_completion {E} (running : Version) : M (OtaStore K) E CompletionTry :=
  a ← catch read_attempt;
  match a with
  | Ok None => mret CT_Gone
  | Ok (Some stored) =>
      if bool_decide (ar_version (sa_record stored) = Some running) then
        c ← catch (complete_attempt running);
        mret (match c with Ok _ => CT_Completed | Err _ => CT_StillFailing end)
      else mret CT_Gone
  | Err _ => mret CT_StillFailing
  end.

(** The [while repaired < max_iterations] loop; [budget] is [max_iterations - repaired]. *)
Fixpoint repair_loop (budget : nat) (repaired : Z) : M (OtaStore K) RepairError Z :=
  match budget with
  | S budget =>
      r ← catch repair_corrupt;
      match r with
      | Ok (Some _) => repair_loop budget (repaired + 1)
      | Ok None => mret repaired
      | Err e => throw (RE_Store e)
      end
  | O =>
      r ← catch corrupt_present;
      match r with
      | Ok false => mret repaired
      | Ok true => throw RE_Capped
      | Err e => throw (RE_Store e)
      end
  end.

Definition repair_all (max_iterations : Z) : M (OtaStore K) RepairError Z :=
  repair_loop (Z.to_nat max_iterations) 0.

Definition failed_download {E} (hw : result HardwareReadError HardwareFacts)
    (running_version : option Version) : M (OtaStore K) E FailedSettle :=
  match hw with
  | Err e => mret (FS_HardwareUnreadable e)
  | Ok hw =>
      r ← catch (settle_failed_download hw running_version);
      mret (match r with Ok outcome => FS_Settled outcome | Err e => FS_Store e end)
  end.
End ops.
