(* ===== verification/StoreRepair.v ===== *)
(** * StoreRepair: the repair of unreadable records

    [repair_step] is the repair of the first bad record group as a function of
    the content; one repair makes its group readable and touches no other group,
    so at most five repairs are ever needed. *)
From S2P Require Import Prelude Text Version Decision Kv Reason KvLogic Store StoreViews StoreAttempt StoreReport Boot StoreOps.
Open Scope Z_scope.

(** ** The record groups *)

Definition any_bad (c : contents) (keys : list (string * KeyType)) : bool :=
  existsb (λ '(k, ty), v_bad c k ty) keys.

Definition attempt_label_bad (c : contents) : bool :=
  match v_attempt_slot c with
  | Err _ => true
  | Ok (Some _) => bool_decide (c !! ATT_ID = None)
  | Ok None => false
  end.
Definition request_label_bad (c : contents) : bool :=
  match v_request c with Err _ => true | Ok _ => false end.

Definition attempt_bad (c : contents) : bool := any_bad c ATTEMPT_KEYS || attempt_label_bad c.
Definition request_bad (c : contents) : bool := any_bad c REQUEST_KEYS || request_label_bad c.
Definition report_bad (c : contents) : bool := any_bad c REPORT_KEYS.
Definition counter_bad (c : contents) : bool := any_bad c COUNTER_KEYS.
Definition refusal_bad (c : contents) : bool := v_bad c REJ_VER KT_Str.

(** ** One repair *)

Definition repair_report (c : contents) : contents :=
  let c1 := if v_bad c RB_ID KT_U32 then delete RB_ID c else c in
  if v_bad c1 RB KT_U8 then <[RB := VU8 1]> c1 else c1.

Definition OTHER_IDS : list string := [ATT_ID; RB_ID; RQ_ID].

Definition repair_ids (c : contents) : contents :=
  let c1 := delete ATT_EPOCH c in
  if v_bad c1 ATT_CTR KT_U32 then
    let h := default 0 (result_ok (v_highest c1 OTHER_IDS 0)) in
    let c2 := delete ATT_CTR c1 in
    if 0 <? h then <[ATT_CTR := VU32 h]> c2 else c2
  else c1.

Definition repair_step (c : contents) : option (RepairedRecord * contents) :=
  if attempt_bad c then Some (RepairedAttempt, delete_all CLEAR_KEYS c)
  else if request_bad c then Some (RepairedRequest, delete_all REQ_KEYS c)
  else if report_bad c then Some (RepairedReport, repair_report c)
  else if counter_bad c then Some (RepairedCounter, repair_ids c)
  else if refusal_bad c then Some (RepairedRefusal, delete REJ_VER c)
  else None.

(** The number of bad groups. *)
Definition bad_groups (c : contents) : Z :=
  Z.b2z (attempt_bad c) + Z.b2z (request_bad c) + Z.b2z (report_bad c) +
  Z.b2z (counter_bad c) + Z.b2z (refusal_bad c).

(** ** Groups and their keys *)

Lemma v_bad_same c c' k ty : c' !! k = c !! k → v_bad c' k ty = v_bad c k ty.
Proof. intros Hk. unfold v_bad. by rewrite Hk. Qed.

Lemma attempt_bad_same ks c c' :
  (∀ k, k ∈ CLEAR_KEYS → k ∉ ks) → same_except ks c c' → attempt_bad c' = attempt_bad c.
Proof.
  intros Hk Hs. unfold attempt_bad, attempt_label_bad, any_bad, v_attempt_slot, v_str, v_bad. simpl.
  by rewrite !Hs by (apply Hk; in_keys).
Qed.

Lemma request_bad_same ks c c' :
  (∀ k, k ∈ REQ_KEYS → k ∉ ks) → same_except ks c c' → request_bad c' = request_bad c.
Proof.
  intros Hk Hs. unfold request_bad, request_label_bad, any_bad, v_request, v_str, v_u32, v_reason, v_bad.
  simpl. by rewrite !Hs by (apply Hk; in_keys).
Qed.

Lemma report_bad_same ks c c' :
  (∀ k, k ∈ REPORT_SCOPE → k ∉ ks) → same_except ks c c' → report_bad c' = report_bad c.
Proof.
  intros Hk Hs. unfold report_bad, any_bad, v_bad. simpl. by rewrite !Hs by (apply Hk; in_keys).
Qed.

Lemma counter_bad_same ks c c' :
  ATT_CTR ∉ ks → ATT_EPOCH ∉ ks → same_except ks c c' → counter_bad c' = counter_bad c.
Proof. intros H1 H2 Hs. unfold counter_bad, any_bad, v_bad. simpl. by rewrite !Hs by done. Qed.

Lemma refusal_bad_same ks c c' :
  REJ_VER ∉ ks → same_except ks c c' → refusal_bad c' = refusal_bad c.
Proof. intros H1 Hs. unfold refusal_bad, v_bad. by rewrite !Hs by done. Qed.

Lemma repair_report_frame c : same_except [RB; RB_ID] c (repair_report c).
Proof. unfold repair_report. repeat case_match; solve_same. Qed.

Lemma repair_ids_frame c : same_except [ATT_CTR; ATT_EPOCH] c (repair_ids c).
Proof. unfold repair_ids. repeat case_match; solve_same. Qed.

Lemma repair_report_clean c : report_bad (repair_report c) = false.
Proof.
  unfold report_bad, any_bad, repair_report, v_bad. simpl.
  destruct (c !! RB_ID) as [[]|] eqn:Ei, (c !! RB) as [[]|] eqn:Er; simpl;
    repeat (key_simpl; rewrite ?Ei, ?Er; simpl); done.
Qed.

Lemma repair_ids_clean c : counter_bad (repair_ids c) = false.
Proof.
  unfold repair_ids. destruct (v_bad (delete ATT_EPOCH c) ATT_CTR KT_U32) eqn:E.
  - destruct (0 <? _); unfold counter_bad, any_bad, v_bad; simpl; by key_simpl.
  - unfold counter_bad, any_bad, COUNTER_KEYS. cbn [existsb]. rewrite E. unfold v_bad. by key_simpl.
Qed.

(** One repair removes exactly one bad group. *)
Lemma repair_step_count c :
  match repair_step c with
  | Some (_, c') => bad_groups c' = bad_groups c - 1
  | None => bad_groups c = 0
  end.
Proof.
  assert (Hcl : same_except CLEAR_KEYS c (delete_all CLEAR_KEYS c))
    by (apply same_delete_all; [done|apply same_refl]).
  assert (Hrq : same_except REQ_KEYS c (delete_all REQ_KEYS c))
    by (apply same_delete_all; [done|apply same_refl]).
  assert (Hrj : same_except [REJ_VER] c (delete REJ_VER c)) by solve_same.
  pose proof (repair_report_frame c) as Hrp. pose proof (repair_ids_frame c) as Hct.
  unfold repair_step, bad_groups. destruct (attempt_bad c) eqn:E1.
  { rewrite (request_bad_same CLEAR_KEYS _ _ ltac:(set_solver) Hcl), (report_bad_same CLEAR_KEYS _ _ ltac:(set_solver) Hcl),
      (counter_bad_same CLEAR_KEYS _ _ ltac:(in_keys) ltac:(in_keys) Hcl),
      (refusal_bad_same CLEAR_KEYS _ _ ltac:(in_keys) Hcl).
    replace (attempt_bad (delete_all CLEAR_KEYS c)) with false; [cbn [Z.b2z]; lia|].
    unfold attempt_bad, attempt_label_bad, any_bad, v_attempt_slot, v_str, v_bad. simpl. by key_simpl. }
  destruct (request_bad c) eqn:E2.
  { rewrite (attempt_bad_same REQ_KEYS _ _ ltac:(set_solver) Hrq), (report_bad_same REQ_KEYS _ _ ltac:(set_solver) Hrq),
      (counter_bad_same REQ_KEYS _ _ ltac:(in_keys) ltac:(in_keys) Hrq),
      (refusal_bad_same REQ_KEYS _ _ ltac:(in_keys) Hrq), E1.
    replace (request_bad (delete_all REQ_KEYS c)) with false; [cbn [Z.b2z]; lia|].
    unfold request_bad, request_label_bad, any_bad, v_request, v_str, v_bad. simpl. by key_simpl. }
  destruct (report_bad c) eqn:E3.
  { rewrite (attempt_bad_same [RB; RB_ID] _ _ ltac:(set_solver) Hrp), (request_bad_same [RB; RB_ID] _ _ ltac:(set_solver) Hrp),
      (counter_bad_same [RB; RB_ID] _ _ ltac:(in_keys) ltac:(in_keys) Hrp),
      (refusal_bad_same [RB; RB_ID] _ _ ltac:(in_keys) Hrp), E1, E2, repair_report_clean. cbn [Z.b2z]. lia. }
  destruct (counter_bad c) eqn:E4.
  { rewrite (attempt_bad_same [ATT_CTR; ATT_EPOCH] _ _ ltac:(set_solver) Hct), (request_bad_same [ATT_CTR; ATT_EPOCH] _ _ ltac:(set_solver) Hct),
      (report_bad_same [ATT_CTR; ATT_EPOCH] _ _ ltac:(set_solver) Hct),
      (refusal_bad_same [ATT_CTR; ATT_EPOCH] _ _ ltac:(in_keys) Hct), E1, E2, E3, repair_ids_clean. cbn [Z.b2z]. lia. }
  destruct (refusal_bad c) eqn:E5; [|done].
  rewrite (attempt_bad_same [REJ_VER] _ _ ltac:(set_solver) Hrj), (request_bad_same [REJ_VER] _ _ ltac:(set_solver) Hrj),
    (report_bad_same [REJ_VER] _ _ ltac:(set_solver) Hrj),
    (counter_bad_same [REJ_VER] _ _ ltac:(in_keys) ltac:(in_keys) Hrj), E1, E2, E3, E4.
  replace (refusal_bad (delete REJ_VER c)) with false; [cbn [Z.b2z]; lia|].
  unfold refusal_bad, v_bad. by key_simpl.
Qed.

(** ** Reading the groups *)

Lemma label_errors c : any_bad c ATTEMPT_KEYS = false →
  match v_attempt_slot c with
  | Err e => ∃ x, e = SE_Corrupt x
  | Ok (Some _) => ∃ o, v_u32 c ATT_ID = Ok o ∧ (o = None ↔ c !! ATT_ID = None)
  | Ok None => True
  end.
Proof.
  unfold any_bad, v_bad, v_attempt_slot, v_str, v_u32. simpl.
  destruct (c !! ATT_VER) as [[]|]; simpl; try done.
  destruct (c !! ATT_SLOT) as [[]|]; simpl; try done.
  destruct (slot_from_label s0) as [sl|]; [|eauto]. case_bool_decide; [eauto|].
  destruct (c !! ATT_ID) as [[]|]; simpl; try done; eauto; intros _; eexists; by split.
Qed.

Lemma request_errors c : any_bad c REQUEST_KEYS = false →
  match v_request c with Err e => ∃ x, e = SE_Corrupt x | Ok _ => True end.
Proof.
  unfold any_bad, v_bad, v_request, v_str, v_u32. simpl.
  destruct (c !! RQ_FROM) as [[]|]; simpl; try done.
  destruct (slot_from_label s); [|eauto].
  destruct (c !! RQ_ID) as [[]|]; simpl; try done; eauto.
Qed.

(** With the other groups readable, the highest stored id can be computed. *)
Lemma highest_readable c ks h :
  (∀ k, k ∈ ks → v_bad c k KT_U32 = false) → ∃ n, v_highest c ks h = Ok n.
Proof.
  unfold v_highest. revert h. induction ks as [|k ks IH]; intros h Hk; simpl; [eauto|].
  assert (Hb := Hk k ltac:(set_solver)). unfold v_bad in Hb. unfold v_u32 at 2.
  destruct (c !! k) as [[]|]; simpl in *; try done; apply IH; set_solver.
Qed.

Lemma clean_ids c : attempt_bad c = false → request_bad c = false → report_bad c = false →
  ∃ n, v_highest (delete ATT_EPOCH c) OTHER_IDS 0 = Ok n.
Proof.
  intros Ha Hq Hr. apply highest_readable. intros k Hk.
  rewrite (v_bad_same c) by (rewrite lookup_delete_ne; [done|intros <-; revert Hk; in_keys]).
  unfold attempt_bad, request_bad, report_bad, any_bad in *. simpl in *.
  repeat match goal with H : _ || _ = false |- _ => apply orb_false_iff in H as [? ?] end.
  unfold OTHER_IDS in Hk. rewrite !elem_of_cons in Hk.
  destruct Hk as [->|[->|[->|Hk]]]; [assumption..|by apply elem_of_nil in Hk].
Qed.

Section repair.
Context {K : Type} `{HO : OtaKv K} `{HK : !KvContract K}.
Implicit Types (c : contents).

(** A read-only test that answers [b] unless a transient fault is reported. *)
Definition tests (m : M (OtaStore K) StoreError bool) (c : contents) (b : bool) : Prop :=
  ∀ md, sat (K:=K) md m c (λ x c', c' = c ∧ x = b) (λ e c', c' = c ∧ transient md e).

Lemma tests_reads m (f : contents → bool) c : reads m (λ c, Ok (f c)) → tests m c (f c).
Proof.
  intros Hm md. eapply sat_reads; [exact Hm|by intros b [= <-]|by intros e [?|?]].
Qed.

Lemma tests_or a b c x y :
  tests a c x → (x = false → tests b c y) → tests (or_else a b) c (x || y).
Proof.
  intros Ha Hb md. apply sat_bind. eapply sat_mono; [apply Ha| |done].
  intros z c' [-> ->]. destruct x; [by apply sat_ret|by apply Hb].
Qed.

Lemma tests_any keys c : tests (any_corrupt keys) c (any_bad c keys).
Proof. apply (tests_reads _ (λ c, any_bad c keys)), reads_any_corrupt. Qed.

Lemma tests_corrupt k ty c : tests (corrupt_read k ty) c (v_bad c k ty).
Proof. apply (tests_reads _ (λ c, v_bad c k ty)), reads_corrupt_read. Qed.

Lemma tests_attempt_label c :
  any_bad c ATTEMPT_KEYS = false → tests attempt_label_corrupt c (attempt_label_bad c).
Proof.
  intros Hb md. pose proof (label_errors c Hb) as Hl. unfold attempt_label_corrupt, attempt_label_bad.
  apply sat_bind, (sat_catch_reads _ _ _ _ _ _ reads_attempt_slot).
  - destruct (v_attempt_slot c) as [[sl|]|e].
    + destruct Hl as (o & Ho & Hn). apply sat_bind. eapply sat_reads; [apply reads_get_u32| |].
      * intros o' Ho'. apply sat_ret. split; [done|].
        assert (o' = o) as -> by congruence. by apply bool_decide_ext.
      * intros e [?|He]; [by split|congruence].
    + by apply sat_ret.
    + destruct Hl as [x ->]. by apply sat_ret.
  - intros e (Hf & e' & ->). apply sat_throw. split; [done|]. split; eauto.
Qed.

Lemma tests_request_label c :
  any_bad c REQUEST_KEYS = false → tests request_label_corrupt c (request_label_bad c).
Proof.
  intros Hb md. pose proof (request_errors c Hb) as Hl.
  unfold request_label_corrupt, request_label_bad.
  apply sat_bind, (sat_catch_reads _ _ _ _ _ _ reads_request).
  - destruct (v_request c) as [|e]; [by apply sat_ret|]. destruct Hl as [x ->]. by apply sat_ret.
  - intros e (Hf & e' & ->). apply sat_throw. split; [done|]. split; eauto.
Qed.

Lemma tests_attempt c : tests (or_else (any_corrupt ATTEMPT_KEYS) attempt_label_corrupt) c (attempt_bad c).
Proof. apply tests_or; [apply tests_any|apply tests_attempt_label]. Qed.

Lemma tests_request c : tests (or_else (any_corrupt REQUEST_KEYS) request_label_corrupt) c (request_bad c).
Proof. apply tests_or; [apply tests_any|apply tests_request_label]. Qed.

(** [corrupt_present] is true exactly while a group is bad. *)
Lemma sat_corrupt_present md c :
  sat (K:=K) md corrupt_present c (λ b c', c' = c ∧ b = negb (bad_groups c =? 0))
    (λ e c', c' = c ∧ transient md e).
Proof.
  eapply sat_mono.
  - apply (tests_or _ _ c (any_bad c ATTEMPT_KEYS)); [apply tests_any|intros Ha].
    apply tests_or; [by apply tests_attempt_label|intros _].
    apply tests_or; [apply tests_any|intros Hr].
    apply tests_or; [by apply tests_request_label|intros _].
    apply tests_or; [apply tests_any|intros _].
    apply tests_or; [apply tests_any|intros _]. apply tests_corrupt.
  - intros b c' [-> ->]. split; [done|].
    unfold bad_groups, attempt_bad, request_bad, report_bad, counter_bad, refusal_bad.
    destruct (any_bad c ATTEMPT_KEYS), (attempt_label_bad c), (any_bad c REQUEST_KEYS),
      (request_label_bad c), (any_bad c REPORT_KEYS), (any_bad c COUNTER_KEYS), (v_bad c REJ_VER KT_Str);
      reflexivity.
  - done.
Qed.

Lemma sat_repair_ids md c :
  counter_bad c = true → (∃ n, v_highest (delete ATT_EPOCH c) OTHER_IDS 0 = Ok n) →
  sat (K:=K) md repair_counter c (λ _ c', c' = repair_ids c) (λ e _, transient md e).
Proof.
  intros Hbad [h Hh]. assert (∀ e, md = Faulty → transient md (SE_Kv e)) as Ht by (intros; split; eauto).
  unfold repair_counter. apply sat_bind.
  eapply sat_mono; [apply (tests_or _ _ c); [apply tests_corrupt|intros _; apply tests_corrupt]| |naive_solver].
  intros b c' [-> ->].
  assert (v_bad c ATT_EPOCH KT_U32 || v_bad c ATT_CTR KT_U32 = true) as ->.
  { revert Hbad. unfold counter_bad, any_bad, COUNTER_KEYS. cbn [existsb]. rewrite orb_false_r.
    by rewrite orb_comm. }
  apply sat_bind, sat_kremove; [|auto]. apply sat_bind.
  eapply sat_mono; [apply tests_corrupt| |naive_solver]. intros b c' [-> ->].
  unfold repair_ids. destruct (v_bad (delete ATT_EPOCH c) ATT_CTR KT_U32); [|by apply sat_ret].
  apply sat_bind. eapply sat_reads; [apply reads_highest_id| |].
  - intros n Hn. change (v_highest (delete ATT_EPOCH c) OTHER_IDS 0 = Ok n) in Hn. rewrite Hn. simpl.
    apply sat_bind, sat_kremove; [|auto].
    destruct (0 <? n); [|by apply sat_ret]. apply sat_kset_u32; [done|auto].
  - intros e [He|He]; [done|]. change (v_highest (delete ATT_EPOCH c) OTHER_IDS 0 = Err e) in He. congruence.
Qed.

(** Every outcome of one repair. *)
Lemma sat_repair_corrupt md c :
  sat (K:=K) md repair_corrupt c
    (λ o c', match repair_step c with
             | Some (rec, c1) => o = Some rec ∧ c' = c1
             | None => o = None ∧ c' = c
             end)
    (λ e _, transient md e).
Proof.
  assert (∀ e, md = Faulty → transient md (SE_Kv e)) as Ht by (intros; split; eauto).
  assert (Htest : ∀ {B} (m : M (OtaStore K) StoreError bool) b (f : bool → M (OtaStore K) StoreError B) Q,
    tests m c b → sat (K:=K) md (f b) c Q (λ e _, transient md e) →
    sat (K:=K) md (m ≫= f) c Q (λ e _, transient md e)).
  { intros B m b f Q Hm Hf. apply sat_bind. eapply sat_mono; [apply Hm| |naive_solver].
    by intros x c' [-> ->]. }
  unfold repair_corrupt, repair_step.
  eapply Htest; [apply tests_attempt|]. destruct (attempt_bad c) eqn:E1.
  { apply sat_bind. eapply sat_mono; [apply sat_clear| |naive_solver]. intros u c' ->. by apply sat_ret. }
  eapply Htest; [apply tests_request|]. destruct (request_bad c) eqn:E2.
  { apply sat_bind. eapply sat_mono; [apply sat_remove_request| |naive_solver].
    intros u c' ->. by apply sat_ret. }
  eapply Htest; [apply tests_any|]. fold (report_bad c). destruct (report_bad c) eqn:E3.
  { eapply Htest; [apply tests_corrupt|]. apply sat_bind. unfold repair_report.
    apply sat_mono with (Q := λ _ c', c' = if v_bad c RB_ID KT_U32 then delete RB_ID c else c)
      (X := λ e _, transient md e); [|intros u c1 ->|done].
    - destruct (v_bad c RB_ID KT_U32); [apply sat_kremove; auto|by apply sat_ret].
    - apply sat_bind. eapply sat_mono; [apply tests_corrupt| |naive_solver].
      intros b c' [-> ->]. apply sat_bind. destruct (v_bad _ RB KT_U8); [|by repeat apply sat_ret].
      apply sat_kset_u8; [by apply sat_ret|auto]. }
  eapply Htest; [apply tests_any|]. fold (counter_bad c). destruct (counter_bad c) eqn:E4.
  { apply sat_bind. eapply sat_mono; [apply sat_repair_ids; [done|by apply clean_ids]| |done].
    intros u c' ->. by apply sat_ret. }
  eapply Htest; [apply tests_corrupt|]. fold (refusal_bad c). destruct (refusal_bad c); [|by apply sat_ret].
  apply sat_bind, sat_kremove; [by apply sat_ret|auto].
Qed.

(** The content after [n] repairs. *)
Fixpoint repaired (n : nat) (c : contents) : contents :=
  match n with
  | O => c
  | S n => match repair_step c with Some (_, c') => repaired n c' | None => c end
  end.

Lemma bad_groups_range c : 0 ≤ bad_groups c ≤ 5.
Proof.
  unfold bad_groups. destruct (attempt_bad c), (request_bad c), (report_bad c), (counter_bad c),
    (refusal_bad c); simpl; lia.
Qed.

(** The loop: all groups, or the cap. *)
Lemma sat_repair_loop md budget n c :
  sat (K:=K) md (repair_loop budget n) c
    (λ k c', k = n + bad_groups c ∧ bad_groups c ≤ Z.of_nat budget ∧
             c' = repaired (Z.to_nat (bad_groups c)) c ∧ bad_groups c' = 0)
    (λ e c', e = RE_Capped ∧ Z.of_nat budget < bad_groups c ∨
             ∃ e', e = RE_Store e' ∧ transient md e').
Proof.
  revert n c. induction budget as [|budget IH]; intros n c; simpl.
  - apply sat_bind, sat_catch. eapply sat_mono; [apply sat_corrupt_present| |].
    + intros b c' [-> ->]. pose proof (bad_groups_range c).
      destruct (Z.eqb_spec (bad_groups c) 0) as [E|E]; simpl.
      * apply sat_ret. rewrite E. split_and!; [lia|lia|done|done].
      * apply sat_throw. left. split; [done|lia].
    + intros e c' [-> Ht]. apply sat_throw. eauto.
  - apply sat_bind, sat_catch. eapply sat_mono; [apply sat_repair_corrupt| |].
    + intros o c' Ho. pose proof (repair_step_count c) as Hcnt. pose proof (bad_groups_range c).
      destruct (repair_step c) as [[rec c1]|] eqn:Es; destruct Ho as [-> ->].
      * eapply sat_mono; [apply IH| |].
        -- intros k c' (-> & Hle & -> & Hz). rewrite Hcnt in *. split_and!; [lia|lia| |done].
           replace (Z.to_nat (bad_groups c)) with (S (Z.to_nat (bad_groups c - 1))).
           ++ simpl. by rewrite Es.
           ++ pose proof (bad_groups_range c1). lia.
        -- intros e c' [[-> Hlt]|?]; [left; split; [done|lia]|by right].
      * apply sat_ret. rewrite Hcnt. split_and!; [lia|lia|done|done].
    + intros e c' Ht. apply sat_throw. eauto.
Qed.
End repair.
