(* ===== verification/StoreOpsProps.v ===== *)
(** * StoreOpsProps: the guarantees of the runtime's record sequences *)
From S2P Require Import Prelude Text Version Decision Kv FaultKv Reason KvLogic Store StoreViews StoreAttempt StoreReport StoreRepair Boot BootRecovery BootSpec StoreOps Samples.
Open Scope Z_scope.

(** ** Frames of the repair *)

Definition repaired_keys (r : RepairedRecord) : list string :=
  match r with
  | RepairedAttempt => CLEAR_KEYS
  | RepairedRequest => REQ_KEYS
  | RepairedReport => [RB; RB_ID]
  | RepairedCounter => [ATT_CTR; ATT_EPOCH]
  | RepairedRefusal => [REJ_VER]
  end.

Definition group_bad (r : RepairedRecord) (c : contents) : bool :=
  match r with
  | RepairedAttempt => attempt_bad c
  | RepairedRequest => request_bad c
  | RepairedReport => report_bad c
  | RepairedCounter => counter_bad c
  | RepairedRefusal => refusal_bad c
  end.

Lemma delete_all_same ks c : same_except ks c (delete_all ks c).
Proof. apply same_delete_all; [done|apply same_refl]. Qed.

Lemma repair_step_frame c r c' :
  repair_step c = Some (r, c') → group_bad r c = true ∧ same_except (repaired_keys r) c c'.
Proof.
  unfold repair_step. destruct (attempt_bad c) eqn:E1.
  { intros [= <- <-]. split; [done|]. apply (delete_all_same CLEAR_KEYS). }
  destruct (request_bad c) eqn:E2.
  { intros [= <- <-]. split; [done|]. apply (delete_all_same REQ_KEYS). }
  destruct (report_bad c) eqn:E3; [intros [= <- <-]; split; [done|apply repair_report_frame]|].
  destruct (counter_bad c) eqn:E4; [intros [= <- <-]; split; [done|apply repair_ids_frame]|].
  destruct (refusal_bad c) eqn:E5; [|done]. intros [= <- <-]. split; [done|]. solve_same.
Qed.

Lemma group_bad_same r r' c c' :
  r ≠ r' → same_except (repaired_keys r) c c' → group_bad r' c' = group_bad r' c.
Proof.
  intros Hne Hs. destruct r'; simpl;
    first [eapply attempt_bad_same|eapply request_bad_same|eapply report_bad_same
          |eapply counter_bad_same|eapply refusal_bad_same];
    try exact Hs; destruct r; try done; simpl; first [in_keys|set_solver].
Qed.

(** Records that were readable are not touched. *)
Lemma repaired_frame r n c k :
  group_bad r c = false → k ∈ repaired_keys r → repaired n c !! k = c !! k.
Proof.
  revert c. induction n as [|n IH]; intros c Hg Hk; simpl; [done|].
  destruct (repair_step c) as [[r' c']|] eqn:E; [|done].
  apply repair_step_frame in E as [Hb Hs].
  assert (Hne : r' ≠ r) by (intros ->; congruence).
  rewrite IH; [|by rewrite (group_bad_same r' r c c')|done]. apply Hs.
  intros Hk'. destruct r, r'; try done; simpl in *; revert Hk Hk';
    unfold CLEAR_KEYS, REQ_KEYS; rewrite !elem_of_cons, ?elem_of_nil; naive_solver.
Qed.

Section ops_props.
Context {K : Type} `{HO : OtaKv K} `{HK : !KvContract K}.

(** C4: [repair_all] terminates with readable records.  Without faults it returns the number of unreadable
    groups (at most five) and leaves none, provided the budget allows that many; a smaller budget is
    reported as capped, never as a success; and a group that was readable is not changed. *)
Theorem repair_all_complete max (s : OtaStore K) :
  kv_ok (kv s) → healthy (kv s) → 0 ≤ max →
  let '(r, s') := repair_all max s in
  bad_groups (cont s) ≤ 5 ∧
  (bad_groups (cont s) ≤ max →
     r = Ok (bad_groups (cont s)) ∧ bad_groups (cont s') = 0 ∧
     ∀ g k, group_bad g (cont s) = false → k ∈ repaired_keys g → cont s' !! k = cont s !! k) ∧
  (max < bad_groups (cont s) → r = Err RE_Capped).
Proof.
  intros Hok Hh Hm. pose proof (bad_groups_range (cont s)).
  pose proof (sat_run Healthy _ (cont s) _ _ s
    (sat_repair_loop Healthy (Z.to_nat max) 0 (cont s)) Hok eq_refl (λ _, Hh)) as H1.
  unfold repair_all. destruct (repair_loop _ _ s) as [[k|e] s']; destruct H1 as (_ & _ & H1).
  - destruct H1 as (-> & Hle & Hc & Hz). split_and!; [lia| |lia].
    intros _. split_and!; [done|done|]. intros g k Hg Hk. rewrite Hc. by eapply repaired_frame.
  - destruct H1 as [[-> Hlt]|(e' & _ & Ht)]; [|by apply transient_healthy in Ht].
    split_and!; [lia|lia|done].
Qed.

(** ** Refusals *)

Lemma sat_refuse_version md c v :
  wf_version v →
  sat (K:=K) md (refuse_version v) c
    (λ n c', match n with
             | RF_AlreadyRefused => c' = c ∧ v_refused c = Ok (Some v)
             | RF_Written previous => v_refused c = Ok previous ∧
                 c' = <[REJ_VER := VStr (version_str v)]> c
             end)
    (λ e c', c' = c ∧ (transient md e ∨ v_refused c = Err e) ∨
             transient md e ∧ (c' = <[REJ_VER := VStr (version_str v)]> c ∨ c' = delete REJ_VER c)).
Proof.
  intros Hv. unfold refuse_version. apply sat_bind. eapply sat_reads; [apply reads_get_str| |].
  - intros o Ho.
    assert (Href : v_refused c = Ok (o ≫= λ s, result_ok (Version_parse s))) by (unfold v_refused; by rewrite Ho).
    destruct o as [t|]; simpl in Href |- *.
    + case_bool_decide as Hp; [apply sat_ret; split; [done|congruence]|].
      apply sat_bind, sat_kset_str; [left; auto with rn|by apply sat_ret|].
      intros Hf e. split_and!; [left|right|right]; split_and!; auto; try left; split; eauto.
    + apply sat_bind, sat_kset_str; [left; auto with rn|by apply sat_ret|].
      intros Hf e. split_and!; [left|right|right]; split_and!; auto; try left; split; eauto.
  - intros e [?|He]; left; split; auto. right. unfold v_refused. by rewrite He.
Qed.

Definition refusal_restored (previous : option Version) (c : contents) : contents :=
  match previous with
  | Some v => <[REJ_VER := VStr (version_str v)]> c
  | None => delete REJ_VER c
  end.

Lemma sat_restore_refusal md c previous :
  (∀ v, previous = Some v → wf_version v) →
  sat (K:=K) md (restore_refusal previous) c (λ _ c', c' = refusal_restored previous c)
    (λ e _, transient md e).
Proof.
  intros Hv. assert (∀ e, md = Faulty → transient md (SE_Kv e)) as Ht by (intros; split; eauto).
  destruct previous as [v|]; simpl.
  - apply sat_kset_str; [left; auto with rn|done|auto].
  - apply sat_kremove; [done|auto].
Qed.

Lemma refused_wf c v : v_refused c = Ok (Some v) → wf_version v.
Proof.
  unfold v_refused. destruct (v_str c REJ_VER) as [[t|]|]; simpl; try done.
  destruct (Version_parse t) as [w|] eqn:E; simpl; [|done]. intros [= <-]. by eapply Version_parse_wf.
Qed.

Lemma restored_view previous c : (∀ v, previous = Some v → wf_version v) →
  v_refused (refusal_restored previous c) = Ok previous.
Proof.
  intros Hv. unfold v_refused, v_str. destruct previous as [v|]; simpl; key_simpl; simpl; [|done].
  unfold version_str. by rewrite version_parse_display_ok by auto.
Qed.

(** ** [rollback_arm] *)

Lemma open_no_attempt_slot c slot : v_admission c = Open → v_attempt_slot c ≠ Ok (Some slot).
Proof.
  intros Hn%open_not_committed Hs. apply Hn. unfold v_attempt_slot, v_str in Hs. unfold committed.
  destruct (c !! ATT_VER) as [[]|], (c !! ATT_SLOT) as [[]|]; simpl in Hs; try done; eauto.
Qed.

(** The records after a successful [rollback_arm]. *)
Definition arm_written c (slot : SlotId) (running : Version) (armed : ArmedRollback) c' : Prop :=
  ∃ id from previous c1, slot_label slot = Some from ∧
    ao_noted armed = Some (mkNoted (NT_Request slot id)) ∧
    same_except NOTE_SCOPE c c1 ∧ request_written c1 id "operator" from ∧
    v_refused c = Ok previous ∧
    (ao_refusal armed = None ∧ previous = Some running ∧ c' = c1 ∨
     ao_refusal armed = Some previous ∧ c' = <[REJ_VER := VStr (version_str running)]> c1).

Lemma sat_rollback_arm md c slot running :
  wf_version running →
  sat (K:=K) md (rollback_arm slot running) c
    (λ armed c', v_admission c = Open ∧ arm_written c slot running armed c')
    (λ e c', c' = c ∧ (∃ b, e = blocked_reason b) ∨
             v_admission c = Open ∧ (e = FR_RollbackUnavailable ∨ e = FR_AttemptNotPersisted) ∧
             same_except (REJ_VER :: NOTE_SCOPE) c c').
Proof.
  intros Hv. unfold rollback_arm. apply sat_bind, sat_admission.
  2:{ intros _. apply sat_throw. left. eauto. }
  destruct (v_admission c) as [|b] eqn:Ha; [|apply sat_throw; left; eauto].
  pose proof (open_no_attempt_slot _ slot Ha) as Hns. pose proof (open_no_request _ Ha) as Hun.
  pose proof (proj2 (unarmed_request _ Hun)) as Harm.
  apply sat_bind, sat_catch. eapply sat_mono; [apply sat_note_rollback| |].
  - intros n c1 Hn. destruct n as [n|].
    2:{ exfalso. destruct Hn as [_ [[? _]|?]]; [done|congruence]. }
    destruct n as [[sl|sl id]]; simpl in Hn; [exfalso; destruct Hn as (_ & ? & _); done|].
    destruct Hn as (-> & _ & _ & Hs & from & fl & Hl & _ & _ & Hw).
    assert (Href : v_refused c1 = v_refused c) by (unfold v_refused, v_str; by rewrite Hs by in_keys).
    apply sat_bind, sat_catch. eapply sat_mono; [by apply sat_refuse_version| |].
    + intros r c2 Hr. destruct r as [previous|]; apply sat_ret; (split; [done|]).
      * destruct Hr as [Hp ->]. rewrite Href in Hp. exists id, from, previous, c1.
        split_and!; try done. by right.
      * destruct Hr as [-> Hp]. rewrite Href in Hp. exists id, from, (Some running), c1.
        split_and!; try done. by left.
    + intros e c2 Hr.
      assert (Hs2 : same_except (REJ_VER :: NOTE_SCOPE) c c2).
      { eapply same_trans; [eapply same_weaken; [|exact Hs]; set_solver|].
        destruct Hr as [[-> _]|[_ [->| ->]]]; solve_same. }
      apply sat_bind, sat_bind, sat_catch. eapply sat_mono; [apply sat_withdraw| |].
      * intros u c3 H3. apply sat_ret, sat_throw. right. split_and!; [done|by right|].
        simpl in H3. destruct H3 as [[_ ->]|[_ ->]]; [|done].
        eapply same_trans; [exact Hs2|]. eapply same_weaken; [|apply (delete_all_same REQ_KEYS)].
        unfold REQ_KEYS, NOTE_SCOPE. set_solver.
      * intros e3 c3 [_ H3]. apply sat_ret, sat_throw. right. split_and!; [done|by right|].
        simpl in H3. destruct H3 as [->|(_ & _ & H3)]; [done|].
        eapply same_trans; [exact Hs2|]. eapply same_weaken; [|exact H3].
        unfold REQ_KEYS, NOTE_SCOPE. set_solver.
  - intros e c1 Hn.
    assert (Hs : same_except (REJ_VER :: NOTE_SCOPE) c c1).
    { destruct Hn as [->|[[? _]|(_ & _ & Hs & _)]]; [apply same_refl|done|].
      eapply same_weaken; [|exact Hs]. set_solver. }
    destruct e; apply sat_throw; right; split_and!; auto.
Qed.

Lemma arm_written_view c slot running armed c' :
  wf_version running → arm_written c slot running armed c' →
  v_admission c' = Blocked AttemptUnresolved ∧ v_refused c' = Ok (Some running).
Proof.
  intros Hv (id & from & prev & c1 & _ & _ & Hs & Hw & Hp & Hc).
  assert (Hfrom : c' !! RQ_FROM = Some (VStr from)).
  { destruct Hw as (Hw & _). destruct Hc as [(_ & _ & ->)|(_ & ->)]; by key_simpl. }
  split.
  - unfold v_admission, v_armed, v_str. rewrite Hfrom. simpl.
    by destruct (v_attempt_exists c') as [[]|], (v_flag c' RB).
  - destruct Hc as [(_ & -> & ->)|(_ & ->)].
    + rewrite <- Hp. unfold v_refused, v_str. by rewrite Hs by in_keys.
    + apply (restored_view (Some running)). by intros v [= <-].
Qed.

(** The refusal after the first step of the undo. *)
Lemma arm_written_restored c slot running armed c' :
  arm_written c slot running armed c' →
  let c2 := match ao_refusal armed with Some p => refusal_restored p c' | None => c' end in
  (∀ p, ao_refusal armed = Some p → ∀ v, p = Some v → wf_version v) ∧
  same_except (REJ_VER :: NOTE_SCOPE) c c2 ∧ v_refused c2 = v_refused c ∧
  ∃ id, ao_noted armed = Some (mkNoted (NT_Request slot id)) ∧
        v_request c2 = Ok (Some (mkRequest id "operator" slot)).
Proof.
  intros (id & from & prev & c1 & Hl & Hn & Hs & Hw & Hp & Hc) c2.
  assert (Hprev : ∀ v, prev = Some v → wf_version v) by (intros v ->; by eapply refused_wf).
  assert (Hview : ∀ c2, request_written c2 id "operator" from →
    v_request c2 = Ok (Some (mkRequest id "operator" slot))).
  { intros c0 H0. eapply request_written_view; [by apply slot_label_roundtrip|exact H0]. }
  rewrite Hp. destruct Hc as [(Hr & -> & ->)|[Hr ->]]; unfold c2; rewrite Hr; split_and!.
  - done.
  - eapply same_weaken; [|exact Hs]. set_solver.
  - rewrite <- Hp. unfold v_refused, v_str. by rewrite Hs by in_keys.
  - eauto.
  - intros p [= <-]. done.
  - eapply same_trans; [eapply same_weaken; [|exact Hs]; set_solver|].
    destruct prev; simpl; solve_same.
  - by apply restored_view.
  - exists id. split; [done|]. apply Hview. destruct Hw as (H1 & H2 & H3).
    destruct prev; repeat split; simpl; by key_simpl.
Qed.

Lemma sat_rollback_undo {E} c slot running armed c' :
  arm_written c slot running armed c' →
  sat (K:=K) Healthy (rollback_undo (E:=E) armed) c'
    (λ u c'', Undone_is_clean u = true ∧ same_except (REJ_VER :: NOTE_SCOPE) c c'' ∧
              c'' !! RQ_FROM = None ∧ v_refused c'' = v_refused c)
    (λ _ _, False).
Proof.
  intros Hw. destruct (arm_written_restored _ _ _ _ _ Hw) as (Hprev & Hs & Href & id & Hn & Hq).
  set (c2 := match ao_refusal armed with Some p => refusal_restored p c' | None => c' end) in *.
  unfold rollback_undo. apply sat_bind.
  apply sat_mono with (Q := λ r c', r = match ao_refusal armed with Some _ => Some (Ok tt) | None => None end
                                     ∧ c' = c2)
    (X := λ _ _, False); [|intros r c1 [-> ->]|done].
  - unfold c2. destruct (ao_refusal armed) as [p|]; [|by apply sat_ret].
    apply sat_bind, sat_catch. eapply sat_mono; [by apply sat_restore_refusal, (Hprev p)| |].
    + intros [] c1 ->. by apply sat_ret.
    + intros e c1 He. by apply transient_healthy in He.
  - rewrite Hn. apply sat_bind, sat_bind, sat_catch. eapply sat_mono; [apply sat_withdraw| |].
    + intros [] c1 Hwd. simpl in Hwd. apply sat_ret, sat_ret. split; [by destruct (ao_refusal armed)|].
      destruct Hwd as [[_ ->]|[Hno _]]; [|by apply Hno in Hq].
      split_and!; [|by key_simpl|rewrite <- Href; unfold v_refused, v_str; by key_simpl].
      eapply same_trans; [exact Hs|]. eapply same_weaken; [|apply (delete_all_same REQ_KEYS)].
      unfold REQ_KEYS, NOTE_SCOPE. set_solver.
    + simpl. intros e c1 [[He|He] _]; [by apply transient_healthy in He|congruence].
Qed.

Lemma admission_same ks c c' :
  (∀ k, k ∈ [ATT_VER; ATT_SLOT; RB] → k ∉ ks) → same_except ks c c' →
  c' !! RQ_FROM = c !! RQ_FROM → v_admission c' = v_admission c.
Proof.
  intros Hk Hs Hq. unfold v_admission, v_armed, v_attempt_exists, v_flag, v_str, v_u8.
  by rewrite Hq, !Hs by (apply Hk; in_keys).
Qed.

(** an armed operator rollback is undone completely.  If [rollback_arm] succeeded and no fault happens,
    [rollback_undo] with its token reports a clean undo, no request is armed, the refused version is
    what it was, attempt and report read as before, and admission is open again; in between, admission
    is blocked and the running version refused. *)
Lemma rollback_arm_undo slot running (s : OtaStore K) armed s1 :
  kv_ok (kv s) → healthy (kv s) → wf_version running →
  rollback_arm slot running s = (Ok armed, s1) →
  v_admission (cont s1) = Blocked AttemptUnresolved ∧ v_refused (cont s1) = Ok (Some running) ∧
  ∃ u s2, rollback_undo (E:=Empty_set) armed s1 = (Ok u, s2) ∧ Undone_is_clean u = true ∧
    v_request (cont s2) = Ok None ∧ v_refused (cont s2) = v_refused (cont s) ∧
    v_attempt (cont s2) = v_attempt (cont s) ∧ v_report (cont s2) = v_report (cont s) ∧
    v_admission (cont s2) = Open.
Proof.
  intros Hok Hh Hv Hrun. pose proof (sat_run Healthy _ (cont s) _ _ s
    (sat_rollback_arm Healthy (cont s) slot running Hv) Hok eq_refl (λ _, Hh)) as H.
  rewrite Hrun in H. destruct H as (Hok1 & Hh1 & Ha & Hw). specialize (Hh1 eq_refl).
  destruct (arm_written_view _ _ _ _ _ Hv Hw) as [Hb Hr]. split_and!; [done|done|].
  pose proof (sat_run Healthy _ (cont s1) _ _ s1
    (sat_rollback_undo (E:=Empty_set) _ _ _ _ _ Hw) Hok1 eq_refl (λ _, Hh1)) as H2.
  destruct (rollback_undo armed s1) as [[u|[]] s2]. destruct H2 as (_ & _ & Hcl & Hs & Hun & Href).
  exists u, s2. split_and!; try done.
  - by apply unarmed_request.
  - eapply attempt_same; [|exact Hs]. set_solver.
  - unfold v_report, v_u8, v_u32, v_reason. by rewrite !Hs by in_keys.
  - rewrite <- Ha. eapply admission_same; [|exact Hs|by rewrite Hun, (open_no_request _ Ha)]. set_solver.
Qed.

(** What [settle_failed_download] answers and leaves. *)
Definition download_post hw rv (c : contents) (r : result StoreError FailedDownload) (c' : contents) : Prop :=
  let decided a p := reconcile (Some (sa_record a)) (boot_facts hw rv (mkBootRecords (Some a) p)) in
  match r with
  | Ok FD_NoAttempt => v_attempt c = Ok None ∧ c' = c
  | Ok FD_Cleared =>
      v_attempt c' = Ok None ∧ same_except CLEAR_KEYS c c' ∧
      ∃ a p, v_attempt c = Ok (Some a) ∧ decided a p = ClearAttempt
  | Ok (FD_Kept act) =>
      act ≠ ClearAttempt ∧ act ≠ NoAttempt ∧ c' = c ∧
      ∃ a p, v_attempt c = Ok (Some a) ∧ v_persisted_for c (attempt_id (sa_record a)) = Ok p ∧
        decided a p = act
  | Err _ => c' = c ∨ ¬ committed c' ∧ same_except CLEAR_KEYS c c' ∧
      ∃ a p, v_attempt c = Ok (Some a) ∧ decided a p = ClearAttempt
  end.

Lemma sat_settle_failed md hw rv c :
  sat (K:=K) md (settle_failed_download hw rv) c
    (λ d, download_post hw rv c (Ok d)) (λ e, download_post hw rv c (Err e)).
Proof.
  unfold settle_failed_download. apply sat_bind. eapply sat_reads; [apply reads_read_attempt| |by left].
  intros [a|] Ha; [|by apply sat_ret].
  apply sat_bind. eapply sat_reads; [apply reads_persisted_for| |by left].
  intros p Hp. change (mkFacts _ _ _ _ _) with (boot_facts hw rv (mkBootRecords (Some a) p)).
  destruct (reconcile (Some (sa_record a)) (boot_facts hw rv (mkBootRecords (Some a) p))) eqn:Eact.
  1: by apply reconcile_noattempt_iff in Eact.
  1, 2, 4, 5, 6: apply sat_ret; cbn [download_post]; split_and!; [done|done|done|]; eauto.
  apply sat_bind. eapply sat_mono; [apply sat_clear| |].
  - intros u c' ->. apply sat_ret. cbn [download_post].
    split_and!; [apply cleared_no_attempt|apply (delete_all_same CLEAR_KEYS)|eauto].
  - intros e c' [_ [n ->]]. destruct (clear_prefix_hides n c) as [->|Hn]; [by left|right].
    split_and!; [done|apply clear_prefix_same|eauto].
Qed.

(** a failed download never destroys evidence.  [settle_failed_download] clears the attempt only when the
    decision core says so; every other action, and every error before the clear, leaves all records as
    they were, and the answer names the action that was kept. *)
Lemma failed_download_keeps_evidence hw rv (s : OtaStore K) :
  kv_ok (kv s) →
  let '(r, s') := settle_failed_download hw rv s in download_post hw rv (cont s) r (cont s').
Proof.
  intros Hok. pose proof (sat_run Faulty _ (cont s) _ _ s
    (sat_settle_failed Faulty hw rv (cont s)) Hok eq_refl) as H.
  destruct (settle_failed_download hw rv s) as [[d|e] s']; by apply H.
Qed.

(** the background completion only completes an attempt of the running version.  [retry_completion]
    answers [Completed] exactly when it cleared such an attempt (dropping any refusal but the running
    version's); [Gone] leaves the records untouched; and a failing try never makes another
    version's attempt disappear. *)
Theorem retry_completion_own_attempt running (s : OtaStore K) :
  kv_ok (kv s) →
  ∃ t s', retry_completion (E:=Empty_set) running s = (Ok t, s') ∧
    let own := ∃ a, v_attempt (cont s) = Ok (Some a) ∧ ar_version (sa_record a) = Some running in
    match t with
    | CT_Completed => own ∧ cont s' = delete_all CLEAR_KEYS (complete_refusal (cont s) running)
    | CT_Gone => cont s' = cont s ∧ ¬ own ∧ ∃ o, v_attempt (cont s) = Ok o
    | CT_StillFailing =>
        cont s' = cont s ∨ own ∧ same_except (REJ_VER :: CLEAR_KEYS) (cont s) (cont s')
    end.
Proof.
  intros Hok. set (c := cont s).
  set (post := λ t c', match t with
    | CT_Completed => (∃ a, v_attempt c = Ok (Some a) ∧ ar_version (sa_record a) = Some running) ∧
                      c' = delete_all CLEAR_KEYS (complete_refusal c running)
    | CT_Gone => c' = c ∧ ¬ (∃ a, v_attempt c = Ok (Some a) ∧ ar_version (sa_record a) = Some running) ∧
                 ∃ o, v_attempt c = Ok o
    | CT_StillFailing => c' = c ∨
        (∃ a, v_attempt c = Ok (Some a) ∧ ar_version (sa_record a) = Some running) ∧
        same_except (REJ_VER :: CLEAR_KEYS) c c'
    end).
  assert (Hsat : sat (K:=K) Faulty (retry_completion (E:=Empty_set) running) c post (λ _ _, False)).
  { unfold retry_completion. apply sat_bind, sat_catch. eapply sat_reads; [apply reads_read_attempt| |].
    2:{ intros e _. apply sat_ret. by left. }
    intros [a|] Ha; [|apply sat_ret; split_and!; [done|intros (? & ? & _); congruence|eauto]].
    case_bool_decide as Hv; [|apply sat_ret; split_and!; [done|intros (? & ? & ?); congruence|eauto]].
    apply sat_bind, sat_catch. eapply sat_mono; [apply sat_complete| |].
    - intros u c' ->. apply sat_ret. split; [eauto|done].
    - intros e c' [_ Hc]. apply sat_ret. destruct Hc as [->|[n ->]]; [by left|right].
      split; [eauto|]. eapply same_trans; [eapply same_weaken; [|apply complete_refusal_same]; set_solver|].
      eapply same_weaken; [|apply clear_prefix_same]. set_solver. }
  pose proof (sat_run Faulty _ c _ _ s Hsat Hok eq_refl) as H.
  destruct (retry_completion running s) as [[t|[]] s']. exists t, s'. split; [done|].
  destruct H as (_ & _ & H); [done|]. exact H.
Qed.
End ops_props.

(** ** Closed instances *)

(** A label nobody knows, an id of the wrong type and an unreadable refusal. *)
Lemma repair_all_complete_witness :
  let m := <[REJ_VER := VU8 3]> (<[RB_ID := VStr "x"]> (<[ATT_SLOT := VStr "ota_9"]> m_attempt)) in
  ∃ s', repair_all 32 (sample m None) = (Ok 3, s') ∧ bad_groups (cont s') = 0.
Proof.
  intros m. pose proof (repair_all_complete 32 (sample m None)) as H.
  destruct (repair_all 32 (sample m None)) as [r s'].
  destruct H as (Hle & H & _); [sample_ok|sample_ok|lia|].
  destruct H as (Hr & Hz & _); [lia|].
  exists s'. split; [|exact Hz]. rewrite Hr. vm_compute. reflexivity.
Defined.

(** An operator rollback of 1.2.0 while 1.1.0 is refused. *)
Lemma rollback_arm_undo_witness :
  let s := sample (<[REJ_VER := VStr "1.1.0"]> ∅) None in
  ∃ armed s1 u s2, rollback_arm slot1 v120 s = (Ok armed, s1) ∧
    rollback_undo (E:=Empty_set) armed s1 = (Ok u, s2) ∧ v_refused (cont s2) = Ok (Some v110).
Proof.
  intros s. destruct (rollback_arm slot1 v120 s) as [r s1] eqn:E. pose proof E as E'.
  vm_compute in E'. injection E' as Hr _. subst r.
  destruct (rollback_arm_undo slot1 v120 s
    (mkArmed (Some (mkNoted (NT_Request slot1 1))) (Some (Some v110))) s1)
    as (_ & _ & u & s2 & Hu & _ & _ & Href & _);
    [sample_ok|sample_ok|vm_compute; repeat split; discriminate|exact E|].
  eexists _, s1, u, s2. split; [reflexivity|]. split; [exact Hu|].
  rewrite Href. vm_compute. reflexivity.
Defined.

(** The boot slot was switched, so the stalled attempt is evidence of a rollback. *)
Lemma failed_download_keeps_evidence_witness :
  ∃ act s', settle_failed_download hw_previous (Some v110) (sample m_attempt None) = (Ok (FD_Kept act), s') ∧
    cont s' = m_attempt.
Proof.
  pose proof (failed_download_keeps_evidence hw_previous (Some v110) (sample m_attempt None)) as H.
  destruct (settle_failed_download hw_previous (Some v110) (sample m_attempt None)) as [r s'] eqn:E.
  pose proof E as E'. vm_compute in E'. injection E' as Hr _. subst r.
  eexists _, s'. split; [reflexivity|]. destruct H as (_ & _ & Hc & _); [sample_ok|exact Hc].
Defined.

Lemma retry_completion_own_attempt_witness :
  ∃ s', retry_completion (E:=Empty_set) v110 (sample m_attempt None) = (Ok CT_Gone, s') ∧ cont s' = m_attempt.
Proof.
  destruct (retry_completion_own_attempt v110 (sample m_attempt None)) as (t & s' & Hrun & H); [sample_ok|].
  pose proof Hrun as Hr. vm_compute in Hr. injection Hr as <- _.
  exists s'. split; [exact Hrun|]. apply H.
Defined.

(** The documentation of [rollback_arm] says that on [Err] "the records are as they were (or the
    best-effort withdraw failed, which leaves an unarmed request without its marker)".  When the
    refusal cannot be written and the withdraw's first read fails as well, the request stays
    armed: admission is blocked until the next boot drops it. *)
Lemma rollback_arm_err_may_stay_armed :
  let s := OtaStore_open (mkInner ∅ [] 0 0 None (Some 8) None (Some 12) ∅ false) (λ n, Z.of_nat n) in
  ∃ s', rollback_arm slot0 v120 s = (Err FR_AttemptNotPersisted, s') ∧
    cont s = ∅ ∧ v_armed (cont s') = Ok true ∧ v_refused (cont s') = Ok None ∧
    v_admission (cont s') = Blocked AttemptUnresolved.
Proof. eexists. split; [vm_compute; reflexivity|]. vm_compute. auto. Qed.
