(* ===== verification/Config.v ===== *)
(** * Config: [core::time::Duration], and runtime settings with their validation
    ([ota/runtime/config.rs]) *)
From S2P Require Import Prelude Text Version Reason.
From Stdlib Require Import Ascii.
Open Scope Z_scope.

(** ** [core::time::Duration]

    A duration is its number of nanoseconds.  [Duration + Duration] panics on
    overflow, so it is an [option]; the saturating operations are total. *)

Abbreviation duration := Z.

Definition NANOS_PER_SEC : Z := 1000000000.
(** [Duration::MAX]: [u64::MAX] seconds and 999,999,999 nanoseconds. *)
Definition dur_max : duration := u64_max * NANOS_PER_SEC + 999999999.
Definition is_dur (d : duration) : Prop := 0 ≤ d ≤ dur_max.

#[export] Instance is_dur_dec d : Decision (is_dur d).
Proof. unfold is_dur. apply _. Defined.

Definition from_secs (n : Z) : duration := n * NANOS_PER_SEC.
Definition from_millis (n : Z) : duration := n * 1000000.

(** [None] is the panic "overflow when adding durations". *)
Definition dur_add (a b : duration) : option duration :=
  if a + b <=? dur_max then Some (a + b) else None.

Definition saturating_sub (a b : duration) : duration := Z.max 0 (a - b).
Definition saturating_mul (a n : Z) : duration := Z.min dur_max (a * n).

Lemma dur_add_some a b : a + b ≤ dur_max → dur_add a b = Some (a + b).
Proof. intros H. unfold dur_add. apply Z.leb_le in H. by rewrite H. Qed.

Lemma dur_add_inv a b c : dur_add a b = Some c → c = a + b ∧ a + b ≤ dur_max.
Proof. unfold dur_add. case_match eqn:E; [|done]. apply Z.leb_le in E. intros [= <-]. done. Qed.

(** ** Settings *)

Definition MIN_STACK_BYTES : Z := 4096.
Definition MIN_WORKER_STACK_BYTES : Z := 12288.
Definition MAX_REJECT_QUEUE_DEPTH : Z := 32.
Definition MAX_REPAIR_ITERATIONS : Z := 256.
Definition MAX_TOPIC_BYTES : Z := 256.

Inductive DeadlineAction := DA_Rollback | DA_NoteAndRestart (reason : RollbackReason).

Record OtaStacks := mkStacks { worker_bytes : Z; reporter_bytes : Z }.

Definition OtaStacks_default : OtaStacks := mkStacks 16384 8192.

Record OtaTimings := mkTimings {
  manifest_per_op : duration;
  manifest_total : duration;
  firmware_timeout_secs : Z;
  firmware_deadline : duration;
  publish_ack_timeout : duration;
  report_retry : duration;
  reporter_connect_poll : duration;
  status_publish_retries : Z;
  status_publish_delay : duration;
  restart_grace : duration;
  retained_poll : duration;
  reject_queue_depth : Z;
  session_busy_retries : Z;
  session_busy_delay : duration;
  t_healthy_dwell : duration;
  t_failure_deadline : duration;
  t_poll_interval : duration;
  t_slot_retry : duration;
  t_slot_min_attempts : Z;
  t_slot_warn_every : Z;
  t_complete_attempts : Z;
  t_complete_retry : duration;
  t_rollback_attempts : Z;
  t_rollback_retry : duration;
  repair_max_iterations : Z;
  t_deadline_action : DeadlineAction
}.

Definition OtaTimings_default : OtaTimings := {|
  manifest_per_op := from_secs 5;
  manifest_total := from_secs 10;
  firmware_timeout_secs := 60;
  firmware_deadline := from_secs 300;
  publish_ack_timeout := from_secs 5;
  report_retry := from_secs 10;
  reporter_connect_poll := from_secs 1;
  status_publish_retries := 5;
  status_publish_delay := from_millis 200;
  restart_grace := from_millis 1000;
  retained_poll := from_secs 1;
  reject_queue_depth := 4;
  session_busy_retries := 3;
  session_busy_delay := from_millis 500;
  t_healthy_dwell := from_secs 30;
  t_failure_deadline := from_secs 120;
  t_poll_interval := from_secs 1;
  t_slot_retry := from_millis 200;
  t_slot_min_attempts := 5;
  t_slot_warn_every := 25;
  t_complete_attempts := 3;
  t_complete_retry := from_secs 1;
  t_rollback_attempts := 3;
  t_rollback_retry := from_secs 5;
  repair_max_iterations := 32;
  t_deadline_action := DA_Rollback
|}.

Inductive ConfigError :=
| CE_ZeroDuration (name : string)
| CE_ZeroCount (name : string)
| CE_StackTooSmall (thread : string) (bytes : Z)
| CE_BadTopic (which : string)
| CE_TooLarge (name : string)
| CE_SameTopic.

#[export] Instance ConfigError_eq_dec : EqDecision ConfigError.
Proof. solve_decision. Defined.

Definition stack_floor (thread : string) : Z :=
  if bool_decide (thread = "worker"%string) then MIN_WORKER_STACK_BYTES else MIN_STACK_BYTES.

(** [!topic.contains(['+', '#', '\0'])] *)
Definition topic_char_ok (a : ascii) : bool :=
  negb (Ascii.eqb a "+" || Ascii.eqb a "#" || Ascii.eqb a "000").

Definition topic_ok (topic : string) : bool :=
  negb (bool_decide (topic = EmptyString)) && (str_len topic <=? MAX_TOPIC_BYTES) &&
  str_forall topic_char_ok topic.

Record OtaSettings := mkSettings {
  command_topic : string;
  status_topic : string;
  os_running_version : Version;
  timings : OtaTimings;
  stacks : OtaStacks
}.

(** A [for] loop that returns early with the error of the first failing entry. *)
Fixpoint first_error {A} (l : list A) (f : A → option ConfigError) : result ConfigError unit :=
  match l with
  | [] => Ok tt
  | x :: l => match f x with Some e => Err e | None => first_error l f end
  end.

Definition guard_err (b : bool) (e : ConfigError) : result ConfigError unit :=
  if b then Err e else Ok tt.

Definition OtaSettings_validate (s : OtaSettings) : result ConfigError unit :=
  _ ← guard_err (negb (topic_ok (command_topic s))) (CE_BadTopic "command");
  _ ← guard_err (negb (topic_ok (status_topic s))) (CE_BadTopic "status");
  _ ← guard_err (bool_decide (command_topic s = status_topic s)) CE_SameTopic;
  _ ← first_error [("worker", worker_bytes (stacks s)); ("reporter", reporter_bytes (stacks s))]
        (λ '(thread, bytes), if bytes <? stack_floor thread
                             then Some (CE_StackTooSmall thread bytes) else None);
  let t := timings s in
  _ ← first_error
        [("manifest_per_op", manifest_per_op t); ("manifest_total", manifest_total t);
         ("firmware_deadline", firmware_deadline t); ("publish_ack_timeout", publish_ack_timeout t);
         ("report_retry", report_retry t); ("reporter_connect_poll", reporter_connect_poll t);
         ("status_publish_delay", status_publish_delay t); ("retained_poll", retained_poll t);
         ("session_busy_delay", session_busy_delay t); ("healthy_dwell", t_healthy_dwell t);
         ("failure_deadline", t_failure_deadline t); ("poll_interval", t_poll_interval t);
         ("slot_retry", t_slot_retry t); ("complete_retry", t_complete_retry t);
         ("rollback_retry", t_rollback_retry t)]
        (λ '(name, value), if value =? 0 then Some (CE_ZeroDuration name) else None);
  _ ← guard_err (firmware_timeout_secs t =? 0) (CE_ZeroDuration "firmware_timeout_secs");
  _ ← first_error
        [("reject_queue_depth", reject_queue_depth t); ("slot_min_attempts", t_slot_min_attempts t);
         ("slot_warn_every", t_slot_warn_every t); ("complete_attempts", t_complete_attempts t);
         ("rollback_attempts", t_rollback_attempts t);
         ("repair_max_iterations", repair_max_iterations t)]
        (λ '(name, value), if value =? 0 then Some (CE_ZeroCount name) else None);
  _ ← guard_err (MAX_REJECT_QUEUE_DEPTH <? reject_queue_depth t) (CE_TooLarge "reject_queue_depth");
  guard_err (MAX_REPAIR_ITERATIONS <? repair_max_iterations t) (CE_TooLarge "repair_max_iterations").

Definition OtaSettings_new (command status : string) (running : Version) :
    result ConfigError OtaSettings :=
  let settings := mkSettings command status running OtaTimings_default OtaStacks_default in
  _ ← OtaSettings_validate settings;
  Ok settings.
