(* ===== verification/Health.v ===== *)
(** * Health: the health policy of the running image ([ota/runtime/health.rs])

    [step] is the source's [HealthMachine::step]: it returns the next action and
    the new machine.  Tests against [Duration]s are comparisons of nanoseconds;
    the [u32] counters are incremented modulo 2^32 (release arithmetic).  The
    theorems are about the traces of an arbitrary driver. *)
From S2P Require Import Prelude Decision Reason Boot Config.
Open Scope Z_scope.

Record HealthConfig := mkHealthConfig {
  healthy_dwell : duration;
  failure_deadline : duration;
  poll_interval : duration;
  slot_retry : duration;
  slot_min_attempts : Z;
  slot_warn_every : Z;
  complete_attempts : Z;
  complete_retry : duration;
  rollback_attempts : Z;
  rollback_retry : duration;
  deadline_action : DeadlineAction
}.

Definition HealthConfig_from (t : OtaTimings) : HealthConfig := {|
  healthy_dwell := t_healthy_dwell t;
  failure_deadline := t_failure_deadline t;
  poll_interval := t_poll_interval t;
  slot_retry := t_slot_retry t;
  slot_min_attempts := t_slot_min_attempts t;
  slot_warn_every := t_slot_warn_every t;
  complete_attempts := t_complete_attempts t;
  complete_retry := t_complete_retry t;
  rollback_attempts := t_rollback_attempts t;
  rollback_retry := t_rollback_retry t;
  deadline_action := t_deadline_action t
|}.

Inductive SlotReading := SR_PendingVerify | SR_NotPending | SR_Busy | SR_Failed.

Inductive HealthEvent :=
| Begin | Woke | EvSlot (r : SlotReading) | Healthy (b : bool) | Marked (b : bool)
| Completed (b : bool) | Noted | RollbackReturned (b : bool) | EvRestartReturned.

Inductive HealthVerdict :=
| Applied | ApplyNotRecorded | NothingToVerify | DeadlineRolledBack | DeadlineRollbackFailed
| RestartReturned | SlotUnreadable | AlreadyRunning.

Inductive HealthAction :=
| ReadSlot | Sleep (d : duration) | Evaluate | MarkValid | CompleteAttempt
| NoteRollback (r : RollbackReason) | Rollback | Restart | Finish (v : HealthVerdict).

#[export] Instance HealthVerdict_eq_dec : EqDecision HealthVerdict.
Proof. solve_decision. Defined.
#[export] Instance HealthAction_eq_dec : EqDecision HealthAction.
Proof. solve_decision. Defined.

Definition publishes_applied (v : HealthVerdict) : bool :=
  match v with Applied | ApplyNotRecorded => true | _ => false end.

Definition arms_completion_retry (v : HealthVerdict) : bool :=
  match v with ApplyNotRecorded => true | _ => false end.

Definition opens_admission (v : HealthVerdict) : bool :=
  match v with
  | Applied | ApplyNotRecorded | NothingToVerify | DeadlineRolledBack | DeadlineRollbackFailed
  | RestartReturned => true
  | SlotUnreadable | AlreadyRunning => false
  end.

Definition initial_admission (outcome : BootOutcome) : bool :=
  bo_slot_released outcome && negb (bo_refuse_mark_valid outcome) && negb (bo_roll_back_now outcome) &&
  negb (match bo_disposition outcome with BD_FailedClosed _ => true | _ => false end).

Inductive Phase :=
| PhReadSlot | PhPoll | PhEvaluating | PhMarking | PhCompleting | PhCompleteWait
| PhNoting (restart : bool) | PhRollingBack | PhRollbackWait | PhRestarting
| PhDone (v : HealthVerdict).

#[export] Instance Phase_eq_dec : EqDecision Phase.
Proof. solve_decision. Defined.

Record HealthMachine := mkHealth {
  cfg : HealthConfig;
  phase : Phase;
  pending : HealthAction;
  failed_reads : Z;
  warn : option Z;
  complete_tries : Z;
  rollback_tries : Z
}.

Definition HealthMachine_new (c : HealthConfig) : HealthMachine :=
  mkHealth c PhReadSlot ReadSlot 0 None 0 0.

Definition with_phase (p : Phase) (m : HealthMachine) : HealthMachine :=
  mkHealth (cfg m) p (pending m) (failed_reads m) (warn m) (complete_tries m) (rollback_tries m).
Definition with_pending (a : HealthAction) (m : HealthMachine) : HealthMachine :=
  mkHealth (cfg m) (phase m) a (failed_reads m) (warn m) (complete_tries m) (rollback_tries m).
Definition with_reads (n : Z) (w : option Z) (m : HealthMachine) : HealthMachine :=
  mkHealth (cfg m) (phase m) (pending m) n w (complete_tries m) (rollback_tries m).
Definition with_complete_tries (n : Z) (m : HealthMachine) : HealthMachine :=
  mkHealth (cfg m) (phase m) (pending m) (failed_reads m) (warn m) n (rollback_tries m).
Definition with_rollback_tries (n : Z) (m : HealthMachine) : HealthMachine :=
  mkHealth (cfg m) (phase m) (pending m) (failed_reads m) (warn m) (complete_tries m) n.

(** [take_warning] *)
Definition take_warning (m : HealthMachine) : option Z * HealthMachine :=
  (warn m, with_reads (failed_reads m) None m).

Definition finish (v : HealthVerdict) (m : HealthMachine) : HealthAction * HealthMachine :=
  (Finish v, with_phase (PhDone v) m).

Definition after_unhealthy (elapsed : duration) (m : HealthMachine) : HealthAction * HealthMachine :=
  if elapsed <? failure_deadline (cfg m)
  then (Sleep (poll_interval (cfg m)), with_phase PhPoll m)
  else match deadline_action (cfg m) with
       | DA_Rollback => (NoteRollback RR_HealthDeadline, with_phase (PhNoting false) m)
       | DA_NoteAndRestart reason => (NoteRollback reason, with_phase (PhNoting true) m)
       end.

Definition poll_tick (elapsed : duration) (refuse : bool) (m : HealthMachine) :
    HealthAction * HealthMachine :=
  if negb refuse && (healthy_dwell (cfg m) <=? elapsed)
  then (Evaluate, with_phase PhEvaluating m)
  else after_unhealthy elapsed m.

Definition on_slot (elapsed : duration) (refuse : bool) (reading : SlotReading) (m : HealthMachine) :
    HealthAction * HealthMachine :=
  match reading with
  | SR_NotPending => finish NothingToVerify m
  | SR_PendingVerify => poll_tick elapsed refuse (with_phase PhPoll m)
  | SR_Busy => (Sleep (slot_retry (cfg m)), m)
  | SR_Failed =>
      let n := u32_wrapping_add (failed_reads m) 1 in
      let every := Z.max (slot_warn_every (cfg m)) 1 in
      let m := with_reads n (if n mod every =? 1 mod every then Some n else warn m) m in
      if (slot_min_attempts (cfg m) <=? n) && (failure_deadline (cfg m) <=? elapsed)
      then finish SlotUnreadable m
      else (Sleep (slot_retry (cfg m)), m)
  end.

Definition advance (elapsed : duration) (refuse : bool) (event : HealthEvent) (m : HealthMachine) :
    HealthAction * HealthMachine :=
  match phase m, event with
  | PhReadSlot, (Begin | Woke) => (ReadSlot, m)
  | PhReadSlot, EvSlot reading => on_slot elapsed refuse reading m
  | PhPoll, Woke => poll_tick elapsed refuse m
  | PhEvaluating, Healthy true => (MarkValid, with_phase PhMarking m)
  | PhEvaluating, Healthy false => after_unhealthy elapsed m
  | PhMarking, Marked true => (CompleteAttempt, with_phase PhCompleting m)
  | PhMarking, Marked false => after_unhealthy elapsed m
  | PhCompleting, Completed true => finish Applied m
  | PhCompleting, Completed false =>
      let m := with_complete_tries (u32_wrapping_add (complete_tries m) 1) m in
      if complete_tries m <? complete_attempts (cfg m)
      then (Sleep (complete_retry (cfg m)), with_phase PhCompleteWait m)
      else finish ApplyNotRecorded m
  | PhCompleteWait, Woke => (CompleteAttempt, with_phase PhCompleting m)
  | PhNoting restart, Noted =>
      if restart then (Restart, with_phase PhRestarting m)
      else (Rollback, with_phase PhRollingBack m)
  | PhRollingBack, RollbackReturned true => finish DeadlineRolledBack m
  | PhRollingBack, RollbackReturned false =>
      let m := with_rollback_tries (u32_wrapping_add (rollback_tries m) 1) m in
      if rollback_tries m <? rollback_attempts (cfg m)
      then (Sleep (rollback_retry (cfg m)), with_phase PhRollbackWait m)
      else finish DeadlineRollbackFailed m
  | PhRollbackWait, Woke => (Rollback, with_phase PhRollingBack m)
  | PhRestarting, EvRestartReturned => finish RestartReturned m
  | PhDone verdict, _ => (Finish verdict, m)
  | _, _ => (pending m, m)
  end.

Definition step (elapsed : duration) (refuse : bool) (event : HealthEvent) (m : HealthMachine) :
    HealthAction * HealthMachine :=
  let '(action, m) := advance elapsed refuse event m in (action, with_pending action m).

(** ** safety and termination of the health policy

    [reaches c h m]: the machine started with configuration [c] is in state [m]
    after the calls and answers recorded in the trace [h], for any driver.  The
    invariant ties every phase to what the trace must contain. *)

(** ** Traces *)

Record Entry := mkEntry {
  en_elapsed : duration; en_refuse : bool; en_event : HealthEvent; en_action : HealthAction }.

Inductive reaches (c : HealthConfig) : list Entry → HealthMachine → Prop :=
| reach_new : reaches c [] (HealthMachine_new c)
| reach_step h m e r ev a m' :
    reaches c h m → step e r ev m = (a, m') → reaches c (h ++ [mkEntry e r ev a]) m'.

(** The first slot reading that is neither busy nor failed. *)
Fixpoint decisive (h : list Entry) : option SlotReading :=
  match h with
  | [] => None
  | x :: h =>
      match en_event x with
      | EvSlot SR_PendingVerify => Some SR_PendingVerify
      | EvSlot SR_NotPending => Some SR_NotPending
      | _ => decisive h
      end
  end.

(** The predicate was asked after the dwell time, without a refusal. *)
Definition evaluated (c : HealthConfig) (h : list Entry) : Prop :=
  ∃ x, x ∈ h ∧ en_action x = Evaluate ∧ en_refuse x = false ∧ healthy_dwell c ≤ en_elapsed x.
(** ... and answered healthy later. *)
Definition proved_healthy (c : HealthConfig) (h : list Entry) : Prop :=
  ∃ h1 x h2, h = h1 ++ x :: h2 ∧ evaluated c h1 ∧
    en_event x = Healthy true ∧ en_action x = MarkValid.
(** ... and the image was then marked valid. *)
Definition marked_valid (c : HealthConfig) (h : list Entry) : Prop :=
  ∃ h1 x h2, h = h1 ++ x :: h2 ∧ proved_healthy c h1 ∧
    en_event x = Marked true ∧ en_action x = CompleteAttempt.
(** The deadline passed and the reason was noted. *)
Definition gave_up (c : HealthConfig) (h : list Entry) : Prop :=
  ∃ x r, x ∈ h ∧ en_action x = NoteRollback r ∧ failure_deadline c ≤ en_elapsed x.

(** What a phase says about the trace. *)
Definition phase_history (c : HealthConfig) (h : list Entry) (p : Phase) : Prop :=
  match p with
  | PhReadSlot => decisive h = None
  | PhPoll => decisive h = Some SR_PendingVerify
  | PhEvaluating => decisive h = Some SR_PendingVerify ∧ evaluated c h
  | PhMarking => decisive h = Some SR_PendingVerify ∧ proved_healthy c h
  | PhCompleting | PhCompleteWait | PhDone Applied | PhDone ApplyNotRecorded =>
      decisive h = Some SR_PendingVerify ∧ marked_valid c h
  | PhNoting _ | PhRollingBack | PhRollbackWait | PhRestarting | PhDone DeadlineRolledBack
  | PhDone DeadlineRollbackFailed | PhDone RestartReturned =>
      decisive h = Some SR_PendingVerify ∧ gave_up c h
  | PhDone NothingToVerify => decisive h = Some SR_NotPending
  | PhDone SlotUnreadable => True
  | PhDone AlreadyRunning => False
  end.

(** The pending action is the one the phase waits for. *)
Definition coherent (m : HealthMachine) : Prop :=
  match phase m with
  | PhReadSlot => pending m = ReadSlot ∨ pending m = Sleep (slot_retry (cfg m))
  | PhPoll => pending m = Sleep (poll_interval (cfg m))
  | PhEvaluating => pending m = Evaluate
  | PhMarking => pending m = MarkValid
  | PhCompleting => pending m = CompleteAttempt
  | PhCompleteWait => pending m = Sleep (complete_retry (cfg m))
  | PhNoting restart => pending m =
      NoteRollback match deadline_action (cfg m) with
                   | DA_Rollback => RR_HealthDeadline
                   | DA_NoteAndRestart r => r
                   end ∧
      restart = match deadline_action (cfg m) with DA_Rollback => false | _ => true end
  | PhRollingBack => pending m = Rollback
  | PhRollbackWait => pending m = Sleep (rollback_retry (cfg m))
  | PhRestarting => pending m = Restart
  | PhDone v => pending m = Finish v
  end.

(** ** Preservation *)

Lemma decisive_snoc h x :
  decisive (h ++ [x]) = match decisive h with Some r => Some r | None => decisive [x] end.
Proof. induction h as [|y h IH]; simpl; [done|]. by destruct (en_event y) as [| |[]| | | | | |]. Qed.

Lemma evaluated_snoc c h x : evaluated c h → evaluated c (h ++ [x]).
Proof. intros (y & Hy & ?). exists y. split; [set_solver|done]. Qed.
Lemma proved_snoc c h x : proved_healthy c h → proved_healthy c (h ++ [x]).
Proof. intros (h1 & y & h2 & -> & ?). exists h1, y, (h2 ++ [x]). by rewrite <- app_assoc. Qed.
Lemma marked_snoc c h x : marked_valid c h → marked_valid c (h ++ [x]).
Proof. intros (h1 & y & h2 & -> & ?). exists h1, y, (h2 ++ [x]). by rewrite <- app_assoc. Qed.
Lemma gave_up_snoc c h x : gave_up c h → gave_up c (h ++ [x]).
Proof. intros (y & r & Hy & ?). exists y, r. split; [set_solver|done]. Qed.

#[export] Hint Resolve evaluated_snoc proved_snoc marked_snoc gave_up_snoc : rn.

(** A phase keeps its history while nothing happens. *)
Lemma phase_history_snoc c h x p :
  p ≠ PhReadSlot → phase_history c h p → phase_history c (h ++ [x]) p.
Proof.
  intros Hp. destruct p as [| | | | | | | | | |[]]; simpl; rewrite ?decisive_snoc; try done;
    intros H; repeat match goal with H : _ ∧ _ |- _ => destruct H end;
    repeat match goal with H : decisive _ = _ |- _ => rewrite H end; auto with rn.
Qed.

Lemma after_unhealthy_spec c h e r ev m a m' :
  cfg m = c → decisive (h ++ [mkEntry e r ev a]) = Some SR_PendingVerify →
  after_unhealthy e m = (a, m') →
  cfg m' = c ∧ phase_history c (h ++ [mkEntry e r ev a]) (phase m') ∧ coherent (with_pending a m').
Proof.
  intros Hc Hd. unfold after_unhealthy. destruct (Z.ltb_spec e (failure_deadline (cfg m))) as [Hlt|Hge].
  { intros [= <- <-]. done. }
  destruct (deadline_action (cfg m)) as [|re] eqn:Ed; intros [= <- <-]; simpl; unfold coherent; simpl;
    rewrite Ed; (split_and!; [done|done| |done|done]);
    (eexists _, _; split_and!; [apply elem_of_app; right; by apply list_elem_of_singleton|done|simpl; congruence]).
Qed.

Lemma poll_tick_spec c h e r ev m a m' :
  cfg m = c → decisive (h ++ [mkEntry e r ev a]) = Some SR_PendingVerify →
  poll_tick e r m = (a, m') →
  cfg m' = c ∧ phase_history c (h ++ [mkEntry e r ev a]) (phase m') ∧ coherent (with_pending a m').
Proof.
  intros Hc Hd. unfold poll_tick. destruct (negb r && _) eqn:Eg; [|by apply after_unhealthy_spec].
  intros [= <- <-]. apply andb_true_iff in Eg as [Hr%negb_true_iff Hdw%Z.leb_le].
  simpl. split_and!; [done|done| |done].
  eexists. split_and!; [apply elem_of_app; right; by apply list_elem_of_singleton|done|done|simpl; congruence].
Qed.

Definition health_inv (c : HealthConfig) (h : list Entry) (m : HealthMachine) : Prop :=
  cfg m = c ∧ phase_history c h (phase m) ∧ coherent m.

Lemma stay_inv c h e r ev m :
  health_inv c h m → phase m ≠ PhReadSlot ∨ decisive [mkEntry e r ev (pending m)] = None →
  cfg m = c ∧ phase_history c (h ++ [mkEntry e r ev (pending m)]) (phase m) ∧ coherent (with_pending (pending m) m).
Proof.
  intros (Hc & Hh & Hco) Hor. split_and!; [done| |by destruct m].
  destruct (decide (phase m = PhReadSlot)) as [Hp|Hp].
  - rewrite Hp in *. simpl in *. rewrite decisive_snoc, Hh. by destruct Hor.
  - by apply phase_history_snoc.
Qed.

Lemma on_slot_spec c h e r reading m a m' :
  health_inv c h m → phase m = PhReadSlot →
  on_slot e r reading m = (a, m') →
  cfg m' = c ∧ phase_history c (h ++ [mkEntry e r (EvSlot reading) a]) (phase m') ∧
  coherent (with_pending a m').
Proof.
  intros (Hc & Hh & Hco) Hp. rewrite Hp in Hh. simpl in Hh.
  assert (Hd : decisive (h ++ [mkEntry e r (EvSlot reading) a]) = decisive [mkEntry e r (EvSlot reading) a])
    by (by rewrite decisive_snoc, Hh).
  destruct reading; cbn [on_slot].
  - apply poll_tick_spec; [done|by rewrite Hd].
  - intros [= <- <-]. by split_and!.
  - intros [= <- <-]. split_and!; [done|by rewrite Hp|]. unfold coherent. simpl. rewrite Hp. by right.
  - destruct ((slot_min_attempts _ <=? _) && _); intros [= <- <-].
    + by split_and!.
    + split_and!; [done|simpl; by rewrite Hp|]. unfold coherent. simpl. rewrite Hp. by right.
Qed.

(** A move to a phase whose history is already in the trace. *)
Ltac health_move Hd :=
  intros [= <- <-]; split_and!; [done| |done]; simpl; rewrite decisive_snoc, Hd; auto with rn.

Lemma step_inv c h m e r ev a m' :
  health_inv c h m → step e r ev m = (a, m') → health_inv c (h ++ [mkEntry e r ev a]) m'.
Proof.
  intros Hinv. unfold step. destruct (advance e r ev m) as [a1 m1] eqn:Ea. intros [= <- <-].
  enough (cfg m1 = c ∧ phase_history c (h ++ [mkEntry e r ev a1]) (phase m1) ∧
          coherent (with_pending a1 m1)) as (H1 & H2 & H3) by (by repeat split).
  revert Ea. pose proof Hinv as (Hc & Hh & Hco).
  assert (Hstay : phase m ≠ PhReadSlot ∨ decisive [mkEntry e r ev (pending m)] = None →
    (pending m, m) = (a1, m1) →
    cfg m1 = c ∧ phase_history c (h ++ [mkEntry e r ev a1]) (phase m1) ∧ coherent (with_pending a1 m1)).
  { intros Hor [= <- <-]. by apply stay_inv. }
  unfold advance. destruct (phase m) eqn:Ep; simpl in Hh.
  - destruct ev; try (apply Hstay; by right).
    + intros [= <- <-]. split_and!; [done|rewrite Ep; simpl; by rewrite decisive_snoc, Hh|].
      unfold coherent. simpl. rewrite Ep. by left.
    + intros [= <- <-]. split_and!; [done|rewrite Ep; simpl; by rewrite decisive_snoc, Hh|].
      unfold coherent. simpl. rewrite Ep. by left.
    + by apply on_slot_spec.
  - destruct ev; try (apply Hstay; by left). apply poll_tick_spec; [done|]. by rewrite decisive_snoc, Hh.
  - destruct Hh as [Hd Hev]. destruct ev as [| | |[]| | | | |]; try (apply Hstay; by left).
    + intros [= <- <-]. split_and!; [done| |done]. simpl. rewrite decisive_snoc, Hd. split; [done|].
      by exists h, (mkEntry e r (Healthy true) MarkValid), [].
    + apply after_unhealthy_spec; [done|]. by rewrite decisive_snoc, Hd.
  - destruct Hh as [Hd Hpr]. destruct ev as [| | | |[]| | | |]; try (apply Hstay; by left).
    + intros [= <- <-]. split_and!; [done| |done]. simpl. rewrite decisive_snoc, Hd. split; [done|].
      by exists h, (mkEntry e r (Marked true) CompleteAttempt), [].
    + apply after_unhealthy_spec; [done|]. by rewrite decisive_snoc, Hd.
  - destruct Hh as [Hd Hm]. destruct ev as [| | | | |[]| | |]; try (apply Hstay; by left).
    + health_move Hd.
    + cbn zeta. destruct (_ <? _); health_move Hd.
  - destruct Hh as [Hd Hm]. destruct ev; try (apply Hstay; by left).
    health_move Hd.
  - destruct Hh as [Hd Hg]. destruct ev; try (apply Hstay; by left).
    destruct restart; health_move Hd.
  - destruct Hh as [Hd Hg]. destruct ev as [| | | | | | |[]|]; try (apply Hstay; by left).
    + health_move Hd.
    + cbn zeta. destruct (_ <? _); health_move Hd.
  - destruct Hh as [Hd Hg]. destruct ev; try (apply Hstay; by left).
    health_move Hd.
  - destruct Hh as [Hd Hg]. destruct ev; try (apply Hstay; by left).
    health_move Hd.
  - intros [= <- <-]. split_and!; [done| |by unfold coherent; simpl; rewrite Ep].
    rewrite Ep. by apply phase_history_snoc.
Qed.

Lemma reaches_inv c h m : reaches c h m → health_inv c h m.
Proof.
  induction 1 as [|h m e r ev a m' _ IH Hs]; [|by eapply step_inv].
  split_and!; [done|done|by left].
Qed.

Lemma reaches_last c h m h0 x : reaches c h m → h = h0 ++ [x] → pending m = en_action x.
Proof.
  destruct 1 as [|h m e r ev a m' _ Hs]; intros He; [by destruct h0|].
  apply app_inj_tail in He as [_ <-]. unfold step in Hs.
  destruct (advance e r ev m) as [a1 m1]. by injection Hs as <- <-.
Qed.

(** ** Termination *)

(** The events that answer an action; a busy handle is not an answer about the slot. *)
Definition answers (a : HealthAction) (ev : HealthEvent) : Prop :=
  match a, ev with
  | ReadSlot, EvSlot r => r ≠ SR_Busy
  | Sleep _, Woke | Evaluate, Healthy _ | MarkValid, Marked _ | CompleteAttempt, Completed _
  | NoteRollback _, Noted | Rollback, RollbackReturned _ | Restart, EvRestartReturned
  | Finish _, _ => True
  | _, _ => False
  end.

Definition call : Type := duration * bool * HealthEvent.

Fixpoint drive (m : HealthMachine) (l : list call) : HealthMachine :=
  match l with
  | [] => m
  | (e, r, ev) :: l => drive (step e r ev m).2 l
  end.

(** A driver that answers every action, once the failure deadline has passed. *)
Fixpoint responsive (m : HealthMachine) (l : list call) : Prop :=
  match l with
  | [] => True
  | (e, r, ev) :: l =>
      answers (pending m) ev ∧ failure_deadline (cfg m) ≤ e ∧ responsive (step e r ev m).2 l
  end.

(** The counters have not wrapped. *)
Definition counters_ok (m : HealthMachine) : Prop :=
  is_u32 (slot_min_attempts (cfg m)) ∧ is_u32 (complete_attempts (cfg m)) ∧
  is_u32 (rollback_attempts (cfg m)) ∧
  0 ≤ failed_reads m < u32_max ∧ 0 ≤ complete_tries m < u32_max ∧ 0 ≤ rollback_tries m < u32_max.

Definition rollback_fuel (m : HealthMachine) : Z :=
  2 * Z.max 1 (rollback_attempts (cfg m) - rollback_tries m).
Definition complete_fuel (m : HealthMachine) : Z :=
  2 * Z.max 1 (complete_attempts (cfg m) - complete_tries m).

(** An upper bound of the steps left. *)
Definition health_fuel (m : HealthMachine) : Z :=
  match phase m with
  | PhDone _ => 0
  | PhRestarting => 1
  | PhRollingBack => rollback_fuel m
  | PhRollbackWait => rollback_fuel m + 1
  | PhNoting _ => rollback_fuel m + 2
  | PhCompleting => complete_fuel m
  | PhCompleteWait => complete_fuel m + 1
  | PhMarking => rollback_fuel m + complete_fuel m + 3
  | PhEvaluating => rollback_fuel m + complete_fuel m + 4
  | PhPoll => rollback_fuel m + complete_fuel m + 5
  | PhReadSlot => rollback_fuel m + complete_fuel m + 6 +
      2 * Z.max 0 (slot_min_attempts (cfg m) - failed_reads m) +
      (if bool_decide (pending m = ReadSlot) then 0 else 1)
  end.

#[export] Instance done_dec m : Decision (∃ v, phase m = PhDone v).
Proof. destruct (phase m); (left; by eexists) || (right; by intros [? ?]). Defined.

Lemma fuel_done m : health_fuel m ≤ 0 → ∃ v, phase m = PhDone v.
Proof.
  unfold health_fuel, rollback_fuel, complete_fuel.
  destruct (phase m); try (case_bool_decide; lia); try lia. eauto.
Qed.

Lemma tries_succ n : 0 ≤ n < u32_max → u32_wrapping_add n 1 = n + 1.
Proof. intros Hn. apply u32_wrap_small. unfold is_u32, u32_max in *. lia. Qed.

(** What one answered step guarantees. *)
Definition progress (m m' : HealthMachine) : Prop :=
  cfg m' = cfg m ∧ health_fuel m' < health_fuel m ∧ ((∃ v, phase m' = PhDone v) ∨ counters_ok m').

(** Any move that keeps the configuration and the counters. *)
Lemma progress_move m m' :
  cfg m' = cfg m → health_fuel m' < health_fuel m → counters_ok m' → progress m m'.
Proof. repeat split; auto. Qed.

Lemma late_unhealthy e m0 m :
  cfg m0 = cfg m → counters_ok m → failure_deadline (cfg m) ≤ e →
  rollback_fuel m + 2 < health_fuel m0 →
  let '(a, m') := after_unhealthy e m in progress m0 (with_pending a m').
Proof.
  intros H0 Hc He Hf. unfold after_unhealthy. destruct (Z.ltb_spec e (failure_deadline (cfg m))); [lia|].
  destruct (deadline_action (cfg m)); apply progress_move; done.
Qed.

Lemma late_poll e r m0 m :
  cfg m0 = cfg m → counters_ok m → failure_deadline (cfg m) ≤ e →
  rollback_fuel m + complete_fuel m + 4 < health_fuel m0 →
  let '(a, m') := poll_tick e r m in progress m0 (with_pending a m').
Proof.
  intros H0 Hc He Hf. unfold poll_tick. destruct (negb r && _); [by apply progress_move|].
  apply late_unhealthy; try done. unfold rollback_fuel, complete_fuel in *. lia.
Qed.

Lemma late_slot e r reading m :
  phase m = PhReadSlot → pending m = ReadSlot → reading ≠ SR_Busy →
  counters_ok m → failure_deadline (cfg m) ≤ e →
  let '(a, m') := on_slot e r reading m in progress m (with_pending a m').
Proof.
  intros Hp Hpe Hnb Hc He.
  assert (Hf : health_fuel m = rollback_fuel m + complete_fuel m + 6 +
    2 * Z.max 0 (slot_min_attempts (cfg m) - failed_reads m)).
  { unfold health_fuel. rewrite Hp, Hpe. rewrite bool_decide_eq_true_2 by done. lia. }
  destruct reading; cbn [on_slot].
  - apply late_poll; try done. change (rollback_fuel (with_phase PhPoll m)) with (rollback_fuel m).
    change (complete_fuel (with_phase PhPoll m)) with (complete_fuel m). lia.
  - repeat split; [|left; eauto]. rewrite Hf. cbn. unfold rollback_fuel, complete_fuel. lia.
  - done.
  - destruct Hc as (H1 & H2 & H3 & H4 & H5 & H6). rewrite tries_succ by done.
    cbn zeta. cbn [cfg with_reads]. destruct (Z.leb_spec (slot_min_attempts (cfg m)) (failed_reads m + 1)).
    + rewrite (proj2 (Z.leb_le (failure_deadline (cfg m)) e) He). cbn [andb].
      repeat split; [|left; eauto]. rewrite Hf. cbn. unfold rollback_fuel, complete_fuel. lia.
    + cbn [andb]. apply progress_move; [done| |].
      * rewrite Hf. unfold health_fuel. cbn. rewrite Hp. rewrite bool_decide_eq_false_2 by done.
        change (rollback_fuel (with_pending _ _)) with (rollback_fuel m).
        change (complete_fuel (with_pending _ _)) with (complete_fuel m). lia.
      * unfold counters_ok, is_u32 in *. cbn. repeat split; try tauto; lia.
Qed.

Lemma answered_progress e r ev m :
  coherent m → counters_ok m → answers (pending m) ev → failure_deadline (cfg m) ≤ e →
  (∀ v, phase m ≠ PhDone v) → progress m (step e r ev m).2.
Proof.
  intros Hco Hc Ha He Hnd. unfold step.
  enough (let '(a, m') := advance e r ev m in progress m (with_pending a m'))
    by (by destruct (advance e r ev m)).
  unfold coherent in Hco. unfold advance. destruct (phase m) eqn:Ep.
  - destruct Hco as [Hco|Hco]; rewrite Hco in Ha; destruct ev; try done.
    + by apply late_slot.
    + apply progress_move; [done| |done]. unfold health_fuel. cbn [phase with_pending pending cfg failed_reads].
      rewrite Ep, Hco, (bool_decide_eq_true_2 (ReadSlot = ReadSlot)), (bool_decide_eq_false_2 (Sleep _ = _)) by done.
      change (rollback_fuel (with_pending _ _)) with (rollback_fuel m).
      change (complete_fuel (with_pending _ _)) with (complete_fuel m). lia.
  - rewrite Hco in Ha. destruct ev; try done. apply late_poll; try done.
    unfold health_fuel. rewrite Ep. lia.
  - rewrite Hco in Ha. destruct ev as [| | |[]| | | | |]; try done.
    + apply progress_move; [done| |done]. unfold health_fuel at 2. rewrite Ep. cbn.
      change (rollback_fuel (with_pending _ _)) with (rollback_fuel m).
      change (complete_fuel (with_pending _ _)) with (complete_fuel m). lia.
    + apply late_unhealthy; try done. unfold health_fuel. rewrite Ep. unfold complete_fuel. lia.
  - rewrite Hco in Ha. destruct ev as [| | | |[]| | | |]; try done.
    + apply progress_move; [done| |done]. unfold health_fuel at 2. rewrite Ep. cbn.
      change (complete_fuel (with_pending _ _)) with (complete_fuel m). unfold rollback_fuel. lia.
    + apply late_unhealthy; try done. unfold health_fuel. rewrite Ep. unfold complete_fuel. lia.
  - rewrite Hco in Ha. destruct ev as [| | | | |[]| | |]; try done.
    + repeat split; [|left; eauto]. unfold health_fuel. rewrite Ep. cbn. unfold complete_fuel. lia.
    + destruct Hc as (H1 & H2 & H3 & H4 & H5 & H6). cbn zeta. rewrite tries_succ by done. cbn.
      destruct (Z.ltb_spec (complete_tries m + 1) (complete_attempts (cfg m))).
      * apply progress_move; [done| |].
        -- unfold health_fuel at 2. rewrite Ep. cbn. unfold complete_fuel. cbn. lia.
        -- unfold counters_ok, is_u32 in *. cbn. repeat split; try tauto; lia.
      * repeat split; [|left; eauto]. unfold health_fuel. rewrite Ep. cbn. unfold complete_fuel. lia.
  - rewrite Hco in Ha. destruct ev; try done. apply progress_move; [done| |done].
    unfold health_fuel. rewrite Ep. cbn. change (complete_fuel (with_pending _ _)) with (complete_fuel m). lia.
  - destruct Hco as [Hco Hre]. rewrite Hco in Ha. destruct ev; try done.
    destruct restart; (apply progress_move; [done| |done]); unfold health_fuel; rewrite Ep; cbn;
      try change (rollback_fuel (with_pending _ _)) with (rollback_fuel m); unfold rollback_fuel; lia.
  - rewrite Hco in Ha. destruct ev as [| | | | | | |[]|]; try done.
    + repeat split; [|left; eauto]. unfold health_fuel. rewrite Ep. cbn. unfold rollback_fuel. lia.
    + destruct Hc as (H1 & H2 & H3 & H4 & H5 & H6). cbn zeta. rewrite tries_succ by done. cbn.
      destruct (Z.ltb_spec (rollback_tries m + 1) (rollback_attempts (cfg m))).
      * apply progress_move; [done| |].
        -- unfold health_fuel at 2. rewrite Ep. cbn. unfold rollback_fuel. cbn. lia.
        -- unfold counters_ok, is_u32 in *. cbn. repeat split; try tauto; lia.
      * repeat split; [|left; eauto]. unfold health_fuel. rewrite Ep. cbn. unfold rollback_fuel. lia.
  - rewrite Hco in Ha. destruct ev; try done. apply progress_move; [done| |done].
    unfold health_fuel. rewrite Ep. cbn. change (rollback_fuel (with_pending _ _)) with (rollback_fuel m). lia.
  - rewrite Hco in Ha. destruct ev; try done. repeat split; [|left; eauto].
    unfold health_fuel. rewrite Ep. cbn. lia.
  - by destruct (Hnd v).
Qed.

(** ** the guarantees of the health policy *)

(** the policy acts only on a proven slot.  For every driver, confused or not: whenever an action is
    returned, the trace so far contains what justifies it.  [MarkValid] needs a slot that was first read
    as pending verification, the predicate asked after the dwell time without a refusal, and a healthy
    answer; [CompleteAttempt] needs, after that, a successful mark; a noted rollback, a rollback and a
    restart need a pending slot and a passed failure deadline; and a verdict that publishes "applied"
    needs a successful mark. *)
Lemma health_acts_on_proof c h e r ev a m :
  reaches c (h ++ [mkEntry e r ev a]) m →
  let h' := h ++ [mkEntry e r ev a] in
  match a with
  | MarkValid => decisive h' = Some SR_PendingVerify ∧ proved_healthy c h'
  | CompleteAttempt => decisive h' = Some SR_PendingVerify ∧ marked_valid c h'
  | NoteRollback _ | Rollback | Restart => decisive h' = Some SR_PendingVerify ∧ gave_up c h'
  | Finish v =>
      (publishes_applied v = true → marked_valid c h') ∧
      (opens_admission v = true → ∃ s, decisive h' = Some s) ∧
      (v = NothingToVerify → decisive h' = Some SR_NotPending)
  | Evaluate => decisive h' = Some SR_PendingVerify
  | ReadSlot | Sleep _ => True
  end.
Proof.
  intros Hr h'. pose proof (reaches_last _ _ _ _ _ Hr eq_refl) as Hp. simpl in Hp.
  destruct (reaches_inv _ _ _ Hr) as (_ & Hh & Hco). unfold coherent in Hco. rewrite Hp in Hco. clear Hp.
  destruct (phase m) as [| | | | | |re| | | |v]; simpl in Hh.
  1: destruct Hco as [-> | ->]; exact I.
  6: destruct Hco as [-> _]; exact Hh.
  all: subst a; try exact Hh; try exact I; try apply Hh.
  destruct v; simpl in Hh |- *; split_and!; intros; try done; try apply Hh; eexists; apply Hh.
Qed.

(** A healthy image at 40 s with a dwell of 30 s. *)
Lemma health_acts_on_proof_witness :
  let c := HealthConfig_from OtaTimings_default in
  let h := [mkEntry (from_secs 40) false (EvSlot SR_PendingVerify) Evaluate;
            mkEntry (from_secs 40) false (Healthy true) MarkValid] in
  proved_healthy c h.
Proof.
  intros c h. refine (proj2 (health_acts_on_proof c
    [mkEntry (from_secs 40) false (EvSlot SR_PendingVerify) Evaluate]
    (from_secs 40) false (Healthy true) MarkValid (drive (HealthMachine_new c)
      [(from_secs 40, false, EvSlot SR_PendingVerify); (from_secs 40, false, Healthy true)]) _)).
  set (m1 := drive (HealthMachine_new c) [(from_secs 40, false, EvSlot SR_PendingVerify)]).
  refine (reach_step c _ m1 _ _ _ _ _ _ _); [|vm_compute; reflexivity].
  apply (reach_step c [] (HealthMachine_new c)); [apply reach_new|vm_compute; reflexivity].
Defined.

Lemma drive_done l m v : phase m = PhDone v → phase (drive m l) = PhDone v.
Proof.
  revert m. induction l as [|[[e r] ev] l IH]; intros m Hp; simpl; [done|].
  apply IH. unfold step, advance. rewrite Hp. done.
Qed.

(** the policy always ends.  From any state a driver can reach, once the failure deadline has passed and
    the driver answers every action (the slot not busy), at most [health_fuel] further answers bring a
    final verdict; a fresh machine needs at most twice the configured slot, completion and rollback
    attempts plus six. *)
Lemma health_terminates c h m l :
  reaches c h m → counters_ok m → responsive m l → health_fuel m ≤ Z.of_nat (length l) →
  (∃ v, phase (drive m l) = PhDone v) ∧
  health_fuel (HealthMachine_new c) ≤
    6 + 2 * Z.max 0 (slot_min_attempts c) + 2 * Z.max 1 (complete_attempts c) +
    2 * Z.max 1 (rollback_attempts c).
Proof.
  intros Hr Hc Hl Hf. split.
  2:{ unfold health_fuel, rollback_fuel, complete_fuel.
      cbn [phase HealthMachine_new pending cfg failed_reads complete_tries rollback_tries].
      rewrite bool_decide_eq_true_2 by done. cbv iota. lia. }
  revert h m Hr Hc Hl Hf. induction l as [|[[e r] ev] l IH]; intros h m Hr Hc Hl Hf.
  { apply fuel_done. exact Hf. }
  destruct Hl as (Ha & He & Hl). cbn [drive].
  destruct (decide (∃ v, phase m = PhDone v)) as [[v Hd]|Hd].
  { exists v. apply drive_done. unfold step, advance. by rewrite Hd. }
  destruct (reaches_inv _ _ _ Hr) as (_ & _ & Hco).
  destruct (answered_progress e r ev m) as (Hcfg & Hlt & Hor); try done; [naive_solver|].
  destruct Hor as [[v Hv]|Hc']; [exists v; by apply drive_done|].
  destruct (step e r ev m) as [a m'] eqn:Es. simpl in *.
  eapply (IH (h ++ [mkEntry e r ev a])); [by eapply reach_step|done|done|].
  cbn [length] in Hf. lia.
Qed.

(** The unreadable slot of the default configuration: five failed reads and their sleeps. *)
Lemma health_terminates_witness :
  let c := HealthConfig_from OtaTimings_default in
  let t := from_secs 121 in
  let l := concat (replicate 14 [(t, false, EvSlot SR_Failed); (t, false, Woke)]) in
  ∃ v, phase (drive (HealthMachine_new c) l) = PhDone v.
Proof.
  intros c t l.
  refine (proj1 (health_terminates c [] (HealthMachine_new c) l (reach_new c) _ _ _)).
  - vm_compute. repeat split; discriminate.
  - vm_compute. repeat split; discriminate.
  - vm_compute. discriminate.
Defined.

(** The documentation of [step] says that an event that does not answer the pending action repeats it, "so
    a confused driver cannot skip a step".  While the slot is being read, a [Begin] or a slot reading that
    answers a [Sleep] is taken, so the pause between two reads can be skipped. *)
Lemma slot_retry_sleep_can_be_skipped :
  let m := HealthMachine_new (HealthConfig_from OtaTimings_default) in
  let '(a1, m1) := step 0 false (EvSlot SR_Failed) m in
  a1 = Sleep (from_millis 200) ∧
  (step 0 false Begin m1).1 = ReadSlot ∧
  (step 0 false (EvSlot SR_NotPending) m1).1 = Finish NothingToVerify.
Proof. vm_compute. auto. Qed.
