(* ===== verification/WriteAlign.v ===== *)
(** * WriteAlign: word-aligned flash writes from a chunked stream ([ota/write_align.rs])

    The driver's write is a callback with a state of its own ([W]); the aligner
    and that state are threaded together, and an error keeps what happened so
    far.  [usize] lengths are [nat]; offsets are [u32] in release arithmetic. *)
From S2P Require Import Prelude.
Open Scope Z_scope.
Open Scope rn_scope.

Definition MAX_WRITE_SIZE : nat := 8.

Record ChunkAligner := mkAligner {
  write_size : nat; carry : list Z; carry_len : nat; carry_offset : Z }.

Inductive AlignError (E : Type) := AE_OutOfOrder | AE_Write (e : E).
Arguments AE_OutOfOrder {E}.
Arguments AE_Write {E} e.

(** [usize::is_power_of_two], for the sizes up to [MAX_WRITE_SIZE]. *)
Definition write_size_ok (n : nat) : bool :=
  bool_decide (n ∈ [1; 2; 4; 8]%nat).

(** [None] is the panic of the constructor's assertion. *)
Definition ChunkAligner_new (n : nat) : option ChunkAligner :=
  if write_size_ok n then Some (mkAligner n (replicate MAX_WRITE_SIZE 0) 0 0) else None.

(** [dst[pos..pos + src.len()].copy_from_slice(src)] *)
Definition blit (pos : nat) (src dst : list Z) : list Z :=
  take pos dst ++ src ++ drop (pos + length src) dst.

Section aligner.
Context {W E : Type} (write : Z → list Z → M W E unit).

Definition get_aligner {F} : M (ChunkAligner * W) F ChunkAligner := λ s, (Ok s.1, s).
Definition put_aligner {F} (a : ChunkAligner) : M (ChunkAligner * W) F unit := λ s, (Ok tt, (a, s.2)).
(** [write(offset, data).map_err(AlignError::Write)?] *)
Definition do_write (offset : Z) (data : list Z) : M (ChunkAligner * W) (AlignError E) unit :=
  λ s, let '(r, w) := write offset data s.2 in (map_err AE_Write r, (s.1, w)).

(** Completes the held-back word; [None] is the source's early return. *)
Definition push_carry (bytes : list Z) :
    M (ChunkAligner * W) (AlignError E) (option (list Z)) :=
  a ← get_aligner;
  if (0 <? carry_len a)%nat then
    let n := Nat.min (write_size a - carry_len a) (length bytes) in
    let a := mkAligner (write_size a) (blit (carry_len a) (take n bytes) (carry a))
               (carry_len a + n)%nat (carry_offset a) in
    _ ← put_aligner a;
    if (carry_len a <? write_size a)%nat then mret None
    else
      _ ← do_write (carry_offset a) (take (write_size a) (carry a));
      _ ← put_aligner (mkAligner (write_size a) (carry a) 0
                         (carry_offset a ⊞ Z.of_nat (write_size a)));
      mret (Some (drop n bytes))
  else mret (Some bytes).

(** Whole words go out straight from the caller's buffer; the rest is returned. *)
Definition push_whole (rest : list Z) : M (ChunkAligner * W) (AlignError E) (list Z) :=
  a ← get_aligner;
  let whole := (length rest - length rest `mod` write_size a)%nat in
  if (0 <? whole)%nat then
    _ ← do_write (carry_offset a) (take whole rest);
    _ ← put_aligner (mkAligner (write_size a) (carry a) (carry_len a)
                       (carry_offset a ⊞ Z.of_nat whole));
    mret (drop whole rest)
  else mret rest.

(** [0..write_size-1] bytes wait for the next chunk. *)
Definition push_tail (rest : list Z) : M (ChunkAligner * W) (AlignError E) unit :=
  a ← get_aligner;
  if bool_decide (rest = []) then mret tt
  else put_aligner (mkAligner (write_size a) (blit 0 rest (carry a)) (length rest) (carry_offset a)).

Definition push (offset : Z) (bytes : list Z) : M (ChunkAligner * W) (AlignError E) unit :=
  a ← get_aligner;
  if negb (offset =? carry_offset a ⊞ Z.of_nat (carry_len a))
  then throw AE_OutOfOrder
  else
    r ← push_carry bytes;
    match r with
    | None => mret tt
    | Some rest => rest ← push_whole rest; push_tail rest
    end.

Definition aligner_finish (stream_end : Z) : M (ChunkAligner * W) (AlignError E) unit :=
  a ← get_aligner;
  if (carry_len a =? 0)%nat then mret tt
  else if negb (stream_end =? carry_offset a ⊞ Z.of_nat (carry_len a))
  then throw AE_OutOfOrder
  else
    let a := mkAligner (write_size a)
               (blit (carry_len a) (replicate (write_size a - carry_len a) 255) (carry a))
               (carry_len a) (carry_offset a) in
    _ ← put_aligner a;
    _ ← do_write (carry_offset a) (take (write_size a) (carry a));
    put_aligner (mkAligner (write_size a) (carry a) 0
                   (carry_offset a ⊞ Z.of_nat (write_size a))).
End aligner.

(** [len.div_ceil(align) * align] *)
Definition round_up (len align : Z) : Z :=
  u32_wrap ((len / align + (if len mod align =? 0 then 0 else 1)) * align).

(** ** A driver that records its writes *)

Abbreviation wlog := (list (Z * list Z)).

(** The driver may refuse a write at any time, for any reason that depends on
    what was written before. *)
Definition recording {E} (refuse : wlog → option E) (offset : Z) (data : list Z) : M wlog E unit :=
  λ log, match refuse log with
         | Some e => (Err e, log)
         | None => (Ok tt, log ++ [(offset, data)])
         end.

(** The writes are contiguous from [start] and aligned to [n]. *)
Fixpoint aligned_from (n : nat) (start : Z) (log : wlog) : Prop :=
  match log with
  | [] => True
  | (o, d) :: log =>
      o = start ∧ (o mod Z.of_nat n = 0) ∧ d ≠ [] ∧ (length d mod n = 0)%nat ∧
      aligned_from n (start + Z.of_nat (length d)) log
  end.

Definition written (log : wlog) : list Z := concat (map snd log).
Arguments written : simpl never.

Lemma written_snoc log o d : written (log ++ [(o, d)]) = written log ++ d.
Proof. unfold written. rewrite map_app, concat_app. simpl. by rewrite app_nil_r. Qed.

Lemma aligned_snoc n start log o d :
  aligned_from n start log → o = start + Z.of_nat (length (written log)) →
  o mod Z.of_nat n = 0 → d ≠ [] → (length d mod n = 0)%nat →
  aligned_from n start (log ++ [(o, d)]).
Proof.
  revert start. induction log as [|[o' d'] log IH]; intros start; simpl.
  - intros _ -> ? ? ?. change (written []) with (@nil Z) in *. simpl in *.
    rewrite Z.add_0_r in *. by split_and!.
  - intros (-> & ? & ? & ? & Hl) -> Ho Hd Hm. split_and!; try done. apply IH; try done.
    unfold written. simpl. rewrite length_app. lia.
Qed.

Lemma aligned_mod n start log : n ≠ 0%nat →
  aligned_from n start log → (length (written log) mod n = 0)%nat.
Proof.
  intros Hn. revert start. induction log as [|[o d] log IH]; intros start; simpl.
  - intros _. unfold written. simpl. by apply Nat.Div0.mod_0_l.
  - intros (_ & _ & _ & Hd & Hl). unfold written. simpl. rewrite length_app.
    apply IH in Hl. unfold written in Hl. rewrite Nat.Div0.add_mod, Hd, Hl. by apply Nat.Div0.mod_0_l.
Qed.

Lemma blit_take pos src dst :
  (pos + length src ≤ length dst)%nat → take (pos + length src) (blit pos src dst) = take pos dst ++ src.
Proof.
  intros Hl. unfold blit. rewrite app_assoc. apply take_app_length'.
  rewrite length_app, length_take. lia.
Qed.

Lemma blit_length pos src dst :
  (pos + length src ≤ length dst)%nat → length (blit pos src dst) = length dst.
Proof. intros Hl. unfold blit. rewrite !length_app, length_take, length_drop. lia. Qed.

(** ** The invariant: what is written plus what is held back is the stream *)

Definition al_inv (n : nat) (stream : list Z) (a : ChunkAligner) (log : wlog) : Prop :=
  write_size a = n ∧ length (carry a) = MAX_WRITE_SIZE ∧ (carry_len a < n)%nat ∧
  aligned_from n 0 log ∧ carry_offset a = Z.of_nat (length (written log)) ∧
  written log ++ take (carry_len a) (carry a) = stream.

(** What a refused write leaves. *)
Definition al_stopped (n : nat) (stream : list Z) (log : wlog) : Prop :=
  aligned_from n 0 log ∧ written log `prefix_of` stream.

Lemma write_size_cases n : write_size_ok n = true → (1 ≤ n ≤ MAX_WRITE_SIZE)%nat ∧ n ≠ 0%nat.
Proof.
  unfold write_size_ok, MAX_WRITE_SIZE. rewrite bool_decide_eq_true, !elem_of_cons, elem_of_nil. lia.
Qed.

Lemma written_carry n stream a log :
  al_inv n stream a log → n ≠ 0%nat → (n ≤ MAX_WRITE_SIZE)%nat →
  length stream = (length (written log) + carry_len a)%nat.
Proof.
  intros (_ & Hl & Hc & _ & _ & <-) Hn Hm. rewrite length_app, length_take. lia.
Qed.

Lemma offset_aligned n log : n ≠ 0%nat → aligned_from n 0 log →
  Z.of_nat (length (written log)) mod Z.of_nat n = 0.
Proof.
  intros Hn Ha. rewrite <- Nat2Z.inj_mod. by rewrite (aligned_mod n 0 log).
Qed.

Section push.
Context {E : Type} (refuse : wlog → option E).
Let W := recording (E:=E) refuse.

Lemma do_write_recording o d (a : ChunkAligner) log :
  do_write W o d (a, log) =
  match refuse log with
  | Some e => (Err (AE_Write e), (a, log))
  | None => (Ok tt, (a, log ++ [(o, d)]))
  end.
Proof. unfold do_write, W, recording. simpl. by destruct (refuse log). Qed.

Lemma push_carry_spec n stream a log bytes :
  write_size_ok n = true → al_inv n stream a log →
  Z.of_nat (length stream + length bytes) + Z.of_nat n ≤ u32_max →
  match push_carry W bytes (a, log) with
  | (Ok None, (a', log')) => al_inv n (stream ++ bytes) a' log'
  | (Ok (Some rest), (a', log')) =>
      ∃ k, rest = drop k bytes ∧ carry_len a' = 0%nat ∧ al_inv n (stream ++ take k bytes) a' log'
  | (Err e, (a', log')) => (∃ x, e = AE_Write x) ∧ al_stopped n (stream ++ bytes) log'
  end.
Proof.
  intros Hok Hinv Hmax. destruct (write_size_cases n Hok) as [Hn Hn0].
  pose proof (written_carry _ _ _ _ Hinv Hn0 ltac:(lia)) as Hlen.
  pose proof Hinv as (Hw & Hl & Hc & Ha & Ho & Hs).
  unfold push_carry, mbind, M_bind, get_aligner, put_aligner. cbn [fst snd].
  destruct (Nat.ltb_spec 0 (carry_len a)) as [Hpos|Hz].
  2:{ exists 0%nat. split_and!; [done|lia|]. by rewrite take_0, app_nil_r. }
  set (k := Nat.min (write_size a - carry_len a) (length bytes)).
  assert (Hlk : length (take k bytes) = k) by (rewrite length_take; lia).
  assert (Hfit : (carry_len a + length (take k bytes) ≤ length (carry a))%nat)
    by (rewrite Hlk, Hl; unfold k, MAX_WRITE_SIZE in *; lia).
  pose proof (blit_take _ _ _ Hfit) as Hbt. rewrite Hlk in Hbt.
  pose proof (blit_length _ _ _ Hfit) as Hbl.
  cbn [carry_len write_size carry carry_offset].
  assert (Hkk : k = Nat.min (write_size a - carry_len a) (length bytes)) by done. clearbody k.
  destruct (Nat.ltb_spec (carry_len a + k) (write_size a)) as [Hlt|Hge].
  - assert (Hkb : k = length bytes) by lia. unfold al_inv. cbn.
    split_and!; [done|by rewrite Hbl|lia|done|done|].
    rewrite Hkb in Hbt |- *. rewrite Hbt, (take_ge bytes) by lia. by rewrite app_assoc, Hs.
  - assert (Hws : write_size a = (carry_len a + k)%nat) by lia.
    rewrite do_write_recording. cbn [fst snd].
    rewrite Hws, Hbt. destruct (refuse log) as [x|].
    + split; [by eexists|]. split; [done|]. rewrite <- Hs. exists (take (carry_len a) (carry a) ++ bytes).
      by rewrite app_assoc.
    + exists k. cbn. split_and!; [done|done|]. unfold al_inv. cbn.
      assert (Hlast : length (take (carry_len a) (carry a) ++ take k bytes) = n).
      { rewrite length_app, length_take, Hlk, Hl. unfold MAX_WRITE_SIZE in *. lia. }
      split_and!; [lia|by rewrite Hbl|lia| | |].
      * apply aligned_snoc; [done|by rewrite Z.add_0_l| | |].
        -- rewrite Ho. by apply offset_aligned.
        -- intros Hnil. rewrite Hnil in Hlast. simpl in Hlast. lia.
        -- rewrite Hlast. by apply Nat.Div0.mod_same.
      * rewrite written_snoc, length_app, Hlast, Ho. unfold u32_wrapping_add.
        rewrite u32_wrap_small by (unfold is_u32, u32_max in *; lia). lia.
      * rewrite written_snoc, take_0, app_nil_r. rewrite app_assoc. by rewrite Hs.
Qed.

Lemma push_whole_spec n stream a log rest :
  write_size_ok n = true → al_inv n stream a log → carry_len a = 0%nat →
  Z.of_nat (length stream + length rest) + Z.of_nat n ≤ u32_max →
  match push_whole W rest (a, log) with
  | (Ok tail, (a', log')) =>
      ∃ k, tail = drop k rest ∧ (length tail < n)%nat ∧ carry_len a' = 0%nat ∧
           al_inv n (stream ++ take k rest) a' log'
  | (Err e, (a', log')) => (∃ x, e = AE_Write x) ∧ al_stopped n (stream ++ rest) log'
  end.
Proof.
  intros Hok Hinv Hz Hmax. destruct (write_size_cases n Hok) as [Hn Hn0].
  pose proof (written_carry _ _ _ _ Hinv Hn0 ltac:(lia)) as Hlen.
  pose proof Hinv as (Hw & Hl & Hc & Ha & Ho & Hs). rewrite Hz, take_0, app_nil_r in Hs.
  unfold push_whole, mbind, M_bind, get_aligner, put_aligner. cbn [fst snd]. rewrite Hw.
  pose proof (Nat.mod_upper_bound (length rest) n Hn0) as Hmod.
  pose proof (Nat.Div0.mod_le (length rest) n) as Hmle.
  pose proof (Nat.div_mod_eq (length rest) n) as Hdm.
  set (whole := (length rest - length rest `mod` n)%nat) in *.
  destruct (Nat.ltb_spec 0 whole) as [Hpos|Hzero].
  2:{ exists 0%nat. rewrite drop_0, take_0, app_nil_r. split_and!; [done|lia|done|done]. }
  assert (Hwl : length (take whole rest) = whole) by (rewrite length_take; lia).
  rewrite do_write_recording. destruct (refuse log) as [x|].
  { split; [by eexists|]. split; [done|]. rewrite Hs. by eexists. }
  cbn. exists whole. split_and!; [done|rewrite length_drop; lia|done|].
  unfold al_inv. cbn. split_and!; [done|done|lia| | |].
  - apply aligned_snoc; [done|by rewrite Z.add_0_l| | |].
    + rewrite Ho. by apply offset_aligned.
    + intros Hnil. rewrite Hnil in Hwl. simpl in Hwl. lia.
    + rewrite Hwl. replace whole with (length rest / n * n)%nat by lia.
      by apply Nat.Div0.mod_mul.
  - rewrite written_snoc, length_app, Hwl, Ho. unfold u32_wrapping_add.
    rewrite u32_wrap_small by (unfold is_u32, u32_max in *; lia). lia.
  - rewrite written_snoc, Hz, take_0, app_nil_r. by rewrite Hs.
Qed.

Lemma push_tail_spec n stream a log tail :
  write_size_ok n = true → al_inv n stream a log → carry_len a = 0%nat → (length tail < n)%nat →
  ∃ a', push_tail tail (a, log) = (Ok (E:=AlignError E) tt, (a', log)) ∧ al_inv n (stream ++ tail) a' log.
Proof.
  intros Hok (Hw & Hl & Hc & Ha & Ho & Hs) Hz Ht. destruct (write_size_cases n Hok) as [Hn Hn0].
  unfold push_tail, mbind, M_bind, get_aligner, put_aligner. cbn [fst snd].
  case_bool_decide as Htl.
  { exists a. split; [done|]. subst tail. by rewrite app_nil_r. }
  eexists. split; [done|]. rewrite Hz, take_0, app_nil_r in Hs.
  assert (Hfit : (0 + length tail ≤ length (carry a))%nat) by (rewrite Hl; lia).
  unfold al_inv. cbn. split_and!; [done|by rewrite blit_length|done|done|done|].
  pose proof (blit_take 0 tail (carry a) Hfit) as Hb. simpl in Hb. rewrite Hb, Hs. done.
Qed.

Lemma stopped_mono n s1 s2 log : al_stopped n s1 log → s1 `prefix_of` s2 → al_stopped n s2 log.
Proof. intros [? ?] ?. split; [done|]. by etrans. Qed.

(** A push at the stream's position: the invariant of the longer stream, or a
    refused write over an aligned prefix of it. *)
Lemma push_spec n stream a log bytes :
  write_size_ok n = true → al_inv n stream a log →
  Z.of_nat (length stream + length bytes) + Z.of_nat n ≤ u32_max →
  match push W (Z.of_nat (length stream)) bytes (a, log) with
  | (Ok _, (a', log')) => al_inv n (stream ++ bytes) a' log'
  | (Err e, (a', log')) => (∃ x, e = AE_Write x) ∧ al_stopped n (stream ++ bytes) log'
  end.
Proof.
  intros Hok Hinv Hmax. destruct (write_size_cases n Hok) as [Hn Hn0].
  pose proof (written_carry _ _ _ _ Hinv Hn0 ltac:(lia)) as Hlen.
  pose proof Hinv as (Hw & Hl & Hc & Ha & Ho & Hs).
  unfold push, mbind, M_bind, get_aligner at 1. cbn [fst snd].
  unfold u32_wrapping_add. rewrite Ho, u32_wrap_small by (unfold is_u32, u32_max in *; lia).
  rewrite Hlen, Nat2Z.inj_add, Z.eqb_refl. cbn [negb].
  pose proof (push_carry_spec n stream a log bytes Hok Hinv Hmax) as Hcar.
  destruct (push_carry W bytes (a, log)) as [[[rest|]|e] [a1 log1]]; try done.
  destruct Hcar as (k & -> & Hz & Hinv1).
  pose proof (length_take bytes k). pose proof (length_drop bytes k).
  assert (Hmax1 : Z.of_nat (length (stream ++ take k bytes) + length (drop k bytes)) + Z.of_nat n ≤ u32_max)
    by (rewrite length_app; lia).
  pose proof (push_whole_spec n _ a1 log1 _ Hok Hinv1 Hz Hmax1) as Hwh.
  destruct (push_whole W (drop k bytes) (a1, log1)) as [[tail|e] [a2 log2]].
  - destruct Hwh as (k' & -> & Hlt & Hz' & Hinv2).
    destruct (push_tail_spec n _ a2 log2 _ Hok Hinv2 Hz' Hlt) as (a3 & -> & Hinv3).
    by rewrite <- app_assoc, take_drop, <- app_assoc, take_drop in Hinv3.
  - destruct Hwh as [He Hst]. split; [done|]. by rewrite <- app_assoc, take_drop in Hst.
Qed.

(** ** The whole stream *)

(** The tier's loop: every received chunk is pushed at the running offset, then
    the tail is flushed. *)
Fixpoint push_all (offset : Z) (chunks : list (list Z)) : M (ChunkAligner * wlog) (AlignError E) Z :=
  match chunks with
  | [] => mret offset
  | c :: chunks => _ ← push W offset c; push_all (offset ⊞ Z.of_nat (length c)) chunks
  end.

Definition write_stream (chunks : list (list Z)) : M (ChunkAligner * wlog) (AlignError E) unit :=
  stream_end ← push_all 0 chunks; aligner_finish W stream_end.

Lemma push_all_spec n chunks : ∀ stream a log,
  write_size_ok n = true → al_inv n stream a log →
  Z.of_nat (length (stream ++ concat chunks)) + Z.of_nat n ≤ u32_max →
  match push_all (Z.of_nat (length stream)) chunks (a, log) with
  | (Ok e, (a', log')) => e = Z.of_nat (length (stream ++ concat chunks)) ∧
                          al_inv n (stream ++ concat chunks) a' log'
  | (Err e, (a', log')) => (∃ x, e = AE_Write x) ∧ al_stopped n (stream ++ concat chunks) log'
  end.
Proof.
  induction chunks as [|c chunks IH]; intros stream a log Hok Hinv Hmax; simpl.
  { by rewrite app_nil_r. }
  simpl in Hmax. rewrite !length_app in Hmax.
  unfold mbind, M_bind.
  pose proof (push_spec n stream a log c Hok Hinv ltac:(lia)) as Hp.
  destruct (push W (Z.of_nat (length stream)) c (a, log)) as [[[]|e] [a1 log1]].
  - unfold u32_wrapping_add.
    rewrite u32_wrap_small by (unfold is_u32, u32_max in *; lia).
    rewrite <- Nat2Z.inj_add, <- length_app. rewrite app_assoc. apply IH; try done.
    rewrite !length_app. lia.
  - destruct Hp as [He Hst]. split; [done|]. eapply stopped_mono; [done|].
    rewrite app_assoc. by eexists.
Qed.

(** The bytes the driver sees: the stream, padded to the next word with [0xFF]. *)
Definition padded (n : nat) (stream : list Z) : list Z :=
  stream ++ replicate ((n - length stream `mod` n) `mod` n)%nat 255.

Lemma finish_spec n stream a log :
  write_size_ok n = true → al_inv n stream a log →
  Z.of_nat (length stream) + Z.of_nat n ≤ u32_max →
  match aligner_finish W (Z.of_nat (length stream)) (a, log) with
  | (Ok _, (a', log')) => aligned_from n 0 log' ∧ written log' = padded n stream ∧ carry_len a' = 0%nat
  | (Err e, (a', log')) => (∃ x, e = AE_Write x) ∧ al_stopped n stream log'
  end.
Proof.
  intros Hok Hinv Hmax. destruct (write_size_cases n Hok) as [Hn Hn0].
  pose proof (written_carry _ _ _ _ Hinv Hn0 ltac:(lia)) as Hlen.
  pose proof Hinv as (Hw & Hl & Hc & Ha & Ho & Hs).
  pose proof (aligned_mod n 0 log Hn0 Ha) as Hwm.
  assert (Hsm : (length stream `mod` n = carry_len a)%nat).
  { rewrite Hlen, Nat.Div0.add_mod, Hwm, Nat.add_0_l, Nat.Div0.mod_mod. by apply Nat.mod_small. }
  unfold aligner_finish, mbind, M_bind, get_aligner, put_aligner. cbn [fst snd]. unfold padded. rewrite Hsm.
  destruct (Nat.eqb_spec (carry_len a) 0) as [Hz|Hnz].
  { cbn. split_and!; [done| |done]. rewrite Hz, Nat.sub_0_r, Nat.Div0.mod_same. simpl.
    rewrite app_nil_r. rewrite Hz, take_0, app_nil_r in Hs. done. }
  unfold u32_wrapping_add. rewrite Ho, u32_wrap_small by (unfold is_u32, u32_max in *; lia).
  rewrite Hlen, Nat2Z.inj_add, Z.eqb_refl. cbn [negb].
  rewrite do_write_recording. cbn [carry carry_offset write_size carry_len]. rewrite Hw.
  set (pad := replicate (n - carry_len a) 255).
  assert (Hpl : length pad = (n - carry_len a)%nat) by apply length_replicate.
  assert (Hfit : (carry_len a + length pad ≤ length (carry a))%nat) by (rewrite Hpl, Hl; lia).
  pose proof (blit_take _ _ _ Hfit) as Hbt. rewrite Hpl in Hbt.
  replace (carry_len a + (n - carry_len a))%nat with n in Hbt by lia. rewrite Hbt.
  cbn [carry carry_offset write_size carry_len fst snd]. rewrite ?Ho, ?Hbt.
  destruct (refuse log) as [x|].
  { cbn. split; [by eexists|]. split; [done|]. rewrite <- Hs. by eexists. }
  cbn. split_and!; [|rewrite written_snoc, app_assoc, Hs; f_equal; unfold pad; f_equal;
                     symmetry; apply Nat.mod_small; lia|done].
  assert (Hlast : length (take (carry_len a) (carry a) ++ pad) = n)
    by (rewrite length_app, length_take, Hpl, Hl; lia).
  apply aligned_snoc; [done|done| | |].
  - by apply offset_aligned.
  - intros Hnil. rewrite Hnil in Hlast. simpl in Hlast. lia.
  - rewrite Hlast. apply Nat.Div0.mod_same.
Qed.
End push.

(** ** Properties *)

(** C5: a stream fed in any chunking and flushed reaches the driver as one
    gap-free sequence of writes from offset 0, every offset and length a
    multiple of the write size, whose bytes are the stream followed by [0xFF] up
    to the next word and nothing else; if the driver refuses a write at any
    point the stream stops there with that error and what was written is an
    aligned prefix of the stream. *)
Theorem stream_written_aligned {E : Type} (refuse : wlog → option E) (n : nat) (a : ChunkAligner)
    (chunks : list (list Z)) :
  ChunkAligner_new n = Some a →
  Z.of_nat (length (concat chunks)) + Z.of_nat n ≤ u32_max →
  match write_stream refuse chunks (a, []) with
  | (Ok _, (a', log)) =>
      aligned_from n 0 log ∧ written log = padded n (concat chunks) ∧ carry_len a' = 0%nat
  | (Err e, (_, log)) => (∃ x, e = AE_Write x) ∧ al_stopped n (concat chunks) log
  end.
Proof.
  unfold ChunkAligner_new. destruct (write_size_ok n) eqn:Hok; intros [= <-] Hmax.
  destruct (write_size_cases n Hok) as [Hn Hn0].
  assert (Hinv : al_inv n [] (mkAligner n (replicate MAX_WRITE_SIZE 0) 0 0) []).
  { unfold al_inv. cbn. split_and!; try done. lia. }
  unfold write_stream, mbind, M_bind.
  pose proof (push_all_spec refuse n chunks [] _ [] Hok Hinv Hmax) as Hp.
  change (Z.of_nat (length (@nil Z))) with 0 in Hp.
  destruct (push_all refuse 0 chunks _) as [[e|e] [a1 log1]]; [|done].
  destruct Hp as [-> Hinv1]. simpl app in *.
  pose proof (finish_spec refuse n _ a1 log1 Hok Hinv1 Hmax) as Hf.
  destruct (aligner_finish _ _ _) as [[[]|e] [a2 log2]]; done.
Qed.

Lemma stream_written_aligned_witness :
  match write_stream (E:=unit) (λ _, None) [[1; 2; 3; 4; 5]; [6]; [7; 8; 9]]
          (mkAligner 4 (replicate 8%nat 0) 0 0, []) with
  | (Ok _, (a', log)) =>
      aligned_from 4 0 log ∧ written log = padded 4 [1; 2; 3; 4; 5; 6; 7; 8; 9] ∧ carry_len a' = 0%nat
  | (Err e, (_, log)) => (∃ x, e = AE_Write x) ∧ al_stopped 4 [1; 2; 3; 4; 5; 6; 7; 8; 9] log
  end.
Proof.
  apply (stream_written_aligned (λ _, None) 4 _ [[1; 2; 3; 4; 5]; [6]; [7; 8; 9]]).
  - reflexivity.
  - vm_compute. discriminate.
Defined.

(** A push off the stream's position writes nothing and changes nothing. *)
Lemma push_out_of_order {W E} (write : Z → list Z → M W E unit) (a : ChunkAligner) (w : W) offset bytes :
  offset ≠ carry_offset a ⊞ Z.of_nat (carry_len a) →
  push write offset bytes (a, w) = (Err AE_OutOfOrder, (a, w)).
Proof.
  intros Hne. unfold push, mbind, M_bind, get_aligner. cbn [fst snd].
  by rewrite (proj2 (Z.eqb_neq _ _) Hne).
Qed.

(** [round_up] is the least multiple of [align] from [len] on, when it fits. *)
Lemma round_up_least len align :
  0 ≤ len → 0 < align → len + align ≤ u32_max →
  round_up len align mod align = 0 ∧ len ≤ round_up len align < len + align.
Proof.
  intros Hl Ha Hm. unfold round_up.
  pose proof (Z.div_mod len align ltac:(lia)) as Hd.
  pose proof (Z.mod_pos_bound len align Ha) as Hb.
  pose proof (Z.div_pos len align Hl Ha) as Hq.
  destruct (Z.eqb_spec (len mod align) 0) as [Hz|Hnz];
    rewrite u32_wrap_small by (unfold is_u32, u32_max in *; nia);
    (split; [by apply Z.mod_mul; lia|nia]).
Qed.
