(* ===== verification/Url.v ===== *)
(** * Url: the plain-HTTP URL check shared by command and manifest parsing
    ([ota/wire/url.rs])

    A [&str] is the string of its UTF-8 bytes, so [str::get] also asks for a
    character boundary.  [plain_http] is the grammar the check promises. *)
From Stdlib Require Import Ascii.
From S2P Require Import Prelude Text.
Open Scope Z_scope.

(** ** The pieces of [str] the check uses *)

Definition is_ascii_whitespace (a : ascii) : bool :=
  bool_decide (byte_of a ∈ [9; 10; 12; 13; 32]).
Definition is_ascii_control (a : ascii) : bool := (byte_of a <? 32) || (byte_of a =? 127).

Definition ascii_lower (a : ascii) : ascii :=
  if (65 <=? byte_of a) && (byte_of a <=? 90) then byte_chr (byte_of a + 32) else a.

Fixpoint eq_ignore_ascii_case (s t : string) : bool :=
  match s, t with
  | EmptyString, EmptyString => true
  | String a s, String b t => Ascii.eqb (ascii_lower a) (ascii_lower b) && eq_ignore_ascii_case s t
  | _, _ => false
  end.

(** The string does not start inside a character. *)
Definition char_boundary (s : string) : bool :=
  match s with
  | EmptyString => true
  | String a _ => negb ((128 <=? byte_of a) && (byte_of a <? 192))
  end.

Fixpoint split_at (n : nat) (s : string) : option (string * string) :=
  match n, s with
  | O, _ => Some (EmptyString, s)
  | S _, EmptyString => None
  | S n, String a s => match split_at n s with Some (l, r) => Some (String a l, r) | None => None end
  end.

(** [s.get(..n)] together with [&s[n..]]. *)
Definition get_prefix (n : nat) (s : string) : option (string * string) :=
  match split_at n s with
  | Some (l, r) => if char_boundary r then Some (l, r) else None
  | None => None
  end.

(** [s.split(p).next()] and what follows, separator included. *)
Fixpoint split_first (p : ascii → bool) (s : string) : string * string :=
  match s with
  | EmptyString => (EmptyString, EmptyString)
  | String a s' => if p a then (EmptyString, s)
                   else let '(l, r) := split_first p s' in (String a l, r)
  end.

Fixpoint str_any (p : ascii → bool) (s : string) : bool :=
  match s with EmptyString => false | String a s' => p a || str_any p s' end.

(** [s.rsplit(c).next()] *)
Fixpoint after_last (c : ascii) (s : string) : string :=
  match s with
  | EmptyString => EmptyString
  | String a s' => if str_any (λ b, Ascii.eqb b c) s' then after_last c s'
                   else if Ascii.eqb a c then s' else s
  end.

Definition strip_char (c : ascii) (s : string) : option string :=
  match s with String a s' => if Ascii.eqb a c then Some s' else None | EmptyString => None end.

(** ** [is_plain_http_url] *)

Definition SCHEME : string := "http://".
Definition ends_authority (a : ascii) : bool :=
  Ascii.eqb a "/"%char || Ascii.eqb a "?"%char || Ascii.eqb a "#"%char.

(** The host and the port, [None] for the early [return false]. *)
Definition host_port (host_and_port : string) : option (string * option string) :=
  match strip_char "["%char host_and_port with
  | Some bracketed =>
      match split_once "]"%char bracketed with
      | None => None
      | Some (host, after) =>
          match strip_char ":"%char after with
          | Some p => Some (host, Some p)
          | None => if bool_decide (after = EmptyString) then Some (host, None) else None
          end
      end
  | None =>
      match split_once ":"%char host_and_port with
      | Some (h, p) => Some (h, Some p)
      | None => Some (host_and_port, None)
      end
  end.

Definition port_ok (p : string) : bool :=
  negb (bool_decide (p = EmptyString)) && str_forall is_digit p &&
  bool_decide (is_Some (parse_u16 p)).

Definition is_plain_http_url (url : string) : bool :=
  match get_prefix (String.length SCHEME) url with
  | None => false
  | Some (prefix, rest) =>
      if negb (eq_ignore_ascii_case prefix SCHEME) then false
      else if str_any (λ b, is_ascii_whitespace b || is_ascii_control b) rest then false
      else
        let authority := (split_first ends_authority rest).1 in
        let host_and_port := after_last "@"%char authority in
        match host_port host_and_port with
        | None => false
        | Some (host, port) =>
            if bool_decide (host = EmptyString) then false
            else match port with Some p => port_ok p | None => true end
        end
  end.

(** ** The grammar *)

Definition no_char (c : ascii) (s : string) : Prop := str_forall (λ b, negb (Ascii.eqb b c)) s = true.

Inductive port_part : string → Prop :=
| PP_none : port_part EmptyString
| PP_port p n : p ≠ EmptyString → str_forall is_digit p = true → parse_u16 p = Some n →
    port_part (":" +:+ p).

Inductive host_port_part : string → Prop :=
| HP_name h p : h ≠ EmptyString → no_char ":"%char h → strip_char "["%char h = None →
    port_part p → host_port_part (h +:+ p)
| HP_literal h p : h ≠ EmptyString → no_char "]"%char h → port_part p →
    host_port_part ("[" +:+ h +:+ "]" +:+ p).

Inductive userinfo : string → Prop :=
| UI_none : userinfo EmptyString
| UI_some u : userinfo (u +:+ "@").

Inductive path_part : string → Prop :=
| PA_none : path_part EmptyString
| PA_some a s : ends_authority a = true → path_part (String a s).

(** [http://] in any case, optional user information, a non-empty host, an
    optional 16-bit port, anything after the authority; no white space and no
    control character. *)
Inductive plain_http : string → Prop :=
| plain_http_intro s u hp t :
    eq_ignore_ascii_case s SCHEME = true →
    userinfo u → host_port_part hp → path_part t →
    no_char "@"%char hp → str_forall (λ b, negb (ends_authority b)) (u +:+ hp) = true →
    str_any (λ b, is_ascii_whitespace b || is_ascii_control b) (u +:+ hp +:+ t) = false →
    char_boundary (u +:+ hp +:+ t) = true →
    plain_http (s +:+ u +:+ hp +:+ t).

(** ** Lemmas *)

Lemma app_cons a s t : String a s +:+ t = String a (s +:+ t).
Proof. done. Qed.
Lemma app_nil t : EmptyString +:+ t = t.
Proof. done. Qed.

Lemma app_assoc_str (a b c : string) : (a +:+ b) +:+ c = a +:+ (b +:+ c).
Proof. induction a as [|x a IH]; [done|]. by rewrite !app_cons, IH. Qed.

Lemma app_nil_str (a : string) : a +:+ EmptyString = a.
Proof. induction a as [|x a IH]; [done|]. by rewrite !app_cons, IH. Qed.

Lemma split_at_spec n s l r : split_at n s = Some (l, r) ↔ s = l +:+ r ∧ String.length l = n.
Proof.
  split.
  - revert s l. induction n as [|n IH]; intros s l; simpl; [by intros [= <- <-]|].
    destruct s as [|a s]; [done|]. destruct (split_at n s) as [[l' r']|] eqn:E; [|done].
    intros [= <- <-]. destruct (IH _ _ E) as [-> <-]. done.
  - intros [-> <-]. induction l as [|a l IH]; [done|]. rewrite app_cons. simpl. by rewrite IH.
Qed.

Lemma split_once_spec c s l r :
  split_once c s = Some (l, r) → s = l +:+ String c r ∧ no_char c l.
Proof.
  unfold no_char. revert l. induction s as [|a s IH]; intros l; simpl; [done|].
  destruct (Ascii.eqb_spec a c) as [->|Hne]; [by intros [= <- <-]|].
  destruct (split_once c s) as [[l' r']|]; [|done]. intros [= <- <-].
  destruct (IH l' eq_refl) as [-> Hl]. split; [done|]. simpl.
  by rewrite (proj2 (Ascii.eqb_neq a c) Hne).
Qed.

Lemma split_once_none_inv c s : split_once c s = None → no_char c s.
Proof.
  unfold no_char. induction s as [|a s IH]; simpl; [done|].
  destruct (Ascii.eqb a c); [done|]. destruct (split_once c s) as [[]|]; [done|]. intros _. by rewrite IH.
Qed.

Lemma split_first_spec p s l r :
  split_first p s = (l, r) →
  s = l +:+ r ∧ str_forall (λ b, negb (p b)) l = true ∧
  match r with EmptyString => True | String a _ => p a = true end.
Proof.
  revert l. induction s as [|a s IH]; intros l; simpl; [by intros [= <- <-]|].
  destruct (p a) eqn:Hp; [by intros [= <- <-]|].
  destruct (split_first p s) as [l' r']. intros [= <- <-].
  destruct (IH l' eq_refl) as (-> & Hl & Hr). cbn [str_forall]. rewrite Hp. done.
Qed.

Lemma split_first_app p l r :
  str_forall (λ b, negb (p b)) l = true →
  match r with EmptyString => True | String a _ => p a = true end →
  split_first p (l +:+ r) = (l, r).
Proof.
  intros Hl Hr. induction l as [|a l IH]; rewrite ?app_nil, ?app_cons; simpl.
  - destruct r as [|b r]; [done|]. simpl. by rewrite Hr.
  - simpl in Hl. apply andb_true_iff in Hl as [Ha Hl]. apply negb_true_iff in Ha. rewrite Ha.
    by rewrite (IH Hl).
Qed.

Lemma str_any_forall p s : str_any p s = negb (str_forall (λ b, negb (p b)) s).
Proof. induction s as [|a s IH]; [done|]. simpl. rewrite IH. by destruct (p a). Qed.

Lemma no_char_any c s : no_char c s ↔ str_any (λ b, Ascii.eqb b c) s = false.
Proof. unfold no_char. rewrite str_any_forall. by destruct (str_forall _ s). Qed.

Lemma after_last_none c s : no_char c s → after_last c s = s.
Proof.
  destruct s as [|a s]; [done|]. intros Hn%no_char_any. simpl in *.
  apply orb_false_iff in Hn as [-> ->]. done.
Qed.

Lemma after_last_app c l r : no_char c r → after_last c (l +:+ String c r) = r.
Proof.
  intros Hr. induction l as [|a l IH]; rewrite ?app_nil, ?app_cons; simpl.
  - rewrite (proj1 (no_char_any c r) Hr), Ascii.eqb_refl. done.
  - assert (Hany : str_any (λ b, Ascii.eqb b c) (l +:+ String c r) = true).
    { clear. induction l as [|a l IH]; rewrite ?app_nil, ?app_cons; simpl; [by rewrite Ascii.eqb_refl|].
      rewrite orb_true_iff. by right. }
    by rewrite Hany.
Qed.

Lemma after_last_spec c s :
  ∃ u, s = u +:+ after_last c s ∧ (u = EmptyString ∨ ∃ u', u = u' +:+ String c EmptyString) ∧
       no_char c (after_last c s).
Proof.
  induction s as [|a s IH]; simpl.
  { exists EmptyString. split_and!; [done|by left|done]. }
  destruct IH as (u & Hs & Hu & Hn).
  destruct (str_any (λ b, Ascii.eqb b c) s) eqn:Hany.
  - exists (String a u). split_and!; [by rewrite app_cons, <- Hs| |done]. right.
    destruct Hu as [->|[u' ->]]; [|by exists (String a u')].
    exfalso. rewrite app_nil in Hs. rewrite <- Hs in Hn. apply no_char_any in Hn. congruence.
  - destruct (Ascii.eqb_spec a c) as [->|Hne].
    + exists (String c EmptyString). split_and!; [done|by right; exists EmptyString|].
      by apply no_char_any.
    + exists EmptyString. split_and!; [done|by left|].
      apply no_char_any. simpl. rewrite Hany. by rewrite (proj2 (Ascii.eqb_neq a c) Hne).
Qed.

Lemma strip_char_spec c s r : strip_char c s = Some r ↔ s = String c r.
Proof.
  destruct s as [|a s]; simpl; [done|]. destruct (Ascii.eqb_spec a c) as [->|Hne].
  - split; [by intros [= <-]|by intros [= <-]].
  - split; [done|]. by intros [= <- <-].
Qed.

Lemma port_ok_spec p : port_ok p = true ↔ port_part (":" +:+ p).
Proof.
  unfold port_ok. rewrite !andb_true_iff, negb_true_iff, bool_decide_eq_false, bool_decide_eq_true.
  split.
  - intros [[Hne Hd] [n Hn]]. by econstructor.
  - intros Hp. remember (":" +:+ p) as q eqn:Hq. destruct Hp as [|p' n Hne Hd Hn]; [done|].
    change (String ":" p' = String ":" p) in Hq. injection Hq as ->. split_and!; [done..|by exists n].
Qed.

Lemma host_port_sound s h p :
  host_port s = Some (h, p) → h ≠ EmptyString → (∀ q, p = Some q → port_ok q = true) →
  host_port_part s.
Proof.
  unfold host_port. intros Hs Hh Hp. destruct (strip_char "["%char s) as [b|] eqn:Hb.
  - apply strip_char_spec in Hb as ->.
    destruct (split_once "]"%char b) as [[h' after]|] eqn:Hc; [|done].
    apply split_once_spec in Hc as [-> Hno].
    change (String "[" (h' +:+ String "]" after)) with ("[" +:+ h' +:+ "]" +:+ after).
    destruct (strip_char ":"%char after) as [q|] eqn:Hq.
    + injection Hs as <- <-. apply strip_char_spec in Hq as ->. apply HP_literal; [done|done|].
      apply (port_ok_spec q). by apply Hp.
    + case_bool_decide; [|done]. injection Hs as <- <-. subst after. apply HP_literal; [done|done|constructor].
  - destruct (split_once ":"%char s) as [[h' q]|] eqn:Hc.
    + injection Hs as <- <-. apply split_once_spec in Hc as [-> Hno].
      apply HP_name; [done|done| |apply (port_ok_spec q); by apply Hp].
      destruct h' as [|a h']; [done|]. rewrite app_cons in Hb. simpl in *. by destruct (Ascii.eqb a "["%char).
    + injection Hs as <- <-. rewrite <- (app_nil_str s). apply HP_name; [done| |done|constructor].
      by apply split_once_none_inv.
Qed.

Lemma host_port_complete s :
  host_port_part s →
  ∃ h p, host_port s = Some (h, p) ∧ h ≠ EmptyString ∧ (∀ q, p = Some q → port_ok q = true).
Proof.
  unfold host_port. destruct 1 as [h p Hh Hno Hb Hp|h p Hh Hno Hp].
  - assert (Hbs : strip_char "["%char (h +:+ p) = None).
    { destruct h as [|a h]; [done|]. rewrite app_cons. simpl in *. by destruct (Ascii.eqb a "["%char). }
    rewrite Hbs. destruct Hp as [|p n Hne Hd Hn].
    + rewrite app_nil_str. rewrite split_once_none by done. by exists h, None.
    + change (":" +:+ p) with (String ":" p). rewrite split_once_app by done. exists h, (Some p). split_and!; [done|done|].
      intros q [= <-]. apply port_ok_spec. by econstructor.
  - change ("[" +:+ h +:+ "]" +:+ p) with (String "[" (h +:+ String "]" p)). simpl.
    rewrite split_once_app by done. destruct Hp as [|p n Hne Hd Hn].
    + by exists h, None.
    + change (":" +:+ p) with (String ":" p). simpl. exists h, (Some p).
      split_and!; [done|done|]. intros q [= <-]. apply port_ok_spec. by econstructor.
Qed.

Lemma no_char_ends s : str_forall (λ b, negb (ends_authority b)) s = true →
  split_first ends_authority s = (s, EmptyString).
Proof. intros H. rewrite <- (app_nil_str s) at 1. by apply split_first_app. Qed.

Lemma is_plain_http_url_spec url : is_plain_http_url url = true ↔ plain_http url.
Proof.
  unfold is_plain_http_url, get_prefix. split.
  - destruct (split_at _ url) as [[s rest]|] eqn:Hs; [|done].
    destruct (char_boundary rest) eqn:Hcb; [|done].
    destruct (eq_ignore_ascii_case s SCHEME) eqn:Hsch; [|done]. cbn [negb].
    destruct (str_any _ rest) eqn:Hws; [done|]. apply split_at_spec in Hs as [-> _].
    destruct (split_first ends_authority rest) as [auth t] eqn:Hf.
    apply split_first_spec in Hf as (-> & Hauth & Ht). cbn [fst].
    destruct (after_last_spec "@"%char auth) as (u & Ha & Hu & Hno).
    destruct (host_port _) as [[h p]|] eqn:Hhp; [|done].
    case_bool_decide as Hne; [done|]. intros Hp. rewrite Ha in Hauth, Hws, Hcb |- *.
    rewrite (app_assoc_str u) in *.
    apply plain_http_intro; try done.
    + destruct Hu as [->|[u' ->]]; [constructor|apply UI_some].
    + eapply host_port_sound; [done|done|]. by intros q ->.
    + destruct t as [|a t]; [constructor|by constructor].
  - destruct 1 as [s u hp t Hs Hu Hhp Ht Hno Hauth Hws Hcb].
    assert (Hat : split_at (String.length SCHEME) (s +:+ u +:+ hp +:+ t) = Some (s, u +:+ hp +:+ t)).
    { apply split_at_spec. split; [done|]. clear -Hs. revert Hs. generalize SCHEME as q.
      induction s as [|a s IH]; intros [|b q]; simpl; try done.
      intros [_ Hq]%andb_true_iff. by rewrite (IH q). }
    rewrite Hat, Hcb, Hs, Hws. cbn [negb].
    rewrite <- (app_assoc_str u hp t), (split_first_app _ (u +:+ hp) t);
      [|done|by destruct Ht].
    cbn [fst]. destruct (host_port_complete hp Hhp) as (h & p & Hp & Hne & Hport).
    assert (Hlast : after_last "@"%char (u +:+ hp) = hp).
    { destruct Hu as [|u]; [by apply after_last_none|].
      rewrite app_assoc_str. change ("@" +:+ hp) with (String "@" hp). by apply after_last_app. }
    rewrite Hlast, Hp. rewrite bool_decide_eq_false_2 by done.
    destruct p as [q|]; [by apply Hport|done].
Qed.

Example url_examples :
  map is_plain_http_url
    ["http://h/m.json"; "HTTP://user:pw@host:8080/x?y"; "http://[::1]:80/"; "https://h/"; "http://";
     "http://u@/x"; "http://h:65536/"; "http://h:/"; "http://h:+1/"; "http://[]/"] =
  [true; true; true; false; false; false; false; false; false; false].
Proof. vm_compute. reflexivity. Qed.

(** the check accepts exactly the plain HTTP URLs: the scheme in any case,
    optional user information, a non-empty host (or a bracketed literal), an
    optional port that is a 16-bit number, and any path, without white space or
    control characters anywhere behind the scheme. *)
Theorem url_check_exact url : is_plain_http_url url = true ↔ plain_http url.
Proof. apply is_plain_http_url_spec. Qed.
