(* ===== verification/Hex.v ===== *)
(** * Hex: digests as text ([ota/verifier.rs]) and image metadata ([ota/metadata.rs])

    A byte is a [Z]; [[u8; 32]] is a list of 32 bytes.  The SHA-256 hasher is
    third-party code, so its state and operations are parameters. *)
From Stdlib Require Import Ascii.
From S2P Require Import Prelude Text Version Url.
Open Scope Z_scope.

Section verifier.
Context {Sha256 : Type} (sha_new : Sha256) (sha_update : Sha256 → list Z → Sha256)
  (sha_finalize : Sha256 → list Z).

Record StreamingVerifier := mkVerifier { hasher : Sha256 }.
Definition StreamingVerifier_new : StreamingVerifier := mkVerifier sha_new.
Definition verifier_update (data : list Z) (v : StreamingVerifier) : StreamingVerifier :=
  mkVerifier (sha_update (hasher v) data).
Definition verifier_finalize (v : StreamingVerifier) : list Z := sha_finalize (hasher v).
End verifier.

(** ** Decoding *)

Definition hex_char_to_nibble (c : Z) : result OtaError Z :=
  if (48 <=? c) && (c <=? 57) then Ok (c - 48)
  else if (97 <=? c) && (c <=? 102) then Ok (c - 97 + 10)
  else if (65 <=? c) && (c <=? 70) then Ok (c - 65 + 10)
  else Err ChecksumMismatch.

(** [(high << 4) | low] on [u8]. *)
Definition nibbles (high low : Z) : Z := Z.lor (Z.shiftl high 4 mod 256) low.

Fixpoint hex_chunks (s : string) : result OtaError (list Z) :=
  match s with
  | String a (String b s') =>
      high ← hex_char_to_nibble (byte_of a);
      low ← hex_char_to_nibble (byte_of b);
      bytes ← hex_chunks s';
      Ok (nibbles high low :: bytes)
  | _ => Ok []
  end.

Definition hex_to_bytes (hex : string) : result OtaError (list Z) :=
  if negb (str_len hex =? 64) then Err ChecksumMismatch else hex_chunks hex.

(** ** Encoding *)

Definition HEX_CHARS : list ascii :=
  ["0"; "1"; "2"; "3"; "4"; "5"; "6"; "7"; "8"; "9"; "a"; "b"; "c"; "d"; "e"; "f"]%char.

Definition hex_char (n : Z) : ascii := default "0"%char (HEX_CHARS !! Z.to_nat n).

(** [heapless::String<64>::push]: [None] when the capacity is used up. *)
Definition heapless_push (cap : Z) (s : string) (c : ascii) : option string :=
  if str_len s + 1 <=? cap then Some (s +:+ String c EmptyString) else None.

Fixpoint bytes_to_hex_go (bytes : list Z) (s : string) : option string :=
  match bytes with
  | [] => Some s
  | b :: bytes =>
      s ← heapless_push 64 s (hex_char (Z.shiftr b 4));
      s ← heapless_push 64 s (hex_char (Z.land b 15));
      bytes_to_hex_go bytes s
  end.

(** [None] is the panic of an [unwrap]. *)
Definition bytes_to_hex (bytes : list Z) : option string := bytes_to_hex_go bytes EmptyString.

(** ** [ImageMetadata] *)

Record ImageMetadata := mkMetadata { im_sha256 : list Z; im_version : Version }.

#[export] Instance ImageMetadata_eq_dec : EqDecision ImageMetadata.
Proof. solve_decision. Defined.

Definition ImageMetadata_parse (sha256_hex version_str : string) : result OtaError ImageMetadata :=
  sha256 ← hex_to_bytes (trim sha256_hex);
  version ← Version_parse (trim version_str);
  Ok (mkMetadata sha256 version).

(** ** Lemmas *)

Definition is_hex (a : ascii) : bool :=
  let b := byte_of a in
  ((48 <=? b) && (b <=? 57)) || ((97 <=? b) && (b <=? 102)) || ((65 <=? b) && (b <=? 70)).

Lemma nibble_range a n : hex_char_to_nibble (byte_of a) = Ok n → 0 ≤ n < 16.
Proof. unfold hex_char_to_nibble. repeat (case_match; [intros [= <-]; lia|]). done. Qed.

Lemma nibble_is_hex a : is_hex a = true ↔ ∃ n, hex_char_to_nibble (byte_of a) = Ok n.
Proof.
  unfold is_hex, hex_char_to_nibble.
  destruct (_ && _); [naive_solver|]. destruct (_ && _); [naive_solver|].
  destruct (_ && _); naive_solver.
Qed.

(** Lower-casing keeps the digit's value, and the encoder prints the lower-case digit. *)
Lemma hex_char_nibble a n : hex_char_to_nibble (byte_of a) = Ok n → hex_char n = ascii_lower a.
Proof. by destruct a as [[] [] [] [] [] [] [] []]; vm_compute; first [intros [= <-]|intros [=]]. Qed.

Lemma nibble_hex_char n : 0 ≤ n < 16 → hex_char_to_nibble (byte_of (hex_char n)) = Ok n.
Proof.
  intros Hn. assert (Hc : n ∈ (Z.of_nat <$> seq 0 16)).
  { apply list_elem_of_fmap. exists (Z.to_nat n). rewrite elem_of_seq. lia. }
  revert Hc. cbn. rewrite !elem_of_cons, elem_of_nil.
  intros H. repeat (destruct H as [->|H]; [reflexivity|]). done.
Qed.

Lemma nibbles_parts h l : 0 ≤ h < 16 → 0 ≤ l < 16 →
  Z.shiftr (nibbles h l) 4 = h ∧ Z.land (nibbles h l) 15 = l ∧ is_u8 (nibbles h l).
Proof.
  intros Hh Hl. unfold nibbles. rewrite Z.shiftl_mul_pow2 by lia. change (2 ^ 4) with 16.
  rewrite Z.mod_small by lia.
  assert (Hlor : Z.lor (h * 16) l = h * 16 + l).
  { assert (Hd : Z.land (h * 16) l = 0).
    { apply Z.bits_inj_0. intros i. rewrite Z.land_spec. change 16 with (2 ^ 4).
      destruct (Z.ltb_spec i 0); [by rewrite (Z.testbit_neg_r l) by lia; rewrite andb_false_r|].
      destruct (Z.ltb_spec i 4); [by rewrite Z.mul_pow2_bits_low by lia|].
      rewrite (Z.bits_above_log2 l i); [by rewrite andb_false_r|lia|].
      destruct (Z.eqb_spec l 0) as [->|]; [simpl; lia|]. apply Z.log2_lt_pow2; [lia|].
      apply Z.lt_le_trans with (2 ^ 4); [lia|]. apply Z.pow_le_mono_r; lia. }
    rewrite <- Z.add_lor_land, Hd. lia. }
  rewrite Hlor. split_and!.
  - rewrite Z.shiftr_div_pow2 by lia. change (2 ^ 4) with 16. symmetry. apply (Z.div_unique _ _ _ l); lia.
  - change 15 with (Z.ones 4). rewrite Z.land_ones by lia. change (2 ^ 4) with 16.
    symmetry. apply (Z.mod_unique _ _ h); lia.
  - unfold is_u8, u8_max. lia.
Qed.

Lemma nibbles_join b : is_u8 b → nibbles (Z.shiftr b 4) (Z.land b 15) = b ∧
  0 ≤ Z.shiftr b 4 < 16 ∧ 0 ≤ Z.land b 15 < 16.
Proof.
  unfold is_u8, u8_max. intros Hb.
  assert (Hh : Z.shiftr b 4 = b / 16) by (rewrite Z.shiftr_div_pow2 by lia; done).
  assert (Hl : Z.land b 15 = b mod 16) by (change 15 with (Z.ones 4); rewrite Z.land_ones by lia; done).
  pose proof (Z.mod_pos_bound b 16 ltac:(lia)). pose proof (Z.div_mod b 16 ltac:(lia)).
  assert (0 ≤ b / 16 < 16) by (split; [apply Z.div_pos; lia|apply Z.div_lt_upper_bound; lia]).
  rewrite Hh, Hl. split_and!; try lia.
  destruct (nibbles_parts (b / 16) (b mod 16)) as (Hn1 & Hn2 & _); [lia..|].
  assert (Hs : nibbles (b / 16) (b mod 16) = Z.shiftr (nibbles (b / 16) (b mod 16)) 4 * 16 +
                                             Z.land (nibbles (b / 16) (b mod 16)) 15).
  { change 15 with (Z.ones 4). rewrite Z.land_ones, Z.shiftr_div_pow2 by lia.
    change (2 ^ 4) with 16. rewrite Z.mul_comm. apply Z.div_mod. lia. }
  rewrite Hs, Hn1, Hn2. lia.
Qed.

Fixpoint lower (s : string) : string :=
  match s with EmptyString => EmptyString | String a s => String (ascii_lower a) (lower s) end.

(** The decoder on whole digit pairs. *)
Lemma hex_chunks_ok s n : String.length s = (2 * n)%nat →
  (str_forall is_hex s = true ↔ ∃ l, hex_chunks s = Ok l) ∧
  ∀ l, hex_chunks s = Ok l →
    length l = n ∧ Forall is_u8 l ∧ ∀ acc, str_len acc + 2 * Z.of_nat n ≤ 64 →
    bytes_to_hex_go l acc = Some (acc +:+ lower s).
Proof.
  revert s. induction n as [|n IH]; intros s Hl.
  { destruct s; [|done]. split; [split; [by exists []|done]|]. intros l [= <-].
    split_and!; [done|constructor|]. intros acc _. simpl. by rewrite app_nil_str. }
  destruct s as [|a [|b s]]; [done|simpl in Hl; lia|].
  destruct (IH s) as [Hok Hdec]; [simpl in Hl; lia|]. clear IH.
  unfold mbind, result_bind. cbn [hex_chunks str_forall]. split.
  - rewrite !andb_true_iff, Hok, !nibble_is_hex. unfold mbind, result_bind. split.
    + intros ([x Hx] & [y Hy] & [l Hl']). rewrite Hx, Hy, Hl'. by eexists.
    + intros [l Hl']. destruct (hex_char_to_nibble (byte_of a)); [|done].
      destruct (hex_char_to_nibble (byte_of b)); [|done]. destruct (hex_chunks s); [|done]. split_and!; eauto.
  - intros l. unfold mbind, result_bind.
    destruct (hex_char_to_nibble (byte_of a)) as [h|] eqn:Ha; [|done].
    destruct (hex_char_to_nibble (byte_of b)) as [lo|] eqn:Hb; [|done].
    destruct (hex_chunks s) as [l'|] eqn:Hs; [|done]. intros [= <-].
    destruct (Hdec l' eq_refl) as (Hlen & Hall & Henc).
    destruct (nibbles_parts h lo) as (H1 & H2 & H3); [by eapply nibble_range..|].
    split_and!; [simpl; lia|by constructor|].
    intros acc Hacc. cbn [bytes_to_hex_go]. unfold heapless_push.
    rewrite (proj2 (Z.leb_le _ _)) by lia. cbn [mbind option_bind].
    rewrite str_len_app. change (str_len (String _ EmptyString)) with 1.
    rewrite (proj2 (Z.leb_le _ _)) by lia. cbn [mbind option_bind].
    rewrite H1, H2, (hex_char_nibble _ _ Ha), (hex_char_nibble _ _ Hb).
    rewrite Henc by (rewrite !str_len_app; change (str_len (String _ EmptyString)) with 1; lia).
    by rewrite !app_assoc_str.
Qed.

Lemma bytes_to_hex_decode l : Forall is_u8 l →
  ∀ acc, str_len acc + 2 * Z.of_nat (length l) ≤ 64 →
  ∃ s, bytes_to_hex_go l acc = Some (acc +:+ s) ∧ String.length s = (2 * length l)%nat ∧ hex_chunks s = Ok l.
Proof.
  induction 1 as [|b l Hb Hall IH]; intros acc Hacc.
  { exists EmptyString. simpl. by rewrite app_nil_str. }
  destruct (nibbles_join b Hb) as (Hj & Hh & Hlo). cbn [bytes_to_hex_go].
  simpl length in *. unfold heapless_push.
  rewrite (proj2 (Z.leb_le _ _)) by lia. cbn [mbind option_bind].
  rewrite str_len_app. change (str_len (String _ EmptyString)) with 1.
  rewrite (proj2 (Z.leb_le _ _)) by lia. cbn [mbind option_bind].
  edestruct IH as (s & Hs & Hlen & Hdec).
  2:{ eexists (String _ (String _ s)). split_and!; [rewrite Hs; by rewrite !app_assoc_str|simpl; lia|].
      cbn [hex_chunks]. rewrite !nibble_hex_char by done. unfold mbind, result_bind.
      rewrite Hdec. by rewrite Hj. }
  rewrite !str_len_app. change (str_len (String _ EmptyString)) with 1. lia.
Qed.

Lemma hex_chunks_err : ∀ n s e, (String.length s < n)%nat → hex_chunks s = Err e → e = ChecksumMismatch.
Proof.
  intros n. induction n as [|n IH]; intros s e Hl; [lia|].
  destruct s as [|a [|b s]]; [done..|]. cbn [hex_chunks]. unfold mbind, result_bind.
  unfold hex_char_to_nibble. simpl in Hl. repeat case_match; try naive_solver.
  all: intros [= <-]; eapply IH; [|done]; lia.
Qed.

Lemma hex_to_bytes_err s e : hex_to_bytes s = Err e → e = ChecksumMismatch.
Proof.
  unfold hex_to_bytes. case_match; [by intros [= <-]|].
  apply (hex_chunks_err (S (String.length s))). lia.
Qed.

Lemma hex_to_bytes_length s b : hex_to_bytes s = Ok b → length b = 32%nat.
Proof.
  unfold hex_to_bytes. destruct (Z.eqb_spec (str_len s) 64) as [Hl|]; [|done]. simpl. intros Hb.
  destruct (hex_chunks_ok s 32) as [_ Hdec]; [unfold str_len in Hl; lia|]. by apply Hdec.
Qed.

Lemma Version_parse_err s e : Version_parse s = Err e → e = VersionInvalid.
Proof.
  unfold Version_parse, ok_or, mbind, result_bind. repeat case_match; naive_solver.
Qed.

(** ** Properties *)

(** the digest codec is a bijection up to letter case.  Every 32-byte digest is printed without a
    panic as 64 characters that decode to the same digest; decoding succeeds exactly on 64
    hexadecimal digits of either case, yields 32 bytes, and printing them gives the input back in
    lower case; every other text is a checksum mismatch. *)
Lemma hex_roundtrip :
  (∀ bytes, length bytes = 32%nat → Forall is_u8 bytes →
     ∃ s, bytes_to_hex bytes = Some s ∧ str_len s = 64 ∧ hex_to_bytes s = Ok bytes) ∧
  ∀ s, match hex_to_bytes s with
       | Ok bytes => str_len s = 64 ∧ str_forall is_hex s = true ∧ length bytes = 32%nat ∧
                     Forall is_u8 bytes ∧ bytes_to_hex bytes = Some (lower s)
       | Err e => e = ChecksumMismatch ∧ ¬ (str_len s = 64 ∧ str_forall is_hex s = true)
       end.
Proof.
  split.
  - intros bytes Hlen Hall.
    destruct (bytes_to_hex_decode bytes Hall EmptyString) as (s & Hs & Hl & Hd).
    { rewrite Hlen. by vm_compute. }
    exists s. rewrite Hlen in Hl. unfold hex_to_bytes, bytes_to_hex, str_len. rewrite Hl. done.
  - intros s. unfold hex_to_bytes. destruct (Z.eqb_spec (str_len s) 64) as [Hl|Hl]; cbn [negb]; [|tauto].
    destruct (hex_chunks_ok s 32) as [Hok Hdec]; [unfold str_len in Hl; lia|].
    destruct (hex_chunks s) as [l|e] eqn:Hs.
    + destruct (Hdec l eq_refl) as (? & ? & Henc). split_and!; try done; [apply Hok; eauto|].
      apply (Henc EmptyString). by vm_compute.
    + split; [|rewrite Hok; naive_solver]. apply (hex_chunks_err (S (String.length s)) s); [lia|done].
Qed.

(** The sidecar parser reports the digest before the version. *)
Lemma metadata_error_order h v e :
  ImageMetadata_parse h v = Err e →
  (e = ChecksumMismatch ∧ ∃ e', hex_to_bytes (trim h) = Err e') ∨
  (∃ b, hex_to_bytes (trim h) = Ok b) ∧ Version_parse (trim v) = Err e.
Proof.
  unfold ImageMetadata_parse, mbind, result_bind.
  destruct (hex_to_bytes (trim h)) as [b|e'] eqn:Hh.
  - destruct (Version_parse (trim v)) eqn:Hv; [done|]. intros [= ->]. right. eauto.
  - intros [= ->]. left. split; [by eapply hex_to_bytes_err|eauto].
Qed.
