(* ===== verification/Wire.v ===== *)
(** * Wire: commands and manifests ([ota/wire/mod.rs], [ota/wire/command.rs], [ota/wire/manifest.rs])

    A payload is a list of bytes.  The JSON parser is third-party code:
    [serde_json::from_slice] into the private [RawCommand] / [RawManifest] is the
    parameter [from_slice], any function of the payload that returns the decoded
    fields or a line and a column. *)
From S2P Require Import Prelude Text Version Reason Url Hex.
Open Scope Z_scope.

(** [u8::is_ascii_whitespace] *)
Definition ws (b : Z) : bool := bool_decide (b ∈ [9; 10; 12; 13; 32]).
Definition LF : Z := 10.
Definition LBRACE : Z := 123.

Fixpoint token_position (bytes : list Z) (line column : Z) : Z * Z :=
  match bytes with
  | [] => (1, 1)
  | b :: bytes =>
      if negb (ws b) then (line, column)
      else if b =? LF then token_position bytes (line + 1) 1
      else token_position bytes line (column + 1)
  end.

Definition first_token_position (bytes : list Z) : Z * Z := token_position bytes 1 1.

(** [payload.iter().find(|b| !b.is_ascii_whitespace())] *)
Definition first_token (bytes : list Z) : option Z :=
  snd <$> list_find (λ b, ws b = false) bytes.

(** ** Commands *)

Definition MAX_COMMAND_BYTES : Z := 512.

Record RawCommand := mkRawCommand {
  rc_manifest_url : option string; rc_sig : option string;
  rc_action : option string; rc_from : option string }.

Inductive OtaCommand :=
| CmdUpdate (manifest_url : string) (sig_present : bool)
| CmdRollback (from : Version)
| CmdRepair.

#[export] Instance OtaCommand_eq_dec : EqDecision OtaCommand.
Proof. solve_decision. Defined.

Inductive CommandError :=
| CE_TooLarge
| CE_Malformed (line column : Z)
| CE_UnsupportedShape
| CE_InvalidUrl
| CE_InvalidVersion.

Definition CommandError_reason (e : CommandError) : FailReason := FR_CommandInvalid.

(** The match on the decoded fields. *)
Definition command_of_raw (raw : RawCommand) : result CommandError OtaCommand :=
  match rc_manifest_url raw, rc_action raw, rc_from raw with
  | Some manifest_url, None, None =>
      if negb (is_plain_http_url manifest_url) then Err CE_InvalidUrl
      else Ok (CmdUpdate manifest_url (bool_decide (is_Some (rc_sig raw))))
  | None, Some action, Some from =>
      if bool_decide (action = "rollback") && bool_decide (rc_sig raw = None) then
        from ← map_err (λ _, CE_InvalidVersion) (Version_parse from);
        Ok (CmdRollback from)
      else Err CE_UnsupportedShape
  | None, Some action, None =>
      if bool_decide (action = "repair") && bool_decide (rc_sig raw = None) then Ok CmdRepair
      else Err CE_UnsupportedShape
  | _, _, _ => Err CE_UnsupportedShape
  end.

Definition OtaCommand_parse (from_slice : list Z → result (Z * Z) RawCommand) (payload : list Z) :
    result CommandError OtaCommand :=
  if MAX_COMMAND_BYTES <? Z.of_nat (length payload) then Err CE_TooLarge
  else if negb (bool_decide (first_token payload = Some LBRACE)) then
    let '(line, column) := first_token_position payload in Err (CE_Malformed line column)
  else
    raw ← map_err (λ '(line, column), CE_Malformed line (Z.max column 1)) (from_slice payload);
    command_of_raw raw.

(** ** Manifests *)

Definition MAX_MANIFEST_BYTES : Z := 1024.

Record Manifest := mkManifest {
  mf_version : string; mf_sha256 : string; mf_url : string; mf_target : string }.

(** [RawManifest] has the same four fields, all required. *)
Abbreviation RawManifest := Manifest.

Inductive ManifestError :=
| ME_TooLarge
| ME_Malformed (line column : Z)
| ME_TargetMismatch
| ME_InvalidVersion
| ME_InvalidDigest
| ME_InvalidUrl.

Definition ManifestError_reason (e : ManifestError) : FailReason :=
  match e with
  | ME_TargetMismatch => FR_TargetMismatch
  | ME_TooLarge | ME_Malformed _ _ | ME_InvalidVersion | ME_InvalidDigest | ME_InvalidUrl =>
      FR_ManifestInvalid
  end.

Definition Manifest_parse (from_slice : list Z → result (Z * Z) RawManifest) (body : list Z) :
    result ManifestError Manifest :=
  if MAX_MANIFEST_BYTES <? Z.of_nat (length body) then Err ME_TooLarge
  else if negb (bool_decide (first_token body = Some LBRACE)) then
    let '(line, column) := first_token_position body in Err (ME_Malformed line column)
  else
    manifest ← map_err (λ '(line, column), ME_Malformed line (Z.max column 1)) (from_slice body);
    if negb (is_plain_http_url (mf_url manifest)) then Err ME_InvalidUrl else Ok manifest.

Definition check_target (m : Manifest) (running_chip : string) : result ManifestError unit :=
  if bool_decide (mf_target m = running_chip) then Ok tt else Err ME_TargetMismatch.

Definition image_metadata (m : Manifest) : result ManifestError ImageMetadata :=
  map_err (λ e, match e with VersionInvalid => ME_InvalidVersion | _ => ME_InvalidDigest end)
    (ImageMetadata_parse (mf_sha256 m) (mf_version m)).

(** ** Lemmas *)

Lemma token_position_skip w b rest l c :
  Forall (λ x, ws x = true ∧ x ≠ LF) w → ws b = false →
  token_position (w ++ b :: rest) l c = (l, c + Z.of_nat (length w)).
Proof.
  intros Hw Hb. revert c. induction Hw as [|x w [Hx Hlf] Hw IH]; intros c; simpl.
  - rewrite Hb. simpl. f_equal. lia.
  - rewrite Hx. simpl. rewrite (proj2 (Z.eqb_neq _ _) Hlf), IH. f_equal. lia.
Qed.

(** The position of the first token: the lines before it, then its column. *)
Lemma first_token_position_spec lines w b rest :
  Forall (λ ln, Forall (λ x, ws x = true ∧ x ≠ LF) ln) lines →
  Forall (λ x, ws x = true ∧ x ≠ LF) w → ws b = false →
  first_token_position (concat ((λ ln, ln ++ [LF]) <$> lines) ++ w ++ b :: rest) =
    (1 + Z.of_nat (length lines), 1 + Z.of_nat (length w)).
Proof.
  intros Hl Hw Hb. unfold first_token_position.
  assert (Hgen : ∀ l c, ∃ c', token_position (concat ((λ ln, ln ++ [LF]) <$> lines) ++ w ++ b :: rest) l c =
    (l + Z.of_nat (length lines), c' + Z.of_nat (length w)) ∧ (c = 1 → c' = 1)).
  { induction Hl as [|ln lines Hln Hl IH]; intros l c.
    - exists c. simpl. rewrite token_position_skip by done. split; [f_equal; lia|done].
    - destruct (IH (l + 1) 1) as (c' & Hc & Hone). exists c'. split; [|auto].
      cbn [fmap list_fmap concat]. rewrite <- !app_assoc. clear -Hln Hc.
      assert (Hs : ∀ c, token_position (ln ++ [LF] ++ concat ((λ ln, ln ++ [LF]) <$> lines) ++ w ++ b :: rest) l c =
                   token_position (concat ((λ ln, ln ++ [LF]) <$> lines) ++ w ++ b :: rest) (l + 1) 1).
      { clear Hc. induction Hln as [|x ln [Hx Hlf] Hln IH]; intros c0; [done|]. simpl app.
        cbn [token_position]. rewrite Hx. cbn [negb]. rewrite (proj2 (Z.eqb_neq _ _) Hlf). apply IH. }
      rewrite Hs, Hc. simpl length. f_equal. lia. }
  destruct (Hgen 1 1) as (c' & -> & Hone). rewrite Hone by done. done.
Qed.

(** The payload is a JSON object as far as its first byte that is not white space tells. *)
Definition object_start (bytes : list Z) : Prop :=
  ∃ w rest, bytes = w ++ LBRACE :: rest ∧ Forall (λ b, ws b = true) w.

Lemma first_token_object bytes : first_token bytes = Some LBRACE ↔ object_start bytes.
Proof.
  unfold first_token. rewrite fmap_Some. split.
  - intros ([i x] & Hf & Hb). simpl in Hb. subst x. apply list_find_Some in Hf as (Hi & Hx & Hbefore). simpl in *.
    exists (take i bytes), (drop (S i) bytes). split; [by rewrite take_drop_middle|].
    apply Forall_forall. intros y Hy. apply list_elem_of_lookup in Hy as [k Hk].
    apply lookup_take_Some in Hk as [Hk Hlt].
    specialize (Hbefore k y Hk Hlt). by destruct (ws y).
  - intros (w & rest & -> & Hw). exists (length w, LBRACE). split; [|done].
    apply list_find_Some. split_and!; [by apply list_lookup_middle|done|].
    intros k y Hk Hlt. rewrite lookup_app_l in Hk by done.
    eapply Forall_lookup_1 in Hw; [|done]. simpl in Hw. by rewrite Hw.
Qed.

(** The three accepted shapes. *)
Inductive accepted : RawCommand → OtaCommand → Prop :=
| A_update url sig :
    plain_http url →
    accepted (mkRawCommand (Some url) sig None None) (CmdUpdate url (bool_decide (is_Some sig)))
| A_rollback from v :
    Version_parse from = Ok v →
    accepted (mkRawCommand None None (Some "rollback") (Some from)) (CmdRollback v)
| A_repair : accepted (mkRawCommand None None (Some "repair") None) CmdRepair.

Lemma command_of_raw_spec raw c : command_of_raw raw = Ok c ↔ accepted raw c.
Proof.
  split.
  - destruct raw as [url sig action from]. unfold command_of_raw. cbn.
    destruct url as [url|], action as [action|], from as [from|]; try done.
    + destruct (is_plain_http_url url) eqn:Hu; [|done]. intros [= <-].
      apply A_update. by apply is_plain_http_url_spec.
    + case_bool_decide as Ha; [|done]. case_bool_decide as Hs; [|done]. subst. cbn.
      destruct (Version_parse from) eqn:Hv; [|done]. intros [= <-]. by apply A_rollback.
    + case_bool_decide as Ha; [|done]. case_bool_decide as Hs; [|done]. subst. cbn.
      intros [= <-]. apply A_repair.
  - destruct 1 as [url sig Hu|from v Hv|]; unfold command_of_raw; cbn; [|by rewrite Hv|done].
    by rewrite (proj2 (is_plain_http_url_spec url) Hu).
Qed.

(** ** Properties *)

(** command intake accepts exactly three shapes.  A command is accepted if and only if the payload has at
    most 512 bytes, its first byte that is not white space opens an object, the JSON parser decodes
    it, and the decoded fields are a plain-HTTP update (whose flag says whether a signature was
    present), an unsigned rollback of a parsable version, or an unsigned repair; and an oversize or
    non-object payload is answered without the parser, whatever it would do. *)
Lemma command_parse_exact (from_slice : list Z → result (Z * Z) RawCommand) payload :
  (∀ c, OtaCommand_parse from_slice payload = Ok c ↔
     Z.of_nat (length payload) ≤ MAX_COMMAND_BYTES ∧ object_start payload ∧
     ∃ raw, from_slice payload = Ok raw ∧ accepted raw c) ∧
  (∀ other, MAX_COMMAND_BYTES < Z.of_nat (length payload) ∨ ¬ object_start payload →
     OtaCommand_parse from_slice payload = OtaCommand_parse other payload).
Proof.
  unfold OtaCommand_parse. split.
  - intros c. rewrite <- first_token_object. destruct (Z.ltb_spec MAX_COMMAND_BYTES (Z.of_nat (length payload))); [naive_solver lia|].
    case_bool_decide as Ho; cbn [negb].
    + destruct (from_slice payload) as [raw|[l col]]; cbn; [|naive_solver].
      rewrite command_of_raw_spec. naive_solver.
    + destruct (first_token_position payload). naive_solver.
  - intros other. rewrite <- first_token_object. intros [Hl|Ho].
    + by rewrite (proj2 (Z.ltb_lt _ _) Hl).
    + by rewrite bool_decide_eq_false_2 by done.
Qed.

(** a parsed manifest is usable.  A manifest is accepted if and only if the body has at most 1024 bytes,
    opens an object, decodes to the four fields, and its URL is a plain-HTTP URL; its fields are the
    decoded ones.  An accepted manifest yields metadata exactly when the digest is 64 hexadecimal
    digits and the version parses, and a bad digest is reported before a bad version. *)
Lemma manifest_parse_exact (from_slice : list Z → result (Z * Z) RawManifest) body :
  (∀ m, Manifest_parse from_slice body = Ok m ↔
     Z.of_nat (length body) ≤ MAX_MANIFEST_BYTES ∧ object_start body ∧
     from_slice body = Ok m ∧ plain_http (mf_url m)) ∧
  ∀ m, match image_metadata m with
       | Ok md => hex_to_bytes (trim (mf_sha256 m)) = Ok (im_sha256 md) ∧
                  length (im_sha256 md) = 32%nat ∧ wf_version (im_version md) ∧
                  Version_parse (trim (mf_version m)) = Ok (im_version md)
       | Err e =>
           (e = ME_InvalidDigest ∧ hex_to_bytes (trim (mf_sha256 m)) = Err ChecksumMismatch) ∨
           (e = ME_InvalidVersion ∧ (∃ b, hex_to_bytes (trim (mf_sha256 m)) = Ok b) ∧
            ∃ e', Version_parse (trim (mf_version m)) = Err e')
       end.
Proof.
  split.
  - intros m. unfold Manifest_parse. rewrite <- (first_token_object body).
    destruct (Z.ltb_spec MAX_MANIFEST_BYTES (Z.of_nat (length body))); [naive_solver lia|].
    case_bool_decide as Ho; cbn [negb].
    + destruct (from_slice body) as [raw|[l col]]; cbn; [|naive_solver].
      destruct (is_plain_http_url (mf_url raw)) eqn:Hu; cbn [negb].
      * apply is_plain_http_url_spec in Hu. naive_solver.
      * split; [done|]. intros (_ & _ & [= ->] & Hp%is_plain_http_url_spec). congruence.
    + destruct (first_token_position body). naive_solver.
  - intros m. unfold image_metadata, ImageMetadata_parse, mbind, result_bind.
    destruct (hex_to_bytes (trim (mf_sha256 m))) as [b|e] eqn:Hb; cbn.
    + destruct (Version_parse (trim (mf_version m))) as [v|e] eqn:Hv; cbn.
      * split_and!; [done|by eapply hex_to_bytes_length|by eapply Version_parse_wf|done].
      * right. apply Version_parse_err in Hv as Hv'. subst e. eauto.
    + left. apply hex_to_bytes_err in Hb as ->. done.
Qed.
