(* ===== verification/Fetch.v ===== *)
(** * Fetch: download deadlines ([ota/deadline.rs]) and the bounded manifest fetch
    ([ota/runtime/fetch.rs], and the loop of [ota/runtime/manifest.rs] of the ESP-IDF tier)

    The HTTP client is third-party code: what its calls return, and the time each
    return happens at, are arguments.  A read delivers at most as many bytes as
    the buffer slice it was given. *)
From S2P Require Import Prelude Text Version Reason Url Hex Wire Config.
Open Scope Z_scope.

(** ** [Deadline] *)

Record Deadline := mkDeadline { dl_total : option duration }.

Definition Deadline_none : Deadline := mkDeadline None.
Definition Deadline_after (total : duration) : Deadline := mkDeadline (Some total).

Definition deadline_check (d : Deadline) (elapsed : duration) : result OtaError unit :=
  match dl_total d with
  | Some total => if total <=? elapsed then Err DownloadTimeout else Ok tt
  | None => Ok tt
  end.

(** Only [permit_activation] makes a permit. *)
Inductive ActivationPermit := Permit.

Definition permit_activation (d : Deadline) (elapsed : duration) : result OtaError ActivationPermit :=
  _ ← deadline_check d elapsed; Ok Permit.

Definition remaining (d : Deadline) (elapsed : duration) : option duration :=
  (λ total, saturating_sub total elapsed) <$> dl_total d.

Definition clip (d : Deadline) (per_op elapsed : duration) : duration :=
  match remaining d elapsed with
  | Some remaining => Z.min per_op remaining
  | None => per_op
  end.

(** ** [ManifestBody] *)

Definition usize_max : Z := u32_max.

Inductive Feed := FeedContinue | FeedDone | FeedTooLarge | FeedDeadlineExceeded.

Inductive FetchError :=
| FE_Connect (e : OtaError)
| FE_Read (e : OtaError)
| FE_TooLarge
| FE_DeadlineExceeded
| FE_Parse (e : ManifestError).

Definition FetchError_reason (e : FetchError) : FailReason :=
  match e with
  | FE_Connect _ | FE_Read _ | FE_DeadlineExceeded => FR_ManifestFetch
  | FE_TooLarge => ManifestError_reason ME_TooLarge
  | FE_Parse e => ManifestError_reason e
  end.

Record ManifestBody := mkBody { mb_deadline : Deadline; mb_len : Z }.

Definition ManifestBody_new (total : duration) : ManifestBody := mkBody (Deadline_after total) 0.

Definition body_check (b : ManifestBody) (elapsed : duration) : result FetchError unit :=
  map_err (λ _, FE_DeadlineExceeded) (deadline_check (mb_deadline b) elapsed).

Definition feed (n : Z) (elapsed : duration) (b : ManifestBody) : Feed * ManifestBody :=
  if n =? 0 then (FeedDone, b)
  else
    let b := mkBody (mb_deadline b) (Z.min usize_max (mb_len b + n)) in
    (if MAX_MANIFEST_BYTES <? mb_len b then FeedTooLarge
     else match deadline_check (mb_deadline b) elapsed with
          | Ok _ => FeedContinue
          | Err _ => FeedDeadlineExceeded
          end, b).

(** ** [fetch_manifest] *)

Definition BUFFER : nat := 1025.

(** One call of [client.read]: the bytes on offer or an error (whether it is a
    read timeout), and the elapsed time at its return. *)
Record Read := mkRead { rd_result : result bool (list Z); rd_elapsed : duration }.

Section fetch.
Context (from_slice : list Z → result (Z * Z) RawManifest).
Context (connect : result OtaError unit) (connected_at : duration) (reads : nat → Read).

(** What read [i] delivers into the slice behind [len] bytes. *)
Definition delivered (i : nat) (len : nat) : result bool (list Z) :=
  match rd_result (reads i) with
  | Ok bytes => Ok (take (BUFFER - len) bytes)
  | Err t => Err t
  end.

(** The loop, from read [i] on; the answer comes with the number of reads made.
    [None] is only a lack of fuel. *)
Fixpoint fetch_loop (fuel i : nat) (body : ManifestBody) (buffer : list Z) :
    option (result FetchError (list Z) * nat) :=
  match fuel with
  | O => None
  | S fuel =>
      match delivered i (length buffer) with
      | Err is_timeout => Some (Err (FE_Read (classify_read_error is_timeout)), S i)
      | Ok read =>
          match feed (Z.of_nat (length read)) (rd_elapsed (reads i)) body with
          | (FeedContinue, body) => fetch_loop fuel (S i) body (buffer ++ read)
          | (FeedDone, _) => Some (Ok buffer, S i)
          | (FeedTooLarge, _) => Some (Err FE_TooLarge, S i)
          | (FeedDeadlineExceeded, _) => Some (Err FE_DeadlineExceeded, S i)
          end
      end
  end.

(** Every read but the last delivers at least one of at most 1025 bytes. *)
Definition fetch_fuel : nat := S (S BUFFER).

Definition fetch_manifest (total : duration) : option (result FetchError Manifest * nat) :=
  match connect with
  | Err e => Some (Err (FE_Connect e), O)
  | Ok _ =>
      let body := ManifestBody_new total in
      match body_check body connected_at with
      | Err e => Some (Err e, O)
      | Ok _ =>
          match fetch_loop fetch_fuel 0 body [] with
          | None => None
          | Some (Err e, n) => Some (Err e, n)
          | Some (Ok buffer, n) => Some (map_err FE_Parse (Manifest_parse from_slice buffer), n)
          end
      end
  end.

(** ** Specification *)

(** The first [n] reads delivered [chunks], each in time and none empty. *)
Inductive in_time (total : duration) : nat → list Z → Prop :=
| IT_none : in_time total 0 []
| IT_read n buffer bytes :
    in_time total n buffer → delivered n (length buffer) = Ok bytes → bytes ≠ [] →
    rd_elapsed (reads n) < total → Z.of_nat (length (buffer ++ bytes)) ≤ MAX_MANIFEST_BYTES →
    in_time total (S n) (buffer ++ bytes).

Definition body_inv (total : duration) (b : ManifestBody) (buffer : list Z) : Prop :=
  mb_deadline b = Deadline_after total ∧ mb_len b = Z.of_nat (length buffer) ∧
  Z.of_nat (length buffer) ≤ MAX_MANIFEST_BYTES.

(** What ended the loop after [S k] reads. *)
Definition loop_post (total : duration) (k : nat) (buffer : list Z)
    (r : result FetchError (list Z)) : Prop :=
  match r with
  | Ok body => body = buffer ∧ delivered k (length buffer) = Ok []
  | Err (FE_Read e) => ∃ t, delivered k (length buffer) = Err t ∧ e = classify_read_error t
  | Err FE_TooLarge => ∃ bytes, delivered k (length buffer) = Ok bytes ∧
                         MAX_MANIFEST_BYTES < Z.of_nat (length (buffer ++ bytes))
  | Err FE_DeadlineExceeded => total ≤ rd_elapsed (reads k) ∧
                         ∃ bytes, delivered k (length buffer) = Ok bytes ∧ bytes ≠ []
  | Err _ => False
  end.

Lemma feed_spec total b buffer bytes elapsed :
  body_inv total b buffer → (length bytes ≤ BUFFER)%nat →
  match feed (Z.of_nat (length bytes)) elapsed b with
  | (FeedDone, _) => bytes = []
  | (FeedContinue, b') => bytes ≠ [] ∧ elapsed < total ∧ body_inv total b' (buffer ++ bytes)
  | (FeedTooLarge, _) => MAX_MANIFEST_BYTES < Z.of_nat (length (buffer ++ bytes))
  | (FeedDeadlineExceeded, _) => bytes ≠ [] ∧ total ≤ elapsed
  end.
Proof.
  intros (Hd & Hl & Hm) Hb. unfold feed, body_inv, usize_max, u32_max, BUFFER, MAX_MANIFEST_BYTES in *.
  rewrite length_app, Nat2Z.inj_add. destruct (Z.eqb_spec (Z.of_nat (length bytes)) 0) as [Hz|Hz].
  { destruct bytes; simpl in *; [done|lia]. }
  assert (Hne : bytes ≠ []) by (intros ->; simpl in Hz; lia).
  cbn [mb_deadline mb_len]. rewrite Hl, Z.min_r by lia.
  destruct (Z.ltb_spec 1024 (Z.of_nat (length buffer) + Z.of_nat (length bytes))) as [Hlt|Hle]; [lia|].
  rewrite Hd. unfold deadline_check. cbn [dl_total Deadline_after].
  destruct (Z.leb_spec total elapsed); [done|]. split_and!; done.
Qed.

Lemma delivered_length i (buffer bytes : list Z) : delivered i (length buffer) = Ok bytes →
  (length bytes ≤ BUFFER - length buffer)%nat.
Proof. unfold delivered. case_match; [|done]. intros [= <-]. rewrite length_take. lia. Qed.

Lemma fetch_loop_spec total fuel i b buffer :
  body_inv total b buffer → in_time total i buffer → (S BUFFER < fuel + length buffer)%nat →
  ∃ k buffer' r, fetch_loop fuel i b buffer = Some (r, S k) ∧
    in_time total k buffer' ∧ loop_post total k buffer' r.
Proof.
  revert i b buffer. induction fuel as [|fuel IH]; intros i b buffer Hinv Hit Hf.
  { destruct Hinv as (_ & _ & Hm). unfold BUFFER, MAX_MANIFEST_BYTES in *. lia. }
  simpl. destruct (delivered i (length buffer)) as [bytes|t] eqn:Hd.
  2:{ exists i, buffer, (Err (FE_Read (classify_read_error t))). split_and!; [done|done|]. by exists t. }
  pose proof (delivered_length _ _ _ Hd) as Hlen.
  pose proof (feed_spec total b buffer bytes (rd_elapsed (reads i)) Hinv ltac:(lia)) as Hfeed.
  destruct (feed _ _ b) as [[] b'].
  - destruct Hfeed as (Hne & Hlt & Hinv'). apply IH; [done| |].
    + apply IT_read; try done. apply Hinv'.
    + rewrite length_app. destruct bytes; [done|]. simpl. lia.
  - subst bytes. by exists i, buffer, (Ok buffer).
  - exists i, buffer, (Err FE_TooLarge). split_and!; [done|done|]. by exists bytes.
  - exists i, buffer, (Err FE_DeadlineExceeded). destruct Hfeed. split_and!; [done|done|].
    split; [done|]. by exists bytes.
Qed.

Lemma in_time_room total n buffer : in_time total n buffer → (length buffer < BUFFER)%nat.
Proof. destruct 1; unfold BUFFER, MAX_MANIFEST_BYTES in *; simpl; lia. Qed.

Lemma in_time_early total n buffer : in_time total n buffer → ∀ i, (i < n)%nat → rd_elapsed (reads i) < total.
Proof.
  induction 1 as [|n buffer bytes Hit IH Hd Hne Ht Hl]; intros i Hi; [lia|].
  destruct (Nat.eq_dec i n) as [->|]; [done|]. apply IH. lia.
Qed.

(** the manifest fetch is bounded in size and time.  It always ends after at most 1026 reads; a read is
    only started while the last check was before the total limit and the buffer has room for it; an
    accepted manifest is the parse of exactly the bytes delivered before the end of the body, at most
    1024 of them; and every error names its cause: a refused connection or a late header before any
    read, a failed read, a 1025th byte, or a non-empty read at or after the limit. *)
Lemma fetch_manifest_bounded (total : duration) :
  ∃ r n, fetch_manifest total = Some (r, n) ∧ (n ≤ fetch_fuel)%nat ∧
    (n ≠ 0%nat → connect = Ok tt ∧ connected_at < total ∧
      ∃ k buffer, n = S k ∧ in_time total k buffer ∧ (length buffer < BUFFER)%nat ∧
        (∀ i, (i < k)%nat → rd_elapsed (reads i) < total) ∧
        match r with
        | Ok m => delivered k (length buffer) = Ok [] ∧ Manifest_parse from_slice buffer = Ok m
        | Err (FE_Parse e) => delivered k (length buffer) = Ok [] ∧ Manifest_parse from_slice buffer = Err e
        | Err e => loop_post total k buffer (Err e)
        end) ∧
    (n = 0%nat → (∃ e, connect = Err e ∧ r = Err (FE_Connect e)) ∨
                 (total ≤ connected_at ∧ r = Err FE_DeadlineExceeded)).
Proof.
  assert (Hcount : ∀ k buffer, in_time total k buffer → (k ≤ length buffer)%nat).
  { induction 1 as [|n buffer bytes Hit IH Hd Hne Ht Hl]; [done|].
    rewrite length_app. destruct bytes; [done|]. simpl. lia. }
  unfold fetch_manifest. destruct connect as [[]|e].
  2:{ exists (Err (FE_Connect e)), 0%nat. split_and!; [done|lia|done|]. intros _. left. by exists e. }
  unfold body_check, deadline_check. cbn [ManifestBody_new mb_deadline dl_total Deadline_after].
  destruct (Z.leb_spec total connected_at) as [Hle|Hlt]; cbn [map_err].
  { exists (Err FE_DeadlineExceeded), 0%nat. split_and!; [done|lia|done|]. intros _. by right. }
  destruct (fetch_loop_spec total fetch_fuel 0 (ManifestBody_new total) []) as (k & buffer & r & Hr & Hit & Hp).
  { unfold body_inv, ManifestBody_new. cbn. split_and!; [done|done|by vm_compute]. }
  { constructor. }
  { unfold fetch_fuel. cbn [length]. lia. }
  fold (ManifestBody_new total). rewrite Hr.
  pose proof (Hcount _ _ Hit) as Hk. pose proof (in_time_room _ _ _ Hit) as Hroom.
  pose proof (in_time_early _ _ _ Hit) as Hearly.
  assert (Hfuel : (S k ≤ fetch_fuel)%nat) by (unfold fetch_fuel; lia).
  destruct r as [body|e].
  - destruct Hp as [-> Hend].
    exists (map_err FE_Parse (Manifest_parse from_slice buffer)), (S k). split_and!; [done|done| |done].
    intros _. split_and!; [done|done|]. exists k, buffer. split_and!; try done.
    by destruct (Manifest_parse from_slice buffer).
  - exists (Err e), (S k). split_and!; [done|done| |done]. intros _. split_and!; [done|done|].
    exists k, buffer. split_and!; try done. by destruct e.
Qed.
End fetch.

(** A permit is proof of an unexpired deadline. *)
Lemma permit_activation_spec d elapsed :
  permit_activation d elapsed = Ok Permit ↔ ∀ total, dl_total d = Some total → elapsed < total.
Proof.
  unfold permit_activation, deadline_check. destruct (dl_total d) as [total|]; [|naive_solver].
  destruct (Z.leb_spec total elapsed); cbn; split; naive_solver lia.
Qed.

(** A clipped wait never runs past the deadline. *)
Lemma clip_spec d per_op elapsed total :
  0 ≤ per_op → dl_total d = Some total → elapsed < total → elapsed + clip d per_op elapsed ≤ total.
Proof. intros Hp Hd Ht. unfold clip, remaining. rewrite Hd. simpl. unfold saturating_sub. lia. Qed.
