(* ===== verification/Status.v ===== *)
(** * Status: the messages of the OTA status topic ([ota/wire/status.rs])

    A JSON object is the list of its entries, in the order the parser hands them
    out.  Writing is the derived [Serialize] (tag first, fields in declaration
    order); reading is the hand-written visitor.  JSON syntax itself is
    third-party code and not modelled. *)
From S2P Require Import Prelude Text Version Reason.
Open Scope Z_scope.

Inductive OtaStatus :=
| ST_Downloading
| ST_SwapPending
| ST_Applied (version : string)
| ST_Failed (reason : FailReason)
| ST_RolledBack (reason : RollbackReason) (attempt_id epoch : Z)
| ST_Repaired (records : Z).

(** A JSON scalar as the parser presents it to a visitor; a string is borrowed
    from the input unless it needed unescaping. *)
Inductive JValue :=
| J_str (borrowed : bool) (s : string)
| J_u64 (n : Z) | J_i64 (n : Z) | J_u128 (n : Z) | J_i128 (n : Z)
| J_f64 | J_bool (b : bool) | J_other.

Inductive StatusDeError :=
| DE_InvalidType | DE_WrongType | DE_OutOfRange | DE_UnknownField | DE_Duplicate
| DE_BadShape | DE_Escape | DE_FailureCode | DE_Label | DE_UnknownStatus.

(** ** Field values and keys *)

Inductive FieldValue := FV_Str (borrowed : bool) (s : string) | FV_Num (n : Z).

Definition FieldValue_deserialize (v : JValue) : result StatusDeError FieldValue :=
  match v with
  | J_str borrowed s => Ok (FV_Str borrowed s)
  | J_u64 n => Ok (FV_Num n)
  | J_i64 n => if (0 <=? n) && (n <=? u64_max) then Ok (FV_Num n) else Err DE_OutOfRange
  | J_u128 _ | J_i128 _ => Err DE_OutOfRange
  | J_f64 | J_bool _ => Err DE_WrongType
  | J_other => Err DE_InvalidType
  end.

Inductive FieldKey := K_Status | K_Version | K_Reason | K_AttemptId | K_Epoch | K_Records.

#[export] Instance FieldKey_eq_dec : EqDecision FieldKey.
Proof. solve_decision. Defined.

Definition FieldKey_deserialize (v : string) : result StatusDeError FieldKey :=
  match match_str v
    [("status", K_Status); ("version", K_Version); ("reason", K_Reason);
     ("attempt_id", K_AttemptId); ("epoch", K_Epoch); ("records", K_Records)] with
  | Some k => Ok k
  | None => Err DE_UnknownField
  end.

(** ** Reading *)

(** The six local [Option]s, by key. *)
Definition slots : Type := FieldKey → option FieldValue.
Definition slot_set (f : slots) (k : FieldKey) (v : FieldValue) : slots :=
  λ k', if bool_decide (k' = k) then Some v else f k'.

Fixpoint visit_entries (l : list (string * JValue)) (f : slots) : result StatusDeError slots :=
  match l with
  | [] => Ok f
  | (key, value) :: l =>
      key ← FieldKey_deserialize key;
      value ← FieldValue_deserialize value;
      match f key with
      | Some _ => Err DE_Duplicate
      | None => visit_entries l (slot_set f key value)
      end
  end.

Definition text (v : option FieldValue) : result StatusDeError (option (bool * string)) :=
  match v with
  | Some (FV_Str b s) => Ok (Some (b, s))
  | Some (FV_Num _) => Err DE_BadShape
  | None => Ok None
  end.

Definition number (v : option FieldValue) : result StatusDeError (option Z) :=
  match v with
  | Some (FV_Num n) => if (0 <=? n) && (n <=? u32_max) then Ok (Some n) else Err DE_OutOfRange
  | Some (FV_Str _ _) => Err DE_BadShape
  | None => Ok None
  end.

Inductive StatusTag :=
  TG_Downloading | TG_SwapPending | TG_Applied | TG_Failed | TG_RolledBack | TG_Repaired.

Definition tag_parse (s : string) : option StatusTag :=
  match_str s
    [("downloading", TG_Downloading); ("swap_pending", TG_SwapPending); ("applied", TG_Applied);
     ("failed", TG_Failed); ("rolled_back", TG_RolledBack); ("repaired", TG_Repaired)].

(** The final match on the tag and the five other fields. *)
Definition status_of_fields (status : string) (version reason : option (bool * string))
    (attempt_id epoch records : option Z) : result StatusDeError OtaStatus :=
  match tag_parse status, version, reason, attempt_id, epoch, records with
  | Some TG_Downloading, None, None, None, None, None => Ok ST_Downloading
  | Some TG_SwapPending, None, None, None, None, None => Ok ST_SwapPending
  | Some TG_Applied, Some (true, version), None, None, None, None => Ok (ST_Applied version)
  | Some TG_Applied, Some (false, _), None, None, None, None => Err DE_Escape
  | Some TG_Repaired, None, None, None, None, Some records => Ok (ST_Repaired records)
  | Some TG_Failed, None, Some (_, code), None, None, None =>
      match FailReason_from_code code with
      | Some reason => Ok (ST_Failed reason)
      | None => Err DE_FailureCode
      end
  | Some TG_RolledBack, None, Some (_, label), Some attempt_id, Some epoch, None =>
      match RollbackReason_parse label with
      | Some reason => Ok (ST_RolledBack reason attempt_id epoch)
      | None => Err DE_Label
      end
  | Some _, _, _, _, _, _ => Err DE_BadShape
  | None, _, _, _, _, _ => Err DE_UnknownStatus
  end.

Definition visit_map (l : list (string * JValue)) : result StatusDeError OtaStatus :=
  f ← visit_entries l (λ _, None);
  status ← text (f K_Status);
  match status with
  | None => Err DE_BadShape
  | Some (_, status) =>
      version ← text (f K_Version);
      reason ← text (f K_Reason);
      attempt_id ← number (f K_AttemptId);
      epoch ← number (f K_Epoch);
      records ← number (f K_Records);
      status_of_fields status version reason attempt_id epoch records
  end.

(** ** Writing *)

Definition status_fields (s : OtaStatus) : list (FieldKey * FieldValue) :=
  match s with
  | ST_Downloading => [(K_Status, FV_Str true "downloading")]
  | ST_SwapPending => [(K_Status, FV_Str true "swap_pending")]
  | ST_Applied version => [(K_Status, FV_Str true "applied"); (K_Version, FV_Str true version)]
  | ST_Failed reason =>
      [(K_Status, FV_Str true "failed"); (K_Reason, FV_Str true (FailReason_as_str reason))]
  | ST_RolledBack reason attempt_id epoch =>
      [(K_Status, FV_Str true "rolled_back");
       (K_Reason, FV_Str true (RollbackReason_as_str reason));
       (K_AttemptId, FV_Num attempt_id); (K_Epoch, FV_Num epoch)]
  | ST_Repaired records => [(K_Status, FV_Str true "repaired"); (K_Records, FV_Num records)]
  end.

Definition FieldKey_name (k : FieldKey) : string :=
  match k with
  | K_Status => "status" | K_Version => "version" | K_Reason => "reason"
  | K_AttemptId => "attempt_id" | K_Epoch => "epoch" | K_Records => "records"
  end.

(** The object the derived serializer writes. *)
Definition status_entries (s : OtaStatus) : list (string * JValue) :=
  (λ '(k, v), (FieldKey_name k, match v with FV_Str b s => J_str b s | FV_Num n => J_u64 n end))
    <$> status_fields s.

(** ** Lemmas *)

Definition wf_status (s : OtaStatus) : Prop :=
  match s with
  | ST_RolledBack _ attempt_id epoch => is_u32 attempt_id ∧ is_u32 epoch
  | ST_Repaired records => is_u32 records
  | _ => True
  end.

(** What comes back: a failure code loses what is not on the wire. *)
Definition status_normal (s : OtaStatus) : OtaStatus :=
  match s with ST_Failed reason => ST_Failed (wire_normal reason) | s => s end.

Definition decode_entry (e : string * JValue) : result StatusDeError (FieldKey * FieldValue) :=
  key ← FieldKey_deserialize e.1;
  value ← FieldValue_deserialize e.2;
  Ok (key, value).

(** Whether a string was borrowed is not part of the message. *)
Definition erase (v : FieldValue) : FieldValue :=
  match v with FV_Str _ s => FV_Str true s | v => v end.

Lemma slot_set_eq f k v : slot_set f k v k = Some v.
Proof. unfold slot_set. by rewrite bool_decide_eq_true_2. Qed.

Lemma slot_set_ne f k v k' : k' ≠ k → slot_set f k v k' = f k'.
Proof. intros. unfold slot_set. by rewrite bool_decide_eq_false_2. Qed.

(** The loop accepts exactly the lists of decodable entries with distinct keys,
    and the slots hold the entries. *)
Lemma visit_entries_ok l f g :
  visit_entries l f = Ok g ↔
  ∃ d, Forall2 (λ e x, decode_entry e = Ok x) l d ∧ NoDup d.*1 ∧
       (∀ k, k ∈ d.*1 → f k = None) ∧
       g = foldl (λ f x, slot_set f x.1 x.2) f d.
Proof.
  revert f. induction l as [|[key value] l IH]; intros f; simpl.
  - split.
    + intros [= <-]. exists []. split_and!; [constructor|constructor|set_solver|done].
    + intros (d & Hd & _ & _ & ->). by inversion Hd.
  - unfold mbind, result_bind. split.
    + destruct (FieldKey_deserialize key) as [k|] eqn:Hk; [|done].
      destruct (FieldValue_deserialize value) as [v|] eqn:Hv; [|done].
      destruct (f k) eqn:Hf; [done|]. intros (d & Hd & Hnd & Hfree & ->)%IH.
      exists ((k, v) :: d). split_and!; [| | |done].
      * constructor; [|done]. unfold decode_entry, mbind, result_bind. simpl. by rewrite Hk, Hv.
      * simpl. constructor; [|done]. intros Hin. specialize (Hfree k Hin). by rewrite slot_set_eq in Hfree.
      * simpl. intros k' [->|Hin]%elem_of_cons; [done|]. specialize (Hfree k' Hin).
        unfold slot_set in Hfree. by case_bool_decide.
    + intros (d & Hd & Hnd & Hfree & ->). inversion Hd as [|? [k v] ? d' He Hd']; subst.
      unfold decode_entry, mbind, result_bind in He. simpl in He.
      destruct (FieldKey_deserialize key) as [k'|]; [|done].
      destruct (FieldValue_deserialize value) as [v'|]; [|done]. injection He as -> ->.
      simpl in *. inversion Hnd as [|?? Hk Hnd']; subst.
      rewrite (Hfree k) by set_solver. apply IH. exists d'. split_and!; [done|done| |done].
      intros k' Hin. rewrite slot_set_ne by (intros ->; done). apply Hfree. set_solver.
Qed.

Lemma foldl_slots d f k : NoDup d.*1 →
  foldl (λ f x, slot_set f x.1 x.2) f d k =
    match list_find (λ x, x.1 = k) d with Some (_, x) => Some x.2 | None => f k end.
Proof.
  revert f. induction d as [|[k' v] d IH]; intros f; simpl; [done|].
  intros Hnd. inversion Hnd as [|?? Hk Hnd']; subst. rewrite IH by done.
  case_decide as Hkk.
  - simpl in *. subst k'. simpl.
    assert (Hn : list_find (λ x, x.1 = k) d = None).
    { apply list_find_None, Forall_forall. intros x Hx Hxk. apply Hk. rewrite <- Hxk. by apply list_elem_of_fmap_2. }
    rewrite Hn. by rewrite slot_set_eq.
  - destruct (list_find _ d) as [[i x]|]; simpl; [done|]. simpl in Hkk. by rewrite slot_set_ne by congruence.
Qed.

(** The slots after all the entries. *)
Definition collect (d : list (FieldKey * FieldValue)) : slots :=
  foldl (λ f x, slot_set f x.1 x.2) (λ _, None) d.

(** Membership decides the slots, so the order of the entries does not matter. *)
Lemma slots_lookup d k v : NoDup d.*1 →
  collect d k = Some v ↔ (k, v) ∈ d.
Proof.
  intros Hnd. unfold collect. rewrite foldl_slots by done.
  destruct (list_find (λ x, x.1 = k) d) as [[i [k' v']]|] eqn:Hf.
  - apply list_find_Some in Hf as (Hi & Hk & _). simpl in *. subst k'. split.
    + intros [= <-]. by eapply list_elem_of_lookup_2.
    + intros Hin. apply list_elem_of_lookup in Hin as [j Hj].
      assert (j = i) as ->.
      { eapply (NoDup_lookup d.*1); [done|by rewrite list_lookup_fmap, Hj|by rewrite list_lookup_fmap, Hi]. }
      congruence.
  - split; [done|]. intros Hin. apply list_find_None in Hf.
    rewrite Forall_forall in Hf. by specialize (Hf _ Hin).
Qed.

Lemma slots_none d k : NoDup d.*1 →
  collect d k = None ↔ k ∉ d.*1.
Proof.
  intros Hnd. destruct (collect d k) as [v|] eqn:E; split; try done.
  - apply slots_lookup in E; [|done]. intros Hn. exfalso. apply Hn. by apply (list_elem_of_fmap_2 fst) in E.
  - intros _ Hin. apply list_elem_of_fmap in Hin as ([k' v] & -> & Hin).
    apply slots_lookup in Hin; [|done]. simpl in E. congruence.
Qed.

Lemma FieldKey_roundtrip k : FieldKey_deserialize (FieldKey_name k) = Ok k.
Proof. by destruct k. Qed.

Lemma tag_parse_inv s t : tag_parse s = Some t →
  s = match t with
      | TG_Downloading => "downloading" | TG_SwapPending => "swap_pending" | TG_Applied => "applied"
      | TG_Failed => "failed" | TG_RolledBack => "rolled_back" | TG_Repaired => "repaired"
      end.
Proof.
  intros H%match_str_in. repeat (apply elem_of_cons in H as [[= -> ->]|H]; [done|]).
  by apply not_elem_of_nil in H.
Qed.

(** The decoded view of an object. *)
Definition decodes (l : list (string * JValue)) (d : list (FieldKey * FieldValue)) : Prop :=
  Forall2 (λ e x, decode_entry e = Ok x) l d ∧ NoDup d.*1.

(** Reading is the final match on the slots of the decoded entries. *)
Definition visit_slots (f : slots) : result StatusDeError OtaStatus :=
  status ← text (f K_Status);
  match status with
  | None => Err DE_BadShape
  | Some (_, status) =>
      version ← text (f K_Version);
      reason ← text (f K_Reason);
      attempt_id ← number (f K_AttemptId);
      epoch ← number (f K_Epoch);
      records ← number (f K_Records);
      status_of_fields status version reason attempt_id epoch records
  end.

Lemma visit_map_decodes l s : visit_map l = Ok s ↔
  ∃ d, decodes l d ∧ visit_slots (collect d) = Ok s.
Proof.
  unfold visit_map. split.
  - destruct (visit_entries l (λ _, None)) as [g|] eqn:Hl; [|done].
    apply visit_entries_ok in Hl as (d & Hd & Hnd & _ & ->). intros Hs. by exists d.
  - intros (d & [Hd Hnd] & Hs).
    assert (Hl : visit_entries l (λ _, None) = Ok (collect d)).
    { apply visit_entries_ok. exists d. by split_and!. }
    by rewrite Hl.
Qed.

(** The fields a status has, and no others, as the slots see them. *)
Definition shows (f : slots) (s : OtaStatus) : Prop :=
  ∀ k, erase <$> f k = collect (status_fields s) k.

Lemma text_inv v b s : text v = Ok (Some (b, s)) → v = Some (FV_Str b s).
Proof. destruct v as [[]|]; simpl; congruence. Qed.
Lemma text_none v : text v = Ok None → v = None.
Proof. destruct v as [[]|]; simpl; congruence. Qed.
Lemma number_inv v n : number v = Ok (Some n) → v = Some (FV_Num n) ∧ is_u32 n.
Proof.
  destruct v as [[]|]; simpl; try congruence. case_match eqn:E; [|congruence].
  intros [= ->]. split; [done|]. unfold is_u32. lia.
Qed.
Lemma number_none v : number v = Ok None → v = None.
Proof. destruct v as [[]|]; simpl; try congruence. case_match; congruence. Qed.

Lemma visit_slots_sound f s : visit_slots f = Ok s → shows f s ∧ wf_status s ∧ status_normal s = s.
Proof.
  unfold visit_slots, mbind, result_bind.
  destruct (text (f K_Status)) as [[[b st]|]|] eqn:E1; try done.
  destruct (text (f K_Version)) as [ver|] eqn:E2; [|done].
  destruct (text (f K_Reason)) as [rea|] eqn:E3; [|done].
  destruct (number (f K_AttemptId)) as [att|] eqn:E4; [|done].
  destruct (number (f K_Epoch)) as [ep|] eqn:E5; [|done].
  destruct (number (f K_Records)) as [rec|] eqn:E6; [|done].
  unfold status_of_fields. destruct (tag_parse st) as [t|] eqn:Ht; [|done]. apply tag_parse_inv in Ht.
  apply text_inv in E1.
  destruct t, ver as [[[] ver]|], rea as [[br rea]|], att as [att|], ep as [ep|], rec as [rec|]; try done;
    repeat match goal with
    | H : text _ = Ok (Some _) |- _ => apply text_inv in H
    | H : text _ = Ok None |- _ => apply text_none in H
    | H : number _ = Ok (Some _) |- _ => apply number_inv in H as [H ?]
    | H : number _ = Ok None |- _ => apply number_none in H
    end; subst st.
  - intros [= <-]. split; [|done]. intros []; by rewrite ?E1, ?E2, ?E3, ?E4, ?E5, ?E6.
  - intros [= <-]. split; [|done]. intros []; by rewrite ?E1, ?E2, ?E3, ?E4, ?E5, ?E6.
  - intros [= <-]. split; [|done]. intros []; by rewrite ?E1, ?E2, ?E3, ?E4, ?E5, ?E6.
  - destruct (FailReason_from_code rea) as [r|] eqn:Hr; [|done].
    apply FailReason_from_code_inv in Hr as [Hrs Hrn]. intros [= <-].
    split; [|split; [done|by simpl; rewrite Hrn]].
    intros []; rewrite ?E1, ?E2, ?E3, ?E4, ?E5, ?E6; simpl; by rewrite ?Hrs.
  - destruct (RollbackReason_parse rea) as [r|] eqn:Hr; [|done].
    apply RollbackReason_parse_inv in Hr. intros [= <-]. split; [|done].
    intros []; rewrite ?E1, ?E2, ?E3, ?E4, ?E5, ?E6; simpl; by rewrite ?Hr.
  - intros [= <-]. split; [|done]. intros []; by rewrite ?E1, ?E2, ?E3, ?E4, ?E5, ?E6.
Qed.

Lemma status_fields_keys s : NoDup (status_fields s).*1.
Proof. by apply (bool_decide_unpack _); destruct s. Qed.

Lemma visit_slots_fields s : wf_status s → visit_slots (collect (status_fields s)) = Ok (status_normal s).
Proof.
  destruct s as [| |v|r|r a e|n]; unfold visit_slots, mbind, result_bind;
    lazy -[FailReason_as_str FailReason_from_code RollbackReason_as_str RollbackReason_parse Z.leb
           is_u32 wire_normal u32_max];
    intros Hwf; try done.
  - by rewrite FailReason_roundtrip.
  - destruct Hwf as [[Ha0 Ha] [He0 He]].
    rewrite !(proj2 (Z.leb_le _ _)) by done. by rewrite RollbackReason_parse_as_str.
  - destruct Hwf as [Hn0 Hn]. by rewrite !(proj2 (Z.leb_le _ _)) by done.
Qed.

Lemma visit_slots_ext f g : (∀ k, f k = g k) → visit_slots f = visit_slots g.
Proof. intros H. unfold visit_slots. by rewrite !H. Qed.

Lemma collect_permutation d d' : NoDup d.*1 → d ≡ₚ d' → ∀ k, collect d k = collect d' k.
Proof.
  intros Hnd Hp k. assert (Hnd' : NoDup d'.*1) by (by rewrite <- Hp).
  apply option_eq. intros v. rewrite !slots_lookup by done. by rewrite Hp.
Qed.

Lemma decode_written d : Forall2 (λ e x, decode_entry e = Ok x)
  ((λ '(k, v), (FieldKey_name k, match v with FV_Str b s => J_str b s | FV_Num n => J_u64 n end)) <$> d) d.
Proof.
  induction d as [|[k v] d IH]; [constructor|]. constructor; [|done].
  unfold decode_entry, mbind, result_bind. cbn [fst snd]. rewrite FieldKey_roundtrip. by destruct v.
Qed.

(** ** Properties *)

(** the status contract round trips, in any field order, and nothing else is read.  The object written
    for a status reads back as that status in every permutation of its fields (a failure code comes
    back without the HTTP status it never carried); and whatever object is accepted has exactly the
    fields of the status that was read: no unknown, missing, duplicate or foreign field, no wrong
    type, no number outside 32 bits. *)
Lemma status_roundtrip :
  (∀ s l, wf_status s → l ≡ₚ status_entries s → visit_map l = Ok (status_normal s)) ∧
  ∀ l s, visit_map l = Ok s →
    wf_status s ∧ status_normal s = s ∧
    ∃ d, decodes l d ∧ (λ x, (x.1, erase x.2)) <$> d ≡ₚ status_fields s.
Proof.
  split.
  - intros s l Hwf Hp. unfold status_entries in Hp.
    apply Permutation_map_inv in Hp as (d & -> & Hd).
    assert (Hnd : NoDup d.*1) by (rewrite <- Hd; apply status_fields_keys).
    apply visit_map_decodes. exists d. split; [split; [apply decode_written|done]|].
    rewrite <- (visit_slots_fields s Hwf). apply visit_slots_ext. by apply collect_permutation.
  - intros l s (d & Hdec & Hv)%visit_map_decodes. destruct (visit_slots_sound _ _ Hv) as (Hs & Hwf & Hn).
    split_and!; [done|done|]. exists d. split; [done|]. destruct Hdec as [_ Hnd].
    apply NoDup_Permutation.
    + apply (NoDup_fmap_1 fst). by rewrite <- list_fmap_compose.
    + apply (NoDup_fmap_1 fst), status_fields_keys.
    + intros [k v]. rewrite <- (slots_lookup (status_fields s)) by apply status_fields_keys. rewrite <- Hs.
      rewrite fmap_Some, list_elem_of_fmap. split.
      * intros ([k' v'] & [= -> ->] & Hin). exists v'. by rewrite slots_lookup.
      * intros (v' & Hc & ->). exists (k, v'). by rewrite <- slots_lookup.
Qed.
