(* ===== verification/WorkerPlan.v ===== *)
(** * WorkerPlan: the worker's decisions ([ota/runtime/worker.rs]), and the commands as the
    worker thread of the ESP-IDF tier executes them ([ota/runtime/worker.rs] of that tier)

    The gates of update, rollback and repair, the plan of one offer, and the
    retained blocked offer.  [read_hardware] is an effect of the caller: a
    computation over any state [S], so that "the hardware is not read" is a
    statement about that state. *)
From S2P Require Import Prelude Text Version Decision Kv Reason KvLogic Store Boot StoreOps Config Url Hex Wire Fetch Status.
Open Scope Z_scope.

Definition hardware_reason (e : HardwareReadError) : FailReason :=
  match e with
  | HRE_Busy => FR_Busy
  | HRE_Read _ => FR_PartitionNotFound
  end.

Record Proceed := mkProceed { pc_metadata : ImageMetadata; pc_slot : SlotId; pc_slot_was_invalid : bool }.

Inductive OfferPlan :=
| OP_Proceed (p : Proceed)
| OP_Blocked (reason : FailReason)
| OP_Fail (reason : FailReason).

Section gates.
Context {S : Type} (read_hardware : M S HardwareReadError HardwareFacts).

(** [read_hardware().map_err(hardware_reason)?] *)
Definition read_or_reason : M S FailReason HardwareFacts :=
  λ s, let '(r, s) := read_hardware s in (map_err hardware_reason r, s).

Definition plan_update_gate (admission_open : bool) : M S FailReason HardwareFacts :=
  if negb admission_open then throw FR_PendingVerify
  else
    hw ← read_or_reason;
    if bool_decide (hw_running_state hw = SPendingVerify) then throw FR_PendingVerify
    else mret hw.

Definition plan_rollback (from running : Version) (admission_open : bool) : M S FailReason SlotId :=
  if negb (bool_decide (from = running)) then throw FR_VersionMismatch
  else if negb admission_open then throw FR_PendingVerify
  else
    hw ← read_or_reason;
    if bool_decide (hw_running_state hw = SPendingVerify) then throw FR_PendingVerify
    else if bool_decide (hw_running_slot hw = FACTORY_SLOT) then throw FR_RollbackUnavailable
    else mret (hw_running_slot hw).
End gates.

Definition early_update_block (admission_open health_settled : bool) : option OfferPlan :=
  if negb admission_open && negb health_settled then Some (OP_Blocked FR_PendingVerify) else None.

Definition refused_or_absent (read : result StoreError (option Version)) : option Version :=
  match read with Ok v => v | Err _ => None end.

Definition plan_offer (running : Version) (manifest : Manifest) (chip : string)
    (refused : option Version) (admission : Admission) (hw : HardwareFacts) : OfferPlan :=
  match check_target manifest chip with
  | Err e => OP_Fail (ManifestError_reason e)
  | Ok _ =>
      match image_metadata manifest with
      | Err e => OP_Fail (ManifestError_reason e)
      | Ok metadata =>
          let decision := decide_offer running (im_version metadata) refused admission in
          match FailReason_from_offer decision admission with
          | Some reason =>
              if bool_decide (decision = OBlocked) then OP_Blocked reason else OP_Fail reason
          | None =>
              match hw_update_slot hw with
              | US_Present slot state =>
                  OP_Proceed (mkProceed metadata slot (bool_decide (state = SInvalid)))
              | US_Absent | US_Unreadable _ => OP_Fail FR_PartitionNotFound
              end
          end
      end
  end.

Definition begin_failure (e : StoreError) : OfferPlan :=
  match e with
  | SE_NotAdmitted by_ =>
      OP_Blocked (default FR_AttemptUnresolved (FailReason_from_offer OBlocked (Blocked by_)))
  | _ => OP_Fail FR_AttemptNotPersisted
  end.

Definition blocked_report (silent : bool) (reason : FailReason) : option FailReason :=
  if silent then None else Some reason.

Definition retained_due (has_offer admission_open : bool) (store_admission : Admission) : bool :=
  has_offer && admission_open && bool_decide (store_admission = Open).

(** ** [Retention] *)

Record Retention := mkRetention { offer : option OtaCommand }.

Definition is_update (c : OtaCommand) : bool := match c with CmdUpdate _ _ => true | _ => false end.

Definition Retention_new : Retention := mkRetention None.
Definition on_command (command : OtaCommand) (r : Retention) : Retention :=
  if is_update command then mkRetention None else r.
Definition retain (command : OtaCommand) (r : Retention) : Retention :=
  if is_update command then mkRetention (Some command) else r.
Definition retention_take (r : Retention) : option OtaCommand * Retention := (offer r, mkRetention None).
Definition has_offer (r : Retention) : bool := bool_decide (is_Some (offer r)).

(** ** Repair *)

Inductive Probe := PB_Corrupt | PB_Clean | PB_Unreadable.

#[export] Instance Probe_eq_dec : EqDecision Probe.
Proof. solve_decision. Defined.

Definition Probe_from_store (r : result StoreError bool) : Probe :=
  match r with Ok true => PB_Corrupt | Ok false => PB_Clean | Err _ => PB_Unreadable end.

Record RepairGate := mkGate {
  rg_health_settled : bool; rg_slot_pending : option bool;
  rg_records_suspect : bool; rg_probe : Probe }.

Definition RepairGate_new (health_settled records_suspect : bool) (probe : Probe) : RepairGate :=
  mkGate health_settled (if health_settled then Some false else None) records_suspect probe.

Definition plan_repair (gate : RepairGate) : result FailReason unit :=
  if negb (rg_health_settled gate) && negb (bool_decide (rg_slot_pending gate = Some false))
  then Err FR_PendingVerify
  else if negb (rg_records_suspect gate) && bool_decide (rg_probe gate = PB_Clean)
  then Err FR_RepairNotNeeded
  else Ok tt.

Record RefreshedFlags := mkRefreshed {
  rf_records_suspect : bool; rf_refuse_mark_valid : bool; rf_outcome : BootOutcome }.

(** Whether a disposition is fail-closed on a store fault. *)
Definition store_fault (d : BootDisposition) : bool :=
  match d with BD_FailedClosed (BF_Store _) => true | _ => false end.

Section refresh.
Context {K : Type} `{HO : OtaKv K}.

Definition refresh_after_repair {E} (hw : result HardwareReadError HardwareFacts)
    (running_version : option Version) (roll_back_now_at_boot : bool) :
    M (OtaStore K) E (option RefreshedFlags) :=
  match hw with
  | Err _ => mret None
  | Ok hw =>
      outcome ← reconcile_boot (Ok hw) running_version;
      mret (Some (mkRefreshed (store_fault (bo_disposition outcome))
                    (roll_back_now_at_boot || bo_refuse_mark_valid outcome) outcome))
  end.
End refresh.

(** ** The offer plan *)

(** The version order, as the specification of "newer". *)
Definition newer (a b : Version) : Prop := Version_cmp b a = Gt.

(** Everything about an offer that does not depend on admission. *)
Definition acceptable (running : Version) (m : Manifest) (chip : string) (refused : option Version)
    (md : ImageMetadata) : Prop :=
  mf_target m = chip ∧ image_metadata m = Ok md ∧ newer running (im_version md) ∧
  refused ≠ Some (im_version md).

Lemma check_target_spec m chip : check_target m chip = Ok tt ↔ mf_target m = chip.
Proof. unfold check_target. case_bool_decide; naive_solver. Qed.

(** The plan as one formula: acceptable offers wait for admission, then for a slot. *)
Lemma plan_offer_acceptable running m chip refused adm hw md :
  acceptable running m chip refused md →
  plan_offer running m chip refused adm hw =
    match adm with
    | Blocked by_ => OP_Blocked (blocked_reason by_)
    | Open => match hw_update_slot hw with
              | US_Present slot state => OP_Proceed (mkProceed md slot (bool_decide (state = SInvalid)))
              | _ => OP_Fail FR_PartitionNotFound
              end
    end.
Proof.
  intros (Ht & Hmd & Hnew & Href). unfold plan_offer, newer in *.
  rewrite (proj2 (check_target_spec m chip) Ht), Hmd. unfold decide_offer, decide_update. rewrite Hnew.
  rewrite bool_decide_eq_false_2 by done. destruct adm as [|[]]; done.
Qed.

(** Anything else fails, whatever the admission and the slots. *)
Lemma plan_offer_unacceptable running m chip refused adm hw :
  (¬ ∃ md, acceptable running m chip refused md) →
  ∃ reason, plan_offer running m chip refused adm hw = OP_Fail reason.
Proof.
  intros Hno. unfold plan_offer.
  destruct (check_target m chip) as [[]|e] eqn:Ht; [|by eexists]. apply check_target_spec in Ht.
  destruct (image_metadata m) as [md|e] eqn:Hmd; [|by eexists].
  unfold decide_offer, decide_update.
  destruct (Version_cmp (im_version md) running) eqn:Hc; [by eexists..|].
  case_bool_decide as Hr; [by eexists|].
  exfalso. apply Hno. exists md. unfold acceptable, newer. done.
Qed.

Lemma acceptable_unique running m chip refused md md' :
  acceptable running m chip refused md → acceptable running m chip refused md' → md = md'.
Proof. intros (_ & ? & _) (_ & ? & _). congruence. Qed.

Lemma acceptable_dec running m chip refused :
  (∃ md, acceptable running m chip refused md) ∨ ¬ ∃ md, acceptable running m chip refused md.
Proof.
  destruct (decide (mf_target m = chip)) as [Ht|Ht]; [|right; by intros (md & ? & _)].
  destruct (image_metadata m) as [md|e] eqn:Hmd; [|right; intros (md & _ & Hm & _); congruence].
  destruct (Version_cmp (im_version md) running) eqn:Hc;
    [right; intros (md' & _ & Hm & Hn & _); unfold newer in Hn; congruence..|].
  destruct (decide (refused = Some (im_version md))) as [Hr|Hr].
  - right. intros (md' & _ & Hm & _ & Hr'). congruence.
  - left. exists md. unfold acceptable, newer. done.
Qed.

(** the offer plan starts an attempt exactly for the offers it should.  [plan_offer] proceeds if and only if
    the manifest names this chip, its digest and version parse, the version is newer than the running
    one and not refused, admission is open and the update slot is readable, with exactly that
    metadata, that slot and whether it was invalid; it blocks if and only if the offer is acceptable
    and only admission is missing, with the reason of the record that blocks; and a mere change of
    admission never turns a rejected offer into an accepted one. *)
Theorem plan_offer_exact running m chip refused adm hw :
  (∀ p, plan_offer running m chip refused adm hw = OP_Proceed p ↔
     acceptable running m chip refused (pc_metadata p) ∧ adm = Open ∧
     ∃ state, hw_update_slot hw = US_Present (pc_slot p) state ∧
              pc_slot_was_invalid p = bool_decide (state = SInvalid)) ∧
  (∀ r, plan_offer running m chip refused adm hw = OP_Blocked r ↔
     (∃ md, acceptable running m chip refused md) ∧ ∃ by_, adm = Blocked by_ ∧ r = blocked_reason by_) ∧
  ∀ adm' p, plan_offer running m chip refused adm hw = OP_Fail p →
     ∃ p', plan_offer running m chip refused adm' hw = OP_Fail p' ∨
           ∃ by_, adm' = Blocked by_ ∧ plan_offer running m chip refused adm' hw = OP_Blocked p'.
Proof.
  destruct (acceptable_dec running m chip refused) as [[md Hacc]|Hno].
  - rewrite (plan_offer_acceptable _ _ _ _ adm hw md Hacc). split_and!.
    + intros [md' slot inv]. cbn. split.
      * destruct adm; [|done]. destruct (hw_update_slot hw) as [sl st| |] eqn:Hs; [|done..].
        intros [= -> -> <-]. split_and!; try done. eauto.
      * intros (Hacc' & -> & st & -> & ->). by rewrite (acceptable_unique _ _ _ _ _ _ Hacc Hacc').
    + intros r. split.
      * destruct adm as [|by_]; [by destruct (hw_update_slot hw)|]. intros [= <-]. split; [by exists md|].
        by exists by_.
      * by intros (_ & by_ & -> & ->).
    + intros adm' p Hf. rewrite (plan_offer_acceptable _ _ _ _ adm' hw md Hacc).
      destruct adm as [|by_]; [|done]. destruct adm' as [|by']; [by exists p; left|].
      exists (blocked_reason by'). right. by exists by'.
  - destruct (plan_offer_unacceptable _ _ _ _ adm hw Hno) as [reason ->]. split_and!.
    + intros p. split; [done|]. intros (Hacc & _). exfalso. eauto.
    + intros r. split; [done|]. by intros [Hacc _].
    + intros adm' _ _. destruct (plan_offer_unacceptable _ _ _ _ adm' hw Hno) as [r' Hr'].
      exists r'. by left.
Qed.

(** ** the commands as the worker thread executes them
    ([ota/runtime/worker.rs] of the ESP-IDF tier)

    The functions sequence the decisions of [WorkerPlan] and the store
    operations with the effects.  Hardware, HTTP, flash, the restart, the
    library flags (set by the health thread) and the other threads that take the
    store lock in between are an environment that may depend on everything that
    happened before; every effect is recorded, newest first. *)

Section run.
Context {K : Type} `{HO : OtaKv K}.

Inductive WorkEvent :=
| WE_Lock (before after : OtaStore K)
| WE_Hardware (r : result HardwareReadError HardwareFacts)
| WE_Fetch (url : string) (r : result FetchError Manifest)
| WE_Publish (status : OtaStatus)
| WE_Session (r : result OtaError unit)
| WE_Apply (url : string) (sha256 : list Z) (r : result OtaError unit)
| WE_Sleep
| WE_Restart
| WE_Rollback (r : result OtaError unit)
| WE_SetFlags (records_suspect refuse_mark_valid : bool).

Record WorkWorld := mkWork {
  ww_store : OtaStore K; ww_retention : Retention; ww_events : list WorkEvent }.

Record WorkEnv := mkWorkEnv {
  we_running : Version;
  we_chip : string;
  we_repair_max : Z;
  we_admission_open : list WorkEvent → bool;
  we_health_settled : list WorkEvent → bool;
  we_records_suspect : list WorkEvent → bool;
  we_roll_back_at_boot : list WorkEvent → bool;
  we_hardware : list WorkEvent → result HardwareReadError HardwareFacts;
  we_fetch : list WorkEvent → string → result FetchError Manifest;
  we_session : list WorkEvent → result OtaError unit;
  we_apply : list WorkEvent → string → list Z → result OtaError unit;
  we_rollback : list WorkEvent → result OtaError unit;
  we_others : list WorkEvent → OtaStore K → OtaStore K }.

(** [park_forever]: the restart callback returned. *)
Inductive Parked := Parks.

Context (env : WorkEnv).

Definition flagged {E} (f : list WorkEvent → bool) : M WorkWorld E bool :=
  λ w, (Ok (f (ww_events w)), w).
Definition emit_event {E} (e : WorkEvent) : M WorkWorld E unit :=
  λ w, (Ok tt, mkWork (ww_store w) (ww_retention w) (e :: ww_events w)).

(** An effect whose result the environment chooses; it is recorded with it. *)
Definition effect {E R} (f : list WorkEvent → R) (e : R → WorkEvent) : M WorkWorld E R :=
  λ w, let r := f (ww_events w) in
       (Ok r, mkWork (ww_store w) (ww_retention w) (e r :: ww_events w)).

(** [ctx.records.with(|store| ..)] *)
Definition records_with {E F A} (f : M (OtaStore K) F A) : M WorkWorld E (result F A) :=
  λ w, let before := we_others env (ww_events w) (ww_store w) in
       let '(r, after) := f before in
       (Ok r, mkWork after (ww_retention w) (WE_Lock before after :: ww_events w)).

Definition read_hardware_facts : M WorkWorld HardwareReadError HardwareFacts :=
  r ← effect (we_hardware env) WE_Hardware; of_result r.

Definition with_retention {E} (f : Retention → Retention) : M WorkWorld E unit :=
  λ w, (Ok tt, mkWork (ww_store w) (f (ww_retention w)) (ww_events w)).

Definition publish (status : OtaStatus) : M WorkWorld Parked unit := emit_event (WE_Publish status).
Definition fail (reason : FailReason) : M WorkWorld Parked unit := publish (ST_Failed reason).

Definition blocked (command : OtaCommand) (silent : bool) (reason : FailReason) : M WorkWorld Parked unit :=
  _ ← with_retention (retain command);
  match blocked_report silent reason with
  | Some reason => fail reason
  | None => mret tt
  end.

Definition settle_failed : M WorkWorld Parked unit :=
  hw ← catch read_hardware_facts;
  _ ← records_with (failed_download (E:=Empty_set) hw (Some (we_running env)));
  mret tt.

Definition apply (command : OtaCommand) (silent : bool) (manifest : Manifest) (plan : Proceed) :
    M WorkWorld Parked unit :=
  begun ← records_with (begin_attempt (im_version (pc_metadata plan)) (pc_slot plan) (pc_slot_was_invalid plan));
  match begun with
  | Err e =>
      match begin_failure e with
      | OP_Blocked reason => blocked command silent reason
      | OP_Fail reason => fail reason
      | OP_Proceed _ => fail FR_AttemptNotPersisted
      end
  | Ok _ =>
      _ ← publish ST_Downloading;
      session ← effect (we_session env) WE_Session;
      match session with
      | Err e => _ ← settle_failed; fail (FR_Ota e)
      | Ok _ =>
          let url := mf_url manifest in
          let sha256 := im_sha256 (pc_metadata plan) in
          applied ← effect (λ evs, we_apply env evs url sha256) (WE_Apply url sha256);
          match applied with
          | Err e => _ ← settle_failed; fail (FR_Ota e)
          | Ok _ =>
              _ ← records_with mark_boot_selected;
              _ ← publish ST_SwapPending;
              _ ← emit_event WE_Sleep;
              _ ← emit_event WE_Restart;
              throw Parks
          end
      end
  end.

(** [(store.admission(), store.refused())] under one lock. *)
Definition admission_and_refused : M (OtaStore K) Empty_set (Admission * result StoreError (option Version)) :=
  a ← admission; r ← catch refused; mret (a, r).

Definition run_update (command : OtaCommand) (url : string) (silent : bool) : M WorkWorld Parked unit :=
  open_ ← flagged (we_admission_open env);
  settled ← flagged (we_health_settled env);
  match early_update_block open_ settled with
  | Some (OP_Blocked reason) => blocked command silent reason
  | _ =>
      open_ ← flagged (we_admission_open env);
      hardware ← catch (plan_update_gate read_hardware_facts open_);
      match hardware with
      | Err reason => fail reason
      | Ok hardware =>
          manifest ← effect (λ evs, we_fetch env evs url) (WE_Fetch url);
          match manifest with
          | Err e => fail (FetchError_reason e)
          | Ok manifest =>
              ar ← records_with admission_and_refused;
              match ar with
              | Err e => match e : Empty_set with end
              | Ok (adm, ref) =>
                  match plan_offer (we_running env) manifest (we_chip env) (refused_or_absent ref)
                          adm hardware with
                  | OP_Fail reason => fail reason
                  | OP_Blocked reason => blocked command silent reason
                  | OP_Proceed plan => apply command silent manifest plan
                  end
              end
          end
      end
  end.

Definition run_rollback (from : Version) : M WorkWorld Parked unit :=
  open_ ← flagged (we_admission_open env);
  slot ← catch (plan_rollback read_hardware_facts from (we_running env) open_);
  match slot with
  | Err reason => fail reason
  | Ok slot =>
      armed ← records_with (rollback_arm slot (we_running env));
      match armed with
      | Err reason => fail reason
      | Ok armed =>
          session ← effect (we_session env) WE_Session;
          result ← match session with
                   | Ok _ => effect (we_rollback env) WE_Rollback
                   | Err e => mret (Err e)
                   end;
          match result with
          | Err _ =>
              _ ← records_with (rollback_undo (E:=Empty_set) armed);
              fail FR_RollbackUnavailable
          | Ok _ => mret tt
          end
      end
  end.

Definition run_repair : M WorkWorld Parked unit :=
  settled ← flagged (we_health_settled env);
  probe ← records_with corrupt_present;
  suspect ← flagged (we_records_suspect env);
  match plan_repair (RepairGate_new settled suspect (Probe_from_store probe)) with
  | Err reason => fail reason
  | Ok _ =>
      repaired ← records_with (repair_all (we_repair_max env));
      match repaired with
      | Err e => fail (RepairError_reason e)
      | Ok repaired =>
          hardware ← catch read_hardware_facts;
          roll_back_now ← flagged (we_roll_back_at_boot env);
          refreshed ← records_with (refresh_after_repair (E:=Empty_set) hardware (Some (we_running env)) roll_back_now);
          _ ← match refreshed with
              | Ok (Some f) => emit_event (WE_SetFlags (rf_records_suspect f) (rf_refuse_mark_valid f))
              | _ => mret tt
              end;
          if repaired =? 0 then fail FR_RepairNotNeeded else publish (ST_Repaired repaired)
      end
  end.

Definition execute (command : OtaCommand) (silent : bool) : M WorkWorld Parked unit :=
  match command with
  | CmdUpdate manifest_url _ => run_update command manifest_url silent
  | CmdRollback from => run_rollback from
  | CmdRepair => run_repair
  end.

(** One received command: [retention.on_command] and the execution. *)
Definition receive (command : OtaCommand) : M WorkWorld Parked unit :=
  _ ← with_retention (on_command command); execute command false.

(** One turn for the retained offer, once the flag is won. *)
Definition run_retained : M WorkWorld Parked unit :=
  offer ← (λ w, (Ok (offer (ww_retention w)), w)) : M WorkWorld Parked (option OtaCommand);
  _ ← with_retention (λ r, (retention_take r).2);
  match offer with
  | Some offer => execute offer true
  | None => mret tt
  end.
End run.
