(* ===== verification/WorkerRunProps.v ===== *)
(** * WorkerRunProps: no flash write without a durable attempt, no restart without a
    flashed image, no rollback without an armed request, and an answer to every command *)
From S2P Require Import Prelude Text Version Decision Kv FaultKv Reason KvLogic Store StoreViews StoreAttempt StoreReport Boot BootSpec Samples StoreOps StoreRepair StoreOpsProps Url Hex Wire Config Fetch Status WorkerPlan.
Open Scope Z_scope.

(** ** Store operations that keep the backend in order, whatever fails *)

Section safe.
Context {K : Type} `{HO : OtaKv K} `{HK : !KvContract K}.

Definition safe {E A} (m : M (OtaStore K) E A) : Prop :=
  ∀ c, sat Faulty m c (λ _ _, True) (λ _ _, True).

Lemma sat_safe {E A} (m : M (OtaStore K) E A) Q X : (∀ c, sat Faulty m c (Q c) (X c)) → safe m.
Proof. intros H c. by eapply sat_mono. Qed.

Lemma safe_ret {E A} (a : A) : safe (E:=E) (mret a).
Proof. intros c. by apply sat_ret. Qed.

Lemma safe_bind {E A B} (m : M (OtaStore K) E A) (f : A → M (OtaStore K) E B) :
  safe m → (∀ a, safe (f a)) → safe (m ≫= f).
Proof. intros Hm Hf c. apply sat_bind. eapply sat_mono; [apply Hm| |done]. intros a c' _. apply Hf. Qed.

Lemma safe_catch {E F A} (m : M (OtaStore K) E A) : safe m → safe (catch (F:=F) m).
Proof. intros Hm c. apply sat_catch. eapply sat_mono; [apply Hm|done..]. Qed.

Lemma safe_throw {E A} (e : E) : safe (throw (A:=A) e).
Proof. intros c. by apply sat_throw. Qed.

Lemma safe_restore p : safe (restore_refusal p).
Proof.
  intros c. destruct p as [v|]; simpl.
  - apply sat_kset_str; [by right|done|by intros _ e].
  - apply sat_kremove; [done|by intros _ e].
Qed.

Lemma safe_undo {E} armed : safe (rollback_undo (E:=E) armed).
Proof.
  unfold rollback_undo. apply safe_bind.
  - destruct (ao_refusal armed); [|apply safe_ret].
    apply safe_bind; [apply safe_catch, safe_restore|intros; apply safe_ret].
  - intros r. apply safe_bind; [|intros; apply safe_ret].
    destruct (ao_noted armed) as [n|]; [|apply safe_ret].
    apply safe_bind; [|intros; apply safe_ret].
    apply safe_catch. eapply (sat_safe _ (λ c _ c', _) (λ c _ c', _)). intros c. apply sat_withdraw.
Qed.

Lemma safe_corrupt_present : safe corrupt_present.
Proof. eapply (sat_safe _ (λ c _ c', _) (λ c _ c', _)). intros c. apply sat_corrupt_present. Qed.

Lemma safe_repair_all n : safe (repair_all n).
Proof.
  unfold repair_all. generalize 0 as r. induction (Z.to_nat n) as [|b IH]; intros r; simpl.
  - apply safe_bind; [apply safe_catch, safe_corrupt_present|].
    intros [[]|]; first [apply safe_ret|apply safe_throw].
  - apply safe_bind.
    + apply safe_catch. eapply (sat_safe _ (λ c _ c', _) (λ c _ c', _)). intros c. apply sat_repair_corrupt.
    + intros [[]|]; [apply IH|apply safe_ret|apply safe_throw].
Qed.

Lemma safe_failed_download {E} hw rv : safe (failed_download (E:=E) hw rv).
Proof.
  unfold failed_download. destruct hw as [hw|]; [|apply safe_ret].
  apply safe_bind; [|intros; apply safe_ret]. apply safe_catch.
  eapply (sat_safe _ (λ c _ c', _) (λ c _ c', _)). intros c. apply sat_settle_failed.
Qed.

Lemma safe_refresh {E} hw rv b : safe (refresh_after_repair (E:=E) hw rv b).
Proof.
  unfold refresh_after_repair. destruct hw as [hw|]; [|apply safe_ret].
  apply safe_bind; [|intros; apply safe_ret].
  eapply (sat_safe _ (λ c _ c', _) (λ c _ c', _)). intros c. apply sat_reconcile_boot. by right.
Qed.

Lemma safe_mark_boot : safe mark_boot_selected.
Proof. intros c. apply sat_kset_u8; [done|by intros _ e]. Qed.

Lemma safe_admission_refused : safe admission_and_refused.
Proof.
  unfold admission_and_refused. apply safe_bind.
  - intros c. by apply sat_admission.
  - intros a. apply safe_bind; [|intros; apply safe_ret]. apply safe_catch.
    intros c. eapply sat_reads; [apply reads_refused|done..].
Qed.
End safe.

#[export] Hint Resolve safe_undo safe_corrupt_present safe_repair_all safe_failed_download safe_refresh
  safe_mark_boot safe_admission_refused : rn.

(** ** What the log of effects promises *)

Section run.
Context {K : Type} `{HO : OtaKv K} `{HK : !KvContract K}.
Context (env : WorkEnv (K:=K)).
Implicit Types (w : WorkWorld (K:=K)) (pre : list (WorkEvent (K:=K))).

(** The offer behind a flash write: fetched and read in this run, for this chip,
    newer, for the update slot, on a verified image. *)
Definition offered pre (m : Manifest) (p : Proceed) : Prop :=
  ∃ u hw st, WE_Fetch u (Ok m) ∈ pre ∧ WE_Hardware (Ok hw) ∈ pre ∧
    hw_running_state hw ≠ SPendingVerify ∧ hw_update_slot hw = US_Present (pc_slot p) st ∧
    pc_slot_was_invalid p = bool_decide (st = SInvalid) ∧
    mf_target m = we_chip env ∧ image_metadata m = Ok (pc_metadata p) ∧
    newer (we_running env) (im_version (pc_metadata p)).

(** [before] admitted the attempt and [after] holds all of it. *)
Definition attempt_begun (before after : OtaStore K) (p : Proceed) : Prop :=
  v_admission (cont before) = Open ∧
  ∃ id, v_attempt (cont after) = Ok (Some (mkStored
    (mkAttempt id (Some (im_version (pc_metadata p))) (pc_slot p) false false (pc_slot_was_invalid p)) None)).

Definition event_ok (e : WorkEvent (K:=K)) pre : Prop :=
  match e with
  | WE_Apply url sha256 _ =>
      ∃ before after rest m p,
        pre = WE_Session (Ok tt) :: WE_Publish ST_Downloading :: WE_Lock before after :: rest ∧
        attempt_begun before after p ∧ offered rest m p ∧
        url = mf_url m ∧ sha256 = im_sha256 (pc_metadata p)
  | WE_Restart => ∃ url sha256, WE_Apply url sha256 (Ok tt) ∈ pre
  | WE_Rollback _ =>
      ∃ before after rest, pre = WE_Session (Ok tt) :: WE_Lock before after :: rest ∧
        v_admission (cont before) = Open ∧ v_admission (cont after) = Blocked AttemptUnresolved ∧
        v_refused (cont after) = Ok (Some (we_running env))
  | _ => True
  end.

Fixpoint work_log_ok (evs : list (WorkEvent (K:=K))) : Prop :=
  match evs with [] => True | e :: pre => work_log_ok pre ∧ event_ok e pre end.

Definition good w : Prop := kv_ok (kv (ww_store w)) ∧ work_log_ok (ww_events w).
Definition work_others_ok : Prop := ∀ evs s, kv_ok (kv s) → kv_ok (kv (we_others env evs s)).

(** [holds m w Q]: from [w], [m] keeps the promises and [Q] holds of what it returns. *)
Definition holds {E A} (m : M (WorkWorld (K:=K)) E A) w (Q : result E A → WorkWorld → Prop) : Prop :=
  good (m w).2 ∧ Q (m w).1 (m w).2.

Definition any {E A} (_ : result E A) (_ : WorkWorld (K:=K)) : Prop := True.

Lemma holds_ret {E A} (a : A) w (Q : result E A → WorkWorld → Prop) :
  good w → Q (Ok a) w → holds (mret a) w Q.
Proof. by split. Qed.

Lemma holds_throw {E A} (e : E) w (Q : result E A → WorkWorld → Prop) :
  good w → Q (Err e) w → holds (throw e) w Q.
Proof. by split. Qed.

Lemma holds_bind {E A B} (m : M WorkWorld E A) (f : A → M WorkWorld E B) w Q :
  holds m w (λ r w', match r with Ok a => holds (f a) w' Q | Err e => Q (Err e) w' end) →
  holds (m ≫= f) w Q.
Proof.
  unfold holds, mbind, M_bind. destruct (m w) as [[a|e] w']; simpl; [|done]. by intros [_ H].
Qed.

Lemma holds_mono {E A} (m : M WorkWorld E A) w (Q Q' : result E A → WorkWorld → Prop) :
  holds m w Q → (∀ r w', good w' → Q r w' → Q' r w') → holds m w Q'.
Proof. intros [Hg HQ] H. split; auto. Qed.

Lemma holds_catch {E F A} (m : M WorkWorld E A) w (Q : result F (result E A) → WorkWorld → Prop) :
  holds m w (λ r, Q (Ok r)) → holds (catch m) w Q.
Proof. unfold holds, catch. by destruct (m w). Qed.

Lemma holds_flagged {E} f w (Q : result E bool → WorkWorld → Prop) :
  good w → Q (Ok (f (ww_events w))) w → holds (flagged f) w Q.
Proof. by split. Qed.

Lemma holds_event {E} e w (Q : result E unit → WorkWorld → Prop) :
  good w → event_ok e (ww_events w) →
  Q (Ok tt) (mkWork (ww_store w) (ww_retention w) (e :: ww_events w)) → holds (emit_event e) w Q.
Proof. intros [Hk Hl] He HQ. by split. Qed.

Lemma holds_effect {E R} (f : list WorkEvent → R) (e : R → WorkEvent) w
    (Q : result E R → WorkWorld → Prop) :
  good w → (∀ r, event_ok (e r) (ww_events w)) →
  (∀ r, Q (Ok r) (mkWork (ww_store w) (ww_retention w) (e r :: ww_events w))) →
  holds (effect f e) w Q.
Proof. intros [Hk Hl] He HQ. split; [split; [done|by split]|]. apply HQ. Qed.

Lemma holds_retention {E} f w (Q : result E unit → WorkWorld → Prop) :
  good w → Q (Ok tt) (mkWork (ww_store w) (f (ww_retention w)) (ww_events w)) → holds (with_retention f) w Q.
Proof. intros [Hk Hl] HQ. by split. Qed.

(** A lock section, with what the operation promises about the contents. *)
Lemma holds_lock {E F A} (f : M (OtaStore K) F A) P X w (Q : result E (result F A) → WorkWorld → Prop) :
  work_others_ok → good w → (∀ c, sat Faulty f c (P c) (X c)) →
  (∀ r before after, match r with Ok a => P (cont before) a (cont after) | Err e => X (cont before) e (cont after) end →
     good (mkWork after (ww_retention w) (WE_Lock before after :: ww_events w)) →
     Q (Ok r) (mkWork after (ww_retention w) (WE_Lock before after :: ww_events w))) →
  holds (records_with env f) w Q.
Proof.
  intros Hoth [Hok Hlog] Hsat HQ. unfold holds, records_with.
  set (before := we_others env (ww_events w) (ww_store w)).
  assert (Hb : kv_ok (kv before)) by by apply Hoth.
  pose proof (sat_run Faulty f (cont before) _ _ before (Hsat (cont before)) Hb eq_refl) as Hrun.
  destruct (f before) as [[a|e] after]; destruct Hrun as (Hka & _ & HP); try done; simpl.
  - assert (Hg : good (mkWork after (ww_retention w) (WE_Lock before after :: ww_events w))) by by split.
    split; [done|]. by apply HQ.
  - assert (Hg : good (mkWork after (ww_retention w) (WE_Lock before after :: ww_events w))) by by split.
    split; [done|]. by apply HQ.
Qed.

Lemma holds_lock_safe {E F A} (f : M (OtaStore K) F A) w (Q : result E (result F A) → WorkWorld → Prop) :
  work_others_ok → good w → safe f →
  (∀ r before after, good (mkWork after (ww_retention w) (WE_Lock before after :: ww_events w)) →
     Q (Ok r) (mkWork after (ww_retention w) (WE_Lock before after :: ww_events w))) →
  holds (records_with env f) w Q.
Proof. intros Hoth Hg Hs HQ. eapply holds_lock; [done|done|apply Hs|]. intros r b a _. apply HQ. Qed.

Lemma good_event s r e evs :
  good (mkWork s r evs) → event_ok e evs → good (mkWork s r (e :: evs)).
Proof. intros [Hk Hl] He. split; [exact Hk|]. by split. Qed.

(** Adds the events whose promise is trivial. *)
Ltac keep_good := repeat first [assumption | apply good_event; [|exact I]].

(** ** How a command ends *)

Definition terminal (st : OtaStatus) : Prop :=
  match st with ST_Failed _ | ST_Repaired _ => True | _ => False end.

(** Parked after the restart of a flashed image; or answered by a final status; or a
    silently retained offer; or a rollback that started and came back. *)
Definition answered (command : OtaCommand) (silent : bool) (r : result Parked unit) w : Prop :=
  match r with
  | Err _ => ∃ rest url sha256, ww_events w = WE_Restart :: rest ∧ WE_Apply url sha256 (Ok tt) ∈ rest
  | Ok _ =>
      (∃ st rest, ww_events w = WE_Publish st :: rest ∧ terminal st) ∨
      (silent = true ∧ offer (ww_retention w) = Some command) ∨
      (∃ from rest, command = CmdRollback from ∧ ww_events w = WE_Rollback (Ok tt) :: rest)
  end.

Lemma fail_holds command silent reason w : good w → holds (fail reason) w (answered command silent).
Proof. intros Hg. apply holds_event; [done|done|]. left. by eexists _, _. Qed.

Lemma blocked_holds command silent reason w :
  good w → is_update command = true → holds (blocked command silent reason) w (answered command silent).
Proof.
  intros Hg Hu. unfold blocked. apply holds_bind, holds_retention; [done|].
  unfold blocked_report. destruct silent; [|by apply fail_holds].
  apply holds_ret; [done|]. right. left. split; [done|]. simpl. unfold retain. by rewrite Hu.
Qed.

Lemma read_hardware_holds {F} w (Q : result F (result HardwareReadError HardwareFacts) → WorkWorld → Prop) :
  good w →
  (∀ r, good (mkWork (ww_store w) (ww_retention w) (WE_Hardware r :: ww_events w)) →
     Q (Ok r) (mkWork (ww_store w) (ww_retention w) (WE_Hardware r :: ww_events w))) →
  holds (catch (read_hardware_facts env)) w Q.
Proof.
  intros [Hk Hl] HQ. set (r := we_hardware env (ww_events w)).
  assert (Hrun : catch (F:=F) (read_hardware_facts env) w =
    (Ok r, mkWork (ww_store w) (ww_retention w) (WE_Hardware r :: ww_events w))).
  { unfold catch, read_hardware_facts, mbind, M_bind, effect, of_result. by fold r. }
  unfold holds. rewrite Hrun. split; [by split|]. apply HQ. by split.
Qed.

Lemma settle_failed_holds w Q : work_others_ok → good w →
  (∀ w', good w' → Q (Ok tt) w') → holds (settle_failed env) w Q.
Proof.
  intros Hoth Hg HQ. unfold settle_failed. apply holds_bind, read_hardware_holds; [done|].
  intros hw Hg1. apply holds_bind, holds_lock_safe; [done|done|auto with rn|].
  intros r b a Hg2. apply holds_ret; auto.
Qed.

Lemma apply_holds command silent m p w :
  work_others_ok → good w → is_update command = true → offered (ww_events w) m p →
  wf_version (im_version (pc_metadata p)) →
  holds (apply env command silent m p) w (answered command silent).
Proof.
  intros Hoth Hg Hu Hoff Hwf. unfold apply. apply holds_bind.
  eapply holds_lock; [done|done|intros c; by apply sat_begin_attempt|].
  intros r before after Hr Hg1. destruct r as [id|e].
  2:{ destruct (begin_failure e); [by apply fail_holds|by apply blocked_holds|by apply fail_holds]. }
  destruct Hr as (Hopen & Hfac & label & c1 & Hl & _ & Hw & _).
  assert (Hbegun : attempt_begun before after p).
  { split; [done|]. exists id. by eapply attempt_written_view. }
  apply holds_bind. unfold publish. apply holds_event; [done|done|].
  apply holds_bind, holds_effect; [keep_good|done|].
  intros [[]|e].
  2:{ apply holds_bind, settle_failed_holds; [done|keep_good|]. intros w' Hg'. by apply fail_holds. }
  apply holds_bind, holds_effect; [keep_good| |].
  { intros r. cbn [event_ok ww_events]. exists before, after, (ww_events w), m, p. done. }
  intros applied.
  assert (Hg2 : good (mkWork after (ww_retention w)
    (WE_Apply (mf_url m) (im_sha256 (pc_metadata p)) applied :: WE_Session (Ok tt) ::
     WE_Publish ST_Downloading :: WE_Lock before after :: ww_events w))).
  { destruct Hg1 as [Hk1 Hl1]. split; [done|]. split; [by split|].
    exists before, after, (ww_events w), m, p. done. }
  destruct applied as [[]|e].
  2:{ apply holds_bind, settle_failed_holds; [done|done|]. intros w' Hg'. by apply fail_holds. }
  apply holds_bind, holds_lock_safe; [done|done|auto with rn|]. intros mk b2 a2 Hg3.
  apply holds_bind, holds_event; [done|done|].
  apply holds_bind, holds_event; [keep_good|done|].
  apply holds_bind, holds_event; [keep_good| |].
  { cbn. do 2 eexists. do 3 right. left. }
  apply holds_throw.
  { apply good_event; [keep_good|]. cbn. do 2 eexists. do 3 right. left. }
  cbn. do 3 eexists. split; [done|]. do 3 right. left.
Qed.

Lemma gate_holds w open_ (Q : result Parked (result FailReason HardwareFacts) → WorkWorld → Prop) :
  good w →
  (∀ r w', good w' →
     match r with
     | Ok hw => WE_Hardware (Ok hw) ∈ ww_events w' ∧ hw_running_state hw ≠ SPendingVerify
     | Err _ => True
     end → Q (Ok r) w') →
  holds (catch (plan_update_gate (read_hardware_facts env) open_)) w Q.
Proof.
  intros Hg HQ. unfold plan_update_gate. destruct open_; cbn [negb].
  2:{ apply holds_catch, holds_throw; [done|]. by apply HQ. }
  apply holds_catch, holds_bind.
  set (r := we_hardware env (ww_events w)).
  set (w1 := mkWork (ww_store w) (ww_retention w) (WE_Hardware r :: ww_events w)).
  assert (Hrun : read_or_reason (read_hardware_facts env) w = (map_err hardware_reason r, w1)) by done.
  assert (Hg1 : good w1) by keep_good.
  unfold holds at 1. rewrite Hrun. split; [done|]. cbn [fst snd].
  destruct r as [hw|e] eqn:Er; cbn [map_err]; [|by apply HQ].
  case_bool_decide as Hp; [apply holds_throw; [done|]; by apply HQ|].
  apply holds_ret; [done|]. apply HQ; [done|]. split; [left|done].
Qed.

Lemma run_update_holds url sig silent w :
  work_others_ok → good w →
  holds (run_update env (CmdUpdate url sig) url silent) w (answered (CmdUpdate url sig) silent).
Proof.
  intros Hoth Hg. unfold run_update.
  apply holds_bind, holds_flagged; [done|]. apply holds_bind, holds_flagged; [done|].
  unfold early_update_block. destruct (_ && _); [by apply blocked_holds|].
  apply holds_bind, holds_flagged; [done|].
  apply holds_bind, gate_holds; [done|]. intros r w1 Hg1 Hr. destruct r as [hw|e]; [|by apply fail_holds].
  destruct Hr as [Hhw Hpv].
  apply holds_bind, holds_effect; [done|done|]. intros mr.
  assert (Hg2 : good (mkWork (ww_store w1) (ww_retention w1) (WE_Fetch url mr :: ww_events w1)))
    by keep_good.
  destruct mr as [m|e]; [|by apply fail_holds].
  apply holds_bind, holds_lock_safe; [done|done|auto with rn|]. intros ar b a Hg3.
  destruct ar as [[adm ref]|[]].
  destruct (acceptable_dec (we_running env) m (we_chip env) (refused_or_absent ref)) as [[md Hacc]|Hno].
  - rewrite (plan_offer_acceptable _ _ _ _ adm hw md Hacc).
    destruct adm as [|by_]; [|by apply blocked_holds].
    destruct (hw_update_slot hw) as [slot st| |] eqn:Hslot; [|by apply fail_holds..].
    apply apply_holds; [done|done|done| |].
    + destruct Hacc as (Ht & Hmd & Hnew & _). exists url, hw, st. cbn. split_and!; try done.
      * right. left.
      * do 2 right. done.
    + destruct Hacc as (_ & Hmd & _). cbn. unfold image_metadata, ImageMetadata_parse in Hmd.
      destruct (hex_to_bytes _) as [sha|]; [|done]. cbn in Hmd.
      destruct (Version_parse _) as [v|] eqn:Hv; [|done]. injection Hmd as <-. by eapply Version_parse_wf.
  - destruct (plan_offer_unacceptable _ _ _ _ adm hw Hno) as [reason ->]. by apply fail_holds.
Qed.

Lemma run_rollback_holds from silent w :
  work_others_ok → wf_version (we_running env) → good w →
  holds (run_rollback env from) w (answered (CmdRollback from) silent).
Proof.
  intros Hoth Hwf Hg. unfold run_rollback. apply holds_bind, holds_flagged; [done|].
  apply holds_bind. unfold plan_rollback.
  case_bool_decide as Hv; cbn [negb]; [|apply holds_catch, holds_throw; [done|]; by apply fail_holds].
  destruct (we_admission_open env (ww_events w)); cbn [negb];
    [|apply holds_catch, holds_throw; [done|]; by apply fail_holds].
  apply holds_catch, holds_bind.
  set (r := we_hardware env (ww_events w)).
  set (w1 := mkWork (ww_store w) (ww_retention w) (WE_Hardware r :: ww_events w)).
  assert (Hrun : read_or_reason (read_hardware_facts env) w = (map_err hardware_reason r, w1)) by done.
  assert (Hg1 : good w1) by keep_good.
  unfold holds at 1. rewrite Hrun. split; [done|]. cbn [fst snd].
  destruct r as [hw|e]; cbn [map_err]; [|by apply fail_holds].
  case_bool_decide; [apply holds_throw; [done|]; by apply fail_holds|].
  case_bool_decide; [apply holds_throw; [done|]; by apply fail_holds|].
  apply holds_ret; [done|].
  apply holds_bind. eapply holds_lock; [done|done|intros c; by apply sat_rollback_arm|].
  intros ra before after Hra Hg2. destruct ra as [armed|reason]; [|by apply fail_holds].
  destruct Hra as [Hopen Harm]. destruct (arm_written_view _ _ _ _ _ Hwf Harm) as [Hadm Href].
  apply holds_bind, holds_effect; [done|done|]. intros session.
  assert (Hundo : ∀ w', good w' → holds
    (_ ← records_with env (rollback_undo (E:=Empty_set) armed); fail FR_RollbackUnavailable) w'
    (answered (CmdRollback from) silent)).
  { intros w' Hg'. apply holds_bind, holds_lock_safe; [done|done|auto with rn|].
    intros u b a Hgu. by apply fail_holds. }
  assert (Hg3 : good (mkWork after (ww_retention w1) (WE_Session session :: WE_Lock before after :: ww_events w1)))
    by keep_good.
  apply holds_bind. destruct session as [[]|e]; [|by apply holds_ret; [done|]; apply Hundo].
  assert (Hok : ∀ res : result OtaError unit, event_ok (WE_Rollback res)
    (WE_Session (Ok tt) :: WE_Lock before after :: ww_events w1)).
  { intros res. exists before, after, (ww_events w1). done. }
  apply holds_effect; [done|exact Hok|]. intros res.
  assert (Hg4 : good (mkWork after (ww_retention w1)
    (WE_Rollback res :: WE_Session (Ok tt) :: WE_Lock before after :: ww_events w1))).
  { destruct Hg3. split; [done|]. split; [done|apply Hok]. }
  destruct res as [[]|e]; [|by apply Hundo].
  apply holds_ret; [done|]. right. right. by do 2 eexists.
Qed.

Lemma run_repair_holds silent w :
  work_others_ok → good w → holds (run_repair env) w (answered CmdRepair silent).
Proof.
  intros Hoth Hg. unfold run_repair. apply holds_bind, holds_flagged; [done|].
  apply holds_bind, holds_lock_safe; [done|done|auto with rn|]. intros probe b a Hg1.
  apply holds_bind, holds_flagged; [done|].
  destruct (plan_repair _) as [[]|reason]; [|by apply fail_holds].
  apply holds_bind, holds_lock_safe; [done|done|auto with rn|]. intros rep b2 a2 Hg2.
  destruct rep as [n|e]; [|by apply fail_holds].
  apply holds_bind, read_hardware_holds; [done|]. intros hw Hg3.
  apply holds_bind, holds_flagged; [done|].
  apply holds_bind, holds_lock_safe; [done|done|auto with rn|]. intros f b3 a3 Hg4.
  assert (Hend : ∀ w', good w' → holds
    (if n =? 0 then fail FR_RepairNotNeeded else publish (ST_Repaired n)) w' (answered CmdRepair silent)).
  { intros w' Hg'. destruct (n =? 0); [by apply fail_holds|]. apply holds_event; [done|done|].
    left. by eexists _, _. }
  apply holds_bind. destruct f as [[f|]|[]].
  - apply holds_event; [done|done|]. apply Hend. keep_good.
  - apply holds_ret; [done|]. by apply Hend.
Qed.

Lemma execute_holds command silent w :
  work_others_ok → wf_version (we_running env) → good w →
  holds (execute env command silent) w (answered command silent).
Proof.
  destruct command; [by intros; apply run_update_holds|by intros; apply run_rollback_holds
                    |by intros; apply run_repair_holds].
Qed.
End run.

(** ** Properties *)

Lemma log_event {K : Type} `{HO : OtaKv K} `{HK : !KvContract K} (env : WorkEnv (K:=K)) evs post e pre :
  work_log_ok env evs → evs = post ++ e :: pre → event_ok env e pre.
Proof.
  intros Hlog ->. induction post as [|x post IH]; simpl in Hlog; [by destruct Hlog|].
  apply IH. by destruct Hlog.
Qed.

(** C6: the worker's irreversible effects are guarded.  For every command, environment and store fault: a
    firmware image is downloaded to flash only directly after an attempt for exactly that version and
    slot was admitted and recorded in full, for a manifest fetched in this run that names this chip
    and a newer version, with the URL and digest of that manifest, and while the running image is
    verified; the device is restarted only after such a download succeeded; and the bootloader is told
    to roll back only directly after the rollback was admitted and armed with the running version
    refused. *)
Theorem worker_effects_guarded {K : Type} `{HO : OtaKv K} `{HK : !KvContract K}
    (env : WorkEnv (K:=K)) command silent s r post e pre :
  kv_ok (kv s) → work_others_ok env → wf_version (we_running env) →
  ww_events (execute env command silent (mkWork s r [])).2 = post ++ e :: pre →
  match e with
  | WE_Apply url sha256 _ =>
      ∃ before after rest m p,
        pre = WE_Session (Ok tt) :: WE_Publish ST_Downloading :: WE_Lock before after :: rest ∧
        attempt_begun before after p ∧ offered env rest m p ∧
        url = mf_url m ∧ sha256 = im_sha256 (pc_metadata p)
  | WE_Restart => ∃ url sha256, WE_Apply url sha256 (Ok tt) ∈ pre
  | WE_Rollback _ =>
      ∃ before after rest, pre = WE_Session (Ok tt) :: WE_Lock before after :: rest ∧
        v_admission (cont before) = Open ∧ v_admission (cont after) = Blocked AttemptUnresolved ∧
        v_refused (cont after) = Ok (Some (we_running env))
  | _ => True
  end.
Proof.
  intros Hok Hoth Hwf Hev.
  destruct (execute_holds env command silent (mkWork s r []) Hoth Hwf) as [[_ Hlog] _]; [by split|].
  exact (log_event env _ _ _ _ Hlog Hev).
Qed.

(** no command is lost.  Every executed command ends in one of four ways: its last effect is the
    publication of a final status, failed or repaired; it was a silent re-evaluation and the offer is
    retained again; it was a rollback that was started and came back; or the worker is parked by a
    restart that returned, after a successful download. *)
Lemma worker_answers {K : Type} `{HO : OtaKv K} `{HK : !KvContract K}
    (env : WorkEnv (K:=K)) command silent s r :
  kv_ok (kv s) → work_others_ok env → wf_version (we_running env) →
  let '(res, w) := execute env command silent (mkWork s r []) in
  match res with
  | Err Parks => ∃ rest url sha256, ww_events w = WE_Restart :: rest ∧ WE_Apply url sha256 (Ok tt) ∈ rest
  | Ok _ =>
      (∃ st rest, ww_events w = WE_Publish st :: rest ∧ terminal st) ∨
      (silent = true ∧ offer (ww_retention w) = Some command) ∨
      (∃ from rest, command = CmdRollback from ∧ ww_events w = WE_Rollback (Ok tt) :: rest)
  end.
Proof.
  intros Hok Hoth Hwf.
  destruct (execute_holds env command silent (mkWork s r []) Hoth Hwf) as [_ Ha]; [by split|].
  destruct (execute env command silent (mkWork s r [])) as [[a|[]] w]; exact Ha.
Qed.

(** ** Witnesses *)

Definition zeros : string := "0000000000000000000000000000000000000000000000000000000000000000".
Definition m_offer : Manifest := mkManifest "1.2.0" zeros "http://h/fw.bin" "esp32c3".

(** A verified 1.1.0 in slot 0, an open admission, a good manifest, and a session that works. *)
Definition field_env (apply_result : result OtaError unit) : WorkEnv (K:=Inner) :=
  mkWorkEnv v110 "esp32c3" 8 (λ _, true) (λ _, true) (λ _, false) (λ _, false)
    (λ _, Ok hw_previous) (λ _ _, Ok m_offer) (λ _, Ok tt) (λ _ _ _, apply_result) (λ _, Ok tt) (λ _ s, s).

Definition cmd_offer : OtaCommand := CmdUpdate "http://h/m.json" false.

Lemma worker_effects_guarded_witness :
  let w := (execute (field_env (Ok tt)) cmd_offer false (mkWork (sample ∅ None) Retention_new [])).2 in
  ∃ post pre, ww_events w = post ++ WE_Apply "http://h/fw.bin" (replicate 32 0) (Ok tt) :: pre ∧
    length post = 4%nat ∧
    ∃ before after rest m p,
      pre = WE_Session (Ok tt) :: WE_Publish ST_Downloading :: WE_Lock before after :: rest ∧
      attempt_begun before after p ∧ offered (field_env (Ok tt)) rest m p ∧
      "http://h/fw.bin" = mf_url m ∧ replicate 32 0 = im_sha256 (pc_metadata p).
Proof.
  intros w.
  assert (Hev : ww_events w = take 4 (ww_events w) ++
            WE_Apply "http://h/fw.bin" (replicate 32 0) (Ok tt) :: drop 5 (ww_events w))
    by (vm_compute; reflexivity).
  exists (take 4 (ww_events w)), (drop 5 (ww_events w)). split; [exact Hev|].
  split; [vm_compute; reflexivity|].
  apply (worker_effects_guarded (field_env (Ok tt)) cmd_offer false (sample ∅ None) Retention_new
           (take 4 (ww_events w)) (WE_Apply "http://h/fw.bin" (replicate 32 0) (Ok tt)) (drop 5 (ww_events w))).
  - sample_ok.
  - by intros evs s.
  - sample_ok.
  - exact Hev.
Defined.

Lemma worker_answers_witness :
  let w := (execute (field_env (Err FlashWriteFailed)) cmd_offer false (mkWork (sample ∅ None) Retention_new [])).2 in
  (∃ st rest, ww_events w = WE_Publish st :: rest ∧ terminal st) ∨
  (false = true ∧ offer (ww_retention w) = Some cmd_offer) ∨
  (∃ from rest, cmd_offer = CmdRollback from ∧ ww_events w = WE_Rollback (Ok tt) :: rest).
Proof.
  pose proof (worker_answers (field_env (Err FlashWriteFailed)) cmd_offer false (sample ∅ None) Retention_new) as H.
  assert (Hr : (execute (field_env (Err FlashWriteFailed)) cmd_offer false
                  (mkWork (sample ∅ None) Retention_new [])).1 = Ok tt) by (vm_compute; reflexivity).
  destruct (execute (field_env (Err FlashWriteFailed)) cmd_offer false
              (mkWork (sample ∅ None) Retention_new [])) as [res w].
  simpl in Hr. subst res. apply H; [sample_ok|by intros evs s|sample_ok].
Defined.
