(* ===== verification/Reporter.v ===== *)
(** * Reporter: delivery of the rollback report ([ota/runtime/report.rs], and the service
    loop of the reporter thread of the ESP-IDF tier, [ota/runtime/reporter.rs])

    Time is the duration since the reporter started; [None] is the panic of
    [Duration + Duration].  In the loop the MQTT session, the acknowledged
    publish, the clock and the other threads that take the store lock in between
    are an environment that may depend on everything that happened before.  The theorems:
    the report is delivered at least once and never marked early, and the loop ends. *)
From S2P Require Import Prelude Text Version Decision Kv FaultKv Reason KvLogic Store StoreViews StoreAttempt StoreReport Samples StoreOps Config Status.
Open Scope Z_scope.
Open Scope rn_scope.

(** ** [ReporterMachine] *)

Record ReporterConfig := mkReporterConfig {
  rp_retry : duration; rp_connect_poll : duration; rp_max_other_passes : Z }.

Definition ReporterConfig_from (t : OtaTimings) : ReporterConfig :=
  mkReporterConfig (report_retry t) (reporter_connect_poll t) 2.

Inductive PublishOutcome := PO_Acked | PO_Timeout | PO_Disconnected | PO_WrongThread | PO_Other.

#[export] Instance PublishOutcome_eq_dec : EqDecision PublishOutcome.
Proof. solve_decision. Defined.

Inductive PublishStep := PS_MarkDelivered | PS_RetryLater (loud : bool).
Inductive ViewStep := VS_Publish | VS_Idle.
Inductive DeliveryStep := DS_Done | DS_PublishNext.

Record ReporterMachine := mkReporter {
  rm_cfg : ReporterConfig; next_due : duration; other_passes : Z }.

Definition ReporterMachine_new (cfg : ReporterConfig) : ReporterMachine := mkReporter cfg 0 0.

Definition next_wait (now : duration) (m : ReporterMachine) : duration :=
  Z.min (saturating_sub (next_due m) now) (rp_retry (rm_cfg m)).

Definition report_due (now : duration) (m : ReporterMachine) : bool := next_due m <=? now.

Definition on_disconnected (now : duration) (m : ReporterMachine) : option ReporterMachine :=
  due ← dur_add now (rp_connect_poll (rm_cfg m));
  Some (mkReporter (rm_cfg m) due (other_passes m)).

(** [self.other_passes = 0; self.next_due = now + self.cfg.retry] *)
Definition next_window (now : duration) (m : ReporterMachine) : option ReporterMachine :=
  due ← dur_add now (rp_retry (rm_cfg m)); Some (mkReporter (rm_cfg m) due 0).

Definition on_view (now : duration) (ready : bool) (m : ReporterMachine) :
    option (ViewStep * ReporterMachine) :=
  if ready then Some (VS_Publish, m) else m ← next_window now m; Some (VS_Idle, m).

Definition on_store_error (now : duration) (m : ReporterMachine) : option ReporterMachine :=
  next_window now m.

Definition on_publish (now : duration) (outcome : PublishOutcome) (m : ReporterMachine) :
    option (PublishStep * ReporterMachine) :=
  if bool_decide (outcome = PO_Acked) then Some (PS_MarkDelivered, m)
  else
    due ← dur_add now (rp_retry (rm_cfg m));
    Some (PS_RetryLater (bool_decide (outcome = PO_WrongThread)),
          mkReporter (rm_cfg m) due (other_passes m)).

Definition on_delivery (now : duration) (delivery : Delivery) (m : ReporterMachine) :
    option (DeliveryStep * ReporterMachine) :=
  let done_ := m ← next_window now m; Some (DS_Done, m) in
  match delivery with
  | OtherReport _ =>
      if other_passes m <? rp_max_other_passes (rm_cfg m) then
        Some (DS_PublishNext, mkReporter (rm_cfg m) now (other_passes m ⊞ 1))
      else done_
  | _ => done_
  end.

(** ** [CompletionRetry] *)

Record CompletionRetryConfig := mkRetryConfig { cr_initial : duration; cr_cap : duration }.

Definition CompletionRetryConfig_from (t : OtaTimings) : CompletionRetryConfig :=
  mkRetryConfig (t_complete_retry t) (Z.max (report_retry t) (t_complete_retry t)).

Record Schedule := mkSchedule { sc_next_due : duration; sc_delay : duration }.
Record CompletionRetry := mkRetry { cr_cfg : CompletionRetryConfig; armed : option Schedule }.

Definition CompletionRetry_new (cfg : CompletionRetryConfig) : CompletionRetry := mkRetry cfg None.
Definition is_armed (r : CompletionRetry) : bool := bool_decide (is_Some (armed r)).

Definition arm (now : duration) (r : CompletionRetry) : option CompletionRetry :=
  match armed r with
  | Some _ => Some r
  | None =>
      due ← dur_add now (cr_initial (cr_cfg r));
      Some (mkRetry (cr_cfg r) (Some (mkSchedule due (cr_initial (cr_cfg r)))))
  end.

Definition retry_next_wait (now : duration) (r : CompletionRetry) : option duration :=
  (λ s, saturating_sub (sc_next_due s) now) <$> armed r.

Definition retry_due (now : duration) (r : CompletionRetry) : bool :=
  match armed r with Some s => sc_next_due s <=? now | None => false end.

Definition on_result (now : duration) (result : CompletionTry) (r : CompletionRetry) :
    option (bool * CompletionRetry) :=
  match result with
  | CT_Completed | CT_Gone => Some (false, mkRetry (cr_cfg r) None)
  | CT_StillFailing =>
      match armed r with
      | None => Some (false, r)
      | Some s =>
          let delay := Z.min (saturating_mul (sc_delay s) 2) (cr_cap (cr_cfg r)) in
          due ← dur_add now delay;
          Some (true, mkRetry (cr_cfg r) (Some (mkSchedule due delay)))
      end
  end.

Definition rejects_delta (total last_seen : Z) : Z := total ⊟ last_seen.

(** ** [service_report] of the reporter thread *)

Section service.
Context {K : Type} `{HO : OtaKv K}.

Inductive RepEvent :=
| RE_Publish (status : OtaStatus) (outcome : PublishOutcome)
| RE_Lock (before after : OtaStore K).

Record RepWorld := mkRep {
  rw_store : OtaStore K; rw_machine : ReporterMachine; rw_events : list RepEvent }.

(** What the loop finds outside, from the events so far (newest first). *)
Record RepEnv := mkRepEnv {
  re_connected : list RepEvent → bool;
  re_serializes : OtaStatus → bool;
  re_publish : list RepEvent → OtaStatus → PublishOutcome;
  re_elapsed : list RepEvent → duration;
  re_others : list RepEvent → OtaStore K → OtaStore K }.

Inductive RepStop := Panicked | OutOfFuel.

Context (env : RepEnv).

Definition asks {A} (f : list RepEvent → A) : M RepWorld RepStop A :=
  λ w, (Ok (f (rw_events w)), w).
Definition emit (e : RepEvent) : M RepWorld RepStop unit :=
  λ w, (Ok tt, mkRep (rw_store w) (rw_machine w) (e :: rw_events w)).

(** A method of the machine, at the current time. *)
Definition machine {A} (f : duration → ReporterMachine → option (A * ReporterMachine)) :
    M RepWorld RepStop A :=
  λ w, match f (re_elapsed env (rw_events w)) (rw_machine w) with
       | Some (a, m) => (Ok a, mkRep (rw_store w) m (rw_events w))
       | None => (Err Panicked, w)
       end.
Definition machine_ (f : duration → ReporterMachine → option ReporterMachine) : M RepWorld RepStop unit :=
  machine (λ now m, m ← f now m; Some (tt, m)).

(** [ctx.records.with(|store| ..)] *)
Definition with_records {A} (f : M (OtaStore K) StoreError A) : M RepWorld RepStop (result StoreError A) :=
  λ w, let before := re_others env (rw_events w) (rw_store w) in
       let '(r, after) := f before in
       (Ok r, mkRep after (rw_machine w) (RE_Lock before after :: rw_events w)).

Definition publish_acked (status : OtaStatus) : M RepWorld RepStop PublishOutcome :=
  outcome ← asks (λ evs, re_publish env evs status);
  _ ← emit (RE_Publish status outcome);
  mret outcome.

(** One turn of the loop; [true] is [continue]. *)
Definition service_turn : M RepWorld RepStop bool :=
  connected ← asks (re_connected env);
  if negb connected then _ ← machine_ on_disconnected; mret false
  else
    view ← with_records pending_report;
    match view with
    | Err _ => _ ← machine_ on_store_error; mret false
    | Ok PV_None | Ok PV_AwaitingBootReconcile => _ ← machine (λ now, on_view now false); mret false
    | Ok (PV_Ready report) =>
        v ← machine (λ now, on_view now true);
        match v with
        | VS_Idle => mret false
        | VS_Publish =>
            let status := ST_RolledBack (PendingReport_reason report) (pr_attempt_id report) (pr_epoch report) in
            if negb (re_serializes env status) then _ ← machine_ on_store_error; mret false
            else
              outcome ← publish_acked status;
              step ← machine (λ now, on_publish now outcome);
              match step with
              | PS_RetryLater _ => mret false
              | PS_MarkDelivered =>
                  delivery ← with_records (ack_delivered (pr_attempt_id report));
                  match delivery with
                  | Ok delivery =>
                      next ← machine (λ now, on_delivery now delivery);
                      mret (match next with DS_Done => false | DS_PublishNext => true end)
                  | Err _ => _ ← machine_ on_store_error; mret false
                  end
              end
        end
    end.

Fixpoint service_report (fuel : nat) : M RepWorld RepStop unit :=
  match fuel with
  | O => throw OutOfFuel
  | S fuel =>
      continue ← service_turn;
      if continue : bool then service_report fuel else mret tt
  end.
End service.

(** ** the report is delivered at least once, the service loop ends, and
    the completion retry backs off to its cap *)

(** ** The pending-report view *)

(** What reading the view may write: an adopted id, and the epoch and counter
    that go with it; never the pending flag, the reason or the attempt. *)
Definition VIEW_SCOPE : list string := [RB_ID; ATT_EPOCH; ATT_CTR].

Section view.
Context {K : Type} `{HO : OtaKv K} `{HK : !KvContract K}.
Implicit Types (c : contents).

Lemma sat_adopt_id md c :
  sat (K:=K) md adopt_id c
    (λ id c', same_except VIEW_SCOPE c c' ∧ c' !! RB_ID = Some (VU32 id))
    (λ _ c', same_except VIEW_SCOPE c c').
Proof.
  assert (Hnext : sat (K:=K) md next_attempt_id c (λ _ c', same_except VIEW_SCOPE c c')
                    (λ _ c', same_except VIEW_SCOPE c c')).
  { eapply sat_mono; [apply sat_next_id| |].
    - intros id c' ?%id_reserved_same. solve_same.
    - intros e c' [?%id_partial_same _]. solve_same. }
  unfold adopt_id. apply sat_bind. eapply sat_reads; [apply reads_get_u32| |]; [|intros; apply same_refl].
  intros q _. apply sat_bind.
  apply (sat_mono md _ c (λ _ c', same_except VIEW_SCOPE c c') _ (λ _ c', same_except VIEW_SCOPE c c')).
  - destruct q as [id|]; [|done]. apply sat_bind. eapply sat_reads; [apply reads_request_armed| |].
    + intros [] _; [apply sat_ret, same_refl|done].
    + intros; apply same_refl.
  - intros id c' Hs. apply sat_bind, sat_kset_u32.
    + apply sat_ret. split; [solve_same|by rewrite lookup_insert_eq].
    + intros _ e. split; solve_same.
  - done.
Qed.

(** A ready report is the record the store holds, id and epoch included. *)
Definition ready_view c (p : PendingReport) : Prop :=
  reported c (pr_attempt_id p) ∧ c !! ATT_EPOCH = Some (VU32 (pr_epoch p)) ∧
  pr_why p = default (label_str "unknown") (v_reason c RB_WHY).

Lemma sat_pending_report md c :
  sat (K:=K) md pending_report c
    (λ v c', same_except VIEW_SCOPE c c' ∧ match v with PV_Ready p => ready_view c' p | _ => True end)
    (λ _ c', same_except VIEW_SCOPE c c').
Proof.
  unfold pending_report. apply sat_bind. eapply sat_reads; [apply reads_flag| |]; [|intros; apply same_refl].
  intros [] Hrb; cbn [negb]; [|apply sat_ret; split; [apply same_refl|done]]. apply v_flag_true in Hrb.
  apply sat_bind. eapply sat_reads; [apply reads_get_u32| |]; [|intros; apply same_refl].
  intros owner Ho. apply sat_bind. eapply sat_reads; [apply reads_attempt_exists| |]; [|intros; apply same_refl].
  intros ex _. apply sat_bind.
  apply (sat_mono md _ c (λ _ c', c' = c) _ (λ _ c', c' = c)).
  { destruct ex; [|by apply sat_ret]. destruct owner as [id|]; [|by apply sat_ret].
    apply sat_bind. eapply sat_reads; [apply reads_get_u32| |done]. intros a _. by apply sat_ret. }
  2:{ intros e c' ->. apply same_refl. }
  intros own c' ->. destruct own; [apply sat_ret; split; [apply same_refl|done]|].
  apply sat_bind.
  apply (sat_mono md _ c (λ id c', same_except VIEW_SCOPE c c' ∧ c' !! RB_ID = Some (VU32 id)) _
           (λ _ c', same_except VIEW_SCOPE c c')); [| |done].
  { destruct owner as [id|]; [|apply sat_adopt_id]. apply sat_ret. split; [apply same_refl|].
    unfold v_u32 in Ho. destruct (c !! RB_ID) as [[]|]; simpl in Ho; congruence. }
  intros id c1 [Hs1 Hid]. apply sat_bind. eapply sat_reads; [apply reads_reason_q| |]; [|done].
  intros why [= <-]. apply sat_bind. eapply sat_mono; [apply sat_epoch| |].
  - intros n c2 [Hs2%epoch_ext_same Hep]. apply sat_ret.
    assert (Hs : same_except VIEW_SCOPE c c2) by (eapply same_trans; [exact Hs1|solve_same]).
    split; [done|]. unfold ready_view, reported. cbn. split_and!; [|by rewrite Hs2 by in_keys|done|].
    + by rewrite Hs by in_keys.
    + unfold v_reason. by rewrite (Hs2 RB_WHY) by in_keys.
  - intros e c2 [Hs2%epoch_ext_same _]. eapply same_trans; [exact Hs1|solve_same].
Qed.
End view.

(** ** The service loop *)

Section service.
Context {K : Type} `{HO : OtaKv K} `{HK : !KvContract K}.
Context (env : RepEnv (K:=K)).
Implicit Types (w : RepWorld (K:=K)) (evs : list (RepEvent (K:=K))).

(** What the log of the loop promises, newest event first: a published report is
    the one the store just showed, and the pending flag is only ever cleared right
    after an acknowledged publish of exactly that report. *)
Fixpoint log_ok evs : Prop :=
  match evs with
  | [] => True
  | RE_Publish status outcome :: pre =>
      log_ok pre ∧ ∃ before after rest p,
        pre = RE_Lock before after :: rest ∧ ready_view (cont after) p ∧
        status = ST_RolledBack (PendingReport_reason p) (pr_attempt_id p) (pr_epoch p)
  | RE_Lock before after :: pre =>
      log_ok pre ∧
      (same_except VIEW_SCOPE (cont before) (cont after) ∨
       ∃ why id ep rest, pre = RE_Publish (ST_RolledBack why id ep) PO_Acked :: rest ∧
         reported (cont before) id ∧ cont after = <[RB := VU8 0]> (cont before))
  end.

Definition rep_ok w : Prop := kv_ok (kv (rw_store w)) ∧ log_ok (rw_events w).

(** The other threads use the store through its own operations. *)
Definition others_ok : Prop := ∀ evs s, kv_ok (kv s) → kv_ok (kv (re_others env evs s)).

Lemma with_records_rule {A} (f : M (OtaStore K) StoreError A) Q X w :
  others_ok → rep_ok w → (∀ c, sat Faulty f c (Q c) (X c)) →
  ∃ r before after, with_records env f w =
      (Ok r, mkRep after (rw_machine w) (RE_Lock before after :: rw_events w)) ∧ kv_ok (kv after) ∧
    match r with Ok a => Q (cont before) a (cont after) | Err e => X (cont before) e (cont after) end.
Proof.
  intros Hoth [Hok Hlog] Hsat. unfold with_records.
  set (before := re_others env (rw_events w) (rw_store w)).
  assert (Hb : kv_ok (kv before)) by by apply Hoth.
  pose proof (sat_run Faulty f (cont before) _ _ before (Hsat (cont before)) Hb eq_refl) as Hrun.
  destruct (f before) as [[a|e] after]; destruct Hrun as (Hka & _ & HQ); try done.
  - by exists (Ok a), before, after.
  - by exists (Err e), before, after.
Qed.

(** Steps that keep the promises, and how they compose. *)
Definition keeps {A} (m : M (RepWorld (K:=K)) RepStop A) : Prop := ∀ w, rep_ok w → rep_ok (m w).2.

Lemma keeps_ret {A} (a : A) : keeps (mret a).
Proof. by intros w. Qed.

Lemma keeps_bind {A B} (m : M RepWorld RepStop A) (g : A → M RepWorld RepStop B) :
  keeps m → (∀ a, keeps (g a)) → keeps (m ≫= g).
Proof.
  intros Hm Hg w Hw. specialize (Hm w Hw). unfold mbind, M_bind.
  destruct (m w) as [[a|e] w']; [by apply Hg|done].
Qed.

Lemma keeps_machine {A} (f : duration → ReporterMachine → option (A * ReporterMachine)) :
  keeps (machine env f).
Proof. intros w [Hok Hlog]. unfold machine. by destruct (f _ _) as [[]|]. Qed.

(** What follows an acknowledged publish of the report just shown. *)
Lemma deliver_keeps p w before after rest :
  others_ok → rep_ok w → rw_events w = RE_Lock before after :: rest → ready_view (cont after) p →
  let status := ST_RolledBack (PendingReport_reason p) (pr_attempt_id p) (pr_epoch p) in
  rep_ok ((outcome ← publish_acked env status;
           step ← machine env (λ now, on_publish now outcome);
           match step with
           | PS_RetryLater _ => mret false
           | PS_MarkDelivered =>
               delivery ← with_records env (ack_delivered (pr_attempt_id p));
               match delivery with
               | Ok delivery =>
                   next ← machine env (λ now, on_delivery now delivery);
                   mret (match next with DS_Done => false | DS_PublishNext => true end)
               | Err _ => _ ← machine_ env on_store_error; mret false
               end
           end) w).2.
Proof.
  intros Hoth [Hok Hlog] Hev Hready status. unfold publish_acked, asks, emit.
  unfold mbind, M_bind. cbn [mret M_ret rw_store rw_machine rw_events].
  set (outcome := re_publish env (rw_events w) status).
  set (w1 := mkRep (rw_store w) (rw_machine w) (RE_Publish status outcome :: rw_events w)).
  assert (Hw1 : rep_ok w1).
  { split; [done|]. simpl. split; [done|]. rewrite Hev. eauto 10. }
  unfold machine at 1. unfold on_publish at 1. case_bool_decide as Hack.
  2:{ destruct (dur_add _ _) as [due|]; simpl; exact Hw1. }
  cbn [rw_store rw_events mret M_ret].
  destruct (with_records_rule (ack_delivered (pr_attempt_id p)) _ _ w1 Hoth Hw1
              (λ c, sat_mark_delivered Faulty c (pr_attempt_id p))) as (r & b2 & a2 & Hrun & Hka & Hq).
  fold w1. change (mkRep (rw_store w1) (rw_machine w1) (rw_events w1)) with w1. rewrite Hrun.
  assert (Hw2 : rep_ok (mkRep a2 (rw_machine w1) (RE_Lock b2 a2 :: rw_events w1))).
  { split; [done|]. split; [apply Hw1|].
    assert (Hcase : cont a2 = cont b2 ∨ reported (cont b2) (pr_attempt_id p) ∧ cont a2 = <[RB := VU8 0]> (cont b2)).
    { destruct r as [[]|e]; naive_solver. }
    destruct Hcase as [->|[Hr ->]]; [left; apply same_refl|right].
    exists (PendingReport_reason p), (pr_attempt_id p), (pr_epoch p), (rw_events w).
    split_and!; [|done|done]. unfold w1. simpl. by rewrite Hack. }
  destruct r as [d|e].
  - by apply (keeps_bind _ _ (keeps_machine _) (λ _, keeps_ret _)).
  - by apply (keeps_bind _ _ (keeps_machine _) (λ _, keeps_ret _)).
Qed.

Lemma service_turn_keeps : others_ok → keeps (service_turn env).
Proof.
  intros Hoth w Hw. unfold service_turn. unfold mbind at 1, M_bind at 1. unfold asks at 1.
  destruct (re_connected env (rw_events w)); cbn [negb].
  2:{ by apply (keeps_bind _ _ (keeps_machine _) (λ _, keeps_ret _)). }
  unfold mbind at 1, M_bind at 1.
  destruct (with_records_rule pending_report _ _ w Hoth Hw (λ c, sat_pending_report Faulty c))
    as (r & before & after & Hrun & Hka & Hq). rewrite Hrun.
  set (w1 := mkRep after (rw_machine w) (RE_Lock before after :: rw_events w)).
  assert (Hw1 : rep_ok w1).
  { split; [done|]. split; [apply Hw|]. left. destruct r; naive_solver. }
  destruct r as [[| |p]|e];
    [by apply (keeps_bind _ _ (keeps_machine _) (λ _, keeps_ret _))..| |
     by apply (keeps_bind _ _ (keeps_machine _) (λ _, keeps_ret _))].
  unfold mbind at 1, M_bind at 1. unfold machine at 1, on_view at 1. cbn [rw_store rw_events rw_machine].
  destruct (re_serializes env _); cbn [negb].
  - change (mkRep (rw_store w1) (rw_machine w1) (rw_events w1)) with w1.
    destruct Hq as [_ Hready]. by apply (deliver_keeps p w1 before after (rw_events w)).
  - by apply (keeps_bind _ _ (keeps_machine _) (λ _, keeps_ret _)).
Qed.

Lemma service_report_keeps fuel : others_ok → keeps (service_report env fuel).
Proof.
  intros Hoth. induction fuel as [|fuel IH]; [by intros w|]. simpl.
  apply keeps_bind; [by apply service_turn_keeps|]. intros []; [done|apply keeps_ret].
Qed.

(** ** The loop ends, and the next attempt is scheduled *)

(** No clock reading is so late that adding an interval overflows a [Duration]. *)
Definition clock_ok (cfg : ReporterConfig) : Prop :=
  ∀ evs, re_elapsed env evs + rp_retry cfg ≤ dur_max ∧ re_elapsed env evs + rp_connect_poll cfg ≤ dur_max.

(** The next check is one interval after some clock reading. *)
Definition scheduled w : Prop :=
  ∃ evs, next_due (rw_machine w) = re_elapsed env evs + rp_retry (rm_cfg (rw_machine w)) ∨
         next_due (rw_machine w) = re_elapsed env evs + rp_connect_poll (rm_cfg (rw_machine w)).

Definition turn_post w (r : result RepStop bool) w' : Prop :=
  rm_cfg (rw_machine w') = rm_cfg (rw_machine w) ∧
  match r with
  | Ok true => other_passes (rw_machine w') = other_passes (rw_machine w) + 1 ∧
               other_passes (rw_machine w) < rp_max_other_passes (rm_cfg (rw_machine w))
  | Ok false => scheduled w'
  | Err _ => False
  end.

Lemma next_window_ok cfg now m :
  clock_ok cfg → rm_cfg m = cfg → (∃ evs, now = re_elapsed env evs) →
  next_window now m = Some (mkReporter cfg (now + rp_retry cfg) 0).
Proof.
  intros Hc <- [evs ->]. destruct (Hc evs) as [Hr _]. unfold next_window.
  by rewrite dur_add_some.
Qed.

(** A step that only schedules the next window ends the turn. *)
Lemma window_ends {A B} (f : duration → ReporterMachine → option (A * ReporterMachine)) (a : A) (b : B) w :
  (∀ now m, f now m = m' ← next_window now m; Some (a, m')) →
  clock_ok (rm_cfg (rw_machine w)) →
  ∃ w', (machine env f w = (Ok a, w')) ∧ rm_cfg (rw_machine w') = rm_cfg (rw_machine w) ∧ scheduled w'.
Proof.
  intros Hf Hc. unfold machine. rewrite Hf.
  rewrite (next_window_ok (rm_cfg (rw_machine w))) by eauto. simpl. eexists. split; [done|].
  split; [done|]. exists (rw_events w). by left.
Qed.

Lemma with_records_eq {A} (f : M (OtaStore K) StoreError A) w :
  ∃ r before after, with_records env f w =
    (Ok r, mkRep after (rw_machine w) (RE_Lock before after :: rw_events w)).
Proof. unfold with_records. destruct (f _) as [r after] eqn:E. eauto. Qed.

(** Any step of the machine that is a next window ends the turn. *)
Lemma window_turn {A} (f : duration → ReporterMachine → option (A * ReporterMachine)) (a : A) w w1 :
  clock_ok (rm_cfg (rw_machine w)) → (∀ now m, f now m = m' ← next_window now m; Some (a, m')) →
  rm_cfg (rw_machine w1) = rm_cfg (rw_machine w) →
  ∃ w', machine env f w1 = (Ok a, w') ∧ turn_post w (Ok false) w'.
Proof.
  intros Hc Hf Hcfg. destruct (window_ends (B:=unit) f a tt w1 Hf) as (w' & Hm & Hcf & Hs).
  - by rewrite Hcfg.
  - exists w'. split; [done|]. split; [congruence|done].
Qed.

(** The end of the turn once the delivery mark was tried. *)
Lemma delivery_post w w3 (delivery : result StoreError Delivery) :
  clock_ok (rm_cfg (rw_machine w)) → rw_machine w3 = rw_machine w →
  0 ≤ other_passes (rw_machine w) → rp_max_other_passes (rm_cfg (rw_machine w)) ≤ u32_max →
  let '(r, w') := (match delivery with
    | Ok delivery =>
        next ← machine env (λ now, on_delivery now delivery);
        mret (match next with DS_Done => false | DS_PublishNext => true end)
    | Err _ => _ ← machine_ env on_store_error; mret false
    end) w3 in turn_post w r w'.
Proof.
  intros Hc Hm Hp Hmax. assert (Hcfg : rm_cfg (rw_machine w3) = rm_cfg (rw_machine w)) by by rewrite Hm.
  unfold mbind, M_bind. destruct delivery as [[| |o]|e].
  - destruct (window_turn (λ now, on_delivery now Marked) DS_Done w w3) as (w' & -> & Hw'); done.
  - destruct (window_turn (λ now, on_delivery now NotPending) DS_Done w w3) as (w' & -> & Hw'); done.
  - destruct (Z.ltb_spec (other_passes (rw_machine w)) (rp_max_other_passes (rm_cfg (rw_machine w)))) as [Hlt|Hge].
    + unfold machine, on_delivery. rewrite Hm, (proj2 (Z.ltb_lt _ _) Hlt). split; [done|]. cbn.
      split; [|done]. unfold u32_wrapping_add. apply u32_wrap_small. unfold is_u32. lia.
    + unfold machine, on_delivery. rewrite Hm, (proj2 (Z.ltb_ge _ _) Hge).
      rewrite (next_window_ok (rm_cfg (rw_machine w))) by eauto. simpl. split; [done|].
      eexists. left. simpl. reflexivity.
  - destruct (window_turn (λ now m, m ← on_store_error now m; Some (tt, m)) tt w w3) as (w' & Hw & Hw'); try done.
    unfold machine_. by rewrite Hw.
Qed.

Lemma service_turn_post w :
  clock_ok (rm_cfg (rw_machine w)) →
  0 ≤ other_passes (rw_machine w) → rp_max_other_passes (rm_cfg (rw_machine w)) ≤ u32_max →
  let '(r, w') := service_turn env w in turn_post w r w'.
Proof.
  intros Hc Hp Hmax. unfold service_turn, mbind, M_bind, asks.
  destruct (re_connected env (rw_events w)); cbn [negb].
  2:{ unfold machine_, machine, on_disconnected. destruct (Hc (rw_events w)) as [_ Hd].
      rewrite dur_add_some by done. simpl. split; [done|]. exists (rw_events w). by right. }
  destruct (with_records_eq pending_report w) as (r & before & after & ->).
  set (w1 := mkRep after (rw_machine w) (RE_Lock before after :: rw_events w)).
  assert (Herr : ∃ w', machine_ env on_store_error w1 = (Ok tt, w') ∧ turn_post w (Ok false) w').
  { by apply window_turn. }
  destruct r as [[| |p]|e]; [| | |by destruct Herr as (w' & -> & Hw')].
  1, 2: by destruct (window_turn (λ now, on_view now false) VS_Idle w w1) as (w' & -> & Hw').
  unfold machine at 1, on_view at 1. cbn [rw_machine rw_store rw_events].
  destruct (re_serializes env _); cbn [negb].
  2:{ change (mkRep (rw_store w1) (rw_machine w1) (rw_events w1)) with w1.
      by destruct Herr as (w' & -> & Hw'). }
  unfold publish_acked, emit, asks, mbind, M_bind. cbn [rw_machine rw_store rw_events mret M_ret].
  set (evs2 := RE_Publish _ _ :: _). set (outcome := re_publish env _ _).
  set (w2 := mkRep _ _ evs2). unfold machine at 1, on_publish at 1. case_bool_decide.
  2:{ destruct (Hc evs2) as [Hr _]. cbn [rw_machine rw_events]. unfold w2. cbn [rw_machine rw_events w1].
      rewrite dur_add_some by done. simpl. split; [done|]. exists evs2. by left. }
  cbn [rw_machine rw_store rw_events].
  destruct (with_records_eq (ack_delivered (pr_attempt_id p)) w2) as (d & b2 & a2 & Hwr).
  change (mkRep (rw_store w2) (rw_machine w2) (rw_events w2)) with w2. rewrite Hwr.
  by apply delivery_post.
Qed.

Lemma service_report_ends fuel w :
  clock_ok (rm_cfg (rw_machine w)) →
  0 ≤ other_passes (rw_machine w) → rp_max_other_passes (rm_cfg (rw_machine w)) ≤ u32_max →
  rp_max_other_passes (rm_cfg (rw_machine w)) - other_passes (rw_machine w) < Z.of_nat fuel →
  (0 < fuel)%nat →
  ∃ w', service_report env fuel w = (Ok tt, w') ∧
        rm_cfg (rw_machine w') = rm_cfg (rw_machine w) ∧ scheduled w'.
Proof.
  revert w. induction fuel as [|fuel IH]; intros w Hc Hp Hmax Hf H0; [lia|]. simpl.
  unfold mbind, M_bind. pose proof (service_turn_post w Hc Hp Hmax) as Hturn.
  destruct (service_turn env w) as [[[]|e] w1]; [..|by destruct Hturn].
  - destruct Hturn as (Hcfg & Ho & Hlt). destruct (IH w1) as (w' & Hw' & Hcfg' & Hs).
    all: rewrite ?Hcfg; try done; try lia. exists w'. split_and!; [done|congruence|done].
  - destruct Hturn as (Hcfg & Hs). by exists w1.
Qed.
End service.

(** ** The completion retry *)

(** Failing attempts at the given times, in order. *)
Fixpoint fails (times : list duration) (r : CompletionRetry) : option CompletionRetry :=
  match times with
  | [] => Some r
  | now :: times => br ← on_result now CT_StillFailing r; fails times br.2
  end.

(** The delay after [n] failures. *)
Definition backoff (cfg : CompletionRetryConfig) (n : nat) : duration :=
  Z.min (cr_cap cfg) (cr_initial cfg * 2 ^ Z.of_nat n).

Lemma backoff_next cfg n :
  0 ≤ cr_initial cfg ≤ cr_cap cfg → cr_cap cfg ≤ dur_max →
  Z.min (saturating_mul (backoff cfg n) 2) (cr_cap cfg) = backoff cfg (S n).
Proof.
  intros Hi Hc. unfold backoff, saturating_mul. rewrite Nat2Z.inj_succ, Z.pow_succ_r by lia.
  pose proof (Z.pow_pos_nonneg 2 (Z.of_nat n) ltac:(lia) ltac:(lia)).
  assert (0 ≤ cr_initial cfg * 2 ^ Z.of_nat n) by nia. lia.
Qed.

Lemma fails_spec cfg n s times r :
  0 ≤ cr_initial cfg ≤ cr_cap cfg → cr_cap cfg ≤ dur_max →
  Forall (λ t, t + cr_cap cfg ≤ dur_max) times →
  cr_cfg r = cfg → armed r = Some s → sc_delay s = backoff cfg n →
  ∃ r', fails times r = Some r' ∧ cr_cfg r' = cfg ∧
    armed r' = Some match last times with
                    | Some t => mkSchedule (t + backoff cfg (n + length times)) (backoff cfg (n + length times))
                    | None => s
                    end.
Proof.
  intros Hi Hc Ht. revert n s r. induction Ht as [|now times Hnow Ht IH]; intros n s r Hcfg Ha Hd.
  { by exists r. }
  cbn [fails]. unfold on_result. rewrite Ha, Hd, Hcfg, backoff_next by done.
  assert (backoff cfg (S n) ≤ cr_cap cfg) by (unfold backoff; lia).
  rewrite dur_add_some by lia. cbn [mbind option_bind snd].
  destruct (IH (S n) (mkSchedule (now + backoff cfg (S n)) (backoff cfg (S n)))
              (mkRetry cfg (Some (mkSchedule (now + backoff cfg (S n)) (backoff cfg (S n))))))
    as (r' & -> & Hcfg' & Ha'); [done..|].
  exists r'. split_and!; [done|done|]. rewrite Ha'. cbn [length].
  replace (S n + length times)%nat with (n + S (length times))%nat by lia.
  destruct times as [|t times]; [cbn [last length]; by rewrite Nat.add_1_r|].
  change (last (now :: t :: times)) with (last (t :: times)).
  destruct (last (t :: times)) eqn:Hl; [done|]. by apply last_None in Hl.
Qed.

(** ** Properties *)

(** C7: the rollback report is delivered at least once, and never marked early.  Whatever the store, the MQTT
    session, the clock and the other threads do, every status the reporter publishes is the report
    the store has just shown as pending (its id, its epoch and its reason), and the pending flag is
    cleared only directly after an acknowledged publish of the very report it guards; any other access
    of the loop leaves flag and reason alone. *)
Theorem report_at_least_once {K : Type} `{HO : OtaKv K} `{HK : !KvContract K}
    (env : RepEnv (K:=K)) fuel s m :
  kv_ok (kv s) → others_ok env →
  let w := (service_report env fuel (mkRep s m [])).2 in
  kv_ok (kv (rw_store w)) ∧
  ∀ post e pre, rw_events w = post ++ e :: pre →
    match e with
    | RE_Publish status _ =>
        ∃ before after rest p, pre = RE_Lock before after :: rest ∧ ready_view (cont after) p ∧
          status = ST_RolledBack (PendingReport_reason p) (pr_attempt_id p) (pr_epoch p)
    | RE_Lock before after =>
        cont after !! RB = cont before !! RB ∧ cont after !! RB_WHY = cont before !! RB_WHY ∨
        ∃ why id ep rest, pre = RE_Publish (ST_RolledBack why id ep) PO_Acked :: rest ∧
          reported (cont before) id ∧ cont after = <[RB := VU8 0]> (cont before)
    end.
Proof.
  intros Hok Hoth w. destruct (service_report_keeps env fuel Hoth (mkRep s m [])) as [Hk Hlog]; [done|].
  fold w in Hk, Hlog. split; [done|]. intros post e pre Hev. rewrite Hev in Hlog. clear Hev.
  induction post as [|x post IH].
  - destruct e as [status outcome|before after]; simpl in Hlog; [apply Hlog|].
    destruct Hlog as [_ [Hs|Hr]]; [left|by right]. split; apply Hs; in_keys.
  - apply IH. by destruct x; destruct Hlog.
Qed.

(** one service of the report always ends and always reschedules.  With a clock that is not within an
    interval of the largest duration, the loop returns after at most one pass more than the configured
    number of immediate follow-ups, without a panic, for every store, session and scheduling; and the
    next check is due one retry or one connect-poll interval after a clock reading. *)
Lemma report_service_terminates {K : Type} `{HO : OtaKv K} (env : RepEnv (K:=K)) s m :
  clock_ok env (rm_cfg m) → 0 ≤ other_passes m → rp_max_other_passes (rm_cfg m) ≤ u32_max →
  ∃ w', service_report env (S (Z.to_nat (rp_max_other_passes (rm_cfg m)))) (mkRep s m []) = (Ok tt, w') ∧
    ∃ evs, let due := next_due (rw_machine w') in
      due = re_elapsed env evs + rp_retry (rm_cfg m) ∨ due = re_elapsed env evs + rp_connect_poll (rm_cfg m).
Proof.
  intros Hc Hp Hmax.
  destruct (service_report_ends env (S (Z.to_nat (rp_max_other_passes (rm_cfg m)))) (mkRep s m []))
    as (w' & Hw & Hcfg & [evs Hs]); cbn [rw_machine] in *; try done; try lia.
  exists w'. split; [done|]. exists evs. by rewrite <- Hcfg.
Qed.

(** the background completion backs off exponentially to its cap.  Armed once (a second request changes
    nothing), the first attempt is due after the initial delay; after the n-th failure, at time t, the
    next one is due at t plus the smaller of the cap and the initial delay doubled n times, without a
    panic; success or a vanished attempt disarms it. *)
Theorem completion_backoff cfg start times :
  0 ≤ start → 0 ≤ cr_initial cfg ≤ cr_cap cfg →
  Forall (λ t, t + cr_cap cfg ≤ dur_max) (start :: times) →
  ∃ r0 r, arm start (CompletionRetry_new cfg) = Some r0 ∧ fails times r0 = Some r ∧
    retry_due (start + cr_initial cfg) r0 = true ∧
    armed r = Some match last times with
                   | Some t => mkSchedule (t + backoff cfg (length times)) (backoff cfg (length times))
                   | None => mkSchedule (start + cr_initial cfg) (cr_initial cfg)
                   end ∧
    (∀ now, arm now r = Some r) ∧
    ∀ now res, res ≠ CT_StillFailing → on_result now res r = Some (false, CompletionRetry_new cfg).
Proof.
  intros H0 Hi Ht. inversion Ht as [|?? Hstart Htimes]; subst.
  unfold arm at 1. cbn [armed CompletionRetry_new cr_cfg]. rewrite dur_add_some by lia. cbn [mbind option_bind].
  set (r0 := mkRetry cfg (Some (mkSchedule (start + cr_initial cfg) (cr_initial cfg)))).
  assert (Hbk : cr_initial cfg = backoff cfg 0) by (unfold backoff; simpl; lia).
  destruct (fails_spec cfg 0 (mkSchedule (start + cr_initial cfg) (cr_initial cfg)) times r0)
    as (r & Hr & Hcfg & Ha); try done; [lia|].
  exists r0, r. split_and!; [done|done| |done| |].
  - unfold retry_due. simpl. lia.
  - intros now. unfold arm. by rewrite Ha.
  - intros now [] Hres; simpl; by rewrite ?Hcfg.
Qed.

(** ** Witnesses *)

(** A pending report of attempt 7, a connected session that acknowledges, one second per event. *)
Definition m_report : contents :=
  <[RB := VU8 1]> (<[RB_ID := VU32 7]> (<[RB_WHY := VStr "operator"]> (<[ATT_EPOCH := VU32 5]> ∅))).
Definition calm : RepEnv (K:=Inner) :=
  mkRepEnv (λ _, true) (λ _, true) (λ _ _, PO_Acked) (λ evs, from_secs (Z.of_nat (length evs))) (λ _ s, s).

Lemma report_at_least_once_witness :
  let w := (service_report calm 3 (mkRep (sample m_report None)
              (ReporterMachine_new (ReporterConfig_from OtaTimings_default)) [])).2 in
  ∃ b a b2 a2, rw_events w = [RE_Lock b2 a2; RE_Publish (ST_RolledBack RR_Operator 7 5) PO_Acked; RE_Lock b a] ∧
    (cont a2 !! RB = cont b2 !! RB ∧ cont a2 !! RB_WHY = cont b2 !! RB_WHY ∨
     ∃ why id ep rest, [RE_Publish (ST_RolledBack RR_Operator 7 5) PO_Acked; RE_Lock b a] =
         RE_Publish (ST_RolledBack why id ep) PO_Acked :: rest ∧
       reported (cont b2) id ∧ cont a2 = <[RB := VU8 0]> (cont b2)).
Proof.
  intros w.
  destruct (report_at_least_once calm 3 (sample m_report None)
    (ReporterMachine_new (ReporterConfig_from OtaTimings_default))) as [_ Hlog].
  - sample_ok.
  - by intros evs s.
  - do 4 eexists. split; [vm_compute; reflexivity|].
    apply (Hlog [] (RE_Lock _ _) _). vm_compute. reflexivity.
Defined.

Lemma report_service_terminates_witness :
  let m := ReporterMachine_new (mkReporterConfig (from_secs 60) (from_secs 5) 2) in
  let still := mkRepEnv (K:=Inner) (λ _, true) (λ _, true) (λ _ _, PO_Timeout) (λ _, 0) (λ _ s, s) in
  ∃ w', service_report still 3 (mkRep (sample m_report None) m []) = (Ok tt, w') ∧
    next_due (rw_machine w') = from_secs 60 ∧ 
    ∃ evs, let due := next_due (rw_machine w') in
      due = re_elapsed still evs + rp_retry (rm_cfg m) ∨ due = re_elapsed still evs + rp_connect_poll (rm_cfg m).
Proof.
  intros m still.
  destruct (report_service_terminates still (sample m_report None) m) as (w' & Hw & Hdue).
  - intros evs. vm_compute. split; discriminate.
  - vm_compute. discriminate.
  - vm_compute. discriminate.
  - exists w'. change (S (Z.to_nat (rp_max_other_passes (rm_cfg m)))) with 3%nat in Hw.
    split; [exact Hw|]. split; [|exact Hdue].
    assert (Hn : next_due (rw_machine (service_report still 3 (mkRep (sample m_report None) m [])).2) = from_secs 60)
      by (vm_compute; reflexivity).
    rewrite Hw in Hn. exact Hn.
Defined.

Lemma completion_backoff_witness :
  let cfg := CompletionRetryConfig_from OtaTimings_default in
  ∃ r0 r, arm 0 (CompletionRetry_new cfg) = Some r0 ∧
    fails [from_secs 10; from_secs 20] r0 = Some r ∧
    armed r = Some (mkSchedule (from_secs 20 + backoff cfg 2) (backoff cfg 2)).
Proof.
  intros cfg.
  destruct (completion_backoff cfg 0 [from_secs 10; from_secs 20]) as (r0 & r & Ha & Hf & _ & Hr & _).
  - lia.
  - vm_compute. split; discriminate.
  - repeat constructor; vm_compute; discriminate.
  - exists r0, r. split; [exact Ha|]. split; [exact Hf|exact Hr].
Defined.
