(* ===== verification/Intake.v ===== *)
(** * Intake: the command path from the MQTT callback to the worker
    ([ota/runtime/intake.rs]; [ota/runtime/intake.rs], [shared.rs] and the loop of
    [worker.rs] in the ESP-IDF tier)

    [decide_intake] is the pure decision.  The rest is the interleaving of any
    number of concurrent [submit] calls, the worker thread, the reporter and the
    thread that starts or drops the runtime, one atomic access per step. *)
From S2P Require Import Prelude Text Version Reason Url Hex Wire.
Open Scope Z_scope.
Open Scope rn_scope.

Inductive SendResult := SR_Sent | SR_Full | SR_Disconnected.

Inductive IntakeDecision :=
| ID_Queued
| ID_Rejected (reason : FailReason) (release_busy set_closed : bool).

Definition reject (reason : FailReason) : IntakeDecision := ID_Rejected reason false false.

(** The two closures may change the state [S] of their owner. *)
Definition decide_intake {S} (parsed : result CommandError OtaCommand) (closed : bool)
    (claim_busy : S → bool * S) (send : OtaCommand → S → SendResult * S) (s : S) :
    IntakeDecision * S :=
  match parsed with
  | Err e => (reject (CommandError_reason e), s)
  | Ok command =>
      if closed then (reject FR_WorkerUnavailable, s)
      else
        let '(won, s) := claim_busy s in
        if negb won then (reject FR_Busy, s)
        else
          let '(r, s) := send command s in
          (match r with
           | SR_Sent => ID_Queued
           | SR_Full => ID_Rejected FR_Busy true false
           | SR_Disconnected => ID_Rejected FR_WorkerUnavailable true true
           end, s)
  end.

(** ** The shared state *)

(** Where one [submit] call stands: what it does next. *)
Inductive Call :=
| C_Parse (parsed : result CommandError OtaCommand)
| C_Claim (command : OtaCommand)
| C_Send (command : OtaCommand)
| C_Release (reason : FailReason) (release_busy set_closed : bool)
| C_Close (reason : FailReason) (set_closed : bool)
| C_Report (reason : FailReason)
| C_Done.

(** The worker thread; in the retained path it holds an offer of its own. *)
Inductive WorkerPc :=
| W_NotStarted | W_Idle | W_Run (command : OtaCommand) | W_Release.

Record Shared := mkShared {
  busy : bool; closed : bool;
  commands : list OtaCommand; receiver : bool;
  rejections : list FailReason; rejects_total : Z;
  worker : WorkerPc; calls : list Call }.

Definition COMMAND_CAP : nat := 1.

Definition try_send (s : Shared) : SendResult :=
  if negb (receiver s) then SR_Disconnected
  else if (length (commands s) <? COMMAND_CAP)%nat then SR_Sent else SR_Full.

(** The outcome of [decide_intake] decides where the call goes. *)
Definition after_decision (d : IntakeDecision) : Call :=
  match d with
  | ID_Queued => C_Done
  | ID_Rejected reason release_busy set_closed => C_Release reason release_busy set_closed
  end.

(** [decide_intake] with the closures' results fixed. *)
Definition decided (parsed : result CommandError OtaCommand) (closed won : bool) (r : SendResult) :
    IntakeDecision :=
  (decide_intake parsed closed (λ s : unit, (won, s)) (λ _ s, (r, s)) tt).1.

Definition set_call (i : nat) (p : Call) (s : Shared) : Shared :=
  mkShared (busy s) (closed s) (commands s) (receiver s) (rejections s) (rejects_total s) (worker s)
    (<[i := p]> (calls s)).
Definition set_busy (b : bool) (s : Shared) : Shared :=
  mkShared b (closed s) (commands s) (receiver s) (rejections s) (rejects_total s) (worker s) (calls s).
Definition set_closed_flag (s : Shared) : Shared :=
  mkShared (busy s) true (commands s) (receiver s) (rejections s) (rejects_total s) (worker s) (calls s).
Definition set_commands (l : list OtaCommand) (s : Shared) : Shared :=
  mkShared (busy s) (closed s) l (receiver s) (rejections s) (rejects_total s) (worker s) (calls s).
Definition drop_receiver (s : Shared) : Shared :=
  mkShared (busy s) (closed s) [] false (rejections s) (rejects_total s) (worker s) (calls s).
Definition set_worker (p : WorkerPc) (s : Shared) : Shared :=
  mkShared (busy s) (closed s) (commands s) (receiver s) (rejections s) (rejects_total s) p (calls s).
Definition set_rejections (l : list FailReason) (n : Z) (s : Shared) : Shared :=
  mkShared (busy s) (closed s) (commands s) (receiver s) l n (worker s) (calls s).

Definition Shared_new : Shared := mkShared false false [] true [] 0 W_NotStarted [].

(** One atomic access of a [submit] call, from its position. *)
Definition call_step (depth : nat) (i : nat) (p : Call) (s : Shared) : Shared :=
  match p with
  | C_Parse (Err e) => set_call i (after_decision (decided (Err e) (closed s) false SR_Full)) s
  | C_Parse (Ok c) =>
      if closed s then set_call i (after_decision (decided (Ok c) true false SR_Full)) s
      else set_call i (C_Claim c) s
  | C_Claim c =>
      if busy s then set_call i (after_decision (decided (Ok c) false false SR_Full)) s
      else set_call i (C_Send c) (set_busy true s)
  | C_Send c =>
      let r := try_send s in
      set_call i (after_decision (decided (Ok c) false true r))
        (match r with SR_Sent => set_commands (commands s ++ [c]) s | _ => s end)
  | C_Release reason release_busy set_closed =>
      set_call i (C_Close reason set_closed) (if release_busy then set_busy false s else s)
  | C_Close reason set_closed =>
      set_call i (C_Report reason) (if set_closed then set_closed_flag s else s)
  | C_Report reason =>
      set_call i C_Done
        (if (length (rejections s) <? depth)%nat
         then set_rejections (rejections s ++ [reason]) (rejects_total s) s
         else set_rejections (rejections s) (rejects_total s ⊞ 1) s)
  | C_Done => s
  end.

(** One step of the whole command path. *)
Inductive intake_step (depth : nat) (s : Shared) : Shared → Prop :=
(** a new call, with whatever the payload parses to *)
| I_submit parsed :
    intake_step depth s (mkShared (busy s) (closed s) (commands s) (receiver s) (rejections s)
                           (rejects_total s) (worker s) (calls s ++ [C_Parse parsed]))
| I_call i p : calls s !! i = Some p → intake_step depth s (call_step depth i p s)
(** the runtime starts, fails to start (receiver first), or is dropped (flag first) *)
| I_start : worker s = W_NotStarted → receiver s = true → intake_step depth s (set_worker W_Idle s)
| I_start_failed : worker s = W_NotStarted → intake_step depth s (drop_receiver s)
| I_close : worker s = W_NotStarted → intake_step depth s (set_closed_flag s)
(** the worker receives a command, or claims the flag for its retained offer *)
| I_recv c l : worker s = W_Idle → commands s = c :: l →
    intake_step depth s (set_worker (W_Run c) (set_commands l s))
| I_retained c : worker s = W_Idle → busy s = false →
    intake_step depth s (set_worker (W_Run c) (set_busy true s))
| I_executed c : worker s = W_Run c → intake_step depth s (set_worker W_Release s)
| I_release : worker s = W_Release → intake_step depth s (set_worker W_Idle (set_busy false s))
(** the reporter takes a rejection *)
| I_reported r l : rejections s = r :: l → intake_step depth s (set_rejections l (rejects_total s) s).

Inductive intake_reachable (depth : nat) : Shared → Prop :=
| IR_new : intake_reachable depth Shared_new
| IR_step s s' : intake_reachable depth s → intake_step depth s s' → intake_reachable depth s'.

(** ** Who holds the busy flag *)

Definition call_holds (p : Call) : bool :=
  match p with C_Send _ => true | C_Release _ release_busy _ => release_busy | _ => false end.
Definition worker_holds (p : WorkerPc) : nat :=
  match p with W_Run _ | W_Release => 1 | _ => 0 end.

Fixpoint calls_holding (l : list Call) : nat :=
  match l with [] => 0 | p :: l => Nat.b2n (call_holds p) + calls_holding l end.

Definition holders (s : Shared) : nat :=
  calls_holding (calls s) + length (commands s) + worker_holds (worker s).

(** With the receiver alive the flag is set exactly while somebody holds it;
    once the receiver is gone a queued command may have been lost with it. *)
Definition intake_inv (s : Shared) : Prop :=
  (holders s ≤ Nat.b2n (busy s))%nat ∧
  (receiver s = true → holders s = Nat.b2n (busy s)) ∧
  (receiver s = false → commands s = [] ∧ worker s = W_NotStarted).

Lemma calls_holding_app l l' : calls_holding (l ++ l') = (calls_holding l + calls_holding l')%nat.
Proof. induction l as [|p l IH]; simpl; [done|]. lia. Qed.

Lemma calls_holding_insert l i p p' : l !! i = Some p →
  (calls_holding (<[i := p']> l) + Nat.b2n (call_holds p) = calls_holding l + Nat.b2n (call_holds p'))%nat.
Proof.
  revert i. induction l as [|q l IH]; intros [|i]; simpl; try done.
  - intros [= ->]. lia.
  - intros Hi. specialize (IH i Hi). lia.
Qed.

Lemma calls_holding_elem l p : p ∈ l → call_holds p = true → (1 ≤ calls_holding l)%nat.
Proof. induction 1 as [l|x l q Hin IH]; simpl; intros Hp; [rewrite Hp; simpl; lia|]. specialize (IH Hp). lia. Qed.

(** What the fixed answers decide. *)
Lemma decided_holds parsed c won r :
  call_holds (after_decision (decided parsed c won r)) =
  match parsed with
  | Ok _ => negb c && won && match r with SR_Sent => false | _ => true end
  | Err _ => false
  end.
Proof. unfold decided, decide_intake. destruct parsed; [|done]. by destruct c, won, r. Qed.

Lemma call_step_inv depth i p s :
  calls s !! i = Some p → intake_inv s → intake_inv (call_step depth i p s).
Proof.
  intros Hi (Hle & Hal & Hdead).
  assert (Hins := λ p', calls_holding_insert _ _ _ p' Hi).
  unfold intake_inv, holders in *.
  destruct p as [[c|e]|c|c|reason rel sc|reason sc|reason|]; unfold call_step; [| | | | | | |done].
  - destruct (closed s); unfold set_call, set_busy; cbn -[calls_holding worker_holds].
    + specialize (Hins (after_decision (decided (Ok c) true false SR_Full))).
      rewrite decided_holds in Hins. simpl in Hins. split_and!; [lia|naive_solver lia|exact Hdead].
    + specialize (Hins (C_Claim c)). simpl in Hins. split_and!; [lia|naive_solver lia|exact Hdead].
  - specialize (Hins (after_decision (decided (Err e) (closed s) false SR_Full))).
    rewrite decided_holds in Hins. unfold set_call. cbn -[calls_holding decided worker_holds] in *.
    split_and!; [lia|naive_solver lia|exact Hdead].
  - destruct (busy s) eqn:Hb; unfold set_call, set_busy; cbn -[calls_holding decided worker_holds] in *.
    + specialize (Hins (after_decision (decided (Ok c) false false SR_Full))).
      rewrite decided_holds in Hins. simpl in Hins. rewrite Hb. simpl. split_and!; [lia|naive_solver lia|exact Hdead].
    + specialize (Hins (C_Send c)). simpl in Hins. split_and!; [lia|naive_solver lia|exact Hdead].
  - unfold try_send, COMMAND_CAP.
    specialize (Hins (after_decision (decided (Ok c) false true (try_send s)))).
    rewrite decided_holds in Hins. unfold try_send, COMMAND_CAP in Hins. simpl call_holds in Hins.
    destruct (receiver s) eqn:Hr; cbn [negb] in *.
    + destruct (Nat.ltb_spec (length (commands s)) 1); unfold set_call, set_commands;
        cbn -[calls_holding decided worker_holds] in *; rewrite ?length_app; simpl in *;
        (split_and!; [lia|intros _; specialize (Hal eq_refl); lia|congruence]).
    + unfold set_call. cbn -[calls_holding decided worker_holds] in *. split_and!; [lia|congruence|by intros _; apply Hdead].
  - specialize (Hins (C_Close reason sc)). simpl in Hins.
    destruct rel; unfold set_call, set_busy; cbn -[calls_holding worker_holds] in *.
    + assert (Hc : (1 ≤ calls_holding (calls s))%nat).
      { eapply calls_holding_elem; [by eapply list_elem_of_lookup_2|done]. }
      destruct (busy s); simpl in *; [|lia]. split_and!; [lia|intros H; specialize (Hal H); lia|exact Hdead].
    + split_and!; [lia|naive_solver lia|exact Hdead].
  - specialize (Hins (C_Report reason)). simpl in Hins.
    destruct sc; unfold set_call, set_closed_flag; cbn -[calls_holding worker_holds] in *;
      (split_and!; [lia|naive_solver lia|exact Hdead]).
  - specialize (Hins C_Done). simpl in Hins.
    destruct (_ <? _)%nat; unfold set_call, set_rejections; cbn -[calls_holding worker_holds] in *;
      (split_and!; [lia|naive_solver lia|exact Hdead]).
Qed.

Lemma intake_step_inv depth s s' : intake_step depth s s' → intake_inv s → intake_inv s'.
Proof.
  destruct 1 as [parsed|i p Hi|Hw Hr|Hw|Hw|c l Hw Hc|c Hw Hb|c Hw|Hw|r l Hr];
    [|by apply call_step_inv|..]; intros (Hle & Hal & Hdead); unfold intake_inv, holders in *;
    cbn -[calls_holding worker_holds] in *; rewrite ?calls_holding_app, ?Hw, ?Hc, ?Hb in *; simpl in *.
  1, 4, 9: split_and!; [lia|naive_solver lia|exact Hdead].
  1: split_and!; [lia|naive_solver lia|congruence].
  1: split_and!; [lia|done|done].
  all: destruct (receiver s); [specialize (Hal eq_refl)|by destruct (Hdead eq_refl)].
  all: split_and!; [|intros _|done]; try destruct (busy s); simpl in *; lia.
Qed.

Lemma reachable_inv depth s : intake_reachable depth s → intake_inv s.
Proof.
  induction 1 as [|s s' _ IH Hstep]; [|by eapply intake_step_inv].
  split_and!; [done..|]. by intros [=].
Qed.

(** ** Properties *)

(** the busy flag serialises commands.  In every reachable interleaving of any number of concurrent
    submitters with the worker, the reporter and the start or drop of the runtime: while the flag is
    free nothing is queued, executing or about to be sent; at most one command is queued or executing;
    a submitter that won the flag finds room in the one-element queue, so a full queue is never the
    reason of a rejection; and as long as the worker's end of the channel exists a set flag has a
    holder that will release it. *)
Lemma busy_flag_exclusive depth s :
  intake_reachable depth s →
  (busy s = false → commands s = [] ∧ worker_holds (worker s) = 0%nat ∧
     ∀ i c, calls s !! i ≠ Some (C_Send c)) ∧
  (length (commands s) + worker_holds (worker s) ≤ 1)%nat ∧
  (∀ i c, calls s !! i = Some (C_Send c) → try_send s ≠ SR_Full) ∧
  (receiver s = true → busy s = true → (1 ≤ holders s)%nat).
Proof.
  intros Hr. destruct (reachable_inv _ _ Hr) as (Hle & Hal & Hdead).
  assert (Hsend : ∀ i c, calls s !! i = Some (C_Send c) → (1 ≤ calls_holding (calls s))%nat).
  { intros i c Hi. eapply calls_holding_elem; [by eapply list_elem_of_lookup_2|done]. }
  assert (Hb1 : (Nat.b2n (busy s) ≤ 1)%nat) by (destruct (busy s); simpl; lia).
  unfold holders in *. split_and!.
  - intros Hb. rewrite Hb in Hle. simpl in Hle. split_and!.
    + destruct (commands s); [done|simpl in Hle; lia].
    + lia.
    + intros i c Hi. specialize (Hsend i c Hi). lia.
  - lia.
  - intros i c Hi. specialize (Hsend i c Hi). unfold try_send, COMMAND_CAP.
    destruct (receiver s); [|done]. simpl. destruct (commands s); simpl in *; [done|lia].
  - intros Hrc Hb. rewrite (Hal Hrc), Hb. done.
Qed.

Lemma busy_flag_exclusive_witness :
  let s := mkShared true false [] true [] 0 W_Idle [C_Send CmdRepair] in
  intake_reachable 8 s ∧ (length (commands s) + worker_holds (worker s) ≤ 1)%nat ∧ (1 ≤ holders s)%nat.
Proof.
  assert (Hr : intake_reachable 8 (mkShared true false [] true [] 0 W_Idle [C_Send CmdRepair])).
  { apply (IR_step 8 (mkShared false false [] true [] 0 W_Idle [C_Claim CmdRepair])).
    2:{ exact (I_call 8 (mkShared false false [] true [] 0 W_Idle [C_Claim CmdRepair]) 0 _ eq_refl). }
    apply (IR_step 8 (mkShared false false [] true [] 0 W_Idle [C_Parse (Ok CmdRepair)])).
    2:{ exact (I_call 8 (mkShared false false [] true [] 0 W_Idle [C_Parse (Ok CmdRepair)]) 0 _ eq_refl). }
    apply (IR_step 8 (mkShared false false [] true [] 0 W_Idle [])).
    2:{ exact (I_submit 8 (mkShared false false [] true [] 0 W_Idle []) (Ok CmdRepair)). }
    apply (IR_step 8 Shared_new); [apply IR_new|].
    exact (I_start 8 Shared_new eq_refl eq_refl). }
  destruct (busy_flag_exclusive 8 _ Hr) as (_ & Hone & _ & Hholds).
  intros s. split; [exact Hr|]. split; [exact Hone|]. by apply Hholds.
Defined.
