(* ===== verification/MqttSession.v ===== *)
(** * MqttSession: the MQTT session lifecycle ([mqtt/session.rs]) and the network gate
    ([mqtt/gate.rs])

    [poll] follows [SessionMachine::poll] arm by arm.  The gate is the edge
    detector the tier puts in front of it.  The theorems are about histories of a tier that
    keeps the adapter contract. *)
From S2P Require Import Prelude.
Open Scope Z_scope.
Open Scope rn_scope.

Definition SESSION_RETRY_MS : Z := 5000.

Definition SessionToken : Type := Z.

Inductive SessionInput :=
| NetworkUp | NetworkDown | AttemptStarted
| Connected (session_present : bool)
| WorkDone (token : SessionToken) | WorkFailed (token : SessionToken)
| Disconnected | RetryElapsed | Shutdown.

Inductive SessionAction :=
| A_None | A_Connect
| ConnectWork (token : SessionToken) (subscribe : bool)
| A_Close
| A_Wait (ms : Z).

Inductive Phase :=
| P_Starting | P_Offline | P_Connecting
| Working (token : SessionToken)
| P_Ready | Retrying
| Closing (driver_idle : bool)
| P_Shutdown.

#[export] Instance SessionInput_eq_dec : EqDecision SessionInput.
Proof. solve_decision. Defined.
#[export] Instance SessionAction_eq_dec : EqDecision SessionAction.
Proof. solve_decision. Defined.
#[export] Instance Phase_eq_dec : EqDecision Phase.
Proof. solve_decision. Defined.

Inductive MqttConnectionState := MC_Connecting | MC_Connected | MC_Disconnected | MC_ShuttingDown.

#[export] Instance MqttConnectionState_eq_dec : EqDecision MqttConnectionState.
Proof. solve_decision. Defined.

Record SessionMachine := mkSession {
  phase : Phase; network_up : bool; generation : Z; connects : Z;
  subscribed : bool; retry_ms : Z }.

Definition with_retry (retry : Z) : SessionMachine := mkSession P_Starting false 0 0 false retry.
Definition SessionMachine_new : SessionMachine := with_retry SESSION_RETRY_MS.

Definition session_state (m : SessionMachine) : MqttConnectionState :=
  match phase m with
  | P_Starting | P_Connecting | Working _ => MC_Connecting
  | P_Ready => MC_Connected
  | P_Offline | Retrying | Closing _ => MC_Disconnected
  | P_Shutdown => MC_ShuttingDown
  end.

Definition can_publish (m : SessionMachine) : bool := bool_decide (phase m = P_Ready).
Definition connect_count (m : SessionMachine) : Z := connects m.
Definition is_current (token : SessionToken) (m : SessionMachine) : bool :=
  bool_decide (phase m = Working token).
Definition driver_idle (m : SessionMachine) : bool :=
  match phase m with Closing true => true | _ => false end.

Definition set_phase (p : Phase) (m : SessionMachine) : SessionMachine :=
  mkSession p (network_up m) (generation m) (connects m) (subscribed m) (retry_ms m).
Definition set_network (up : bool) (m : SessionMachine) : SessionMachine :=
  mkSession (phase m) up (generation m) (connects m) (subscribed m) (retry_ms m).

(** The [Connected] arm. *)
Definition accept_session (session_present : bool) (m : SessionMachine) :
    SessionAction * SessionMachine :=
  let token := generation m ⊞ 1 in
  let subscribe := negb (session_present && subscribed m) in
  (ConnectWork token subscribe,
   mkSession (Working token) (network_up m) token (connects m)
     (if subscribe then false else subscribed m) (retry_ms m)).

Definition poll (input : SessionInput) (m : SessionMachine) : SessionAction * SessionMachine :=
  if bool_decide (phase m = P_Shutdown) then (A_None, m)
  else
    match phase m, input with
    | p, Shutdown =>
        let busy := match p with
                    | P_Connecting | Working _ | P_Ready | Retrying => true
                    | _ => false
                    end in
        (if busy then A_Close else A_None, set_phase P_Shutdown m)
    | (P_Starting | P_Offline), NetworkUp =>
        (A_Connect, set_phase P_Connecting (set_network true m))
    | _, NetworkUp => (A_None, set_network true m)
    | (P_Connecting | Working _ | P_Ready), NetworkDown =>
        (A_Close, set_phase (Closing false) (set_network false m))
    | Retrying, NetworkDown => (A_Close, set_phase (Closing true) (set_network false m))
    | _, NetworkDown => (A_None, set_network false m)
    | Retrying, AttemptStarted => (A_None, set_phase P_Connecting m)
    | (P_Starting | P_Offline), AttemptStarted => (A_Close, set_phase (Closing false) m)
    | P_Connecting, Connected session_present => accept_session session_present m
    | Working current, WorkDone token =>
        if decide (token = current) then
          (A_None, mkSession P_Ready (network_up m) (generation m) (connects m ⊞ 1) true (retry_ms m))
        else (A_None, m)
    | Working current, WorkFailed token =>
        if decide (token = current) then (A_Close, set_phase (Closing false) m) else (A_None, m)
    | (P_Connecting | Working _ | P_Ready | Closing _), Disconnected =>
        if network_up m then (A_Wait (retry_ms m), set_phase Retrying m)
        else (A_None, set_phase P_Offline m)
    | Retrying, RetryElapsed => (A_Connect, set_phase P_Connecting m)
    | _, _ => (A_None, m)
    end.

(** ** [NetworkGate] *)

Record NetworkGate := mkGate { up : bool }.

Definition NetworkGate_new : NetworkGate := mkGate false.

Definition feed (ready : bool) (g : NetworkGate) : option SessionInput * NetworkGate :=
  if eqb ready (up g) then (None, g)
  else (Some (if ready then NetworkUp else NetworkDown), mkGate ready).

(** ** Histories

    What a machine was fed and answered, newest first. *)

Definition entry : Type := SessionInput * SessionAction.

Inductive history : list entry → SessionMachine → Prop :=
| history_new retry : history [] (with_retry retry)
| history_poll h m input :
    history h m → history ((input, fst (poll input m)) :: h) (snd (poll input m)).

(** The attempt in flight, or the session it became, was not ended by this entry. *)
Definition undisturbed (e : entry) : Prop :=
  snd e = A_None ∧ fst e ≠ Disconnected ∧ fst e ≠ NetworkDown ∧ fst e ≠ Shutdown.

#[export] Instance undisturbed_dec e : Decision (undisturbed e).
Proof. unfold undisturbed. apply _. Defined.

(** The connect work [token] is still awaited after this entry. *)
Definition awaiting (token : SessionToken) (e : entry) : Prop :=
  undisturbed e ∧ fst e ≠ WorkDone token.

#[export] Instance awaiting_dec token e : Decision (awaiting token e).
Proof. unfold awaiting. apply _. Defined.

(** [h] ends with the completion of the connect work [token], undisturbed since the broker
    accepted the session. *)
Definition completed (token : SessionToken) (subscribe : bool) (h : list entry) : Prop :=
  ∃ mid session_present pre,
    h = (WorkDone token, A_None) :: mid ++ (Connected session_present, ConnectWork token subscribe) :: pre ∧
    Forall (awaiting token) mid.

Definition starts_subscribing (e : entry) : Prop :=
  match snd e with ConnectWork _ true => True | _ => False end.

(** The last connect work that subscribed was completed. *)
Definition subscriptions_complete (h : list entry) : Prop :=
  ∃ later token h', h = later ++ h' ∧ completed token true h' ∧
    Forall (λ e, ¬ starts_subscribing e) later.

(** Tokens of the connect works started, newest first. *)
Fixpoint tokens (h : list entry) : list SessionToken :=
  match h with
  | [] => []
  | (_, ConnectWork t _) :: h => t :: tokens h
  | _ :: h => tokens h
  end.

(** Feeds inputs one after the other, recording them. *)
Fixpoint run (inputs : list SessionInput) (h : list entry) (m : SessionMachine) :
    list entry * SessionMachine :=
  match inputs with
  | [] => (h, m)
  | input :: inputs => run inputs ((input, fst (poll input m)) :: h) (snd (poll input m))
  end.

(** ** A tier that keeps the adapter contract

    What the broker answers to an attempt, or the client to its connect work. *)
Inductive reply := Refused | Accepted (session_present : bool).

(** The input the tier owes the machine in each phase. *)
Definition due_input (r : reply) (m : SessionMachine) : option SessionInput :=
  match phase m, r with
  | (P_Starting | P_Offline), _ => Some NetworkUp
  | P_Connecting, Accepted session_present => Some (Connected session_present)
  | P_Connecting, Refused => Some Disconnected
  | Working t, Accepted _ => Some (WorkDone t)
  | Working t, Refused => Some (WorkFailed t)
  | Retrying, _ => Some RetryElapsed
  | Closing _, _ => Some Disconnected
  | (P_Ready | P_Shutdown), _ => None
  end.

(** One owed input after the other, with these replies. *)
Fixpoint drive (replies : list reply) (m : SessionMachine) : SessionMachine :=
  match replies with
  | [] => m
  | r :: replies =>
      match due_input r m with
      | Some input => drive replies (snd (poll input m))
      | None => m
      end
  end.

(** ** correctness of the MQTT session lifecycle *)

(** Case analysis on the phase of the machine and on the input it was fed. *)
Ltac poll_cases m input :=
  let p := fresh "p" in
  destruct m as [p up gen ? subs ?]; unfold poll, accept_session, set_phase, set_network in *;
  destruct p, input; cbn in *;
  rewrite ?bool_decide_eq_false_2 by discriminate;
  rewrite ?bool_decide_eq_true_2 by reflexivity; cbn in *;
  repeat match goal with
         | |- context [decide (?x = ?y)] => destruct (decide (x = y)); subst; cbn in *
         | |- context [if ?b then _ else _] => destruct b eqn:?; cbn in *
         end.

(** ** The network gate of the machine *)

(** An attempt or a session exists only while the network is up. *)
Definition gated (m : SessionMachine) : Prop :=
  match phase m with
  | P_Starting | P_Offline => network_up m = false
  | P_Connecting | Working _ | P_Ready | Retrying => network_up m = true
  | Closing _ | P_Shutdown => True
  end.

Lemma poll_gated input m : gated m → gated (snd (poll input m)).
Proof. unfold gated. intros H. poll_cases m input; auto. Qed.

Lemma poll_connect_gated input m :
  gated m → fst (poll input m) = A_Connect → network_up (snd (poll input m)) = true.
Proof. unfold gated. intros H. poll_cases m input; auto; discriminate. Qed.

Lemma history_gated h m : history h m → gated m.
Proof. induction 1; [reflexivity|]. by apply poll_gated. Qed.

(** ** Readiness *)

(** [h] ends with an undisturbed connect work [token], and one that does not subscribe
    resumed a session whose subscriptions were complete. *)
Definition started (token : SessionToken) (h : list entry) : Prop :=
  ∃ mid session_present subscribe pre,
    h = mid ++ (Connected session_present, ConnectWork token subscribe) :: pre ∧
    Forall (awaiting token) mid ∧
    (subscribe = false → session_present = true ∧ subscriptions_complete pre).

Definition made_ready (h : list entry) : Prop :=
  ∃ post token h', h = post ++ (WorkDone token, A_None) :: h' ∧ started token h' ∧
    Forall undisturbed post.

Lemma subscriptions_complete_later later h :
  subscriptions_complete h → Forall (λ e, ¬ starts_subscribing e) later →
  subscriptions_complete (later ++ h).
Proof.
  intros (l & t & h' & -> & Hc & Hl) Hq. exists (later ++ l), t, h'.
  rewrite <- app_assoc. repeat split; auto. by apply Forall_app.
Qed.

Lemma subscriptions_complete_cons e h :
  subscriptions_complete h → ¬ starts_subscribing e → subscriptions_complete (e :: h).
Proof. intros. apply (subscriptions_complete_later [e]); auto. Qed.

Lemma awaiting_not_subscribing t mid :
  Forall (awaiting t) mid → Forall (λ e, ¬ starts_subscribing e) mid.
Proof.
  intros H. eapply Forall_impl; [exact H|]. intros e [(Ha & _) _].
  unfold starts_subscribing. rewrite Ha. tauto.
Qed.

Lemma started_done t h : started t h → subscriptions_complete ((WorkDone t, A_None) :: h).
Proof.
  intros (mid & sp & sub & p & -> & Hm & Hsub). destruct sub.
  - exists [], t, ((WorkDone t, A_None) :: mid ++ (Connected sp, ConnectWork t true) :: p).
    split; [done|]. split; [by exists mid, sp, p|constructor].
  - destruct (Hsub eq_refl) as [_ Hp].
    apply subscriptions_complete_cons; [|cbn; tauto].
    apply subscriptions_complete_later; [|by eapply awaiting_not_subscribing].
    apply subscriptions_complete_cons; [done|cbn; tauto].
Qed.

Lemma started_cons t e h : started t h → awaiting t e → started t (e :: h).
Proof.
  intros (mid & sp & sub & p & -> & Hm & Hsub) He.
  exists (e :: mid), sp, sub, p. repeat split; try by apply Hsub. by constructor.
Qed.

Lemma made_ready_cons e h : made_ready h → undisturbed e → made_ready (e :: h).
Proof.
  intros (post & t & h' & -> & Hs & Hp) He. exists (e :: post), t, h'.
  repeat split; auto.
Qed.

Definition ready_inv (h : list entry) (m : SessionMachine) : Prop :=
  match phase m with
  | Working t => started t h
  | P_Ready => made_ready h
  | _ => True
  end ∧
  (subscribed m = true → subscriptions_complete h).

(** An entry the machine ignored keeps the invariant. *)
Ltac ready_quiet :=
  split;
  [first [apply started_cons | apply made_ready_cons | exact I]; try done; repeat split; cbn; congruence|];
  intros; apply subscriptions_complete_cons; [by eauto|cbn; tauto].

Lemma poll_ready_inv h m input :
  ready_inv h m → ready_inv ((input, fst (poll input m)) :: h) (snd (poll input m)).
Proof.
  unfold ready_inv. intros [Hp Hs]. poll_cases m input; try ready_quiet.
  - split; [|discriminate]. exists [], session_present, true, h.
    repeat split; auto; discriminate.
  - apply negb_false_iff, andb_true_iff in Heqb as [-> ->].
    split; [|intros; apply subscriptions_complete_cons; [by auto|cbn; tauto]].
    exists [], true, false, h. repeat split; auto.
  - split; [|intros _; by apply started_done]. by exists [], token, h.
Qed.

Lemma history_ready_inv h m : history h m → ready_inv h m.
Proof.
  induction 1; [split; [exact I|discriminate]|]. by apply poll_ready_inv.
Qed.

(** ** Tokens *)

Definition token_space : Z := 4294967296.

Lemma tokens_app h1 h2 : tokens (h1 ++ h2) = tokens h1 ++ tokens h2.
Proof.
  induction h1 as [|[i a] h1 IH]; [done|]. cbn. destruct a; rewrite ?IH; done.
Qed.

Definition token_inv (h : list entry) (m : SessionMachine) : Prop :=
  generation m = u32_wrap (Z.of_nat (length (tokens h))) ∧
  Forall (λ t, ∃ k, 1 ≤ k ≤ Z.of_nat (length (tokens h)) ∧ t = u32_wrap k) (tokens h).

Lemma poll_tokens h m input :
  tokens ((input, fst (poll input m)) :: h) = tokens h ∧ generation (snd (poll input m)) = generation m ∨
  tokens ((input, fst (poll input m)) :: h) = (generation m ⊞ 1) :: tokens h ∧
    generation (snd (poll input m)) = generation m ⊞ 1.
Proof. poll_cases m input; auto. Qed.

Lemma u32_wrap_succ n : u32_wrap n ⊞ 1 = u32_wrap (n + 1).
Proof. unfold u32_wrapping_add, u32_wrap. by rewrite Zplus_mod_idemp_l. Qed.

Lemma history_token_inv h m : history h m → token_inv h m.
Proof.
  induction 1 as [retry|h m input Hh [Hg IH]]; [split; [reflexivity|constructor]|].
  unfold token_inv.
  destruct (poll_tokens h m input) as [[-> ->]|[-> ->]]; [done|].
  cbn [length]. rewrite Hg, u32_wrap_succ, Nat2Z.inj_succ. unfold Z.succ. split; [done|].
  constructor; [exists (Z.of_nat (length (tokens h)) + 1); lia|].
  eapply Forall_impl; [exact IH|]. intros t (k & Hk & ->). exists k. lia.
Qed.

Lemma u32_wrap_inj_range j k :
  1 ≤ j ≤ token_space → 1 ≤ k ≤ token_space → u32_wrap j = u32_wrap k → j = k.
Proof.
  unfold u32_wrap, token_space. intros Hj Hk E.
  pose proof (Z.div_mod j 4294967296). pose proof (Z.div_mod k 4294967296).
  assert (0 ≤ j / 4294967296 ≤ 1) by (split; [apply Z.div_pos|apply Z.div_le_upper_bound]; lia).
  assert (0 ≤ k / 4294967296 ≤ 1) by (split; [apply Z.div_pos|apply Z.div_le_upper_bound]; lia).
  lia.
Qed.

Lemma history_tokens_nodup h m :
  history h m → Z.of_nat (length (tokens h)) ≤ token_space → NoDup (tokens h).
Proof.
  induction 1 as [retry|h m input Hh IH]; [constructor|]. intros Hlen.
  destruct (history_token_inv h m Hh) as [Hg Hf].
  destruct (poll_tokens h m input) as [[E _]|[E _]]; rewrite E in Hlen |- *; [auto|].
  cbn [length] in Hlen. constructor; [|apply IH; lia].
  rewrite Hg, u32_wrap_succ. intros Hin.
  rewrite Forall_forall in Hf. destruct (Hf _ Hin) as (k & Hk & E').
  apply u32_wrap_inj_range in E'; lia.
Qed.

(** With distinct tokens, the connect work of a token is one entry. *)
Lemma tokens_unique_split h1 h2 h1' h2' t i s i' s' :
  NoDup (tokens (h1 ++ (i, ConnectWork t s) :: h2)) →
  h1 ++ (i, ConnectWork t s) :: h2 = h1' ++ (i', ConnectWork t s') :: h2' → h1 = h1'.
Proof.
  revert h1'. induction h1 as [|e h1 IH]; intros [|e' h1'] Hn E; cbn in *; simplify_eq; auto.
  - apply NoDup_cons in Hn as [Hn _]. destruct Hn. rewrite tokens_app. set_solver.
  - apply NoDup_cons in Hn as [Hn _]. destruct Hn. rewrite tokens_app. set_solver.
  - f_equal. apply (IH h1'); [|done]. destruct e' as [? []]; cbn in Hn; try done.
    by apply NoDup_cons in Hn as [_ Hn].
Qed.

(** ** The stale-session guard *)

(** The machine stays in the connect work of [t] exactly while [t] is awaited. *)
Lemma poll_awaiting m input t :
  phase m = Working t →
  (phase (snd (poll input m)) = Working t ↔ awaiting t (input, fst (poll input m))).
Proof.
  unfold awaiting, undisturbed. intros Ht. poll_cases m input;
    simplify_eq; split; intros; destruct_and?; simplify_eq; repeat split; cbn; congruence.
Qed.

(** The machine at a split of its history. *)
Lemma history_split newer h m :
  history (newer ++ h) m →
  ∃ m0, history h m0 ∧ (∀ t, phase m0 = Working t → Forall (awaiting t) newer → phase m = Working t).
Proof.
  revert m. induction newer as [|e newer IH]; intros m Hh; [by exists m|].
  inversion Hh as [|h' m' input Hh' E]; subst.
  destruct (IH m' Hh') as (m0 & H0 & Hk). exists m0. split; [done|].
  intros t Ht [Ha Hf]%Forall_cons. by apply poll_awaiting; auto.
Qed.

Lemma connect_work_phase t s i m h :
  history ((i, ConnectWork t s) :: h) m → phase m = Working t.
Proof.
  inversion 1 as [|h' m' input Hh' E]; subst.
  match goal with E : _ = ConnectWork t s |- _ => revert E end.
  poll_cases m' i; congruence.
Qed.

Lemma poll_stale m t :
  is_current t m = false → poll (WorkDone t) m = (A_None, m) ∧ poll (WorkFailed t) m = (A_None, m).
Proof.
  unfold is_current. intros H%bool_decide_eq_false. split.
  - revert H. poll_cases m (WorkDone t); intros; congruence.
  - revert H. poll_cases m (WorkFailed t); intros; congruence.
Qed.

(** The stale-session guard is exact: the connect work of a token is current exactly
    while nothing since its start ended the session or completed it, and a result that
    comes any other time changes nothing.  Tokens are [u32], so this holds for 2^32
    connect works; the next one has the token of the first. *)
Lemma stale_guard_exact h m newer older t session_present subscribe :
  history h m → h = newer ++ (Connected session_present, ConnectWork t subscribe) :: older →
  Z.of_nat (length (tokens h)) ≤ token_space →
  (is_current t m = true ↔ Forall (awaiting t) newer) ∧
  (is_current t m = false →
   poll (WorkDone t) m = (A_None, m) ∧ poll (WorkFailed t) m = (A_None, m)).
Proof.
  intros Hh -> Hlen. split; [|apply poll_stale].
  unfold is_current. rewrite bool_decide_eq_true. split.
  - intros Hw. pose proof (history_ready_inv _ _ Hh) as [Hs _]. rewrite Hw in Hs.
    destruct Hs as (mid & sp & sub & pre & E & Hm & _).
    by rewrite (tokens_unique_split _ _ _ _ _ _ _ _ _ (history_tokens_nodup _ _ Hh Hlen) E).
  - intros Hf. destruct (history_split _ _ _ Hh) as (m0 & H0 & Hk).
    apply Hk; [|done]. by apply connect_work_phase in H0.
Qed.

Lemma history_run inputs h m : history h m → history (fst (run inputs h m)) (snd (run inputs h m)).
Proof.
  revert h m. induction inputs as [|i inputs IH]; intros h m Hh; [done|].
  cbn. apply IH. by constructor.
Qed.

Lemma stale_guard_exact_witness :
  poll (WorkDone 1) (snd (run [NetworkUp; Connected false; Disconnected; RetryElapsed; Connected false]
                          [] SessionMachine_new)) =
  (A_None, snd (run [NetworkUp; Connected false; Disconnected; RetryElapsed; Connected false]
                  [] SessionMachine_new)).
Proof.
  eapply (stale_guard_exact
            (fst (run [NetworkUp; Connected false; Disconnected; RetryElapsed; Connected false]
                    [] SessionMachine_new)) _
            [(Connected false, ConnectWork 2 true); (RetryElapsed, A_Connect);
             (Disconnected, A_Wait 5000)]
            [(NetworkUp, A_Connect)] 1 false true).
  - apply history_run. exact (history_new SESSION_RETRY_MS).
  - vm_compute. reflexivity.
  - vm_compute. discriminate.
  - vm_compute. reflexivity.
Defined.

(** Publishing is possible only in a session whose connect work was completed: since
    the broker accepted the session nothing ended it; its work subscribed, unless the broker
    kept a session and the last subscribing connect work had been completed; and the
    network is up. *)
Lemma ready_after_work h m :
  history h m → can_publish m = true → made_ready h ∧ network_up m = true.
Proof.
  unfold can_publish. intros Hh Hr%bool_decide_eq_true.
  pose proof (history_ready_inv _ _ Hh) as [Hp _]. pose proof (history_gated _ _ Hh) as Hg.
  unfold gated in Hg. by rewrite Hr in Hp, Hg.
Qed.

Lemma ready_after_work_witness :
  made_ready (fst (run [NetworkUp; Connected false; WorkDone 1] [] SessionMachine_new)).
Proof.
  eapply ready_after_work.
  - apply history_run. exact (history_new SESSION_RETRY_MS).
  - vm_compute. reflexivity.
Defined.

(** ** Recovery *)

(** Accepted inputs left until the session is ready. *)
Definition distance (m : SessionMachine) : nat :=
  match phase m with
  | P_Ready | P_Shutdown => 0
  | Working _ => 1
  | P_Connecting => 2
  | P_Starting | P_Offline | Retrying => 3
  | Closing _ => 4
  end.

Lemma due_input_accepted m :
  distance m ≠ 0%nat →
  ∀ session_present, ∃ input, due_input (Accepted session_present) m = Some input ∧
    (distance (snd (poll input m)) < distance m)%nat.
Proof.
  unfold distance, due_input. intros Hd sp.
  destruct (phase m) eqn:E; try done; eexists; (split; [reflexivity|]);
    destruct m as [p up ? ? ? ?]; cbn in E; subst; unfold poll, accept_session; cbn;
    rewrite ?bool_decide_eq_false_2 by discriminate; rewrite ?decide_True by done;
    try destruct up; cbn; lia.
Qed.

Lemma due_input_live r m input :
  due_input r m = Some input → phase m ≠ P_Shutdown → phase (snd (poll input m)) ≠ P_Shutdown.
Proof.
  unfold due_input. intros Hd Hs. destruct (phase m) eqn:E; destruct r; simplify_eq;
    destruct m as [p up ? ? ? ?]; cbn in E; subst; unfold poll, accept_session; cbn;
    rewrite ?bool_decide_eq_false_2 by discriminate; cbn; repeat case_decide;
    try destruct up; cbn; congruence.
Qed.

Lemma drive_ready replies m : phase m = P_Ready → drive replies m = m.
Proof. intros E. destruct replies as [|r ?]; cbn; unfold due_input; rewrite ?E; by try destruct r. Qed.

Lemma drive_accepted replies m :
  phase m ≠ P_Shutdown → (distance m ≤ length replies)%nat →
  Forall (λ r, r ≠ Refused) replies →
  can_publish (drive replies m) = true.
Proof.
  assert (∀ m, phase m ≠ P_Shutdown → distance m = 0%nat → phase m = P_Ready) as Hz.
  { intros m' ?. unfold distance. by destruct (phase m'). }
  revert m. induction replies as [|r replies IH]; intros m Hs Hd Hf;
    apply bool_decide_eq_true; cbn [length] in Hd.
  - cbn. apply Hz; [done|lia].
  - destruct (decide (distance m = 0%nat)) as [E|E]; [rewrite drive_ready by auto; auto|].
    apply Forall_cons in Hf as [Hr Hf]. destruct r as [|sp]; [done|].
    destruct (due_input_accepted m E sp) as (input & Hi & Hlt). cbn. rewrite Hi.
    eapply bool_decide_eq_true, IH; [by eapply due_input_live|lia|done].
Qed.

(** A session recovers from every state but a shutdown: once four owed inputs in a
    row are fed without a refusal, the session is ready, no matter what was refused
    before. *)
Lemma session_recovers m tried accepted :
  phase m ≠ P_Shutdown → length accepted = 4%nat → Forall (λ r, r ≠ Refused) accepted →
  can_publish (drive (tried ++ accepted) m) = true.
Proof.
  intros Hs Hlen Hf. revert m Hs. induction tried as [|r tried IH]; intros m Hs.
  - apply drive_accepted; [done| |done]. cbn [app]. rewrite Hlen. unfold distance. destruct (phase m); lia.
  - cbn. destruct (due_input r m) as [input|] eqn:Hd; [by apply IH, (due_input_live r)|].
    unfold due_input in Hd. unfold can_publish. by destruct (phase m), r; simplify_eq.
Qed.

Lemma session_recovers_witness :
  can_publish (drive ([Refused; Refused; Refused; Accepted false; Refused] ++
                      replicate 4 (Accepted true)) SessionMachine_new) = true.
Proof.
  apply (session_recovers SessionMachine_new [Refused; Refused; Refused; Accepted false; Refused]
           (replicate 4 (Accepted true))); [done|done|repeat constructor; done].
Defined.
