(* ===== verification/MqttRunner.v ===== *)
(** * MqttRunner: the session runner of the ESP-IDF tier ([mqtt/runner.rs], and
    [connect_work] and the event loop of [mqtt/mod.rs])

    The runner is the only thread that polls the session machine and calls the client.
    The event loop, the link and the connect helpers reach it through one channel.  What
    they send, and when, is an environment; so is the outcome of every client call.
    The theorems: the runner respects the network gate and never waits for nobody. *)
From S2P Require Import Prelude MqttSession.
Open Scope Z_scope.

Inductive Msg := MsgInput (input : SessionInput) | MsgReady (ready : bool).

#[export] Instance Msg_eq_dec : EqDecision Msg.
Proof. solve_decision. Defined.

(** What the builder configured. *)
Record RunnerConfig := mkRunnerConfig {
  subscribe_topics : list string; startup_topic : option string; on_connect : bool }.

(** Calls into the client library, and helper threads. *)
Inductive Call :=
| CreateClient (created : bool)
| Kick
| DisconnectClient
| SpawnHelper (token : SessionToken) (topics : option (list string)) (session_present : bool)
    (spawned : bool)
| StopClient.

(** A connect helper: before or after its staleness check. *)
Record Helper := mkHelper { h_token : SessionToken; h_topics : option (list string); h_running : bool }.

Inductive Pc := PcTop | PcRecv | PcStopped.

Record Runner := mkRunner {
  machine : SessionMachine; gate : NetworkGate;
  handle : bool; session_present : bool; retry_at : option Z;
  queue : list Msg; helpers : list Helper; pc : Pc }.

Definition with_machine m s :=
  mkRunner m (gate s) (handle s) (session_present s) (retry_at s) (queue s) (helpers s) (pc s).
Definition with_gate g s :=
  mkRunner (machine s) g (handle s) (session_present s) (retry_at s) (queue s) (helpers s) (pc s).
Definition with_handle h s :=
  mkRunner (machine s) (gate s) h (session_present s) (retry_at s) (queue s) (helpers s) (pc s).
Definition with_session_present p s :=
  mkRunner (machine s) (gate s) (handle s) p (retry_at s) (queue s) (helpers s) (pc s).
Definition with_retry_at r s :=
  mkRunner (machine s) (gate s) (handle s) (session_present s) r (queue s) (helpers s) (pc s).
Definition with_queue q s :=
  mkRunner (machine s) (gate s) (handle s) (session_present s) (retry_at s) q (helpers s) (pc s).
Definition with_helpers h s :=
  mkRunner (machine s) (gate s) (handle s) (session_present s) (retry_at s) (queue s) h (pc s).
Definition with_pc p s :=
  mkRunner (machine s) (gate s) (handle s) (session_present s) (retry_at s) (queue s) (helpers s) p.

(** [Session::send]: appends to the runner's own channel. *)
Definition send (input : SessionInput) (s : Runner) : Runner :=
  with_queue (queue s ++ [MsgInput input]) s.

(** Whether the calls of this step succeed. *)
Record Outcome := mkOutcome { created : bool; spawned : bool }.

Definition connect (o : Outcome) (s : Runner) : list Call * Runner :=
  if handle s then ([Kick], s)
  else if created o then ([CreateClient true], with_handle true s)
  else ([CreateClient false], send Disconnected s).

Definition close (s : Runner) : list Call * Runner :=
  if negb (handle s) then ([], send Disconnected s)
  else if driver_idle (machine s) then ([], send Disconnected s)
  else ([DisconnectClient], s).

Definition start_connect_work (cfg : RunnerConfig) (o : Outcome) (token : SessionToken)
    (subscribe : bool) (s : Runner) : list Call * Runner :=
  let subscribe := subscribe && negb (bool_decide (subscribe_topics cfg = [])) in
  if negb subscribe && bool_decide (startup_topic cfg = None) && negb (on_connect cfg) then
    ([], send (WorkDone token) s)
  else
    let topics := if subscribe then Some (subscribe_topics cfg) else None in
    let call := SpawnHelper token topics (session_present s) (spawned o) in
    if spawned o then ([call], with_helpers (helpers s ++ [mkHelper token topics false]) s)
    else ([call], send (WorkFailed token) s).

(** The [match] of [Runner::act]. *)
Definition perform (cfg : RunnerConfig) (o : Outcome) (now : Z) (action : SessionAction) (s : Runner) :
    list Call * Runner :=
  match action with
  | A_None => ([], s)
  | A_Connect => connect o s
  | ConnectWork token subscribe => start_connect_work cfg o token subscribe s
  | A_Close => close s
  | A_Wait ms => ([], with_retry_at (Some (now + ms)) s)
  end.

Definition act (cfg : RunnerConfig) (o : Outcome) (now : Z) (input : SessionInput) (s : Runner) :
    list Call * Runner :=
  let s := match input with Connected present => with_session_present present s | _ => s end in
  let '(action, m) := poll input (machine s) in
  perform cfg o now action (with_machine m s).

Definition retry_due (now : Z) (retry_at : option Z) : bool :=
  match retry_at with Some at_ => at_ <=? now | None => false end.

(** [Runner::shutdown]: the client is stopped and dropped. *)
Definition shutdown (s : Runner) : list Call * Runner :=
  if handle s then ([Kick; StopClient], with_pc PcStopped (with_handle false s))
  else ([], with_pc PcStopped s).

(** The head of the loop: the retry timer, then the check that a handle is left. *)
Definition loop_top (cfg : RunnerConfig) (o : Outcome) (now : Z) (alive : bool) (s : Runner) :
    list Call * Runner :=
  let '(calls, s) :=
    if retry_due now (retry_at s) then act cfg o now RetryElapsed (with_retry_at None s)
    else ([], s) in
  if alive then (calls, with_pc PcRecv s)
  else let '(calls', s) := shutdown s in (calls ++ calls', s).

(** The receive: [None] is the timeout. *)
Definition loop_recv (cfg : RunnerConfig) (o : Outcome) (now : Z) (msg : option Msg) (s : Runner) :
    list Call * Runner :=
  let '(calls, s) :=
    match msg with
    | None => ([], s)
    | Some (MsgInput input) => act cfg o now input s
    | Some (MsgReady ready) =>
        let '(input, g) := feed ready (gate s) in
        let s := with_gate g s in
        match input with
        | Some input => act cfg o now input s
        | None => ([], s)
        end
    end in
  (calls, with_pc PcTop s).

(** Before the loop: the gate is seeded with the readiness at build time. *)
Definition start (cfg : RunnerConfig) (o : Outcome) (now retry : Z) (seed_ready : bool) :
    list Call * Runner :=
  let s := mkRunner (with_retry retry) NetworkGate_new false false None [] [] PcTop in
  let '(input, g) := feed seed_ready (gate s) in
  let s := with_gate g s in
  match input with
  | Some input => act cfg o now input s
  | None => ([], s)
  end.

(** ** The connect helper ([connect_work] of [mod.rs]) *)

Inductive HelperCall :=
| H_Subscribe (topic : string) | H_Startup (topic : string) | H_OnConnect (session_present : bool).

(** Subscribes in order; stops at the first topic that fails. *)
Fixpoint subscribe_all (subscribe_ok : string → bool) (topics : list string) :
    list HelperCall * bool :=
  match topics with
  | [] => ([], true)
  | t :: topics =>
      if subscribe_ok t then
        let '(calls, done) := subscribe_all subscribe_ok topics in (H_Subscribe t :: calls, done)
      else ([H_Subscribe t], false)
  end.

Definition connect_work (current : bool) (token : SessionToken) (topics : option (list string))
    (startup : option string) (callback present : bool)
    (subscribe_ok : string → bool) (enqueue_ok : bool) : list HelperCall * option SessionInput :=
  if negb current then ([], None)
  else
    let '(calls, done) := subscribe_all subscribe_ok (default [] topics) in
    let '(calls, done) :=
      match done, startup with
      | true, Some topic => (calls ++ [H_Startup topic], enqueue_ok)
      | _, _ => (calls, done)
      end in
    let calls := if done && callback then calls ++ [H_OnConnect present] else calls in
    (calls, Some (if done then WorkDone token else WorkFailed token)).

(** ** The threads together *)

(** What the event loop reports, once a client exists. *)
Inductive driver_event : SessionInput → Prop :=
| de_before_connect : driver_event AttemptStarted
| de_connected present : driver_event (Connected present)
| de_disconnected : driver_event Disconnected.

(** What one step of the runner did: the input it handled, if any, and its calls. *)
Record Deed := mkDeed { heard : option SessionInput; made : list Call }.

(** The input that a received message is to the machine. *)
Definition received (msg : option Msg) (g : NetworkGate) : option SessionInput :=
  match msg with
  | Some (MsgInput input) => Some input
  | Some (MsgReady ready) => fst (feed ready g)
  | None => None
  end.

Definition due_elapsed (now : Z) (s : Runner) : option SessionInput :=
  if retry_due now (retry_at s) then Some RetryElapsed else None.

Definition idle_deed : Deed := mkDeed None [].

Section system.
Context (cfg : RunnerConfig).

Inductive step : Runner → Deed → Runner → Prop :=
| step_top s o now alive :
    pc s = PcTop → step s (mkDeed (due_elapsed now s) (fst (loop_top cfg o now alive s))) (snd (loop_top cfg o now alive s))
| step_timeout s o now :
    pc s = PcRecv → queue s = [] →
    step s (mkDeed None (fst (loop_recv cfg o now None s))) (snd (loop_recv cfg o now None s))
| step_recv s o now msg rest :
    pc s = PcRecv → queue s = msg :: rest →
    step s (mkDeed (received (Some msg) (gate s)) (fst (loop_recv cfg o now (Some msg) (with_queue rest s))))
           (snd (loop_recv cfg o now (Some msg) (with_queue rest s)))
| step_event s input :
    handle s = true → driver_event input → step s idle_deed (send input s)
| step_ready s ready :
    step s idle_deed (with_queue (queue s ++ [MsgReady ready]) s)
| step_helper_stale s before after t topics :
    helpers s = before ++ mkHelper t topics false :: after →
    is_current t (machine s) = false →
    step s idle_deed (with_helpers (before ++ after) s)
| step_helper_check s before after t topics :
    helpers s = before ++ mkHelper t topics false :: after →
    is_current t (machine s) = true →
    step s idle_deed (with_helpers (before ++ mkHelper t topics true :: after) s)
| step_helper_detached s before after t topics :
    helpers s = before ++ mkHelper t topics false :: after →
    step s idle_deed (send (WorkFailed t) (with_helpers (before ++ after) s))
| step_helper_done s before after t topics present subscribe_ok enqueue_ok input :
    helpers s = before ++ mkHelper t topics true :: after →
    snd (connect_work true t topics (startup_topic cfg) (on_connect cfg) present
           subscribe_ok enqueue_ok) = Some input →
    step s idle_deed (send input (with_helpers (before ++ after) s)).

(** A run of the runner, with its deeds, oldest first. *)
Inductive runs : list Deed → Runner → Prop :=
| runs_start o now retry seed :
    runs [mkDeed (fst (feed seed NetworkGate_new)) (fst (start cfg o now retry seed))] (snd (start cfg o now retry seed))
| runs_step log s d s' : runs log s → step s d s' → runs (log ++ [d]) s'.

End system.

(** A call that makes the client attempt a connection. *)
Definition attempts (c : Call) : bool :=
  match c with CreateClient _ | Kick => true | _ => false end.

(** What the client owes an end of: an attempt it was made to start, or reported to have started, or
    a close it was asked for.  The end it reports is [Disconnected]. *)
Inductive Ask := AskNothing | AskAttempt | AskClose.

#[export] Instance Ask_eq_dec : EqDecision Ask.
Proof. solve_decision. Defined.

Definition ask_call (a : Ask) (c : Call) : Ask :=
  match c with
  | CreateClient true | Kick => AskAttempt
  | DisconnectClient => AskClose
  | StopClient => AskNothing
  | CreateClient false | SpawnHelper _ _ _ _ => a
  end.

Definition ask_heard (a : Ask) (input : option SessionInput) : Ask :=
  match input with
  | Some Disconnected => AskNothing
  | Some AttemptStarted => if decide (a = AskClose) then AskClose else AskAttempt
  | _ => a
  end.

Definition ask_step (a : Ask) (d : Deed) : Ask := foldl ask_call (ask_heard a (heard d)) (made d).
Definition asked (log : list Deed) : Ask := foldl ask_step AskNothing log.

(** ** the runner respects the network gate and never waits for nobody *)

(** Inputs that other threads may send. *)
Definition from_threads (input : SessionInput) : Prop :=
  match input with
  | AttemptStarted | Connected _ | Disconnected | WorkDone _ | WorkFailed _ => True
  | _ => False
  end.

Definition from_client (input : SessionInput) : Prop :=
  match input with AttemptStarted | Connected _ => True | _ => False end.

(** Who ends the wait of each phase, when the inputs [q] are still to be handled. *)
Definition owed (a : Ask) (q : list Msg) (s : Runner) : Prop :=
  match phase (machine s) with
  | P_Starting | P_Offline | P_Ready => True
  | P_Connecting => (handle s = true ∧ a = AskAttempt) ∨ MsgInput Disconnected ∈ q
  | Working t =>
      (∃ h, h ∈ helpers s ∧ h_token h = t) ∨ MsgInput (WorkDone t) ∈ q ∨ MsgInput (WorkFailed t) ∈ q
  | Retrying => (is_Some (retry_at s) ∨ MsgInput RetryElapsed ∈ q) ∧ a ≠ AskClose
  | Closing idle => (handle s = true ∧ idle = false ∧ a = AskClose) ∨ MsgInput Disconnected ∈ q
  | P_Shutdown => False
  end.

Definition msg_ok (has_client : bool) (m : Msg) : Prop :=
  match m with
  | MsgInput input => from_threads input ∧ (has_client = false → ¬ from_client input)
  | MsgReady _ => True
  end.

Definition runner_inv (a : Ask) (s : Runner) : Prop :=
  gated (machine s) ∧ network_up (machine s) = up (gate s) ∧
  Forall (msg_ok (handle s)) (queue s) ∧ owed a (queue s) s.

Lemma msg_ok_client b q : Forall (msg_ok b) q → Forall (msg_ok true) q.
Proof. intros H. eapply Forall_impl; [exact H|]. intros [i|r]; cbn; naive_solver. Qed.

Lemma msg_ok_send b q input :
  Forall (msg_ok b) q → from_threads input → ¬ from_client input →
  Forall (msg_ok b) (q ++ [MsgInput input]).
Proof. intros. apply Forall_app; split; [done|]. by repeat constructor. Qed.

Section runner.
Context (cfg : RunnerConfig) (o : Outcome) (now : Z).

(** What [act] needs of the input it handles. *)
Definition act_ok (input : SessionInput) (s : Runner) : Prop :=
  match input with
  | NetworkUp => up (gate s) = true
  | NetworkDown => up (gate s) = false
  | Shutdown => False
  | _ => network_up (machine s) = up (gate s) ∧ (handle s = false → ¬ from_client input)
  end.

(** What [poll] leaves for [perform]. *)
Definition to_perform (a : Ask) (action : SessionAction) (s : Runner) : Prop :=
  match action with
  | A_None => owed a (queue s) s
  | A_Connect => phase (machine s) = P_Connecting
  | ConnectWork t _ => phase (machine s) = Working t
  | A_Close => ∃ idle, phase (machine s) = Closing idle
  | A_Wait _ => phase (machine s) = Retrying ∧ a ≠ AskClose
  end.

Lemma poll_to_perform a input s :
  act_ok input s → owed a (MsgInput input :: queue s) s →
  network_up (snd (poll input (machine s))) = up (gate s) ∧
  to_perform (ask_heard a (Some input)) (fst (poll input (machine s))) (with_machine (snd (poll input (machine s))) s).
Proof.
  destruct s as [m g hd sp ra q hs p]. unfold owed, act_ok, to_perform, owed.
  cbn. intros Ha Ho. poll_cases m input; try done.
  all: rewrite ?elem_of_cons in Ho.
  all: repeat case_decide.
  all: try (split; naive_solver).
  all: destruct hd; split; naive_solver.
Qed.

(** [send] pays what is owed to the end of an attempt, of a close and of a connect work. *)
Lemma perform_inv a action s :
  gated (machine s) → network_up (machine s) = up (gate s) →
  Forall (msg_ok (handle s)) (queue s) → to_perform a action s →
  runner_inv (foldl ask_call a (fst (perform cfg o now action s))) (snd (perform cfg o now action s)).
Proof.
  intros Hg Hn Hq Ht.
  assert (∀ i, from_threads i → ¬ from_client i →
            Forall (msg_ok (handle s)) (queue s ++ [MsgInput i])) as Hsend
    by (intros; by apply msg_ok_send).
  assert (∀ i : SessionInput, MsgInput i ∈ queue s ++ [MsgInput i]) as Hin
    by (intros; apply elem_of_app; right; by left).
  unfold runner_inv, owed.
  destruct action; cbn in *; [done| | | |].
  - unfold connect. destruct (handle s) eqn:Hh; [|destruct (created o)]; cbn;
      rewrite ?Hh, Ht; cbn; repeat split; auto; try (by eapply msg_ok_client).
    apply Hsend; cbn; tauto.
  - unfold start_connect_work.
    repeat match goal with |- context [if ?b then _ else _] => destruct b end; cbn;
      rewrite Ht; cbn; (split; [done|]); (split; [done|]);
      (split; [try done; apply Hsend; cbn; tauto|]); auto.
    all: left; eexists; split; [apply elem_of_app; right; by left|done].
  - destruct Ht as [idle Ht]. unfold close, driver_idle. rewrite Ht.
    destruct (handle s) eqn:Hh, idle; cbn; rewrite Ht, ?Hh; (split; [done|]); (split; [done|]);
      (split; [try done; apply Hsend; cbn; tauto|]); auto.
  - destruct Ht as [-> Ht]. repeat split; eauto.
Qed.

Lemma perform_attempts action s c :
  c ∈ fst (perform cfg o now action s) → attempts c = true → action = A_Connect.
Proof.
  destruct action; cbn; [set_solver|done| | |set_solver].
  - unfold start_connect_work.
    repeat match goal with |- context [if ?b then _ else _] => destruct b end; cbn;
      rewrite ?list_elem_of_singleton; set_solver.
  - unfold close. repeat case_match; cbn; set_solver.
Qed.

Lemma act_inv a input s :
  gated (machine s) → act_ok input s → Forall (msg_ok (handle s)) (queue s) →
  owed a (MsgInput input :: queue s) s →
  runner_inv (ask_step a (mkDeed (Some input) (fst (act cfg o now input s)))) (snd (act cfg o now input s)) ∧
  (∀ c, c ∈ fst (act cfg o now input s) → attempts c = true → up (gate s) = true).
Proof.
  intros Hg Ha Hq Ho.
  set (s' := match input with Connected present => with_session_present present s | _ => s end).
  assert (machine s' = machine s ∧ gate s' = gate s ∧ handle s' = handle s ∧ queue s' = queue s ∧
          helpers s' = helpers s ∧ retry_at s' = retry_at s) as (E1&E2&E3&E4&E5&E6)
    by (unfold s'; by destruct input).
  unfold act. fold s'.
  assert (act_ok input s') as Ha' by (revert Ha; unfold act_ok; rewrite E1, E2, E3; by destruct input).
  assert (owed a (MsgInput input :: queue s') s') as Ho'
    by (revert Ho; unfold owed; by rewrite E1, E3, E4, E5, E6).
  destruct (poll_to_perform a input s' Ha' Ho') as [Hn Ht].
  rewrite E1 in *. destruct (poll input (machine s)) as [action m] eqn:Ep. cbn [fst snd] in *.
  pose proof (poll_gated input _ Hg) as Hg'. rewrite Ep in Hg'. rewrite E2 in Hn.
  split.
  - apply perform_inv; cbn; rewrite ?E2, ?E3, ?E4; auto.
  - intros c Hc Hat. apply perform_attempts in Hc; [|done].
    pose proof (poll_connect_gated input _ Hg) as Hu. rewrite Ep in Hu. cbn in Hu.
    rewrite <- Hn. auto.
Qed.

End runner.

(** ** The threads together *)

Definition attempts_gated (calls : list Call) (s : Runner) : Prop :=
  ∀ c, c ∈ calls → attempts c = true → up (gate s) = true.

Lemma attempts_gated_nil s : attempts_gated [] s.
Proof. intros c ?%elem_of_nil. done. Qed.

#[local] Hint Resolve attempts_gated_nil : rn.

Lemma perform_gate cfg o now action s : gate (snd (perform cfg o now action s)) = gate s.
Proof.
  destruct action; cbn; try done; unfold connect, close, start_connect_work;
    repeat case_match; by simplify_eq.
Qed.

Lemma act_gate cfg o now input s : gate (snd (act cfg o now input s)) = gate s.
Proof.
  unfold act. destruct (poll input _) as [a m]. rewrite perform_gate. by destruct input.
Qed.

Lemma owed_cons a q msg s : owed a q s → owed a (msg :: q) s.
Proof.
  unfold owed. destruct (phase (machine s)); rewrite ?elem_of_cons; naive_solver.
Qed.

Lemma owed_ready a q ready s : owed a (MsgReady ready :: q) s → owed a q s.
Proof.
  unfold owed. destruct (phase (machine s)); rewrite ?elem_of_cons; naive_solver.
Qed.

(** One handled input, from the invariant. *)
Lemma handle_inv a cfg o now input s :
  gated (machine s) → act_ok input s → Forall (msg_ok (handle s)) (queue s) →
  owed a (MsgInput input :: queue s) s →
  runner_inv (ask_step a (mkDeed (Some input) (fst (act cfg o now input s)))) (snd (act cfg o now input s)) ∧
  attempts_gated (fst (act cfg o now input s)) (snd (act cfg o now input s)).
Proof.
  intros. destruct (act_inv cfg o now a input s) as [Hi Hc]; auto. split; [done|].
  intros c. rewrite act_gate. apply Hc.
Qed.

Lemma runner_inv_pc a p s : runner_inv a s → runner_inv a (with_pc p s).
Proof. done. Qed.

Lemma loop_top_inv a cfg o now alive s :
  runner_inv a s → pc (snd (loop_top cfg o now alive s)) ≠ PcStopped →
  runner_inv (ask_step a (mkDeed (due_elapsed now s) (fst (loop_top cfg o now alive s)))) (snd (loop_top cfg o now alive s)) ∧
  attempts_gated (fst (loop_top cfg o now alive s)) (snd (loop_top cfg o now alive s)).
Proof.
  intros (Hg & Hn & Hq & Ho). unfold loop_top.
  set (r := if retry_due now (retry_at s) then _ else _).
  assert (runner_inv (ask_step a (mkDeed (due_elapsed now s) (fst r))) (snd r) ∧ attempts_gated (fst r) (snd r)) as Hr.
  { unfold r, due_elapsed. destruct (retry_due now (retry_at s)); [|split; [by repeat split|auto with rn]].
    apply handle_inv; cbn; auto. revert Ho. unfold owed. cbn.
    destruct (phase (machine s)); rewrite ?elem_of_cons; naive_solver. }
  destruct r as [calls s1]. destruct alive; [done|].
  unfold shutdown. destruct (handle s1); done.
Qed.

Lemma loop_recv_inv a cfg o now msg s :
  gated (machine s) → network_up (machine s) = up (gate s) →
  Forall (msg_ok (handle s)) (option_list msg ++ queue s) → owed a (option_list msg ++ queue s) s →
  runner_inv (ask_step a (mkDeed (received msg (gate s)) (fst (loop_recv cfg o now msg s)))) (snd (loop_recv cfg o now msg s)) ∧
  attempts_gated (fst (loop_recv cfg o now msg s)) (snd (loop_recv cfg o now msg s)).
Proof.
  intros Hg Hn Hq Ho. unfold loop_recv.
  set (r := match msg with None => _ | _ => _ end).
  assert (runner_inv (ask_step a (mkDeed (received msg (gate s)) (fst r))) (snd r) ∧ attempts_gated (fst r) (snd r)) as Hr.
  { unfold r. destruct msg as [[input|ready]|]; cbn in Hq, Ho;
      [| |split; [by repeat split|auto with rn]];
      apply Forall_cons in Hq as [Hm Hq].
    - apply handle_inv; auto. destruct Hm as [Hf Hc]. unfold act_ok. by destruct input.
    - apply owed_ready in Ho. cbn [received]. unfold feed. destruct (eqb ready (up (gate s))) eqn:E.
      + split; [by repeat split|auto with rn].
      + destruct ready; [apply (handle_inv a cfg o now NetworkUp)|apply (handle_inv a cfg o now NetworkDown)]; cbn; auto; by apply owed_cons. }
  by destruct r.
Qed.

(** Another thread's message or a helper's end keeps what is owed. *)
Lemma runner_inv_queue a q s :
  runner_inv a s → Forall (msg_ok (handle s)) q → (∀ m, m ∈ queue s → m ∈ q) →
  runner_inv a (with_queue q s).
Proof.
  intros (Hg & Hn & Hq & Ho) Hq' Hin. split; [done|]. split; [done|]. split; [done|].
  revert Ho. unfold owed. cbn. destruct (phase (machine s)); naive_solver.
Qed.

Lemma runner_inv_send a input s :
  runner_inv a s → msg_ok (handle s) (MsgInput input) → runner_inv a (send input s).
Proof.
  intros Hi Hm. unfold send. apply runner_inv_queue; [done| |set_solver].
  apply Forall_app; split; [apply Hi|]. by constructor.
Qed.

(** The helper of [t] ends: somebody else answers for [t], or its work is not awaited. *)
Lemma runner_inv_helpers a before after h s :
  runner_inv a s → helpers s = before ++ h :: after →
  is_current (h_token h) (machine s) = false ∨
    MsgInput (WorkDone (h_token h)) ∈ queue s ∨ MsgInput (WorkFailed (h_token h)) ∈ queue s →
  runner_inv a (with_helpers (before ++ after) s).
Proof.
  intros (Hg & Hn & Hq & Ho) Hh Ha. split; [done|]. split; [done|]. split; [done|].
  revert Ho Ha. unfold owed, is_current. cbn. destruct (phase (machine s)) eqn:E; auto.
  intros [(h' & Hin & <-)|Hin] Ha; [|by right].
  rewrite Hh in Hin. rewrite elem_of_app, elem_of_cons in Hin.
  destruct Hin as [Hin|[->|Hin]]; [left; exists h'; set_solver| |left; exists h'; set_solver].
  destruct Ha as [Ha%bool_decide_eq_false|Ha]; [congruence|by right].
Qed.

Lemma runner_inv_check a before after t topics s :
  runner_inv a s → helpers s = before ++ mkHelper t topics false :: after →
  runner_inv a (with_helpers (before ++ mkHelper t topics true :: after) s).
Proof.
  intros (Hg & Hn & Hq & Ho) Hh. split; [done|]. split; [done|]. split; [done|].
  revert Ho. unfold owed. cbn. destruct (phase (machine s)) eqn:E; auto.
  intros [(h & Hin & <-)|Hin]; [left|by right].
  rewrite Hh in Hin. rewrite elem_of_app, elem_of_cons in Hin.
  destruct Hin as [Hin|[->|Hin]]; [exists h|exists (mkHelper t topics true)|exists h]; set_solver.
Qed.

Lemma send_helpers_comm input hs s :
  send input (with_helpers hs s) = with_helpers hs (send input s).
Proof. done. Qed.

Lemma connect_work_result current t topics startup callback present sub_ok enq_ok input :
  snd (connect_work current t topics startup callback present sub_ok enq_ok) = Some input →
  input = WorkDone t ∨ input = WorkFailed t.
Proof.
  unfold connect_work. destruct current; [|done]. cbn.
  destruct (subscribe_all _ _) as [calls done].
  destruct done, startup; [destruct enq_ok| | |]; cbn; naive_solver.
Qed.

Section system.
Context (cfg : RunnerConfig).

Lemma start_inv o now retry seed :
  runner_inv (asked [mkDeed (fst (feed seed NetworkGate_new)) (fst (start cfg o now retry seed))]) (snd (start cfg o now retry seed)).
Proof.
  unfold asked, start. cbn [foldl]. destruct seed; cbn [feed eqb NetworkGate_new up fst]; [|repeat split; constructor].
  eapply (handle_inv AskNothing cfg o now NetworkUp); cbn; repeat constructor.
Qed.

Lemma runner_step_inv a s d s' :
  step cfg s d s' → pc s' ≠ PcStopped → runner_inv a s →
  runner_inv (ask_step a d) s' ∧ attempts_gated (made d) s'.
Proof.
  destruct 1 as [s o now alive Hpc|s o now Hpc Hq|s o now msg rest Hpc Hq|s input Hh He|s ready
    |s bef aft t tp Hh Hc|s bef aft t tp Hh Hc|s bef aft t tp Hh
    |s bef aft t tp present sub_ok enq_ok input Hh Hr]; intros Hstop Hi; cbn [made].
  - by apply loop_top_inv.
  - destruct Hi as (Hg & Hn & Hf & Ho). by apply (loop_recv_inv a cfg o now None).
  - destruct Hi as (Hg & Hn & Hf & Ho). rewrite Hq in Hf, Ho. by apply (loop_recv_inv a cfg o now (Some msg) (with_queue rest s)).
  - split; [|auto with rn]. apply runner_inv_send; [done|]. rewrite Hh. by destruct He.
  - split; [|auto with rn]. apply runner_inv_queue; [done| |set_solver].
    apply Forall_app; split; [apply Hi|by constructor].
  - split; [|auto with rn]. eapply runner_inv_helpers; [done|exact Hh|by left].
  - split; [|auto with rn]. by apply runner_inv_check.
  - split; [|auto with rn]. rewrite send_helpers_comm.
    eapply runner_inv_helpers; [by apply runner_inv_send; [done|cbn; tauto]|exact Hh|].
    right; right. cbn. set_solver.
  - split; [|auto with rn]. rewrite send_helpers_comm.
    apply connect_work_result in Hr as [-> | ->];
      (eapply runner_inv_helpers; [by apply runner_inv_send; [done|cbn; tauto]|exact Hh|]);
      right; cbn; set_solver.
Qed.

Lemma step_stopped s d s' : step cfg s d s' → pc s = PcStopped → pc s' = PcStopped.
Proof. destruct 1; cbn; congruence. Qed.

Lemma runs_inv log s : runs cfg log s → pc s ≠ PcStopped → runner_inv (asked log) s.
Proof.
  induction 1 as [|log s d s' Hr IH Hs]; [intros; apply start_inv|].
  intros Hp. unfold asked. rewrite foldl_snoc. eapply runner_step_inv; [done|done|]. apply IH. intros E.
  by apply Hp, (step_stopped _ _ _ Hs).
Qed.

(** No attempt, no session and no retry pause. *)
Definition without_session (p : Phase) : bool :=
  match p with P_Starting | P_Offline | Closing _ => true | _ => false end.

(** The network gate holds in the whole tier: while the runner runs, its machine
    agrees with the last readiness it took from the link; without the network there is no
    attempt, no session and no retry; and no step makes the client attempt a connection
    without it. *)
Lemma runner_network_gate log s d s' :
  runs cfg log s → step cfg s d s' → pc s' ≠ PcStopped →
  network_up (machine s') = up (gate s') ∧
  (up (gate s') = false → without_session (phase (machine s')) = true) ∧
  (∀ c, c ∈ made d → attempts c = true → up (gate s') = true).
Proof.
  intros Hr Hs Hp.
  assert (pc s ≠ PcStopped) as Hp' by (intros E; by apply Hp, (step_stopped _ _ _ Hs)).
  destruct (runner_step_inv _ _ _ _ Hs Hp (runs_inv _ _ Hr Hp')) as [(Hg & Hn & _ & Ho) Hc].
  split; [done|]. split; [|exact Hc].
  intros Hu. rewrite Hu in Hn. unfold gated in Hg. unfold owed in Ho.
  by destruct (phase (machine s')); try congruence.
Qed.

(** Who ends the wait of each phase. *)
Definition waited (log : list Deed) (s : Runner) : Prop :=
  match phase (machine s) with
  | P_Starting | P_Offline => up (gate s) = false
  | P_Ready => True
  | P_Connecting => (handle s = true ∧ asked log = AskAttempt) ∨ MsgInput Disconnected ∈ queue s
  | Working t =>
      (∃ h, h ∈ helpers s ∧ h_token h = t) ∨
      MsgInput (WorkDone t) ∈ queue s ∨ MsgInput (WorkFailed t) ∈ queue s
  | Retrying => is_Some (retry_at s)
  | Closing idle => (handle s = true ∧ idle = false ∧ asked log = AskClose) ∨ MsgInput Disconnected ∈ queue s
  | P_Shutdown => False
  end.

(** C13: The runner never waits for nobody: a phase that is not ready waits for the link, for the
    armed retry timer, for a helper or its queued result, for a queued end of the attempt, or for a
    client that exists and owes that end: while connecting, one that was created or kicked, or has
    reported that it began to connect, and while closing, one that holds a transport and was told to
    disconnect, and in both cases the runner has handled no end of a session since then. *)
Theorem runner_never_stuck log s : runs cfg log s → pc s ≠ PcStopped → waited log s.
Proof.
  intros Hr Hp. destruct (runs_inv _ _ Hr Hp) as (Hg & Hn & Hq & Ho).
  unfold waited. unfold owed in Ho. unfold gated in Hg.
  destruct (phase (machine s)); try done; try congruence.
  destruct Ho as [[?|Hin] _]; [done|].
  rewrite Forall_forall in Hq. by destruct (Hq _ Hin).
Qed.

End system.

(** ** Closed instances *)

Definition sample_cfg : RunnerConfig := mkRunnerConfig ["iot/a/cmd"] (Some "iot/a/startup") true.
Definition sample_ok : Outcome := mkOutcome true true.

(** The link comes up: idle, notified, at the receive, and connecting. *)
Definition sample_idle : Runner := snd (start sample_cfg sample_ok 0 5000 false).
Definition sample_notified : Runner := with_queue [MsgReady true] sample_idle.
Definition sample_receiving : Runner := snd (loop_top sample_cfg sample_ok 1 true sample_notified).
Definition sample_connecting : list Call * Runner :=
  loop_recv sample_cfg sample_ok 1 (Some (MsgReady true)) (with_queue [] sample_receiving).

Lemma sample_receiving_runs : ∃ log, runs sample_cfg log sample_receiving.
Proof.
  eexists. eapply runs_step; [|by apply (step_top sample_cfg sample_notified sample_ok 1 true)].
  eapply runs_step; [|exact (step_ready sample_cfg sample_idle true)].
  apply runs_start.
Qed.

Lemma sample_connecting_step :
  step sample_cfg sample_receiving (mkDeed (Some NetworkUp) (fst sample_connecting)) (snd sample_connecting).
Proof. by apply (step_recv sample_cfg sample_receiving sample_ok 1 (MsgReady true) []). Qed.

Lemma runner_network_gate_witness :
  fst sample_connecting = [CreateClient true] ∧ up (gate (snd sample_connecting)) = true.
Proof.
  split; [reflexivity|]. destruct sample_receiving_runs as [log Hl].
  apply (runner_network_gate sample_cfg log sample_receiving _ (snd sample_connecting) Hl sample_connecting_step)
    with (c := CreateClient true); [discriminate|left|reflexivity].
Defined.

(** Nothing is queued: the runner waits for the client it created. *)
Lemma runner_never_stuck_witness :
  phase (machine (snd sample_connecting)) = P_Connecting ∧ ∃ log, runs sample_cfg log (snd sample_connecting) ∧ asked log = AskAttempt.
Proof.
  split; [reflexivity|]. destruct sample_receiving_runs as [log Hl].
  pose proof (runs_step sample_cfg _ _ _ _ Hl sample_connecting_step) as Hr. eexists. split; [exact Hr|].
  destruct (runner_never_stuck sample_cfg _ _ Hr ltac:(discriminate)) as [[_ Ha]|Hin]; [exact Ha|].
  vm_compute in Hin. by apply elem_of_nil in Hin.
Defined.
