(* ===== verification/MqttChunks.v ===== *)
(** * MqttChunks: joining chunked messages ([mqtt/chunks.rs])

    [usize] has 32 bits, so [offset + data.len()] wraps.  Slices are shorter than 2^31
    bytes, which is what Rust guarantees of every allocation. *)
From S2P Require Import Prelude.
Open Scope Z_scope.
Open Scope rn_scope.

Abbreviation bytes := (list Z).

Inductive Chunk :=
| Complete (topic : string) (data : bytes)
| First (topic : string) (data : bytes) (total : Z)
| Next (data : bytes) (offset total : Z).

Inductive Assembled :=
| Message (topic : string) (payload : bytes)
| Pending
| TooLarge
| OutOfOrder.

#[export] Instance Assembled_eq_dec : EqDecision Assembled.
Proof. solve_decision. Defined.

Inductive Progress :=
| Idle
| Collecting (topic : string) (payload : bytes) (total : Z)
| Skipping (total : Z).

Record ChunkAssembler := mkAssembler { max_len : Z; progress : Progress; abandoned : Z }.

Definition ChunkAssembler_new (max : Z) : ChunkAssembler := mkAssembler max Idle 0.

Definition len (b : bytes) : Z := Z.of_nat (length b).

Definition abandon (a : ChunkAssembler) : ChunkAssembler :=
  mkAssembler (max_len a) Idle
    (match progress a with Collecting _ _ _ => abandoned a ⊞ 1 | _ => abandoned a end).

Definition set_progress (p : Progress) (a : ChunkAssembler) : ChunkAssembler :=
  mkAssembler (max_len a) p (abandoned a).

Definition finish_if_complete (a : ChunkAssembler) : Assembled * ChunkAssembler :=
  match progress a with
  | Collecting topic payload total =>
      if len payload =? total then (Message topic payload, set_progress Idle a) else (Pending, a)
  | _ => (Pending, a)
  end.

Definition feed (c : Chunk) (a : ChunkAssembler) : Assembled * ChunkAssembler :=
  match c with
  | Complete topic data =>
      let a := abandon a in
      if max_len a <? len data then (TooLarge, a) else (Message topic data, a)
  | First topic data total =>
      let a := abandon a in
      if max_len a <? total then (TooLarge, set_progress (Skipping total) a)
      else finish_if_complete (set_progress (Collecting topic data total) a)
  | Next data offset total =>
      match progress a with
      | Collecting topic payload expected =>
          if (expected =? total) && (offset =? len payload) && (offset ⊞ len data <=? total) then
            finish_if_complete (set_progress (Collecting topic (payload ++ data) expected) a)
          else (OutOfOrder, abandon a)
      | Skipping skipped =>
          if skipped =? total then
            (Pending, if total <=? offset ⊞ len data then set_progress Idle a else a)
          else (OutOfOrder, abandon a)
      | Idle => (OutOfOrder, abandon a)
      end
  end.

(** The assembler after a sequence of chunks. *)
Definition after (max : Z) (chunks : list Chunk) : ChunkAssembler :=
  foldl (λ a c, snd (feed c a)) (ChunkAssembler_new max) chunks.

(** ** What the chunks of a message look like *)

Fixpoint nexts (total offset : Z) (pieces : list bytes) : list Chunk :=
  match pieces with
  | [] => []
  | d :: pieces => Next d offset total :: nexts total (offset + len d) pieces
  end.

(** The body [first ++ concat pieces], announced to have [total] bytes. *)
Definition split_message (topic : string) (total : Z) (first : bytes) (pieces : list bytes) : list Chunk :=
  First topic first total :: nexts total (len first) pieces.

(** The last chunk of [chunks] completes the message [topic], [payload]. *)
Definition delivers (max : Z) (chunks : list Chunk) (topic : string) (payload : bytes) : Prop :=
  len payload ≤ max ∧
  ∃ before,
    chunks = before ++ [Complete topic payload] ∨
    ∃ first pieces,
      chunks = before ++ split_message topic (len payload) first pieces ∧
      payload = first ++ concat pieces ∧
      last pieces ≠ Some [].

Definition chunk_len (c : Chunk) : Z :=
  match c with Complete _ d | First _ d _ | Next d _ _ => len d end.

(** ** the assembler delivers exactly the messages it was sent *)

Lemma len_app a b : len (a ++ b) = len a + len b.
Proof. unfold len. rewrite length_app. lia. Qed.

Lemma len_nonneg b : 0 ≤ len b.
Proof. unfold len. lia. Qed.

Lemma len_nil_inv b : len b = 0 → b = [].
Proof. unfold len. destruct b; [done|cbn; lia]. Qed.

Lemma nexts_snoc total offset pieces d :
  nexts total offset (pieces ++ [d]) =
    nexts total offset pieces ++ [Next d (offset + len (concat pieces)) total].
Proof.
  revert offset. induction pieces as [|p pieces IH]; intros offset; cbn.
  - by rewrite Z.add_0_r.
  - by rewrite IH, len_app, Z.add_assoc.
Qed.

Lemma split_message_snoc t total first pieces d :
  split_message t total first (pieces ++ [d]) =
    split_message t total first pieces ++ [Next d (len (first ++ concat pieces)) total].
Proof. unfold split_message. by rewrite nexts_snoc, len_app. Qed.

Lemma after_snoc max chunks c : after max (chunks ++ [c]) = snd (feed c (after max chunks)).
Proof. unfold after. by rewrite foldl_app. Qed.

Lemma after_max max chunks : max_len (after max chunks) = max.
Proof.
  induction chunks as [|c chunks IH] using rev_ind; [done|].
  rewrite after_snoc. unfold feed, finish_if_complete. destruct c;
    repeat (case_match; cbn in * ); done.
Qed.

(** [chunks] ends with an unfinished message. *)
Definition collects (max : Z) (chunks : list Chunk) (topic : string) (payload : bytes) (total : Z) : Prop :=
  total ≤ max ∧
  ∃ before first pieces,
    chunks = before ++ split_message topic total first pieces ∧
    payload = first ++ concat pieces ∧
    (len payload < total ∨ pieces = [] ∧ total < len payload ∧ len payload < 2147483648).

Section bounded.
Context (max : Z) (Hmax : max < 2147483648).

Lemma usize_add_small a b : 0 ≤ a < 2147483648 → 0 ≤ b < 2147483648 → a ⊞ b = a + b.
Proof.
  intros. unfold u32_wrapping_add. apply u32_wrap_small. unfold is_u32, u32_max. lia.
Qed.

Lemma collecting_after chunks topic payload total :
  Forall (λ c, chunk_len c < 2147483648) chunks →
  progress (after max chunks) = Collecting topic payload total →
  collects max chunks topic payload total.
Proof using Hmax.
  revert topic payload total. induction chunks as [|c chunks IH] using rev_ind; [done|].
  intros topic payload total [Hf [Hc _]%Forall_cons]%Forall_app.
  rewrite after_snoc. pose proof (after_max max chunks) as Hm.
  destruct c as [t d|t d n|d off n]; cbn in Hc; unfold feed.
  - cbn. by destruct (_ <? _).
  - cbn. rewrite Hm. destruct (max <? n) eqn:E; [done|]. unfold finish_if_complete; cbn.
    destruct (len d =? n) eqn:E'; [done|]. cbn. intros [= -> -> ->].
    split; [lia|]. exists chunks, payload, []. rewrite app_nil_r. repeat split.
    destruct (Z.lt_ge_cases (len payload) total); [by left|right; split; [done|lia]].
  - destruct (progress (after max chunks)) as [|t pl n'|s] eqn:Ep; [done| |].
    + specialize (IH _ _ _ Hf eq_refl) as (Hle & before & first & pieces & -> & -> & Hlt).
      destruct (_ && _) eqn:E; [|done]. rewrite !andb_true_iff in E. destruct E as [[E1 E2] E3].
      apply Z.eqb_eq in E1, E2. subst n' off. unfold finish_if_complete; cbn.
      destruct (len _ =? n) eqn:E'; [done|]. cbn. intros [= -> <- ->].
      pose proof (len_nonneg d). pose proof (len_nonneg (first ++ concat pieces)).
      rewrite usize_add_small in E3 by lia. rewrite len_app in E'.
      split; [done|]. exists before, first, (pieces ++ [d]).
      rewrite split_message_snoc, app_assoc. split; [done|].
      rewrite concat_app, app_assoc. cbn. rewrite app_nil_r. split; [done|].
      rewrite len_app. left. lia.
    + destruct (s =? n); cbn; [destruct (_ <=? _); cbn; congruence|done].
Qed.

Lemma after_collecting before topic total first pieces :
  Forall (λ c, chunk_len c < 2147483648) (split_message topic total first pieces) →
  total ≤ max → len (first ++ concat pieces) < total →
  progress (after max (before ++ split_message topic total first pieces)) =
    Collecting topic (first ++ concat pieces) total.
Proof using Hmax.
  intros Hf Hle. induction pieces as [|d pieces IH] using rev_ind; intros Hlt.
  - unfold split_message. cbn. rewrite app_nil_r in *. rewrite after_snoc. cbn. rewrite after_max.
    destruct (max <? total) eqn:E; [lia|]. unfold finish_if_complete; cbn.
    destruct (len first =? total) eqn:E'; [lia|done].
  - rewrite split_message_snoc in Hf |- *. apply Forall_app in Hf as [Hf [Hc _]%Forall_cons].
    rewrite concat_app in *. cbn [concat] in *. rewrite app_nil_r in *. rewrite app_assoc in Hlt.
    rewrite len_app in Hlt. pose proof (len_nonneg d).
    pose proof (len_nonneg (first ++ concat pieces)).
    rewrite (app_assoc before), after_snoc. cbn. rewrite IH by (done || lia).
    rewrite !Z.eqb_refl, usize_add_small by lia. cbn.
    destruct (_ <=? total) eqn:E; [|lia]. unfold finish_if_complete; cbn.
    rewrite len_app. destruct (_ =? total) eqn:E'; [lia|]. cbn. by rewrite app_assoc.
Qed.

Lemma delivers_feed chunks c topic payload :
  chunk_len c < 2147483648 → Forall (λ c, chunk_len c < 2147483648) chunks →
  fst (feed c (after max chunks)) = Message topic payload → delivers max (chunks ++ [c]) topic payload.
Proof using Hmax.
  intros Hc Hf. pose proof (after_max max chunks) as Hm. unfold feed.
  destruct c as [t d|t d n|d off n]; cbn in *.
  - rewrite Hm. destruct (max <? len d) eqn:E; [done|]. intros [= -> ->].
    split; [lia|]. exists chunks. by left.
  - rewrite Hm. destruct (max <? n) eqn:E; [done|]. unfold finish_if_complete; cbn.
    destruct (len d =? n) eqn:E'; [|done]. apply Z.eqb_eq in E' as <-. intros [= -> ->].
    split; [lia|]. exists chunks. right. exists payload, []. by rewrite app_nil_r.
  - destruct (progress (after max chunks)) as [|t pl n'|s] eqn:Ep; [done| |by destruct (s =? n)].
    apply collecting_after in Ep; [|done].
    destruct Ep as (Hle & before & first & pieces & -> & -> & Hlt).
    destruct (_ && _) eqn:E; [|done]. rewrite !andb_true_iff in E. destruct E as [[E1 E2] E3].
    apply Z.eqb_eq in E1, E2. subst n' off. unfold finish_if_complete; cbn.
    destruct (len _ =? n) eqn:E'; [|done]. apply Z.eqb_eq in E' as <-. intros [= <- <-].
    split; [done|]. exists before. right. exists first, (pieces ++ [d]).
    rewrite split_message_snoc, concat_app, last_snoc, !app_assoc. cbn. rewrite app_nil_r.
    repeat split. intros [= ->]. rewrite app_nil_r in Hlt.
    rewrite usize_add_small in E3; [lia| |done]. pose proof (len_nonneg (first ++ concat pieces)). lia.
Qed.

Lemma feed_delivers chunks c topic payload :
  Forall (λ c, chunk_len c < 2147483648) (chunks ++ [c]) →
  delivers max (chunks ++ [c]) topic payload →
  fst (feed c (after max chunks)) = Message topic payload.
Proof using Hmax.
  intros Hf [Hle (before & [[-> [= ->]]%app_inj_tail|(first & pieces & E & -> & Hl)])].
  - cbn. rewrite after_max. destruct (max <? len payload) eqn:E; [lia|done].
  - destruct pieces as [|d pieces _] using rev_ind.
    + unfold split_message in E. cbn in E. apply app_inj_tail in E as [-> ->].
      cbn. rewrite app_nil_r in *. rewrite after_max.
      destruct (max <? len first) eqn:E; [lia|]. unfold finish_if_complete; cbn.
      by rewrite Z.eqb_refl.
    + rewrite last_snoc in Hl. rewrite split_message_snoc, app_assoc in E.
      apply app_inj_tail in E as [-> ->].
      rewrite concat_app in *. cbn [concat] in *. rewrite app_nil_r in *.
      apply Forall_app in Hf as [Hf [Hd _]%Forall_cons]. cbn in Hd.
      apply Forall_app in Hf as [_ Hf].
      pose proof (len_nonneg (first ++ concat pieces)). pose proof (len_nonneg d).
      assert (len d ≠ 0) by (intros ?%len_nil_inv; congruence).
      rewrite (app_assoc first) in *. pose proof (len_app (first ++ concat pieces) d).
      unfold feed. rewrite after_collecting by (done || lia).
      rewrite !Z.eqb_refl, usize_add_small by lia. cbn [andb].
      destruct (_ <=? _) eqn:E; [|lia]. unfold finish_if_complete; cbn.
      by rewrite Z.eqb_refl.
Qed.
End bounded.

(** the assembler delivers exactly what was sent.  After any chunks before it, a chunk
    yields a message if and only if it completes one: a whole message, or the last
    non-empty piece of a message whose first chunk announced the length of the body, whose
    pieces follow each other without a gap and without another chunk in between; and the
    body is within the cap. *)
Lemma chunks_exact max chunks c topic payload :
  max < 2147483648 → Forall (λ c, chunk_len c < 2147483648) (chunks ++ [c]) →
  fst (feed c (after max chunks)) = Message topic payload ↔
  delivers max (chunks ++ [c]) topic payload.
Proof.
  intros Hmax Hf. split; [|by apply feed_delivers].
  apply Forall_app in Hf as [Hf [Hc _]%Forall_cons]. by apply delivers_feed.
Qed.

Lemma chunks_exact_witness :
  delivers 16384 [First "t" [1; 2] 4; First "t" [1] 3; Next [2; 3] 1 3] "t" [1; 2; 3].
Proof.
  apply (chunks_exact 16384 [First "t" [1; 2] 4; First "t" [1] 3] (Next [2; 3] 1 3)).
  - reflexivity.
  - repeat constructor.
  - vm_compute. reflexivity.
Defined.
