(* ===== verification/MqttOutbox.v ===== *)
(** * MqttOutbox: publishes that wait for a client ([mqtt/outbox.rs])

    Every operation runs under the outbox lock, so it is one step.  What "sending" means is
    the [send] closure of the caller; its results are an environment.  The wake-ups are in
    [WaitList]. *)
From S2P Require Import Prelude.
Open Scope Z_scope.
Open Scope rn_scope.

Inductive QoS := AtMostOnce | AtLeastOnce | ExactlyOnce.

#[export] Instance QoS_eq_dec : EqDecision QoS.
Proof. solve_decision. Defined.

Record PendingPublish := mkPublish {
  pp_topic : string; pp_payload : list Z; pp_qos : QoS; pp_retain : bool }.

#[export] Instance PendingPublish_eq_dec : EqDecision PendingPublish.
Proof. solve_decision. Defined.

Section outbox.
(** The client, and the closure that hands it a message: the client afterwards, and whether
    it took the message. *)
Context {C : Type} (try_send : C → PendingPublish → C * bool).

Record Outbox := mkOutbox {
  client : option C; pending : list PendingPublish; depth : nat; dropped : Z }.

Definition Outbox_new (d : nat) : Outbox := mkOutbox None [] d 0.

Definition count_dropped (n : Z) (b : Outbox) : Outbox :=
  mkOutbox (client b) (pending b) (depth b) (dropped b ⊞ n).
Definition set_client (c : option C) (b : Outbox) : Outbox :=
  mkOutbox c (pending b) (depth b) (dropped b).
Definition set_pending (p : list PendingPublish) (b : Outbox) : Outbox :=
  mkOutbox (client b) p (depth b) (dropped b).

(** [if !send(client, &message) { self.count_dropped(1) }] on the attached client. *)
Definition send_to (c : C) (m : PendingPublish) (b : Outbox) : Outbox :=
  let '(c, taken) := try_send c m in
  let b := set_client (Some c) b in
  if taken then b else count_dropped 1 b.

Fixpoint send_all (queued : list PendingPublish) (b : Outbox) : Outbox :=
  match queued, client b with
  | m :: queued, Some c => send_all queued (send_to c m b)
  | _, _ => b
  end.

Definition attach (c : C) (b : Outbox) : Outbox :=
  let queued := pending b in
  send_all queued (set_pending [] (set_client (Some c) b)).

Definition push (m : PendingPublish) (b : Outbox) : Outbox := set_pending (pending b ++ [m]) b.

(** The synchronous, evicting policy. *)
Definition publish (m : PendingPublish) (b : Outbox) : Outbox :=
  match client b with
  | Some c => send_to c m b
  | None =>
      let b := if (depth b <=? length (pending b))%nat
               then count_dropped 1 (set_pending (tail (pending b)) b) else b in
      push m b
  end.

(** One round of the waiting policy: [None] is the wait for room or for a client. *)
Definition publish_waiting_round (m : PendingPublish) (b : Outbox) : option Outbox :=
  match client b with
  | Some c => Some (send_to c m b)
  | None => if (length (pending b) <? depth b)%nat then Some (push m b) else None
  end.

(** The condition a waiting publisher checks when it is woken. *)
Definition has_room (b : Outbox) : bool :=
  match client b with Some _ => true | None => (length (pending b) <? depth b)%nat end.

Definition is_attached (b : Outbox) : bool := match client b with Some _ => true | None => false end.

Definition with_client_mut {R} (f : C → R * C) (b : Outbox) : option R * Outbox :=
  match client b with
  | Some c => let '(r, c) := f c in (Some r, set_client (Some c) b)
  | None => (None, b)
  end.

Inductive TryClient (R : Type) := Attached (r : R) | Detached | Busy.
Arguments Attached {R}.
Arguments Detached {R}.
Arguments Busy {R}.

(** [locked]: another thread holds the lock. *)
Definition try_with_client_mut {R} (locked : bool) (f : C → R * C) (b : Outbox) :
    TryClient R * Outbox :=
  if locked then (Busy, b)
  else
    match with_client_mut f b with
    | (Some r, b) => (Attached r, b)
    | (None, b) => (Detached, b)
    end.

Definition take_client (b : Outbox) : option C * Outbox := (client b, set_client None b).

(** ** Runs *)

Inductive Op :=
| OpAttach (c : C)
| OpPublish (m : PendingPublish)
| OpPublishWaiting (m : PendingPublish)
| OpTake.

(** What a run did, oldest first: messages whose publish completed, messages handed to a
    client, refusals and evictions. *)
Record Log := mkLog {
  offered : list PendingPublish; handed : list PendingPublish;
  refused : nat; evicted : nat }.

Fixpoint hand_all (c : C) (queued : list PendingPublish) : nat * C :=
  match queued with
  | [] => (0%nat, c)
  | m :: queued =>
      let '(c, taken) := try_send c m in
      let '(n, c) := hand_all c queued in
      ((if taken then n else S n), c)
  end.

Definition log_op (op : Op) (b : Outbox) (l : Log) : Log :=
  match op with
  | OpAttach c =>
      mkLog (offered l) (handed l ++ pending b) (refused l + fst (hand_all c (pending b))) (evicted l)
  | OpPublish m | OpPublishWaiting m =>
      match client b with
      | Some c =>
          mkLog (offered l ++ [m]) (handed l ++ [m])
            (refused l + fst (hand_all c [m])) (evicted l)
      | None =>
          mkLog (offered l ++ [m]) (handed l) (refused l)
            (match op with
             | OpPublish _ => if (depth b <=? length (pending b))%nat then S (evicted l) else evicted l
             | _ => evicted l
             end)
      end
  | OpTake => l
  end.

(** A waiting publish is in the run when a round of it completes. *)
Definition apply_op (op : Op) (b : Outbox) : option Outbox :=
  match op with
  | OpAttach c => Some (attach c b)
  | OpPublish m => Some (publish m b)
  | OpPublishWaiting m => publish_waiting_round m b
  | OpTake => Some (snd (take_client b))
  end.

Inductive outbox_run (d : nat) : list Op → Outbox → Log → Prop :=
| run_new : outbox_run d [] (Outbox_new d) (mkLog [] [] 0 0)
| run_op ops b l op b' :
    outbox_run d ops b l → apply_op op b = Some b' →
    outbox_run d (ops ++ [op]) b' (log_op op b l).

End outbox.

(** ** the outbox keeps the order and accounts for every message *)

Lemma sublist_full {A} (l1 l2 : list A) : l1 `sublist_of` l2 → length l2 = length l1 → l1 = l2.
Proof.
  induction 1 as [|x l1 l2 H IH|x l1 l2 H IH]; cbn; intros E; [done|f_equal; auto|].
  apply sublist_length in H. lia.
Qed.

Section outbox.
Context {C : Type} (try_send : C → PendingPublish → C * bool).

Lemma u32_wrap_add_l a b : u32_wrap a ⊞ b = u32_wrap (a + b).
Proof. unfold u32_wrapping_add, u32_wrap. by rewrite Zplus_mod_idemp_l. Qed.

Lemma send_all_spec queued c (b : Outbox (C := C)) k :
  client b = Some c → dropped b = u32_wrap (Z.of_nat k) →
  send_all try_send queued b =
    mkOutbox (Some (snd (hand_all try_send c queued))) (pending b) (depth b)
      (u32_wrap (Z.of_nat (k + fst (hand_all try_send c queued)))).
Proof.
  revert c b k. induction queued as [|m queued IH]; intros c b k Hc Hd.
  - destruct b; cbn in *; subst. by rewrite Nat.add_0_r.
  - cbn. rewrite Hc. unfold send_to. destruct (try_send c m) as [c' taken].
    destruct (hand_all try_send c' queued) as [n c''] eqn:Eh.
    destruct taken.
    + rewrite (IH c' _ k) by done. by rewrite Eh.
    + rewrite (IH c' _ (S k)); [|done|]; rewrite ?Eh; cbn.
      * by rewrite Nat.add_succ_r.
      * rewrite Hd, u32_wrap_add_l. f_equal. lia.
Qed.

Definition outbox_inv (d : nat) (ops : list (Op (C := C))) (b : Outbox (C := C)) (l : Log) : Prop :=
  depth b = d ∧ (length (pending b) ≤ d)%nat ∧ (is_attached b = true → pending b = []) ∧
  dropped b = u32_wrap (Z.of_nat (refused l + evicted l)) ∧
  (handed l ++ pending b) `sublist_of` offered l ∧
  length (offered l) = (length (handed l ++ pending b) + evicted l)%nat ∧
  (Forall (λ op, ∀ m, op ≠ OpPublish m) ops → evicted l = 0%nat).

(** A message handed to an attached client. *)
Lemma send_inv d ops b l c m op :
  outbox_inv d ops b l → client b = Some c → (op = OpPublish m ∨ op = OpPublishWaiting m) →
  outbox_inv d (ops ++ [op]) (send_to try_send c m b) (log_op try_send op b l).
Proof.
  intros (Hd & Hl & Ha & Hdr & Hs & Hn & He) Hc Hop.
  assert (pending b = []) as Hp by (apply Ha; unfold is_attached; by rewrite Hc).
  pose proof (send_all_spec [m] c b (refused l + evicted l) Hc Hdr) as E. cbn in E.
  rewrite Hc in E. destruct (try_send c m) as [c' taken] eqn:Et.
  assert (log_op try_send op b l =
          mkLog (offered l ++ [m]) (handed l ++ [m])
            (refused l + fst (hand_all try_send c [m])) (evicted l)) as ->
    by (destruct Hop as [-> | ->]; cbn; by rewrite Hc).
  cbn. rewrite Et. cbn in *.
  assert (∀ x, send_all try_send [] x = x) as Hnil by (intros x; by cbn).
  rewrite Hp, app_nil_r in Hs, Hn.
  unfold outbox_inv. rewrite E. cbn. rewrite Hp. repeat split; try done.
  - cbn. lia.
  - do 2 f_equal. destruct taken; lia.
  - rewrite app_nil_r. by apply sublist_app.
  - rewrite app_nil_r, !length_app. cbn. lia.
  - intros [Hf _]%Forall_app. auto.
Qed.

(** A message queued while there is room. *)
Lemma push_inv d ops b l m op :
  outbox_inv d ops b l → client b = None → (length (pending b) < d)%nat →
  (op = OpPublish m ∨ op = OpPublishWaiting m) →
  outbox_inv d (ops ++ [op]) (push m b) (log_op try_send op b l).
Proof.
  intros (Hd & Hl & Ha & Hdr & Hs & Hn & He) Hc Hroom Hop.
  assert (log_op try_send op b l = mkLog (offered l ++ [m]) (handed l) (refused l) (evicted l)) as ->.
  { destruct Hop as [-> | ->]; cbn; rewrite Hc; [|done].
    by destruct (Nat.leb_spec (depth b) (length (pending b))); [lia|]. }
  unfold outbox_inv, is_attached. cbn. rewrite Hc, !app_assoc, !length_app.
  repeat split; try done; cbn in *.
  - lia.
  - by apply sublist_app.
  - rewrite Hn, !length_app. cbn. lia.
  - intros [Hf _]%Forall_app. auto.
Qed.

(** A full queue of the synchronous policy loses its oldest message. *)
Lemma evict_inv d ops b l m :
  outbox_inv d ops b l → client b = None → (0 < d)%nat → (d ≤ length (pending b))%nat →
  outbox_inv d (ops ++ [OpPublish m]) (publish try_send m b) (log_op try_send (OpPublish m) b l).
Proof.
  intros (Hd & Hl & Ha & Hdr & Hs & Hn & He) Hc Hpos Hfull.
  unfold publish. cbn. rewrite Hc.
  destruct (Nat.leb_spec (depth b) (length (pending b))); [|lia].
  destruct (pending b) as [|p rest] eqn:Hp; [cbn in *; lia|].
  unfold outbox_inv, is_attached. cbn in *. rewrite Hc, !length_app. rewrite length_app in Hn.
  repeat split; try done; cbn in *.
  - lia.
  - rewrite Hdr, u32_wrap_add_l. f_equal. lia.
  - rewrite app_assoc. apply sublist_app; [|done]. etrans; [|exact Hs].
    apply sublist_app; [done|by constructor].
  - rewrite ?length_app. cbn. lia.
  - intros [_ Hf]%Forall_app. apply Forall_cons in Hf as [Hf _]. by destruct (Hf m).
Qed.

Lemma op_inv d ops b l op b' :
  (0 < d)%nat → outbox_inv d ops b l → apply_op try_send op b = Some b' →
  outbox_inv d (ops ++ [op]) b' (log_op try_send op b l).
Proof.
  intros Hpos Hi. pose proof Hi as (Hd & Hl & Ha & Hdr & Hs & Hn & He).
  destruct op as [c|m|m|]; cbn [apply_op].
  - intros [= <-]. unfold attach.
    rewrite (send_all_spec _ c _ (refused l + evicted l)) by done.
    unfold outbox_inv. cbn. rewrite app_nil_r. repeat split; try done; cbn.
    + lia.
    + do 2 f_equal. lia.
    + intros [Hf _]%Forall_app. auto.
  - intros [= <-]. destruct (client b) as [c|] eqn:Hc.
    + unfold publish. rewrite Hc. by eapply send_inv; eauto.
    + destruct (Nat.lt_ge_cases (length (pending b)) d).
      * unfold publish. rewrite Hc. destruct (Nat.leb_spec (depth b) (length (pending b))); [lia|].
        apply push_inv; eauto.
      * by apply evict_inv.
  - unfold publish_waiting_round. destruct (client b) as [c|] eqn:Hc.
    + intros [= <-]. by eapply send_inv; eauto.
    + destruct (Nat.ltb_spec (length (pending b)) (depth b)); [|done]. intros [= <-].
      apply push_inv; eauto. lia.
  - intros [= <-]. unfold outbox_inv. cbn. repeat split; try done.
    intros [Hf _]%Forall_app. auto.
Qed.

Lemma run_inv d ops b l : (0 < d)%nat → outbox_run try_send d ops b l → outbox_inv d ops b l.
Proof.
  intros Hd. induction 1 as [|ops b l op b' Hr IH Ho].
  - repeat split; cbn; try done; lia.
  - by apply op_inv.
Qed.

(** the outbox is a FIFO that accounts for every message.  In every run, of any clients,
    the messages handed over so far followed by the queued ones are the offered ones in
    order, less exactly the evicted ones; evictions and refusals are what [dropped] counts;
    the queue keeps its depth and is empty while a client is attached; and when every
    publisher waits nothing is evicted: the sequence is complete. *)
Lemma outbox_fifo d ops b l :
  (0 < d)%nat → outbox_run try_send d ops b l →
  (handed l ++ pending b) `sublist_of` offered l ∧
  length (offered l) = (length (handed l ++ pending b) + evicted l)%nat ∧
  dropped b = u32_wrap (Z.of_nat (refused l + evicted l)) ∧
  (length (pending b) ≤ d)%nat ∧ (is_attached b = true → pending b = []) ∧
  (Forall (λ op, ∀ m, op ≠ OpPublish m) ops → handed l ++ pending b = offered l).
Proof.
  intros Hd Hr. destruct (run_inv _ _ _ _ Hd Hr) as (_ & Hl & Ha & Hdr & Hs & Hn & He).
  repeat split; auto. intros Hf. rewrite (He Hf), Nat.add_0_r in Hn.
  by apply sublist_full.
Qed.

(** The waiting policy waits exactly while no round can complete. *)
Lemma waiting_round_has_room m b : is_Some (publish_waiting_round try_send m b) ↔ has_room b = true.
Proof.
  unfold publish_waiting_round, has_room. destruct (client b); [by split|].
  destruct (_ <? _)%nat; [by split|]. split; [by intros []|done].
Qed.
End outbox.

(** ** A closed instance: a client that takes every second message *)

Definition flip_send (c : bool) (_ : PendingPublish) : bool * bool := (negb c, c).
Definition msg (t : string) : PendingPublish := mkPublish t [] AtLeastOnce false.

Definition sample_run : list (Op (C := bool)) :=
  [OpPublishWaiting (msg "a"); OpPublish (msg "b"); OpPublish (msg "c"); OpAttach true;
   OpPublishWaiting (msg "d")].

Definition run_ops (d : nat) (ops : list (Op (C := bool))) : option (Outbox (C := bool) * Log) :=
  foldl (λ st op, '(b, l) ← st; b' ← apply_op flip_send op b; Some (b', log_op flip_send op b l))
    (Some (Outbox_new d, mkLog [] [] 0 0)) ops.

Lemma run_ops_sound d ops b l : run_ops d ops = Some (b, l) → outbox_run flip_send d ops b l.
Proof.
  revert b l. induction ops as [|op ops IH] using rev_ind; intros b l.
  - intros [= <- <-]. constructor.
  - unfold run_ops. rewrite foldl_app. cbn. fold (run_ops d ops).
    destruct (run_ops d ops) as [[b0 l0]|]; [|done]. cbn.
    destruct (apply_op flip_send op b0) as [b'|] eqn:E; [|done]. cbn. intros [= <- <-].
    constructor; auto.
Qed.

Lemma outbox_fifo_witness :
  ∃ b l, run_ops 2 sample_run = Some (b, l) ∧
    (handed l ++ pending b) `sublist_of` offered l ∧ handed l = [msg "b"; msg "c"; msg "d"] ∧
    evicted l = 1%nat.
Proof.
  eexists _, _. split; [vm_compute; reflexivity|]. split; [|by split].
  refine (proj1 (outbox_fifo flip_send 2 sample_run _ _ _ (run_ops_sound 2 sample_run _ _ _))).
  - lia.
  - vm_compute. reflexivity.
Defined.
