(* ===== verification/MqttAcks.v ===== *)
(** * MqttAcks: correlation of acknowledged publishes ([PendingAcks] and [AckWaiter] of
    [mqtt/mod.rs])

    A slot is shared between the registry and the waiter that blocks on it, so slots live in
    a store of their own.  Every operation runs under the registry lock; [wait] reads its
    slot and cancels its id in two steps, since it releases the slot in between. *)
From S2P Require Import Prelude.
Open Scope Z_scope.

Definition MessageId : Type := Z.

Inductive AckOutcome := Acked | AckDisconnected.

#[export] Instance AckOutcome_eq_dec : EqDecision AckOutcome.
Proof. solve_decision. Defined.

Definition AckSlot : Type := nat.

Record PendingAcks := mkAcks {
  waiters : gmap MessageId AckSlot;
  early : gmap MessageId AckOutcome;
  slots : list (option AckOutcome) }.

Record AckWaiter := mkWaiter { w_id : MessageId; w_slot : AckSlot }.

Definition PendingAcks_new : PendingAcks := mkAcks ∅ ∅ [].

Definition register (id : MessageId) (p : PendingAcks) : AckWaiter * PendingAcks :=
  let slot := length (slots p) in
  (mkWaiter id slot,
   match early p !! id with
   | Some outcome => mkAcks (waiters p) (delete id (early p)) (slots p ++ [Some outcome])
   | None => mkAcks (<[id := slot]> (waiters p)) (early p) (slots p ++ [None])
   end).

Definition fill (slot : AckSlot) (outcome : AckOutcome) (p : PendingAcks) : PendingAcks :=
  mkAcks (waiters p) (early p) (<[slot := Some outcome]> (slots p)).

Definition resolve (id : MessageId) (outcome : AckOutcome) (p : PendingAcks) : PendingAcks :=
  match waiters p !! id with
  | Some slot => fill slot outcome (mkAcks (delete id (waiters p)) (early p) (slots p))
  | None => mkAcks (waiters p) (<[id := outcome]> (early p)) (slots p)
  end.

Definition fail_all (outcome : AckOutcome) (p : PendingAcks) : PendingAcks :=
  let drained := (map_to_list (waiters p)).*2 in
  foldl (λ p slot, fill slot outcome p) (mkAcks ∅ ∅ (slots p)) drained.

Definition cancel (id : MessageId) (p : PendingAcks) : PendingAcks :=
  mkAcks (delete id (waiters p)) (delete id (early p)) (slots p).

(** What [wait] returns when it stops waiting: the slot, [None] after a timeout. *)
Definition wait_result (w : AckWaiter) (p : PendingAcks) : option AckOutcome :=
  default None (slots p !! w_slot w).

(** ** Runs *)

Inductive Event :=
| Register (id : MessageId)
| Resolve (id : MessageId) (outcome : AckOutcome)
| FailAll (outcome : AckOutcome)
| Cancel (id : MessageId).

Definition apply_event (p : PendingAcks) (e : Event) : PendingAcks :=
  match e with
  | Register id => snd (register id p)
  | Resolve id outcome => resolve id outcome p
  | FailAll outcome => fail_all outcome p
  | Cancel id => cancel id p
  end.

Definition run (es : list Event) : PendingAcks := foldl apply_event PendingAcks_new es.

(** ** What a run means for one message id *)

(** How one event changes what is known of [id]: whether a publisher waits for it, and the
    outcome kept for the next publisher. *)
Definition id_step (id : MessageId) (st : bool * option AckOutcome) (e : Event) :
    bool * option AckOutcome :=
  let '(waiting, kept) := st in
  match e with
  | Register i =>
      if decide (i = id) then
        match kept with Some _ => (waiting, None) | None => (true, None) end
      else st
  | Resolve i outcome =>
      if decide (i = id) then if waiting then (false, kept) else (false, Some outcome) else st
  | FailAll _ => (false, None)
  | Cancel i => if decide (i = id) then (false, None) else st
  end.

Definition id_after (id : MessageId) (es : list Event) : bool * option AckOutcome :=
  foldl (id_step id) (false, None) es.

(** The outcome of a publisher that waits for [id] while [es] happen. *)
Fixpoint first_outcome (id : MessageId) (es : list Event) : option AckOutcome :=
  match es with
  | [] => None
  | Register i :: es => if decide (i = id) then None else first_outcome id es
  | Resolve i outcome :: es => if decide (i = id) then Some outcome else first_outcome id es
  | FailAll outcome :: _ => Some outcome
  | Cancel i :: es => if decide (i = id) then None else first_outcome id es
  end.

(** ** what an acknowledged publish is told *)

Lemma run_snoc es e : run (es ++ [e]) = apply_event (run es) e.
Proof. unfold run. by rewrite foldl_app. Qed.

Lemma id_after_snoc id es e : id_after id (es ++ [e]) = id_step id (id_after id es) e.
Proof. unfold id_after. by rewrite foldl_app. Qed.

Lemma fail_all_fields outcome p :
  waiters (fail_all outcome p) = ∅ ∧ early (fail_all outcome p) = ∅ ∧
  length (slots (fail_all outcome p)) = length (slots p) ∧
  ∀ s : AckSlot, slots (fail_all outcome p) !! s =
       if decide (s ∈ (map_to_list (waiters p)).*2) then
         (λ _, Some outcome) <$> slots p !! s
       else slots p !! s.
Proof.
  unfold fail_all. cbv zeta. generalize ((map_to_list (waiters p)).*2). intros l.
  set (p0 := mkAcks ∅ ∅ (slots p)).
  assert (waiters p0 = ∅ ∧ early p0 = ∅ ∧ slots p0 = slots p) as (Hw & He & Hs) by done.
  rewrite <- Hs. clearbody p0. clear Hs. revert p0 Hw He.
  induction l as [|x l IH]; intros p0 Hw He; cbn.
  - split; [done|]. split; [done|]. split; [done|]. intros s. by rewrite decide_False by (by apply not_elem_of_nil).
  - destruct (IH (fill x outcome p0)) as (-> & -> & Hlen & Hl); [done|done|].
    split; [done|]. split; [done|]. split; [by rewrite Hlen; cbn; rewrite length_insert|].
    intros s. rewrite Hl. cbn.
    destruct (decide (s = x)) as [->|Hne].
    + rewrite (decide_True (P := x ∈ x :: l)) by (by left).
      destruct (slots p0 !! x) eqn:E.
      * rewrite list_lookup_insert_eq by (by eapply lookup_lt_Some). by destruct (decide _).
      * rewrite list_insert_ge by (by apply lookup_ge_None). rewrite E. by destruct (decide _).
    + rewrite list_lookup_insert_ne by done.
      destruct (decide (s ∈ l)) as [Hin|Hn];
        [rewrite (decide_True (P := s ∈ x :: l)) by (by right)
        |rewrite (decide_False (P := s ∈ x :: l)) by (by rewrite not_elem_of_cons)]; done.
Qed.

(** Slots of waiters are distinct and allocated, and nothing is kept for a waited id. *)
Definition slots_ok (p : PendingAcks) : Prop :=
  (∀ id s, waiters p !! id = Some s → (s < length (slots p))%nat) ∧
  (∀ id id' s, waiters p !! id = Some s → waiters p !! id' = Some s → id = id') ∧
  (∀ id s, waiters p !! id = Some s → early p !! id = None).

Lemma apply_event_slots_ok p e : slots_ok p → slots_ok (apply_event p e).
Proof.
  intros (Hlt & Hinj & Hdis). destruct e as [i|i o|o|i]; cbn.
  - destruct (early p !! i) eqn:Ee; cbn; (split; [|split]); cbn; rewrite ?length_app; cbn.
    + intros id s Hs. apply Hlt in Hs. lia.
    + done.
    + intros id s Hs. rewrite lookup_delete_None. right. by eapply Hdis.
    + intros id s. rewrite lookup_insert_Some. intros [[_ <-]|[_ Hs%Hlt]]; lia.
    + intros id id' s. rewrite !lookup_insert_Some.
      intros [[<- <-]|[_ Hs]] [[<- E]|[_ Hs']]; auto; [apply Hlt in Hs'|apply Hlt in Hs|]; try lia.
      by eapply Hinj.
    + intros id s. rewrite lookup_insert_Some. intros [[<- _]|[_ Hs]]; [done|by eapply Hdis].
  - unfold resolve. destruct (waiters p !! i) eqn:Ew; cbn; (split; [|split]); cbn; rewrite ?length_insert.
    + intros id s. rewrite lookup_delete_Some. intros [_ ?]. by eapply Hlt.
    + intros id id' s. rewrite !lookup_delete_Some. intros [_ ?] [_ ?]. by eapply Hinj.
    + intros id s. rewrite lookup_delete_Some. intros [_ ?]. by eapply Hdis.
    + done.
    + done.
    + intros id s Hs. rewrite lookup_insert_ne by congruence. by eapply Hdis.
  - destruct (fail_all_fields o p) as (Hw & _). unfold slots_ok. rewrite Hw.
    split; [|split]; intros; simplify_map_eq.
  - split; [|split]; cbn.
    + intros id s. rewrite lookup_delete_Some. intros [_ ?]. by eapply Hlt.
    + intros id id' s. rewrite !lookup_delete_Some. intros [_ ?] [_ ?]. by eapply Hinj.
    + intros id s. rewrite lookup_delete_Some, lookup_delete_None. intros [_ ?]. right. by eapply Hdis.
Qed.

Lemma run_slots_ok es : slots_ok (run es).
Proof.
  induction es as [|e es IH] using rev_ind; [split; [|split]; intros; simplify_map_eq|].
  rewrite run_snoc. by apply apply_event_slots_ok.
Qed.

(** The maps are what the events of each id say. *)
Lemma run_id id es :
  bool_decide (is_Some (waiters (run es) !! id)) = fst (id_after id es) ∧
  early (run es) !! id = snd (id_after id es) ∧
  (fst (id_after id es) = true → snd (id_after id es) = None).
Proof.
  induction es as [|e es (Hw & He & Hx)] using rev_ind; [by split; [|split]|].
  rewrite run_snoc, id_after_snoc. destruct (id_after id es) as [w k]. cbn in Hw, He, Hx.
  destruct e as [i|i o|o|i]; cbn.
  - destruct (decide (i = id)) as [->|Hne].
    + rewrite He. destruct k; cbn; rewrite ?lookup_delete_eq, ?lookup_insert_eq; auto.
    + destruct (early (run es) !! i); cbn;
        rewrite ?lookup_delete_ne, ?lookup_insert_ne by done; auto.
  - unfold resolve. destruct (decide (i = id)) as [->|Hne].
    + destruct w.
      * apply bool_decide_eq_true in Hw as [s E]. rewrite E. cbn.
        by rewrite lookup_delete_eq, He, Hx.
      * apply bool_decide_eq_false, eq_None_not_Some in Hw. rewrite Hw. cbn.
        by rewrite Hw, lookup_insert_eq.
    + destruct (waiters (run es) !! i); cbn;
        rewrite ?lookup_delete_ne, ?lookup_insert_ne by done; auto.
  - destruct (fail_all_fields o (run es)) as (-> & -> & _). by rewrite !lookup_empty.
  - destruct (decide (i = id)) as [->|Hne]; cbn;
      rewrite ?lookup_delete_eq, ?lookup_delete_ne by done; auto.
Qed.

(** ** The outcome of one waiter *)

(** A slot that no waiter holds keeps its value. *)
Lemma apply_event_other_slot p e s :
  slots_ok p → (s < length (slots p))%nat → (∀ id, waiters p !! id ≠ Some s) →
  slots (apply_event p e) !! s = slots p !! s ∧
  (∀ id, waiters (apply_event p e) !! id ≠ Some s).
Proof.
  intros (Hlt & _) Hs Hno. destruct e as [i|i o|o|i]; cbn.
  - destruct (early p !! i); cbn; rewrite lookup_app_l by done; (split; [done|]); [done|].
    intros id. rewrite lookup_insert_Some. intros [[_ E]|[_ E]]; [lia|by apply (Hno id)].
  - unfold resolve. destruct (waiters p !! i) as [s'|] eqn:E; cbn; [|done].
    assert (s' ≠ s) by (intros ->; by apply (Hno i)).
    rewrite list_lookup_insert_ne by done. split; [done|].
    intros id. rewrite lookup_delete_Some. intros [_ Hd]. by apply (Hno id).
  - destruct (fail_all_fields o p) as (-> & _ & _ & Hl). rewrite Hl. split; [|by intros id].
    rewrite decide_False; [done|].
    rewrite list_elem_of_fmap. intros ([id s'] & -> & Hin%elem_of_map_to_list). by apply (Hno id).
  - split; [done|]. intros id. rewrite lookup_delete_Some. intros [_ Hd]. by apply (Hno id).
Qed.

Lemma other_slot_run p es s :
  slots_ok p → (s < length (slots p))%nat → (∀ id, waiters p !! id ≠ Some s) →
  slots (foldl apply_event p es) !! s = slots p !! s.
Proof.
  revert p. induction es as [|e es IH]; intros p Hok Hs Hno; [done|]. cbn.
  destruct (apply_event_other_slot p e s Hok Hs Hno) as [E Hno'].
  rewrite IH; [done|by apply apply_event_slots_ok| |done].
  apply lookup_lt_is_Some. rewrite E. by apply lookup_lt_is_Some.
Qed.

(** A waiter's slot gets the first outcome for its id. *)
Lemma waiting_slot_run p es id s :
  slots_ok p → waiters p !! id = Some s → slots p !! s = Some None →
  slots (foldl apply_event p es) !! s = Some (first_outcome id es).
Proof.
  revert p. induction es as [|e es IH]; intros p Hok Hw Hs; [done|].
  pose proof (apply_event_slots_ok p e Hok) as Hok'.
  pose proof Hok as (Hlt & Hinj & Hdis). pose proof (Hlt _ _ Hw) as Hls.
  assert (∀ i, i ≠ id → waiters p !! i ≠ Some s) as Hne by (intros i Hi E; by apply Hi, (Hinj _ _ s)).
  destruct e as [i|i o|o|i]; cbn [foldl first_outcome].
  - cbn in *. destruct (decide (i = id)) as [->|Hi].
    + rewrite (Hdis _ _ Hw) in *. cbn in *. rewrite other_slot_run; cbn; auto.
      * by rewrite lookup_app_l.
      * rewrite length_app. lia.
      * intros i. rewrite lookup_insert_Some. intros [[_ E]|[E ?]]; [lia|]. by apply (Hne i).
    + apply IH; [done| |]; destruct (early p !! i); cbn;
        rewrite ?lookup_app_l, ?lookup_insert_ne by done; auto.
  - cbn in *. unfold resolve in *. destruct (decide (i = id)) as [->|Hi].
    + rewrite Hw in *. cbn in *. rewrite other_slot_run; cbn; auto.
      * by apply list_lookup_insert_eq.
      * by rewrite length_insert.
      * intros i. rewrite lookup_delete_Some. intros [E ?]. by apply (Hne i).
    + specialize (Hne i Hi). apply IH; [done| |]; destruct (waiters p !! i) as [s'|]; cbn; auto.
      * by rewrite lookup_delete_ne.
      * rewrite list_lookup_insert_ne; [done|congruence].
  - destruct (fail_all_fields o p) as (Hw' & _ & Hlen & Hl).
    cbn in *. rewrite other_slot_run; [|done|by rewrite Hlen|intros i; by rewrite Hw', lookup_empty].
    rewrite Hl, decide_True, Hs; [done|].
    rewrite list_elem_of_fmap. exists (id, s). split; [done|]. by apply elem_of_map_to_list.
  - cbn in *. destruct (decide (i = id)) as [->|Hi].
    + rewrite other_slot_run; cbn; auto.
      intros i. rewrite lookup_delete_Some. intros [E ?]. by apply (Hne i).
    + apply IH; [done| |done]. cbn. by rewrite lookup_delete_ne.
Qed.

(** The slot that a registration hands out. *)
Lemma registered_slot id before after :
  wait_result (fst (register id (run before))) (run (before ++ Register id :: after)) =
  match early (run before) !! id with
  | Some outcome => Some outcome
  | None => first_outcome id after
  end.
Proof.
  pose proof (run_slots_ok before) as Hok.
  pose proof (apply_event_slots_ok _ (Register id) Hok) as Hok'. cbn [apply_event] in Hok'.
  destruct Hok as (Hlt & _). unfold wait_result, run at 2. rewrite foldl_app.
  cbn [foldl apply_event]. fold (run before). unfold register in *. cbn in *.
  destruct (early (run before) !! id) as [o|] eqn:E; cbn in *.
  - rewrite other_slot_run; cbn; auto; [by rewrite lookup_app_r, Nat.sub_diag|rewrite length_app; cbn; lia|].
    intros i Hi%Hlt. lia.
  - rewrite (waiting_slot_run _ _ id); cbn; auto; [by rewrite lookup_insert_eq|].
    by rewrite lookup_app_r, Nat.sub_diag.
Qed.

(** what an acknowledged publish is told is exact.  The publisher that registers [id]
    gets the outcome kept for [id], if the events before left one, and otherwise the first
    outcome for [id] after its registration: the broker's answer, a lost session, or none
    if another registration or a cancellation of the same id came first. *)
Lemma ack_outcome_exact id before after :
  wait_result (fst (register id (run before))) (run (before ++ Register id :: after)) =
  match snd (id_after id before) with
  | Some outcome => Some outcome
  | None => first_outcome id after
  end.
Proof. destruct (run_id id before) as (_ & He & _). by rewrite <- He, registered_slot. Qed.

(** The broker's late answer to a publish that timed out, or an answer nobody waits for, is
    not discarded: the next publisher of the same id is told at once that it was
    acknowledged, whatever becomes of its own message. *)
Lemma kept_answer_credits_next_publish id before after :
  fst (id_after id before) = false →
  wait_result (fst (register id (run (before ++ [Resolve id Acked]))))
    (run ((before ++ [Resolve id Acked]) ++ Register id :: after)) = Some Acked.
Proof.
  intros H. destruct (run_id id (before ++ [Resolve id Acked])) as (_ & He & _).
  rewrite id_after_snoc in He. destruct (id_after id before) as [w k]. cbn in H, He. subst w.
  rewrite decide_True in He by done. by rewrite registered_slot, He.
Qed.

(** The usual course, and the late answer. *)
Example ack_in_time :
  wait_result (fst (register 7 (run []))) (run [Register 7; Resolve 7 Acked; Cancel 7]) = Some Acked.
Proof. reflexivity. Qed.

Example ack_of_another_message :
  wait_result (fst (register 7 (run [Register 7; Cancel 7; Resolve 7 Acked])))
    (run [Register 7; Cancel 7; Resolve 7 Acked; Register 7]) = Some Acked.
Proof. vm_compute. reflexivity. Qed.
