(* ===== verification/MqttTopics.v ===== *)
(** * MqttTopics: validation, topic matching and small helpers of [mqtt/mod.rs]; [backoff.rs];
    that subscription filters follow the MQTT specification *)
From S2P Require Import Prelude Text Url MqttSession.
From Stdlib Require Import Ascii.
Open Scope Z_scope.

Definition connection_wait_iterations (timeout_ms : Z) : Z := (timeout_ms + 99) `div` 100.

Definition format_broker_url (host : string) (port : Z) : string :=
  "mqtt://" +:+ host +:+ ":" +:+ show_uint port.

(** ** Validation *)

Definition CLIENT_ID_MAX_LEN : Z := 23.
Definition TOPIC_MAX_LEN : Z := 65535.

Definition contains (c : ascii) (s : string) : bool := str_any (λ b, Ascii.eqb b c) s.
Definition NUL : ascii := byte_chr 0.

Definition validate_client_id (client_id : string) : result string unit :=
  if decide (client_id = "") then Err "MQTT client ID must not be empty"
  else if CLIENT_ID_MAX_LEN <? str_len client_id then
    Err "MQTT client ID exceeds the 23-byte MQTT 3.1.1 maximum"
  else Ok tt.

Definition validate_topic (topic : string) : result string unit :=
  if decide (topic = "") then Err "MQTT topic must not be empty"
  else if TOPIC_MAX_LEN <? str_len topic then Err "MQTT topic exceeds the 65535-byte maximum"
  else if contains NUL topic then Err "MQTT topic must not contain the NUL character"
  else Ok tt.

Definition validate_publish_topic (topic : string) : result string unit :=
  _ ← validate_topic topic;
  if contains "+" topic then Err "MQTT publish topic must not contain the '+' wildcard"
  else if contains "#" topic then Err "MQTT publish topic must not contain the '#' wildcard"
  else Ok tt.

Definition is_slash (b : ascii) : bool := Ascii.eqb b "/".

(** [bytes[i] == b'/'], for an index in range. *)
Definition slash_at (bytes : list ascii) (i : nat) : bool :=
  match bytes !! i with Some b => is_slash b | None => false end.

(** The loop over [bytes.iter().enumerate()]; [rest] is what is left from index [i]. *)
Fixpoint check_wildcards (bytes rest : list ascii) (i : nat) : result string unit :=
  match rest with
  | [] => Ok tt
  | b :: rest =>
      let before_ok := Nat.eqb i 0 || slash_at bytes (i - 1) in
      let is_last := Nat.eqb (i + 1) (length bytes) in
      if Ascii.eqb b "+" then
        let after_ok := is_last || slash_at bytes (i + 1) in
        if negb before_ok || negb after_ok then
          Err "MQTT subscribe filter '+' must occupy an entire level"
        else check_wildcards bytes rest (i + 1)
      else if Ascii.eqb b "#" then
        if negb is_last || negb before_ok then
          Err "MQTT subscribe filter '#' must be the last character and follow '/' or be sole"
        else check_wildcards bytes rest (i + 1)
      else check_wildcards bytes rest (i + 1)
  end.

Definition validate_subscribe_filter (filter : string) : result string unit :=
  _ ← validate_topic filter;
  let bytes := String.list_ascii_of_string filter in
  check_wildcards bytes bytes 0.

Definition validate_broker_host (host : string) : result string unit :=
  if decide (host = "") then Err "MQTT broker host must not be empty" else Ok tt.

Definition validate_broker_port (port : Z) : result string unit :=
  if port =? 0 then Err "MQTT broker port must not be 0" else Ok tt.

(** ** Topic matching *)

(** [str::split] on one ASCII character. *)
Fixpoint split (c : ascii) (s : string) : list string :=
  match s with
  | EmptyString => [EmptyString]
  | String a s =>
      if Ascii.eqb a c then EmptyString :: split c s
      else match split c s with
           | l :: ls => String a l :: ls
           | [] => [String a EmptyString]
           end
  end.

Definition starts_with (p s : string) : bool := bool_decide (is_Some (strip_prefix p s)).

Fixpoint match_levels (topic filter : list string) : bool :=
  match topic, filter with
  | [], [] => true
  | _ :: _, [] => false
  | [], f :: _ => bool_decide (f = "#")
  | t :: topic, f :: filter =>
      if decide (f = "#") then true
      else if decide (f = "+") then match_levels topic filter
      else if decide (t ≠ f) then false
      else match_levels topic filter
  end.

Definition topic_matches_filter (topic filter : string) : bool :=
  if starts_with "$" topic &&
     (bool_decide (filter = "#") || starts_with "+" filter || starts_with "/#" filter)
  then false
  else match_levels (split "/" topic) (split "/" filter).

(** ** Client ids *)

(** [char::len_utf8] of the character that starts with this byte. *)
Definition utf8_len (lead : ascii) : nat :=
  let b := byte_of lead in
  if b <? 128 then 1 else if b <? 224 then 2 else if b <? 240 then 3 else 4.

(** [for ch in device_name.chars()]: the byte length of the whole characters that fit. *)
Fixpoint fitting_len (fuel : nat) (s : string) (byte_len : nat) : nat :=
  match fuel, s with
  | S fuel, String lead _ =>
      let next := (byte_len + utf8_len lead)%nat in
      if CLIENT_ID_MAX_LEN <? Z.of_nat next then byte_len
      else fitting_len fuel (String.substring (utf8_len lead) (String.length s) s) next
  | _, _ => byte_len
  end.

Definition resolve_client_id (operator_id : option string) (device_name fallback : string) :
    result string string :=
  let derive :=
    let derived := String.substring 0 (fitting_len (String.length device_name) device_name 0) device_name in
    let chosen := if decide (derived = "") then fallback else derived in
    _ ← validate_client_id chosen;
    Ok chosen in
  match operator_id with
  | Some id => if decide (id = "") then derive else _ ← validate_client_id id; Ok id
  | None => derive
  end.

(** ** The event loop's connection state *)

Inductive MqttEvent := ME_Connected | ME_Disconnected | ME_ShutdownRequested.

Definition next_state (current : MqttConnectionState) (event : MqttEvent) :
    option MqttConnectionState :=
  match current, event with
  | MC_Connecting, ME_Connected => Some MC_Connected
  | MC_Connecting, ME_Disconnected => None
  | MC_Connecting, ME_ShutdownRequested => Some MC_ShuttingDown
  | MC_Connected, ME_Disconnected => Some MC_Disconnected
  | MC_Connected, ME_Connected => None
  | MC_Connected, ME_ShutdownRequested => Some MC_ShuttingDown
  | MC_Disconnected, ME_Connected => Some MC_Connected
  | MC_Disconnected, ME_Disconnected => None
  | MC_Disconnected, ME_ShutdownRequested => Some MC_ShuttingDown
  | MC_ShuttingDown, _ => None
  end.

(** ** [ExponentialBackoff] *)

Record ExponentialBackoff := mkBackoff { base_ms : Z; max_ms : Z; attempt : Z }.

Definition ExponentialBackoff_new (base max : Z) : ExponentialBackoff := mkBackoff base max 0.
Definition backoff_reset (b : ExponentialBackoff) : ExponentialBackoff := mkBackoff (base_ms b) (max_ms b) 0.

Definition u64_saturating_mul (a b : Z) : Z := Z.min (a * b) u64_max.

Definition backoff_next (b : ExponentialBackoff) : Z * ExponentialBackoff :=
  let shift := if attempt b <? 64 then Z.shiftl 1 (attempt b) else u64_max in
  let delay := Z.min (u64_saturating_mul (base_ms b) shift) (max_ms b) in
  (delay, mkBackoff (base_ms b) (max_ms b) (Z.min (attempt b + 1) u32_max)).

Fixpoint backoff_delays (n : nat) (b : ExponentialBackoff) : list Z :=
  match n with
  | O => []
  | S n => let '(d, b) := backoff_next b in d :: backoff_delays n b
  end.

(** ** subscription filters follow the MQTT specification (section 4.7) *)

(** ** The specification *)

(** No wildcard character. *)
Definition plain_level (l : string) : Prop := contains "+" l = false ∧ contains "#" l = false.

(** A level of a filter: [last] when no level follows. *)
Definition level_ok (last : bool) (l : string) : Prop :=
  plain_level l ∨ l = "+" ∨ l = "#" ∧ last = true.

Fixpoint levels_ok (ls : list string) : Prop :=
  match ls with
  | [] => True
  | l :: ls => level_ok (bool_decide (ls = [])) l ∧ levels_ok ls
  end.

(** A level of a topic list matches a filter. *)
Inductive level_match : list string → list string → Prop :=
| match_end : level_match [] []
| match_hash topic : level_match topic ["#"]
| match_plus t topic filter : level_match topic filter → level_match (t :: topic) ("+" :: filter)
| match_level t topic filter :
    t ≠ "+" → t ≠ "#" → level_match topic filter → level_match (t :: topic) (t :: filter).

(** A topic that starts with a dollar sign is not matched by a leading wildcard. *)
Definition hidden (topic : string) (filter : list string) : Prop :=
  starts_with "$" topic = true ∧ (head filter = Some "+" ∨ head filter = Some "#").

(** ** The filter check *)

(** [check_wildcards] with the previous byte instead of an index. *)
Definition sep (prev : option ascii) : bool :=
  match prev with None => true | Some b => is_slash b end.

Definition ends_level (rest : list ascii) : bool :=
  match rest with [] => true | b :: _ => is_slash b end.

Fixpoint scan (prev : option ascii) (rest : list ascii) : bool :=
  match rest with
  | [] => true
  | b :: rest =>
      (if Ascii.eqb b "+" then sep prev && ends_level rest
       else if Ascii.eqb b "#" then sep prev && bool_decide (rest = [])
       else true) && scan (Some b) rest
  end.

Lemma check_wildcards_scan pre rest :
  bool_decide (check_wildcards (pre ++ rest) rest (length pre) = Ok tt) = scan (last pre) rest.
Proof.
  revert pre. induction rest as [|b rest IH]; intros pre; [done|].
  assert (sep (last pre) = Nat.eqb (length pre) 0 || slash_at (pre ++ b :: rest) (length pre - 1)) as Hb.
  { destruct pre as [|x pre _] using rev_ind; [done|]. rewrite last_snoc, length_app. cbn.
    rewrite Nat.add_comm. cbn. unfold slash_at. rewrite Nat.sub_0_r, <- app_assoc.
    change ([x] ++ b :: rest) with (x :: b :: rest). by rewrite list_lookup_middle. }
  assert (Nat.eqb (length pre + 1) (length (pre ++ b :: rest)) = bool_decide (rest = [])) as Hl.
  { rewrite length_app. destruct rest; cbn; [by apply Nat.eqb_eq|]. apply Nat.eqb_neq. lia. }
  assert (ends_level rest = bool_decide (rest = []) || slash_at (pre ++ b :: rest) (length pre + 1)) as Ha.
  { unfold slash_at. rewrite lookup_app_r by lia.
    replace (length pre + 1 - length pre)%nat with 1%nat by lia. by destruct rest. }
  specialize (IH (pre ++ [b])). rewrite last_snoc, length_app, <- app_assoc in IH. cbn in IH.
  cbn [check_wildcards scan]. rewrite <- IH, Hb, Ha, Hl.
  destruct (Nat.eqb _ 0 || _), (bool_decide (rest = [])) , (slash_at _ (length pre + 1)),
    (Ascii.eqb b "+"), (Ascii.eqb b "#"); try done.
Qed.

Lemma split_cons c s : ∃ l ls, split c s = l :: ls.
Proof.
  destruct s as [|a s]; cbn; [by eexists _, _|].
  destruct (Ascii.eqb a c); [by eexists _, _|]. destruct (split c s); by eexists _, _.
Qed.

Lemma split_head c s l ls : split c s = l :: ls →
  l = "" ↔ match s with EmptyString => True | String a _ => a = c end.
Proof.
  destruct s as [|a s]; cbn; [by intros [= <- _]|].
  destruct (Ascii.eqb_spec a c) as [->|Hne]; [by intros [= <- _]|].
  destruct (split c s); intros [= <- _]; done.
Qed.

Lemma split_single c s l : split c s = [l] → l = s.
Proof.
  revert l. induction s as [|a s IH]; intros l; cbn; [by intros [= <-]|].
  destruct (Ascii.eqb a c); [destruct (split_cons c s) as (x & y & ->); done|].
  destruct (split_cons c s) as (x & y & E). rewrite E. intros [= <- ->].
  f_equal. by apply IH.
Qed.

Lemma plain_level_cons a l :
  a ≠ "+"%char → a ≠ "#"%char → plain_level (String a l) ↔ plain_level l.
Proof.
  intros H1 H2. unfold plain_level, contains. cbn.
  destruct (Ascii.eqb_spec a "+"), (Ascii.eqb_spec a "#"); done.
Qed.

(** The first level is judged by what stands before it. *)
Definition first_ok (prev : option ascii) (ls : list string) : Prop :=
  match ls with
  | [] => True
  | l :: ls =>
      (if sep prev then level_ok (bool_decide (ls = [])) l else plain_level l) ∧ levels_ok ls
  end.

Lemma ends_level_head s l ls :
  split "/" s = l :: ls → ends_level (String.list_ascii_of_string s) = bool_decide (l = "").
Proof.
  intros E. pose proof (split_head _ _ _ _ E) as H. destruct s as [|a s]; cbn.
  - symmetry. by apply bool_decide_eq_true, H.
  - unfold is_slash. apply Bool.eq_iff_eq_true. rewrite bool_decide_eq_true, H. apply Ascii.eqb_eq.
Qed.

Lemma plain_level_nil : plain_level "".
Proof. done. Qed.

Lemma not_plain_plus l : ¬ plain_level (String "+" l).
Proof. by intros [? _]. Qed.

Lemma not_plain_hash l : ¬ plain_level (String "#" l).
Proof. by intros [_ ?]. Qed.

Lemma scan_levels prev s :
  scan prev (String.list_ascii_of_string s) = true ↔ first_ok prev (split "/" s).
Proof.
  revert prev. induction s as [|a s IH]; intros prev.
  - cbn. destruct (sep prev); (split; [|done]); intros _; repeat split. by left.
  - cbn [String.list_ascii_of_string scan split]. rewrite andb_true_iff, IH.
    destruct (split_cons "/" s) as (l & ls & E). pose proof (ends_level_head _ _ _ E) as Hend.
    assert (bool_decide (String.list_ascii_of_string s = []) = bool_decide (split "/" s = [""])) as Hlast.
    { destruct s as [|b s]; [done|]. cbn [String.list_ascii_of_string].
      rewrite (bool_decide_eq_false_2 (_ :: _ = [])) by done. symmetry.
      apply bool_decide_eq_false. intros E'. apply split_single in E'. done. }
    rewrite E in Hlast |- *.
    destruct (Ascii.eqb_spec a "/") as [->|Hs].
    { cbn. destruct (sep prev); unfold level_ok; intuition auto using plain_level_nil. }
    destruct (Ascii.eqb_spec a "+") as [->|Hp]; [|destruct (Ascii.eqb_spec a "#") as [->|Hh]].
    + rewrite Hend, andb_true_iff, bool_decide_eq_true. cbn [first_ok sep is_slash].
      unfold level_ok. pose proof (not_plain_plus l). destruct (sep prev); cbn.
      * split; [intros [[_ ->] [? ?]]; auto|].
        intros [[?|[[= ->]|[? _]]] ?]; done.
      * split; [by intros [[? _] _]|tauto].
    + rewrite Hlast, andb_true_iff, bool_decide_eq_true. cbn [first_ok sep is_slash].
      unfold level_ok. pose proof (not_plain_hash l). destruct (sep prev); cbn.
      * split; [intros [[_ [= -> ->]] [? ?]]; by auto|].
        intros [[?|[?|[[= ->] Hb%bool_decide_eq_true]]] ?]; try done. subst.
        auto using plain_level_nil.
      * split; [by intros [[? _] _]|tauto].
    + cbn. unfold is_slash. rewrite (proj2 (Ascii.eqb_neq a "/")) by done.
      rewrite <- (plain_level_cons a l) by done. unfold level_ok. destruct (sep prev); [|tauto].
      split; [tauto|]. intros [[?|[[= -> ->]|[[= -> ->] _]]] ?]; done.
Qed.

Lemma validate_subscribe_filter_spec filter :
  validate_subscribe_filter filter = Ok tt ↔
  validate_topic filter = Ok tt ∧ levels_ok (split "/" filter).
Proof.
  unfold validate_subscribe_filter. cbn. unfold result_bind.
  destruct (validate_topic filter) as [[]|e]; [|split; [done|by intros []]].
  pose proof (check_wildcards_scan [] (String.list_ascii_of_string filter)) as Hs. cbn in Hs.
  pose proof (scan_levels None filter) as Hl. rewrite <- Hs, bool_decide_eq_true in Hl.
  rewrite Hl. destruct (split_cons "/" filter) as (l & ls & ->). cbn. tauto.
Qed.

(** ** Matching *)

Lemma level_ok_last_hash ls : levels_ok ("#" :: ls) → ls = [].
Proof. intros [[[_ ?]|[?|[_ H%bool_decide_eq_true]]] _]; done. Qed.

Lemma match_levels_spec topic filter :
  Forall plain_level topic → levels_ok filter →
  match_levels topic filter = true ↔ level_match topic filter.
Proof.
  intros Ht. revert filter. induction Ht as [|t topic [Hp Hh] Ht IH]; intros [|f filter] Hf; cbn.
  - split; [constructor|done].
  - rewrite bool_decide_eq_true. split.
    + intros ->. apply level_ok_last_hash in Hf as ->. constructor.
    + by inversion 1.
  - split; [done|by inversion 1].
  - destruct (decide (f = "#")) as [->|Hnh].
    { apply level_ok_last_hash in Hf as ->. split; [constructor|done]. }
    destruct Hf as [_ Hf]. destruct (decide (f = "+")) as [->|Hnp].
    { rewrite IH by done. split; [by constructor|]. by inversion 1. }
    destruct (decide (t ≠ f)) as [Hne|Heq%dec_stable]; [split; [done|by inversion 1]|subst f].
    rewrite IH by done. split; [by constructor|]. by inversion 1.
Qed.

Lemma contains_split c d s :
  contains c s = false → Forall (λ l, contains c l = false) (split d s).
Proof.
  unfold contains. induction s as [|a s IH]; cbn; [by repeat constructor|].
  intros [Ha Hs]%orb_false_iff. specialize (IH Hs).
  destruct (Ascii.eqb a d); [by constructor|].
  destruct (split_cons d s) as (l & ls & E). rewrite E in *.
  apply Forall_cons in IH as [? ?]. constructor; [|done]. cbn. by rewrite Ha.
Qed.

Lemma publish_topic_plain topic :
  validate_publish_topic topic = Ok tt → Forall plain_level (split "/" topic).
Proof.
  unfold validate_publish_topic. cbn. unfold result_bind.
  destruct (validate_topic topic) as [[]|e]; [|done].
  destruct (contains "+" topic) eqn:Ep; [done|]. destruct (contains "#" topic) eqn:Eh; [done|].
  intros _. apply Forall_and. split; by apply contains_split.
Qed.

Lemma starts_with_char c s : starts_with (String c "") s = true ↔ ∃ r, s = String c r.
Proof.
  unfold starts_with. rewrite bool_decide_eq_true. destruct s as [|a s]; cbn.
  - split; [by intros []|by intros []].
  - destruct (Ascii.eqb_spec c a) as [->|Hne]; [split; [by exists s|by eexists]|].
    split; [by intros []|]. intros [r [= -> _]]. done.
Qed.

(** The leading wildcards of a valid filter, as the guard tests them. *)
Lemma leading_plus f :
  levels_ok (split "/" f) → starts_with "+" f = true ↔ head (split "/" f) = Some "+".
Proof.
  rewrite starts_with_char. destruct f as [|a f]; cbn.
  { intros _. split; [by intros []|done]. }
  destruct (Ascii.eqb_spec a "/") as [->|Hs]; [intros _; split; [by intros []|done]|].
  destruct (split_cons "/" f) as (l & ls & ->). intros [Hl _]. cbn. split.
  - intros [r [= -> ->]]. pose proof (not_plain_plus l).
    by destruct Hl as [?|[->|[? _]]].
  - intros [= -> ->]. by eexists.
Qed.

Lemma leading_hash f : levels_ok (split "/" f) → f = "#" ↔ head (split "/" f) = Some "#".
Proof.
  intros Hf. split; [by intros ->|].
  destruct (split_cons "/" f) as (l & ls & E). rewrite E in *. cbn. intros [= ->].
  apply level_ok_last_hash in Hf as ->. symmetry. by apply split_single in E.
Qed.

Lemma dollar_level topic filter :
  starts_with "$" topic = true → starts_with "/#" filter = true →
  match_levels (split "/" topic) (split "/" filter) = false.
Proof.
  intros [t ->]%starts_with_char. unfold starts_with. rewrite bool_decide_eq_true.
  destruct filter as [|a filter]; cbn [strip_prefix]; [by intros []|].
  destruct (Ascii.eqb_spec "/" a) as [<-|_]; [|by intros []]. intros _.
  cbn. destruct (split_cons "/" t) as (l & ls & ->). cbn.
  destruct (decide ("" = "#")); [done|]. destruct (decide ("" = "+")); [done|].
  by rewrite decide_True.
Qed.

(** subscription matching follows MQTT 3.1.1, section 4.7.  A filter is accepted exactly
    when it is a valid topic whose wildcards each fill a whole level, [#] only the last; and
    a valid topic matches an accepted filter exactly when its levels do, a plus standing for
    one level and a final hash for any number, unless the topic starts with a dollar sign
    and the filter with a wildcard. *)
Lemma topic_matching_exact topic filter :
  validate_publish_topic topic = Ok tt → validate_topic filter = Ok tt →
  (validate_subscribe_filter filter = Ok tt ↔ levels_ok (split "/" filter)) ∧
  (validate_subscribe_filter filter = Ok tt →
   topic_matches_filter topic filter = true ↔
   level_match (split "/" topic) (split "/" filter) ∧ ¬ hidden topic (split "/" filter)).
Proof.
  intros Ht%publish_topic_plain Hf. split; [rewrite validate_subscribe_filter_spec; tauto|].
  intros [_ Hok]%validate_subscribe_filter_spec.
  rewrite <- match_levels_spec by done. unfold topic_matches_filter, hidden.
  pose proof (dollar_level topic filter) as Hd. pose proof (leading_plus _ Hok) as Hp.
  pose proof (leading_hash _ Hok) as Hh. pose proof (bool_decide_eq_true (filter = "#")) as Hb.
  destruct (starts_with "$" topic); cbn; [|intuition congruence].
  destruct (bool_decide (filter = "#")), (starts_with "+" filter), (starts_with "/#" filter); cbn;
    try rewrite Hd by done; intuition congruence.
Qed.

Lemma topic_matching_exact_witness :
  topic_matches_filter "iot/dev/ota" "iot/+/#" = true ∧
  ¬ hidden "iot/dev/ota" (split "/" "iot/+/#").
Proof.
  split; [reflexivity|].
  refine (proj2 (proj1 (proj2 (topic_matching_exact "iot/dev/ota" "iot/+/#" _ _) _) _));
    vm_compute; reflexivity.
Defined.

(** ** Client ids and back-off *)

(** A resolved client id is one the broker must accept, and is the operator's, the fallback,
    or the start of the device name. *)
Lemma resolve_client_id_sound operator_id device_name fallback id :
  resolve_client_id operator_id device_name fallback = Ok id →
  validate_client_id id = Ok tt ∧
  (operator_id = Some id ∨ id = fallback ∨ ∃ n, id = String.substring 0 n device_name).
Proof.
  unfold resolve_client_id. set (derived := String.substring 0 _ _).
  assert (∀ chosen, (chosen = fallback ∨ chosen = derived) →
    (_ ← validate_client_id chosen; Ok chosen) = Ok (E := string) id →
    validate_client_id id = Ok tt ∧ (id = fallback ∨ ∃ n, id = String.substring 0 n device_name)) as Hd.
  { intros c Hc. cbn. unfold result_bind. destruct (validate_client_id c) as [[]|] eqn:E; [|done].
    intros [= <-]. split; [done|]. destruct Hc as [-> | ->]; eauto. }
  destruct operator_id as [i|]; [destruct (decide (i = "")) as [->|]|].
  - intros H. edestruct Hd as [? ?]; [|exact H|by eauto]. destruct (decide _); auto.
  - cbn. unfold result_bind. destruct (validate_client_id i) as [[]|] eqn:E; [|done].
    intros [= <-]. auto.
  - intros H. edestruct Hd as [? ?]; [|exact H|by eauto]. destruct (decide _); auto.
Qed.

(** The delays double up to the maximum, and stay there. *)
Lemma backoff_next_spec b :
  0 ≤ base_ms b ≤ u64_max → 0 ≤ max_ms b ≤ u64_max → 0 ≤ attempt b ≤ u32_max →
  fst (backoff_next b) = Z.min (base_ms b * 2 ^ attempt b) (max_ms b).
Proof.
  unfold u64_max, u32_max. intros Hb Hm Ha.
  cbn. unfold u64_saturating_mul, u64_max. destruct (Z.ltb_spec (attempt b) 64) as [H|H].
  - rewrite Z.shiftl_1_l. lia.
  - assert (2 ^ 64 ≤ 2 ^ attempt b) by (apply Z.pow_le_mono_r; lia).
    change (2 ^ 64) with 18446744073709551616 in *.
    destruct (decide (base_ms b = 0)) as [->|]; [lia|]. nia.
Qed.
