(* ===== verification/Crc32.v ===== *)
(** * Crc32: the CRC of the credential records ([provisioning/record.rs] of the esp-hal tier)

    Words are [Z] in 32 bits, bytes [Z] in 8. *)
From S2P Require Import Prelude.
Open Scope Z_scope.

Definition POLY : Z := 3988292384.

(** One turn of the inner loop of [crc32_table]. *)
Definition crc_bit (crc : Z) : Z :=
  if Z.testbit crc 0 then Z.lxor (Z.shiftr crc 1) POLY else Z.shiftr crc 1.

Definition crc_bits (crc : Z) : Z := Nat.iter 8 crc_bit crc.

Definition crc32_table : list Z := crc_bits <$> seqZ 0 256.

Definition CRC32_TABLE : list Z := Eval vm_compute in crc32_table.

(** [CRC32_TABLE[idx]], in range. *)
Definition table_at (idx : Z) : Z := CRC32_TABLE !!! Z.to_nat idx.

Definition crc_byte (crc b : Z) : Z :=
  Z.lxor (Z.shiftr crc 8) (table_at (Z.land (Z.lxor crc b) 255)).

Definition crc32 (data : list Z) : Z := Z.lxor (foldl crc_byte u32_max data) u32_max.

(** ** The reference: bit by bit, without a table *)

Definition crc_byte_spec (crc b : Z) : Z := crc_bits (Z.lxor crc b).
Definition crc32_spec (data : list Z) : Z := Z.lxor (foldl crc_byte_spec u32_max data) u32_max.

(** ** Arithmetic of words *)

Lemma table_computed : CRC32_TABLE = crc32_table.
Proof. vm_compute. reflexivity. Qed.

Lemma table_at_spec idx : 0 ≤ idx < 256 → table_at idx = crc_bits idx.
Proof.
  intros H. unfold table_at. rewrite table_computed. unfold crc32_table.
  apply list_lookup_total_correct. rewrite list_lookup_fmap.
  rewrite lookup_seqZ_lt by lia. by rewrite Z.add_0_l, Z2Nat.id by lia.
Qed.

Lemma is_u32_bits n : 0 ≤ n → is_u32 n ↔ ∀ i, 32 ≤ i → Z.testbit n i = false.
Proof.
  intros Hn. unfold is_u32, u32_max. split.
  - intros [_ H] i Hi. destruct (decide (n = 0)) as [->|]; [apply Z.bits_0|].
    apply Z.bits_above_log2; [lia|]. apply Z.log2_lt_pow2; [lia|].
    assert (2 ^ 32 ≤ 2 ^ i) by (apply Z.pow_le_mono_r; lia).
    change (2 ^ 32) with 4294967296 in *. lia.
  - intros H. split; [done|]. destruct (Z.le_gt_cases n 4294967295); [done|].
    destruct (decide (n = 0)) as [->|]; [lia|].
    assert (32 ≤ Z.log2 n) as Hl by (apply (Z.log2_le_mono 4294967296); lia).
    specialize (H _ Hl). rewrite Z.bit_log2 in H by lia. done.
Qed.

Lemma lxor_u32 a b : is_u32 a → is_u32 b → is_u32 (Z.lxor a b).
Proof.
  intros Ha Hb. pose proof Ha as [Ha0 _]. pose proof Hb as [Hb0 _].
  apply is_u32_bits; [by apply Z.lxor_nonneg; lia|]. intros i Hi.
  rewrite Z.lxor_spec, (proj1 (is_u32_bits a Ha0) Ha), (proj1 (is_u32_bits b Hb0) Hb) by done. done.
Qed.

Lemma shiftr_u32 a n : 0 ≤ n → is_u32 a → is_u32 (Z.shiftr a n).
Proof.
  unfold is_u32. intros Hn Ha. rewrite Z.shiftr_div_pow2 by done.
  assert (0 < 2 ^ n) by (by apply Z.pow_pos_nonneg).
  split; [apply Z.div_pos; lia|]. apply Z.div_le_upper_bound; [done|]. unfold u32_max in *. nia.
Qed.

Lemma crc_bit_u32 a : is_u32 a → is_u32 (crc_bit a).
Proof.
  intros. unfold crc_bit. destruct (Z.testbit a 0); [apply lxor_u32|]; try by apply shiftr_u32.
  by unfold is_u32, u32_max, POLY.
Qed.

Lemma crc_bits_u32 a : is_u32 a → is_u32 (crc_bits a).
Proof. intros. unfold crc_bits. do 8 (apply crc_bit_u32). done. Qed.

Lemma land_255 a : 0 ≤ Z.land a 255 < 256.
Proof. change 255 with (Z.ones 8). rewrite Z.land_ones by lia. apply Z.mod_pos_bound. lia. Qed.

Lemma crc_byte_u32 crc b : is_u32 crc → is_u32 (crc_byte crc b).
Proof.
  intros. unfold crc_byte. apply lxor_u32; [by apply shiftr_u32|].
  pose proof (land_255 (Z.lxor crc b)). rewrite table_at_spec by done.
  apply crc_bits_u32. unfold is_u32, u32_max. lia.
Qed.

(** ** The table-driven CRC is the bit-by-bit one *)

Lemma crc_bit_xor a b : crc_bit (Z.lxor a b) = Z.lxor (crc_bit a) (crc_bit b).
Proof.
  unfold crc_bit. rewrite Z.lxor_spec, Z.shiftr_lxor.
  destruct (Z.testbit a 0), (Z.testbit b 0); cbn [xorb];
    apply Z.bits_inj'; intros n Hn; rewrite !Z.lxor_spec;
    destruct (Z.testbit (Z.shiftr a 1) n), (Z.testbit (Z.shiftr b 1) n), (Z.testbit POLY n); done.
Qed.

Lemma crc_bits_xor a b : crc_bits (Z.lxor a b) = Z.lxor (crc_bits a) (crc_bits b).
Proof. unfold crc_bits. cbn [Nat.iter nat_rect]. by rewrite !crc_bit_xor. Qed.

(** Eight turns on a word without its low byte only shift it. *)
Lemma crc_bits_high a : Z.land a 255 = 0 → crc_bits a = Z.shiftr a 8.
Proof.
  intros H. assert (∀ i, 0 ≤ i < 8 → Z.testbit a i = false) as Hb.
  { intros i Hi. apply (f_equal (λ z, Z.testbit z i)) in H.
    rewrite Z.land_spec, Z.bits_0 in H. change 255 with (Z.ones 8) in H.
    rewrite Z.ones_spec_low in H by lia. by rewrite andb_true_r in H. }
  assert (∀ k, 0 ≤ k < 8 → crc_bit (Z.shiftr a k) = Z.shiftr a (k + 1)) as Hk.
  { intros k Hk. unfold crc_bit. rewrite Z.shiftr_spec, Z.shiftr_shiftr by lia.
    by rewrite Hb by lia. }
  unfold crc_bits. cbn [Nat.iter nat_rect]. rewrite <- (Z.shiftr_0_r a) at 1.
  by rewrite !Hk by lia.
Qed.

Lemma crc_byte_correct crc b : crc_byte crc b = crc_byte_spec crc b ∨ ¬ (0 ≤ b < 256).
Proof.
  destruct (decide (0 ≤ b < 256)) as [Hb|]; [left|by right].
  unfold crc_byte, crc_byte_spec. set (x := Z.lxor crc b).
  pose proof (land_255 x). rewrite table_at_spec by done.
  assert (x = Z.lxor (Z.ldiff x 255) (Z.land x 255)) as E.
  { apply Z.bits_inj'. intros n Hn. rewrite Z.lxor_spec, Z.ldiff_spec, Z.land_spec.
    by destruct (Z.testbit x n), (Z.testbit 255 n). }
  rewrite E at 2. rewrite crc_bits_xor. f_equal. rewrite crc_bits_high.
  - apply Z.bits_inj'. intros n Hn. rewrite !Z.shiftr_spec by lia. rewrite Z.ldiff_spec.
    change 255 with (Z.ones 8). rewrite Z.ones_spec_high by lia. unfold x. rewrite Z.lxor_spec.
    rewrite (Z.bits_above_log2 b (n + 8)); [by rewrite xorb_false_r, andb_true_r|lia|].
    destruct (decide (b = 0)) as [->|]; [cbn; lia|].
    apply Z.log2_lt_pow2; [lia|]. assert (2 ^ 8 ≤ 2 ^ (n + 8)) by (apply Z.pow_le_mono_r; lia).
    change (2 ^ 8) with 256 in *. lia.
  - apply Z.bits_inj'. intros n Hn. rewrite Z.land_spec, Z.ldiff_spec, Z.bits_0.
    by destruct (Z.testbit x n), (Z.testbit 255 n).
Qed.

Lemma crc32_is_reference data :
  Forall (λ b, 0 ≤ b < 256) data → crc32 data = crc32_spec data.
Proof.
  unfold crc32, crc32_spec. generalize u32_max at 1 3 as crc.
  induction data as [|b data IH]; intros crc Hd; [done|].
  apply Forall_cons in Hd as [Hb Hd]. cbn.
  destruct (crc_byte_correct crc b) as [->|]; [by apply IH|done].
Qed.

(** ** Every change of a single byte changes the CRC *)

Lemma table_top_nodup : NoDup ((λ t, Z.shiftr t 24) <$> CRC32_TABLE).
Proof. apply (bool_decide_unpack _). vm_compute. exact I. Qed.

Lemma table_top_inj i j :
  0 ≤ i < 256 → 0 ≤ j < 256 →
  Z.shiftr (table_at i) 24 = Z.shiftr (table_at j) 24 → i = j.
Proof.
  intros Hi Hj E.
  assert (length CRC32_TABLE = 256%nat) as Hlen by (vm_compute; reflexivity).
  assert (∀ k, 0 ≤ k < 256 →
    ((λ t, Z.shiftr t 24) <$> CRC32_TABLE) !! Z.to_nat k = Some (Z.shiftr (table_at k) 24)) as Hl.
  { intros k Hk. rewrite list_lookup_fmap, (list_lookup_lookup_total_lt CRC32_TABLE) by (rewrite Hlen; lia).
    done. }
  pose proof (NoDup_lookup _ (Z.to_nat i) (Z.to_nat j) _ table_top_nodup (Hl i Hi)) as H.
  rewrite Hl, E in H by done. specialize (H eq_refl). lia.
Qed.

Lemma shiftr_24_small a : is_u32 a → Z.shiftr (Z.shiftr a 8) 24 = 0.
Proof.
  unfold is_u32, u32_max. intros H. rewrite Z.shiftr_shiftr, Z.shiftr_div_pow2 by lia.
  apply Z.div_small. change (2 ^ (8 + 24)) with 4294967296. lia.
Qed.

Lemma crc_byte_index a b a' b' :
  is_u32 a → is_u32 a' → crc_byte a b = crc_byte a' b' →
  Z.land (Z.lxor a b) 255 = Z.land (Z.lxor a' b') 255 ∧ Z.shiftr a 8 = Z.shiftr a' 8.
Proof.
  intros Ha Ha' E. unfold crc_byte in E.
  set (i := Z.land (Z.lxor a b) 255) in *. set (j := Z.land (Z.lxor a' b') 255) in *.
  pose proof (land_255 (Z.lxor a b)) as Hi. pose proof (land_255 (Z.lxor a' b')) as Hj.
  fold i in Hi. fold j in Hj.
  assert (i = j) as Hij.
  { apply table_top_inj; [done|done|]. apply (f_equal (λ z, Z.shiftr z 24)) in E.
    by rewrite !Z.shiftr_lxor, !shiftr_24_small, !Z.lxor_0_l in E. }
  split; [done|]. rewrite Hij in E. apply (f_equal (λ z, Z.lxor z (table_at j))) in E.
  by rewrite !Z.lxor_assoc, Z.lxor_nilpotent, !Z.lxor_0_r in E.
Qed.

Lemma land_255_lxor_inj x a b :
  Z.land (Z.lxor x a) 255 = Z.land (Z.lxor x b) 255 → Z.land a 255 = Z.land b 255.
Proof.
  intros E. apply Z.bits_inj'. intros n Hn.
  apply (f_equal (λ z, Z.testbit z n)) in E. rewrite !Z.land_spec, !Z.lxor_spec in E.
  rewrite !Z.land_spec.
  by destruct (Z.testbit x n), (Z.testbit a n), (Z.testbit b n), (Z.testbit 255 n).
Qed.

Lemma land_255_small b : 0 ≤ b < 256 → Z.land b 255 = b.
Proof. intros. change 255 with (Z.ones 8). rewrite Z.land_ones by lia. by apply Z.mod_small. Qed.

(** The state after a byte tells the state before it, and the other way round the byte. *)
Lemma crc_byte_inj_state a a' b : is_u32 a → is_u32 a' → crc_byte a b = crc_byte a' b → a = a'.
Proof.
  intros Ha Ha' E. apply crc_byte_index in E as [Ei Es]; [|done|done].
  rewrite (Z.lxor_comm a), (Z.lxor_comm a') in Ei. apply land_255_lxor_inj in Ei.
  apply Z.bits_inj'. intros n Hn. destruct (Z.lt_ge_cases n 8) as [H|H].
  - apply (f_equal (λ z, Z.testbit z n)) in Ei. rewrite !Z.land_spec in Ei.
    change 255 with (Z.ones 8) in Ei. rewrite Z.ones_spec_low in Ei by lia.
    by rewrite !andb_true_r in Ei.
  - apply (f_equal (λ z, Z.testbit z (n - 8))) in Es. rewrite !Z.shiftr_spec in Es by lia.
    by replace (n - 8 + 8) with n in Es by lia.
Qed.

Lemma crc_byte_inj_byte a b b' :
  is_u32 a → 0 ≤ b < 256 → 0 ≤ b' < 256 → crc_byte a b = crc_byte a b' → b = b'.
Proof.
  intros Ha Hb Hb' E. apply crc_byte_index in E as [Ei _]; [|done|done].
  apply land_255_lxor_inj in Ei. by rewrite !land_255_small in Ei.
Qed.

Lemma crc_fold_u32 data crc : is_u32 crc → is_u32 (foldl crc_byte crc data).
Proof. revert crc. induction data as [|b data IH]; intros crc H; [done|]. by apply IH, crc_byte_u32. Qed.

Lemma crc_fold_inj data a a' :
  is_u32 a → is_u32 a' → foldl crc_byte a data = foldl crc_byte a' data → a = a'.
Proof.
  revert a a'. induction data as [|b data IH]; intros a a' Ha Ha' E; [done|].
  eapply crc_byte_inj_state; [done|done|]. by apply IH; [apply crc_byte_u32..|].
Qed.

Lemma u32_max_u32 : is_u32 u32_max.
Proof. done. Qed.

Lemma crc32_u32 data : is_u32 (crc32 data).
Proof. apply lxor_u32; [by apply crc_fold_u32|done]. Qed.

Lemma crc32_detects before after b b' :
  0 ≤ b < 256 → 0 ≤ b' < 256 → b ≠ b' →
  crc32 (before ++ b :: after) ≠ crc32 (before ++ b' :: after).
Proof.
  intros Hb Hb' Hne E. unfold crc32 in E. apply (f_equal (λ z, Z.lxor z u32_max)) in E.
  rewrite !Z.lxor_assoc, Z.lxor_nilpotent, !Z.lxor_0_r, !foldl_app in E. cbn in E.
  set (a := foldl crc_byte u32_max before) in *.
  assert (is_u32 a) as Ha by (by apply crc_fold_u32).
  apply crc_fold_inj in E; [|by apply crc_byte_u32..]. by apply crc_byte_inj_byte in E.
Qed.
