(* ===== verification/ProvConfig.v ===== *)
(** * ProvConfig: the provisioning configuration ([provisioning/config.rs], [profile.rs] and
    [ExtraField] of [form.rs] in juggler)

    A [heapless::String<N>] is a UTF-8 string of at most [N] bytes: the capacities are part
    of [wf_config]. *)
From Stdlib Require Import Ascii.
From S2P Require Import Prelude Text.
Open Scope Z_scope.

Definition SSID_MAX_LEN : Z := 32.
Definition PASSWORD_MAX_LEN : Z := 64.
Definition DEVICE_NAME_MAX_LEN : Z := 24.
Definition OTA_URL_MAX_LEN : Z := 128.
Definition EXTRA_FIELDS_MAX : nat := 8.
Definition EXTRA_KEY_MAX_LEN : Z := 13.
Definition EXTRA_VALUE_MAX_LEN : Z := 64.
Definition MQTT_HOST_MAX_LEN : Z := 64.
Definition MQTT_USER_MAX_LEN : Z := 64.
Definition MQTT_PASS_MAX_LEN : Z := 64.
Definition MQTT_CLIENT_ID_MAX_LEN : Z := 23.
Definition EUI_HEX_LEN : Z := 16.
Definition APP_KEY_HEX_LEN : Z := 32.

Inductive SchemaProfile := LorawanFieldDevice | WifiMqttDevice.

#[export] Instance SchemaProfile_eq_dec : EqDecision SchemaProfile.
Proof. solve_decision. Defined.

Definition SchemaProfile_as_str (p : SchemaProfile) : string :=
  match p with LorawanFieldDevice => "lorawan" | WifiMqttDevice => "wifi_mqtt" end.

Definition SchemaProfile_from_nvs_str (s : string) : option SchemaProfile :=
  if decide (s = "lorawan") then Some LorawanFieldDevice
  else if decide (s = "wifi_mqtt") then Some WifiMqttDevice
  else None.

Record LoraFields := mkLora { dev_eui_hex : string; join_eui_hex : string; app_key_hex : string }.

Record MqttFields := mkMqtt {
  mqtt_host : string; mqtt_port : Z;
  mqtt_username : option string; mqtt_password : option string; mqtt_client_id : option string }.

Record ExtraField := mkExtra { extra_key : string; extra_value : string }.

Record ProvisioningConfig := mkConfig {
  wifi_ssid : string; wifi_password : string; ota_url : string; device_name : string;
  lora : option LoraFields; mqtt : option MqttFields; extras : list ExtraField }.

#[export] Instance LoraFields_eq_dec : EqDecision LoraFields.
Proof. solve_decision. Defined.
#[export] Instance MqttFields_eq_dec : EqDecision MqttFields.
Proof. solve_decision. Defined.
#[export] Instance ExtraField_eq_dec : EqDecision ExtraField.
Proof. solve_decision. Defined.
#[export] Instance ProvisioningConfig_eq_dec : EqDecision ProvisioningConfig.
Proof. solve_decision. Defined.

Definition config_profile (c : ProvisioningConfig) : SchemaProfile :=
  match mqtt c with Some _ => WifiMqttDevice | None => LorawanFieldDevice end.

Definition config_ota_url (c : ProvisioningConfig) : option string :=
  if decide (ota_url c = "") then None else Some (ota_url c).

(** ** UTF-8, as [core::str::from_utf8] checks it *)

Definition in_range (lo hi b : Z) : bool := (lo <=? b) && (b <=? hi).
Definition continuation (b : Z) : bool := in_range 128 191 b.

Fixpoint utf8_valid (l : list Z) : bool :=
  match l with
  | [] => true
  | b0 :: l1 =>
      if b0 <? 128 then utf8_valid l1
      else
        match l1 with
        | [] => false
        | b1 :: l2 =>
            if in_range 194 223 b0 then continuation b1 && utf8_valid l2
            else
              match l2 with
              | [] => false
              | b2 :: l3 =>
                  if Z.eqb b0 224 then in_range 160 191 b1 && continuation b2 && utf8_valid l3
                  else if Z.eqb b0 237 then in_range 128 159 b1 && continuation b2 && utf8_valid l3
                  else if in_range 225 239 b0 then
                    continuation b1 && continuation b2 && utf8_valid l3
                  else
                    match l3 with
                    | [] => false
                    | b3 :: l4 =>
                        (if Z.eqb b0 240 then in_range 144 191 b1
                         else if Z.eqb b0 244 then in_range 128 143 b1
                         else in_range 241 243 b0 && continuation b1) &&
                        continuation b2 && continuation b3 && utf8_valid l4
                    end
              end
        end
  end.

(** [str::as_bytes] and [core::str::from_utf8]. *)
Definition as_bytes (s : string) : list Z := byte_of <$> String.list_ascii_of_string s.
Definition from_utf8 (l : list Z) : option string :=
  if utf8_valid l then Some (of_bytes l) else None.

(** [str::is_char_boundary]. *)
Definition is_char_boundary (n : nat) (s : string) : bool :=
  match as_bytes s !! n with
  | Some b => negb (continuation b)
  | None => Nat.eqb n (String.length s)
  end.

Lemma as_bytes_length s : length (as_bytes s) = String.length s.
Proof. unfold as_bytes. rewrite length_fmap. induction s; cbn; congruence. Qed.

Lemma of_bytes_as_bytes s : of_bytes (as_bytes s) = s.
Proof.
  unfold as_bytes. induction s as [|a s IH]; [done|]. cbn. f_equal; [apply byte_chr_of|exact IH].
Qed.

Lemma as_bytes_range s : Forall (λ b, 0 ≤ b < 256) (as_bytes s).
Proof. unfold as_bytes. apply Forall_fmap, Forall_true. intros a. apply byte_of_range. Qed.

Lemma from_utf8_as_bytes s : utf8_valid (as_bytes s) = true → from_utf8 (as_bytes s) = Some s.
Proof. intros H. unfold from_utf8. by rewrite H, of_bytes_as_bytes. Qed.

(** A character is its first byte and some continuation bytes. *)
Lemma utf8_valid_char b l :
  utf8_valid (b :: l) = true →
  ∃ cs l', l = cs ++ l' ∧ Forall (λ b, continuation b = true) cs ∧ utf8_valid l' = true ∧
    ∀ m, utf8_valid m = true → utf8_valid (b :: cs ++ m) = true.
Proof.
  assert (∀ lo hi x, 128 ≤ lo → hi ≤ 191 → in_range lo hi x = true → continuation x = true) as Hc.
  { intros lo hi x ? ? H. unfold continuation, in_range in *. lia. }
  intros H. cbn [utf8_valid] in H. destruct (b <? 128) eqn:E0.
  { exists [], l. repeat split; [constructor|done|]. intros m Hm. cbn. by rewrite E0. }
  destruct l as [|b1 l]; [done|]. destruct (in_range 194 223 b) eqn:E1.
  { apply andb_true_iff in H as [H1 H2]. exists [b1], l. repeat split; [by constructor|done|].
    intros m Hm. cbn. by rewrite E0, E1, H1. }
  destruct l as [|b2 l]; [done|].
  assert (∀ c, c && continuation b2 && utf8_valid l = true → (c = true → continuation b1 = true) →
    ∃ cs l', b1 :: b2 :: l = cs ++ l' ∧ Forall (λ b, continuation b = true) cs ∧
      utf8_valid l' = true ∧ cs = [b1; b2] ∧ c = true ∧ continuation b2 = true) as H3.
  { intros c [[Hc1 Hc2]%andb_true_iff Hc3]%andb_true_iff Hi. exists [b1; b2], l.
    repeat split; [|done..]. repeat constructor; auto. }
  destruct (Z.eqb b 224) eqn:E2; [|destruct (Z.eqb b 237) eqn:E3; [|destruct (in_range 225 239 b) eqn:E4]].
  1-3: apply H3 in H as (cs & l' & -> & Hcs & Hl & -> & Hc1 & Hc2);
    [|(eapply Hc; lia) || done]; exists [b1; b2], l'; repeat split; [done..|];
    intros m Hm; cbn; rewrite E0, E1, E2, ?E3, ?E4, Hc1, Hc2, Hm; done.
  destruct l as [|b3 l]; [done|].
  apply andb_true_iff in H as [[[H1 H2]%andb_true_iff H4]%andb_true_iff H5].
  exists [b1; b2; b3], l. repeat split; [|done|].
  - repeat constructor; [|done..].
    destruct (Z.eqb b 240); [by eapply Hc; [..|exact H1]|].
    destruct (Z.eqb b 244); [by eapply Hc; [..|exact H1]|]. by apply andb_true_iff in H1 as [_ H1].
  - intros m Hm. cbn. by rewrite E0, E1, E2, E3, E4, H1, H2, H4, Hm.
Qed.

(** Cutting at a character boundary keeps the text valid. *)
Lemma utf8_valid_take l n :
  utf8_valid l = true → (∀ b, l !! n = Some b → continuation b = false) →
  utf8_valid (take n l) = true.
Proof.
  revert n. induction l as [l IH] using (well_founded_induction (well_founded_ltof _ length)).
  intros n Hl Hn. destruct l as [|b l]; [by rewrite take_nil|].
  destruct n as [|n]; [done|].
  apply utf8_valid_char in Hl as (cs & l' & -> & Hcs & Hl' & Hput). cbn [take].
  destruct (decide (n < length cs)%nat) as [Hlt|Hge].
  - destruct (lookup_lt_is_Some_2 cs n Hlt) as [x Hx].
    exfalso. pose proof (proj1 (Forall_lookup _ _) Hcs _ _ Hx) as Hc. specialize (Hn x).
    change ((cs ++ l') !! n = Some x → continuation x = false) in Hn.
    rewrite lookup_app_l, Hc in Hn by done. by specialize (Hn Hx).
  - rewrite take_app_ge by lia. apply Hput. apply IH; [|done|].
    + unfold ltof. cbn. rewrite length_app. lia.
    + intros x Hx. apply Hn. change ((cs ++ l') !! n = Some x). rewrite lookup_app_r by lia. done.
Qed.

Lemma as_bytes_of_bytes l : Forall (λ b, 0 ≤ b < 256) l → as_bytes (of_bytes l) = l.
Proof.
  induction 1 as [|b l Hb _ IH]; [done|]. change (byte_of (byte_chr b) :: as_bytes (of_bytes l) = b :: l).
  by rewrite byte_of_chr, IH.
Qed.

Lemma as_bytes_take n s : as_bytes (String.substring 0 n s) = take n (as_bytes s).
Proof.
  revert n. induction s as [|a s IH]; intros [|n]; [done..|].
  change (byte_of a :: as_bytes (String.substring 0 n s) = byte_of a :: take n (as_bytes s)). by rewrite IH.
Qed.

Lemma from_utf8_Some l s :
  Forall (λ b, 0 ≤ b < 256) l → from_utf8 l = Some s → as_bytes s = l ∧ utf8_valid (as_bytes s) = true.
Proof.
  unfold from_utf8. intros Hl H. destruct (utf8_valid l) eqn:E; [|done]. simplify_eq.
  by rewrite as_bytes_of_bytes.
Qed.

(** ** Well-formed configurations *)

Definition hstring_ok (cap : Z) (s : string) : Prop :=
  str_len s ≤ cap ∧ utf8_valid (as_bytes s) = true.
Definition opt_hstring_ok (cap : Z) (s : option string) : Prop :=
  match s with Some s => hstring_ok cap s | None => True end.

Definition wf_mqtt (m : MqttFields) : Prop :=
  hstring_ok MQTT_HOST_MAX_LEN (mqtt_host m) ∧ is_u16 (mqtt_port m) ∧
  opt_hstring_ok MQTT_USER_MAX_LEN (mqtt_username m) ∧
  opt_hstring_ok MQTT_PASS_MAX_LEN (mqtt_password m) ∧
  opt_hstring_ok MQTT_CLIENT_ID_MAX_LEN (mqtt_client_id m).

Definition wf_extra (e : ExtraField) : Prop :=
  hstring_ok EXTRA_KEY_MAX_LEN (extra_key e) ∧ hstring_ok EXTRA_VALUE_MAX_LEN (extra_value e).

(** What the types guarantee. *)
Definition wf_config (c : ProvisioningConfig) : Prop :=
  hstring_ok SSID_MAX_LEN (wifi_ssid c) ∧ hstring_ok PASSWORD_MAX_LEN (wifi_password c) ∧
  hstring_ok OTA_URL_MAX_LEN (ota_url c) ∧ hstring_ok DEVICE_NAME_MAX_LEN (device_name c) ∧
  match mqtt c with Some m => wf_mqtt m | None => True end ∧
  Forall wf_extra (extras c) ∧ (length (extras c) ≤ EXTRA_FIELDS_MAX)%nat.

(** The extras that a record can carry. *)
Definition storable_extras (l : list ExtraField) : Prop :=
  Forall (λ e, extra_key e ≠ "") l ∧ NoDup (extra_key <$> l).
