(* ===== verification/ProvRecord.v ===== *)
(** * ProvRecord: the credential record ([provisioning/record.rs] of the esp-hal tier)

    A buffer is the bytes written so far and its size; the bytes behind them are never read.
    Indexing and slicing are written as such, so that what would panic in Rust is visible:
    decoding ends in a value, an error, or [Panicked]. *)
From Stdlib Require Import Ascii.
From S2P Require Import Prelude Text Crc32 ProvConfig.
Open Scope Z_scope.

Inductive StoreError :=
| SE_TooSmall (required provided : Z)
| SE_NotAligned
| SE_OffsetOutOfBounds (end_ limit : Z)
| SE_UnsupportedGeometry (erase_size : Z)
| SE_BadMagic
| SE_BadVersion (found expected : Z)
| SE_BadCrc
| SE_ShortRecord (need have : Z)
| SE_UnknownProfile (len : Z)
| SE_BufferTooSmall (need have : Z)
| SE_MalformedField (tag : Z)
| SE_MissingRequiredField (tag : Z)
| SE_DuplicateTag (tag : Z)
| SE_InvalidUtf8 (tag : Z)
| SE_Flash.

#[export] Instance StoreError_eq_dec : EqDecision StoreError.
Proof. solve_decision. Defined.

(** Why a call does not return a value. *)
Inductive Stop := Refused (e : StoreError) | Panicked.

#[export] Instance Stop_eq_dec : EqDecision Stop.
Proof. solve_decision. Defined.

Definition refuse {A} (e : StoreError) : result Stop A := Err (Refused e).

Definition ok_or {A} (o : option A) (e : StoreError) : result Stop A :=
  match o with Some a => Ok a | None => refuse e end.

Definition MAGIC : Z := 1380339794.
Definition LAYOUT_VER : Z := 1.
Definition SECTOR_SIZE : Z := 4096.
Definition STORE_SIZE : Z := 8192.
Definition WRITE_GRANULARITY : Z := 4.

Definition TAG_WIFI_SSID : Z := 1.
Definition TAG_WIFI_PASS : Z := 2.
Definition TAG_MQTT_HOST : Z := 3.
Definition TAG_MQTT_PORT : Z := 4.
Definition TAG_MQTT_USER : Z := 5.
Definition TAG_MQTT_PASS : Z := 6.
Definition TAG_MQTT_CLIENT : Z := 7.
Definition TAG_OTA_URL : Z := 8.
Definition TAG_DEVICE_NAME : Z := 9.
Definition TAG_EXTRA : Z := 10.

Definition HEADER_FIXED : Z := 12.
Definition RECORD_LEN_OFFSET : nat := 9.
Definition PROFILE_LEN_OFFSET : nat := 11.
Definition CRC_LEN : Z := 4.
Definition MAX_PROFILE_STR_LEN : Z := SECTOR_SIZE - HEADER_FIXED - CRC_LEN - 1.

(** [(len + 3) & !3] *)
Definition pad_to_write_granularity (len : Z) : Z :=
  Z.land (len + WRITE_GRANULARITY - 1) (Z.lnot (WRITE_GRANULARITY - 1)).

Record DecodedRecord := mkDecoded {
  rec_seq : Z; rec_profile : SchemaProfile; rec_config : ProvisioningConfig }.

#[export] Instance DecodedRecord_eq_dec : EqDecision DecodedRecord.
Proof. solve_decision. Defined.

Definition blen (b : list Z) : Z := Z.of_nat (length b).

(** [to_le_bytes] *)
Definition le_bytes (n : nat) (v : Z) : list Z :=
  (λ i, Z.land (Z.shiftr v (8 * i)) 255) <$> seqZ 0 (Z.of_nat n).

(** [bytes[i]], in range. *)
Definition byte_at (bytes : list Z) (i : nat) : Z := default 0 (bytes !! i).

(** [from_le_bytes] of two and four bytes at [i]. *)
Definition le16_at (bytes : list Z) (i : nat) : Z := byte_at bytes i + 256 * byte_at bytes (i + 1).
Definition le32_at (bytes : list Z) (i : nat) : Z :=
  le16_at bytes i + 65536 * le16_at bytes (i + 2).

(** [bytes[lo..hi]], in range. *)
Definition slice (bytes : list Z) (lo hi : Z) : list Z :=
  take (Z.to_nat (hi - lo)) (drop (Z.to_nat lo) bytes).

(** ** Encoding *)

Definition write_tlv (cap tag : Z) (value out : list Z) : result Stop (list Z) :=
  let need := 2 + blen value in
  if cap <? blen out + need then refuse (SE_BufferTooSmall (blen out + need) cap)
  else Ok (out ++ [tag; blen value `mod` 256] ++ value).

Definition write_opt (cap tag : Z) (value : option string) (out : list Z) : result Stop (list Z) :=
  match value with Some v => write_tlv cap tag (as_bytes v) out | None => Ok out end.

Definition extra_entry (e : ExtraField) : list Z :=
  let key := as_bytes (extra_key e) in
  (blen key `mod` 256) :: key ++ as_bytes (extra_value e).

(** The loop over the extras; [earlier] are the ones already written. *)
Fixpoint write_extras (cap : Z) (earlier rest : list ExtraField) (out : list Z) :
    result Stop (list Z) :=
  match rest with
  | [] => Ok out
  | e :: rest =>
      if bool_decide (extra_key e = "") || existsb (λ e', bool_decide (extra_key e' = extra_key e)) earlier
      then refuse (SE_MalformedField TAG_EXTRA)
      else
        out ← write_tlv cap TAG_EXTRA (extra_entry e) out;
        write_extras cap (earlier ++ [e]) rest out
  end.

Definition write_fields (cap : Z) (c : ProvisioningConfig) (out : list Z) : result Stop (list Z) :=
  out ← write_tlv cap TAG_WIFI_SSID (as_bytes (wifi_ssid c)) out;
  out ← write_tlv cap TAG_WIFI_PASS (as_bytes (wifi_password c)) out;
  out ← write_tlv cap TAG_OTA_URL (as_bytes (default "" (config_ota_url c))) out;
  out ← write_tlv cap TAG_DEVICE_NAME (as_bytes (device_name c)) out;
  match config_profile c, mqtt c with
  | WifiMqttDevice, Some m =>
      out ← write_tlv cap TAG_MQTT_HOST (as_bytes (mqtt_host m)) out;
      out ← write_tlv cap TAG_MQTT_PORT (le_bytes 2 (mqtt_port m)) out;
      out ← write_opt cap TAG_MQTT_USER (mqtt_username m) out;
      out ← write_opt cap TAG_MQTT_PASS (mqtt_password m) out;
      write_opt cap TAG_MQTT_CLIENT (mqtt_client_id m) out
  | _, _ => Ok out
  end.

(** [buf[RECORD_LEN_OFFSET..RECORD_LEN_OFFSET + 2]] is overwritten. *)
Definition patch_len (len : Z) (out : list Z) : list Z :=
  take RECORD_LEN_OFFSET out ++ le_bytes 2 len ++ drop (RECORD_LEN_OFFSET + 2) out.

(** The header; the record length is still open. *)
Definition header (seq : Z) (profile : list Z) : list Z :=
  le_bytes 4 MAGIC ++ [LAYOUT_VER] ++ le_bytes 4 seq ++ [0; 0] ++
  [blen profile `mod` 256] ++ profile.

(** The record written at the start of a buffer of [cap] bytes. *)
Definition encode_record (cap : Z) (c : ProvisioningConfig) (seq : Z) : result Stop (list Z) :=
  let profile := as_bytes (SchemaProfile_as_str (config_profile c)) in
  let min_size := HEADER_FIXED + blen profile + CRC_LEN in
  if cap <? min_size then refuse (SE_BufferTooSmall min_size cap)
  else
    out ← write_fields cap c (header seq profile);
    out ← write_extras cap [] (extras c) out;
    let out := patch_len ((blen out + CRC_LEN) `mod` 65536) out in
    let crc := crc32 out in
    if cap <? blen out + CRC_LEN then refuse (SE_BufferTooSmall (blen out + CRC_LEN) cap)
    else Ok (out ++ le_bytes 4 crc).

(** ** Decoding *)

(** What the entries of a record assigned so far. *)
Record Slots := mkSlots {
  s_ssid : option (list Z); s_pass : option (list Z); s_ota : option (list Z);
  s_name : option (list Z); s_host : option (list Z); s_port : option Z;
  s_user : option (list Z); s_mqtt_pass : option (list Z); s_client : option (list Z);
  s_extras : list (list Z) }.

Definition no_slots : Slots := mkSlots None None None None None None None None None [].

Definition set_once {A} (slot : option A) (tag : Z) (value : A) : result Stop (option A) :=
  match slot with Some _ => refuse (SE_DuplicateTag tag) | None => Ok (Some value) end.

Definition assign (tag : Z) (value : list Z) (s : Slots) : result Stop Slots :=
  let '(mkSlots ssid pass ota name host port user mpass client ex) := s in
  if tag =? TAG_WIFI_SSID then
    v ← set_once ssid tag value; Ok (mkSlots v pass ota name host port user mpass client ex)
  else if tag =? TAG_WIFI_PASS then
    v ← set_once pass tag value; Ok (mkSlots ssid v ota name host port user mpass client ex)
  else if tag =? TAG_OTA_URL then
    v ← set_once ota tag value; Ok (mkSlots ssid pass v name host port user mpass client ex)
  else if tag =? TAG_DEVICE_NAME then
    v ← set_once name tag value; Ok (mkSlots ssid pass ota v host port user mpass client ex)
  else if tag =? TAG_MQTT_HOST then
    v ← set_once host tag value; Ok (mkSlots ssid pass ota name v port user mpass client ex)
  else if (tag =? TAG_MQTT_PORT) && (blen value =? 2) then
    v ← set_once port tag (le16_at value 0);
    Ok (mkSlots ssid pass ota name host v user mpass client ex)
  else if tag =? TAG_MQTT_USER then
    v ← set_once user tag value; Ok (mkSlots ssid pass ota name host port v mpass client ex)
  else if tag =? TAG_MQTT_PASS then
    v ← set_once mpass tag value; Ok (mkSlots ssid pass ota name host port user v client ex)
  else if tag =? TAG_MQTT_CLIENT then
    v ← set_once client tag value; Ok (mkSlots ssid pass ota name host port user mpass v ex)
  else if tag =? TAG_EXTRA then
    if (length ex <? EXTRA_FIELDS_MAX)%nat
    then Ok (mkSlots ssid pass ota name host port user mpass client (ex ++ [value]))
    else refuse (SE_MalformedField tag)
  else Ok s.

(** The entries from [pos] to [crc_offset]; [rest] is [bytes[pos..crc_offset]].  One unit of
    fuel per entry. *)
Fixpoint decode_tlvs (fuel : nat) (pos crc_offset : Z) (rest : list Z) (s : Slots) :
    result Stop Slots :=
  match fuel, rest with
  | S fuel, tag :: vlen :: rest =>
      let pos := pos + 2 in
      if crc_offset <? pos + vlen then refuse (SE_ShortRecord (pos + vlen) crc_offset)
      else
        s ← assign tag (take (Z.to_nat vlen) rest) s;
        decode_tlvs fuel (pos + vlen) crc_offset (drop (Z.to_nat vlen) rest) s
  | _, _ => Ok s
  end.

(** [bytes_to_hstring::<N>]: the slice [&s[..s.len().min(N)]] panics inside a character. *)
Definition bytes_to_hstring (cap : Z) (b : list Z) (tag : Z) : result Stop string :=
  s ← ok_or (from_utf8 b) (SE_InvalidUtf8 tag);
  let n := Z.to_nat (Z.min (str_len s) cap) in
  if is_char_boundary n s then Ok (String.substring 0 n s) else Err Panicked.

Definition bytes_to_opt_hstring (cap : Z) (b : option (list Z)) (tag : Z) :
    result Stop (option string) :=
  match b with
  | Some b => s ← bytes_to_hstring cap b tag; Ok (Some s)
  | None => Ok None
  end.

Definition decode_extra (value : list Z) (earlier : list ExtraField) : result Stop ExtraField :=
  match value with
  | [] => refuse (SE_MalformedField TAG_EXTRA)
  | key_len :: rest =>
      if (key_len =? 0) || (blen rest <? key_len) || (EXTRA_KEY_MAX_LEN <? key_len)
      then refuse (SE_MalformedField TAG_EXTRA)
      else
        let key_bytes := take (Z.to_nat key_len) rest in
        let value_bytes := drop (Z.to_nat key_len) rest in
        if EXTRA_VALUE_MAX_LEN <? blen value_bytes then refuse (SE_MalformedField TAG_EXTRA)
        else
          key ← ok_or (from_utf8 key_bytes) (SE_InvalidUtf8 TAG_EXTRA);
          if existsb (λ e, bool_decide (extra_key e = key)) earlier
          then refuse (SE_MalformedField TAG_EXTRA)
          else
            val ← ok_or (from_utf8 value_bytes) (SE_InvalidUtf8 TAG_EXTRA);
            Ok (mkExtra key val)
  end.

Fixpoint decode_extras (values : list (list Z)) (acc : list ExtraField) :
    result Stop (list ExtraField) :=
  match values with
  | [] => Ok acc
  | v :: values =>
      e ← decode_extra v acc;
      if (length acc <? EXTRA_FIELDS_MAX)%nat then decode_extras values (acc ++ [e])
      else refuse (SE_MalformedField TAG_EXTRA)
  end.

Definition build_config (profile : SchemaProfile) (ssid pass ota name : list Z)
    (host_port : option (list Z * Z)) (s : Slots) : result Stop ProvisioningConfig :=
  ssid ← bytes_to_hstring SSID_MAX_LEN ssid TAG_WIFI_SSID;
  pass ← bytes_to_hstring PASSWORD_MAX_LEN pass TAG_WIFI_PASS;
  ota ← bytes_to_hstring OTA_URL_MAX_LEN ota TAG_OTA_URL;
  name ← bytes_to_hstring DEVICE_NAME_MAX_LEN name TAG_DEVICE_NAME;
  ex ← decode_extras (s_extras s) [];
  m ← (match profile, host_port with
       | WifiMqttDevice, Some (host, port) =>
           host ← bytes_to_hstring MQTT_HOST_MAX_LEN host TAG_MQTT_HOST;
           user ← bytes_to_opt_hstring MQTT_USER_MAX_LEN (s_user s) TAG_MQTT_USER;
           mpass ← bytes_to_opt_hstring MQTT_PASS_MAX_LEN (s_mqtt_pass s) TAG_MQTT_PASS;
           client ← bytes_to_opt_hstring MQTT_CLIENT_ID_MAX_LEN (s_client s) TAG_MQTT_CLIENT;
           Ok (Some (mkMqtt host port user mpass client))
       | WifiMqttDevice, None => Err Panicked
       | LorawanFieldDevice, _ => Ok None
       end);
  Ok (mkConfig ssid pass ota name None m ex).

(** The required-field checks, then [build_config]. *)
Definition finish_record (seq : Z) (profile : SchemaProfile) (s : Slots) : result Stop DecodedRecord :=
  ssid ← ok_or (s_ssid s) (SE_MissingRequiredField TAG_WIFI_SSID);
  pass ← ok_or (s_pass s) (SE_MissingRequiredField TAG_WIFI_PASS);
  ota ← ok_or (s_ota s) (SE_MissingRequiredField TAG_OTA_URL);
  name ← ok_or (s_name s) (SE_MissingRequiredField TAG_DEVICE_NAME);
  host_port ← (match profile with
               | WifiMqttDevice =>
                   host ← ok_or (s_host s) (SE_MissingRequiredField TAG_MQTT_HOST);
                   port ← ok_or (s_port s) (SE_MissingRequiredField TAG_MQTT_PORT);
                   Ok (Some (host, port))
               | LorawanFieldDevice => Ok None
               end);
  config ← build_config profile ssid pass ota name host_port s;
  Ok (mkDecoded seq profile config).

Definition decode_record (bytes : list Z) : result Stop DecodedRecord :=
  if blen bytes <? HEADER_FIXED + CRC_LEN then
    refuse (SE_ShortRecord (HEADER_FIXED + CRC_LEN) (blen bytes))
  else if negb (le32_at bytes 0 =? MAGIC) then refuse SE_BadMagic
  else if negb (byte_at bytes 4 =? LAYOUT_VER) then
    refuse (SE_BadVersion (byte_at bytes 4) LAYOUT_VER)
  else
    let seq := le32_at bytes 5 in
    let record_len := le16_at bytes RECORD_LEN_OFFSET in
    if (record_len <? HEADER_FIXED + CRC_LEN) || (blen bytes <? record_len) then
      refuse (SE_ShortRecord record_len (blen bytes))
    else
      let profile_len := byte_at bytes PROFILE_LEN_OFFSET in
      if (MAX_PROFILE_STR_LEN <? profile_len) || (record_len <? HEADER_FIXED + profile_len + CRC_LEN) then
        refuse (SE_ShortRecord (HEADER_FIXED + profile_len + CRC_LEN) record_len)
      else
        let profile_end := HEADER_FIXED + profile_len in
        profile_str ← ok_or (from_utf8 (slice bytes HEADER_FIXED profile_end))
                            (SE_UnknownProfile profile_len);
        profile ← ok_or (SchemaProfile_from_nvs_str profile_str) (SE_UnknownProfile profile_len);
        let crc_offset := record_len - CRC_LEN in
        if negb (crc32 (slice bytes 0 crc_offset) =? le32_at bytes (Z.to_nat crc_offset)) then
          refuse SE_BadCrc
        else
          s ← decode_tlvs (length bytes) profile_end crc_offset (slice bytes profile_end crc_offset) no_slots;
          finish_record seq profile s.

(** ** Arbitration *)

Definition pick_active (a b : option DecodedRecord) : option DecodedRecord :=
  match a, b with
  | None, None => None
  | Some a, None => Some a
  | None, Some b => Some b
  | Some a, Some b => if rec_seq b <=? rec_seq a then Some a else Some b
  end.
