(* ===== verification/ProvRecordProps.v ===== *)
(** * ProvRecordProps: the credential record round-trips, and what its CRC catches *)
From Stdlib Require Import Ascii.
From S2P Require Import Prelude Text Crc32 ProvConfig ProvRecord.
Open Scope Z_scope.

(** ** The abstract record: a header and a list of tagged values *)

Definition tlv_bytes (l : list (Z * list Z)) : list Z :=
  l ≫= λ '(tag, value), tag :: blen value :: value.

Definition opt_tlv (tag : Z) (s : option string) : list (Z * list Z) :=
  match s with Some s => [(tag, as_bytes s)] | None => [] end.

Definition mqtt_tlvs (m : MqttFields) : list (Z * list Z) :=
  [(TAG_MQTT_HOST, as_bytes (mqtt_host m)); (TAG_MQTT_PORT, le_bytes 2 (mqtt_port m))] ++
  opt_tlv TAG_MQTT_USER (mqtt_username m) ++ opt_tlv TAG_MQTT_PASS (mqtt_password m) ++
  opt_tlv TAG_MQTT_CLIENT (mqtt_client_id m).

Definition field_tlvs (c : ProvisioningConfig) : list (Z * list Z) :=
  [(TAG_WIFI_SSID, as_bytes (wifi_ssid c)); (TAG_WIFI_PASS, as_bytes (wifi_password c));
   (TAG_OTA_URL, as_bytes (ota_url c)); (TAG_DEVICE_NAME, as_bytes (device_name c))] ++
  match mqtt c with Some m => mqtt_tlvs m | None => [] end.

Definition extra_tlvs (l : list ExtraField) : list (Z * list Z) :=
  (λ e, (TAG_EXTRA, extra_entry e)) <$> l.

Definition all_tlvs (c : ProvisioningConfig) := field_tlvs c ++ extra_tlvs (extras c).

(** What a record does not carry is dropped. *)
Definition stored_config (c : ProvisioningConfig) : ProvisioningConfig :=
  mkConfig (wifi_ssid c) (wifi_password c) (ota_url c) (device_name c) None (mqtt c) (extras c).

Definition profile_bytes (p : SchemaProfile) : list Z := as_bytes (SchemaProfile_as_str p).

(** Everything before the CRC. *)
Definition payload (seq : Z) (p : SchemaProfile) (body : list Z) : list Z :=
  le_bytes 4 MAGIC ++ [LAYOUT_VER] ++ le_bytes 4 seq ++
  le_bytes 2 (HEADER_FIXED + blen (profile_bytes p) + blen body + CRC_LEN) ++
  [blen (profile_bytes p)] ++ profile_bytes p ++ body.

Definition frame (seq : Z) (p : SchemaProfile) (body : list Z) : list Z :=
  payload seq p body ++ le_bytes 4 (crc32 (payload seq p body)).

(** ** Lengths and bytes *)

Lemma blen_app a b : blen (a ++ b) = blen a + blen b.
Proof. unfold blen. rewrite length_app. lia. Qed.
Lemma blen_cons a b : blen (a :: b) = 1 + blen b.
Proof. unfold blen. cbn [length]. lia. Qed.
Lemma blen_nil : blen [] = 0.
Proof. done. Qed.
Lemma blen_nonneg a : 0 ≤ blen a.
Proof. unfold blen. lia. Qed.
Lemma blen_as_bytes s : blen (as_bytes s) = str_len s.
Proof. unfold blen, str_len. by rewrite as_bytes_length. Qed.
Lemma blen_le_bytes n v : blen (le_bytes n v) = Z.of_nat n.
Proof. unfold blen, le_bytes. rewrite length_fmap, length_seqZ. lia. Qed.

Create Rewrite HintDb blen.
#[export] Hint Rewrite blen_app blen_cons blen_nil blen_as_bytes blen_le_bytes : blen.

Lemma tlv_bytes_app a b : tlv_bytes (a ++ b) = tlv_bytes a ++ tlv_bytes b.
Proof. apply bind_app. Qed.

Lemma tlv_bytes_cons tag v l : tlv_bytes ((tag, v) :: l) = tag :: blen v :: v ++ tlv_bytes l.
Proof. done. Qed.

Lemma blen_tlv_nil : blen (tlv_bytes []) = 0.
Proof. done. Qed.
#[export] Hint Rewrite blen_tlv_nil : blen.

Lemma le2_cons v : le_bytes 2 v = [Z.land v 255; Z.land (Z.shiftr v 8) 255].
Proof.
  unfold le_bytes. change (seqZ 0 (Z.of_nat 2)) with [0; 1]. cbn [fmap list_fmap].
  by rewrite Z.mul_0_r, Z.shiftr_0_r.
Qed.
Lemma le4_cons v :
  le_bytes 4 v = [Z.land v 255; Z.land (Z.shiftr v 8) 255;
                  Z.land (Z.shiftr v 16) 255; Z.land (Z.shiftr v 24) 255].
Proof.
  unfold le_bytes. change (seqZ 0 (Z.of_nat 4)) with [0; 1; 2; 3]. cbn [fmap list_fmap].
  by rewrite Z.mul_0_r, Z.shiftr_0_r.
Qed.

Lemma land_255_mod v : Z.land v 255 = v `mod` 256.
Proof. change 255 with (Z.ones 8). by rewrite Z.land_ones by lia. Qed.

Lemma le16_value v : is_u16 v → Z.land v 255 + 256 * Z.land (Z.shiftr v 8) 255 = v.
Proof.
  unfold is_u16, u16_max. intros. rewrite !land_255_mod, Z.shiftr_div_pow2 by lia.
  change (2 ^ 8) with 256. Z.to_euclidean_division_equations. lia.
Qed.

Lemma le32_value v : is_u32 v →
  Z.land v 255 + 256 * Z.land (Z.shiftr v 8) 255 +
  65536 * (Z.land (Z.shiftr v 16) 255 + 256 * Z.land (Z.shiftr v 24) 255) = v.
Proof.
  unfold is_u32, u32_max. intros. rewrite !land_255_mod, !Z.shiftr_div_pow2 by lia.
  change (2 ^ 8) with 256. change (2 ^ 16) with 65536. change (2 ^ 24) with 16777216.
  Z.to_euclidean_division_equations. lia.
Qed.

Lemma byte_at_app_r a b i : byte_at (a ++ b) (length a + i) = byte_at b i.
Proof. unfold byte_at. by rewrite lookup_app_r, Nat.add_sub_swap, Nat.sub_diag by lia. Qed.

Lemma le16_at_app a v b : is_u16 v → le16_at (a ++ le_bytes 2 v ++ b) (length a) = v.
Proof.
  intros. unfold le16_at. rewrite <- (Nat.add_0_r (length a)) at 1.
  rewrite !byte_at_app_r, le2_cons. by apply le16_value.
Qed.

Lemma le32_at_app a v b : is_u32 v → le32_at (a ++ le_bytes 4 v ++ b) (length a) = v.
Proof.
  intros. unfold le32_at, le16_at. rewrite <- Nat.add_assoc.
  rewrite <- (Nat.add_0_r (length a)) at 1. rewrite !byte_at_app_r, le4_cons. by apply le32_value.
Qed.

Lemma slice_mid a b c lo hi : lo = blen a → hi = blen a + blen b → slice (a ++ b ++ c) lo hi = b.
Proof.
  intros -> ->. unfold slice, blen.
  rewrite Nat2Z.id, drop_app_length.
  replace (Z.to_nat _) with (length b) by lia. apply take_app_length.
Qed.

Lemma take_blen_app a b : take (Z.to_nat (blen a)) (a ++ b) = a.
Proof. unfold blen. rewrite Nat2Z.id. apply take_app_length. Qed.
Lemma drop_blen_app a b : drop (Z.to_nat (blen a)) (a ++ b) = b.
Proof. unfold blen. rewrite Nat2Z.id. apply drop_app_length. Qed.

Lemma slice_prefix b c hi : hi = blen b → slice (b ++ c) 0 hi = b.
Proof. intros ->. by apply (slice_mid []). Qed.

(** ** Decoding a frame comes down to its entries *)

Lemma profile_len p : blen (profile_bytes p) = 7 ∨ blen (profile_bytes p) = 9.
Proof. destruct p; [left|right]; reflexivity. Qed.

Lemma payload_len seq p body : blen (payload seq p body) = HEADER_FIXED + blen (profile_bytes p) + blen body.
Proof. unfold payload. autorewrite with blen. unfold HEADER_FIXED. lia. Qed.

Lemma frame_len seq p body :
  blen (frame seq p body) = HEADER_FIXED + blen (profile_bytes p) + blen body + CRC_LEN.
Proof. unfold frame. autorewrite with blen. rewrite payload_len. unfold CRC_LEN. lia. Qed.

(** The header of anything that starts like a frame. *)
Section header_fields.
  Context (seq : Z) (p : SchemaProfile) (body rest : list Z).
  Hypothesis Hseq : is_u32 seq.
  Hypothesis Hlen : blen body ≤ 60000.

Let bytes := payload seq p body ++ rest.
Let len := HEADER_FIXED + blen (profile_bytes p) + blen body + CRC_LEN.

Lemma len_u16 : is_u16 len.
Proof using Hlen.
  unfold len, is_u16, u16_max, HEADER_FIXED, CRC_LEN. pose proof (blen_nonneg body).
  destruct (profile_len p); lia.
Qed.

Lemma header_magic : le32_at bytes 0 = MAGIC.
Proof. unfold bytes, payload. rewrite <- app_assoc. by apply (le32_at_app []). Qed.

Lemma header_version : byte_at bytes 4 = LAYOUT_VER.
Proof. unfold bytes, payload. by rewrite le4_cons. Qed.

Lemma header_seq : le32_at bytes 5 = seq.
Proof using Hseq.
  unfold bytes, payload. rewrite !(app_assoc _ [LAYOUT_VER]), <- !app_assoc.
  by apply (le32_at_app (le_bytes 4 MAGIC ++ [LAYOUT_VER])).
Qed.

Lemma header_record_len : le16_at bytes RECORD_LEN_OFFSET = len.
Proof using Hlen.
  unfold bytes, payload. rewrite <- !app_assoc.
  pose proof (le16_at_app (le_bytes 4 MAGIC ++ [LAYOUT_VER] ++ le_bytes 4 seq) len
    (([blen (profile_bytes p)] ++ profile_bytes p ++ body) ++ rest) len_u16) as H.
  rewrite <- !app_assoc in H. exact H.
Qed.

Lemma header_profile_len : byte_at bytes PROFILE_LEN_OFFSET = blen (profile_bytes p).
Proof. unfold bytes, payload. rewrite !le4_cons, le2_cons. done. Qed.

Lemma header_profile :
  slice bytes HEADER_FIXED (HEADER_FIXED + blen (profile_bytes p)) = profile_bytes p.
Proof.
  unfold bytes, payload.
  rewrite <- !app_assoc, !(app_assoc _ [LAYOUT_VER]), !(app_assoc _ (le_bytes 4 seq)),
    !(app_assoc _ (le_bytes 2 _)), !(app_assoc _ [blen (profile_bytes p)]).
  apply slice_mid; autorewrite with blen; reflexivity.
Qed.

Lemma header_body :
  slice bytes (HEADER_FIXED + blen (profile_bytes p)) (len - CRC_LEN) = body.
Proof.
  unfold bytes, payload, len.
  rewrite <- !app_assoc, !(app_assoc _ [LAYOUT_VER]), !(app_assoc _ (le_bytes 4 seq)),
    !(app_assoc _ (le_bytes 2 _)), !(app_assoc _ [blen (profile_bytes p)]),
    !(app_assoc _ (profile_bytes p)).
  apply slice_mid; autorewrite with blen; unfold HEADER_FIXED; lia.
Qed.
End header_fields.

Lemma decode_frame seq p body tail :
  is_u32 seq → blen body ≤ 60000 →
  decode_record (frame seq p body ++ tail) =
  (s ← decode_tlvs (length (frame seq p body ++ tail))
         (HEADER_FIXED + blen (profile_bytes p)) (blen (payload seq p body)) body no_slots;
   finish_record seq p s).
Proof.
  intros Hseq Hlen. unfold decode_record, frame. rewrite <- app_assoc.
  set (rest := le_bytes 4 _ ++ tail).
  rewrite header_magic, header_version, header_seq, header_record_len, header_profile_len,
    header_profile, header_body by done.
  assert (blen (payload seq p body ++ rest) = blen (payload seq p body) + 4 + blen tail) as E
    by (unfold rest; autorewrite with blen; lia).
  rewrite E, payload_len.
  pose proof (blen_nonneg body). pose proof (blen_nonneg tail).
  assert (HEADER_FIXED = 12 ∧ CRC_LEN = 4 ∧ MAX_PROFILE_STR_LEN = 4079) as (E1 & E2 & E3) by done.
  rewrite !(proj2 (Z.ltb_ge _ _)) by (destruct (profile_len p); lia).
  rewrite !Z.eqb_refl. cbn [negb orb].
  replace (from_utf8 (profile_bytes p)) with (Some (SchemaProfile_as_str p)) by (by destruct p).
  cbn [ok_or mbind result_bind].
  replace (SchemaProfile_from_nvs_str (SchemaProfile_as_str p)) with (Some p) by (by destruct p).
  cbn [ok_or mbind result_bind].
  rewrite slice_prefix by (rewrite payload_len; lia).
  replace (Z.to_nat _) with (length (payload seq p body))
    by (pose proof (payload_len seq p body); unfold blen in *; lia).
  unfold rest. rewrite le32_at_app by apply crc32_u32. rewrite Z.eqb_refl. cbn [negb].
  by rewrite Z.add_simpl_r.
Qed.

(** ** Entries *)

Fixpoint assign_all (l : list (Z * list Z)) (s : Slots) : result Stop Slots :=
  match l with
  | [] => Ok s
  | (tag, v) :: l => s ← assign tag v s; assign_all l s
  end.

Lemma tlv_bytes_length_le l : (length l ≤ length (tlv_bytes l))%nat.
Proof.
  induction l as [|[tag v] l IH]; [done|]. rewrite tlv_bytes_cons. cbn [length].
  rewrite length_app. lia.
Qed.

Lemma decode_tlvs_bytes l : ∀ fuel pos s,
  (length l ≤ fuel)%nat →
  decode_tlvs fuel pos (pos + blen (tlv_bytes l)) (tlv_bytes l) s = assign_all l s.
Proof.
  induction l as [|[tag v] l IH]; intros fuel pos s Hf; [by destruct fuel|].
  destruct fuel as [|fuel]; [cbn in Hf; lia|].
  rewrite tlv_bytes_cons. cbn [decode_tlvs assign_all]. autorewrite with blen.
  pose proof (blen_nonneg (tlv_bytes l)).
  rewrite (proj2 (Z.ltb_ge _ _)) by lia.
  rewrite take_blen_app, drop_blen_app.
  destruct (assign tag v s) as [s'|e]; cbn [mbind result_bind]; [|done].
  cbn [length] in Hf.
  rewrite <- (IH fuel (pos + 2 + blen v) s') by lia. f_equal. lia.
Qed.

Lemma assign_all_app l l' s : assign_all (l ++ l') s = (s ← assign_all l s; assign_all l' s).
Proof.
  revert s. induction l as [|[tag v] l IH]; intros s; [done|]. cbn [assign_all app].
  destruct (assign tag v s); cbn [mbind result_bind]; [apply IH|done].
Qed.

(** ** Writing the entries *)

Fixpoint write_all (cap : Z) (l : list (Z * list Z)) (out : list Z) : result Stop (list Z) :=
  match l with
  | [] => Ok out
  | (tag, v) :: l => out ← write_tlv cap tag v out; write_all cap l out
  end.

Lemma write_all_app cap l l' out :
  write_all cap (l ++ l') out = (out ← write_all cap l out; write_all cap l' out).
Proof.
  revert out. induction l as [|[tag v] l IH]; intros out; [done|]. cbn [write_all app].
  destruct (write_tlv cap tag v out); cbn [mbind result_bind]; [apply IH|done].
Qed.

Lemma write_opt_all cap tag s out : write_opt cap tag s out = write_all cap (opt_tlv tag s) out.
Proof. destruct s; cbn; [by destruct (write_tlv _ _ _ _)|done]. Qed.

Lemma write_all_fits cap l out :
  Forall (λ e, blen e.2 ≤ 255) l → blen out + blen (tlv_bytes l) ≤ cap →
  write_all cap l out = Ok (out ++ tlv_bytes l).
Proof.
  revert out. induction l as [|[tag v] l IH]; intros out Hl Hcap; cbn [write_all].
  { by rewrite app_nil_r. }
  apply Forall_cons in Hl as [Hv Hl]. cbn in Hv. rewrite tlv_bytes_cons in *.
  autorewrite with blen in Hcap. pose proof (blen_nonneg (tlv_bytes l)). pose proof (blen_nonneg v).
  unfold write_tlv. rewrite (proj2 (Z.ltb_ge _ _)) by lia. cbn [mbind result_bind].
  rewrite Z.mod_small by lia. rewrite IH; [|done|autorewrite with blen; lia].
  by rewrite <- app_assoc.
Qed.

Lemma config_ota_url_default c : default "" (config_ota_url c) = ota_url c.
Proof. unfold config_ota_url. by case_decide as E. Qed.

Lemma write_fields_all cap c out : write_fields cap c out = write_all cap (field_tlvs c) out.
Proof.
  unfold write_fields, field_tlvs, config_profile. rewrite config_ota_url_default.
  rewrite write_all_app. cbn [write_all].
  destruct (write_tlv cap TAG_WIFI_SSID _ out) as [o1|]; cbn [mbind result_bind]; [|done].
  destruct (write_tlv cap TAG_WIFI_PASS _ o1) as [o2|]; cbn [mbind result_bind]; [|done].
  destruct (write_tlv cap TAG_OTA_URL _ o2) as [o3|]; cbn [mbind result_bind]; [|done].
  destruct (write_tlv cap TAG_DEVICE_NAME _ o3) as [o4|]; cbn [mbind result_bind]; [|done].
  destruct (mqtt c) as [m|]; [|done]. unfold mqtt_tlvs. rewrite write_all_app. cbn [write_all].
  destruct (write_tlv cap TAG_MQTT_HOST _ o4) as [o5|]; cbn [mbind result_bind]; [|done].
  destruct (write_tlv cap TAG_MQTT_PORT _ o5) as [o6|]; cbn [mbind result_bind]; [|done].
  rewrite !write_opt_all, write_all_app.
  destruct (write_all cap (opt_tlv TAG_MQTT_USER _) o6) as [o7|]; cbn [mbind result_bind]; [|done].
  rewrite !write_opt_all, write_all_app.
  destruct (write_all cap (opt_tlv TAG_MQTT_PASS _) o7) as [o8|]; cbn [mbind result_bind]; [|done].
  apply write_opt_all.
Qed.

Lemma write_extras_all cap earlier rest out :
  storable_extras (earlier ++ rest) → write_extras cap earlier rest out = write_all cap (extra_tlvs rest) out.
Proof.
  revert earlier out. induction rest as [|e rest IH]; intros earlier out [Hne Hnd]; [done|].
  cbn [write_extras extra_tlvs fmap list_fmap write_all].
  apply Forall_app in Hne as [Hne1 [He Hne2]%Forall_cons].
  rewrite bool_decide_eq_false_2 by done. cbn [orb].
  replace (existsb _ earlier) with false.
  - destruct (write_tlv cap TAG_EXTRA (extra_entry e) out) as [o|]; cbn [mbind result_bind]; [|done].
    apply IH. rewrite <- app_assoc. split; [|done]. by apply Forall_app_2; [|apply Forall_cons_2].
  - symmetry. apply not_true_iff_false. intros [e' [He' Heq%bool_decide_eq_true]]%existsb_exists.
    rewrite fmap_app in Hnd. apply NoDup_app in Hnd as (_ & Hdis & _).
    apply (Hdis (extra_key e')); [by apply list_elem_of_fmap; exists e'; rewrite list_elem_of_In|].
    rewrite Heq. cbn. left.
Qed.


(** ** What a well-formed configuration occupies *)

Lemma blen_tlv_bytes_le n l :
  Forall (λ e, 2 + blen e.2 ≤ n) l → blen (tlv_bytes l) ≤ Z.of_nat (length l) * n.
Proof.
  induction 1 as [|[tag v] l Hv _ IH]; [done|]. rewrite tlv_bytes_cons.
  autorewrite with blen. cbn [length snd] in *. lia.
Qed.

Lemma opt_tlv_len cap tag s :
  0 ≤ cap → opt_hstring_ok cap s → blen (tlv_bytes (opt_tlv tag s)) ≤ 2 + cap.
Proof.
  destruct s as [s|]; cbn [opt_hstring_ok opt_tlv]; [intros _ [? _]|intros; autorewrite with blen; lia].
  rewrite tlv_bytes_cons. autorewrite with blen. lia.
Qed.

Lemma opt_tlv_values cap tag s :
  cap ≤ 255 → opt_hstring_ok cap s → Forall (λ e, blen e.2 ≤ 255) (opt_tlv tag s).
Proof.
  destruct s as [s|]; [intros ? [? _]|by constructor]. constructor; [|constructor].
  cbn [snd]. autorewrite with blen. lia.
Qed.

Ltac caps := unfold SSID_MAX_LEN, PASSWORD_MAX_LEN, OTA_URL_MAX_LEN, DEVICE_NAME_MAX_LEN,
  EXTRA_KEY_MAX_LEN, EXTRA_VALUE_MAX_LEN, MQTT_HOST_MAX_LEN, MQTT_USER_MAX_LEN,
  MQTT_PASS_MAX_LEN, MQTT_CLIENT_ID_MAX_LEN, EXTRA_FIELDS_MAX, HEADER_FIXED, CRC_LEN in *.

Lemma extra_entry_len e : wf_extra e → blen (extra_entry e) ≤ 78.
Proof.
  intros [[Hk _] [Hv _]]. unfold extra_entry. autorewrite with blen. caps. lia.
Qed.

Lemma mqtt_tlvs_wf m : wf_mqtt m →
  Forall (λ e, blen e.2 ≤ 255) (mqtt_tlvs m) ∧ blen (tlv_bytes (mqtt_tlvs m)) ≤ 227.
Proof.
  intros ([Hh _] & _ & Hu & Hp & Hc). unfold mqtt_tlvs. caps. split.
  - apply Forall_app_2.
    { repeat constructor; cbn [snd]; autorewrite with blen; lia. }
    repeat apply Forall_app_2; (eapply opt_tlv_values; [|eassumption]; done).
  - rewrite !tlv_bytes_app, !tlv_bytes_cons. autorewrite with blen.
    apply (opt_tlv_len _ TAG_MQTT_USER) in Hu; [|done]. apply (opt_tlv_len _ TAG_MQTT_PASS) in Hp; [|done].
    apply (opt_tlv_len _ TAG_MQTT_CLIENT) in Hc; [|done]. lia.
Qed.

Lemma field_tlvs_wf c : wf_config c →
  Forall (λ e, blen e.2 ≤ 255) (field_tlvs c) ∧ blen (tlv_bytes (field_tlvs c)) ≤ 483.
Proof.
  intros ([Hs _] & [Hp _] & [Ho _] & [Hn _] & Hm & _). unfold field_tlvs.
  assert (Forall (λ e, blen e.2 ≤ 255) (match mqtt c with Some m => mqtt_tlvs m | None => [] end) ∧
          blen (tlv_bytes (match mqtt c with Some m => mqtt_tlvs m | None => [] end)) ≤ 227) as [Hm1 Hm2].
  { destruct (mqtt c) as [m|]; [by apply mqtt_tlvs_wf|by split; [constructor|]]. }
  caps. split.
  - apply Forall_app_2; [|done]. repeat constructor; cbn [snd]; autorewrite with blen; lia.
  - rewrite tlv_bytes_app, !tlv_bytes_cons. autorewrite with blen. lia.
Qed.

Lemma all_tlvs_wf c : wf_config c →
  Forall (λ e, blen e.2 ≤ 255) (all_tlvs c) ∧ blen (tlv_bytes (all_tlvs c)) ≤ 1123.
Proof.
  intros Hwf. destruct (field_tlvs_wf c Hwf) as [Hf1 Hf2].
  destruct Hwf as (_ & _ & _ & _ & _ & He & Hl). unfold all_tlvs.
  assert (Forall (λ e, 2 + blen e.2 ≤ 80) (extra_tlvs (extras c))) as Hx.
  { apply Forall_fmap. eapply Forall_impl; [exact He|]. cbn. intros e ?%extra_entry_len. lia. }
  pose proof (blen_tlv_bytes_le _ _ Hx) as Hx'. unfold extra_tlvs in Hx'. rewrite length_fmap in Hx'.
  fold (extra_tlvs (extras c)) in Hx'. caps. split.
  - apply Forall_app_2; [done|]. eapply Forall_impl; [exact Hx|]. cbn. intros. lia.
  - rewrite tlv_bytes_app. autorewrite with blen. lia.
Qed.

(** ** Encoding *)

Definition RECORD_MAX : Z := 1148.

Lemma header_as_payload seq p body :
  patch_len (HEADER_FIXED + blen (profile_bytes p) + blen body + CRC_LEN)
    (header seq (profile_bytes p) ++ body) = payload seq p body.
Proof.
  unfold patch_len, header, payload, RECORD_LEN_OFFSET. rewrite !le4_cons.
  replace (blen (profile_bytes p) `mod` 256) with (blen (profile_bytes p)) by (by destruct p).
  reflexivity.
Qed.

Lemma header_len seq p : blen (header seq (profile_bytes p)) = HEADER_FIXED + blen (profile_bytes p).
Proof. unfold header. autorewrite with blen. unfold HEADER_FIXED. lia. Qed.

(** Up to the extras there is always room. *)
Lemma write_fields_fits cap c seq :
  wf_config c → RECORD_MAX ≤ cap →
  write_fields cap c (header seq (profile_bytes (config_profile c))) =
  Ok (header seq (profile_bytes (config_profile c)) ++ tlv_bytes (field_tlvs c)).
Proof.
  intros Hwf Hcap. destruct (field_tlvs_wf c Hwf) as [Hv Hb]. unfold RECORD_MAX in Hcap.
  rewrite write_fields_all. apply write_all_fits; [done|]. rewrite header_len. caps.
  destruct (profile_len (config_profile c)); lia.
Qed.

Lemma encode_record_unfold cap c seq :
  wf_config c → RECORD_MAX ≤ cap →
  encode_record cap c seq =
  (out ← write_extras cap [] (extras c)
           (header seq (profile_bytes (config_profile c)) ++ tlv_bytes (field_tlvs c));
   let out := patch_len ((blen out + CRC_LEN) `mod` 65536) out in
   if cap <? blen out + CRC_LEN then refuse (SE_BufferTooSmall (blen out + CRC_LEN) cap)
   else Ok (out ++ le_bytes 4 (crc32 out))).
Proof.
  intros Hwf Hcap. unfold encode_record. fold (profile_bytes (config_profile c)).
  rewrite write_fields_fits by done. rewrite (proj2 (Z.ltb_ge _ _)); [done|].
  unfold RECORD_MAX in Hcap. caps. destruct (profile_len (config_profile c)); lia.
Qed.

Lemma encode_frame cap c seq :
  wf_config c → storable_extras (extras c) → RECORD_MAX ≤ cap →
  encode_record cap c seq = Ok (frame seq (config_profile c) (tlv_bytes (all_tlvs c))).
Proof.
  intros Hwf Hst Hcap. destruct (all_tlvs_wf c Hwf) as [Hv Hb].
  rewrite encode_record_unfold, write_extras_all by done. unfold RECORD_MAX in Hcap.
  assert (HEADER_FIXED = 12 ∧ CRC_LEN = 4) as (E1 & E2) by done.
  pose proof (profile_len (config_profile c)) as Hp. pose proof (blen_nonneg (tlv_bytes (all_tlvs c))).
  pose proof (header_len seq (config_profile c)) as Hh.
  unfold all_tlvs in *. rewrite Forall_app, tlv_bytes_app, blen_app in *. destruct Hv as [_ Hv].
  rewrite write_all_fits by (done || (rewrite blen_app; lia)). cbn [mbind result_bind].
  rewrite <- app_assoc, <- tlv_bytes_app, blen_app, Hh.
  rewrite Z.mod_small by (rewrite tlv_bytes_app, blen_app; lia).
  rewrite header_as_payload, payload_len.
  by rewrite (proj2 (Z.ltb_ge _ _)) by (rewrite tlv_bytes_app, blen_app; lia).
Qed.

(** ** Decoding what was encoded *)

Definition slots_of (c : ProvisioningConfig) : Slots :=
  mkSlots (Some (as_bytes (wifi_ssid c))) (Some (as_bytes (wifi_password c)))
    (Some (as_bytes (ota_url c))) (Some (as_bytes (device_name c)))
    (as_bytes ∘ mqtt_host <$> mqtt c) (mqtt_port <$> mqtt c)
    (m ← mqtt c; as_bytes <$> mqtt_username m) (m ← mqtt c; as_bytes <$> mqtt_password m)
    (m ← mqtt c; as_bytes <$> mqtt_client_id m) [].

Lemma assign_fields c :
  match mqtt c with Some m => is_u16 (mqtt_port m) | None => True end →
  assign_all (field_tlvs c) no_slots = Ok (slots_of c).
Proof.
  intros Hp. unfold field_tlvs, slots_of.
  destruct (mqtt c) as [[host port user pass client]|]; [|reflexivity]. cbn in Hp.
  assert (le16_at (le_bytes 2 port) 0 = port) as E.
  { rewrite <- (app_nil_r (le_bytes 2 port)). by apply (le16_at_app []). }
  rewrite assign_all_app. cbn -[le_bytes le16_at]. rewrite E.
  by destruct user, pass, client.
Qed.

Lemma assign_extras l s :
  (length (s_extras s) + length l ≤ EXTRA_FIELDS_MAX)%nat →
  assign_all (extra_tlvs l) s =
  Ok (let '(mkSlots a b c d e f g h i ex) := s in
      mkSlots a b c d e f g h i (ex ++ (extra_entry <$> l))).
Proof.
  revert s. induction l as [|x l IH]; intros [a b c d e f g h i ex] Hl; cbn [s_extras] in Hl.
  { cbn. by rewrite app_nil_r. }
  cbn [extra_tlvs fmap list_fmap assign_all]. cbn [length] in Hl.
  replace (assign TAG_EXTRA (extra_entry x) (mkSlots a b c d e f g h i ex)) with
    (Ok (E := Stop) (mkSlots a b c d e f g h i (ex ++ [extra_entry x]))).
  - cbn [mbind result_bind]. fold (extra_tlvs l).
    rewrite IH by (cbn [s_extras]; rewrite length_app; cbn [length]; lia). by rewrite <- app_assoc.
  - change (assign TAG_EXTRA (extra_entry x) (mkSlots a b c d e f g h i ex)) with
      (if (length ex <? EXTRA_FIELDS_MAX)%nat
       then Ok (E := Stop) (mkSlots a b c d e f g h i (ex ++ [extra_entry x]))
       else refuse (SE_MalformedField TAG_EXTRA)).
    by rewrite (proj2 (Nat.ltb_lt _ _)) by lia.
Qed.

Lemma substring_full s : String.substring 0 (String.length s) s = s.
Proof. induction s as [|a s IH]; [done|]. cbn. by rewrite IH. Qed.

Lemma bytes_to_hstring_ok cap s tag :
  hstring_ok cap s → bytes_to_hstring cap (as_bytes s) tag = Ok s.
Proof.
  intros [Hl Hu]. unfold bytes_to_hstring. rewrite from_utf8_as_bytes by done.
  cbn [ok_or mbind result_bind]. rewrite Z.min_l by done.
  unfold str_len. rewrite Nat2Z.id. unfold is_char_boundary.
  rewrite (lookup_ge_None_2 (as_bytes s)) by (by rewrite as_bytes_length).
  by rewrite Nat.eqb_refl, substring_full.
Qed.

Lemma bytes_to_opt_hstring_ok cap s tag :
  opt_hstring_ok cap s → bytes_to_opt_hstring cap (as_bytes <$> s) tag = Ok s.
Proof.
  destruct s as [s|]; [|done]. intros H. cbn. by rewrite bytes_to_hstring_ok.
Qed.

Lemma decode_extra_entry e earlier :
  wf_extra e → extra_key e ≠ "" → extra_key e ∉ (extra_key <$> earlier) →
  decode_extra (extra_entry e) earlier = Ok e.
Proof.
  intros [[Hk Hku] [Hv Hvu]] Hne Hnew. unfold extra_entry, decode_extra.
  assert (0 < blen (as_bytes (extra_key e))) as Hpos.
  { rewrite blen_as_bytes. unfold str_len. destruct (extra_key e); [done|]. cbn. lia. }
  assert (blen (as_bytes (extra_key e)) ≤ EXTRA_KEY_MAX_LEN) as Hcap by by rewrite blen_as_bytes.
  pose proof (blen_nonneg (as_bytes (extra_value e))).
  assert (EXTRA_KEY_MAX_LEN = 13) as E1 by done.
  rewrite Z.mod_small, take_blen_app, drop_blen_app by lia. autorewrite with blen in *.
  rewrite (proj2 (Z.eqb_neq _ _)), !(proj2 (Z.ltb_ge _ _)) by lia. cbn [orb].
  rewrite !from_utf8_as_bytes by done. cbn [ok_or mbind result_bind].
  replace (existsb _ earlier) with false; [by destruct e|].
  symmetry. apply not_true_iff_false. intros [e' [He' Heq%bool_decide_eq_true]]%existsb_exists.
  apply Hnew. rewrite <- Heq. apply list_elem_of_fmap. exists e'. by rewrite list_elem_of_In.
Qed.

Lemma decode_extras_entries l : ∀ acc,
  Forall wf_extra l → storable_extras (acc ++ l) → (length (acc ++ l) ≤ EXTRA_FIELDS_MAX)%nat →
  decode_extras (extra_entry <$> l) acc = Ok (acc ++ l).
Proof.
  induction l as [|e l IH]; intros acc Hwf [Hne Hnd] Hlen; [by rewrite app_nil_r|].
  apply Forall_cons in Hwf as [He Hwf]. cbn [decode_extras fmap list_fmap].
  rewrite length_app in Hlen. cbn [length] in Hlen. rewrite decode_extra_entry.
  - cbn [mbind result_bind]. rewrite (proj2 (Nat.ltb_lt _ _)) by lia.
    rewrite IH; rewrite <- ?app_assoc; [done|done|by split|]. rewrite length_app. cbn [length app]. lia.
  - done.
  - apply Forall_app in Hne as [_ [? _]%Forall_cons]. done.
  - intros Hin. rewrite fmap_app in Hnd. apply NoDup_app in Hnd as (_ & Hdis & _).
    apply (Hdis _ Hin). cbn. left.
Qed.

Lemma finish_stored c seq :
  wf_config c → storable_extras (extras c) →
  finish_record seq (config_profile c)
    (let '(mkSlots a b c' d e f g h i ex) := slots_of c in
     mkSlots a b c' d e f g h i (extra_entry <$> extras c)) =
  Ok (mkDecoded seq (config_profile c) (stored_config c)).
Proof.
  intros (Hs & Hp & Ho & Hn & Hm & He & Hl) Hst.
  unfold finish_record, slots_of, config_profile, stored_config, build_config.
  destruct (mqtt c) as [m|]; [destruct Hm as (Hh & _ & Hu & Hpw & Hc)|];
    cbn -[decode_extras bytes_to_hstring bytes_to_opt_hstring];
    rewrite !bytes_to_hstring_ok by done;
    cbn -[decode_extras bytes_to_hstring bytes_to_opt_hstring];
    rewrite (decode_extras_entries (extras c) []) by done;
    cbn -[bytes_to_hstring bytes_to_opt_hstring]; [|done].
  rewrite (bytes_to_opt_hstring_ok _ _ _ Hu). cbn -[bytes_to_opt_hstring].
  rewrite (bytes_to_opt_hstring_ok _ _ _ Hpw). cbn -[bytes_to_opt_hstring].
  rewrite (bytes_to_opt_hstring_ok _ _ _ Hc). by destruct m.
Qed.

Lemma decode_stored_frame c seq tail :
  wf_config c → storable_extras (extras c) → is_u32 seq →
  decode_record (frame seq (config_profile c) (tlv_bytes (all_tlvs c)) ++ tail) =
  Ok (mkDecoded seq (config_profile c) (stored_config c)).
Proof.
  intros Hwf Hst Hseq. destruct (all_tlvs_wf c Hwf) as [_ Hb].
  assert (match mqtt c with Some m => is_u16 (mqtt_port m) | None => True end) as Hport.
  { destruct Hwf as (_ & _ & _ & _ & Hm & _). destruct (mqtt c); [apply Hm|done]. }
  rewrite decode_frame by (done || lia). rewrite payload_len, decode_tlvs_bytes.
  - unfold all_tlvs. rewrite assign_all_app, assign_fields by done.
    cbn [mbind result_bind]. rewrite assign_extras by (cbn; apply Hwf). cbn [mbind result_bind].
    by apply finish_stored.
  - etrans; [apply tlv_bytes_length_le|]. unfold frame, payload. rewrite !length_app. lia.
Qed.

(** ** Extras that a record cannot carry are refused, not dropped *)

Lemma storable_snoc earlier e :
  storable_extras earlier → extra_key e ≠ "" → extra_key e ∉ (extra_key <$> earlier) →
  storable_extras (earlier ++ [e]).
Proof.
  intros [Hne Hnd] He Hnew. split; [by apply Forall_app_2; [|by constructor]|].
  rewrite fmap_app. apply NoDup_app. split; [done|]. split; [|apply NoDup_singleton].
  intros k Hk Hk'. cbn in Hk'. apply list_elem_of_singleton in Hk' as ->. done.
Qed.

Lemma write_extras_refuses cap rest : ∀ earlier out,
  Forall wf_extra rest → blen out + 80 * Z.of_nat (length rest) ≤ cap →
  storable_extras earlier → ¬ storable_extras (earlier ++ rest) →
  write_extras cap earlier rest out = refuse (SE_MalformedField TAG_EXTRA).
Proof.
  induction rest as [|e rest IH]; intros earlier out Hwf Hcap Hst Hbad.
  { by rewrite app_nil_r in Hbad. }
  apply Forall_cons in Hwf as [He Hwf]. apply extra_entry_len in He. cbn [write_extras length] in *.
  destruct (bool_decide (extra_key e = "") || _) eqn:E; [done|].
  apply orb_false_iff in E as [Hne%bool_decide_eq_false Hdup].
  unfold write_tlv. pose proof (blen_nonneg (extra_entry e)).
  rewrite (proj2 (Z.ltb_ge _ _)) by lia. cbn [mbind result_bind]. apply IH; [done| | |].
  - autorewrite with blen. lia.
  - apply storable_snoc; [done|done|]. intros (e' & He' & Hin)%list_elem_of_fmap.
    apply not_true_iff_false in Hdup. apply Hdup, existsb_exists.
    exists e'. rewrite <- list_elem_of_In. split; [done|]. by apply bool_decide_eq_true.
  - by rewrite <- app_assoc.
Qed.

Lemma encode_refuses_extras cap c seq :
  wf_config c → ¬ storable_extras (extras c) → RECORD_MAX ≤ cap →
  encode_record cap c seq = refuse (SE_MalformedField TAG_EXTRA).
Proof.
  intros Hwf Hst Hcap. destruct (field_tlvs_wf c Hwf) as [_ Hb].
  rewrite encode_record_unfold by done. unfold RECORD_MAX in Hcap.
  destruct Hwf as (_ & _ & _ & _ & _ & He & Hl).
  rewrite write_extras_refuses; [done|done| |split; constructor|done].
  rewrite blen_app, header_len. caps. destruct (profile_len (config_profile c)); lia.
Qed.

(** ** Every decoded configuration is well formed *)

Definition bytes_ok (l : list Z) : Prop := Forall (λ b, 0 ≤ b < 256) l.
Definition opt_ok {A} (P : A → Prop) (o : option A) : Prop :=
  match o with Some a => P a | None => True end.

Definition slots_ok (s : Slots) : Prop :=
  opt_ok bytes_ok (s_ssid s) ∧ opt_ok bytes_ok (s_pass s) ∧ opt_ok bytes_ok (s_ota s) ∧
  opt_ok bytes_ok (s_name s) ∧ opt_ok bytes_ok (s_host s) ∧ opt_ok is_u16 (s_port s) ∧
  opt_ok bytes_ok (s_user s) ∧ opt_ok bytes_ok (s_mqtt_pass s) ∧ opt_ok bytes_ok (s_client s) ∧
  Forall bytes_ok (s_extras s).

Lemma bind_Ok {E A B} (m : result E A) (f : A → result E B) b :
  m ≫= f = Ok b → ∃ a, m = Ok a ∧ f a = Ok b.
Proof. destruct m as [a|e]; [|done]. by exists a. Qed.

Lemma ok_or_Ok {A} (o : option A) e a : ok_or o e = Ok a → o = Some a.
Proof. by destruct o; intros [= ->]. Qed.

Ltac bind_ok H x E := apply bind_Ok in H as (x & E & H).

Lemma byte_at_range l i : bytes_ok l → 0 ≤ byte_at l i < 256.
Proof.
  intros H. unfold byte_at. destruct (l !! i) as [b|] eqn:E; [|done].
  apply (proj1 (Forall_lookup _ _) H _ _ E).
Qed.

Lemma le16_at_range l i : bytes_ok l → is_u16 (le16_at l i).
Proof.
  intros H. unfold le16_at, is_u16, u16_max.
  pose proof (byte_at_range l i H). pose proof (byte_at_range l (i + 1) H). lia.
Qed.

Lemma le32_at_range l i : bytes_ok l → is_u32 (le32_at l i).
Proof.
  intros H. unfold le32_at, is_u32, u32_max.
  pose proof (le16_at_range l i H) as H1. pose proof (le16_at_range l (i + 2) H) as H2.
  unfold is_u16, u16_max in *. lia.
Qed.

Lemma set_once_Ok {A} (slot : option A) tag v r : set_once slot tag v = Ok r → r = Some v.
Proof. destruct slot; [done|]. by intros [= <-]. Qed.

Lemma assign_ok tag v s s' : bytes_ok v → slots_ok s → assign tag v s = Ok s' → slots_ok s'.
Proof.
  intros Hv Hs H. destruct s as [a b c d e f g h i ex]. unfold assign in H.
  unfold slots_ok in *. cbn [s_ssid s_pass s_ota s_name s_host s_port s_user s_mqtt_pass s_client s_extras] in Hs.
  repeat match type of H with
  | (if ?c then _ else _) = _ =>
      lazymatch c with
      | (length ex <? _)%nat => destruct c; [|done]
      | _ => destruct c
      end
  end;
  try (bind_ok H r E; apply set_once_Ok in E; subst r);
  injection H as <-; cbn [s_ssid s_pass s_ota s_name s_host s_port s_user s_mqtt_pass s_client s_extras opt_ok];
  destruct_and! Hs; repeat split; try done; try by apply le16_at_range.
  apply Forall_app_2; [done|by constructor].
Qed.

Lemma decode_tlvs_ok fuel : ∀ pos co rest s s',
  bytes_ok rest → slots_ok s → decode_tlvs fuel pos co rest s = Ok s' → slots_ok s'.
Proof.
  induction fuel as [|fuel IH]; intros pos co rest s s' Hr Hs H; [by simplify_eq/=|].
  destruct rest as [|tag [|vlen rest]]; [by simplify_eq/=..|].
  apply Forall_cons in Hr as [_ [_ Hr]%Forall_cons]. cbn [decode_tlvs] in H.
  destruct (co <? _); [done|]. bind_ok H s1 E.
  eapply IH; [|eapply assign_ok; [|exact Hs|exact E]|exact H]; [by apply Forall_drop|by apply Forall_take].
Qed.

Lemma bytes_to_hstring_wf cap b tag s :
  0 ≤ cap → bytes_ok b → bytes_to_hstring cap b tag = Ok s → hstring_ok cap s.
Proof.
  intros Hcap Hb H. unfold bytes_to_hstring in H. bind_ok H t E. apply ok_or_Ok in E.
  apply from_utf8_Some in E as [Eb Hu]; [|done]. unfold is_char_boundary in H.
  set (n := Z.to_nat _) in H.
  assert (utf8_valid (take n (as_bytes t)) = true) as Hv.
  { apply utf8_valid_take; [done|]. intros x Hx. rewrite Hx in H. by destruct (continuation x). }
  assert (s = String.substring 0 n t) as ->.
  { destruct (as_bytes t !! n); [destruct (continuation _)|destruct (Nat.eqb _ _)]; by simplify_eq/=. }
  split; [|by rewrite as_bytes_take].
  rewrite <- blen_as_bytes, as_bytes_take. unfold blen. rewrite length_take. lia.
Qed.

Lemma bytes_to_opt_hstring_wf cap b tag s :
  0 ≤ cap → opt_ok bytes_ok b → bytes_to_opt_hstring cap b tag = Ok s → opt_hstring_ok cap s.
Proof.
  destruct b as [b|]; intros Hcap Hb H; cbn [bytes_to_opt_hstring] in H; [|by simplify_eq].
  bind_ok H t E. simplify_eq. by eapply bytes_to_hstring_wf.
Qed.

Lemma decode_extra_wf v acc e :
  bytes_ok v → decode_extra v acc = Ok e →
  wf_extra e ∧ extra_key e ≠ "" ∧ extra_key e ∉ (extra_key <$> acc).
Proof.
  intros Hv H. destruct v as [|k rest]; [done|]. apply Forall_cons in Hv as [Hk Hr].
  cbn [decode_extra] in H. destruct (_ || _ || _) eqn:E; [done|].
  apply orb_false_iff in E as [[E1 E2]%orb_false_iff E3].
  apply Z.eqb_neq in E1. apply Z.ltb_ge in E2, E3.
  destruct (EXTRA_VALUE_MAX_LEN <? _) eqn:E4; [done|]. apply Z.ltb_ge in E4.
  bind_ok H key Ek. apply ok_or_Ok, from_utf8_Some in Ek as [Ek Hku]; [|by apply Forall_take].
  destruct (existsb _ acc) eqn:Ed; [done|]. bind_ok H val Ev.
  apply ok_or_Ok, from_utf8_Some in Ev as [Ev Hvu]; [|by apply Forall_drop].
  injection H as <-. unfold wf_extra, hstring_ok. cbn [extra_key extra_value].
  assert (str_len key = k) as Hlen.
  { rewrite <- blen_as_bytes, Ek. unfold blen. rewrite length_take. unfold blen in E2. lia. }
  assert (str_len val ≤ EXTRA_VALUE_MAX_LEN) as Hvl by by rewrite <- blen_as_bytes, Ev.
  rewrite Hlen. split_and!; [done..| |].
  - intros ->. change (0 = k) in Hlen. lia.
  - intros (e & He & Hin)%list_elem_of_fmap. apply not_true_iff_false in Ed. apply Ed, existsb_exists.
    exists e. rewrite <- list_elem_of_In. split; [done|]. by apply bool_decide_eq_true.
Qed.

Lemma decode_extras_wf vs : ∀ acc l,
  Forall bytes_ok vs → Forall wf_extra acc → storable_extras acc →
  (length acc ≤ EXTRA_FIELDS_MAX)%nat → decode_extras vs acc = Ok l →
  Forall wf_extra l ∧ storable_extras l ∧ (length l ≤ EXTRA_FIELDS_MAX)%nat.
Proof.
  induction vs as [|v vs IH]; intros acc l Hvs Ha Hst Hlen H; [by simplify_eq/=|].
  apply Forall_cons in Hvs as [Hv Hvs]. cbn [decode_extras] in H. bind_ok H e E.
  apply decode_extra_wf in E as (He & Hne & Hnew); [|done].
  destruct (Nat.ltb_spec (length acc) EXTRA_FIELDS_MAX); [|done].
  eapply IH; [done| | | |exact H].
  - by apply Forall_app_2; [|constructor].
  - by apply storable_snoc.
  - rewrite length_app. cbn [length]. lia.
Qed.

Definition decoded_ok (r : DecodedRecord) : Prop :=
  is_u32 (rec_seq r) ∧ wf_config (rec_config r) ∧ storable_extras (extras (rec_config r)) ∧
  config_profile (rec_config r) = rec_profile r ∧ lora (rec_config r) = None.

Lemma build_config_ok p ssid pass ota name hp s c :
  bytes_ok ssid → bytes_ok pass → bytes_ok ota → bytes_ok name → slots_ok s →
  opt_ok (λ '(host, port), bytes_ok host ∧ is_u16 port) hp →
  build_config p ssid pass ota name hp s = Ok c →
  wf_config c ∧ storable_extras (extras c) ∧ config_profile c = p ∧ lora c = None.
Proof.
  intros H1 H2 H3 H4 Hs Hhp H. destruct Hs as (_ & _ & _ & _ & _ & _ & Hu & Hmp & Hc & Hx).
  unfold build_config in H.
  bind_ok H a1 E1. bind_ok H a2 E2. bind_ok H a3 E3. bind_ok H a4 E4. bind_ok H xs E5. bind_ok H m E6.
  injection H as <-. apply bytes_to_hstring_wf in E1, E2, E3, E4; try done.
  apply decode_extras_wf in E5 as (Hxw & Hxs & Hxl); [|done|constructor|split; constructor|cbn; lia].
  assert (opt_ok wf_mqtt m ∧ config_profile (mkConfig a1 a2 a3 a4 None m xs) = p) as [Hm Hp].
  { destruct p; [by simplify_eq/=|]. destruct hp as [[host port]|]; [|done]. destruct Hhp as [Hh Hport].
    bind_ok E6 h F1. bind_ok E6 u F2. bind_ok E6 w F3. bind_ok E6 k F4. injection E6 as <-.
    apply bytes_to_hstring_wf in F1; [|done|done]. apply bytes_to_opt_hstring_wf in F2, F3, F4; try done. }
  done.
Qed.

Lemma finish_record_ok seq p s r :
  is_u32 seq → slots_ok s → finish_record seq p s = Ok r → decoded_ok r ∧ rec_seq r = seq.
Proof.
  intros Hseq Hs H. pose proof Hs as (Q1 & Q2 & Q3 & Q4 & Q5 & Q6 & _).
  unfold finish_record in H.
  bind_ok H a1 E1. bind_ok H a2 E2. bind_ok H a3 E3. bind_ok H a4 E4. bind_ok H hp E5.
  bind_ok H c E6. injection H as <-. apply ok_or_Ok in E1, E2, E3, E4.
  rewrite E1 in Q1. rewrite E2 in Q2. rewrite E3 in Q3. rewrite E4 in Q4. cbn in Q1, Q2, Q3, Q4.
  apply build_config_ok in E6 as (Hw & Hx & Hp & Hl); [done..|].
  destruct p; [by simplify_eq|]. bind_ok E5 host F1. bind_ok E5 port F2. injection E5 as <-.
  apply ok_or_Ok in F1, F2. rewrite F1 in Q5. rewrite F2 in Q6. done.
Qed.

(** What acceptance of a record says. *)
Lemma decode_record_Ok bytes r :
  decode_record bytes = Ok r →
  let len := le16_at bytes RECORD_LEN_OFFSET in
  HEADER_FIXED + CRC_LEN ≤ len ∧ len ≤ blen bytes ∧ le32_at bytes 0 = MAGIC ∧
  crc32 (slice bytes 0 (len - CRC_LEN)) = le32_at bytes (Z.to_nat (len - CRC_LEN)) ∧
  ∃ p s, decode_tlvs (length bytes) (HEADER_FIXED + byte_at bytes PROFILE_LEN_OFFSET) (len - CRC_LEN)
           (slice bytes (HEADER_FIXED + byte_at bytes PROFILE_LEN_OFFSET) (len - CRC_LEN)) no_slots = Ok s ∧
         finish_record (le32_at bytes 5) p s = Ok r.
Proof.
  intros H. unfold decode_record in H. cbv zeta in H |- *.
  destruct (blen bytes <? _) eqn:E1; [done|].
  destruct (negb (le32_at bytes 0 =? MAGIC)) eqn:E2; [done|].
  destruct (negb (byte_at bytes 4 =? LAYOUT_VER)) eqn:E3; [done|].
  destruct (_ || _) eqn:E4; [done|]. destruct (_ || _) eqn:E5 in H; [done|].
  bind_ok H ps F1. bind_ok H p F2.
  destruct (negb (crc32 _ =? _)) eqn:E6; [done|]. bind_ok H s F3.
  apply orb_false_iff in E4 as [E4 E4']. apply Z.ltb_ge in E4, E4'.
  apply negb_false_iff, Z.eqb_eq in E2, E6. eauto 10.
Qed.

Lemma slice_ok bytes lo hi : bytes_ok bytes → bytes_ok (slice bytes lo hi).
Proof. intros H. by apply Forall_take, Forall_drop. Qed.

(** An encoded record consists of bytes. *)
Lemma le_bytes_ok n v : bytes_ok (le_bytes n v).
Proof. apply Forall_fmap, Forall_true. intros i. apply land_255. Qed.

Lemma as_bytes_ok s : bytes_ok (as_bytes s).
Proof. apply as_bytes_range. Qed.

Lemma tlv_bytes_ok l :
  Forall (λ e, 0 ≤ e.1 < 256 ∧ blen e.2 ≤ 255 ∧ bytes_ok e.2) l → bytes_ok (tlv_bytes l).
Proof.
  induction 1 as [|[tag v] l (Ht & Hl & Hv) _ IH]; [constructor|]. rewrite tlv_bytes_cons.
  cbn [fst snd] in *. pose proof (blen_nonneg v).
  apply Forall_cons_2; [done|]. apply Forall_cons_2; [lia|]. by apply Forall_app_2.
Qed.

Lemma all_tlvs_bytes_ok c : wf_config c → bytes_ok (tlv_bytes (all_tlvs c)).
Proof.
  intros Hwf. apply tlv_bytes_ok. destruct (all_tlvs_wf c Hwf) as [Hv _].
  assert (Forall (λ e, 0 ≤ e.1 < 256 ∧ bytes_ok e.2) (all_tlvs c)) as Hb.
  { assert (∀ tag s, 0 ≤ tag < 256 → Forall (λ e, 0 ≤ e.1 < 256 ∧ bytes_ok e.2) (opt_tlv tag s)) as Ho.
    { intros tag [s|] Ht; constructor; [split; [done|apply as_bytes_ok]|constructor]. }
    unfold all_tlvs, field_tlvs. repeat apply Forall_app_2.
    - repeat (apply Forall_cons_2; [split; [done|apply as_bytes_ok]|]). constructor.
    - destruct (mqtt c) as [m|]; [|constructor]. unfold mqtt_tlvs.
      repeat apply Forall_app_2; try by apply Ho.
      apply Forall_cons_2; [split; [done|apply as_bytes_ok]|].
      apply Forall_cons_2; [split; [done|apply le_bytes_ok]|constructor].
    - destruct Hwf as (_ & _ & _ & _ & _ & He & _). apply Forall_fmap.
      eapply Forall_impl; [exact He|]. intros e [[Hk _] _]. split; [done|]. cbn [snd].
      apply Forall_cons_2; [apply Z.mod_pos_bound; lia|]. apply Forall_app_2; apply as_bytes_ok. }
  rewrite Forall_forall in *. intros e He. split; [by apply Hb|]. split; [by apply Hv|by apply Hb].
Qed.

Lemma frame_ok seq p body : bytes_ok body → bytes_ok (frame seq p body).
Proof.
  intros Hb. unfold frame, payload, bytes_ok in *. rewrite !Forall_app, !Forall_cons.
  split_and!; try apply le_bytes_ok; try apply as_bytes_ok; try done; try (by apply Forall_nil); by destruct p.
Qed.

(** ** A changed byte is noticed *)

Lemma byte_at_insert bytes i b j : (i ≠ j)%nat → byte_at (<[i := b]> bytes) j = byte_at bytes j.
Proof. intros. unfold byte_at. by rewrite list_lookup_insert_ne. Qed.

Lemma slice_insert_out bytes i b hi :
  (Z.to_nat hi ≤ i)%nat → slice (<[i := b]> bytes) 0 hi = slice bytes 0 hi.
Proof. intros. unfold slice. rewrite !drop_0, Z.sub_0_r. by rewrite take_insert_ge by lia. Qed.

Lemma slice_insert_in bytes i b b0 hi :
  (i < Z.to_nat hi)%nat → bytes !! i = Some b0 →
  ∃ before after, slice bytes 0 hi = before ++ b0 :: after ∧
                  slice (<[i := b]> bytes) 0 hi = before ++ b :: after.
Proof.
  intros Hi Hb. unfold slice. rewrite !drop_0, Z.sub_0_r.
  assert (take (Z.to_nat hi) bytes !! i = Some b0) as Hl by by rewrite lookup_take_lt.
  exists (take i (take (Z.to_nat hi) bytes)), (drop (S i) (take (Z.to_nat hi) bytes)).
  split; [by rewrite take_drop_middle|].
  rewrite take_insert_lt by done. rewrite insert_take_drop; [done|]. by apply lookup_lt_Some in Hl.
Qed.

Lemma le32_at_changed bytes i b b0 at_ :
  bytes_ok bytes → 0 ≤ b < 256 → bytes !! i = Some b0 → b ≠ b0 → (at_ ≤ i < at_ + 4)%nat →
  le32_at (<[i := b]> bytes) at_ ≠ le32_at bytes at_.
Proof.
  intros Hok Hb Hi Hne Hr. unfold le32_at, le16_at.
  assert (byte_at bytes i = b0) as E0 by (unfold byte_at; by rewrite Hi).
  assert (byte_at (<[i := b]> bytes) i = b) as E1.
  { unfold byte_at. rewrite list_lookup_insert_eq; [done|]. by apply lookup_lt_Some in Hi. }
  assert (i = at_ ∨ i = at_ + 1 ∨ i = at_ + 2 ∨ i = at_ + 2 + 1)%nat as Hc by lia.
  destruct Hc as [->|[->|[->| ->]]]; rewrite E0, E1, !byte_at_insert by lia; lia.
Qed.

(** ** Overlong text *)

(** A text longer than its field panics exactly when the cut falls inside a character. *)
Lemma bytes_to_hstring_panics cap b tag :
  0 ≤ cap →
  bytes_to_hstring cap b tag = Err Panicked ↔
  ∃ s, from_utf8 b = Some s ∧ cap < str_len s ∧ is_char_boundary (Z.to_nat cap) s = false.
Proof.
  intros Hcap. unfold bytes_to_hstring. destruct (from_utf8 b) as [s|]; cbn [ok_or mbind result_bind].
  2: { split; [done|]. by intros (s & ? & _). }
  destruct (Z.lt_ge_cases cap (str_len s)) as [Hlt|Hge].
  - rewrite Z.min_r by lia. destruct (is_char_boundary _ s) eqn:E.
    + split; [done|]. intros (s' & [= <-] & _ & H). by rewrite E in H.
    + split; [intros _; by exists s|done].
  - rewrite Z.min_l by lia. unfold str_len in *. rewrite Nat2Z.id. unfold is_char_boundary at 1.
    rewrite (lookup_ge_None_2 (as_bytes s)) by (by rewrite as_bytes_length). rewrite Nat.eqb_refl.
    split; [done|]. intros (s' & [= <-] & H & _). lia.
Qed.

(** A record whose CRC is right and whose SSID is 31 letters and a two-byte character. *)
Definition overlong_ssid : list Z := repeat 97 31 ++ [195; 169].
Definition overlong_record : list Z :=
  frame 1 LorawanFieldDevice
    (tlv_bytes [(TAG_WIFI_SSID, overlong_ssid); (TAG_WIFI_PASS, []); (TAG_OTA_URL, []);
                (TAG_DEVICE_NAME, [])]).

Lemma overlong_value_panics : decode_record overlong_record = Err Panicked.
Proof. vm_compute. reflexivity. Qed.

(** ** Examples *)

Definition sample_config : ProvisioningConfig :=
  mkConfig "attic" "open sesame" "http://ota.example.com/fw.bin" "sensor-1" None
    (Some (mkMqtt "broker.local" 1883 (Some "u") None (Some "sensor-1")))
    [mkExtra "site" "roof"; mkExtra "floor" ""].

Lemma sample_wf : wf_config sample_config ∧ storable_extras (extras sample_config).
Proof.
  split.
  - unfold wf_config, wf_mqtt, hstring_ok, opt_hstring_ok, hstring_ok. cbn [mqtt sample_config].
    split_and!; try done; [repeat (constructor; try done)|cbn; unfold EXTRA_FIELDS_MAX; lia].
  - split; [by repeat constructor|]. apply (bool_decide_unpack _). vm_compute. exact I.
Qed.

Definition sample_record : list Z :=
  frame 7 WifiMqttDevice (tlv_bytes (all_tlvs sample_config)).

Lemma sample_encoded : encode_record SECTOR_SIZE sample_config 7 = Ok sample_record.
Proof. vm_compute. reflexivity. Qed.

Lemma sample_bytes_ok : bytes_ok sample_record.
Proof. apply (bool_decide_unpack _). vm_compute. exact I. Qed.

(** ** Properties *)

(** C18: The credential record round-trips.  Every configuration that its types allow and
    whose extras have distinct non-empty keys is encoded into at most 1148 bytes, and
    decoding them, whatever follows in the sector, gives back the sequence number, the
    profile and the configuration without the LoRa keys, which the layout does not store. *)
Theorem record_roundtrip c seq cap tail :
  wf_config c → storable_extras (extras c) → is_u32 seq → RECORD_MAX ≤ cap →
  ∃ bytes, encode_record cap c seq = Ok bytes ∧ blen bytes ≤ RECORD_MAX ∧
           decode_record (bytes ++ tail) =
           Ok (mkDecoded seq (config_profile c) (stored_config c)).
Proof.
  intros Hwf Hst Hseq Hcap. eexists. split; [by apply encode_frame|]. split.
  - rewrite frame_len. destruct (all_tlvs_wf c Hwf) as [_ Hb]. unfold RECORD_MAX. caps.
    destruct (profile_len (config_profile c)); lia.
  - by apply decode_stored_frame.
Qed.

Lemma record_roundtrip_witness :
  encode_record SECTOR_SIZE sample_config 7 = Ok sample_record ∧
  ∃ bytes, encode_record SECTOR_SIZE sample_config 7 = Ok bytes ∧ blen bytes ≤ RECORD_MAX ∧
           decode_record (bytes ++ [255; 255]) =
           Ok (mkDecoded 7 (config_profile sample_config) (stored_config sample_config)).
Proof.
  split; [exact sample_encoded|].
  apply (record_roundtrip sample_config 7 SECTOR_SIZE [255; 255]); [apply sample_wf|apply sample_wf|done|done].
Defined.

(** C19: A record in which one byte was changed is refused.  If [bytes] decode to a record
    and [bytes] with the byte at [i] replaced decode too, then [i] is behind the record or
    one of the two bytes of the record length, which say where the CRC is. *)
Theorem record_damage_detected bytes r i b b0 r' :
  bytes_ok bytes → decode_record bytes = Ok r →
  bytes !! i = Some b0 → 0 ≤ b < 256 → b ≠ b0 →
  (i < Z.to_nat (le16_at bytes RECORD_LEN_OFFSET))%nat →
  i ≠ RECORD_LEN_OFFSET → i ≠ (RECORD_LEN_OFFSET + 1)%nat →
  decode_record (<[i := b]> bytes) ≠ Ok r'.
Proof.
  intros Hok Hdec Hi Hb Hne Hlt Hn1 Hn2 Hdec'.
  apply decode_record_Ok in Hdec as (Hlo & Hhi & _ & Hcrc & _).
  apply decode_record_Ok in Hdec' as (_ & _ & _ & Hcrc' & _).
  assert (le16_at (<[i := b]> bytes) RECORD_LEN_OFFSET = le16_at bytes RECORD_LEN_OFFSET) as El
    by (unfold le16_at; by rewrite !byte_at_insert by lia).
  rewrite El in Hcrc'. set (len := le16_at bytes RECORD_LEN_OFFSET) in *. caps.
  pose proof (proj1 (Forall_lookup _ _) Hok _ _ Hi) as Hb0. cbn in Hb0.
  destruct (decide (i < Z.to_nat (len - 4))%nat) as [Hin|Hout].
  - destruct (slice_insert_in bytes i b b0 (len - 4) Hin Hi) as (before & after & E1 & E2).
    rewrite E1 in Hcrc. rewrite E2 in Hcrc'.
    assert (le32_at (<[i := b]> bytes) (Z.to_nat (len - 4)) = le32_at bytes (Z.to_nat (len - 4))) as E3
      by (unfold le32_at, le16_at; by rewrite !byte_at_insert by lia).
    apply (crc32_detects before after b b0); [done..|]. congruence.
  - rewrite slice_insert_out, Hcrc in Hcrc' by lia. symmetry in Hcrc'. revert Hcrc'.
    eapply le32_at_changed; [done|done|exact Hi|done|lia].
Qed.

Lemma record_damage_detected_witness :
  decode_record sample_record =
    Ok (mkDecoded 7 WifiMqttDevice (stored_config sample_config)) ∧
  decode_record (<[30%nat := 0]> sample_record) ≠ Ok (mkDecoded 7 WifiMqttDevice sample_config).
Proof.
  assert (decode_record sample_record =
    Ok (mkDecoded 7 WifiMqttDevice (stored_config sample_config))) as H by (vm_compute; reflexivity).
  split; [exact H|].
  apply (record_damage_detected sample_record _ 30 0 (byte_at sample_record 30) _ sample_bytes_ok H);
    [vm_compute; reflexivity|lia|vm_compute; discriminate|apply Nat.ltb_lt; vm_compute; reflexivity
    |done|done].
Defined.

(** C20: Whatever bytes a sector holds, what decoding accepts is a well-formed configuration:
    every text is valid UTF-8 within the capacity of its field, the port has 16 bits, there
    are at most eight extras with distinct non-empty keys, and the MQTT fields are there
    exactly for the MQTT profile. *)
Theorem decoded_wellformed bytes r :
  bytes_ok bytes → decode_record bytes = Ok r →
  is_u32 (rec_seq r) ∧ wf_config (rec_config r) ∧ storable_extras (extras (rec_config r)) ∧
  config_profile (rec_config r) = rec_profile r ∧ lora (rec_config r) = None.
Proof.
  intros Hok H. apply decode_record_Ok in H as (_ & _ & _ & _ & p & s & Hs & Hf).
  eapply finish_record_ok in Hf as [Hr _]; [exact Hr|by apply le32_at_range|].
  eapply decode_tlvs_ok; [by apply slice_ok| |exact Hs]. repeat split; constructor.
Qed.

Lemma decoded_wellformed_witness :
  decode_record sample_record = Ok (mkDecoded 7 WifiMqttDevice (stored_config sample_config)) ∧
  wf_config (stored_config sample_config).
Proof.
  assert (decode_record sample_record =
    Ok (mkDecoded 7 WifiMqttDevice (stored_config sample_config))) as H by (vm_compute; reflexivity).
  split; [exact H|]. apply (decoded_wellformed sample_record _ sample_bytes_ok H).
Defined.
