(* ===== verification/ProvStore.v ===== *)
(** * ProvStore: the two-sector credential store ([provisioning/store.rs] of the esp-hal tier)

    The flash device is third-party code behind the [NorFlash] trait of [embedded_storage]:
    a class of operations here, with the documented behaviour as the laws [NorFlashLaws].
    [SimFlash] is a device in memory whose operations fail, part way, where a script says. *)
From S2P Require Import Prelude Text Crc32 ProvConfig ProvRecord.
Open Scope Z_scope.

Definition MAX_RECORD_LEN : Z := 1280.

(** ** The device *)

Class NorFlash (F : Type) := {
  READ_SIZE : Z;
  ERASE_SIZE : Z;
  capacity : F → Z;
  flash_read : Z → Z → F → option (list Z) * F;      (* offset, length *)
  flash_erase : Z → Z → F → option unit * F;         (* from, to *)
  flash_write : Z → list Z → F → option unit * F }.
Arguments READ_SIZE F {_}.
Arguments ERASE_SIZE F {_}.

(** [mem] is the content.  An operation that fails may have done part of its work, inside
    its range; a [healthy] device does what fits its geometry, and stays healthy. *)
Class NorFlashLaws (F : Type) `{NorFlash F} := {
  mem : F → Z → Z;
  healthy : F → Prop;
  mem_byte f a : 0 ≤ mem f a < 256;
  read_size_word : (READ_SIZE F | 4) ∧ 0 < READ_SIZE F;
  capacity_range f : 0 ≤ capacity f ≤ u32_max;
  read_capacity off len f : capacity (flash_read off len f).2 = capacity f;
  erase_capacity from to f : capacity (flash_erase from to f).2 = capacity f;
  write_capacity off bs f : capacity (flash_write off bs f).2 = capacity f;
  read_keeps off len f a : mem (flash_read off len f).2 a = mem f a;
  read_done off len f bs : (flash_read off len f).1 = Some bs → bs = mem f <$> seqZ off len;
  erase_frame from to f a : ¬ (from ≤ a < to) → mem (flash_erase from to f).2 a = mem f a;
  erase_done from to f a :
    (flash_erase from to f).1 = Some tt → from ≤ a < to → mem (flash_erase from to f).2 a = 255;
  write_frame off bs f a :
    ¬ (off ≤ a < off + blen bs) → mem (flash_write off bs f).2 a = mem f a;
  write_done off bs f i b :
    (flash_write off bs f).1 = Some tt → bs !! i = Some b →
    mem (flash_write off bs f).2 (off + Z.of_nat i) = Z.land (mem f (off + Z.of_nat i)) b;
  read_healthy off len f :
    healthy f → (READ_SIZE F | off) → (READ_SIZE F | len) → 0 ≤ off → 0 ≤ len →
    off + len ≤ capacity f →
    is_Some (flash_read off len f).1 ∧ healthy (flash_read off len f).2;
  erase_healthy from to f :
    healthy f → (ERASE_SIZE F | from) → (ERASE_SIZE F | to) → 0 ≤ from ≤ to → to ≤ capacity f →
    (flash_erase from to f).1 = Some tt ∧ healthy (flash_erase from to f).2;
  write_healthy off bs f :
    healthy f → (WRITE_GRANULARITY | off) → (WRITE_GRANULARITY | blen bs) → 0 ≤ off →
    off + blen bs ≤ capacity f →
    (flash_write off bs f).1 = Some tt ∧ healthy (flash_write off bs f).2 }.

(** ** The store *)

Record ProvisioningStore (F : Type) := mkStore { flash : F; base_offset : Z }.
Arguments mkStore {F}.
Arguments flash {F}.
Arguments base_offset {F}.

Record SaveTarget := mkTarget { next_seq : Z; target_sector : Z }.

Section store.
  Context {F : Type} `{NorFlash F}.

  Abbreviation St := (M (ProvisioningStore F) Stop).

Definition flash_op {A} (op : F → option A * F) : St A :=
  λ s, let '(r, f) := op (flash s) in (ok_or r SE_Flash, mkStore f (base_offset s)).

Definition get_store : St (ProvisioningStore F) := λ s, (Ok s, s).

Definition u32_saturating_add (a b : Z) : Z := Z.min (a + b) u32_max.

Definition open (f : F) (base_offset total_bytes : Z) : result Stop (ProvisioningStore F) :=
  let erase_size := ERASE_SIZE F in
  let end_ := u32_saturating_add base_offset total_bytes in
  if total_bytes <? STORE_SIZE then refuse (SE_TooSmall STORE_SIZE total_bytes)
  else if negb (erase_size =? SECTOR_SIZE) then refuse (SE_UnsupportedGeometry erase_size)
  else if negb (base_offset `mod` erase_size =? 0) then refuse SE_NotAligned
  else if capacity f <? end_ then refuse (SE_OffsetOutOfBounds end_ (capacity f))
  else Ok (mkStore f base_offset).

Definition sector_offset (s : ProvisioningStore F) (i : Z) : Z :=
  u32_wrap (base_offset s + i * SECTOR_SIZE).

(** [usize::next_multiple_of] *)
Definition next_multiple_of (n k : Z) : Z :=
  let r := n `mod` k in if r =? 0 then n else n + (k - r).

(** [decode_record(..).ok()] *)
Definition ok_record (r : result Stop DecodedRecord) : result Stop (option DecodedRecord) :=
  match r with
  | Ok rec => Ok (Some rec)
  | Err (Refused _) => Ok None
  | Err Panicked => Err Panicked
  end.

Definition try_read_sector (sector_index : Z) : St (option DecodedRecord) :=
  s ← get_store;
  let base := sector_offset s sector_index in
  header ← flash_op (flash_read base HEADER_FIXED);
  let record_len := Z.min (le16_at header RECORD_LEN_OFFSET) MAX_RECORD_LEN in
  let read_len := Z.min (next_multiple_of record_len (READ_SIZE F)) MAX_RECORD_LEN in
  bytes ← flash_op (flash_read base read_len);
  let buf := bytes ++ repeat 0 (Z.to_nat (MAX_RECORD_LEN - read_len)) in
  of_result (ok_record (decode_record (slice buf 0 record_len))).

Definition is_provisioned : St bool :=
  a ← try_read_sector 0;
  b ← try_read_sector 1;
  mret (match pick_active a b with Some _ => true | None => false end).

Definition load : St (option ProvisioningConfig) :=
  a ← try_read_sector 0;
  b ← try_read_sector 1;
  mret (rec_config <$> pick_active a b).

Definition choose_target (a b : option DecodedRecord) : Z :=
  match a, b with
  | None, _ => 0
  | _, None => 1
  | Some a, Some b => if rec_seq b <=? rec_seq a then 1 else 0
  end.

Definition plan_save : St SaveTarget :=
  a ← try_read_sector 0;
  b ← try_read_sector 1;
  let max_seq := default 0 (rec_seq <$> pick_active a b) in
  mret (mkTarget (u32_saturating_add max_seq 1) (choose_target a b)).

(** The record and the bytes up to the write granularity. *)
Definition padded (bytes : list Z) : list Z :=
  bytes ++ repeat 255 (Z.to_nat (pad_to_write_granularity (blen bytes) - blen bytes)).

Definition save (config : ProvisioningConfig) : St unit :=
  target ← plan_save;
  s ← get_store;
  bytes ← of_result (encode_record SECTOR_SIZE config (next_seq target));
  let offset := sector_offset s (target_sector target) in
  let erase_end := u32_wrap (offset + SECTOR_SIZE) in
  _ ← flash_op (flash_erase offset erase_end);
  flash_op (flash_write offset (padded bytes)).

Definition erase_all : St unit :=
  s ← get_store;
  flash_op (flash_erase (sector_offset s 0) (sector_offset s 2)).

End store.

(** ** A device in memory

    [cells] holds the bytes that are not erased; a script entry [Some k] makes the next
    operation fail after [k] bytes. *)
Record SimFlash := mkSim { cells : gmap Z Z; script : list (option nat); sim_capacity : Z }.

Definition sim_mem (f : SimFlash) (a : Z) : Z := default 255 (cells f !! a) `mod` 256.

Definition sim_erase (from n : Z) (c : gmap Z Z) : gmap Z Z :=
  foldr delete c (seqZ from n).

Fixpoint sim_write (off : Z) (bs : list Z) (c : gmap Z Z) : gmap Z Z :=
  match bs with
  | [] => c
  | b :: bs => sim_write (off + 1) bs (<[off := Z.land (default 255 (c !! off) `mod` 256) b]> c)
  end.

(** Does the next operation fail, and after how many bytes? *)
Definition next_fault (f : SimFlash) : option nat * SimFlash :=
  match script f with
  | [] => (None, f)
  | x :: xs => (x, mkSim (cells f) xs (sim_capacity f))
  end.

#[export] Instance sim_flash : NorFlash SimFlash := {
  READ_SIZE := 4;
  ERASE_SIZE := 4096;
  capacity f := Z.max 0 (Z.min (sim_capacity f) u32_max);
  flash_read off len f :=
    let '(fault, f) := next_fault f in
    match fault with
    | Some _ => (None, f)
    | None => (Some (sim_mem f <$> seqZ off len), f)
    end;
  flash_erase from to f :=
    let '(fault, f) := next_fault f in
    let n := match fault with Some k => Z.min (Z.of_nat k) (to - from) | None => to - from end in
    (match fault with Some _ => None | None => Some tt end,
     mkSim (sim_erase from n (cells f)) (script f) (sim_capacity f));
  flash_write off bs f :=
    let '(fault, f) := next_fault f in
    let bs' := match fault with Some k => take k bs | None => bs end in
    (match fault with Some _ => None | None => Some tt end,
     mkSim (sim_write off bs' (cells f)) (script f) (sim_capacity f)) }.
