(* ===== verification/ProvStoreProps.v ===== *)
(** * ProvStoreProps: a save never touches the active record, and the store is a register *)
From S2P Require Import Prelude Text Crc32 ProvConfig ProvRecord ProvRecordProps ProvStore.
Open Scope Z_scope.

(** ** The in-memory device keeps the laws *)

Lemma sim_erase_lookup from n c a :
  sim_erase from n c !! a = if decide (from ≤ a < from + n) then None else c !! a.
Proof.
  unfold sim_erase. case_decide as Ha.
  - assert (a ∈ seqZ from n) as Hin by (apply elem_of_seqZ; lia). induction (seqZ from n) as [|x l IH].
    { by apply not_elem_of_nil in Hin. }
    cbn. destruct (decide (a = x)) as [->|]; [by rewrite lookup_delete_eq|].
    rewrite lookup_delete_ne by done. apply IH. by apply elem_of_cons in Hin as [|].
  - assert (a ∉ seqZ from n) as Hin by (rewrite elem_of_seqZ; lia). induction (seqZ from n) as [|x l IH]; [done|].
    cbn. apply not_elem_of_cons in Hin as [Hx Hl]. rewrite lookup_delete_ne by done. by apply IH.
Qed.

Lemma sim_write_frame off bs c a : ¬ (off ≤ a < off + blen bs) → sim_write off bs c !! a = c !! a.
Proof.
  revert off c. induction bs as [|b bs IH]; intros off c Ha; [done|]. cbn [sim_write].
  rewrite blen_cons in Ha. pose proof (blen_nonneg bs). rewrite IH by lia. by rewrite lookup_insert_ne by lia.
Qed.

Lemma sim_write_done off bs c i b :
  bs !! i = Some b →
  sim_write off bs c !! (off + Z.of_nat i) =
  Some (Z.land (default 255 (c !! (off + Z.of_nat i)) `mod` 256) b).
Proof.
  revert off c i. induction bs as [|x bs IH]; intros off c i Hi; [done|]. cbn [sim_write].
  destruct i as [|i]; cbn in Hi.
  - simplify_eq. rewrite sim_write_frame by lia. by rewrite Z.add_0_r, lookup_insert_eq.
  - replace (off + Z.of_nat (S i)) with (off + 1 + Z.of_nat i) by lia. rewrite (IH _ _ _ Hi).
    by rewrite lookup_insert_ne by lia.
Qed.

Lemma land_byte_mod a b : 0 ≤ a < 256 → Z.land a b `mod` 256 = Z.land a b.
Proof.
  intros Ha. rewrite <- !land_255_mod, <- Z.land_assoc, (Z.land_comm b), Z.land_assoc.
  by rewrite land_255_mod, Z.mod_small.
Qed.

#[export, program] Instance sim_flash_laws : NorFlashLaws SimFlash := {
  mem := sim_mem;
  healthy f := script f = [] }.
Next Obligation. intros. unfold sim_mem. apply Z.mod_pos_bound. lia. Qed.
Next Obligation. split; [by exists 1|done]. Qed.
Next Obligation. intros. cbn. unfold u32_max. lia. Qed.
Next Obligation. intros. cbn. unfold next_fault. by destruct (script f) as [|[]]. Qed.
Next Obligation. intros. cbn. unfold next_fault. by destruct (script f) as [|[]]. Qed.
Next Obligation. intros. cbn. unfold next_fault. by destruct (script f) as [|[]]. Qed.
Next Obligation. intros. cbn. unfold next_fault. by destruct (script f) as [|[]]. Qed.
Next Obligation. intros off len f bs. cbn. unfold next_fault. by destruct (script f) as [|[]]; intros [= <-]. Qed.
Next Obligation.
  intros from to f a Ha. cbn. unfold next_fault, sim_mem.
  destruct (script f) as [|[k|]]; cbn; rewrite sim_erase_lookup; by rewrite decide_False by lia.
Qed.
Next Obligation.
  intros from to f a. cbn. unfold next_fault, sim_mem.
  destruct (script f) as [|[k|]]; cbn; intros [=] Ha; rewrite sim_erase_lookup; by rewrite decide_True by lia.
Qed.
Next Obligation.
  intros off bs f a Ha. cbn. unfold next_fault, sim_mem.
  destruct (script f) as [|[k|]]; cbn; rewrite sim_write_frame; try done.
  unfold blen in *. rewrite length_take. lia.
Qed.
Next Obligation.
  intros off bs f i b. cbn. unfold next_fault, sim_mem.
  destruct (script f) as [|[k|]]; cbn; intros [=] Hi; rewrite (sim_write_done _ _ _ _ _ Hi);
    cbn [default]; apply land_byte_mod, Z.mod_pos_bound; lia.
Qed.
Next Obligation. intros off len f Hh _ _ _ _ _. cbn. unfold next_fault. rewrite Hh. by split. Qed.
Next Obligation. intros from to f Hh _ _ _ _. cbn. unfold next_fault. rewrite Hh. by split. Qed.
Next Obligation. intros off bs f Hh _ _ _ _. cbn. unfold next_fault. rewrite Hh. by split. Qed.

(** ** What the content of a device says *)

(** The bytes of a sector that decoding looks at. *)
Definition window (m : Z → Z) (off : Z) : list Z := m <$> seqZ off MAX_RECORD_LEN.

Definition view (m : Z → Z) (off : Z) : result Stop (option DecodedRecord) :=
  let w := window m off in
  ok_record (decode_record (slice w 0 (Z.min (le16_at w RECORD_LEN_OFFSET) MAX_RECORD_LEN))).

Lemma window_ext m m' off :
  (∀ a, off ≤ a < off + MAX_RECORD_LEN → m a = m' a) → window m off = window m' off.
Proof.
  intros Heq. unfold window. apply list_fmap_ext. intros i a Ha.
  apply lookup_seqZ in Ha as [-> Hi]. apply Heq. lia.
Qed.

Lemma view_ext m m' off :
  (∀ a, off ≤ a < off + MAX_RECORD_LEN → m a = m' a) → view m off = view m' off.
Proof. intros Heq. unfold view. by rewrite (window_ext m m'). Qed.

Lemma seqZ_take off n k : 0 ≤ k ≤ n → take (Z.to_nat k) (seqZ off n) = seqZ off k.
Proof.
  intros Hk. replace n with (k + (n - k)) by lia. rewrite seqZ_app by lia.
  apply take_app_length'. rewrite length_seqZ. lia.
Qed.

Lemma byte_at_window m off (n : Z) i :
  (i < Z.to_nat n)%nat → byte_at (m <$> seqZ off n) i = m (off + Z.of_nat i).
Proof. intros Hi. unfold byte_at. rewrite list_lookup_fmap, lookup_seqZ_lt by lia. done. Qed.

(** A buffer filled from the device, cut to the record, is the window cut to the record. *)
Lemma window_prefix m off read_len n rest :
  0 ≤ n ≤ read_len → read_len ≤ MAX_RECORD_LEN →
  slice ((m <$> seqZ off read_len) ++ rest) 0 n = slice (window m off) 0 n.
Proof.
  intros Hn Hr. unfold slice, window. rewrite !drop_0, Z.sub_0_r.
  rewrite take_app_le by (rewrite length_fmap, length_seqZ; lia).
  by rewrite <- !fmap_take, !seqZ_take by lia.
Qed.

Section store_props.
  Context {F : Type} {NF : NorFlash F} {NFL : NorFlashLaws F}.

Definition store_mem (s : ProvisioningStore F) : Z → Z := mem (flash s).

(** What [open] establishes. *)
Definition wf_store (s : ProvisioningStore F) : Prop :=
  ERASE_SIZE F = SECTOR_SIZE ∧ (SECTOR_SIZE | base_offset s) ∧ 0 ≤ base_offset s ∧
  base_offset s + STORE_SIZE ≤ capacity (flash s) ∧ base_offset s + STORE_SIZE ≤ u32_max.

Definition sector (s : ProvisioningStore F) (i : Z) : result Stop (option DecodedRecord) :=
  view (store_mem s) (base_offset s + i * SECTOR_SIZE).

Lemma open_wf f base total s :
  0 ≤ base → capacity f < u32_max → open f base total = Ok s → wf_store s ∧ flash s = f.
Proof.
  unfold open, u32_saturating_add. intros Hb Hcap Ho.
  destruct (total <? STORE_SIZE) eqn:E1; [done|]. apply Z.ltb_ge in E1.
  destruct (negb (_ =? _)) eqn:E2; [done|]. apply negb_false_iff, Z.eqb_eq in E2.
  destruct (negb (_ =? _)) eqn:E3; [done|]. apply negb_false_iff, Z.eqb_eq in E3.
  destruct (_ <? _) eqn:E4; [done|]. apply Z.ltb_ge in E4. injection Ho as <-.
  rewrite E2 in E3. apply Z.mod_divide in E3; [|done]. unfold wf_store. cbn. split_and!; try done; lia.
Qed.

Lemma sector_offset_wf s i : wf_store s → 0 ≤ i ≤ 2 → sector_offset s i = base_offset s + i * SECTOR_SIZE.
Proof.
  intros (_ & _ & H0 & _ & H1) Hi. unfold sector_offset. apply u32_wrap_small.
  unfold is_u32, STORE_SIZE, SECTOR_SIZE in *. lia.
Qed.

(** Two stores with the same base and content. *)
Definition same (s s' : ProvisioningStore F) : Prop :=
  base_offset s' = base_offset s ∧ capacity (flash s') = capacity (flash s) ∧
  ∀ a, store_mem s' a = store_mem s a.

#[local] Instance same_equiv : Equivalence same.
Proof.
  split.
  - done.
  - intros x y (E1 & E2 & E3). by repeat split.
  - intros x y z (E1 & E2 & E3) (F1 & F2 & F3). repeat split; [congruence..|].
    intros a. by rewrite F3.
Qed.

Lemma same_wf s s' : same s s' → wf_store s → wf_store s'.
Proof. intros (E1 & E2 & _) Hwf. unfold wf_store. by rewrite E1, E2. Qed.

Lemma same_sector s s' i : same s s' → sector s' i = sector s i.
Proof. intros (E1 & _ & E3). unfold sector. rewrite E1. by apply view_ext. Qed.

Lemma next_multiple_of_ge n k : 0 < k → 0 ≤ n → n ≤ next_multiple_of n k ∧ (k | next_multiple_of n k).
Proof.
  intros Hk Hn. unfold next_multiple_of. pose proof (Z.mod_pos_bound n k Hk).
  pose proof (Z.div_mod n k ltac:(lia)). destruct (Z.eqb_spec (n `mod` k) 0).
  - split; [lia|]. by apply Z.mod_divide; [lia|].
  - split; [lia|]. exists (n / k + 1). lia.
Qed.

Lemma read_same s off len r s' :
  flash_op (flash_read off len) s = (r, s') →
  same s s' ∧ match r with
              | Ok bs => bs = store_mem s <$> seqZ off len
              | Err e => e = Refused SE_Flash
              end.
Proof.
  unfold flash_op. pose proof (read_keeps off len (flash s)) as Hk.
  pose proof (read_done off len (flash s)) as Hd. pose proof (read_capacity off len (flash s)) as Hc.
  destruct (flash_read off len (flash s)) as [[bs|] f]; cbn in *; intros [= <- <-].
  - split; [by repeat split|]. by apply Hd.
  - by repeat split.
Qed.

(** A read inside the store. *)
Lemma sector_read s off len r s' :
  flash_op (flash_read off len) s = (r, s') →
  same s s' ∧ (r = Ok (store_mem s <$> seqZ off len) ∨ r = refuse SE_Flash) ∧
  (wf_store s → healthy (flash s) → (4 | off) → (READ_SIZE F | len) → 0 ≤ len →
   base_offset s ≤ off → off + len ≤ base_offset s + STORE_SIZE →
   r = Ok (store_mem s <$> seqZ off len) ∧ healthy (flash s')).
Proof.
  intros Hr. destruct (read_same _ _ _ _ _ Hr) as [Hs Hres]. split; [done|].
  split; [destruct r; [by left; subst|by right; subst]|].
  intros (_ & _ & Hb & Hcap & _) Hh Hoff Hlen H0 Hlo Hhi. destruct read_size_word as [Hrw _].
  destruct (read_healthy off len (flash s)) as [[bs Hbs] Hh']; [done| |done|lia|lia|lia|].
  { etrans; [exact Hrw|exact Hoff]. }
  unfold flash_op in Hr. destruct (flash_read off len (flash s)) as [r' f] eqn:E. cbn in Hbs, Hh'. subst r'.
  injection Hr as <- <-. cbn in Hres |- *. by subst bs.
Qed.

Lemma window_len16 (s : ProvisioningStore F) off n :
  HEADER_FIXED ≤ n → n ≤ MAX_RECORD_LEN →
  le16_at (store_mem s <$> seqZ off n) RECORD_LEN_OFFSET =
  le16_at (window (store_mem s) off) RECORD_LEN_OFFSET.
Proof.
  intros. unfold le16_at, window, RECORD_LEN_OFFSET, HEADER_FIXED, MAX_RECORD_LEN in *.
  by rewrite !byte_at_window by lia.
Qed.

Lemma window_bytes_ok (m : F) off : bytes_ok (window (mem m) off).
Proof. apply Forall_fmap, Forall_true. intros a. apply mem_byte. Qed.

(** The length read from the header, and the rounded length of the second read. *)
Lemma read_len_ok (m : F) off :
  let len := Z.min (le16_at (window (mem m) off) RECORD_LEN_OFFSET) MAX_RECORD_LEN in
  let read_len := Z.min (next_multiple_of len (READ_SIZE F)) MAX_RECORD_LEN in
  0 ≤ len ≤ read_len ∧ read_len ≤ MAX_RECORD_LEN ∧ (READ_SIZE F | read_len).
Proof.
  intros len read_len.
  pose proof (le16_at_range (window (mem m) off) RECORD_LEN_OFFSET (window_bytes_ok _ _)) as Hrange.
  destruct read_size_word as [Hw Hp]. unfold is_u16 in Hrange.
  destruct (next_multiple_of_ge len (READ_SIZE F)) as [Hn1 Hn2]; [done|unfold len, MAX_RECORD_LEN; lia|].
  unfold read_len. split; [unfold len, MAX_RECORD_LEN in *; lia|]. split; [lia|].
  destruct (Z.min_spec (next_multiple_of len (READ_SIZE F)) MAX_RECORD_LEN) as [[_ ->]|[_ ->]]; [done|].
  etrans; [exact Hw|]. by exists 320.
Qed.

Lemma sector_range s i :
  wf_store s → 0 ≤ i ≤ 1 →
  (4 | base_offset s + i * SECTOR_SIZE) ∧ base_offset s ≤ base_offset s + i * SECTOR_SIZE ∧
  base_offset s + i * SECTOR_SIZE + MAX_RECORD_LEN ≤ base_offset s + STORE_SIZE.
Proof.
  intros (_ & [k Hk] & _) Hi. unfold SECTOR_SIZE, STORE_SIZE, MAX_RECORD_LEN in *.
  split; [|lia]. exists (k * 1024 + i * 1024). lia.
Qed.

Lemma sector_eq s i :
  let off := base_offset s + i * SECTOR_SIZE in
  sector s i = ok_record (decode_record (slice (window (store_mem s) off) 0
    (Z.min (le16_at (window (store_mem s) off) RECORD_LEN_OFFSET) MAX_RECORD_LEN))).
Proof. reflexivity. Qed.

(** A sector read changes nothing; it ends in the sector's record or in a flash error. *)
Lemma try_read_sector_spec s i r s' :
  wf_store s → 0 ≤ i ≤ 1 → try_read_sector i s = (r, s') →
  same s s' ∧ (r = sector s i ∨ r = refuse SE_Flash) ∧
  (healthy (flash s) → r = sector s i ∧ healthy (flash s')).
Proof.
  intros Hwf Hi Hr. unfold try_read_sector, get_store, mbind, M_bind in Hr.
  rewrite sector_offset_wf in Hr by (done || lia). set (off := base_offset s + i * SECTOR_SIZE) in *.
  destruct (sector_range s i Hwf Hi) as (Ho1 & Ho2 & Ho3). fold off in Ho1, Ho2, Ho3.
  assert (HEADER_FIXED = 12 ∧ MAX_RECORD_LEN = 1280) as [HF HM] by done.
  destruct (flash_op (flash_read off HEADER_FIXED) s) as [r1 s1] eqn:E1.
  destruct (sector_read _ _ _ _ _ E1) as (Hs1 & Hr1 & Hh1).
  assert (healthy (flash s) → r1 = Ok (store_mem s <$> seqZ off HEADER_FIXED) ∧ healthy (flash s1)) as Hh1'.
  { intros Hh. apply Hh1; try done; [|lia]. etrans; [apply read_size_word|]. by exists 3. }
  clear Hh1. destruct Hr1 as [->| ->]; cbv beta iota in Hr.
  2: { injection Hr as <- <-. split; [done|]. split; [by right|]. intros Hh. by destruct (Hh1' Hh). }
  rewrite window_len16 in Hr by lia. destruct (read_len_ok (flash s) off) as (Hl1 & Hl2 & Hl3).
  fold (store_mem s) in Hl1, Hl2, Hl3.
  set (len := Z.min (le16_at (window (store_mem s) off) RECORD_LEN_OFFSET) MAX_RECORD_LEN) in *.
  set (read_len := Z.min (next_multiple_of len (READ_SIZE F)) MAX_RECORD_LEN) in *.
  destruct (flash_op (flash_read off read_len) s1) as [r2 s2] eqn:E2.
  destruct (sector_read _ _ _ _ _ E2) as (Hs2 & Hr2 & Hh2). pose proof Hs1 as (Hb1 & _ & Hm1).
  assert (healthy (flash s) → r2 = Ok (store_mem s1 <$> seqZ off read_len) ∧ healthy (flash s2)) as Hh2'.
  { intros Hh. apply Hh2; rewrite ?Hb1; try done; [by eapply same_wf|by apply Hh1'|lia|lia]. }
  clear Hh2. assert (same s s2) as Hs by by etrans.
  destruct Hr2 as [->| ->]; cbv beta iota in Hr.
  2: { injection Hr as <- <-. split; [done|]. split; [by right|]. intros Hh. by destruct (Hh2' Hh). }
  rewrite window_prefix, (window_ext (store_mem s1) (store_mem s)) in Hr by (done || (intros; apply Hm1)).
  pose proof (sector_eq s i) as Esec. cbv zeta in Esec. fold off len in Esec.
  rewrite <- Esec in Hr. clear Esec.
  unfold of_result in Hr. generalize dependent (sector s i). intros v Hr. injection Hr as <- <-.
  split; [done|]. split; [by left|]. intros Hh. split; [done|]. by apply Hh2'.
Qed.

(** ** Reading both sectors *)

(** What a function of both sectors is worth. *)
Definition both {A} (s : ProvisioningStore F) (f : option DecodedRecord → option DecodedRecord → A) :
    result Stop A :=
  a ← sector s 0; b ← sector s 1; Ok (f a b).

Lemma both_eq {A} (f : option DecodedRecord → option DecodedRecord → A) s a b :
  sector s 0 = Ok a → sector s 1 = Ok b → both s f = Ok (f a b).
Proof. intros Ha Hb. unfold both. by rewrite Ha, Hb. Qed.

Lemma both_inv {A} (f : option DecodedRecord → option DecodedRecord → A) s x :
  both s f = Ok x → ∃ a b, sector s 0 = Ok a ∧ sector s 1 = Ok b ∧ x = f a b.
Proof.
  unfold both. intros H. apply bind_Ok in H as (a & Ha & H). apply bind_Ok in H as (b & Hb & H).
  exists a, b. split; [exact Ha|]. split; [exact Hb|]. by injection H.
Qed.

(** [m] reads [v], or fails. *)
Definition reads {A} (m : M (ProvisioningStore F) Stop A) (v : ProvisioningStore F → result Stop A) : Prop :=
  ∀ s r s', wf_store s → m s = (r, s') →
    same s s' ∧ (r = v s ∨ r = refuse SE_Flash) ∧
    (healthy (flash s) → r = v s ∧ healthy (flash s')).

Lemma sector_reads_ret {A} (x : A) : reads (mret x) (λ _, Ok x).
Proof. intros s r s' _ [= <- <-]. split; [done|]. split; [by left|done]. Qed.

Lemma sector_reads_bind {A B} m v (f : A → M (ProvisioningStore F) Stop B) w :
  reads m v → (∀ a, reads (f a) (w a)) → (∀ s s', same s s' → v s' = v s) →
  (∀ a s s', same s s' → w a s' = w a s) →
  reads (m ≫= f) (λ s, v s ≫= λ a, w a s).
Proof.
  intros Hm Hf Hv Hw s r s' Hwf Hr. unfold mbind, M_bind in Hr.
  destruct (m s) as [r0 s0] eqn:E0. destruct (Hm _ _ _ Hwf E0) as (Hs0 & Hr0 & Hh0).
  destruct r0 as [a|e].
  - destruct (Hf a _ _ _ (same_wf _ _ Hs0 Hwf) Hr) as (Hs1 & Hr1 & Hh1).
    rewrite (Hw a _ _ Hs0) in Hr1, Hh1. destruct Hr0 as [<-|[=]]. cbn [mbind result_bind].
    split; [by etrans|]. split; [done|]. intros Hh. by apply Hh1, Hh0.
  - injection Hr as <- <-. split; [done|]. split.
    + destruct Hr0 as [<-|[= ->]]; [by left|by right].
    + intros Hh. destruct (Hh0 Hh) as [<- ?]. done.
Qed.

Lemma try_read_sector_reads i : 0 ≤ i ≤ 1 → reads (try_read_sector i) (λ s, sector s i).
Proof. intros Hi s r s' Hwf. by apply try_read_sector_spec. Qed.

Lemma both_spec {A} (f : option DecodedRecord → option DecodedRecord → A) :
  reads (a ← try_read_sector 0; b ← try_read_sector 1; mret (f a b)) (λ s, both s f).
Proof.
  unfold both. apply (sector_reads_bind _ (λ s, sector s 0) _ (λ a s, b ← sector s 1; Ok (f a b))).
  - by apply try_read_sector_reads.
  - intros a. apply (sector_reads_bind _ (λ s, sector s 1) _ (λ b s, Ok (f a b))).
    + by apply try_read_sector_reads.
    + intros b. apply sector_reads_ret.
    + intros. by apply same_sector.
    + done.
  - intros. by apply same_sector.
  - intros a s s' Hs. by rewrite (same_sector s s' 1 Hs).
Qed.

(** The configuration two sectors hold. *)
Definition held (a b : option DecodedRecord) : option ProvisioningConfig := rec_config <$> pick_active a b.

Lemma load_reads : reads load (λ s, both s held).
Proof. exact (both_spec _). Qed.

Lemma is_provisioned_reads :
  reads is_provisioned (λ s, both s (λ a b, match pick_active a b with Some _ => true | None => false end)).
Proof. exact (both_spec _). Qed.

Definition target_of (a b : option DecodedRecord) : SaveTarget :=
  mkTarget (u32_saturating_add (default 0 (rec_seq <$> pick_active a b)) 1) (choose_target a b).

Lemma plan_save_reads : reads plan_save (λ s, both s target_of).
Proof. exact (both_spec _). Qed.

(** The sector a save leaves alone holds the active record. *)
Lemma spared_sector_active (a b : option DecodedRecord) :
  let t := choose_target a b in
  (t = 0 ∧ pick_active a b = b) ∨ (t = 1 ∧ pick_active a b = a).
Proof.
  destruct a as [a|], b as [b|]; cbn; auto. destruct (rec_seq b <=? rec_seq a); auto.
Qed.

(** ** Writing a sector *)

Definition off_of (s : ProvisioningStore F) (i : Z) : Z := base_offset s + i * SECTOR_SIZE.

(** Only the sector [i] may differ. *)
Definition spares (s s' : ProvisioningStore F) (i : Z) : Prop :=
  base_offset s' = base_offset s ∧ capacity (flash s') = capacity (flash s) ∧
  ∀ a, ¬ (off_of s i ≤ a < off_of s i + SECTOR_SIZE) → store_mem s' a = store_mem s a.

Lemma spares_trans s1 s2 s3 i : spares s1 s2 i → spares s2 s3 i → spares s1 s3 i.
Proof.
  intros (E1 & E2 & E3) (F1 & F2 & F3). unfold off_of in *. rewrite E1 in F3.
  split; [congruence|]. split; [congruence|]. intros a Ha. rewrite F3, E3 by done. done.
Qed.

Lemma same_spares s s' i : same s s' → spares s s' i.
Proof. intros (E1 & E2 & E3). by repeat split. Qed.

Lemma spares_wf s s' i : spares s s' i → wf_store s → wf_store s'.
Proof. intros (E1 & E2 & _) Hwf. unfold wf_store. by rewrite E1, E2. Qed.

Lemma spares_sector s s' i j : spares s s' i → i ≠ j → sector s' j = sector s j.
Proof.
  intros (E1 & _ & E3) Hij. unfold sector. rewrite E1. apply view_ext. intros a Ha. apply E3.
  unfold off_of, SECTOR_SIZE, MAX_RECORD_LEN in *. lia.
Qed.

Lemma erase_spec s i r s' :
  wf_store s → 0 ≤ i ≤ 1 → flash_op (flash_erase (off_of s i) (off_of s i + SECTOR_SIZE)) s = (r, s') →
  spares s s' i ∧
  (r = refuse SE_Flash ∨
   r = Ok tt ∧ ∀ a, off_of s i ≤ a < off_of s i + SECTOR_SIZE → store_mem s' a = 255) ∧
  (healthy (flash s) → r = Ok tt ∧ healthy (flash s')).
Proof.
  intros Hwf Hi. unfold flash_op, spares, store_mem.
  pose proof (erase_frame (off_of s i) (off_of s i + SECTOR_SIZE) (flash s)) as Hf.
  pose proof (erase_done (off_of s i) (off_of s i + SECTOR_SIZE) (flash s)) as Hd.
  pose proof (erase_capacity (off_of s i) (off_of s i + SECTOR_SIZE) (flash s)) as Hc.
  pose proof (erase_healthy (off_of s i) (off_of s i + SECTOR_SIZE) (flash s)) as Hh.
  destruct (flash_erase _ _ _) as [o f]. cbn in *.
  assert (healthy (flash s) → o = Some tt ∧ healthy f) as Hh'.
  { intros H. destruct Hwf as (HE & [k Hk] & H0 & Hcap & _). apply Hh; [done| | |unfold off_of..];
      unfold SECTOR_SIZE, STORE_SIZE in *; [exists (k + i)|exists (k + i + 1)|lia..];
      unfold off_of, SECTOR_SIZE; lia. }
  destruct o as [[]|]; intros [= <- <-]; cbn.
  - split; [done|]. split; [right; auto|]. intros H. split; [done|]. by apply Hh'.
  - split; [done|]. split; [by left|]. intros H. by destruct (Hh' H).
Qed.

Lemma write_spec s i bs r s' :
  wf_store s → 0 ≤ i ≤ 1 → (WRITE_GRANULARITY | blen bs) → blen bs ≤ SECTOR_SIZE → bytes_ok bs →
  (∀ a, off_of s i ≤ a < off_of s i + SECTOR_SIZE → store_mem s a = 255) →
  flash_op (flash_write (off_of s i) bs) s = (r, s') →
  spares s s' i ∧
  (r = refuse SE_Flash ∨
   r = Ok tt ∧ ∀ k b, bs !! k = Some b → store_mem s' (off_of s i + Z.of_nat k) = b) ∧
  (healthy (flash s) → r = Ok tt ∧ healthy (flash s')).
Proof.
  intros Hwf Hi Hg Hlen Hok Her. unfold flash_op, spares, store_mem in *.
  pose proof (write_frame (off_of s i) bs (flash s)) as Hf.
  pose proof (write_done (off_of s i) bs (flash s)) as Hd.
  pose proof (write_capacity (off_of s i) bs (flash s)) as Hc.
  pose proof (write_healthy (off_of s i) bs (flash s)) as Hh.
  destruct (flash_write _ _ _) as [o f]. cbn in *.
  assert (healthy (flash s) → o = Some tt ∧ healthy f) as Hh'.
  { intros H. destruct Hwf as (_ & [k Hk] & H0 & Hcap & _). apply Hh; [done| |done|unfold off_of..];
      unfold SECTOR_SIZE, STORE_SIZE in *; [exists (k * 1024 + i * 1024)|lia..].
    unfold off_of, SECTOR_SIZE, WRITE_GRANULARITY; lia. }
  assert (∀ a, ¬ (off_of s i ≤ a < off_of s i + SECTOR_SIZE) → mem f a = mem (flash s) a) as Hf'.
  { intros a Ha. apply Hf. lia. }
  destruct o as [[]|]; intros [= <- <-]; cbn.
  - split; [done|]. split; [|intros H; split; [done|]; by apply Hh'].
    right. split; [done|]. intros k b Hb. rewrite (Hd k b) by done.
    pose proof (lookup_lt_Some _ _ _ Hb) as Hk. rewrite Her by (unfold blen in Hlen; lia).
    rewrite Z.land_comm. apply land_255_small. exact (proj1 (Forall_lookup _ _) Hok _ _ Hb).
  - split; [done|]. split; [by left|]. intros H. by destruct (Hh' H).
Qed.

(** ** Saving *)

Lemma pad_bounds n : 0 ≤ n → n ≤ pad_to_write_granularity n ≤ n + 3 ∧ (4 | pad_to_write_granularity n).
Proof.
  intros Hn. unfold pad_to_write_granularity, WRITE_GRANULARITY.
  rewrite <- Z.ldiff_land. change (4 - 1) with (Z.ones 2). rewrite Z.ldiff_ones_r by lia.
  rewrite Z.shiftr_div_pow2, Z.shiftl_mul_pow2 by lia. change (2 ^ 2) with 4.
  split; [Z.to_euclidean_division_equations; lia|]. by eexists.
Qed.

Lemma padded_len bytes :
  blen (padded bytes) = pad_to_write_granularity (blen bytes) ∧ (WRITE_GRANULARITY | blen (padded bytes)).
Proof.
  destruct (pad_bounds (blen bytes) (blen_nonneg _)) as [Hb Hd].
  assert (blen (padded bytes) = pad_to_write_granularity (blen bytes)) as E.
  { unfold padded. rewrite blen_app. unfold blen at 2. rewrite repeat_length. lia. }
  split; [done|]. by rewrite E.
Qed.

Lemma padded_ok bytes : bytes_ok bytes → bytes_ok (padded bytes).
Proof.
  intros Hb. apply Forall_app_2; [done|]. generalize (Z.to_nat (pad_to_write_granularity (blen bytes) - blen bytes)).
  intros n. induction n; cbn; constructor; done.
Qed.

(** A window that starts with a frame shows its record. *)
Lemma view_frame (m : Z → Z) off seq p body r :
  is_u32 seq → blen (frame seq p body) ≤ MAX_RECORD_LEN →
  (∀ k b, frame seq p body !! k = Some b → m (off + Z.of_nat k) = b) →
  (∀ tail, decode_record (frame seq p body ++ tail) = Ok r) →
  view m off = Ok (Some r).
Proof.
  intros Hseq Hlen Hm Hdec.
  assert (window m off = frame seq p body ++ drop (length (frame seq p body)) (window m off)) as E.
  { rewrite <- (take_drop (length (frame seq p body)) (window m off)) at 1. f_equal.
    apply list_eq. intros k. destruct (decide (k < length (frame seq p body))%nat) as [Hk|Hk].
    - rewrite lookup_take_lt by done. unfold window. unfold blen in Hlen.
      rewrite list_lookup_fmap, lookup_seqZ_lt by lia. cbn [fmap option_fmap option_map].
      destruct (lookup_lt_is_Some_2 _ _ Hk) as [b Hb]. by rewrite Hb, (Hm k b).
    - rewrite lookup_take_ge by lia. symmetry. apply lookup_ge_None_2. lia. }
  set (tail := drop _ _) in E. unfold view. rewrite E.
  assert (le16_at (frame seq p body ++ tail) RECORD_LEN_OFFSET = blen (frame seq p body)) as El.
  { unfold frame. rewrite <- app_assoc. rewrite header_record_len.
    - fold (frame seq p body). by rewrite frame_len.
    - rewrite frame_len in Hlen. pose proof (profile_len p). unfold MAX_RECORD_LEN in *. caps. lia. }
  rewrite El, Z.min_l, slice_prefix by done.
  rewrite <- (app_nil_r (frame seq p body)), Hdec. done.
Qed.

Definition the_frame (c : ProvisioningConfig) (seq : Z) : list Z :=
  frame seq (config_profile c) (tlv_bytes (all_tlvs c)).

Lemma the_frame_ok c seq : wf_config c → bytes_ok (the_frame c seq).
Proof. intros Hc. unfold the_frame. by apply frame_ok, all_tlvs_bytes_ok. Qed.

(** What the save's two device operations do to the target sector [i]. *)
Lemma rewrite_sector_spec s i c seq r s' :
  wf_store s → 0 ≤ i ≤ 1 → wf_config c → storable_extras (extras c) → is_u32 seq →
  (_ ← flash_op (flash_erase (off_of s i) (off_of s i + SECTOR_SIZE));
   flash_op (flash_write (off_of s i) (padded (the_frame c seq)))) s = (r, s') →
  spares s s' i ∧
  (r = refuse SE_Flash ∨
   r = Ok tt ∧ sector s' i = Ok (Some (mkDecoded seq (config_profile c) (stored_config c)))) ∧
  (healthy (flash s) → r = Ok tt ∧ healthy (flash s')).
Proof.
  intros Hwf Hi Hc Hst Hseq Hr. unfold mbind, M_bind in Hr.
  destruct (flash_op _ s) as [r1 s1] eqn:E1.
  destruct (erase_spec _ _ _ _ Hwf Hi E1) as (Hs1 & Hr1 & Hh1).
  destruct r1 as [[]|e].
  2: { injection Hr as <- <-. split; [done|]. split.
       - left. by destruct Hr1 as [?|[[=] _]].
       - intros Hh. by destruct (Hh1 Hh). }
  destruct Hr1 as [[=]|[_ Her]]. pose proof Hs1 as (Hb1 & Hc1 & _).
  assert (off_of s i = off_of s1 i) as Eo by (unfold off_of; by rewrite Hb1). rewrite Eo in Hr, Her.
  destruct (padded_len (the_frame c seq)) as [Hpl Hpg].
  assert (blen (the_frame c seq) ≤ RECORD_MAX) as Hlen.
  { unfold the_frame. rewrite frame_len. destruct (all_tlvs_wf c Hc) as [_ Hb]. unfold RECORD_MAX.
    pose proof (profile_len (config_profile c)). caps. lia. }
  pose proof (pad_bounds (blen (the_frame c seq)) (blen_nonneg _)) as [Hpb _].
  assert (bytes_ok (padded (the_frame c seq))) as Hok.
  { by apply padded_ok, the_frame_ok. }
  destruct (write_spec s1 i _ _ _ (spares_wf _ _ _ Hs1 Hwf) Hi Hpg ltac:(unfold RECORD_MAX, SECTOR_SIZE in *; lia)
    Hok Her Hr) as (Hs2 & Hr2 & Hh2).
  split; [by eapply spares_trans|]. split; [|by intros Hh; apply Hh2, Hh1].
  destruct Hr2 as [->|[-> Hw]]; [by left|right]. split; [done|].
  destruct Hs2 as (Hb2 & _). unfold sector. rewrite Hb2.
  eapply (view_frame _ _ seq (config_profile c) (tlv_bytes (all_tlvs c))).
  - done.
  - unfold the_frame, RECORD_MAX, MAX_RECORD_LEN in *. lia.
  - intros k b Hk. apply Hw. by apply lookup_app_l_Some.
  - intros tail. by apply decode_stored_frame.
Qed.

Definition next_of (a b : option DecodedRecord) : Z := next_seq (target_of a b).

Lemma next_seq_range (a b : option DecodedRecord) :
  opt_ok (λ r, is_u32 (rec_seq r)) a → opt_ok (λ r, is_u32 (rec_seq r)) b → is_u32 (next_of a b).
Proof.
  unfold next_of, target_of, u32_saturating_add, is_u32, u32_max. cbn [next_seq]. intros Ha Hb.
  destruct a as [a|], b as [b|]; cbn in *; [destruct (_ <=? _)|..]; cbn; lia.
Qed.

(** The records of the sectors have sequence numbers of 32 bits. *)
Lemma sector_seq s i o : sector s i = Ok o → opt_ok (λ r, is_u32 (rec_seq r)) o.
Proof.
  rewrite sector_eq. cbv zeta. destruct (decode_record _) as [r|[e|]] eqn:E; cbn [ok_record]; intros [= <-]; [|done].
  apply decode_record_Ok in E as (_ & _ & _ & _ & p & sl & Hs & Hf).
  eapply finish_record_ok in Hf as [[Hr _] _]; [exact Hr| |].
  - apply le32_at_range, slice_ok, window_bytes_ok.
  - eapply decode_tlvs_ok; [by apply slice_ok, slice_ok, window_bytes_ok| |exact Hs]. repeat split; constructor.
Qed.

(** The save after its plan. *)
Definition save_rest (c : ProvisioningConfig) (tg : SaveTarget) : M (ProvisioningStore F) Stop unit :=
  s ← get_store;
  bytes ← of_result (encode_record SECTOR_SIZE c (next_seq tg));
  let offset := sector_offset s (target_sector tg) in
  let erase_end := u32_wrap (offset + SECTOR_SIZE) in
  _ ← flash_op (flash_erase offset erase_end);
  flash_op (flash_write offset (padded bytes)).

Lemma save_eq c : save c = (plan_save ≫= save_rest c).
Proof. reflexivity. Qed.

Lemma save_rest_refused s c tg e :
  encode_record SECTOR_SIZE c (next_seq tg) = Err e → save_rest c tg s = (Err e, s).
Proof. intros He. unfold save_rest, get_store. by rewrite !M_bind_eq, He. Qed.

Lemma save_rest_writes s c tg bytes :
  wf_store s → 0 ≤ target_sector tg ≤ 1 → encode_record SECTOR_SIZE c (next_seq tg) = Ok bytes →
  let off := off_of s (target_sector tg) in
  save_rest c tg s =
  (_ ← flash_op (flash_erase off (off + SECTOR_SIZE)); flash_op (flash_write off (padded bytes))) s.
Proof.
  intros Hwf Ht He off. unfold save_rest, get_store. rewrite !M_bind_eq, He. cbn [of_result].
  rewrite M_bind_eq, sector_offset_wf by (done || lia). fold (off_of s (target_sector tg)). fold off.
  rewrite u32_wrap_small; [reflexivity|].
  destruct Hwf as (_ & _ & H0 & _ & Hm). unfold off, is_u32, off_of, STORE_SIZE, SECTOR_SIZE in *. lia.
Qed.

Lemma plan_in_range (a b : option DecodedRecord) : 0 ≤ choose_target a b ≤ 1.
Proof. destruct (spared_sector_active a b) as [[-> _]|[-> _]]; lia. Qed.

Lemma encode_next (a b : option DecodedRecord) c :
  wf_config c → storable_extras (extras c) →
  encode_record SECTOR_SIZE c (next_seq (target_of a b)) = Ok (the_frame c (next_of a b)).
Proof. intros Hc Hst. unfold next_of, the_frame. by apply encode_frame. Qed.

Lemma encode_next_refused (a b : option DecodedRecord) c :
  wf_config c → ¬ storable_extras (extras c) →
  encode_record SECTOR_SIZE c (next_seq (target_of a b)) = Err (Refused (SE_MalformedField TAG_EXTRA)).
Proof. intros Hc Hst. by apply encode_refuses_extras. Qed.

Lemma plan_save_spec s a b r s' :
  wf_store s → sector s 0 = Ok a → sector s 1 = Ok b → plan_save s = (r, s') →
  same s s' ∧ (r = Ok (target_of a b) ∨ r = refuse SE_Flash) ∧
  (healthy (flash s) → r = Ok (target_of a b) ∧ healthy (flash s')).
Proof.
  intros Hwf Ha Hb Hr. replace (Ok (target_of a b)) with (both s target_of).
  - by apply plan_save_reads.
  - unfold both. by rewrite Ha, Hb.
Qed.

(** The save after its plan rewrites the target sector. *)
Lemma save_rest_spec s c a b r s' :
  wf_store s → wf_config c → storable_extras (extras c) → is_u32 (next_of a b) →
  save_rest c (target_of a b) s = (r, s') →
  spares s s' (choose_target a b) ∧
  (r = refuse SE_Flash ∨
   r = Ok tt ∧ sector s' (choose_target a b) =
     Ok (Some (mkDecoded (next_of a b) (config_profile c) (stored_config c)))) ∧
  (healthy (flash s) → r = Ok tt ∧ healthy (flash s')).
Proof.
  intros Hwf Hc Hst Hseq Hr. pose proof (plan_in_range a b) as Ht.
  pose proof (save_rest_writes s c (target_of a b) _ Hwf Ht (encode_next a b c Hc Hst)) as E.
  rewrite E in Hr. by apply rewrite_sector_spec.
Qed.

(** A save, whatever the device does: it ends before the device is written to, or rewrites
    the target sector. *)
Lemma save_spec s c a b r s' :
  wf_store s → wf_config c → sector s 0 = Ok a → sector s 1 = Ok b → save c s = (r, s') →
  (same s s' ∧ (r = refuse SE_Flash ∨
                ¬ storable_extras (extras c) ∧ r = refuse (SE_MalformedField TAG_EXTRA)) ∧
   (healthy (flash s) → r ≠ refuse SE_Flash ∧ healthy (flash s'))) ∨
  (storable_extras (extras c) ∧ spares s s' (choose_target a b) ∧
   (r = refuse SE_Flash ∨
    r = Ok tt ∧ sector s' (choose_target a b) =
      Ok (Some (mkDecoded (next_of a b) (config_profile c) (stored_config c)))) ∧
   (healthy (flash s) → r = Ok tt ∧ healthy (flash s'))).
Proof.
  intros Hwf Hc Ha Hb Hr. rewrite save_eq, M_bind_eq in Hr.
  destruct (plan_save s) as [r1 s1] eqn:E1.
  destruct (plan_save_spec _ _ _ _ _ Hwf Ha Hb E1) as (Hs1 & Hr1 & Hh1).
  destruct Hr1 as [->| ->].
  2: { injection Hr as <- <-. left. split; [done|]. split; [by left|]. intros Hh. by destruct (Hh1 Hh). }
  destruct (decide (storable_extras (extras c))) as [Hst|Hst].
  - right. assert (is_u32 (next_of a b)) as Hseq by (apply next_seq_range; by eapply sector_seq).
    destruct (save_rest_spec _ _ _ _ _ _ (same_wf _ _ Hs1 Hwf) Hc Hst Hseq Hr) as (Hsp & Hres & Hh2).
    split; [done|]. split; [eapply spares_trans; [by apply same_spares|done]|]. split; [done|].
    intros Hh. by apply Hh2, Hh1.
  - left. rewrite (save_rest_refused _ _ _ _ (encode_next_refused a b c Hc Hst)) in Hr.
    injection Hr as <- <-. split; [done|]. split; [by right|]. intros Hh. split; [done|].
    by apply Hh1.
Qed.

(** ** Erasing *)

Lemma view_blank (m : Z → Z) off :
  (∀ a, off ≤ a < off + MAX_RECORD_LEN → m a = 255) → view m off = Ok None.
Proof.
  intros Hm. rewrite (view_ext m (λ _, 255)) by done.
  assert (∀ n, (λ _ : Z, 255) <$> seqZ off n = repeat 255 (Z.to_nat n)) as E.
  { intros n. unfold seqZ. generalize 0%nat. induction (Z.to_nat n) as [|k IH]; intros j; [done|].
    cbn. f_equal. apply IH. }
  unfold view, window. rewrite E. vm_compute. reflexivity.
Qed.

Lemma erase_all_spec s r s' :
  wf_store s → erase_all s = (r, s') →
  base_offset s' = base_offset s ∧ capacity (flash s') = capacity (flash s) ∧
  (r = refuse SE_Flash ∨ r = Ok tt ∧ sector s' 0 = Ok None ∧ sector s' 1 = Ok None) ∧
  (healthy (flash s) → r = Ok tt ∧ healthy (flash s')).
Proof.
  intros Hwf Hr. unfold erase_all, get_store in Hr. rewrite M_bind_eq in Hr.
  rewrite !sector_offset_wf in Hr by (done || lia). unfold flash_op in Hr.
  set (lo := base_offset s + 0 * SECTOR_SIZE) in *. set (hi := base_offset s + 2 * SECTOR_SIZE) in *.
  pose proof (erase_done lo hi (flash s)) as Hd.
  pose proof (erase_capacity lo hi (flash s)) as Hc. pose proof (erase_healthy lo hi (flash s)) as Hh.
  destruct (flash_erase lo hi (flash s)) as [o f]. cbn [fst snd] in *.
  assert (healthy (flash s) → o = Some tt ∧ healthy f) as Hh'.
  { intros H. destruct Hwf as (HE & [k Hk] & H0 & Hcap & _). unfold STORE_SIZE, SECTOR_SIZE in *.
    apply Hh; [done|rewrite HE; exists k; lia|rewrite HE; exists (k + 2); lia|lia|lia]. }
  destruct o as [[]|]; injection Hr as <- <-; cbn [base_offset flash]; (split; [done|]); (split; [done|]).
  - split; [|intros H; split; [done|]; by apply Hh']. right. split; [done|].
    unfold sector. cbn [base_offset]. split; apply view_blank; intros a Ha; unfold store_mem; cbn [flash];
      apply Hd; try done; unfold lo, hi, SECTOR_SIZE, MAX_RECORD_LEN in *; lia.
  - split; [by left|]. intros H. by destruct (Hh' H).
Qed.

(** ** The store as a register *)

Inductive store_op := DoLoad | DoIsProvisioned | DoSave (c : ProvisioningConfig) | DoEraseAll.
Inductive reply := Held (o : option ProvisioningConfig) | Provisioned (b : bool) | Done.

Definition store_step (op : store_op) : M (ProvisioningStore F) Stop reply :=
  match op with
  | DoLoad => o ← load; mret (Held o)
  | DoIsProvisioned => b ← is_provisioned; mret (Provisioned b)
  | DoSave c => _ ← save c; mret Done
  | DoEraseAll => _ ← erase_all; mret Done
  end.

(** The abstract register.  A configuration with unusable extras is refused. *)
Definition register_step (op : store_op) (reg : option ProvisioningConfig) :
    result Stop reply * option ProvisioningConfig :=
  match op with
  | DoLoad => (Ok (Held reg), reg)
  | DoIsProvisioned => (Ok (Provisioned (bool_decide (is_Some reg))), reg)
  | DoSave c =>
      if decide (storable_extras (extras c)) then (Ok Done, Some (stored_config c))
      else (refuse (SE_MalformedField TAG_EXTRA), reg)
  | DoEraseAll => (Ok Done, None)
  end.

(** Replies of a sequence of operations; an error does not stop the caller. *)
Definition replies {S} (step : store_op → S → result Stop reply * S) : list store_op → S → list (result Stop reply) :=
  fix go ops s :=
    match ops with
    | [] => []
    | op :: ops => let '(r, s') := step op s in r :: go ops s'
    end.

Definition op_ok (op : store_op) : Prop := match op with DoSave c => wf_config c | _ => True end.

(** [s] implements [reg] with sequence numbers up to [n]. *)
Definition implements (s : ProvisioningStore F) (reg : option ProvisioningConfig) (n : Z) : Prop :=
  wf_store s ∧ healthy (flash s) ∧
  ∃ a b, sector s 0 = Ok a ∧ sector s 1 = Ok b ∧ reg = rec_config <$> pick_active a b ∧
         0 ≤ n ∧ opt_ok (λ r, rec_seq r ≤ n) a ∧ opt_ok (λ r, rec_seq r ≤ n) b.

Lemma implements_same s s' reg n :
  same s s' → healthy (flash s') → implements s reg n → implements s' reg n.
Proof.
  intros Hs Hh (Hwf & _ & a & b & Ha & Hb & Hrest). split; [by eapply same_wf|]. split; [done|].
  exists a, b. rewrite (same_sector s s' 0 Hs), (same_sector s s' 1 Hs). exact (conj Ha (conj Hb Hrest)).
Qed.

Lemma implements_reads {A} (m : M (ProvisioningStore F) Stop A) g s reg n :
  reads m (λ s, both s g) → implements s reg n →
  ∃ a b s', reg = rec_config <$> pick_active a b ∧ m s = (Ok (g a b), s') ∧ implements s' reg n.
Proof.
  intros Hm Hi. pose proof Hi as (Hwf & Hh & a & b & Ha & Hb & Hreg & _).
  destruct (m s) as [r s'] eqn:E. destruct (Hm _ _ _ Hwf E) as (Hs & _ & Hv).
  destruct (Hv Hh) as [-> Hh']. exists a, b, s'. split; [done|]. split; [|by eapply implements_same].
  unfold both. by rewrite Ha, Hb.
Qed.

(** The record a save wrote is the active one. *)
Lemma saved_record_active (a b : option DecodedRecord) rec :
  rec_seq rec = next_of a b → default 0 (rec_seq <$> pick_active a b) < u32_max →
  (choose_target a b = 0 → pick_active (Some rec) b = Some rec) ∧
  (choose_target a b = 1 → pick_active a (Some rec) = Some rec).
Proof.
  unfold next_of, target_of, u32_saturating_add. cbn [next_seq]. intros Hseq Hlt.
  assert (∀ x y : DecodedRecord, rec_seq x < rec_seq y → pick_active (Some x) (Some y) = Some y) as Hr.
  { intros x y Hxy. cbn. by rewrite (proj2 (Z.leb_gt _ _)) by lia. }
  assert (∀ x y : DecodedRecord, rec_seq y ≤ rec_seq x → pick_active (Some x) (Some y) = Some x) as Hl.
  { intros x y Hxy. cbn. by rewrite (proj2 (Z.leb_le _ _)) by lia. }
  destruct a as [a|], b as [b|]; cbn [pick_active choose_target fmap option_fmap option_map default] in Hseq, Hlt |- *.
  - destruct (Z.leb_spec (rec_seq b) (rec_seq a)); cbn in Hseq, Hlt; split; intros [=]; [apply Hr|apply Hl]; lia.
  - split; intros [=]. apply Hr. cbn in Hseq, Hlt. lia.
  - split; intros [=]. apply Hl. cbn in Hseq, Hlt. lia.
  - by split; intros [=].
Qed.

Lemma next_of_bound (a b : option DecodedRecord) n :
  0 ≤ n → opt_ok (λ r, rec_seq r ≤ n) a → opt_ok (λ r, rec_seq r ≤ n) b →
  default 0 (rec_seq <$> pick_active a b) ≤ n ∧ next_of a b ≤ n + 1.
Proof.
  unfold next_of, target_of, u32_saturating_add. cbn [next_seq]. intros Hn Ha Hb.
  destruct a as [a|], b as [b|]; cbn in *; [destruct (_ <=? _)|..]; cbn; lia.
Qed.

Lemma save_implements s c reg n r s' :
  wf_config c → n < u32_max → implements s reg n → save c s = (r, s') →
  (storable_extras (extras c) ∧ r = Ok tt ∧ implements s' (Some (stored_config c)) (n + 1)) ∨
  (¬ storable_extras (extras c) ∧ r = refuse (SE_MalformedField TAG_EXTRA) ∧ implements s' reg (n + 1)).
Proof.
  intros Hc Hn Hi Hr. pose proof Hi as (Hwf & Hh & a & b & Ha & Hb & Hreg & H0 & Hna & Hnb).
  destruct (next_of_bound a b n H0 Hna Hnb) as [Hact Hnext].
  assert (∀ o : option DecodedRecord, opt_ok (λ r, rec_seq r ≤ n) o → opt_ok (λ r, rec_seq r ≤ n + 1) o) as Hup
    by (intros [o|]; cbn; [lia|done]).
  destruct (save_spec _ _ _ _ _ _ Hwf Hc Ha Hb Hr) as [(Hs & Hres & Hh')|(Hst & Hsp & Hres & Hh')].
  - right. destruct (Hh' Hh) as [Hnf Hhs]. destruct Hres as [->|[Hst ->]]; [done|]. split; [done|].
    split; [done|]. split; [by eapply same_wf|]. split; [done|]. exists a, b.
    rewrite (same_sector s s' 0 Hs), (same_sector s s' 1 Hs).
    split; [exact Ha|]. split; [exact Hb|]. split_and!; auto; lia.
  - left. destruct (Hh' Hh) as [-> Hhs]. destruct Hres as [[=]|[_ Hsec]]. split; [done|]. split; [done|].
    split; [by eapply spares_wf|]. split; [done|].
    set (rec := mkDecoded _ _ _) in Hsec.
    destruct (saved_record_active a b rec eq_refl ltac:(lia)) as [Hp0 Hp1].
    destruct (spared_sector_active a b) as [[Ht _]|[Ht _]]; rewrite Ht in *.
    + exists (Some rec), b. rewrite (spares_sector _ _ _ 1 Hsp) by done. rewrite (Hp0 eq_refl).
      split_and!; auto; lia.
    + exists a, (Some rec). rewrite (spares_sector _ _ _ 0 Hsp) by done. rewrite (Hp1 eq_refl).
      split_and!; auto; lia.
Qed.

Lemma implements_up s reg n : implements s reg n → implements s reg (n + 1).
Proof.
  intros (Hwf & Hh & a & b & Ha & Hb & Hr & H0 & Hna & Hnb). split; [done|]. split; [done|].
  exists a, b. split; [exact Ha|]. split; [exact Hb|]. split; [done|]. split; [lia|].
  split; [destruct a|destruct b]; cbn in *; lia || done.
Qed.

Lemma erase_implements s reg n r s' :
  implements s reg n → erase_all s = (r, s') → r = Ok tt ∧ implements s' None n.
Proof.
  intros (Hwf & Hh & a & b & _ & _ & _ & H0 & _) E.
  destruct (erase_all_spec _ _ _ Hwf E) as (Eb & Ec & Hres & Hh'). destruct (Hh' Hh) as [-> Hhs].
  destruct Hres as [[=]|(_ & E0 & E1)]. split; [done|].
  split; [by unfold wf_store; rewrite Eb, Ec|]. split; [done|]. exists None, None.
  split; [exact E0|]. split; [exact E1|]. by split.
Qed.

Lemma store_step_implements op s reg n :
  op_ok op → n < u32_max → implements s reg n →
  ∃ s', store_step op s = ((register_step op reg).1, s') ∧
        implements s' (register_step op reg).2 (n + 1).
Proof.
  intros Hop Hn Hi. destruct op as [| |c|]; unfold store_step, register_step; rewrite M_bind_eq.
  - destruct (implements_reads _ _ _ _ _ load_reads Hi) as (a & b & s' & -> & -> & Hi').
    exists s'. split; [done|]. by apply implements_up.
  - destruct (implements_reads _ _ _ _ _ is_provisioned_reads Hi) as (a & b & s' & -> & -> & Hi').
    exists s'. split; [|by apply implements_up]. by destruct (pick_active a b).
  - destruct (save c s) as [r s'] eqn:E.
    destruct (save_implements _ _ _ _ _ _ Hop Hn Hi E) as [(Hst & -> & Hi')|(Hst & -> & Hi')]; exists s';
      [rewrite decide_True by done|rewrite decide_False by done]; done.
  - destruct (erase_all s) as [r s'] eqn:E. destruct (erase_implements _ _ _ _ _ Hi E) as [-> Hi'].
    exists s'. split; [done|]. by apply implements_up.
Qed.

Lemma pick_active_either (a b : option DecodedRecord) :
  (pick_active a b = a ∨ pick_active a b = b) ∧ (a = None → pick_active a b = b) ∧
  (b = None → pick_active a b = a).
Proof. destruct a as [x|], b as [y|]; cbn; [destruct (_ <=? _)|..]; (split; [auto|]); split; by intros [=]. Qed.

(** The content of both sectors once the target of a save has changed to [x]. *)
Lemma held_after s s2 a b new :
  sector s 0 = Ok a → sector s 1 = Ok b → default 0 (rec_seq <$> pick_active a b) < u32_max →
  spares s s2 (choose_target a b) → both s2 held = Ok new →
  sector s2 (1 - choose_target a b) = Ok (pick_active a b) ∧
  ∃ x p, sector s2 (choose_target a b) = Ok x ∧ new = rec_config <$> p ∧
    (p = x ∨ p = pick_active a b) ∧ (x = None → p = pick_active a b) ∧
    (∀ rec, rec_seq rec = next_of a b → x = Some rec → p = Some rec).
Proof.
  intros Ha Hb Hlt Hsp Hnew. destruct (both_inv _ _ _ Hnew) as (a2 & b2 & Ha2 & Hb2 & ->).
  assert (∀ rec, rec_seq rec = next_of a b → _) as Hp
    by exact (λ rec H, saved_record_active a b rec H Hlt).
  destruct (spared_sector_active a b) as [[Ht ->]|[Ht ->]]; rewrite Ht in *.
  - rewrite (spares_sector _ _ _ 1 Hsp), Hb in Hb2 by done. injection Hb2 as <-.
    split; [rewrite (Z.sub_0_r 1), (spares_sector _ _ _ 1 Hsp) by done; exact Hb|]. exists a2, (pick_active a2 b).
    destruct (pick_active_either a2 b) as (E1 & E2 & _). split; [exact Ha2|]. split; [done|].
    split; [exact E1|]. split; [exact E2|]. intros rec Hr ->. by apply Hp.
  - rewrite (spares_sector _ _ _ 0 Hsp), Ha in Ha2 by done. injection Ha2 as <-.
    split; [rewrite (Z.sub_diag 1), (spares_sector _ _ _ 0 Hsp) by done; exact Ha|]. exists b2, (pick_active a b2).
    destruct (pick_active_either a b2) as (E1 & _ & E2). split; [exact Hb2|]. split; [done|].
    split; [tauto|]. split; [exact E2|]. intros rec Hr ->. by apply Hp.
Qed.

(** What a save does to the sectors it found. *)
Lemma save_effect s s1 s2 c a b r :
  wf_store s → wf_config c → same s s1 → sector s 0 = Ok a → sector s 1 = Ok b →
  save c s1 = (r, s2) →
  spares s s2 (choose_target a b) ∧
  (r = Ok tt → sector s2 (choose_target a b) =
    Ok (Some (mkDecoded (next_of a b) (config_profile c) (stored_config c)))) ∧
  (r ≠ Ok tt → r ≠ refuse SE_Flash → same s s2).
Proof.
  intros Hwf Hc Hs1 Ha Hb Hsv.
  rewrite <- (same_sector s s1 0 Hs1) in Ha. rewrite <- (same_sector s s1 1 Hs1) in Hb.
  destruct (save_spec _ _ _ _ _ _ (same_wf _ _ Hs1 Hwf) Hc Ha Hb Hsv) as [(Hs2 & Hr & _)|(_ & Hs2 & Hr & _)].
  - assert (same s s2) as Hs by by etrans. split; [by apply same_spares|]. split; [|done].
    intros ->. by destruct Hr as [[=]|[_ [=]]].
  - split; [eapply spares_trans; [by apply same_spares|done]|].
    split; [intros ->; by destruct Hr as [[=]|[_ ?]]|]. intros Hn1 Hn2. by destruct Hr as [|[? _]].
Qed.

(** ** Properties *)

(** C16: A save cannot lose the stored configuration.  Whatever the flash device does, failing
    operations half done included, a save leaves one sector [1 - i] byte for byte alone, and
    it is the one that holds what [load] returned before.  A later [load] returns that again,
    or what the rewritten sector [i] holds as a valid record; after a save that succeeded it
    returns the saved configuration.  A save refused before it reached the device changes
    nothing. *)
Theorem save_is_safe s c old r new s1 s2 s3 :
  wf_store s → wf_config c →
  (∀ i rec, 0 ≤ i ≤ 1 → sector s i = Ok (Some rec) → rec_seq rec < u32_max) →
  load s = (Ok old, s1) → save c s1 = (r, s2) → load s2 = (Ok new, s3) →
  ∃ i, 0 ≤ i ≤ 1 ∧
    (∀ a, ¬ (off_of s i ≤ a < off_of s i + SECTOR_SIZE) → store_mem s2 a = store_mem s a) ∧
    rec_config <$> (default None (result_ok (sector s2 (1 - i)))) = old ∧
    (new = old ∨ ∃ rec, sector s2 i = Ok (Some rec) ∧ new = Some (rec_config rec)) ∧
    (r = Ok tt → new = Some (stored_config c)) ∧
    (r ≠ Ok tt → r ≠ refuse SE_Flash → new = old).
Proof.
  intros Hwf Hc Hsat Hl1 Hsv Hl2.
  destruct (load_reads _ _ _ Hwf Hl1) as (Hs1 & [Hold|[=]] & _).
  destruct (both_inv _ _ _ (eq_sym Hold)) as (a & b & Ha & Hb & ->). pose proof (same_wf _ _ Hs1 Hwf) as Hwf1.
  assert (default 0 (rec_seq <$> pick_active a b) < u32_max) as Hlt.
  { destruct (pick_active_either a b) as ([-> | ->] & _).
    - destruct a as [x|]; [exact (Hsat 0 x ltac:(lia) Ha)|done].
    - destruct b as [y|]; [exact (Hsat 1 y ltac:(lia) Hb)|done]. }
  destruct (save_effect s s1 s2 c a b r Hwf Hc Hs1 Ha Hb Hsv) as (Hsp & Hok & Hno).
  destruct (load_reads _ _ _ (spares_wf _ _ _ Hsp Hwf) Hl2) as (_ & [Hnew|[=]] & _).
  destruct (held_after _ _ _ _ _ Ha Hb Hlt Hsp (eq_sym Hnew)) as (Hoth & x & p & Hx & -> & Hp & Hp0 & Hp1).
  exists (choose_target a b). split; [apply plan_in_range|]. split; [apply Hsp|].
  rewrite Hoth, Hx in *. split; [done|].
  split; [destruct x as [y|]; [destruct Hp as [->| ->]; eauto|left; by rewrite Hp0]|]. split.
  - intros Hr. specialize (Hok Hr). injection Hok as ->.
    by rewrite (Hp1 (mkDecoded (next_of a b) (config_profile c) (stored_config c)) eq_refl eq_refl).
  - intros H1 H2. pose proof (Hno H1 H2) as Hs. rewrite <- (same_sector s s2 0 Hs) in Ha.
    rewrite <- (same_sector s s2 1 Hs) in Hb. rewrite (both_eq _ _ _ _ Ha Hb) in Hnew. by injection Hnew.
Qed.

(** C17: On a device without faults the two-sector store is a register.  Any sequence of loads,
    checks, saves and erasures replies what a register holding an optional configuration
    replies: a save whose extras are usable is what the next load returns, a save that is
    refused and every read leave the register alone, an erasure empties it.  [n] bounds the
    sequence numbers in use; they must not reach the end of 32 bits. *)
Theorem store_refines_register ops s reg n :
  Forall op_ok ops → implements s reg n → n + Z.of_nat (length ops) ≤ u32_max →
  replies store_step ops s = replies register_step ops reg.
Proof.
  intros Hops. revert s reg n. induction Hops as [|op ops Hop _ IH]; intros s reg n Hi Hn; [done|].
  cbn [length] in Hn.
  destruct (store_step_implements op s reg n Hop ltac:(lia) Hi) as (s' & E & Hi').
  cbn [replies]. rewrite E. destruct (register_step op reg) as [r reg']. cbn [fst snd] in *.
  f_equal. apply (IH s' reg' (n + 1) Hi'). lia.
Qed.

End store_props.

(** ** Examples *)

Definition blank_flash (script : list (option nat)) : SimFlash := mkSim ∅ script 8192.
Definition blank_store (script : list (option nat)) : ProvisioningStore SimFlash :=
  mkStore (blank_flash script) 0.

Lemma blank_opened script : open (blank_flash script) 0 8192 = Ok (blank_store script).
Proof. reflexivity. Qed.

Lemma blank_wf script : wf_store (blank_store script).
Proof. by apply (open_wf (blank_flash script) 0 8192). Qed.

Lemma blank_sector script i : sector (blank_store script) i = Ok None.
Proof. apply view_blank. intros a _. reflexivity. Qed.

Lemma blank_implements : implements (blank_store []) None 0.
Proof.
  split; [apply blank_wf|]. split; [done|]. exists None, None.
  split; [apply blank_sector|]. split; [apply blank_sector|]. by split.
Qed.

(** Two extras with the same key. *)
Definition twice_config : ProvisioningConfig :=
  mkConfig "attic" "open sesame" "" "" None None [mkExtra "k" "1"; mkExtra "k" "2"].

Lemma twice_wf : wf_config twice_config.
Proof.
  unfold wf_config, wf_mqtt, hstring_ok. cbn [mqtt twice_config].
  split_and!; try done; [repeat (constructor; try done)|cbn; unfold EXTRA_FIELDS_MAX; lia].
Qed.

Definition sample_ops : list store_op :=
  [DoIsProvisioned; DoSave sample_config; DoLoad; DoSave twice_config; DoLoad; DoEraseAll; DoLoad].

Lemma store_refines_register_witness :
  replies store_step sample_ops (blank_store []) =
  replies (register_step) sample_ops None.
Proof.
  apply (store_refines_register sample_ops (blank_store []) None 0).
  - repeat (apply Forall_cons_2; [first [exact I|apply sample_wf|apply twice_wf]|]). by apply Forall_nil.
  - exact blank_implements.
  - vm_compute. discriminate.
Defined.

(** The second save is cut off after 40 bytes of its record. *)
Definition torn_script : list (option nat) :=
  repeat None 4 ++ [None; None] ++ repeat None 8 ++ [None; Some 40%nat].

Definition stored_once : ProvisioningStore SimFlash :=
  Eval vm_compute in (save sample_config (blank_store torn_script)).2.

Definition other_config : ProvisioningConfig :=
  mkConfig "cellar" "sesame" "" "" None None [].

Lemma other_wf : wf_config other_config.
Proof. unfold wf_config, hstring_ok. cbn [mqtt other_config]. split_and!; try done. cbn. unfold EXTRA_FIELDS_MAX. lia. Qed.

Definition torn_store : ProvisioningStore SimFlash :=
  Eval vm_compute in (save other_config (load stored_once).2).2.

Lemma stored_once_wf : wf_store stored_once.
Proof. split; [reflexivity|]. split; [by exists 0|]. split; [easy|]. split; easy. Qed.

Lemma stored_once_seq i rec :
  0 ≤ i ≤ 1 → sector stored_once i = Ok (Some rec) → rec_seq rec < u32_max.
Proof.
  assert (match sector stored_once 0 with Ok (Some r) => rec_seq r | _ => 0 end = 1) as H0 by (vm_compute; reflexivity).
  assert (sector stored_once 1 = Ok None) as H1 by (vm_compute; reflexivity).
  intros Hi H. assert (i = 0 ∨ i = 1) as [->| ->] by lia; [|by rewrite H1 in H].
  rewrite H in H0. by rewrite H0.
Qed.

Lemma save_is_safe_witness :
  (save other_config (load stored_once).2).1 = refuse SE_Flash ∧
  ∃ i, 0 ≤ i ≤ 1 ∧
    (∀ a, ¬ (off_of stored_once i ≤ a < off_of stored_once i + SECTOR_SIZE) →
          store_mem torn_store a = store_mem stored_once a) ∧
    rec_config <$> (default None (result_ok (sector torn_store (1 - i)))) =
      Some (stored_config sample_config) ∧
    (Some (stored_config sample_config) = Some (stored_config sample_config) ∨
     ∃ rec, sector torn_store i = Ok (Some rec) ∧
            Some (stored_config sample_config) = Some (rec_config rec)) ∧
    (refuse (A := unit) SE_Flash = Ok tt →
     Some (stored_config sample_config) = Some (stored_config other_config)) ∧
    (refuse (A := unit) SE_Flash ≠ Ok tt → refuse (A := unit) SE_Flash ≠ refuse SE_Flash →
     Some (stored_config sample_config) = Some (stored_config sample_config)).
Proof.
  split; [vm_compute; reflexivity|].
  apply (save_is_safe stored_once other_config _ _ _ (load stored_once).2 torn_store (load torn_store).2).
  - exact stored_once_wf.
  - exact other_wf.
  - exact stored_once_seq.
  - vm_compute. reflexivity.
  - vm_compute. reflexivity.
  - vm_compute. reflexivity.
Defined.
