(* ===== verification/ProvForm.v ===== *)
(** * ProvForm: the form parser of the provisioning portal ([provisioning/form.rs],
    [error.rs] and [SchemaProfile::fields] of [profile.rs] in juggler)

    A [heapless] buffer is a list or string with its capacity checked where the code checks
    it.  A validator takes the errors so far and returns its value and the errors. *)
From Stdlib Require Import Ascii.
From S2P Require Import Prelude Text MqttTopics ProvConfig.
Open Scope Z_scope.

Definition VALUE_DECODE_MAX : Z := 160.
Definition KEY_DECODE_MAX : Z := 16.
Definition MAX_CANONICAL_FIELDS : nat := 8.
Definition MAX_FIELD_ERRORS : nat := 9.
Definition AP_PASSWORD_MIN_LEN : Z := 8.

(** ** Fields and errors *)

Inductive Field :=
| WifiSsid | WifiPassword | DevEui | JoinEui | AppKey | MqttUri | MqttUser | MqttPass
| MqttClient | OtaUrl | DeviceName | Form.

#[export] Instance Field_eq_dec : EqDecision Field.
Proof. solve_decision. Defined.

Definition form_name (f : Field) : string :=
  match f with
  | WifiSsid => "wifi_ssid" | WifiPassword => "wifi_pass" | DevEui => "dev_eui"
  | JoinEui => "join_eui" | AppKey => "app_key" | MqttUri => "mqtt_uri"
  | MqttUser => "mqtt_user" | MqttPass => "mqtt_pass" | MqttClient => "mqtt_client"
  | OtaUrl => "ota_url" | DeviceName => "dev_name" | Form => "_form"
  end.

Definition LORAWAN_FIELDS : list Field :=
  [WifiSsid; WifiPassword; DevEui; JoinEui; AppKey; OtaUrl; DeviceName].
Definition WIFI_MQTT_FIELDS : list Field :=
  [WifiSsid; WifiPassword; MqttUri; MqttUser; MqttPass; MqttClient; OtaUrl; DeviceName].

Definition fields (p : SchemaProfile) : list Field :=
  match p with LorawanFieldDevice => LORAWAN_FIELDS | WifiMqttDevice => WIFI_MQTT_FIELDS end.

Inductive ValidationError :=
| Missing | Empty | Duplicate | TooLong (max : Z) | TooShort (min : Z)
| InvalidHex (expected_len : Z) | InvalidUrl | MalformedBody | TooManyFields
| UnexpectedForProfile.

#[export] Instance ValidationError_eq_dec : EqDecision ValidationError.
Proof. solve_decision. Defined.

Record FieldError := mkFieldError { fe_field : Field; fe_error : ValidationError }.

#[export] Instance FieldError_eq_dec : EqDecision FieldError.
Proof. solve_decision. Defined.

Definition FieldErrors := list FieldError.

(** ** Percent decoding *)

Inductive Decoded := D_Ok (s : string) | D_Malformed | D_Overflow.

#[export] Instance Decoded_eq_dec : EqDecision Decoded.
Proof. solve_decision. Defined.

Definition hex_value (b : Z) : option Z :=
  if in_range 48 57 b then Some (b - 48)
  else if in_range 97 102 b then Some (b - 97 + 10)
  else if in_range 65 70 b then Some (b - 65 + 10)
  else None.

Definition push_byte (cap : Z) (b : Z) (bytes : list Z) : option (list Z) :=
  if Z.of_nat (length bytes) <? cap then Some (bytes ++ [b]) else None.

(** The loop; [Err] carries the early return. *)
Fixpoint percent_go (cap : Z) (raw bytes : list Z) : result Decoded (list Z) :=
  match raw with
  | [] => Ok bytes
  | b :: rest =>
      if Z.eqb b 43 then
        match push_byte cap 32 bytes with
        | Some bytes => percent_go cap rest bytes
        | None => Err D_Overflow
        end
      else if Z.eqb b 37 then
        match rest with
        | h :: l :: rest =>
            match hex_value h, hex_value l with
            | Some hi, Some lo =>
                match push_byte cap (Z.lor (Z.shiftl hi 4) lo) bytes with
                | Some bytes => percent_go cap rest bytes
                | None => Err D_Overflow
                end
            | _, _ => Err D_Malformed
            end
        | _ => Err D_Malformed
        end
      else
        match push_byte cap b bytes with
        | Some bytes => percent_go cap rest bytes
        | None => Err D_Overflow
        end
  end.

Definition percent_decode (cap : Z) (input : string) : Decoded :=
  match percent_go cap (as_bytes input) [] with
  | Err d => d
  | Ok bytes => match from_utf8 bytes with Some s => D_Ok s | None => D_Malformed end
  end.

(** ** The loop over the pairs *)

Record Slot := mkSlot { seen : bool; slot_value : string; duplicate : bool; overflowed : bool }.

Definition Slot_default : Slot := mkSlot false "" false false.

Definition canonical_index (p : SchemaProfile) (key : string) : option nat :=
  fst <$> list_find (λ f, form_name f = key) (fields p).

Definition is_cross_profile (p : SchemaProfile) (key : string) : bool :=
  let other := match p with
               | LorawanFieldDevice => WifiMqttDevice
               | WifiMqttDevice => LorawanFieldDevice
               end in
  existsb (λ f, bool_decide (form_name f = key)) (fields other).

Record FormState := mkForm {
  slots : list Slot; form_extras : list ExtraField; form_error : option ValidationError }.

Definition set_form_error (slot : option ValidationError) (e : ValidationError) : option ValidationError :=
  match slot with None => Some e | Some _ => slot end.

Definition form_fails (e : ValidationError) (st : FormState) : FormState :=
  mkForm (slots st) (form_extras st) (set_form_error (form_error st) e).

Definition insert_extra (key value : string) (st : FormState) : FormState :=
  if decide (key = "") then form_fails MalformedBody st
  else if existsb (λ e, bool_decide (extra_key e = key)) (form_extras st) then form_fails Duplicate st
  else if (EXTRA_KEY_MAX_LEN <? str_len key) || (EXTRA_VALUE_MAX_LEN <? str_len value)
  then form_fails TooManyFields st
  else if (length (form_extras st) <? EXTRA_FIELDS_MAX)%nat
  then mkForm (slots st) (form_extras st ++ [mkExtra key value]) (form_error st)
  else form_fails TooManyFields st.

(** An occurrence of a canonical field. *)
Definition fill_slot (value : option string) (s : Slot) : Slot :=
  if seen s then mkSlot (seen s) (slot_value s) true (overflowed s)
  else match value with
       | Some v => mkSlot true v (duplicate s) (overflowed s)
       | None => mkSlot true (slot_value s) (duplicate s) true
       end.

Definition starts_with (c : ascii) (s : string) : bool :=
  match s with String a _ => Ascii.eqb a c | EmptyString => false end.

(** The loop body for a decoded key and a value that was not malformed. *)
Definition handle_decoded (p : SchemaProfile) (key : string) (value : option string)
    (st : FormState) : FormState :=
  match canonical_index p key with
  | Some idx => mkForm (alter (fill_slot value) idx (slots st)) (form_extras st) (form_error st)
  | None =>
      if is_cross_profile p key then form_fails UnexpectedForProfile st
      else match value with
           | Some v => insert_extra key v st
           | None => form_fails MalformedBody st
           end
  end.

Definition split_pair (pair : string) : string * string :=
  match split_once "=" pair with Some kv => kv | None => (pair, "") end.

Definition handle_pair (p : SchemaProfile) (st : FormState) (pair : string) : FormState :=
  if decide (pair = "") then st
  else
    let '(raw_key, raw_value) := split_pair pair in
    match percent_decode KEY_DECODE_MAX raw_key with
    | D_Ok key =>
        if starts_with "_" key then st
        else
          match percent_decode VALUE_DECODE_MAX raw_value with
          | D_Ok v => handle_decoded p key (Some v) st
          | D_Malformed => form_fails MalformedBody st
          | D_Overflow => handle_decoded p key None st
          end
    | _ => form_fails MalformedBody st
    end.

(** [str::split] on one character; [fuel] is the length of the string. *)
Fixpoint split_fuel (fuel : nat) (c : ascii) (s : string) : list string :=
  match fuel with
  | O => [s]
  | S fuel => match split_once c s with
              | Some (l, r) => l :: split_fuel fuel c r
              | None => [s]
              end
  end.

Definition split (c : ascii) (s : string) : list string := split_fuel (String.length s) c s.

Definition read_pairs (p : SchemaProfile) (body : string) : FormState :=
  foldl (handle_pair p) (mkForm (replicate MAX_CANONICAL_FIELDS Slot_default) [] None)
    (split "&" body).

(** ** Validation *)

Definition push_field_error (errors : FieldErrors) (f : Field) (e : ValidationError) : FieldErrors :=
  if (length errors <? MAX_FIELD_ERRORS)%nat then errors ++ [mkFieldError f e] else errors.

(** [validate_ssid] and [validate_password] of [wifi/mod.rs]. *)
Definition validate_ssid (ssid : string) : result string unit :=
  if decide (ssid = "") then Err "SSID must not be empty"
  else if SSID_MAX_LEN <? str_len ssid then Err "SSID exceeds maximum length of 32 bytes"
  else Ok tt.

Definition validate_password (password : string) : result string unit :=
  if str_len password <=? PASSWORD_MAX_LEN then Ok tt
  else Err "Password exceeds maximum length of 64 bytes".

Definition is_err {E A} (r : result E A) : bool := match r with Ok _ => false | Err _ => true end.

Definition validate_wifi_ssid (s : Slot) (es : FieldErrors) : string * FieldErrors :=
  if duplicate s then ("", push_field_error es WifiSsid Duplicate)
  else if negb (seen s) then ("", push_field_error es WifiSsid Missing)
  else if overflowed s || (SSID_MAX_LEN <? str_len (slot_value s))
  then ("", push_field_error es WifiSsid (TooLong SSID_MAX_LEN))
  else if is_err (validate_ssid (slot_value s)) then
    ("", push_field_error es WifiSsid
           (if decide (slot_value s = "") then Empty else TooLong SSID_MAX_LEN))
  else (slot_value s, es).

Definition validate_wifi_password (s : Slot) (es : FieldErrors) : string * FieldErrors :=
  if duplicate s then ("", push_field_error es WifiPassword Duplicate)
  else if negb (seen s) then ("", push_field_error es WifiPassword Missing)
  else if overflowed s || (PASSWORD_MAX_LEN <? str_len (slot_value s))
  then ("", push_field_error es WifiPassword (TooLong PASSWORD_MAX_LEN))
  else if negb (bool_decide (slot_value s = "")) && (str_len (slot_value s) <? AP_PASSWORD_MIN_LEN)
  then ("", push_field_error es WifiPassword (TooShort AP_PASSWORD_MIN_LEN))
  else if is_err (validate_password (slot_value s))
  then ("", push_field_error es WifiPassword (TooLong PASSWORD_MAX_LEN))
  else (slot_value s, es).

Definition is_ascii_hexdigit (a : ascii) : bool :=
  match hex_value (byte_of a) with Some _ => true | None => false end.

Definition validate_hex (s : Slot) (f : Field) (expected_len : Z) (es : FieldErrors) :
    string * FieldErrors :=
  if duplicate s then ("", push_field_error es f Duplicate)
  else if negb (seen s) then ("", push_field_error es f Missing)
  else if decide (slot_value s = "") then ("", push_field_error es f Empty)
  else if overflowed s || negb (str_len (slot_value s) =? expected_len) ||
          negb (str_forall is_ascii_hexdigit (slot_value s))
  then ("", push_field_error es f (InvalidHex expected_len))
  else (slot_value s, es).

Definition ota_url_required (p : SchemaProfile) : bool :=
  match p with LorawanFieldDevice => true | WifiMqttDevice => false end.

(** [rest.find(['/', '?', '#'])]: the text before the first of the three. *)
Fixpoint before_path (s : string) : string :=
  match s with
  | EmptyString => EmptyString
  | String a s =>
      if Ascii.eqb a "/" || Ascii.eqb a "?" || Ascii.eqb a "#" then EmptyString
      else String a (before_path s)
  end.

Definition is_valid_ota_url (url : string) : bool :=
  match strip_prefix "http://" url with
  | Some rest => negb (bool_decide (before_path rest = ""))
  | None => false
  end.

Definition validate_ota_url (s : Slot) (required : bool) (es : FieldErrors) : string * FieldErrors :=
  if duplicate s then ("", push_field_error es OtaUrl Duplicate)
  else if negb (seen s) then ("", if required then push_field_error es OtaUrl Missing else es)
  else if bool_decide (slot_value s = "") && required then ("", push_field_error es OtaUrl Empty)
  else if bool_decide (slot_value s = "") && negb (overflowed s) then ("", es)
  else if overflowed s || (OTA_URL_MAX_LEN <? str_len (slot_value s))
  then ("", push_field_error es OtaUrl (TooLong OTA_URL_MAX_LEN))
  else if negb (is_valid_ota_url (slot_value s)) then ("", push_field_error es OtaUrl InvalidUrl)
  else (slot_value s, es).

(** [str::rsplit_once] on one character. *)
Fixpoint rsplit_once (c : ascii) (s : string) : option (string * string) :=
  match s with
  | EmptyString => None
  | String a s' =>
      match rsplit_once c s' with
      | Some (l, r) => Some (String a l, r)
      | None => if Ascii.eqb a c then Some (EmptyString, s') else None
      end
  end.

Definition parse_mqtt_uri (uri : string) : option (string * Z) :=
  rest ← strip_prefix "mqtt://" uri;
  '(host, port_str) ← rsplit_once ":" rest;
  if decide (host = "" ∨ port_str = "") then None
  else
    port ← parse_u16 port_str;
    if port =? 0 then None else Some (host, port).

Definition validate_mqtt_uri (s : Slot) (es : FieldErrors) : (string * Z) * FieldErrors :=
  if duplicate s then (("", 0), push_field_error es MqttUri Duplicate)
  else if negb (seen s) then (("", 0), push_field_error es MqttUri Missing)
  else if decide (slot_value s = "") then (("", 0), push_field_error es MqttUri Empty)
  else if overflowed s then (("", 0), push_field_error es MqttUri InvalidUrl)
  else
    match parse_mqtt_uri (slot_value s) with
    | Some (host, port) =>
        if str_len host <=? MQTT_HOST_MAX_LEN then ((host, port), es)
        else (("", 0), push_field_error es MqttUri InvalidUrl)
    | None => (("", 0), push_field_error es MqttUri InvalidUrl)
    end.

Definition validate_mqtt_client (s : Slot) (es : FieldErrors) : option string * FieldErrors :=
  if duplicate s then (None, push_field_error es MqttClient Duplicate)
  else if negb (seen s) || bool_decide (slot_value s = "") then (None, es)
  else if overflowed s || is_err (validate_client_id (slot_value s))
  then (None, push_field_error es MqttClient (TooLong MQTT_CLIENT_ID_MAX_LEN))
  else (Some (slot_value s), es).

(** One half of [validate_mqtt_auth]: a non-empty user name or password. *)
Definition auth_value (s : Slot) (f : Field) (cap : Z) (es : FieldErrors) : option string * FieldErrors :=
  if overflowed s || (cap <? str_len (slot_value s)) then (None, push_field_error es f (TooLong cap))
  else (Some (slot_value s), es).

Definition validate_mqtt_auth (u w : Slot) (es : FieldErrors) :
    (option string * option string) * FieldErrors :=
  let es := if duplicate u then push_field_error es MqttUser Duplicate else es in
  let es := if duplicate w then push_field_error es MqttPass Duplicate else es in
  if duplicate u || duplicate w then ((None, None), es)
  else
    let has_user := seen u && negb (bool_decide (slot_value u = "")) in
    let has_pass := seen w && negb (bool_decide (slot_value w = "")) in
    let '(user, es) := if has_user then auth_value u MqttUser MQTT_USER_MAX_LEN es else (None, es) in
    if has_pass && negb has_user then ((user, None), push_field_error es MqttPass Missing)
    else
      let '(pass, es) := if has_pass then auth_value w MqttPass MQTT_PASS_MAX_LEN es else (None, es) in
      ((user, pass), es).

Definition validate_device_name (s : Slot) (es : FieldErrors) : string * FieldErrors :=
  if duplicate s then ("", push_field_error es DeviceName Duplicate)
  else if negb (seen s) then ("", push_field_error es DeviceName Missing)
  else if decide (slot_value s = "") then ("", push_field_error es DeviceName Empty)
  else if overflowed s || (DEVICE_NAME_MAX_LEN <? str_len (slot_value s))
  then ("", push_field_error es DeviceName (TooLong DEVICE_NAME_MAX_LEN))
  else (slot_value s, es).

(** ** The values validated so far *)

Record Outs := mkOuts {
  o_ssid : string; o_pass : string; o_ota : string; o_name : string;
  o_dev_eui : string; o_join_eui : string; o_app_key : string;
  o_host : string; o_port : Z; o_client : option string }.

Definition no_outs : Outs := mkOuts "" "" "" "" "" "" "" "" 0 None.

(** One turn of the loop over the profile's fields. *)
Definition validate_field (p : SchemaProfile) (f : Field) (s : Slot) (st : Outs * FieldErrors) :
    Outs * FieldErrors :=
  let '(mkOuts ssid pass ota name dev join key host port client as o, es) := st in
  match f with
  | WifiSsid => let '(v, es) := validate_wifi_ssid s es in
      (mkOuts v pass ota name dev join key host port client, es)
  | WifiPassword => let '(v, es) := validate_wifi_password s es in
      (mkOuts ssid v ota name dev join key host port client, es)
  | DevEui => let '(v, es) := validate_hex s DevEui EUI_HEX_LEN es in
      (mkOuts ssid pass ota name v join key host port client, es)
  | JoinEui => let '(v, es) := validate_hex s JoinEui EUI_HEX_LEN es in
      (mkOuts ssid pass ota name dev v key host port client, es)
  | AppKey => let '(v, es) := validate_hex s AppKey APP_KEY_HEX_LEN es in
      (mkOuts ssid pass ota name dev join v host port client, es)
  | MqttUri => let '((h, n), es) := validate_mqtt_uri s es in
      (mkOuts ssid pass ota name dev join key h n client, es)
  | MqttClient => let '(v, es) := validate_mqtt_client s es in
      (mkOuts ssid pass ota name dev join key host port v, es)
  | OtaUrl => let '(v, es) := validate_ota_url s (ota_url_required p) es in
      (mkOuts ssid pass v name dev join key host port client, es)
  | DeviceName => let '(v, es) := validate_device_name s es in
      (mkOuts ssid pass ota v dev join key host port client, es)
  | MqttUser | MqttPass | Form => (o, es)
  end.

(** [slots[idx]], in range. *)
Definition slot_at (st : FormState) (idx : nat) : Slot := default Slot_default (slots st !! idx).

Definition validate_fields (p : SchemaProfile) (st : FormState) : Outs * FieldErrors :=
  foldl (λ acc '(idx, f), validate_field p f (slot_at st idx) acc) (no_outs, [])
    (imap pair (fields p)).

Definition parse_form (body : string) (p : SchemaProfile) : result FieldErrors ProvisioningConfig :=
  let st := read_pairs p body in
  let '(o, es) := validate_fields p st in
  let lora :=
    match p with
    | LorawanFieldDevice => Some (mkLora (o_dev_eui o) (o_join_eui o) (o_app_key o))
    | WifiMqttDevice => None
    end in
  let '(mqtt, es) :=
    match p with
    | WifiMqttDevice =>
        let slot f := slot_at st (default 0%nat (canonical_index p (form_name f))) in
        let '((user, pass), es) := validate_mqtt_auth (slot MqttUser) (slot MqttPass) es in
        (Some (mkMqtt (o_host o) (o_port o) user pass (o_client o)), es)
    | LorawanFieldDevice => (None, es)
    end in
  let es := match form_error st with Some e => push_field_error es Form e | None => es end in
  match es with
  | [] => Ok (mkConfig (o_ssid o) (o_pass o) (o_ota o) (o_name o) lora mqtt (form_extras st))
  | _ => Err es
  end.
