(* ===== verification/ProvFormProps.v ===== *)
(** * ProvFormProps: what the form parser accepts, and what it answers otherwise *)
From Stdlib Require Import Ascii.
From S2P Require Import Prelude Text Version MqttTopics ProvConfig ProvForm.
Open Scope Z_scope.

(** ** The body as a list of items *)

(** A pair of the body: ignored, malformed, or a key with its value; [None] is a value too
    long to be buffered. *)
Inductive Pair := P_Skip | P_Bad | P_Item (key : string) (value : option string).

Definition classify (pair : string) : Pair :=
  if decide (pair = "") then P_Skip
  else
    let '(raw_key, raw_value) := split_pair pair in
    match percent_decode KEY_DECODE_MAX raw_key with
    | D_Ok key =>
        if starts_with "_" key then P_Skip
        else match percent_decode VALUE_DECODE_MAX raw_value with
             | D_Ok v => P_Item key (Some v)
             | D_Malformed => P_Bad
             | D_Overflow => P_Item key None
             end
    | _ => P_Bad
    end.

Definition handle (p : SchemaProfile) (st : FormState) (x : Pair) : FormState :=
  match x with
  | P_Skip => st
  | P_Bad => form_fails MalformedBody st
  | P_Item key value => handle_decoded p key value st
  end.

Lemma handle_pair_classify p st pair : handle_pair p st pair = handle p st (classify pair).
Proof.
  unfold handle_pair, classify. case_decide; [done|]. destruct (split_pair pair) as [k v].
  destruct (percent_decode _ k) as [key| |]; [|done..]. destruct (starts_with "_" key); [done|].
  by destruct (percent_decode _ v).
Qed.

Definition start_state : FormState := mkForm (replicate MAX_CANONICAL_FIELDS Slot_default) [] None.

Definition pairs_of (body : string) : list Pair := classify <$> split "&" body.

Lemma read_pairs_handle p body : read_pairs p body = foldl (handle p) start_state (pairs_of body).
Proof.
  unfold read_pairs, pairs_of, start_state. generalize (mkForm (replicate MAX_CANONICAL_FIELDS Slot_default) [] None).
  induction (split "&" body) as [|x l IH]; intros st; [done|]. cbn. by rewrite handle_pair_classify, IH.
Qed.

(** The values given for a key, in order. *)
Definition values (xs : list Pair) (key : string) : list (option string) :=
  omap (λ x, match x with P_Item k v => if decide (k = key) then Some v else None | _ => None end) xs.

Lemma values_snoc xs x key :
  values (xs ++ [x]) key =
  values xs key ++ match x with P_Item k v => if decide (k = key) then [v] else [] | _ => [] end.
Proof.
  unfold values. rewrite omap_app. f_equal. destruct x as [| |k v]; [done..|]. cbn. by case_decide.
Qed.

(** ** The slot of a field *)

Definition slot_of (vs : list (option string)) : Slot :=
  match vs with
  | [] => Slot_default
  | v :: rest => mkSlot true (default "" v) (negb (bool_decide (rest = []))) (negb (bool_decide (is_Some v)))
  end.

Lemma slot_of_snoc vs v : fill_slot v (slot_of vs) = slot_of (vs ++ [v]).
Proof.
  destruct vs as [|x rest]; cbn; [by destruct v|]. unfold fill_slot. cbn.
  rewrite (bool_decide_eq_false_2 (rest ++ [v] = [])) by (by destruct rest). done.
Qed.

Lemma fields_nodup p : NoDup (form_name <$> fields p).
Proof. apply (bool_decide_unpack _). by destruct p. Qed.

Lemma canonical_index_Some p key idx :
  canonical_index p key = Some idx ↔ ∃ f, fields p !! idx = Some f ∧ form_name f = key.
Proof.
  unfold canonical_index. split.
  - intros ([i f] & H & E)%fmap_Some. cbn in E. subst i. apply list_find_Some in H as (H1 & H2 & _). by exists f.
  - intros (f & Hf & Hk). apply fmap_Some. exists (idx, f). split; [|done].
    apply list_find_Some. split; [done|]. split; [done|]. intros j y Hj Hlt Hy.
    assert (j = idx); [|lia].
    eapply (NoDup_lookup (form_name <$> fields p)); [apply fields_nodup|..];
      rewrite list_lookup_fmap; [by rewrite Hj; cbn; rewrite Hy|by rewrite Hf; cbn; rewrite Hk].
Qed.

Lemma canonical_index_None p key :
  canonical_index p key = None ↔ key ∉ (form_name <$> fields p).
Proof.
  rewrite eq_None_not_Some. split.
  - intros H Hin. apply H. apply list_elem_of_fmap in Hin as (f & -> & Hf).
    apply list_elem_of_lookup in Hf as [i Hi]. exists i. apply canonical_index_Some. by exists f.
  - intros H [i Hi]. apply canonical_index_Some in Hi as (f & Hf & <-). apply H.
    apply list_elem_of_fmap. exists f. split; [done|]. by eapply list_elem_of_lookup_2.
Qed.

Definition items_ok (P : string → option string → Prop) (xs : list Pair) : Prop :=
  Forall (λ x, match x with P_Skip => True | P_Bad => False | P_Item k v => P k v end) xs.

(** The opaque extras of a body, in order. *)
Definition extras_of (p : SchemaProfile) (xs : list Pair) : list ExtraField :=
  omap (λ x, match x with
             | P_Item k (Some v) => if decide (k ∈ form_name <$> fields p) then None else Some (mkExtra k v)
             | _ => None
             end) xs.

(** A pair that is no error for the body as such. *)
Definition pair_ok (p : SchemaProfile) (k : string) (v : option string) : Prop :=
  k ∈ form_name <$> fields p ∨ (is_cross_profile p k = false ∧ is_Some v).

Definition extras_fit (l : list ExtraField) : Prop :=
  storable_extras l ∧ (length l ≤ EXTRA_FIELDS_MAX)%nat ∧
  Forall (λ e, str_len (extra_key e) ≤ EXTRA_KEY_MAX_LEN ∧ str_len (extra_value e) ≤ EXTRA_VALUE_MAX_LEN) l.

Definition body_ok (p : SchemaProfile) (xs : list Pair) : Prop :=
  items_ok (pair_ok p) xs ∧ extras_fit (extras_of p xs).

Lemma extras_of_snoc p xs x :
  extras_of p (xs ++ [x]) =
  extras_of p xs ++ match x with
                    | P_Item k (Some v) =>
                        if decide (k ∈ form_name <$> fields p) then [] else [mkExtra k v]
                    | _ => []
                    end.
Proof.
  unfold extras_of. rewrite omap_app. f_equal. destruct x as [| |k [v|]]; [done..| |done]. cbn.
  by case_decide.
Qed.

Lemma extras_fit_prefix l l' : extras_fit (l ++ l') → extras_fit l.
Proof.
  intros ([Hne Hnd] & Hlen & Hcap). rewrite length_app in Hlen. rewrite fmap_app in Hnd.
  apply Forall_app in Hne as [Hne _]. apply NoDup_app in Hnd as (Hnd & _ & _).
  apply Forall_app in Hcap as [Hcap _]. split; [by split|]. split; [lia|done].
Qed.

Lemma insert_extra_spec k v st :
  extras_fit (form_extras st) →
  slots (insert_extra k v st) = slots st ∧
  ((extras_fit (form_extras st ++ [mkExtra k v]) ∧
    insert_extra k v st = mkForm (slots st) (form_extras st ++ [mkExtra k v]) (form_error st)) ∨
   (¬ extras_fit (form_extras st ++ [mkExtra k v]) ∧
    form_extras (insert_extra k v st) = form_extras st ∧ is_Some (form_error (insert_extra k v st)))).
Proof.
  intros ([Hne Hnd] & Hlen & Hcap).
  assert (∀ e, slots (form_fails e st) = slots st ∧ form_extras (form_fails e st) = form_extras st ∧
    is_Some (form_error (form_fails e st))) as Hf.
  { intros e. split; [done|]. split; [done|]. cbn. destruct (form_error st); cbn; eauto. }
  unfold insert_extra. case_decide as Hk.
  { split; [apply Hf|]. right. split; [|apply Hf]. intros ([H _] & _).
    apply Forall_app in H as [_ [H _]%Forall_cons]. done. }
  destruct (existsb _ _) eqn:Ed.
  { split; [apply Hf|]. right. split; [|apply Hf]. intros ([_ H] & _).
    apply existsb_exists in Ed as (e & He & Heq%bool_decide_eq_true).
    rewrite fmap_app in H. apply NoDup_app in H as (_ & Hdis & _).
    apply (Hdis (extra_key e)); [apply list_elem_of_fmap; exists e; by rewrite list_elem_of_In|].
    rewrite Heq. cbn. left. }
  destruct (_ || _) eqn:El.
  { split; [apply Hf|]. right. split; [|apply Hf]. intros (_ & _ & H).
    apply Forall_app in H as [_ [[H1 H2] _]%Forall_cons]. cbn in H1, H2.
    apply orb_true_iff in El as [?%Z.ltb_lt|?%Z.ltb_lt]; lia. }
  apply orb_false_iff in El as [El1%Z.ltb_ge El2%Z.ltb_ge].
  destruct (Nat.ltb_spec (length (form_extras st)) EXTRA_FIELDS_MAX) as [Hlt|Hge].
  - split; [done|]. left. split; [|done]. split; [split|split].
    + by apply Forall_app_2; [|constructor].
    + rewrite fmap_app. apply NoDup_app. split; [done|]. split; [|apply NoDup_singleton].
      intros x (e & -> & He)%list_elem_of_fmap Hx. cbn in Hx. apply list_elem_of_singleton in Hx.
      apply not_true_iff_false in Ed. apply Ed, existsb_exists. exists e. rewrite <- list_elem_of_In.
      split; [done|]. by apply bool_decide_eq_true.
    + rewrite length_app. cbn. lia.
    + by apply Forall_app_2; [|constructor].
  - split; [apply Hf|]. right. split; [|apply Hf]. intros (_ & H & _). rewrite length_app in H. cbn in H. lia.
Qed.

(** What the loop over the pairs leaves behind. *)
Record read_ok (p : SchemaProfile) (xs : list Pair) (st : FormState) : Prop := mkReadOk {
  read_len : length (slots st) = MAX_CANONICAL_FIELDS;
  read_slots idx f : fields p !! idx = Some f →
    slots st !! idx = Some (slot_of (values xs (form_name f)));
  read_body :
    (form_error st = None ∧ body_ok p xs ∧ form_extras st = extras_of p xs) ∨
    (is_Some (form_error st) ∧ ¬ body_ok p xs ∧ extras_fit (form_extras st)) }.

Lemma body_ok_prefix p xs x : body_ok p (xs ++ [x]) → body_ok p xs.
Proof.
  intros [H1 H2]. apply Forall_app in H1 as [H1 _]. rewrite extras_of_snoc in H2.
  split; [done|]. by apply extras_fit_prefix in H2.
Qed.

(** A step that neither touches the slots nor is an item of the profile's fields. *)
Lemma read_ok_bad p xs x st e :
  read_ok p xs st → (∀ f, f ∈ fields p → values (xs ++ [x]) (form_name f) = values xs (form_name f)) →
  ¬ body_ok p (xs ++ [x]) → read_ok p (xs ++ [x]) (form_fails e st).
Proof.
  intros [Hlen Hslots Hbody] Hv Hbad. split; [done| |].
  - intros idx f Hf. rewrite Hv by (by eapply list_elem_of_lookup_2). by apply Hslots.
  - right. split; [cbn; destruct (form_error st); cbn; eauto|]. split; [done|].
    cbn. destruct Hbody as [(_ & [_ H] & E)|(_ & _ & H)]; [by rewrite E|done].
Qed.

Lemma read_ok_field p xs k v st idx f :
  read_ok p xs st → fields p !! idx = Some f → form_name f = k →
  read_ok p (xs ++ [P_Item k v]) (mkForm (alter (fill_slot v) idx (slots st)) (form_extras st) (form_error st)).
Proof.
  intros [Hlen Hslots Hbody] Hf Hk. split; cbn [slots form_extras form_error].
  - by rewrite length_alter.
  - intros j g Hg. rewrite values_snoc. destruct (decide (idx = j)) as [<-|Hne].
    + rewrite Hf in Hg. injection Hg as <-. rewrite decide_True by done.
      rewrite list_lookup_alter_eq, (Hslots _ _ Hf). cbn. by rewrite slot_of_snoc.
    + rewrite list_lookup_alter_ne by done. rewrite (Hslots _ _ Hg). rewrite decide_False; [by rewrite app_nil_r|].
      intros ->. apply Hne. eapply (NoDup_lookup (form_name <$> fields p)); [apply fields_nodup|..];
        rewrite list_lookup_fmap; [by rewrite Hf; cbn; rewrite Hk|by rewrite Hg].
  - assert (k ∈ form_name <$> fields p) as Hin.
    { rewrite <- Hk. apply list_elem_of_fmap. exists f. split; [done|]. by eapply list_elem_of_lookup_2. }
    assert (extras_of p (xs ++ [P_Item k v]) = extras_of p xs) as He.
    { rewrite extras_of_snoc. destruct v; [rewrite decide_True by done|]; by rewrite app_nil_r. }
    assert (body_ok p (xs ++ [P_Item k v]) ↔ body_ok p xs) as Hb.
    { unfold body_ok, items_ok. rewrite He, Forall_app, Forall_singleton. unfold pair_ok. tauto. }
    rewrite Hb, He. done.
Qed.

Lemma values_other p xs k v f :
  k ∉ form_name <$> fields p → f ∈ fields p → values (xs ++ [P_Item k v]) (form_name f) = values xs (form_name f).
Proof.
  intros Hk Hf. rewrite values_snoc, decide_False; [by rewrite app_nil_r|].
  intros ->. apply Hk. apply list_elem_of_fmap. by exists f.
Qed.

Lemma read_ok_extra p xs k v st :
  read_ok p xs st → k ∉ form_name <$> fields p → is_cross_profile p k = false →
  read_ok p (xs ++ [P_Item k (Some v)]) (insert_extra k v st).
Proof.
  intros [Hlen Hslots Hbody] Hk Hc.
  assert (extras_fit (form_extras st)) as Hfit
    by (destruct Hbody as [(_ & [_ H] & E)|(_ & _ & H)]; [by rewrite E|done]).
  destruct (insert_extra_spec k v st Hfit) as [Hs Hins].
  assert (extras_of p (xs ++ [P_Item k (Some v)]) = extras_of p xs ++ [mkExtra k v]) as He
    by (by rewrite extras_of_snoc, decide_False).
  split; [by rewrite Hs| |].
  - intros idx f Hf. rewrite Hs, values_other with (p := p) by (done || by eapply list_elem_of_lookup_2).
    by apply Hslots.
  - unfold body_ok, items_ok. rewrite He, Forall_app, Forall_singleton. unfold pair_ok at 2 4.
    destruct Hbody as [(Hn & [Hi Hx] & Hf)|(Hn & Hb & Hf)].
    + rewrite Hf in Hins. destruct Hins as [[Hfit' ->]|(Hfit' & Hfx & Hfe)].
      * left. cbn. split; [done|]. split; [|done]. split; [|done]. split; [done|]. right. eauto.
      * right. split; [done|]. split; [tauto|]. by rewrite Hfx.
    + right. assert (is_Some (form_error (insert_extra k v st)) ∧ extras_fit (form_extras (insert_extra k v st))) as [H1 H2].
      { destruct Hins as [[Hfit' ->]|(_ & -> & Hfe)]; done. }
      split; [done|]. split; [|done]. intros [[Hi _] Hx]. apply Hb. split; [done|].
      by apply extras_fit_prefix in Hx.
Qed.

Lemma read_ok_all p xs : read_ok p xs (foldl (handle p) start_state xs).
Proof.
  induction xs as [|x xs IH] using rev_ind.
  { split; [done| |].
    - intros idx f Hf. change (slots start_state) with (replicate MAX_CANONICAL_FIELDS Slot_default).
      apply lookup_lt_Some in Hf. apply lookup_replicate_2. unfold MAX_CANONICAL_FIELDS.
      destruct p; cbn in Hf; lia.
    - left. split; [done|]. split; [|done]. split; [by apply Forall_nil|]. split_and!; [split; constructor|cbn; lia|constructor]. }
  rewrite foldl_snoc. destruct x as [| |k v]; cbn [handle].
  - destruct IH as [Hlen Hslots Hbody]. assert (body_ok p (xs ++ [P_Skip]) ↔ body_ok p xs) as Hb.
    { unfold body_ok, items_ok. rewrite extras_of_snoc, app_nil_r, Forall_app, Forall_singleton. tauto. }
    split; [done| |].
    + intros idx f Hf. rewrite values_snoc, app_nil_r. by apply Hslots.
    + rewrite Hb, extras_of_snoc, app_nil_r. done.
  - apply read_ok_bad; [done| |].
    + intros f _. by rewrite values_snoc, app_nil_r.
    + intros [H _]. by apply Forall_app in H as [_ [H _]%Forall_cons].
  - unfold handle_decoded. destruct (canonical_index p k) as [idx|] eqn:Ei.
    { apply canonical_index_Some in Ei as (f & Hf & Hk). by eapply read_ok_field. }
    apply canonical_index_None in Ei. destruct (is_cross_profile p k) eqn:Ec; [|destruct v as [v|]].
    + apply read_ok_bad; [done|intros; by apply (values_other p)|].
      intros [H _]. apply Forall_app in H as [_ [[H|[H _]] _]%Forall_cons]; congruence.
    + by apply read_ok_extra.
    + apply read_ok_bad; [done|intros; by apply (values_other p)|].
      intros [H _]. apply Forall_app in H as [_ [[H|[_ [? H]]] _]%Forall_cons]; congruence.
Qed.

(** ** What each validator accepts *)

(** The field was given exactly once. *)
Definition required (vs : list (option string)) (P : string → Prop) (out : string) : Prop :=
  vs = [Some out] ∧ P out.

(** The field may be left out or empty; a value too long to be buffered counts as empty. *)
Definition optional (vs : list (option string)) (cap : Z) (out : option string) : Prop :=
  match out with
  | Some v => vs = [Some v] ∧ v ≠ "" ∧ str_len v ≤ cap
  | None => vs = [] ∨ vs = [Some ""] ∨ vs = [None]
  end.

Definition ssid_ok (v : string) : Prop := v ≠ "" ∧ str_len v ≤ SSID_MAX_LEN.
Definition password_ok (v : string) : Prop :=
  str_len v ≤ PASSWORD_MAX_LEN ∧ (v = "" ∨ AP_PASSWORD_MIN_LEN ≤ str_len v).
Definition hex_ok (n : Z) (v : string) : Prop := str_len v = n ∧ str_forall is_ascii_hexdigit v = true.
Definition ota_ok (v : string) : Prop := str_len v ≤ OTA_URL_MAX_LEN ∧ is_valid_ota_url v = true.
Definition name_ok (v : string) : Prop := v ≠ "" ∧ str_len v ≤ DEVICE_NAME_MAX_LEN.

Definition ota_accepts (p : SchemaProfile) (vs : list (option string)) (out : string) : Prop :=
  required vs ota_ok out ∨ (p = WifiMqttDevice ∧ out = "" ∧ (vs = [] ∨ vs = [Some ""])).

Definition uri_accepts (vs : list (option string)) (host : string) (port : Z) : Prop :=
  ∃ v, vs = [Some v] ∧ parse_mqtt_uri v = Some (host, port) ∧ str_len host ≤ MQTT_HOST_MAX_LEN.

Definition auth_accepts (us ws : list (option string)) (user pass : option string) : Prop :=
  optional us MQTT_USER_MAX_LEN user ∧ optional ws MQTT_PASS_MAX_LEN pass ∧
  (is_Some pass → is_Some user).

(** A validator [g] of the field [f] accepts [v] silently exactly when [P v], and otherwise
    reports one error. *)
Definition validates {A} (f : Field) (g : FieldErrors → A * FieldErrors) (P : A → Prop) : Prop :=
  (∃ v, P v ∧ ∀ es, g es = (v, es)) ∨ (∃ v e, (∀ x, ¬ P x) ∧ ∀ es, g es = (v, push_field_error es f e)).

(** [slot_of] of no value, one, or several. *)
Lemma slot_cases vs :
  (vs = [] ∧ slot_of vs = Slot_default) ∨
  (∃ v, vs = [v] ∧ slot_of vs = mkSlot true (default "" v) false (negb (bool_decide (is_Some v)))) ∨
  (∃ v w rest, vs = v :: w :: rest ∧ duplicate (slot_of vs) = true).
Proof.
  destruct vs as [|v [|w rest]]; [by left|right; left|right; right].
  - exists v. split; [done|]. done.
  - by exists v, w, rest.
Qed.

Ltac refuse_with := right; eexists _, _; split; [|intros es; reflexivity].
Ltac accept_with := left; eexists; split; [|intros es; reflexivity].

Lemma validate_wifi_ssid_ok vs :
  validates WifiSsid (validate_wifi_ssid (slot_of vs)) (required vs ssid_ok).
Proof.
  destruct (slot_cases vs) as [[-> ->]|[(v & -> & ->)|(v & w & rest & -> & Hd)]]; unfold validates, validate_wifi_ssid.
  - refuse_with. by intros x [[=] _].
  - destruct v as [v|]; cbn; [|refuse_with; by intros x [[=] _]].
    destruct (Z.ltb_spec SSID_MAX_LEN (str_len v)).
    { refuse_with. intros x [[= <-] [_ ?]]. lia. }
    unfold validate_ssid. case_decide as Hv; cbn.
    { refuse_with. intros x [[= <-] [? _]]. done. }
    rewrite (proj2 (Z.ltb_ge _ _)) by done. cbn. accept_with. by split.
  - rewrite Hd. refuse_with. by intros x [[=] _].
Qed.

Lemma validate_wifi_password_ok vs :
  validates WifiPassword (validate_wifi_password (slot_of vs)) (required vs password_ok).
Proof.
  destruct (slot_cases vs) as [[-> ->]|[(v & -> & ->)|(v & w & rest & -> & Hd)]]; unfold validates, validate_wifi_password.
  - refuse_with. by intros x [[=] _].
  - destruct v as [v|]; cbn; [|refuse_with; by intros x [[=] _]].
    destruct (Z.ltb_spec PASSWORD_MAX_LEN (str_len v)).
    { refuse_with. intros x [[= <-] [? _]]. lia. }
    unfold validate_password. rewrite (proj2 (Z.leb_le _ _)) by done. cbn.
    destruct (bool_decide (v = "")) eqn:Ev; cbn.
    { apply bool_decide_eq_true in Ev as ->. accept_with. split; [done|]. split; [done|by left]. }
    apply bool_decide_eq_false in Ev. destruct (Z.ltb_spec (str_len v) AP_PASSWORD_MIN_LEN).
    { refuse_with. intros x [[= <-] [_ [?|?]]]; [done|lia]. }
    accept_with. split; [done|]. split; [done|by right].
  - rewrite Hd. refuse_with. by intros x [[=] _].
Qed.

Lemma validate_hex_ok vs f n :
  0 < n → validates f (validate_hex (slot_of vs) f n) (required vs (hex_ok n)).
Proof.
  intros Hn.
  destruct (slot_cases vs) as [[-> ->]|[(v & -> & ->)|(v & w & rest & -> & Hd)]]; unfold validates, validate_hex.
  - refuse_with. by intros x [[=] _].
  - destruct v as [v|]; cbn; [|refuse_with; by intros x [[=] _]].
    case_decide as Hv.
    { subst v. refuse_with. intros x [[= <-] [E0 _]]. change (0 = n) in E0. lia. }
    destruct (Z.eqb_spec (str_len v) n); cbn; [|refuse_with; by intros x [[= <-] [? _]]].
    destruct (str_forall _ v) eqn:E; cbn; [|refuse_with; intros x [[= <-] [_ ?]]; congruence].
    accept_with. by split.
  - rewrite Hd. refuse_with. by intros x [[=] _].
Qed.

Lemma validate_ota_url_ok p vs :
  validates OtaUrl (validate_ota_url (slot_of vs) (ota_url_required p)) (ota_accepts p vs).
Proof.
  assert (is_valid_ota_url "" = false) as Hempty by done.
  destruct (slot_cases vs) as [[-> ->]|[(v & -> & ->)|(v & w & rest & -> & Hd)]]; unfold validates, validate_ota_url, ota_accepts.
  - destruct p; cbn; [refuse_with|accept_with].
    + intros x [[[=] _]|[[=] _]].
    + right. auto.
  - destruct v as [v|]; cbn.
    2: { destruct p; cbn; refuse_with; intros x [[[=] _]|(? & _ & [[=]|[=]])]. }
    destruct (bool_decide (v = "")) eqn:Ev; cbn.
    { apply bool_decide_eq_true in Ev as ->. destruct p; cbn; [refuse_with|accept_with].
      - intros x [[[= <-] [_ ?]]|[[=] _]]. congruence.
      - right. auto. }
    apply bool_decide_eq_false in Ev.
    destruct (Z.ltb_spec OTA_URL_MAX_LEN (str_len v)).
    { destruct p; cbn; refuse_with; intros x [[[= <-] [? _]]|(_ & _ & [[=]|[= ->]])]; try done; lia. }
    destruct (is_valid_ota_url v) eqn:E; cbn; destruct p; cbn.
    1,2: accept_with; left; by split.
    all: refuse_with; intros x [[[= <-] [_ ?]]|(_ & _ & [[=]|[= ->]])]; congruence.
  - rewrite Hd. refuse_with. intros x [[[=] _]|(_ & _ & [[=]|[=]])].
Qed.

Lemma validate_mqtt_uri_ok vs :
  validates MqttUri (validate_mqtt_uri (slot_of vs)) (λ '(h, n), uri_accepts vs h n).
Proof.
  destruct (slot_cases vs) as [[-> ->]|[(v & -> & ->)|(v & w & rest & -> & Hd)]]; unfold validates, validate_mqtt_uri.
  - refuse_with. by intros [h n] (x & [=] & _).
  - destruct v as [v|]; cbn [duplicate seen slot_value overflowed negb from_option id]; [|refuse_with; by intros [h n] (x & [=] & _)].
    destruct (decide (v = "")) as [->|Hv]; [refuse_with; by intros [h n] (x & [= <-] & [=] & _)|].
    rewrite bool_decide_eq_true_2 by eauto. cbn [negb].
    destruct (parse_mqtt_uri v) as [[h n]|] eqn:E.
    2: { refuse_with. intros [h n] (x & [= <-] & ? & _). congruence. }
    destruct (Z.leb_spec (str_len h) MQTT_HOST_MAX_LEN).
    + accept_with. by exists v.
    + refuse_with. intros [h' n'] (x & [= <-] & Hx & ?). rewrite E in Hx. injection Hx as <- <-. lia.
  - rewrite Hd. refuse_with. by intros [h n] (x & [=] & _).
Qed.

Lemma validate_mqtt_client_ok vs :
  validates MqttClient (validate_mqtt_client (slot_of vs)) (optional vs MQTT_CLIENT_ID_MAX_LEN).
Proof.
  destruct (slot_cases vs) as [[-> ->]|[(v & -> & ->)|(v & w & rest & -> & Hd)]]; unfold validates, validate_mqtt_client.
  - accept_with. by left.
  - destruct v as [v|]; cbn; [|accept_with; cbn; by auto].
    destruct (bool_decide (v = "")) eqn:Ev; cbn.
    { apply bool_decide_eq_true in Ev as ->. accept_with. cbn. auto. }
    apply bool_decide_eq_false in Ev. unfold validate_client_id. rewrite decide_False by done.
    change CLIENT_ID_MAX_LEN with MQTT_CLIENT_ID_MAX_LEN.
    destruct (Z.ltb_spec MQTT_CLIENT_ID_MAX_LEN (str_len v)); cbn.
    + refuse_with. intros [x|]; cbn; [intros ([= <-] & _ & ?); lia|by intros [[=]|[[= ->]|[=]]]].
    + accept_with. by split_and!.
  - rewrite Hd. refuse_with. intros [x|]; cbn; [by intros ([=] & _)|by intros [[=]|[[=]|[=]]]].
Qed.

Lemma validate_device_name_ok vs :
  validates DeviceName (validate_device_name (slot_of vs)) (required vs name_ok).
Proof.
  destruct (slot_cases vs) as [[-> ->]|[(v & -> & ->)|(v & w & rest & -> & Hd)]]; unfold validates, validate_device_name.
  - refuse_with. by intros x [[=] _].
  - destruct v as [v|]; cbn; [|refuse_with; by intros x [[=] _]].
    case_decide as Hv; [refuse_with; by intros x [[= <-] [? _]]|].
    destruct (Z.ltb_spec DEVICE_NAME_MAX_LEN (str_len v)).
    + refuse_with. intros x [[= <-] [_ ?]]. lia.
    + accept_with. by split.
  - rewrite Hd. refuse_with. by intros x [[=] _].
Qed.

(** ** User name and password *)

Definition push_all (es : FieldErrors) (l : list (Field * ValidationError)) : FieldErrors :=
  foldl (λ es '(f, e), push_field_error es f e) es l.

Definition absent (vs : list (option string)) : Prop := vs = [] ∨ vs = [Some ""] ∨ vs = [None].

Lemma slot_auth_cases vs :
  (absent vs ∧ duplicate (slot_of vs) = false ∧
   seen (slot_of vs) && negb (bool_decide (slot_value (slot_of vs) = "")) = false) ∨
  (∃ v, vs = [Some v] ∧ v ≠ "" ∧ slot_of vs = mkSlot true v false false) ∨
  ((∀ cap o, ¬ optional vs cap o) ∧ duplicate (slot_of vs) = true).
Proof.
  destruct (slot_cases vs) as [[-> ->]|[(v & -> & ->)|(v & w & rest & -> & Hd)]].
  - left. split; [by left|done].
  - destruct v as [v|]; [|left; split; [right; by right|done]].
    destruct (decide (v = "")) as [->|Hv]; [left; split; [right; by left|done]|].
    right. left. by exists v.
  - right. right. split; [|done]. intros cap [o|]; cbn; [by intros ([=] & _)|by intros [[=]|[[=]|[=]]]].
Qed.

Lemma optional_absent vs cap o : absent vs → optional vs cap o → o = None.
Proof. destruct o as [o|]; [|done]. intros [->|[->| ->]] (Hv & Hne & _); by simplify_eq. Qed.

Lemma optional_given v cap o : v ≠ "" → optional [Some v] cap o → o = Some v ∧ str_len v ≤ cap.
Proof. destruct o as [o|]; cbn; [by intros _ ([= ->] & _ & ?)|by intros ? [[=]|[[= ->]|[=]]]]. Qed.

Lemma auth_value_fits v f cap es :
  str_len v ≤ cap → auth_value (mkSlot true v false false) f cap es = (Some v, es).
Proof. intros H. unfold auth_value. cbn. by rewrite (proj2 (Z.ltb_ge _ _)). Qed.

Lemma auth_value_long v f cap es :
  cap < str_len v →
  auth_value (mkSlot true v false false) f cap es = (None, push_field_error es f (TooLong cap)).
Proof. intros H. unfold auth_value. cbn. by rewrite (proj2 (Z.ltb_lt _ _)). Qed.

Ltac auth_values :=
  intros es; repeat (first [rewrite auth_value_fits by done | rewrite auth_value_long by done]); done.

(** The joint validator accepts silently, or reports at most one error for each field. *)
Lemma validate_mqtt_auth_ok us ws :
  (∃ u w, auth_accepts us ws u w ∧
          ∀ es, validate_mqtt_auth (slot_of us) (slot_of ws) es = ((u, w), es)) ∨
  ((∀ u w, ¬ auth_accepts us ws u w) ∧
   ∃ u w l, l ≠ [] ∧ l.*1 `sublist_of` [MqttUser; MqttPass] ∧
     ∀ es, validate_mqtt_auth (slot_of us) (slot_of ws) es = ((u, w), push_all es l)).
Proof.
  unfold validate_mqtt_auth.
  destruct (slot_auth_cases us) as [(Hu & Hud & Huv)|[(u & -> & Hu & ->)|(Hu & Hud)]];
    destruct (slot_auth_cases ws) as [(Hw & Hwd & Hwv)|[(w & -> & Hw & ->)|(Hw & Hwd)]];
    rewrite ?Hud, ?Hwd, ?Huv, ?Hwv; cbn [duplicate seen slot_value orb andb negb];
    rewrite ?(bool_decide_eq_false_2 (u = "") Hu), ?(bool_decide_eq_false_2 (w = "") Hw); cbn [negb andb].
  - left. exists None, None. split; [|done]. split; [done|]. split; [done|]. by intros [? [=]].
  - right. split.
    + intros o o' (Ho & Ho' & Himp). apply (optional_absent _ _ _ Hu) in Ho as ->.
      apply (optional_given _ _ _ Hw) in Ho' as [-> _]. destruct Himp as [? [=]]. eauto.
    + exists None, None, [(MqttPass, Missing)]. split; [done|]. split; [|done]. by constructor.
  - right. split; [intros o o' (_ & Ho & _); by apply Hw in Ho|].
    exists None, None, [(MqttPass, Duplicate)]. split; [done|]. split; [by constructor|done].
  - destruct (Z.ltb_spec MQTT_USER_MAX_LEN (str_len u)) as [Hlt|Hge].
    + right. split; [intros o o' (Ho & _ & _); apply (optional_given _ _ _ Hu) in Ho as [_ ?]; lia|].
      exists None, None, [(MqttUser, TooLong MQTT_USER_MAX_LEN)]. split; [done|]. split; [by repeat constructor|].
      auth_values.
    + left. exists (Some u), None. split; [split; [done|]; split; [done|by intros [? [=]]]|].
      auth_values.
  - destruct (Z.ltb_spec MQTT_USER_MAX_LEN (str_len u)) as [Hlt|Hge];
      destruct (Z.ltb_spec MQTT_PASS_MAX_LEN (str_len w)) as [Hlt'|Hge'].
    4: { left. exists (Some u), (Some w). split; [split; [done|]; split; [done|by eexists]|].
         auth_values. }
    all: right; split; [intros o o' (Ho & Ho' & _); apply (optional_given _ _ _ Hu) in Ho as [_ ?];
      apply (optional_given _ _ _ Hw) in Ho' as [_ ?]; lia|].
    + exists None, None, [(MqttUser, TooLong MQTT_USER_MAX_LEN); (MqttPass, TooLong MQTT_PASS_MAX_LEN)].
      split; [done|]. split; [done|]. auth_values.
    + exists None, (Some w), [(MqttUser, TooLong MQTT_USER_MAX_LEN)]. split; [done|]. split; [by repeat constructor|].
      auth_values.
    + exists (Some u), None, [(MqttPass, TooLong MQTT_PASS_MAX_LEN)]. split; [done|]. split; [by repeat constructor|].
      auth_values.
  - right. split; [intros o o' (_ & Ho & _); by apply Hw in Ho|].
    exists None, None, [(MqttPass, Duplicate)]. split; [done|]. split; [by repeat constructor|done].
  - right. split; [intros o o' (Ho & _ & _); by apply Hu in Ho|].
    exists None, None, [(MqttUser, Duplicate)]. split; [done|]. split; [by repeat constructor|done].
  - right. split; [intros o o' (Ho & _ & _); by apply Hu in Ho|].
    exists None, None, [(MqttUser, Duplicate)]. split; [done|]. split; [by repeat constructor|done].
  - right. split; [intros o o' (Ho & _ & _); by apply Hu in Ho|].
    exists None, None, [(MqttUser, Duplicate); (MqttPass, Duplicate)]. split; [done|]. split; [done|done].
Qed.

(** ** The loop over the fields *)

Definition vals (xs : list Pair) (f : Field) : list (option string) := values xs (form_name f).

(** The field is acceptable and its value is put into [o]. *)
Definition field_ok (p : SchemaProfile) (xs : list Pair) (f : Field) (o o' : Outs) : Prop :=
  let '(mkOuts ssid pass ota name dev join key host port client) := o in
  let vs := vals xs f in
  match f with
  | WifiSsid => ∃ v, required vs ssid_ok v ∧ o' = mkOuts v pass ota name dev join key host port client
  | WifiPassword => ∃ v, required vs password_ok v ∧ o' = mkOuts ssid v ota name dev join key host port client
  | DevEui => ∃ v, required vs (hex_ok EUI_HEX_LEN) v ∧ o' = mkOuts ssid pass ota name v join key host port client
  | JoinEui => ∃ v, required vs (hex_ok EUI_HEX_LEN) v ∧ o' = mkOuts ssid pass ota name dev v key host port client
  | AppKey => ∃ v, required vs (hex_ok APP_KEY_HEX_LEN) v ∧ o' = mkOuts ssid pass ota name dev join v host port client
  | MqttUri => ∃ hn, (let '(h, n) := hn in uri_accepts vs h n) ∧
                     o' = mkOuts ssid pass ota name dev join key hn.1 hn.2 client
  | MqttClient => ∃ v, optional vs MQTT_CLIENT_ID_MAX_LEN v ∧ o' = mkOuts ssid pass ota name dev join key host port v
  | OtaUrl => ∃ v, ota_accepts p vs v ∧ o' = mkOuts ssid pass v name dev join key host port client
  | DeviceName => ∃ v, required vs name_ok v ∧ o' = mkOuts ssid pass ota v dev join key host port client
  | MqttUser | MqttPass | Form => o' = o
  end.

Lemma required_unique vs P x y : required vs P x → required vs P y → x = y.
Proof. intros [-> _] [[= ->] _]. done. Qed.

Lemma optional_unique vs cap x y : optional vs cap x → optional vs cap y → x = y.
Proof.
  destruct x as [x|], y as [y|]; cbn; [| | |done].
  - intros (-> & _) ([= ->] & _). done.
  - by intros (-> & Hne & _) [[=]|[[= ->]|[=]]].
  - by intros [->|[->| ->]] ([=] & Hne & _).
Qed.

Lemma ota_unique p vs x y : ota_accepts p vs x → ota_accepts p vs y → x = y.
Proof.
  intros [[-> _]|(_ & -> & Hx)] [[Hy _]|(_ & -> & Hy)]; [by injection Hy|..| |done].
  - destruct Hy as [[=]|[= ->]]. done.
  - destruct Hx as [->| ->]; [done|by injection Hy].
Qed.

Lemma uri_unique vs h n h' n' : uri_accepts vs h n → uri_accepts vs h' n' → h = h' ∧ n = n'.
Proof. intros (v & -> & E & _) (v' & [= <-] & E' & _). rewrite E in E'. by injection E' as -> ->. Qed.

Lemma field_ok_unique p xs f o o1 o2 : field_ok p xs f o o1 → field_ok p xs f o o2 → o1 = o2.
Proof.
  destruct o, f; cbn [field_ok]; try (by intros -> ->); intros (v & Hv & ->) (w & Hw & ->);
    try (by rewrite (required_unique _ _ _ _ Hv Hw)).
  - destruct v as [h n], w as [h' n']. cbn. by destruct (uri_unique _ _ _ _ _ Hv Hw) as [-> ->].
  - by rewrite (optional_unique _ _ _ _ Hv Hw).
  - by rewrite (ota_unique _ _ _ _ Hv Hw).
Qed.

Lemma validate_field_ok p xs f o :
  (∃ o', field_ok p xs f o o' ∧ ∀ es, validate_field p f (slot_of (vals xs f)) (o, es) = (o', es)) ∨
  ((∀ o', ¬ field_ok p xs f o o') ∧
   ∃ o' e, ∀ es, validate_field p f (slot_of (vals xs f)) (o, es) = (o', push_field_error es f e)).
Proof.
  assert (∀ A (g : FieldErrors → A * FieldErrors) (P : A → Prop) (k : A → Outs),
    validates f g P →
    (∃ o', (∃ v, P v ∧ o' = k v) ∧ ∀ es, (let '(v, es) := g es in (k v, es)) = (o', es)) ∨
    ((∀ o', ¬ ∃ v, P v ∧ o' = k v) ∧
     ∃ o' e, ∀ es, (let '(v, es) := g es in (k v, es)) = (o', push_field_error es f e))) as HV.
  { intros A g P k [(v & Hv & Hg)|(v & e & Hv & Hg)].
    - left. exists (k v). split; [by exists v|]. intros es. by rewrite Hg.
    - right. split; [intros o' (x & Hx & _); by apply Hv in Hx|]. exists (k v), e. intros es. by rewrite Hg. }
  destruct o as [ssid pass ota name dev join key host port client]. destruct f; cbn [field_ok validate_field];
    try (left; eexists; split; [done|]; done).
  - apply (HV _ _ _ (λ v, mkOuts v pass ota name dev join key host port client)), validate_wifi_ssid_ok.
  - apply (HV _ _ _ (λ v, mkOuts ssid v ota name dev join key host port client)), validate_wifi_password_ok.
  - by apply (HV _ _ _ (λ v, mkOuts ssid pass ota name v join key host port client)), validate_hex_ok.
  - by apply (HV _ _ _ (λ v, mkOuts ssid pass ota name dev v key host port client)), validate_hex_ok.
  - by apply (HV _ _ _ (λ v, mkOuts ssid pass ota name dev join v host port client)), validate_hex_ok.
  - pose proof (HV _ _ _ (λ hn, mkOuts ssid pass ota name dev join key hn.1 hn.2 client)
      (validate_mqtt_uri_ok (vals xs MqttUri))) as [(o' & H1 & H2)|(H1 & o' & e & H2)]; [left|right].
    + exists o'. split; [done|]. intros es. rewrite <- H2. by destruct (validate_mqtt_uri _ es) as [[h n] es'].
    + split; [done|]. exists o', e. intros es. rewrite <- H2. by destruct (validate_mqtt_uri _ es) as [[h n] es'].
  - apply (HV _ _ _ (λ v, mkOuts ssid pass ota name dev join key host port v)), validate_mqtt_client_ok.
  - apply (HV _ _ _ (λ v, mkOuts ssid pass v name dev join key host port client)), validate_ota_url_ok.
  - apply (HV _ _ _ (λ v, mkOuts ssid pass ota v dev join key host port client)), validate_device_name_ok.
Qed.

(** All fields of [fs] are acceptable. *)
Fixpoint fields_ok (p : SchemaProfile) (xs : list Pair) (fs : list Field) (o o' : Outs) : Prop :=
  match fs with
  | [] => o' = o
  | f :: fs => ∃ o1, field_ok p xs f o o1 ∧ fields_ok p xs fs o1 o'
  end.

Definition loop_field (f : Field) : bool :=
  match f with MqttUser | MqttPass | Form => false | _ => true end.

Definition loop_fields (fs : list Field) : list Field := filter (λ f, loop_field f = true) fs.

Lemma loop_field_refused p xs f o : (∀ o', ¬ field_ok p xs f o o') → loop_field f = true.
Proof. intros Hno. destruct f; try done; destruct o; exfalso; by eapply Hno. Qed.

(** No value makes the field acceptable, whatever was validated before it. *)
Definition field_refused (p : SchemaProfile) (xs : list Pair) (f : Field) : Prop :=
  ∀ o', ¬ field_ok p xs f no_outs o'.

Lemma field_ok_any p xs f o o1 o2 : field_ok p xs f o o1 → ∃ o3, field_ok p xs f o2 o3.
Proof. destruct o, o2, f; cbn; try (by eauto); intros (v & Hv & _); by eauto. Qed.

Lemma field_refused_iff p xs f o : field_refused p xs f ↔ ∀ o', ¬ field_ok p xs f o o'.
Proof.
  split; intros H o' Ho; destruct (field_ok_any _ _ _ _ _ no_outs Ho) as [o1 Ho1];
    [by apply H in Ho1|destruct (field_ok_any _ _ _ _ _ o Ho) as [o2 Ho2]; by apply H in Ho2].
Qed.

Lemma fields_loop_ok p xs (fs : list Field) : ∀ (k : nat) st o,
  (∀ i f, fs !! i = Some f → slots st !! (k + i)%nat = Some (slot_of (vals xs f))) →
  ∃ o' l, l.*1 `sublist_of` loop_fields fs ∧
    (∀ es, foldl (λ acc '(idx, f), validate_field p f (slot_at st idx) acc) (o, es)
             (imap (λ i f, (k + i, f)%nat) fs) = (o', push_all es l)) ∧
    (∀ f, f ∈ l.*1 ↔ f ∈ fs ∧ field_refused p xs f) ∧
    (l = [] → fields_ok p xs fs o o') ∧ (∀ o2, fields_ok p xs fs o o2 → l = [] ∧ o2 = o').
Proof.
  induction fs as [|f fs IH]; intros k st o Hs.
  { exists o, []. split; [done|]. split; [done|]. split; [set_solver|]. split; [done|]. by intros o2 ->. }
  assert (slot_at st (k + 0) = slot_of (vals xs f)) as Hslot by (unfold slot_at; by rewrite (Hs 0%nat f)).
  assert (∀ i g, fs !! i = Some g → slots st !! (S k + i)%nat = Some (slot_of (vals xs g))) as Hs'.
  { intros i g Hg. replace (S k + i)%nat with (k + S i)%nat by lia. by apply Hs. }
  assert (imap (λ i f0, (k + i, f0)%nat) (f :: fs) = (k + 0, f)%nat :: imap (λ i f0, (S k + i, f0)%nat) fs) as Ei.
  { cbn. f_equal. apply imap_ext. intros i x _. cbn. f_equal. lia. }
  destruct (validate_field_ok p xs f o) as [(o1 & Ho1 & Hv)|(Hno & o1 & e & Hv)];
    destruct (IH (S k) st o1 Hs') as (o' & l & Hl & Hf & Hin & Hok & Hall).
  - exists o', l. split.
    { unfold loop_fields. rewrite filter_cons. case_decide; [by apply sublist_cons|done]. }
    split; [intros es; rewrite Ei; cbn [foldl]; by rewrite Hslot, Hv|].
    split.
    { intros g. rewrite Hin, elem_of_cons. split; [tauto|]. intros [[->|Hg] Hr]; [|done].
      rewrite (field_refused_iff _ _ _ o) in Hr. by apply Hr in Ho1. }
    split; [intros ->; exists o1; auto|]. intros o2 (o3 & H3 & H4).
    rewrite (field_ok_unique _ _ _ _ _ _ H3 Ho1) in H4. auto.
  - exists o', ((f, e) :: l). split.
    { unfold loop_fields. rewrite filter_cons_True by (by eapply loop_field_refused). by apply sublist_skip. }
    split; [intros es; rewrite Ei; cbn [foldl]; by rewrite Hslot, Hv, Hf|].
    split.
    { intros g. rewrite fmap_cons, !elem_of_cons, Hin. cbn [fst].
      assert (field_refused p xs f) by by apply (field_refused_iff _ _ _ o). naive_solver. }
    split; [done|]. intros o2 (o3 & H3 & _). by apply Hno in H3.
Qed.

(** ** The whole parser *)

(** The parser takes a body's items for [c] under the profile [p]. *)
Definition understood (p : SchemaProfile) (xs : list Pair) (c : ProvisioningConfig) : Prop :=
  body_ok p xs ∧ extras c = extras_of p xs ∧
  required (vals xs WifiSsid) ssid_ok (wifi_ssid c) ∧
  required (vals xs WifiPassword) password_ok (wifi_password c) ∧
  ota_accepts p (vals xs OtaUrl) (ota_url c) ∧
  required (vals xs DeviceName) name_ok (device_name c) ∧
  match p with
  | LorawanFieldDevice =>
      mqtt c = None ∧ ∃ l, lora c = Some l ∧
        required (vals xs DevEui) (hex_ok EUI_HEX_LEN) (dev_eui_hex l) ∧
        required (vals xs JoinEui) (hex_ok EUI_HEX_LEN) (join_eui_hex l) ∧
        required (vals xs AppKey) (hex_ok APP_KEY_HEX_LEN) (app_key_hex l)
  | WifiMqttDevice =>
      lora c = None ∧ ∃ m, mqtt c = Some m ∧
        uri_accepts (vals xs MqttUri) (mqtt_host m) (mqtt_port m) ∧
        auth_accepts (vals xs MqttUser) (vals xs MqttPass) (mqtt_username m) (mqtt_password m) ∧
        optional (vals xs MqttClient) MQTT_CLIENT_ID_MAX_LEN (mqtt_client_id m)
  end.

Lemma push_all_app es l l' : push_all es (l ++ l') = push_all (push_all es l) l'.
Proof. apply foldl_app. Qed.

(** Within the capacity every error is kept. *)
Lemma push_all_fits l : ∀ es,
  (length es + length l ≤ MAX_FIELD_ERRORS)%nat →
  push_all es l = es ++ ((λ '(f, e), mkFieldError f e) <$> l).
Proof.
  induction l as [|[f e] l IH]; intros es Hl; [by rewrite app_nil_r|]. cbn [length] in Hl.
  change (push_all es ((f, e) :: l)) with (push_all (push_field_error es f e) l).
  unfold push_field_error. rewrite (proj2 (Nat.ltb_lt _ _)) by lia.
  rewrite IH by (rewrite length_app; cbn [length]; lia). by rewrite <- app_assoc.
Qed.

Definition auth_fields (p : SchemaProfile) : list Field :=
  match p with LorawanFieldDevice => [] | WifiMqttDevice => [MqttUser; MqttPass] end.

Definition error_fields (p : SchemaProfile) : list Field := loop_fields (fields p) ++ auth_fields p ++ [Form].

Lemma error_list_ok p L :
  L.*1 `sublist_of` error_fields p →
  NoDup L.*1 ∧ Forall (λ f, f ∈ fields p ∨ f = Form) L.*1 ∧
  push_all [] L = (λ '(f, e), mkFieldError f e) <$> L.
Proof.
  intros HL. assert (NoDup (error_fields p)) as Hnd by (apply (bool_decide_unpack _); by destruct p).
  assert (Forall (λ f, f ∈ fields p ∨ f = Form) (error_fields p)) as Hall
    by (apply (bool_decide_unpack _); by destruct p).
  split; [by eapply sublist_NoDup|]. split.
  { apply Forall_forall. intros f Hf. eapply Forall_forall in Hall; [exact Hall|]. by eapply sublist_subseteq. } apply push_all_fits.
  apply sublist_length in HL. rewrite length_fmap in HL. cbn [length].
  assert (length (error_fields p) ≤ MAX_FIELD_ERRORS)%nat by (destruct p; apply Nat.leb_le; reflexivity). lia.
Qed.

(** The end of the parser, over all errors. *)
Lemma answer_cases p L c xs :
  L.*1 `sublist_of` error_fields p →
  (L = [] → understood p xs c) → (∀ c', understood p xs c' → L = [] ∧ c' = c) →
  let answer := match push_all [] L with [] => Ok c | _ => Err (push_all [] L) end in
  (answer = Ok c ∧ understood p xs c ∧ (∀ c', understood p xs c' → c' = c)) ∨
  ((∀ c', ¬ understood p xs c') ∧ L ≠ [] ∧ NoDup L.*1 ∧ Forall (λ f, f ∈ fields p ∨ f = Form) L.*1 ∧
   answer = Err ((λ '(f, e), mkFieldError f e) <$> L)).
Proof.
  intros HL Hok Hall answer. destruct (error_list_ok p L HL) as (Hnd & Hf & Hp). unfold answer. rewrite Hp.
  destruct L as [|[f e] L]; [left|right].
  - split; [done|]. split; [by apply Hok|]. intros c' Hc. by apply Hall.
  - split; [intros c' Hc; by destruct (Hall c' Hc)|]. by split.
Qed.

Definition body_errors (st : FormState) : list (Field * ValidationError) :=
  match form_error st with Some e => [(Form, e)] | None => [] end.

Lemma body_errors_push st es :
  match form_error st with Some e => push_field_error es Form e | None => es end = push_all es (body_errors st).
Proof. unfold body_errors. by destruct (form_error st). Qed.

Lemma body_errors_spec p xs st :
  read_ok p xs st →
  (body_errors st).*1 `sublist_of` [Form] ∧
  ((body_errors st = [] ∧ body_ok p xs ∧ form_extras st = extras_of p xs) ∨
   (body_errors st ≠ [] ∧ ¬ body_ok p xs)).
Proof.
  intros [_ _ Hb]. unfold body_errors. destruct (form_error st) as [e|].
  - split; [by apply sublist_skip|]. right. split; [done|]. destruct Hb as [([=] & _)|(_ & ? & _)]. done.
  - split; [apply sublist_nil_l|]. left. destruct Hb as [(_ & ?)|([? [=]] & _)]. done.
Qed.

Lemma body_errors_exact p xs st : read_ok p xs st → ((body_errors st).*1 ≠ [] ↔ ¬ body_ok p xs).
Proof.
  intros H. destruct (body_errors_spec _ _ _ H) as [_ [(-> & ? & _)|[? ?]]]; [tauto|].
  by destruct (body_errors st).
Qed.

(** The fields of the LoRaWAN profile, and of the MQTT profile without its user and password. *)
Lemma fields_ok_lorawan xs o :
  fields_ok LorawanFieldDevice xs (fields LorawanFieldDevice) no_outs o ↔
  required (vals xs WifiSsid) ssid_ok (o_ssid o) ∧ required (vals xs WifiPassword) password_ok (o_pass o) ∧
  required (vals xs DevEui) (hex_ok EUI_HEX_LEN) (o_dev_eui o) ∧
  required (vals xs JoinEui) (hex_ok EUI_HEX_LEN) (o_join_eui o) ∧
  required (vals xs AppKey) (hex_ok APP_KEY_HEX_LEN) (o_app_key o) ∧
  ota_accepts LorawanFieldDevice (vals xs OtaUrl) (o_ota o) ∧
  required (vals xs DeviceName) name_ok (o_name o) ∧
  o_host o = "" ∧ o_port o = 0 ∧ o_client o = None.
Proof.
  destruct o as [a b c d e f g h i j]. cbn -[required ota_accepts]. split.
  - intros (? & (v1 & H1 & ->) & ? & (v2 & H2 & ->) & ? & (v3 & H3 & ->) & ? & (v4 & H4 & ->) &
      ? & (v5 & H5 & ->) & ? & (v6 & H6 & ->) & ? & (v7 & H7 & ->) & [= -> -> -> -> -> -> -> -> -> ->]).
    auto 20.
  - intros (H1 & H2 & H3 & H4 & H5 & H6 & H7 & -> & -> & ->). repeat (eexists; split; [by eexists|]). done.
Qed.

Lemma fields_ok_mqtt xs o :
  fields_ok WifiMqttDevice xs (fields WifiMqttDevice) no_outs o ↔
  required (vals xs WifiSsid) ssid_ok (o_ssid o) ∧ required (vals xs WifiPassword) password_ok (o_pass o) ∧
  uri_accepts (vals xs MqttUri) (o_host o) (o_port o) ∧
  optional (vals xs MqttClient) MQTT_CLIENT_ID_MAX_LEN (o_client o) ∧
  ota_accepts WifiMqttDevice (vals xs OtaUrl) (o_ota o) ∧
  required (vals xs DeviceName) name_ok (o_name o) ∧
  o_dev_eui o = "" ∧ o_join_eui o = "" ∧ o_app_key o = "".
Proof.
  destruct o as [a b c d e f g h i j]. cbn -[required ota_accepts optional uri_accepts]. split.
  - intros (? & (v1 & H1 & ->) & ? & (v2 & H2 & ->) & ? & ([v3 n3] & H3 & ->) & ? & -> & ? & -> &
      ? & (v4 & H4 & ->) & ? & (v5 & H5 & ->) & ? & (v6 & H6 & ->) & [= -> -> -> -> -> -> -> -> -> ->]).
    auto 20.
  - intros (H1 & H2 & H3 & H4 & H5 & H6 & -> & -> & ->).
    eexists; split; [by eexists|]. eexists; split; [by eexists|].
    eexists; split; [by exists (h, i)|]. do 2 (eexists; split; [reflexivity|]).
    repeat (eexists; split; [by eexists|]). done.
Qed.

(** The fields of [fs] are exactly those of the body that are wrong; the broker's user and
    password are judged together. *)
Definition errors_exact (p : SchemaProfile) (xs : list Pair) (fs : list Field) : Prop :=
  (∀ f, loop_field f = true → (f ∈ fs ↔ f ∈ fields p ∧ field_refused p xs f)) ∧
  ((MqttUser ∈ fs ∨ MqttPass ∈ fs) ↔
   p = WifiMqttDevice ∧ ∀ u w, ¬ auth_accepts (vals xs MqttUser) (vals xs MqttPass) u w) ∧
  (Form ∈ fs ↔ ¬ body_ok p xs).

Lemma sublist_elements {A} (l k : list A) x : l `sublist_of` k → x ∈ l → x ∈ k.
Proof. intros H Hx. by eapply sublist_subseteq. Qed.

Lemma errors_exact_app p xs (l la lb : list Field) :
  (∀ f, f ∈ l ↔ f ∈ fields p ∧ field_refused p xs f) →
  la `sublist_of` auth_fields p → lb `sublist_of` [Form] →
  (la ≠ [] ↔ p = WifiMqttDevice ∧ ∀ u w, ¬ auth_accepts (vals xs MqttUser) (vals xs MqttPass) u w) →
  (lb ≠ [] ↔ ¬ body_ok p xs) →
  errors_exact p xs (l ++ la ++ lb).
Proof.
  intros Hl Hla Hlb Ha Hb.
  assert (∀ f, f ∈ la → f = MqttUser ∨ f = MqttPass) as Hina.
  { intros f Hf. eapply sublist_elements in Hf; [|done]. destruct p; set_solver. }
  assert (∀ f, f ∈ lb → f = Form) as Hinb by (intros f Hf; eapply sublist_elements in Hf; [|done]; set_solver).
  assert (∀ f, f ∈ l → loop_field f = true) as Hinl.
  { intros f [_ Hf]%Hl. by apply loop_field_refused in Hf. }
  split; [|split].
  - intros f Hf. rewrite !elem_of_app, Hl. split; [|tauto].
    intros [?|[[-> | ->]%Hina| ->%Hinb]]; done.
  - rewrite <- Ha, !elem_of_app. split.
    + intros [[H%Hinl|[H|H%Hinb]]|[H%Hinl|[H|H%Hinb]]]; try done; intros ->; by apply elem_of_nil in H.
    + intros Hne. destruct la as [|f la]; [done|].
      destruct (Hina f ltac:(left)) as [-> | ->]; [left|right]; right; left; left.
  - rewrite <- Hb, !elem_of_app. split.
    + intros [H%Hinl|[[H|H]%Hina|H]]; try done. intros ->. by apply elem_of_nil in H.
    + intros Hne. destruct lb as [|f lb]; [done|]. rewrite (Hinb f ltac:(left)). right. right. left.
Qed.

(** The parser's answer: the configuration its body was understood as, or all its errors. *)
Definition answers (p : SchemaProfile) (xs : list Pair) (r : result FieldErrors ProvisioningConfig) : Prop :=
  (∃ c, r = Ok c ∧ understood p xs c ∧ (∀ c', understood p xs c' → c' = c)) ∨
  ((∀ c, ¬ understood p xs c) ∧
   ∃ L, L ≠ [] ∧ NoDup L.*1 ∧ Forall (λ f, f ∈ fields p ∨ f = Form) L.*1 ∧ errors_exact p xs L.*1 ∧
        r = Err ((λ '(f, e), mkFieldError f e) <$> L)).

Lemma answer_answers p L c xs :
  L.*1 `sublist_of` error_fields p → errors_exact p xs L.*1 →
  (L = [] → understood p xs c) → (∀ c', understood p xs c' → L = [] ∧ c' = c) →
  answers p xs (match push_all [] L with [] => Ok c | _ => Err (push_all [] L) end).
Proof.
  intros HL Hex H1 H2. destruct (answer_cases p L c xs HL H1 H2) as [(E & Hc)|(Hno & Hne & Hnd & Hf & E)];
    [left|right]; [by exists c|]. split; [done|]. by exists L.
Qed.

Section parse.
  Context (body : string).

Lemma parse_lorawan : answers LorawanFieldDevice (pairs_of body) (parse_form body LorawanFieldDevice).
Proof.
  set (xs := pairs_of body). unfold parse_form. rewrite read_pairs_handle. fold xs.
  set (st := foldl (handle _) start_state xs). pose proof (read_ok_all LorawanFieldDevice xs) as Hr. fold st in Hr.
  destruct (fields_loop_ok LorawanFieldDevice xs (fields LorawanFieldDevice) 0 st no_outs) as (o & l & Hl & Hloop & Hin & Hok & Hall).
  { intros i f Hf. by apply (read_slots _ _ _ Hr). }
  unfold validate_fields. change (imap pair (fields LorawanFieldDevice))
    with (imap (λ i f, (0 + i, f)%nat) (fields LorawanFieldDevice)).
  rewrite Hloop, body_errors_push, <- push_all_app.
  destruct (body_errors_spec _ _ _ Hr) as [Hfs Hb]. apply answer_answers.
  - rewrite fmap_app. by apply sublist_app.
  - rewrite fmap_app. apply (errors_exact_app _ _ _ []); [done|apply sublist_nil_l|done| |by apply body_errors_exact].
    split; [done|]. by intros [[=] _].
  - intros [-> Hn]%app_eq_nil. destruct Hb as [(_ & Hbody & Hx)|[Hne _]]; [|done].
    destruct (proj1 (fields_ok_lorawan xs o) (Hok eq_refl)) as (H1 & H2 & H3 & H4 & H5 & H6 & H7 & _).
    split; [done|]. split; [done|]. do 4 (split; [done|]). split; [done|]. by eexists.
  - intros [ssid pass ota name lo mq ex] (Hbody & Hx & H1 & H2 & H6 & H7 & Hm & [d j k] & Hlo & H3 & H4 & H5).
    cbn in Hx, H1, H2, H6, H7, Hm, Hlo, H3, H4, H5. subst mq lo ex.
    destruct (Hall (mkOuts ssid pass ota name d j k "" 0 None)) as [-> <-].
    { apply fields_ok_lorawan. by split_and!. }
    destruct Hb as [(-> & _ & ->)|[_ Hno]]; [done|by destruct Hno].
Qed.

Lemma slot_mqtt_auth st :
  let slot f := slot_at st (default 0%nat (canonical_index WifiMqttDevice (form_name f))) in
  slot MqttUser = slot_at st 3 ∧ slot MqttPass = slot_at st 4.
Proof. done. Qed.

Lemma auth_errors us ws :
  ∃ u w la, la.*1 `sublist_of` [MqttUser; MqttPass] ∧
    (∀ es, validate_mqtt_auth (slot_of us) (slot_of ws) es = ((u, w), push_all es la)) ∧
    (la ≠ [] ↔ ∀ u' w', ¬ auth_accepts us ws u' w') ∧
    (la = [] → auth_accepts us ws u w) ∧
    (∀ u' w', auth_accepts us ws u' w' → la = [] ∧ u' = u ∧ w' = w).
Proof.
  destruct (validate_mqtt_auth_ok us ws) as [(u & w & Hacc & Hv)|(Hno & u & w & la & Hne & Hla & Hv)].
  - exists u, w, []. split; [apply sublist_nil_l|]. split; [done|].
    split; [split; [done|]; intros H; by apply H in Hacc|]. split; [done|].
    intros u' w' (Hu' & Hw' & _). destruct Hacc as (Hu & Hw & _).
    split; [done|]. split; by eapply optional_unique.
  - exists u, w, la. do 4 (split; [done|]). intros u' w' Hacc. by apply Hno in Hacc.
Qed.

Lemma parse_mqtt : answers WifiMqttDevice (pairs_of body) (parse_form body WifiMqttDevice).
Proof.
  set (xs := pairs_of body). unfold parse_form. rewrite read_pairs_handle. fold xs.
  set (st := foldl (handle _) start_state xs). pose proof (read_ok_all WifiMqttDevice xs) as Hr. fold st in Hr.
  destruct (fields_loop_ok WifiMqttDevice xs (fields WifiMqttDevice) 0 st no_outs) as (o & l & Hl & Hloop & Hin & Hok & Hall).
  { intros i f Hf. by apply (read_slots _ _ _ Hr). }
  unfold validate_fields. change (imap pair (fields WifiMqttDevice))
    with (imap (λ i f, (0 + i, f)%nat) (fields WifiMqttDevice)).
  rewrite Hloop. cbv zeta. destruct (slot_mqtt_auth st) as [-> ->].
  assert (slot_at st 3 = slot_of (vals xs MqttUser)) as Eu by (unfold slot_at; by rewrite (read_slots _ _ _ Hr 3 MqttUser)).
  assert (slot_at st 4 = slot_of (vals xs MqttPass)) as Ew by (unfold slot_at; by rewrite (read_slots _ _ _ Hr 4 MqttPass)).
  rewrite Eu, Ew. destruct (body_errors_spec _ _ _ Hr) as [Hfs Hb].
  destruct (auth_errors (vals xs MqttUser) (vals xs MqttPass)) as (u & w & la & Hla & Hauth & Hne & Hok' & Hall').
  rewrite Hauth. cbv beta iota. rewrite body_errors_push, <- !push_all_app. apply answer_answers.
  - rewrite !fmap_app. unfold error_fields. by repeat apply sublist_app.
  - rewrite !fmap_app. apply errors_exact_app; [done..| |by apply body_errors_exact].
    assert (la.*1 ≠ [] ↔ la ≠ []) as -> by (by destruct la). rewrite Hne. naive_solver.
  - intros [-> [-> Hn]%app_eq_nil]%app_eq_nil. destruct Hb as [(_ & Hbody & Hx)|[Hbad _]]; [|done].
    destruct (proj1 (fields_ok_mqtt xs o) (Hok eq_refl)) as (H1 & H2 & H3 & H4 & H5 & H6 & _).
    split; [done|]. split; [done|]. do 4 (split; [done|]). split; [done|].
    eexists. split; [done|]. cbn [mqtt_host mqtt_port mqtt_username mqtt_password mqtt_client_id]. auto.
  - intros [ssid pass ota name lo mq ex] (Hbody & Hx & H1 & H2 & H5 & H6 & Hlo & [h n u' w' c] & Hmq & H3 & Ha & H4).
    cbn in Hx, H1, H2, H5, H6, Hmq, Hlo, H3, H4, Ha. subst mq lo ex.
    destruct (Hall (mkOuts ssid pass ota name "" "" "" h n c)) as [-> <-].
    { apply fields_ok_mqtt. by split_and!. }
    destruct (Hall' _ _ Ha) as (-> & -> & ->).
    destruct Hb as [(-> & _ & ->)|[_ Hno]]; [done|by destruct Hno].
Qed.

Lemma parse_form_answers p : answers p (pairs_of body) (parse_form body p).
Proof. destruct p; [apply parse_lorawan|apply parse_mqtt]. Qed.

End parse.

(** ** The values are text *)

Definition text (s : string) : Prop := utf8_valid (as_bytes s) = true.

Lemma hex_value_range b n : hex_value b = Some n → 0 ≤ n < 16.
Proof.
  unfold hex_value, in_range. intros H.
  destruct (_ && _) eqn:E1 in H; [injection H as <-; lia|].
  destruct (_ && _) eqn:E2 in H; [injection H as <-; lia|].
  destruct (_ && _) eqn:E3 in H; [injection H as <-; lia|done].
Qed.

Lemma nibbles_range hi lo : 0 ≤ hi < 16 → 0 ≤ lo < 16 → 0 ≤ Z.lor (Z.shiftl hi 4) lo < 256.
Proof.
  intros Hh Hl.
  assert (∀ x, 0 ≤ x < 16 → x ∈ seqZ 0 16) as Hin by (intros x Hx; apply elem_of_seqZ; lia).
  assert (Forall (λ h, Forall (λ l, 0 ≤ Z.lor (Z.shiftl h 4) l < 256) (seqZ 0 16)) (seqZ 0 16)) as HF
    by (apply (bool_decide_unpack _); vm_compute; exact I).
  rewrite Forall_forall in HF. specialize (HF hi (Hin hi Hh)). rewrite Forall_forall in HF. by apply HF, Hin.
Qed.

Lemma push_byte_ok cap b l l' :
  0 ≤ b < 256 → Forall (λ b, 0 ≤ b < 256) l → push_byte cap b l = Some l' →
  Forall (λ b, 0 ≤ b < 256) l' ∧ Z.of_nat (length l') ≤ cap.
Proof.
  unfold push_byte. intros Hb Hl H. destruct (Z.ltb_spec (Z.of_nat (length l)) cap); [|done].
  injection H as <-. split; [by apply Forall_app_2; [|constructor]|]. rewrite length_app. cbn. lia.
Qed.

Lemma percent_go_ok cap (n : nat) : ∀ raw acc bytes,
  (length raw ≤ n)%nat → Forall (λ b, 0 ≤ b < 256) raw → Forall (λ b, 0 ≤ b < 256) acc →
  Z.of_nat (length acc) ≤ cap → percent_go cap raw acc = Ok bytes →
  Forall (λ b, 0 ≤ b < 256) bytes ∧ Z.of_nat (length bytes) ≤ cap.
Proof.
  induction n as [|n IH]; intros raw acc bytes Hn Hraw Hacc Hcap H.
  { destruct raw; [|cbn in Hn; lia]. by injection H as <-. }
  destruct raw as [|b rest]; [by injection H as <-|]. apply Forall_cons in Hraw as [Hb Hraw].
  cbn [length] in Hn. cbn [percent_go] in H. destruct (Z.eqb b 43).
  { destruct (push_byte cap 32 acc) as [acc'|] eqn:E; [|done].
    apply push_byte_ok in E as [? ?]; [|done..]. eapply (IH rest acc'); [lia|done..]. }
  destruct (Z.eqb b 37).
  { destruct rest as [|h [|l rest]]; [done..|].
    destruct (hex_value h) as [hi|] eqn:Eh; [|done]. destruct (hex_value l) as [lo|] eqn:El; [|done].
    destruct (push_byte cap (Z.lor (Z.shiftl hi 4) lo) acc) as [acc'|] eqn:E; [|done].
    apply push_byte_ok in E as [? ?]; [|eapply nibbles_range; by eapply hex_value_range|done].
    apply Forall_cons in Hraw as [_ [_ Hraw]%Forall_cons]. cbn [length] in Hn.
    eapply (IH rest acc'); [lia|done..]. }
  destruct (push_byte cap b acc) as [acc'|] eqn:E; [|done].
  apply push_byte_ok in E as [? ?]; [|done..]. eapply (IH rest acc'); [lia|done..].
Qed.

Lemma percent_decode_text cap s v : 0 ≤ cap → percent_decode cap s = D_Ok v → text v ∧ str_len v ≤ cap.
Proof.
  unfold percent_decode. intros Hcap H. destruct (percent_go cap (as_bytes s) []) as [bytes|d] eqn:E.
  2: { subst d. clear -E. exfalso. revert E. generalize (@nil Z). 
       assert (∀ n raw acc, (length raw ≤ n)%nat → percent_go cap raw acc ≠ Err (D_Ok v)) as Hno.
       { induction n as [|n IH]; intros raw acc Hn; [by destruct raw; [|cbn in Hn; lia]|].
         destruct raw as [|b rest]; [done|]. cbn [length] in Hn. cbn [percent_go].
         destruct (Z.eqb b 43); [destruct (push_byte cap 32 acc); [apply IH; lia|done]|].
         destruct (Z.eqb b 37); [|destruct (push_byte cap b acc); [apply IH; lia|done]].
         destruct rest as [|h [|l rest]]; [done..|]. destruct (hex_value h), (hex_value l); try done.
         cbn [length] in Hn. destruct (push_byte cap _ acc); [apply IH; lia|done]. }
       intros acc. by apply (Hno (length (as_bytes s))). }
  destruct (from_utf8 bytes) as [t|] eqn:Eu; [|done]. injection H as ->.
  eapply percent_go_ok in E as [Hb Hl]; [|done|apply as_bytes_range|constructor|done].
  apply from_utf8_Some in Eu as [Eb Ht]; [|done]. split; [done|].
  unfold str_len. rewrite <- as_bytes_length, Eb. done.
Qed.

Lemma classify_text pair k v :
  classify pair = P_Item k v → text k ∧ match v with Some v => text v ∧ str_len v ≤ VALUE_DECODE_MAX | None => True end.
Proof.
  unfold classify. case_decide; [done|]. destruct (split_pair pair) as [rk rv].
  destruct (percent_decode KEY_DECODE_MAX rk) as [key| |] eqn:Ek; [|done..].
  apply percent_decode_text in Ek as [Ek _]; [|done].
  destruct (starts_with "_" key); [done|].
  destruct (percent_decode VALUE_DECODE_MAX rv) as [w| |] eqn:Ev; intros [= <- <-]; [|done].
  apply percent_decode_text in Ev; [|done]. done.
Qed.

Lemma values_text body f v : vals (pairs_of body) f = [Some v] → text v.
Proof.
  intros H. assert (Some v ∈ vals (pairs_of body) f) as Hin by (rewrite H; left).
  unfold vals, values in Hin. apply list_elem_of_omap in Hin as (x & Hx & Hv).
  destruct x as [| |k w]; [done..|]. case_decide; [|done]. injection Hv as ->.
  apply list_elem_of_fmap in Hx as (pair & Hc & _). symmetry in Hc. by apply classify_text in Hc as [_ [? _]].
Qed.

Lemma extras_text body p : Forall (λ e, text (extra_key e) ∧ text (extra_value e)) (extras_of p (pairs_of body)).
Proof.
  apply Forall_forall. intros e (x & Hx & He)%list_elem_of_omap.
  destruct x as [| |k [v|]]; [done..| |done]. case_decide; [done|]. injection He as <-.
  apply list_elem_of_fmap in Hx as (pair & Hc & _). symmetry in Hc. by apply classify_text in Hc as [? [? _]].
Qed.

(** ** The host of a broker URI is text *)

Lemma strip_prefix_app pre s rest : strip_prefix pre s = Some rest → s = pre +:+ rest.
Proof.
  revert s. induction pre as [|a pre IH]; intros s H; [by injection H as ->|].
  destruct s as [|b s]; [done|]. cbn [strip_prefix] in H. destruct (Ascii.eqb_spec a b) as [->|]; [|done].
  apply IH in H as ->. done.
Qed.

Lemma rsplit_once_app c s l r : rsplit_once c s = Some (l, r) → s = l +:+ String c r.
Proof.
  revert l r. induction s as [|a s IH]; intros l r H; [done|]. cbn [rsplit_once] in H.
  destruct (rsplit_once c s) as [[l' r']|].
  - injection H as <- <-. by rewrite (IH l' r' eq_refl).
  - destruct (Ascii.eqb_spec a c) as [->|]; [|done]. by injection H as <- <-.
Qed.

Lemma as_bytes_app a b : as_bytes (a +:+ b) = as_bytes a ++ as_bytes b.
Proof.
  induction a as [|x a IH]; [done|].
  change (byte_of x :: as_bytes (a +:+ b) = byte_of x :: as_bytes a ++ as_bytes b). by rewrite IH.
Qed.

Lemma uri_host_text v h n : text v → parse_mqtt_uri v = Some (h, n) → text h ∧ is_u16 n ∧ h ≠ "" ∧ n ≠ 0.
Proof.
  unfold parse_mqtt_uri. intros Hv H.
  destruct (strip_prefix "mqtt://" v) as [rest|] eqn:E1; [|done]. cbn [mbind option_bind] in H.
  destruct (rsplit_once ":" rest) as [[host ps]|] eqn:E2; [|done]. cbn [mbind option_bind] in H.
  case_decide as Hne; [done|]. destruct (parse_u16 ps) as [port|] eqn:E3; [|done].
  cbn [mbind option_bind] in H. destruct (Z.eqb_spec port 0); [done|]. injection H as -> ->.
  apply strip_prefix_app in E1. apply rsplit_once_app in E2. subst v rest.
  split; [|split; [by apply (parse_u16_range ps)|split; [tauto|done]]].
  unfold text in *. rewrite as_bytes_app in Hv. change (utf8_valid (as_bytes (h +:+ String ":" ps)) = true) in Hv.
  rewrite as_bytes_app in Hv.
  rewrite <- (take_app_length (as_bytes h) (as_bytes (String ":" ps))). apply utf8_valid_take; [done|].
  intros b Hb. rewrite lookup_app_r, Nat.sub_diag in Hb by done. by injection Hb as <-.
Qed.

(** ** Properties *)

(** No value of the optional broker fields is too long for the decode buffer. *)
Definition broker_values_fit (xs : list Pair) : Prop :=
  Forall (λ f, None ∉ vals xs f) [MqttUser; MqttPass; MqttClient].

#[export] Instance broker_values_fit_dec xs : Decision (broker_values_fit xs).
Proof. unfold broker_values_fit. apply _. Defined.

(** A body's items describe [c]: they can be taken for it, and none of these values is too long. *)
Definition describes (p : SchemaProfile) (xs : list Pair) (c : ProvisioningConfig) : Prop :=
  understood p xs c ∧ broker_values_fit xs.

(** C21: The form parser accepts exactly the bodies that describe a configuration of the
    profile, and the configuration it returns is the only one they describe: every required
    field is given once, within its limits; an optional one at most once; every other key is
    a well-formed extra, none twice, none of the other profile.  This holds of the bodies whose
    broker user, password and client id decode to at most 160 bytes: the documentation has a
    longer one refused, the code takes it for an absent one ([client_overlong_dropped]). *)
Theorem form_accepts_exact body p c :
  broker_values_fit (pairs_of body) →
  parse_form body p = Ok c ↔ describes p (pairs_of body) c.
Proof.
  intros Hf. destruct (parse_form_answers body p) as [(c' & -> & Hc' & Hall)|(Hno & L & _ & _ & _ & _ & ->)].
  - split; [by intros [= <-]|]. by intros [->%Hall _].
  - split; [done|]. by intros [H%Hno _].
Qed.

(** A refusal reports every mistake exactly once and loses none to the bounded error list.
    The errors are non-empty, at most nine, name no field twice and only fields of the profile
    or the body as a whole.  A field is named exactly when no value makes it acceptable; the
    broker's user and password, judged together, exactly when they are not; the body as a
    whole exactly when a pair is malformed or an extra does not fit. *)
Lemma form_errors_exact body p es :
  parse_form body p = Err es →
  es ≠ [] ∧ (length es ≤ MAX_FIELD_ERRORS)%nat ∧ NoDup (fe_field <$> es) ∧
  Forall (λ f, f ∈ fields p ∨ f = Form) (fe_field <$> es) ∧
  errors_exact p (pairs_of body) (fe_field <$> es).
Proof.
  destruct (parse_form_answers body p) as [(c' & -> & _)|(_ & L & Hne & Hnd & Hf & Hex & ->)]; [done|].
  intros [= <-].
  assert (fe_field <$> ((λ '(f, e), mkFieldError f e) <$> L) = L.*1) as ->
    by (rewrite <- list_fmap_compose; by apply list_fmap_ext; intros i [f e]).
  split; [by destruct L|]. split; [|done]. rewrite length_fmap, <- (length_fmap fst L).
  assert (length L.*1 ≤ length (Form :: fields p))%nat by
    (apply submseteq_length, NoDup_submseteq; [done|]; intros f [?| ->]%(proj1 (Forall_forall _ _) Hf); [by right|left]).
  unfold MAX_FIELD_ERRORS. destruct p; cbn in *; lia.
Qed.

Definition bad_body : string := "wifi_ssid=attic&wifi_pass=short&app_key=12&=x&mqtt_uri=mqtt://h:1".

Definition bad_errors : FieldErrors :=
  [mkFieldError WifiPassword (TooShort 8); mkFieldError DevEui Missing; mkFieldError JoinEui Missing;
   mkFieldError AppKey (InvalidHex 32); mkFieldError OtaUrl Missing; mkFieldError DeviceName Missing;
   mkFieldError Form MalformedBody].

Lemma form_errors_exact_witness :
  parse_form bad_body LorawanFieldDevice = Err bad_errors ∧
  bad_errors ≠ [] ∧ (length bad_errors ≤ MAX_FIELD_ERRORS)%nat ∧ NoDup (fe_field <$> bad_errors) ∧
  Forall (λ f, f ∈ fields LorawanFieldDevice ∨ f = Form) (fe_field <$> bad_errors) ∧
  errors_exact LorawanFieldDevice (pairs_of bad_body) (fe_field <$> bad_errors).
Proof.
  split; [vm_compute; reflexivity|]. apply (form_errors_exact bad_body LorawanFieldDevice bad_errors).
  vm_compute. reflexivity.
Defined.

(** A client id too long for the decoder counts as none; one of 24 bytes is an error. *)
Definition client_body (client : string) : string :=
  "wifi_ssid=attic&wifi_pass=&mqtt_uri=mqtt://h:1883&dev_name=lamp&mqtt_client=" +:+ client.

Fixpoint long_text (n : nat) : string :=
  match n with O => "" | S n => String "x" (long_text n) end.

Example client_too_long :
  parse_form (client_body (long_text 24)) WifiMqttDevice =
  Err [mkFieldError MqttClient (TooLong MQTT_CLIENT_ID_MAX_LEN)].
Proof. vm_compute. reflexivity. Qed.

Example client_overlong_dropped :
  parse_form (client_body (long_text 161)) WifiMqttDevice =
  Ok (mkConfig "attic" "" "" "lamp" None (Some (mkMqtt "h" 1883 None None None)) []).
Proof. vm_compute. reflexivity. Qed.

(** A body with an extra, a client id and a user name without a password. *)
Definition good_body : string :=
  "wifi_ssid=attic&wifi_pass=p%40ssword&mqtt_uri=mqtt://h:1883&mqtt_user=me&mqtt_pass=&dev_name=lamp&mqtt_client=lamp-1&room=attic".

Definition good_config : ProvisioningConfig :=
  mkConfig "attic" "p@ssword" "" "lamp" None (Some (mkMqtt "h" 1883 (Some "me") None (Some "lamp-1"))) [mkExtra "room" "attic"].

Lemma form_accepts_exact_witness :
  broker_values_fit (pairs_of good_body) ∧ describes WifiMqttDevice (pairs_of good_body) good_config.
Proof.
  assert (broker_values_fit (pairs_of good_body)) as H by (apply (bool_decide_unpack _); vm_compute; exact I).
  split; [exact H|]. apply (form_accepts_exact good_body WifiMqttDevice good_config H). vm_compute. reflexivity.
Defined.
