(* ===== verification/ProvFlow.v ===== *)
(** * ProvFlow: from the portal's form to the stored record

    The composition of the form parser with the two-sector store: what the parser accepts is
    a configuration that the store's types admit, that [save] does not refuse, and that the
    next [load] returns. *)
From Stdlib Require Import Ascii.
From S2P Require Import Prelude Text Version MqttTopics ProvConfig ProvForm ProvFormProps ProvRecord ProvRecordProps ProvStore ProvStoreProps.
Open Scope Z_scope.

Lemma required_text body f P v cap :
  required (vals (pairs_of body) f) P v → str_len v ≤ cap → hstring_ok cap v.
Proof. intros [Hv _] Hcap. split; [done|]. by eapply values_text. Qed.

Lemma optional_text body f cap o : optional (vals (pairs_of body) f) cap o → opt_hstring_ok cap o.
Proof. destruct o as [v|]; [|done]. intros (Hv & _ & Hl). split; [done|]. by eapply values_text. Qed.

Lemma described_mqtt_wf body m :
  uri_accepts (vals (pairs_of body) MqttUri) (mqtt_host m) (mqtt_port m) →
  auth_accepts (vals (pairs_of body) MqttUser) (vals (pairs_of body) MqttPass) (mqtt_username m) (mqtt_password m) →
  optional (vals (pairs_of body) MqttClient) MQTT_CLIENT_ID_MAX_LEN (mqtt_client_id m) →
  wf_mqtt m.
Proof.
  intros (v & Hv & Hu & Hl) (Huser & Hpass & _) Hc. apply values_text in Hv.
  destruct (uri_host_text _ _ _ Hv Hu) as (Ht & Hn & _).
  split; [by split|]. split; [done|]. split_and!; by eapply optional_text.
Qed.

Lemma described_wf body p c : understood p (pairs_of body) c → wf_config c.
Proof.
  intros ([_ (Hst & Hlen & Hfit)] & Hx & Hssid & Hpass & Hota & Hname & Hp).
  split; [eapply required_text; [done|]; apply Hssid|].
  split; [eapply required_text; [done|]; apply Hpass|].
  split.
  { destruct Hota as [H|(_ & -> & _)]; [|by split; [vm_compute|]].
    eapply required_text; [done|]. apply H. }
  split; [eapply required_text; [done|]; apply Hname|].
  split.
  { destruct p; [by destruct Hp as [-> _]|]. destruct Hp as (_ & m & -> & H1 & H2 & H3).
    by eapply described_mqtt_wf. }
  rewrite Hx. split; [|done]. pose proof (extras_text body p) as Ht. rewrite Forall_forall in Ht, Hfit.
  apply Forall_forall. intros e He. destruct (Ht e He), (Hfit e He). by split; split.
Qed.

Lemma described_storable body p c : understood p (pairs_of body) c → storable_extras (extras c).
Proof. intros ([_ (Hst & _ & _)] & -> & _). done. Qed.

Lemma described_profile body p c :
  understood p (pairs_of body) c →
  config_profile c = p ∧ (p = WifiMqttDevice → stored_config c = c).
Proof.
  destruct c as [ssid pass ota name lo mq ex]. intros (_ & _ & _ & _ & _ & _ & Hp). cbn in Hp.
  destruct p; [destruct Hp as (-> & l & -> & _)|destruct Hp as (-> & m & -> & _)]; done.
Qed.

(** The keys a LoRaWAN form leaves behind are hexadecimal and of the right length. *)
Definition keys_ok (c : ProvisioningConfig) : Prop :=
  match lora c with
  | Some l => hex_ok EUI_HEX_LEN (dev_eui_hex l) ∧ hex_ok EUI_HEX_LEN (join_eui_hex l) ∧
              hex_ok APP_KEY_HEX_LEN (app_key_hex l)
  | None => True
  end.

Lemma described_keys body p c : understood p (pairs_of body) c → keys_ok c.
Proof.
  intros (_ & _ & _ & _ & _ & _ & Hp). unfold keys_ok.
  destruct p; [|by destruct Hp as (-> & _)]. destruct Hp as (_ & l & -> & [_ ?] & [_ ?] & [_ ?]). done.
Qed.

Section flow.
  Context {F : Type} {NF : NorFlash F} {NFL : NorFlashLaws F}.

Lemma save_then_load (s : ProvisioningStore F) reg n c :
  wf_config c → storable_extras (extras c) → implements s reg n → n + 1 < u32_max →
  replies store_step [DoSave c; DoLoad] s = [Ok Done; Ok (Held (Some (stored_config c)))].
Proof.
  intros Hwf Hst Hi Hn.
  destruct (store_step_implements (DoSave c) s reg n Hwf ltac:(lia) Hi) as (s1 & E1 & Hi1).
  destruct (store_step_implements DoLoad s1 _ (n + 1) I ltac:(lia) Hi1) as (s2 & E2 & _).
  cbn [register_step] in E1, E2. rewrite decide_True in E1, E2 by done.
  cbn [replies]. rewrite E1. cbn [fst snd]. by rewrite E2.
Qed.

(** What the portal accepts is what the device boots with.  If the form parser accepts a
    body, the configuration satisfies every limit of its types and the extras' rules, carries
    the profile it was parsed for and, with that profile, hexadecimal LoRaWAN keys of the right
    length; saving it on a device without faults succeeds, and the next load returns it,
    less the LoRaWAN keys, which this record format does not carry. *)
Lemma accepted_form_survives (s : ProvisioningStore F) reg n body p c :
  parse_form body p = Ok c → implements s reg n → n + 1 < u32_max →
  wf_config c ∧ config_profile c = p ∧ keys_ok c ∧ (p = WifiMqttDevice → stored_config c = c) ∧
  replies store_step [DoSave c; DoLoad] s = [Ok Done; Ok (Held (Some (stored_config c)))].
Proof.
  intros Hp Hi Hn.
  destruct (parse_form_answers body p) as [(c' & E & Hd & _)|(_ & L & _ & _ & _ & _ & E)];
    rewrite Hp in E; [injection E as <-|done].
  destruct (described_profile _ _ _ Hd) as [H1 H2].
  split; [by eapply described_wf|]. split; [done|]. split; [by eapply described_keys|]. split; [done|].
  eapply save_then_load; [by eapply described_wf|by eapply described_storable|done|done].
Qed.

End flow.

Definition good_body : string :=
  "wifi_ssid=attic+net&wifi_pass=open%20sesame&mqtt_uri=mqtt://broker.lan:1883&ota_url=&dev_name=lamp&room=attic&_csrf=1".

Definition good_config : ProvisioningConfig :=
  mkConfig "attic net" "open sesame" "" "lamp" None
    (Some (mkMqtt "broker.lan" 1883 None None None)) [mkExtra "room" "attic"].

Lemma accepted_form_survives_witness :
  parse_form good_body WifiMqttDevice = Ok good_config ∧
  wf_config good_config ∧ config_profile good_config = WifiMqttDevice ∧ keys_ok good_config ∧
  (WifiMqttDevice = WifiMqttDevice → stored_config good_config = good_config) ∧
  replies store_step [DoSave good_config; DoLoad] (blank_store []) =
  [Ok Done; Ok (Held (Some (stored_config good_config)))].
Proof.
  split; [vm_compute; reflexivity|].
  apply (accepted_form_survives (blank_store []) None 0 good_body WifiMqttDevice good_config).
  - vm_compute. reflexivity.
  - exact blank_implements.
  - vm_compute. reflexivity.
Defined.
