(* ===== verification/WifiLink.v ===== *)
(** * WifiLink: the station's reconnect policy ([wifi/link.rs]), the suspend bookkeeping of
    the async tier ([wifi/handover.rs]), and the supervisor that drives the radio with that
    policy ([wifi/supervisor.rs]), all in juggler

    Every method of the supervisor runs under its lock, so it is one step; the radio is the class
    [LinkRadio], whose calls may fail. *)
From S2P Require Import Prelude MqttTopics.
Open Scope Z_scope.

Definition RECONNECT_BACKOFF_BASE_MS : Z := 1000.
Definition RECONNECT_BACKOFF_MAX_MS : Z := 30000.

(** ** [LinkMachine] *)

Inductive LinkInput :=
| I_Start | I_Connected | I_Disconnected | I_BackoffElapsed | I_Suspend | I_Resume
| I_NetworkUp | I_NetworkDown.

Inductive LinkAction := A_None | A_Connect | A_Disconnect | A_Wait (ms : Z).

Inductive LinkState := S_Idle | S_Connecting | S_Connected | S_Backoff | S_Suspended.

#[export] Instance LinkInput_eq_dec : EqDecision LinkInput.
Proof. solve_decision. Defined.
#[export] Instance LinkAction_eq_dec : EqDecision LinkAction.
Proof. solve_decision. Defined.
#[export] Instance LinkState_eq_dec : EqDecision LinkState.
Proof. solve_decision. Defined.

Record LinkMachine := mkLink {
  link_state : LinkState; backoff : ExponentialBackoff; link_max_ms : Z;
  failed_attempts : Z; network_up : bool; connects : Z }.

Definition LinkMachine_with_backoff (base max : Z) : LinkMachine :=
  mkLink S_Idle (ExponentialBackoff_new base max) max 0 false 0.

Definition LinkMachine_new : LinkMachine :=
  LinkMachine_with_backoff RECONNECT_BACKOFF_BASE_MS RECONNECT_BACKOFF_MAX_MS.

Definition is_ready (m : LinkMachine) : bool :=
  bool_decide (link_state m = S_Connected) && network_up m.

Definition restart (m : LinkMachine) : LinkMachine :=
  mkLink S_Idle (backoff_reset (backoff m)) (link_max_ms m) 0 false (connects m).

Definition with_state (s : LinkState) (m : LinkMachine) : LinkMachine :=
  mkLink s (backoff m) (link_max_ms m) (failed_attempts m) (network_up m) (connects m).

Definition with_network (up : bool) (m : LinkMachine) : LinkMachine :=
  mkLink (link_state m) (backoff m) (link_max_ms m) (failed_attempts m) up (connects m).

(** A state entered with a fresh back-off. *)
Definition fresh (s : LinkState) (n : Z) (m : LinkMachine) : LinkMachine :=
  mkLink s (backoff_reset (backoff m)) (link_max_ms m) 0 (network_up m) n.

(** The [match] of [LinkMachine::poll]. *)
Definition react (input : LinkInput) (m : LinkMachine) : LinkAction * LinkMachine :=
  match link_state m, input with
  | S_Connected, I_NetworkUp => (A_None, with_network true m)
  | _, (I_NetworkUp | I_NetworkDown) => (A_None, with_network false m)
  | S_Suspended, (I_Suspend | I_Disconnected | I_BackoffElapsed | I_Start) => (A_None, m)
  | S_Suspended, I_Connected => (A_Disconnect, m)
  | S_Suspended, I_Resume => (A_Connect, fresh S_Connecting (connects m) m)
  | _, I_Suspend => (A_Disconnect, with_state S_Suspended m)
  | S_Idle, I_Start | S_Backoff, I_BackoffElapsed => (A_Connect, with_state S_Connecting m)
  | (S_Idle | S_Connecting | S_Backoff), I_Connected =>
      (A_None, fresh S_Connected (u32_wrapping_add (connects m) 1) m)
  | (S_Connecting | S_Connected), I_Disconnected =>
      let '(ms, b) := backoff_next (backoff m) in
      (A_Wait ms, mkLink S_Backoff b (link_max_ms m) (Z.min (failed_attempts m + 1) u32_max)
                    (network_up m) (connects m))
  | _, _ => (A_None, m)
  end.

Definition poll (input : LinkInput) (m : LinkMachine) : LinkAction * LinkMachine :=
  let '(action, m) := react input m in
  (action, if decide (link_state m = S_Connected) then m else with_network false m).

(** ** [LinkHandover] *)

Record LinkHandover := mkHandover {
  ho_machine : LinkMachine; pending : option LinkAction; suspends : Z; parked : Z }.

Definition LinkHandover_new : LinkHandover := mkHandover LinkMachine_new None 0 0.

Definition ho_suspend (h : LinkHandover) : bool * LinkHandover :=
  let '(action, m) := poll I_Suspend (ho_machine h) in
  if decide (action = A_None) then (false, mkHandover m (pending h) (suspends h) (parked h))
  else (true, mkHandover m (Some action) (u32_wrapping_add (suspends h) 1) (parked h)).

Definition ho_resume (h : LinkHandover) : bool * LinkHandover :=
  let '(action, m) := poll I_Resume (ho_machine h) in
  if decide (action = A_None) then (false, mkHandover m (pending h) (suspends h) (parked h))
  else (true, mkHandover m (Some action) (suspends h) (parked h)).

Definition ho_take (h : LinkHandover) : LinkAction * LinkHandover :=
  (match pending h, link_state (ho_machine h) with
   | Some A_Disconnect, S_Suspended => A_Disconnect
   | Some A_Connect, S_Connecting => A_Connect
   | _, _ => A_None
   end, mkHandover (ho_machine h) None (suspends h) (parked h)).

Definition ho_poll (input : LinkInput) (h : LinkHandover) : LinkAction * LinkHandover :=
  let '(action, m) := poll input (ho_machine h) in
  (action, mkHandover m (pending h) (suspends h) (parked h)).

Definition ho_restart (h : LinkHandover) : bool * LinkHandover :=
  let suspended := bool_decide (link_state (ho_machine h) = S_Suspended) in
  let m := restart (ho_machine h) in
  (suspended,
   mkHandover (if suspended then snd (poll I_Suspend m) else m) None (suspends h) (parked h)).

Definition begin_park (h : LinkHandover) : Z := suspends h.

Definition end_park (epoch : Z) (h : LinkHandover) : LinkHandover :=
  mkHandover (ho_machine h) (pending h) (suspends h) epoch.

Definition ho_is_suspended (h : LinkHandover) : bool :=
  bool_decide (link_state (ho_machine h) = S_Suspended) && (parked h =? suspends h).

(** ** the thread-based station supervisor ([wifi/supervisor.rs])

    The core behind the mutex is a record; every method that locks it is one function on it.
    The radio is a third-party driver: a class of four calls.  Callers, the worker thread, the
    driver and the tier that delivers the driver's events are interleaved by [sys_step]. *)

(** The station calls; the error is the driver's. *)
Class LinkRadio (R : Type) := {
  radio_start : R → result string unit * R;
  radio_connect : R → result string unit * R;
  radio_disconnect : R → result string unit * R;
  radio_stop : R → result string unit * R }.

Inductive LinkEvent := E_Connected | E_Disconnected | E_Stopped | E_NetworkUp | E_NetworkDown.

#[export] Instance LinkEvent_eq_dec : EqDecision LinkEvent.
Proof. solve_decision. Defined.

Inductive Msg := MsgEvent (event : LinkEvent) | MsgInput (input : LinkInput) | MsgWake | MsgShutdown.

#[export] Instance Msg_eq_dec : EqDecision Msg.
Proof. solve_decision. Defined.

Definition u64_wrapping_add (a b : Z) : Z := (a + b) `mod` (u64_max + 1).

Section supervisor.
  Context {R : Type} `{LinkRadio R}.

(** A waker is its identity; a sink is what it has been told, after the readiness its
    registration returned. *)
Record Core := mkCore {
  machine : LinkMachine; radio : R; radio_started : bool; stops : Z; fenced : Z;
  backoff_at : option Z; ready_waiters : list (Z * Z); next_waiter : Z;
  ready_sinks : list (list bool); ready_reported : bool }.

Definition with_machine m c :=
  mkCore m (radio c) (radio_started c) (stops c) (fenced c) (backoff_at c) (ready_waiters c)
    (next_waiter c) (ready_sinks c) (ready_reported c).
Definition with_radio r c :=
  mkCore (machine c) r (radio_started c) (stops c) (fenced c) (backoff_at c) (ready_waiters c)
    (next_waiter c) (ready_sinks c) (ready_reported c).
Definition with_started b c :=
  mkCore (machine c) (radio c) b (stops c) (fenced c) (backoff_at c) (ready_waiters c)
    (next_waiter c) (ready_sinks c) (ready_reported c).
Definition with_stops n c :=
  mkCore (machine c) (radio c) (radio_started c) n (fenced c) (backoff_at c) (ready_waiters c)
    (next_waiter c) (ready_sinks c) (ready_reported c).
Definition with_fenced n c :=
  mkCore (machine c) (radio c) (radio_started c) (stops c) n (backoff_at c) (ready_waiters c)
    (next_waiter c) (ready_sinks c) (ready_reported c).
Definition with_backoff_at a c :=
  mkCore (machine c) (radio c) (radio_started c) (stops c) (fenced c) a (ready_waiters c)
    (next_waiter c) (ready_sinks c) (ready_reported c).
Definition with_waiters w c :=
  mkCore (machine c) (radio c) (radio_started c) (stops c) (fenced c) (backoff_at c) w
    (next_waiter c) (ready_sinks c) (ready_reported c).
Definition with_sinks l b c :=
  mkCore (machine c) (radio c) (radio_started c) (stops c) (fenced c) (backoff_at c)
    (ready_waiters c) (next_waiter c) l b.

(** [LinkSupervisor::spawn]: the radio is already started. *)
Definition spawn (r : R) (m : LinkMachine) : Core :=
  mkCore m r true 0 0 None [] 0 [] false.

Definition fence_up (c : Core) : bool := negb (fenced c =? stops c).

Definition core_poll (input : LinkInput) (c : Core) : LinkAction * Core :=
  let '(action, m) := poll input (machine c) in (action, with_machine m c).

(** [Core::connect]. *)
Definition connect (c : Core) : result string unit * Core :=
  let '(started, c) :=
    if radio_started c then (Ok tt, c)
    else let '(r, radio) := radio_start (radio c) in
         (r, with_started (match r with Ok _ => true | Err _ => false end) (with_radio radio c)) in
  match started with
  | Err e => (Err e, c)
  | Ok _ => let '(r, radio) := radio_connect (radio c) in (r, with_radio radio c)
  end.

(** [Core::radio_down]; a failed disconnect is only logged. *)
Definition radio_down (c : Core) : result string unit * Core :=
  if negb (radio_started c) then (Ok tt, c)
  else
    let c := with_radio (snd (radio_disconnect (radio c))) c in
    let '(r, radio) := radio_stop (radio c) in
    let c := with_radio radio c in
    match r with
    | Err e => (Err e, c)
    | Ok _ => (Ok tt, with_stops (u32_wrapping_add (stops c) 1) (with_started false c))
    end.

Definition report_ready (c : Core) : Core :=
  let ready := is_ready (machine c) in
  if Bool.eqb ready (ready_reported c) then c
  else with_sinks ((λ told, told ++ [ready]) <$> ready_sinks c) ready c.

(** The loop of [step]; two turns are enough ([WifiSupervisorProps.step_loop_enough]). *)
Fixpoint step_loop (fuel : nat) (now : Z) (action : LinkAction) (c : Core) : Core :=
  match fuel with
  | O => c
  | S fuel =>
      match action with
      | A_None => c
      | A_Connect =>
          match connect c with
          | (Ok _, c) => c
          | (Err _, c) => let '(action, c) := core_poll I_Disconnected c in step_loop fuel now action c
          end
      | A_Disconnect => snd (radio_down c)
      | A_Wait ms => with_backoff_at (Some (now + ms)) c
      end
  end.

Definition step (now : Z) (input : LinkInput) (c : Core) : Core :=
  let '(action, c) := core_poll input c in
  let c := step_loop 2 now action c in
  if decide (link_state (machine c) = S_Backoff) then c else with_backoff_at None c.

(** ** The callers' methods *)

Definition state (c : Core) : LinkState := link_state (machine c).

Definition is_suspended (c : Core) : bool :=
  bool_decide (state c = S_Suspended) && negb (radio_started c).

(** [subscribe_ready]: the seed, and the sink's registration. *)
Definition subscribe_ready (c : Core) : bool * Core :=
  let seed := is_ready (machine c) in
  (seed, with_sinks (ready_sinks c ++ [[seed]]) (ready_reported c) c).

Definition suspend (c : Core) : result string unit * Core :=
  let '(action, c) := core_poll I_Suspend c in
  let c := with_backoff_at None c in
  if bool_decide (action = A_None) && negb (radio_started c) then (Ok tt, c)
  else radio_down (report_ready c).

(** [resume]: the result, whether the worker is woken, and the core. *)
Definition resume (now : Z) (c : Core) : result string unit * bool * Core :=
  let '(action, c) := core_poll I_Resume c in
  if decide (action = A_Connect) then
    let c := with_backoff_at None c in
    match connect c with
    | (Ok _, c) => (Ok tt, false, report_ready c)
    | (Err e, c) => (Err e, true, report_ready (step now I_Disconnected c))
    end
  else (Ok tt, false, c).

(** ** [ReadyWait] *)

(** The registration of [id] gets the waker, or is added. *)
Definition register (id waker : Z) (l : list (Z * Z)) : list (Z * Z) :=
  match list_find (λ w, w.1 = id) l with
  | Some (i, _) => <[i := (id, waker)]> l
  | None => l ++ [(id, waker)]
  end.

(** [Future::poll]: ready, the future's id and the core afterwards. *)
Definition wait_poll (fut : option Z) (waker : Z) (c : Core) : bool * option Z * Core :=
  if is_ready (machine c) then
    (true, None,
     match fut with
     | Some id => with_waiters (filter (λ w, w.1 ≠ id) (ready_waiters c)) c
     | None => c
     end)
  else
    let '(id, c) :=
      match fut with
      | Some id => (id, c)
      | None =>
          (next_waiter c,
           mkCore (machine c) (radio c) (radio_started c) (stops c) (fenced c) (backoff_at c)
             (ready_waiters c) (u64_wrapping_add (next_waiter c) 1) (ready_sinks c) (ready_reported c))
      end in
    (false, Some id, with_waiters (register id waker (ready_waiters c)) c).

Definition wait_drop (fut : option Z) (c : Core) : Core :=
  match fut with
  | Some id => with_waiters (filter (λ w, w.1 ≠ id) (ready_waiters c)) c
  | None => c
  end.

(** ** The worker *)

(** The input that a received message amounts to; [None] is a timeout. *)
Inductive Turn := T_Input (input : LinkInput) (c : Core) | T_Continue (c : Core) | T_Break.

Definition worker_input (now : Z) (msg : option Msg) (c : Core) : Turn :=
  match msg with
  | None | Some MsgWake =>
      match backoff_at c with
      | Some at_ => if at_ <=? now then T_Input I_BackoffElapsed (with_backoff_at None c) else T_Continue c
      | None => T_Continue c
      end
  | Some MsgShutdown => T_Break
  | Some (MsgEvent E_Stopped) =>
      T_Continue (if fence_up c then with_fenced (u32_wrapping_add (fenced c) 1) c else c)
  | Some (MsgEvent event) =>
      if fence_up c then T_Continue c
      else T_Input (match event with
                    | E_Connected => I_Connected
                    | E_Disconnected => I_Disconnected
                    | E_NetworkUp => I_NetworkUp
                    | _ => I_NetworkDown
                    end) c
  | Some (MsgInput input) => T_Input input c
  end.

(** What follows the input: the wakers it wakes, and the core. *)
Definition worker_act (now : Z) (input : LinkInput) (c : Core) : list Z * Core :=
  let c := step now input c in
  let '(woken, c) :=
    if is_ready (machine c) then (snd <$> ready_waiters c, with_waiters [] c) else ([], c) in
  (woken, report_ready c).

(** ** The system *)

(** Where the worker is: before it reads the deadline, in the receive, or gone. *)
Inductive WorkerPc := W_Top | W_Recv (deadline : option Z) | W_Exited.

(** A [wait_ready] future: its registration, the waker of its last poll, and whether that
    waker was woken since; [None] once it completed or was dropped. *)
Record Fut := mkFut { fut_id : option Z; fut_waker : Z; fut_polled : bool; fut_woken : bool }.

Record System := mkSys {
  core : Core; sys_queue : list Msg; worker : WorkerPc; futures : list (option Fut) }.

Definition wake (woken : list Z) (f : Fut) : Fut :=
  mkFut (fut_id f) (fut_waker f) (fut_polled f)
    (fut_woken f || bool_decide (fut_waker f ∈ woken)).

Definition wake_all (woken : list Z) (l : list (option Fut)) : list (option Fut) :=
  fmap (M:=list) (fmap (M:=option) (wake woken)) l.

(** The worker's receive: [msg] is what it got, [None] the timeout. *)
Definition worker_turn (now : Z) (msg : option Msg) (queue : list Msg) (s : System) : System :=
  match worker_input now msg (core s) with
  | T_Break => mkSys (core s) queue W_Exited (futures s)
  | T_Continue c => mkSys c queue W_Top (futures s)
  | T_Input input c =>
      let '(woken, c) := worker_act now input c in
      mkSys c queue W_Top (wake_all woken (futures s))
  end.

(** A poll of the future [i]. *)
Definition poll_future (f : Fut) (waker : Z) (c : Core) : option Fut * Core :=
  let '(done, id, c) := wait_poll (fut_id f) waker c in
  (if done then None else Some (mkFut id waker true false), c).

End supervisor.

Arguments Core : clear implicits.
Arguments Turn : clear implicits.
Arguments System : clear implicits.

(** ** What the driver promises *)

(** The driver as seen from outside: whether the radio runs, whether an association or an
    attempt is live, the events it has posted and the tier has not delivered yet, whether it
    was asked to connect while stopped or while an attempt was live, and whether a stop
    failed. *)
Record Radio := mkRadio {
  up : bool; live : bool; posted : list LinkEvent; misused : bool; stop_failed : bool }.

(** The driver's own moves: an association comes about or ends, the network comes or goes. *)
Inductive spontaneous : Radio → Radio → Prop :=
| sp_connected l b f :
    spontaneous (mkRadio true true l b f) (mkRadio true true (l ++ [E_Connected]) b f)
| sp_disconnected l b f :
    spontaneous (mkRadio true true l b f) (mkRadio true false (l ++ [E_Disconnected]) b f)
| sp_network u v l b f (e : LinkEvent) :
    e = E_NetworkUp ∨ e = E_NetworkDown →
    spontaneous (mkRadio u v l b f) (mkRadio u v (l ++ [e]) b f).

(** The tier takes the oldest event. *)
Inductive delivers : Radio → LinkEvent → Radio → Prop :=
| dl u v e l b f : delivers (mkRadio u v (e :: l) b f) e (mkRadio u v l b f).

(** Events are posted in order and a successful stop posts [E_Stopped] last; a failed call
    changes nothing but [disconnect] may.  Nothing is promised of a [connect] while the
    radio is stopped or an attempt is live. *)
Class LinkRadioLaws (R : Type) `{LinkRadio R} := {
  radio_view : R → Radio;
  start_law r :
    radio_view (snd (radio_start r)) =
    match fst (radio_start r) with
    | Ok _ => (let '(mkRadio _ v l b f) := radio_view r in mkRadio true v l b f)
    | Err _ => radio_view r
    end;
  connect_law r :
    up (radio_view r) = true → live (radio_view r) = false →
    radio_view (snd (radio_connect r)) =
    match fst (radio_connect r) with
    | Ok _ => (let '(mkRadio u _ l b f) := radio_view r in mkRadio u true l b f)
    | Err _ => radio_view r
    end;
  connect_stop_failed r :
    stop_failed (radio_view (snd (radio_connect r))) = stop_failed (radio_view r);
  disconnect_law r :
    radio_view (snd (radio_disconnect r)) = radio_view r ∨
    radio_view (snd (radio_disconnect r)) =
      (let '(mkRadio u _ l b f) := radio_view r in mkRadio u false (l ++ [E_Disconnected]) b f);
  stop_law r :
    match fst (radio_stop r) with
    | Ok _ =>
        (∃ k, (E_Stopped ∉ k) ∧
         radio_view (snd (radio_stop r)) =
         (let '(mkRadio _ _ l b f) := radio_view r in mkRadio false false (l ++ k ++ [E_Stopped]) b f))
    | Err _ =>
        radio_view (snd (radio_stop r)) =
        (let '(mkRadio u v l b _) := radio_view r in mkRadio u v l b true)
    end }.

Section system.
  Context {R : Type} `{LinkRadioLaws R}.

(** One step of the tier: a caller, the worker, the driver, or the delivery of an event. *)
Inductive sys_step : System R → System R → Prop :=
| st_start s :
    sys_step s (mkSys (core s) (sys_queue s ++ [MsgInput I_Start]) (worker s) (futures s))
| st_suspend s :
    sys_step s (mkSys (snd (suspend (core s))) (sys_queue s) (worker s) (futures s))
| st_resume s now r woken c :
    resume now (core s) = (r, woken, c) →
    sys_step s (mkSys c (sys_queue s ++ (if woken : bool then [MsgWake] else [])) (worker s) (futures s))
| st_subscribe s :
    sys_step s (mkSys (snd (subscribe_ready (core s))) (sys_queue s) (worker s) (futures s))
| st_wait s waker :
    sys_step s (mkSys (core s) (sys_queue s) (worker s) (futures s ++ [Some (mkFut None waker false false)]))
| st_poll s i f waker :
    futures s !! i = Some (Some f) → next_waiter (core s) < u64_max →
    sys_step s (mkSys (snd (poll_future f waker (core s))) (sys_queue s) (worker s)
                  (<[i := fst (poll_future f waker (core s))]> (futures s)))
| st_drop s i f :
    futures s !! i = Some (Some f) →
    sys_step s (mkSys (wait_drop (fut_id f) (core s)) (sys_queue s) (worker s) (<[i := None]> (futures s)))
| st_shutdown s :
    sys_step s (mkSys (core s) (sys_queue s ++ [MsgShutdown]) (worker s) (futures s))
| st_driver s r :
    spontaneous (radio_view (radio (core s))) (radio_view r) →
    sys_step s (mkSys (with_radio r (core s)) (sys_queue s) (worker s) (futures s))
| st_deliver s e r :
    delivers (radio_view (radio (core s))) e (radio_view r) →
    sys_step s (mkSys (with_radio r (core s)) (sys_queue s ++ [MsgEvent e]) (worker s) (futures s))
| st_top s :
    worker s = W_Top →
    sys_step s (mkSys (core s) (sys_queue s) (W_Recv (backoff_at (core s))) (futures s))
| st_recv s deadline now m queue :
    worker s = W_Recv deadline → sys_queue s = m :: queue →
    sys_step s (worker_turn now (Some m) queue s)
| st_timeout s at_ now :
    worker s = W_Recv (Some at_) → sys_queue s = [] → at_ <= now →
    sys_step s (worker_turn now None [] s).

(** The start: a started radio without an attempt, and any machine at rest. *)
Definition initial (s : System R) : Prop :=
  ∃ r m, s = mkSys (spawn r m) [] W_Top [] ∧ radio_view r = mkRadio true false [] false false ∧
         link_state m = S_Idle ∧ network_up m = false.

(** Fewer than 2^32 messages wait: there is no memory for more. *)
Definition in_memory (s : System R) : Prop :=
  Z.of_nat (length (sys_queue s)) + Z.of_nat (length (posted (radio_view (radio (core s))))) ≤ u32_max.

Inductive sys_reachable : System R → Prop :=
| sr_init s : initial s → sys_reachable s
| sr_step s s' : sys_reachable s → sys_step s s' → in_memory s' → sys_reachable s'.

End system.
