(* ===== verification/WifiSupervisorProps.v ===== *)
(** * WifiSupervisorProps: the supervisor never connects twice, forgets no retry and loses no
    readiness *)
From S2P Require Import Prelude MqttTopics WifiLink.
Open Scope Z_scope.

(** ** Events that are still on their way *)

Definition events (q : list Msg) : list LinkEvent :=
  omap (λ m, match m with MsgEvent e => Some e | _ => None end) q.

Lemma events_app q q' : events (q ++ q') = events q ++ events q'.
Proof. apply omap_app. Qed.

Lemma events_length q : (length (events q) ≤ length q)%nat.
Proof. unfold events. induction q as [|[] q IH]; cbn in *; lia. Qed.

Definition stops_in (l : list LinkEvent) : Z := Z.of_nat (length (filter (λ e, e = E_Stopped) l)).

(** What follows the last stop. *)
Definition after_stop (l : list LinkEvent) : list LinkEvent :=
  foldl (λ acc e, if decide (e = E_Stopped) then [] else acc ++ [e]) [] l.

Definition is_link (e : LinkEvent) : bool :=
  match e with E_Connected | E_Disconnected => true | _ => false end.

(** The link events that follow the last stop. *)
Definition links (l : list LinkEvent) : list LinkEvent := filter (λ e, is_link e = true) (after_stop l).

Lemma stops_in_app l l' : stops_in (l ++ l') = stops_in l + stops_in l'.
Proof. unfold stops_in. rewrite filter_app, length_app. lia. Qed.

Lemma stops_in_pos l : 0 ≤ stops_in l ≤ Z.of_nat (length l).
Proof.
  unfold stops_in. split; [lia|]. apply inj_le. apply length_filter.
Qed.

Lemma stops_in_cons e l : stops_in (e :: l) = (if decide (e = E_Stopped) then 1 else 0) + stops_in l.
Proof. unfold stops_in. rewrite filter_cons. case_decide; cbn [length]; lia. Qed.

Lemma stops_in_none l : stops_in l = 0 ↔ E_Stopped ∉ l.
Proof.
  induction l as [|e l IH]; [set_solver|]. rewrite stops_in_cons, not_elem_of_cons.
  pose proof (stops_in_pos l). case_decide; [split; [lia|naive_solver]|]. rewrite Z.add_0_l, IH. naive_solver.
Qed.

Lemma after_stop_snoc l e :
  after_stop (l ++ [e]) = if decide (e = E_Stopped) then [] else after_stop l ++ [e].
Proof. unfold after_stop. by rewrite foldl_app. Qed.

Lemma after_stop_app l k : E_Stopped ∉ k → after_stop (l ++ k) = after_stop l ++ k.
Proof.
  induction k as [|e k IH] using rev_ind; [by rewrite !app_nil_r|].
  intros [Hk He%not_elem_of_cons]%not_elem_of_app. rewrite app_assoc, after_stop_snoc.
  rewrite decide_False by naive_solver. by rewrite IH, app_assoc.
Qed.

Lemma after_stop_cons e l :
  after_stop (e :: l) = if decide (E_Stopped ∈ l) then after_stop l else if decide (e = E_Stopped) then l else e :: l.
Proof.
  induction l as [|x l IH] using rev_ind; [by unfold after_stop; cbn|].
  change (e :: l ++ [x]) with ((e :: l) ++ [x]). rewrite !after_stop_snoc, IH.
  destruct (decide (x = E_Stopped)) as [->|Hx]; [by rewrite decide_True by set_solver|].
  destruct (decide (E_Stopped ∈ l)) as [Hl|Hl].
  - rewrite decide_True; [done|]. apply elem_of_app. by left.
  - rewrite (decide_False (P := E_Stopped ∈ l ++ [x])) by (rewrite elem_of_app, list_elem_of_singleton; naive_solver).
    by destruct (decide (e = E_Stopped)).
Qed.

Lemma after_stop_none l : E_Stopped ∉ l → after_stop l = l.
Proof. exact (after_stop_app [] l). Qed.

Lemma links_stopped l : links (l ++ [E_Stopped]) = [].
Proof. unfold links. by rewrite after_stop_snoc. Qed.

Lemma links_snoc l e :
  e ≠ E_Stopped → links (l ++ [e]) = links l ++ (if is_link e then [e] else []).
Proof.
  intros He. unfold links. rewrite after_stop_snoc, decide_False by done. rewrite filter_app. f_equal.
  rewrite filter_cons. by destruct (is_link e).
Qed.

(** The worker takes an event: behind the fence nothing of it is left. *)
Lemma links_fenced e l : stops_in l ≠ 0 ∨ e = E_Stopped → links (e :: l) = links l.
Proof.
  intros He. unfold links. rewrite after_stop_cons. destruct (decide (E_Stopped ∈ l)) as [|Hn]; [done|].
  rewrite stops_in_none in He. rewrite decide_True by tauto. by rewrite after_stop_none.
Qed.

Lemma links_open e l :
  stops_in (e :: l) = 0 → links (e :: l) = (if is_link e then [e] else []) ++ links l.
Proof.
  intros [He Hl]%stops_in_none%not_elem_of_cons. unfold links.
  rewrite (after_stop_none l) by done.
  rewrite after_stop_none by (apply not_elem_of_cons; done). rewrite filter_cons. by destruct (is_link e).
Qed.

Section props.
  Context {R : Type} `{LinkRadioLaws R}.
  Implicit Types c : Core R.

(** ** The state and the driver *)

Definition view (c : Core R) : Radio := radio_view (radio c).
Definition stream (q : list Msg) (c : Core R) : list LinkEvent := events q ++ posted (view c).

(** The fence counts the stops on their way; the radio is up as the core believes; no
    connect was a mistake. *)
Definition base (q : list Msg) (c : Core R) : Prop :=
  stops c = u32_wrapping_add (fenced c) (stops_in (stream q c)) ∧ 0 ≤ fenced c ≤ u32_max ∧
  radio_started c = up (view c) ∧ misused (view c) = false.

(** The radio has an attempt or an association, or the event of its end is on its way. *)
Definition associating (v : Radio) (fl : list LinkEvent) : Prop :=
  up v = true ∧
  ((live v = true ∧ E_Disconnected ∉ fl) ∨
   (live v = false ∧ ∃ l, fl = l ++ [E_Disconnected] ∧ E_Disconnected ∉ l)).

(** What the machine's state says about the driver and the link events still to come. *)
Definition phase_ok (st : LinkState) (v : Radio) (fl : list LinkEvent) : Prop :=
  match st with
  | S_Idle | S_Backoff => live v = false ∧ fl = []
  | S_Suspended => up v = false ∧ live v = false ∧ fl = []
  | S_Connecting | S_Connected => associating v fl
  end.

(** What an input is fed on: the event that carries it is the next of the link events. *)
Definition pre_phase (input : LinkInput) (st : LinkState) (v : Radio) (fl : list LinkEvent) : Prop :=
  match input with
  | I_Connected => phase_ok st v (E_Connected :: fl)
  | I_Disconnected =>
      phase_ok st v (E_Disconnected :: fl) ∨ (st = S_Connecting ∧ live v = false ∧ fl = [])
  | I_Suspend | I_Resume => False
  | _ => phase_ok st v fl
  end.

Definition quiet (q : list Msg) (c : Core R) : Prop :=
  live (view c) = false ∧ links (stream q c) = [].

Lemma dead_cons e fl l :
  e :: fl = l ++ [E_Disconnected] → E_Disconnected ∉ l →
  (e = E_Disconnected ∧ fl = []) ∨
  (e ≠ E_Disconnected ∧ ∃ l', fl = l' ++ [E_Disconnected] ∧ E_Disconnected ∉ l').
Proof.
  destruct l as [|x l]; intros E Hl; injection E as -> ->; [by left|].
  apply not_elem_of_cons in Hl as [? ?]. right. split; [done|]. by exists l.
Qed.

Lemma associating_connected v fl : associating v (E_Connected :: fl) → associating v fl.
Proof.
  intros [Hu [[Hl Hn]|(Hl & l & E & Hn)]]; split; [done| |done|].
  - left. by apply not_elem_of_cons in Hn as [_ ?].
  - right. destruct (dead_cons _ _ _ E Hn) as [[[=] _]|[_ ?]]. done.
Qed.

Lemma associating_disconnected v fl :
  associating v (E_Disconnected :: fl) → live v = false ∧ fl = [].
Proof.
  intros [_ [[_ Hn]|(Hl & l & E & Hn)]]; [by apply not_elem_of_cons in Hn as [? _]|].
  destruct (dead_cons _ _ _ E Hn) as [[_ ?]|[? _]]; done.
Qed.

Lemma link_state_network b m : link_state (with_network b m) = link_state m.
Proof. done. Qed.

Lemma poll_phase input m v fl :
  pre_phase input (link_state m) v fl →
  match poll input m with
  | ((A_None | A_Wait _), m') => phase_ok (link_state m') v fl
  | (A_Connect, m') => live v = false ∧ fl = [] ∧ link_state m' = S_Connecting
  | (A_Disconnect, _) => False
  end.
Proof.
  destruct m as [st b mx fa nu n]. unfold poll, react. destruct (backoff_next b) as [ms b'].
  destruct st, input; cbn [link_state pre_phase phase_ok]; try done; try (by intros [_ [=]]);
    try (by intros [[_ [=]]|([=] & _)]); try (by intros (? & ? & [=]));
    rewrite ?link_state_network; cbn [link_state with_state with_network fresh decide_rel].
  - intros [? ?]. by case_decide.
  - intros H'. by apply associating_connected in H'.
  - intros [H'|(_ & ? & ?)]; [by apply associating_disconnected in H'|done].
  - intros H'. by apply associating_connected in H'.
  - intros [H'|([=] & _)]. by apply associating_disconnected in H'.
  - intros [? ?]. by case_decide.
  - by intros [(_ & _ & [=])|([=] & _)].
Qed.

(** ** The core's radio calls *)

Lemma connect_ok q c :
  base q c → quiet q c →
  let '(r, c') := connect c in
  machine c' = machine c ∧ stream q c' = stream q c ∧ stop_failed (view c') = stop_failed (view c) ∧
  base q c' ∧
  match r with Ok _ => up (view c') = true ∧ live (view c') = true | Err _ => live (view c') = false end.
Proof.
  intros (Hf & [Hr1 Hr2] & Hs & Hm) [Hl _].
  assert (∀ r0, up (radio_view r0) = true → live (radio_view r0) = false → posted (radio_view r0) = posted (view c) →
    misused (radio_view r0) = false → stop_failed (radio_view r0) = stop_failed (view c) →
    let '(r, c') := (let '(r, r1) := radio_connect r0 in (r, with_radio r1 (with_started true c))) in
    machine c' = machine c ∧ stream q c' = stream q c ∧ stop_failed (view c') = stop_failed (view c) ∧
    base q c' ∧
    match r with Ok _ => up (view c') = true ∧ live (view c') = true | Err _ => live (view c') = false end) as Hgo.
  { intros r0 H1 H2 H3 H4 H5. pose proof (connect_law r0 H1 H2) as Hc. destruct (radio_connect r0) as [r r1].
    cbn [fst snd] in Hc. unfold base, stream, view in *. cbn [radio with_radio with_started machine radio_started stops fenced].
    destruct (radio_view r0) as [u v l b f]. cbn [up live posted misused stop_failed] in *. subst u v b f l.
    destruct r; rewrite Hc; by split_and!. }
  unfold connect. rewrite Hs. destruct (up (view c)) eqn:Eu.
  - assert (with_started true c = c) as Ec by (destruct c; unfold with_started; cbn in *; congruence).
    specialize (Hgo (radio c)). rewrite Ec in Hgo. by apply Hgo.
  - pose proof (start_law (radio c)) as Hst. destruct (radio_start (radio c)) as [r r1]. cbn [fst snd] in Hst.
    unfold view in *. destruct (radio_view (radio c)) as [u v l b f] eqn:Ev. cbn in *. subst u v b.
    destruct r as [[]|e].
    + specialize (Hgo r1). rewrite Hst in Hgo. by apply Hgo.
    + unfold base, stream, view. cbn. rewrite Hst. unfold stream, view in Hf. rewrite Ev in *. by split_and!.
Qed.

Lemma u32_wrapping_add_assoc a b n : u32_wrapping_add (u32_wrapping_add a b) n = u32_wrapping_add a (b + n).
Proof. unfold u32_wrapping_add, u32_wrap. rewrite Z.add_mod_idemp_l by done. f_equal. lia. Qed.

Lemma radio_down_ok q c :
  base q c → (up (view c) = false → quiet q c) →
  let '(_, c') := radio_down c in
  machine c' = machine c ∧
  (stop_failed (view c') = true ∨
   (base q c' ∧ up (view c') = false ∧ live (view c') = false ∧ links (stream q c') = [])).
Proof.
  intros Hb Hq. pose proof Hb as (Hf & [Hr1 Hr2] & Hs & Hm). unfold radio_down. rewrite Hs.
  destruct (up (view c)) eqn:Eu; cbn [negb]; [|split; [done|]; right; destruct (Hq eq_refl); split; [done|by split_and!]].
  pose proof (disconnect_law (radio c)) as Hd. destruct (radio_disconnect (radio c)) as [r1 r2]. cbn [snd] in *.
  assert (∃ d, (E_Stopped ∉ d) ∧ posted (radio_view r2) = posted (view c) ++ d ∧ misused (radio_view r2) = false) as (d & Hdn & Hp & Hm').
  { unfold view in *. destruct (radio_view (radio c)) as [u v l b f]. cbn in *.
    destruct Hd as [-> | ->]; cbn.
    - exists []. split; [apply not_elem_of_nil|]. by rewrite app_nil_r.
    - exists [E_Disconnected]. split; [|done]. by rewrite list_elem_of_singleton. }
  pose proof (stop_law r2) as Hst. cbn [radio with_radio]. destruct (radio_stop r2) as [r r3]. cbn [fst snd] in Hst.
  destruct (radio_view r2) as [u v l b f]. cbn in Hp, Hm'. subst l b.
  destruct r as [[]|e]; cbn.
  - destruct Hst as (k & Hk & Hv). split; [done|]. right. unfold base, stream, view in *. cbn. rewrite Hv. cbn.
    rewrite !app_assoc, links_stopped. split; [|done]. split; [|by split].
    rewrite Hf, u32_wrapping_add_assoc. f_equal. rewrite !stops_in_app.
    rewrite (proj2 (stops_in_none d)), (proj2 (stops_in_none k)) by done.
    change (stops_in [E_Stopped]) with 1. lia.
  - split; [done|]. left. unfold view. cbn. by rewrite Hst.
Qed.

(** ** One step of the machine *)

Definition inv_a (q : list Msg) (c : Core R) : Prop :=
  stop_failed (view c) = true ∨
  (base q c ∧ phase_ok (link_state (machine c)) (view c) (links (stream q c))).

Lemma base_machine q c m : base q c → base q (with_machine m c).
Proof. done. Qed.

Lemma poll_connecting_lost m :
  link_state m = S_Connecting →
  ∃ ms m', poll I_Disconnected m = (A_Wait ms, m') ∧ link_state m' = S_Backoff.
Proof.
  intros E. unfold poll, react. rewrite E. destruct (backoff_next _) as [ms b]. by exists ms; eexists.
Qed.

Lemma step_ok q now input c :
  base q c → pre_phase input (link_state (machine c)) (view c) (links (stream q c)) →
  inv_a q (step now input c).
Proof.
  intros Hb Hp. unfold step, core_poll. pose proof (poll_phase _ _ _ _ Hp) as Hph.
  destruct (poll input (machine c)) as [a m] eqn:Ep.
  assert (∀ c', inv_a q c' →
    inv_a q (if decide (link_state (machine c') = S_Backoff) then c' else with_backoff_at None c')) as Hend
    by (intros c' Hc'; by case_decide).
  apply Hend. destruct a; cbn [step_loop]; try (by right).
  destruct Hph as (Hl & Hfl & Hm).
  pose proof (connect_ok q (with_machine m c) Hb (conj Hl Hfl)) as Hc. destruct (connect _) as [[[]|e] c2].
  - destruct Hc as (Em & Es & _ & Hb' & Hu & Hl'). right. split; [done|]. rewrite Em, Es.
    cbn [machine with_machine]. rewrite Hm. change (stream q (with_machine m c)) with (stream q c). rewrite Hfl.
    split; [done|]. left. split; [done|]. apply not_elem_of_nil.
  - destruct Hc as (Em & Es & _ & Hb' & Hl').
    destruct (poll_connecting_lost m Hm) as (ms & m' & Ed & Hm'). unfold core_poll. rewrite Em. cbn [machine with_machine].
    rewrite Ed. cbn [step_loop]. right. split; [done|]. cbn [machine with_backoff_at with_machine]. rewrite Hm'.
    split; [done|]. change (stream q _) with (stream q c2). by rewrite Es.
Qed.

(** ** A failed stop is remembered *)

Lemma connect_failed c : stop_failed (view (snd (connect c))) = stop_failed (view c).
Proof.
  unfold connect, view. pose proof (start_law (radio c)) as Hst.
  destruct (radio_started c); [|destruct (radio_start (radio c)) as [[[]|e] r1]; cbn in Hst].
  - pose proof (connect_stop_failed (radio c)) as Hc. by destruct (radio_connect (radio c)).
  - cbn. pose proof (connect_stop_failed r1) as Hc. destruct (radio_connect r1). cbn in *. rewrite Hc, Hst.
    by destruct (radio_view (radio c)).
  - cbn. by rewrite Hst.
Qed.

Lemma radio_down_failed c : stop_failed (view c) = true → stop_failed (view (snd (radio_down c))) = true.
Proof.
  unfold radio_down, view. intros Hf. destruct (radio_started c); [|done]. cbn [negb].
  pose proof (disconnect_law (radio c)) as Hd. destruct (radio_disconnect (radio c)) as [r1 r2]. cbn [snd] in *.
  assert (stop_failed (radio_view r2) = true) as H2 by (destruct (radio_view (radio c)); by destruct Hd as [-> | ->]).
  pose proof (stop_law r2) as Hst. cbn [radio with_radio]. destruct (radio_stop r2) as [[[]|e] r3]; cbn in *.
  - destruct Hst as (k & _ & ->). by destruct (radio_view r2).
  - rewrite Hst. by destruct (radio_view r2).
Qed.

(** The loop of [step] never takes a third turn: after a failed connect the policy does not ask for another at once. *)
Lemma step_loop_enough fuel now action c : step_loop (2 + fuel) now action c = step_loop 2 now action c.
Proof.
  destruct action; cbn [Nat.add step_loop]; try done. destruct (connect c) as [[u|e] c']; [done|].
  destruct (core_poll I_Disconnected c') as [a c''] eqn:Ep. destruct a; cbn [step_loop]; try done. exfalso.
  unfold core_poll, poll, react in Ep. destruct (link_state (machine c')); cbn in Ep; try done;
    destruct (backoff_next _); done.
Qed.

Lemma step_loop_failed fuel now a c :
  stop_failed (view c) = true → stop_failed (view (step_loop fuel now a c)) = true.
Proof.
  revert a c. induction fuel as [|fuel IH]; intros a c Hf; [done|].
  destruct a; cbn [step_loop]; try done; [|by apply radio_down_failed].
  pose proof (connect_failed c) as Hc. rewrite Hf in Hc. destruct (connect c) as [[[]|e] c2]; cbn in Hc; [done|].
  unfold core_poll. destruct (poll I_Disconnected (machine c2)) as [a' m']. by apply IH.
Qed.

Lemma step_failed now input c : stop_failed (view c) = true → stop_failed (view (step now input c)) = true.
Proof.
  intros Hf. unfold step, core_poll. destruct (poll input (machine c)) as [a m].
  assert (stop_failed (view (step_loop 2 now a (with_machine m c))) = true) by by apply step_loop_failed.
  by case_decide.
Qed.

Lemma step_inv_a q now input c :
  inv_a q c → pre_phase input (link_state (machine c)) (view c) (links (stream q c)) ∨ stop_failed (view c) = true →
  inv_a q (step now input c).
Proof.
  intros [Hf|[Hb _]] [Hp|Hf']; [left; by apply step_failed..|by apply step_ok|left; by apply step_failed].
Qed.

(** ** The methods *)

Lemma report_ready_view c : view (report_ready c) = view c ∧ machine (report_ready c) = machine c.
Proof. unfold report_ready. by case_match. Qed.

Lemma report_ready_inv_a q c : inv_a q (report_ready c) ↔ inv_a q c.
Proof. unfold report_ready. by case_match. Qed.

Lemma suspend_inv_a q c : inv_a q c → inv_a q (snd (suspend c)).
Proof.
  intros Hi. unfold suspend, core_poll. destruct (poll I_Suspend (machine c)) as [a m] eqn:Ep.
  assert (link_state m = S_Suspended) as Hm.
  { unfold poll, react in Ep. destruct (machine c) as [[] b mx fa nu n]; by injection Ep as <- <-. }
  destruct Hi as [Hf|[Hb Hp]].
  { left. destruct (_ && _); [done|]. apply radio_down_failed. by rewrite (proj1 (report_ready_view _)). }
  set (c1 := with_backoff_at None (with_machine m c)).
  assert (base q c1) as Hb1 by exact Hb.
  assert (up (view c1) = false → quiet q c1) as Hq.
  { intros Hu. change (up (view c) = false) in Hu. change (quiet q c).
    unfold phase_ok, associating in Hp. destruct (link_state _); try by destruct Hp. all: destruct Hp; congruence. }
  destruct (bool_decide (a = A_None) && negb (radio_started c1)) eqn:E.
  - right. split; [done|]. change (phase_ok (link_state m) (view c) (links (stream q c))). rewrite Hm.
    apply andb_true_iff in E as [_ E%negb_true_iff]. destruct Hb1 as (_ & _ & Hs & _). rewrite E in Hs.
    destruct (Hq (eq_sym Hs)). by split_and!.
  - pose proof (radio_down_ok q (report_ready c1)) as Hd. rewrite (proj1 (report_ready_view c1)) in Hd.
    assert (base q (report_ready c1) ∧ (up (view c1) = false → quiet q (report_ready c1))) as [Hb2 Hq2]
      by (unfold report_ready; destruct (Bool.eqb _ _); (split; [exact Hb1|exact Hq])).
    specialize (Hd Hb2 Hq2). destruct (radio_down (report_ready c1)) as [r c2]. cbn [snd].
    rewrite (proj2 (report_ready_view c1)) in Hd. destruct Hd as [Em [Hf|(Hb' & Hd)]]; [by left|].
    right. split; [done|]. rewrite Em. change (phase_ok (link_state m) (view c2) (links (stream q c2))). by rewrite Hm.
Qed.

Lemma stream_wake q (woken : bool) c : stream (q ++ (if woken then [MsgWake] else [])) c = stream q c.
Proof. unfold stream. rewrite events_app. destruct woken; cbn; by rewrite app_nil_r. Qed.

Lemma inv_a_stream q q' c : stream q' c = stream q c → inv_a q c → inv_a q' c.
Proof. unfold inv_a, base. by intros ->. Qed.

Lemma resume_inv_a q now c r woken c' :
  inv_a q c → resume now c = (r, woken, c') → inv_a (q ++ (if woken then [MsgWake] else [])) c'.
Proof.
  intros Hi E. apply (inv_a_stream q); [apply stream_wake|]. unfold resume, core_poll in E.
  destruct (poll I_Resume (machine c)) as [a m] eqn:Ep.
  assert ((a ≠ A_Connect → link_state m = link_state (machine c)) ∧
    (a = A_Connect → link_state m = S_Connecting ∧ link_state (machine c) = S_Suspended)) as [Hn Hc].
  { unfold poll, react in Ep. destruct (machine c) as [[] b mx fa nu n]; by injection Ep as <- <-. }
  case_decide as Ha; [|injection E as _ _ <-].
  2: { unfold inv_a in *. cbn [machine with_machine]. by rewrite Hn. }
  destruct (Hc Ha) as [Hm Hst]. pose proof (connect_failed (with_backoff_at None (with_machine m c))) as Hcf.
  destruct Hi as [Hf|[Hb Hp]].
  { left. change (view (with_backoff_at None (with_machine m c))) with (view c) in Hcf. rewrite Hf in Hcf.
    destruct (connect _) as [[[]|e] c2]; injection E as _ _ <-; rewrite (proj1 (report_ready_view _)); [done|].
    by apply step_failed. }
  rewrite Hst in Hp. destruct Hp as (Hu & Hl & Hfl).
  pose proof (connect_ok q (with_backoff_at None (with_machine m c)) Hb (conj Hl Hfl)) as Hco.
  destruct (connect _) as [[[]|e] c2]; injection E as _ _ <-; apply report_ready_inv_a.
  - destruct Hco as (Em & Es & _ & Hb' & Hu' & Hl'). right. split; [done|]. rewrite Em, Es.
    cbn [machine with_machine with_backoff_at]. rewrite Hm. split; [done|]. left. split; [done|].
    change (stream q _) with (stream q c). rewrite Hfl. apply not_elem_of_nil.
  - destruct Hco as (Em & Es & _ & Hb' & Hl'). apply step_ok; [done|]. right. rewrite Em. split; [done|].
    split; [done|]. by rewrite Es.
Qed.

(** ** The driver, the delivery and the worker *)

Lemma phase_ok_snoc st u v u' v' l e b f b' f' fl :
  spontaneous (mkRadio u v l b f) (mkRadio u' v' (l ++ [e]) b' f') →
  phase_ok st (mkRadio u v l b f) fl →
  phase_ok st (mkRadio u' v' (l ++ [e]) b' f') (fl ++ (if is_link e then [e] else [])).
Proof.
  intros Hs Hp. inversion Hs; subst; unfold phase_ok, associating in *; cbn [up live posted] in *;
    match goal with E : l ++ [_] = l ++ [_] |- _ => apply app_inv_head in E; injection E as <- end; cbn [is_link].
  - destruct st; try by destruct_and?. all: destruct Hp as (Hu & [[_ Hn]|[[=] _]]).
    all: split; [done|]; left; split; [done|]; rewrite not_elem_of_app, list_elem_of_singleton; by split.
  - destruct st; try by destruct_and?. all: destruct Hp as (Hu & [[_ Hn]|[[=] _]]).
    all: split; [done|]; right; split; [done|]; by exists fl.
  - match goal with Hx : _ = E_NetworkUp ∨ _ |- _ => destruct Hx as [-> | ->] end; by rewrite app_nil_r.
Qed.

Lemma driver_inv_a q c r :
  spontaneous (view c) (radio_view r) → inv_a q c → inv_a q (with_radio r c).
Proof.
  intros Hsp Hi.
  assert (∃ u v l b f u' v' e b' f', view c = mkRadio u v l b f ∧ radio_view r = mkRadio u' v' (l ++ [e]) b' f' ∧
    e ≠ E_Stopped ∧ u' = u ∧ b' = b ∧ f' = f) as (u & v & l & b & f & u' & v' & e & b' & f' & Ev & Er & He & -> & -> & ->).
  { inversion Hsp; do 10 eexists; split_and!; try done.
    match goal with Hx : _ = E_NetworkUp ∨ _ |- _ => by destruct Hx as [-> | ->] end. }
  destruct Hi as [Hf|[(Hf & Hr & Hs & Hm) Hp]]; [left; unfold view; cbn; rewrite Er; by rewrite Ev in Hf|right].
  rewrite Ev, Er in Hsp.
  assert (stream q (with_radio r c) = stream q c ++ [e]) as Est.
  { unfold stream, view in *. cbn. rewrite Er, Ev. cbn. by rewrite app_assoc. }
  split.
  - unfold base. rewrite Est. unfold view. cbn. rewrite Er, stops_in_app, stops_in_cons, decide_False by done.
    rewrite Ev in Hs, Hm. cbn in *. split; [by rewrite Z.add_0_r|done].
  - rewrite Est, links_snoc by done. cbn. unfold view at 1. cbn. rewrite Er. rewrite Ev in Hp.
    by eapply phase_ok_snoc.
Qed.

Lemma deliver_inv_a q c e r :
  delivers (view c) e (radio_view r) → inv_a q c → inv_a (q ++ [MsgEvent e]) (with_radio r c).
Proof.
  intros Hd Hi. inversion Hd as [u v e' l b f Ev Ee Er]. subst e'.
  assert (stream (q ++ [MsgEvent e]) (with_radio r c) = stream q c) as Es.
  { unfold stream, view in *. cbn. rewrite events_app, <- Er, <- Ev. cbn. by rewrite <- app_assoc. }
  unfold inv_a, base in *. rewrite Es. unfold view in *. cbn. rewrite <- Er. rewrite <- Ev in Hi. exact Hi.
Qed.

(** The channel holds no input but the start's. *)
Definition queue_ok (q : list Msg) : Prop := ∀ i, MsgInput i ∈ q → i = I_Start.

Lemma fence_up_spec q c :
  base q c → stops_in (stream q c) ≤ u32_max → fence_up c = negb (stops_in (stream q c) =? 0).
Proof.
  intros (Hf & Hr & _) Hn. unfold fence_up. f_equal. rewrite Hf. pose proof (stops_in_pos (stream q c)).
  set (n := stops_in (stream q c)) in *. unfold u32_wrapping_add, u32_wrap. unfold u32_max in *.
  destruct (Z.eqb_spec n 0) as [->|Hne].
  - apply Z.eqb_eq. rewrite Z.add_0_r, Z.mod_small; lia.
  - apply Z.eqb_neq. destruct (Z_lt_ge_dec (fenced c + n) 4294967296).
    + rewrite Z.mod_small; lia.
    + replace (fenced c + n) with (fenced c + n - 4294967296 + 1 * 4294967296) by lia.
      rewrite Z.mod_add, Z.mod_small; lia.
Qed.

Lemma worker_act_core now input c :
  ∃ c', snd (worker_act now input c) = report_ready c' ∧ machine c' = machine (step now input c) ∧
        radio c' = radio (step now input c) ∧
        (c' = step now input c ∨ c' = with_waiters [] (step now input c)).
Proof. unfold worker_act. destruct (is_ready _); eexists; (split; [reflexivity|]); by auto. Qed.

Lemma worker_act_inv_a q now input c :
  inv_a q (step now input c) → inv_a q (snd (worker_act now input c)).
Proof.
  intros Hi. destruct (worker_act_core now input c) as (c' & -> & _ & _ & Hc').
  apply report_ready_inv_a. by destruct Hc' as [-> | ->].
Qed.

Definition turn_ok (q : list Msg) (now : Z) (t : Turn R) : Prop :=
  match t with
  | T_Input input c => inv_a q (snd (worker_act now input c))
  | T_Continue c => inv_a q c
  | T_Break => True
  end.

Lemma timer_turn_ok q now msg c :
  msg = None ∨ msg = Some MsgWake → inv_a q c → turn_ok q now (worker_input now msg c).
Proof.
  intros Hm Hi. assert (turn_ok q now (worker_input now None c)) as Hn.
  { cbn. destruct (backoff_at c) as [at_|]; [|done]. destruct (at_ <=? now); [|done].
    apply worker_act_inv_a, step_inv_a; [done|]. destruct Hi as [?|[_ ?]]; [by right|by left]. }
  by destruct Hm as [-> | ->].
Qed.

Lemma stream_event e q c : stream (MsgEvent e :: q) c = e :: stream q c.
Proof. done. Qed.

(** An event behind the fence is dropped, one that is not is the machine's next input. *)
Lemma event_turn_ok q now e c :
  inv_a (MsgEvent e :: q) c → stops_in (stream (MsgEvent e :: q) c) ≤ u32_max →
  turn_ok q now (worker_input now (Some (MsgEvent e)) c).
Proof.
  intros Hi Hn.
  assert (stop_failed (view c) = true → turn_ok q now (worker_input now (Some (MsgEvent e)) c)) as Hfail.
  { intros Hf. assert (inv_a q c) by by left.
    destruct e; cbn; destruct (fence_up c); try done; try by left.
    all: by apply worker_act_inv_a, step_inv_a; [|right]. }
  destruct Hi as [Hf|[Hb Hp]]; [by apply Hfail|]. pose proof (fence_up_spec _ _ Hb Hn) as Hfe.
  destruct Hb as (Hf & [Hr1 Hr2] & Hs & Hm). rewrite stream_event in *. rewrite stops_in_cons in *.
  pose proof (stops_in_pos (stream q c)) as Hpos.
  destruct (decide (e = E_Stopped)) as [->|He].
  - assert (fence_up c = true) as Hup by (rewrite Hfe; apply negb_true_iff, Z.eqb_neq; lia).
    cbn. rewrite Hup. right. rewrite links_fenced in Hp by (by right). split; [|exact Hp].
    unfold base. cbn. unfold stream, view in *. cbn. split; [|split; [apply u32_wrap_range|done]].
    rewrite Hf, u32_wrapping_add_assoc. f_equal. 
  - destruct (Z.eqb_spec (0 + stops_in (stream q c)) 0) as [E0|E0]; cbn [negb] in Hfe.
    + assert (base q c) as Hb by (split; [rewrite Hf; done|done]).
      rewrite links_open in Hp by (rewrite stops_in_cons, decide_False by done; lia).
      destruct e; try done; cbn; rewrite Hfe; apply worker_act_inv_a, step_ok; try done; cbn in Hp; try (by left).
    + assert (turn_ok q now (T_Continue c)) as Hc.
      { right. rewrite links_fenced in Hp by (left; lia). by split. }
      destruct e; try done; cbn; by rewrite Hfe.
Qed.

Lemma msg_turn_ok q now m c :
  inv_a (m :: q) c → queue_ok (m :: q) → stops_in (stream (m :: q) c) ≤ u32_max →
  turn_ok q now (worker_input now (Some m) c).
Proof.
  intros Hi Hq Hn. destruct m as [e|input| |]; [by apply event_turn_ok| | |done].
  - assert (input = I_Start) as -> by (apply Hq; left). cbn. apply worker_act_inv_a, step_inv_a; [done|].
    destruct Hi as [?|[_ ?]]; [by right|by left].
  - apply timer_turn_ok; [by right|done].
Qed.

(** ** The system *)

Definition sys_inv_a (s : System R) : Prop := queue_ok (sys_queue s) ∧ inv_a (sys_queue s) (core s).

Lemma queue_ok_snoc q m : queue_ok q → (∀ i, m = MsgInput i → i = I_Start) → queue_ok (q ++ [m]).
Proof. intros Hq Hm i [Hi|Hi%list_elem_of_singleton]%elem_of_app; [by apply Hq|by apply Hm]. Qed.

Lemma worker_turn_inv_a now msg q s :
  queue_ok q → (msg = Some MsgShutdown → inv_a q (core s)) → turn_ok q now (worker_input now msg (core s)) →
  sys_inv_a (worker_turn now msg q s).
Proof.
  intros Hq Hsd Ht. unfold worker_turn.
  assert (worker_input now msg (core s) = T_Break → msg = Some MsgShutdown) as Hb.
  { destruct msg as [[[]| | |]|]; cbn; repeat case_match; try done. }
  destruct (worker_input now msg (core s)) as [input c|c|]; cbn in Ht.
  - destruct (worker_act now input c) as [woken c']. by split.
  - by split.
  - split; [done|]. by apply Hsd, Hb.
Qed.

Lemma poll_future_inv_a q f waker c : inv_a q c → inv_a q (snd (poll_future f waker c)).
Proof.
  intros Hi. unfold poll_future, wait_poll. destruct (is_ready (machine c)), (fut_id f) as [id|]; done.
Qed.

Lemma sys_step_inv_a s s' : in_memory s → sys_inv_a s → sys_step s s' → sys_inv_a s'.
Proof.
  intros Hmem [Hq Hi] Hstep.
  assert (stops_in (stream (sys_queue s) (core s)) ≤ u32_max) as Hn.
  { unfold in_memory in Hmem. pose proof (stops_in_pos (stream (sys_queue s) (core s))) as [_ Hle].
    assert (length (stream (sys_queue s) (core s)) ≤ length (sys_queue s) + length (posted (view (core s))))%nat; [|unfold view in *; lia].
    unfold stream. rewrite length_app. pose proof (events_length (sys_queue s)). lia. }
  destruct Hstep; cbn [core sys_queue] in *.
  - split; [by apply queue_ok_snoc; [|intros i [= <-]]|]. apply (inv_a_stream (sys_queue s)); [|done].
    unfold stream. cbn. by rewrite events_app, app_nil_r.
  - split; [done|]. by apply suspend_inv_a.
  - split; [|by eapply resume_inv_a]. destruct woken; [by apply queue_ok_snoc|by rewrite app_nil_r].
  - by split.
  - by split.
  - split; [done|]. by apply poll_future_inv_a.
  - split; [done|]. unfold wait_drop. by destruct (fut_id f).
  - split; [by apply queue_ok_snoc|]. apply (inv_a_stream (sys_queue s)); [|done].
    unfold stream. cbn. by rewrite events_app, app_nil_r.
  - split; [done|]. by apply driver_inv_a.
  - split; [by apply queue_ok_snoc|]. by apply deliver_inv_a.
  - by split.
  - rewrite H2 in Hq, Hi, Hn.
    apply worker_turn_inv_a; [intros i Hin; apply Hq; by right| |by apply msg_turn_ok].
    intros [= ->]. by apply (inv_a_stream (MsgShutdown :: queue)).
  - rewrite H2 in *. apply worker_turn_inv_a; [done|done|]. apply timer_turn_ok; [by left|done].
Qed.

(** ** The timer *)

(** What the radio calls leave alone. *)
Definition frame (c c' : Core R) : Prop :=
  machine c' = machine c ∧ backoff_at c' = backoff_at c ∧ ready_waiters c' = ready_waiters c ∧
  next_waiter c' = next_waiter c ∧ ready_sinks c' = ready_sinks c ∧ ready_reported c' = ready_reported c.

Lemma connect_frame c : frame c (snd (connect c)).
Proof.
  unfold connect. destruct (radio_started c); [|destruct (radio_start (radio c)) as [[[]|e] r1]];
    try destruct (radio_connect _); by split_and!.
Qed.

Lemma radio_down_frame c : frame c (snd (radio_down c)).
Proof.
  unfold radio_down. destruct (radio_started c); [cbn [negb]|by split_and!].
  destruct (radio_stop _) as [[[]|e] r]; by split_and!.
Qed.

(** The timer is armed exactly in the back-off. *)
Definition timer_ok (c : Core R) : Prop := link_state (machine c) = S_Backoff ↔ is_Some (backoff_at c).

Lemma poll_cases input m a m' :
  poll input m = (a, m') →
  match a with
  | A_None => link_state m' = S_Backoff → link_state m = S_Backoff ∧ input ≠ I_BackoffElapsed
  | A_Wait _ => link_state m' = S_Backoff
  | A_Connect => link_state m' = S_Connecting
  | A_Disconnect => link_state m' = S_Suspended
  end.
Proof.
  unfold poll, react. destruct m as [st b mx fa nu n]. destruct (backoff_next b) as [ms b'].
  destruct st, input; intros [= <- <-]; try done; by case_decide.
Qed.

Lemma step_timer now input c :
  (link_state (machine c) = S_Backoff → input = I_BackoffElapsed ∨ is_Some (backoff_at c)) →
  timer_ok (step now input c).
Proof.
  intros Hb. unfold step, core_poll. destruct (poll input (machine c)) as [a m] eqn:Ep.
  apply poll_cases in Ep. cbv zeta.
  set (c' := step_loop 2 now a (with_machine m c)).
  assert (link_state (machine c') = S_Backoff → is_Some (backoff_at c')) as Hs.
  { subst c'. destruct a as [| | |ms]; cbn [step_loop].
    - cbn. intros Hm. destruct (Ep Hm) as [Hm' ?]. by destruct (Hb Hm').
    - destruct (connect_frame (with_machine m c)) as (Em & _).
      destruct (connect _) as [[[]|e] c2]; cbn in Em.
      + rewrite Em. congruence.
      + unfold core_poll. destruct (poll_connecting_lost m Ep) as (ms & m' & Ed & _). by rewrite Em, Ed.
    - destruct (radio_down_frame (with_machine m c)) as (Em & _). rewrite Em. cbn. congruence.
    - by eexists. }
  unfold timer_ok. case_decide as Hd; [by split; auto|]. cbn. split; [done|by intros [? [=]]].
Qed.

Lemma report_ready_machine c : machine (report_ready c) = machine c.
Proof. unfold report_ready. by case_match. Qed.

Lemma report_ready_backoff c : backoff_at (report_ready c) = backoff_at c.
Proof. unfold report_ready. by case_match. Qed.

Lemma report_ready_timer c : timer_ok (report_ready c) ↔ timer_ok c.
Proof. unfold timer_ok. by rewrite (report_ready_machine c), report_ready_backoff. Qed.

Lemma suspend_timer c : timer_ok (snd (suspend c)) ∧ backoff_at (snd (suspend c)) = None.
Proof.
  unfold suspend, core_poll. destruct (poll I_Suspend (machine c)) as [a m] eqn:Ep.
  assert (link_state m = S_Suspended) as Hm.
  { unfold poll, react in Ep. destruct (machine c) as [[] b mx fa nu n]; by injection Ep as <- <-. }
  assert (∀ c', link_state (machine c') = S_Suspended → backoff_at c' = None → timer_ok c' ∧ backoff_at c' = None) as Ht.
  { intros c' H1 H2. split; [|done]. unfold timer_ok. rewrite H1, H2. split; [done|by intros [? [=]]]. }
  destruct (_ && _); [by apply Ht|].
  destruct (radio_down_frame (report_ready (with_backoff_at None (with_machine m c)))) as (Em & Eb & _).
  apply Ht; [rewrite Em, (report_ready_machine _); done|by rewrite Eb, report_ready_backoff].
Qed.

Lemma resume_timer now c r woken c' :
  timer_ok c → resume now c = (r, woken, c') →
  timer_ok c' ∧ (backoff_at c' = backoff_at c ∨ backoff_at c' = None ∨ woken = true).
Proof.
  intros Ht. unfold resume, core_poll. destruct (poll I_Resume (machine c)) as [a m] eqn:Ep.
  pose proof (poll_cases _ _ _ _ Ep) as Hp. case_decide as Ha; [subst a|].
  - destruct (connect_frame (with_backoff_at None (with_machine m c))) as (Em & Eb & _).
    destruct (connect _) as [[[]|e] c2]; intros [= _ <- <-]; rewrite report_ready_timer; cbn in Em, Eb.
    + rewrite report_ready_backoff, Eb. split; [|auto]. unfold timer_ok. rewrite Em, Eb, Hp.
      split; [done|by intros [? [=]]].
    + split; [|auto]. apply step_timer. rewrite Em. congruence.
  - intros [= _ <- <-]. split; [|by left]. unfold timer_ok. cbn.
    assert (link_state m = link_state (machine c)) as ->; [|exact Ht].
    unfold poll, react in Ep. destruct (machine c) as [[] b mx fa nu n]; by injection Ep as <- <-.
Qed.

Definition turn_timer (now : Z) (t : Turn R) : Prop :=
  match t with
  | T_Input input c => timer_ok (snd (worker_act now input c))
  | T_Continue c => timer_ok c
  | T_Break => True
  end.

Lemma worker_act_timer now input c :
  (link_state (machine c) = S_Backoff → input = I_BackoffElapsed ∨ is_Some (backoff_at c)) →
  timer_ok (snd (worker_act now input c)).
Proof.
  intros Hc. destruct (worker_act_core now input c) as (c' & -> & _ & _ & Hc').
  apply report_ready_timer. pose proof (step_timer now input c Hc). by destruct Hc' as [-> | ->].
Qed.

Lemma worker_input_timer now msg c : timer_ok c → turn_timer now (worker_input now msg c).
Proof.
  intros Ht.
  assert (∀ input, timer_ok (snd (worker_act now input c))) as Hact
    by (intros input; apply worker_act_timer; intros Hs; right; by apply Ht).
  assert (turn_timer now (worker_input now None c)) as Hn.
  { cbn. destruct (backoff_at c) as [at_|] eqn:E; [|exact Ht]. destruct (at_ <=? now); [|exact Ht].
    apply worker_act_timer. by left. }
  destruct msg as [[[]|input| |]|]; try done; cbn; destruct (fence_up c); cbn; auto.
Qed.

(** The worker's deadline is the core's, or a wake is on its way. *)
Definition sys_inv_b (s : System R) : Prop :=
  timer_ok (core s) ∧
  ∀ d, worker s = W_Recv d → backoff_at (core s) = None ∨ backoff_at (core s) = d ∨ MsgWake ∈ sys_queue s.

Lemma worker_turn_inv_b now msg q s :
  timer_ok (core s) → sys_inv_b (worker_turn now msg q s).
Proof.
  intros Ht. pose proof (worker_input_timer now msg (core s) Ht) as Hw. unfold worker_turn.
  destruct (worker_input now msg (core s)) as [input c|c|]; cbn in Hw.
  - destruct (worker_act now input c) as [woken c']. by split.
  - by split.
  - by split.
Qed.

Lemma sys_step_inv_b s s' : sys_inv_b s → sys_step s s' → sys_inv_b s'.
Proof.
  intros [Ht Hw] Hstep.
  assert (∀ c (q : list Msg), backoff_at c = backoff_at (core s) → (MsgWake ∈ sys_queue s → MsgWake ∈ q) →
    ∀ d, worker s = W_Recv d → backoff_at c = None ∨ backoff_at c = d ∨ MsgWake ∈ q) as Hkeep.
  { intros c q -> Hq d Hd. destruct (Hw d Hd) as [?|[?|?]]; auto. }
  assert (∀ m, MsgWake ∈ sys_queue s → MsgWake ∈ sys_queue s ++ [m]) as Hsnoc
    by (intros m Hm; apply elem_of_app; by left).
  destruct Hstep; try (by split; [exact Ht|apply Hkeep; [done|first [apply Hsnoc|done]]]).
  - destruct (suspend_timer (core s)) as [H1' H2']. split; [done|]. intros d _. by left.
  - destruct (resume_timer _ _ _ _ _ Ht H1) as [Ht' [E|[E|E]]]; (split; [done|]).
    + apply Hkeep; [done|]. intros Hm. apply elem_of_app. by left.
    + intros d _. by left.
    + subst woken. intros d _. right. right. cbn. apply elem_of_app. right. left.
  - unfold poll_future, wait_poll. split; [|apply Hkeep; [|done]];
      cbn; destruct (is_ready _), (fut_id f); done.
  - split; [|apply Hkeep; [|done]]; cbn; unfold wait_drop; by destruct (fut_id f).
  - split; [done|]. intros d [= <-]. auto.
  - by apply worker_turn_inv_b.
  - by apply worker_turn_inv_b.
Qed.

(** ** Readiness *)

Definition readiness (c : Core R) : list (Z * Z) * Z * list (list bool) * bool :=
  (ready_waiters c, next_waiter c, ready_sinks c, ready_reported c).

Lemma frame_readiness c c' : frame c c' → readiness c' = readiness c.
Proof. unfold readiness. by intros (_ & _ & -> & -> & -> & ->). Qed.

Lemma step_loop_readiness fuel now a c : readiness (step_loop fuel now a c) = readiness c.
Proof.
  revert a c. induction fuel as [|fuel IH]; intros a c; [done|].
  destruct a; cbn [step_loop]; try done; [|apply frame_readiness, radio_down_frame].
  pose proof (frame_readiness _ _ (connect_frame c)) as Hc. destruct (connect c) as [[[]|e] c2]; [done|].
  unfold core_poll. destruct (poll I_Disconnected (machine c2)) as [a' m']. rewrite IH. exact Hc.
Qed.

Lemma step_readiness now input c : readiness (step now input c) = readiness c.
Proof.
  unfold step, core_poll. destruct (poll input (machine c)) as [a m]. cbv zeta.
  transitivity (readiness (step_loop 2 now a (with_machine m c))); [by case_decide|].
  by rewrite step_loop_readiness.
Qed.

(** What a sink was told alternates. *)
Definition alternates (l : list bool) : Prop :=
  ∀ i x y, l !! i = Some x → l !! S i = Some y → x ≠ y.

Lemma alternates_snoc l x y : alternates l → last l = Some x → x ≠ y → alternates (l ++ [y]).
Proof.
  intros Ha Hl Hxy i a b H1 H2. destruct (decide (S i < length l)%nat) as [Hi|Hi].
  - rewrite lookup_app_l in H1, H2 by lia. by eapply Ha.
  - apply lookup_lt_Some in H2 as Hlen. rewrite length_app in Hlen. cbn in Hlen.
    assert (i = pred (length l) ∧ l ≠ []) as [-> Hne].
    { split; [lia|]. by intros ->. }
    rewrite last_lookup in Hl. assert (0 < length l)%nat by (destruct l; [done|cbn; lia]).
    rewrite lookup_app_l in H1 by lia. rewrite lookup_app_r in H2 by lia.
    replace (S (pred (length l)) - length l)%nat with 0%nat in H2 by lia. injection H2 as <-. congruence.
Qed.

Definition sinks_ok (c : Core R) : Prop :=
  Forall (λ t, alternates t ∧ last t = Some (ready_reported c)) (ready_sinks c).

Definition ready_inv (c : Core R) : Prop :=
  ready_reported c = is_ready (machine c) ∧ sinks_ok c ∧
  (is_ready (machine c) = true → ready_waiters c = []).

Lemma report_ready_inv c :
  sinks_ok c → (is_ready (machine c) = true → ready_waiters c = []) → ready_inv (report_ready c).
Proof.
  intros Hs Hw. unfold report_ready. destruct (eqb_spec (is_ready (machine c)) (ready_reported c)) as [E|E].
  - by split.
  - split; [done|]. split; [|done]. unfold sinks_ok. cbn. apply Forall_fmap. eapply Forall_impl; [exact Hs|].
    intros t [Ha Hl]. cbn. rewrite last_snoc. split; [|done]. eapply alternates_snoc; [exact Ha|exact Hl|congruence].
Qed.

Lemma readiness_inv c c' :
  readiness c' = readiness c → sinks_ok c → sinks_ok c' ∧ ready_waiters c' = ready_waiters c.
Proof. intros [= H1 H2 H3 H4]. unfold sinks_ok. by rewrite H3, H4. Qed.

Lemma frame_ready_inv c c' : frame c c' → ready_inv c → ready_inv c'.
Proof.
  intros Hf (Hr & Hs & Hw). destruct (readiness_inv _ _ (frame_readiness _ _ Hf) Hs) as [Hs' Hw'].
  destruct Hf as (Em & _ & _ & _ & _ & Er). unfold ready_inv. by rewrite Em, Er, Hw'.
Qed.

Lemma not_ready m : link_state m ≠ S_Connected → is_ready m = false.
Proof. intros Hm. unfold is_ready. by rewrite bool_decide_eq_false_2. Qed.

Lemma suspend_ready c : ready_inv c → ready_inv (snd (suspend c)).
Proof.
  intros (Hr & Hs & Hw). unfold suspend, core_poll. destruct (poll I_Suspend (machine c)) as [a m] eqn:Ep.
  assert (link_state m = S_Suspended ∧ (a = A_None → link_state (machine c) = S_Suspended)) as [Hm Ha].
  { unfold poll, react in Ep. destruct (machine c) as [[] b mx fa nu n]; by injection Ep as <- <-. }
  assert (is_ready m = false) as Hnr by (apply not_ready; by rewrite Hm).
  destruct (_ && _) eqn:E.
  - apply andb_true_iff in E as [Ea%bool_decide_eq_true _]. split; [|split; [exact Hs|cbn; by rewrite Hnr]].
    cbn. rewrite Hr, Hnr. apply not_ready. by rewrite (Ha Ea).
  - eapply frame_ready_inv; [apply radio_down_frame|]. apply report_ready_inv; [exact Hs|]. cbn. by rewrite Hnr.
Qed.

Lemma step_connecting_lost now c :
  link_state (machine c) = S_Connecting → link_state (machine (step now I_Disconnected c)) = S_Backoff.
Proof.
  intros Hc. destruct (poll_connecting_lost _ Hc) as (ms & m & Ep & Hm).
  unfold step, core_poll. rewrite Ep. cbn. by case_decide.
Qed.

Lemma resume_ready now c : ready_inv c → ready_inv (snd (resume now c)).
Proof.
  intros (Hr & Hs & Hw). unfold resume, core_poll. destruct (poll I_Resume (machine c)) as [a m] eqn:Ep.
  pose proof (poll_cases _ _ _ _ Ep) as Hp. case_decide as Ha; [subst a|].
  - pose proof (connect_frame (with_backoff_at None (with_machine m c))) as Hf.
    pose proof (readiness_inv _ _ (frame_readiness _ _ Hf) Hs) as [Hs2 _]. destruct Hf as (Em & _).
    destruct (connect _) as [[[]|e] c2]; cbn in *; apply report_ready_inv.
    + exact Hs2.
    + rewrite Em, not_ready; [done|]. by rewrite Hp.
    + exact (proj1 (readiness_inv _ _ (step_readiness _ _ _) Hs2)).
    + rewrite not_ready; [done|]. rewrite step_connecting_lost; [done|]. by rewrite Em.
  - assert (is_ready m = is_ready (machine c)) as E.
    { unfold poll, react in Ep. destruct (machine c) as [[] b mx fa nu n]; by injection Ep as <- <-. }
    unfold ready_inv. cbn. rewrite E. by split.
Qed.

Lemma worker_act_ready now input c : ready_inv c → ready_inv (snd (worker_act now input c)).
Proof.
  intros (Hr & Hs & Hw). destruct (readiness_inv _ _ (step_readiness now input c) Hs) as [Hs' Hw'].
  unfold worker_act. destruct (is_ready (machine (step now input c))) eqn:E; cbn [snd]; apply report_ready_inv;
    try exact Hs'; [done|congruence].
Qed.

(** ** The waiting futures *)

(** A future that waits and was not woken is registered with its waker; registrations are
    its own. *)
Definition futures_ok (c : Core R) (l : list (option Fut)) : Prop :=
  0 ≤ next_waiter c ∧
  (∀ i f, l !! i = Some (Some f) → fut_polled f = true → fut_woken f = false →
     ∃ id, fut_id f = Some id ∧ (id, fut_waker f) ∈ ready_waiters c) ∧
  (∀ i f id, l !! i = Some (Some f) → fut_id f = Some id → 0 ≤ id < next_waiter c) ∧
  (∀ i j f g id, l !! i = Some (Some f) → l !! j = Some (Some g) → fut_id f = Some id →
     fut_id g = Some id → i = j).

Lemma futures_ok_readiness c c' l : readiness c' = readiness c → futures_ok c l → futures_ok c' l.
Proof. unfold futures_ok. by intros [= -> -> _ _]. Qed.

Lemma register_in id w l : (id, w) ∈ register id w l.
Proof.
  unfold register. destruct (list_find _ l) as [[i x]|] eqn:E.
  - apply list_find_Some in E as (Hi & _). apply list_elem_of_lookup. exists i. apply list_lookup_insert_eq.
    by eapply lookup_lt_Some.
  - apply elem_of_app. right. by apply list_elem_of_singleton.
Qed.

Lemma register_other id w id' w' (l : list (Z * Z)) : id' ≠ id → (id', w') ∈ l → (id', w') ∈ register id w l.
Proof.
  intros Hne Hin. unfold register. destruct (list_find _ l) as [[i x]|] eqn:E.
  - apply list_find_Some in E as (Hi & Hx & _). apply list_elem_of_lookup in Hin as [j Hj].
    apply list_elem_of_lookup. exists j. rewrite list_lookup_insert_ne; [done|]. intros ->.
    rewrite Hi in Hj. injection Hj as ->. by cbn in Hx.
  - apply elem_of_app. by left.
Qed.

Lemma lookup_set {A} (l : list A) i x j y :
  <[i := x]> l !! j = Some y → (j = i ∧ y = x) ∨ (j ≠ i ∧ l !! j = Some y).
Proof.
  intros Hj. destruct (decide (j = i)) as [->|Hne].
  - left. split; [done|]. apply list_lookup_insert_Some in Hj as [(_ & -> & _)|[? _]]; done.
  - right. rewrite list_lookup_insert_ne in Hj by done. done.
Qed.

(** Setting or clearing one future, with the registrations of the others kept. *)
Lemma futures_ok_set c c' l i f f' :
  futures_ok c l → l !! i = Some (Some f) → 0 ≤ next_waiter c ≤ next_waiter c' →
  (∀ id w, (id, w) ∈ ready_waiters c → (∀ f0 j, j ≠ i → l !! j = Some (Some f0) → fut_id f0 = Some id →
     (id, w) ∈ ready_waiters c')) →
  match f' with
  | Some f' =>
      (∃ id, fut_id f' = Some id ∧ 0 ≤ id < next_waiter c' ∧
             (fut_id f = Some id ∨ next_waiter c ≤ id) ∧ (id, fut_waker f') ∈ ready_waiters c')
  | None => True
  end →
  futures_ok c' (<[i := f']> l).
Proof.
  intros (H0' & H1 & H2 & H3) Hi Hn Hkeep Hf'. split; [lia|]. split; [|split].
  - intros j g Hj%lookup_set Hp Hw. destruct Hj as [[-> Eg]|[Hne Hj]].
    + subst f'. destruct Hf' as (id & ? & _ & _ & ?). by exists id.
    + destruct (H1 _ _ Hj Hp Hw) as (id & Hid & Hin). exists id. split; [done|]. by eapply Hkeep.
  - intros j g id Hj%lookup_set Hid. destruct Hj as [[-> Eg]|[Hne Hj]].
    + subst f'. destruct Hf' as (id' & E & ? & _). rewrite E in Hid. by injection Hid as <-.
    + pose proof (H2 _ _ _ Hj Hid). lia.
  - assert (∀ j g id, j ≠ i → l !! j = Some (Some g) → fut_id g = Some id →
      match f' with Some f' => fut_id f' = Some id → False | None => True end) as Hnew.
    { intros j g id Hne Hj Hid. destruct f' as [f'|]; [|done]. destruct Hf' as (id' & E & _ & [Ho|Ho] & _).
      - rewrite E. intros [= ->]. apply Hne. by eapply H3.
      - rewrite E. intros [= ->]. pose proof (H2 _ _ _ Hj Hid). lia. }
    intros j k g h id Hj%lookup_set Hk%lookup_set Hg Hh.
    destruct Hj as [[-> Eg]|[Hj1 Hj2]], Hk as [[-> Eh]|[Hk1 Hk2]]; [done|..].
    + subst f'. by destruct (Hnew k h id Hk1 Hk2 Hh).
    + subst f'. by destruct (Hnew j g id Hj1 Hj2 Hg).
    + by eapply H3.
Qed.

Lemma filter_other (id id' w : Z) (l : list (Z * Z)) : id' ≠ id → (id', w) ∈ l → (id', w) ∈ filter (λ x, x.1 ≠ id) l.
Proof. intros Hne Hin. by apply list_elem_of_filter. Qed.

Lemma u64_next n : 0 ≤ n < u64_max → u64_wrapping_add n 1 = n + 1.
Proof. unfold u64_wrapping_add, u64_max. intros Hn. apply Z.mod_small. lia. Qed.

Lemma poll_future_ok c l i f waker :
  futures_ok c l → ready_inv c → l !! i = Some (Some f) → next_waiter c < u64_max →
  ready_inv (snd (poll_future f waker c)) ∧
  futures_ok (snd (poll_future f waker c)) (<[i := fst (poll_future f waker c)]> l).
Proof.
  intros Hf Hr Hi Hn. pose proof Hf as (Hnn & _ & H2 & H3). unfold poll_future, wait_poll.
  destruct (is_ready (machine c)) eqn:E.
  - destruct Hr as (Hr1 & Hr2 & Hr3). specialize (Hr3 E). destruct (fut_id f) as [id|] eqn:Eid; cbn [fst snd]; split.
    + split; [done|]. split; [done|]. cbn. by rewrite Hr3.
    + eapply futures_ok_set; [done..|cbn; lia| |done]. intros id' w Hin. by rewrite Hr3 in Hin; apply elem_of_nil in Hin.
    + by split.
    + eapply futures_ok_set; [done..|lia| |done]. done.
  - destruct Hr as (Hr1 & Hr2 & Hr3). destruct (fut_id f) as [id|] eqn:Eid; cbn [fst snd]; split.
    + split; [done|]. split; [done|]. cbn. congruence.
    + eapply futures_ok_set; [done..|cbn; lia| |].
      * intros id' w Hin f0 j Hne Hj Hid. cbn. apply register_other; [|done]. intros ->. apply Hne. by eapply H3.
      * cbn. exists id. split; [done|]. split; [by eapply H2|]. split; [by left|apply register_in].
    + split; [done|]. split; [done|]. cbn. congruence.
    + eapply futures_ok_set; [done..|cbn; rewrite u64_next by lia; lia| |].
      * intros id' w Hin f0 j Hne Hj Hid. cbn. apply register_other; [|done].
        pose proof (H2 _ _ _ Hj Hid). lia.
      * cbn. rewrite u64_next by lia. exists (next_waiter c). split; [done|]. split; [lia|].
        split; [right; lia|apply register_in].
Qed.

Lemma wait_drop_ok c l i f :
  futures_ok c l → ready_inv c → l !! i = Some (Some f) →
  ready_inv (wait_drop (fut_id f) c) ∧ futures_ok (wait_drop (fut_id f) c) (<[i := None]> l).
Proof.
  intros Hf (Hr1 & Hr2 & Hr3) Hi. pose proof Hf as (Hnn & _ & H2 & H3). unfold wait_drop.
  destruct (fut_id f) as [id|] eqn:Eid; split.
  - split; [done|]. split; [done|]. cbn. intros E. by rewrite (Hr3 E).
  - eapply futures_ok_set; [done..|cbn; lia| |done]. intros id' w Hin f0 j Hne Hj Hid. cbn.
    apply filter_other; [|done]. intros ->. apply Hne. by eapply H3.
  - by split.
  - by eapply futures_ok_set.
Qed.

Definition sys_inv_c (s : System R) : Prop := ready_inv (core s) ∧ futures_ok (core s) (futures s).

Lemma wake_all_lookup woken (l : list (option Fut)) i f' :
  wake_all woken l !! i = Some (Some f') → ∃ f, l !! i = Some (Some f) ∧ f' = wake woken f.
Proof.
  unfold wake_all. rewrite list_lookup_fmap. destruct (l !! i) as [[f|]|]; cbn; [|done..].
  intros [= <-]. by exists f.
Qed.

Lemma futures_ok_wake c c' woken l :
  futures_ok c l → next_waiter c' = next_waiter c →
  (∀ id w, (id, w) ∈ ready_waiters c → (id, w) ∈ ready_waiters c' ∨ w ∈ woken) →
  futures_ok c' (wake_all woken l).
Proof.
  intros (H0' & H1 & H2 & H3) En Hk. unfold futures_ok. rewrite En. split; [done|]. split; [|split].
  - intros i f' (f & Hi & ->)%wake_all_lookup Hp [Hw Hb%bool_decide_eq_false]%orb_false_iff.
    destruct (H1 _ _ Hi Hp Hw) as (id & Hid & Hin). exists id. split; [done|].
    by destruct (Hk _ _ Hin).
  - intros i f' id (f & Hi & ->)%wake_all_lookup Hid. by eapply H2.
  - intros i j f' g' id (f & Hi & ->)%wake_all_lookup (g & Hj & ->)%wake_all_lookup Hf Hg. by eapply H3.
Qed.

Lemma worker_input_readiness now msg c :
  match worker_input now msg c with
  | T_Input _ c' | T_Continue c' => machine c' = machine c ∧ readiness c' = readiness c
  | T_Break => True
  end.
Proof.
  destruct msg as [[[]| | |]|]; cbn; try done; try (by destruct (fence_up c));
    destruct (backoff_at c) as [at_|]; try done; by destruct (at_ <=? now).
Qed.

Lemma ready_inv_same c c' :
  machine c' = machine c → readiness c' = readiness c → ready_inv c → ready_inv c'.
Proof. unfold ready_inv, sinks_ok. intros -> [= -> _ -> ->]. done. Qed.

Lemma worker_act_futures now input c l :
  futures_ok c l → futures_ok (snd (worker_act now input c)) (wake_all (fst (worker_act now input c)) l).
Proof.
  intros Hf. pose proof (step_readiness now input c) as [= E1 E2 _ _].
  assert (∀ c0, next_waiter (report_ready c0) = next_waiter c0 ∧ ready_waiters (report_ready c0) = ready_waiters c0) as Hrep
    by (intros c0; unfold report_ready; by case_match).
  unfold worker_act. destruct (is_ready _); cbn [fst snd];
    (eapply futures_ok_wake; [exact Hf|by rewrite (proj1 (Hrep _))|]); rewrite (proj2 (Hrep _)).
  - intros id w Hin. right. rewrite E1. apply list_elem_of_fmap. by exists (id, w).
  - intros id w Hin. left. by rewrite E1.
Qed.

Lemma worker_turn_inv_c now msg q s : sys_inv_c s → sys_inv_c (worker_turn now msg q s).
Proof.
  intros [Hr Hf]. pose proof (worker_input_readiness now msg (core s)) as Hi. unfold worker_turn.
  destruct (worker_input now msg (core s)) as [input c|c|]; [|destruct Hi as [Em Er]|by split].
  - destruct Hi as [Em Er]. pose proof (ready_inv_same _ _ Em Er Hr) as Hr'.
    pose proof (futures_ok_readiness _ _ _ Er Hf) as Hf'.
    pose proof (worker_act_ready now input c Hr'). pose proof (worker_act_futures now input c _ Hf').
    destruct (worker_act now input c) as [woken c']. by split.
  - split; [by eapply ready_inv_same|by eapply futures_ok_readiness].
Qed.

Lemma suspend_readiness c :
  ready_waiters (snd (suspend c)) = ready_waiters c ∧ next_waiter (snd (suspend c)) = next_waiter c.
Proof.
  unfold suspend, core_poll. destruct (poll I_Suspend (machine c)) as [a m]. destruct (_ && _); [done|].
  destruct (radio_down_frame (report_ready (with_backoff_at None (with_machine m c)))) as (_ & _ & -> & -> & _).
  unfold report_ready. by case_match.
Qed.

Lemma resume_readiness now c :
  ready_waiters (snd (resume now c)) = ready_waiters c ∧ next_waiter (snd (resume now c)) = next_waiter c.
Proof.
  unfold resume, core_poll. destruct (poll I_Resume (machine c)) as [a m]. case_decide; [|done].
  destruct (connect_frame (with_backoff_at None (with_machine m c))) as (_ & _ & E1 & E2 & _).
  assert (∀ c0, next_waiter (report_ready c0) = next_waiter c0 ∧ ready_waiters (report_ready c0) = ready_waiters c0) as Hrep
    by (intros c0; unfold report_ready; by case_match).
  destruct (connect _) as [[[]|e] c2]; cbn [snd] in *; destruct (Hrep c2); rewrite !(proj2 (Hrep _)), !(proj1 (Hrep _)).
  - done.
  - pose proof (step_readiness now I_Disconnected c2) as [= -> -> _ _]. done.
Qed.

Lemma subscribe_ready_ok c : ready_inv c → ready_inv (snd (subscribe_ready c)).
Proof.
  intros (Hr & Hs & Hw). split; [done|]. split; [|done]. apply Forall_app_2; [exact Hs|].
  apply Forall_singleton. split; [|cbn; by rewrite Hr].
  intros i x y H1 H2. apply lookup_lt_Some in H2. cbn in H2. lia.
Qed.

Lemma futures_ok_same c c' l :
  ready_waiters c' = ready_waiters c → next_waiter c' = next_waiter c → futures_ok c l → futures_ok c' l.
Proof. unfold futures_ok. by intros -> ->. Qed.

Lemma wait_new_ok c l waker : futures_ok c l → futures_ok c (l ++ [Some (mkFut None waker false false)]).
Proof.
  intros (H0' & H1 & H2 & H3).
  assert (∀ i f, (l ++ [Some (mkFut None waker false false)]) !! i = Some (Some f) →
    l !! i = Some (Some f) ∨ fut_id f = None ∧ fut_polled f = false) as Hl.
  { intros i f Hi. apply lookup_snoc_Some in Hi as [[_ ?]|[_ [= <-]]]; [by left|by right]. }
  split; [done|]. split; [|split].
  - intros i f [Hi|[_ E]]%Hl; [by eapply H1|congruence].
  - intros i f id [Hi|[E _]]%Hl; [by eapply H2|congruence].
  - intros i j f g id [Hi|[E _]]%Hl [Hj|[E' _]]%Hl; [by eapply H3|congruence..].
Qed.

Lemma sys_step_inv_c s s' : sys_inv_c s → sys_step s s' → sys_inv_c s'.
Proof.
  intros [Hr Hf] Hstep. destruct Hstep; try (by split); try (by apply worker_turn_inv_c).
  - destruct (suspend_readiness (core s)) as [E1 E2].
    split; [by apply suspend_ready|by eapply futures_ok_same].
  - destruct (resume_readiness now (core s)) as [E1 E2]. pose proof (resume_ready now _ Hr) as Hr'.
    rewrite H1 in *. split; [done|by eapply futures_ok_same].
  - split; [by apply subscribe_ready_ok|done].
  - split; [done|]. by apply wait_new_ok.
  - by apply poll_future_ok.
  - by apply wait_drop_ok.
Qed.

(** ** Everything reachable *)

Lemma sys_reachable_inv s :
  sys_reachable s → in_memory s ∧ sys_inv_a s ∧ sys_inv_b s ∧ sys_inv_c s.
Proof.
  induction 1 as [s (r & m & -> & Hv & Hm & Hn)|s s' _ (Hmem & Ha & Hb & Hc) Hs Hmem'].
  - split; [unfold in_memory; cbn; rewrite Hv; cbn; by vm_compute|]. split; [|split].
    + split; [intros i Hi; by apply elem_of_nil in Hi|]. right. unfold base, stream, view. cbn. rewrite Hv, Hm. cbn.
      done.
    + split; [|done]. unfold timer_ok. cbn. rewrite Hm. split; [done|by intros [? [=]]].
    + split; [|by split_and!]. unfold ready_inv. cbn. rewrite not_ready by congruence. split; [done|].
      split; [by apply Forall_nil|done].
  - split; [done|]. split; [exact (sys_step_inv_a s s' Hmem Ha Hs)|].
    split; [exact (sys_step_inv_b s s' Hb Hs)|exact (sys_step_inv_c s s' Hc Hs)].
Qed.

(** ** Properties *)

(** C14: As long as no stop of the radio failed, the supervisor never connects a stopped radio
    or one with an association or an attempt under way, in any interleaving of callers, the
    worker, the driver and late events.  Its view of the radio is the driver's, a suspended
    link has its radio stopped, and without a connect in flight there is no association. *)
Theorem supervisor_one_connect (s : System R) :
  sys_reachable s → stop_failed (view (core s)) = false →
  misused (view (core s)) = false ∧ radio_started (core s) = up (view (core s)) ∧
  (state (core s) = S_Suspended → up (view (core s)) = false ∧ is_suspended (core s) = true) ∧
  (live (view (core s)) = true → state (core s) = S_Connecting ∨ state (core s) = S_Connected).
Proof.
  intros (_ & [_ [Hf|[(_ & _ & Hs & Hm) Hp]]] & _)%sys_reachable_inv Hnf; [congruence|].
  split; [done|]. split; [done|]. unfold state, is_suspended. split.
  - intros Hst. rewrite Hst in Hp. destruct Hp as (Hu & _). split; [done|]. unfold state. rewrite Hst, Hs, Hu. done.
  - intros Hl. destruct (link_state (machine (core s))); [exfalso|by left|by right|exfalso..];
      cbn in Hp; destruct_and! Hp; congruence.
Qed.

(** Who moves a link on that is not ready. *)
Definition owed (s : System R) : Prop :=
  match state (core s) with
  | S_Idle | S_Suspended => live (view (core s)) = false
  | S_Connecting | S_Connected =>
      live (view (core s)) = true ∨ E_Disconnected ∈ links (stream (sys_queue s) (core s))
  | S_Backoff =>
      ∃ at_, backoff_at (core s) = Some at_ ∧
        ∀ d, worker s = W_Recv d → d = Some at_ ∨ MsgWake ∈ sys_queue s
  end.

(** C15: The supervisor forgets no reconnect and keeps no stale timer.  As long as no stop
    failed, a link that connects or is connected has its attempt in the driver, or the event
    of its end is on its way and not behind a fence; a link in back-off has its timer armed,
    and the worker either sleeps until exactly that time or has a wake-up queued; in every
    other state no timer is armed. *)
Theorem supervisor_never_stuck (s : System R) :
  sys_reachable s → stop_failed (view (core s)) = false →
  owed s ∧ (state (core s) = S_Backoff ↔ is_Some (backoff_at (core s))).
Proof.
  intros (_ & [_ [Hf|[_ Hp]]] & [Ht Hw] & _)%sys_reachable_inv Hnf; [congruence|]. split; [|exact Ht].
  unfold owed, state in *. unfold timer_ok in Ht. destruct (link_state (machine (core s))).
  - apply Hp.
  - destruct Hp as (_ & [[? _]|(_ & l & -> & _)]); [by left|right]. apply elem_of_app. right. left.
  - destruct Hp as (_ & [[? _]|(_ & l & -> & _)]); [by left|right]. apply elem_of_app. right. left.
  - destruct (proj1 Ht eq_refl) as [at_ E]. exists at_. split; [done|]. intros d Hd.
    destruct (Hw d Hd) as [?|[?|?]]; [congruence|left; congruence|by right].
  - apply Hp.
Qed.

(** Readiness is reported exactly and no waiter is forgotten, whatever the radio does.
    What a sink has been told, from the value its registration returned, alternates and ends
    with the current readiness; while the link is ready every pending [wait_ready] future
    that was polled has been woken since. *)
Lemma readiness_exact (s : System R) :
  sys_reachable s →
  (∀ told, told ∈ ready_sinks (core s) →
     alternates told ∧ last told = Some (is_ready (machine (core s)))) ∧
  (is_ready (machine (core s)) = true →
   ∀ i f, futures s !! i = Some (Some f) → fut_polled f = true → fut_woken f = true).
Proof.
  intros (_ & _ & _ & (Hr & Hs & Hw) & (_ & Hf & _))%sys_reachable_inv. split.
  - intros told Ht. unfold sinks_ok in Hs. rewrite Forall_forall in Hs. rewrite <- Hr. by apply Hs.
  - intros Hrd i f Hi Hp. destruct (fut_woken f) eqn:E; [done|].
    destruct (Hf i f Hi Hp E) as (id & _ & Hin). rewrite (Hw Hrd) in Hin. by apply elem_of_nil in Hin.
Qed.

End props.

(** ** A simulated driver and executable runs *)

(** The driver's state and the outcomes of its next calls; after them every call succeeds. *)
Definition SimRadio : Type := Radio * list bool.

Definition sim_call (ok err : Radio → Radio) (r : SimRadio) : result string unit * SimRadio :=
  match r with
  | (v, false :: script) => (Err "driver error", (err v, script))
  | (v, _ :: script) => (Ok tt, (ok v, script))
  | (v, []) => (Ok tt, (ok v, []))
  end.

Definition sim_disconnect (v : Radio) : Radio :=
  let '(mkRadio u _ l b f) := v in if live v then mkRadio u false (l ++ [E_Disconnected]) b f else v.

#[export] Instance sim_radio : LinkRadio SimRadio := {
  radio_start := sim_call (λ '(mkRadio _ v l b f), mkRadio true v l b f) id;
  radio_connect := sim_call
    (λ '(mkRadio u v l b f), mkRadio u true l (b || v || negb u) f)
    (λ '(mkRadio u v l b f), mkRadio u v l (b || v || negb u) f);
  radio_disconnect := sim_call sim_disconnect id;
  radio_stop := sim_call
    (λ '(mkRadio _ v l b f), mkRadio false false (l ++ (if v then [E_Disconnected] else []) ++ [E_Stopped]) b f)
    (λ '(mkRadio u v l b _), mkRadio u v l b true) }.

#[export] Program Instance sim_radio_laws : LinkRadioLaws SimRadio := { radio_view := fst }.
Next Obligation. intros [[u v l b f] [|[] script]]; done. Qed.
Next Obligation. intros [[u v l b f] [|[] script]]; cbn; intros -> ->; by rewrite ?orb_false_r. Qed.
Next Obligation. intros [[u v l b f] [|[] script]]; done. Qed.
Next Obligation. intros [[u [] l b f] [|[] script]]; cbn; auto. Qed.
Next Obligation.
  intros [[u v l b f] [|[] script]]; cbn; try done;
    exists (if v then [E_Disconnected] else []); (split; [|done]);
    destruct v; [by rewrite list_elem_of_singleton|apply not_elem_of_nil|by rewrite list_elem_of_singleton|apply not_elem_of_nil].
Qed.

(** A step of a run, chosen by name. *)
Inductive Act :=
| Do_start | Do_suspend | Do_resume (now : Z) | Do_subscribe | Do_wait (waker : Z) | Do_poll (i : nat) (waker : Z)
| Do_event (e : LinkEvent) | Do_deliver | Do_top | Do_recv (now : Z) | Do_timeout (now : Z).

(** The driver posts an event, where it may. *)
Definition sim_event (e : LinkEvent) (v : Radio) : option Radio :=
  let '(mkRadio u a l b f) := v in
  match e with
  | E_Connected => if u && a then Some (mkRadio u a (l ++ [e]) b f) else None
  | E_Disconnected => if u && a then Some (mkRadio u false (l ++ [e]) b f) else None
  | E_NetworkUp | E_NetworkDown => Some (mkRadio u a (l ++ [e]) b f)
  | E_Stopped => None
  end.

Definition exec (a : Act) (s : System SimRadio) : option (System SimRadio) :=
  match a with
  | Do_start => Some (mkSys (core s) (sys_queue s ++ [MsgInput I_Start]) (worker s) (futures s))
  | Do_suspend => Some (mkSys (snd (suspend (core s))) (sys_queue s) (worker s) (futures s))
  | Do_resume now =>
      let '(_, woken, c) := resume now (core s) in
      Some (mkSys c (sys_queue s ++ (if woken : bool then [MsgWake] else [])) (worker s) (futures s))
  | Do_subscribe => Some (mkSys (snd (subscribe_ready (core s))) (sys_queue s) (worker s) (futures s))
  | Do_wait waker =>
      Some (mkSys (core s) (sys_queue s) (worker s) (futures s ++ [Some (mkFut None waker false false)]))
  | Do_poll i waker =>
      match futures s !! i with
      | Some (Some f) =>
          if next_waiter (core s) <? u64_max then
            let '(f', c) := poll_future f waker (core s) in
            Some (mkSys c (sys_queue s) (worker s) (<[i := f']> (futures s)))
          else None
      | _ => None
      end
  | Do_event e =>
      v ← sim_event e (fst (radio (core s)));
      Some (mkSys (with_radio (v, snd (radio (core s))) (core s)) (sys_queue s) (worker s) (futures s))
  | Do_deliver =>
      let '(mkRadio u v l b f, script) := radio (core s) in
      match l with
      | e :: l => Some (mkSys (with_radio (mkRadio u v l b f, script) (core s)) (sys_queue s ++ [MsgEvent e])
                         (worker s) (futures s))
      | [] => None
      end
  | Do_top =>
      match worker s with
      | W_Top => Some (mkSys (core s) (sys_queue s) (W_Recv (backoff_at (core s))) (futures s))
      | _ => None
      end
  | Do_recv now =>
      match worker s, sys_queue s with
      | W_Recv _, m :: queue => Some (worker_turn now (Some m) queue s)
      | _, _ => None
      end
  | Do_timeout now =>
      match worker s, sys_queue s with
      | W_Recv (Some at_), [] => if at_ <=? now then Some (worker_turn now None [] s) else None
      | _, _ => None
      end
  end.

Lemma exec_step a s s' : exec a s = Some s' → sys_step s s'.
Proof.
  destruct a; cbn [exec].
  - intros [= <-]. apply st_start.
  - intros [= <-]. apply st_suspend.
  - destruct (resume now (core s)) as [[r woken] c] eqn:E. intros [= <-]. by eapply st_resume.
  - intros [= <-]. apply st_subscribe.
  - intros [= <-]. apply st_wait.
  - destruct (futures s !! i) as [[f|]|] eqn:E; [|done..].
    destruct (Z.ltb_spec (next_waiter (core s)) u64_max) as [Hn|]; [|done].
    pose proof (st_poll s i f waker E Hn) as Hst. destruct (poll_future f waker (core s)) as [f' c].
    by intros [= <-].
  - destruct (sim_event e (fst (radio (core s)))) as [v|] eqn:E; [|done]. intros [= <-]. apply st_driver. cbn.
    destruct (fst (radio (core s))) as [u a l b f]. destruct e; cbn in E; try done.
    1,2: destruct u, a; try done; injection E as <-; constructor.
    all: injection E as <-; constructor; auto.
  - destruct (radio (core s)) as [[u v l b f] script] eqn:E. destruct l as [|e l]; [done|]. intros [= <-].
    apply st_deliver. rewrite E. constructor.
  - destruct (worker s) eqn:E; [|done..]. intros [= <-]. by apply st_top.
  - destruct (worker s) eqn:E; [done| |done]. destruct (sys_queue s) as [|m q] eqn:Eq; [done|]. intros [= <-].
    by eapply st_recv.
  - destruct (worker s) as [|[at_|]|] eqn:E; [done| |done..]. destruct (sys_queue s) eqn:Eq; [|done].
    destruct (Z.leb_spec at_ now); [|done]. intros [= <-]. by eapply st_timeout.
Qed.

Definition in_memory_b (s : System SimRadio) : bool :=
  Z.of_nat (length (sys_queue s)) + Z.of_nat (length (posted (fst (radio (core s))))) <=? u32_max.

Fixpoint run (acts : list Act) (s : System SimRadio) : option (System SimRadio) :=
  match acts with
  | [] => Some s
  | a :: acts => s ← exec a s; if in_memory_b s then run acts s else None
  end.

Lemma run_reachable acts s s' : sys_reachable s → run acts s = Some s' → sys_reachable s'.
Proof.
  revert s. induction acts as [|a acts IH]; intros s Hr; cbn [run]; [by intros [= <-]|].
  destruct (exec a s) as [s1|] eqn:E; [|done]. cbn [mbind option_bind].
  destruct (in_memory_b s1) eqn:Em; [|done]. apply IH. eapply sr_step; [done|by eapply exec_step|].
  by apply Z.leb_le in Em.
Qed.

Definition sim_start (script : list bool) : System SimRadio :=
  mkSys (spawn (mkRadio true false [] false false, script) LinkMachine_new) [] W_Top [].

Lemma sim_start_reachable script : sys_reachable (sim_start script).
Proof. apply sr_init. by exists (mkRadio true false [] false false, script), LinkMachine_new. Qed.

(** A message handled by the worker. *)
Definition handle : list Act := [Do_top; Do_recv 0].

(** A connected link with a waiter; a suspend and a resume at once; the stop's first event. *)
Definition quick_acts : list Act :=
  [Do_subscribe; Do_wait 7; Do_poll 0 7; Do_start] ++ handle ++
  [Do_event E_Connected; Do_deliver] ++ handle ++ [Do_event E_NetworkUp; Do_deliver] ++ handle ++
  [Do_suspend; Do_resume 50; Do_deliver] ++ handle.

Definition quick : System SimRadio := default (sim_start []) (run quick_acts (sim_start [])).

Lemma quick_reachable : sys_reachable quick.
Proof.
  apply (run_reachable quick_acts (sim_start [])); [apply sim_start_reachable|]. vm_compute. reflexivity.
Qed.

Lemma supervisor_one_connect_witness :
  state (core quick) = S_Connecting ∧ live (view (core quick)) = true ∧ misused (view (core quick)) = false.
Proof.
  split; [vm_compute; reflexivity|]. split; [vm_compute; reflexivity|].
  apply (supervisor_one_connect quick); [exact quick_reachable|vm_compute; reflexivity].
Defined.

Lemma supervisor_never_stuck_witness :
  owed quick ∧ (state (core quick) = S_Backoff ↔ is_Some (backoff_at (core quick))).
Proof. apply (supervisor_never_stuck quick); [exact quick_reachable|vm_compute; reflexivity]. Defined.

Lemma readiness_exact_witness :
  ready_sinks (core quick) = [[false; true; false]] ∧
  (∀ told, told ∈ ready_sinks (core quick) →
     alternates told ∧ last told = Some (is_ready (machine (core quick)))) ∧
  (is_ready (machine (core quick)) = true →
   ∀ i f, futures quick !! i = Some (Some f) → fut_polled f = true → fut_woken f = true).
Proof.
  split; [vm_compute; reflexivity|]. apply (readiness_exact quick). exact quick_reachable.
Defined.

(** Without the hypothesis the claim fails: [disconnect] succeeds, [stop] fails and raises no
    fence, the caller resumes, and the queued [E_Disconnected] of the old association sends
    the machine into the back-off while the new attempt is live. *)
Definition failed_stop_acts : list Act :=
  [Do_start] ++ handle ++ [Do_event E_Connected; Do_deliver] ++ handle ++
  [Do_suspend; Do_resume 50; Do_deliver] ++ handle ++ [Do_top; Do_timeout 1000].

Example failed_stop_connects_twice :
  let s := default (sim_start []) (run failed_stop_acts (sim_start [true; true; false])) in
  sys_reachable s ∧ stop_failed (view (core s)) = true ∧ misused (view (core s)) = true.
Proof.
  split; [|split; vm_compute; reflexivity].
  apply (run_reachable failed_stop_acts (sim_start [true; true; false])); [apply sim_start_reachable|].
  vm_compute. reflexivity.
Qed.
