(* ===== verification/WifiHal.v ===== *)
(** * WifiHal: the async station supervisor of the bare-metal tier ([wifi/link.rs] of the
    esp-hal crate, [waker_slots.rs] of juggler)

    [run] is one async task; between two awaits it is one function.  The other tasks of the
    executor, which call [suspend], [resume] and [wait_connected], run at its awaits.  The
    controller and the network stack are third-party: what they report is an argument.
    The theorems: every suspend and resume is honoured and no waiter is forgotten. *)
From S2P Require Import Prelude MqttTopics WifiLink.
Open Scope Z_scope.

(** ** [WakerSlots] *)

(** A waker is its identity; the number of slots is fixed. *)
Definition WakerSlots : Type := list (option Z).

Definition WakerSlots_new (n : nat) : WakerSlots := replicate n None.

Definition slots_register (waker : Z) (w : WakerSlots) : bool * WakerSlots :=
  if bool_decide (Some waker ∈ w) then (true, w)
  else match list_find (λ slot, slot = None) w with
       | Some (i, _) => (true, <[i := Some waker]> w)
       | None => (false, w)
       end.

(** The wakers it wakes, and the freed slots. *)
Definition slots_wake_all (w : WakerSlots) : list Z * WakerSlots :=
  (omap id w, replicate (length w) None).

Definition slots_len (w : WakerSlots) : nat := length (omap id w).

Inductive ReadyPoll := RP_Ready | RP_Waiting | RP_Full.

Definition poll_ready (waker_registered condition_met : bool) : ReadyPoll :=
  if condition_met then RP_Ready else if waker_registered then RP_Waiting else RP_Full.

(** ** [WifiLink] *)

Definition SUSPEND_DISCONNECT_TIMEOUT_MS : Z := 500.
Definition RECHECK_MS : Z := 1000.
Definition NETWORK_POLL_MS : Z := 500.
Definition READY_WAITERS : nat := 4.

(** Where [run] is: before its start, with an action to perform, or in one of its awaits. *)
Inductive RunPc :=
| R_Start | R_Act (action : LinkAction) | R_Connecting | R_Parking (epoch : Z)
| R_Backoff (ms : Z) | R_Linked | R_Idle (st : LinkState).

(** A task in [wait_connected]: about to poll, parked on its waker, woken, or on the timer of
    a full set. *)
Inductive WaiterPc := WP_Poll | WP_Waiting | WP_Woken | WP_Timer.

#[export] Instance WaiterPc_eq_dec : EqDecision WaiterPc.
Proof. solve_decision. Defined.

Record Hal := mkHal {
  handover : LinkHandover; wake_signal : bool; ready_wakers : WakerSlots;
  run_pc : RunPc; waiters : list (option (Z * WaiterPc)) }.

Definition with_handover h s :=
  mkHal h (wake_signal s) (ready_wakers s) (run_pc s) (waiters s).
Definition with_wake b s :=
  mkHal (handover s) b (ready_wakers s) (run_pc s) (waiters s).
Definition with_pc p s :=
  mkHal (handover s) (wake_signal s) (ready_wakers s) p (waiters s).
Definition with_waiters w s :=
  mkHal (handover s) (wake_signal s) (ready_wakers s) (run_pc s) w.

Definition WifiLink_new : Hal := mkHal LinkHandover_new false (WakerSlots_new READY_WAITERS) R_Start [].

Definition hal_state (s : Hal) : LinkState := link_state (ho_machine (handover s)).
Definition hal_is_ready (s : Hal) : bool := is_ready (ho_machine (handover s)).
Definition hal_is_suspended (s : Hal) : bool := ho_is_suspended (handover s).

Definition hal_suspend (s : Hal) : Hal :=
  let '(wake, h) := ho_suspend (handover s) in
  with_wake (wake || wake_signal s) (with_handover h s).

Definition hal_resume (s : Hal) : Hal :=
  let '(wake, h) := ho_resume (handover s) in
  with_wake (wake || wake_signal s) (with_handover h s).

Definition hal_poll (input : LinkInput) (s : Hal) : LinkAction * Hal :=
  let '(action, h) := ho_poll input (handover s) in (action, with_handover h s).

(** What [handed_over] returns once it was woken. *)
Definition handed_over (s : Hal) : LinkAction * Hal :=
  let '(action, h) := ho_take (handover s) in (action, with_wake false (with_handover h s)).

(** Waking the parked waiters. *)
Definition wake_waiters (woken : list Z) (l : list (option (Z * WaiterPc))) : list (option (Z * WaiterPc)) :=
  fmap (M:=list) (fmap (M:=option) (λ '(w, pc),
    (w, if bool_decide (pc = WP_Waiting) && bool_decide (w ∈ woken) then WP_Woken else pc))) l.

Definition report_network (up : bool) (s : Hal) : Hal :=
  if Bool.eqb up (hal_is_ready s) then s
  else
    let s := snd (hal_poll (if up then I_NetworkUp else I_NetworkDown) s) in
    if hal_is_ready s then
      let '(woken, w) := slots_wake_all (ready_wakers s) in
      mkHal (handover s) (wake_signal s) w (run_pc s) (wake_waiters woken (waiters s))
    else s.

(** [link_up]: the association is fed to the machine. *)
Definition link_up (s : Hal) : LinkAction * Hal := hal_poll I_Connected s.

(** The head of [run]; [associated] is what the controller reports. *)
Definition run_start (associated : bool) (s : Hal) : Hal :=
  let s := with_wake false s in
  let '(suspended, h) := ho_restart (handover s) in
  let s := with_handover h s in
  let '(action, s) :=
    if suspended then (A_Disconnect, s)
    else if associated then link_up s
    else hal_poll I_Start s in
  with_pc (R_Act action) s.

(** The [match] on the action, up to the await it leads to. *)
Definition run_act (associated up : bool) (action : LinkAction) (s : Hal) : Hal :=
  match action with
  | A_Connect =>
      if associated then let '(a, s) := hal_poll I_Connected s in with_pc (R_Act a) s
      else with_pc R_Connecting s
  | A_Disconnect => with_pc (R_Parking (begin_park (handover s))) s
  | A_Wait ms => with_pc (R_Backoff ms) s
  | A_None =>
      match hal_state s with
      | S_Connected => with_pc R_Linked (report_network up s)
      | st => with_pc (R_Idle st) s
      end
  end.

(** What ends an await, other than a handover. *)
Inductive RunEvent :=
| Ev_Connect (ok : bool)          (* [connect_async] completed *)
| Ev_Parked                       (* the disconnect finished, failed or gave up *)
| Ev_Timer                        (* the back-off, the poll or the re-check *)
| Ev_Gone.                        (* [wait_for_disconnect_async] completed *)

(** The awaits that take a handover. *)
Definition run_handed (s : Hal) : Hal :=
  match run_pc s with
  | R_Connecting =>
      let '(handed, s) := handed_over s in
      match handed with A_Disconnect => with_pc (R_Act A_Disconnect) s | _ => s end
  | R_Backoff _ | R_Linked =>
      let '(handed, s) := handed_over s in
      match handed with A_None => s | other => with_pc (R_Act other) s end
  | R_Idle _ => let '(handed, s) := handed_over s in with_pc (R_Act handed) s
  | _ => s
  end.

(** The other ends of the awaits. *)
Definition run_event (associated up : bool) (ev : RunEvent) (s : Hal) : option Hal :=
  match run_pc s, ev with
  | R_Connecting, Ev_Connect ok =>
      let '(a, s) := if ok then link_up s else hal_poll I_Disconnected s in
      Some (with_pc (R_Act a) s)
  | R_Parking epoch, Ev_Parked =>
      Some (with_pc (R_Act A_None) (with_handover (end_park epoch (handover s)) s))
  | R_Backoff _, Ev_Timer =>
      let '(a, s) := hal_poll I_BackoffElapsed s in Some (with_pc (R_Act a) s)
  | R_Linked, Ev_Timer => Some (report_network up s)
  | R_Linked, Ev_Gone =>
      let '(a, s) := hal_poll I_Disconnected s in Some (with_pc (R_Act a) s)
  | R_Idle st, Ev_Timer =>
      if decide (st = S_Suspended) then
        if associated then let '(a, s) := link_up s in Some (with_pc (R_Act a) s)
        else Some (with_pc (R_Act A_None) s)
      else
        let s := with_handover (snd (ho_restart (handover s))) s in
        let '(a, s) := hal_poll I_Start s in Some (with_pc (R_Act a) s)
  | _, _ => None
  end.

(** Whether the await also waits for a handover. *)
Definition selects (pc : RunPc) : bool :=
  match pc with R_Connecting | R_Backoff _ | R_Linked | R_Idle _ => true | _ => false end.

(** One poll of a waiter: [None] when it returns.  The code takes two locks, one to register and
    one to read the readiness; they are one step here, so a change of the readiness in between, from
    an executor of higher priority, is left out.  ([HalMqtt] models its twin in two steps.) *)
Definition waiter_poll (waker : Z) (s : Hal) : option WaiterPc * Hal :=
  let '(registered, w) := slots_register waker (ready_wakers s) in
  let s := mkHal (handover s) (wake_signal s) w (run_pc s) (waiters s) in
  (match poll_ready registered (hal_is_ready s) with
   | RP_Ready => None
   | RP_Waiting => Some WP_Waiting
   | RP_Full => Some WP_Timer
   end, s).

(** One step.  An await that selects looks at the handover first; [run] may be cancelled and
    started again. *)
Inductive hal_step : Hal → Hal → Prop :=
| hs_suspend s : suspends (handover s) < u32_max → hal_step s (hal_suspend s)
| hs_resume s : hal_step s (hal_resume s)
| hs_start s associated : run_pc s = R_Start → hal_step s (run_start associated s)
| hs_act s associated up action :
    run_pc s = R_Act action → hal_step s (run_act associated up action s)
| hs_handed s : selects (run_pc s) = true → wake_signal s = true → hal_step s (run_handed s)
| hs_event s associated up ev s' :
    (selects (run_pc s) = true → wake_signal s = false) →
    run_event associated up ev s = Some s' → hal_step s s'
| hs_wait s waker : hal_step s (with_waiters (waiters s ++ [Some (waker, WP_Poll)]) s)
| hs_restart s : hal_step s (with_pc R_Start s)
| hs_poll s i waker pc :
    waiters s !! i = Some (Some (waker, pc)) →
    hal_step s (with_waiters (<[i := pair waker <$> fst (waiter_poll waker s)]> (waiters s))
                  (snd (waiter_poll waker s)))
| hs_cancel s i w :
    waiters s !! i = Some (Some w) → hal_step s (with_waiters (<[i := None]> (waiters s)) s).

Inductive hal_reachable : Hal → Prop :=
| hr_new : hal_reachable WifiLink_new
| hr_step s s' : hal_reachable s → hal_step s s' → hal_reachable s'.

(** ** the async supervisor honours every suspend and resume, and wakes its
    waiters *)

(** ** The supervisor and the machine *)

(** A caller's action is handed over and the task's wake-up is set. *)
Definition asked (a : LinkAction) (s : Hal) : Prop :=
  pending (handover s) = Some a ∧ wake_signal s = true.

(** Who moves the link on from its state. *)
Definition attended (s : Hal) : Prop :=
  run_pc s = R_Start ∨
  match hal_state s with
  | S_Idle => False
  | S_Connecting => asked A_Connect s ∨ run_pc s = R_Act A_Connect ∨ run_pc s = R_Connecting
  | S_Connected => run_pc s = R_Act A_None ∨ run_pc s = R_Linked
  | S_Backoff => ∃ ms, run_pc s = R_Act (A_Wait ms) ∨ run_pc s = R_Backoff ms
  | S_Suspended =>
      asked A_Disconnect s ∨ run_pc s = R_Act A_Disconnect ∨
      run_pc s = R_Parking (suspends (handover s)) ∨
      (parked (handover s) = suspends (handover s) ∧
       (run_pc s = R_Act A_None ∨ run_pc s = R_Idle S_Suspended))
  end.

(** The re-check of a link that is not suspended is never reached. *)
Definition idle_ok (s : Hal) : Prop :=
  ∀ st, run_pc s = R_Idle st → st = S_Suspended ∨ wake_signal s = true.

(** Where [run] may be once the link is suspended. *)
Definition at_rest (pc : RunPc) : bool :=
  match pc with
  | R_Start | R_Act A_None | R_Act A_Disconnect | R_Parking _ | R_Idle _ => true
  | _ => false
  end.

Definition epochs_ok (s : Hal) : Prop :=
  0 ≤ parked (handover s) ≤ suspends (handover s) ∧ suspends (handover s) ≤ u32_max ∧
  (∀ e, run_pc s = R_Parking e → 0 ≤ e ≤ suspends (handover s)) ∧
  (hal_is_suspended s = true → at_rest (run_pc s) = true).

Definition hal_inv (s : Hal) : Prop := attended s ∧ idle_ok s ∧ epochs_ok s.

Lemma suspended_split h :
  ho_is_suspended h = true ↔ link_state (ho_machine h) = S_Suspended ∧ parked h = suspends h.
Proof.
  unfold ho_is_suspended. rewrite andb_true_iff, bool_decide_eq_true, Z.eqb_eq. done.
Qed.

Lemma next_epoch n : 0 ≤ n < u32_max → u32_wrapping_add n 1 = n + 1.
Proof. unfold u32_wrapping_add, u32_wrap, u32_max. intros Hn. apply Z.mod_small. lia. Qed.

(** A suspend in force already changes nothing; any other is handed over. *)
Lemma ho_suspend_cases h :
  (link_state (ho_machine h) = S_Suspended ∧ fst (ho_suspend h) = false ∧
   pending (snd (ho_suspend h)) = pending h ∧ suspends (snd (ho_suspend h)) = suspends h ∧
   parked (snd (ho_suspend h)) = parked h) ∨
  (link_state (ho_machine h) ≠ S_Suspended ∧ fst (ho_suspend h) = true ∧
   pending (snd (ho_suspend h)) = Some A_Disconnect ∧
   suspends (snd (ho_suspend h)) = u32_wrapping_add (suspends h) 1 ∧
   parked (snd (ho_suspend h)) = parked h).
Proof. destruct h as [[[] b mx fa nu n] p su pa]; cbn; auto 10. all: right; by split_and!. Qed.

Lemma ho_suspend_state h : link_state (ho_machine (snd (ho_suspend h))) = S_Suspended.
Proof. by destruct h as [[[] b mx fa nu n] p su pa]. Qed.

Lemma ho_resume_cases h :
  (link_state (ho_machine h) ≠ S_Suspended ∧ fst (ho_resume h) = false ∧
   link_state (ho_machine (snd (ho_resume h))) = link_state (ho_machine h) ∧
   pending (snd (ho_resume h)) = pending h ∧ suspends (snd (ho_resume h)) = suspends h ∧
   parked (snd (ho_resume h)) = parked h) ∨
  (link_state (ho_machine h) = S_Suspended ∧ fst (ho_resume h) = true ∧
   link_state (ho_machine (snd (ho_resume h))) = S_Connecting ∧
   pending (snd (ho_resume h)) = Some A_Connect ∧ suspends (snd (ho_resume h)) = suspends h ∧
   parked (snd (ho_resume h)) = parked h).
Proof. destruct h as [[[] b mx fa nu n] p su pa]; cbn; [left..|right]; by split_and!. Qed.

Lemma hal_suspend_inv s : suspends (handover s) < u32_max → hal_inv s → hal_inv (hal_suspend s).
Proof.
  intros Hlt (Ha & Hi & (Hp & Hm & He & Hr)). unfold hal_suspend.
  pose proof (ho_suspend_state (handover s)) as Hst.
  destruct (ho_suspend_cases (handover s)) as [(E0 & E1 & E2 & E3 & E4)|(E0 & E1 & E2 & E3 & E4)];
    destruct (ho_suspend (handover s)) as [wk h] eqn:E; cbn [fst snd] in *; subst wk; cbn [orb];
    unfold hal_inv, attended, idle_ok, epochs_ok, hal_is_suspended, hal_state, asked in *;
    cbn [handover wake_signal run_pc with_wake with_handover] in *.
  - rewrite suspended_split in Hr. rewrite suspended_split. rewrite Hst, E2, E3, E4. rewrite E0 in Ha. tauto.
  - rewrite suspended_split. rewrite E2, E3, E4, next_epoch by lia. split; [right; rewrite Hst; auto|].
    split; [auto|]. split; [lia|]. split; [lia|]. split; [|lia]. intros e Hpc. pose proof (He e Hpc). lia.
Qed.

Lemma hal_resume_inv s : hal_inv s → hal_inv (hal_resume s).
Proof.
  intros (Ha & Hi & (Hp & Hm & He & Hr)). unfold hal_resume.
  destruct (ho_resume_cases (handover s)) as [(E0 & E1 & E2 & E3 & E4 & E5)|(E0 & E1 & E2 & E3 & E4 & E5)];
    destruct (ho_resume (handover s)) as [wk h] eqn:E; cbn [fst snd] in *; subst wk; cbn [orb];
    unfold hal_inv, attended, idle_ok, epochs_ok, hal_is_suspended, hal_state, asked in *;
    cbn [handover wake_signal run_pc with_wake with_handover] in *.
  - rewrite suspended_split in *. rewrite E2, E3, E4, E5. done.
  - rewrite suspended_split. rewrite E2, E3, E4, E5. split; [right; auto|].
    split; [auto|]. split_and!; try done; try lia. by intros [[=] _].
Qed.

(** ** The runner's own steps *)

(** The fields that [epochs_ok] reads, after a step that leaves the epochs alone. *)
Lemma epochs_ok_step s s' :
  epochs_ok s → suspends (handover s') = suspends (handover s) →
  parked (handover s') = parked (handover s) →
  (∀ e, run_pc s' = R_Parking e → run_pc s = R_Parking e ∨ e = suspends (handover s)) →
  (hal_state s' = S_Suspended → at_rest (run_pc s') = true ∨ (hal_state s = S_Suspended ∧ at_rest (run_pc s) = false)) →
  epochs_ok s'.
Proof.
  intros (Hp & Hm & He & Hr) E1 E2 Hpc Hst. unfold epochs_ok. rewrite E1, E2. split; [done|]. split; [done|].
  split.
  - intros e H. destruct (Hpc e H) as [H'| ->]; [by apply He|lia].
  - unfold hal_is_suspended in *. rewrite suspended_split, E1, E2 in *. intros [H1 H2].
    destruct (Hst H1) as [?|[H3 H4]]; [done|]. by rewrite Hr in H4.
Qed.

Ltac open_hal s :=
  destruct s as [[[st b mx fa nu n] p su pa] wk rw pc ws];
  unfold hal_inv, attended, idle_ok, hal_state, asked in *;
  cbn [handover ho_machine link_state pending suspends parked wake_signal run_pc] in *.

(** Computes a step on a machine whose state is known. *)
Ltac hal_compute := lazy -[epochs_ok u32_wrapping_add backoff_next backoff_reset Z.min Z.add u32_max not].

Lemma run_start_inv s associated : hal_inv s → hal_inv (run_start associated s).
Proof.
  intros (Ha & Hi & He). open_hal s.
  destruct st, associated; hal_compute; (split; [right; auto|]); (split; [by intros ? [=]|]);
    (eapply epochs_ok_step; [exact He|done|done|by intros ? [=]|by left]).
Qed.

Lemma report_network_same up s :
  hal_state (report_network up s) = hal_state s ∧
  pending (handover (report_network up s)) = pending (handover s) ∧
  suspends (handover (report_network up s)) = suspends (handover s) ∧
  parked (handover (report_network up s)) = parked (handover s) ∧
  wake_signal (report_network up s) = wake_signal s ∧ run_pc (report_network up s) = run_pc s.
Proof.
  destruct s as [[[st b mx fa nu n] p su pa] wk rw pc ws]. unfold report_network.
  destruct (Bool.eqb up _); [by split_and!|].
  destruct st, up; hal_compute; by split_and!.
Qed.

Ltac epochs_step He := (eapply epochs_ok_step; [exact He|done|done|by intros ? [=]|try (by left)]).

Lemma run_act_inv s associated up action :
  run_pc s = R_Act action → hal_inv s → hal_inv (run_act associated up action s).
Proof.
  intros Hpc (Ha & Hi & He). destruct action as [| | |ms]; unfold run_act.
  - destruct (decide (hal_state s = S_Connected)) as [Est|Est].
    { rewrite Est. destruct (report_network_same up s) as (E1 & E2 & E3 & E4 & E5 & E6).
      unfold hal_inv, attended, idle_ok, asked. change (hal_state (with_pc _ ?x)) with (hal_state x).
      cbn [handover wake_signal run_pc with_pc]. rewrite E1, Est. split; [auto|]. split; [by intros ? [=]|].
      eapply epochs_ok_step; [exact He|done|done|by intros ? [=]|].
      change (hal_state (with_pc _ ?x)) with (hal_state x). rewrite E1, Est. done. }
    open_hal s. subst pc. destruct Ha as [?|Ha]; [done|].
    destruct st; try done; hal_compute; (split; [right; naive_solver|]);
      (split; [intros ? [= <-]; naive_solver|epochs_step He]).
  - open_hal s. subst pc. destruct Ha as [?|Ha]; [done|].
    destruct associated, st; hal_compute; try done; (split; [right; naive_solver|]);
      (split; [by intros ? [=]|epochs_step He]). all: naive_solver.
  - open_hal s. subst pc. destruct Ha as [?|Ha]; [done|].
    destruct st; hal_compute; try done; (split; [right; naive_solver|]);
      (split; [by intros ? [=]|]); (eapply epochs_ok_step; [exact He|done|done|intros ? [= <-]; by right|by left]).
  - open_hal s. subst pc. destruct Ha as [?|Ha]; [done|].
    destruct st; hal_compute; try done; (split; [right; naive_solver|]);
      (split; [by intros ? [=]|epochs_step He]). all: naive_solver.
Qed.

(** A handover is taken only while it still matches the state. *)
Lemma run_handed_inv s :
  selects (run_pc s) = true → wake_signal s = true → hal_inv s → hal_inv (run_handed s).
Proof.
  intros Hsel Hw (Ha & Hi & He). unfold run_handed. open_hal s. subst wk.
  destruct pc as [|a| |e|ms| |st']; try done; destruct st; hal_compute; try naive_solver;
    destruct p as [[| | |?]|]; hal_compute; try naive_solver;
    (split; [right; naive_solver|]); (split; [first [by intros ? [=] | intros ? [= <-]; naive_solver]|epochs_step He]);
    naive_solver.
Qed.

(** At an await that selects, without a wake-up, the state is the await's own. *)
Lemma awaits_state s :
  hal_inv s → selects (run_pc s) = true → wake_signal s = false →
  match run_pc s with
  | R_Connecting => hal_state s = S_Connecting
  | R_Backoff _ => hal_state s = S_Backoff
  | R_Linked => hal_state s = S_Connected
  | R_Idle st => st = S_Suspended ∧ hal_state s = S_Suspended
  | _ => True
  end.
Proof.
  intros (Ha & Hi & _) Hsel Hw. open_hal s. subst wk.
  destruct pc as [| | | | | |st']; try done; destruct st; try naive_solver.
  all: destruct (Hi st' eq_refl); naive_solver.
Qed.

Lemma run_event_inv s associated up ev s' :
  (selects (run_pc s) = true → wake_signal s = false) →
  run_event associated up ev s = Some s' → hal_inv s → hal_inv s'.
Proof.
  intros Hsel E Hinv. pose proof (λ H, awaits_state s Hinv H (Hsel H)) as Hst.
  destruct Hinv as (Ha & Hi & He). unfold run_event in E.
  destruct (run_pc s) as [| | |epoch|ms| |st] eqn:Hpc, ev as [ok| | |]; try done.
  - specialize (Hst eq_refl). open_hal s. subst pc st.
    destruct ok; [|destruct (backoff_next b) as [ms b'] eqn:Eb];
      [|unfold hal_poll, ho_poll, poll, react in E; cbn -[backoff_next] in E; rewrite Eb in E];
      injection E as <-; hal_compute; (split; [right; eauto|]); (split; [by intros ? [=]|epochs_step He]); done.
  - injection E as <-. destruct He as (Hp & Hm & Hep & Hr). specialize (Hep _ Hpc).
    open_hal s. subst pc. unfold epochs_ok, hal_is_suspended in *. 
    split; [right; destruct st; cbn; naive_solver|]. split; [by intros ? [=]|]. cbn.
    split; [lia|]. split; [lia|]. by split; [intros ? [=]|].
  - specialize (Hst eq_refl). open_hal s. subst pc st. injection E as <-. hal_compute.
    (split; [right; eauto|]); (split; [by intros ? [=]|epochs_step He]).
  - injection E as <-. specialize (Hst eq_refl).
    destruct (report_network_same up s) as (E1 & E2 & E3 & E4 & E5 & E6).
    unfold hal_inv, attended, idle_ok, asked. rewrite E1, Hst, E6, Hpc. split; [auto|]. split; [by intros ? [=]|].
    eapply epochs_ok_step; [exact He|done|done|by rewrite E6, Hpc|]. rewrite E1, Hst. done.
  - specialize (Hst eq_refl). open_hal s. subst pc st. destruct (backoff_next b) as [ms b'] eqn:Eb.
    unfold hal_poll, ho_poll, poll, react in E. cbn -[backoff_next] in E. rewrite Eb in E. injection E as <-.
    hal_compute. (split; [right; eauto|]); (split; [by intros ? [=]|epochs_step He]).
  - destruct (Hst eq_refl) as [-> Hs]. rewrite decide_True in E by done. open_hal s. subst pc st.
    destruct associated; injection E as <-; hal_compute; (split; [right; naive_solver|]);
      (split; [by intros ? [=]|epochs_step He]).
Qed.

Lemma hal_step_inv s s' : hal_step s s' → hal_inv s → hal_inv s'.
Proof.
  intros Hs Hi. destruct Hs.
  - by apply hal_suspend_inv.
  - by apply hal_resume_inv.
  - by apply run_start_inv.
  - by apply run_act_inv.
  - by apply run_handed_inv.
  - by eapply run_event_inv.
  - exact Hi.
  - destruct Hi as (_ & _ & He). split; [by left|]. split; [by intros ? [=]|]. epochs_step He.
  - unfold waiter_poll. destruct (slots_register waker (ready_wakers s)) as [registered w].
    exact Hi.
  - exact Hi.
Qed.

Lemma hal_reachable_inv s : hal_reachable s → hal_inv s.
Proof.
  induction 1 as [|s s' _ IH Hs]; [|by eapply hal_step_inv]. split; [by left|]. split; [by intros ? [=]|].
  split; [done|]. split; [done|]. split; [by intros ? [=]|done].
Qed.

(** ** The waiters *)

Definition network_ok (m : LinkMachine) : Prop := network_up m = true → link_state m = S_Connected.

Lemma poll_network_ok input m : network_ok (snd (poll input m)).
Proof.
  unfold poll, network_ok. destruct (react input m) as [a m']. cbn. by case_decide.
Qed.

(** Only [I_NetworkUp] makes a machine ready. *)
Lemma poll_not_ready input m :
  network_ok m → input ≠ I_NetworkUp → is_ready (snd (poll input m)) = true → is_ready m = true.
Proof.
  intros Hn Hi. unfold poll, react, is_ready. destruct m as [st b mx fa nu n].
  unfold network_ok in Hn. cbn in Hn. destruct (backoff_next b) as [ms b'].
  destruct st, input; try done; lazy -[u32_wrapping_add backoff_reset]; destruct nu; try done; by specialize (Hn eq_refl).
Qed.

(** A parked waiter is registered, and the link is not ready. *)
Definition waiters_ok (s : Hal) : Prop :=
  network_ok (ho_machine (handover s)) ∧
  ∀ i w, waiters s !! i = Some (Some (w, WP_Waiting)) →
    Some w ∈ ready_wakers s ∧ hal_is_ready s = false.

Lemma waiters_ok_keep s s' :
  waiters_ok s → waiters s' = waiters s → ready_wakers s' = ready_wakers s →
  network_ok (ho_machine (handover s')) → (hal_is_ready s' = true → hal_is_ready s = true) → waiters_ok s'.
Proof.
  intros [_ Hw] E1 E2 Hn Hr. split; [done|]. intros i w Hi. rewrite E1 in Hi. rewrite E2.
  destruct (Hw i w Hi) as [? Hf]. split; [done|]. destruct (hal_is_ready s'); [|done]. by rewrite Hr in Hf.
Qed.

(** Steps that feed the machine one input, or none. *)
Lemma waiters_ok_poll s s' input :
  waiters_ok s → input ≠ I_NetworkUp → waiters s' = waiters s → ready_wakers s' = ready_wakers s →
  ho_machine (handover s') = ho_machine (handover s) ∨
  ho_machine (handover s') = snd (poll input (ho_machine (handover s))) →
  waiters_ok s'.
Proof.
  intros Hs Hi E1 E2 Hm. eapply waiters_ok_keep; [exact Hs|done|done|..]; unfold hal_is_ready;
    destruct Hm as [-> | ->].
  - apply Hs.
  - apply poll_network_ok.
  - done.
  - intros H. eapply poll_not_ready; [apply Hs|done|exact H].
Qed.

Lemma hal_poll_machine input s :
  ho_machine (handover (snd (hal_poll input s))) = snd (poll input (ho_machine (handover s))) ∧
  waiters (snd (hal_poll input s)) = waiters s ∧ ready_wakers (snd (hal_poll input s)) = ready_wakers s.
Proof. unfold hal_poll, ho_poll. by destruct (poll input (ho_machine (handover s))). Qed.

Lemma slots_woken w l : Some w ∈ l → w ∈ fst (slots_wake_all l).
Proof. intros H. apply list_elem_of_omap. by exists (Some w). Qed.

Lemma wake_waiters_lookup woken l i w :
  wake_waiters woken l !! i = Some (Some (w, WP_Waiting)) →
  l !! i = Some (Some (w, WP_Waiting)) ∧ w ∉ woken.
Proof.
  unfold wake_waiters. rewrite list_lookup_fmap. destruct (l !! i) as [[[w' pc]|]|]; cbn; [|done..].
  intros [= <- E]. destruct (bool_decide (pc = WP_Waiting)) eqn:Epc; cbn in E.
  - destruct (bool_decide (w' ∈ woken)) eqn:Ew; [done|]. subst pc.
    split; [done|]. by apply bool_decide_eq_false in Ew.
  - subst pc. by rewrite bool_decide_eq_true_2 in Epc.
Qed.

Lemma report_network_waiters up s : waiters_ok s → waiters_ok (report_network up s).
Proof.
  intros Hs. unfold report_network. destruct (Bool.eqb up (hal_is_ready s)); [done|].
  set (input := if up then I_NetworkUp else I_NetworkDown).
  destruct (hal_poll_machine input s) as (E1 & E2 & E3). set (s1 := snd (hal_poll input s)) in *. cbv zeta.
  destruct (hal_is_ready s1) eqn:Er.
  - destruct (slots_wake_all (ready_wakers s1)) as [woken w] eqn:Ew. split.
    { cbn. rewrite E1. apply poll_network_ok. }
    intros i k [Hi Hk]%wake_waiters_lookup. rewrite E2 in Hi. destruct Hs as [_ Hs].
    destruct (Hs i k Hi) as [Hin _]. exfalso. apply Hk. rewrite <- E3 in Hin.
    apply slots_woken in Hin. by rewrite Ew in Hin.
  - eapply waiters_ok_keep; [exact Hs|done|done| |by rewrite Er]. rewrite E1. apply poll_network_ok.
Qed.

Lemma waiters_ok_same s s' :
  waiters_ok s → waiters s' = waiters s → ready_wakers s' = ready_wakers s →
  ho_machine (handover s') = ho_machine (handover s) → waiters_ok s'.
Proof. intros Hs E1 E2 E3. eapply (waiters_ok_poll s s' I_Start); auto. Qed.

Lemma restart_not_ready m : network_ok (restart m) ∧ is_ready (restart m) = false.
Proof. done. Qed.

Lemma ho_restart_waiters s : waiters_ok s → waiters_ok (with_handover (snd (ho_restart (handover s))) s).
Proof.
  intros Hs. eapply waiters_ok_keep; [exact Hs|done|done|..]; unfold ho_restart, hal_is_ready;
    cbn [fst snd ho_machine handover with_handover]; destruct (bool_decide _).
  - apply poll_network_ok.
  - done.
  - intros H. apply poll_not_ready in H; done.
  - done.
Qed.

Lemma hal_poll_waiters input s : input ≠ I_NetworkUp → waiters_ok s → waiters_ok (snd (hal_poll input s)).
Proof. intros Hi Hs. destruct (hal_poll_machine input s) as (E1 & E2 & E3). by eapply waiters_ok_poll; eauto. Qed.

Lemma run_act_waiters s associated up action : waiters_ok s → waiters_ok (run_act associated up action s).
Proof.
  intros Hs. destruct action; unfold run_act; try exact Hs.
  - destruct (hal_state s); try exact Hs. exact (report_network_waiters up s Hs).
  - destruct associated; [|exact Hs].
    pose proof (hal_poll_waiters I_Connected s ltac:(done) Hs) as Hp.
    destruct (hal_poll I_Connected s) as [a s']. exact Hp.
Qed.

Lemma run_start_waiters s associated : waiters_ok s → waiters_ok (run_start associated s).
Proof.
  intros Hs. unfold run_start. pose proof (ho_restart_waiters (with_wake false s) Hs) as Hr.
  destruct (ho_restart (handover (with_wake false s))) as [suspended h]. cbn [snd] in Hr.
  destruct suspended; [exact Hr|]. destruct associated; unfold link_up.
  - pose proof (hal_poll_waiters I_Connected _ ltac:(done) Hr) as Hp. by destruct (hal_poll _ _).
  - pose proof (hal_poll_waiters I_Start _ ltac:(done) Hr) as Hp. by destruct (hal_poll _ _).
Qed.

Lemma run_handed_waiters s : waiters_ok s → waiters_ok (run_handed s).
Proof.
  intros Hs. unfold run_handed, handed_over, ho_take.
  destruct (run_pc s); try exact Hs; destruct (pending (handover s)) as [[]|], (link_state (ho_machine (handover s))); exact Hs.
Qed.

Lemma run_event_waiters s associated up ev s' :
  waiters_ok s → run_event associated up ev s = Some s' → waiters_ok s'.
Proof.
  intros Hs. assert (∀ input, input ≠ I_NetworkUp → ∀ s0, waiters_ok s0 →
    waiters_ok (let '(a, s) := hal_poll input s0 in with_pc (R_Act a) s)) as Hpoll.
  { intros input Hi s0 Hs0. pose proof (hal_poll_waiters input s0 Hi Hs0) as Hp. by destruct (hal_poll input s0). }
  assert (∀ input, input ≠ I_NetworkUp → ∀ s0, waiters_ok s0 →
    (let '(a, s) := hal_poll input s0 in Some (with_pc (R_Act a) s)) = Some s' → waiters_ok s') as Hpoll'.
  { intros input Hi s0 Hs0 E. specialize (Hpoll input Hi s0 Hs0). destruct (hal_poll input s0). by injection E as <-. }
  unfold run_event, link_up. destruct (run_pc s), ev as [[]| | |]; try done; try (by apply Hpoll').
  - intros [= <-]. exact Hs.
  - intros [= <-]. by apply report_network_waiters.
  - case_decide; [destruct associated; [by apply Hpoll'|by intros [= <-]]|].
    apply Hpoll'; [done|]. by apply ho_restart_waiters.
Qed.

(** A waiter's own poll registers it before it looks. *)
Lemma waiter_poll_ok s i waker pc :
  waiters_ok s → waiters s !! i = Some (Some (waker, pc)) →
  waiters_ok (with_waiters (<[i := pair waker <$> fst (waiter_poll waker s)]> (waiters s)) (snd (waiter_poll waker s))).
Proof.
  intros [Hn Hs] Hi. unfold waiter_poll. destruct (slots_register waker (ready_wakers s)) as [registered w] eqn:Er.
  assert (∀ k, Some k ∈ ready_wakers s → Some k ∈ w) as Hkeep.
  { intros k Hk. unfold WakerSlots in *. unfold slots_register in Er. case_bool_decide; [by injection Er as _ <-|].
    destruct (list_find _ _) as [[j x]|] eqn:Ef; [|by injection Er as _ <-]. injection Er as _ <-.
    apply list_find_Some in Ef as (Hj & -> & _). apply list_elem_of_lookup in Hk as [n Hk].
    apply list_elem_of_lookup. exists n. rewrite (list_lookup_insert_ne (A := option Z)); [done|]. intros ->. congruence. }
  assert (registered = true → Some waker ∈ w) as Hreg.
  { intros ->. unfold slots_register in Er. case_bool_decide; [by injection Er as <-|].
    destruct (list_find _ _) as [[j x]|] eqn:Ef; [|done]. injection Er as <-.
    apply list_find_Some in Ef as (Hj & _). apply list_elem_of_lookup. exists j.
    apply list_lookup_insert_eq. by eapply lookup_lt_Some. }
  split; [exact Hn|]. cbn [fst snd]. intros j k Hj. cbn in Hj.
  change (hal_is_ready _) with (hal_is_ready s) in *. cbn [ready_wakers with_waiters].
  apply list_lookup_insert_Some in Hj as [(-> & Hj & _)|[_ Hj]].
  - unfold poll_ready in Hj. destruct (hal_is_ready s) eqn:E, registered; try done.
    injection Hj as ->. split; [by apply Hreg|done].
  - destruct (Hs j k Hj) as [? ?]. auto.
Qed.

Lemma hal_step_waiters s s' : hal_step s s' → waiters_ok s → waiters_ok s'.
Proof.
  intros Hst Hs. destruct Hst.
  - unfold hal_suspend, ho_suspend. destruct (poll I_Suspend (ho_machine (handover s))) as [a m] eqn:Ep.
    assert (m = snd (poll I_Suspend (ho_machine (handover s)))) as Em by (by rewrite Ep).
    case_decide; (eapply (waiters_ok_poll s _ I_Suspend); [exact Hs|done|done|done|by right]).
  - unfold hal_resume, ho_resume. destruct (poll I_Resume (ho_machine (handover s))) as [a m] eqn:Ep.
    assert (m = snd (poll I_Resume (ho_machine (handover s)))) as Em by (by rewrite Ep).
    case_decide; (eapply (waiters_ok_poll s _ I_Resume); [exact Hs|done|done|done|by right]).
  - by apply run_start_waiters.
  - by apply run_act_waiters.
  - by apply run_handed_waiters.
  - by eapply run_event_waiters.
  - destruct Hs as [Hn Hs]. split; [exact Hn|]. intros i w Hi. cbn in Hi.
    apply lookup_snoc_Some in Hi as [[_ Hi]|[_ [=]]]. by apply (Hs i w).
  - exact Hs.
  - by eapply waiter_poll_ok.
  - destruct Hs as [Hn Hs]. split; [exact Hn|]. intros j k Hj. cbn in Hj.
    apply list_lookup_insert_Some in Hj as [(_ & [=] & _)|[_ Hj]]. by apply (Hs j k).
Qed.

Lemma hal_reachable_waiters s : hal_reachable s → waiters_ok s.
Proof.
  induction 1 as [|s s' _ IH Hs]; [|by eapply hal_step_waiters]. split; [done|]. intros i w Hi. done.
Qed.

(** ** Properties *)

(** C22: The async supervisor honours the latest [suspend] or [resume] and never stalls.
    However callers, the controller and timers interleave, a started supervisor whose link is
    in a state is doing what the state asks for - connecting, watching the link, waiting out
    the back-off, taking the station down - or the caller's action is handed over with the
    wake-up set; the re-check that would restart it is never reached; once [is_suspended]
    holds nothing connects; and while the link is ready no waiter sleeps on its waker. *)
Theorem hal_link_attended s :
  hal_reachable s →
  attended s ∧
  (∀ st, run_pc s = R_Idle st → wake_signal s = false → st = S_Suspended ∧ hal_state s = S_Suspended) ∧
  (hal_is_suspended s = true → at_rest (run_pc s) = true) ∧
  (hal_is_ready s = true → ∀ i w, waiters s !! i ≠ Some (Some (w, WP_Waiting))).
Proof.
  intros Hr. pose proof (hal_reachable_inv s Hr) as Hi. pose proof (hal_reachable_waiters s Hr) as [_ Hw].
  split; [apply Hi|]. split; [|split].
  - intros st Hpc Hwk. pose proof (awaits_state s Hi) as Ha. rewrite Hpc in Ha. by apply Ha.
  - apply Hi.
  - intros Hrd i w Hiw. destruct (Hw i w Hiw) as [_ Hn]. congruence.
Qed.

(** A resume right behind a suspend, while the link is up and a waiter sleeps. *)
Definition hal_linked : Hal := run_act true true A_None (run_start true WifiLink_new).
Definition hal_bounced : Hal := hal_resume (hal_suspend hal_linked).

Lemma hal_bounced_reachable : hal_reachable hal_bounced.
Proof.
  do 2 (eapply hr_step; [|constructor; try (by vm_compute)]).
  eapply hr_step; [|by apply (hs_act (run_start true WifiLink_new) true true A_None)].
  eapply hr_step; [apply hr_new|by apply (hs_start WifiLink_new true)].
Qed.

Lemma hal_link_attended_witness :
  hal_state hal_bounced = S_Connecting ∧ run_pc hal_bounced = R_Linked ∧ attended hal_bounced.
Proof.
  split; [vm_compute; reflexivity|]. split; [vm_compute; reflexivity|].
  apply (hal_link_attended hal_bounced). exact hal_bounced_reachable.
Defined.
