(* ===== verification/ProvKv.v ===== *)
(** * ProvKv: the key-value store of the provisioning record ([provisioning/kv_store.rs])

    [ProvisioningKv] is the trait as a class; its laws state the trait's contract against the
    durable content.  An [anyhow] error is the key it names, or what is wrong. *)
From Stdlib Require Import Ascii.
From S2P Require Import Prelude Text ProvConfig ProvForm.
Open Scope Z_scope.

Definition NVS_NAMESPACE : string := "rf_prov".
Definition SCHEMA_VERSION : Z := 2.
Definition KEY_SCHEMA_VER : string := "schema_ver".
Definition KEY_PROFILE : string := "profile".
Definition KEY_WIFI_SSID : string := "wifi_ssid".
Definition KEY_WIFI_PASS : string := "wifi_pass".
Definition KEY_DEV_EUI : string := "lora_dev_eui".
Definition KEY_JOIN_EUI : string := "lora_join_eui".
Definition KEY_APP_KEY : string := "lora_app_key".
Definition KEY_MQTT_HOST : string := "mqtt_host".
Definition KEY_MQTT_PORT : string := "mqtt_port".
Definition KEY_MQTT_USER : string := "mqtt_user".
Definition KEY_MQTT_PASS : string := "mqtt_pass".
Definition KEY_MQTT_CLIENT : string := "mqtt_client".
Definition KEY_OTA_URL : string := "ota_url".
Definition KEY_DEV_NAME : string := "dev_name".
Definition KEY_EXTRAS_IDX : string := "extras_idx".

Definition CANONICAL_KEYS : list string :=
  [KEY_PROFILE; KEY_WIFI_SSID; KEY_WIFI_PASS; KEY_DEV_EUI; KEY_JOIN_EUI; KEY_APP_KEY;
   KEY_MQTT_HOST; KEY_MQTT_PORT; KEY_MQTT_USER; KEY_MQTT_PASS; KEY_MQTT_CLIENT; KEY_OTA_URL;
   KEY_DEV_NAME].

Definition EXTRAS_IDX_MAX : Z := 256.

(** ** The backend *)

Class ProvisioningKv (K : Type) := {
  kv_get_u8 : string → M K string (option Z);
  kv_set_u8 : string → Z → M K string unit;
  kv_get_str : string → M K string (option string);
  kv_set_str : string → string → M K string unit;
  kv_remove : string → M K string unit }.

Inductive KvValue := KvU8 (n : Z) | KvStr (s : string).

#[export] Instance KvValue_eq_dec : EqDecision KvValue.
Proof. solve_decision. Defined.

Abbreviation kv_content := (gmap string KvValue).

Definition value_u8 (v : option KvValue) : option Z := match v with Some (KvU8 n) => Some n | _ => None end.
Definition value_str (v : option KvValue) : option string := match v with Some (KvStr s) => Some s | _ => None end.

(** A read answers the content or fails; a write that succeeds is done, and one that fails
    may leave anything under its key, and nothing else; a [healthy] backend does not fail. *)
Definition only_changes (key : string) (m m' : kv_content) : Prop := ∀ k, k ≠ key → m' !! k = m !! k.

Class ProvisioningKvLaws (K : Type) `{ProvisioningKv K} := {
  content : K → kv_content;
  healthy : K → Prop;
  get_u8_law k s :
    content (snd (kv_get_u8 k s)) = content s ∧
    (∀ o, fst (kv_get_u8 k s) = Ok o → o = value_u8 (content s !! k)) ∧
    (healthy s → healthy (snd (kv_get_u8 k s)) ∧ is_Some (result_ok (fst (kv_get_u8 k s))));
  get_str_law k s :
    content (snd (kv_get_str k s)) = content s ∧
    (∀ o, fst (kv_get_str k s) = Ok o → o = value_str (content s !! k)) ∧
    (healthy s → healthy (snd (kv_get_str k s)) ∧ is_Some (result_ok (fst (kv_get_str k s))));
  set_u8_law k n s :
    only_changes k (content s) (content (snd (kv_set_u8 k n s))) ∧
    (fst (kv_set_u8 k n s) = Ok tt → content (snd (kv_set_u8 k n s)) = <[k := KvU8 n]> (content s)) ∧
    (healthy s → healthy (snd (kv_set_u8 k n s)) ∧ fst (kv_set_u8 k n s) = Ok tt);
  set_str_law k v s :
    only_changes k (content s) (content (snd (kv_set_str k v s))) ∧
    (fst (kv_set_str k v s) = Ok tt → content (snd (kv_set_str k v s)) = <[k := KvStr v]> (content s)) ∧
    (healthy s → healthy (snd (kv_set_str k v s)) ∧ fst (kv_set_str k v s) = Ok tt);
  remove_law k s :
    only_changes k (content s) (content (snd (kv_remove k s))) ∧
    (fst (kv_remove k s) = Ok tt → content (snd (kv_remove k s)) = delete k (content s)) ∧
    (healthy s → healthy (snd (kv_remove k s)) ∧ fst (kv_remove k s) = Ok tt) }.

(** ** [KvProvisioningStore] *)

Inductive KvStoreError :=
| KE_Backend (key : string) | KE_UnknownProfile (s : string) | KE_PortAbsent | KE_PortInvalid
| KE_TooLong (key : string) | KE_TooManyExtras (n : nat) | KE_IndexTooLarge (n : Z)
| KE_MissingGroup.

#[export] Instance KvStoreError_eq_dec : EqDecision KvStoreError.
Proof. solve_decision. Defined.

Section store.
  Context {K : Type} `{ProvisioningKv K}.
  Local Abbreviation MK := (M K KvStoreError).

(** [with_context]: the backend's error under the key. *)
Definition named {A} (key : string) (m : M K string A) : MK A :=
  λ s, let '(r, s) := m s in (map_err (λ _, KE_Backend key) r, s).

(** [let _ = ..]. *)
Definition best_effort (m : M K string unit) : MK unit := λ s, (Ok tt, snd (m s)).

Definition read_str (key : string) : MK (option string) := named key (kv_get_str key).
Definition set_str (key value : string) : MK unit := named key (kv_set_str key value).

Definition capped (cap : Z) (key value : string) : MK string :=
  if cap <? str_len value then throw (KE_TooLong key) else mret value.

Definition read_capped (cap : Z) (key : string) : MK string :=
  o ← read_str key; capped cap key (default "" o).

Definition read_capped_opt (cap : Z) (key : string) : MK (option string) :=
  o ← read_str key;
  match o with
  | Some v => v ← capped cap key v; mret (Some v)
  | None => mret None
  end.

Definition extra_nvs_key (name : string) : string := "x_" +:+ name.

Definition extra_names : MK (list string) :=
  o ← read_str KEY_EXTRAS_IDX;
  mret (match o with
        | Some idx => if decide (idx = "") then [] else split "," idx
        | None => []
        end).

Definition is_provisioned : MK bool :=
  schema ← named KEY_SCHEMA_VER (kv_get_u8 KEY_SCHEMA_VER);
  match schema with
  | None => mret false
  | Some _ => o ← read_str KEY_WIFI_SSID; mret (bool_decide (is_Some o))
  end.

Definition load_profile : MK SchemaProfile :=
  o ← read_str KEY_PROFILE;
  match o with
  | Some s => match SchemaProfile_from_nvs_str s with
              | Some p => mret p
              | None => throw (KE_UnknownProfile s)
              end
  | None => mret LorawanFieldDevice
  end.

Definition load_lora : MK LoraFields :=
  dev ← read_capped EUI_HEX_LEN KEY_DEV_EUI;
  join ← read_capped EUI_HEX_LEN KEY_JOIN_EUI;
  key ← read_capped APP_KEY_HEX_LEN KEY_APP_KEY;
  mret (mkLora dev join key).

Definition load_mqtt : MK MqttFields :=
  host ← read_capped MQTT_HOST_MAX_LEN KEY_MQTT_HOST;
  port_str ← read_str KEY_MQTT_PORT;
  match port_str with
  | None => throw KE_PortAbsent
  | Some port_str =>
      match parse_u16 port_str with
      | None => throw KE_PortInvalid
      | Some port =>
          user ← read_capped_opt MQTT_USER_MAX_LEN KEY_MQTT_USER;
          pass ← read_capped_opt MQTT_PASS_MAX_LEN KEY_MQTT_PASS;
          client ← read_capped_opt MQTT_CLIENT_ID_MAX_LEN KEY_MQTT_CLIENT;
          mret (mkMqtt host port user pass client)
      end
  end.

Fixpoint load_extras (names : list string) : MK (list ExtraField) :=
  match names with
  | [] => mret []
  | name :: names =>
      o ← read_str (extra_nvs_key name);
      match o with
      | Some value =>
          key ← capped EXTRA_KEY_MAX_LEN KEY_EXTRAS_IDX name;
          value ← capped EXTRA_VALUE_MAX_LEN (extra_nvs_key name) value;
          rest ← load_extras names;
          mret (mkExtra key value :: rest)
      | None => load_extras names
      end
  end.

Definition load : MK (option ProvisioningConfig) :=
  provisioned ← is_provisioned;
  if (negb provisioned : bool) then mret None
  else
    profile ← load_profile;
    ssid ← read_capped SSID_MAX_LEN KEY_WIFI_SSID;
    pass ← read_capped PASSWORD_MAX_LEN KEY_WIFI_PASS;
    ota ← read_capped OTA_URL_MAX_LEN KEY_OTA_URL;
    name ← read_capped DEVICE_NAME_MAX_LEN KEY_DEV_NAME;
    groups ← match profile with
             | LorawanFieldDevice => l ← load_lora; mret (Some l, None)
             | WifiMqttDevice => m ← load_mqtt; mret (None, Some m)
             end;
    names ← extra_names;
    extras ← load_extras names;
    if (EXTRA_FIELDS_MAX <? length extras)%nat then throw (KE_TooManyExtras (length extras))
    else mret (Some (mkConfig ssid pass ota name (fst groups) (snd groups) (take EXTRA_FIELDS_MAX extras))).

Definition set_or_remove (key : string) (value : option string) : MK unit :=
  match value with
  | Some v => set_str key v
  | None => best_effort (kv_remove key)
  end.

Definition remove_keys (keys : list string) : MK unit := for_each keys (λ key, best_effort (kv_remove key)).

Definition remove_lora_keys : MK unit := remove_keys [KEY_DEV_EUI; KEY_JOIN_EUI; KEY_APP_KEY].

Definition remove_mqtt_keys : MK unit :=
  remove_keys [KEY_MQTT_HOST; KEY_MQTT_PORT; KEY_MQTT_USER; KEY_MQTT_PASS; KEY_MQTT_CLIENT].

Definition write_profile_group (c : ProvisioningConfig) : MK unit :=
  match config_profile c with
  | LorawanFieldDevice =>
      match lora c with
      | None => throw KE_MissingGroup
      | Some l =>
          _ ← set_str KEY_DEV_EUI (dev_eui_hex l);
          _ ← set_str KEY_JOIN_EUI (join_eui_hex l);
          _ ← set_str KEY_APP_KEY (app_key_hex l);
          remove_mqtt_keys
      end
  | WifiMqttDevice =>
      match mqtt c with
      | None => throw KE_MissingGroup
      | Some m =>
          _ ← set_str KEY_MQTT_HOST (mqtt_host m);
          _ ← set_str KEY_MQTT_PORT (show_uint (mqtt_port m));
          _ ← set_or_remove KEY_MQTT_USER (mqtt_username m);
          _ ← set_or_remove KEY_MQTT_PASS (mqtt_password m);
          _ ← set_or_remove KEY_MQTT_CLIENT (mqtt_client_id m);
          remove_lora_keys
      end
  end.

(** The index of the extras: their names, joined with commas. *)
Fixpoint join_names (names : list string) : string :=
  match names with
  | [] => ""
  | [name] => name
  | name :: names => name +:+ String "," (join_names names)
  end.

Definition remove_stale (c : ProvisioningConfig) (previous : list string) : MK unit :=
  for_each previous (λ name,
    if existsb (λ e, bool_decide (extra_key e = name)) (extras c) then mret tt
    else best_effort (kv_remove (extra_nvs_key name))).

Definition save (c : ProvisioningConfig) : MK unit :=
  r ← catch extra_names;
  let previous := match r with Ok l => l | Err _ => [] end in
  _ ← set_str KEY_WIFI_SSID (wifi_ssid c);
  _ ← set_str KEY_WIFI_PASS (wifi_password c);
  _ ← set_str KEY_OTA_URL (default "" (config_ota_url c));
  _ ← set_str KEY_DEV_NAME (device_name c);
  _ ← write_profile_group c;
  _ ← for_each (extras c) (λ e, set_str (extra_nvs_key (extra_key e)) (extra_value e));
  let index := join_names (extra_key <$> extras c) in
  _ ← (if EXTRAS_IDX_MAX <? str_len index then throw (KE_IndexTooLarge (str_len index)) else mret tt);
  _ ← remove_stale c previous;
  _ ← set_str KEY_EXTRAS_IDX index;
  _ ← set_str KEY_PROFILE (SchemaProfile_as_str (config_profile c));
  named KEY_SCHEMA_VER (kv_set_u8 KEY_SCHEMA_VER SCHEMA_VERSION).

Definition erase_all : MK unit :=
  _ ← best_effort (kv_remove KEY_SCHEMA_VER);
  r ← catch extra_names;
  _ ← remove_keys (extra_nvs_key <$> match r with Ok l => l | Err _ => [] end);
  _ ← best_effort (kv_remove KEY_EXTRAS_IDX);
  remove_keys CANONICAL_KEYS.

End store.
