(* ===== verification/ProvKvProps.v ===== *)
(** * ProvKvProps: the key-value record store as a register, and its commit under faults *)
From Stdlib Require Import Ascii.
From S2P Require Import Prelude Text Version ProvConfig ProvForm ProvKv.
Open Scope Z_scope.

(** ** The ideal backend: the content itself *)

#[export] Instance ideal_kv : ProvisioningKv kv_content := {
  kv_get_u8 k m := (Ok (value_u8 (m !! k)), m);
  kv_set_u8 k n m := (Ok tt, <[k := KvU8 n]> m);
  kv_get_str k m := (Ok (value_str (m !! k)), m);
  kv_set_str k v m := (Ok tt, <[k := KvStr v]> m);
  kv_remove k m := (Ok tt, delete k m) }.

(** ** A scripted backend *)

(** [Some done] makes the next operation fail; a write then happens if [done]. *)
Record ScriptKv := mkScript { script : list (option bool); stored : kv_content }.

Definition scripted {A} (read : kv_content → A) (write : kv_content → kv_content) : M ScriptKv string A :=
  λ s, match script s with
       | [] => (Ok (read (stored s)), mkScript [] (write (stored s)))
       | None :: rest => (Ok (read (stored s)), mkScript rest (write (stored s)))
       | Some done :: rest => (Err "injected", mkScript rest (if done then write (stored s) else stored s))
       end.

#[export] Instance script_kv : ProvisioningKv ScriptKv := {
  kv_get_u8 k := scripted (λ m, value_u8 (m !! k)) id;
  kv_set_u8 k n := scripted (λ _, tt) (insert k (KvU8 n));
  kv_get_str k := scripted (λ m, value_str (m !! k)) id;
  kv_set_str k v := scripted (λ _, tt) (insert k (KvStr v));
  kv_remove k := scripted (λ _, tt) (delete k) }.

Definition no_faults (s : ScriptKv) : Prop := Forall (λ x, x = None) (script s).

Lemma scripted_read {A} (read : kv_content → A) s :
  let r := scripted read id s in
  stored (snd r) = stored s ∧ (∀ o, fst r = Ok o → o = read (stored s)) ∧
  (no_faults s → no_faults (snd r) ∧ is_Some (result_ok (fst r))).
Proof.
  destruct s as [[|[[]|] rest] m]; unfold no_faults, scripted; cbn; split_and!; intros; simplify_eq; eauto.
  all: by match goal with H : Forall _ (_ :: _) |- _ => inversion H; subst end.
Qed.

Lemma scripted_write k write s :
  (∀ m, only_changes k m (write m)) →
  let r := scripted (λ _, tt) write s in
  only_changes k (stored s) (stored (snd r)) ∧ (fst r = Ok tt → stored (snd r) = write (stored s)) ∧
  (no_faults s → no_faults (snd r) ∧ fst r = Ok tt).
Proof.
  intros Hw. assert (∀ m, only_changes k m m) as Hid by done.
  destruct s as [[|[[]|] rest] m]; unfold no_faults, scripted; cbn; split_and!; intros; simplify_eq; eauto.
  all: by match goal with H : Forall _ (_ :: _) |- _ => inversion H; subst end.
Qed.

Lemma only_changes_insert k v m : only_changes k m (<[k := v]> m).
Proof. intros k' Hk. by apply lookup_insert_ne. Qed.

Lemma only_changes_delete k m : only_changes k m (delete k m).
Proof. intros k' Hk. by apply lookup_delete_ne. Qed.

#[export] Instance script_kv_laws : ProvisioningKvLaws ScriptKv := {
  content := stored; healthy := no_faults;
  get_u8_law k s := scripted_read _ s;
  get_str_law k s := scripted_read _ s;
  set_u8_law k n s := scripted_write k _ s (only_changes_insert k _);
  set_str_law k v s := scripted_write k _ s (only_changes_insert k _);
  remove_law k s := scripted_write k _ s (only_changes_delete k) }.

(** ** A healthy backend behaves as the ideal one *)

Section sim.
  Context {K : Type} {KV : ProvisioningKv K} {KVL : ProvisioningKvLaws K}.

Definition sim {E A} (m : M K E A) (m' : M kv_content E A) : Prop :=
  ∀ s, healthy s → healthy (snd (m s)) ∧ m' (content s) = (fst (m s), content (snd (m s))).

Lemma sim_ret {E A} (a : A) : sim (E := E) (mret a) (mret a).
Proof. by intros s H. Qed.

Lemma sim_throw {E A} (e : E) : sim (A := A) (throw e) (throw e).
Proof. by intros s H. Qed.

Lemma sim_bind {E A B} (m : M K E A) m' (f : A → M K E B) f' :
  sim m m' → (∀ a, sim (f a) (f' a)) → sim (m ≫= f) (m' ≫= f').
Proof.
  intros H1 H2 s Hs. destruct (H1 s Hs) as [Hh E1]. unfold mbind, M_bind. rewrite E1.
  destruct (m s) as [[a|e] s1]; cbn [fst snd] in *; [by apply H2|done].
Qed.

Lemma sim_catch {E F A} (m : M K E A) m' : sim m m' → sim (E := F) (catch m) (catch m').
Proof.
  intros H1 s Hs. destruct (H1 s Hs) as [Hh E1]. unfold catch. rewrite E1.
  by destruct (m s) as [r s1].
Qed.

Lemma sim_for_each {E A} (l : list A) (f : A → M K E unit) f' :
  (∀ a, sim (f a) (f' a)) → sim (for_each l f) (for_each l f').
Proof. intros H. induction l as [|x l IH]; [apply sim_ret|]. cbn. by apply sim_bind. Qed.

Lemma sim_read_str key : sim (read_str key) (read_str key).
Proof.
  intros s Hs. destruct (get_str_law key s) as (Hc & Hr & Hh). destruct (Hh Hs) as [Hh' [o Ho]].
  unfold read_str, named. cbn. destruct (kv_get_str key s) as [r s1]. cbn in *.
  destruct r as [o'|]; [|done]. cbn in Ho. simplify_eq. by rewrite Hc, (Hr o eq_refl).
Qed.

Lemma sim_get_u8 key : sim (named key (kv_get_u8 key)) (named key (kv_get_u8 key)).
Proof.
  intros s Hs. destruct (get_u8_law key s) as (Hc & Hr & Hh). destruct (Hh Hs) as [Hh' [o Ho]].
  unfold named. cbn. destruct (kv_get_u8 key s) as [r s1]. cbn in *.
  destruct r as [o'|]; [|done]. cbn in Ho. simplify_eq. by rewrite Hc, (Hr o eq_refl).
Qed.

Lemma sim_set_str key v : sim (set_str key v) (set_str key v).
Proof.
  intros s Hs. destruct (set_str_law key v s) as (_ & Hr & Hh). destruct (Hh Hs) as [Hh' Ho].
  unfold set_str, named. cbn. destruct (kv_set_str key v s) as [r s1]. cbn in *. subst r.
  by rewrite (Hr eq_refl).
Qed.

Lemma sim_set_u8 key n : sim (named key (kv_set_u8 key n)) (named key (kv_set_u8 key n)).
Proof.
  intros s Hs. destruct (set_u8_law key n s) as (_ & Hr & Hh). destruct (Hh Hs) as [Hh' Ho].
  unfold named. cbn. destruct (kv_set_u8 key n s) as [r s1]. cbn in *. subst r. by rewrite (Hr eq_refl).
Qed.

Lemma sim_remove key : sim (best_effort (kv_remove key)) (best_effort (kv_remove key)).
Proof.
  intros s Hs. destruct (remove_law key s) as (_ & Hr & Hh). destruct (Hh Hs) as [Hh' Ho].
  unfold best_effort. cbn. split; [done|]. by rewrite (Hr Ho).
Qed.

End sim.

Create HintDb kvsim.
#[export] Hint Resolve sim_ret sim_throw sim_catch sim_read_str sim_get_u8 sim_set_str sim_set_u8 sim_remove : kvsim.

(** Follows the program's text. *)
Ltac sim_go :=
  repeat first
    [ progress auto with kvsim
    | apply sim_bind; [|intros ?]
    | apply sim_for_each; intros ?
    | match goal with |- sim (if ?b then _ else _) _ => destruct b end
    | match goal with |- sim (match ?x with _ => _ end) _ => destruct x end ].

Section ops.
  Context {K : Type} {KV : ProvisioningKv K} {KVL : ProvisioningKvLaws K}.

Lemma sim_read_capped cap key : sim (read_capped cap key) (read_capped cap key).
Proof. unfold read_capped, capped. sim_go. Qed.

Lemma sim_read_capped_opt cap key : sim (read_capped_opt cap key) (read_capped_opt cap key).
Proof. unfold read_capped_opt, capped. sim_go. Qed.

Lemma sim_extra_names : sim extra_names extra_names.
Proof. unfold extra_names. sim_go. Qed.

Lemma sim_is_provisioned : sim is_provisioned is_provisioned.
Proof. unfold is_provisioned. sim_go. Qed.

Lemma sim_load_extras names : sim (load_extras names) (load_extras names).
Proof. induction names as [|n l IH]; cbn; unfold capped; sim_go. Qed.

End ops.

#[export] Hint Resolve sim_read_capped sim_read_capped_opt sim_extra_names sim_is_provisioned sim_load_extras : kvsim.

Section sim_ops.
  Context {K : Type} {KV : ProvisioningKv K} {KVL : ProvisioningKvLaws K}.

Lemma sim_load : sim load load.
Proof. unfold load, load_profile, load_lora, load_mqtt. sim_go. Qed.

Lemma sim_save c : sim (save c) (save c).
Proof.
  unfold save, write_profile_group, set_or_remove, remove_mqtt_keys, remove_lora_keys, remove_keys, remove_stale.
  sim_go.
Qed.

Lemma sim_erase_all : sim erase_all erase_all.
Proof. unfold erase_all, remove_keys. sim_go. Qed.

End sim_ops.

(** ** Programs as lists of edits

    A write sets a key or removes it.  Among the edits of one commit no key is written twice,
    except that a key may be removed twice. *)

Abbreviation edit := (string * option KvValue)%type.

Definition compatible (a b : edit) : Prop := a.1 = b.1 → a.2 = None ∧ b.2 = None.

Fixpoint self_fresh (l : list edit) : Prop :=
  match l with
  | [] => True
  | a :: l => Forall (compatible a) l ∧ self_fresh l
  end.

Lemma self_fresh_app l1 l2 :
  self_fresh (l1 ++ l2) ↔
  self_fresh l1 ∧ self_fresh l2 ∧ (∀ a b, a ∈ l1 → b ∈ l2 → compatible a b).
Proof.
  induction l1 as [|x l1 IH]; cbn.
  { split; [|tauto]. intros H. split_and!; [done|done|]. intros a b H0. by apply elem_of_nil in H0. }
  rewrite Forall_app, IH, !Forall_forall. split.
  - intros ((H1 & H2) & H3 & H4 & H5). split_and!; [done..|].
    intros a b [->|Ha]%elem_of_cons Hb; auto.
  - intros ((H1 & H2) & H3 & H4). split_and!; [done| |done|done|].
    + intros b Hb. apply H4; [by apply list_elem_of_here|done].
    + intros a b Ha Hb. apply H4; [by apply list_elem_of_further|done].
Qed.

Section edits.
  Context {K : Type} {KV : ProvisioningKv K} {KVL : ProvisioningKvLaws K}.
  (** Whether the backend is known to be healthy: removals are best effort otherwise. *)
  Variable hh : Prop.

Definition Inv (done : list edit) (s : K) : Prop :=
  (hh → healthy s) ∧ ∀ k v, (k, v) ∈ done → (v = None → hh) → content s !! k = v.

(** [m] does the edits [l] in order; an error stops it at one of them, which may leave
    anything under its own key. *)
Definition steps (m : M K KvStoreError unit) (l : list edit) : Prop :=
  ∀ done s, self_fresh (done ++ l) → Inv done s →
    let '(r, s') := m s in
    ∃ l1 l2, l = l1 ++ l2 ∧ Inv (done ++ l1) s' ∧
      (∀ k, k ∉ (l1 ++ take 1 l2).*1 → content s' !! k = content s !! k) ∧
      match r with Ok _ => l2 = [] | Err _ => ¬ hh end.

Lemma steps_ret : steps (mret tt) [].
Proof. intros done s _ H. cbn. exists [], []. rewrite (app_nil_r done). refine (conj eq_refl (conj H (conj _ eq_refl))). done. Qed.

Lemma not_in_take_app (l1 l2 l : list edit) k :
  k ∉ (l1 ++ take 1 (l2 ++ l)).*1 → k ∉ (l1 ++ take 1 l2).*1.
Proof.
  rewrite !fmap_app, !not_elem_of_app. intros [H1 H2]. split; [done|].
  destruct l2; [by intros ?%elem_of_nil|exact H2].
Qed.

Lemma steps_bind m1 l1 (m2 : unit → M K KvStoreError unit) l2 :
  steps m1 l1 → steps (m2 tt) l2 → steps (m1 ≫= m2) (l1 ++ l2).
Proof.
  intros H1 H2 done s Hf Hi. rewrite app_assoc in Hf.
  pose proof (proj1 (proj1 (self_fresh_app _ _) Hf)) as Hf1.
  specialize (H1 done s Hf1 Hi). unfold mbind, M_bind. destruct (m1 s) as [[[]|e] s1].
  - destruct H1 as (p & q & -> & Hi1 & Hk1 & ->). rewrite app_nil_r in *.
    specialize (H2 _ s1 Hf Hi1). destruct (m2 tt s1) as [r s2].
    destruct H2 as (p2 & q2 & -> & Hi2 & Hk2 & Hr). exists (p ++ p2), q2.
    rewrite <- !app_assoc in *. split_and!; [done|done| |done].
    intros k. rewrite fmap_app, not_elem_of_app. intros [Hp Hq]. rewrite Hk2 by done.
    by apply Hk1.
  - destruct H1 as (p & q & -> & Hi1 & Hk1 & Hr). exists p, (q ++ l2).
    rewrite <- app_assoc. split_and!; [done|done| |done].
    intros k Hk. eapply Hk1, not_in_take_app, Hk.
Qed.

Lemma steps_for_each {A} (l : list A) f (e : A → list edit) :
  (∀ a, a ∈ l → steps (f a) (e a)) → steps (for_each l f) (flat_map e l).
Proof.
  induction l as [|x l IH]; intros H; [apply steps_ret|]. cbn.
  apply steps_bind; [apply H, list_elem_of_here|]. apply IH. intros a Ha. by apply H, list_elem_of_further.
Qed.

(** One write. *)
Lemma steps_write m k v :
  (∀ s, only_changes k (content s) (content (snd (m s))) ∧
        (healthy s → healthy (snd (m s)) ∧ fst (m s) = Ok tt) ∧
        (fst (m s) = Ok tt → (v = None → healthy s) → content (snd (m s)) !! k = v)) →
  steps m [(k, v)].
Proof.
  intros Hm done s Hf [Hh Hd]. destruct (Hm s) as (Hc & Hhe & Hv). destruct (m s) as [r s'].
  cbn [fst snd] in *. apply self_fresh_app in Hf as (_ & _ & Hf).
  assert (Inv done s') as Hi.
  { split; [by intros H; apply Hhe, Hh|]. intros k' v' Hin Hn. destruct (decide (k' = k)) as [->|Hne].
    - destruct (Hf (k, v') (k, v) Hin) as [E1 E2]; [by apply list_elem_of_singleton|done|].
      cbn in E1, E2. subst. apply Hv; [apply Hhe, Hh, Hn, eq_refl|by intros _; apply Hh, Hn].
    - rewrite Hc by done. by apply Hd. }
  assert (∀ k', k' ∉ [k] → content s' !! k' = content s !! k') as Hk.
  { intros k' Hk'. apply Hc. by intros ->; apply Hk', list_elem_of_here. }
  destruct r as [[]|e].
  - exists [(k, v)], []. refine (conj eq_refl (conj _ (conj Hk eq_refl))). split; [apply Hi|].
    intros k' v' [Hin|Hin]%elem_of_app Hn; [by apply Hi|].
    apply list_elem_of_singleton in Hin. simplify_eq. apply Hv; [done|]. intros E. apply Hh, Hn, E.
  - exists [], [(k, v)]. rewrite (app_nil_r done). refine (conj eq_refl (conj Hi (conj Hk _))). intros H. by destruct (Hhe (Hh H)).
Qed.

Lemma steps_set_str k v : steps (set_str k v) [(k, Some (KvStr v))].
Proof.
  apply steps_write. intros s. destruct (set_str_law k v s) as (H1 & H2 & H3).
  unfold set_str, named. destruct (kv_set_str k v s) as [r s']. cbn in *. split_and!; [done| |].
  - intros Hs. destruct (H3 Hs) as [? ->]. done.
  - intros Hr _. destruct r as [[]|]; [|done]. rewrite (H2 eq_refl). apply lookup_insert_eq.
Qed.

Lemma steps_set_u8 k n : steps (named k (kv_set_u8 k n)) [(k, Some (KvU8 n))].
Proof.
  apply steps_write. intros s. destruct (set_u8_law k n s) as (H1 & H2 & H3).
  unfold named. destruct (kv_set_u8 k n s) as [r s']. cbn in *. split_and!; [done| |].
  - intros Hs. destruct (H3 Hs) as [? ->]. done.
  - intros Hr _. destruct r as [[]|]; [|done]. rewrite (H2 eq_refl). apply lookup_insert_eq.
Qed.

Lemma steps_remove k : steps (best_effort (kv_remove k)) [(k, None)].
Proof.
  apply steps_write. intros s. destruct (remove_law k s) as (H1 & H2 & H3).
  unfold best_effort. cbn. split_and!; [done|by intros Hs; split; [apply H3|]|].
  intros _ Hs. destruct (H3 (Hs eq_refl)) as [_ Hr]. rewrite (H2 Hr). apply lookup_delete_eq.
Qed.

Lemma steps_remove_keys keys : steps (remove_keys keys) (flat_map (λ k, [(k, None)]) keys).
Proof. apply steps_for_each. intros k _. apply steps_remove. Qed.

Lemma steps_set_or_remove k v : steps (set_or_remove k v) [(k, KvStr <$> v)].
Proof. destruct v; [apply steps_set_str|apply steps_remove]. Qed.

End edits.

(** ** The edits of a commit *)

Definition storable (c : ProvisioningConfig) : Prop :=
  wf_config c ∧ storable_extras (extras c) ∧
  Forall (λ e, split_once "," (extra_key e) = None) (extras c) ∧
  match mqtt c, lora c with
  | Some _, _ => True
  | None, Some l => str_len (dev_eui_hex l) ≤ EUI_HEX_LEN ∧ str_len (join_eui_hex l) ≤ EUI_HEX_LEN ∧
                    str_len (app_key_hex l) ≤ APP_KEY_HEX_LEN
  | None, None => False
  end.

(** What a save can write: the same without the rule on commas, which only a load needs. *)
Definition writable (c : ProvisioningConfig) : Prop :=
  wf_config c ∧ storable_extras (extras c) ∧
  match mqtt c, lora c with None, None => False | _, _ => True end.

Lemma storable_writable c : storable c → writable c.
Proof. intros (? & ? & _ & H). split_and!; [done..|]. by destruct (mqtt c), (lora c). Qed.

Definition put (k v : string) : edit := (k, Some (KvStr v)).
Definition del (k : string) : edit := (k, None).

Definition core_edits (c : ProvisioningConfig) : list edit :=
  [put KEY_WIFI_SSID (wifi_ssid c); put KEY_WIFI_PASS (wifi_password c);
   put KEY_OTA_URL (ota_url c); put KEY_DEV_NAME (device_name c)].

Definition group_edits (c : ProvisioningConfig) : list edit :=
  match mqtt c, lora c with
  | Some m, _ =>
      [put KEY_MQTT_HOST (mqtt_host m); put KEY_MQTT_PORT (show_uint (mqtt_port m));
       (KEY_MQTT_USER, KvStr <$> mqtt_username m); (KEY_MQTT_PASS, KvStr <$> mqtt_password m);
       (KEY_MQTT_CLIENT, KvStr <$> mqtt_client_id m); del KEY_DEV_EUI; del KEY_JOIN_EUI; del KEY_APP_KEY]
  | None, Some l =>
      [put KEY_DEV_EUI (dev_eui_hex l); put KEY_JOIN_EUI (join_eui_hex l); put KEY_APP_KEY (app_key_hex l);
       del KEY_MQTT_HOST; del KEY_MQTT_PORT; del KEY_MQTT_USER; del KEY_MQTT_PASS; del KEY_MQTT_CLIENT]
  | None, None => []
  end.

Definition extra_edits (c : ProvisioningConfig) : list edit :=
  (λ e, put (extra_nvs_key (extra_key e)) (extra_value e)) <$> extras c.

Definition tail_edits (c : ProvisioningConfig) : list edit :=
  [put KEY_EXTRAS_IDX (join_names (extra_key <$> extras c));
   put KEY_PROFILE (SchemaProfile_as_str (config_profile c))].

(** What a stored configuration looks like. *)
Definition record_of (c : ProvisioningConfig) : list edit :=
  core_edits c ++ group_edits c ++ extra_edits c ++ tail_edits c.

Definition guard : edit := (KEY_SCHEMA_VER, Some (KvU8 SCHEMA_VERSION)).

Definition stale_edits (c : ProvisioningConfig) (previous : list string) : list edit :=
  flat_map (λ name, if existsb (λ e, bool_decide (extra_key e = name)) (extras c) then []
                    else [del (extra_nvs_key name)]) previous.

Definition save_edits (c : ProvisioningConfig) (previous : list string) : list edit :=
  core_edits c ++ group_edits c ++ extra_edits c ++ stale_edits c previous ++ tail_edits c ++ [guard].

Lemma self_fresh_nodup l : NoDup l.*1 → self_fresh l.
Proof.
  induction l as [|[k v] l IH]; [done|]. cbn. intros [Hk Hl]%NoDup_cons. split; [|by apply IH].
  apply Forall_forall. intros [k' v'] Hin E. cbn in E. subst. destruct Hk.
  by apply (list_elem_of_fmap_2 fst) in Hin.
Qed.

Lemma self_fresh_dels (l : list edit) : Forall (λ e, e.2 = None) l → self_fresh l.
Proof.
  induction 1 as [|x l Hx Hl IH]; [done|]. split; [|done].
  eapply Forall_impl; [exact Hl|]. by intros y Hy _.
Qed.

Definition canonical (e : edit) : Prop := starts_with "x" e.1 = false.
Definition is_extra (e : edit) : Prop := starts_with "x" e.1 = true.

Lemma extra_canonical_compatible a b : canonical a → is_extra b → compatible a b ∧ compatible b a.
Proof.
  unfold canonical, is_extra, compatible. intros Ha Hb.
  split; intros E; exfalso; rewrite E in *; congruence.
Qed.

Lemma stale_edits_elem c previous e :
  e ∈ stale_edits c previous →
  ∃ name, e = del (extra_nvs_key name) ∧ name ∉ extra_key <$> extras c.
Proof.
  unfold stale_edits. intros He. apply list_elem_of_In, in_flat_map in He as (name & _ & He).
  destruct (existsb _ (extras c)) eqn:Hx; [by destruct He|]. destruct He as [<-|[]]. exists name.
  split; [done|]. intros (e & -> & Hin)%list_elem_of_fmap.
  apply not_true_iff_false in Hx. apply Hx, existsb_exists. exists e.
  split; [by apply list_elem_of_In|]. by apply bool_decide_eq_true.
Qed.

Lemma extra_nvs_key_inj a b : extra_nvs_key a = extra_nvs_key b → a = b.
Proof. by intros [=]. Qed.

Lemma extras_self_fresh c previous :
  NoDup (extra_key <$> extras c) → self_fresh (extra_edits c ++ stale_edits c previous).
Proof.
  intros Hn. apply self_fresh_app. split_and!.
  - apply self_fresh_nodup. unfold extra_edits. rewrite <- list_fmap_compose.
    change (NoDup ((extra_nvs_key ∘ extra_key) <$> extras c)). rewrite list_fmap_compose.
    apply NoDup_fmap_2; [|done]. intros x y. apply extra_nvs_key_inj.
  - apply self_fresh_dels, Forall_forall. by intros e (name & -> & _)%stale_edits_elem.
  - intros a b (e & -> & He)%list_elem_of_fmap (name & -> & Hname)%stale_edits_elem E.
    apply extra_nvs_key_inj in E. subst. destruct Hname. by apply list_elem_of_fmap_2.
Qed.

Lemma canonical_self_fresh c :
  let l := core_edits c ++ group_edits c in
  self_fresh (l ++ tail_edits c ++ [guard]) ∧ Forall canonical l ∧ Forall canonical (tail_edits c ++ [guard]).
Proof.
  cbn zeta. split_and!.
  - apply self_fresh_nodup. unfold group_edits.
    destruct (mqtt c); [|destruct (lora c)]; by apply (bool_decide_unpack _).
  - unfold group_edits. destruct (mqtt c); [|destruct (lora c)]; by repeat constructor.
  - by repeat constructor.
Qed.

Lemma extras_are_extra c previous : Forall is_extra (extra_edits c ++ stale_edits c previous).
Proof.
  apply Forall_app. split; apply Forall_forall; [by intros a (e & -> & _)%list_elem_of_fmap|].
  by intros a (name & -> & _)%stale_edits_elem.
Qed.

Lemma save_self_fresh c previous : storable_extras (extras c) → self_fresh (save_edits c previous).
Proof.
  intros [_ Hn]. destruct (canonical_self_fresh c) as (Hc & Hl & Ht).
  pose proof (extras_self_fresh c previous Hn) as Hx. pose proof (extras_are_extra c previous) as Hxe.
  unfold save_edits. rewrite !app_assoc. rewrite <- (app_assoc (core_edits c ++ group_edits c)), <- !app_assoc.
  rewrite (app_assoc (core_edits c)). rewrite (app_assoc (extra_edits c)).
  apply self_fresh_app in Hc as (H1 & H2 & H12). rewrite Forall_forall in Hl, Ht, Hxe.
  apply self_fresh_app. split_and!; [done|apply self_fresh_app; split_and!; [done..|]|].
  - intros a b Ha Hb. by apply (extra_canonical_compatible b a); [apply Ht|apply Hxe].
  - intros a b Ha [Hb|Hb]%elem_of_app; [|by apply H12].
    by apply (extra_canonical_compatible a b); [apply Hl|apply Hxe].
Qed.

Section save.
  Context {K : Type} {KV : ProvisioningKv K} {KVL : ProvisioningKvLaws K}.
  Variable hh : Prop.

Lemma steps_group c : writable c → steps (K := K) hh (write_profile_group c) (group_edits c).
Proof.
  intros (_ & _ & Hg). unfold write_profile_group, config_profile, group_edits.
  destruct (mqtt c) as [m|]; [|destruct (lora c) as [l|]; [|done]].
  - apply (steps_bind _ _ [_]); [apply steps_set_str|].
    apply (steps_bind _ _ [_]); [apply steps_set_str|].
    do 3 (apply (steps_bind _ _ [_]); [apply steps_set_or_remove|]).
    apply steps_remove_keys.
  - do 3 (apply (steps_bind _ _ [_]); [apply steps_set_str|]). apply steps_remove_keys.
Qed.

Lemma steps_extras c :
  steps (K := K) hh (for_each (extras c) (λ e, set_str (extra_nvs_key (extra_key e)) (extra_value e))) (extra_edits c).
Proof.
  unfold extra_edits.
  assert (∀ l : list ExtraField,
    (λ e, put (extra_nvs_key (extra_key e)) (extra_value e)) <$> l =
    flat_map (λ e, [put (extra_nvs_key (extra_key e)) (extra_value e)]) l) as ->.
  { intros l. induction l as [|x l IH]; [done|]. cbn. by f_equal. }
  apply steps_for_each. intros e _. apply steps_set_str.
Qed.

Lemma steps_stale c previous : steps (K := K) hh (remove_stale c previous) (stale_edits c previous).
Proof.
  apply steps_for_each. intros name _. destruct (existsb _ (extras c)); [apply steps_ret|apply steps_remove].
Qed.

End save.

(** ** The index of the extras *)

Lemma join_names_len names n :
  Forall (λ s, str_len s ≤ n) names → str_len (join_names names) ≤ (n + 1) * Z.of_nat (length names).
Proof.
  induction 1 as [|x l Hx Hl IH]; [unfold str_len; cbn; lia|]. destruct l as [|y l]; [cbn [join_names length]; lia|].
  change (join_names (x :: y :: l)) with (x +:+ String "," (join_names (y :: l))).
  rewrite str_len_app. change (str_len (String "," ?t)) with (Z.of_nat (S (String.length t))).
  unfold str_len in *. cbn [length] in *. lia.
Qed.

Lemma index_fits c : wf_config c → str_len (join_names (extra_key <$> extras c)) ≤ 112.
Proof.
  intros (_ & _ & _ & _ & _ & Hx & Hl).
  assert (Forall (λ s, str_len s ≤ EXTRA_KEY_MAX_LEN) (extra_key <$> extras c)) as H.
  { apply Forall_fmap. eapply Forall_impl; [exact Hx|]. by intros e [[? _] _]. }
  apply join_names_len in H. rewrite length_fmap in H. unfold EXTRA_KEY_MAX_LEN, EXTRA_FIELDS_MAX in *. lia.
Qed.

Lemma split_once_none_app c s t : split_once c s = None → split_once c (s +:+ String c t) = Some (s, t).
Proof.
  induction s as [|a s IH].
  - intros _. change ("" +:+ String c t) with (String c t). cbn [split_once]. by rewrite Ascii.eqb_refl.
  - change (String a s +:+ String c t) with (String a (s +:+ String c t)). cbn [split_once].
    destruct (Ascii.eqb a c); [done|]. destruct (split_once c s) as [[]|]; [done|]. intros _. by rewrite IH.
Qed.

Lemma split_fuel_join names fuel :
  names ≠ [] → Forall (λ s, split_once "," s = None) names → (length names ≤ S fuel)%nat →
  split_fuel fuel "," (join_names names) = names.
Proof.
  revert fuel. induction names as [|x l IH]; [done|]. intros fuel _ [Hx Hl]%Forall_cons Hlen.
  destruct l as [|y l]; [destruct fuel; cbn; by rewrite ?Hx|].
  change (join_names (x :: y :: l)) with (x +:+ String "," (join_names (y :: l))).
  destruct fuel as [|fuel]; cbn [length] in *; [lia|].
  cbn [split_fuel]. rewrite split_once_none_app by done. f_equal. apply IH; [done|done|cbn; lia].
Qed.

Lemma join_names_nonempty names :
  names ≠ [] → Forall (λ s, s ≠ "") names → (length names ≤ S (String.length (join_names names)))%nat ∧ join_names names ≠ "".
Proof.
  induction names as [|x l IH]; [done|]. intros _ [Hx Hl]%Forall_cons.
  destruct l as [|y l]; [split; [cbn; lia|done]|].
  change (join_names (x :: y :: l)) with (x +:+ String "," (join_names (y :: l))).
  destruct IH as [IH _]; [done|done|]. split; [|by destruct x].
  apply Nat2Z.inj_le. rewrite Nat2Z.inj_succ. change (Z.of_nat (String.length ?t)) with (str_len t).
  rewrite str_len_app. unfold str_len in *. cbn [length String.length] in *. lia.
Qed.

Lemma index_roundtrip names :
  Forall (λ s, s ≠ "") names → Forall (λ s, split_once "," s = None) names →
  (if decide (join_names names = "") then [] else split "," (join_names names)) = names.
Proof.
  intros H1 H2. destruct (decide (names = [])) as [->|Hn]; [done|].
  destruct (join_names_nonempty names Hn H1) as [H3 H4]. rewrite decide_False by done.
  unfold split. by apply split_fuel_join.
Qed.

(** ** The commit *)

Section commit.
  Context {K : Type} {KV : ProvisioningKv K} {KVL : ProvisioningKvLaws K}.
  Variable hh : Prop.

Lemma read_content {A} (m : M K string A) key f s :
  content (snd (m s)) = content s ∧ (∀ o, fst (m s) = Ok o → o = f (content s)) ∧
  (healthy s → healthy (snd (m s)) ∧ is_Some (result_ok (fst (m s)))) →
  let '(r, s') := named key m s in content s' = content s ∧ (healthy s → healthy s') ∧
    (∀ o, r = Ok o → o = f (content s)).
Proof.
  intros (H1 & H2 & H3). unfold named. destruct (m s) as [r s']. cbn in *. split_and!; [done| |].
  - intros Hs. by apply H3.
  - intros o Ho. apply H2. by destruct r; cbn in Ho; simplify_eq.
Qed.

Lemma extra_names_content s :
  let '(r, s') := catch (F := KvStoreError) extra_names s in
  content s' = content s ∧ (healthy s → healthy s') ∧ ∃ l, r = Ok l.
Proof.
  unfold catch, extra_names, mbind, M_bind, read_str.
  pose proof (read_content (kv_get_str KEY_EXTRAS_IDX) KEY_EXTRAS_IDX (λ m, value_str (m !! KEY_EXTRAS_IDX)) s (get_str_law KEY_EXTRAS_IDX s)) as H.
  destruct (named _ _ s) as [[o|e] s']; destruct H as (H1 & H2 & _); split_and!; eauto.
Qed.

Lemma save_commits c s :
  writable c → (hh → healthy s) →
  let '(r, s') := save c s in
  ∃ previous l1 l2, save_edits c previous = l1 ++ l2 ∧ Inv hh l1 s' ∧
    (∀ k, k ∉ (l1 ++ take 1 l2).*1 → content s' !! k = content s !! k) ∧
    match r with Ok _ => l2 = [] | Err _ => ¬ hh end.
Proof.
  intros Hc Hs. unfold save. rewrite M_bind_eq. pose proof (extra_names_content s) as Hx.
  destruct (catch extra_names s) as [r s1]. destruct Hx as (Hx1 & Hx2 & l & ->). cbn beta iota.
  set (previous := match l with Ok l => l | Err _ => [] end).
  match goal with |- let '(r, s') := ?m s1 in _ => assert (steps hh m (save_edits c previous)) as Hm end.
  { unfold save_edits, core_edits. cbn [app].
    do 2 (apply (steps_bind hh _ [_]); [apply steps_set_str|]).
    replace (default "" (config_ota_url c)) with (ota_url c)
      by (unfold config_ota_url; case_decide as Hd; [by rewrite Hd|done]).
    do 2 (apply (steps_bind hh _ [_]); [apply steps_set_str|]).
    apply steps_bind; [by apply steps_group|].
    apply steps_bind; [apply steps_extras|].
    cbv zeta. rewrite (proj2 (Z.ltb_ge EXTRAS_IDX_MAX _))
      by (pose proof (index_fits c (proj1 Hc)); unfold EXTRAS_IDX_MAX; lia).
    apply (steps_bind hh _ []); [apply steps_ret|].
    apply steps_bind; [apply steps_stale|].
    do 2 (apply (steps_bind hh _ [_]); [apply steps_set_str|]). apply steps_set_u8. }
  specialize (Hm [] s1). rewrite Hx1 in Hm. clearbody previous.
  match goal with |- let '(r, s') := ?m s1 in _ => destruct (m s1) as [r s'] end.
  exists previous. apply Hm.
  - by apply save_self_fresh, Hc.
  - split; [by auto|]. by intros k v ?%elem_of_nil.
Qed.

(** What is in the content after a commit that succeeded. *)
Definition carries (c : ProvisioningConfig) (m : kv_content) : Prop :=
  ∀ k v, (k, v) ∈ record_of c → (v = None → hh) → m !! k = v.

Lemma record_of_saved c previous k v : (k, v) ∈ record_of c → (k, v) ∈ save_edits c previous.
Proof. unfold record_of, save_edits. rewrite !elem_of_app. tauto. Qed.

Lemma record_before_guard c previous l1 l2 e :
  save_edits c previous = l1 ++ e :: l2 → (KEY_SCHEMA_VER ∈ (l1 ++ [e]).*1) → storable_extras (extras c) →
  l1 = core_edits c ++ group_edits c ++ extra_edits c ++ stale_edits c previous ++ tail_edits c.
Proof.
  intros E Hin Hst. pose proof (save_self_fresh c previous Hst) as Hf.
  set (body := core_edits c ++ group_edits c ++ extra_edits c ++ stale_edits c previous ++ tail_edits c).
  assert (save_edits c previous = body ++ [guard]) as Eb by (unfold body, save_edits; by rewrite <- !app_assoc).
  rewrite Eb in *. destruct l2 as [|e2 l2] using rev_ind.
  { change (l1 ++ [e]) with (l1 ++ [e]) in E. by apply app_inj_tail in E as [-> _]. }
  rewrite app_comm_cons, app_assoc in E. apply app_inj_tail in E as [E <-].
  exfalso. apply self_fresh_app in Hf as (_ & _ & Hf). apply list_elem_of_fmap in Hin as ([k v] & Ek & Hin).
  cbn in Ek. subst k. destruct (Hf (KEY_SCHEMA_VER, v) guard) as [_ H]; [|by apply list_elem_of_singleton|done|done].
  rewrite E. replace (l1 ++ e :: l2) with ((l1 ++ [e]) ++ l2) by (by rewrite <- app_assoc).
  apply elem_of_app. by left.
Qed.

End commit.

(** ** Reading a stored record back *)

Definition stored_kv (c : ProvisioningConfig) : ProvisioningConfig :=
  mkConfig (wifi_ssid c) (wifi_password c) (ota_url c) (device_name c)
    match mqtt c with Some _ => None | None => lora c end (mqtt c) (extras c).

Section ideal.
  Variables (m : kv_content) (c : ProvisioningConfig).
  Hypothesis Hst : storable c.
  Hypothesis Hc : carries True c m.

Lemma ok_bind {A B} (f : M kv_content KvStoreError A) (g : A → M kv_content KvStoreError B) a :
  f m = (Ok a, m) → (f ≫= g) m = g a m.
Proof using. intros E. by rewrite M_bind_eq, E. Qed.

Lemma held k v : (k, v) ∈ record_of c → m !! k = v.
Proof using Hc. intros H. by apply Hc. Qed.

Lemma read_str_ideal key o : m !! key = KvStr <$> o → read_str key m = (Ok o, m).
Proof using. intros E. unfold read_str, named. cbn. rewrite E. by destruct o. Qed.

Lemma capped_ok cap key v : str_len v ≤ cap → capped cap key v m = (Ok v, m).
Proof using. intros H. unfold capped. by rewrite (proj2 (Z.ltb_ge _ _) H). Qed.

Lemma read_capped_ideal cap key v :
  m !! key = Some (KvStr v) → str_len v ≤ cap → read_capped cap key m = (Ok v, m).
Proof using.
  intros E H. unfold read_capped. rewrite (ok_bind _ _ (Some v)) by by apply read_str_ideal.
  by apply capped_ok.
Qed.

Lemma read_capped_opt_ideal cap key o :
  m !! key = KvStr <$> o → opt_hstring_ok cap o → read_capped_opt cap key m = (Ok o, m).
Proof using.
  intros E H. unfold read_capped_opt. rewrite (ok_bind _ _ o) by by apply read_str_ideal.
  destruct o as [v|]; [|done]. destruct H as [H _]. by rewrite (ok_bind _ _ v) by by apply capped_ok.
Qed.

Lemma in_core k v : (k, v) ∈ core_edits c → m !! k = v.
Proof using Hc. intros H. apply held. unfold record_of. rewrite !elem_of_app. tauto. Qed.
Lemma in_group k v : (k, v) ∈ group_edits c → m !! k = v.
Proof using Hc. intros H. apply held. unfold record_of. rewrite !elem_of_app. tauto. Qed.
Lemma in_tail k v : (k, v) ∈ tail_edits c → m !! k = v.
Proof using Hc. intros H. apply held. unfold record_of. rewrite !elem_of_app. tauto. Qed.

Lemma load_extras_ideal l :
  incl l (extras c) → load_extras (extra_key <$> l) m = (Ok l, m).
Proof using Hst Hc.
  destruct Hst as ((_ & _ & _ & _ & _ & Hx & _) & _). rewrite Forall_forall in Hx.
  induction l as [|e l IH]; intros Hl; [done|]. apply incl_cons_inv in Hl as [He Hl].
  apply list_elem_of_In in He. cbn [fmap list_fmap load_extras].
  rewrite (ok_bind _ _ (Some (extra_value e))).
  - destruct (Hx e He) as [[Hk _] [Hv _]].
    rewrite (ok_bind _ _ (extra_key e)) by by apply capped_ok.
    rewrite (ok_bind _ _ (extra_value e)) by by apply capped_ok.
    rewrite (ok_bind _ _ l) by by apply IH. by destruct e.
  - apply read_str_ideal, held. unfold record_of. rewrite !elem_of_app. right. right. left.
    apply list_elem_of_fmap. by exists e.
Qed.

Lemma load_group_ideal :
  match config_profile c with
  | LorawanFieldDevice => l ← load_lora; mret (Some l, None)
  | WifiMqttDevice => m ← load_mqtt; mret (None, Some m)
  end m = (Ok (lora (stored_kv c), mqtt c) : result KvStoreError _, m).
Proof using Hst Hc.
  destruct Hst as ((_ & _ & _ & _ & Hq & _) & _ & _ & Hl). pose proof in_group as Hg.
  unfold group_edits, config_profile, stored_kv in *. cbn [lora].
  destruct (mqtt c) as [q|]; [|destruct (lora c) as [l|]; [|done]].
  - destruct Hq as ([Hh _] & Hp & Hu & Hw & Hi). rewrite (ok_bind _ _ q); [done|].
    unfold load_mqtt. rewrite (ok_bind _ _ (mqtt_host q)) by (apply read_capped_ideal; [apply Hg|done]; set_solver).
    rewrite (ok_bind _ _ (Some (show_uint (mqtt_port q)))) by (apply read_str_ideal, Hg; set_solver).
    unfold parse_u16. rewrite parse_show_uint by (unfold is_u16, u16_max, u64_max in *; lia).
    rewrite (ok_bind _ _ (mqtt_username q)) by (apply read_capped_opt_ideal; [apply Hg|done]; set_solver).
    rewrite (ok_bind _ _ (mqtt_password q)) by (apply read_capped_opt_ideal; [apply Hg|done]; set_solver).
    rewrite (ok_bind _ _ (mqtt_client_id q)) by (apply read_capped_opt_ideal; [apply Hg|done]; set_solver).
    by destruct q.
  - destruct Hl as (H1 & H2 & H3). rewrite (ok_bind _ _ l); [done|]. unfold load_lora.
    rewrite (ok_bind _ _ (dev_eui_hex l)) by (apply read_capped_ideal; [apply Hg|done]; set_solver).
    rewrite (ok_bind _ _ (join_eui_hex l)) by (apply read_capped_ideal; [apply Hg|done]; set_solver).
    rewrite (ok_bind _ _ (app_key_hex l)) by (apply read_capped_ideal; [apply Hg|done]; set_solver).
    by destruct l.
Qed.

End ideal.

Lemma extra_names_ideal m c : storable c → carries True c m → extra_names m = (Ok (extra_key <$> extras c), m).
Proof.
  intros Hst Hc. unfold extra_names.
  rewrite (ok_bind m _ _ (Some (join_names (extra_key <$> extras c)))).
  - destruct Hst as (_ & [He _] & Hs & _). cbn.
    rewrite index_roundtrip; [done|by apply Forall_fmap|by apply Forall_fmap].
  - apply read_str_ideal, (in_tail m c Hc). set_solver.
Qed.

(** A content that carries a configuration, with the guard, loads as that configuration. *)
Lemma load_ideal m c :
  storable c → carries True c m → m !! KEY_SCHEMA_VER = Some (KvU8 SCHEMA_VERSION) →
  is_provisioned m = (Ok true : result KvStoreError bool, m) ∧
  load m = (Ok (Some (stored_kv c)) : result KvStoreError _, m).
Proof.
  intros Hst Hc Hv. pose proof Hst as ((Hssid & Hpass & Hota & Hname & _ & _ & Hlen) & _).
  pose proof (in_core m c Hc) as Hcore. pose proof (in_tail m c Hc) as Htail.
  assert (is_provisioned m = (Ok true : result KvStoreError bool, m)) as Hp.
  { unfold is_provisioned. rewrite (ok_bind m _ _ (Some SCHEMA_VERSION)) by (unfold named; cbn; by rewrite Hv).
    rewrite (ok_bind m _ _ (Some (wifi_ssid c))); [done|]. apply read_str_ideal, Hcore. set_solver. }
  split; [done|]. unfold load. rewrite (ok_bind m _ _ true) by done. cbn [negb].
  rewrite (ok_bind m _ _ (config_profile c)).
  2: { unfold load_profile. rewrite (ok_bind m _ _ (Some (SchemaProfile_as_str (config_profile c)))).
       - by destruct (config_profile c).
       - apply read_str_ideal, Htail. set_solver. }
  rewrite (ok_bind m _ _ (wifi_ssid c)) by (apply read_capped_ideal; [apply Hcore; set_solver|apply Hssid]).
  rewrite (ok_bind m _ _ (wifi_password c)) by (apply read_capped_ideal; [apply Hcore; set_solver|apply Hpass]).
  rewrite (ok_bind m _ _ (ota_url c)) by (apply read_capped_ideal; [apply Hcore; set_solver|apply Hota]).
  rewrite (ok_bind m _ _ (device_name c)) by (apply read_capped_ideal; [apply Hcore; set_solver|apply Hname]).
  rewrite (ok_bind m _ _ _ (load_group_ideal m c Hst Hc)).
  rewrite (ok_bind m _ _ _ (extra_names_ideal m c Hst Hc)).
  rewrite (ok_bind m _ _ _ (load_extras_ideal m c Hst Hc _ (incl_refl _))).
  rewrite (proj2 (Nat.ltb_ge _ _)) by done. rewrite take_ge by done.
  destruct c as [? ? ? ? lo mq ?]. by destruct mq.
Qed.

(** ** The store as a register *)

Inductive kv_op := K_Load | K_Check | K_Save (c : ProvisioningConfig) | K_Erase.
Inductive kv_reply := R_Held (c : option ProvisioningConfig) | R_Provisioned (b : bool) | R_Done.

Definition kv_register (op : kv_op) (reg : option ProvisioningConfig) : kv_reply * option ProvisioningConfig :=
  match op with
  | K_Load => (R_Held reg, reg)
  | K_Check => (R_Provisioned (bool_decide (is_Some reg)), reg)
  | K_Save c => (R_Done, Some (stored_kv c))
  | K_Erase => (R_Done, None)
  end.

Definition kv_op_ok (op : kv_op) : Prop := match op with K_Save c => storable c | _ => True end.

Fixpoint kv_register_replies (ops : list kv_op) (reg : option ProvisioningConfig) : list (result KvStoreError kv_reply) :=
  match ops with
  | [] => []
  | op :: ops => Ok (fst (kv_register op reg)) :: kv_register_replies ops (snd (kv_register op reg))
  end.

Section register.
  Context {K : Type} {KV : ProvisioningKv K} {KVL : ProvisioningKvLaws K}.

Definition kv_step (op : kv_op) : M K KvStoreError kv_reply :=
  match op with
  | K_Load => c ← load; mret (R_Held c)
  | K_Check => b ← is_provisioned; mret (R_Provisioned b)
  | K_Save c => _ ← save c; mret R_Done
  | K_Erase => _ ← erase_all; mret R_Done
  end.

Fixpoint kv_replies (ops : list kv_op) (s : K) : list (result KvStoreError kv_reply) :=
  match ops with
  | [] => []
  | op :: ops => let '(r, s') := kv_step op s in r :: kv_replies ops s'
  end.

(** [s] holds the configuration [reg]. *)
Definition kv_implements (s : K) (reg : option ProvisioningConfig) : Prop :=
  healthy s ∧
  match reg with
  | None => value_u8 (content s !! KEY_SCHEMA_VER) = None
  | Some c => ∃ c0, c = stored_kv c0 ∧ storable c0 ∧ carries True c0 (content s) ∧
                    content s !! KEY_SCHEMA_VER = Some (KvU8 SCHEMA_VERSION)
  end.

(** A healthy reader answers what the ideal one answers and changes nothing. *)
Lemma reader_step {A} (m : M K KvStoreError A) (m' : M kv_content KvStoreError A) s a :
  sim m m' → healthy s → m' (content s) = (Ok a, content s) →
  ∃ s', m s = (Ok a, s') ∧ healthy s' ∧ content s' = content s.
Proof.
  intros Hsim Hs E. destruct (Hsim s Hs) as [Hh E']. rewrite E in E'.
  destruct (m s) as [r s']. cbn in *. exists s'. by simplify_eq.
Qed.

Lemma unprovisioned_ideal m :
  value_u8 (m !! KEY_SCHEMA_VER) = None →
  is_provisioned m = (Ok false : result KvStoreError bool, m) ∧ load m = (Ok None : result KvStoreError _, m).
Proof.
  intros Hv.
  assert (is_provisioned m = (Ok false : result KvStoreError bool, m)) as Hp.
  { unfold is_provisioned. rewrite (ok_bind m _ _ None); [done|]. unfold named. cbn. by rewrite Hv. }
  split; [done|]. unfold load. by rewrite (ok_bind m _ _ false).
Qed.

Lemma erase_ok s : healthy s →
  ∃ s', erase_all s = (Ok tt, s') ∧ healthy s' ∧ value_u8 (content s' !! KEY_SCHEMA_VER) = None.
Proof.
  intros Hs. unfold erase_all. rewrite M_bind_eq. unfold best_effort at 1.
  destruct (remove_law KEY_SCHEMA_VER s) as (_ & Hr & Hh). destruct (Hh Hs) as [Hh1 E1].
  cbn beta iota. specialize (Hr E1). set (s1 := snd (kv_remove KEY_SCHEMA_VER s)) in *.
  rewrite M_bind_eq. pose proof (extra_names_content s1) as Hx.
  destruct (catch extra_names s1) as [r s2]. destruct Hx as (Hx1 & Hx2 & l & ->). cbn beta iota.
  match goal with |- ∃ s', ?m s2 = _ ∧ _ => assert (∃ es, steps True m es ∧ Forall (λ e, e.2 = None) es ∧ KEY_SCHEMA_VER ∉ es.*1) as (es & Hm & Hes & Hk) end.
  { eexists. split.
    - apply steps_bind; [apply steps_remove_keys|]. apply steps_bind; [apply steps_remove|]. apply steps_remove_keys.
    - split; [rewrite !Forall_app; split_and!|].
      + apply Forall_forall. intros e He. by apply list_elem_of_In, in_flat_map in He as (k & _ & [<-|[]]).
      + by repeat constructor.
      + by repeat constructor.
      + rewrite !fmap_app, !not_elem_of_app. split_and!; [|by apply (bool_decide_unpack _)|by apply (bool_decide_unpack _)].
        intros ([k v] & Ek & He)%list_elem_of_fmap. apply list_elem_of_In, in_flat_map in He as (k' & Hk' & [[=]|[]]).
        apply list_elem_of_In, list_elem_of_fmap in Hk' as (n & -> & _). by subst. }
  specialize (Hm [] s2). match goal with |- ∃ s', ?m s2 = _ ∧ _ => destruct (m s2) as [r s'] end.
  destruct Hm as (p & q & -> & Hi & Hf & Hq).
  - by apply self_fresh_dels.
  - split; [by auto|]. by intros k v ?%elem_of_nil.
  - destruct r as [[]|]; [|by destruct Hq]. subst q. rewrite app_nil_r in *. exists s'. split; [done|].
    split; [by apply Hi|]. rewrite Hf by done. by rewrite Hx1, Hr, lookup_delete_eq.
Qed.

Lemma save_ok c s : writable c → healthy s →
  ∃ s', save c s = (Ok tt, s') ∧ healthy s' ∧ carries True c (content s') ∧
        content s' !! KEY_SCHEMA_VER = Some (KvU8 SCHEMA_VERSION).
Proof.
  intros Hc Hs. pose proof (save_commits True c s Hc (λ _, Hs)) as H. destruct (save c s) as [r s'].
  destruct H as (previous & l1 & l2 & E & Hi & _ & Hr). destruct r as [[]|]; [|by destruct Hr].
  subst l2. rewrite app_nil_r in E. subst l1. exists s'. split_and!; [done|by apply Hi| |].
  - intros k v Hin _. apply Hi; [by apply record_of_saved|done].
  - apply Hi; [|done]. unfold save_edits. rewrite !elem_of_app. do 5 right. by apply list_elem_of_singleton.
Qed.

Lemma kv_step_implements op s reg :
  kv_op_ok op → kv_implements s reg →
  ∃ s', kv_step op s = (Ok (fst (kv_register op reg)), s') ∧ kv_implements s' (snd (kv_register op reg)).
Proof.
  intros Hop [Hs Hreg].
  assert (is_provisioned (content s) = (Ok (bool_decide (is_Some reg)) : result KvStoreError bool, content s) ∧
          load (content s) = (Ok reg : result KvStoreError _, content s)) as [Hp Hl].
  { destruct reg as [c|]; [|by apply unprovisioned_ideal]. destruct Hreg as (c0 & -> & H1 & H2 & H3).
    by apply load_ideal. }
  destruct op as [| |c|]; cbn [kv_step kv_register fst snd]; rewrite M_bind_eq.
  - destruct (reader_step load load s _ sim_load Hs Hl) as (s' & -> & Hh & E). exists s'.
    split; [done|]. split; [done|]. by rewrite E.
  - destruct (reader_step is_provisioned is_provisioned s _ sim_is_provisioned Hs Hp) as (s' & -> & Hh & E).
    exists s'. split; [done|]. split; [done|]. by rewrite E.
  - destruct (save_ok c s (storable_writable c Hop) Hs) as (s' & -> & Hh & Hc & Hv). exists s'. split; [done|]. split; [done|]. by exists c.
  - destruct (erase_ok s Hs) as (s' & -> & Hh & Hv). by exists s'.
Qed.

End register.

Section kv_properties.
  Context {K : Type} {KV : ProvisioningKv K} {KVL : ProvisioningKvLaws K}.

(** C23: Over a backend that does not fail, any sequence of loads, checks, saves and erasures
    answers what a register holding an optional configuration answers: a save of a usable
    configuration (extras named without commas) is what the next load returns, whatever was
    stored before it and under whichever profile, and after an erasure nothing is. *)
Theorem kv_store_refines_register ops (s : K) reg :
  Forall kv_op_ok ops → kv_implements s reg →
  kv_replies ops s = kv_register_replies ops reg.
Proof.
  intros Hops. revert s reg. induction Hops as [|op ops Hop _ IH]; intros s reg Hi; [done|].
  destruct (kv_step_implements op s reg Hop Hi) as (s' & E & Hi').
  cbn [kv_replies kv_register_replies]. rewrite E. f_equal. by apply IH.
Qed.

Lemma is_provisioned_guarded (s : K) :
  fst (is_provisioned s) = Ok true → is_Some (value_u8 (content s !! KEY_SCHEMA_VER)).
Proof.
  unfold is_provisioned. rewrite M_bind_eq.
  pose proof (read_content _ KEY_SCHEMA_VER (λ m, value_u8 (m !! KEY_SCHEMA_VER)) s (get_u8_law KEY_SCHEMA_VER s)) as H.
  destruct (named _ _ s) as [[o|e] s']; [|done]. destruct H as (_ & _ & H). rewrite <- (H o eq_refl). by destruct o.
Qed.

(** The first commit is all or nothing.  Saving a usable configuration where no guard is
    stored, over a backend that may fail at every operation: if the save succeeds the whole
    record is written, and whatever happened, the namespace reads as provisioned only if
    every key that the configuration sets holds its value. *)
Lemma kv_first_save_atomic c (s : K) :
  storable c → content s !! KEY_SCHEMA_VER = None →
  let '(r, s') := save c s in
  (r = Ok tt → carries False c (content s') ∧ content s' !! KEY_SCHEMA_VER = Some (KvU8 SCHEMA_VERSION)) ∧
  (fst (is_provisioned s') = Ok true → carries False c (content s')).
Proof.
  intros Hc Hv. pose proof (save_commits False c s (storable_writable c Hc) (λ H, match H with end)) as H.
  destruct (save c s) as [r s']. destruct H as (previous & l1 & l2 & E & Hi & Hf & Hr).
  assert (∀ l, (∀ e, e ∈ record_of c → e ∈ l) → Inv False l s' → carries False c (content s')) as Hcar.
  { intros l Hl Hil k v Hin Hn. apply Hil; [by apply Hl|done]. }
  split.
  - intros ->. subst l2. rewrite app_nil_r in E. subst l1. split.
    + eapply Hcar; [|exact Hi]. intros [k v] He. by apply record_of_saved.
    + apply Hi; [|done]. unfold save_edits. rewrite !elem_of_app. do 5 right. by apply list_elem_of_singleton.
  - intros Hp%is_provisioned_guarded.
    destruct (decide (KEY_SCHEMA_VER ∈ (l1 ++ take 1 l2).*1)) as [Hin|Hout].
    + eapply Hcar; [|exact Hi]. intros [k v] He. destruct l2 as [|e l2].
      * rewrite app_nil_r in E. subst l1. by apply record_of_saved.
      * rewrite (record_before_guard c previous l1 l2 e E Hin (proj1 (proj2 Hc))).
        unfold record_of in He. rewrite !elem_of_app in *. tauto.
    + rewrite (Hf _ Hout), Hv in Hp. by destruct Hp.
Qed.

End kv_properties.

(** ** Examples *)

Definition lamp : ProvisioningConfig :=
  mkConfig "attic net" "open sesame" "" "lamp" None
    (Some (mkMqtt "broker.lan" 1883 (Some "u") (Some "p") None)) [mkExtra "room" "attic"; mkExtra "zone" "2"].

Definition hive : ProvisioningConfig :=
  mkConfig "garden" "queen bee" "http://ota/a.bin" "hive"
    (Some (mkLora "0011223344556677" "8899AABBCCDDEEFF" "00112233445566778899AABBCCDDEEFF")) None [].

Lemma lamp_storable : storable lamp.
Proof.
  unfold storable, wf_config, wf_mqtt, wf_extra, hstring_ok, storable_extras. cbn [mqtt lora lamp extras].
  split_and!; try done; try (by apply (bool_decide_unpack _)); repeat (constructor; try done).
Qed.

Lemma hive_storable : storable hive.
Proof.
  unfold storable, wf_config, hstring_ok, storable_extras. cbn [mqtt lora hive extras].
  split_and!; try done; try (by apply (bool_decide_unpack _)); repeat (constructor; try done).
Qed.

Definition kv_ops : list kv_op := [K_Check; K_Save lamp; K_Load; K_Save hive; K_Load; K_Erase; K_Load].

Definition empty_kv (script : list (option bool)) : ScriptKv := mkScript script ∅.

Lemma kv_store_refines_register_witness :
  kv_replies kv_ops (empty_kv []) = kv_register_replies kv_ops None.
Proof.
  apply (kv_store_refines_register kv_ops (empty_kv []) None).
  - repeat (apply Forall_cons_2; [first [exact I|apply lamp_storable|apply hive_storable]|]). by apply Forall_nil.
  - split; [by apply Forall_nil|reflexivity].
Defined.

(** The commit is cut off at the write of the profile key. *)
Definition cut_kv : ScriptKv := empty_kv (replicate 16 None ++ [Some false]).

Lemma kv_first_save_atomic_witness :
  let '(r, s') := save lamp cut_kv in
  (r = Ok tt → carries False lamp (content s') ∧ content s' !! KEY_SCHEMA_VER = Some (KvU8 SCHEMA_VERSION)) ∧
  (fst (is_provisioned s') = Ok true → carries False lamp (content s')).
Proof. apply (kv_first_save_atomic lamp cut_kv); [exact lamp_storable|reflexivity]. Defined.

Example cut_save_unprovisioned :
  let '(r, s') := save lamp cut_kv in
  r = Err (KE_Backend KEY_PROFILE) ∧ fst (is_provisioned s') = Ok false ∧ fst (load s') = Ok None.
Proof. vm_compute. done. Qed.

(** A second commit that is cut off leaves a mixture of the two records, which reads as
    provisioned: the guard of the first commit is still there. *)
Definition other_lamp : ProvisioningConfig :=
  mkConfig "new net" "new password" "" "lamp" None (Some (mkMqtt "other.lan" 8883 (Some "u2") (Some "p2") None)) [].

Example torn_resave_mixed :
  let '(_, s) := save lamp (empty_kv (replicate 18 None ++ [None; None; Some false])) in
  let '(r, s') := save other_lamp s in
  r = Err (KE_Backend KEY_WIFI_PASS) ∧ fst (is_provisioned s') = Ok true ∧
  fst (load s') =
    Ok (Some (mkConfig "new net" "open sesame" "" "lamp" None (mqtt lamp) (extras lamp))).
Proof. vm_compute. done. Qed.

(** An extra whose name contains a comma, which the form accepts, is lost on load and is
    not removed by an erasure. *)
Definition comma_lamp : ProvisioningConfig :=
  mkConfig "attic net" "open sesame" "" "lamp" None (Some (mkMqtt "broker.lan" 1883 None None None))
    [mkExtra "a,b" "secret"].

Example comma_extra_lost :
  match parse_form "wifi_ssid=attic+net&wifi_pass=open%20sesame&mqtt_uri=mqtt://broker.lan:1883&ota_url=&dev_name=lamp&a,b=secret" WifiMqttDevice with
  | Ok c => bool_decide (c = comma_lamp)
  | Err _ => false
  end = true ∧
  let '(_, s) := save comma_lamp (empty_kv []) in
  let '(r, s') := load s in
  r = Ok (Some (mkConfig "attic net" "open sesame" "" "lamp" None (mqtt comma_lamp) [])) ∧
  content (snd (erase_all s')) !! extra_nvs_key "a,b" = Some (KvStr "secret").
Proof. vm_compute. done. Qed.

(** A commit whose best-effort removal fails succeeds, and loads a stale user name. *)
Example stale_optional_loaded :
  let anonymous := mkConfig "attic net" "open sesame" "" "lamp" None (Some (mkMqtt "broker.lan" 1883 None None None)) [] in
  let '(_, s) := save lamp (empty_kv []) in
  let '(r, s') := save anonymous (mkScript (replicate 7 None ++ [Some false]) (stored s)) in
  r = Ok tt ∧ (mqtt_username <$> (match fst (load s') with Ok (Some c) => mqtt c | _ => None end)) = Some (Some "u").
Proof. vm_compute. done. Qed.
