(* ===== verification/Dhcp.v ===== *)
(** * Dhcp: the DHCP server of the captive portal ([provisioning/dhcp.rs] of the bare-metal tier)

    A packet is the list of its bytes.  The encoders zero the buffer and then write the fields;
    here the bytes are appended in order, the untouched ones as zeros, and [cap] is the length
    of the buffer.  A [Ipv4Addr] is its four octets, a MAC address the list of its six.
    After the packets come the lease table and the server loop, then what the server sends
    and which address it promises to whom. *)
From S2P Require Import Prelude.
Open Scope Z_scope.

Definition BOOTP_FIXED_LEN : nat := 236.
Definition MAGIC_COOKIE : list Z := [99; 130; 83; 99].
Definition PACKET_BUF : nat := 548.
Definition OP_REQUEST : Z := 1.
Definition OP_REPLY : Z := 2.
Definition HTYPE_ETHERNET : Z := 1.
Definition HLEN_ETHERNET : Z := 6.
Definition OPT_PAD : Z := 0.
Definition OPT_SUBNET_MASK : Z := 1.
Definition OPT_ROUTER : Z := 3.
Definition OPT_DNS : Z := 6.
Definition OPT_REQUESTED_IP : Z := 50.
Definition OPT_LEASE_TIME : Z := 51.
Definition OPT_MSG_TYPE : Z := 53.
Definition OPT_SERVER_ID : Z := 54.
Definition OPT_CLIENT_ID : Z := 61.
Definition OPT_END : Z := 255.
Definition MSG_DISCOVER : Z := 1.
Definition MSG_OFFER : Z := 2.
Definition MSG_REQUEST : Z := 3.
Definition MSG_DECLINE : Z := 4.
Definition MSG_ACK : Z := 5.
Definition MSG_NAK : Z := 6.

Record Ipv4Addr := mkIp { oct0 : Z; oct1 : Z; oct2 : Z; oct3 : Z }.

#[export] Instance Ipv4Addr_eq_dec : EqDecision Ipv4Addr.
Proof. solve_decision. Defined.

Definition octets (a : Ipv4Addr) : list Z := [oct0 a; oct1 a; oct2 a; oct3 a].
Definition is_unspecified (a : Ipv4Addr) : bool := bool_decide (a = mkIp 0 0 0 0).

Record DhcpServerConfig := mkDhcpConfig {
  server_ip : Ipv4Addr; subnet_mask : Ipv4Addr; pool_start : Ipv4Addr; pool_end : Ipv4Addr;
  lease_secs : Z }.

Definition DhcpServerConfig_default : DhcpServerConfig :=
  mkDhcpConfig (mkIp 192 168 4 1) (mkIp 255 255 255 0) (mkIp 192 168 4 10) (mkIp 192 168 4 20) 300.

Inductive DhcpError :=
| DE_TooShort | DE_BadMagicCookie | DE_BadHardwareType | DE_MissingMessageType
| DE_MalformedOptions | DE_BufferTooSmall.

Record ParsedOptions := mkOptions {
  message_type : option Z; requested_ip : option Ipv4Addr; server_id : option Ipv4Addr;
  client_id : option (list Z); client_id_len : Z }.

Definition ParsedOptions_default : ParsedOptions := mkOptions None None None None 0.

Record DhcpMessage := mkDhcp {
  op : Z; htype : Z; hlen : Z; xid : Z;
  ciaddr : Ipv4Addr; yiaddr : Ipv4Addr; siaddr : Ipv4Addr; chaddr : list Z;
  options : ParsedOptions }.

#[export] Instance DhcpError_eq_dec : EqDecision DhcpError.
Proof. solve_decision. Defined.
#[export] Instance ParsedOptions_eq_dec : EqDecision ParsedOptions.
Proof. solve_decision. Defined.
#[export] Instance DhcpMessage_eq_dec : EqDecision DhcpMessage.
Proof. solve_decision. Defined.

(** ** Decoding *)

(** [buf[i]], [from_be_bytes] and four octets at [i], in range. *)
Definition at_ (buf : list Z) (i : nat) : Z := default 0 (buf !! i).
Definition be16_at (buf : list Z) (i : nat) : Z := at_ buf i * 256 + at_ buf (i + 1).
Definition be32_at (buf : list Z) (i : nat) : Z := be16_at buf i * 65536 + be16_at buf (i + 2).
Definition ip_at (buf : list Z) (i : nat) : Ipv4Addr :=
  mkIp (at_ buf i) (at_ buf (i + 1)) (at_ buf (i + 2)) (at_ buf (i + 3)).

Definition set_message_type (t : Z) (o : ParsedOptions) : ParsedOptions :=
  mkOptions (Some t) (requested_ip o) (server_id o) (client_id o) (client_id_len o).
Definition set_requested_ip (a : Ipv4Addr) (o : ParsedOptions) : ParsedOptions :=
  mkOptions (message_type o) (Some a) (server_id o) (client_id o) (client_id_len o).
Definition set_server_id (a : Ipv4Addr) (o : ParsedOptions) : ParsedOptions :=
  mkOptions (message_type o) (requested_ip o) (Some a) (client_id o) (client_id_len o).
Definition set_client_id (id : list Z) (n : Z) (o : ParsedOptions) : ParsedOptions :=
  mkOptions (message_type o) (requested_ip o) (server_id o) (Some id) n.

(** One option; [val] has [len] bytes. *)
Definition apply_option (tag : Z) (val : list Z) (o : ParsedOptions) : ParsedOptions :=
  let len := length val in
  if (tag =? OPT_MSG_TYPE) && (1 <=? len)%nat then set_message_type (at_ val 0) o
  else if (tag =? OPT_REQUESTED_IP) && (len =? 4)%nat then set_requested_ip (ip_at val 0) o
  else if (tag =? OPT_SERVER_ID) && (len =? 4)%nat then set_server_id (ip_at val 0) o
  else if tag =? OPT_CLIENT_ID then
    let copy_len := Nat.min len 16 in
    set_client_id (take copy_len val ++ replicate (16 - copy_len) 0) (Z.of_nat copy_len) o
  else o.

(** The loop; [buf] is what is left from [i], and every turn takes a byte of it. *)
Fixpoint parse_options_go (fuel : nat) (buf : list Z) (opts : ParsedOptions) : result DhcpError ParsedOptions :=
  match fuel, buf with
  | O, _ | _, [] => Ok opts
  | S fuel, tag :: rest =>
      if tag =? OPT_END then Ok opts
      else if tag =? OPT_PAD then parse_options_go fuel rest opts
      else
        match rest with
        | [] => Err DE_MalformedOptions
        | len :: rest =>
            if (length rest <? Z.to_nat len)%nat then Err DE_MalformedOptions
            else parse_options_go fuel (drop (Z.to_nat len) rest)
                   (apply_option tag (take (Z.to_nat len) rest) opts)
        end
  end.

Definition parse_options (buf : list Z) : result DhcpError ParsedOptions :=
  parse_options_go (length buf) buf ParsedOptions_default.

Definition decode (buf : list Z) : result DhcpError DhcpMessage :=
  if (length buf <? BOOTP_FIXED_LEN + length MAGIC_COOKIE)%nat then Err DE_TooShort
  else if bool_decide (take 4 (drop BOOTP_FIXED_LEN buf) ≠ MAGIC_COOKIE) then Err DE_BadMagicCookie
  else if negb (at_ buf 1 =? HTYPE_ETHERNET) || negb (at_ buf 2 =? HLEN_ETHERNET) then Err DE_BadHardwareType
  else
    opts ← parse_options (drop (BOOTP_FIXED_LEN + 4) buf);
    match message_type opts with
    | None => Err DE_MissingMessageType
    | Some _ =>
        Ok (mkDhcp (at_ buf 0) (at_ buf 1) (at_ buf 2) (be32_at buf 4)
              (ip_at buf 12) (ip_at buf 16) (ip_at buf 20) (take 6 (drop 28 buf)) opts)
    end.

(** ** Encoding *)

Definition be32_bytes (n : Z) : list Z :=
  [(n / 16777216) `mod` 256; (n / 65536) `mod` 256; (n / 256) `mod` 256; n `mod` 256].

Definition write_option (cap : nat) (out : list Z) (tag : Z) (val : list Z) : result DhcpError (list Z) :=
  if (cap <? length out + (2 + length val))%nat then Err DE_BufferTooSmall
  else Ok (out ++ [tag; Z.of_nat (length val) `mod` 256] ++ val).

Definition write_end (cap : nat) (out : list Z) : result DhcpError (list Z) :=
  if (cap <=? length out)%nat then Err DE_BufferTooSmall else Ok (out ++ [OPT_END]).

(** The header and the cookie: [secs], [giaddr], the rest of [chaddr], [sname] and [file] are zero. *)
Definition bootp_header (op htype hlen xid : Z) (broadcast : bool) (ciaddr yiaddr siaddr chaddr : list Z) : list Z :=
  [op; htype; hlen; 0] ++ be32_bytes xid ++ [0; 0] ++ [if broadcast then 128 else 0; 0] ++
  ciaddr ++ yiaddr ++ siaddr ++ replicate 4 0 ++ chaddr ++ replicate 202 0 ++ MAGIC_COOKIE.

Definition no_ip : list Z := replicate 4 0.

Definition encode_offer_or_ack (cap : nat) (msg : DhcpMessage) (server_ip subnet_mask : Ipv4Addr) (lease_secs : Z) :
    result DhcpError (list Z) :=
  if (cap <? BOOTP_FIXED_LEN + 4)%nat then Err DE_BufferTooSmall
  else
    let out := bootp_header (op msg) (htype msg) (hlen msg) (xid msg) (is_unspecified (ciaddr msg))
                 (octets (ciaddr msg)) (octets (yiaddr msg)) (octets server_ip) (chaddr msg) in
    out ← match message_type (options msg) with
          | Some mt => write_option cap out OPT_MSG_TYPE [mt]
          | None => Ok out
          end;
    out ← write_option cap out OPT_SERVER_ID (octets server_ip);
    out ← write_option cap out OPT_LEASE_TIME (be32_bytes lease_secs);
    out ← write_option cap out OPT_SUBNET_MASK (octets subnet_mask);
    out ← write_option cap out OPT_ROUTER (octets server_ip);
    out ← write_option cap out OPT_DNS (octets server_ip);
    write_end cap out.

Definition encode_nak (cap : nat) (msg : DhcpMessage) (server_ip : Ipv4Addr) : result DhcpError (list Z) :=
  if (cap <? BOOTP_FIXED_LEN + 4)%nat then Err DE_BufferTooSmall
  else
    let out := bootp_header OP_REPLY (htype msg) (hlen msg) (xid msg) true no_ip no_ip no_ip (chaddr msg) in
    out ← write_option cap out OPT_MSG_TYPE [MSG_NAK];
    out ← write_option cap out OPT_SERVER_ID (octets server_ip);
    write_end cap out.

(** ** the lease table, the REQUEST decision and the server loop of [dhcp.rs]

    The loop is a step per datagram: [now] is the clock read while it is handled.  A reply is
    broadcast; a failing send changes nothing. *)

Definition POOL_SIZE : nat := 11.

Record Lease := mkLease { lease_mac : list Z; offered_at_secs : Z }.

Record LeaseTable := mkTable { entries : list (option Lease); table_start : Ipv4Addr; table_lease : Z }.

Definition LeaseTable_new (pool_start : Ipv4Addr) (lease_secs : Z) : LeaseTable :=
  mkTable (replicate POOL_SIZE None) pool_start lease_secs.

Definition index_of (t : LeaseTable) (addr : Ipv4Addr) : option nat :=
  let start := table_start t in
  if negb (oct0 addr =? oct0 start) || negb (oct1 addr =? oct1 start) || negb (oct2 addr =? oct2 start)
  then None
  else if oct3 addr <? oct3 start then None
  else
    let offset := Z.to_nat (oct3 addr - oct3 start) in
    if (offset <? POOL_SIZE)%nat then Some offset else None.

Definition addr_of (t : LeaseTable) (index : nat) : Ipv4Addr :=
  let start := table_start t in
  mkIp (oct0 start) (oct1 start) (oct2 start) ((oct3 start + Z.of_nat index) `mod` 256).

Definition is_expired (t : LeaseTable) (l : Lease) (now_secs : Z) : bool :=
  table_lease t <=? Z.max 0 (now_secs - offered_at_secs l).

Definition holds_mac (mac : list Z) (e : option Lease) : Prop :=
  match e with Some l => lease_mac l = mac | None => False end.

#[export] Instance holds_mac_dec mac e : Decision (holds_mac mac e).
Proof. unfold holds_mac. destruct e; apply _. Defined.

Definition find_by_mac (t : LeaseTable) (mac : list Z) : option nat :=
  fst <$> list_find (holds_mac mac) (entries t).

(** [is_none_or]: the slot is free or its lease expired. *)
Definition available (t : LeaseTable) (now_secs : Z) (e : option Lease) : Prop :=
  match e with Some l => is_expired t l now_secs = true | None => True end.

#[export] Instance available_dec t now e : Decision (available t now e).
Proof. unfold available. destruct e; apply _. Defined.

Definition set_entry (idx : nat) (e : option Lease) (t : LeaseTable) : LeaseTable :=
  mkTable (<[idx := e]> (entries t)) (table_start t) (table_lease t).

(** [min_by_key] over the taken slots: the first of the oldest. *)
Fixpoint oldest_go (i : nat) (l : list (option Lease)) (best : option (nat * Z)) : option (nat * Z) :=
  match l with
  | [] => best
  | None :: l => oldest_go (S i) l best
  | Some e :: l =>
      oldest_go (S i) l
        match best with
        | Some (_, ts) => if offered_at_secs e <? ts then Some (i, offered_at_secs e) else best
        | None => Some (i, offered_at_secs e)
        end
  end.

Definition oldest (t : LeaseTable) : option nat := fst <$> oldest_go 0 (entries t) None.

(** A slot chosen by its index is claimed under its own address. *)
Definition claim (t : LeaseTable) (mac : list Z) (now_secs : Z) (idx : nat) : option Ipv4Addr * LeaseTable :=
  (Some (addr_of t idx), set_entry idx (Some (mkLease mac now_secs)) t).

Definition allocate_any (t : LeaseTable) (mac : list Z) (now_secs : Z) : option Ipv4Addr * LeaseTable :=
  match fst <$> list_find (available t now_secs) (entries t) with
  | Some idx => claim t mac now_secs idx
  | None =>
      match oldest t with
      | Some idx => claim t mac now_secs idx
      | None => (None, t)
      end
  end.

Definition allocate (t : LeaseTable) (mac : list Z) (requested : option Ipv4Addr) (now_secs : Z) :
    option Ipv4Addr * LeaseTable :=
  match find_by_mac t mac with
  | Some idx => claim t mac now_secs idx
  | None =>
      match requested with
      | Some req =>
          match index_of t req with
          | Some idx =>
              if decide (available t now_secs (default None (entries t !! idx))) then
                (Some req, set_entry idx (Some (mkLease mac now_secs)) t)
              else allocate_any t mac now_secs
          | None => allocate_any t mac now_secs
          end
      | None => allocate_any t mac now_secs
      end
  end.

(** ** The REQUEST decision *)

Inductive RequestOutcome := RO_Ack (a : Ipv4Addr) | RO_Nak | RO_Drop | RO_Ignore.

(** Option 50, or else [ciaddr]. *)
Definition explicit_ip (msg : DhcpMessage) : option Ipv4Addr :=
  match requested_ip (options msg) with
  | Some a => Some a
  | None => if is_unspecified (ciaddr msg) then None else Some (ciaddr msg)
  end.

Definition decide_request (msg : DhcpMessage) (leases : LeaseTable) (server_ip : Ipv4Addr) (now_secs : Z) :
    RequestOutcome * LeaseTable :=
  if match server_id (options msg) with Some sid => bool_decide (sid ≠ server_ip) | None => false end
  then (RO_Ignore, leases)
  else
    let explicit := explicit_ip msg in
    if bool_decide (explicit = None) && bool_decide (find_by_mac leases (chaddr msg) = None)
    then (RO_Drop, leases)
    else
      let '(offered, leases) := allocate leases (chaddr msg) explicit now_secs in
      match offered with
      | None => (RO_Nak, leases)
      | Some offered_ip =>
          if match explicit with
             | Some req => bool_decide (req ≠ offered_ip) && negb (is_unspecified req)
             | None => false
             end
          then (RO_Nak, leases) else (RO_Ack offered_ip, leases)
      end.

(** ** The geometry of the pool *)

Inductive PoolGeometryError := PG_SizeMismatch (configured required : Z) | PG_CrossesSubnet.

Definition ip_u32 (a : Ipv4Addr) : Z := oct0 a * 16777216 + oct1 a * 65536 + oct2 a * 256 + oct3 a.

Definition validate_pool_geometry (pool_start pool_end : Ipv4Addr) (pool_size : nat) :
    result PoolGeometryError unit :=
  let configured := Z.min u32_max (Z.max 0 (ip_u32 pool_end - ip_u32 pool_start) + 1) in
  if negb (configured =? Z.of_nat pool_size) then Err (PG_SizeMismatch configured (Z.of_nat pool_size))
  else if bool_decide ((oct0 pool_start, oct1 pool_start, oct2 pool_start) ≠
                       (oct0 pool_end, oct1 pool_end, oct2 pool_end)) then Err PG_CrossesSubnet
  else Ok tt.

(** ** The loop *)

Definition reply_message (msg : DhcpMessage) (t : Z) (ip server_ip : Ipv4Addr) : DhcpMessage :=
  mkDhcp OP_REPLY HTYPE_ETHERNET HLEN_ETHERNET (xid msg) (mkIp 0 0 0 0) ip server_ip (chaddr msg)
    (set_message_type t ParsedOptions_default).

(** An OFFER or ACK; a reply that does not fit is not sent. *)
Definition send_reply (config : DhcpServerConfig) (msg : DhcpMessage) (t : Z) (ip : Ipv4Addr) : option (list Z) :=
  result_ok (encode_offer_or_ack PACKET_BUF (reply_message msg t ip (server_ip config)) (server_ip config)
               (subnet_mask config) (lease_secs config)).

Definition do_send_nak (config : DhcpServerConfig) (msg : DhcpMessage) : option (list Z) :=
  result_ok (encode_nak PACKET_BUF msg (server_ip config)).

(** A decoded BOOTREQUEST. *)
Definition handle_message (config : DhcpServerConfig) (leases : LeaseTable) (msg : DhcpMessage) (msg_type now_secs : Z) :
    option (list Z) * LeaseTable :=
  if msg_type =? MSG_DISCOVER then
    let '(offered, leases) := allocate leases (chaddr msg) (requested_ip (options msg)) now_secs in
    (offered ≫= send_reply config msg MSG_OFFER, leases)
  else if msg_type =? MSG_REQUEST then
    let '(outcome, leases) := decide_request msg leases (server_ip config) now_secs in
    match outcome with
    | RO_Ignore | RO_Drop => (None, leases)
    | RO_Nak => (do_send_nak config msg, leases)
    | RO_Ack ip => (send_reply config msg MSG_ACK ip, leases)
    end
  else if msg_type =? MSG_DECLINE then
    match find_by_mac leases (chaddr msg) with
    | Some idx => (None, set_entry idx None leases)
    | None => (None, leases)
    end
  else (None, leases).

(** One turn of the loop of [run]. *)
Definition serve (config : DhcpServerConfig) (leases : LeaseTable) (packet : list Z) (now_secs : Z) :
    option (list Z) * LeaseTable :=
  match decode packet with
  | Err _ => (None, leases)
  | Ok msg =>
      if negb (op msg =? OP_REQUEST) then (None, leases)
      else match message_type (options msg) with
           | Some t => handle_message config leases msg t now_secs
           | None => (None, leases)
           end
  end.

(** [run]: refuses to start on a pool the table cannot represent; otherwise answers datagrams
    in order. *)
Fixpoint serve_all (config : DhcpServerConfig) (leases : LeaseTable) (packets : list (list Z * Z)) :
    list (option (list Z)) * LeaseTable :=
  match packets with
  | [] => ([], leases)
  | (p, now) :: packets =>
      let '(reply, leases) := serve config leases p now in
      let '(replies, leases) := serve_all config leases packets in
      (reply :: replies, leases)
  end.

Definition dhcp_run (config : DhcpServerConfig) (packets : list (list Z * Z)) : list (option (list Z)) :=
  match validate_pool_geometry (pool_start config) (pool_end config) POOL_SIZE with
  | Err _ => map (λ _, None) packets
  | Ok _ => fst (serve_all config (LeaseTable_new (pool_start config) (lease_secs config)) packets)
  end.

(** ** what the DHCP server sends, and which address it promises to whom *)

(** ** The packets *)

Definition is_octets (a : Ipv4Addr) : Prop := Forall is_u8 (octets a).

Lemma be32_roundtrip n : is_u32 n →
  ((n / 16777216) `mod` 256 * 256 + (n / 65536) `mod` 256) * 65536 + ((n / 256) `mod` 256 * 256 + n `mod` 256) = n.
Proof.
  assert (∀ k, (k / 256) `mod` 256 * 256 + k `mod` 256 = k `mod` 65536) as H16.
  { intros k. change 65536 with (256 * 256). rewrite Z.rem_mul_r by lia. lia. }
  unfold is_u32, u32_max. intros H. change 16777216 with (65536 * 256).
  rewrite <- Z.div_div, !H16, (Z.mod_small (n / 65536)) by (try lia; Z.div_mod_to_equations; lia).
  rewrite Z.mul_comm, <- Z.div_mod; lia.
Qed.

Lemma mac_bytes (mac : list Z) : length mac = 6%nat → ∃ a b c d e f, mac = [a; b; c; d; e; f].
Proof. intros H. do 6 (destruct mac as [|? mac]; [done|]). destruct mac; [eauto 10|done]. Qed.

Lemma bootp_header_length op ht hl x bc ci yi si mac :
  length mac = 6%nat → length (bootp_header op ht hl x bc (octets ci) (octets yi) (octets si) mac) = 240%nat.
Proof. intros (? & ? & ? & ? & ? & ? & ->)%mac_bytes. done. Qed.

Lemma decode_header op x bc ci yi si mac opts :
  length mac = 6%nat → is_u32 x →
  decode (bootp_header op HTYPE_ETHERNET HLEN_ETHERNET x bc (octets ci) (octets yi) (octets si) mac ++ opts) =
  o ← parse_options opts;
  match message_type o with
  | None => Err DE_MissingMessageType
  | Some _ => Ok (mkDhcp op HTYPE_ETHERNET HLEN_ETHERNET x ci yi si mac o)
  end.
Proof.
  intros Hm Hx. unfold decode. rewrite length_app, bootp_header_length by done.
  destruct (mac_bytes mac Hm) as (m0 & m1 & m2 & m3 & m4 & m5 & ->).
  rewrite (proj2 (Nat.ltb_ge _ _)) by (cbn [length]; unfold BOOTP_FIXED_LEN, MAGIC_COOKIE; cbn; lia).
  rewrite bool_decide_eq_false_2 by (intros H; apply H; reflexivity).
  pose proof (be32_roundtrip x Hx) as Hr. destruct ci, yi, si.
  assert (∀ (A : Type) (f g : ParsedOptions → result DhcpError A) r, (∀ o, f o = g o) → (r ≫= f) = (r ≫= g)) as Hext
    by (intros A f g [o|e] H; [apply H|done]).
  apply Hext. intros o. destruct (message_type o); [|done]. f_equal. f_equal. exact Hr.
Qed.

Definition reply_options (t : Z) (sip mask : Ipv4Addr) (lease : Z) : list Z :=
  [OPT_MSG_TYPE; 1; t] ++ [OPT_SERVER_ID; 4] ++ octets sip ++ [OPT_LEASE_TIME; 4] ++ be32_bytes lease ++
  [OPT_SUBNET_MASK; 4] ++ octets mask ++ [OPT_ROUTER; 4] ++ octets sip ++ [OPT_DNS; 4] ++ octets sip ++ [OPT_END].

Definition reply_packet (config : DhcpServerConfig) (msg : DhcpMessage) (t : Z) (ip : Ipv4Addr) : list Z :=
  bootp_header OP_REPLY HTYPE_ETHERNET HLEN_ETHERNET (xid msg) true (octets (mkIp 0 0 0 0)) (octets ip)
    (octets (server_ip config)) (chaddr msg) ++
  reply_options t (server_ip config) (subnet_mask config) (lease_secs config).

Definition nak_packet (config : DhcpServerConfig) (msg : DhcpMessage) : list Z :=
  bootp_header OP_REPLY (htype msg) (hlen msg) (xid msg) true no_ip no_ip no_ip (chaddr msg) ++
  [OPT_MSG_TYPE; 1; MSG_NAK] ++ [OPT_SERVER_ID; 4] ++ octets (server_ip config) ++ [OPT_END].

Lemma send_reply_eq config msg t ip :
  length (chaddr msg) = 6%nat → send_reply config msg t ip = Some (reply_packet config msg t ip).
Proof.
  intros Hm. unfold send_reply, reply_message, reply_packet, encode_offer_or_ack. cbn [chaddr op htype hlen xid ciaddr yiaddr options].
  destruct (mac_bytes _ Hm) as (m0 & m1 & m2 & m3 & m4 & m5 & ->). reflexivity.
Qed.

Lemma do_send_nak_eq config msg :
  length (chaddr msg) = 6%nat → do_send_nak config msg = Some (nak_packet config msg).
Proof.
  intros Hm. unfold do_send_nak, nak_packet, encode_nak.
  destruct (mac_bytes _ Hm) as (m0 & m1 & m2 & m3 & m4 & m5 & ->). reflexivity.
Qed.

Lemma parse_reply_options t sip mask lease :
  parse_options (reply_options t sip mask lease) = Ok (mkOptions (Some t) None (Some sip) None 0).
Proof. destruct sip, mask. reflexivity. Qed.

(** What a client reads in a reply. *)
Lemma decode_reply config msg t ip :
  length (chaddr msg) = 6%nat → is_u32 (xid msg) →
  decode (reply_packet config msg t ip) =
  Ok (mkDhcp OP_REPLY HTYPE_ETHERNET HLEN_ETHERNET (xid msg) (mkIp 0 0 0 0) ip (server_ip config) (chaddr msg)
        (mkOptions (Some t) None (Some (server_ip config)) None 0)).
Proof. intros Hm Hx. unfold reply_packet. by rewrite decode_header, parse_reply_options. Qed.

Lemma decode_nak config msg :
  htype msg = HTYPE_ETHERNET → hlen msg = HLEN_ETHERNET → length (chaddr msg) = 6%nat → is_u32 (xid msg) →
  decode (nak_packet config msg) =
  Ok (mkDhcp OP_REPLY HTYPE_ETHERNET HLEN_ETHERNET (xid msg) (mkIp 0 0 0 0) (mkIp 0 0 0 0) (mkIp 0 0 0 0) (chaddr msg)
        (mkOptions (Some MSG_NAK) None (Some (server_ip config)) None 0)).
Proof.
  intros Ht Hl Hm Hx. unfold nak_packet. rewrite Ht, Hl. change no_ip with (octets (mkIp 0 0 0 0)).
  rewrite decode_header by done. by destruct (server_ip config).
Qed.

(** What the server reads. *)
Definition is_bytes (l : list Z) : Prop := Forall is_u8 l.

Lemma at_u8 buf i : is_bytes buf → is_u8 (at_ buf i).
Proof.
  intros H. unfold at_. destruct (buf !! i) as [b|] eqn:E; cbn; [|done].
  by eapply Forall_lookup_1.
Qed.

Lemma ip_at_octets buf i : is_bytes buf → is_octets (ip_at buf i).
Proof. intros H. repeat constructor; by apply at_u8. Qed.

Lemma be32_at_u32 buf i : is_bytes buf → is_u32 (be32_at buf i).
Proof.
  intros H. unfold be32_at, be16_at. pose proof (at_u8 buf i H). pose proof (at_u8 buf (i + 1) H).
  pose proof (at_u8 buf (i + 2) H). pose proof (at_u8 buf (i + 2 + 1) H).
  unfold is_u8, is_u32, u8_max, u32_max in *. lia.
Qed.

Definition opt_octets (a : option Ipv4Addr) : Prop := match a with Some a => is_octets a | None => True end.

Lemma parse_options_octets fuel buf o o' :
  is_bytes buf → opt_octets (requested_ip o) → parse_options_go fuel buf o = Ok o' → opt_octets (requested_ip o').
Proof.
  revert buf o. induction fuel as [|fuel IH]; intros buf o Hb Ho H; [cbn in H; by simplify_eq|].
  destruct buf as [|tag rest]; [cbn in H; by simplify_eq|]. apply Forall_cons in Hb as [_ Hb].
  cbn [parse_options_go] in H. destruct (tag =? OPT_END); [by simplify_eq|]. destruct (tag =? OPT_PAD); [by eapply IH|].
  destruct rest as [|len rest]; [done|]. apply Forall_cons in Hb as [_ Hb].
  destruct (length rest <? Z.to_nat len)%nat; [done|].
  apply IH in H; [done|by apply Forall_drop|].
  assert (is_bytes (take (Z.to_nat len) rest)) as Ht by by apply Forall_take.
  unfold apply_option. repeat case_match; first [exact Ho|by apply ip_at_octets].
Qed.

(** What the type of a decoded message guarantees. *)
Lemma decode_wf buf msg :
  is_bytes buf → decode buf = Ok msg →
  length (chaddr msg) = 6%nat ∧ is_u32 (xid msg) ∧ htype msg = HTYPE_ETHERNET ∧ hlen msg = HLEN_ETHERNET ∧
  is_octets (ciaddr msg) ∧ opt_octets (requested_ip (options msg)) ∧ is_Some (message_type (options msg)).
Proof.
  intros Hb. unfold decode. destruct (Nat.ltb_spec (length buf) (BOOTP_FIXED_LEN + length MAGIC_COOKIE)) as [|Hlen]; [done|].
  case_bool_decide; [done|]. destruct (negb (at_ buf 1 =? HTYPE_ETHERNET)) eqn:E1; [done|].
  destruct (negb (at_ buf 2 =? HLEN_ETHERNET)) eqn:E2; [done|]. cbn [orb].
  apply negb_false_iff, Z.eqb_eq in E1, E2.
  destruct (parse_options (drop (BOOTP_FIXED_LEN + 4) buf)) as [o|] eqn:Eo; [|done]. cbn.
  destruct (message_type o) eqn:Em; [|done]. intros [= <-]. cbn.
  split_and!; [|by apply be32_at_u32|done|done|by apply ip_at_octets| |by eauto].
  - rewrite length_take, length_drop. unfold BOOTP_FIXED_LEN, MAGIC_COOKIE in Hlen. cbn in Hlen. lia.
  - apply (parse_options_octets (length (drop (BOOTP_FIXED_LEN + 4) buf)) _ ParsedOptions_default o (Forall_drop _ _ _ Hb) I Eo).
Qed.

(** ** The lease table *)

(** The pool the table represents lies in one /24. *)
Definition wf_table (t : LeaseTable) : Prop :=
  length (entries t) = POOL_SIZE ∧ is_octets (table_start t) ∧ oct3 (table_start t) + 10 ≤ 255.

Definition pool_full (t : LeaseTable) (now : Z) : Prop := Forall (λ e, ¬ available t now e) (entries t).

Definition holder (t : LeaseTable) (idx : nat) : option Lease := default None (entries t !! idx).

Lemma set_entry_wf idx e t : wf_table t → wf_table (set_entry idx e t).
Proof. intros (H1 & H2). split; [by cbn; rewrite length_insert|done]. Qed.

Lemma addr_of_eq t idx : wf_table t → (idx < POOL_SIZE)%nat →
  addr_of t idx = mkIp (oct0 (table_start t)) (oct1 (table_start t)) (oct2 (table_start t)) (oct3 (table_start t) + Z.of_nat idx).
Proof.
  intros (_ & Hs & H) Hi. unfold addr_of. rewrite Z.mod_small; [done|].
  unfold is_octets, octets in Hs. rewrite !Forall_cons in Hs. destruct Hs as (_ & _ & _ & Ho & _).
  unfold is_u8, POOL_SIZE in *. lia.
Qed.

Lemma addr_of_inj t i j : wf_table t → (i < POOL_SIZE)%nat → (j < POOL_SIZE)%nat → addr_of t i = addr_of t j → i = j.
Proof. intros Ht Hi Hj. rewrite !addr_of_eq by done. intros [= H]. lia. Qed.

Lemma index_of_addr t a idx : wf_table t → index_of t a = Some idx → (idx < POOL_SIZE)%nat ∧ addr_of t idx = a.
Proof.
  intros Ht. unfold index_of. destruct (oct0 a =? _) eqn:E0; [|done]. destruct (oct1 a =? _) eqn:E1; [|done].
  destruct (oct2 a =? _) eqn:E2; [|done]. cbn [negb orb]. destruct (Z.ltb_spec (oct3 a) (oct3 (table_start t))); [done|].
  case_match eqn:E; [|done]. intros [= <-]. apply Nat.ltb_lt in E. split; [done|]. rewrite addr_of_eq by done.
  apply Z.eqb_eq in E0, E1, E2. destruct a; cbn in *. f_equal; lia.
Qed.

Lemma oldest_go_Some i l best : is_Some best ∨ Exists is_Some l → is_Some (oldest_go i l best).
Proof.
  revert i best. induction l as [|e l IH]; intros i best H; [destruct H as [H|H]; [done|by inversion H]|].
  destruct e as [e|]; cbn; apply IH.
  - left. repeat case_match; eauto.
  - destruct H as [H|H]; [by left|]. right. inversion H as [? ? Hs|]; [by destruct Hs|done].
Qed.

Lemma oldest_go_bound i l best j ts :
  oldest_go i l best = Some (j, ts) → best = Some (j, ts) ∨ (i ≤ j < i + length l)%nat.
Proof.
  revert i best. induction l as [|e l IH]; intros i best H; [by left|]. destruct e as [e|]; cbn in H.
  - apply IH in H as [H|H]; [|right; cbn; lia]. destruct best as [[k tk]|]; [case_match|].
    1,3: simplify_eq; right; cbn; lia. by left.
  - apply IH in H as [H|H]; [by left|right; cbn; lia].
Qed.

(** Whatever is asked for, a slot is claimed: the client's own, a free or expired one, or,
    when there is none, one of a full pool. *)
Lemma allocate_spec t mac req now :
  wf_table t → 
  ∃ idx, (idx < POOL_SIZE)%nat ∧
    allocate t mac req now = (Some (addr_of t idx), set_entry idx (Some (mkLease mac now)) t) ∧
    (holds_mac mac (holder t idx) ∨ available t now (holder t idx) ∨ pool_full t now).
Proof.
  intros Ht. pose proof Ht as (Hlen & _).
  assert (∃ idx, (idx < POOL_SIZE)%nat ∧
    allocate_any t mac now = (Some (addr_of t idx), set_entry idx (Some (mkLease mac now)) t) ∧
    (available t now (holder t idx) ∨ pool_full t now)) as Hany.
  { unfold allocate_any. destruct (list_find (available t now) (entries t)) as [[idx e]|] eqn:E; cbn.
    - apply list_find_Some in E as (Ei & Ha & _). exists idx. split; [rewrite <- Hlen; by eapply lookup_lt_Some|].
      split; [done|]. left. unfold holder. by rewrite Ei.
    - apply list_find_None in E.
      assert (is_Some (oldest_go 0 (entries t) None)) as [[idx ts] Ho].
      { apply oldest_go_Some. right. destruct (entries t) as [|e l]; [done|]. apply Forall_cons in E as [He _].
        left. destruct e; [eauto|]. by destruct He. }
      unfold oldest. rewrite Ho. cbn. apply oldest_go_bound in Ho as [Ho|Ho]; [done|].
      exists idx. split; [lia|]. split; [done|]. by right. }
  unfold allocate, find_by_mac. destruct (list_find (holds_mac mac) (entries t)) as [[idx e]|] eqn:E; cbn.
  { apply list_find_Some in E as (Ei & Ha & _). exists idx. split; [rewrite <- Hlen; by eapply lookup_lt_Some|].
    split; [done|]. left. unfold holder. by rewrite Ei. }
  destruct Hany as (i0 & H0 & Ea & Hor).
  assert (∃ idx, (idx < POOL_SIZE)%nat ∧
    allocate_any t mac now = (Some (addr_of t idx), set_entry idx (Some (mkLease mac now)) t) ∧
    (holds_mac mac (holder t idx) ∨ available t now (holder t idx) ∨ pool_full t now)) as Hany by eauto 6.
  destruct req as [req|]; [|done]. destruct (index_of t req) as [idx|] eqn:Ei; [|done].
  case_decide as Hav; [|done]. apply index_of_addr in Ei as [Hi <-]; [|done]. exists idx. by split_and!; auto.
Qed.

(** ** One datagram *)

(** [r] promises the address [a] to [mac]. *)
Definition grants (r mac : list Z) (a : Ipv4Addr) : Prop :=
  ∃ m, decode r = Ok m ∧ chaddr m = mac ∧ yiaddr m = a ∧ message_type (options m) ∈ [Some MSG_OFFER; Some MSG_ACK].

Definition declines (p mac : list Z) : Prop :=
  ∃ m, decode p = Ok m ∧ op m = OP_REQUEST ∧ chaddr m = mac ∧ message_type (options m) = Some MSG_DECLINE.

(** The reply to [msg] when the client's claim ended in slot [idx]. *)
Definition replied (config : DhcpServerConfig) (t : LeaseTable) (msg : DhcpMessage) (idx : nat) (reply : option (list Z)) : Prop :=
  (message_type (options msg) = Some MSG_DISCOVER ∧ reply = Some (reply_packet config msg MSG_OFFER (addr_of t idx))) ∨
  (message_type (options msg) = Some MSG_REQUEST ∧
   (reply = Some (reply_packet config msg MSG_ACK (addr_of t idx)) ∨ reply = Some (nak_packet config msg))).

(** What handling a datagram does to the table and what it answers. *)
Inductive served (config : DhcpServerConfig) (t : LeaseTable) (p : list Z) (now : Z) :
    option (list Z) → LeaseTable → Prop :=
| S_Silent : served config t p now None t
| S_Declined mac idx :
    declines p mac → holds_mac mac (holder t idx) →
    served config t p now None (set_entry idx None t)
| S_Claimed msg idx reply :
    decode p = Ok msg → (idx < POOL_SIZE)%nat →
    holds_mac (chaddr msg) (holder t idx) ∨ available t now (holder t idx) ∨ pool_full t now →
    replied config t msg idx reply →
    served config t p now reply (set_entry idx (Some (mkLease (chaddr msg) now)) t).

Lemma decide_request_spec config t msg now :
  wf_table t →
  (∃ o, decide_request msg t (server_ip config) now = (o, t) ∧ o ∈ [RO_Drop; RO_Ignore]) ∨
  (∃ idx o, decide_request msg t (server_ip config) now = (o, set_entry idx (Some (mkLease (chaddr msg) now)) t) ∧
     (idx < POOL_SIZE)%nat ∧ o ∈ [RO_Nak; RO_Ack (addr_of t idx)] ∧
     (holds_mac (chaddr msg) (holder t idx) ∨ available t now (holder t idx) ∨ pool_full t now)).
Proof.
  intros Ht. unfold decide_request. match goal with |- context[if ?b then (RO_Ignore, t) else _] => destruct b end.
  { left. eexists. split; [done|]. set_solver. }
  match goal with |- context[if ?b then (RO_Drop, t) else _] => destruct b end.
  { left. eexists. split; [done|]. set_solver. }
  destruct (allocate_spec t (chaddr msg) (explicit_ip msg) now Ht) as (idx & Hi & -> & Hor). right.
  exists idx. match goal with |- context[if ?b then (RO_Nak, _) else _] => destruct b end.
  all: eexists; split; [done|]; split; [done|]; split; [set_solver|done].
Qed.

Lemma serve_spec config t p now :
  wf_table t → is_bytes p → served config t p now (fst (serve config t p now)) (snd (serve config t p now)).
Proof.
  intros Ht Hp. unfold serve. destruct (decode p) as [msg|] eqn:Ed; [|apply S_Silent].
  destruct (decode_wf p msg Hp Ed) as (Hm & _). destruct (op msg =? OP_REQUEST) eqn:Eop; [|apply S_Silent].
  apply Z.eqb_eq in Eop. cbn [negb]. destruct (message_type (options msg)) as [mt|] eqn:Emt; [|apply S_Silent].
  unfold handle_message. destruct (Z.eqb_spec mt MSG_DISCOVER) as [->|_].
  { destruct (allocate_spec t (chaddr msg) (requested_ip (options msg)) now Ht) as (idx & Hi & -> & Hor).
    apply S_Claimed; [done|done|done|]. left. split; [done|]. cbn. by apply send_reply_eq. }
  destruct (Z.eqb_spec mt MSG_REQUEST) as [->|_].
  { destruct (decide_request_spec config t msg now Ht) as [(o & -> & Ho)|(idx & o & -> & Hi & Ho & Hor)].
    - apply elem_of_cons in Ho as [->|Ho%list_elem_of_singleton]; [apply S_Silent|subst; apply S_Silent].
    - apply elem_of_cons in Ho as [->|Ho%list_elem_of_singleton]; [|subst o];
        (apply S_Claimed; [done|done|done|]); right; (split; [done|]).
      + right. by apply do_send_nak_eq.
      + left. by apply send_reply_eq. }
  destruct (Z.eqb_spec mt MSG_DECLINE) as [->|_]; [|apply S_Silent].
  unfold find_by_mac. destruct (list_find (holds_mac (chaddr msg)) (entries t)) as [[idx e]|] eqn:E; [|apply S_Silent].
  apply list_find_Some in E as (Ei & Hh & _). cbn. eapply S_Declined.
  - by exists msg.
  - unfold holder. by rewrite Ei.
Qed.

Lemma served_wf config t p now r t' :
  served config t p now r t' → wf_table t →
  wf_table t' ∧ table_start t' = table_start t ∧ table_lease t' = table_lease t.
Proof. intros [] Ht; (split; [|done]); [done|by apply set_entry_wf..]. Qed.

(** A grant is the claim of the slot of the address. *)
Lemma served_grant config t p now r t' mac a :
  served config t p now (Some r) t' → is_bytes p → grants r mac a →
  ∃ idx, (idx < POOL_SIZE)%nat ∧ a = addr_of t idx ∧ t' = set_entry idx (Some (mkLease mac now)) t.
Proof.
  intros H Hp (m & Hd & Hm & Ha & Ht). inversion H as [| |msg idx reply Ed Hi Hor Hr]; subst.
  destruct (decode_wf p msg Hp Ed) as (H6 & Hx & Hty & Hl & _). exists idx. split; [done|].
  assert (∀ t0 : Z, r = reply_packet config msg t0 (addr_of t idx) → yiaddr m = addr_of t idx ∧ chaddr msg = chaddr m) as Hyes.
  { intros t0 ->. rewrite decode_reply in Hd by done. by injection Hd as <-. }
  destruct Hr as [[_ [= Hr]]|[_ [[= Hr]|[= Hr]]]].
  1,2: by destruct (Hyes _ Hr) as [-> ->].
  subst r. rewrite decode_nak in Hd by done. injection Hd as <-. cbn in Ht.
  exfalso. apply elem_of_cons in Ht as [[=]|Ht%list_elem_of_singleton]. done.
Qed.

(** A lease stays unless it expired, its client declined it, or the pool was full. *)
Lemma served_keeps config t p now r t' idx mac ts :
  served config t p now r t' → wf_table t →
  holder t idx = Some (mkLease mac ts) → ts ≤ now →
  (∃ ts', holder t' idx = Some (mkLease mac ts') ∧ ts ≤ ts') ∨
  table_lease t ≤ Z.max 0 (now - ts) ∨ declines p mac ∨ pool_full t now.
Proof.
  intros H Ht Hh Hts.
  assert (∀ i e, holder (set_entry i e t) idx = if decide (i = idx ∧ (idx < POOL_SIZE)%nat) then e else holder t idx) as Hset.
  { intros i e. unfold holder, set_entry. cbn. case_decide as Hd.
    - destruct Hd as [-> Hd]. rewrite list_lookup_insert_eq; [done|]. by destruct Ht as [-> _].
    - destruct (decide (i = idx)) as [->|]; [|by rewrite list_lookup_insert_ne].
      rewrite list_insert_ge; [done|]. destruct Ht as [-> _]. lia. }
  destruct H as [|mac' i Hd Hm|msg i reply Ed Hi Hor _]; [left; by exists ts|..];
    rewrite Hset; (destruct (decide (i = idx ∧ (idx < POOL_SIZE)%nat)) as [[-> _]|_]; [|left; by exists ts]).
  - rewrite Hh in Hm. cbn in Hm. subst. auto.
  - rewrite Hh in Hor. destruct Hor as [<-|[Ha|Hf]]; [|right; left|auto].
    + left. by exists now.
    + unfold available, is_expired in Ha. apply Z.leb_le in Ha. exact Ha.
Qed.

(** ** Runs *)

Definition table_before (config : DhcpServerConfig) (packets : list (list Z * Z)) (k : nat) : LeaseTable :=
  snd (serve_all config (LeaseTable_new (pool_start config) (lease_secs config)) (take k packets)).

Lemma serve_all_app config t l1 l2 :
  serve_all config t (l1 ++ l2) =
  (fst (serve_all config t l1) ++ fst (serve_all config (snd (serve_all config t l1)) l2),
   snd (serve_all config (snd (serve_all config t l1)) l2)).
Proof.
  revert t. induction l1 as [|[p now] l1 IH]; intros t; cbn; [by destruct (serve_all config t l2)|].
  destruct (serve config t p now) as [r t1]. rewrite IH.
  destruct (serve_all config t1 l1) as [rs t2]. by destruct (serve_all config t2 l2).
Qed.

Lemma serve_all_length config t l : length (fst (serve_all config t l)) = length l.
Proof.
  revert t. induction l as [|[p now] l IH]; intros t; cbn; [done|].
  destruct (serve config t p now) as [r t1]. specialize (IH t1). destruct (serve_all config t1 l). cbn in *. lia.
Qed.

(** The [k]-th datagram of a run. *)
Lemma serve_all_at config packets k p now :
  packets !! k = Some (p, now) →
  fst (serve_all config (LeaseTable_new (pool_start config) (lease_secs config)) packets) !! k =
    Some (fst (serve config (table_before config packets k) p now)) ∧
  table_before config packets (S k) = snd (serve config (table_before config packets k) p now).
Proof.
  intros Hk. unfold table_before. rewrite (take_S_r _ _ _ Hk), serve_all_app.
  set (t0 := LeaseTable_new _ _). rewrite <- (take_drop_middle packets k (p, now) Hk) at 1.
  rewrite serve_all_app. cbn [fst snd]. rewrite lookup_app_r; rewrite serve_all_length, length_take_le.
  all: try (apply lookup_lt_Some in Hk; lia).
  rewrite Nat.sub_diag. cbn. destruct (serve config _ p now) as [r t1].
  by destruct (serve_all config t1 _).
Qed.

Section run.
  Variables (config : DhcpServerConfig) (packets : list (list Z * Z)).
  Hypothesis Hip : is_octets (pool_start config) ∧ is_octets (pool_end config).
  Hypothesis Hbytes : Forall (λ x, is_bytes (fst x)) packets.
  Hypothesis Hgeo : validate_pool_geometry (pool_start config) (pool_end config) POOL_SIZE = Ok tt.

Lemma geometry_fits :
  oct3 (pool_start config) + 10 ≤ 255 ∧
  pool_end config = mkIp (oct0 (pool_start config)) (oct1 (pool_start config)) (oct2 (pool_start config)) (oct3 (pool_start config) + 10).
Proof using Hip Hgeo.
  destruct Hip as [Hs He]. revert Hgeo. unfold validate_pool_geometry.
  destruct (negb _) eqn:Ec; [done|]. case_bool_decide as Hb; [done|]. intros _.
  apply negb_false_iff, Z.eqb_eq in Ec. injection Hb as H0 H1 H2.
  unfold is_octets, octets, ip_u32 in *. rewrite !Forall_cons in Hs, He. unfold is_u8, u8_max, u32_max, POOL_SIZE in *.
  destruct (pool_end config) as [e0 e1 e2 e3]. cbn in *. subst. split; [lia|]. f_equal. lia.
Qed.

Lemma table_before_wf k :
  wf_table (table_before config packets k) ∧ table_start (table_before config packets k) = pool_start config ∧
  table_lease (table_before config packets k) = lease_secs config.
Proof using Hip Hbytes Hgeo.
  induction k as [|k (IH1 & IH2 & IH3)].
  { split; [|done]. split; [done|]. split; [apply Hip|apply geometry_fits]. }
  destruct (packets !! k) as [[p now]|] eqn:Ek.
  - destruct (serve_all_at config packets k p now Ek) as [_ ->].
    assert (is_bytes p) as Hp by by eapply (Forall_lookup_1 _ _ _ (p, now) Hbytes).
    destruct (served_wf config _ p now _ _ (serve_spec config _ p now IH1 Hp) IH1) as (H1 & H2 & H3).
    by rewrite H2, H3.
  - unfold table_before in *. apply lookup_ge_None in Ek. by rewrite take_ge in * by lia.
Qed.

Lemma run_at k p now : packets !! k = Some (p, now) →
  dhcp_run config packets !! k = Some (fst (serve config (table_before config packets k) p now)) ∧
  served config (table_before config packets k) p now (fst (serve config (table_before config packets k) p now))
    (table_before config packets (S k)) ∧ is_bytes p.
Proof using Hip Hbytes Hgeo.
  intros Ek. unfold dhcp_run. rewrite Hgeo. destruct (serve_all_at config packets k p now Ek) as [E1 E2].
  assert (is_bytes p) as Hp by by eapply (Forall_lookup_1 _ _ _ (p, now) Hbytes).
  split; [exact E1|]. rewrite E2. split; [|done]. apply serve_spec; [|done]. apply table_before_wf.
Qed.

End run.

(** The clock does not go back. *)
Definition ordered (packets : list (list Z * Z)) : Prop :=
  ∀ i j p q t u, (i ≤ j)%nat → packets !! i = Some (p, t) → packets !! j = Some (q, u) → t ≤ u.

(** Between two datagrams a lease stays, runs out, is declined, or the pool was full. *)
Lemma lease_kept config packets i j p t mac idx :
  is_octets (pool_start config) ∧ is_octets (pool_end config) →
  Forall (λ x, is_bytes (fst x)) packets →
  validate_pool_geometry (pool_start config) (pool_end config) POOL_SIZE = Ok tt →
  ordered packets → packets !! i = Some (p, t) → (i < j)%nat → (j ≤ length packets)%nat →
  holder (table_before config packets (S i)) idx = Some (mkLease mac t) →
  (∃ ts, holder (table_before config packets j) idx = Some (mkLease mac ts) ∧ t ≤ ts ∧
         ∀ q u, packets !! j = Some (q, u) → ts ≤ u) ∨
  (∃ k q u, (i < k < j)%nat ∧ packets !! k = Some (q, u) ∧
     (lease_secs config ≤ u - t ∨ declines q mac ∨ pool_full (table_before config packets k) u)).
Proof.
  intros Hip Hb Hg Hord Hi Hlt Hj Hh. induction j as [|j IH]; [lia|].
  destruct (decide (j = i)) as [->|Hne].
  { left. exists t. split; [done|]. split; [done|]. intros q u Hq. eapply (Hord i); [|exact Hi|exact Hq]; lia. }
  destruct IH as [(ts & H1 & H2 & H3)|(k & q & u & Hk & Hq & H)]; [lia|lia| |right; exists k, q, u; split; [lia|done]].
  destruct (lookup_lt_is_Some_2 packets j ltac:(lia)) as [[q u] Hq].
  destruct (run_at config packets Hip Hb Hg j q u Hq) as (_ & Hs & _).
  destruct (table_before_wf config packets Hip Hb Hg j) as (Hwf & _ & Hlease).
  destruct (served_keeps _ _ _ _ _ _ idx mac ts Hs Hwf H1 (H3 _ _ Hq)) as [(ts' & H4 & H5)|Hesc].
  - left. exists ts'. split; [done|]. split; [lia|]. intros q' u' Hq'.
    enough (ts' ≤ u) by (enough (u ≤ u') by lia; eapply (Hord j); [|exact Hq|exact Hq']; lia).
    specialize (H3 _ _ Hq). unfold holder in H1, H4. inversion Hs as [E1 E2|m0 i0 _ _ E1 E2|msg i0 r0 _ Hi0 _ _ E1 E2].
    + rewrite <- E2, H1 in H4. by simplify_eq.
    + rewrite <- E2 in H4. cbn in H4. destruct (decide (i0 = idx)) as [->|].
      * destruct (decide (idx < length (entries (table_before config packets j)))%nat).
        -- by rewrite list_lookup_insert_eq in H4.
        -- rewrite list_insert_ge, H1 in H4 by lia. by simplify_eq.
      * rewrite list_lookup_insert_ne, H1 in H4 by done. by simplify_eq.
    + rewrite <- E2 in H4. cbn in H4. destruct (decide (i0 = idx)) as [->|].
      * rewrite list_lookup_insert_eq in H4; [cbn in H4; by simplify_eq|]. by destruct Hwf as [-> _].
      * rewrite list_lookup_insert_ne, H1 in H4 by done. by simplify_eq.
  - right. exists j, q, u. split; [lia|]. split; [done|]. rewrite Hlease in Hesc.
    destruct Hesc as [He|Hesc]; [left|by right]. assert (t ≤ u) by (eapply (Hord i); [|exact Hi|exact Hq]; lia). lia.
Qed.

(** C24: An address is promised to one client at a time.  In any run of the server on datagrams
    read by a clock that does not go back, if an OFFER or ACK gives an address to one client
    and a later one gives it to another, then the first lease had run out by then, or the
    first client had declined it, or every address of the pool was leased at some moment
    in between (and the oldest lease was given up). *)
Theorem dhcp_no_conflict config packets i j p t q u ri rj m1 m2 a :
  is_octets (pool_start config) ∧ is_octets (pool_end config) →
  Forall (λ x, is_bytes (fst x)) packets → ordered packets → (i < j)%nat →
  packets !! i = Some (p, t) → packets !! j = Some (q, u) →
  dhcp_run config packets !! i = Some (Some ri) → dhcp_run config packets !! j = Some (Some rj) →
  grants ri m1 a → grants rj m2 a → m1 ≠ m2 →
  ∃ k s v, (i < k ≤ j)%nat ∧ packets !! k = Some (s, v) ∧
    (lease_secs config ≤ v - t ∨ declines s m1 ∨ pool_full (table_before config packets k) v).
Proof.
  intros Hip Hb Hord Hij Hi Hj Ri Rj Gi Gj Hm.
  destruct (validate_pool_geometry (pool_start config) (pool_end config) POOL_SIZE) as [[]|e] eqn:Hg.
  2: { unfold dhcp_run in Ri. rewrite Hg in Ri. apply list_lookup_fmap_Some in Ri as (? & ? & _). done. }
  destruct (run_at config packets Hip Hb Hg i p t Hi) as (Ei & Si & Bi).
  destruct (run_at config packets Hip Hb Hg j q u Hj) as (Ej & Sj & Bj).
  rewrite Ri in Ei. rewrite Rj in Ej. injection Ei as Ei. injection Ej as Ej. rewrite <- Ei in Si. rewrite <- Ej in Sj.
  destruct (served_grant _ _ _ _ _ _ _ _ Si Bi Gi) as (idx & Hidx & Ha & Ti).
  destruct (served_grant _ _ _ _ _ _ _ _ Sj Bj Gj) as (idx' & Hidx' & Ha' & Tj).
  destruct (table_before_wf config packets Hip Hb Hg i) as (Wi & Start_i & _).
  destruct (table_before_wf config packets Hip Hb Hg j) as (Wj & Start_j & Lj).
  assert (idx' = idx) as ->.
  { apply (addr_of_inj (table_before config packets j)); [done..|]. rewrite <- Ha', Ha.
    unfold addr_of. by rewrite Start_i, Start_j. }
  assert (holder (table_before config packets (S i)) idx = Some (mkLease m1 t)) as Hh.
  { rewrite Ti. unfold holder. cbn. rewrite list_lookup_insert_eq; [done|]. by destruct Wi as [-> _]. }
  assert (j ≤ length packets)%nat as Hlen by (apply lookup_lt_Some in Hj; lia).
  destruct (lease_kept config packets i j p t m1 idx Hip Hb Hg Hord Hi Hij Hlen Hh)
    as [(ts & H1 & H2 & H3)|(k & s & v & Hk & Hs & H)]; [|exists k, s, v; split; [lia|done]].
  exists j, q, u. split; [lia|]. split; [done|].
  destruct (served_keeps _ _ _ _ _ _ idx m1 ts Sj Wj H1 (H3 _ _ Hj)) as [(ts' & H4 & _)|Hesc].
  - rewrite Tj in H4. unfold holder in H4. cbn in H4. rewrite list_lookup_insert_eq in H4; [cbn in H4; by simplify_eq|].
    by destruct Wj as [-> _].
  - rewrite Lj in Hesc. destruct Hesc as [He|Hesc]; [left|by right].
    assert (t ≤ u) by (eapply (Hord i); [|exact Hi|exact Hj]; lia). lia.
Qed.

(** Every reply answers its request.  Whatever datagrams arrive, a reply is sent only to a
    well-formed DISCOVER or REQUEST; read back by the same decoder it is a BOOTREPLY with
    the transaction and hardware address of the request and the identity of this server, an
    OFFER to a DISCOVER, an ACK or a NAK to a REQUEST, and unless it is a NAK it assigns an
    address of the configured pool. *)
Lemma dhcp_reply_answers config packets k p now r :
  is_octets (pool_start config) ∧ is_octets (pool_end config) →
  Forall (λ x, is_bytes (fst x)) packets →
  packets !! k = Some (p, now) → dhcp_run config packets !! k = Some (Some r) →
  ∃ msg m, decode p = Ok msg ∧ decode r = Ok m ∧ op m = OP_REPLY ∧ xid m = xid msg ∧ chaddr m = chaddr msg ∧
    server_id (options m) = Some (server_ip config) ∧
    (message_type (options msg), message_type (options m)) ∈
      [(Some MSG_DISCOVER, Some MSG_OFFER); (Some MSG_REQUEST, Some MSG_ACK); (Some MSG_REQUEST, Some MSG_NAK)] ∧
    (message_type (options m) ≠ Some MSG_NAK →
     ip_u32 (pool_start config) ≤ ip_u32 (yiaddr m) ≤ ip_u32 (pool_end config)).
Proof.
  intros Hip Hb Hk Rk.
  destruct (validate_pool_geometry (pool_start config) (pool_end config) POOL_SIZE) as [[]|e] eqn:Hg.
  2: { unfold dhcp_run in Rk. rewrite Hg in Rk. apply list_lookup_fmap_Some in Rk as (? & ? & _). done. }
  destruct (run_at config packets Hip Hb Hg k p now Hk) as (Ek & Sk & Bk).
  rewrite Rk in Ek. injection Ek as Ek. rewrite <- Ek in Sk.
  destruct (table_before_wf config packets Hip Hb Hg k) as (Wk & Hstart & _).
  inversion Sk as [| |msg idx reply Ed Hi _ Hr E1 E2]; subst.
  destruct (decode_wf p msg Bk Ed) as (H6 & Hx & Hty & Hl & _). exists msg.
  assert (ip_u32 (pool_start config) ≤ ip_u32 (addr_of (table_before config packets k) idx) ≤ ip_u32 (pool_end config)) as Hpool.
  { destruct (geometry_fits config Hip Hg) as [_ ->]. rewrite addr_of_eq, Hstart by done.
    unfold ip_u32, POOL_SIZE in *. cbn. lia. }
  destruct Hr as [[Hmt [= ->]]|[Hmt [[= ->]|[= ->]]]]; rewrite Hmt.
  1,2: eexists; split; [done|]; split; [by apply decode_reply|]; cbn; split_and!; [done..|set_solver|done].
  eexists. split; [done|]. split; [by apply decode_nak|]. cbn. split_and!; [done..|set_solver|done].
Qed.

(** ** Examples *)

Definition zero_ip : Ipv4Addr := mkIp 0 0 0 0.

(** A client's datagram: its message type and, in a REQUEST, the address it asks for. *)
Definition client_packet (t : Z) (mac : list Z) (req : option Ipv4Addr) : list Z :=
  bootp_header OP_REQUEST HTYPE_ETHERNET HLEN_ETHERNET 287454020 true (octets zero_ip) (octets zero_ip) (octets zero_ip) mac ++
  [OPT_MSG_TYPE; 1; t] ++ match req with Some a => [OPT_REQUESTED_IP; 4] ++ octets a | None => [] end ++ [OPT_END].

Definition mac_a : list Z := [2; 0; 0; 0; 0; 10].
Definition mac_b : list Z := [2; 0; 0; 0; 0; 11].
Definition first_ip : Ipv4Addr := mkIp 192 168 4 10.

Definition phones : list (list Z * Z) :=
  [(client_packet MSG_DISCOVER mac_a None, 100);
   (client_packet MSG_REQUEST mac_a (Some first_ip), 101);
   (client_packet MSG_REQUEST mac_b (Some first_ip), 102);
   (client_packet MSG_DISCOVER mac_b None, 103);
   (client_packet MSG_DECLINE mac_a None, 104);
   (client_packet MSG_DISCOVER [2; 0; 0; 0; 0; 12] (Some first_ip), 105)].

Example phones_run :
  map (λ r, match r with
            | Some r => match decode r with Ok m => (message_type (options m), oct3 (yiaddr m)) | Err _ => (None, 0) end
            | None => (None, 0)
            end) (dhcp_run DhcpServerConfig_default phones) =
  [(Some MSG_OFFER, 10); (Some MSG_ACK, 10); (Some MSG_NAK, 0); (Some MSG_OFFER, 11); (None, 0); (Some MSG_OFFER, 10)].
Proof. vm_compute. reflexivity. Qed.

Lemma phones_bytes : Forall (λ x, is_bytes (fst x)) phones.
Proof. apply (bool_decide_unpack _). vm_compute. exact I. Qed.

Lemma phones_ordered : ordered phones.
Proof.
  intros i j p q t u Hij Hp Hq.
  destruct i as [|[|[|[|[|[|i]]]]]]; [..|by inversion Hp];
    (destruct j as [|[|[|[|[|[|j]]]]]]; [..|by inversion Hq]);
    first [lia|injection Hp as _ <-; injection Hq as _ <-; lia].
Qed.

Lemma default_octets : is_octets (pool_start DhcpServerConfig_default) ∧ is_octets (pool_end DhcpServerConfig_default).
Proof. apply (bool_decide_unpack _). vm_compute. exact I. Qed.

(** The address declined by the first phone goes to the third. *)
Lemma dhcp_no_conflict_witness :
  ∃ k s v, (1 < k ≤ 5)%nat ∧ phones !! k = Some (s, v) ∧
    (lease_secs DhcpServerConfig_default ≤ v - 101 ∨ declines s mac_a ∨
     pool_full (table_before DhcpServerConfig_default phones k) v).
Proof.
  refine (dhcp_no_conflict DhcpServerConfig_default phones 1 5 _ 101 _ 105 _ _ mac_a [2; 0; 0; 0; 0; 12] first_ip
    default_octets phones_bytes phones_ordered _ eq_refl eq_refl eq_refl eq_refl _ _ _).
  - lia.
  - eexists. split; [vm_compute; reflexivity|]. split_and!; [reflexivity..|]. vm_compute. right. left.
  - eexists. split; [vm_compute; reflexivity|]. split_and!; [reflexivity..|]. vm_compute. left.
  - discriminate.
Defined.

Lemma dhcp_reply_answers_witness :
  ∃ msg m, decode (client_packet MSG_REQUEST mac_a (Some first_ip)) = Ok msg ∧
    decode (default [] (default None (dhcp_run DhcpServerConfig_default phones !! 1%nat))) = Ok m ∧
    op m = OP_REPLY ∧ xid m = xid msg ∧ chaddr m = chaddr msg ∧
    server_id (options m) = Some (server_ip DhcpServerConfig_default) ∧
    (message_type (options msg), message_type (options m)) ∈
      [(Some MSG_DISCOVER, Some MSG_OFFER); (Some MSG_REQUEST, Some MSG_ACK); (Some MSG_REQUEST, Some MSG_NAK)] ∧
    (message_type (options m) ≠ Some MSG_NAK →
     ip_u32 (pool_start DhcpServerConfig_default) ≤ ip_u32 (yiaddr m) ≤ ip_u32 (pool_end DhcpServerConfig_default)).
Proof.
  refine (dhcp_reply_answers DhcpServerConfig_default phones 1 _ 101 _ default_octets phones_bytes eq_refl _).
  vm_compute. reflexivity.
Defined.
