(* ===== verification/Dns.v ===== *)
(** * Dns: the DNS catch-all responders of the captive portal ([provisioning/dns_catchall.rs] of
    the bare-metal tier and [provisioning/dns.rs] of the ESP-IDF tier)

    A datagram is the list of its bytes; an encoder's result is the part of the buffer it
    filled, [cap] the buffer's length. *)
From S2P Require Import Prelude Dhcp.
Open Scope Z_scope.

(** ** The bare-metal tier *)

Definition DNS_MSG_MAX : nat := 512.
Definition DNS_MIN_QUERY : nat := 17.
Definition QNAME_MAX_WIRE : Z := 255.
Definition LABEL_MAX : Z := 63.
Definition COMPRESSION_MASK : Z := 192.
Definition FLAG_QR : Z := 32768.
Definition FLAG_RD : Z := 256.

Record DnsCatchallConfig := mkCatchall { answer_ip : Ipv4Addr; ttl_secs : Z }.

Definition DnsCatchallConfig_default : DnsCatchallConfig := mkCatchall (mkIp 192 168 4 1) 60.

Inductive DnsError :=
| NE_TooShort | NE_NotAQuery | NE_UnsupportedQuestionCount | NE_CompressionPointerNotAllowed
| NE_MalformedName | NE_Truncated | NE_BufferTooSmall.

#[export] Instance DnsError_eq_dec : EqDecision DnsError.
Proof. solve_decision. Defined.

(** [qname_range] starts at 12; here is where it ends. *)
Record DnsQuery := mkQuery { qid : Z; qflags : Z; qname_end : nat; qtype : Z; qclass : Z }.

(** The loop over the labels; every turn advances by at least one byte. *)
Fixpoint walk_qname (fuel : nat) (buf : list Z) (pos : nat) (wire_len : Z) : result DnsError nat :=
  match fuel with
  | O => Err NE_Truncated
  | S fuel =>
      if (length buf <=? pos)%nat then Err NE_Truncated
      else
        let len_byte := at_ buf pos in
        if Z.land len_byte COMPRESSION_MASK =? COMPRESSION_MASK then Err NE_CompressionPointerNotAllowed
        else if negb (Z.land len_byte 128 =? 0) then Err NE_MalformedName
        else
          let wire_len := wire_len + 1 in
          if QNAME_MAX_WIRE <? wire_len then Err NE_MalformedName
          else if len_byte =? 0 then Ok (pos + 1)%nat
          else if LABEL_MAX <? len_byte then Err NE_MalformedName
          else
            let wire_len := wire_len + len_byte in
            if QNAME_MAX_WIRE <? wire_len then Err NE_MalformedName
            else walk_qname fuel buf (pos + (1 + Z.to_nat len_byte)) wire_len
  end.

Definition decode_query (buf : list Z) : result DnsError DnsQuery :=
  if (length buf <? DNS_MIN_QUERY)%nat then Err NE_TooShort
  else
    let id := be16_at buf 0 in
    let flags := be16_at buf 2 in
    let qdcount := be16_at buf 4 in
    if negb (Z.land flags FLAG_QR =? 0) then Err NE_NotAQuery
    else if negb (qdcount =? 1) then Err NE_UnsupportedQuestionCount
    else
      pos ← walk_qname (S (length buf)) buf 12 0;
      if (length buf <? pos + 4)%nat then Err NE_Truncated
      else Ok (mkQuery id flags pos (be16_at buf pos) (be16_at buf (pos + 2))).

Definition be16_bytes (n : Z) : list Z := [(n / 256) `mod` 256; n `mod` 256].

(** [buf[lo..hi]] *)
Definition bytes_range (buf : list Z) (lo hi : nat) : list Z := take (hi - lo) (drop lo buf).

Definition encode_response (cap : nat) (query : DnsQuery) (query_buf : list Z) (answer_ip : Ipv4Addr) (ttl_secs : Z) :
    result DnsError (list Z) :=
  let qname_bytes := bytes_range query_buf 12 (qname_end query) in
  let needed := (12 + length qname_bytes + 4 + 16)%nat in
  if (cap <? needed)%nat then Err NE_BufferTooSmall
  else
    let resp_flags := Z.lor 33792 (Z.land (qflags query) FLAG_RD) in
    Ok (be16_bytes (qid query) ++ be16_bytes resp_flags ++ be16_bytes 1 ++ be16_bytes 1 ++ be16_bytes 0 ++ be16_bytes 0 ++
        qname_bytes ++ be16_bytes (qtype query) ++ be16_bytes (qclass query) ++
        [192; 12] ++ be16_bytes 1 ++ be16_bytes 1 ++ be32_bytes ttl_secs ++ be16_bytes 4 ++ octets answer_ip).

(** One turn of [run]: [None] is an error of [recv_from], which is how [embassy-net] reports a
    datagram that is longer than the buffer; a count beyond the buffer is clamped. *)
Definition dns_serve (config : DnsCatchallConfig) (received : option (list Z)) : option (list Z) :=
  match received with
  | None => None
  | Some datagram =>
      let rx := take DNS_MSG_MAX datagram in
      match decode_query rx with
      | Err _ => None
      | Ok query => result_ok (encode_response DNS_MSG_MAX query rx (answer_ip config) (ttl_secs config))
      end
  end.

(** ** The ESP-IDF tier *)

Definition DNS_BUF_LEN : nat := 512.
Definition ANSWER_TTL : Z := 60.
Definition TYPE_A : Z := 1.
Definition CLASS_IN : Z := 1.

(** The loop of [parse_question]; [None] is an access out of bounds. *)
Fixpoint walk_labels (fuel : nat) (request : list Z) (i : nat) : option nat :=
  match fuel with
  | O => None
  | S fuel =>
      len ← request !! i;
      if len =? 0 then Some (i + 1)%nat
      else if negb (Z.land len 192 =? 0) then None
      else
        let i := (i + (1 + Z.to_nat len))%nat in
        if (length request <? i)%nat then None else walk_labels fuel request i
  end.

Definition parse_question (request : list Z) : option (nat * Z) :=
  i ← walk_labels (S (length request)) request 12;
  qtype_hi ← request !! i;
  qtype_lo ← request !! (i + 1)%nat;
  _ ← request !! (i + 3)%nat;
  Some (i, qtype_hi * 256 + qtype_lo).

Definition build_response (request : list Z) (ap_ip : Ipv4Addr) : option (list Z) :=
  if (length request <? 12)%nat then None
  else if negb (be16_at request 4 =? 1) then None
  else
    '(qname_end, qtype) ← parse_question request;
    let answer := (qtype =? TYPE_A) || (qtype =? 255) in
    Some (bytes_range request 0 2 ++ [132; 0] ++ [0; 1] ++ be16_bytes (if answer then 1 else 0) ++ [0; 0] ++ [0; 0] ++
          bytes_range request 12 (qname_end + 4) ++
          (if answer
           then [192; 12] ++ be16_bytes TYPE_A ++ be16_bytes CLASS_IN ++ be32_bytes ANSWER_TTL ++ be16_bytes 4 ++ octets ap_ip
           else [])).

(** One turn of the loop: a read error or a time-out answers nothing. *)
Definition dns_turn (ap_ip : Ipv4Addr) (received : option (list Z)) : option (list Z) :=
  match received with
  | Some datagram => build_response (take DNS_BUF_LEN datagram) ap_ip
  | None => None
  end.

(** [DnsResponder] and [run]: the loop reads the flag before every receive; [stop] and [drop]
    set it. *)
Fixpoint dns_thread (ap_ip : Ipv4Addr) (inputs : list (bool * option (list Z))) : list (option (list Z)) :=
  match inputs with
  | [] => []
  | (shutdown, received) :: inputs => if (shutdown : bool) then [] else dns_turn ap_ip received :: dns_thread ap_ip inputs
  end.

(** ** which DNS queries are answered, and how *)

(** ** Names on the wire *)

Fixpoint name_bytes (labels : list (list Z)) : list Z :=
  match labels with
  | [] => [0]
  | l :: labels => Z.of_nat (length l) :: l ++ name_bytes labels
  end.

Definition valid_label (l : list Z) : Prop := (1 ≤ length l ≤ 63)%nat.

(** The labels from [pos] on, up to [e]. *)
Inductive reads_name (buf : list Z) : nat → nat → list (list Z) → Prop :=
| RN_root pos : buf !! pos = Some 0 → reads_name buf pos (pos + 1) []
| RN_label pos e l ls :
    buf !! pos = Some (Z.of_nat (length l)) → valid_label l → take (length l) (drop (S pos) buf) = l →
    reads_name buf (pos + (1 + length l)) e ls → reads_name buf pos e (l :: ls).

Lemma reads_name_spec buf pos e ls :
  reads_name buf pos e ls ↔
  e = (pos + length (name_bytes ls))%nat ∧ Forall valid_label ls ∧ drop pos buf = name_bytes ls ++ drop e buf.
Proof.
  split.
  - induction 1 as [pos H|pos e l ls H Hv Ht _ (IH1 & IH2 & IH3)].
    + split_and!; [done|done|]. rewrite (drop_S _ _ _ H). cbn. by rewrite Nat.add_1_r.
    + split_and!; [cbn; rewrite length_app; lia|by constructor|].
      rewrite (drop_S _ _ _ H). cbn [name_bytes app]. f_equal. rewrite <- app_assoc, <- IH3.
      rewrite <- (take_drop (length l) (drop (S pos) buf)) at 1. rewrite Ht, drop_drop. do 2 f_equal. lia.
  - intros (-> & Hv & H). revert pos H. induction Hv as [|l ls Hl Hv IH]; intros pos H.
    + apply RN_root. rewrite <- (Nat.add_0_r pos), <- lookup_drop, H. done.
    + cbn [name_bytes app] in H.
      assert (buf !! pos = Some (Z.of_nat (length l))) as Hp by (rewrite <- (Nat.add_0_r pos), <- lookup_drop, H; done).
      rewrite (drop_S _ _ _ Hp) in H. injection H as H. rewrite <- app_assoc in H.
      assert (take (length l) (drop (S pos) buf) = l) as Ht by (rewrite H; apply take_app_length).
      assert (drop (pos + (1 + length l)) buf = name_bytes ls ++ drop (pos + length (name_bytes (l :: ls))) buf) as Hd.
      { replace (pos + (1 + length l))%nat with (S pos + length l)%nat by lia.
        rewrite <- drop_drop, H, drop_app_length. done. }
      cbn [name_bytes length]. rewrite length_app.
      replace (pos + S (length l + length (name_bytes ls)))%nat with (pos + (1 + length l) + length (name_bytes ls))%nat by lia.
      eapply RN_label; [done..|]. apply IH. rewrite Hd. do 2 f_equal. cbn [name_bytes length]. rewrite length_app. lia.
Qed.

Lemma byte_class b : is_u8 b →
  (Z.land b 192 =? 0) = (b <? 64) ∧ (Z.land b 192 =? 192) = (192 <=? b) ∧ (Z.land b 128 =? 0) = (b <? 128).
Proof.
  intros Hb.
  assert (Forall (λ b, (Z.land b 192 =? 0) = (b <? 64) ∧ (Z.land b 192 =? 192) = (192 <=? b) ∧
    (Z.land b 128 =? 0) = (b <? 128)) (seqZ 0 256)) as H by (apply (bool_decide_unpack _); vm_compute; exact I).
  rewrite Forall_forall in H. apply H, elem_of_seqZ. unfold is_u8, u8_max in Hb. lia.
Qed.

Lemma label_at buf pos b :
  buf !! pos = Some b → 1 ≤ b ≤ 63 → (pos + (1 + Z.to_nat b) ≤ length buf)%nat →
  let l := take (Z.to_nat b) (drop (S pos) buf) in
  length l = Z.to_nat b ∧ buf !! pos = Some (Z.of_nat (length l)) ∧ valid_label l ∧ take (length l) (drop (S pos) buf) = l.
Proof.
  intros Hp Hb Hlen l. assert (length l = Z.to_nat b) as El by (unfold l; rewrite length_take, length_drop; lia).
  rewrite El. split_and!; [done|by rewrite Z2Nat.id by lia|red; lia|done].
Qed.

Lemma label_end buf pos l :
  valid_label l → take (length l) (drop (S pos) buf) = l → (pos + (1 + length l) ≤ length buf)%nat.
Proof.
  intros Hv Ht. apply (f_equal length) in Ht. rewrite length_take, length_drop in Ht. unfold valid_label in Hv. lia.
Qed.

Lemma reads_name_end buf pos e ls : reads_name buf pos e ls → (pos < e ≤ length buf)%nat.
Proof. induction 1 as [pos H|pos e l ls H Hv Ht _ IH]; [apply lookup_lt_Some in H; lia|lia]. Qed.

Lemma walk_qname_spec fuel buf pos wl e :
  is_bytes buf → (length buf < pos + fuel)%nat → 0 ≤ wl →
  walk_qname fuel buf pos wl = Ok e ↔
  ∃ ls, reads_name buf pos e ls ∧ wl + Z.of_nat (length (name_bytes ls)) ≤ QNAME_MAX_WIRE.
Proof.
  intros Hb. revert pos wl. unfold QNAME_MAX_WIRE. induction fuel as [|fuel IH]; intros pos wl Hf Hwl.
  { split; [done|]. intros (ls & H%reads_name_end & _). lia. }
  cbn [walk_qname]. destruct (Nat.leb_spec (length buf) pos) as [Hle|Hlt].
  { split; [done|]. intros (ls & H%reads_name_end & _). lia. }
  destruct (lookup_lt_is_Some_2 buf pos Hlt) as [b Hp]. unfold at_. rewrite Hp. cbn [default].
  assert (is_u8 b) as H8 by by eapply Forall_lookup_1. destruct (byte_class b H8) as (_ & E1 & E2).
  unfold COMPRESSION_MASK, LABEL_MAX, QNAME_MAX_WIRE. unfold id. rewrite E1, E2. unfold is_u8, u8_max in H8.
  assert (∀ ls, reads_name buf pos e ls → b = 0 ∧ ls = [] ∧ e = (pos + 1)%nat ∨
    ∃ l ls', ls = l :: ls' ∧ b = Z.of_nat (length l) ∧ valid_label l ∧ take (length l) (drop (S pos) buf) = l ∧
             reads_name buf (pos + (1 + length l)) e ls') as Hinv.
  { intros ls H. inversion H as [? H0|? ? l ls' H0 Hv Ht Hr]; subst; rewrite Hp in H0; injection H0 as ->; eauto 10. }
  destruct (Z.leb_spec 192 b); [split; [done|]; intros (ls & [(? & _)|(l & ? & _ & ? & Hv & _)]%Hinv & _); unfold valid_label in *; lia|].
  destruct (Z.ltb_spec b 128); cbn [negb];
    [|split; [done|]; intros (ls & [(? & _)|(l & ? & _ & ? & Hv & _)]%Hinv & _); unfold valid_label in *; lia].
  destruct (Z.ltb_spec 255 (wl + 1)).
  { split; [done|]. intros (ls & _ & Hs). assert (1 ≤ length (name_bytes ls))%nat by (destruct ls; cbn; lia). lia. }
  destruct (Z.eqb_spec b 0) as [->|Hb0].
  { split; [intros [= <-]; exists []; split; [by apply RN_root|cbn; lia]|].
    intros (ls & [(_ & _ & ->)|(l & ? & _ & ? & Hv & _)]%Hinv & _); [done|]. unfold valid_label in *; lia. }
  destruct (Z.ltb_spec 63 b); [split; [done|]; intros (ls & [(? & _)|(l & ? & _ & ? & Hv & _)]%Hinv & _); unfold valid_label in *; lia|].
  assert (∀ l ls', Z.of_nat (length (name_bytes (l :: ls'))) = 1 + Z.of_nat (length l) + Z.of_nat (length (name_bytes ls'))) as Hcons
    by (intros; cbn [name_bytes length]; rewrite length_app; lia).
  destruct (Z.ltb_spec 255 (wl + 1 + b)).
  { split; [done|]. intros (ls & [(? & _)|(l & ls' & -> & -> & Hv & _)]%Hinv & Hs); [done|]. rewrite Hcons in Hs. lia. }
  rewrite IH by lia. split.
  - intros (ls & Hr & Hs). pose proof (reads_name_end _ _ _ _ Hr).
    destruct (label_at buf pos b Hp) as (El & L1 & L2 & L3); [lia|lia|].
    exists (take (Z.to_nat b) (drop (S pos) buf) :: ls). rewrite Hcons, El. split; [|lia].
    eapply RN_label; [done..|]. by rewrite El.
  - intros (ls & [(? & _)|(l & ls' & -> & -> & Hv & Ht & Hr)]%Hinv & Hs); [done|]. rewrite Hcons in Hs.
    exists ls'. rewrite Nat2Z.id. split; [done|lia].
Qed.

Lemma walk_labels_spec fuel buf pos e :
  is_bytes buf → (length buf < pos + fuel)%nat →
  walk_labels fuel buf pos = Some e ↔ ∃ ls, reads_name buf pos e ls.
Proof.
  intros Hb. revert pos. induction fuel as [|fuel IH]; intros pos Hf.
  { split; [done|]. intros (ls & H%reads_name_end). lia. }
  cbn [walk_labels]. destruct (buf !! pos) as [b|] eqn:Hp.
  2: { split; [done|]. intros (ls & Hr). by inversion Hr; subst; rewrite Hp in *. }
  cbn [mbind option_bind]. assert (is_u8 b) as H8 by by eapply Forall_lookup_1. destruct (byte_class b H8) as (E1 & _).
  rewrite E1. unfold is_u8, u8_max in H8. destruct (Z.eqb_spec b 0) as [->|Hb0].
  { split; [intros [= <-]; exists []; by apply RN_root|]. intros (ls & Hr). inversion Hr as [|? ? l ls' H0 Hv]; subst; [done|].
    rewrite Hp in H0. injection H0 as H0. unfold valid_label in *. lia. }
  destruct (Z.ltb_spec b 64); cbn [negb].
  2: { split; [done|]. intros (ls & Hr). inversion Hr as [? H0|? ? l ls' H0 Hv]; subst; rewrite Hp in H0; injection H0 as H0;
       unfold valid_label in *; lia. }
  destruct (length buf <? pos + (1 + Z.to_nat b))%nat eqn:Elt.
  - apply Nat.ltb_lt in Elt. split; [done|]. intros (ls & Hr). inversion Hr as [? H0|? ? l ls' H0 Hv Ht]; subst;
      rewrite Hp in H0; injection H0 as ->; [by destruct Hb0|]. apply label_end in Ht; [|done]. rewrite Nat2Z.id in Elt. lia.
  - apply Nat.ltb_ge in Elt. rewrite IH by lia. split.
    + intros (ls & Hr). destruct (label_at buf pos b Hp) as (El & L1 & L2 & L3); [lia|lia|].
      exists (take (Z.to_nat b) (drop (S pos) buf) :: ls). eapply RN_label; [done..|]. by rewrite El.
    + intros (ls & Hr'). inversion Hr' as [? H0|? ? l ls' H0 Hv Ht Hr2]; subst; rewrite Hp in H0; injection H0 as ->; [by destruct Hb0|].
      exists ls'. by rewrite Nat2Z.id.
Qed.

(** ** Queries and answers *)

Lemma be16_bytes_at a b : is_u8 a → is_u8 b → be16_bytes (a * 256 + b) = [a; b].
Proof.
  unfold is_u8, u8_max, be16_bytes. intros Ha Hb.
  rewrite Z.div_add_l, (Z.div_small b), Z.add_0_r, (Z.mod_small a) by lia.
  by rewrite Z.add_comm, Z.mod_add, Z.mod_small by lia.
Qed.

Lemma be16_value n : is_u16 n → (n / 256) `mod` 256 * 256 + n `mod` 256 = n.
Proof.
  unfold is_u16, u16_max. intros H. rewrite (Z.mod_small (n / 256)) by (Z.div_mod_to_equations; lia).
  rewrite Z.mul_comm, <- Z.div_mod; lia.
Qed.

Lemma be16_bytes_u8 n : is_bytes (be16_bytes n).
Proof.
  unfold is_bytes, be16_bytes. repeat constructor; unfold is_u8, u8_max; (pose proof (Z.mod_pos_bound n 256)); (pose proof (Z.mod_pos_bound (n / 256) 256)); lia.
Qed.

Lemma be16_at_u16 buf i : is_bytes buf → is_u16 (be16_at buf i).
Proof.
  intros H. unfold be16_at. pose proof (at_u8 buf i H). pose proof (at_u8 buf (i + 1) H).
  unfold is_u8, is_u16, u8_max, u16_max in *. lia.
Qed.

(** A query: [counts] are the three counts the responders do not read, [rest] what follows
    the question. *)
Record Query := mkQ {
  q_id : Z; q_flags : Z; q_counts : list Z; q_labels : list (list Z); q_type : Z; q_class : Z; q_rest : list Z }.

Definition question (q : Query) : list Z := name_bytes (q_labels q) ++ be16_bytes (q_type q) ++ be16_bytes (q_class q).

Definition query_packet (q : Query) : list Z :=
  be16_bytes (q_id q) ++ be16_bytes (q_flags q) ++ be16_bytes 1 ++ q_counts q ++ question q ++ q_rest q.

Definition wf_query (q : Query) : Prop :=
  is_u16 (q_id q) ∧ is_u16 (q_flags q) ∧ is_u16 (q_type q) ∧ is_u16 (q_class q) ∧
  length (q_counts q) = 6%nat ∧ Forall valid_label (q_labels q).

(** The answer: the name is a pointer to the question, which starts at byte 12. *)
Definition a_record (ttl : Z) (ip : Ipv4Addr) : list Z :=
  [192; 12] ++ be16_bytes 1 ++ be16_bytes 1 ++ be32_bytes ttl ++ be16_bytes 4 ++ octets ip.

Definition response (q : Query) (flags : Z) (answers : list (list Z)) : list Z :=
  be16_bytes (q_id q) ++ be16_bytes flags ++ be16_bytes 1 ++ be16_bytes (Z.of_nat (length answers)) ++
  be16_bytes 0 ++ be16_bytes 0 ++ question q ++ concat answers.

Lemma header_split (buf : list Z) :
  is_bytes buf → (12 ≤ length buf)%nat →
  buf = be16_bytes (be16_at buf 0) ++ be16_bytes (be16_at buf 2) ++ be16_bytes (be16_at buf 4) ++
        bytes_range buf 6 12 ++ drop 12 buf.
Proof.
  intros Hb Hl. do 12 (destruct buf as [|? buf]; [cbn in Hl; lia|]).
  unfold is_bytes in Hb. rewrite !Forall_cons in Hb. destruct Hb as (H0 & H1 & H2 & H3 & H4 & H5 & _).
  unfold be16_at, at_. cbn [lookup list_lookup default Nat.add from_option id].
  by rewrite !be16_bytes_at.
Qed.

Lemma tail_split (buf : list Z) pos :
  is_bytes buf → (pos + 4 ≤ length buf)%nat →
  drop pos buf = be16_bytes (be16_at buf pos) ++ be16_bytes (be16_at buf (pos + 2)) ++ drop (pos + 4) buf.
Proof.
  intros Hb Hl.
  assert (∀ i, (pos + i)%nat = (pos + i)%nat ∧ buf !! (pos + i)%nat = drop pos buf !! i) as Hat by (intros i; by rewrite lookup_drop).
  assert (is_bytes (drop pos buf)) as Hd by by apply Forall_drop.
  assert (4 ≤ length (drop pos buf))%nat as Hl' by (rewrite length_drop; lia).
  replace (drop (pos + 4) buf) with (drop 4 (drop pos buf)) by by rewrite drop_drop.
  unfold be16_at, at_. rewrite <- (Nat.add_0_r pos) at 2. rewrite <- Nat.add_assoc.
  rewrite !(proj2 (Hat _)). clear Hat. destruct (drop pos buf) as [|a [|b [|c [|d l]]]]; cbn in Hl'; try lia.
  unfold is_bytes in Hd. rewrite !Forall_cons in Hd. destruct Hd as (H0 & H1 & H2 & H3 & _).
  cbn [lookup list_lookup default Nat.add from_option id drop]. by rewrite !be16_bytes_at.
Qed.

(** A query is read back field by field. *)
Lemma query_fields q :
  wf_query q → 
  be16_at (query_packet q) 0 = q_id q ∧ be16_at (query_packet q) 2 = q_flags q ∧ be16_at (query_packet q) 4 = 1 ∧
  drop 12 (query_packet q) = question q ++ q_rest q.
Proof.
  intros (H1 & H2 & _ & _ & (a & b & c & d & e & f & Hc)%mac_bytes & _). unfold query_packet. rewrite Hc.
  unfold be16_at. cbn. unfold at_. cbn [lookup list_lookup default from_option id].
  by rewrite !be16_value.
Qed.

Lemma at_drop buf i j : at_ buf (i + j) = at_ (drop i buf) j.
Proof. unfold at_. by rewrite lookup_drop. Qed.

Lemma be16_at_drop buf i j : be16_at buf (i + j) = be16_at (drop i buf) j.
Proof. unfold be16_at. by rewrite <- Nat.add_assoc, !at_drop. Qed.

Lemma question_fields q :
  wf_query q → let pos := length (name_bytes (q_labels q)) in
  be16_at (question q ++ q_rest q) pos = q_type q ∧ be16_at (question q ++ q_rest q) (pos + 2) = q_class q.
Proof.
  intros (_ & _ & H1 & H2 & _) pos.
  assert (drop pos (question q ++ q_rest q) = be16_bytes (q_type q) ++ be16_bytes (q_class q) ++ q_rest q) as Hd
    by (unfold question, pos; by rewrite <- !app_assoc, drop_app_length).
  rewrite <- (Nat.add_0_r pos) at 1. rewrite !be16_at_drop, Hd. unfold be16_at, at_. cbn.
  by rewrite !be16_value.
Qed.

(** What both parsers see in a well-formed query. *)
Lemma query_read q :
  wf_query q → 
  let e := (12 + length (name_bytes (q_labels q)))%nat in
  reads_name (query_packet q) 12 e (q_labels q) ∧ (e + 4 ≤ length (query_packet q))%nat ∧
  be16_at (query_packet q) e = q_type q ∧ be16_at (query_packet q) (e + 2) = q_class q ∧
  bytes_range (query_packet q) 12 e = name_bytes (q_labels q) ∧
  bytes_range (query_packet q) 12 (e + 4) = question q.
Proof.
  intros Hw e. destruct (query_fields q Hw) as (_ & _ & _ & Hd). destruct (question_fields q Hw) as [Ht Hc].
  assert (length (question q) = (length (name_bytes (q_labels q)) + 4)%nat) as Hq
    by (unfold question; by rewrite !length_app).
  assert (length (query_packet q) - 12 = length (question q ++ q_rest q))%nat as Hl by by rewrite <- Hd, length_drop.
  rewrite length_app, Hq in Hl. unfold e. rewrite <- (Nat.add_assoc 12 _ 2), !(be16_at_drop _ 12), Hd. unfold bytes_range.
  rewrite Hd. split_and!; [|lia|done|done| |].
  - apply reads_name_spec. split_and!; [done|apply Hw|]. rewrite <- drop_drop, Hd. unfold question.
    rewrite <- !app_assoc, drop_app_length. done.
  - rewrite Nat.add_comm, Nat.add_sub. unfold question. by rewrite <- !app_assoc, take_app_length.
  - replace (12 + length (name_bytes (q_labels q)) + 4 - 12)%nat with (length (question q)) by lia. apply take_app_length.
Qed.

(** A datagram whose question both parsers can read is a well-formed query. *)
Lemma read_query buf e ls :
  is_bytes buf → be16_at buf 4 = 1 → reads_name buf 12 e ls → (e + 4 ≤ length buf)%nat →
  ∃ q, wf_query q ∧ buf = query_packet q ∧ q_id q = be16_at buf 0 ∧ q_flags q = be16_at buf 2 ∧ q_labels q = ls ∧
       e = (12 + length (name_bytes ls))%nat.
Proof.
  intros Hb Hqd Hr He. pose proof (reads_name_end _ _ _ _ Hr). apply reads_name_spec in Hr as (-> & Hv & Hd).
  exists (mkQ (be16_at buf 0) (be16_at buf 2) (bytes_range buf 6 12) ls
            (be16_at buf (12 + length (name_bytes ls))) (be16_at buf (12 + length (name_bytes ls) + 2))
            (drop (12 + length (name_bytes ls) + 4) buf)).
  split; [|split; [|done]].
  - split_and!; cbn; [by apply be16_at_u16..| |done]. unfold bytes_range. rewrite length_take, length_drop. lia.
  - unfold query_packet, question. cbn. rewrite (header_split buf Hb ltac:(lia)) at 1. rewrite Hqd.
    do 4 f_equal. rewrite Hd, (tail_split buf _ Hb He). by rewrite <- !app_assoc.
Qed.

Lemma take_bytes n (d : list Z) : is_bytes d → is_bytes (take n d).
Proof. apply Forall_take. Qed.

Lemma decode_query_spec buf e q0 :
  is_bytes buf →
  decode_query buf = Ok q0 ∧ e = qname_end q0 ↔
  ∃ q, buf = query_packet q ∧ wf_query q ∧ Z.land (q_flags q) FLAG_QR = 0 ∧
       Z.of_nat (length (name_bytes (q_labels q))) ≤ QNAME_MAX_WIRE ∧
       e = (12 + length (name_bytes (q_labels q)))%nat ∧
       q0 = mkQuery (q_id q) (q_flags q) e (q_type q) (q_class q).
Proof.
  intros Hb. unfold decode_query. split.
  - destruct (length buf <? DNS_MIN_QUERY)%nat eqn:Hl; [by intros [? _]|].
    destruct (Z.eqb_spec (Z.land (be16_at buf 2) FLAG_QR) 0) as [Hqr|]; [|by intros [? _]].
    destruct (Z.eqb_spec (be16_at buf 4) 1) as [Hqd|]; [|by intros [? _]]. cbn [negb].
    destruct (walk_qname _ buf 12 0) as [pos|] eqn:Ew; [|by intros [? _]]. cbn [mbind result_bind].
    destruct (length buf <? pos + 4)%nat eqn:Hp; [by intros [? _]|]. intros [[= <-] ->].
    apply Nat.ltb_ge in Hp. apply walk_qname_spec in Ew as (ls & Hr & Hs); [|done|lia|lia].
    destruct (read_query buf pos ls Hb Hqd Hr Hp) as (q & Hw & -> & _ & Hf & <- & He).
    exists q. destruct (query_fields q Hw) as (F1 & F2 & _). destruct (query_read q Hw) as (_ & _ & F3 & F4 & _).
    cbn [qname_end]. rewrite <- Hf in Hqr. rewrite He in *. rewrite F1, F2, F3, F4. by split_and!.
  - intros (q & -> & Hw & Hqr & Hs & He & ->). destruct (query_fields q Hw) as (F1 & F2 & F5 & _).
    destruct (query_read q Hw) as (Hr & Hl & F3 & F4 & _). rewrite <- He in *. split; [|done].
    assert (1 ≤ length (name_bytes (q_labels q)))%nat by (destruct (q_labels q); cbn; lia).
    rewrite (proj2 (Nat.ltb_ge _ _)) by (unfold DNS_MIN_QUERY; lia).
    rewrite F1, F2, F5, Hqr. cbn [Z.eqb Pos.eqb negb].
    rewrite (proj2 (walk_qname_spec (S (length (query_packet q))) _ 12 0 e Hb ltac:(lia) ltac:(lia))) by by exists (q_labels q).
    cbn [mbind result_bind]. rewrite (proj2 (Nat.ltb_ge _ _)) by done. by rewrite F3, F4.
Qed.

(** The queries the bare-metal tier can read. *)
Definition readable (q : Query) : Prop :=
  wf_query q ∧ Z.land (q_flags q) FLAG_QR = 0 ∧ Z.of_nat (length (name_bytes (q_labels q))) ≤ QNAME_MAX_WIRE.

(** What it answers. *)
Definition catchall_answer (config : DnsCatchallConfig) (q : Query) : list Z :=
  response q (Z.lor 33792 (Z.land (q_flags q) FLAG_RD)) [a_record (ttl_secs config) (answer_ip config)].

Lemma catchall_answer_length config q :
  Z.of_nat (length (name_bytes (q_labels q))) ≤ QNAME_MAX_WIRE → (length (catchall_answer config q) ≤ DNS_MSG_MAX)%nat.
Proof.
  intros H. unfold catchall_answer, response, question, a_record, QNAME_MAX_WIRE, DNS_MSG_MAX in *.
  rewrite !length_app. cbn. lia.
Qed.

Lemma dns_serve_answers config d q :
  is_bytes d → take DNS_MSG_MAX d = query_packet q → readable q →
  dns_serve config (Some d) = Some (catchall_answer config q).
Proof.
  intros Hd Erx (Hw & Hqr & Hs). unfold dns_serve. set (rx := take DNS_MSG_MAX d) in *.
  assert (is_bytes rx) as Hb by by apply take_bytes.
  destruct (proj2 (decode_query_spec rx (12 + length (name_bytes (q_labels q)))
    (mkQuery (q_id q) (q_flags q) (12 + length (name_bytes (q_labels q))) (q_type q) (q_class q)) Hb)) as [-> _];
    [by exists q; split_and!|].
  unfold encode_response. cbn [qname_end qid qflags qtype qclass]. rewrite Erx.
  destruct (query_read q Hw) as (_ & _ & _ & _ & -> & _). unfold QNAME_MAX_WIRE in Hs.
  rewrite (proj2 (Nat.ltb_ge _ _)) by (unfold DNS_MSG_MAX; lia). cbn [result_ok]. f_equal.
  unfold catchall_answer, response, question, a_record. cbn [concat length]. by rewrite app_nil_r, <- !app_assoc.
Qed.

Lemma dns_serve_readable config d r :
  is_bytes d → dns_serve config (Some d) = Some r → ∃ q, take DNS_MSG_MAX d = query_packet q ∧ readable q.
Proof.
  intros Hd Hs. unfold dns_serve in Hs. assert (is_bytes (take DNS_MSG_MAX d)) as Hb by by apply take_bytes.
  destruct (decode_query _) as [q0|] eqn:E0; [|done].
  destruct (proj1 (decode_query_spec _ _ q0 Hb) (conj E0 eq_refl)) as (q & Erx & Hw & Hqr & Hn & _).
  by exists q.
Qed.

(** The header asks for a standard query: opcode 0. *)
Definition OPCODE_MASK : Z := 30720.
Definition standard (datagram : list Z) : Prop := Z.land (be16_at datagram 2) OPCODE_MASK = 0.

(** The queries the bare-metal tier is to answer. *)
Definition answerable (q : Query) : Prop := readable q ∧ Z.land (q_flags q) OPCODE_MASK = 0.

(** C25: The bare-metal responder answers exactly the well-formed standard queries.  A datagram
    that fits the buffer and has opcode 0 is answered if and only if it is a query with one
    question, whose name is labels of 1 to 63 bytes, at most 255 bytes in all and ended by the
    root label; whatever the type and class, the answer repeats identifier, recursion flag and
    question and gives one A record with the configured address, whose name points at the
    question; it always fits the buffer.  Other opcodes are left out: a comment of
    [encode_response] says that they are refused, the code answers them
    ([other_opcode_answered]). *)
Theorem dns_reply_exact config d r :
  is_bytes d → (length d ≤ DNS_MSG_MAX)%nat → standard d →
  dns_serve config (Some d) = Some r ↔
  ∃ q, d = query_packet q ∧ answerable q ∧
       r = response q (Z.lor 33792 (Z.land (q_flags q) FLAG_RD)) [a_record (ttl_secs config) (answer_ip config)] ∧
       (length r ≤ DNS_MSG_MAX)%nat.
Proof.
  intros Hd Hl Hop. split.
  - intros Hs. destruct (dns_serve_readable config d r Hd Hs) as (q & Eq & Ha).
    rewrite (dns_serve_answers config d q Hd Eq Ha) in Hs. injection Hs as <-. exists q. rewrite take_ge in Eq by done. subst d.
    split; [done|]. split; [|split; [done|by apply catchall_answer_length, Ha]].
    split; [done|]. unfold standard in Hop. by rewrite (proj1 (proj2 (query_fields q (proj1 Ha)))) in Hop.
  - intros (q & Eq & [Ha _] & -> & _). apply dns_serve_answers; [done|by rewrite take_ge|done].
Qed.

Lemma build_response_spec request ip r :
  is_bytes request →
  build_response request ip = Some r ↔
  ∃ q, request = query_packet q ∧ wf_query q ∧
       r = response q 33792 (if (q_type q =? TYPE_A) || (q_type q =? 255) then [a_record ANSWER_TTL ip] else []).
Proof.
  intros Hb.
  assert (∀ q, wf_query q → request = query_packet q →
    build_response request ip = Some (response q 33792 (if (q_type q =? TYPE_A) || (q_type q =? 255) then [a_record ANSWER_TTL ip] else []))) as Hyes.
  { intros q Hw ->. destruct (query_fields q Hw) as (F1 & _ & F5 & _). destruct (query_read q Hw) as (Hr & Hl & F3 & _ & _ & Fq).
    unfold build_response. rewrite (proj2 (Nat.ltb_ge _ _)) by lia. rewrite F5. cbn [Z.eqb Pos.eqb negb].
    unfold parse_question. set (e := (12 + length (name_bytes (q_labels q)))%nat) in *.
    rewrite (proj2 (walk_labels_spec (S (length (query_packet q))) _ 12 e Hb ltac:(lia))) by by exists (q_labels q). cbn [mbind option_bind].
    assert (∀ i, (i < 4)%nat → query_packet q !! (e + i)%nat = Some (at_ (query_packet q) (e + i))) as Hat.
    { intros i Hi. unfold at_. destruct (lookup_lt_is_Some_2 (query_packet q) (e + i)%nat) as [x ->]; [lia|done]. }
    rewrite <- (Nat.add_0_r e) at 1. rewrite !Hat by lia. cbn [mbind option_bind]. rewrite Nat.add_0_r.
    change (at_ (query_packet q) e * 256 + at_ (query_packet q) (e + 1)) with (be16_at (query_packet q) e). rewrite F3, Fq.
    assert (bytes_range (query_packet q) 0 2 = be16_bytes (q_id q)) as -> by done.
    unfold response. f_equal. by destruct (_ || _). }
  split.
  - intros H. pose proof H as H'. unfold build_response in H'. destruct (length request <? 12)%nat; [done|].
    destruct (Z.eqb_spec (be16_at request 4) 1) as [Hqd|]; [|done]. cbn [negb] in H'.
    destruct (parse_question request) as [[e qt]|] eqn:Ep; [|done]. clear H'. unfold parse_question in Ep.
    destruct (walk_labels _ request 12) as [pos|] eqn:Ew; [|done]. cbn [mbind option_bind] in Ep.
    apply walk_labels_spec in Ew as [ls Hr]; [|done|lia].
    destruct (request !! pos); [|done]. destruct (request !! (pos + 1)%nat); [|done]. cbn [mbind option_bind] in Ep.
    destruct (request !! (pos + 3)%nat) eqn:E3; [|done]. apply lookup_lt_Some in E3.
    destruct (read_query request pos ls Hb Hqd Hr ltac:(lia)) as (q & Hw & Erq & _).
    exists q. split; [done|]. split; [done|]. rewrite (Hyes q Hw Erq) in H. by injection H as <-.
  - intros (q & Erq & Hw & ->). by apply Hyes.
Qed.

(** The two tiers agree.  Wherever the bare-metal responder answers a query for an A
    record (or any) with its default time to live, the ESP-IDF responder answers it too, with
    the same bytes if the query does not ask for recursion; it differs in one flag otherwise,
    and sends no record to a query of another type. *)
Lemma dns_tiers_agree config d r :
  is_bytes d → ttl_secs config = ANSWER_TTL →
  dns_serve config (Some d) = Some r →
  ∃ q, take DNS_MSG_MAX d = query_packet q ∧
    dns_turn (answer_ip config) (Some d) =
      Some (if (q_type q =? TYPE_A) || (q_type q =? 255)
            then response q 33792 [a_record (ttl_secs config) (answer_ip config)] else response q 33792 []) ∧
    ((q_type q =? TYPE_A) || (q_type q =? 255) = true → Z.land (q_flags q) FLAG_RD = 0 →
     dns_turn (answer_ip config) (Some d) = Some r).
Proof.
  intros Hd Httl Hs. destruct (dns_serve_readable config d r Hd Hs) as (q & Eq & Ha).
  rewrite (dns_serve_answers config d q Hd Eq Ha) in Hs. injection Hs as Er. destruct Ha as (Hw & _).
  exists q. split; [done|].
  assert (dns_turn (answer_ip config) (Some d) =
    Some (if (q_type q =? TYPE_A) || (q_type q =? 255)
          then response q 33792 [a_record (ttl_secs config) (answer_ip config)] else response q 33792 [])) as E.
  { unfold dns_turn. apply build_response_spec; [by apply take_bytes|]. exists q. split; [done|]. split; [done|].
    rewrite Httl. by destruct (_ || _). }
  split; [done|]. intros Ha Hrd. rewrite E, Ha, <- Er. unfold catchall_answer. by rewrite Hrd.
Qed.

(** ** Examples *)

(** [a.com], type A, with recursion desired or not. *)
Definition sample_query (flags : Z) (t c : Z) : Query :=
  mkQ 4660 flags [0; 0; 0; 0; 0; 0] [[97]; [99; 111; 109]] t c [].

Definition sample_datagram : list Z := query_packet (sample_query 0 1 1).

Lemma sample_bytes : is_bytes sample_datagram.
Proof. apply (bool_decide_unpack _). vm_compute. exact I. Qed.

Definition sample_reply : list Z :=
  Eval vm_compute in response (sample_query 0 1 1) 33792 [a_record 60 (mkIp 192 168 4 1)].

Lemma dns_reply_exact_witness :
  dns_serve DnsCatchallConfig_default (Some sample_datagram) = Some sample_reply ∧
  ∃ q, sample_datagram = query_packet q ∧ answerable q ∧
       sample_reply = response q (Z.lor 33792 (Z.land (q_flags q) FLAG_RD)) [a_record 60 (mkIp 192 168 4 1)] ∧
       (length sample_reply ≤ DNS_MSG_MAX)%nat.
Proof.
  split; [vm_compute; reflexivity|].
  apply (dns_reply_exact DnsCatchallConfig_default sample_datagram sample_reply sample_bytes).
  - apply Nat.leb_le. vm_compute. reflexivity.
  - vm_compute. reflexivity.
  - vm_compute. reflexivity.
Defined.

Lemma dns_tiers_agree_witness :
  ∃ q, take DNS_MSG_MAX sample_datagram = query_packet q ∧
    dns_turn (mkIp 192 168 4 1) (Some sample_datagram) =
      Some (if (q_type q =? TYPE_A) || (q_type q =? 255)
            then response q 33792 [a_record 60 (mkIp 192 168 4 1)] else response q 33792 []) ∧
    ((q_type q =? TYPE_A) || (q_type q =? 255) = true → Z.land (q_flags q) FLAG_RD = 0 →
     dns_turn (mkIp 192 168 4 1) (Some sample_datagram) = Some sample_reply).
Proof.
  apply (dns_tiers_agree DnsCatchallConfig_default sample_datagram sample_reply sample_bytes); [reflexivity|].
  vm_compute. reflexivity.
Defined.

(** Another opcode is answered as a standard query. *)
Example other_opcode_answered :
  dns_serve DnsCatchallConfig_default (Some (query_packet (sample_query 4096 1 1))) = Some sample_reply.
Proof. vm_compute. reflexivity. Qed.

(** The ESP-IDF responder drops the recursion flag of the request's header, answers a
    response, and answers a query of class CHAOS. *)
Example idf_header_not_copied :
  dns_turn (mkIp 192 168 4 1) (Some (query_packet (sample_query 256 1 1))) = Some sample_reply ∧
  dns_turn (mkIp 192 168 4 1) (Some (query_packet (sample_query 32768 1 1))) = Some sample_reply ∧
  dns_turn (mkIp 192 168 4 1) (Some (query_packet (sample_query 0 1 3))) =
    Some (response (sample_query 0 1 3) 33792 [a_record 60 (mkIp 192 168 4 1)]).
Proof. vm_compute. done. Qed.
