(* ===== verification/EspNow.v ===== *)
(** * EspNow: frames, peers and liveness ([espnow/mod.rs], [command.rs], [tracker.rs] of juggler)
    and the pure half of the bare-metal driver ([espnow/mod.rs] of that tier)

    A MAC address is the list of its six bytes.  Durations are those of [Config].  The second half
    is the peer scan ([espnow/scan.rs]) and the loop of the bare-metal tier that runs it. *)
From S2P Require Import Prelude Config.
Open Scope Z_scope.

Definition MAX_DATA_LEN : nat := 250.
Definition DEFAULT_SCAN_CHANNELS : list Z := [1; 2; 3; 4; 5; 6; 7; 8; 9; 10; 11; 12; 13].
Definition DEFAULT_PROBE_TIMEOUT : duration := from_millis 100.
Definition DEFAULT_BURST_TIMEOUT : duration := from_secs 3.
Definition DEFAULT_PROBE_CONFIRMATIONS : Z := 1.
Definition DEFAULT_CONFIRMATION_GAP : duration := from_millis 150.

Abbreviation MacAddress := (list Z).
Definition BROADCAST_MAC : MacAddress := replicate 6 255.

Inductive WifiInterface := Sta | Ap.

#[export] Instance WifiInterface_eq_dec : EqDecision WifiInterface.
Proof. solve_decision. Defined.

(** The error is a text, left out here. *)
Definition validate_payload (data : list Z) : result unit unit :=
  if (length data <=? MAX_DATA_LEN)%nat then Ok tt else Err tt.

Record EspNowEvent := mkEvent { event_mac : MacAddress; event_data : list Z; event_len : nat }.

(** Truncates, as documented. *)
Definition EspNowEvent_new (mac : MacAddress) (data : list Z) : EspNowEvent :=
  let len := Nat.min (length data) MAX_DATA_LEN in
  mkEvent mac (take len data ++ replicate (MAX_DATA_LEN - len) 0) len.

Definition event_payload (e : EspNowEvent) : list Z := take (event_len e) (event_data e).

Record PeerConfig := mkPeer { peer_mac : MacAddress; peer_channel : Z; peer_encrypt : bool; peer_interface : WifiInterface }.

Definition PeerConfig_new (mac : MacAddress) : PeerConfig := mkPeer mac 0 false Sta.
Definition peer_on (mac : MacAddress) (channel : Z) : PeerConfig := mkPeer mac channel false Sta.

Record ScanConfig := mkScanConfig {
  channels : list Z; probe_data : list Z; probe_timeout : duration; burst_timeout : duration;
  probe_confirmations : Z; confirmation_gap : duration }.

Definition ScanConfig_new (probe_data : list Z) : ScanConfig :=
  mkScanConfig DEFAULT_SCAN_CHANNELS probe_data DEFAULT_PROBE_TIMEOUT DEFAULT_BURST_TIMEOUT
    DEFAULT_PROBE_CONFIRMATIONS DEFAULT_CONFIRMATION_GAP.

(** ** Command frames *)

Record CommandFrame := mkFrame { tag : Z; payload : list Z }.

Definition parse_frame (data : list Z) : option CommandFrame :=
  match data with tag :: payload => Some (mkFrame tag payload) | [] => None end.

Definition is_system_tag (tag : Z) : bool := 240 <=? tag.
Definition is_module_tag (tag : Z) : bool := (1 <=? tag) && (tag <=? 239).

Definition TAG_PING : Z := 240.
Definition TAG_SELF_TEST : Z := 241.
Definition TAG_IDENTIFY : Z := 242.

Inductive SystemCommand := SC_Ping | SC_SelfTest | SC_Identify | SC_Unknown (tag : Z).

Definition parse_system_command (frame : CommandFrame) : option SystemCommand :=
  if negb (is_system_tag (tag frame)) then None
  else Some (if tag frame =? TAG_PING then SC_Ping
             else if tag frame =? TAG_SELF_TEST then SC_SelfTest
             else if tag frame =? TAG_IDENTIFY then SC_Identify
             else SC_Unknown (tag frame)).

Definition PONG_RESPONSE : list Z := [TAG_PING; 1].
Definition SELF_TEST_PASS : list Z := [TAG_SELF_TEST; 0].
Definition SELF_TEST_FAIL : list Z := [TAG_SELF_TEST; 1].
Definition identify_response (module_type version : Z) : list Z := [TAG_IDENTIFY; module_type; version].

(** ** Peer liveness *)

Record PeerTracker := mkTracker { tracker_timeout : Z; last_seen : option Z; prev_online : bool }.

Definition PeerTracker_new (timeout : Z) : PeerTracker := mkTracker timeout None false.
Definition record_seen (now : Z) (t : PeerTracker) : PeerTracker := mkTracker (tracker_timeout t) (Some now) (prev_online t).

Definition is_online (t : PeerTracker) (now : Z) : bool :=
  match last_seen t with
  | Some seen => Z.max 0 (now - seen) <? tracker_timeout t
  | None => false
  end.

Definition poll_transition (now : Z) (t : PeerTracker) : option bool * PeerTracker :=
  let online := is_online t now in
  if bool_decide (online ≠ prev_online t) then (Some online, mkTracker (tracker_timeout t) (last_seen t) online)
  else (None, t).

Definition has_been_seen (t : PeerTracker) : bool := bool_decide (is_Some (last_seen t)).

(** ** The bare-metal driver's helpers *)

Definition MIN_CHANNEL : Z := 1.
Definition MAX_CHANNEL : Z := 14.
Definition MIN_TX_POWER_QUARTER_DBM : Z := 8.
Definition MAX_TX_POWER_QUARTER_DBM : Z := 84.
Definition DEFAULT_TX_POWER_QUARTER_DBM : Z := 52.
Definition OVERSIZE_LOG_EVERY : Z := 32.

Inductive RadioError :=
| RE_NotInitialized | RE_InvalidArgument | RE_OutOfMemory | RE_PeerListFull | RE_NotFound
| RE_Internal | RE_PeerExists | RE_InterfaceMismatch | RE_Other (code : Z).

Inductive SendOutcome := SO_Acked | SO_NoAck | SO_Error.

Record ScanResult := mkScanResult { channel : Z }.

Inductive ScanError :=
| ScE_NotFound (probed configured : nat) | ScE_RegisterTempPeer | ScE_RegisterFoundPeer (channel : Z)
| ScE_UnexpectedInput | ScE_Aborted.

(** [Wifi] carries the driver's code. *)
Inductive EspHalEspNowError :=
| EN_Busy | EN_PayloadTooLarge (len : nat) | EN_EncryptionUnsupported | EN_InvalidChannel (c : Z)
| EN_InvalidTxPower (p : Z) | EN_ControllerNotOwned | EN_AlreadyInitialised | EN_SendFailed
| EN_Timeout | EN_NoSenderRunner | EN_Radio (e : RadioError) | EN_Scan (e : ScanError) | EN_Wifi (code : Z).

#[export] Instance RadioError_eq_dec : EqDecision RadioError.
Proof. solve_decision. Defined.
#[export] Instance SendOutcome_eq_dec : EqDecision SendOutcome.
Proof. solve_decision. Defined.
#[export] Instance ScanResult_eq_dec : EqDecision ScanResult.
Proof. solve_decision. Defined.
#[export] Instance ScanError_eq_dec : EqDecision ScanError.
Proof. solve_decision. Defined.
#[export] Instance EspHalEspNowError_eq_dec : EqDecision EspHalEspNowError.
Proof. solve_decision. Defined.

Definition validate_channel (channel : Z) : result EspHalEspNowError unit :=
  if (MIN_CHANNEL <=? channel) && (channel <=? MAX_CHANNEL) then Ok tt else Err (EN_InvalidChannel channel).

Definition validate_tx_power (quarter_dbm : Z) : result EspHalEspNowError unit :=
  if (MIN_TX_POWER_QUARTER_DBM <=? quarter_dbm) && (quarter_dbm <=? MAX_TX_POWER_QUARTER_DBM) then Ok tt
  else Err (EN_InvalidTxPower quarter_dbm).

Definition validate_frame_len (data : list Z) : result EspHalEspNowError unit :=
  map_err (λ _, EN_PayloadTooLarge (length data)) (validate_payload data).

Definition probe_outcome (r : result EspHalEspNowError unit) : SendOutcome :=
  match r with
  | Ok _ => SO_Acked
  | Err EN_SendFailed | Err EN_Timeout => SO_NoAck
  | Err _ => SO_Error
  end.

Definition expired (deadline : option Z) (now : Z) : bool :=
  match deadline with Some at_ => at_ <=? now | None => false end.

Record PeerPlan := mkPlan { plan_mac : MacAddress; plan_channel : option Z; plan_interface : WifiInterface }.

Definition plan_peer (config : PeerConfig) : result EspHalEspNowError PeerPlan :=
  if peer_encrypt config then Err EN_EncryptionUnsupported
  else
    channel ← (if peer_channel config =? 0 then Ok None
               else _ ← validate_channel (peer_channel config); Ok (Some (peer_channel config)));
    Ok (mkPlan (peer_mac config) channel (peer_interface config)).

Definition existing_peer_is_idempotent (plan : PeerPlan) : bool :=
  bool_decide (plan_mac plan = BROADCAST_MAC) && bool_decide (plan_interface plan = Sta).

Definition frame_event (src : MacAddress) (data : list Z) : result nat EspNowEvent :=
  if (MAX_DATA_LEN <? length data)%nat then Err (length data) else Ok (EspNowEvent_new src data).

Definition should_log_oversize (dropped_so_far : Z) : bool :=
  u32_wrapping_sub dropped_so_far 1 `mod` OVERSIZE_LOG_EVERY =? 0.

(** ** the peer-scan machine ([espnow/scan.rs] of juggler) and the loop of the
    bare-metal tier that drives it ([scan_for_peer] of [espnow/driver.rs]) *)

Inductive ScanInput := SI_Start | SI_Completed | SI_Failed | SI_Abort | SI_Sent (o : SendOutcome).

#[export] Instance ScanInput_eq_dec : EqDecision ScanInput.
Proof. solve_decision. Defined.

Inductive ScanAction :=
| SA_RemovePeer | SA_RegisterPeer (channel : Z) | SA_BoostTxPower | SA_RestoreTxPower
| SA_SetChannel (channel : Z) | SA_RestoreChannel (channel : Z) | SA_RegisterFallbackPeer (channel : Z)
| SA_SendProbe (channel confirmation : Z) (timeout : duration)
| SA_WaitUntil (deadline : duration)
| SA_Done (r : result ScanError ScanResult).

Inductive ScanState :=
| Idle | RemovingStale | RegisteringTemp | Boosting
| SettingChannel (idx : nat) | Probing (idx : nat) | Gap (idx : nat) (done : Z) | Confirming (idx : nat) (done : Z)
| RestoringTxPower (found : option Z) | RemovingScanPeer (found : option Z)
| RegisteringFound (channel : Z) | RestoringChannel (pin : Z) | RegisteringFallback
| Finished (r : result ScanError ScanResult).

Record ScanMachine := mkScan {
  scan_mac : MacAddress; scan_config : ScanConfig; pinned : option Z; scan_state : ScanState;
  burst_start : duration; probed : nat; scan_failure : option ScanError; burst_expired : bool }.

Definition ScanMachine_new (mac : MacAddress) (config : ScanConfig) (last_pinned : option Z) : ScanMachine :=
  mkScan mac config last_pinned Idle 0 0 None false.

Definition with_scan_state (st : ScanState) (m : ScanMachine) : ScanMachine :=
  mkScan (scan_mac m) (scan_config m) (pinned m) st (burst_start m) (probed m) (scan_failure m) (burst_expired m).
Definition with_pinned (p : option Z) (m : ScanMachine) : ScanMachine :=
  mkScan (scan_mac m) (scan_config m) p (scan_state m) (burst_start m) (probed m) (scan_failure m) (burst_expired m).
Definition with_burst_start (now : duration) (m : ScanMachine) : ScanMachine :=
  mkScan (scan_mac m) (scan_config m) (pinned m) (scan_state m) now (probed m) (scan_failure m) (burst_expired m).
Definition count_probe (m : ScanMachine) : ScanMachine :=
  mkScan (scan_mac m) (scan_config m) (pinned m) (scan_state m) (burst_start m) (S (probed m)) (scan_failure m) (burst_expired m).
Definition with_failure (e : ScanError) (m : ScanMachine) : ScanMachine :=
  mkScan (scan_mac m) (scan_config m) (pinned m) (scan_state m) (burst_start m) (probed m) (Some e) (burst_expired m).
Definition with_burst_expired (b : bool) (m : ScanMachine) : ScanMachine :=
  mkScan (scan_mac m) (scan_config m) (pinned m) (scan_state m) (burst_start m) (probed m) (scan_failure m) b.

(** [Duration::saturating_add]. *)
Definition saturating_add (a b : duration) : duration := Z.min dur_max (a + b).

(** [channels[idx]], in range. *)
Definition channel_at (m : ScanMachine) (idx : nat) : Z := default 0 (channels (scan_config m) !! idx).

Definition send_probe (m : ScanMachine) (idx : nat) (confirmation : Z) : ScanAction :=
  SA_SendProbe (channel_at m idx) confirmation (probe_timeout (scan_config m)).

Definition finish (r : result ScanError ScanResult) (m : ScanMachine) : ScanAction * ScanMachine :=
  (SA_Done r, with_scan_state (Finished r) m).

Definition finish_not_found (m : ScanMachine) : ScanAction * ScanMachine :=
  let error := default (ScE_NotFound (probed m) (length (channels (scan_config m)))) (scan_failure m) in
  finish (Err error) m.

Definition fall_back (error : ScanError) (m : ScanMachine) : ScanAction * ScanMachine :=
  let m := with_failure error m in
  match pinned m with
  | Some pin => (SA_RestoreChannel pin, with_scan_state (RestoringChannel pin) m)
  | None => finish_not_found m
  end.

Definition unwind (error : ScanError) (m : ScanMachine) : ScanAction * ScanMachine :=
  match scan_state m with
  | RemovingStale | RegisteringTemp | Boosting | SettingChannel _ | Probing _ | Gap _ _ | Confirming _ _ =>
      (SA_RestoreTxPower, with_scan_state (RestoringTxPower None) (with_failure error m))
  | _ => finish (Err error) m
  end.

Definition after_ack (now : duration) (idx : nat) (done : Z) (m : ScanMachine) : ScanAction * ScanMachine :=
  if probe_confirmations (scan_config m) <=? done then
    (SA_RestoreTxPower, with_scan_state (RestoringTxPower (Some (channel_at m idx))) m)
  else
    (SA_WaitUntil (saturating_add now (confirmation_gap (scan_config m))), with_scan_state (Gap idx done) m).

Definition next_channel (now : duration) (idx : nat) (m : ScanMachine) : ScanAction * ScanMachine :=
  let burst_over := burst_timeout (scan_config m) <=? saturating_sub now (burst_start m) in
  match channels (scan_config m) !! idx, burst_over with
  | Some channel, false => (SA_SetChannel channel, with_scan_state (SettingChannel idx) m)
  | other, _ =>
      (SA_RestoreTxPower,
       with_scan_state (RestoringTxPower None) (with_burst_expired (burst_over && bool_decide (is_Some other)) m))
  end.

Definition scan_poll (now : duration) (input : ScanInput) (m : ScanMachine) : ScanAction * ScanMachine :=
  match scan_state m, input with
  | Finished r, _ => (SA_Done r, m)
  | _, SI_Abort => unwind ScE_Aborted m
  | Idle, SI_Start => (SA_RemovePeer, with_scan_state RemovingStale m)
  | RemovingStale, (SI_Completed | SI_Failed) => (SA_RegisterPeer 0, with_scan_state RegisteringTemp m)
  | RegisteringTemp, SI_Completed => (SA_BoostTxPower, with_scan_state Boosting m)
  | RegisteringTemp, SI_Failed => fall_back ScE_RegisterTempPeer m
  | Boosting, (SI_Completed | SI_Failed) => next_channel now 0 (with_burst_start now m)
  | SettingChannel idx, SI_Completed => (send_probe m idx 0, with_scan_state (Probing idx) m)
  | SettingChannel idx, SI_Failed => next_channel now (S idx) m
  | Probing idx, SI_Sent SO_Error => next_channel now (S idx) m
  | Probing idx, SI_Sent SO_NoAck => next_channel now (S idx) (count_probe m)
  | Probing idx, SI_Sent SO_Acked => after_ack now idx 0 (count_probe m)
  | Gap idx done, SI_Completed => (send_probe m idx (done + 1), with_scan_state (Confirming idx done) m)
  | Confirming idx done, SI_Sent SO_Acked => after_ack now idx (done + 1) m
  | Confirming idx done, SI_Sent (SO_NoAck | SO_Error) => next_channel now (S idx) m
  | RestoringTxPower found, (SI_Completed | SI_Failed) => (SA_RemovePeer, with_scan_state (RemovingScanPeer found) m)
  | RemovingScanPeer found, (SI_Completed | SI_Failed) =>
      match found, pinned m with
      | Some channel, _ => (SA_RegisterPeer channel, with_scan_state (RegisteringFound channel) m)
      | None, Some pin => (SA_RestoreChannel pin, with_scan_state (RestoringChannel pin) m)
      | None, None => finish_not_found m
      end
  | RegisteringFound channel, SI_Completed => finish (Ok (mkScanResult channel)) (with_pinned (Some channel) m)
  | RegisteringFound channel, SI_Failed => fall_back (ScE_RegisterFoundPeer channel) m
  | RestoringChannel pin, (SI_Completed | SI_Failed) => (SA_RegisterFallbackPeer pin, with_scan_state RegisteringFallback m)
  | RegisteringFallback, (SI_Completed | SI_Failed) => finish_not_found m
  | _, _ => unwind ScE_UnexpectedInput m
  end.

(** ** The loop of the bare-metal tier

    [esp-radio]'s manager, its Wi-Fi controller and the probe transmission (which goes through
    the sender runner) are a class; the clock is in microseconds from the start of the scan.
    The handle adds the driver's own cells. *)

Class EspRadio (R : Type) := {
  mgr_remove_peer : MacAddress → M R RadioError unit;
  mgr_add_peer : PeerPlan → M R RadioError unit;
  mgr_modify_peer : PeerPlan → M R RadioError unit;
  mgr_set_channel : Z → M R RadioError unit;
  ctl_set_max_tx_power : Z → M R EspHalEspNowError unit;
  radio_send_probe : MacAddress → list Z → duration → M R EspHalEspNowError unit;
  elapsed_micros : R → Z;
  wait_micros : Z → R → R }.

Section hal.
  Context {R : Type} {ER : EspRadio R}.

Record Handle := mkHandle { radio : R; owns_controller : bool; tx_power_quarter_dbm : option Z }.

Local Abbreviation MH := (M Handle EspHalEspNowError).

(** A call of the manager; its errors are those of [map_error]. *)
Definition on_radio {E A} (f : E → EspHalEspNowError) (m : M R E A) : MH A :=
  λ h, let '(r, s) := m (radio h) in (map_err f r, mkHandle s (owns_controller h) (tx_power_quarter_dbm h)).

Definition hal_set_channel (channel : Z) : MH unit :=
  _ ← of_result (validate_channel channel); on_radio EN_Radio (mgr_set_channel channel).

Definition hal_remove_peer (mac : MacAddress) : MH unit := on_radio EN_Radio (mgr_remove_peer mac).

Definition hal_add_peer (config : PeerConfig) : MH unit :=
  plan ← of_result (plan_peer config);
  r ← catch (on_radio EN_Radio (mgr_add_peer plan));
  match r with
  | Ok _ => mret tt
  | Err (EN_Radio RE_PeerExists) =>
      if existing_peer_is_idempotent plan then
        match plan_channel plan with
        | Some _ => on_radio EN_Radio (mgr_modify_peer plan)
        | None => mret tt
        end
      else throw (EN_Radio RE_PeerExists)
  | Err e => throw e
  end.

Definition record_tx_power (quarter_dbm : Z) : MH unit :=
  λ h, (Ok tt, mkHandle (radio h) (owns_controller h) (Some quarter_dbm)).

Definition set_max_tx_power (quarter_dbm : Z) : MH unit :=
  λ h,
    let apply : MH unit :=
      _ ← on_radio id (ctl_set_max_tx_power quarter_dbm); record_tx_power quarter_dbm in
    let checked : MH unit :=
      _ ← of_result (validate_tx_power quarter_dbm);
      if negb (owns_controller h) then throw EN_ControllerNotOwned else apply in
    checked h.

(** [TxPowerLevel::Max.to_quarter_dbm()]. *)
Definition TX_POWER_MAX : Z := 78.

(** [TxBoost]: what it saved. *)
Definition boost_engage (saved : option Z) (h : Handle) : option Z * Handle :=
  match saved with
  | Some _ => (saved, h)
  | None =>
      match tx_power_quarter_dbm h with
      | None => (None, h)
      | Some previous =>
          let '(r, h) := set_max_tx_power TX_POWER_MAX h in
          (match r with Ok _ => Some previous | Err _ => None end, h)
      end
  end.

Definition boost_release (saved : option Z) (h : Handle) : Handle :=
  match saved with Some previous => snd (set_max_tx_power previous h) | None => h end.

Definition completed (r : result EspHalEspNowError unit) : ScanInput :=
  match r with Ok _ => SI_Completed | Err _ => SI_Failed end.

(** The loop's state: the machine, the saved power, and whether the clean-up is armed. *)
Record HalScan := mkHalScan { hs_machine : ScanMachine; hs_saved : option Z; hs_armed : bool }.

(** One action; [None] is [Done]. *)
Definition hal_perform (mac : MacAddress) (action : ScanAction) (s : HalScan) (h : Handle) :
    option ScanInput * HalScan * Handle :=
  let armed := mkHalScan (hs_machine s) (hs_saved s) true in
  match action with
  | SA_RemovePeer => let '(r, h) := hal_remove_peer mac h in (Some (completed r), s, h)
  | SA_RegisterPeer channel | SA_RegisterFallbackPeer channel =>
      let '(r, h) := hal_add_peer (peer_on mac channel) h in (Some (completed r), armed, h)
  | SA_SetChannel channel | SA_RestoreChannel channel =>
      let '(r, h) := hal_set_channel channel h in (Some (completed r), armed, h)
  | SA_BoostTxPower =>
      let '(saved, h) := boost_engage (hs_saved s) h in
      (Some SI_Completed, mkHalScan (hs_machine s) saved (hs_armed s), h)
  | SA_RestoreTxPower =>
      (Some SI_Completed, mkHalScan (hs_machine s) None (hs_armed s), boost_release (hs_saved s) h)
  | SA_SendProbe _ _ timeout =>
      let '(r, h) := on_radio id (radio_send_probe mac (probe_data (scan_config (hs_machine s))) timeout) h in
      (Some (SI_Sent (probe_outcome r)), s, h)
  | SA_WaitUntil deadline =>
      (Some SI_Completed, s,
       mkHandle (wait_micros (Z.min u64_max (deadline / 1000)) (radio h)) (owns_controller h) (tx_power_quarter_dbm h))
  | SA_Done _ => (None, mkHalScan (hs_machine s) (hs_saved s) false, h)
  end.

(** The loop; [None] is out of fuel. *)
Fixpoint hal_scan_loop (fuel : nat) (mac : MacAddress) (input : ScanInput) (s : HalScan) (h : Handle) :
    option (result ScanError ScanResult * HalScan * Handle) :=
  match fuel with
  | O => None
  | S fuel =>
      let '(action, m) := scan_poll (elapsed_micros (radio h) * 1000) input (hs_machine s) in
      let s := mkHalScan m (hs_saved s) (hs_armed s) in
      let '(next, s, h) := hal_perform mac action s h in
      match next, action with
      | Some input, _ => hal_scan_loop fuel mac input s h
      | None, SA_Done r => Some (r, s, h)
      | None, _ => None
      end
  end.

(** The points between two turns, at which (and at whose awaits) the future may be dropped. *)
Inductive hal_reaches (mac : MacAddress) : ScanInput → HalScan → Handle → ScanInput → HalScan → Handle → Prop :=
| hal_here i s h : hal_reaches mac i s h i s h
| hal_turn i s h i1 s1 h1 i' s' h' :
    (let '(a, m) := scan_poll (elapsed_micros (radio h) * 1000) i (hs_machine s) in
     hal_perform mac a (mkHalScan m (hs_saved s) (hs_armed s)) h) = (Some i1, s1, h1) →
    hal_reaches mac i1 s1 h1 i' s' h' → hal_reaches mac i s h i' s' h'.

Definition hal_scan_init (mac : MacAddress) (config : ScanConfig) (pin : option Z) : HalScan :=
  mkHalScan (ScanMachine_new mac config pin) None false.

(** [scan_for_peer] up to its end: the new pin and the result. *)
Definition hal_scan (fuel : nat) (mac : MacAddress) (config : ScanConfig) (pin : option Z) (h : Handle) :
    option (result EspHalEspNowError ScanResult * option Z * Handle) :=
  match hal_scan_loop fuel mac SI_Start (hal_scan_init mac config pin) h with
  | Some (r, s, h) => Some (map_err EN_Scan r, pinned (hs_machine s), boost_release (hs_saved s) h)
  | None => None
  end.

(** [ScanCleanup::drop] and then [TxBoost::drop]: what a cancelled scan does. *)
Definition scan_cleanup (mac : MacAddress) (pin : option Z) (armed : bool) (h : Handle) : Handle :=
  if (negb armed : bool) then h
  else
    let '(_, h) := hal_remove_peer mac h in
    match pin with
    | Some channel => snd ((_ ← hal_set_channel channel; hal_add_peer (peer_on mac channel)) h)
    | None => h
    end.

Definition scan_cancelled (mac : MacAddress) (pin : option Z) (s : HalScan) (h : Handle) : Handle :=
  boost_release (hs_saved s) (scan_cleanup mac pin (hs_armed s) h).

End hal.
