(* ===== verification/EspNowScanProps.v ===== *)
(** * EspNowScanProps: the peer scan ends, what its result means, and that the bare-metal loop
    runs it

    [scanned] is the scan under a driver that answers each action with one of its outcomes and
    records what it did; the clock is arbitrary but monotonic. *)
From S2P Require Import Prelude Config EspNow.
Open Scope Z_scope.

(** ** Termination *)

Definition confirmations (m : ScanMachine) : nat := Z.to_nat (probe_confirmations (scan_config m)).
Definition channel_cost (m : ScanMachine) : nat := 2 + 2 * confirmations m.

Definition scan_rank (m : ScanMachine) : nat :=
  let n := length (channels (scan_config m)) in
  let after idx := (5 + (n - S idx) * channel_cost m)%nat in
  let left done := Z.to_nat (probe_confirmations (scan_config m) - done) in
  match scan_state m with
  | Idle => 9 + n * channel_cost m
  | RemovingStale => 8 + n * channel_cost m
  | RegisteringTemp => 7 + n * channel_cost m
  | Boosting => 6 + n * channel_cost m
  | SettingChannel idx => after idx + channel_cost m
  | Probing idx => after idx + 2 * confirmations m + 1
  | Gap idx done => after idx + 2 * left done
  | Confirming idx done => after idx + 2 * left done - 1
  | RestoringTxPower _ => 5
  | RemovingScanPeer _ => 4
  | RegisteringFound _ => 3
  | RestoringChannel _ => 2
  | RegisteringFallback => 1
  | Finished _ => 0
  end%nat.

(** A confirmation is open only while confirmations are missing. *)
Definition scan_wf (m : ScanMachine) : Prop :=
  match scan_state m with
  | Gap _ done | Confirming _ done => 0 ≤ done < probe_confirmations (scan_config m)
  | _ => True
  end.

Definition is_finished (m : ScanMachine) : bool :=
  match scan_state m with Finished _ => true | _ => false end.

(** Names the products, which [lia] then takes as natural numbers. *)
Ltac products :=
  repeat match goal with
  | |- context [(?a * ?b)%nat] =>
      lazymatch a with 2%nat => fail | _ => let x := fresh "prod" in set (x := (a * b)%nat) in *; clearbody x end
  | H : context [(?a * ?b)%nat] |- _ =>
      lazymatch a with 2%nat => fail | _ => let x := fresh "prod" in set (x := (a * b)%nat) in *; clearbody x end
  end.

(** What a helper leaves: a smaller machine with the same configuration. *)
Definition lowers (rank : nat) (cfg : ScanConfig) (out : ScanAction * ScanMachine) : Prop :=
  (scan_rank out.2 < rank)%nat ∧ scan_wf out.2 ∧ scan_config out.2 = cfg.

Lemma finish_lowers rank m r : (0 < rank)%nat → lowers rank (scan_config m) (finish r m).
Proof. done. Qed.

Lemma fall_back_lowers rank m e : (2 < rank)%nat → lowers rank (scan_config m) (fall_back e m).
Proof. intros. unfold fall_back. cbn. destruct (pinned m); (split; [cbn; lia | done]). Qed.

Lemma rank_setting m idx :
  scan_rank (with_scan_state (SettingChannel idx) m) =
  (5 + (length (channels (scan_config m)) - S idx) * channel_cost m + channel_cost m)%nat.
Proof. reflexivity. Qed.

Lemma next_channel_lowers now idx m rank :
  (5 + (length (channels (scan_config m)) - idx) * channel_cost m < rank)%nat →
  lowers rank (scan_config m) (next_channel now idx m).
Proof.
  intros Hr. assert (5 < rank)%nat by (eapply Nat.le_lt_trans, Hr; apply Nat.le_add_r).
  unfold next_channel. destruct (channels (scan_config m) !! idx) as [ch|] eqn:E; [|split; [done|done]].
  apply lookup_lt_Some in E.
  destruct (_ <=? _); (split; [|done]); [done|].
  cbn [snd]. rewrite rank_setting.
  replace (length (channels (scan_config m)) - idx)%nat
    with (S (length (channels (scan_config m)) - S idx)) in Hr by lia.
  rewrite Nat.mul_succ_l in Hr. lia.
Qed.

Lemma after_ack_lowers now idx done m rank :
  0 ≤ done → 
  (5 + (length (channels (scan_config m)) - S idx) * channel_cost m +
     2 * Z.to_nat (probe_confirmations (scan_config m) - done) < rank)%nat →
  lowers rank (scan_config m) (after_ack now idx done m).
Proof.
  intros Hd Hr. unfold after_ack. destruct (Z.leb_spec (probe_confirmations (scan_config m)) done).
  - split; [cbn; products; lia | done].
  - split; [exact Hr | done].
Qed.

Lemma unwind_lowers e m : scan_wf m → is_finished m = false → lowers (scan_rank m) (scan_config m) (unwind e m).
Proof.
  unfold scan_wf, is_finished, unwind, scan_rank, channel_cost.
  destruct (scan_state m); intros; (split; [cbn -[Nat.mul Nat.sub]; products; lia | done]).
Qed.

Ltac rank_lia Est :=
  unfold scan_rank; rewrite ?Est; rewrite ?Nat.sub_0_r; unfold channel_cost, confirmations;
  cbn -[Nat.mul Nat.sub Z.sub Z.to_nat]; products; lia.

Lemma scan_poll_lowers now input m :
  scan_wf m → is_finished m = false → lowers (scan_rank m) (scan_config m) (scan_poll now input m).
Proof.
  intros Hwf Hf.
  assert (Hu : ∀ e, lowers (scan_rank m) (scan_config m) (unwind e m)) by (intros; by apply unwind_lowers).
  unfold scan_poll, is_finished in *. destruct (scan_state m) eqn:Est; [..|discriminate].
  all: destruct input as [| | | |o]; try apply Hu; try destruct o; try apply Hu.
  all: unfold scan_wf in Hwf; rewrite Est in Hwf.
  all: try (apply (next_channel_lowers _ _ (with_burst_start now m)); rank_lia Est).
  all: try (apply (next_channel_lowers _ _ (count_probe m)); rank_lia Est).
  all: try (apply next_channel_lowers; rank_lia Est).
  all: try (apply (after_ack_lowers _ _ _ (count_probe m)); [lia|]; rank_lia Est).
  all: try (apply after_ack_lowers; [lia|]; rank_lia Est).
  all: try (apply fall_back_lowers; rank_lia Est).
  all: try (apply finish_lowers; rank_lia Est).
  all: try (split; [rank_lia Est | done]).
  all: destruct found; [|destruct (pinned m)]; (split; [rank_lia Est | done]).
Qed.

(** The state after a sequence of polls. *)
Fixpoint scan_feed (inputs : list (duration * ScanInput)) (m : ScanMachine) : ScanMachine :=
  match inputs with
  | [] => m
  | (now, input) :: inputs => scan_feed inputs (scan_poll now input m).2
  end.

Lemma poll_finished now i m : is_finished m = true → (scan_poll now i m).2 = m.
Proof. unfold is_finished, scan_poll. by destruct (scan_state m). Qed.

Lemma scan_feed_finished inputs m : is_finished m = true → is_finished (scan_feed inputs m) = true.
Proof.
  revert m. induction inputs as [|[now i] inputs IH]; intros m Hf; [done|]. apply IH. by rewrite poll_finished.
Qed.

Lemma scan_feed_ends inputs m :
  scan_wf m → (scan_rank m ≤ length inputs)%nat → is_finished (scan_feed inputs m) = true.
Proof.
  revert m. induction inputs as [|[now i] inputs IH]; intros m Hwf Hr; cbn [scan_feed].
  - destruct (is_finished m) eqn:Hf; [done|].
    destruct (unwind_lowers ScE_Aborted m Hwf Hf) as [H _]. cbn in Hr. lia.
  - destruct (is_finished m) eqn:Hf.
    + apply scan_feed_finished. by rewrite poll_finished.
    + destruct (scan_poll_lowers now i m Hwf Hf) as (Hl & Hwf' & _). apply IH; [done|]. cbn in Hr. lia.
Qed.

(** The scan ends whatever its driver answers and whenever: with n channels and c confirmations, 9 + n (2 + 2c) polls always leave it finished, so a driver's loop around it ends. *)
Lemma scan_terminates (mac : MacAddress) (config : ScanConfig) (pin : option Z)
    (inputs : list (duration * ScanInput)) :
  let n := length (channels config) in
  let c := Z.to_nat (probe_confirmations config) in
  (9 + n * (2 + 2 * c) ≤ length inputs)%nat →
  ∃ r, scan_state (scan_feed inputs (ScanMachine_new mac config pin)) = Finished r.
Proof.
  intros n c Hl.
  assert (Hf : is_finished (scan_feed inputs (ScanMachine_new mac config pin)) = true) by by apply scan_feed_ends.
  unfold is_finished in Hf. destruct (scan_state _); eauto; done.
Qed.

Definition one_channel : ScanConfig := mkScanConfig [6] [1] 100 1000 1 10.

(** The bound is reached: a peer that answers every probe and cannot be registered at the end. *)
Definition unlucky : list (duration * ScanInput) :=
  (λ i, (0, i)) <$>
  [SI_Start; SI_Completed; SI_Completed; SI_Completed; SI_Completed; SI_Sent SO_Acked; SI_Completed;
   SI_Sent SO_Acked; SI_Completed; SI_Completed; SI_Failed; SI_Completed; SI_Completed].

Lemma scan_terminates_witness :
  (∃ r, scan_state (scan_feed unlucky (ScanMachine_new [] one_channel (Some 1))) = Finished r) ∧
  is_finished (scan_feed (take 12 unlucky) (ScanMachine_new [] one_channel (Some 1))) = false.
Proof. split; [apply (scan_terminates [] one_channel (Some 1) unlucky); cbn; lia | reflexivity]. Defined.

(** ** What a result means

    One performed action: when it was issued and answered, newest first in a trace. *)
Record Performed := mkPerformed { issued : duration; action : ScanAction; answered : duration; answer : ScanInput }.

Definition is_restore (a : ScanAction) : bool := match a with SA_RestoreTxPower => true | _ => false end.

Definition in_teardown (a : ScanAction) (tr : list Performed) : bool :=
  match a with
  | SA_RestoreTxPower | SA_RestoreChannel _ | SA_RegisterFallbackPeer _ | SA_Done _ => true
  | _ => existsb (λ p, is_restore (action p)) tr
  end.

(** The inputs a driver may answer an action with; it may abort until the teardown begins. *)
Definition may_answer (a : ScanAction) (now : duration) (i : ScanInput) (tr : list Performed) : bool :=
  match i with
  | SI_Start => false
  | SI_Abort => negb (in_teardown a tr)
  | SI_Sent _ => match a with SA_SendProbe _ _ _ => true | _ => false end
  | SI_Completed =>
      match a with SA_SendProbe _ _ _ | SA_Done _ => false | SA_WaitUntil deadline => deadline <=? now | _ => true end
  | SI_Failed =>
      match a with SA_SendProbe _ _ _ | SA_Done _ | SA_WaitUntil _ => false | _ => true end
  end.

(** The machine reached, the action it asked for, when, and what was performed before. *)
Inductive scanned (mac : MacAddress) (config : ScanConfig) (pin : option Z) :
    ScanMachine → ScanAction → duration → list Performed → Prop :=
| scanned_start now :
    let out := scan_poll now SI_Start (ScanMachine_new mac config pin) in
    scanned mac config pin out.2 out.1 now []
| scanned_step m a t tr now i :
    scanned mac config pin m a t tr → t ≤ now → may_answer a now i tr = true →
    scanned mac config pin (scan_poll now i m).2 (scan_poll now i m).1 now (mkPerformed t a now i :: tr).

(** Some performed action is still a boost without a restore after it. *)
Fixpoint boosted (tr : list Performed) : bool :=
  match tr with
  | [] => false
  | p :: tr =>
      match action p with
      | SA_BoostTxPower => true
      | SA_RestoreTxPower => false
      | _ => boosted tr
      end
  end.

(** The channels on which a probe went out. *)
Definition counts_as_probed (p : Performed) : bool :=
  match action p, answer p with
  | SA_SendProbe _ 0 _, SI_Sent (SO_Acked | SO_NoAck) => true
  | _, _ => false
  end.
Definition probed_of (tr : list Performed) : nat := length (List.filter counts_as_probed tr).

Definition is_acked (p : Performed) (channel confirmation : Z) : Prop :=
  (∃ timeout, action p = SA_SendProbe channel confirmation timeout) ∧ answer p = SI_Sent SO_Acked.

(** [k + 1] probes in a row acknowledged on [channel], to which the radio had been switched
    right before the first; each is sent after a wait, no earlier than [gap] after the acknowledgement
    before. *)
Inductive acked_run (gap : duration) (channel : Z) : nat → list Performed → Prop :=
| acked_first p s tr :
    is_acked p channel 0 → action s = SA_SetChannel channel → answer s = SI_Completed →
    acked_run gap channel 0 (p :: s :: tr)
| acked_again k p w q tr :
    acked_run gap channel k (q :: tr) → (∃ d, action w = SA_WaitUntil d) → is_acked p channel (Z.of_nat (S k)) →
    saturating_add (answered q) gap ≤ issued p →
    acked_run gap channel (S k) (p :: w :: q :: tr).

Definition registered_found (config : ScanConfig) (channel : Z) (tr : list Performed) : Prop :=
  ∃ reg rem res tr',
    tr = reg :: rem :: res :: tr' ∧
    action reg = SA_RegisterPeer channel ∧ action rem = SA_RemovePeer ∧ action res = SA_RestoreTxPower ∧
    channel ∈ channels config ∧
    acked_run (confirmation_gap config) channel (Z.to_nat (probe_confirmations config)) tr'.

(** The last two actions put the radio and the registration back to the pin. *)
Definition went_back (pin : Z) (tr : list Performed) : Prop :=
  ∃ reg res tr', tr = reg :: res :: tr' ∧ action reg = SA_RegisterFallbackPeer pin ∧ action res = SA_RestoreChannel pin.

Definition why_failed (config : ScanConfig) (e : ScanError) (tr : list Performed) : Prop :=
  match e with
  | ScE_NotFound probed configured => probed = probed_of tr ∧ configured = length (channels config)
  | ScE_RegisterTempPeer => ∃ p, p ∈ tr ∧ action p = SA_RegisterPeer 0 ∧ answer p = SI_Failed
  | ScE_RegisterFoundPeer channel =>
      ∃ tr' tr'', tr = tr' ++ tr'' ∧ registered_found config channel tr'' ∧
                  answer <$> head tr'' = Some SI_Failed
  | ScE_UnexpectedInput => False
  | ScE_Aborted => ∃ p, p ∈ tr ∧ answer p = SI_Abort
  end.

Section invariant.
  Context (config : ScanConfig) (pin : option Z).

Abbreviation run := (acked_run (confirmation_gap config)).
Abbreviation c := (probe_confirmations config).

(** Reasons that stay true while the trace grows. *)
Definition lasting (e : ScanError) : Prop :=
  match e with ScE_RegisterTempPeer | ScE_RegisterFoundPeer _ | ScE_Aborted => True | _ => False end.

Definition sound (m : ScanMachine) (tr : list Performed) : Prop :=
  scan_config m = config ∧ pinned m = pin ∧ probed m = probed_of tr ∧
  (∀ e, scan_failure m = Some e → lasting e ∧ why_failed config e tr).

(** The channel found, with the proof in the trace. *)
Definition found_in (found : option Z) (tr : list Performed) : Prop :=
  match found with Some ch => ch ∈ channels config ∧ run ch (Z.to_nat c) tr | None => True end.

Definition finish_ok (r : result ScanError ScanResult) (m : ScanMachine) (tr : list Performed) : Prop :=
  boosted tr = false ∧
  match r with
  | Ok (mkScanResult ch) =>
      pinned m = Some ch ∧ registered_found config ch tr ∧ answer <$> head tr = Some SI_Completed
  | Err e => pinned m = pin ∧ (∀ p, pin = Some p → went_back p tr) ∧ why_failed config e tr
  end.

Definition running_ok (st : ScanState) (a : ScanAction) (t : duration) (tr : list Performed) : Prop :=
  match st with
  | Idle | Finished _ => False
  | RemovingStale => a = SA_RemovePeer ∧ boosted tr = false
  | RegisteringTemp => a = SA_RegisterPeer 0 ∧ boosted tr = false
  | Boosting => a = SA_BoostTxPower
  | SettingChannel idx => ∃ ch, channels config !! idx = Some ch ∧ a = SA_SetChannel ch
  | Probing idx =>
      ∃ ch s tr', channels config !! idx = Some ch ∧ a = SA_SendProbe ch 0 (probe_timeout config) ∧
        tr = s :: tr' ∧ action s = SA_SetChannel ch ∧ answer s = SI_Completed
  | Gap idx done =>
      ∃ ch q tr', channels config !! idx = Some ch ∧ 0 ≤ done < c ∧ tr = q :: tr' ∧ run ch (Z.to_nat done) tr ∧
        a = SA_WaitUntil (saturating_add (answered q) (confirmation_gap config))
  | Confirming idx done =>
      ∃ ch w q tr', channels config !! idx = Some ch ∧ 0 ≤ done < c ∧ tr = w :: q :: tr' ∧
        run ch (Z.to_nat done) (q :: tr') ∧ (∃ d, action w = SA_WaitUntil d) ∧ a = SA_SendProbe ch (done + 1) (probe_timeout config) ∧
        saturating_add (answered q) (confirmation_gap config) ≤ t
  | RestoringTxPower found => a = SA_RestoreTxPower ∧ found_in found tr
  | RemovingScanPeer found =>
      ∃ res tr', a = SA_RemovePeer ∧ tr = res :: tr' ∧ action res = SA_RestoreTxPower ∧ found_in found tr'
  | RegisteringFound ch =>
      ∃ rem res tr', a = SA_RegisterPeer ch ∧ tr = rem :: res :: tr' ∧ action rem = SA_RemovePeer ∧
        action res = SA_RestoreTxPower ∧ found_in (Some ch) tr'
  | RestoringChannel p => a = SA_RestoreChannel p ∧ pin = Some p ∧ boosted tr = false
  | RegisteringFallback =>
      ∃ p res tr', a = SA_RegisterFallbackPeer p ∧ pin = Some p ∧ tr = res :: tr' ∧
        action res = SA_RestoreChannel p ∧ boosted tr = false
  end.

Definition scan_inv (m : ScanMachine) (a : ScanAction) (t : duration) (tr : list Performed) : Prop :=
  match scan_state m with
  | Finished r => a = SA_Done r ∧ finish_ok r m tr
  | st => sound m tr ∧ running_ok st a t tr
  end.

Lemma why_failed_cons e p tr : lasting e → why_failed config e tr → why_failed config e (p :: tr).
Proof.
  destruct e; cbn; try done; intros _.
  - intros (q & Hq & H). exists q. split; [by apply list_elem_of_further | done].
  - intros (tr1 & tr2 & -> & H). by exists (p :: tr1), tr2.
  - intros (q & Hq & H). exists q. split; [by apply list_elem_of_further | done].
Qed.

Lemma next_channel_inv now idx m tr :
  sound m tr → scan_inv (next_channel now idx m).2 (next_channel now idx m).1 now tr.
Proof.
  intros Hs. assert (scan_config m = config) as Hc by apply Hs. unfold next_channel. rewrite Hc.
  destruct (channels config !! idx) as [ch|] eqn:E; [destruct (_ <=? _)|]; (split; [exact Hs|]); cbn; eauto.
Qed.

Lemma after_ack_inv now idx done ch q m tr :
  sound m (q :: tr) → channels config !! idx = Some ch → answered q = now → 0 ≤ done ≤ Z.max 0 c →
  run ch (Z.to_nat done) (q :: tr) →
  scan_inv (after_ack now idx done m).2 (after_ack now idx done m).1 now (q :: tr).
Proof.
  intros Hs Hidx <- Hd Hrun. assert (scan_config m = config) as Hc by apply Hs.
  unfold after_ack. rewrite Hc. destruct (Z.leb_spec c done); (split; [exact Hs|]); cbn.
  - split; [done|]. unfold channel_at. rewrite Hc, Hidx. cbn. split; [by eapply list_elem_of_lookup_2|].
    by replace (Z.to_nat c) with (Z.to_nat done) by lia.
  - exists ch, q, tr. repeat split; done || lia.
Qed.

Lemma finish_not_found_inv t m tr :
  sound m tr → boosted tr = false → (∀ p, pin = Some p → went_back p tr) →
  scan_inv (finish_not_found m).2 (finish_not_found m).1 t tr.
Proof.
  intros (Hc & Hp & Hn & Hf) Hb Hw. split; [done|]. split; [done|]. cbn. split; [done|]. split; [done|].
  destruct (scan_failure m) as [e|]; cbn; [by apply Hf|]. by rewrite Hc.
Qed.

Lemma sound_failure e m tr : sound m tr → lasting e → why_failed config e tr → sound (with_failure e m) tr.
Proof. intros (? & ? & ? & ?) ??. repeat split; try done; cbn in *; intros; simplify_eq; done. Qed.

Lemma fall_back_inv e t m tr :
  sound m tr → lasting e → why_failed config e tr → boosted tr = false →
  scan_inv (fall_back e m).2 (fall_back e m).1 t tr.
Proof.
  intros Hs Hl Hw Hb. assert (pinned m = pin) as Hp by apply Hs. pose proof (sound_failure e m tr Hs Hl Hw) as Hs'.
  unfold fall_back. cbn. rewrite Hp. destruct pin as [p|] eqn:E.
  - split; [exact Hs'|]. done.
  - apply finish_not_found_inv; [done..|]. intros p Hpin. congruence.
Qed.

Lemma not_counted t a now i :
  (∀ o, i ≠ SI_Sent o) → counts_as_probed (mkPerformed t a now i) = false.
Proof. intros H. unfold counts_as_probed. cbn. destruct a as [| | | | | | |? [| |] ?| |], i; try done; by destruct (H o). Qed.

Lemma sound_cons p m tr : sound m tr → counts_as_probed p = false → sound m (p :: tr).
Proof.
  intros (Hc & Hp & Hn & Hf) Hq. split; [done|]. split; [done|]. split.
  - unfold probed_of. cbn. rewrite Hq. done.
  - intros e He. destruct (Hf e He) as [Hl Hw]. split; [done|]. by apply why_failed_cons.
Qed.

Lemma sound_probe p m tr : sound m tr → counts_as_probed p = true → sound (count_probe m) (p :: tr).
Proof.
  intros (Hc & Hp & Hn & Hf) Hq. split; [done|]. split; [done|]. split.
  - unfold probed_of. cbn. rewrite Hq. cbn. by rewrite Hn.
  - intros e He. destruct (Hf e He) as [Hl Hw]. split; [done|]. by apply why_failed_cons.
Qed.

Lemma abort_inv m a t now tr :
  scan_inv m a t tr → in_teardown a tr = false →
  scan_inv (unwind ScE_Aborted m).2 (unwind ScE_Aborted m).1 now (mkPerformed t a now SI_Abort :: tr).
Proof.
  intros Hi Ht. unfold scan_inv in Hi. unfold unwind. destruct (scan_state m) eqn:Est; cbn in Hi.
  all: try (destruct Hi as [Hs _]; split; [|by split; [|done]];
            apply sound_failure; [apply sound_cons; [done|] | done |];
            [by apply not_counted
            |exists (mkPerformed t a now SI_Abort); split; [by apply list_elem_of_here | done]]).
  all: exfalso; destruct Hi as [? Hi]; destruct_and?; simplify_eq; try done.
  - by destruct Hi as (res & tr' & -> & -> & Hr & _); cbn in Ht; rewrite Hr in Ht.
  - destruct Hi as (rem & res & tr' & -> & -> & Hm & Hr & _); cbn in Ht; by rewrite Hm, Hr in Ht.
  - by destruct Hi as (p & res & tr' & -> & _).
Qed.

Lemma burst_step m a t now i tr :
  scan_inv m a t tr → may_answer a now i tr = true → i ≠ SI_Abort →
  match scan_state m with
  | Boosting | SettingChannel _ | Probing _ | Gap _ _ | Confirming _ _ => True
  | _ => False
  end →
  scan_inv (scan_poll now i m).2 (scan_poll now i m).1 now (mkPerformed t a now i :: tr).
Proof.
  intros Hi Ha Hna Hst. unfold scan_inv in Hi. unfold scan_poll.
  destruct (scan_state m) eqn:Est; try done; destruct Hi as [Hs Hr]; cbn in Hr.
  - subst a. destruct i; try done; apply next_channel_inv; (apply sound_cons; [exact Hs | by apply not_counted]).
  - destruct Hr as (ch & Hch & ->). destruct i; try done.
    + split; [apply sound_cons; [exact Hs | by apply not_counted]|]. cbn.
      exists ch, (mkPerformed t (SA_SetChannel ch) now SI_Completed), tr.
      unfold send_probe, channel_at. assert (scan_config m = config) as -> by apply Hs. by rewrite Hch.
    + apply next_channel_inv, sound_cons; [exact Hs | by apply not_counted].
  - destruct Hr as (ch & s & tr' & Hch & -> & -> & Hset & Hok). destruct i as [| | | |o]; try done. destruct o.
    + eapply after_ack_inv; [by apply sound_probe | done | done | lia |].
      apply acked_first; [split; [by eexists | done] | done | done].
    + apply next_channel_inv. by apply sound_probe.
    + apply next_channel_inv. by apply sound_cons.
  - destruct Hr as (ch & q & tr' & Hch & Hd & -> & Hrun & ->). destruct i; try done. cbn in Ha.
    split; [apply sound_cons; [exact Hs | by apply not_counted]|]. cbn.
    eexists ch, _, q, tr'. unfold send_probe, channel_at.
    assert (scan_config m = config) as -> by apply Hs. rewrite Hch. split_and!; try done; try lia. by eexists.
  - destruct Hr as (ch & w & q & tr' & Hch & Hd & -> & Hrun & Hwait & -> & Hgap).
    assert (counts_as_probed (mkPerformed t (SA_SendProbe ch (done + 1) (probe_timeout config)) now i) = false) as Hnc
      by (unfold counts_as_probed; cbn; destruct (done + 1) eqn:E; [lia | done | done]).
    destruct i as [| | | |o]; try done. destruct o; [|by apply next_channel_inv, sound_cons..].
    eapply after_ack_inv; [by apply sound_cons | done | done | lia |].
    replace (Z.to_nat (done + 1)) with (S (Z.to_nat done)) by lia.
    apply acked_again; [done | done | split; [|done] | done]. eexists. cbn. do 2 f_equal. lia.
Qed.

Lemma teardown_step m a t now i tr :
  scan_inv m a t tr → may_answer a now i tr = true → i ≠ SI_Abort →
  match scan_state m with
  | RestoringTxPower _ | RemovingScanPeer _ | RegisteringFound _ | RestoringChannel _ | RegisteringFallback => True
  | _ => False
  end →
  scan_inv (scan_poll now i m).2 (scan_poll now i m).1 now (mkPerformed t a now i :: tr).
Proof.
  intros Hi Ha Hna Hst. unfold scan_inv in Hi. unfold scan_poll.
  destruct (scan_state m) as [| | | | | | | |found|found|ch| | |] eqn:Est; try done; destruct Hi as [Hs Hr]; cbn in Hr.
  all: assert (sound m (mkPerformed t a now i :: tr)) as Hs'
    by (apply sound_cons; [exact Hs | apply not_counted; intros o ->; cbn in Ha;
        destruct_and?; subst; try done; naive_solver]).
  all: assert (pinned m = pin) as Hp by apply Hs.
  - destruct Hr as [-> Hf]. destruct i; try done; (split; [exact Hs'|]; cbn; by eexists _, _).
  - destruct Hr as (res & tr' & -> & -> & Hres & Hf).
    assert (boosted (mkPerformed t SA_RemovePeer now i :: res :: tr') = false) as Hb by (cbn; by rewrite Hres).
    rewrite Hp. destruct i; try done; (destruct found as [ch|]; [|destruct pin as [p|] eqn:E]).
    all: try (split; [exact Hs'|]; cbn -[boosted]; first [by eexists _, _, _ | done]).
    all: apply finish_not_found_inv; [exact Hs' | done | intros p Hpin; congruence].
  - destruct Hr as (rem & res & tr' & -> & -> & Hrem & Hres & Hf).
    assert (boosted (mkPerformed t (SA_RegisterPeer ch) now i :: rem :: res :: tr') = false) as Hb
      by (cbn; by rewrite Hrem, Hres).
    assert (registered_found config ch (mkPerformed t (SA_RegisterPeer ch) now i :: rem :: res :: tr')) as Hreg
      by (eexists _, _, _, _; split; [done|]; destruct Hf; done).
    destruct i; try done.
    apply fall_back_inv; [exact Hs' | done | by eexists [], _ | done].
  - destruct Hr as (-> & Hpin & Hb).
    destruct i; try done; (split; [exact Hs'|]; cbn; by eexists _, _, _).
  - destruct Hr as (p & res & tr' & -> & Hpin & -> & Hres & Hb).
    destruct i; try done; apply finish_not_found_inv; try done.
    all: intros p' ?; simplify_eq; by eexists _, _, _.
Qed.

Lemma opening_step m a t now i tr :
  scan_inv m a t tr → may_answer a now i tr = true → i ≠ SI_Abort →
  match scan_state m with RemovingStale | RegisteringTemp => True | _ => False end →
  scan_inv (scan_poll now i m).2 (scan_poll now i m).1 now (mkPerformed t a now i :: tr).
Proof.
  intros Hi Ha Hna Hst. unfold scan_inv in Hi. unfold scan_poll.
  destruct (scan_state m) eqn:Est; try done; destruct Hi as [Hs Hr]; cbn in Hr; destruct Hr as [-> Hb].
  - assert (sound m (mkPerformed t SA_RemovePeer now i :: tr)) as Hs'
      by (apply sound_cons; [exact Hs | apply not_counted; by intros o ->]).
    destruct i; try done; (split; [exact Hs' | done]).
  - assert (sound m (mkPerformed t (SA_RegisterPeer 0) now i :: tr)) as Hs'
      by (apply sound_cons; [exact Hs | apply not_counted; by intros o ->]).
    destruct i; try done.
    apply fall_back_inv; [exact Hs' | done | | done].
    eexists. split; [by apply list_elem_of_here | done].
Qed.

Lemma scanned_inv mac m a t tr : scanned mac config pin m a t tr → scan_inv m a t tr.
Proof.
  induction 1 as [now | m a t tr now i _ IH _ Ha]; [done|].
  destruct (decide (i = SI_Abort)) as [->|Hna].
  - assert (in_teardown a tr = false) as Ht by (by apply negb_true_iff).
    destruct (scan_state m) eqn:Est.
    14: { unfold scan_inv in IH. rewrite Est in IH. destruct IH as [-> _]. done. }
    all: assert (scan_poll now SI_Abort m = unwind ScE_Aborted m) as -> by (unfold scan_poll; by rewrite Est).
    all: by apply abort_inv.
  - destruct (scan_state m) eqn:Est; unfold scan_inv in IH; rewrite Est in IH.
    1: by destruct IH.
    13: { destruct IH as [-> _]. by destruct i. }
    1-2: by apply opening_step; [unfold scan_inv | ..]; rewrite ?Est.
    1-5: by apply burst_step; [unfold scan_inv | ..]; rewrite ?Est.
    all: by apply teardown_step; [unfold scan_inv | ..]; rewrite ?Est.
Qed.

End invariant.

(** The result of a finished scan is what its trace says, for every driver that answers as it may (aborting until the teardown begins), every outcome of every action and every monotonic clock. The transmit power is never left boosted. A success is a configured channel on which one probe and all its confirmations were acknowledged in a row, each sent no earlier than the gap after the acknowledgement before, right after the radio was switched to that channel; the peer's last registration is on it and it is the new pin. On a failure the pin is the old one, the last two actions put the radio and the registration back to it, and the error is the reason: the number of channels on which a probe went out, a refused registration, or the abort. *)
Lemma scan_outcome (mac : MacAddress) (config : ScanConfig) (pin : option Z) (m : ScanMachine)
    (r : result ScanError ScanResult) (t : duration) (tr : list Performed) :
  scanned mac config pin m (SA_Done r) t tr →
  boosted tr = false ∧
  match r with
  | Ok (mkScanResult ch) =>
      pinned m = Some ch ∧ registered_found config ch tr ∧ answer <$> head tr = Some SI_Completed
  | Err e => pinned m = pin ∧ (∀ p, pin = Some p → went_back p tr) ∧ why_failed config e tr
  end.
Proof.
  intros H%scanned_inv. unfold scan_inv in H.
  destruct (scan_state m); try (destruct H as [_ H]; cbn in H; naive_solver).
  destruct H as [Hr H]. by injection Hr as ->.
Qed.

(** Runs a script of answers as far as a driver may give them. *)
Fixpoint scan_script (script : list (duration * ScanInput)) (m : ScanMachine) (a : ScanAction) (t : duration)
    (tr : list Performed) : option (ScanMachine * ScanAction * duration * list Performed) :=
  match script with
  | [] => Some (m, a, t, tr)
  | (now, i) :: script =>
      if (t <=? now) && may_answer a now i tr then
        let '(a', m') := scan_poll now i m in scan_script script m' a' now (mkPerformed t a now i :: tr)
      else None
  end.

Lemma scan_script_scanned mac config pin script m a t tr m' a' t' tr' :
  scanned mac config pin m a t tr → scan_script script m a t tr = Some (m', a', t', tr') →
  scanned mac config pin m' a' t' tr'.
Proof.
  revert m a t tr. induction script as [|[now i] script IH]; intros m a t tr Hs He; cbn in He; [by simplify_eq|].
  destruct (Z.leb_spec t now) as [Hle|]; [|done]. cbn in He. destruct (may_answer a now i tr) eqn:Ha; [|done].
  pose proof (scanned_step _ _ _ _ _ _ _ now i Hs Hle Ha) as Hn.
  destruct (scan_poll now i m) as [a1 m1]. by apply (IH _ _ _ _ Hn).
Qed.

(** The peer answers on channel 6 and is registered there. *)
Definition found_script : list (duration * ScanInput) :=
  [(0, SI_Failed); (1, SI_Completed); (2, SI_Completed); (3, SI_Completed); (4, SI_Sent SO_Acked);
   (14, SI_Completed); (15, SI_Sent SO_Acked); (16, SI_Completed); (17, SI_Completed); (18, SI_Completed)].

Definition first_poll (config : ScanConfig) (pin : option Z) : ScanAction * ScanMachine :=
  scan_poll 0 SI_Start (ScanMachine_new [] config pin).

Lemma scan_outcome_witness :
  ∃ m t tr, scanned [] one_channel (Some 1) m (SA_Done (Ok (mkScanResult 6))) t tr ∧
    boosted tr = false ∧ pinned m = Some 6 ∧ registered_found one_channel 6 tr.
Proof.
  destruct (scan_script found_script (first_poll one_channel (Some 1)).2 (first_poll one_channel (Some 1)).1 0 [])
    as [[[[m a] t] tr]|] eqn:E; [|discriminate E].
  assert (Hs : scanned [] one_channel (Some 1) m a t tr)
    by exact (scan_script_scanned _ _ _ _ _ _ _ _ _ _ _ _ (scanned_start _ _ _ 0) E).
  assert (Ha : a = SA_Done (Ok (mkScanResult 6))) by (vm_compute in E; injection E; intros; subst; reflexivity).
  subst a. exists m, t, tr. destruct (scan_outcome _ _ _ _ _ _ _ Hs) as (Hb & Hp & Hr & _). auto.
Defined.

(** A confirmation that stays out sends the scan to the next channel; with none left, back to the pin. *)
Example lost_confirmation :
  (λ '(m, a, _, tr), (pinned m, a, probed_of tr)) <$>
    scan_script [(0, SI_Completed); (1, SI_Completed); (2, SI_Completed); (3, SI_Completed); (4, SI_Sent SO_Acked);
                 (14, SI_Completed); (15, SI_Sent SO_NoAck); (16, SI_Completed); (17, SI_Completed);
                 (18, SI_Completed); (19, SI_Failed)]
      (first_poll one_channel (Some 1)).2 (first_poll one_channel (Some 1)).1 0 [] =
  Some (Some 1, SA_Done (Err (ScE_NotFound 1 1)), 1%nat).
Proof. vm_compute. reflexivity. Qed.

(** ** A trace that was carried out

    What a trace does to the state of a driver whose actions do [did]. *)

Section carried.
  Context {X : Type} (did : Performed → X → X → Prop).

Inductive carried (x0 : X) : list Performed → X → Prop :=
| carried_nil : carried x0 [] x0
| carried_cons tr p x x' : carried x0 tr x → did p x x' → carried x0 (p :: tr) x'.

(** [k + 1] acknowledged probes with a wait between any two. *)
Inductive burst (channel : Z) : nat → X → X → Prop :=
| burst_first p x x' : is_acked p channel 0 → did p x x' → burst channel 0 x x'
| burst_again k w d p x y z x' :
    burst channel k x y → action w = SA_WaitUntil d → did w y z → is_acked p channel (Z.of_nat (S k)) → did p z x' →
    burst channel (S k) x x'.

Lemma carried_inv x0 p tr x' : carried x0 (p :: tr) x' → ∃ x, carried x0 tr x ∧ did p x x'.
Proof. intros H. inversion H; subst. eauto. Qed.

(** An acknowledged run starts with the switch to its channel. *)
Lemma run_carried gap channel k x0 tr x :
  acked_run gap channel k tr → carried x0 tr x →
  ∃ s tr' x1 x2, carried x0 tr' x1 ∧ action s = SA_SetChannel channel ∧ answer s = SI_Completed ∧ did s x1 x2 ∧ burst channel k x2 x.
Proof.
  intros Hr. revert x. induction Hr as [p s tr Hp Ha Hs|k p w q tr Hr IH [d Hw] Hp Hg]; intros x (y & Hc & Hd)%carried_inv.
  - apply carried_inv in Hc as (z & Hc & Hd'). exists s, tr, z, y. split_and!; try done. by eapply burst_first.
  - apply carried_inv in Hc as (z & Hc & Hd'). destruct (IH z Hc) as (s & tr' & x1 & x2 & ? & ? & ? & ? & Hb).
    exists s, tr', x1, x2. split_and!; try done. by eapply burst_again.
Qed.
End carried.

(** ** the bare-metal loop runs the scan, ends, and restores the power

    The laws of [EspRadioClock] say that the clock does not go back and that a wait lasts. *)

Class EspRadioClock (R : Type) {ER : EspRadio R} := {
  elapsed_pos s : 0 ≤ elapsed_micros s;
  remove_clock mac s : elapsed_micros s ≤ elapsed_micros (mgr_remove_peer mac s).2;
  add_clock plan s : elapsed_micros s ≤ elapsed_micros (mgr_add_peer plan s).2;
  modify_clock plan s : elapsed_micros s ≤ elapsed_micros (mgr_modify_peer plan s).2;
  channel_clock c s : elapsed_micros s ≤ elapsed_micros (mgr_set_channel c s).2;
  power_clock q s : elapsed_micros s ≤ elapsed_micros (ctl_set_max_tx_power q s).2;
  probe_clock mac data d s : elapsed_micros s ≤ elapsed_micros (radio_send_probe mac data d s).2;
  wait_clock d s : elapsed_micros s ≤ elapsed_micros (wait_micros d s) ∧ d ≤ elapsed_micros (wait_micros d s) }.

(** ** The loop ends *)

Lemma poll_done now i m :
  is_finished (scan_poll now i m).2 = match (scan_poll now i m).1 with SA_Done _ => true | _ => false end.
Proof.
  unfold scan_poll, unwind, next_channel, after_ack, fall_back, finish_not_found, finish, is_finished.
  destruct (scan_state m) eqn:Est, i; repeat case_match; simplify_eq; try done; cbn in *; congruence.
Qed.

Section hal.
  Context {R : Type} {ER : EspRadio R}.

Lemma perform_next mac a (s : HalScan) (h : Handle) :
  match a with SA_Done _ => (hal_perform mac a s h).1.1 = None | _ => is_Some (hal_perform mac a s h).1.1 end.
Proof. destruct a; cbn; repeat case_match; cbn; eauto. Qed.

Lemma perform_machine mac a (s : HalScan) (h : Handle) :
  hs_machine (hal_perform mac a s h).1.2 = hs_machine s.
Proof. destruct a; cbn; repeat case_match; reflexivity. Qed.

Lemma hal_scan_loop_ends fuel mac i s (h : Handle) :
  scan_wf (hs_machine s) → is_finished (hs_machine s) = false → (scan_rank (hs_machine s) ≤ fuel)%nat →
  is_Some (hal_scan_loop fuel mac i s h).
Proof.
  revert i s h. induction fuel as [|fuel IH]; intros i s h Hwf Hf Hr.
  - destruct (unwind_lowers ScE_Aborted _ Hwf Hf) as [H _]. lia.
  - cbn [hal_scan_loop]. set (now := elapsed_micros (radio h) * 1000).
    destruct (scan_poll_lowers now i _ Hwf Hf) as (Hl & Hwf' & _). pose proof (poll_done now i (hs_machine s)) as Hd.
    destruct (scan_poll now i (hs_machine s)) as [a m]. cbn in *.
    set (s1 := mkHalScan m (hs_saved s) (hs_armed s)).
    pose proof (perform_next mac a s1 h) as Hn. pose proof (perform_machine mac a s1 h) as Hm.
    destruct (hal_perform mac a s1 h) as [[next s'] h']. cbn in *.
    destruct next as [i'|]; destruct a; try (by destruct Hn); try done.
    all: apply IH; rewrite Hm; done || lia.
Qed.

(** The bare-metal scan returns: the loop of [scan_for_peer] performs at most 9 + n (2 + 2c) actions, n the number of channels and c that of confirmations, whatever the radio, the controller and the sender runner answer. *)
Lemma hal_scan_ends (mac : MacAddress) (config : ScanConfig) (pin : option Z) (h : Handle) (fuel : nat) :
  (9 + length (channels config) * (2 + 2 * Z.to_nat (probe_confirmations config)) ≤ fuel)%nat →
  is_Some (hal_scan fuel mac config pin h).
Proof.
  intros Hf. unfold hal_scan.
  destruct (hal_scan_loop_ends fuel mac SI_Start (hal_scan_init mac config pin) h)
    as [[[r s'] h'] ->]; eauto; done.
Qed.

(** ** The power comes back *)

(** The power is as before the scan, or that level is saved. *)
Definition power_kept (before saved : option Z) (h : @Handle R) : Prop :=
  tx_power_quarter_dbm h = before ∧ saved = None ∨ saved = before ∧ is_Some before ∧ owns_controller h = true.

(** Calls that leave the power alone. *)
Definition quiet {A} (m : M (@Handle R) EspHalEspNowError A) : Prop :=
  ∀ h, tx_power_quarter_dbm (m h).2 = tx_power_quarter_dbm h ∧ owns_controller (m h).2 = owns_controller h.

Lemma quiet_on_radio {E A} (f : E → EspHalEspNowError) (m : M R E A) : quiet (on_radio f m).
Proof. intros h. unfold on_radio. by destruct (m (radio h)). Qed.

Lemma quiet_of_result {A} (r : result EspHalEspNowError A) : quiet (of_result r).
Proof. done. Qed.

Lemma quiet_bind {A B} (m : M _ _ A) (f : A → M _ _ B) : quiet m → (∀ a, quiet (f a)) → quiet (m ≫= f).
Proof.
  intros Hm Hf h. rewrite M_bind_eq. specialize (Hm h). destruct (m h) as [[a|e] h']; cbn in *; [|done].
  destruct (Hf a h') as [-> ->]. done.
Qed.

Lemma quiet_catch {A} (m : M _ _ A) : quiet m → quiet (catch (F := EspHalEspNowError) m).
Proof. intros Hm h. specialize (Hm h). unfold catch. by destruct (m h). Qed.

Lemma quiet_set_channel ch : quiet (hal_set_channel ch).
Proof. apply quiet_bind; [apply quiet_of_result | intros; apply quiet_on_radio]. Qed.

Lemma quiet_add_peer cfg : quiet (hal_add_peer cfg).
Proof.
  apply quiet_bind; [apply quiet_of_result | intros plan].
  apply quiet_bind; [apply quiet_catch, quiet_on_radio | intros r].
  repeat case_match; try apply quiet_on_radio; done.
Qed.

Context (Hctl : ∀ q s, (ctl_set_max_tx_power q s).1 = Ok tt).

Lemma set_power_ok q (h : Handle) :
  MIN_TX_POWER_QUARTER_DBM ≤ q ≤ MAX_TX_POWER_QUARTER_DBM → owns_controller h = true →
  (set_max_tx_power q h).1 = Ok tt ∧ tx_power_quarter_dbm (set_max_tx_power q h).2 = Some q ∧
  owns_controller (set_max_tx_power q h).2 = true.
Proof using Hctl.
  intros Hq Ho. unfold set_max_tx_power, validate_tx_power.
  destruct (Z.leb_spec MIN_TX_POWER_QUARTER_DBM q), (Z.leb_spec q MAX_TX_POWER_QUARTER_DBM); try lia.
  unfold mbind, M_bind, of_result, on_radio. cbn. rewrite Ho. cbn. specialize (Hctl q (radio h)).
  by destruct (ctl_set_max_tx_power q (radio h)) as [r s]; cbn in *; subst r.
Qed.

Lemma set_power_not_owned q h :
  MIN_TX_POWER_QUARTER_DBM ≤ q ≤ MAX_TX_POWER_QUARTER_DBM → owns_controller h = false →
  set_max_tx_power q h = (Err EN_ControllerNotOwned, h).
Proof.
  intros Hq Ho. unfold set_max_tx_power, validate_tx_power.
  destruct (Z.leb_spec MIN_TX_POWER_QUARTER_DBM q), (Z.leb_spec q MAX_TX_POWER_QUARTER_DBM); try lia.
  unfold mbind, M_bind, of_result. cbn. by rewrite Ho.
Qed.

Lemma engage_power before saved h :
  power_kept before saved h →
  power_kept before (boost_engage saved h).1 (boost_engage saved h).2.
Proof using Hctl.
  intros [[Ht ->]|Hs]; [|destruct Hs as (-> & [p ->] & Ho); right; done].
  unfold boost_engage. rewrite Ht. destruct before as [p|]; [|by left].
  destruct (owns_controller h) eqn:Ho.
  - destruct (set_power_ok TX_POWER_MAX h ltac:(done) Ho) as (Hr & _ & Ho').
    destruct (set_max_tx_power TX_POWER_MAX h) as [r h']. cbn in *. subst r. by right.
  - rewrite set_power_not_owned by done. by left.
Qed.

Lemma release_power before saved h :
  (∀ p, before = Some p → MIN_TX_POWER_QUARTER_DBM ≤ p ≤ MAX_TX_POWER_QUARTER_DBM) →
  power_kept before saved h → tx_power_quarter_dbm (boost_release saved h) = before.
Proof using Hctl.
  intros Hr [[Ht ->]|(-> & [p ->] & Ho)]; [done|]. by apply set_power_ok; [apply Hr|].
Qed.

Lemma perform_power before mac a (s : HalScan) h :
  (∀ p, before = Some p → MIN_TX_POWER_QUARTER_DBM ≤ p ≤ MAX_TX_POWER_QUARTER_DBM) →
  power_kept before (hs_saved s) h →
  power_kept before (hs_saved (hal_perform mac a s h).1.2) (hal_perform mac a s h).2.
Proof using Hctl.
  intros Hr Hp.
  assert (Hq : ∀ A (m : M _ _ A), quiet m → power_kept before (hs_saved s) (m h).2).
  { intros A m Hm. destruct (Hm h) as [Ht Hw]. unfold power_kept. by rewrite Ht, Hw. }
  destruct a; cbn [hal_perform].
  - specialize (Hq _ _ (quiet_on_radio EN_Radio (mgr_remove_peer mac))). unfold hal_remove_peer.
    by destruct (on_radio _ _ h).
  - specialize (Hq _ _ (quiet_add_peer (peer_on mac channel))). by destruct (hal_add_peer _ h).
  - pose proof (engage_power _ _ _ Hp) as He. by destruct (boost_engage (hs_saved s) h).
  - left. split; [by apply release_power | done].
  - specialize (Hq _ _ (quiet_set_channel channel)). by destruct (hal_set_channel _ h).
  - specialize (Hq _ _ (quiet_set_channel channel)). by destruct (hal_set_channel _ h).
  - specialize (Hq _ _ (quiet_add_peer (peer_on mac channel))). by destruct (hal_add_peer _ h).
  - specialize (Hq _ _ (quiet_on_radio id (radio_send_probe mac (probe_data (scan_config (hs_machine s))) timeout))).
    by destruct (on_radio _ _ h).
  - exact Hp.
  - exact Hp.
Qed.

Lemma loop_power before fuel mac i (s : HalScan) h r s' h' :
  (∀ p, before = Some p → MIN_TX_POWER_QUARTER_DBM ≤ p ≤ MAX_TX_POWER_QUARTER_DBM) →
  power_kept before (hs_saved s) h →
  hal_scan_loop fuel mac i s h = Some (r, s', h') → power_kept before (hs_saved s') h'.
Proof using Hctl.
  intros Hr. revert i s h. induction fuel as [|fuel IH]; intros i s h Hp He; [done|]. cbn [hal_scan_loop] in He.
  destruct (scan_poll _ i (hs_machine s)) as [a m].
  pose proof (perform_power before mac a (mkHalScan m (hs_saved s) (hs_armed s)) h Hr Hp) as Hn.
  destruct (hal_perform mac a _ h) as [[next s1] h1]. cbn in Hn.
  destruct next as [i'|]; [by eapply IH|]. destruct a; simplify_eq. done.
Qed.

Lemma reaches_power before mac i (s : HalScan) h i' s' h' :
  (∀ p, before = Some p → MIN_TX_POWER_QUARTER_DBM ≤ p ≤ MAX_TX_POWER_QUARTER_DBM) →
  hal_reaches mac i s h i' s' h' → power_kept before (hs_saved s) h → power_kept before (hs_saved s') h'.
Proof using Hctl.
  intros Hr. induction 1 as [|i s h i1 s1 h1 i' s' h' He _ IH]; [done|]. intros Hp. apply IH.
  destruct (scan_poll _ i (hs_machine s)) as [a m].
  pose proof (perform_power before mac a (mkHalScan m (hs_saved s) (hs_armed s)) h Hr Hp) as Hn. by rewrite He in Hn.
Qed.

Lemma cleanup_quiet mac pin armed (h : @Handle R) :
  tx_power_quarter_dbm (scan_cleanup mac pin armed h) = tx_power_quarter_dbm h ∧
  owns_controller (scan_cleanup mac pin armed h) = owns_controller h.
Proof.
  unfold scan_cleanup. destruct armed; [|done]. cbn.
  destruct (quiet_on_radio EN_Radio (mgr_remove_peer mac) h) as [Ht Ho]. unfold hal_remove_peer.
  destruct (on_radio _ _ h) as [r h1]. cbn in *. rewrite <- Ht, <- Ho. destruct pin as [channel|]; [|done].
  apply (quiet_bind (hal_set_channel channel)); [apply quiet_set_channel | intros; apply quiet_add_peer].
Qed.

(** The scan's boost of the transmit power never outlives it. When the controller accepts levels, a scan that returns leaves the power as it was, whether or not this handle owns the controller and however the scan ended; and a scan cancelled after any number of turns does too, since the guards dropped with it put the saved level back. *)
Lemma hal_scan_restores_power (mac : MacAddress) (config : ScanConfig) (pin : option Z) (h : Handle) :
  (∀ p, tx_power_quarter_dbm h = Some p → MIN_TX_POWER_QUARTER_DBM ≤ p ≤ MAX_TX_POWER_QUARTER_DBM) →
  (∀ fuel r pin' h', hal_scan fuel mac config pin h = Some (r, pin', h') →
     tx_power_quarter_dbm h' = tx_power_quarter_dbm h) ∧
  (∀ i s h', hal_reaches mac SI_Start (hal_scan_init mac config pin) h i s h' →
     tx_power_quarter_dbm (scan_cancelled mac pin s h') = tx_power_quarter_dbm h).
Proof using Hctl.
  intros Hr. split.
  - intros fuel r pin' h' He. unfold hal_scan in He.
    destruct (hal_scan_loop _ _ _ _ h) as [[[r1 s1] h1]|] eqn:El; simplify_eq.
    apply (loop_power (tx_power_quarter_dbm h)) in El; [|done|by left]. by apply release_power.
  - intros i s h' Hs. eapply reaches_power in Hs; [|done|by left]. unfold scan_cancelled.
    apply release_power; [done|]. destruct (cleanup_quiet mac pin (hs_armed s) h') as [Ht Ho].
    unfold power_kept in *. by rewrite Ht, Ho.
Qed.

End hal.

(** ** The loop is a run of the machine *)

Section refines.
  Context {R : Type} {ER : EspRadio R} {EC : EspRadioClock R}.

Abbreviation clock h := (elapsed_micros (radio h) * 1000).

(** Calls that take the clock on. *)
Definition onward {A} (m : M (@Handle R) EspHalEspNowError A) : Prop := ∀ h, clock h ≤ clock (m h).2.

Lemma onward_on_radio {E A} (f : E → EspHalEspNowError) (m : M R E A) :
  (∀ s, elapsed_micros s ≤ elapsed_micros (m s).2) → onward (on_radio f m).
Proof. intros Hm h. unfold on_radio. specialize (Hm (radio h)). destruct (m (radio h)). cbn in *. lia. Qed.

Lemma onward_of_result {A} (r : result EspHalEspNowError A) : onward (of_result r).
Proof. intros h. cbn. lia. Qed.

Lemma onward_bind {A B} (m : M _ _ A) (f : A → M _ _ B) : onward m → (∀ a, onward (f a)) → onward (m ≫= f).
Proof.
  intros Hm Hf h. rewrite M_bind_eq. specialize (Hm h). destruct (m h) as [[a|e] h']; cbn in *; [|done].
  specialize (Hf a h'). lia.
Qed.

Lemma onward_catch {A} (m : M _ _ A) : onward m → onward (catch (F := EspHalEspNowError) m).
Proof. intros Hm h. specialize (Hm h). unfold catch. by destruct (m h). Qed.

Lemma onward_set_channel ch : onward (hal_set_channel ch).
Proof using EC. apply onward_bind; [apply onward_of_result | intros; apply onward_on_radio, channel_clock]. Qed.

Lemma onward_add_peer cfg : onward (hal_add_peer cfg).
Proof using EC.
  apply onward_bind; [apply onward_of_result | intros plan].
  apply onward_bind; [apply onward_catch, onward_on_radio, add_clock | intros r].
  repeat case_match; try apply onward_on_radio, modify_clock; intros h; cbn; lia.
Qed.

Lemma onward_set_power q : onward (set_max_tx_power q).
Proof using EC.
  intros h. unfold set_max_tx_power.
  assert (onward (_ ← on_radio id (ctl_set_max_tx_power q); record_tx_power q)) as Ha.
  { apply onward_bind; [apply onward_on_radio, power_clock|]. intros _ h'. cbn. lia. }
  apply (onward_bind (of_result (validate_tx_power q))); [apply onward_of_result|]. intros _.
  destruct (negb _); [intros h'; cbn; lia | exact Ha].
Qed.

(** What one turn answers: something the machine may be given at the clock it leaves. *)
Lemma perform_answers mac a (s : HalScan) h i' s' h' tr :
  hal_perform mac a s h = (Some i', s', h') →
  clock h ≤ clock h' ∧
  match a with
  | SA_WaitUntil deadline => i' = SI_Completed ∧ Z.min u64_max (deadline / 1000) * 1000 ≤ clock h'
  | _ => may_answer a (clock h') i' tr = true
  end.
Proof using EC.
  intros He.
  assert (Hb : ∀ r : result EspHalEspNowError unit, completed r = SI_Completed ∨ completed r = SI_Failed)
    by (intros [|]; auto).
  destruct a; cbn [hal_perform] in He.
  - unfold hal_remove_peer in He. pose proof (onward_on_radio EN_Radio (mgr_remove_peer mac) (remove_clock mac) h) as Hc.
    destruct (on_radio _ _ h) as [r h1]. simplify_eq. by destruct (Hb r) as [-> | ->].
  - pose proof (onward_add_peer (peer_on mac channel) h) as Hc.
    destruct (hal_add_peer _ h) as [r h1]. simplify_eq. by destruct (Hb r) as [-> | ->].
  - assert (clock h ≤ clock (boost_engage (hs_saved s) h).2) as Hc.
    { unfold boost_engage. destruct (hs_saved s); [cbn; lia|]. destruct (tx_power_quarter_dbm h); [|cbn; lia].
      pose proof (onward_set_power TX_POWER_MAX h). by destruct (set_max_tx_power _ h). }
    destruct (boost_engage _ h). by simplify_eq.
  - assert (clock h ≤ clock (boost_release (hs_saved s) h)) as Hc.
    { unfold boost_release. destruct (hs_saved s); [apply onward_set_power | lia]. }
    by simplify_eq.
  - pose proof (onward_set_channel channel h) as Hc.
    destruct (hal_set_channel _ h) as [r h1]. simplify_eq. by destruct (Hb r) as [-> | ->].
  - pose proof (onward_set_channel channel h) as Hc.
    destruct (hal_set_channel _ h) as [r h1]. simplify_eq. by destruct (Hb r) as [-> | ->].
  - pose proof (onward_add_peer (peer_on mac channel) h) as Hc.
    destruct (hal_add_peer _ h) as [r h1]. simplify_eq. by destruct (Hb r) as [-> | ->].
  - pose proof (onward_on_radio id (radio_send_probe mac (probe_data (scan_config (hs_machine s))) timeout)
      (probe_clock _ _ _) h) as Hc.
    destruct (on_radio _ _ h) as [r h1]. by simplify_eq.
  - simplify_eq. cbn -[u64_max].
    destruct (wait_clock (Z.min u64_max (deadline / 1000)) (radio h)) as [Hc Hd]. repeat split; lia.
  - done.
Qed.

Lemma poll_wait now i m d :
  (scan_poll now i m).1 = SA_WaitUntil d → d = saturating_add now (confirmation_gap (scan_config m)).
Proof.
  unfold scan_poll, unwind, next_channel, after_ack, fall_back, finish_not_found, finish, send_probe.
  destruct (scan_state m); repeat case_match; cbn; intros; simplify_eq; done.
Qed.

Lemma poll_config now i m : scan_config (scan_poll now i m).2 = scan_config m.
Proof.
  unfold scan_poll, unwind, next_channel, after_ack, fall_back, finish_not_found, finish.
  destruct (scan_state m); repeat case_match; simplify_eq; done.
Qed.

Lemma scanned_config mac config pin m a t tr : scanned mac config pin m a t tr → scan_config m = config.
Proof. induction 1; [reflexivity | by rewrite poll_config]. Qed.

Lemma loop_onward mac fuel i s h r s' h' :
  hal_scan_loop fuel mac i s h = Some (r, s', h') → clock h ≤ clock h'.
Proof using EC.
  revert i s h. induction fuel as [|fuel IH]; intros i s h He; [done|]. cbn [hal_scan_loop] in He.
  destruct (scan_poll (clock h) i (hs_machine s)) as [a m].
  destruct (hal_perform mac a _ h) as [[next s1] h1] eqn:Ep. destruct next as [i1|].
  - apply (perform_answers _ _ _ _ _ _ _ []) in Ep as [Hc _]. apply IH in He. lia.
  - destruct a; cbn in Ep; repeat case_match; simplify_eq. lia.
Qed.

(** The timer of this tier counts whole microseconds; they are counted in 64 bits. *)
Definition whole_micros (config : ScanConfig) : Prop := confirmation_gap config `mod` 1000 = 0.
Definition in_time (h : @Handle R) : Prop := elapsed_micros (radio h) < u64_max.

Lemma deadline_met config (h h' : @Handle R) d :
  whole_micros config → in_time h' → d = saturating_add (clock h) (confirmation_gap config) →
  Z.min u64_max (d / 1000) * 1000 ≤ clock h' → d ≤ clock h'.
Proof using EC.
  unfold in_time. intros Hm Ht -> Hw. pose proof (elapsed_pos (radio h)).
  apply Z.mod_divide in Hm as [k Hk]; [|done].
  unfold saturating_add in *. destruct (Z.min_spec dur_max (clock h + confirmation_gap config)) as [[_ E]|[_ E]];
    rewrite E in *.
  - exfalso. change (Z.min u64_max (dur_max / 1000)) with u64_max in Hw. lia.
  - rewrite Hk, <- Z.mul_add_distr_r, Z.div_mul in Hw by done. lia.
Qed.

(** What an action is on the radio, and what its answer says. *)
Definition hal_did (mac : MacAddress) (config : ScanConfig) (p : Performed) (x x' : option Z * @Handle R) : Prop :=
  let '(saved, h) := x in let '(saved', h') := x' in
  issued p = clock h ∧ answered p = clock h' ∧
  match action p with
  | SA_RemovePeer => saved' = saved ∧ ∃ r, hal_remove_peer mac h = (r, h') ∧ answer p = completed r
  | SA_RegisterPeer ch | SA_RegisterFallbackPeer ch =>
      saved' = saved ∧ ∃ r, hal_add_peer (peer_on mac ch) h = (r, h') ∧ answer p = completed r
  | SA_SetChannel ch | SA_RestoreChannel ch => saved' = saved ∧ ∃ r, hal_set_channel ch h = (r, h') ∧ answer p = completed r
  | SA_BoostTxPower =>
      answer p = SI_Completed ∧
      match saved, tx_power_quarter_dbm h with
      | None, Some previous => ∃ r, set_max_tx_power 78 h = (r, h') ∧ saved' = match r with Ok _ => Some previous | Err _ => None end
      | _, _ => saved' = saved ∧ h' = h
      end
  | SA_RestoreTxPower =>
      answer p = SI_Completed ∧ saved' = None ∧ match saved with Some previous => ∃ r, set_max_tx_power previous h = (r, h') | None => h' = h end
  | SA_SendProbe _ _ timeout =>
      saved' = saved ∧ ∃ r s, radio_send_probe mac (probe_data config) timeout (radio h) = (r, s) ∧
        h' = mkHandle s (owns_controller h) (tx_power_quarter_dbm h) ∧ answer p = SI_Sent (probe_outcome r)
  | SA_WaitUntil deadline =>
      saved' = saved ∧ answer p = SI_Completed ∧
      h' = mkHandle (wait_micros (Z.min u64_max (deadline / 1000)) (radio h)) (owns_controller h) (tx_power_quarter_dbm h)
  | SA_Done _ => False
  end.

Lemma perform_did mac config a (s : HalScan) h i s' h' :
  scan_config (hs_machine s) = config → hal_perform mac a s h = (Some i, s', h') →
  hal_did mac config (mkPerformed (clock h) a (clock h') i) (hs_saved s, h) (hs_saved s', h').
Proof.
  intros <- He. split; [done|]. split; [done|].
  destruct a; cbn [hal_perform action answer] in *.
  - destruct (hal_remove_peer mac h) as [r h1]. simplify_eq. eauto.
  - destruct (hal_add_peer _ h) as [r h1]. simplify_eq. eauto.
  - destruct (boost_engage (hs_saved s) h) as [sv h1] eqn:E. simplify_eq. split; [done|]. unfold boost_engage in E. cbn.
    destruct (hs_saved s); [by simplify_eq|]. destruct (tx_power_quarter_dbm h); [|by simplify_eq].
    unfold TX_POWER_MAX in E. destruct (set_max_tx_power 78 h) as [r h2]. simplify_eq. by exists r.
  - simplify_eq. split; [done|]. split; [done|]. unfold boost_release. destruct (hs_saved s) as [q|]; [|done].
    destruct (set_max_tx_power q h) as [r h1]. by exists r.
  - destruct (hal_set_channel _ h) as [r h1]. simplify_eq. eauto.
  - destruct (hal_set_channel _ h) as [r h1]. simplify_eq. eauto.
  - destruct (hal_add_peer _ h) as [r h1]. simplify_eq. eauto.
  - unfold on_radio in He. destruct (radio_send_probe _ _ _ _) as [r s1]. simplify_eq. split; [done|]. exists r, s1.
    split_and!; try done. by destruct r.
  - by simplify_eq.
  - done.
Qed.

(** No power is saved once nothing is boosted. *)
Lemma carried_saved mac config h tr x :
  carried (hal_did mac config) (None, h) tr x → boosted tr = false → x.1 = None.
Proof.
  induction 1 as [|tr p x x' Hc IH Hd]; [done|]. intros Hb. destruct x as [sv h1], x' as [sv' h2]. cbn in *.
  destruct Hd as (_ & _ & Hd). destruct (action p); try (by destruct Hd as [-> _]; apply IH); try done. by destruct Hd as (_ & -> & _).
Qed.

Lemma loop_scanned mac config pin x0 fuel i s h r s' h' tr :
  whole_micros config → in_time h' →
  (let out := scan_poll (clock h) i (hs_machine s) in scanned mac config pin out.2 out.1 (clock h) tr) →
  carried (hal_did mac config) x0 tr (hs_saved s, h) →
  (∀ d, (scan_poll (clock h) i (hs_machine s)).1 = SA_WaitUntil d → d = saturating_add (clock h) (confirmation_gap config)) →
  hal_scan_loop fuel mac i s h = Some (r, s', h') →
  ∃ t' tr', scanned mac config pin (hs_machine s') (SA_Done r) t' tr' ∧ carried (hal_did mac config) x0 tr' (hs_saved s', h').
Proof using EC.
  intros Hg Ht. revert i s h tr. induction fuel as [|fuel IH]; intros i s h tr Hs Hca Hw He; [done|]. cbn [hal_scan_loop] in He.
  destruct (scan_poll (clock h) i (hs_machine s)) as [a m]. cbn in Hs, Hw.
  set (s0 := mkHalScan m (hs_saved s) (hs_armed s)) in He. pose proof (perform_machine mac a s0 h) as Hm.
  destruct (hal_perform mac a s0 h) as [[next s1] h1] eqn:Ep. cbn in Hm. destruct next as [i1|].
  - pose proof (perform_did mac config a s0 h i1 s1 h1 (scanned_config _ _ _ _ _ _ _ Hs) Ep) as Hdid.
    apply (perform_answers _ _ _ _ _ _ _ tr) in Ep as [Hc Ha].
    assert (may_answer a (clock h1) i1 tr = true) as Ha'.
    { destruct a; try exact Ha. destruct Ha as [-> Hd]. apply loop_onward in He. cbn. apply Z.leb_le.
      apply (deadline_met config h); [done | unfold in_time in *; lia | by apply Hw | done]. }
    eapply (IH i1 s1 h1 (mkPerformed (clock h) a (clock h1) i1 :: tr)); [| | |exact He]; rewrite ?Hm;
      [by apply scanned_step|by eapply carried_cons|].
    intros d Hd. apply poll_wait in Hd. by rewrite (scanned_config _ _ _ _ _ _ _ Hs) in Hd.
  - destruct a; cbn in Ep; repeat case_match; simplify_eq. cbn. eexists _, _. split; [exact Hs|].
    assert (hs_saved s' = hs_saved s) as -> by (by match goal with E : _ = s' |- _ => rewrite <- E end). exact Hca.
Qed.

(** [k + 1] probes the radio reports delivered, with a wait between any two. *)
Inductive hal_probed (mac : MacAddress) (data : list Z) : nat → @Handle R → @Handle R → Prop :=
| hp_first timeout h s :
    radio_send_probe mac data timeout (radio h) = (Ok tt, s) →
    hal_probed mac data 0 h (mkHandle s (owns_controller h) (tx_power_quarter_dbm h))
| hp_again k timeout d h h1 s :
    hal_probed mac data k h h1 → radio_send_probe mac data timeout (wait_micros d (radio h1)) = (Ok tt, s) →
    hal_probed mac data (S k) h (mkHandle s (owns_controller h1) (tx_power_quarter_dbm h1)).

Lemma probe_acked (r : result EspHalEspNowError unit) : probe_outcome r = SO_Acked → r = Ok tt.
Proof. destruct r as [[]|[]]; done. Qed.

Lemma did_probe mac config p ch n sv h x' :
  is_acked p ch n → hal_did mac config p (sv, h) x' →
  ∃ timeout s, radio_send_probe mac (probe_data config) timeout (radio h) = (Ok tt, s) ∧
               x' = (sv, mkHandle s (owns_controller h) (tx_power_quarter_dbm h)).
Proof.
  destruct x' as [sv' h']. intros [[timeout Ha] Hok] (_ & _ & Hd). rewrite Ha in Hd. destruct Hd as (-> & r & s & Hr & -> & Hans).
  rewrite Hans in Hok. injection Hok as Hok%probe_acked. subst r. by exists timeout, s.
Qed.

Lemma burst_probed mac config ch k x x' :
  burst (hal_did mac config) ch k x x' → x'.1 = x.1 ∧ hal_probed mac (probe_data config) k x.2 x'.2.
Proof.
  induction 1 as [p [sv h] x' Hp Hd|k w d p [sv h] [sv1 h1] [sv2 h2] x' Hb IH Hw Hdw Hp Hd].
  - destruct (did_probe _ _ _ _ _ _ _ _ Hp Hd) as (timeout & s & Hr & ->). split; [done|]. by eapply hp_first.
  - destruct (did_probe _ _ _ _ _ _ _ _ Hp Hd) as (timeout & s & Hr & ->). destruct Hdw as (_ & _ & Hdw). rewrite Hw in Hdw.
    destruct Hdw as (-> & _ & ->). destruct IH as [IH1 IH2]. split; [exact IH1|]. cbn in Hr. by eapply (hp_again _ _ _ _ _ _ h1).
Qed.

(** How the radio was left: with the peer found and registered on its channel, or, with a pin, back
    on the pin's channel and registered there. *)
Definition hal_left (mac : MacAddress) (config : ScanConfig) (pin : option Z) (r : result ScanError ScanResult) (h' : @Handle R) : Prop :=
  match r with
  | Ok found =>
      ∃ h0 h1 h2 saved r3 h3, hal_set_channel (channel found) h0 = (Ok tt, h1) ∧
        hal_probed mac (probe_data config) (Z.to_nat (probe_confirmations config)) h1 h2 ∧
        hal_remove_peer mac (boost_release saved h2) = (r3, h3) ∧ hal_add_peer (peer_on mac (channel found)) h3 = (Ok tt, h')
  | Err _ =>
      ∀ p, pin = Some p → ∃ h0 r1 h1 r2, hal_set_channel p h0 = (r1, h1) ∧ hal_add_peer (peer_on mac p) h1 = (r2, h')
  end.

Lemma completed_ok (r : result EspHalEspNowError unit) : completed r = SI_Completed → r = Ok tt.
Proof. by destruct r as [[]|]. Qed.

Lemma carried_left mac config pin m r t tr x0 sv h' :
  scanned mac config pin m (SA_Done r) t tr → carried (hal_did mac config) x0 tr (sv, h') → hal_left mac config pin r h'.
Proof.
  intros Hs Hc. destruct (scan_outcome _ _ _ _ _ _ _ Hs) as [_ Ho]. destruct r as [[ch]|e]; cbn.
  - destruct Ho as (_ & (reg & rem & res & tr' & -> & Hreg & Hrem & Hres & _ & Hrun) & Hans). injection Hans as Hans.
    apply carried_inv in Hc as ([sv3 h3] & Hc & (_ & _ & Hd3)). rewrite Hreg in Hd3. destruct Hd3 as (_ & r3 & Hadd & Hok).
    apply carried_inv in Hc as ([sv2 h2] & Hc & (_ & _ & Hd2)). rewrite Hrem in Hd2. destruct Hd2 as (_ & r2 & Hdel & _).
    apply carried_inv in Hc as ([sv1 h1] & Hc & (_ & _ & Hd1)). rewrite Hres in Hd1. destruct Hd1 as (_ & _ & Hd1).
    destruct (run_carried _ _ _ _ _ _ _ Hrun Hc) as (s & tr1 & [sva ha] & [svb hb] & _ & Has & Hoks & (_ & _ & Hds) & Hb).
    rewrite Has in Hds. destruct Hds as (_ & rs & Hset & Hcs). rewrite Hcs in Hoks. apply completed_ok in Hoks as ->.
    apply burst_probed in Hb as [_ Hb]. cbn in Hb. rewrite Hans in Hok. symmetry in Hok. apply completed_ok in Hok as ->.
    exists ha, hb, h1, sv1, r2, h3. split_and!; try done. rewrite <- Hdel. f_equal. unfold boost_release.
    destruct sv1; [|done]. destruct Hd1 as [r1 ->]. done.
  - intros p Hp. destruct Ho as (_ & Hback & _). destruct (Hback p Hp) as (reg & res & tr' & -> & Hreg & Hres).
    apply carried_inv in Hc as ([sv2 h2] & Hc & (_ & _ & Hd2)). rewrite Hreg in Hd2. destruct Hd2 as (_ & r2 & Hadd & _).
    apply carried_inv in Hc as ([sv1 h1] & Hc & (_ & _ & Hd1)). rewrite Hres in Hd1. destruct Hd1 as (_ & r1 & Hset & _).
    by exists h1, r1, h2, r2.
Qed.


End refines.

(** ** A radio to run it on

    A peer on channel 6; every call takes ten microseconds. *)
Record SimRadio := mkSim { sim_clock : Z; sim_channel : Z; sim_runner : bool }.

Definition sim_tick {E} (f : SimRadio → SimRadio) (r : result E unit) : M SimRadio E unit :=
  λ s, (r, mkSim (Z.max 0 (sim_clock s) + 10) (sim_channel (f s)) (sim_runner s)).

#[export] Instance sim_radio : EspRadio SimRadio := {
  mgr_remove_peer mac := sim_tick id (Ok tt);
  mgr_add_peer plan := sim_tick id (Ok tt);
  mgr_modify_peer plan := sim_tick id (Ok tt);
  mgr_set_channel c := sim_tick (λ s, mkSim (sim_clock s) c (sim_runner s)) (Ok tt);
  ctl_set_max_tx_power q := sim_tick id (Ok tt);
  radio_send_probe mac data d s :=
    sim_tick id (if negb (sim_runner s) then Err EN_NoSenderRunner
                 else if sim_channel s =? 6 then Ok tt else Err EN_SendFailed) s;
  elapsed_micros s := Z.max 0 (sim_clock s);
  wait_micros d s := mkSim (Z.max (sim_clock s) d) (sim_channel s) (sim_runner s) }.

#[export] Instance sim_radio_clock : EspRadioClock SimRadio.
Proof. split; intros; cbn; lia. Qed.

Definition sim_handle (runner : bool) : Handle := mkHandle (mkSim 0 1 runner) true (Some 52).
Definition sim_config : ScanConfig := mkScanConfig [1; 6; 11] [1] (from_millis 100) (from_secs 3) 1 (from_millis 150).

(** The peer is found on channel 6, one confirmation 150 ms later. *)
Example sim_scan_finds :
  (λ '(r, pin, h), (r, pin, tx_power_quarter_dbm h, sim_channel (radio h))) <$>
    hal_scan 21 [1; 2; 3; 4; 5; 6] sim_config (Some 1) (sim_handle true) =
  Some (Ok (mkScanResult 6), Some 6, Some 52, 6).
Proof. vm_compute. reflexivity. Qed.

Lemma hal_scan_ends_witness : is_Some (hal_scan 21 [1] sim_config None (sim_handle true)).
Proof. apply hal_scan_ends. cbn. lia. Defined.

Lemma hal_scan_restores_power_witness :
  ∃ r pin' h', hal_scan 21 [1] sim_config None (sim_handle true) = Some (r, pin', h') ∧ tx_power_quarter_dbm h' = Some 52.
Proof.
  destruct (hal_scan 21 [1] sim_config None (sim_handle true)) as [[[r pin'] h']|] eqn:E; [|by vm_compute in E].
  exists r, pin', h'. split; [done|].
  refine (proj1 (hal_scan_restores_power _ [1] sim_config None (sim_handle true) _) 21%nat r pin' h' E); [done|].
  intros p [= <-]; split; vm_compute; discriminate.
Defined.


(** Without a sender runner every probe fails, and the scan reports a peer not found on no channel. *)
Example no_runner_not_found :
  fst <$> (fst <$> hal_scan 21 [1; 2; 3; 4; 5; 6] sim_config None (sim_handle false)) =
  Some (Err (EN_Scan (ScE_NotFound 0 3))).
Proof. vm_compute. reflexivity. Qed.
