(* ===== verification/IdfEspNow.v ===== *)
(** * IdfEspNow: the ESP-NOW driver of the ESP-IDF tier ([espnow/mod.rs] of [rustyfarian-esp-idf-network])

    The radio, its Wi-Fi driver and the clock are third-party: the class [IdfRadio] of the calls, each
    recorded in the driver's log with whether it succeeded.  The send callback writes a slot that the
    caller waits for; what the caller sees there, and when, is an answer of the radio.  One caller
    holds the guard of the send callback at a time, so a scan or a send is one sequence of calls. *)
From S2P Require Import Prelude Text Config EspNow EspNowScanProps.
Open Scope Z_scope.

Inductive RadioMode := CallerManagedSta | OwnedSoftAp | OwnedStaPromisc.

#[export] Instance RadioMode_eq_dec : EqDecision RadioMode.
Proof. solve_decision. Defined.

Definition wifi_interface (m : RadioMode) : WifiInterface :=
  match m with OwnedSoftAp => Ap | CallerManagedSta | OwnedStaPromisc => Sta end.

(** [anyhow::Error]: the contexts, outermost first, and the cause. *)
Inductive Cause := Cause_Text (text : string) | Cause_Scan (kind : ScanError).
Record AnyError := mkAny { contexts : list string; cause : Cause }.
Definition any_text (text : string) : AnyError := mkAny [] (Cause_Text text).
Definition add_context (c : string) (e : AnyError) : AnyError := mkAny (c :: contexts e) (cause e).

(** ** Waiting for the callback ([AckStatus]) *)

(** What a waiter finds under the lock: the slot and the time, or a poisoned lock. *)
Inductive AckTurn := AT_Slot (value : option bool) (now : duration) | AT_Poisoned.

(** The waiter stops at a value or at the deadline; until then it goes back to sleep.  A list that ends
    is the poisoned lock of [wait_timeout]. *)
Fixpoint ack_turns (deadline : duration) (turns : list AckTurn) : option bool :=
  match turns with
  | [] | AT_Poisoned :: _ => None
  | AT_Slot (Some v) _ :: _ => Some v
  | AT_Slot None now :: turns => if deadline <=? now then None else ack_turns deadline turns
  end.

Definition ack_wait (start timeout : duration) (turns : list AckTurn) : option bool :=
  match dur_add start timeout with Some deadline => ack_turns deadline turns | None => None end.

(** ** The receive queue *)

(** [SyncSender::try_send] of the callback: a full queue drops the frame. *)
Definition on_receive (capacity : nat) (mac : MacAddress) (data : list Z) (q : list EspNowEvent) : list EspNowEvent :=
  if (length q <? capacity)%nat then q ++ [EspNowEvent_new mac data] else q.

Definition idf_try_recv (q : list EspNowEvent) : option EspNowEvent * list EspNowEvent :=
  match q with [] => (None, []) | e :: q => (Some e, q) end.

(** ** The radio *)

Inductive RadioCall :=
| RC_AddPeer (p : PeerConfig) | RC_DelPeer (mac : MacAddress) | RC_Send (mac : MacAddress) (data : list Z)
| RC_RegisterSendCb | RC_UnregisterSendCb
| RC_SetChannel (channel : Z) | RC_SetPromiscuous (on : bool) | RC_RawSend (mac : MacAddress) (data : list Z)
| RC_GetTxPower | RC_SetTxPower (quarter_dbm : Z)
| RC_NewWifi | RC_ConfigureSoftAp (channel : Z) | RC_StartWifi | RC_TakeEspNow | RC_RegisterRecvCb.

Class IdfRadio (R : Type) := {
  rd_call : RadioCall → M R string unit;
  rd_tx_power : M R string Z;
  rd_guard : M R string unit;
  rd_ack : duration → R → list AckTurn * R;
  rd_now : R → duration;
  rd_sleep : duration → R → R }.
#[global] Hint Mode IdfRadio ! : typeclass_instances.

Definition U8_MAX : Z := 255.

Section driver.
Context {R : Type} {IR : IdfRadio R}.

(** [pin] is [pinned_channel], 255 for none; [registered]: the send callback is registered, its guard held. *)
Record IdfDriver := mkDriver { idf_radio : R; registered : bool; pin : Z; calls : list (RadioCall * bool) }.

Local Abbreviation MD := (M IdfDriver AnyError).

Definition is_ok {E A} (r : result E A) : bool := match r with Ok _ => true | Err _ => false end.

Definition idf_log {A} (c : RadioCall) (m : M R string A) : MD A :=
  λ d, let '(r, s) := m (idf_radio d) in
       (map_err any_text r, mkDriver s (registered d) (pin d) (calls d ++ [(c, is_ok r)])).
Definition idf_call (c : RadioCall) : MD unit := idf_log c (rd_call c).

Definition with_context {A} (c : string) (m : MD A) : MD A := λ d, let '(r, d) := m d in (map_err (add_context c) r, d).

(** A text of the driver's own around the code of a call. *)
Definition with_code {A} (text : string) (m : MD A) : MD A :=
  λ d, let '(r, d) := m d in (map_err (λ e, match cause e with Cause_Text code => any_text (text +:+ code) | _ => e end) r, d).

Definition with_radio (s : R) (d : IdfDriver) : IdfDriver := mkDriver s (registered d) (pin d) (calls d).
Definition with_registered (b : bool) (d : IdfDriver) : IdfDriver := mkDriver (idf_radio d) b (pin d) (calls d).
Definition with_pin (p : Z) (d : IdfDriver) : IdfDriver := mkDriver (idf_radio d) (registered d) p (calls d).

Definition pinned_channel_opt (d : IdfDriver) : option Z := if pin d =? U8_MAX then None else Some (pin d).

(** ** The driver trait *)

Definition idf_add_peer (p : PeerConfig) : MD unit := with_context "failed to add ESP-NOW peer" (idf_call (RC_AddPeer p)).
Definition idf_remove_peer (mac : MacAddress) : MD unit := with_context "failed to remove ESP-NOW peer" (idf_call (RC_DelPeer mac)).

Definition checked_payload (data : list Z) : MD unit :=
  of_result (map_err (λ _, add_context "payload validation failed" (any_text "ESP-NOW payload exceeds maximum length of 250 bytes"))
               (validate_payload data)).

Definition idf_send (mac : MacAddress) (data : list Z) : MD unit :=
  _ ← checked_payload data; with_context "failed to send ESP-NOW frame" (idf_call (RC_Send mac data)).

(** ** The send callback *)

Definition register_ack_cb (scope : string) : MD unit :=
  λ d,
    match rd_guard (idf_radio d) with
    | (Err _, s) => (Err (any_text "send_cb_guard poisoned"), with_radio s d)
    | (Ok _, s) =>
        match with_context ("failed to register send callback for " +:+ scope) (idf_call RC_RegisterSendCb) (with_radio s d) with
        | (Ok _, d) => (Ok tt, with_registered true d)
        | (Err e, d) => (Err e, d)
        end
    end.

(** [SendCbScope::drop]. *)
Definition release_cb (d : IdfDriver) : IdfDriver := with_registered false (idf_call RC_UnregisterSendCb d).2.

Definition ack_status_wait (timeout : duration) (d : IdfDriver) : option bool * IdfDriver :=
  let start := rd_now (idf_radio d) in
  let '(turns, s) := rd_ack timeout (idf_radio d) in (ack_wait start timeout turns, with_radio s d).

(** ** Sending *)

(** The four calls are made whatever the ones before answered. *)
Definition send_with_promisc_repin (mac : MacAddress) (data : list Z) (channel : Z) : MD unit :=
  _ ← checked_payload data;
  _ ← catch (idf_call (RC_SetPromiscuous true));
  _ ← catch (idf_call (RC_SetChannel channel));
  _ ← catch (idf_call (RC_SetPromiscuous false));
  with_code "esp_now_send failed: " (idf_call (RC_RawSend mac data)).

Definition send_frame (mode : RadioMode) (mac : MacAddress) (data : list Z) : MD unit :=
  λ d, match mode, pinned_channel_opt d with
       | OwnedStaPromisc, Some ch => send_with_promisc_repin mac data ch d
       | _, _ => idf_send mac data d
       end.

Definition acked (timeout_ms : Z) : MD unit :=
  λ d, let '(status, d) := ack_status_wait (from_millis timeout_ms) d in
       (match status with
        | Some true => Ok tt
        | Some false => Err (any_text "peer did not ACK")
        | None => Err (any_text ("send ACK timeout after " +:+ show_uint timeout_ms +:+ " ms"))
        end, d).

Definition send_and_wait (mode : RadioMode) (mac : MacAddress) (data : list Z) (timeout_ms : Z) : MD unit :=
  λ d,
    match register_ack_cb "send_and_wait" d with
    | (Err e, d) => (Err e, d)
    | (Ok _, d) =>
        let '(r, d) := (_ ← send_frame mode mac data; acked timeout_ms) d in
        (r, release_cb d)
    end.

(** ** The scan *)

(** What the loop keeps: the machine, the callback scope, the power to go back to, and two errors. *)
Record IdfScan := mkIdfScan {
  is_machine : ScanMachine; is_cb : bool; is_saved : option Z; is_cb_error : option AnyError; is_register_error : option AnyError }.

Definition MAX_TX_POWER : Z := 78.

Definition done_or_failed (r : result AnyError unit) : ScanInput := match r with Ok _ => SI_Completed | Err _ => SI_Failed end.

Definition temp_peer (mode : RadioMode) (mac : MacAddress) (channel : Z) : PeerConfig :=
  mkPeer mac channel false (wifi_interface mode).

Definition with_scan (m : ScanMachine) (s : IdfScan) : IdfScan := mkIdfScan m (is_cb s) (is_saved s) (is_cb_error s) (is_register_error s).

(** [BoostTxPower]: the callback is registered, the power is read and raised. *)
Definition boost (s : IdfScan) (d : IdfDriver) : ScanInput * IdfScan * IdfDriver :=
  match register_ack_cb "scanning" d with
  | (Err e, d) => (SI_Abort, mkIdfScan (is_machine s) (is_cb s) (is_saved s) (Some e) (is_register_error s), d)
  | (Ok _, d) =>
      let '(power, d) := idf_log RC_GetTxPower rd_tx_power d in
      let '(_, d) := idf_call (RC_SetTxPower MAX_TX_POWER) d in
      (SI_Completed, mkIdfScan (is_machine s) true (result_ok power) (is_cb_error s) (is_register_error s), d)
  end.

(** [RestoreTxPower], and the end of the callback scope. *)
Definition unboost (s : IdfScan) (d : IdfDriver) : IdfScan * IdfDriver :=
  let d := match is_saved s with Some q => (idf_call (RC_SetTxPower q) d).2 | None => d end in
  (mkIdfScan (is_machine s) false (is_saved s) (is_cb_error s) (is_register_error s), if is_cb s then release_cb d else d).

Definition probe (mac : MacAddress) (data : list Z) (timeout : duration) (d : IdfDriver) : SendOutcome * IdfDriver :=
  match idf_send mac data d with
  | (Err _, d) => (SO_Error, d)
  | (Ok _, d) => let '(status, d) := ack_status_wait timeout d in
                 (match status with Some true => SO_Acked | _ => SO_NoAck end, d)
  end.

(** One action; [None] is [Done], which drops what is left of the callback scope. *)
Definition idf_perform (mode : RadioMode) (mac : MacAddress) (epoch : duration) (a : ScanAction) (s : IdfScan) (d : IdfDriver) :
    option ScanInput * IdfScan * IdfDriver :=
  match a with
  | SA_RemovePeer => (Some SI_Completed, s, (idf_remove_peer mac d).2)
  | SA_RegisterPeer channel =>
      let '(r, d) := idf_add_peer (temp_peer mode mac channel) d in
      (Some (done_or_failed r),
       mkIdfScan (is_machine s) (is_cb s) (is_saved s) (is_cb_error s)
         match r with Err e => Some e | Ok _ => is_register_error s end, d)
  | SA_RegisterFallbackPeer channel => (Some SI_Completed, s, (idf_add_peer (temp_peer mode mac channel) d).2)
  | SA_BoostTxPower => let '(i, s, d) := boost s d in (Some i, s, d)
  | SA_RestoreTxPower => let '(s, d) := unboost s d in (Some SI_Completed, s, d)
  | SA_RestoreChannel channel => (Some SI_Completed, s, (idf_call (RC_SetChannel channel) d).2)
  | SA_SetChannel channel => let '(r, d) := idf_call (RC_SetChannel channel) d in (Some (done_or_failed r), s, d)
  | SA_SendProbe _ _ timeout =>
      let '(o, d) := probe mac (probe_data (scan_config (is_machine s))) timeout d in (Some (SI_Sent o), s, d)
  | SA_WaitUntil deadline =>
      let now := rd_now (idf_radio d) - epoch in
      (Some SI_Completed, s, if now <? deadline then with_radio (rd_sleep (deadline - now) (idf_radio d)) d else d)
  | SA_Done _ => (None, s, if is_cb s then release_cb d else d)
  end.

(** [ScanFailure]: the kind and the cause the loop remembered. *)
Record ScanFailure := mkScanFailure { kind : ScanError; failure_cause : option AnyError }.

Definition failure_of (s : IdfScan) (e : ScanError) : ScanFailure :=
  mkScanFailure e
    match e, is_cb_error s with
    | ScE_Aborted, Some c => Some c
    | (ScE_RegisterTempPeer | ScE_RegisterFoundPeer _), _ => is_register_error s
    | _, _ => None
    end.

Definition into_anyhow (f : ScanFailure) : AnyError :=
  match kind f, failure_cause f with
  | ScE_RegisterTempPeer, Some c => add_context "failed to register temporary peer for scanning" c
  | ScE_RegisterFoundPeer _, Some c => add_context "failed to re-register peer on discovered channel" c
  | ScE_Aborted, Some c => c
  | k, _ => mkAny [] (Cause_Scan k)
  end.

(** The loop; [None] is out of fuel. *)
Fixpoint drive_scan (fuel : nat) (mode : RadioMode) (mac : MacAddress) (epoch : duration) (input : ScanInput) (s : IdfScan) (d : IdfDriver) :
    option (result ScanError ScanResult * IdfScan * IdfDriver) :=
  match fuel with
  | O => None
  | S fuel =>
      let '(a, m) := scan_poll (rd_now (idf_radio d) - epoch) input (is_machine s) in
      let '(next, s, d) := idf_perform mode mac epoch a (with_scan m s) d in
      match next, a with
      | Some input, _ => drive_scan fuel mode mac epoch input s d
      | None, SA_Done r => Some (r, s, d)
      | None, _ => None
      end
  end.

Definition idf_scan_init (mac : MacAddress) (config : ScanConfig) (pin : option Z) : IdfScan :=
  mkIdfScan (ScanMachine_new mac config pin) false None None None.

Definition SCAN_NEEDS_RADIO : string :=
  "scan_for_peer requires init_with_radio or init_with_radio_sta (driver must own the radio); scanning hops Wi-Fi channels and would break any active AP association the caller relies on".

(** [scan_for_peer]: only a success moves the pin. *)
Definition idf_scan (fuel : nat) (mode : RadioMode) (mac : MacAddress) (config : ScanConfig) (d : IdfDriver) :
    option (result AnyError ScanResult * IdfDriver) :=
  if bool_decide (mode = CallerManagedSta) then Some (Err (any_text SCAN_NEEDS_RADIO), d)
  else
    '(r, s, d) ← drive_scan fuel mode mac (rd_now (idf_radio d)) SI_Start (idf_scan_init mac config (pinned_channel_opt d)) d;
    Some (match r with
          | Ok found => (Ok found, with_pin (channel found) d)
          | Err e => (Err (into_anyhow (failure_of s e)), d)
          end).

(** ** The constructors: the mode and the capacity of the receive queue *)

Definition DEFAULT_RX_CHANNEL_CAPACITY : nat := 32.

Definition fresh_driver (s : R) : IdfDriver := mkDriver s false U8_MAX [].

Definition init_inner (capacity : nat) (mode : RadioMode) : MD (RadioMode * nat) :=
  _ ← with_context "failed to acquire EspNow singleton" (idf_call RC_TakeEspNow);
  _ ← with_context "failed to register ESP-NOW receive callback" (idf_call RC_RegisterRecvCb);
  mret (mode, capacity).

Definition now_init : MD (RadioMode * nat) := init_inner DEFAULT_RX_CHANNEL_CAPACITY CallerManagedSta.
Definition idf_init_with_capacity (capacity : nat) : MD (RadioMode * nat) := init_inner capacity CallerManagedSta.

Definition idf_init_with_radio : MD (RadioMode * nat) :=
  _ ← with_context "failed to create EspWifi for ESP-NOW radio" (idf_call RC_NewWifi);
  _ ← with_context "failed to configure SoftAP for ESP-NOW radio" (idf_call (RC_ConfigureSoftAp 1));
  _ ← with_context "failed to start Wi-Fi SoftAP for ESP-NOW" (idf_call RC_StartWifi);
  init_inner DEFAULT_RX_CHANNEL_CAPACITY OwnedSoftAp.

Definition idf_init_with_radio_sta : MD (RadioMode * nat) :=
  _ ← with_context "failed to create EspWifi for ESP-NOW radio" (idf_call RC_NewWifi);
  _ ← with_context "failed to start Wi-Fi radio for ESP-NOW" (idf_call RC_StartWifi);
  init_inner DEFAULT_RX_CHANNEL_CAPACITY OwnedStaPromisc.

(** [init_with_radio_scanning]; a failed scan drops the driver. *)
Definition idf_init_scanning (fuel : nat) (mac : MacAddress) (config : ScanConfig) (s : R) :
    option (result AnyError (RadioMode * nat * ScanResult) * IdfDriver) :=
  match idf_init_with_radio (fresh_driver s) with
  | (Err e, d) => Some (Err e, d)
  | (Ok (mode, capacity), d) =>
      '(r, d) ← idf_scan fuel mode mac config d;
      Some (match r with Ok found => Ok (mode, capacity, found) | Err e => Err e end, d)
  end.
End driver.

(** ** The scan goes forward *)

Definition stage (st : ScanState) : nat :=
  match st with
  | Idle => 0 | RemovingStale => 1 | RegisteringTemp => 2 | Boosting => 3
  | SettingChannel _ | Probing _ | Gap _ _ | Confirming _ _ => 4
  | RestoringTxPower _ => 5 | RemovingScanPeer _ => 6 | RegisteringFound _ => 7 | RestoringChannel _ => 8
  | RegisteringFallback => 9 | Finished _ => 10
  end.

Lemma poll_stage now i m :
  let out := scan_poll now i m in let st := stage (scan_state m) in let st' := stage (scan_state out.2) in
  ((st < st')%nat ∨ st = st' ∧ (st = 4 ∨ st = 10)%nat) ∧
  ((st = 3 ∨ st = 4)%nat → (st' = 4 ∨ st' = 5)%nat) ∧
  (out.1 = SA_BoostTxPower ↔ st' = 3%nat) ∧ (out.1 = SA_RestoreTxPower ↔ st' = 5%nat) ∧
  (∀ r, out.1 = SA_Done r → st' = 10%nat).
Proof.
  cbn zeta. unfold scan_poll, unwind, next_channel, after_ack, fall_back, finish_not_found, finish, send_probe.
  destruct (scan_state m) eqn:Est, i; repeat case_match; simplify_eq; cbn; rewrite ?Est; cbn;
    split_and!; try split; intros; simplify_eq; first [done|lia].
Qed.

Lemma scanned_stage mac config pin m a t tr :
  scanned mac config pin m a t tr →
  (a = SA_BoostTxPower ↔ stage (scan_state m) = 3%nat) ∧ (a = SA_RestoreTxPower ↔ stage (scan_state m) = 5%nat) ∧
  (existsb (λ p, is_restore (action p)) tr = true → (5 < stage (scan_state m))%nat).
Proof.
  induction 1 as [now|m a t tr now i Hs IH Hle Hm]; [by destruct (poll_stage now SI_Start (ScanMachine_new mac config pin)) as (_ & _ & ? & ? & _)|].
  destruct (poll_stage now i m) as (Hup & _ & Hb & Hr & _). destruct IH as (_ & Hr' & Hlate). split_and!; [done|done|].
  cbn. intros [Ha|Ha]%orb_prop.
  - assert (a = SA_RestoreTxPower) as Ha' by by destruct a. apply Hr' in Ha'. lia.
  - apply Hlate in Ha. lia.
Qed.

(** ** The loop ends *)

Section loop.
Context {R : Type} {IR : IdfRadio R}.
Implicit Types (d : IdfDriver (R:=R)) (s : IdfScan).

Lemma idf_perform_next mode mac epoch a s d :
  match a with SA_Done _ => (idf_perform mode mac epoch a s d).1.1 = None | _ => is_Some (idf_perform mode mac epoch a s d).1.1 end.
Proof. destruct a; cbn [idf_perform]; repeat case_match; cbn; eauto. Qed.

Lemma idf_perform_machine mode mac epoch a s d : is_machine (idf_perform mode mac epoch a s d).1.2 = is_machine s.
Proof.
  destruct a; cbn [idf_perform]; unfold boost, unboost; repeat case_match; by simplify_eq.
Qed.

Lemma drive_scan_ends fuel mode mac epoch i s d :
  scan_wf (is_machine s) → is_finished (is_machine s) = false → (scan_rank (is_machine s) ≤ fuel)%nat →
  is_Some (drive_scan fuel mode mac epoch i s d).
Proof.
  revert i s d. induction fuel as [|fuel IH]; intros i s d Hwf Hf Hr.
  - destruct (unwind_lowers ScE_Aborted _ Hwf Hf) as [H _]. lia.
  - cbn [drive_scan]. set (now := rd_now (idf_radio d) - epoch).
    destruct (scan_poll_lowers now i _ Hwf Hf) as (Hl & Hwf' & _). pose proof (poll_done now i (is_machine s)) as Hd.
    destruct (scan_poll now i (is_machine s)) as [a m]. cbn in *.
    pose proof (idf_perform_next mode mac epoch a (with_scan m s) d) as Hn. pose proof (idf_perform_machine mode mac epoch a (with_scan m s) d) as Hm.
    destruct (idf_perform mode mac epoch a (with_scan m s) d) as [[next s'] d']. cbn in *.
    destruct next as [i'|]; destruct a; try (by destruct Hn); try done.
    all: apply IH; rewrite Hm; done || lia.
Qed.

(** The scan returns, whatever the radio answers: with n channels and c confirmations, after at most 9 + n (2 + 2c) actions. *)
Lemma idf_scan_ends mode mac config d fuel :
  (9 + length (channels config) * (2 + 2 * Z.to_nat (probe_confirmations config)) ≤ fuel)%nat →
  is_Some (idf_scan fuel mode mac config d).
Proof.
  intros Hf. unfold idf_scan. case_bool_decide; [by eexists|].
  destruct (drive_scan_ends fuel mode mac (rd_now (idf_radio d)) SI_Start (idf_scan_init mac config (pinned_channel_opt d)) d)
    as [[[r s'] d'] E]; [done|done|done|]. rewrite E. cbn. eauto.
Qed.

(** ** What the loop leaves

    The invariant of the loop: the callback is registered exactly while the loop holds its scope, which it
    does only in the burst; the power is the one from before, or the one to go back to is remembered. *)

Class IdfPower : Type := {
  rd_power : R → Z;
  power_read (s : R) : rd_power (rd_tx_power s).2 = rd_power s ∧ ∀ q, (rd_tx_power s).1 = Ok q → q = rd_power s;
  power_set q (s : R) : (rd_call (RC_SetTxPower q) s).1 = Ok tt → rd_power (rd_call (RC_SetTxPower q) s).2 = q;
  power_call c (s : R) : match c with RC_SetTxPower _ => True | _ => rd_power (rd_call c s).2 = rd_power s end;
  power_guard (s : R) : rd_power (rd_guard s).2 = rd_power s;
  power_ack t (s : R) : rd_power (rd_ack t s).2 = rd_power s;
  power_sleep t (s : R) : rd_power (rd_sleep t s) = rd_power s }.

Context {PW : IdfPower}.

(** The driver can read its power, and set it. *)
Definition power_works : Prop := (∀ s : R, is_ok (rd_tx_power s).1 = true) ∧ ∀ q (s : R), (rd_call (RC_SetTxPower q) s).1 = Ok tt.

Definition power d : Z := rd_power (idf_radio d).

(** [m] changes neither the callback nor the power. *)
Definition calm {A} (f : IdfDriver (R:=R) → A * IdfDriver (R:=R)) : Prop := ∀ d, registered (f d).2 = registered d ∧ power (f d).2 = power d ∧ pin (f d).2 = pin d.

Lemma calm_call c : match c with RC_SetTxPower _ => True | _ => calm (idf_call c) end.
Proof.
  assert (∀ c, (match c with RC_SetTxPower _ => True | _ => calm (idf_call c) end)) as H; [|apply H].
  intros c'. destruct c'; try done; intros d; unfold idf_call, idf_log, power;
    match goal with |- context [rd_call ?c ?s] => pose proof (power_call c s) as Hp; cbn in Hp; destruct (rd_call c s) as [r s'] end;
    cbn in *; auto.
Qed.

Lemma calm_context {A} c (m : M (IdfDriver (R:=R)) AnyError A) : calm m → calm (with_context c m).
Proof. intros H d. specialize (H d). unfold with_context. by destruct (m d) as [r d']. Qed.

Lemma calm_code {A} c (m : M (IdfDriver (R:=R)) AnyError A) : calm m → calm (with_code c m).
Proof. intros H d. specialize (H d). unfold with_code. by destruct (m d) as [r d']. Qed.

Lemma calm_bind {A B} (m : M (IdfDriver (R:=R)) AnyError A) (f : A → M (IdfDriver (R:=R)) AnyError B) :
  calm m → (∀ a, calm (f a)) → calm (m ≫= f).
Proof.
  intros Hm Hf d. rewrite M_bind_eq. destruct (Hm d) as (H1 & H2 & H3). destruct (m d) as [[a|e] d']; [|done]. cbn in *.
  destruct (Hf a d') as (H4 & H5 & H6). by rewrite H4, H5, H6.
Qed.

Lemma calm_catch {A} (m : M (IdfDriver (R:=R)) AnyError A) : calm m → calm (catch (F := AnyError) m).
Proof. intros H d. specialize (H d). unfold catch. by destruct (m d). Qed.

Lemma calm_send mac data : calm (idf_send mac data).
Proof. apply calm_bind; [by intros d|]. intros _. apply calm_context, (calm_call (RC_Send mac data)). Qed.

Lemma calm_ack t : calm (ack_status_wait t).
Proof. intros d. unfold ack_status_wait, power. pose proof (power_ack t (idf_radio d)) as Hp. by destruct (rd_ack t (idf_radio d)) as [turns s]. Qed.

Lemma calm_add p : calm (idf_add_peer p).
Proof. apply calm_context, (calm_call (RC_AddPeer p)). Qed.
Lemma calm_remove mac : calm (idf_remove_peer mac).
Proof. apply calm_context, (calm_call (RC_DelPeer mac)). Qed.

Lemma calm_probe mac data t : calm (probe mac data t).
Proof.
  intros d. unfold probe. destruct (calm_send mac data d) as (H1 & H2 & H3). destruct (idf_send mac data d) as [[u|e] d']; [|done]. cbn in *.
  destruct (calm_ack t d') as (H4 & H5 & H6). destruct (ack_status_wait t d') as [status d'']. cbn in *. by rewrite H4, H5, H6.
Qed.

(** Registering the callback takes the guard and changes nothing else. *)
Lemma register_cb_keeps scope d :
  let '(r, d') := register_ack_cb scope d in
  power d' = power d ∧ pin d' = pin d ∧ registered d' = match r with Ok _ => true | Err _ => registered d end.
Proof.
  unfold register_ack_cb, power. pose proof (power_guard (idf_radio d)) as Hg. destruct (rd_guard (idf_radio d)) as [[u|e] s']; [|done]. cbn in Hg.
  destruct (calm_context ("failed to register send callback for " +:+ scope) _ (calm_call RC_RegisterSendCb) (with_radio s' d)) as (H1 & H2 & H3).
  destruct (with_context _ _ _) as [[u'|e'] d']; unfold power in *; cbn in *; by rewrite H2, Hg.
Qed.

Lemma release_cb_keeps d : power (release_cb d) = power d ∧ pin (release_cb d) = pin d ∧ registered (release_cb d) = false.
Proof. unfold release_cb. destruct (calm_call RC_UnregisterSendCb d) as (_ & H2 & H3). by split_and!. Qed.

(** The power before the scan, or the one to go back to. *)
Definition kept (p0 : Z) s d : Prop := power_works → if is_cb s then is_saved s = Some p0 else power d = p0.

Lemma set_power q d : power_works → power (idf_call (RC_SetTxPower q) d).2 = q.
Proof.
  intros [_ Hs]. unfold power, idf_call, idf_log. pose proof (power_set q _ (Hs q (idf_radio d))) as Hp. by destruct (rd_call _ _).
Qed.

Lemma set_power_rest q d : registered (idf_call (RC_SetTxPower q) d).2 = registered d ∧ pin (idf_call (RC_SetTxPower q) d).2 = pin d.
Proof. unfold idf_call, idf_log. by destruct (rd_call _ _). Qed.

Lemma boost_held p0 s d :
  registered d = false → is_cb s = false → kept p0 s d →
  let '(i, s', d') := boost s d in registered d' = is_cb s' ∧ pin d' = pin d ∧ kept p0 s' d'.
Proof.
  intros Hr Hcb Hk. unfold boost, kept in *. rewrite Hcb in Hk. pose proof (register_cb_keeps "scanning" d) as Hreg.
  destruct (register_ack_cb "scanning" d) as [[u|e] d1]; destruct Hreg as (Hp & Hpin & Hreg).
  - assert (pin (idf_log RC_GetTxPower rd_tx_power d1).2 = pin d1 ∧ registered (idf_log RC_GetTxPower rd_tx_power d1).2 = registered d1 ∧
      (power_works → result_ok (idf_log RC_GetTxPower rd_tx_power d1).1 = Some (power d1))) as (Hl1 & Hl2 & Hl3).
    { unfold idf_log, power. destruct (power_read (idf_radio d1)) as [_ Hq]. split_and!; [by destruct (rd_tx_power _)..|].
      intros [Hw _]. specialize (Hw (idf_radio d1)). destruct (rd_tx_power (idf_radio d1)) as [[q|e] s']; [|done]. cbn. by rewrite (Hq q). }
    destruct (idf_log RC_GetTxPower rd_tx_power d1) as [pw d2]. cbn in Hl1, Hl2, Hl3. pose proof (set_power_rest MAX_TX_POWER d2) as [H1 H2].
    destruct (idf_call (RC_SetTxPower MAX_TX_POWER) d2) as [r d3]. cbn in *. split_and!; [congruence|congruence|].
    intros Hw. rewrite (Hl3 Hw). f_equal. rewrite Hp. by apply Hk.
  - cbn. rewrite Hcb. split_and!; [congruence|congruence|]. intros Hw. rewrite Hp. by apply Hk.
Qed.

Lemma unboost_held p0 s d :
  registered d = is_cb s → kept p0 s d →
  let '(s', d') := unboost s d in registered d' = false ∧ is_cb s' = false ∧ pin d' = pin d ∧ (is_cb s = true → kept p0 s' d').
Proof.
  intros Hr Hk. unfold unboost, kept in *. cbn [is_cb].
  set (d1 := match is_saved s with Some q => (idf_call (RC_SetTxPower q) d).2 | None => d end).
  assert (registered d1 = registered d ∧ pin d1 = pin d) as [H1 H2] by (unfold d1; destruct (is_saved s); [apply set_power_rest|done]).
  destruct (is_cb s) eqn:Hcb.
  - destruct (release_cb_keeps d1) as (Hp & Hpin & Hrel). split_and!; [done|done|congruence|]. intros _ Hw. rewrite Hp. unfold d1. rewrite (Hk Hw). by apply set_power.
  - split_and!; congruence.
Qed.

(** What holds before every poll of the loop. *)
Definition loop_held (p0 pin0 : Z) s d : Prop :=
  registered d = is_cb s ∧ pin d = pin0 ∧ kept p0 s d ∧
  (is_cb s = true → stage (scan_state (is_machine s)) = 3%nat ∨ stage (scan_state (is_machine s)) = 4%nat) ∧
  (is_cb s = false → (stage (scan_state (is_machine s)) < 5)%nat → is_saved s = None).

Lemma kept_calm p0 s s' d d' :
  is_cb s' = is_cb s → is_saved s' = is_saved s → power d' = power d → kept p0 s d → kept p0 s' d'.
Proof. unfold kept. by intros -> -> ->. Qed.

Lemma calm_step p0 s s' d d' :
  is_cb s' = is_cb s → is_saved s' = is_saved s → registered d' = registered d ∧ power d' = power d ∧ pin d' = pin d →
  registered d = is_cb s → kept p0 s d → registered d' = is_cb s' ∧ pin d' = pin d ∧ kept p0 s' d'.
Proof. intros Hc Hs (H1 & H2 & H3) Hr Hk. split_and!; [congruence|done|by apply (kept_calm p0 s s' d d')]. Qed.

(** What a turn changes of the scope. *)
Definition same_scope s s' : Prop := is_cb s' = is_cb s ∧ is_saved s' = is_saved s.

Lemma perform_held p0 mode mac epoch a s d :
  (a = SA_BoostTxPower → is_cb s = false) → (a = SA_RestoreTxPower → is_cb s = false → is_saved s = None) →
  registered d = is_cb s → kept p0 s d →
  let '(next, s', d') := idf_perform mode mac epoch a s d in
  pin d' = pin d ∧
  match a with
  | SA_Done _ => registered d' = false ∧ (is_cb s = false → kept p0 s d')
  | SA_RestoreTxPower => registered d' = false ∧ is_cb s' = false ∧ kept p0 s' d'
  | SA_BoostTxPower => registered d' = is_cb s' ∧ kept p0 s' d' ∧ (is_cb s' = false → is_saved s' = is_saved s)
  | _ => registered d' = is_cb s' ∧ kept p0 s' d' ∧ same_scope s s'
  end.
Proof.
  intros Hb Hn Hr Hk.
  assert (∀ s' d', same_scope s s' → registered d' = registered d ∧ power d' = power d ∧ pin d' = pin d →
            pin d' = pin d ∧ registered d' = is_cb s' ∧ kept p0 s' d' ∧ same_scope s s') as Hcalm.
  { intros s' d' [Hc Hs] Hd. destruct (calm_step p0 s s' d d' Hc Hs Hd Hr Hk) as (? & ? & ?). done. }
  destruct a; cbn [idf_perform].
  - by apply Hcalm, calm_remove.
  - pose proof (calm_add (temp_peer mode mac channel) d) as Hc. destruct (idf_add_peer _ d) as [r d']. by apply Hcalm.
  - pose proof (boost_held p0 s d) as H. specialize (Hb eq_refl). rewrite Hb in Hr. specialize (H Hr Hb Hk).
    assert (is_cb (boost s d).1.2 = false → is_saved (boost s d).1.2 = is_saved s) as Hs.
    { unfold boost. repeat case_match; cbn; congruence. }
    destruct (boost s d) as [[i s'] d']. by destruct H as (? & ? & ?).
  - pose proof (unboost_held p0 s d Hr Hk) as H. destruct (unboost s d) as [s' d'] eqn:Eu. destruct H as (H1 & H2 & H3 & H4). split_and!; [done..|].
    destruct (is_cb s) eqn:Hcb; [by apply H4|]. specialize (Hn eq_refl eq_refl). unfold unboost in Eu. rewrite Hn, Hcb in Eu. simplify_eq.
    unfold kept in *. cbn. by rewrite Hcb in Hk.
  - pose proof (calm_call (RC_SetChannel channel) d) as Hc. destruct (idf_call _ d) as [r d']. by apply Hcalm.
  - by apply Hcalm, (calm_call (RC_SetChannel channel)).
  - by apply Hcalm, calm_add.
  - pose proof (calm_probe mac (probe_data (scan_config (is_machine s))) timeout d) as Hc. destruct (probe _ _ _ d) as [o d']. by apply Hcalm.
  - destruct (_ <? _); [|by apply Hcalm]. apply Hcalm; [done|]. unfold power. cbn. by rewrite power_sleep.
  - destruct (is_cb s) eqn:Hcb.
    + destruct (release_cb_keeps d) as (H1 & H2 & H3). by split_and!.
    + by split_and!.
Qed.

(** The loop ends without a callback, with the power from before, and with the pin untouched. *)
Lemma drive_scan_held p0 pin0 fuel mode mac epoch i s d r s' d' :
  loop_held p0 pin0 s d → drive_scan fuel mode mac epoch i s d = Some (r, s', d') →
  registered d' = false ∧ pin d' = pin0 ∧ (power_works → power d' = p0).
Proof.
  revert i s d. induction fuel as [|fuel IH]; intros i s d Hh He; [done|]. cbn [drive_scan] in He.
  pose proof (poll_stage (rd_now (idf_radio d) - epoch) i (is_machine s)) as Hst. cbn zeta in Hst.
  destruct (scan_poll (rd_now (idf_radio d) - epoch) i (is_machine s)) as [a m]. cbn in Hst. destruct Hst as (Hup & Hnext & Hbst & Hrst & Hdone).
  destruct Hh as (Hr & Hp & Hk & Hcb & Hsv).
  assert (a = SA_BoostTxPower → is_cb s = false) as Hb.
  { intros Ha%Hbst. destruct (is_cb s); [|done]. destruct (Hcb eq_refl); lia. }
  assert (a = SA_RestoreTxPower → is_cb s = false → is_saved s = None) as Hn by (intros Ha%Hrst Hc; apply Hsv; [done|lia]).
  pose proof (perform_held p0 mode mac epoch a (with_scan m s) d Hb Hn Hr Hk) as Hperf.
  pose proof (idf_perform_machine mode mac epoch a (with_scan m s) d) as Hm. pose proof (idf_perform_next mode mac epoch a (with_scan m s) d) as Hsome.
  destruct (idf_perform mode mac epoch a (with_scan m s) d) as [[next s1] d1]. cbn in Hm, Hsome. destruct Hperf as [Hp1 Hperf].
  assert (same_scope (with_scan m s) s1 → registered d1 = is_cb s1 → kept p0 s1 d1 → (stage (scan_state m) ≠ 3)%nat → (stage (scan_state m) ≠ 5)%nat → loop_held p0 pin0 s1 d1) as Hsame.
  { intros [Hc Hs] Hr1 Hk1 H3 H5. cbn in Hc, Hs. unfold loop_held. rewrite Hm, Hc, Hs. cbn. split_and!; [congruence|congruence|done| |].
    - intros Ht. destruct (Hcb Ht); lia.
    - intros Hf Hlt. apply Hsv; [done|lia]. }
  destruct next as [i1|]; destruct a as [| | | | | | | | |r1]; try (by destruct Hsome); try done.
  all: try (apply (IH _ _ _) in He; [exact He|]; destruct Hperf as (? & ? & ?); apply Hsame; [done|done|done|by intros ?%Hbst|by intros ?%Hrst]).
  - apply IH in He; [exact He|]. destruct Hperf as (H1 & H2 & H3). assert (stage (scan_state m) = 3%nat) as E3 by by apply Hbst.
    unfold loop_held. rewrite Hm. split_and!; [done|congruence|done|by left|]. intros Hc _. rewrite (H3 Hc). cbn. apply Hsv; [by apply Hb|lia].
  - apply IH in He; [exact He|]. destruct Hperf as (H1 & H2 & H3). assert (stage (scan_state m) = 5%nat) as E5 by by apply Hrst.
    unfold loop_held. rewrite Hm, H2. split_and!; [done|congruence|done|done|lia].
  - injection He as _ _ <-. destruct Hperf as [H1 H2]. split_and!; [done|congruence|]. assert (is_cb s = false) as Hcs.
    { destruct (is_cb s); [|done]. pose proof (Hdone _ eq_refl). destruct (Hcb eq_refl) as [E|E]; rewrite E in *; lia. }
    cbn in H2. specialize (H2 Hcs). unfold kept in H2. cbn in H2. by rewrite Hcs in H2.
Qed.

(** ** The loop runs the scan *)

Class IdfClock : Type := {
  clock_call c (s : R) : rd_now s ≤ rd_now (rd_call c s).2;
  clock_power (s : R) : rd_now s ≤ rd_now (rd_tx_power s).2;
  clock_guard (s : R) : rd_now s ≤ rd_now (rd_guard s).2;
  clock_ack t (s : R) : rd_now s ≤ rd_now (rd_ack t s).2;
  clock_sleep t (s : R) : rd_now s ≤ rd_now (rd_sleep t s) ∧ rd_now s + t ≤ rd_now (rd_sleep t s) }.

Context {CK : IdfClock}.

Definition time d : Z := rd_now (idf_radio d).
Definition goes_on {A} (f : IdfDriver (R:=R) → A * IdfDriver (R:=R)) : Prop := ∀ d, time d ≤ time (f d).2.

Lemma goes_log {A} c (m : M R string A) : (∀ x, rd_now x ≤ rd_now (m x).2) → goes_on (idf_log c m).
Proof using CK. intros H d. specialize (H (idf_radio d)). unfold idf_log, time. by destruct (m (idf_radio d)). Qed.
Lemma goes_call c : goes_on (idf_call c).
Proof using CK. apply goes_log, clock_call. Qed.
Lemma goes_context {A} c (m : M (IdfDriver (R:=R)) AnyError A) : goes_on m → goes_on (with_context c m).
Proof using CK. intros H d. specialize (H d). unfold with_context. by destruct (m d). Qed.
Lemma goes_send mac data : goes_on (idf_send mac data).
Proof using CK.
  intros d. unfold idf_send. rewrite M_bind_eq. unfold checked_payload, of_result. destruct (map_err _ _); [|done].
  by apply goes_context, goes_call.
Qed.
Lemma goes_probe mac data t : goes_on (probe mac data t).
Proof using CK.
  intros d. unfold probe. pose proof (goes_send mac data d) as H. destruct (idf_send mac data d) as [[u|e] d1]; [|done]. cbn in H.
  unfold ack_status_wait, time in *. pose proof (clock_ack t (idf_radio d1)). destruct (rd_ack t (idf_radio d1)) as [turns x]. cbn in *. lia.
Qed.
Lemma goes_release d : time d ≤ time (release_cb d).
Proof using CK. unfold release_cb. apply (goes_call RC_UnregisterSendCb d). Qed.
Lemma goes_register scope : goes_on (register_ack_cb scope).
Proof using CK.
  intros d. unfold register_ack_cb. pose proof (clock_guard (idf_radio d)) as H. destruct (rd_guard (idf_radio d)) as [[u|e] x]; [|done]. cbn in H.
  pose proof (goes_context ("failed to register send callback for " +:+ scope) _ (goes_call RC_RegisterSendCb) (with_radio x d)) as H2.
  destruct (with_context _ _ _) as [[u'|e'] d1]; unfold time in *; cbn in *; lia.
Qed.

Lemma goes_boost s d : time d ≤ time (boost s d).2.
Proof using CK.
  unfold boost. pose proof (goes_register "scanning" d) as H1. destruct (register_ack_cb "scanning" d) as [[u|e] d1]; [|done]. cbn in H1.
  pose proof (goes_log RC_GetTxPower rd_tx_power clock_power d1) as H2. destruct (idf_log RC_GetTxPower rd_tx_power d1) as [q d2]. cbn in H2.
  pose proof (goes_call (RC_SetTxPower MAX_TX_POWER) d2) as H3. destruct (idf_call _ d2) as [x d3]. cbn in *. lia.
Qed.

Lemma goes_unboost s d : time d ≤ time (unboost s d).2.
Proof using CK.
  unfold unboost. cbn. set (d1 := match is_saved s with Some q => _ | None => d end).
  assert (time d ≤ time d1) by (unfold d1; destruct (is_saved s); [apply goes_call|done]).
  destruct (is_cb s); [|done]. pose proof (goes_release d1). lia.
Qed.

(** What a turn answers, the machine may be given. *)
Lemma idf_answers mode mac epoch a s d i s' d' tr :
  (a = SA_BoostTxPower → existsb (λ p, is_restore (action p)) tr = false) →
  idf_perform mode mac epoch a s d = (Some i, s', d') →
  time d ≤ time d' ∧ may_answer a (time d' - epoch) i tr = true.
Proof using CK.
  intros Hb He. assert (∀ r : result AnyError unit, done_or_failed r = SI_Completed ∨ done_or_failed r = SI_Failed) as Hd by (intros [|]; auto).
  destruct a; cbn [idf_perform] in He.
  - simplify_eq. split; [|done]. by apply goes_context, goes_call.
  - pose proof (goes_context "failed to add ESP-NOW peer" _ (goes_call (RC_AddPeer (temp_peer mode mac channel))) d) as H.
    unfold idf_add_peer in He. destruct (with_context _ _ d) as [r d1]. simplify_eq. split; [done|]. by destruct (Hd r) as [-> | ->].
  - pose proof (goes_boost s d) as H. assert ((boost s d).1.1 = SI_Completed ∨ (boost s d).1.1 = SI_Abort) as Hi by (unfold boost; repeat case_match; auto).
    destruct (boost s d) as [[i1 s1] d1]. simplify_eq. split; [done|]. cbn in Hi. destruct Hi as [-> | ->]; [done|]. cbn. by rewrite Hb.
  - pose proof (goes_unboost s d) as H. destruct (unboost s d) as [s1 d1]. by simplify_eq.
  - pose proof (goes_call (RC_SetChannel channel) d) as H. destruct (idf_call _ d) as [r d1]. simplify_eq. split; [done|]. by destruct (Hd r) as [-> | ->].
  - simplify_eq. split; [apply goes_call|done].
  - simplify_eq. split; [by apply goes_context, goes_call|done].
  - pose proof (goes_probe mac (probe_data (scan_config (is_machine s))) timeout d) as H. destruct (probe _ _ _ d) as [o d1]. by simplify_eq.
  - simplify_eq. unfold time. cbn [may_answer]. destruct (Z.ltb_spec (rd_now (idf_radio d) - epoch) deadline).
    + cbn. destruct (clock_sleep (deadline - (rd_now (idf_radio d) - epoch)) (idf_radio d)). split; [done|]. apply Z.leb_le. lia.
    + split; [done|]. by apply Z.leb_le.
  - done.
Qed.

(** What an action is in calls of the radio, and what its answer says.  The state is whether the scope
    of the callback is held, the power to go back to, and the driver. *)
Definition idf_did (mode : RadioMode) (mac : MacAddress) (config : ScanConfig) (epoch : duration) (p : Performed)
    (x x' : bool * option Z * IdfDriver (R:=R)) : Prop :=
  let '(cb, saved, d) := x in let '(cb', saved', d') := x' in
  issued p = time d - epoch ∧ answered p = time d' - epoch ∧
  match action p with
  | SA_BoostTxPower =>
      let '(guard, y) := rd_guard (idf_radio d) in
      match guard with
      | Err _ => cb' = cb ∧ saved' = saved ∧ answer p = SI_Abort ∧ d' = with_radio y d
      | Ok _ =>
          let '(r, d1) := idf_call RC_RegisterSendCb (with_radio y d) in
          match r with
          | Err _ => cb' = cb ∧ saved' = saved ∧ answer p = SI_Abort ∧ d' = d1
          | Ok _ =>
              let '(level, d2) := idf_log RC_GetTxPower rd_tx_power (with_registered true d1) in
              cb' = true ∧ saved' = result_ok level ∧ answer p = SI_Completed ∧ ∃ r', idf_call (RC_SetTxPower 78) d2 = (r', d')
          end
      end
  | SA_RestoreTxPower =>
      cb' = false ∧ saved' = saved ∧ answer p = SI_Completed ∧
      ∃ d1, match saved with Some q => ∃ r, idf_call (RC_SetTxPower q) d = (r, d1) | None => d1 = d end ∧ d' = if cb then release_cb d1 else d1
  | action =>
      cb' = cb ∧ saved' = saved ∧
      match action with
      | SA_RemovePeer => answer p = SI_Completed ∧ ∃ r, idf_call (RC_DelPeer mac) d = (r, d')
      | SA_RegisterPeer ch => ∃ r, idf_call (RC_AddPeer (temp_peer mode mac ch)) d = (r, d') ∧ answer p = done_or_failed r
      | SA_RegisterFallbackPeer ch => answer p = SI_Completed ∧ ∃ r, idf_call (RC_AddPeer (temp_peer mode mac ch)) d = (r, d')
      | SA_SetChannel ch => ∃ r, idf_call (RC_SetChannel ch) d = (r, d') ∧ answer p = done_or_failed r
      | SA_RestoreChannel ch => answer p = SI_Completed ∧ ∃ r, idf_call (RC_SetChannel ch) d = (r, d')
      | SA_SendProbe _ _ timeout =>
          if (length (probe_data config) <=? MAX_DATA_LEN)%nat then
            ∃ r d1, idf_call (RC_Send mac (probe_data config)) d = (r, d1) ∧
              match r with
              | Err _ => answer p = SI_Sent SO_Error ∧ d' = d1
              | Ok _ =>
                  ∃ turns y, rd_ack timeout (idf_radio d1) = (turns, y) ∧ d' = with_radio y d1 ∧
                    answer p = SI_Sent (if decide (ack_wait (time d1) timeout turns = Some true) then SO_Acked else SO_NoAck)
              end
          else answer p = SI_Sent SO_Error ∧ d' = d
      | SA_WaitUntil deadline =>
          answer p = SI_Completed ∧
          d' = if time d - epoch <? deadline then with_radio (rd_sleep (deadline - (time d - epoch)) (idf_radio d)) d else d
      | _ => False
      end
  end.

(** A context changes the error, not the calls. *)
Lemma context_call c call d :
  ∃ r, idf_call call d = (r, (with_context c (idf_call call) d).2) ∧
       done_or_failed r = done_or_failed (with_context c (idf_call call) d).1.
Proof. unfold with_context. destruct (idf_call call d) as [r d']. exists r. split; [done|]. by destruct r. Qed.

Lemma idf_send_calls mac data d :
  idf_send mac data d =
    if (length data <=? MAX_DATA_LEN)%nat then with_context "failed to send ESP-NOW frame" (idf_call (RC_Send mac data)) d
    else (Err (add_context "payload validation failed" (any_text "ESP-NOW payload exceeds maximum length of 250 bytes")), d).
Proof. unfold idf_send. rewrite M_bind_eq. unfold checked_payload, of_result, validate_payload. by destruct (_ <=? _)%nat. Qed.

Lemma idf_perform_did mode mac config epoch a s d i s' d' :
  scan_config (is_machine s) = config → idf_perform mode mac epoch a s d = (Some i, s', d') →
  idf_did mode mac config epoch (mkPerformed (time d - epoch) a (time d' - epoch) i) (is_cb s, is_saved s, d) (is_cb s', is_saved s', d').
Proof.
  intros <- He. split; [done|]. split; [done|]. destruct a; cbn [idf_perform action answer] in *.
  - unfold idf_remove_peer in He. destruct (context_call "failed to remove ESP-NOW peer" (RC_DelPeer mac) d) as (r & Hr & _). simplify_eq. eauto.
  - unfold idf_add_peer in He. destruct (context_call "failed to add ESP-NOW peer" (RC_AddPeer (temp_peer mode mac channel)) d) as (r & Hr & Hd).
    destruct (with_context _ _ d) as [r1 d1]. simplify_eq. cbn in Hr, Hd. split; [done|]. split; [done|]. exists r. by rewrite Hd.
  - destruct (boost s d) as [[i1 s1] d1] eqn:Eb. simplify_eq. unfold boost, register_ack_cb in Eb.
    destruct (rd_guard (idf_radio d)) as [[u|e] g]; [|by simplify_eq].
    unfold with_context in Eb. destruct (idf_call RC_RegisterSendCb (with_radio g d)) as [[u'|e] d2]; cbn [map_err] in Eb; [|by simplify_eq].
    destruct (idf_log RC_GetTxPower rd_tx_power (with_registered true d2)) as [level d3].
    unfold MAX_TX_POWER in Eb. destruct (idf_call (RC_SetTxPower 78) d3) as [r' d4]. simplify_eq. split_and!; try done. by exists r'.
  - destruct (unboost s d) as [s1 d1] eqn:Eu. simplify_eq. unfold unboost in Eu. simplify_eq. split_and!; try done.
    eexists. split; [|done]. destruct (is_saved s) as [q|]; [|done]. destruct (idf_call (RC_SetTxPower q) d) as [r d1]. by exists r.
  - destruct (idf_call (RC_SetChannel channel) d) as [r d1]. simplify_eq. eauto.
  - destruct (idf_call (RC_SetChannel channel) d) as [r d1]. simplify_eq. cbn. eauto.
  - unfold idf_add_peer in He. destruct (context_call "failed to add ESP-NOW peer" (RC_AddPeer (temp_peer mode mac channel)) d) as (r & Hr & _).
    simplify_eq. eauto.
  - unfold probe in He. rewrite idf_send_calls in He. destruct (_ <=? _)%nat; [|by simplify_eq].
    destruct (context_call "failed to send ESP-NOW frame" (RC_Send mac (probe_data (scan_config (is_machine s)))) d) as (r & Hr & Hd).
    destruct (with_context _ _ d) as [r1 d1]. cbn in Hr, Hd. unfold ack_status_wait in He. destruct r1 as [u|e], r as [u'|e']; try done.
    + destruct (rd_ack timeout (idf_radio d1)) as [turns x] eqn:Ea. simplify_eq. split; [done|]. split; [done|].
      eexists _, d1. split; [done|]. cbn. exists turns, x. split_and!; [done|done|].
      unfold time. by destruct (ack_wait _ _ turns) as [[|]|].
    + simplify_eq. split; [done|]. split; [done|]. eexists _, _. split; [done|]. done.
  - by simplify_eq.
  - done.
Qed.

Lemma drive_scan_scanned mode mac config pin epoch x0 fuel i s d r s' d' tr :
  (let out := scan_poll (time d - epoch) i (is_machine s) in scanned mac config pin out.2 out.1 (time d - epoch) tr) →
  carried (idf_did mode mac config epoch) x0 tr (is_cb s, is_saved s, d) →
  drive_scan fuel mode mac epoch i s d = Some (r, s', d') →
  ∃ m t tr' cb saved d1, scanned mac config pin m (SA_Done r) t tr' ∧
    carried (idf_did mode mac config epoch) x0 tr' (cb, saved, d1) ∧ d' = if cb then release_cb d1 else d1.
Proof using CK.
  revert i s d tr. induction fuel as [|fuel IH]; intros i s d tr Hs Hca He; [done|]. cbn [drive_scan] in He.
  unfold time in Hs. destruct (scan_poll (rd_now (idf_radio d) - epoch) i (is_machine s)) as [a m]. cbn in Hs.
  pose proof (idf_perform_machine mode mac epoch a (with_scan m s) d) as Hm. cbn in Hm.
  pose proof (idf_perform_next mode mac epoch a (with_scan m s) d) as Hn.
  destruct (idf_perform mode mac epoch a (with_scan m s) d) as [[next s1] d1] eqn:Ep. cbn in Hm, Hn. destruct next as [i1|].
  - destruct (scanned_stage _ _ _ _ _ _ _ Hs) as (Hb & _ & Hlate).
    pose proof (idf_perform_did mode mac config epoch a (with_scan m s) d i1 s1 d1 (scanned_config _ _ _ _ _ _ _ Hs) Ep) as Hdid.
    apply (idf_answers _ _ _ _ _ _ _ _ _ tr) in Ep as [Hc Ha].
    + eapply (IH i1 s1 d1 (mkPerformed (time d - epoch) a (time d1 - epoch) i1 :: tr)); [| |exact He].
      * rewrite Hm. apply scanned_step; [done|unfold time in *; lia|done].
      * by eapply carried_cons.
    + intros E%Hb. destruct (existsb _ tr); [|done]. specialize (Hlate eq_refl). lia.
  - destruct a; try (by destruct Hn). cbn in Ep. injection Ep as <- <-. injection He as <- <- <-.
    exists m, (rd_now (idf_radio d) - epoch), tr, (is_cb s), (is_saved s), d. done.
Qed.

(** The scope of the callback is closed once nothing is boosted. *)
Lemma carried_scope mode mac config epoch d0 tr x :
  carried (idf_did mode mac config epoch) (false, None, d0) tr x → boosted tr = false → x.1.1 = false.
Proof.
  induction 1 as [|tr p x x' Hc IH Hd]; [done|]. intros Hb. destruct x as [[cb sv] d1], x' as [[cb' sv'] d2]. cbn in *.
  destruct Hd as (_ & _ & Hd). destruct (action p); try (by destruct Hd as [-> _]; apply IH); try done. by destruct Hd as (-> & _).
Qed.

(** ** The calls of a scan *)

Lemma call_log c d r d' : idf_call c d = (r, d') → calls d' = calls d ++ [(c, is_ok r)].
Proof. unfold idf_call, idf_log. destruct (rd_call c _) as [[u|e] x]; by intros [= <- <-]. Qed.

Lemma release_log d : ∃ b, calls (release_cb d) = calls d ++ [(RC_UnregisterSendCb, b)].
Proof. unfold release_cb. destruct (idf_call RC_UnregisterSendCb d) as [r d1] eqn:E. apply call_log in E. by exists (is_ok r). Qed.

(** The calls that end a burst. *)
Definition ends_burst (c : RadioCall * bool) : Prop := match c.1 with RC_SetTxPower _ | RC_UnregisterSendCb => True | _ => False end.

Lemma restore_log mode mac config epoch p cb sv d x' :
  action p = SA_RestoreTxPower → idf_did mode mac config epoch p (cb, sv, d) x' →
  ∃ l, calls x'.2 = calls d ++ l ∧ Forall ends_burst l.
Proof.
  destruct x' as [[cb' sv'] d']. intros Ha (_ & _ & Hd). rewrite Ha in Hd. destruct Hd as (_ & _ & _ & d1 & H1 & ->). cbn.
  assert (∃ l, calls d1 = calls d ++ l ∧ Forall ends_burst l) as (l & E & Hl).
  { destruct sv as [q|]; [|subst; exists []; by rewrite app_nil_r]. destruct H1 as [r H1%call_log]. eexists. split; [done|]. by repeat constructor. }
  destruct cb; [|by exists l]. destruct (release_log d1) as [b Hb]. exists (l ++ [(RC_UnregisterSendCb, b)]).
  rewrite Hb, E, app_assoc. split; [done|]. apply Forall_app. split; [done|]. by repeat constructor.
Qed.

(** The log only grows. *)
Lemma did_grows mode mac config epoch p x x' :
  idf_did mode mac config epoch p x x' → ∃ l, calls x'.2 = calls x.2 ++ l.
Proof.
  destruct x as [[cb sv] d], x' as [[cb' sv'] d']. intros Hd.
  destruct (action p) eqn:Ea; try (destruct (restore_log _ _ _ _ _ _ _ _ _ Ea Hd) as (l & E & _); by exists l);
    destruct Hd as (_ & _ & Hd); rewrite Ea in Hd; cbn [snd].
  - destruct Hd as (_ & _ & _ & r & E%call_log). eauto.
  - destruct Hd as (_ & _ & r & E%call_log & _). eauto.
  - destruct (rd_guard _) as [[u|e] g]; [|destruct Hd as (_ & _ & _ & ->); exists []; by rewrite app_nil_r].
    destruct (idf_call RC_RegisterSendCb _) as [r d1] eqn:E1. apply call_log in E1. cbn in E1. destruct r as [u'|e]; [|destruct Hd as (_ & _ & _ & ->); eauto].
    destruct (idf_log RC_GetTxPower rd_tx_power (with_registered true d1)) as [level d2] eqn:E2. destruct Hd as (_ & _ & _ & r' & E3%call_log).
    unfold idf_log in E2. destruct (rd_tx_power _) as [q y]. injection E2 as _ <-. cbn in E3. rewrite E3, E1, <- !app_assoc. eauto.
  - destruct Hd as (_ & _ & r & E%call_log & _). eauto.
  - destruct Hd as (_ & _ & _ & r & E%call_log). eauto.
  - destruct Hd as (_ & _ & _ & r & E%call_log). eauto.
  - destruct Hd as (_ & _ & Hd). destruct (_ <=? _)%nat; [|destruct Hd as [_ ->]; exists []; by rewrite app_nil_r].
    destruct Hd as (r & d1 & E%call_log & Hd). destruct r; [destruct Hd as (turns & y & _ & -> & _)|destruct Hd as [_ ->]]; eauto.
  - destruct Hd as (_ & _ & _ & ->). exists []. rewrite app_nil_r. by destruct (_ <? _).
  - by destruct Hd as (_ & _ & []).
Qed.

Lemma carried_grows mode mac config epoch x0 tr x :
  carried (idf_did mode mac config epoch) x0 tr x → ∃ l, calls x.2 = calls x0.2 ++ l.
Proof.
  induction 1 as [|tr p x x' _ [l E] Hd]; [exists []; by rewrite app_nil_r|]. destruct (did_grows _ _ _ _ _ _ _ Hd) as [l' E'].
  exists (l ++ l'). by rewrite E', E, app_assoc.
Qed.

(** An acknowledged probe was taken by the radio, and its callback reported it delivered in time. *)
Lemma acked_log mode mac config epoch p ch n x x' :
  is_acked p ch n → idf_did mode mac config epoch p x x' → calls x'.2 = calls x.2 ++ [(RC_Send mac (probe_data config), true)].
Proof.
  destruct x as [[cb sv] d], x' as [[cb' sv'] d']. intros [[timeout Ha] Hok] (_ & _ & Hd). rewrite Ha in Hd. destruct Hd as (_ & _ & Hd).
  destruct (_ <=? _)%nat; [|destruct Hd as [Hd _]; congruence]. destruct Hd as (r & d1 & E%call_log & Hd).
  destruct r; [|destruct Hd as [Hd _]; congruence]. by destruct Hd as (turns & y & _ & -> & _).
Qed.

Lemma burst_log mode mac config epoch ch k x x' :
  burst (idf_did mode mac config epoch) ch k x x' → calls x'.2 = calls x.2 ++ replicate (S k) (RC_Send mac (probe_data config), true).
Proof.
  induction 1 as [p x x' Hp Hd|k w dl p x y z x' Hb IH Hw Hdw Hp Hd]; [by eapply acked_log|].
  apply (acked_log _ _ _ _ _ _ _ _ _ Hp) in Hd. rewrite Hd, (replicate_S_end (S k)), app_assoc, <- IH. f_equal.
  destruct y as [[cb sv] d1], z as [[cb' sv'] d2]. destruct Hdw as (_ & _ & Hdw). rewrite Hw in Hdw. destruct Hdw as (_ & _ & _ & ->). cbn. by destruct (_ <? _).
Qed.

Lemma done_ok (r : result AnyError unit) : done_or_failed r = SI_Completed → is_ok r = true.
Proof. by destruct r. Qed.

(** The last calls of a scan: with a peer found, the switch to its channel and the probes there, each
    taken by the radio; then the burst ends, and the peer is registered anew on that channel.  After a
    failure, with a pin, the switch back to it and the registration there. *)
Definition idf_last_calls (mode : RadioMode) (mac : MacAddress) (config : ScanConfig) (pin : option Z) (r : result ScanError ScanResult)
    (before after : list (RadioCall * bool)) : Prop :=
  match r with
  | Ok found =>
      ∃ pre ended removed, Forall ends_burst ended ∧
        after = before ++ pre ++ (RC_SetChannel (channel found), true) ::
          replicate (S (Z.to_nat (probe_confirmations config))) (RC_Send mac (probe_data config), true) ++
          ended ++ [(RC_DelPeer mac, removed); (RC_AddPeer (temp_peer mode mac (channel found)), true)]
  | Err _ => ∀ p, pin = Some p → ∃ pre a b, after = before ++ pre ++ [(RC_SetChannel p, a); (RC_AddPeer (temp_peer mode mac p), b)]
  end.

Lemma carried_last mode mac config epoch pin m r t tr x0 x :
  scanned mac config pin m (SA_Done r) t tr → carried (idf_did mode mac config epoch) x0 tr x →
  idf_last_calls mode mac config pin r (calls x0.2) (calls x.2).
Proof.
  intros Hs Hc. destruct (scan_outcome _ _ _ _ _ _ _ Hs) as [_ Ho]. destruct x as [[cb4 sv4] d4]. destruct r as [[ch]|e]; cbn.
  - destruct Ho as (_ & (reg & rem & res & tr' & -> & Hreg & Hrem & Hres & _ & Hrun) & Hans). injection Hans as Hans.
    apply carried_inv in Hc as ([[cb3 sv3] d3] & Hc & (_ & _ & Hd4)). rewrite Hreg in Hd4. destruct Hd4 as (_ & _ & r4 & E4%call_log & Hok).
    apply carried_inv in Hc as ([[cb2 sv2] d2] & Hc & (_ & _ & Hd3)). rewrite Hrem in Hd3. destruct Hd3 as (_ & _ & _ & r3 & E3%call_log).
    apply carried_inv in Hc as ([[cb1 sv1] d1] & Hc & Hd2). destruct (restore_log _ _ _ _ _ _ _ _ _ Hres Hd2) as (ended & E2 & Hend). cbn in E2.
    destruct (run_carried _ _ _ _ _ _ _ Hrun Hc) as (s & tr1 & [[cba sva] da] & [[cbb svb] db] & Hca & Has & Hoks & (_ & _ & Hds) & Hb).
    rewrite Has in Hds. destruct Hds as (_ & _ & rs & Es%call_log & Hcs). rewrite Hcs in Hoks. apply done_ok in Hoks. rewrite Hoks in Es.
    apply burst_log in Hb. cbn [snd] in Hb. destruct (carried_grows _ _ _ _ _ _ _ Hca) as [pre Ep]. cbn [snd] in Ep.
    rewrite Hans in Hok. symmetry in Hok. apply done_ok in Hok. rewrite Hok in E4.
    exists pre, ended, (is_ok r3). split; [done|]. by rewrite E4, E3, E2, Hb, Es, Ep, <- !app_assoc.
  - intros p Hp. destruct Ho as (_ & Hback & _). destruct (Hback p Hp) as (reg & res & tr' & -> & Hreg & Hres).
    apply carried_inv in Hc as ([[cb3 sv3] d3] & Hc & (_ & _ & Hd4)). rewrite Hreg in Hd4. destruct Hd4 as (_ & _ & _ & r4 & E4%call_log).
    apply carried_inv in Hc as ([[cb2 sv2] d2] & Hc & (_ & _ & Hd3)). rewrite Hres in Hd3. destruct Hd3 as (_ & _ & _ & r3 & E3%call_log).
    destruct (carried_grows _ _ _ _ _ _ _ Hc) as [pre Ep]. cbn [snd] in Ep. exists pre, (is_ok r3), (is_ok r4). by rewrite E4, E3, Ep, <- !app_assoc.
Qed.

(** C40: A peer scan of this tier is a scan of the shared machine, carried out on the radio, and leaves the radio as it found it, whatever radio, Wi-Fi driver and clock answer (the clock does not go back, a sleep lasts): it returns, after a bounded number of actions; its result is the result of a run of the machine under a driver that answers as it may, or the machine's error with what the loop remembered of its cause; the actions of that run are exactly what the scan called, from the driver it began with to the one it leaves, each answered with the outcome of its call, an acknowledgment only when the callback reported it in time; the pinned channel afterwards is the machine's; the send callback is released; and a transmit power that can be read and set is the one from before. So the calls of a scan that found the peer end with the switch to its channel, one probe and all its confirmations taken there by the radio, the end of the burst, and the registration of the peer on that channel; those of a failed one with the switch back to the pin and the registration there. A callback that cannot be registered aborts the scan with that error instead of probing deaf. *)
Theorem idf_scan_sound (mode : RadioMode) (mac : MacAddress) (config : ScanConfig) (d : IdfDriver (R:=R)) (fuel : nat) :
  mode ≠ CallerManagedSta → registered d = false → U8_MAX ∉ channels config →
  (9 + length (channels config) * (2 + 2 * Z.to_nat (probe_confirmations config)) ≤ fuel)%nat →
  ∃ r d' k m t tr saved d1,
    idf_scan fuel mode mac config d = Some (r, d') ∧ registered d' = false ∧ (power_works → power d' = power d) ∧
    scanned mac config (pinned_channel_opt d) m (SA_Done k) t tr ∧ pinned_channel_opt d' = pinned m ∧
    carried (idf_did mode mac config (time d)) (false, None, d) tr (false, saved, d1) ∧
    d' = match k with Ok found => with_pin (channel found) d1 | Err _ => d1 end ∧
    idf_last_calls mode mac config (pinned_channel_opt d) k (calls d) (calls d') ∧
    match k with Ok found => r = Ok found | Err e => ∃ why, r = Err (into_anyhow (mkScanFailure e why)) end.
Proof using CK PW.
  intros Hmode Hreg Hch Hfuel. destruct (idf_scan_ends mode mac config d fuel Hfuel) as [[r d'] Hr]. exists r, d'.
  pose proof Hr as Hrun. unfold idf_scan in Hrun. rewrite bool_decide_false in Hrun by done.
  set (s0 := idf_scan_init mac config (pinned_channel_opt d)) in *.
  destruct (drive_scan fuel mode mac _ SI_Start s0 d) as [[[k s1] d2]|] eqn:Ed; [|done]. cbn in Hrun. injection Hrun as Hrun.
  assert (loop_held (power d) (pin d) s0 d) as H0 by (unfold loop_held, kept; cbn; split_and!; done).
  destruct (drive_scan_held _ _ _ _ _ _ _ _ _ _ _ _ H0 Ed) as (H1 & H2 & H3).
  assert (let out := scan_poll (time d - rd_now (idf_radio d)) SI_Start (is_machine s0) in
    scanned mac config (pinned_channel_opt d) out.2 out.1 (time d - rd_now (idf_radio d)) []) as Hst by apply scanned_start.
  destruct (drive_scan_scanned mode mac config _ _ (false, None, d) _ _ _ _ _ _ _ _ Hst (carried_nil _ _) Ed) as (m & t & tr & cb & saved & d1 & Hs & Hc & Hd1).
  destruct (scan_outcome _ _ _ _ _ _ _ Hs) as [Hb Ho]. pose proof (carried_scope _ _ _ _ _ _ _ Hc Hb) as Hcb. cbn in Hcb. subst cb d2.
  pose proof (carried_last _ _ _ _ _ _ _ _ _ _ _ Hs Hc) as Hl. cbn [snd] in Hl.
  exists k, m, t, tr, saved, d1. destruct k as [[ch]|e]; injection Hrun as <- <-; (split; [done|]).
  - destruct Ho as (Hpin & (reg & rem & res & tr' & _ & _ & _ & _ & Hin & _) & _). split_and!; try done.
    unfold pinned_channel_opt. cbn. rewrite Hpin. destruct (Z.eqb_spec ch U8_MAX) as [->|]; done.
  - destruct Ho as (Hpin & _). split_and!; try done; [|by eexists].
    unfold pinned_channel_opt in *. by rewrite H2.
Qed.
End loop.

(** ** Sending *)

Section send.
Context {R : Type} {IR : IdfRadio R}.
Implicit Types (d : IdfDriver (R:=R)).

Lemma call_inv c d r d' :
  idf_call c d = (r, d') →
  calls d' = calls d ++ [(c, is_ok r)] ∧ pin d' = pin d ∧ registered d' = registered d.
Proof. unfold idf_call, idf_log. destruct (rd_call c _) as [[u|e] x]; intros [= <- <-]; done. Qed.

Lemma context_ok {A} c (m : M (IdfDriver (R:=R)) AnyError A) d a d' : with_context c m d = (Ok a, d') → m d = (Ok a, d').
Proof. unfold with_context. by destruct (m d) as [[?|?] ?]; intros [= <- <-]. Qed.

Lemma code_ok {A} c (m : M (IdfDriver (R:=R)) AnyError A) d a d' : with_code c m d = (Ok a, d') → m d = (Ok a, d').
Proof. unfold with_code. by destruct (m d) as [[?|?] ?]; intros [= <- <-]. Qed.

(** The calls of a frame that was taken. *)
Definition frame_calls (mode : RadioMode) (pin : option Z) (mac : MacAddress) (data : list Z) (sent : list (RadioCall * bool)) : Prop :=
  match mode, pin with
  | OwnedStaPromisc, Some ch =>
      ∃ on set off, sent = [(RC_SetPromiscuous true, on); (RC_SetChannel ch, set); (RC_SetPromiscuous false, off); (RC_RawSend mac data, true)]
  | _, _ => sent = [(RC_Send mac data, true)]
  end.

Lemma payload_ok data d u d' : checked_payload data d = (Ok u, d') → (length data ≤ MAX_DATA_LEN)%nat ∧ d' = d.
Proof.
  unfold checked_payload, of_result, validate_payload. destruct (length data <=? MAX_DATA_LEN)%nat eqn:E; intros [=].
  apply Nat.leb_le in E. by subst.
Qed.

Lemma idf_send_ok mac data d u d' :
  idf_send mac data d = (Ok u, d') →
  (length data ≤ MAX_DATA_LEN)%nat ∧ registered d' = registered d ∧ calls d' = calls d ++ [(RC_Send mac data, true)].
Proof.
  unfold idf_send. rewrite M_bind_eq. destruct (checked_payload data d) as [[v|e] d1] eqn:Ec; [|done].
  apply payload_ok in Ec as [Hl ->]. intros Hs%context_ok. apply call_inv in Hs as (-> & _ & ->). done.
Qed.

Lemma repin_ok mac data ch d u d' :
  send_with_promisc_repin mac data ch d = (Ok u, d') →
  (length data ≤ MAX_DATA_LEN)%nat ∧ registered d' = registered d ∧
  ∃ sent, frame_calls OwnedStaPromisc (Some ch) mac data sent ∧ calls d' = calls d ++ sent.
Proof.
  unfold send_with_promisc_repin. rewrite M_bind_eq. destruct (checked_payload data d) as [[v|e] d0] eqn:Ec; [|done].
  apply payload_ok in Ec as [Hl ->]. rewrite M_bind_eq. unfold catch at 1. destruct (idf_call (RC_SetPromiscuous true) d) as [r1 d1] eqn:E1.
  rewrite M_bind_eq. unfold catch at 1. destruct (idf_call (RC_SetChannel ch) d1) as [r2 d2] eqn:E2.
  rewrite M_bind_eq. unfold catch at 1. destruct (idf_call (RC_SetPromiscuous false) d2) as [r3 d3] eqn:E3. intros E4%code_ok.
  apply call_inv in E1 as (C1 & _ & R1), E2 as (C2 & _ & R2), E3 as (C3 & _ & R3), E4 as (C4 & _ & R4).
  split; [done|]. split; [congruence|]. eexists. split; [by exists (is_ok r1), (is_ok r2), (is_ok r3)|].
  rewrite C4, C3, C2, C1, <- !app_assoc. done.
Qed.

Lemma send_frame_ok mode mac data d u d' :
  send_frame mode mac data d = (Ok u, d') →
  (length data ≤ MAX_DATA_LEN)%nat ∧ registered d' = registered d ∧
  ∃ sent, frame_calls mode (pinned_channel_opt d) mac data sent ∧ calls d' = calls d ++ sent.
Proof.
  unfold send_frame. destruct mode; [| |destruct (pinned_channel_opt d) as [ch|]].
  3: by intros ?%repin_ok.
  all: intros (H1 & H2 & H3)%idf_send_ok; split_and!; [done|done|eexists; split; [|exact H3]; done].
Qed.

(** [send_and_wait] reports a success only for a frame of at most 250 bytes that the radio took, on the pinned channel where this mode asks for it, and whose acknowledgment the callback wrote before the deadline; the callback is released, whatever the result. *)
Lemma send_and_wait_result mode mac data timeout_ms d :
  let '(r, d') := send_and_wait mode mac data timeout_ms d in
  (registered d = false → registered d' = false) ∧
  (r = Ok tt →
    (length data ≤ MAX_DATA_LEN)%nat ∧
    (∃ sent released, frame_calls mode (pinned_channel_opt d) mac data sent ∧
       calls d' = calls d ++ (RC_RegisterSendCb, true) :: sent ++ [(RC_UnregisterSendCb, released)]) ∧
    ∃ start turns, ack_wait start (from_millis timeout_ms) turns = Some true).
Proof.
  unfold send_and_wait. destruct (register_ack_cb "send_and_wait" d) as [[u|e] d1] eqn:Er.
  2: { split; [|done]. unfold register_ack_cb in Er. destruct (rd_guard _) as [[v|w] x]; [|by simplify_eq].
       unfold with_context in Er. destruct (idf_call RC_RegisterSendCb (with_radio x d)) as [[q|q] d2] eqn:Ec; simplify_eq.
       apply call_inv in Ec as (_ & _ & Hc). cbn in Hc, Er. simplify_eq. congruence. }
  assert (calls d1 = calls d ++ [(RC_RegisterSendCb, true)] ∧ pinned_channel_opt d1 = pinned_channel_opt d) as [Hc Hp].
  { unfold register_ack_cb in Er. destruct (rd_guard _) as [[v|w] x]; [|done].
    destruct (with_context _ _ _) as [[q|q] d2] eqn:Ec; [|done]. simplify_eq. apply context_ok, call_inv in Ec as (Hc & Hp & _).
    split; [done|]. unfold pinned_channel_opt. cbn. by rewrite Hp. }
  rewrite M_bind_eq. destruct (send_frame mode mac data d1) as [[v|w] d2] eqn:Es.
  2: { split; [|done]. intros _. unfold release_cb. by destruct (idf_call RC_UnregisterSendCb d2). }
  apply send_frame_ok in Es as (Hl & _ & sent & Hf & Hcs). rewrite Hp in Hf.
  unfold acked, ack_status_wait. destruct (rd_ack _ _) as [turns x]. set (d3 := with_radio x d2).
  assert (registered (release_cb d3) = false) as Hrel by (unfold release_cb; by destruct (idf_call RC_UnregisterSendCb d3)).
  split; [done|].
  destruct (ack_wait _ _ turns) as [[|]|] eqn:Ew; [|done|done]. intros _. split; [done|]. split; [|eauto].
  unfold release_cb. destruct (idf_call RC_UnregisterSendCb d3) as [q d4] eqn:Eu. apply call_inv in Eu as (Hu & _ & _).
  exists sent, (is_ok q). split; [done|]. cbn. rewrite Hu. cbn. by rewrite Hcs, Hc, <- !app_assoc.
Qed.
End send.

(** ** A radio to run it on: a peer on channel 6; every call takes a microsecond. *)

Record SimIdf := mkSimIdf { sim_now : Z; sim_ch : Z; sim_level : Z; sim_cb_ok : bool }.

Definition sim_step (s : SimIdf) (c : RadioCall) : SimIdf :=
  mkSimIdf (sim_now s + 1000) (match c with RC_SetChannel ch => ch | _ => sim_ch s end)
    (match c with RC_SetTxPower q => q | _ => sim_level s end) (sim_cb_ok s).

#[export] Instance sim_idf : IdfRadio SimIdf := {
  rd_call c s := (match c with RC_RegisterSendCb => if sim_cb_ok s then Ok tt else Err "busy"%string | _ => Ok tt end, sim_step s c);
  rd_tx_power s := (Ok (sim_level s), sim_step s RC_GetTxPower);
  rd_guard s := (Ok tt, s);
  rd_ack t s := ([AT_Slot None (sim_now s); AT_Slot (Some (sim_ch s =? 6)) (sim_now s + 1000)], sim_step s RC_GetTxPower);
  rd_now := sim_now;
  rd_sleep t s := mkSimIdf (sim_now s + Z.max 0 t) (sim_ch s) (sim_level s) (sim_cb_ok s) }.

#[export] Instance sim_idf_power : IdfPower (R := SimIdf).
Proof. refine {| rd_power := sim_level |}; try done; [intros s; split; [done|by intros q [= <-]]|by intros []]. Defined.

#[export] Instance sim_idf_clock : IdfClock (R := SimIdf).
Proof. split; intros; cbn; lia. Qed.

Definition sim_driver (cb_ok : bool) : IdfDriver := mkDriver (mkSimIdf 5000 1 52 cb_ok) false 11 [].
Definition sim_scan_config : ScanConfig := mkScanConfig [1; 6] [1] (from_millis 100) (from_secs 3) 1 (from_millis 150).

Example idf_scan_finds :
  (λ '(r, d), (r, pin d, sim_level (idf_radio d), sim_ch (idf_radio d))) <$> idf_scan 17 OwnedSoftAp [1] sim_scan_config (sim_driver true) =
  Some (Ok (mkScanResult 6), 6, 52, 6).
Proof. by vm_compute. Qed.

(** Without a callback nothing is probed; channel and registration go back to the pin. *)
Example idf_scan_deaf :
  (λ '(r, d), (r, pin d, (calls d).*1)) <$> idf_scan 17 OwnedSoftAp [1] sim_scan_config (sim_driver false) =
  Some (Err (mkAny ["failed to register send callback for scanning"%string] (Cause_Text "busy")), 11,
        [RC_DelPeer [1]; RC_AddPeer (mkPeer [1] 0 false Ap); RC_RegisterSendCb; RC_DelPeer [1];
         RC_SetChannel 11; RC_AddPeer (mkPeer [1] 11 false Ap)]).
Proof. by vm_compute. Qed.

Lemma idf_scan_sound_witness :
  ∃ d', idf_scan 17 OwnedSoftAp [1] sim_scan_config (sim_driver true) = Some (Ok (mkScanResult 6), d') ∧ registered d' = false ∧ power d' = 52 ∧
    idf_last_calls OwnedSoftAp [1] sim_scan_config (Some 11) (Ok (mkScanResult 6)) [] (calls d').
Proof.
  destruct (idf_scan_sound OwnedSoftAp [1] sim_scan_config (sim_driver true) 17) as (r & d' & k & m & t & tr & sv & d1 & Hr & Hreg & Hp & _ & _ & _ & _ & Hl & Hk).
  - discriminate.
  - reflexivity.
  - cbn. intros H. apply list_elem_of_In in H as [H|[H|[]]]; discriminate.
  - cbn. lia.
  - assert (fst <$> idf_scan 17 OwnedSoftAp [1] sim_scan_config (sim_driver true) = Some (Ok (mkScanResult 6))) as Hf by (vm_compute; reflexivity).
    rewrite Hr in Hf. injection Hf as Hf. rewrite Hf in Hk. destruct k as [found|e]; [injection Hk as Hk|by destruct Hk].
    rewrite <- Hk in Hl. rewrite Hf in Hr. exists d'. split; [exact Hr|]. split; [exact Hreg|]. split; [|exact Hl]. apply Hp. split; intros; reflexivity.
Defined.
