(* ===== verification/EspNowSender.v ===== *)
(** * EspNowSender: the handle of the bare-metal tier ([espnow/driver.rs], [cell.rs])

    Asynchronous callers hand their frames to one runner, which owns every transmission; a
    blocking send takes the sender directly.  Every access to a shared cell is one step, so the
    tasks may interleave between any two of them, also from interrupts.  Of the parts of
    [esp-radio] only the outcome of a transmission is used. *)
From S2P Require Import Prelude EspNow.
Open Scope Z_scope.

(** ** The cells *)

(** A [TakeCell]: what is in the slot. *)
Definition lease {T} (cell : option T) : option T * option T := (cell, None).
Definition put_back {T} (value : T) (cell : option T) : option T :=
  match cell with None => Some value | Some old => Some old end.

(** [Singleton::acquire]: whether it was claimed by this call, and the flag. *)
Definition singleton_acquire (flag : bool) : bool * bool := (negb flag, true).

(** ** Radio errors *)

Inductive EspNowError :=
| EE_SendFailed | EE_DuplicateInstance | EE_Initialization (code : Z) | EE_Error (raw : RadioError).

Definition map_error (error : EspNowError) : EspHalEspNowError :=
  match error with
  | EE_SendFailed => EN_SendFailed
  | EE_DuplicateInstance => EN_AlreadyInitialised
  | EE_Initialization code => EN_Wifi code
  | EE_Error raw => EN_Radio raw
  end.

(** ** The state *)

Record SendRequest := mkRequest { req_id : Z; req_mac : MacAddress; req_data : list Z; req_deadline : option Z }.

#[export] Instance SendRequest_eq_dec : EqDecision SendRequest.
Proof. solve_decision. Defined.

Abbreviation send_result := (result EspHalEspNowError unit).

(** Where [run_sender] is. *)
Inductive RunnerPc :=
| RN_Off | RN_Starting | RN_Receive
| RN_Lease (q : SendRequest) | RN_Held (q : SendRequest) | RN_Marked (q : SendRequest)
| RN_Checked (q : SendRequest) | RN_Sending (q : SendRequest)
| RN_Signal (q : SendRequest) (r : send_result) | RN_Clear.

(** A call of [submit], past its first checks. *)
Record Call := mkCall { call_mac : MacAddress; call_data : list Z; call_deadline : option Z }.

Definition request_of (id : Z) (c : Call) : SendRequest := mkRequest id (call_mac c) (call_data c) (call_deadline c).

(** Where the call that holds [callers] is. *)
Inductive CallerPc :=
| SB_Locked | SB_Queue (id : Z) | SB_Wait (id : Z) | SB_Late (id : Z) | SB_LateRunner (id : Z)
| SB_WaitReal (id : Z) | SB_Take (id : Z) | SB_Return (id : Z) (r : send_result).

(** The last five fields are history: the ids given out, what went on the air, what the runner
    completed (oldest first), what calls with an id returned, and whether the runner was dropped. *)
Record Sender := mkSender {
  clock : Z; sender_cell : option unit; requests : option SendRequest; done_signal : option (Z * send_result);
  next_id : Z; runner_active : bool; in_flight : option Z; runner : RunnerPc;
  lock_waiters : list Call; holder : option (Call * CallerPc);
  calls : Z; started : list SendRequest; completions : list (SendRequest * send_result);
  returned : list (SendRequest * send_result); runner_dropped : bool }.

Definition sender_init (now : Z) : Sender :=
  mkSender now (Some tt) None None 0 false None RN_Off [] None 0 [] [] [] false.

Definition with_clock v s := mkSender v (sender_cell s) (requests s) (done_signal s) (next_id s) (runner_active s) (in_flight s) (runner s) (lock_waiters s) (holder s) (calls s) (started s) (completions s) (returned s) (runner_dropped s).
Definition with_sender_cell v s := mkSender (clock s) v (requests s) (done_signal s) (next_id s) (runner_active s) (in_flight s) (runner s) (lock_waiters s) (holder s) (calls s) (started s) (completions s) (returned s) (runner_dropped s).
Definition with_requests v s := mkSender (clock s) (sender_cell s) v (done_signal s) (next_id s) (runner_active s) (in_flight s) (runner s) (lock_waiters s) (holder s) (calls s) (started s) (completions s) (returned s) (runner_dropped s).
Definition with_done v s := mkSender (clock s) (sender_cell s) (requests s) v (next_id s) (runner_active s) (in_flight s) (runner s) (lock_waiters s) (holder s) (calls s) (started s) (completions s) (returned s) (runner_dropped s).
Definition with_active v s := mkSender (clock s) (sender_cell s) (requests s) (done_signal s) (next_id s) v (in_flight s) (runner s) (lock_waiters s) (holder s) (calls s) (started s) (completions s) (returned s) (runner_dropped s).
Definition with_in_flight v s := mkSender (clock s) (sender_cell s) (requests s) (done_signal s) (next_id s) (runner_active s) v (runner s) (lock_waiters s) (holder s) (calls s) (started s) (completions s) (returned s) (runner_dropped s).
Definition with_runner v s := mkSender (clock s) (sender_cell s) (requests s) (done_signal s) (next_id s) (runner_active s) (in_flight s) v (lock_waiters s) (holder s) (calls s) (started s) (completions s) (returned s) (runner_dropped s).
Definition with_waiters v s := mkSender (clock s) (sender_cell s) (requests s) (done_signal s) (next_id s) (runner_active s) (in_flight s) (runner s) v (holder s) (calls s) (started s) (completions s) (returned s) (runner_dropped s).
Definition with_holder v s := mkSender (clock s) (sender_cell s) (requests s) (done_signal s) (next_id s) (runner_active s) (in_flight s) (runner s) (lock_waiters s) v (calls s) (started s) (completions s) (returned s) (runner_dropped s).
Definition new_id s := mkSender (clock s) (sender_cell s) (requests s) (done_signal s) (u32_wrapping_add (next_id s) 1) (runner_active s) (in_flight s) (runner s) (lock_waiters s) (holder s) (calls s + 1) (started s) (completions s) (returned s) (runner_dropped s).
Definition log_started q s := mkSender (clock s) (sender_cell s) (requests s) (done_signal s) (next_id s) (runner_active s) (in_flight s) (runner s) (lock_waiters s) (holder s) (calls s) (started s ++ [q]) (completions s) (returned s) (runner_dropped s).
Definition log_completion x s := mkSender (clock s) (sender_cell s) (requests s) (done_signal s) (next_id s) (runner_active s) (in_flight s) (runner s) (lock_waiters s) (holder s) (calls s) (started s) (completions s ++ [x]) (returned s) (runner_dropped s).
Definition log_returned x s := mkSender (clock s) (sender_cell s) (requests s) (done_signal s) (next_id s) (runner_active s) (in_flight s) (runner s) (lock_waiters s) (holder s) (calls s) (started s) (completions s) (x :: returned s) (runner_dropped s).
Definition log_dropped s := mkSender (clock s) (sender_cell s) (requests s) (done_signal s) (next_id s) (runner_active s) (in_flight s) (runner s) (lock_waiters s) (holder s) (calls s) (started s) (completions s) (returned s) true.

(** ** The runner *)

(** [run_sender], called: a second one does nothing. *)
Definition run_sender_start (s : Sender) : Sender :=
  let '(mine, flag) := singleton_acquire (runner_active s) in
  if mine then with_runner RN_Starting (with_active flag s) else with_active flag s.

(** [transmit] returns: its lease is dropped. *)
Definition transmitted (q : SendRequest) (r : send_result) (s : Sender) : Sender :=
  with_runner (RN_Signal q r) (with_sender_cell (put_back tt (sender_cell s)) s).

(** One step of [run_sender] and [transmit]; [None] where it awaits.  [outcome] is that of the
    transmission under way. *)
Definition runner_turn (outcome : result EspNowError unit) (s : Sender) : option Sender :=
  match runner s with
  | RN_Off => None
  | RN_Starting => Some (with_runner RN_Receive (with_in_flight None s))
  | RN_Receive =>
      match requests s with
      | Some q => Some (with_runner (RN_Lease q) (with_requests None s))
      | None => None
      end
  | RN_Lease q =>
      match lease (sender_cell s) with
      | (Some _, cell) => Some (with_runner (RN_Held q) (with_sender_cell cell s))
      | (None, _) => None
      end
  | RN_Held q => Some (with_runner (RN_Marked q) (with_in_flight (Some (req_id q)) s))
  | RN_Marked q =>
      if expired (req_deadline q) (clock s) then Some (transmitted q (Err EN_Timeout) s)
      else Some (with_runner (RN_Checked q) s)
  | RN_Checked q => Some (with_runner (RN_Sending q) (log_started q s))
  | RN_Sending q => Some (transmitted q (map_err map_error outcome) s)
  | RN_Signal q r => Some (with_runner RN_Clear (log_completion (q, r) (with_done (Some (req_id q, r)) s)))
  | RN_Clear => Some (with_runner RN_Receive (with_in_flight None s))
  end.

Definition runner_holds_sender (pc : RunnerPc) : bool :=
  match pc with RN_Held _ | RN_Marked _ | RN_Checked _ | RN_Sending _ => true | _ => false end.

(** The future of [run_sender] is dropped, by mistake. *)
Definition runner_drop (s : Sender) : Sender :=
  let cell := if runner_holds_sender (runner s) then put_back tt (sender_cell s) else sender_cell s in
  log_dropped (with_runner RN_Off (with_active false (with_sender_cell cell s))).

(** ** The callers *)

(** The first checks of [submit]; [Ok] waits for [callers]. *)
Definition submit (mac : MacAddress) (data : list Z) (deadline : option Z) (s : Sender) :
    result EspHalEspNowError unit * Sender :=
  match validate_frame_len data with
  | Err e => (Err e, s)
  | Ok _ =>
      if negb (runner_active s) then (Err EN_NoSenderRunner, s)
      else (Ok tt, with_waiters (lock_waiters s ++ [mkCall mac data deadline]) s)
  end.

(** [callers] is given to a waiting call. *)
Definition caller_locks (n : nat) (s : Sender) : option Sender :=
  match holder s, lock_waiters s !! n with
  | None, Some c => Some (with_holder (Some (c, SB_Locked)) (with_waiters (delete n (lock_waiters s)) s))
  | _, _ => None
  end.

(** A waiting call gives up, at its deadline ([Timeout]) or because it is dropped. *)
Definition waiter_leaves (n : nat) (s : Sender) : option Sender :=
  match lock_waiters s !! n with
  | Some _ => Some (with_waiters (delete n (lock_waiters s)) s)
  | None => None
  end.

(** One turn of the loop of [wait_done]. *)
Definition wait_done (c : Call) (id : Z) (s : Sender) : option Sender :=
  match done_signal s with
  | None => None
  | Some (id', r) =>
      let s := with_done None s in
      Some (if id' =? id then with_holder (Some (c, SB_Return id r)) s else s)
  end.

(** One step of [submit] behind the lock; [None] where it awaits. *)
Definition caller_turn (s : Sender) : option Sender :=
  match holder s with
  | None => None
  | Some (c, pc) =>
      match pc with
      | SB_Locked => let s := new_id s in Some (with_holder (Some (c, SB_Queue (next_id s))) s)
      | SB_Queue id =>
          match requests s with
          | None => Some (with_holder (Some (c, SB_Wait id)) (with_requests (Some (request_of id c)) s))
          | Some _ => None
          end
      | SB_Wait id | SB_WaitReal id => wait_done c id s
      | SB_Late id =>
          Some (with_holder (Some (c, if decide (in_flight s = Some id) then SB_LateRunner id else SB_Take id)) s)
      | SB_LateRunner id =>
          Some (with_holder (Some (c, if runner_active s then SB_WaitReal id else SB_Take id)) s)
      | SB_Take id =>
          let r := match done_signal s with
                   | Some (id', r) => if id' =? id then r else Err EN_Timeout
                   | None => Err EN_Timeout
                   end in
          Some (with_holder (Some (c, SB_Return id r)) (with_done None s))
      | SB_Return id r => Some (with_holder None (log_returned (request_of id c, r) s))
      end
  end.

(** The timer of [bounded] fires first. *)
Definition caller_deadline (s : Sender) : option Sender :=
  match holder s with
  | Some (c, pc) =>
      if expired (call_deadline c) (clock s) then
        match pc with
        | SB_Queue id => Some (with_holder (Some (c, SB_Return id (Err EN_Timeout))) s)
        | SB_Wait id => Some (with_holder (Some (c, SB_Late id)) s)
        | _ => None
        end
      else None
  | None => None
  end.

(** The call's future is dropped, at one of its awaits. *)
Definition caller_cancel (s : Sender) : option Sender :=
  match holder s with
  | Some (_, (SB_Queue _ | SB_Wait _ | SB_WaitReal _)) => Some (with_holder None s)
  | _ => None
  end.

(** ** The blocking senders: [send] and [send_and_wait] *)

Definition sync_lease (s : Sender) : result EspHalEspNowError unit * Sender :=
  match lease (sender_cell s) with
  | (Some _, cell) => (Ok tt, with_sender_cell cell s)
  | (None, cell) => (Err EN_Busy, with_sender_cell cell s)
  end.

Definition sync_release (s : Sender) : Sender := with_sender_cell (put_back tt (sender_cell s)) s.

(** [queued] is what [sender.send] answered, [acked] what its waiter did. *)
Definition send_and_wait_result (queued acked : result EspNowError unit) : send_result :=
  _ ← map_err map_error queued; map_err map_error acked.
Definition send_result_of (queued : result EspNowError unit) : send_result := map_err map_error queued.

(** ** Interleavings *)

Inductive SenderEvent :=
| Ev_Time (d : Z) | Ev_RunSender | Ev_Runner (outcome : result EspNowError unit) | Ev_RunnerDrop
| Ev_Submit (mac : MacAddress) (data : list Z) (deadline : option Z)
| Ev_Lock (n : nat) | Ev_WaiterLeaves (n : nat) | Ev_Caller | Ev_Deadline | Ev_Cancel
| Ev_SyncLease | Ev_SyncRelease.

Definition sender_step (e : SenderEvent) (s : Sender) : option Sender :=
  match e with
  | Ev_Time d => Some (with_clock (clock s + Z.max 0 d) s)
  | Ev_RunSender => Some (run_sender_start s)
  | Ev_Runner outcome => runner_turn outcome s
  | Ev_RunnerDrop => Some (runner_drop s)
  | Ev_Submit mac data deadline => Some (submit mac data deadline s).2
  | Ev_Lock n => caller_locks n s
  | Ev_WaiterLeaves n => waiter_leaves n s
  | Ev_Caller => caller_turn s
  | Ev_Deadline => caller_deadline s
  | Ev_Cancel => caller_cancel s
  | Ev_SyncLease => Some (sync_lease s).2
  | Ev_SyncRelease =>
      if bool_decide (sender_cell s = None) && negb (runner_holds_sender (runner s)) then Some (sync_release s) else None
  end.

Fixpoint sender_run (events : list SenderEvent) (s : Sender) : option Sender :=
  match events with
  | [] => Some s
  | e :: events => s' ← sender_step e s; sender_run events s'
  end.

(** ** Reception *)

Definition RX_SKIP_LIMIT : nat := 16.

(** An oversize frame is counted and dropped. *)
Definition event_from (src : MacAddress) (data : list Z) (oversize_dropped : Z) : option EspNowEvent * Z :=
  match frame_event src data with
  | Ok event => (Some event, oversize_dropped)
  | Err _ => (None, u32_wrapping_add oversize_dropped 1)
  end.

(** [for _ in 0..attempts] of [try_recv]; [queue] is what [esp-radio] holds, [None] while leased. *)
Fixpoint try_recv_loop (attempts : nat) (queue : option (list (MacAddress * list Z))) (dropped : Z) :
    option EspNowEvent * option (list (MacAddress * list Z)) * Z :=
  match attempts with
  | O => (None, queue, dropped)
  | S attempts =>
      match queue with
      | Some ((src, data) :: rest) =>
          match event_from src data dropped with
          | (Some event, dropped) => (Some event, Some rest, dropped)
          | (None, dropped) => try_recv_loop attempts (Some rest) dropped
          end
      | _ => (None, queue, dropped)
      end
  end.

Definition try_recv := try_recv_loop RX_SKIP_LIMIT.
