(* ===== verification/EspNowSenderProps.v ===== *)
(** * EspNowSenderProps: a call gets the result of its own frame, or its frame is never sent

    The invariant is one list, [chain]: the ids of the completed requests, of the one the runner
    works on, of the queued one and of the one about to be queued, which grow along it. *)
From S2P Require Import Prelude EspNow EspNowSender.
From Stdlib Require Import Sorting.Sorted.
Open Scope Z_scope.

Definition runner_request (s : Sender) : option SendRequest :=
  match runner s with
  | RN_Lease q | RN_Held q | RN_Marked q | RN_Checked q | RN_Sending q | RN_Signal q _ => Some q
  | _ => None
  end.

(** The request its caller is about to queue. *)
Definition fresh_request (s : Sender) : option SendRequest :=
  match holder s with Some (c, SB_Queue id) => Some (request_of id c) | _ => None end.

Definition chain (s : Sender) : list Z :=
  req_id <$> ((completions s).*1 ++ option_list (runner_request s) ++ option_list (requests s) ++
             option_list (fresh_request s)).

(** What is on the air now. *)
Definition on_air (s : Sender) : list SendRequest :=
  match runner s with
  | RN_Sending q => [q]
  | RN_Signal q r => if decide (r = Err EN_Timeout) then [] else [q]
  | _ => []
  end.

Definition sent (x : SendRequest * send_result) : option SendRequest :=
  if decide (x.2 = Err EN_Timeout) then None else Some x.1.

(** Not sent so far, and late: the expiry check will drop it. *)
Definition will_expire (q : SendRequest) (s : Sender) : Prop :=
  expired (req_deadline q) (clock s) = true ∧
  (requests s = Some q ∨ runner s = RN_Lease q ∨ runner s = RN_Held q ∨ runner s = RN_Marked q ∨
   runner s = RN_Signal q (Err EN_Timeout)).

(** Never sent, now or later. *)
Definition abandoned (q : SendRequest) (s : Sender) : Prop :=
  req_id q ≤ calls s ∧ (req_id q ∉ chain s ∨ (q, Err EN_Timeout) ∈ completions s ∨ will_expire q s).

(** The request is the last one, and its result has not been taken. *)
Definition placed (q : SendRequest) (s : Sender) : Prop :=
  requests s = Some q ∨
  (requests s = None ∧ runner_request s = Some q) ∨
  (requests s = None ∧ runner_request s = None ∧
   ∃ r, last (completions s) = Some (q, r) ∧ done_signal s = Some (req_id q, r)).

Definition outcome_ok (q : SendRequest) (r : send_result) (s : Sender) : Prop :=
  if decide (r = Err EN_Timeout) then abandoned q s else (q, r) ∈ completions s.

(** The request is past the point where its caller may leave it. *)
Definition taken (q : SendRequest) (s : Sender) : Prop :=
  runner s = RN_Marked q ∨ runner s = RN_Checked q ∨ runner s = RN_Sending q ∨ (∃ r, runner s = RN_Signal q r).

Definition caller_ok (s : Sender) : Prop :=
  match holder s with
  | None | Some (_, SB_Locked) | Some (_, SB_Queue _) => True
  | Some (c, SB_Wait id) | Some (c, SB_WaitReal id) => placed (request_of id c) s
  | Some (c, SB_Late id) | Some (c, SB_LateRunner id) =>
      placed (request_of id c) s ∧ expired (call_deadline c) (clock s) = true
  | Some (c, SB_Take id) =>
      placed (request_of id c) s ∧ (runner_request s = Some (request_of id c) → will_expire (request_of id c) s) ∧
      expired (call_deadline c) (clock s) = true
  | Some (c, SB_Return id r) => outcome_ok (request_of id c) r s
  end.

Record sender_inv (s : Sender) : Prop := {
  inv_calls : 0 ≤ calls s ∧ next_id s = u32_wrap (calls s);
  inv_chain : StronglySorted Z.lt (chain s);
  inv_bound : Forall (λ i, i ≤ calls s) (chain s);
  inv_mark : ∀ q, taken q s → in_flight s = Some (req_id q);
  inv_off : runner_active s = false → runner s = RN_Off;
  inv_started : started s = omap sent (completions s) ++ on_air s;
  inv_done : ∀ id r, done_signal s = Some (id, r) → ∃ q, req_id q = id ∧ (q, r) ∈ completions s;
  inv_active : holder s = None ∧ lock_waiters s = [] ∨ runner_active s = true;
  inv_caller : caller_ok s;
  inv_returned : ∀ q r, (q, r) ∈ returned s → outcome_ok q r s }.

(** ** What a step carries over *)

Definition carries (s s' : Sender) : Prop :=
  calls s ≤ calls s' ∧ (∀ i, i ≤ calls s → i ∈ chain s' → i ∈ chain s) ∧
  (∀ x, x ∈ completions s → x ∈ completions s') ∧
  (∀ q, will_expire q s → will_expire q s' ∨ (q, Err EN_Timeout) ∈ completions s').

Lemma outcome_carries q r s s' : carries s s' → outcome_ok q r s → outcome_ok q r s'.
Proof.
  intros (Hc & Hi & Hx & Hw). unfold outcome_ok. destruct (decide _); [|auto].
  intros [Hq H]. split; [lia|]. destruct H as [H|[H|H]]; [left; auto | auto | destruct (Hw _ H); auto].
Qed.

Lemma expired_mono d t t' : t ≤ t' → expired d t = true → expired d t' = true.
Proof. destruct d; cbn; [|done]. rewrite !Z.leb_le. lia. Qed.

Lemma sorted_nodup (l : list Z) : StronglySorted Z.lt l → NoDup l.
Proof.
  induction 1 as [|x l _ IH Hall]; constructor; [|done].
  intros Hx. rewrite Forall_forall in Hall. specialize (Hall x Hx). lia.
Qed.

(** No id occurs twice. *)
Lemma chain_nodup s : sender_inv s → NoDup (chain s).
Proof. intros H. by apply sorted_nodup, H. Qed.

Lemma nodup_fmap_inj {A B} (f : A → B) (l : list A) x y :
  NoDup (f <$> l) → x ∈ l → y ∈ l → f x = f y → x = y.
Proof.
  intros Hn Hx Hy He. apply list_elem_of_lookup in Hx as [i Hi], Hy as [j Hj].
  assert (i = j) as ->; [|congruence].
  apply (NoDup_lookup _ _ _ (f x) Hn); rewrite list_lookup_fmap; [by rewrite Hi | rewrite Hj, He; done].
Qed.

Lemma completed_once s x y :
  sender_inv s → x ∈ completions s → y ∈ completions s → req_id x.1 = req_id y.1 → x = y.
Proof.
  intros Hi. apply (nodup_fmap_inj (req_id ∘ fst)). apply chain_nodup in Hi. unfold chain in Hi.
  rewrite fmap_app in Hi. apply NoDup_app in Hi as [Hi _]. by rewrite <- list_fmap_compose in Hi.
Qed.

(** A request still on its way has not been completed. *)
Lemma on_its_way s q x :
  sender_inv s → requests s = Some q ∨ runner_request s = Some q → x ∈ completions s → req_id x.1 ≠ req_id q.
Proof.
  intros Hi Hq Hx He. apply chain_nodup in Hi. unfold chain in Hi. rewrite fmap_app in Hi.
  apply NoDup_app in Hi as (_ & Hi & _). apply (Hi (req_id q)).
  - rewrite <- He. apply list_elem_of_fmap_2. by apply list_elem_of_fmap_2.
  - apply list_elem_of_fmap_2. destruct Hq as [-> | ->]; cbn; set_solver.
Qed.

(** Where only the runner has moved, its place decides. *)
Lemma caller_carries s s' :
  holder s' = holder s → carries s s' → clock s ≤ clock s' →
  (∀ q, placed q s → placed q s') →
  (∀ q, placed q s → (runner_request s = Some q → will_expire q s) →
        expired (req_deadline q) (clock s) = true → runner_request s' = Some q → will_expire q s') →
  caller_ok s → caller_ok s'.
Proof.
  intros Hh Hc Ht Hp Hw. unfold caller_ok. rewrite Hh. destruct (holder s) as [[c pc]|]; [|done].
  destruct pc; try done; [apply Hp | | | apply Hp | |].
  - intros [H1 H2]. split; [by apply Hp | by eapply expired_mono].
  - intros [H1 H2]. split; [by apply Hp | by eapply expired_mono].
  - intros (H1 & H2 & H3). split; [by apply Hp|]. split; [|by eapply expired_mono]. by apply Hw.
  - by apply outcome_carries.
Qed.

(** The fields a step of the runner leaves alone. *)
Definition same_callers (s s' : Sender) : Prop :=
  calls s' = calls s ∧ next_id s' = next_id s ∧ runner_active s' = runner_active s ∧ lock_waiters s' = lock_waiters s ∧
  holder s' = holder s ∧ returned s' = returned s ∧ clock s' = clock s.

Lemma runner_step s s' :
  sender_inv s → same_callers s s' → runner s ≠ RN_Off → chain s' = chain s →
  (∀ x, x ∈ completions s → x ∈ completions s') →
  (∀ q, will_expire q s → will_expire q s' ∨ (q, Err EN_Timeout) ∈ completions s') →
  (∀ q, taken q s' → in_flight s' = Some (req_id q)) →
  started s' = omap sent (completions s') ++ on_air s' →
  (∀ id r, done_signal s' = Some (id, r) → ∃ q, req_id q = id ∧ (q, r) ∈ completions s') →
  (∀ q, placed q s → placed q s') →
  (∀ q, placed q s → (runner_request s = Some q → will_expire q s) →
        expired (req_deadline q) (clock s) = true → runner_request s' = Some q → will_expire q s') →
  sender_inv s'.
Proof.
  intros Hi (Hc & Hn & Ha & Hl & Hh & Hre & Ht) Hoff Hch Hcomp Hwill Hmark Hst Hd Hp Hw.
  assert (Hca : carries s s') by (repeat split; [lia | by rewrite Hch | done | done]).
  destruct Hi as [H1 H2 H3 H4 H5 H6 H7 H8 H9 H10].
  constructor; rewrite ?Hc, ?Hn, ?Hch, ?Ha, ?Hl, ?Hh, ?Hre; try done.
  - intros Hoff'. by apply H5 in Hoff'.
  - eapply (caller_carries s); try done. lia.
  - intros q r H. eapply outcome_carries; [exact Hca | by apply H10].
Qed.

Ltac runner_cases Hr :=
  unfold same_callers, chain, on_air, will_expire, taken, placed, runner_request, fresh_request in *; cbn;
  rewrite ?Hr in *; cbn in *; intros; try done;
  try (destruct_and?; destruct_or?; simplify_eq; try done; try naive_solver).

Lemma runner_signal_inv s q r :
  sender_inv s → runner s = RN_Signal q r →
  sender_inv (with_runner RN_Clear (log_completion (q, r) (with_done (Some (req_id q, r)) s))).
Proof.
  intros Hi Hr. pose proof (inv_started s Hi) as Hst. pose proof (inv_done s Hi) as Hd.
  assert (Hin : ∀ x, x ∈ completions s ++ [(q, r)] ↔ x ∈ completions s ∨ x = (q, r)) by set_solver.
  eapply (runner_step s); [exact Hi | ..]; clear Hi; cbn; try setoid_rewrite Hin.
  - done.
  - by rewrite Hr.
  - unfold chain, runner_request, fresh_request. cbn. rewrite Hr, (fmap_app fst), <- app_assoc. done.
  - auto.
  - unfold will_expire. cbn. rewrite Hr. intros q' [Hx [H|[H|[H|[H|H]]]]]; simplify_eq; eauto.
  - unfold taken. cbn. intros q' [H|[H|[H|[? H]]]]; done.
  - rewrite Hst, omap_app. unfold on_air. rewrite Hr. cbn. unfold sent. cbn. destruct (decide _); cbn; rewrite ?app_nil_r; done.
  - intros id r' [= <- <-]. exists q. auto.
  - unfold placed, runner_request. cbn. rewrite Hr. intros q' [H|[[H1 [= ->]]|(?&?&_)]]; [auto | | done].
    right; right. split; [done|]. split; [done|]. exists r. by rewrite last_snoc.
  - done.
Qed.

Lemma runner_turn_inv outcome s s' : sender_inv s → runner_turn outcome s = Some s' → sender_inv s'.
Proof.
  intros Hi He. pose proof (inv_started s Hi) as Hst. pose proof (inv_done s Hi) as Hd. pose proof (inv_mark s Hi) as Hm.
  unfold runner_turn in He. destruct (runner s) as [| | |q|q|q|q|q|q r|] eqn:Hr; [done|..].
  - injection He as <-. eapply (runner_step s); [exact Hi | ..]; clear Hi; runner_cases Hr.
  - destruct (requests s) as [q|] eqn:Hq; [|done]. injection He as <-.
    eapply (runner_step s); [exact Hi | ..]; clear Hi; runner_cases Hr; rewrite ?Hq in *; cbn; try done; naive_solver.
  - destruct (lease (sender_cell s)) as [[[]|] cell]; [|done]. injection He as <-.
    eapply (runner_step s); [exact Hi | ..]; clear Hi; runner_cases Hr.
  - injection He as <-. eapply (runner_step s); [exact Hi | ..]; clear Hi; runner_cases Hr.
  - destruct (expired (req_deadline q) (clock s)) eqn:Hx; injection He as <-;
      (eapply (runner_step s); [exact Hi | ..]; clear Hi; runner_cases Hr; congruence).
  - injection He as <-. eapply (runner_step s); [exact Hi | ..]; clear Hi; runner_cases Hr.
    by rewrite Hst, app_nil_r.
  - injection He as <-. eapply (runner_step s); [exact Hi | ..]; clear Hi; runner_cases Hr.
    rewrite decide_False; [done|]. by destruct outcome as [|[]].
  - injection He as <-. by apply runner_signal_inv.
  - injection He as <-. eapply (runner_step s); [exact Hi | ..]; clear Hi; runner_cases Hr.
Qed.

(** The fields the other steps leave alone. *)
Definition same_runner (s s' : Sender) : Prop :=
  runner s' = runner s ∧ in_flight s' = in_flight s ∧ runner_active s' = runner_active s ∧
  completions s' = completions s ∧ started s' = started s.

Lemma same_runner_carries s s' :
  same_runner s s' → calls s ≤ calls s' → clock s ≤ clock s' →
  (∀ i, i ≤ calls s → i ∈ chain s' → i ∈ chain s) → (requests s' = requests s ∨ requests s = None) → carries s s'.
Proof.
  intros (Hr & _ & _ & Hc & _) ? Ht ? Hq. split; [done|]. split; [done|]. rewrite Hc. split; [done|].
  intros q [He Hw]. left. split; [by eapply expired_mono|]. rewrite Hr.
  destruct Hw as [Hw|Hw]; [left; destruct Hq; congruence | by right].
Qed.

Lemma caller_step s s' :
  sender_inv s → same_runner s s' → calls s ≤ calls s' → next_id s' = u32_wrap (calls s') → clock s ≤ clock s' →
  StronglySorted Z.lt (chain s') → Forall (λ i, i ≤ calls s') (chain s') →
  (∀ i, i ≤ calls s → i ∈ chain s' → i ∈ chain s) →
  (requests s' = requests s ∨ requests s = None) → (done_signal s' = done_signal s ∨ done_signal s' = None) →
  (holder s' = None ∧ lock_waiters s' = [] ∨ runner_active s' = true) →
  (carries s s' → caller_ok s') →
  (∀ x, x ∈ returned s' → x ∈ returned s ∨ outcome_ok x.1 x.2 s) → sender_inv s'.
Proof.
  intros Hi Hsr Hc Hn Ht H1 H2 H3 Hq Hd Ha Hk Hret. pose proof (same_runner_carries _ _ Hsr Hc Ht H3 Hq) as Hca.
  destruct Hsr as (Hr & Hf & Hra & Hcm & Hst). destruct Hi.
  constructor; rewrite ?Hr, ?Hf, ?Hra, ?Hcm, ?Hst; try done.
  - split; [lia | done].
  - unfold taken in *. by rewrite Hr.
  - rewrite inv_started0. unfold on_air. by rewrite Hr.
  - intros id r He. destruct Hd as [Hd|Hd]; [apply inv_done0|]; congruence.
  - by rewrite <- Hra.
  - by apply Hk.
  - intros q r [Hx|Hx]%Hret; (eapply outcome_carries; [done|]); [by apply inv_returned0 | exact Hx].
Qed.

(** Steps that leave the requests and the ids alone. *)
Lemma quiet_step s s' :
  sender_inv s → same_runner s s' → calls s' = calls s → next_id s' = next_id s → clock s ≤ clock s' →
  requests s' = requests s → fresh_request s' = fresh_request s ∨ fresh_request s' = None →
  (done_signal s' = done_signal s ∨ done_signal s' = None) →
  (holder s' = None ∧ lock_waiters s' = [] ∨ runner_active s' = true) →
  (carries s s' → caller_ok s') →
  (∀ x, x ∈ returned s' → x ∈ returned s ∨ outcome_ok x.1 x.2 s) → sender_inv s'.
Proof.
  intros Hi Hsr Hc Hn Ht Hq Hf Hd Ha Hk Hret.
  assert (Hch : ∃ l, chain s = chain s' ++ l).
  { destruct Hsr as (Hr & _ & _ & Hcm & _). unfold chain, runner_request. rewrite Hr, Hcm, Hq.
    destruct Hf as [-> | ->]; [exists []; by rewrite app_nil_r|]. exists (req_id <$> option_list (fresh_request s)).
    rewrite <- fmap_app. f_equal. cbn. rewrite app_nil_r, <- !app_assoc. done. }
  destruct Hch as [l Hch]. pose proof (inv_chain s Hi) as Hs. pose proof (inv_bound s Hi) as Hb. rewrite Hch in Hs, Hb.
  eapply (caller_step s); try done; rewrite ?Hc, ?Hn.
  - lia.
  - apply Hi.
  - clear -Hs. induction (chain s') as [|x k IH]; [constructor|]. inversion Hs as [|?? Hk Hall]; subst.
    constructor; [by apply IH|]. by apply Forall_app in Hall as [? _].
  - by apply Forall_app in Hb as [? _].
  - intros i _ H. rewrite Hch. apply elem_of_app. by left.
  - by left.
Qed.

(** ** The callers *)

Lemma chain_bound s i : sender_inv s → i ∈ chain s → i ≤ calls s.
Proof. intros Hi. pose proof (inv_bound s Hi) as H. rewrite Forall_forall in H. apply H. Qed.

Lemma placed_in_chain s q : placed q s → req_id q ∈ chain s.
Proof.
  intros Hp. apply list_elem_of_fmap_2. rewrite !elem_of_app.
  destruct Hp as [H|[[_ H]|(_ & _ & r & H & _)]]; rewrite ?H; cbn; [set_solver..|].
  left. apply last_Some_elem_of in H. by apply (list_elem_of_fmap_2 fst) in H.
Qed.

Lemma placed_done s q r :
  sender_inv s → placed q s → done_signal s = Some (req_id q, r) → (q, r) ∈ completions s.
Proof.
  intros Hi Hp Hd. destruct (inv_done s Hi _ _ Hd) as (q' & Hq & Hc).
  destruct Hp as [H|[[_ H]|(_ & _ & r' & H & Hd')]].
  - by destruct (on_its_way s q (q', r) Hi (or_introl H) Hc).
  - by destruct (on_its_way s q (q', r) Hi (or_intror H) Hc).
  - apply last_Some_elem_of in H. congruence.
Qed.

Lemma completed_outcome s q r : sender_inv s → (q, r) ∈ completions s → outcome_ok q r s.
Proof.
  intros Hi Hc. unfold outcome_ok. destruct (decide _) as [->|]; [|done]. split; [|auto].
  apply chain_bound; [done|]. unfold chain. rewrite fmap_app. apply elem_of_app. left.
  by apply (list_elem_of_fmap_2 fst), (list_elem_of_fmap_2 req_id) in Hc.
Qed.

Lemma holder_active s x : sender_inv s → holder s = Some x → runner_active s = true.
Proof. intros Hi Hh. destruct (inv_active s Hi) as [[? _]|?]; congruence. Qed.

Lemma wait_done_inv s s' c id :
  sender_inv s → (holder s = Some (c, SB_Wait id) ∨ holder s = Some (c, SB_WaitReal id)) →
  wait_done c id s = Some s' → sender_inv s'.
Proof.
  intros Hi Hh He. assert (Hp : placed (request_of id c) s)
    by (pose proof (inv_caller s Hi) as H; unfold caller_ok in H; by destruct Hh as [Hh|Hh]; rewrite Hh in H).
  assert (Ha : runner_active s = true) by (by destruct Hh as [Hh|Hh]; eapply holder_active).
  assert (Hf : fresh_request s = None) by (unfold fresh_request; by destruct Hh as [-> | ->]).
  unfold wait_done in He. destruct (done_signal s) as [[id' r]|] eqn:Hd; [|done].
  destruct (Z.eqb_spec id' id) as [->|Hne]; injection He as <-.
  - eapply (quiet_step s); try done; cbn; auto.
    intros Hca. unfold caller_ok. cbn. eapply outcome_carries; [exact Hca|].
    apply completed_outcome; [done|]. by apply placed_done.
  - eapply (quiet_step s); try done; cbn; auto.
    intros _. unfold caller_ok. cbn. destruct Hp as [Hp|[Hp|(_ & _ & r' & _ & Hp)]]; [| |rewrite Hd in Hp; by simplify_eq].
    all: destruct Hh as [-> | ->]; unfold placed; cbn; auto.
Qed.

Lemma sorted_snoc (l : list Z) b : StronglySorted Z.lt l → Forall (λ i, i < b) l → StronglySorted Z.lt (l ++ [b]).
Proof.
  induction 1 as [|x l _ IH Hx]; intros Hall; [by repeat constructor|]. apply Forall_cons in Hall as [? Hall].
  cbn. constructor; [by apply IH | by apply Forall_app; auto].
Qed.

Lemma new_id_inv s c :
  sender_inv s → holder s = Some (c, SB_Locked) → calls s + 1 ≤ u32_max →
  sender_inv (with_holder (Some (c, SB_Queue (next_id (new_id s)))) (new_id s)).
Proof.
  intros Hi Hh Hb. destruct (inv_calls s Hi) as [H0 Hn].
  assert (Hid : u32_wrapping_add (next_id s) 1 = calls s + 1).
  { rewrite Hn, (u32_wrap_small (calls s)) by (unfold is_u32; lia). apply u32_wrap_small. unfold is_u32. lia. }
  set (s' := with_holder _ _).
  assert (Hch : chain s' = chain s ++ [calls s + 1]).
  { unfold chain, fresh_request, s', runner_request. cbn. rewrite Hh, Hid. cbn. rewrite app_nil_r.
    rewrite !app_assoc, (fmap_app req_id _ [_]). done. }
  pose proof (holder_active s _ Hi Hh) as Ha. pose proof (chain_bound s) as Hlt.
  eapply (caller_step s); rewrite ?Hch; try done; cbn; auto; try lia.
  - rewrite Hid, u32_wrap_small by (unfold is_u32; lia). done.
  - apply sorted_snoc; [apply Hi|]. apply Forall_forall. intros i Hx. apply Hlt in Hx; [lia | done].
  - apply Forall_app. split; [|constructor; [lia | done]].
    eapply Forall_impl; [exact (inv_bound s Hi)|]. cbn. lia.
  - intros i Hle Hx. apply elem_of_app in Hx as [Hx|Hx]; [done|]. apply list_elem_of_singleton in Hx. lia.
Qed.

Lemma enqueue_inv s c id :
  sender_inv s → holder s = Some (c, SB_Queue id) → requests s = None →
  sender_inv (with_holder (Some (c, SB_Wait id)) (with_requests (Some (request_of id c)) s)).
Proof.
  intros Hi Hh Hq. set (s' := with_holder _ _).
  assert (Hch : chain s' = chain s) by (unfold chain, fresh_request, s', runner_request; cbn; by rewrite Hh, Hq).
  pose proof (holder_active s _ Hi Hh) as Ha.
  eapply (caller_step s); rewrite ?Hch; try apply Hi; try done; cbn; auto.
  intros _. unfold caller_ok. cbn. by left.
Qed.

Lemma late_inv s c id :
  sender_inv s → holder s = Some (c, SB_Late id) →
  sender_inv (with_holder (Some (c, if decide (in_flight s = Some id) then SB_LateRunner id else SB_Take id)) s).
Proof.
  intros Hi Hh. pose proof (inv_caller s Hi) as Hk. unfold caller_ok in Hk. rewrite Hh in Hk. destruct Hk as [Hp He].
  pose proof (holder_active s _ Hi Hh) as Ha. pose proof (inv_mark s Hi) as Hm.
  eapply (quiet_step s); try done; cbn; auto.
  - unfold fresh_request. cbn. right. by case_decide.
  - intros _. unfold caller_ok. cbn. destruct (decide _) as [Hf|Hf]; [done|]. split; [done|]. split; [|done].
    unfold runner_request. cbn. intros Hr. split; [done|]. cbn.
    destruct (runner s) eqn:Er; simplify_eq; auto; exfalso; apply Hf.
    all: apply (Hm (request_of id c)); unfold taken; rewrite Er; eauto.
Qed.

Lemma take_inv s c id :
  sender_inv s → holder s = Some (c, SB_Take id) →
  let r := match done_signal s with
           | Some (id', r) => if id' =? id then r else Err EN_Timeout
           | None => Err EN_Timeout
           end in
  sender_inv (with_holder (Some (c, SB_Return id r)) (with_done None s)).
Proof.
  intros Hi Hh r. pose proof (inv_caller s Hi) as Hk. unfold caller_ok in Hk. rewrite Hh in Hk.
  destruct Hk as (Hp & Hw & He). pose proof (holder_active s _ Hi Hh) as Ha.
  assert (Hout : outcome_ok (request_of id c) r s).
  { assert (Habs : (∀ r', done_signal s ≠ Some (id, r')) → outcome_ok (request_of id c) (Err EN_Timeout) s).
    { intros Hnd. unfold outcome_ok. rewrite decide_True by done.
      split; [apply chain_bound; [done | by apply placed_in_chain]|].
      right; right. destruct Hp as [Hp|[[_ Hp]|(_ & _ & r' & _ & Hd)]]; [split; auto | by apply Hw | by apply Hnd in Hd]. }
    unfold r. destruct (done_signal s) as [[id' r']|] eqn:Hd; [|by apply Habs].
    destruct (Z.eqb_spec id' id) as [->|]; [|apply Habs; intros ? [=]; done].
    apply completed_outcome; [done|]. by apply placed_done. }
  eapply (quiet_step s); try done; cbn; auto.
  intros Hca. unfold caller_ok. cbn. by eapply outcome_carries.
Qed.

Lemma caller_turn_inv s s' :
  sender_inv s → caller_turn s = Some s' → calls s' ≤ u32_max → sender_inv s'.
Proof.
  intros Hi He Hb. unfold caller_turn in He. destruct (holder s) as [[c pc]|] eqn:Hh; [|done].
  pose proof (inv_caller s Hi) as Hk. unfold caller_ok in Hk. rewrite Hh in Hk. pose proof (holder_active s _ Hi Hh) as Ha.
  destruct pc as [|id|id|id|id|id|id|id r].
  - injection He as <-. by apply new_id_inv.
  - destruct (requests s) eqn:Hq; [done|]. injection He as <-. by apply enqueue_inv.
  - eapply wait_done_inv; eauto.
  - injection He as <-. by apply late_inv.
  - injection He as <-. rewrite Ha. eapply (quiet_step s); try done; cbn; auto.
    intros _. unfold caller_ok. cbn. apply Hk.
  - eapply wait_done_inv; eauto.
  - injection He as <-. by apply take_inv.
  - injection He as <-. eapply (quiet_step s); try done; cbn; auto.
    intros x [->|Hx]%elem_of_cons; [right | by left]. exact Hk.
Qed.

Lemma caller_deadline_inv s s' : sender_inv s → caller_deadline s = Some s' → sender_inv s'.
Proof.
  intros Hi He. unfold caller_deadline in He. destruct (holder s) as [[c pc]|] eqn:Hh; [|done].
  pose proof (inv_caller s Hi) as Hk. unfold caller_ok in Hk. rewrite Hh in Hk. pose proof (holder_active s _ Hi Hh) as Ha.
  destruct (expired _ _) eqn:Hx; [|done]. destruct pc as [|id|id|id|id|id|id|id r]; try done; injection He as <-.
  - eapply (quiet_step s); try done; cbn; auto. intros _. unfold caller_ok. cbn. unfold outcome_ok.
    rewrite decide_True by done. pose proof (inv_chain s Hi) as Hs. pose proof (chain_bound s id Hi) as Hle.
    unfold chain, fresh_request in Hs, Hle. rewrite Hh in Hs, Hle. split.
    + apply Hle. rewrite !fmap_app. set_solver.
    + left. unfold chain, fresh_request, runner_request. cbn. intros Hin.
      apply sorted_nodup in Hs. rewrite !app_assoc, (fmap_app req_id _ (option_list (Some _))) in Hs.
      apply NoDup_app in Hs as (_ & Hs & _). apply (Hs id); [|by apply list_elem_of_here].
      rewrite !app_assoc, app_nil_r in Hin. exact Hin.
  - eapply (quiet_step s); try done; cbn; auto.
Qed.

Lemma caller_cancel_inv s s' : sender_inv s → caller_cancel s = Some s' → sender_inv s'.
Proof.
  intros Hi He. unfold caller_cancel in He. destruct (holder s) as [[c pc]|] eqn:Hh; [|done].
  pose proof (holder_active s _ Hi Hh) as Ha.
  destruct pc; try done; injection He as <-; (eapply (quiet_step s); try done; cbn; auto).
Qed.

(** ** Every interleaving *)

Lemma time_inv s d : sender_inv s → sender_inv (with_clock (clock s + Z.max 0 d) s).
Proof.
  intros Hi. eapply (quiet_step s); try done; cbn; auto; try lia; try apply Hi.
  intros Hca. eapply (caller_carries s); try done; [cbn; lia | cbn | exact (inv_caller s Hi)].
  intros q _ Hw He Hr. destruct (Hw Hr) as [_ Hl]. split; [|done]. eapply expired_mono; [|done]. cbn. lia.
Qed.

Lemma run_sender_inv s : sender_inv s → sender_inv (run_sender_start s).
Proof.
  intros Hi. unfold run_sender_start. destruct (runner_active s) eqn:Ha; cbn.
  - assert (with_active true s = s) as -> by (destruct s; cbn in *; by subst). done.
  - pose proof (inv_off s Hi Ha) as Hr. destruct (inv_active s Hi) as [[Hh Hl]|]; [|congruence].
    destruct Hi. set (s' := with_runner _ _).
    assert (Hch : chain s' = chain s) by (unfold chain, fresh_request, runner_request, s'; cbn; by rewrite Hr).
    assert (carries s s') as Hca.
    { repeat split; [cbn; lia | by rewrite Hch | done |]. intros q [He Hw]. left. split; [done|].
      rewrite Hr in Hw. cbn. naive_solver. }
    constructor; rewrite ?Hch; try done; cbn.
    + intros q [H|[H|[H|[? H]]]]; done.
    + unfold on_air in *. cbn. by rewrite Hr in inv_started0.
    + auto.
    + unfold caller_ok. cbn. by rewrite Hh.
    + intros q r Hx. eapply outcome_carries; eauto.
Qed.

Lemma submit_inv s mac data d : sender_inv s → sender_inv (submit mac data d s).2.
Proof.
  intros Hi. unfold submit. destruct (validate_frame_len data); [|done]. destruct (runner_active s) eqn:Ha; [|done].
  eapply (quiet_step s); try done; cbn; auto. intros _. exact (inv_caller s Hi).
Qed.

Lemma queue_inv s s' n : sender_inv s → caller_locks n s = Some s' ∨ waiter_leaves n s = Some s' → sender_inv s'.
Proof.
  intros Hi He. assert (Hw : lock_waiters s !! n ≠ None → runner_active s = true).
  { intros Hn. destruct (inv_active s Hi) as [[_ Hl]|]; [|done]. by rewrite Hl in Hn. }
  unfold caller_locks, waiter_leaves in He. destruct (lock_waiters s !! n) as [c|] eqn:Hl; [|destruct (holder s); naive_solver].
  specialize (Hw ltac:(done)). destruct He as [He|He].
  - destruct (holder s) eqn:Hh; [done|]. injection He as <-. eapply (quiet_step s); try done; cbn; auto.
  - injection He as <-. eapply (quiet_step s); try done; cbn; auto. intros _. exact (inv_caller s Hi).
Qed.

Lemma sender_cell_inv s v : sender_inv s → sender_inv (with_sender_cell v s).
Proof.
  intros Hi. eapply (quiet_step s); try done; cbn; auto; try apply Hi.
  intros _. exact (inv_caller s Hi).
Qed.

Lemma sender_step_inv e s s' :
  sender_inv s → sender_step e s = Some s' → runner_dropped s' = false → calls s' ≤ u32_max → sender_inv s'.
Proof.
  intros Hi He Hd Hc. destruct e; cbn in He; simplify_eq.
  - by apply time_inv.
  - by apply run_sender_inv.
  - by eapply runner_turn_inv.
  - by apply submit_inv.
  - eapply queue_inv; eauto.
  - eapply queue_inv; eauto.
  - by eapply caller_turn_inv.
  - by eapply caller_deadline_inv.
  - by eapply caller_cancel_inv.
  - unfold sync_lease, lease. destruct (sender_cell s); by apply sender_cell_inv.
  - destruct (_ && _); [|done]. simplify_eq. by apply sender_cell_inv.
Qed.

(** A dropped runner stays dropped, and ids are never taken back. *)
Lemma sender_step_mono e s s' :
  sender_step e s = Some s' → calls s ≤ calls s' ∧ (runner_dropped s = true → runner_dropped s' = true).
Proof.
  intros He. destruct e; cbn in He; unfold runner_turn, caller_locks, waiter_leaves, caller_turn, wait_done,
    caller_deadline, caller_cancel, run_sender_start, submit, sync_lease in He; cbn in He;
    repeat case_match; simplify_eq; cbn; (split; [lia | done]).
Qed.

Lemma sender_run_mono events s s' :
  sender_run events s = Some s' → calls s ≤ calls s' ∧ (runner_dropped s = true → runner_dropped s' = true).
Proof.
  revert s. induction events as [|e events IH]; intros s He; cbn in He; [simplify_eq; split; [lia | done]|].
  apply bind_Some in He as (s1 & Hs & He). apply sender_step_mono in Hs as [? ?]. apply IH in He as [? ?]. split; [lia | auto].
Qed.

Lemma sender_run_inv events s s' :
  sender_inv s → sender_run events s = Some s' → runner_dropped s' = false → calls s' ≤ u32_max → sender_inv s'.
Proof.
  revert s. induction events as [|e events IH]; intros s Hi He Hd Hc; cbn in He; [by simplify_eq|].
  apply bind_Some in He as (s1 & Hs & He). pose proof (sender_run_mono _ _ _ He) as [Hm Hdm].
  eapply IH; [|done..]. eapply sender_step_inv; [done..| |lia].
  destruct (runner_dropped s1); [|done]. rewrite Hdm in Hd; done.
Qed.

Lemma sender_init_inv now : sender_inv (sender_init now).
Proof.
  constructor; cbn.
  - done.
  - constructor.
  - constructor.
  - intros q [H|[H|[H|[? H]]]]; done.
  - done.
  - done.
  - done.
  - by left.
  - done.
  - intros q r H. by apply not_elem_of_nil in H.
Qed.

Lemma omap_sent_sublist l : omap sent l `sublist_of` l.*1.
Proof.
  induction l as [|[q r] l IH]; [done|]. cbn. unfold sent at 1. cbn. destruct (decide _); by constructor.
Qed.

(** What went on the air was completed or is with the runner. *)
Lemma started_sublist s :
  sender_inv s → started s `sublist_of` (completions s).*1 ++ option_list (runner_request s).
Proof.
  intros Hi. rewrite (inv_started s Hi). apply sublist_app; [apply omap_sent_sublist|].
  unfold on_air, runner_request. destruct (runner s); cbn; repeat case_decide; try done; by repeat constructor.
Qed.

Lemma started_once s : sender_inv s → NoDup (started s).
Proof.
  intros Hi. eapply sublist_NoDup; [|by apply started_sublist]. pose proof (chain_nodup s Hi) as Hn.
  apply NoDup_fmap_1 in Hn. rewrite app_assoc in Hn. by apply NoDup_app in Hn as [Hn _].
Qed.

Lemma started_inv s q :
  sender_inv s → q ∈ started s →
  (∃ r, (q, r) ∈ completions s ∧ r ≠ Err EN_Timeout) ∨
  (runner s = RN_Sending q ∨ ∃ r, runner s = RN_Signal q r ∧ r ≠ Err EN_Timeout).
Proof.
  intros Hi Hq. rewrite (inv_started s Hi) in Hq. apply elem_of_app in Hq as [Hq|Hq].
  - apply list_elem_of_omap in Hq as ([q' r] & Hx & He). unfold sent in He. cbn in He.
    destruct (decide _); simplify_eq. left. eauto.
  - unfold on_air in Hq. destruct (runner s); try by apply not_elem_of_nil in Hq.
    + apply list_elem_of_singleton in Hq as ->. auto.
    + destruct (decide _); [by apply not_elem_of_nil in Hq|]. apply list_elem_of_singleton in Hq as ->. eauto.
Qed.

(** The runner's request and the queued one are different. *)
Lemma two_requests s q : sender_inv s → requests s = Some q → runner_request s = Some q → False.
Proof.
  intros Hi Hq Hr. pose proof (chain_nodup s Hi) as Hn. apply NoDup_fmap_1 in Hn. rewrite Hq, Hr in Hn.
  apply NoDup_app in Hn as (_ & _ & Hn). apply NoDup_app in Hn as (_ & Hn & _).
  apply (Hn q); cbn; set_solver.
Qed.

Lemma abandoned_not_started s q : sender_inv s → abandoned q s → q ∉ started s.
Proof.
  intros Hi [_ Ha] Hq.
  assert (Hch : req_id q ∈ chain s).
  { apply list_elem_of_fmap_2. rewrite app_assoc. apply elem_of_app. left.
    eapply elem_of_sublist; [exact Hq | by apply started_sublist]. }
  apply started_inv in Hq as [(r & Hr & Hne)|Hq]; [| |done].
  - destruct Ha as [Ha|[Ha|[_ Ha]]]; [done | | ].
    + by pose proof (completed_once s _ _ Hi Hr Ha eq_refl) as [= ->].
    + apply (on_its_way s q (q, r) Hi); [|done..]. unfold runner_request.
      destruct Ha as [?|[-> |[-> |[-> | ->]]]]; auto.
  - assert (Hrq : runner_request s = Some q) by (unfold runner_request; by destruct Hq as [-> |(? & -> & _)]).
    destruct Ha as [Ha|[Ha|[_ [Ha|Ha]]]]; [done | | by eapply two_requests | destruct Hq as [Hq|(? & Hq & ?)]; rewrite Hq in Ha; naive_solver].
    by apply (on_its_way s q _ Hi (or_intror Hrq) Ha).
Qed.

(** C26: Every asynchronous send gets the outcome of its own frame, or its frame never goes on the air. Take any interleaving of the runner, of any number of callers with deadlines or without, cancelled or not, of blocking sends and of time, in which the runner is not dropped and fewer than 2^32 ids are given out. If a call returned Timeout, its frame has not been and never will be transmitted; otherwise its frame was transmitted and the result is the one of that transmission. And no request is ever transmitted twice. *)
Theorem sender_own_result (now : Z) (events : list SenderEvent) (s : Sender) :
  sender_run events (sender_init now) = Some s → runner_dropped s = false → calls s ≤ u32_max →
  (∀ q r, (q, r) ∈ returned s →
     if decide (r = Err EN_Timeout) then q ∉ started s else (q, r) ∈ completions s ∧ q ∈ started s) ∧
  NoDup (started s).
Proof.
  intros He Hd Hc. pose proof (sender_run_inv _ _ _ (sender_init_inv now) He Hd Hc) as Hi.
  split; [|by apply started_once]. intros q r Hr. apply (inv_returned s Hi) in Hr as Ho. unfold outcome_ok in Ho.
  destruct (decide (r = Err EN_Timeout)) as [->|Hne]; [by apply abandoned_not_started|]. split; [done|].
  rewrite (inv_started s Hi). apply elem_of_app. left. apply list_elem_of_omap. exists (q, r). split; [done|].
  unfold sent. by rewrite decide_False.
Qed.

(** Two calls: the first is sent and acknowledged, the second passes its deadline while a blocking
    send has the sender, and its frame is dropped. *)
Definition sender_script : list SenderEvent :=
  [Ev_RunSender; Ev_Runner (Ok tt);
   Ev_Submit [1] [7] None; Ev_Submit [2] [8] (Some 100); Ev_Lock 0; Ev_Caller; Ev_Caller;
   Ev_Runner (Ok tt); Ev_Runner (Ok tt); Ev_Runner (Ok tt); Ev_Runner (Ok tt); Ev_Runner (Ok tt);
   Ev_Runner (Ok tt); Ev_Runner (Ok tt); Ev_Runner (Ok tt); Ev_Caller; Ev_Caller;
   Ev_SyncLease; Ev_Lock 0; Ev_Caller; Ev_Caller; Ev_Runner (Ok tt); Ev_Time 100; Ev_Deadline;
   Ev_Caller; Ev_Caller; Ev_Caller; Ev_SyncRelease; Ev_Runner (Ok tt); Ev_Runner (Ok tt); Ev_Runner (Ok tt)].

Lemma sender_own_result_witness :
  ∃ s, sender_run sender_script (sender_init 0) = Some s ∧
    returned s = [(mkRequest 2 [2] [8] (Some 100), Err EN_Timeout); (mkRequest 1 [1] [7] None, Ok tt)] ∧
    mkRequest 2 [2] [8] (Some 100) ∉ started s.
Proof.
  destruct (sender_run sender_script (sender_init 0)) as [s|] eqn:E; [|by vm_compute in E].
  assert (Hf : runner_dropped s = false ∧ calls s = 2 ∧
    returned s = [(mkRequest 2 [2] [8] (Some 100), Err EN_Timeout); (mkRequest 1 [1] [7] None, Ok tt)])
    by (vm_compute in E; injection E as <-; vm_compute; auto).
  destruct Hf as (Hd & Hc & Hr). exists s. split; [done|]. split; [exact Hr|].
  destruct (sender_own_result 0 sender_script s E Hd ltac:(rewrite Hc; vm_compute; discriminate)) as [Ho _].
  specialize (Ho (mkRequest 2 [2] [8] (Some 100)) (Err EN_Timeout)). rewrite Hr in Ho.
  rewrite decide_True in Ho by done. apply Ho, list_elem_of_here.
Defined.
