(* ===== verification/ProvSession.v ===== *)
(** * ProvSession: the provisioning session ([provisioning/state.rs] and [session.rs] of juggler)

    The state machine, and the shared session behind one mutex and one condition variable.
    Everything a thread does under the lock is one step; between two waits a waiter may be
    woken by a notification, by its timeout or for no reason. *)
From S2P Require Import Prelude ProvConfig.
Open Scope Z_scope.

Inductive ProvisioningState := AwaitingSubmission | Persisting | Committed | FactoryResetPending.
Inductive ProvisioningInput := ValidSubmission | InvalidSubmission | PersistOk | PersistFailed | FactoryReset.

#[export] Instance ProvisioningState_eq_dec : EqDecision ProvisioningState.
Proof. solve_decision. Defined.
#[export] Instance ProvisioningInput_eq_dec : EqDecision ProvisioningInput.
Proof. solve_decision. Defined.

Record InvalidTransition := mkInvalid { it_state : ProvisioningState; it_input : ProvisioningInput }.

Definition state_apply (st : ProvisioningState) (input : ProvisioningInput) :
    result InvalidTransition ProvisioningState :=
  match st, input with
  | AwaitingSubmission, ValidSubmission => Ok Persisting
  | AwaitingSubmission, InvalidSubmission => Ok AwaitingSubmission
  | AwaitingSubmission, FactoryReset => Ok FactoryResetPending
  | Persisting, PersistOk => Ok Committed
  | Persisting, PersistFailed => Ok AwaitingSubmission
  | st, input => Err (mkInvalid st input)
  end.

Definition state_str (st : ProvisioningState) : string :=
  match st with
  | AwaitingSubmission => "awaiting_submission"
  | Persisting => "persisting"
  | Committed => "committed"
  | FactoryResetPending => "factory_reset_pending"
  end.

Inductive WaitResolution := WRes_Committed | WRes_FactoryReset | WRes_Pending.

Definition resolve_wait (st : ProvisioningState) : WaitResolution :=
  match st with
  | Committed => WRes_Committed
  | FactoryResetPending => WRes_FactoryReset
  | _ => WRes_Pending
  end.

(** ** The shared session *)

Inductive SessionOutcome := SO_Committed | SO_FactoryResetRequested | SO_TimedOut.

(** The two waits, what they return, and where a waiting thread is. *)
Inductive WaitKind := WK_Committed | WK_Outcome.
Inductive WaitResult := WR_Config (c : option ProvisioningConfig) | WR_Outcome (o : SessionOutcome).
Inductive WaitPc := W_Ready | W_Blocked | W_Done (r : WaitResult).

(** [wait_deadline] is the instant computed at the entry. *)
Record Waiter := mkWaiter { wait_kind : WaitKind; wait_deadline : option Z; wait_pc : WaitPc }.

Record SessionState := mkSession {
  session_state : ProvisioningState; committed : option ProvisioningConfig; poisoned : bool; waiting : list Waiter }.

Definition SessionState_new : SessionState := mkSession AwaitingSubmission None false [].

Definition session_current (s : SessionState) : ProvisioningState :=
  if poisoned s then AwaitingSubmission else session_state s.

Definition wake (w : Waiter) : Waiter :=
  match wait_pc w with W_Blocked => mkWaiter (wait_kind w) (wait_deadline w) W_Ready | _ => w end.

(** [on_accept] runs before the state is published, under the same lock. *)
Definition session_transition (input : ProvisioningInput) (notify : bool)
    (on_accept : option ProvisioningConfig → option ProvisioningConfig) (s : SessionState) :
    result InvalidTransition ProvisioningState * SessionState :=
  if poisoned s then (Err (mkInvalid (session_state s) input), s)
  else
    match state_apply (session_state s) input with
    | Ok next =>
        (Ok next, mkSession next (on_accept (committed s)) (poisoned s)
                    (if notify then wake <$> waiting s else waiting s))
    | Err t => (Err t, s)
    end.

Definition session_apply (input : ProvisioningInput) := session_transition input false id.
Definition apply_and_notify (input : ProvisioningInput) := session_transition input true id.
Definition session_commit (config : ProvisioningConfig) := session_transition PersistOk true (λ _, Some config).

Definition with_pc (pc : WaitPc) (w : Waiter) : Waiter := mkWaiter (wait_kind w) (wait_deadline w) pc.

(** What a waiter whose wait is cut short returns. *)
Definition timed_out (k : WaitKind) : WaitResult :=
  match k with WK_Committed => WR_Config None | WK_Outcome => WR_Outcome SO_TimedOut end.

(** One turn of the loop of [wait_committed] or [wait_outcome]: where it goes, and what it leaves of the payload. *)
Definition wait_turn (now : Z) (w : Waiter) (s : SessionState) : WaitPc * option ProvisioningConfig :=
  if poisoned s then (W_Done (timed_out (wait_kind w)), committed s)
  else
    let block :=
      match wait_deadline w with
      | None => W_Blocked
      | Some d => if Z.max 0 (d - now) =? 0 then W_Done (timed_out (wait_kind w)) else W_Blocked
      end in
    match wait_kind w, resolve_wait (session_state s) with
    | WK_Committed, WRes_Committed => (W_Done (WR_Config (committed s)), None)
    | WK_Outcome, WRes_Committed => (W_Done (WR_Outcome SO_Committed), committed s)
    | WK_Outcome, WRes_FactoryReset => (W_Done (WR_Outcome SO_FactoryResetRequested), committed s)
    | _, _ => (block, committed s)
    end.

(** ** Threads *)

Inductive SessionEvent :=
| SE_Apply (input : ProvisioningInput) | SE_ApplyNotify (input : ProvisioningInput) | SE_Commit (config : ProvisioningConfig)
| SE_Wait (k : WaitKind) (deadline : option Z) | SE_Turn (n : nat) (now : Z) | SE_Wake (n : nat).

Definition session_step (e : SessionEvent) (s : SessionState) : SessionState :=
  match e with
  | SE_Apply input => (session_apply input s).2
  | SE_ApplyNotify input => (apply_and_notify input s).2
  | SE_Commit config => (session_commit config s).2
  | SE_Wait k d => mkSession (session_state s) (committed s) (poisoned s) (waiting s ++ [mkWaiter k d W_Ready])
  | SE_Turn n now =>
      match waiting s !! n with
      | Some w =>
          match wait_pc w with
          | W_Ready =>
              let '(pc, payload) := wait_turn now w s in
              mkSession (session_state s) payload (poisoned s) (<[n := with_pc pc w]> (waiting s))
          | _ => s
          end
      | None => s
      end
  | SE_Wake n => mkSession (session_state s) (committed s) (poisoned s) (alter wake n (waiting s))
  end.

Definition session_run (events : list SessionEvent) : SessionState := foldl (λ s e, session_step e s) SessionState_new events.

(** How the portal's handlers use it: a commit goes through [commit], a factory reset through
    [apply_and_notify]. *)
Definition handler_event (e : SessionEvent) : bool :=
  match e with
  | SE_Apply input => negb (bool_decide (input = FactoryReset)) && negb (bool_decide (input = PersistOk))
  | SE_ApplyNotify input => negb (bool_decide (input = PersistOk))
  | _ => true
  end.

(** ** What a session promises *)


#[export] Instance WaitResolution_eq_dec : EqDecision WaitResolution.
Proof. solve_decision. Defined.

Definition is_terminal (st : ProvisioningState) : bool := negb (bool_decide (resolve_wait st = WRes_Pending)).

(** The wait would return now. *)
Definition resolved (k : WaitKind) (st : ProvisioningState) : bool :=
  match k, resolve_wait st with
  | WK_Committed, WRes_Committed | WK_Outcome, (WRes_Committed | WRes_FactoryReset) => true
  | _, _ => false
  end.

(** The configurations handed to waiters, in their order. *)
Definition config_taken (w : Waiter) : option ProvisioningConfig :=
  match wait_pc w with W_Done (WR_Config c) => c | _ => None end.
Definition taken (s : SessionState) : list ProvisioningConfig := omap config_taken (waiting s).

(** A result is true of the session. *)
Definition result_true (s : SessionState) (w : Waiter) : Prop :=
  match wait_pc w with
  | W_Done (WR_Outcome SO_Committed) | W_Done (WR_Config (Some _)) => session_state s = Committed
  | W_Done (WR_Outcome SO_FactoryResetRequested) => session_state s = FactoryResetPending
  | _ => True
  end.

(** The configuration committed by the first accepted [SE_Commit]. *)
Definition payload_of (s : SessionState) : list ProvisioningConfig := option_list (committed s) ++ taken s.

Record session_inv (s : SessionState) : Prop := {
  si_sound : poisoned s = false;
  si_payload : length (payload_of s) = if decide (session_state s = Committed) then 1%nat else 0%nat;
  si_results : Forall (result_true s) (waiting s);
  si_awake : Forall (λ w, wait_pc w = W_Blocked → resolved (wait_kind w) (session_state s) = false) (waiting s) }.

Lemma config_taken_wake w : config_taken (wake w) = config_taken w.
Proof. unfold config_taken, wake. by destruct (wait_pc w) eqn:E; cbn; rewrite ?E. Qed.

Lemma taken_wake (l : list Waiter) : omap config_taken (wake <$> l) = omap config_taken l.
Proof. induction l as [|w l IH]; [done|]. cbn. rewrite config_taken_wake. by destruct (config_taken w); rewrite IH. Qed.

Lemma taken_alter n (l : list Waiter) : omap config_taken (alter wake n l) = omap config_taken l.
Proof.
  revert n. induction l as [|w l IH]; intros n; [done|]. destruct n as [|n]; cbn.
  - by rewrite config_taken_wake.
  - destruct (config_taken w); by rewrite IH.
Qed.

(** What waking does to each waiter. *)
Lemma wake_pc w : wait_kind (wake w) = wait_kind w ∧
  (wait_pc (wake w) = wait_pc w ∧ wait_pc w ≠ W_Blocked ∨ wait_pc (wake w) = W_Ready ∧ wait_pc w = W_Blocked).
Proof. unfold wake. destruct (wait_pc w) eqn:E; cbn; rewrite ?E; auto. Qed.

Lemma result_wake s w : result_true s w → result_true s (wake w).
Proof. unfold result_true. destruct (wake_pc w) as [_ [[-> _]|[-> _]]]; done. Qed.

Lemma awake_after w k : wait_pc (wake w) = W_Blocked → k = true.
Proof. by destruct (wake_pc w) as [_ [[-> ?]|[-> _]]]. Qed.

(** A transition that notifies, or that leaves the resolutions alone. *)
Lemma publish_inv s next payload notify :
  session_inv s → resolve_wait (session_state s) = WRes_Pending →
  (notify = true ∨ resolve_wait next = WRes_Pending) →
  length (option_list payload) = (if decide (next = Committed) then 1%nat else 0%nat) →
  session_inv (mkSession next payload (poisoned s) (if notify then wake <$> waiting s else waiting s)).
Proof.
  intros [Hp Hl Hr Hw] Hst Hn Hpay.
  assert (session_state s ≠ Committed) as Hnc by (intros E; by rewrite E in Hst).
  rewrite decide_False in Hl by done. apply length_zero_iff_nil in Hl. apply app_nil in Hl as [_ Ht].
  constructor; cbn.
  - done.
  - unfold payload_of. rewrite length_app. cbn. unfold taken in *. cbn. destruct notify; rewrite ?taken_wake, Ht; cbn; lia.
  - assert (Forall (result_true (mkSession next payload (poisoned s) [])) (waiting s)) as Hr'.
    { rewrite Forall_forall in *. intros w Hx. specialize (Hr w Hx). unfold result_true in *. cbn.
      destruct (wait_pc w) as [| |[[c|]|o]] eqn:E; try destruct o; try done; try (by rewrite Hr in Hst). }
    destruct notify; [|exact Hr']. apply Forall_fmap. eapply Forall_impl; [exact Hr'|]. apply result_wake.
  - destruct notify.
    + apply Forall_fmap, Forall_forall. intros w _ H. by apply (awake_after w false) in H.
    + eapply Forall_impl; [exact Hw|]. intros w _ _. unfold resolved.
      destruct Hn as [|Hn]; [done|]. rewrite Hn. by destruct (wait_kind w).
Qed.

Lemma turn_inv s n w now :
  session_inv s → waiting s !! n = Some w → wait_pc w = W_Ready →
  session_inv (let '(pc, payload) := wait_turn now w s in
               mkSession (session_state s) payload (poisoned s) (<[n := with_pc pc w]> (waiting s))).
Proof.
  intros [Hp Hl Hr Ha] Hw Hpc. destruct (wait_turn now w s) as [pc payload] eqn:Et.
  assert (Hlt : (n < length (waiting s))%nat) by (by eapply lookup_lt_Some).
  assert (Hsplit : waiting s = take n (waiting s) ++ w :: drop (S n) (waiting s)) by (by rewrite take_drop_middle).
  assert (Hpay : (length (option_list payload) + length (option_list (config_taken (with_pc pc w))) =
                 length (option_list (committed s)))%nat).
  { unfold wait_turn in Et. rewrite Hp in Et. unfold config_taken.
    destruct (wait_kind w), (resolve_wait (session_state s)), (wait_deadline w) as [d|];
      try destruct (_ =? _); simplify_eq; cbn; destruct (committed s); cbn; lia. }
  constructor; cbn.
  - done.
  - rewrite <- Hl. unfold payload_of, taken. cbn. rewrite insert_take_drop by done. rewrite Hsplit at 3.
    rewrite !omap_app, !length_app. cbn. assert (config_taken w = None) as -> by (unfold config_taken; by rewrite Hpc).
    destruct (config_taken (with_pc pc w)); cbn in *; lia.
  - apply Forall_insert; [exact Hr|]. unfold result_true. cbn. unfold wait_turn in Et. rewrite Hp in Et.
    destruct (wait_kind w), (resolve_wait (session_state s)) eqn:Es, (wait_deadline w) as [d|];
      try destruct (_ =? _); simplify_eq; try done; by destruct (session_state s), (committed s).
  - apply Forall_insert; [exact Ha|]. cbn. intros ->. unfold wait_turn in Et. rewrite Hp in Et. unfold resolved.
    by destruct (wait_kind w), (resolve_wait (session_state s)).
Qed.

Lemma handler_step_inv e s : session_inv s → handler_event e = true → session_inv (session_step e s).
Proof.
  intros Hi He. assert (poisoned s = false) as Hp by apply Hi. pose proof (si_payload s Hi) as Hl.
  assert (Hnone : session_state s ≠ Committed → committed s = None).
  { intros Hn. rewrite decide_False in Hl by done. apply length_zero_iff_nil, app_nil in Hl as [Hl _].
    by destruct (committed s). }
  destruct e as [input|input|config|k d|n now|n]; cbn [session_step].
  - unfold session_apply, session_transition. rewrite Hp. destruct (session_state s) eqn:Es, input; cbn in He; try done; cbn;
      rewrite <- ?Hp; apply (publish_inv s _ _ false); rewrite ?Es; auto; by rewrite Hnone by done.
  - unfold apply_and_notify, session_transition. rewrite Hp. destruct (session_state s) eqn:Es, input; cbn in He; try done; cbn;
      rewrite <- ?Hp; apply (publish_inv s _ _ true); rewrite ?Es; auto; by rewrite Hnone by done.
  - unfold session_commit, session_transition. rewrite Hp. destruct (session_state s) eqn:Es; cbn; try done.
    rewrite <- Hp. apply (publish_inv s _ _ true); rewrite ?Es; auto.
  - constructor; cbn; [done | | |].
    + unfold payload_of, taken in *. cbn. by rewrite omap_app, app_nil_r.
    + apply Forall_app. split; [apply Hi | by repeat constructor].
    + apply Forall_app. split; [apply Hi | by repeat constructor].
  - destruct (waiting s !! n) as [w|] eqn:Hw; [|done]. destruct (wait_pc w) eqn:Hpc; try done. by apply turn_inv.
  - constructor; cbn; [done | | |].
    + unfold payload_of, taken in *. cbn. by rewrite taken_alter.
    + apply Forall_alter; [apply Hi|]. intros w _ H. by apply result_wake.
    + apply Forall_alter; [apply Hi|]. intros w _ _ H. by apply (awake_after w false) in H.
Qed.

Lemma session_run_inv events : forallb handler_event events = true → session_inv (session_run events).
Proof.
  unfold session_run. assert (Hi : session_inv SessionState_new) by (by constructor).
  revert Hi. generalize SessionState_new. induction events as [|e events IH]; intros s Hi He; [done|].
  cbn in He. apply andb_true_iff in He as [He Hes]. apply IH; [|done]. by apply handler_step_inv.
Qed.

Lemma terminal_stays events s :
  is_terminal (session_state s) = true → session_state (foldl (λ s e, session_step e s) s events) = session_state s.
Proof.
  revert s. induction events as [|e events IH]; intros s Ht; [done|]. cbn.
  assert (session_state (session_step e s) = session_state s) as He; [|by rewrite IH; rewrite He].
  destruct e; cbn [session_step]; try done.
  1-3: unfold session_apply, apply_and_notify, session_commit, session_transition; destruct (poisoned s); [done|];
       destruct (session_state s) eqn:Es; [done..| |]; by cbn.
  destruct (waiting s !! n); [|done]. destruct (wait_pc _); try done. by destruct (wait_turn _ _ _).
Qed.

(** The first terminal event of a provisioning session stands, and every waiter hears of it, under every interleaving of the portal's handlers and any number of waiting threads, with timeouts and spurious wake-ups. A terminal state never changes again; a commit stores one configuration, which is either still there or was handed to exactly one waiter; what a waiter returned is true of the session; and no thread is asleep although its wait is resolved. *)
Lemma session_first_terminal (events more : list SessionEvent) :
  forallb handler_event events = true →
  let s := session_run events in
  (is_terminal (session_state s) = true → session_state (session_run (events ++ more)) = session_state s) ∧
  (session_state s = Committed → ∃ c, payload_of s = [c]) ∧
  (session_state s ≠ Committed → payload_of s = []) ∧
  (∀ w, w ∈ waiting s → result_true s w ∧ (wait_pc w = W_Blocked → resolved (wait_kind w) (session_state s) = false)).
Proof.
  intros He s. pose proof (session_run_inv events He) as [Hp Hl Hr Ha]. fold s in Hp, Hl, Hr, Ha.
  split; [|split; [|split]].
  - unfold session_run. rewrite foldl_app. apply terminal_stays.
  - intros Hc. rewrite decide_True in Hl by done. destruct (payload_of s) as [|c [|]]; try done. by exists c.
  - intros Hc. rewrite decide_False in Hl by done. by apply length_zero_iff_nil.
  - intros w Hw. rewrite Forall_forall in Hr, Ha. split; [by apply Hr | by apply Ha].
Qed.

(** Two threads wait for the configuration and one for the outcome; the commit wakes all three. *)
Definition sample_config : ProvisioningConfig := mkConfig "net" "password" "" "dev" None None [].
Definition session_sample : list SessionEvent :=
  [SE_Wait WK_Committed None; SE_Wait WK_Committed (Some 50); SE_Wait WK_Outcome None; SE_Turn 0 1; SE_Turn 1 1;
   SE_Turn 2 1; SE_Apply ValidSubmission; SE_Wake 2; SE_Turn 2 2; SE_Commit sample_config; SE_Turn 1 60; SE_Turn 0 60; SE_Turn 2 60].

Lemma session_first_terminal_witness :
  wait_pc <$> waiting (session_run session_sample) =
    [W_Done (WR_Config None); W_Done (WR_Config (Some sample_config)); W_Done (WR_Outcome SO_Committed)] ∧
  session_state (session_run (session_sample ++ [SE_ApplyNotify FactoryReset])) = Committed.
Proof.
  split; [reflexivity|].
  destruct (session_first_terminal session_sample [SE_ApplyNotify FactoryReset] eq_refl) as [Ht _].
  rewrite Ht; reflexivity.
Defined.
