(* ===== verification/Http.v ===== *)
(** * Http: the request parser and the response writer of the captive portal
    ([provisioning/portal.rs] of the bare-metal tier), and the escapers of juggler
    ([provisioning/html_json_escape.rs])

    A slice is the list of its bytes.  A response buffer of [cap] bytes is what has been written
    to it so far; only that part is ever sent. *)
From Stdlib Require Import Ascii.
From S2P Require Import Prelude Text ProvConfig.
Open Scope Z_scope.

Abbreviation bytes := (list Z).

Definition MAX_TARGET_LEN : nat := 256.
Definition DEFAULT_REQUEST_SIZE_CAP : nat := Z.to_nat 2048.
Definition DEFAULT_TX_BUF : nat := Z.to_nat 6144.

Inductive Method := Get | Post.

Inductive ParseError :=
| BadRequestLine | VersionNotSupported | UriTooLong | BadHeader | DuplicateContentLength | InvalidContentLength
| RequestTooLarge | IncompleteRequest.

#[export] Instance Method_eq_dec : EqDecision Method.
Proof. solve_decision. Defined.
#[export] Instance ParseError_eq_dec : EqDecision ParseError.
Proof. solve_decision. Defined.

Record ParsedHeaders := mkHeaders { host : option bytes; content_length : option Z; content_type : option bytes }.
Record ParsedRequest := mkRequest { method : Method; target : bytes; headers : ParsedHeaders }.

(** ** Slices *)

(** [iter().position(p)] and [iter().rposition(p)]. *)
Fixpoint position (p : Z → bool) (l : bytes) : option nat :=
  match l with
  | [] => None
  | x :: l => if p x then Some O else S <$> position p l
  end.

Fixpoint rposition (p : Z → bool) (l : bytes) : option nat :=
  match l with
  | [] => None
  | x :: l =>
      match rposition p l with
      | Some i => Some (S i)
      | None => if p x then Some O else None
      end
  end.

Fixpoint starts_with (p l : bytes) : bool :=
  match p, l with
  | [], _ => true
  | a :: p, b :: l => (a =? b) && starts_with p l
  | _ :: _, [] => false
  end.

(** [windows(p.len()).position(|w| w == p)]. *)
Fixpoint find_sub (p l : bytes) : option nat :=
  if starts_with p l then Some O
  else match l with [] => None | _ :: l => S <$> find_sub p l end.

Definition is_ows (b : Z) : bool := (b =? 32) || (b =? 9) || (b =? 13) || (b =? 10).

Definition trim_ows (s : bytes) : bytes :=
  let start := default (length s) (position (λ b, negb (is_ows b)) s) in
  let stop := default O (S <$> rposition (λ b, negb (is_ows b)) s) in
  if (stop <=? start)%nat then [] else take (stop - start) (drop start s).

Definition to_ascii_lowercase (b : Z) : Z := if (65 <=? b) && (b <=? 90) then b + 32 else b.

Definition eq_ignore_case (a b : bytes) : bool :=
  bool_decide (to_ascii_lowercase <$> a = to_ascii_lowercase <$> b).

(** ** Requests *)

Definition parse_request_line (line : bytes) : result ParseError (Method * bytes) :=
  match position (Z.eqb 32) line with
  | None => Err BadRequestLine
  | Some first_sp =>
      let method_bytes := take first_sp line in
      let rest := drop (S first_sp) line in
      method ← (if decide (method_bytes = as_bytes "GET") then Ok Get
                else if decide (method_bytes = as_bytes "POST") then Ok Post
                else Err BadRequestLine);
      match rposition (Z.eqb 32) rest with
      | None => Err BadRequestLine
      | Some last_sp =>
          let target_bytes := take last_sp rest in
          let version_bytes := trim_ows (drop (S last_sp) rest) in
          if decide (target_bytes = []) then Err BadRequestLine
          else if (MAX_TARGET_LEN <? length target_bytes)%nat then Err UriTooLong
          else if decide (version_bytes = as_bytes "HTTP/1.1") then Ok (method, target_bytes)
          else if starts_with (as_bytes "HTTP/") version_bytes then Err VersionNotSupported
          else Err BadRequestLine
      end
  end.

Definition parse_header_line (line : bytes) : result ParseError (bytes * bytes) :=
  match position (Z.eqb 58) line with
  | None | Some O => Err BadHeader
  | Some (S i as colon) =>
      match line !! i with
      | Some (32 | 9) => Err BadHeader
      | _ => Ok (take colon line, trim_ows (drop (S colon) line))
      end
  end.

Record HeaderAccumulator := mkAccum { acc_headers : ParsedHeaders; content_length_seen : bool }.

Definition HeaderAccumulator_new : HeaderAccumulator := mkAccum (mkHeaders None None None) false.

Definition is_ascii_digit (b : Z) : bool := (48 <=? b) && (b <=? 57).

(** [str::parse::<u64>] of digits. *)
Definition parse_digits_u64 (value : bytes) : option Z := parse_uint u64_max (of_bytes value).

(** [n as usize] and [n as u32] wrap: [usize] has 32 bits on this tier. *)
Definition accum_feed (line : bytes) (request_size_cap : nat) (a : HeaderAccumulator) : result ParseError HeaderAccumulator :=
  let trimmed := trim_ows line in
  if decide (trimmed = []) then Ok a
  else
    nv ← parse_header_line trimmed;
    let '(name, value) := nv : bytes * bytes in
    let h := acc_headers a in
    if eq_ignore_case name (as_bytes "content-length") then
      if content_length_seen a then Err DuplicateContentLength
      else if bool_decide (value = []) || negb (forallb is_ascii_digit value) then Err InvalidContentLength
      else
        match parse_digits_u64 value with
        | None => Err InvalidContentLength
        | Some n =>
            if Z.of_nat request_size_cap <? u32_wrap n then Err RequestTooLarge
            else Ok (mkAccum (mkHeaders (host h) (Some (u32_wrap n)) (content_type h)) true)
        end
    else if eq_ignore_case name (as_bytes "host") then
      Ok (mkAccum (mkHeaders (Some (take 256 value)) (content_length h) (content_type h)) (content_length_seen a))
    else if eq_ignore_case name (as_bytes "content-type") then
      Ok (mkAccum (mkHeaders (host h) (content_length h) (Some (take 128 value))) (content_length_seen a))
    else Ok a.

(** [split(|&b| b == b'\n')], each piece without a final CR. *)
Definition strip_cr (l : bytes) : bytes :=
  match last l with Some 13 => take (length l - 1) l | _ => l end.

Fixpoint split_lf (l : bytes) : list bytes :=
  match l with
  | [] => [[]]
  | x :: l =>
      if x =? 10 then [] :: split_lf l
      else match split_lf l with
           | [] => [[x]]
           | first :: others => (x :: first) :: others
           end
  end.

(** The loop over the header lines, up to an empty one. *)
Fixpoint feed_lines (lines : list bytes) (cap : nat) (a : HeaderAccumulator) : result ParseError HeaderAccumulator :=
  match lines with
  | [] => Ok a
  | line :: lines => if decide (line = []) then Ok a else a ← accum_feed line cap a; feed_lines lines cap a
  end.

Definition CRLF : bytes := [13; 10].
Definition HEADER_END : bytes := [13; 10; 13; 10].

Definition parse_request (buf : bytes) (request_size_cap : nat) : result ParseError ParsedRequest :=
  match find_sub HEADER_END buf with
  | None => Err IncompleteRequest
  | Some header_end =>
      match strip_cr <$> split_lf (take header_end buf) with
      | [] => Err IncompleteRequest
      | request_line :: lines =>
          mt ← parse_request_line request_line;
          accum ← feed_lines lines request_size_cap HeaderAccumulator_new;
          Ok (mkRequest (mt.1) (mt.2) (acc_headers accum))
      end
  end.

(** ** Responses *)

Definition reason_phrase (status : Z) : string :=
  match status with
  | 200 => "OK" | 302 => "Found" | 400 => "Bad Request" | 403 => "Forbidden" | 404 => "Not Found"
  | 405 => "Method Not Allowed" | 409 => "Conflict" | 411 => "Length Required" | 413 => "Payload Too Large"
  | 414 => "URI Too Long" | 500 => "Internal Server Error" | 505 => "HTTP Version Not Supported"
  | _ => "Unknown"
  end.

Definition write_bytes (cap : nat) (src out : bytes) : result unit bytes :=
  if (cap <? length out + length src)%nat then Err tt else Ok (out ++ src).

Definition write_u32_decimal (cap : nat) (n : Z) (out : bytes) : result unit bytes :=
  write_bytes cap (as_bytes (show_uint n)) out.

Definition CONNECTION_CLOSE : bytes := as_bytes "Connection: close" ++ CRLF.
Definition NO_STORE : bytes := as_bytes "Cache-Control: no-store".

Definition build_response (cap : nat) (status : Z) (content_type : string) (body : bytes) : result unit bytes :=
  out ← write_bytes cap (as_bytes "HTTP/1.1 ") [];
  out ← write_u32_decimal cap status out;
  out ← write_bytes cap (as_bytes " ") out;
  out ← write_bytes cap (as_bytes (reason_phrase status)) out;
  out ← write_bytes cap CRLF out;
  out ← write_bytes cap (as_bytes "Content-Type: ") out;
  out ← write_bytes cap (as_bytes content_type) out;
  out ← write_bytes cap CRLF out;
  out ← write_bytes cap (as_bytes "Content-Length: ") out;
  out ← write_u32_decimal cap (Z.of_nat (length body)) out;
  out ← write_bytes cap CRLF out;
  out ← write_bytes cap CONNECTION_CLOSE out;
  out ← write_bytes cap (NO_STORE ++ CRLF) out;
  out ← write_bytes cap CRLF out;
  write_bytes cap body out.

Definition build_redirect (cap : nat) (location : bytes) : result unit bytes :=
  out ← write_bytes cap (as_bytes "HTTP/1.1 302 Found" ++ CRLF) [];
  out ← write_bytes cap (as_bytes "Location: ") out;
  out ← write_bytes cap location out;
  out ← write_bytes cap CRLF out;
  out ← write_bytes cap (as_bytes "Content-Length: 0" ++ CRLF) out;
  out ← write_bytes cap CONNECTION_CLOSE out;
  out ← write_bytes cap (NO_STORE ++ CRLF) out;
  write_bytes cap CRLF out.

Definition TEXT_PLAIN : string := "text/plain; charset=utf-8".
Definition TEXT_HTML : string := "text/html; charset=utf-8".

Definition error_status (err : ParseError) : Z * string :=
  match err with
  | VersionNotSupported => (505, "HTTP Version Not Supported"%string)
  | UriTooLong => (414, "URI Too Long"%string)
  | RequestTooLarge => (413, "Payload Too Large"%string)
  | _ => (400, "Bad Request"%string)
  end.

Definition error_response (cap : nat) (err : ParseError) : bytes :=
  let '(status, body) := error_status err in
  match build_response cap status TEXT_PLAIN (as_bytes body) with Ok out => out | Err _ => [] end.

Definition MINIMAL_500 : bytes :=
  as_bytes "HTTP/1.1 500 Internal Server Error" ++ CRLF ++ as_bytes "Content-Length: 0" ++ CRLF ++
  CONNECTION_CLOSE ++ NO_STORE ++ CRLF ++ CRLF.

Definition body_read_target (hdr_end content_length cap : nat) : nat := Nat.min (hdr_end + content_length) cap.

(** ** Form fields *)

(** The search of [extract_form_field]; [at_start] is [i == 0 || body[i - 1] == b'&']. *)
Fixpoint extract_from (key_eq : bytes) (at_start : bool) (body : bytes) : option bytes :=
  if (length body <? length key_eq)%nat then None
  else if at_start && starts_with key_eq body then
    let value := drop (length key_eq) body in
    Some (take (default (length value) (position (Z.eqb 38) value)) value)
  else
    match body with
    | [] => None
    | x :: body => extract_from key_eq (x =? 38) body
    end.

Definition extract_form_field (body key : bytes) : option bytes :=
  if (64 <? length key + 1)%nat then None else extract_from (key ++ [61]) true body.

(** The differences of the bytes, gathered. *)
Fixpoint diff_bytes (a b : bytes) (diff : Z) : Z :=
  match a, b with
  | x :: a, y :: b => diff_bytes a b (Z.lor diff (Z.lxor x y))
  | _, _ => diff
  end.

Definition nonce_matches (body expected : bytes) : bool :=
  match extract_form_field body (as_bytes "_nonce") with
  | None => false
  | Some value =>
      if negb (length value =? length expected)%nat then false else diff_bytes value expected 0 =? 0
  end.

(** ** Escaping

    The characters escaped are ASCII, so a string is escaped byte by byte. *)

Definition html_chunk (b : Z) : bytes :=
  if b =? 38 then as_bytes "&amp;"
  else if b =? 60 then as_bytes "&lt;"
  else if b =? 62 then as_bytes "&gt;"
  else if b =? 34 then as_bytes "&quot;"
  else if b =? 39 then as_bytes "&#39;"
  else [b].

Definition html_escape_to (input : bytes) : bytes := input ≫= html_chunk.

Definition hex_digit (n : Z) : Z := if n <? 10 then 48 + n else 87 + n.

Definition json_chunk (b : Z) : bytes :=
  if b =? 34 then [92; 34]
  else if b =? 92 then [92; 92]
  else if b =? 10 then as_bytes "\n"
  else if b =? 13 then as_bytes "\r"
  else if b =? 9 then as_bytes "\t"
  else if b <? 32 then
    as_bytes "\u" ++ [hex_digit (Z.land (Z.shiftr b 12) 15); hex_digit (Z.land (Z.shiftr b 8) 15);
                      hex_digit (Z.land (Z.shiftr b 4) 15); hex_digit (Z.land b 15)]
  else [b].

Definition json_escape_to (input : bytes) : bytes := input ≫= json_chunk.
