(* ===== verification/Portal.v ===== *)
(** * Portal: the captive portal of the bare-metal tier ([provisioning/portal.rs], and the shared
    state of [provisioning/session.rs])

    The page template is an HTML asset and the texts of the field errors are [Display] output:
    both are arguments.  The HTTP task serves one connection at a time; a connection is what its
    reads return. *)
From Stdlib Require Import Ascii.
From S2P Require Import Prelude Text ProvConfig ProvForm ProvSession Http.
Open Scope Z_scope.

Definition PROBE_PATHS : list bytes :=
  as_bytes <$> ["/generate_204"; "/gen_204"; "/hotspot-detect.html"; "/ncsi.txt"; "/connecttest.txt"; "/canonical.html"]%string.

(** A page; apostrophes stand for double quotes. *)
Definition html (s : string) : bytes := (λ b, if b =? 39 then 34 else b) <$> as_bytes s.

Definition COMMITTED_HTML : bytes := html ("<!DOCTYPE html><html><head><meta charset='utf-8'><meta name='viewport' content='width=" +:+
  "device-width, initial-scale=1'><title>Provisioned</title></head><body style='font-fami" +:+
  "ly:system-ui,sans-serif;padding:1rem'><h1>Provisioned</h1><p>Credentials saved. The de" +:+
  "vice will restart and join your network.</p></body></html>")%string.

Definition FACTORY_RESET_HTML : bytes := html ("<!DOCTYPE html><html><head><meta charset='utf-8'><meta name='viewport' content='width=" +:+
  "device-width, initial-scale=1'><title>Factory reset</title></head><body style='font-fa" +:+
  "mily:system-ui,sans-serif;padding:1rem'><h1>Factory reset requested</h1><p>The host ap" +:+
  "plication will complete the reset.</p></body></html>")%string.

Definition SESSION_FINISHED_BODY : bytes := as_bytes ("Conflict: this provisioning session has already finished or is saving another submissi" +:+
  "on; nothing was changed. Wait for the device to restart.")%string.

Definition FACTORY_RESET_CONFIRM_HTML_PART1 : bytes := html ("<!DOCTYPE html><html><head><meta charset='utf-8'><meta name='viewport' content='width=" +:+
  "device-width, initial-scale=1'><title>Factory reset</title></head><body style='font-fa" +:+
  "mily:system-ui,sans-serif;padding:1rem'><h1>Factory reset</h1><p>This will erase all s" +:+
  "tored credentials. Are you sure?</p><form method='post' action='/factory-reset'><input" +:+
  " type='hidden' name='_nonce' value='")%string.

Definition FACTORY_RESET_CONFIRM_HTML_PART2 : bytes := html ("'><button type='submit'>Confirm factory reset</button></form></body></html>")%string.

Definition RESUBMIT_HINT : bytes := as_bytes ("The form shows the saved or default values, not your submission. Re-enter your changes" +:+
  " and any passwords.")%string.

(** ** The session's shared state *)

Inductive ProvisioningOutcome := PO_Committed (c : ProvisioningConfig) | PO_FactoryResetRequested | PO_HostAborted.
Inductive ProvisioningEvent :=
| PE_ClientConnected (mac : option bytes) | PE_ClientDisconnected (mac : option bytes)
| PE_SubmissionAccepted | PE_SubmissionRejected | PE_Committed | PE_FactoryResetRequested.

Inductive ProvisioningError :=
| PVE_PasswordTooShort (min : Z) | PVE_InvalidSsid | PVE_SoftApInit | PVE_SpawnFailed | PVE_AlreadyStarted
| PVE_ProfileNotSupported (p : SchemaProfile).

Definition validate_profile (p : SchemaProfile) : result ProvisioningError unit :=
  match p with WifiMqttDevice => Ok tt | other => Err (PVE_ProfileNotSupported other) end.

(** The nonce: eight lowercase hexadecimal digits. *)
Definition generate_nonce (value : Z) : bytes :=
  (λ shift, hex_digit (Z.land (Z.shiftr value shift) 15)) <$> [28; 24; 20; 16; 12; 8; 4; 0].

Record PortalDefaultsOwned := mkDefaults {
  def_wifi_ssid : string; def_mqtt_host : string; def_mqtt_port : string; def_mqtt_user : string;
  def_mqtt_client : string; def_ota_url : string }.

Record PortalRenderConfig := mkRender {
  firmware_version : string; render_device_name : string; profile : SchemaProfile; defaults : PortalDefaultsOwned }.

(** Type-erased flash store: [PortalStore]. *)
Class PortalStore (S E : Type) := {
  portal_save : ProvisioningConfig → M S E unit;
  portal_load : M S E (option ProvisioningConfig) }.

(** What one portal works on: the session, the store, and the history of what it signalled, told
    the callback and tried to save (each oldest first). *)
Record Portal (S E : Type) := mkPortal {
  p_state : ProvisioningState; p_store : S; signalled : list ProvisioningOutcome; events : list ProvisioningEvent;
  saves : list (ProvisioningConfig * result E unit) }.
Arguments mkPortal {S E}.
Arguments p_state {S E}.
Arguments p_store {S E}.
Arguments signalled {S E}.
Arguments events {S E}.
Arguments saves {S E}.

(** ** Pre-fill *)

Record Prefill := mkPrefill {
  pre_wifi_ssid : string; pre_mqtt_uri : string; pre_mqtt_user : string; pre_mqtt_client : string;
  pre_ota_url : string; pre_dev_name : string }.

Definition Prefill_empty : Prefill := mkPrefill "" "" "" "" "" "".

(** [heapless::String::push_str], its error dropped; and [&s[..s.len().min(n)]]. *)
Definition push_str (cap : Z) (src out : string) : string := if str_len out + str_len src <=? cap then out +:+ src else out.
Definition capped (n : nat) (s : string) : string := String.substring 0 n s.

Definition compose_mqtt_uri (host port : string) : string :=
  if bool_decide (host = ""%string) || bool_decide (port = ""%string) then ""%string
  else push_str 74 (capped 5 port) (push_str 74 ":" (push_str 74 (capped 64 host) (push_str 74 "mqtt://" ""))).

Definition prefill_from_defaults (d : PortalDefaultsOwned) (p : SchemaProfile) : Prefill :=
  let mqtt := bool_decide (p = WifiMqttDevice) in
  mkPrefill (push_str 32 (def_wifi_ssid d) "")
    (if mqtt then compose_mqtt_uri (def_mqtt_host d) (def_mqtt_port d) else ""%string)
    (if mqtt then push_str 64 (def_mqtt_user d) "" else ""%string)
    (if mqtt then push_str 23 (def_mqtt_client d) "" else ""%string)
    (push_str 128 (def_ota_url d) "") "".

Definition prefill_from_config (cfg : ProvisioningConfig) : Prefill :=
  mkPrefill (push_str 32 (capped 32 (wifi_ssid cfg)) "")
    (match mqtt cfg with Some m => compose_mqtt_uri (mqtt_host m) (show_uint (mqtt_port m)) | None => ""%string end)
    (match mqtt cfg with
     | Some m => match mqtt_username m with Some u => push_str 64 (capped 64 u) "" | None => ""%string end
     | None => ""%string
     end)
    (match mqtt cfg with
     | Some m => match mqtt_client_id m with Some c => push_str 23 (capped 23 c) "" | None => ""%string end
     | None => ""%string
     end)
    (push_str 128 (capped 128 (default ""%string (config_ota_url cfg))) "")
    (push_str 24 (capped 24 (device_name cfg)) "").

(** ** Rendering *)

(** The chunks of [html_escape_to] into the buffer; a chunk that does not fit is skipped and
    noted.  (A character of several bytes is one chunk of the source, which changes only the
    buffer of a failed render.) *)
Fixpoint write_chunks (cap : nat) (chunks : list bytes) (out : bytes) (overflowed : bool) : result unit bytes :=
  match chunks with
  | [] => if overflowed then Err tt else Ok out
  | c :: chunks =>
      if (cap <? length out + length c)%nat then write_chunks cap chunks out true
      else write_chunks cap chunks (out ++ c) overflowed
  end.

Definition write_html_escaped (cap : nat) (s : bytes) (out : bytes) : result unit bytes :=
  write_chunks cap (html_chunk <$> s) out false.

Definition OPEN : bytes := [123; 123].
Definition CLOSE : bytes := [125; 125].

Section render.
  Context (config : PortalRenderConfig) (nonce : bytes) (prefill : Prefill) (error_text : option bytes) (cap : nat).

(** The [match marker] of the source. *)
Definition write_marker (marker : bytes) (out : bytes) : result unit bytes :=
  let escaped (s : string) := write_html_escaped cap (as_bytes s) out in
  if decide (marker = as_bytes "NONCE") then write_html_escaped cap nonce out
  else if decide (marker = as_bytes "WIFI_SSID") then escaped (pre_wifi_ssid prefill)
  else if decide (marker = as_bytes "MQTT_URI") then escaped (pre_mqtt_uri prefill)
  else if decide (marker = as_bytes "MQTT_USER") then escaped (pre_mqtt_user prefill)
  else if decide (marker = as_bytes "MQTT_CLIENT") then escaped (pre_mqtt_client prefill)
  else if decide (marker = as_bytes "OTA_URL") then escaped (pre_ota_url prefill)
  else if decide (marker = as_bytes "DEV_NAME") then
    escaped (if decide (pre_dev_name prefill = ""%string) then render_device_name config else pre_dev_name prefill)
  else if decide (marker = as_bytes "FW_VER") then escaped (firmware_version config)
  else if decide (marker = as_bytes "ERRORS") then
    match error_text with Some err => write_bytes cap err out | None => Ok out end
  else write_bytes cap (OPEN ++ marker ++ CLOSE) out.

(** The walk over the template: each step takes at least one byte of it. *)
Fixpoint render_walk (fuel : nat) (template out : bytes) : result unit bytes :=
  match fuel with
  | O => Err tt
  | S fuel =>
      match template with
      | [] => Ok out
      | b :: rest =>
          let plain := if (cap <=? length out)%nat then Err tt else render_walk fuel rest (out ++ [b]) in
          if starts_with OPEN template then
            let body := drop 2 template in
            match find_sub CLOSE body with
            | Some stop => out ← write_marker (take stop body) out; render_walk fuel (drop (stop + 2) body) out
            | None => plain
            end
          else plain
      end
  end.

End render.

(** What the reads of a connection return: bytes, none of them when the peer has closed, or an
    error.  A read takes at most the room it is given. *)
Abbreviation reads := (list (option bytes)).

Section portal.
  Context {S E : Type} {PS : PortalStore S E}.
  Context (WIFI_MQTT_PORTAL_HTML : bytes) (error_display : ValidationError → bytes).

(** [start] refuses the other profile, whose arm is [unreachable!()]. *)
Definition template_for (p : SchemaProfile) : bytes :=
  match p with WifiMqttDevice => WIFI_MQTT_PORTAL_HTML | LorawanFieldDevice => [] end.

Definition render_portal_template (config : PortalRenderConfig) (nonce : bytes) (prefill : Prefill)
    (error_text : option bytes) (cap : nat) : result unit bytes :=
  let template := template_for (profile config) in
  render_walk config nonce prefill error_text cap (length template + 1) template [].

Definition HEADER_RESERVE : nat := 200.

(** The page is rendered behind the reserve, and moved to the end of the header. *)
Definition page_response (cap : nat) (status : string) (config : PortalRenderConfig) (nonce : bytes)
    (prefill : Prefill) (error_text : option bytes) : result unit bytes :=
  if (cap <? HEADER_RESERVE)%nat then Err tt
  else
    body ← render_portal_template config nonce prefill error_text (cap - HEADER_RESERVE);
    hdr ← write_bytes HEADER_RESERVE (as_bytes "HTTP/1.1 " ++ as_bytes status ++ CRLF ++
                                      as_bytes "Content-Type: text/html; charset=utf-8" ++ CRLF ++
                                      as_bytes "Content-Length: ") [];
    hdr ← write_u32_decimal HEADER_RESERVE (Z.of_nat (length body)) hdr;
    hdr ← write_bytes HEADER_RESERVE (CRLF ++ CONNECTION_CLOSE ++ NO_STORE ++ CRLF ++ CRLF) hdr;
    if (cap <? length hdr + length body)%nat then Err tt else Ok (hdr ++ body).

(** ** Handlers

    [Err tt] is a response that does not fit the buffer. *)

Local Abbreviation H := (M (Portal S E) unit).

Definition respond (r : result unit bytes) : H bytes := of_result r.

Definition with_p_state (st : ProvisioningState) (p : Portal S E) : Portal S E :=
  mkPortal st (p_store p) (signalled p) (events p) (saves p).

Definition get_portal : H (Portal S E) := λ p, (Ok p, p).

(** [transition] on the state cell: a refused input leaves it alone. *)
Definition transition (input : ProvisioningInput) : H (result InvalidTransition ProvisioningState) :=
  λ p, match state_apply (p_state p) input with
       | Ok next => (Ok (Ok next), with_p_state next p)
       | Err t => (Ok (Err t), p)
       end.

Definition signal (o : ProvisioningOutcome) : H unit :=
  λ p, (Ok tt, mkPortal (p_state p) (p_store p) (signalled p ++ [o]) (events p) (saves p)).
Definition on_event (e : ProvisioningEvent) : H unit :=
  λ p, (Ok tt, mkPortal (p_state p) (p_store p) (signalled p) (events p ++ [e]) (saves p)).

Definition store_save (c : ProvisioningConfig) : H (result E unit) :=
  λ p, let '(r, s) := portal_save c (p_store p) in
       (Ok r, mkPortal (p_state p) s (signalled p) (events p) (saves p ++ [(c, r)])).
Definition store_load : H (result E (option ProvisioningConfig)) :=
  λ p, let '(r, s) := portal_load (p_store p) in
       (Ok r, mkPortal (p_state p) s (signalled p) (events p) (saves p)).

(** A store that panics (a known fault of the record parser on damaged text, see [ProvRecordProps])
    would stop the task; here that is an error of [portal_load] like any other. *)
Definition load_prefill (config : PortalRenderConfig) : H Prefill :=
  r ← store_load;
  mret (match r with
        | Ok (Some cfg) =>
            if decide (config_profile cfg = profile config) then prefill_from_config cfg
            else prefill_from_defaults (defaults config) (profile config)
        | _ => prefill_from_defaults (defaults config) (profile config)
        end).

Definition errors_html (errors : FieldErrors) : bytes :=
  match errors with
  | [] => []
  | _ =>
      html "<div class='errors'><strong>Please fix:</strong><ul>" ++
      (errors ≫= λ err, as_bytes "<li>" ++ html_escape_to (as_bytes (form_name (fe_field err))) ++ as_bytes ": " ++
                        html_escape_to (error_display (fe_error err)) ++ as_bytes "</li>") ++
      as_bytes "</ul><p>" ++ RESUBMIT_HINT ++ as_bytes "</p></div>"
  end.

Definition BANNER : bytes :=
  html "<div class='errors'>Could not save credentials to flash. Please try again.<p>" ++ RESUBMIT_HINT ++
  as_bytes "</p></div>".

Definition conflict (cap : nat) : H bytes := respond (build_response cap 409 TEXT_PLAIN SESSION_FINISHED_BODY).

Definition forbidden (cap : nat) : H bytes :=
  respond (build_response cap 403 TEXT_PLAIN (as_bytes "Forbidden: session token mismatch.")).

Definition get_factory_reset (nonce : bytes) (cap : nat) : H bytes :=
  let body := FACTORY_RESET_CONFIRM_HTML_PART1 ++ nonce ++ FACTORY_RESET_CONFIRM_HTML_PART2 in
  if (1024 <? length body)%nat then throw tt else respond (build_response cap 200 TEXT_HTML body).

Definition get_root (config : PortalRenderConfig) (nonce : bytes) (cap : nat) : H bytes :=
  prefill ← load_prefill config;
  if (cap <=? 160)%nat then throw tt else respond (page_response cap "200 OK" config nonce prefill None).

(** An accepted form: the gate, the flash write, the commit. *)
Definition save_config (c : ProvisioningConfig) (config : PortalRenderConfig) (nonce : bytes) (cap : nat) : H bytes :=
  gate ← transition ValidSubmission;
  match gate with
  | Err _ => conflict cap
  | Ok _ =>
      _ ← on_event PE_SubmissionAccepted;
      saved ← store_save c;
      match saved with
      | Err _ =>
          _ ← transition PersistFailed;
          prefill ← load_prefill config;
          respond (page_response cap "500 Internal Server Error" config nonce prefill (Some BANNER))
      | Ok _ =>
          commit ← transition PersistOk;
          match commit with
          | Err _ => conflict cap
          | Ok _ =>
              _ ← signal (PO_Committed c);
              _ ← on_event PE_Committed;
              respond (build_response cap 200 TEXT_HTML COMMITTED_HTML)
          end
      end
  end.

Definition post_save (config : PortalRenderConfig) (nonce body : bytes) (cap : nat) : H bytes :=
  if negb (nonce_matches body nonce) then forbidden cap
  else
    match from_utf8 body with
    | None => respond (build_response cap 400 TEXT_PLAIN (as_bytes "Bad Request: invalid UTF-8 in body."))
    | Some body_str =>
        match parse_form body_str (profile config) with
        | Err errors =>
            _ ← transition InvalidSubmission;
            _ ← on_event PE_SubmissionRejected;
            let block := errors_html errors in
            prefill ← load_prefill config;
            respond (page_response cap "400 Bad Request" config nonce prefill
                       (if decide (block = []) then None else Some block))
        | Ok c => save_config c config nonce cap
        end
    end.

Definition post_factory_reset (nonce body : bytes) (cap : nat) : H bytes :=
  if negb (nonce_matches body nonce) then forbidden cap
  else
    gate ← transition FactoryReset;
    match gate with
    | Err _ => conflict cap
    | Ok _ =>
        _ ← signal PO_FactoryResetRequested;
        _ ← on_event PE_FactoryResetRequested;
        respond (build_response cap 200 TEXT_HTML FACTORY_RESET_HTML)
    end.

(** [target_str]. *)
Definition target_str (req : ParsedRequest) : bytes := if utf8_valid (target req) then target req else [].

(** The text of the address of the access point, from its octets; at most 15 of the 16 bytes. *)
Definition ap_ip_text (a b c d : Z) : bytes :=
  as_bytes (show_uint a +:+ "." +:+ show_uint b +:+ "." +:+ show_uint c +:+ "." +:+ show_uint d).

Definition redirect_location (ap_ip : bytes) : bytes :=
  as_bytes (push_str 32 "/" (push_str 32 (of_bytes ap_ip) (push_str 32 "http://" ""))).

Definition dispatch_request (req : ParsedRequest) (body nonce : bytes) (config : PortalRenderConfig) (ap_ip : bytes)
    (cap : nat) : H bytes :=
  let target := target_str req in
  match method req with
  | Get =>
      if decide (target ∈ PROBE_PATHS) then respond (build_redirect cap (redirect_location ap_ip))
      else if decide (target = as_bytes "/factory-reset") then get_factory_reset nonce cap
      else get_root config nonce cap
  | Post =>
      if decide (target = as_bytes "/save") then post_save config nonce body cap
      else if decide (target = as_bytes "/factory-reset") then post_factory_reset nonce body cap
      else respond (build_response cap 404 TEXT_PLAIN (as_bytes "Not Found"))
  end.

(** ** The HTTP task *)

Definition sock_read (room : nat) (conn : reads) : option bytes * reads :=
  match conn with
  | [] => (Some [], [])
  | Some chunk :: conn =>
      if (length chunk <=? room)%nat then (Some chunk, conn) else (Some (take room chunk), Some (drop room chunk) :: conn)
  | None :: conn => (None, conn)
  end.

(** Each turn adds a byte, or ends. *)
Fixpoint read_request (fuel : nat) (size_cap : nat) (filled : bytes) (conn : reads) : result ParseError bytes * reads :=
  match fuel with
  | O => (Err RequestTooLarge, conn)
  | Datatypes.S fuel =>
      if (size_cap <=? length filled)%nat then (Err RequestTooLarge, conn)
      else
        match sock_read (size_cap - length filled) conn with
        | (None, conn) | (Some [], conn) => (Err IncompleteRequest, conn)
        | (Some chunk, conn) =>
            let filled := filled ++ chunk in
            if bool_decide (is_Some (find_sub HEADER_END filled)) then (Ok filled, conn)
            else read_request fuel size_cap filled conn
        end
  end.

Fixpoint read_body (fuel : nat) (need : nat) (filled : bytes) (conn : reads) : bytes * reads :=
  match fuel with
  | O => (filled, conn)
  | Datatypes.S fuel =>
      if (need <=? length filled)%nat then (filled, conn)
      else
        match sock_read (need - length filled) conn with
        | (None, conn) | (Some [], conn) => (filled, conn)
        | (Some chunk, conn) => read_body fuel need (filled ++ chunk) conn
        end
  end.

(** The body handed to the router. *)
Definition request_body (req : ParsedRequest) (filled : bytes) (conn : reads) : bytes :=
  let cap := DEFAULT_REQUEST_SIZE_CAP in
  let hdr_end := match find_sub HEADER_END filled with Some p => (p + 4)%nat | None => length filled end in
  let total :=
    match method req, content_length (headers req) with
    | Post, Some cl => fst (read_body cap (body_read_target hdr_end (Z.to_nat cl) cap) filled conn)
    | _, _ => filled
    end in
  drop hdr_end total.

(** One connection: the response, and the portal after it. *)
Definition handle_connection (nonce : bytes) (config : PortalRenderConfig) (ap_ip : bytes) (conn : reads) (p : Portal S E) :
    bytes * Portal S E :=
  let cap := DEFAULT_TX_BUF in
  match read_request (DEFAULT_REQUEST_SIZE_CAP + 1) DEFAULT_REQUEST_SIZE_CAP [] conn with
  | (Err e, _) => (error_response cap e, p)
  | (Ok filled, conn) =>
      match parse_request filled DEFAULT_REQUEST_SIZE_CAP with
      | Err e => (error_response cap e, p)
      | Ok req =>
          match dispatch_request req (request_body req filled conn) nonce config ap_ip cap p with
          | (Ok response, p) => (response, p)
          | (Err _, p) => (MINIMAL_500, p)
          end
      end
  end.

(** [run_portal_dyn]: connection after connection. *)
Fixpoint run_portal (nonce : bytes) (config : PortalRenderConfig) (ap_ip : bytes) (conns : list reads) (p : Portal S E) :
    list bytes * Portal S E :=
  match conns with
  | [] => ([], p)
  | conn :: conns =>
      let '(response, p) := handle_connection nonce config ap_ip conn p in
      let '(responses, p) := run_portal nonce config ap_ip conns p in
      (response :: responses, p)
  end.

Definition portal_init (s : S) : Portal S E := mkPortal AwaitingSubmission s [] [] [].

End portal.
