(* ===== verification/PortalProps.v ===== *)
(** * PortalProps: one terminal event per session, complete bodies, framed responses; and the
    portal on the two-sector flash store *)
From S2P Require Import Prelude Text ProvConfig ProvRecord ProvRecordProps ProvStore ProvStoreProps ProvForm ProvFormProps ProvFlow ProvSession Http Portal.
Open Scope Z_scope.

(** ** Responses *)

Lemma write_bytes_ok cap src out r : write_bytes cap src out = Ok r → r = out ++ src ∧ (length r ≤ cap)%nat.
Proof.
  unfold write_bytes. destruct (Nat.ltb_spec cap (length out + length src)); intros; simplify_eq.
  split; [done|]. rewrite length_app. lia.
Qed.

Lemma write_bind cap src out (f : bytes → result unit bytes) r :
  (x ← write_bytes cap src out; f x) = Ok r → f (out ++ src) = Ok r.
Proof.
  unfold mbind, result_bind. destruct (write_bytes cap src out) as [x|] eqn:E; [|done].
  apply write_bytes_ok in E as [-> _]. done.
Qed.

(** A line of a header: not empty, and free of line ends. *)
Definition line_byte (b : Z) : bool := negb (b =? 13) && negb (b =? 10).
Definition header_line (l : bytes) : Prop := l ≠ [] ∧ forallb line_byte l = true.
Definition content_length_line (n : nat) : bytes := as_bytes "Content-Length: " ++ as_bytes (show_uint (Z.of_nat n)).

(** A response: a status line and fields, each on a line of its own; the blank line, which is therefore
    the first one and the end of the header; and the body.  One field states the length of the body,
    none other speaks of it, and one forbids caching. *)
Definition framed (r : bytes) : Prop :=
  ∃ status fields body,
    r = concat (map (λ l, l ++ CRLF) (status :: fields)) ++ CRLF ++ body ∧
    starts_with (as_bytes "HTTP/1.1 ") status = true ∧ Forall header_line (status :: fields) ∧
    List.filter (starts_with (as_bytes "Content-Length:")) fields = [content_length_line (length body)] ∧ NO_STORE ∈ fields.

Definition sendable (r : result unit bytes) : Prop :=
  match r with Ok r => framed r ∧ (length r ≤ DEFAULT_TX_BUF)%nat | Err _ => True end.

Ltac unwrite H := repeat (apply write_bind in H; cbv beta in H).

Lemma line_bytes_app a b : forallb line_byte (a ++ b) = forallb line_byte a && forallb line_byte b.
Proof. apply forallb_app. Qed.

Lemma digits_line s : str_forall is_digit s = true → forallb line_byte (as_bytes s) = true.
Proof.
  induction s as [|x s IH]; [done|]. cbn [str_forall]. intros [Hx Hs]%andb_true_iff.
  change (forallb line_byte (byte_of x :: as_bytes s) = true). cbn [forallb]. rewrite IH by done. rewrite andb_true_r.
  unfold is_digit in Hx. apply andb_true_iff in Hx as [H1%Z.leb_le H2%Z.leb_le]. unfold line_byte.
  destruct (Z.eqb_spec (byte_of x) 13), (Z.eqb_spec (byte_of x) 10); done || lia.
Qed.

Lemma number_line n : 0 ≤ n → forallb line_byte (as_bytes (show_uint n)) = true.
Proof. intros Hn. by apply digits_line, show_uint_digits. Qed.

(** Lines of known texts, numbers, and texts known to be free of line ends. *)
Ltac one_line :=
  split; [discriminate|];
  rewrite ?line_bytes_app, ?number_line by lia; repeat match goal with H : forallb line_byte _ = true |- _ => rewrite H end; reflexivity.
Ltac all_lines := unfold content_length_line; repeat (apply Forall_cons; split; [one_line|]); by apply Forall_nil.

Lemma reason_line status : forallb line_byte (as_bytes (reason_phrase status)) = true.
Proof. unfold reason_phrase. repeat case_match; reflexivity. Qed.

Lemma build_response_sendable status ct body :
  0 ≤ status → forallb line_byte (as_bytes ct) = true → sendable (build_response DEFAULT_TX_BUF status ct body).
Proof.
  intros Hst Hct. destruct (build_response _ _ _ _) as [r|] eqn:H; [|done]. unfold build_response, write_u32_decimal in H. unwrite H.
  apply write_bytes_ok in H as [-> Hl]. split; [|exact Hl]. pose proof (reason_line status) as Hre.
  exists (as_bytes "HTTP/1.1 " ++ as_bytes (show_uint status) ++ as_bytes " " ++ as_bytes (reason_phrase status)),
    [as_bytes "Content-Type: " ++ as_bytes ct; content_length_line (length body); as_bytes "Connection: close"; NO_STORE], body.
  split_and!; [|done| |done|by repeat constructor].
  - unfold content_length_line, CONNECTION_CLOSE. cbn [map concat]. rewrite app_nil_l, app_nil_r, <- !app_assoc. done.
  - all_lines.
Qed.

Lemma build_redirect_sendable location :
  forallb line_byte location = true → sendable (build_redirect DEFAULT_TX_BUF location).
Proof.
  intros Hloc. destruct (build_redirect _ _) as [r|] eqn:H; [|done]. unfold build_redirect in H. unwrite H.
  apply write_bytes_ok in H as [-> Hl]. split; [|exact Hl].
  exists (as_bytes "HTTP/1.1 302 Found"),
    [as_bytes "Location: " ++ location; content_length_line 0; as_bytes "Connection: close"; NO_STORE], [].
  split_and!; [|done| |done|by repeat constructor].
  - unfold CONNECTION_CLOSE. change (content_length_line 0) with (as_bytes "Content-Length: 0"). cbn [map concat].
    rewrite app_nil_l, !app_nil_r, <- !app_assoc. done.
  - all_lines.
Qed.

Lemma page_sendable tmpl status config nonce pre err :
  forallb line_byte (as_bytes status) = true →
  sendable (page_response tmpl DEFAULT_TX_BUF status config nonce pre err).
Proof.
  intros Hst. unfold page_response. destruct (_ <? _)%nat; [done|].
  destruct (render_portal_template _ _ _ _ _ _) as [body|]; [|done]. unfold mbind at 1, result_bind at 1.
  destruct (_ ≫= _) as [r|] eqn:H; [|done]. unfold write_u32_decimal in H. unwrite H.
  destruct (_ <? _)%nat eqn:Hl in H; [done|].
  match type of H with Ok ?x = _ => assert (x = r) as <- by congruence end. split.
  - exists (as_bytes "HTTP/1.1 " ++ as_bytes status),
      [as_bytes "Content-Type: text/html; charset=utf-8"; content_length_line (length body); as_bytes "Connection: close"; NO_STORE], body.
    split_and!; [|done| |done|by repeat constructor].
    + unfold content_length_line, CONNECTION_CLOSE. cbn [map concat]. rewrite app_nil_l, app_nil_r, <- !app_assoc. done.
    + all_lines.
  - apply Nat.ltb_ge in Hl. rewrite length_app. exact Hl.
Qed.

Lemma minimal_500_framed : framed MINIMAL_500 ∧ (length MINIMAL_500 ≤ DEFAULT_TX_BUF)%nat.
Proof.
  split; [|apply Nat.leb_le; vm_compute; reflexivity].
  exists (as_bytes "HTTP/1.1 500 Internal Server Error"), [content_length_line 0; as_bytes "Connection: close"; NO_STORE], [].
  split_and!; [done|done| |done|by repeat constructor]. all_lines.
Qed.

Lemma error_response_framed e :
  framed (error_response DEFAULT_TX_BUF e) ∧ (length (error_response DEFAULT_TX_BUF e) ≤ DEFAULT_TX_BUF)%nat.
Proof.
  unfold error_response. destruct (error_status e) as [status body] eqn:Ee.
  pose proof (build_response_sendable status TEXT_PLAIN (as_bytes body) ltac:(by destruct e; injection Ee as <- <-) eq_refl) as Hs.
  destruct (build_response _ _ _ _) as [r|] eqn:H; [exact Hs|]. exfalso.
  destruct e; injection Ee as <- <-; vm_compute in H; discriminate.
Qed.

(** The address is digits and dots, so the location is one line. *)
Lemma push_str_line cap src out :
  forallb line_byte (as_bytes src) = true → forallb line_byte (as_bytes out) = true →
  forallb line_byte (as_bytes (push_str cap src out)) = true.
Proof. intros Hs Ho. unfold push_str. destruct (_ <=? _); [|done]. by rewrite as_bytes_app, line_bytes_app, Hs, Ho. Qed.

Lemma location_line a b c d :
  0 ≤ a → 0 ≤ b → 0 ≤ c → 0 ≤ d → forallb line_byte (redirect_location (ap_ip_text a b c d)) = true.
Proof.
  intros Ha Hb Hc Hd. unfold redirect_location, ap_ip_text. rewrite of_bytes_as_bytes.
  apply push_str_line; [done|]. apply push_str_line; [|by apply push_str_line].
  rewrite !as_bytes_app, !line_bytes_app, !number_line by done. reflexivity.
Qed.

(** ** Segments *)

Lemma starts_with_spec p l : starts_with p l = true ↔ take (length p) l = p.
Proof.
  revert l. induction p as [|a p IH]; intros l; cbn; [done|].
  destruct l as [|b l]; [done|]. rewrite andb_true_iff, Z.eqb_eq, IH. split.
  - intros [-> H]. change (b :: take (length p) l = b :: p). congruence.
  - intros H. change (b :: take (length p) l = a :: p) in H. by injection H.
Qed.

Lemma starts_with_length p l : starts_with p l = true → (length p ≤ length l)%nat.
Proof. intros H%starts_with_spec. apply (f_equal length) in H. rewrite length_take in H. lia. Qed.

Lemma find_sub_spec p l i :
  find_sub p l = Some i ↔ starts_with p (drop i l) = true ∧ ∀ j, (j < i)%nat → starts_with p (drop j l) = false.
Proof.
  revert i. induction l as [|x l IH]; intros i; cbn [find_sub].
  - destruct (starts_with p []) eqn:E.
    + split; [intros [= <-]; split; [done | lia]|]. intros [_ Hj]. destruct i; [done|].
      specialize (Hj 0%nat ltac:(lia)). rewrite drop_0 in Hj. congruence.
    + split; [done|]. intros [H _]. by rewrite drop_nil, E in H.
  - destruct (starts_with p (x :: l)) eqn:E.
    + split; [intros [= <-]; split; [done | lia]|]. intros [_ Hj]. destruct i; [done|].
      specialize (Hj 0%nat ltac:(lia)). rewrite drop_0 in Hj. congruence.
    + rewrite fmap_Some. split.
      * intros (j & Hj & ->). apply IH in Hj as [H1 H2]. split; [done|]. intros [|j'] Hlt; [done|]. apply H2. lia.
      * intros [H1 H2]. destruct i as [|i]; [rewrite drop_0 in H1; congruence|]. exists i. split; [|done]. apply IH. split; [done|].
        intros j Hj. apply (H2 (S j)). lia.
Qed.

Lemma find_sub_length p l i : find_sub p l = Some i → (i + length p ≤ length l ∨ p = [])%nat.
Proof.
  intros [H _]%find_sub_spec. apply starts_with_length in H. rewrite length_drop in H. destruct p; [by right|]. cbn in *. lia.
Qed.

Lemma starts_with_app p l k : (length p ≤ length l)%nat → starts_with p (l ++ k) = starts_with p l.
Proof.
  intros Hl. apply eq_true_iff_eq. rewrite !starts_with_spec. by rewrite take_app_le.
Qed.

(** The first occurrence stays the first when bytes are added. *)
Lemma find_sub_app p l k i : p ≠ [] → find_sub p l = Some i → find_sub p (l ++ k) = Some i.
Proof.
  intros Hp H. destruct (find_sub_length _ _ _ H) as [Hl|]; [|done]. apply find_sub_spec in H as [H1 H2]. apply find_sub_spec.
  rewrite drop_app_le by lia. split; [rewrite starts_with_app; [done|rewrite length_drop; lia]|].
  intros j Hj. rewrite drop_app_le by lia. rewrite starts_with_app; [by apply H2 | rewrite length_drop; lia].
Qed.

(** What the request is depends only on its header. *)
Lemma parse_request_app l k cap h :
  find_sub HEADER_END l = Some h → parse_request (l ++ k) cap = parse_request l cap.
Proof.
  intros H. unfold parse_request. rewrite (find_sub_app _ _ k h) by done. rewrite H.
  destruct (find_sub_length _ _ _ H) as [Hl|]; [|done]. cbn in Hl. by rewrite take_app_le by lia.
Qed.

Section portal.
  Context {S E : Type} {PS : PortalStore S E}.
  Context (WIFI_MQTT_PORTAL_HTML : bytes) (error_display : ValidationError → bytes).
  Context (nonce : bytes) (config : PortalRenderConfig) (ap_ip : bytes).

Abbreviation portal := (Portal S E).
Abbreviation handle := (handle_connection WIFI_MQTT_PORTAL_HTML error_display nonce config ap_ip).

(** ** Sessions *)

(** A configuration comes from a form with the nonce of this session. *)
Definition from_form (c : ProvisioningConfig) : Prop :=
  ∃ body text, nonce_matches body nonce = true ∧ from_utf8 body = Some text ∧ parse_form text (profile config) = Ok c.

Definition save_failed (x : ProvisioningConfig * result E unit) : Prop := is_err x.2 = true.

(** Between two connections: what was signalled and saved is what the state says. *)
Record session_ok (p : portal) : Prop := {
  so_forms : Forall (λ x, from_form x.1) (saves p);
  so_state : match p_state p with
             | AwaitingSubmission => signalled p = [] ∧ Forall save_failed (saves p)
             | Persisting => False
             | Committed =>
                 ∃ c earlier, signalled p = [PO_Committed c] ∧ saves p = earlier ++ [(c, Ok tt)] ∧ Forall save_failed earlier
             | FactoryResetPending => signalled p = [PO_FactoryResetRequested] ∧ Forall save_failed (saves p)
             end }.

(** What a step may change in a session that has ended: the store's own state and the events. *)
Definition same_session (p p' : portal) : Prop :=
  p_state p' = p_state p ∧ signalled p' = signalled p ∧ saves p' = saves p.

Lemma same_session_ok p p' : same_session p p' → session_ok p → session_ok p'.
Proof. intros (Hs & Hg & Hv) [H1 H2]. constructor; rewrite ?Hs, ?Hg, ?Hv; done. Qed.

(** Handlers that keep the session. *)
Definition keeps {A} (m : M portal unit A) : Prop := ∀ p, same_session p (m p).2.

Lemma keeps_session_bind {A B} (m : M portal unit A) (f : A → M portal unit B) : keeps m → (∀ a, keeps (f a)) → keeps (m ≫= f).
Proof.
  intros Hm Hf p. rewrite M_bind_eq. specialize (Hm p). destruct (m p) as [[a|e] p']; cbn in *; [|done].
  specialize (Hf a p'). destruct Hm as (? & ? & ?), Hf as (? & ? & ?). repeat split; congruence.
Qed.

Lemma keeps_respond r : keeps (respond r).
Proof. by intros p. Qed.

Lemma keeps_prefill : keeps (load_prefill config).
Proof.
  apply keeps_session_bind; [|intros; by intros p]. intros p. unfold store_load. by destruct (portal_load (p_store p)).
Qed.

Lemma keeps_page cap status err :
  keeps (prefill ← load_prefill config; respond (page_response WIFI_MQTT_PORTAL_HTML cap status config nonce prefill err)).
Proof. apply keeps_session_bind; [apply keeps_prefill | intros; apply keeps_respond]. Qed.

Lemma save_config_ok c cap p :
  from_form c → session_ok p →
  session_ok (save_config WIFI_MQTT_PORTAL_HTML c config nonce cap p).2.
Proof.
  intros Hc [Hf Hs]. unfold save_config. rewrite M_bind_eq. unfold transition.
  destruct (p_state p) eqn:Est; cbn; try (by constructor; rewrite ?Est).
  destruct Hs as [Hg Hfail]. cbn. unfold mbind, M_bind. cbn.
  unfold store_save. cbn. destruct (portal_save c (p_store p)) as [[[]|e] s]; cbn.
  - constructor; cbn.
    + apply Forall_app. split; [done|]. by repeat constructor.
    + exists c, (saves p). by rewrite Hg.
  - eapply same_session_ok; [apply (keeps_page cap "500 Internal Server Error" (Some BANNER))|].
    constructor; cbn.
    + apply Forall_app. split; [done|]. by repeat constructor.
    + split; [done|]. apply Forall_app. split; [done|]. by repeat constructor.
Qed.

Lemma post_save_ok body cap p :
  session_ok p → session_ok (post_save WIFI_MQTT_PORTAL_HTML error_display config nonce body cap p).2.
Proof.
  intros Hp. unfold post_save. destruct (nonce_matches body nonce) eqn:Hn; cbn [negb]; [|done].
  destruct (from_utf8 body) as [text|] eqn:Hu; [|done]. destruct (parse_form text (profile config)) as [c|errors] eqn:Hf.
  - apply save_config_ok; [by exists body, text | done].
  - rewrite M_bind_eq. unfold transition. destruct (state_apply (p_state p) InvalidSubmission) as [next|t] eqn:Ha; cbn.
    + assert (next = p_state p) as -> by (destruct (p_state p); by simplify_eq/=). unfold mbind at 1, M_bind at 1. cbn.
      eapply same_session_ok; [apply keeps_page|]. by eapply same_session_ok; [|exact Hp].
    + unfold mbind at 1, M_bind at 1. cbn. eapply same_session_ok; [apply keeps_page|]. by eapply same_session_ok; [|exact Hp].
Qed.

Lemma post_factory_reset_ok body cap p : session_ok p → session_ok (post_factory_reset nonce body cap p).2.
Proof.
  intros Hp. unfold post_factory_reset. destruct (nonce_matches body nonce); cbn [negb]; [|done].
  rewrite M_bind_eq. unfold transition. destruct Hp as [Hf Hs].
  destruct (p_state p) eqn:Est; cbn; try (by constructor; rewrite ?Est).
  destruct Hs as [Hg Hfail]. unfold mbind, M_bind, signal. cbn. rewrite Hg. by constructor.
Qed.

Lemma dispatch_ok req body cap p :
  session_ok p → session_ok (dispatch_request WIFI_MQTT_PORTAL_HTML error_display req body nonce config ap_ip cap p).2.
Proof.
  intros Hp. unfold dispatch_request. destruct (method req); repeat case_decide.
  - done.
  - unfold get_factory_reset. by destruct (_ <? _)%nat.
  - eapply same_session_ok; [|exact Hp]. apply keeps_session_bind; [apply keeps_prefill|]. intros pre.
    destruct (_ <=? _)%nat; [by intros p'|apply keeps_respond].
  - by apply post_save_ok.
  - by apply post_factory_reset_ok.
  - done.
Qed.

Lemma handle_ok conn p : session_ok p → session_ok (handle conn p).2.
Proof.
  intros Hp. unfold handle_connection. destruct (read_request _ _ _ _) as [[filled|e] conn']; [|done].
  destruct (parse_request _ _) as [req|e]; [|done].
  pose proof (dispatch_ok req (request_body req filled conn') DEFAULT_TX_BUF p Hp) as Hd.
  by destruct (dispatch_request _ _ _ _ _ _ _ _ _) as [[r|[]] p'].
Qed.

(** Handlers whose responses are framed. *)
Definition answers (m : M portal unit bytes) : Prop := ∀ p, sendable (m p).1.

Lemma answers_bind {A} (m : M portal unit A) (f : A → M portal unit bytes) : (∀ a, answers (f a)) → answers (m ≫= f).
Proof. intros Hf p. rewrite M_bind_eq. destruct (m p) as [[a|e] p']; [apply Hf | done]. Qed.

Lemma answers_page status err :
  forallb line_byte (as_bytes status) = true →
  answers (prefill ← load_prefill config;
           respond (page_response WIFI_MQTT_PORTAL_HTML DEFAULT_TX_BUF status config nonce prefill err)).
Proof. intros Hst. apply answers_bind. intros pre p. by apply page_sendable. Qed.

#[local] Opaque build_response build_redirect page_response DEFAULT_TX_BUF.

Lemma dispatch_answers req body :
  forallb line_byte (redirect_location ap_ip) = true →
  answers (dispatch_request WIFI_MQTT_PORTAL_HTML error_display req body nonce config ap_ip DEFAULT_TX_BUF).
Proof.
  intros Hloc.
  assert (Hb : ∀ st ct b, 0 ≤ st → forallb line_byte (as_bytes ct) = true → answers (respond (build_response DEFAULT_TX_BUF st ct b)))
    by (intros st ct b Hst Hct p; by apply build_response_sendable).
  unfold dispatch_request. destruct (method req); [destruct (decide _); [|destruct (decide _)]|destruct (decide _); [|destruct (decide _)]].
  - intros p. by apply build_redirect_sendable.
  - unfold get_factory_reset. destruct (_ <? _)%nat; [done | by apply Hb].
  - apply answers_bind. intros pre. destruct (_ <=? _)%nat; [done|]. intros p. by apply page_sendable.
  - unfold post_save. destruct (negb _); [by apply Hb|]. destruct (from_utf8 body); [|by apply Hb].
    destruct (parse_form _ _) as [c|errors].
    + apply answers_bind. intros [ok|bad]; [|by apply Hb]. apply answers_bind. intros _. apply answers_bind.
      intros [ok'|err]; apply answers_bind.
      * intros [?|?]; [|by apply Hb]. apply answers_bind. intros _. apply answers_bind. intros _. by apply Hb.
      * intros _. by apply answers_page.
    + apply answers_bind. intros _. apply answers_bind. intros _. by apply answers_page.
  - unfold post_factory_reset. destruct (negb _); [by apply Hb|]. apply answers_bind. intros [ok|bad]; [|by apply Hb].
    apply answers_bind. intros _. apply answers_bind. intros _. by apply Hb.
  - by apply Hb.
Qed.

#[local] Transparent build_response build_redirect page_response DEFAULT_TX_BUF.

(** C29: Every connection is answered, with a response that can be trusted: whatever the client sent and whatever the store answers, the bytes written are one HTTP response. Its header is a status line and fields, one to a line and none of them empty, so that it ends where it is meant to, at its first blank line; the one field that speaks of it states the exact length of the body behind that line, and one field forbids caching (no browser keeps a page or a form with credentials); and the response fits the transmit buffer. The address of the access point, which the redirects quote, is that of four octets. *)
Theorem portal_responses_framed (a b c d : Z) (conn : reads) (p : portal) :
  0 ≤ a ≤ 255 → 0 ≤ b ≤ 255 → 0 ≤ c ≤ 255 → 0 ≤ d ≤ 255 → ap_ip = ap_ip_text a b c d →
  framed (handle conn p).1 ∧ (length (handle conn p).1 ≤ DEFAULT_TX_BUF)%nat.
Proof.
  intros Ha Hb Hc Hd Hip. assert (forallb line_byte (redirect_location ap_ip) = true) as Hloc by (rewrite Hip; apply location_line; lia).
  unfold handle_connection. destruct (read_request _ _ _ _) as [[filled|e] conn']; [|apply error_response_framed].
  destruct (parse_request _ _) as [req|e]; [|apply error_response_framed].
  pose proof (dispatch_answers req (request_body req filled conn') Hloc p) as Hs.
  destruct (dispatch_request _ _ _ _ _ _ _ _ _) as [[r|[]] p']; [exact Hs | exact minimal_500_framed].
Qed.

(** ** Complete bodies *)

Lemma read_request_segments fuel chunks more filled R :
  (length R ≤ DEFAULT_REQUEST_SIZE_CAP)%nat → Forall (λ c, c ≠ []) chunks → filled ++ concat chunks = R →
  is_Some (find_sub HEADER_END R) → find_sub HEADER_END filled = None → (length R - length filled < fuel)%nat →
  ∃ filled' rest, read_request fuel DEFAULT_REQUEST_SIZE_CAP filled ((Some <$> chunks) ++ more) =
                    (Ok filled', (Some <$> rest) ++ more) ∧
    filled' ++ concat rest = R ∧ is_Some (find_sub HEADER_END filled') ∧ Forall (λ c, c ≠ []) rest.
Proof.
  intros HR. revert chunks filled. induction fuel as [|fuel IH]; intros chunks filled Hc He Hs Hn Hf; [lia|].
  destruct chunks as [|c chunks]; cbn in He; [rewrite app_nil_r in He; subst R; by rewrite Hn in Hs; destruct Hs|].
  apply Forall_cons in Hc as [Hc Hcs]. assert (0 < length c)%nat by (destruct c; [done|cbn; lia]).
  assert (length filled + length c + length (concat chunks) = length R)%nat as Hl by (rewrite <- He, !length_app; lia).
  cbn [read_request fmap list_fmap app]. destruct (Nat.leb_spec DEFAULT_REQUEST_SIZE_CAP (length filled)); [lia|].
  cbn [sock_read]. destruct (Nat.leb_spec (length c) (DEFAULT_REQUEST_SIZE_CAP - length filled)); [|lia].
  destruct c as [|x c]; [done|]. case_bool_decide as Hd.
  - exists (filled ++ x :: c), chunks. rewrite <- app_assoc. done.
  - apply IH; [done | by rewrite <- app_assoc | done | by apply eq_None_not_Some | rewrite length_app; lia].
Qed.

Lemma read_body_segments fuel chunks more filled R :
  Forall (λ c, c ≠ []) chunks → filled ++ concat chunks = R → (length R - length filled < fuel)%nat →
  fst (read_body fuel (length R) filled ((Some <$> chunks) ++ more)) = R.
Proof.
  revert chunks filled. induction fuel as [|fuel IH]; intros chunks filled Hc He Hf; [lia|]. cbn [read_body].
  assert (length filled + length (concat chunks) = length R)%nat as Hl by (rewrite <- He, !length_app; lia).
  destruct (Nat.leb_spec (length R) (length filled)).
  { destruct (concat chunks) eqn:Ec; [|cbn in Hl; lia]. cbn. by rewrite <- He, app_nil_r. }
  destruct chunks as [|c chunks]; [cbn in Hl; lia|]. apply Forall_cons in Hc as [Hc Hcs]. cbn in Hl. rewrite length_app in Hl.
  cbn [fmap list_fmap app sock_read]. destruct (Nat.leb_spec (length c) (length R - length filled)); [|lia].
  destruct c as [|x c]; [done|]. apply IH; [done | by rewrite <- app_assoc | rewrite length_app; cbn in *; lia].
Qed.

(** The router's answer to a request, as [handle_connection] sends it. *)
Definition routed (req : ParsedRequest) (body : bytes) (p : portal) : bytes * portal :=
  match dispatch_request WIFI_MQTT_PORTAL_HTML error_display req body nonce config ap_ip DEFAULT_TX_BUF p with
  | (Ok response, p) => (response, p)
  | (Err _, p) => (MINIMAL_500, p)
  end.

(** A submission is judged whole, however TCP cuts it up. For a POST whose Content-Length is the number of bytes after its header and which fits the request buffer, every division into non-empty segments, whatever arrives after it, gives the answer and the effects of the router on exactly this body. *)
Lemma portal_body_complete (request : bytes) (req : ParsedRequest) (h : nat) (chunks : list bytes) (more : reads) (p : portal) :
  find_sub HEADER_END request = Some h → parse_request request DEFAULT_REQUEST_SIZE_CAP = Ok req → method req = Post →
  content_length (headers req) = Some (Z.of_nat (length request - (h + 4))) →
  (length request ≤ DEFAULT_REQUEST_SIZE_CAP)%nat → Forall (λ c, c ≠ []) chunks → concat chunks = request →
  handle ((Some <$> chunks) ++ more) p = routed req (drop (h + 4) request) p.
Proof.
  intros Hh Hreq Hm Hcl HR Hc He. unfold handle_connection, routed.
  destruct (read_request_segments (DEFAULT_REQUEST_SIZE_CAP + 1) chunks more [] request)
    as (filled & rest & -> & Hf & [h' Hh'] & Hrest); try done; [cbn; lia|].
  assert (h' = h) as ->.
  { apply (find_sub_app _ _ (concat rest)) in Hh'; [|done]. rewrite Hf in Hh'. congruence. }
  assert (parse_request filled DEFAULT_REQUEST_SIZE_CAP = Ok req) as -> by (by rewrite <- Hreq, <- Hf, (parse_request_app _ _ _ h)).
  assert (request_body req filled ((Some <$> rest) ++ more) = drop (h + 4) request) as ->; [|done].
  unfold request_body. rewrite Hh', Hm, Hcl, Nat2Z.id. unfold body_read_target.
  destruct (find_sub_length _ _ _ Hh) as [Hl|]; [cbn in Hl|done].
  replace (Nat.min _ _) with (length request) by lia. f_equal. apply read_body_segments; [done..|].
  assert (0 < length filled)%nat; [|lia]. destruct (find_sub_length _ _ _ Hh'); [cbn in *; lia | done].
Qed.

(** A provisioning session has one terminal event, whatever the clients send. After any sequence of connections with any bytes in any segments, read errors and early closes included, and whatever the store answers: the session waits and nothing has been signalled, or exactly one outcome has been signalled; a commit was signalled only for the configuration that the last save wrote, all earlier saves having failed, and after it or after a factory reset nothing is saved or signalled any more. Whatever was offered to the store came from a form that carried this session's token and passed validation. *)
Lemma portal_one_outcome (s : S) (conns : list reads) :
  session_ok (run_portal WIFI_MQTT_PORTAL_HTML error_display nonce config ap_ip conns (portal_init s)).2.
Proof.
  assert (Hp : session_ok (portal_init s)) by (by constructor).
  revert Hp. generalize (portal_init (E := E) s). induction conns as [|conn conns IH]; intros p Hp; [done|].
  cbn [run_portal]. pose proof (handle_ok conn p Hp) as Hh. destruct (handle conn p) as [r p'].
  specialize (IH p' Hh). by destruct (run_portal _ _ _ _ _ conns p').
Qed.

End portal.

(** ** Examples *)

(** A store in memory. *)
#[local] Instance ram_store : PortalStore (option ProvisioningConfig) unit := {
  portal_save c _ := (Ok tt, Some c);
  portal_load s := (Ok s, s) }.

Definition sample_render : PortalRenderConfig :=
  mkRender "1.0.0" "Hub" WifiMqttDevice (mkDefaults "" "" "" "" "" "").

Definition crlf : string := String (Ascii.ascii_of_nat 13) (String (Ascii.ascii_of_nat 10) "").

(** A phone probes for a captive portal: the redirect. *)
Definition sample_probe : string := ("GET /generate_204 HTTP/1.1" +:+ crlf +:+ crlf)%string.

Lemma portal_responses_framed_witness :
  let r := (handle_connection [] (λ _, []) [] sample_render (ap_ip_text 192 168 4 1) [Some (as_bytes sample_probe)] (portal_init (E := unit) None)).1 in
  framed r ∧ take 20 r = as_bytes "HTTP/1.1 302 Found" ++ CRLF.
Proof.
  intros r. split; [|vm_compute; reflexivity].
  exact (proj1 (portal_responses_framed [] (λ _, []) [] sample_render (ap_ip_text 192 168 4 1) 192 168 4 1 [Some (as_bytes sample_probe)]
    (portal_init (E := unit) None) ltac:(lia) ltac:(lia) ltac:(lia) ltac:(lia) eq_refl)).
Defined.

(** The body arrives in two further segments; what follows belongs to nobody. *)
Definition sample_request : string :=
  ("POST /save HTTP/1.1" +:+ crlf +:+ "Content-Length: 5" +:+ crlf +:+ crlf +:+ "hello")%string.

Lemma portal_body_complete_witness :
  handle_connection [] (λ _, []) [] sample_render []
    ((Some <$> [take 30 (as_bytes sample_request); take 13 (drop 30 (as_bytes sample_request)); drop 43 (as_bytes sample_request)]) ++
     [Some [33]; None]) (portal_init (E := unit) None) =
  routed [] (λ _, []) [] sample_render []
    (mkRequest Post (as_bytes "/save") (mkHeaders None (Some 5) None)) (as_bytes "hello") (portal_init None).
Proof.
  apply (portal_body_complete [] (λ _, []) [] sample_render [] (as_bytes sample_request) _ 38).
  all: vm_compute; try reflexivity.
  - apply (bool_decide_unpack _). vm_compute. exact I.
  - repeat (constructor; [discriminate|]). constructor.
Defined.

(** ** the captive portal on the two-sector flash store

    The store of a session is [ProvisioningStore] behind [PortalStore] ([session.rs]). *)

(** [impl PortalStore for CriticalSectionMutex<RefCell<ProvisioningStore<F>>>]. *)
#[export] Instance flash_portal_store {F} `{NorFlash F} : PortalStore (ProvisioningStore F) Stop := {
  portal_save := save;
  portal_load := load }.

Section flow.
  Context {F : Type} {NF : NorFlash F} {NFL : NorFlashLaws F}.
  Context (WIFI_MQTT_PORTAL_HTML : bytes) (error_display : ValidationError → bytes).
  Context (nonce : bytes) (config : PortalRenderConfig) (ap_ip : bytes).
  Context (supported : validate_profile (profile config) = Ok tt).

Abbreviation portal := (Portal (ProvisioningStore F) Stop).
Abbreviation handle := (handle_connection WIFI_MQTT_PORTAL_HTML error_display nonce config ap_ip).

(** What the store remembers: the committed configuration, or what it held at the start. *)
Definition remembered (reg : option ProvisioningConfig) (p : portal) : option ProvisioningConfig :=
  match signalled p with [PO_Committed c] => Some c | _ => reg end.

Definition flows (reg : option ProvisioningConfig) (n : Z) (p : portal) : Prop :=
  session_ok nonce config p ∧ implements (p_store p) (remembered reg p) n.

Lemma flows_up reg n p : flows reg n p → flows reg (n + 1) p.
Proof. intros [Hs Hi]. split; [done|]. by apply implements_up. Qed.

(** A step that keeps the session and the store's content. *)
Definition reads_only {A} (m : M portal unit A) : Prop :=
  ∀ p reg n, implements (p_store p) reg n → same_session p (m p).2 ∧ implements (p_store (m p).2) reg n.

Lemma reads_only_flows {A} (m : M portal unit A) reg n p : reads_only m → flows reg n p → flows reg n (m p).2.
Proof.
  intros Hm [Hs Hi]. destruct (Hm p _ _ Hi) as [Hss Hi']. split; [by eapply same_session_ok|].
  unfold remembered. destruct Hss as (_ & -> & _). exact Hi'.
Qed.

Lemma reads_only_bind {A B} (m : M portal unit A) (f : A → M portal unit B) :
  reads_only m → (∀ a, reads_only (f a)) → reads_only (m ≫= f).
Proof.
  intros Hm Hf p reg n Hi. rewrite M_bind_eq. destruct (Hm p reg n Hi) as [Hs Hi'].
  destruct (m p) as [[a|e] p']; cbn in *; [|done]. destruct (Hf a p' reg n Hi') as [Hs' Hi'']. split; [|done].
  destruct Hs as (? & ? & ?), Hs' as (? & ? & ?). repeat split; congruence.
Qed.

Lemma reads_only_pure {A} (r : result unit A) : reads_only (λ p, (r, p)).
Proof. by intros p reg n Hi. Qed.

Lemma load_reads_only : reads_only store_load.
Proof.
  intros p reg n Hi. unfold store_load. cbn [portal_load flash_portal_store].
  destruct (implements_reads _ _ _ _ _ load_reads Hi) as (a & b & s' & _ & -> & Hi'). done.
Qed.

Lemma prefill_reads_only : reads_only (load_prefill config).
Proof. apply reads_only_bind; [apply load_reads_only | intros; apply reads_only_pure]. Qed.

Lemma page_reads_only cap status err :
  reads_only (prefill ← load_prefill config; respond (page_response WIFI_MQTT_PORTAL_HTML cap status config nonce prefill err)).
Proof. apply reads_only_bind; [apply prefill_reads_only | intros; apply reads_only_pure]. Qed.

(** A form's configuration is stored as it is. *)
Lemma from_form_stored c :
  from_form nonce config c → wf_config c ∧ storable_extras (extras c) ∧ stored_config c = c.
Proof using supported.
  intros (body & text & _ & _ & Hp).
  destruct (parse_form_answers text (profile config)) as [(c' & E & Hd & _)|(_ & L & _ & _ & _ & _ & E)];
    rewrite Hp in E; [injection E as <-|done].
  split; [by eapply described_wf|]. split; [by eapply described_storable|].
  destruct (described_profile _ _ _ Hd) as [_ H]. apply H. by destruct (profile config).
Qed.

Lemma save_config_flows c cap reg n p :
  from_form nonce config c → n < u32_max → flows reg n p →
  flows reg (n + 1) (save_config WIFI_MQTT_PORTAL_HTML c config nonce cap p).2.
Proof using NFL supported.
  intros Hc Hn [Hs Hi]. pose proof (save_config_ok WIFI_MQTT_PORTAL_HTML nonce config c cap p Hc Hs) as Hok.
  split; [exact Hok|]. clear Hok. unfold save_config. rewrite M_bind_eq. unfold transition.
  pose proof (so_state _ _ _ Hs) as Hst. destruct (p_state p) eqn:Est; cbn; try by apply implements_up.
  destruct Hst as [Hg _]. unfold mbind, M_bind. cbn. unfold store_save. cbn.
  unfold remembered in Hi. rewrite Hg in Hi. destruct (from_form_stored c Hc) as (Hwf & Hx & Hsc).
  destruct (save c (p_store p)) as [r s] eqn:E.
  destruct (save_implements _ _ _ _ _ _ Hwf Hn Hi E) as [(_ & -> & Hi')|(Hno & _)]; [|done].
  cbn. unfold remembered. cbn. rewrite Hg. cbn. by rewrite Hsc in Hi'.
Qed.

Lemma post_save_flows body cap reg n p :
  n < u32_max → flows reg n p →
  flows reg (n + 1) (post_save WIFI_MQTT_PORTAL_HTML error_display config nonce body cap p).2.
Proof using NFL supported.
  intros Hn Hp. unfold post_save. destruct (nonce_matches body nonce) eqn:Hnn; cbn [negb]; [|by apply flows_up].
  destruct (from_utf8 body) as [text|] eqn:Hu; [|by apply flows_up].
  destruct (parse_form text (profile config)) as [c|errors] eqn:Hf.
  - apply save_config_flows; [by exists body, text|done|done].
  - apply flows_up. apply reads_only_flows; [|exact Hp].
    apply reads_only_bind; [|intros _; apply reads_only_bind; [by intros ??? Hi|intros _; apply page_reads_only]].
    intros p' reg' n' Hi. unfold transition.
    destruct (state_apply (p_state p') InvalidSubmission) as [next|t] eqn:Ha; cbn; [|done].
    split; [|done]. assert (next = p_state p') as -> by (destruct (p_state p'); by simplify_eq/=). done.
Qed.

Lemma post_factory_reset_flows body cap reg n p :
  flows reg n p → flows reg n (post_factory_reset nonce body cap p).2.
Proof.
  intros [Hs Hi]. split; [by apply post_factory_reset_ok|]. unfold post_factory_reset.
  destruct (nonce_matches body nonce); cbn [negb]; [|done]. rewrite M_bind_eq. unfold transition.
  pose proof (so_state _ _ _ Hs) as Hst. destruct (p_state p) eqn:Est; cbn; try exact Hi.
  destruct Hst as [Hg _]. unfold mbind, M_bind, signal, remembered in *. cbn. by rewrite Hg in *.
Qed.

Lemma dispatch_flows req body cap reg n p :
  n < u32_max → flows reg n p →
  flows reg (n + 1) (dispatch_request WIFI_MQTT_PORTAL_HTML error_display req body nonce config ap_ip cap p).2.
Proof using NFL supported.
  intros Hn Hp. unfold dispatch_request. destruct (method req); repeat case_decide.
  - by apply flows_up.
  - apply flows_up. unfold get_factory_reset. by destruct (_ <? _)%nat.
  - apply flows_up, reads_only_flows; [|done]. apply reads_only_bind; [apply prefill_reads_only|]. intros pre.
    destruct (_ <=? _)%nat; apply reads_only_pure.
  - by apply post_save_flows.
  - by apply flows_up, post_factory_reset_flows.
  - by apply flows_up.
Qed.

Lemma handle_flows conn reg n p : n < u32_max → flows reg n p → flows reg (n + 1) (handle conn p).2.
Proof using NFL supported.
  intros Hn Hp. unfold handle_connection. destruct (read_request _ _ _ _) as [[filled|e] conn']; [|by apply flows_up].
  destruct (parse_request _ _) as [req|e]; [|by apply flows_up].
  pose proof (dispatch_flows req (request_body req filled conn') DEFAULT_TX_BUF reg n p Hn Hp) as Hd.
  by destruct (dispatch_request _ _ _ _ _ _ _ _ _) as [[r|[]] p'].
Qed.

Lemma run_flows conns reg n p :
  flows reg n p → n + Z.of_nat (length conns) ≤ u32_max →
  flows reg (n + Z.of_nat (length conns)) (run_portal WIFI_MQTT_PORTAL_HTML error_display nonce config ap_ip conns p).2.
Proof using NFL supported.
  revert n p. induction conns as [|conn conns IH]; intros n p Hp Hn; cbn [run_portal length] in *; [by rewrite Z.add_0_r|].
  pose proof (handle_flows conn reg n p ltac:(lia) Hp) as Hh. destruct (handle conn p) as [r p'].
  specialize (IH (n + 1) p' Hh ltac:(lia)). destruct (run_portal _ _ _ _ _ conns p') as [rs p''].
  by replace (n + Z.of_nat (S (length conns))) with (n + 1 + Z.of_nat (length conns)) by lia.
Qed.

(** C28: A commit is on flash. On a device without faults, after any sequence of connections, the next load returns exactly the configuration whose commit the session signalled; when none was signalled it returns what the store held before the session, whatever the clients sent. The sequence numbers must not reach the end of 32 bits, a connection using one at most. *)
Theorem portal_commit_on_flash (s : ProvisioningStore F) reg n (conns : list reads) :
  implements s reg n → n + Z.of_nat (length conns) < u32_max →
  let p := (run_portal WIFI_MQTT_PORTAL_HTML error_display nonce config ap_ip conns (portal_init s)).2 in
  replies store_step [DoLoad] (p_store p) =
  [Ok (Held (match signalled p with [PO_Committed c] => Some c | _ => reg end))].
Proof using NFL supported.
  intros Hi Hn p. assert (flows reg n (portal_init s)) as H0 by (split; [by constructor | done]).
  destruct (run_flows conns reg n _ H0 ltac:(lia)) as [_ Hp]. fold p in Hp.
  destruct (store_step_implements DoLoad (p_store p) _ _ I Hn Hp) as (s' & E & _).
  cbn [replies]. rewrite E. done.
Qed.

End flow.

(** ** Examples *)

Definition sample_nonce : bytes := as_bytes "0badcafe".

Definition post (path body : string) (length : string) : bytes :=
  as_bytes ("POST " +:+ path +:+ " HTTP/1.1" +:+ crlf +:+ "Content-Length: " +:+ length +:+ crlf +:+ crlf +:+ body)%string.

Definition submission : string := ("_nonce=0badcafe&" +:+ good_body)%string.

Definition submitted : bytes := post "/save" submission (show_uint (str_len submission)).

(** A wrong token, the submission, and a second one. *)
Definition sample_conns : list reads :=
  [[Some (post "/save" "_nonce=00000000&wifi_ssid=x" "27")]; [Some submitted]; [Some submitted]; [None]].

Lemma portal_commit_on_flash_witness :
  (∃ c, signalled (run_portal [] (λ _, []) sample_nonce sample_render [] sample_conns
                     (portal_init (E := Stop) (blank_store []))).2 = [PO_Committed c] ∧ wifi_ssid c = "attic net"%string) ∧
  let p := (run_portal [] (λ _, []) sample_nonce sample_render [] sample_conns (portal_init (E := Stop) (blank_store []))).2 in
  replies store_step [DoLoad] (p_store p) = [Ok (Held (match signalled p with [PO_Committed c] => Some c | _ => None end))].
Proof.
  split; [eexists; split; vm_compute; reflexivity|].
  apply (portal_commit_on_flash [] (λ _, []) sample_nonce sample_render [] eq_refl (blank_store []) None 0 sample_conns).
  - exact blank_implements.
  - vm_compute. reflexivity.
Defined.

(** ** What is accepted short *)

Definition outcome_of (conns : list reads) : list ProvisioningOutcome :=
  signalled (run_portal [] (λ _, []) sample_nonce sample_render [] conns (portal_init (E := Stop) (blank_store []))).2.

(** The client announces the whole form and leaves after [dev_name=att]. *)
Definition cut_form : string :=
  "_nonce=0badcafe&wifi_ssid=net&wifi_pass=password1&mqtt_uri=mqtt://b:1883&ota_url=&dev_name=att".

(** A form cut off by the end of its connection is saved with the shortened last field. *)
Example closed_early_is_saved :
  ∃ c, outcome_of [[Some (post "/save" cut_form "500")]] = [PO_Committed c] ∧ device_name c = "att"%string.
Proof. eexists. split; vm_compute; reflexivity. Qed.

(** A length of 2^32 is read as no body, where one above 2048 is refused with 413. *)
Example content_length_wraps :
  parse_request (post "/save" "" "4294967296") 2048 =
    Ok (mkRequest Post (as_bytes "/save") (mkHeaders None (Some 0) None)) ∧
  parse_request (post "/save" "" "2049") 2048 = Err RequestTooLarge.
Proof. split; vm_compute; reflexivity. Qed.
