(* ===== verification/Lora.v ===== *)
(** * Lora: the platform-independent LoRa types, credentials, downlink commands and device
    ([lora/mod.rs], [lora/config.rs], [lora/commands.rs], [lora/lorawan.rs] in juggler)

    An array [[u8; n]] is a list of [n] bytes.  [LorawanDevice] is what the source has today:
    its [join], [send] and [process] do not drive the radio yet.  The second half is the SX1262
    driver of the ESP-IDF tier ([lora/sx1262_driver.rs], [lora/mod.rs]), with the chip, the pins
    and the clock as third-party code. *)
From S2P Require Import Prelude Text ProvConfig.
From Stdlib Require Import Ascii.
Open Scope Z_scope.

Abbreviation bytes := (list Z).
Open Scope Z_scope.

(** ** Radio types *)

Definition RX_WINDOW_OFFSET_MS : Z := -500.
Definition RX_WINDOW_DURATION_MS : Z := 3000.

Inductive SpreadingFactor := SF7 | SF8 | SF9 | SF10 | SF11 | SF12.
Inductive Bandwidth := BW125 | BW250 | BW500.
Inductive CodingRate := Cr45 | Cr46 | Cr47 | Cr48.

Record TxConfig := mkTx { tx_freq_hz : Z; tx_sf : SpreadingFactor; tx_bw : Bandwidth; tx_cr : CodingRate; power_dbm : Z }.
Record RxConfig := mkRx { rx_freq_hz : Z; rx_sf : SpreadingFactor; rx_bw : Bandwidth; rx_cr : CodingRate }.
Inductive RxWindow := Rx1 | Rx2.
Record RxQuality := mkQuality { rssi : Z; snr : Z }.

#[export] Instance SpreadingFactor_eq_dec : EqDecision SpreadingFactor.
Proof. solve_decision. Defined.
#[export] Instance Bandwidth_eq_dec : EqDecision Bandwidth.
Proof. solve_decision. Defined.
#[export] Instance CodingRate_eq_dec : EqDecision CodingRate.
Proof. solve_decision. Defined.

(** ** Credentials *)

Inductive Region := EU868 | US915.

Definition OTA_COMMAND_PORT : Z := 10.
Definition TELEMETRY_CONFIG_PORT : Z := 11.

Record LoraConfig := mkLoraConfig {
  region : Region; app_eui : list Z; dev_eui : list Z; app_key : list Z; ota_port : Z }.

Definition LoraConfig_default : LoraConfig := mkLoraConfig EU868 (repeat 0 8) (repeat 0 8) (repeat 0 16) OTA_COMMAND_PORT.

Definition hex_digit (b : Z) : option Z :=
  if (48 <=? b) && (b <=? 57) then Some (b - 48)
  else if (97 <=? b) && (b <=? 102) then Some (b - 97 + 10)
  else if (65 <=? b) && (b <=? 70) then Some (b - 65 + 10)
  else None.

(** The loop over [out.iter_mut().enumerate()]: two digits to a byte. *)
Fixpoint hex_pairs (s : bytes) : option (list Z) :=
  match s with
  | h :: l :: s =>
      hi ← hex_digit h;
      lo ← hex_digit l;
      rest ← hex_pairs s;
      Some (Z.lor (Z.shiftl hi 4 `mod` 256) lo :: rest)
  | _ => Some []
  end.

Definition parse_hex8 (s : string) : option (list Z) :=
  if negb (str_len s =? 16) then None else hex_pairs (as_bytes s).
Definition parse_hex16 (s : string) : option (list Z) :=
  if negb (str_len s =? 32) then None else hex_pairs (as_bytes s).

Definition from_hex_strings (r : Region) (dev_eui_hex app_eui_hex app_key_hex : string) : option LoraConfig :=
  dev ← parse_hex8 dev_eui_hex;
  app ← parse_hex8 app_eui_hex;
  key ← parse_hex16 app_key_hex;
  Some (mkLoraConfig r app dev key OTA_COMMAND_PORT).

Record HeltecV3Pins := mkPins { nss : Z; sck : Z; mosi : Z; miso : Z; rst : Z; busy : Z; dio1 : Z }.
Definition default_pins : HeltecV3Pins := mkPins 8 9 10 11 12 13 14.

(** ** Downlink commands *)

Inductive OtaCommand :=
| OC_CheckUpdate | OC_UpdateAvailable (major minor patch : Z) | OC_ForceUpdate (major minor patch : Z)
| OC_Rollback | OC_ReportVersion.

Definition parse_version (payload : bytes) : option (Z * Z * Z) :=
  match payload with _ :: a :: b :: c :: _ => Some (a, b, c) | _ => None end.

Definition parse_ota_command (payload : bytes) : option OtaCommand :=
  cmd_id ← head payload;
  if cmd_id =? 1 then Some OC_CheckUpdate
  else if cmd_id =? 2 then '(major, minor, patch) ← parse_version payload; Some (OC_UpdateAvailable major minor patch)
  else if cmd_id =? 3 then '(major, minor, patch) ← parse_version payload; Some (OC_ForceUpdate major minor patch)
  else if cmd_id =? 4 then Some OC_Rollback
  else if cmd_id =? 5 then Some OC_ReportVersion
  else None.

Definition encode_version_report (major minor patch : Z) : bytes := [major; minor; patch].

(** ** The device *)

Record LorawanSessionData := mkSessionData {
  dev_addr : list Z; nwk_skey : list Z; app_skey : list Z; fcnt_up : Z; fcnt_down : Z; rx1_dr_offset : Z;
  rx2_datarate : Z; rx1_delay_s : Z; session_region : Z; valid : Z; session_crc32 : Z }.

Definition LorawanSessionData_empty : LorawanSessionData :=
  mkSessionData (repeat 0 4) (repeat 0 16) (repeat 0 16) 0 0 0 0 1 0 0 0.

Inductive LorawanError := LE_Radio | LE_JoinFailed | LE_SessionExpired | LE_FrameCounterExhausted | LE_Protocol.
Inductive LorawanState := LS_Idle | LS_Joining | LS_Joined | LS_JoinFailed.
Inductive LorawanResponse := LR_TimeoutRequest (ms : Z) | LR_JoinSuccess | LR_DownlinkReceived | LR_JoinFailed | LR_NoUpdate.

#[export] Instance LorawanState_eq_dec : EqDecision LorawanState.
Proof. solve_decision. Defined.

Record LorawanDevice (R : Type) := mkDevice { device_radio : R; device_config : LoraConfig; device_state : LorawanState }.
Arguments mkDevice {R}.
Arguments device_radio {R}.
Arguments device_config {R}.
Arguments device_state {R}.

Section device.
  Context {R : Type}.
Abbreviation D := (M (LorawanDevice R) LorawanError).

Definition LorawanDevice_new (radio : R) (config : LoraConfig) : LorawanDevice R := mkDevice radio config LS_Idle.

Definition lorawan_join : D unit := λ d, (Ok tt, mkDevice (device_radio d) (device_config d) LS_Joining).

Definition lorawan_send (port : Z) (data : bytes) (confirmed : bool) : D unit :=
  λ d, (if decide (device_state d = LS_Joined) then Ok tt else Err LE_Protocol, d).

Definition lorawan_process : D LorawanResponse := λ d, (Ok LR_NoUpdate, d).

Definition is_joined (d : LorawanDevice R) : bool := bool_decide (device_state d = LS_Joined).

Definition prepare_sleep (d : LorawanDevice R) : LorawanSessionData * R := (LorawanSessionData_empty, device_radio d).

Definition restore_from_sleep (radio : R) (session : LorawanSessionData) (config : LoraConfig) : LorawanDevice R :=
  mkDevice radio config (if valid session =? 1 then LS_Joined else LS_Idle).

End device.

(** ** the SX1262 driver of the ESP-IDF tier and its adapter to [lorawan-device]
    ([rustyfarian-esp-idf-network/src/lora/sx1262_driver.rs])

    The [sx126x] crate, its chip and the clock are the class [Sx126x]: a command of the crate is
    a constructor of [Command] with what the code passes, and a reply is arbitrary.  Log output
    is left out. *)

(** ** The SPI wrapper *)

(** Buffers to be filled by the device appear as their lengths. *)
Inductive Operation :=
| Op_Read (n : nat) | Op_Write (bs : bytes) | Op_Transfer (n : nat) (bs : bytes) | Op_TransferInPlace (bs : bytes)
| Op_DelayNs (ns : Z).

Definition read_len (op : Operation) : option nat := match op with Op_Read n => Some n | _ => None end.

(** [SpiDevice::transaction]: what was read, per operation. *)
Class SpiDevice (S E : Type) := { spi_transaction : list Operation → M S E (list bytes) }.

Definition max_read_len (operations : list Operation) : nat := foldr Nat.max 0%nat (omap read_len operations).

Definition rewrite_op (zeroes : bytes) (op : Operation) : Operation :=
  match op with Op_Read n => Op_Transfer n (take n zeroes) | op => op end.

Definition full_duplex_transaction {S E} `{SpiDevice S E} (operations : list Operation) : M S E (list bytes) :=
  if negb (existsb (λ op, bool_decide (is_Some (read_len op))) operations) then spi_transaction operations
  else spi_transaction (rewrite_op (repeat 0 (max_read_len operations)) <$> operations).

(** ** The chip *)

Inductive IrqBit := I_TxDone | I_RxDone | I_CrcErr | I_Timeout | I_PreambleDetected | I_SyncwordValid | I_HeaderValid | I_HeaderError.

#[export] Instance IrqBit_eq_dec : EqDecision IrqBit.
Proof. solve_decision. Defined.

Inductive Command :=
| SetStandbyRc | SetPacketTypeLora | SetRfFrequency (rf_freq : Z) | SetDio3AsTcxoCtrl1_8V (delay_ms : Z)
| ClearDeviceErrors | CalibrateAll | CalibrateImage (freq_hz : Z) | SetPaConfigSX1262 (duty hp_max : Z)
| SetTxParams (power : Z) (ramp_us : Z) | SetBufferBaseAddress (tx rx : Z)
| SetModParams (sf : SpreadingFactor) (bw : Bandwidth) (cr : CodingRate) (ldro : bool)
| SetPacketParams (preamble : Z) (var_len : bool) (payload_len : Z) (crc_on : bool) (inverted_iq : bool)
| SetDioIrqParams (record dio1 : list IrqBit) | SetDio2AsRfSwitchCtrl (enable : bool) | SetSyncWord (word : Z)
| ClearIrqStatusAll | WriteBuffer (offset : Z) (bs : bytes) | SetTx (timeout_ms : Z) | SetRx (timeout_ms : Z).

#[export] Instance Command_eq_dec : EqDecision Command.
Proof. solve_decision. Defined.

Record Irq := mkIrq { tx_done : bool; rx_done : bool; irq_timeout : bool; crc_err : bool }.

(** The eight flags, in the order the code reads them. *)
Record DeviceErrors := mkDevErrs {
  rc64k_calib_err : bool; rc13m_calib_err : bool; pll_calib_err : bool; adc_calib_err : bool; img_calib_err : bool;
  xosc_start_err : bool; pll_lock_err : bool; pa_ramp_err : bool }.

(** [chip_status] answers whether [chip_mode()] is [Some]; [None] is a failed transfer.
    [chip_packet_status] answers the RSSI and SNR as integers. *)
Class Sx126x (R : Type) := {
  chip_command : Command → R → bool * R;
  chip_status : R → option bool * R;
  chip_device_errors : R → option DeviceErrors * R;
  chip_irq_status : R → option Irq * R;
  chip_rx_buffer_status : R → option (Z * Z) * R;
  chip_read_buffer : Z → nat → R → option bytes * R;
  chip_packet_status : R → option (Z * Z) * R;
  chip_delay_ms : Z → R → R;
  chip_now_ms : R → Z;
  calc_rf_freq : Z → Z }.
Arguments calc_rf_freq R {_} _.

Inductive LoraError :=
| SpiInitFailed | RadioInitFailed | InvalidRfConfig | TransmitFailed | ReceiveFailed | LoraTimeout | BusyTimeout
| IrqStatusReadFailed.

#[export] Instance LoraError_eq_dec : EqDecision LoraError.
Proof. solve_decision. Defined.

(** [nb::Error]. *)
Inductive NbError (E : Type) := WouldBlock | Other (e : E).
Arguments WouldBlock {E}.
Arguments Other {E} e.

(** [n as f32]: 24 bits of mantissa, ties to even. *)
Definition f32_of_u32 (n : Z) : Z :=
  if n <? 16777216 then n
  else
    let ulp := 2 ^ (Z.log2 n - 23) in
    let q := n / ulp in
    let r := n `mod` ulp in
    if (2 * r <? ulp) || ((2 * r =? ulp) && Z.even q) then q * ulp else (q + 1) * ulp.

Section chip.
  Context {R : Type} `{Sx126x R}.

(** A step given as a function. *)
Definition act {S E A} (f : S → result E A * S) : M S E A := f.

(** A command, its error replaced. *)
Definition command {E} (c : Command) (e : E) : M R E unit :=
  λ r, let '(ok, r) := chip_command c r in (if ok then Ok tt else Err e, r).

(** A command whose error is ignored. *)
Definition command_ignored (c : Command) (r : R) : R := (chip_command c r).2.

Definition query {E A} (q : R → option A * R) (e : E) : M R E A :=
  λ r, let '(a, r) := q r in (match a with Some a => Ok a | None => Err e end, r).

(** ** Bring-up *)

Definition BUSY_POLL_MAX_ITER : nat := 500.

Fixpoint busy_poll (n : nat) : M R LoraError unit := λ r,
  match n with
  | O => (Err BusyTimeout, (chip_device_errors r).2)
  | S n =>
      let '(status, r) := chip_status (chip_delay_ms 1 r) in
      match status with
      | Some true => (Ok tt, r)
      | Some false | None => busy_poll n r
      end
  end.

Definition wait_busy_spi : M R LoraError unit := busy_poll BUSY_POLL_MAX_ITER.

(** A step of the bring-up. *)
Definition init_step (c : Command) : M R LoraError unit := _ ← command c RadioInitFailed; wait_busy_spi.

(** Errors read for the log. *)
Definition log_device_errors : M R LoraError unit := λ r, (Ok tt, (chip_device_errors r).2).

Definition any_err (errs : DeviceErrors) : bool :=
  rc64k_calib_err errs || rc13m_calib_err errs || pll_calib_err errs || adc_calib_err errs || img_calib_err errs ||
  xosc_start_err errs || pll_lock_err errs || pa_ramp_err errs.

Definition calibration_check : M R LoraError unit := λ r,
  let '(errs, r) := chip_device_errors r in
  (match errs with Some errs => if any_err errs then Err RadioInitFailed else Ok tt | None => Ok tt end, r).

Definition DIO1_MASK : list IrqBit := [I_TxDone; I_RxDone; I_CrcErr; I_Timeout].
Definition RECORD_MASK : list IrqBit := DIO1_MASK ++ [I_PreambleDetected; I_SyncwordValid; I_HeaderValid; I_HeaderError].

Definition init_sx1262 : M R LoraError unit :=
  _ ← wait_busy_spi;
  _ ← init_step SetStandbyRc;
  _ ← init_step SetPacketTypeLora;
  _ ← init_step (SetRfFrequency (calc_rf_freq R (f32_of_u32 868100000)));
  _ ← init_step (SetDio3AsTcxoCtrl1_8V 10);
  _ ← log_device_errors;
  _ ← init_step ClearDeviceErrors;
  _ ← init_step CalibrateAll;
  _ ← calibration_check;
  _ ← init_step (CalibrateImage 868100000);
  _ ← init_step (SetPaConfigSX1262 4 7);
  _ ← init_step (SetTxParams 14 200);
  _ ← init_step (SetBufferBaseAddress 0 0);
  _ ← init_step (SetModParams SF12 BW125 Cr45 true);
  _ ← init_step (SetPacketParams 8 true 255 true false);
  _ ← init_step (SetDioIrqParams RECORD_MASK DIO1_MASK);
  _ ← init_step (SetDio2AsRfSwitchCtrl true);
  _ ← init_step (SetSyncWord 13380);
  act (λ r, (Ok tt, (chip_status r).2)).

(** ** The driver *)

Record EspIdfLoraRadio := mkRadio { radio : R; last_rssi : Z; last_snr : Z; tx_start : option Z }.

(** The pulse on the reset pin, from what setting the pin low and high answers. *)
Definition pulse_nrst (set_low set_high : result unit unit) : result LoraError unit :=
  _ ← map_err (λ _, RadioInitFailed) set_low;
  map_err (λ _, RadioInitFailed) set_high.

Definition EspIdfLoraRadio_new (set_low set_high : result unit unit) (r : R) : result LoraError EspIdfLoraRadio * R :=
  match pulse_nrst set_low set_high with
  | Err e => (Err e, r)
  | Ok _ =>
      let '(res, r) := init_sx1262 r in
      (match res with Ok _ => Ok (mkRadio r 0 0 None) | Err e => Err e end, r)
  end.

Definition with_radio (r : R) (d : EspIdfLoraRadio) : EspIdfLoraRadio := mkRadio r (last_rssi d) (last_snr d) (tx_start d).
Definition with_tx_start (t : option Z) (d : EspIdfLoraRadio) : EspIdfLoraRadio := mkRadio (radio d) (last_rssi d) (last_snr d) t.

Definition on_radio {E A} (m : M R E A) : M EspIdfLoraRadio E A :=
  λ d, let '(a, r) := m (radio d) in (a, with_radio r d).

Definition set_tx_start {E} (t : R → option Z) : M EspIdfLoraRadio E unit := λ d, (Ok tt, with_tx_start (t (radio d)) d).

Definition cancel_rx (d : EspIdfLoraRadio) : EspIdfLoraRadio :=
  let r := (chip_irq_status (radio d)).2 in
  with_tx_start None (with_radio (command_ignored ClearIrqStatusAll (command_ignored SetStandbyRc r)) d).

Definition irq_pending (d : EspIdfLoraRadio) : bool * EspIdfLoraRadio :=
  let '(irq, r) := chip_irq_status (radio d) in
  (match irq with Some i => rx_done i || tx_done i || irq_timeout i || crc_err i | None => false end, with_radio r d).

Definition ldro_required (sf : SpreadingFactor) (bw : Bandwidth) : bool :=
  match sf, bw with SF11, BW125 | SF12, BW125 | SF12, BW250 => true | _, _ => false end.

(** [u32::from(..)] of a length as [u8]. *)
Definition u8_of (n : nat) : Z := Z.of_nat n `mod` 256.

Definition prepare_tx (config : TxConfig) (buf : bytes) : M EspIdfLoraRadio LoraError unit :=
  _ ← on_radio (command (SetModParams (tx_sf config) (tx_bw config) (tx_cr config) (ldro_required (tx_sf config) (tx_bw config))) TransmitFailed);
  _ ← on_radio (command (SetPacketParams 8 true (u8_of (length buf)) true false) TransmitFailed);
  _ ← on_radio (command (SetRfFrequency (calc_rf_freq R (f32_of_u32 (tx_freq_hz config)))) TransmitFailed);
  _ ← on_radio (command (WriteBuffer 0 buf) TransmitFailed);
  _ ← on_radio (command (SetTxParams (power_dbm config) 200) TransmitFailed);
  _ ← set_tx_start (λ r, Some (chip_now_ms r));
  on_radio (command (SetTx 6000) TransmitFailed).

Definition transmit : M EspIdfLoraRadio (NbError LoraError) Z :=
  irq ← on_radio (query chip_irq_status (Other IrqStatusReadFailed));
  _ ← on_radio (command ClearIrqStatusAll (Other TransmitFailed));
  if irq_timeout irq then _ ← set_tx_start (λ _, None); throw (Other LoraTimeout)
  else if negb (tx_done irq) then throw WouldBlock
  else act (λ d,
    (Ok (match tx_start d with Some t => u32_wrap (chip_now_ms (radio d) - t) | None => 0 end), with_tx_start None d)).

Definition prepare_rx (config : RxConfig) (_window : RxWindow) : M EspIdfLoraRadio LoraError unit :=
  _ ← on_radio (command (SetModParams (rx_sf config) (rx_bw config) (rx_cr config) (ldro_required (rx_sf config) (rx_bw config))) ReceiveFailed);
  _ ← on_radio (command (SetPacketParams 8 true 255 false true) ReceiveFailed);
  _ ← on_radio (command (SetRfFrequency (calc_rf_freq R (f32_of_u32 (rx_freq_hz config)))) ReceiveFailed);
  on_radio (command (SetRx RX_WINDOW_DURATION_MS) ReceiveFailed).

(** [receive] into a buffer of [cap] bytes: the bytes written to its start. *)
Definition receive (cap : nat) : M EspIdfLoraRadio (NbError LoraError) (bytes * RxQuality) :=
  irq ← on_radio (query chip_irq_status (Other IrqStatusReadFailed));
  _ ← on_radio (command ClearIrqStatusAll (Other ReceiveFailed));
  if irq_timeout irq then throw (Other LoraTimeout)
  else if crc_err irq then throw (Other ReceiveFailed)
  else if negb (rx_done irq) then throw WouldBlock
  else
    status ← on_radio (query chip_rx_buffer_status (Other ReceiveFailed));
    let '(payload_len, offset) := status in
    let len := Z.to_nat payload_len in
    if (cap <? len)%nat then throw (Other ReceiveFailed)
    else
      frame ← on_radio (query (chip_read_buffer offset len) (Other ReceiveFailed));
      act (λ d, let '(q, r) := chip_packet_status (radio d) in
                let '(rssi, snr) := default (0, 0) q in
                (Ok (frame, mkQuality rssi snr), mkRadio r rssi snr (tx_start d))).

Definition set_frequency (freq_hz : Z) : M EspIdfLoraRadio LoraError unit :=
  on_radio (command (SetRfFrequency (calc_rf_freq R (f32_of_u32 freq_hz))) RadioInitFailed).

Definition rx_quality (d : EspIdfLoraRadio) : RxQuality := mkQuality (last_rssi d) (last_snr d).

(** ** The adapter *)

Inductive RadioOp := RO_Idle | RO_Txing | RO_Rxing.

(** [rx_buf] is the start of the buffer that holds the last frame; [rx_len] cuts it. *)
Record LoraRadioAdapter := mkAdapter { inner : EspIdfLoraRadio; rx_buf : bytes; rx_len : nat; op : RadioOp }.

Definition RX_BUF_LEN : nat := 256.

Definition LoraRadioAdapter_new (d : EspIdfLoraRadio) : LoraRadioAdapter := mkAdapter d (repeat 0 RX_BUF_LEN) 0 RO_Idle.

(** The parameters of [lora-modulation]; a value the code does not name is [_Other]. *)
Inductive LmSf := Lm7 | Lm8 | Lm9 | Lm10 | Lm11 | Lm12 | LmSf_Other.
Inductive LmBw := Lm125KHz | Lm250KHz | Lm500KHz | LmBw_Other.
Inductive LmCr := Lm4_5 | Lm4_6 | Lm4_7 | Lm4_8.
Record RfConfig := mkRf { frequency : Z; bb_sf : LmSf; bb_bw : LmBw; bb_cr : LmCr }.

Definition map_rf_config (rf : RfConfig) : result LoraError (Z * SpreadingFactor * Bandwidth * CodingRate) :=
  sf ← match bb_sf rf with
       | Lm7 => Ok SF7 | Lm8 => Ok SF8 | Lm9 => Ok SF9 | Lm10 => Ok SF10 | Lm11 => Ok SF11 | Lm12 => Ok SF12
       | LmSf_Other => Err InvalidRfConfig
       end;
  bw ← match bb_bw rf with
       | Lm125KHz => Ok BW125 | Lm250KHz => Ok BW250 | Lm500KHz => Ok BW500 | LmBw_Other => Err InvalidRfConfig
       end;
  let cr := match bb_cr rf with Lm4_5 => Cr45 | Lm4_6 => Cr46 | Lm4_7 => Cr47 | Lm4_8 => Cr48 end in
  Ok (frequency rf, sf, bw, cr).

Inductive LdRadioEvent := TxRequest (rf : RfConfig) (pw : Z) (buf : bytes) | RxRequest (rf : RfConfig) | CancelRx | Phy.
Inductive LdRadioResponse := LD_Txing | LD_Rxing | LD_Idle | LD_TxDone (on_air_ms : Z) | LD_RxDone (q : RxQuality).

Definition on_inner {E A} (m : M EspIdfLoraRadio E A) : M LoraRadioAdapter E A :=
  λ a, let '(x, d) := m (inner a) in (x, mkAdapter d (rx_buf a) (rx_len a) (op a)).

Definition set_op {E} (o : RadioOp) : M LoraRadioAdapter E unit := λ a, (Ok tt, mkAdapter (inner a) (rx_buf a) (rx_len a) o).
Definition set_rx_len {E} (n : nat) : M LoraRadioAdapter E unit := λ a, (Ok tt, mkAdapter (inner a) (rx_buf a) n (op a)).

(** [receive(&mut self.rx_buf)]: the frame overwrites the start of the buffer. *)
Definition receive_into : M LoraRadioAdapter (NbError LoraError) (nat * RxQuality) := λ a,
  match receive RX_BUF_LEN (inner a) with
  | (Ok (frame, q), d) => (Ok (length frame, q), mkAdapter d (frame ++ drop (length frame) (rx_buf a)) (rx_len a) (op a))
  | (Err e, d) => (Err e, mkAdapter d (rx_buf a) (rx_len a) (op a))
  end.

Definition get_received_packet (a : LoraRadioAdapter) : bytes := take (rx_len a) (rx_buf a).

Definition handle_event (event : LdRadioEvent) : M LoraRadioAdapter LoraError LdRadioResponse :=
  match event with
  | TxRequest rf pw buf =>
      p ← of_result (map_rf_config rf);
      let '(freq, sf, bw, cr) := p : Z * SpreadingFactor * Bandwidth * CodingRate in
      _ ← on_inner (prepare_tx (mkTx freq sf bw cr pw) buf);
      _ ← set_op RO_Txing;
      mret LD_Txing
  | RxRequest rf =>
      _ ← set_rx_len 0;
      p ← of_result (map_rf_config rf);
      let '(freq, sf, bw, cr) := p : Z * SpreadingFactor * Bandwidth * CodingRate in
      _ ← on_inner (prepare_rx (mkRx freq sf bw cr) Rx1);
      _ ← set_op RO_Rxing;
      mret LD_Rxing
  | CancelRx =>
      _ ← on_inner (act (λ d, (Ok tt, cancel_rx d)));
      _ ← set_rx_len 0;
      _ ← set_op RO_Idle;
      mret LD_Idle
  | Phy => λ a,
      match op a with
      | RO_Txing =>
          (r ← catch (on_inner transmit);
           match r with
           | Ok on_air_ms => _ ← set_op RO_Idle; mret (LD_TxDone on_air_ms)
           | Err WouldBlock => mret LD_Txing
           | Err (Other e) => throw e
           end) a
      | RO_Rxing =>
          (r ← catch receive_into;
           match r with
           | Ok (len, quality) => _ ← set_rx_len len; _ ← set_op RO_Idle; mret (LD_RxDone quality)
           | Err WouldBlock => mret LD_Rxing
           | Err (Other LoraTimeout) => _ ← set_rx_len 0; _ ← set_op RO_Idle; mret LD_Idle
           | Err (Other e) => throw e
           end) a
      | RO_Idle => (Ok LD_Idle, a)
      end
  end.

Fixpoint run_events (events : list LdRadioEvent) (a : LoraRadioAdapter) : list (result LoraError LdRadioResponse) * LoraRadioAdapter :=
  match events with
  | [] => ([], a)
  | e :: events =>
      let '(r, a) := handle_event e a in
      let '(rs, a) := run_events events a in
      (r :: rs, a)
  end.

End chip.
Arguments EspIdfLoraRadio : clear implicits.
Arguments LoraRadioAdapter : clear implicits.
