(* ===== verification/LoraProps.v ===== *)
(** * LoraProps: bring-up, discipline on the air, genuine frames, usable credentials *)
From Stdlib Require Import Ascii.
From S2P Require Import Prelude Text ProvConfig ProvForm ProvFormProps ProvFlow Lora.
Open Scope Z_scope.

(** ** A chip that is listened to *)

Inductive ChipEvent :=
| EvCommand (c : Command) (ok : bool) | EvStatus (s : option bool) | EvDeviceErrors (e : option DeviceErrors)
| EvIrq (i : option Irq) | EvRxStatus (s : option (Z * Z)) | EvRead (offset : Z) (len : nat) (bs : option bytes)
| EvPacket | EvDelay (ms : Z).

Record Logged (R : Type) := mkLogged { chip : R; log : list ChipEvent }.
Arguments mkLogged {R}.
Arguments chip {R}.
Arguments log {R}.

(** What is read from the chip has the length that was asked for, a length is a byte. *)
Class Sx126xLaws (R : Type) `{Sx126x R} := {
  read_buffer_length offset len r bs : (chip_read_buffer offset len r).1 = Some bs → length bs = len;
  payload_byte r len offset : (chip_rx_buffer_status r).1 = Some (len, offset) → 0 ≤ len < 256 }.

Section logged.
  Context {R : Type} {SX : Sx126x R}.

Definition noted {A} (ev : A → ChipEvent) (f : R → A * R) (l : Logged R) : A * Logged R :=
  let '(a, r) := f (chip l) in (a, mkLogged r (log l ++ [ev a])).

#[export] Instance logged_chip : Sx126x (Logged R) := {
  chip_command c := noted (EvCommand c) (chip_command c);
  chip_status := noted EvStatus chip_status;
  chip_device_errors := noted EvDeviceErrors chip_device_errors;
  chip_irq_status := noted EvIrq chip_irq_status;
  chip_rx_buffer_status := noted EvRxStatus chip_rx_buffer_status;
  chip_read_buffer offset len := noted (EvRead offset len) (chip_read_buffer offset len);
  chip_packet_status := noted (λ _, EvPacket) chip_packet_status;
  chip_delay_ms ms l := mkLogged (chip_delay_ms ms (chip l)) (log l ++ [EvDelay ms]);
  chip_now_ms l := chip_now_ms (chip l);
  calc_rf_freq := calc_rf_freq R }.

(** ** Bring-up

    The stages of the sequence: wait until the chip is ready, send a command, read the device errors
    only to log them, read them to judge the calibration, read the status once more. *)
Inductive Stage := St_Wait | St_Command (c : Command) | St_LogErrors | St_CheckErrors | St_Status.

Definition paced (cs : list Command) : list Stage := cs ≫= λ c, [St_Command c; St_Wait].

Definition BRING_UP : list Stage :=
  [St_Wait] ++
  paced [SetStandbyRc; SetPacketTypeLora; SetRfFrequency (calc_rf_freq R (f32_of_u32 868100000)); SetDio3AsTcxoCtrl1_8V 10] ++
  [St_LogErrors] ++ paced [ClearDeviceErrors; CalibrateAll] ++ [St_CheckErrors] ++
  paced [CalibrateImage 868100000; SetPaConfigSX1262 4 7; SetTxParams 14 200; SetBufferBaseAddress 0 0; SetModParams SF12 BW125 Cr45 true;
         SetPacketParams 8 true 255 true false; SetDioIrqParams RECORD_MASK DIO1_MASK; SetDio2AsRfSwitchCtrl true; SetSyncWord 13380] ++
  [St_Status].

(** A poll that found the chip busy, or no status at all. *)
Definition busy_polls (k : nat) (l : list ChipEvent) : Prop :=
  ∃ ss, length ss = k ∧ Forall (λ s, s ≠ Some true) ss ∧ l = ss ≫= λ s, [EvDelay 1; EvStatus s].

(** What a stage asks of the chip, what the chip answers, and what becomes of the stage. *)
Inductive stage_log : Stage → list ChipEvent → result LoraError unit → Prop :=
| sl_ready k l : (k < 500)%nat → busy_polls k l → stage_log St_Wait (l ++ [EvDelay 1; EvStatus (Some true)]) (Ok tt)
| sl_busy l e : busy_polls 500 l → stage_log St_Wait (l ++ [EvDeviceErrors e]) (Err BusyTimeout)
| sl_accepted c : stage_log (St_Command c) [EvCommand c true] (Ok tt)
| sl_refused c : stage_log (St_Command c) [EvCommand c false] (Err RadioInitFailed)
| sl_logged e : stage_log St_LogErrors [EvDeviceErrors e] (Ok tt)
| sl_clean e : any_err e = false → stage_log St_CheckErrors [EvDeviceErrors (Some e)] (Ok tt)
| sl_unread : stage_log St_CheckErrors [EvDeviceErrors None] (Ok tt)
| sl_faulty e : any_err e = true → stage_log St_CheckErrors [EvDeviceErrors (Some e)] (Err RadioInitFailed)
| sl_status s : stage_log St_Status [EvStatus s] (Ok tt).

(** One stage after the other; the first that fails is the last, and its error is the result. *)
Inductive stages_log : list Stage → list ChipEvent → result LoraError unit → Prop :=
| sts_done : stages_log [] [] (Ok tt)
| sts_next st sts l l' r : stage_log st l (Ok tt) → stages_log sts l' r → stages_log (st :: sts) (l ++ l') r
| sts_stop st sts l e : stage_log st l (Err e) → stages_log (st :: sts) l (Err e).

(** [m] goes through the stages. *)
Definition goes (sts : list Stage) (m : M (Logged R) LoraError unit) : Prop :=
  ∀ l, ∃ tail, log (m l).2 = log l ++ tail ∧ stages_log sts tail (m l).1.

Lemma stages_app sts sts' l l' r : stages_log sts l (Ok tt) → stages_log sts' l' r → stages_log (sts ++ sts') (l ++ l') r.
Proof.
  intros H. remember (Ok tt) as ok eqn:E. revert E. induction H as [|st sts l l1 r1 Hst H IH|]; intros E Hs'; [done| |done].
  cbn [app]. rewrite <- app_assoc. apply sts_next; [done|]. by apply IH.
Qed.

Lemma stages_stop sts sts' l e : stages_log sts l (Err e) → stages_log (sts ++ sts') l (Err e).
Proof.
  intros H. remember (Err e) as err eqn:E. revert E.
  induction H as [|st sts l l1 r1 Hst H IH|st sts l e' Hst]; intros E; [done| |injection E as ->; by apply sts_stop].
  apply sts_next; [done|]. by apply IH.
Qed.

Lemma goes_seq sts sts' m m' : goes sts m → goes sts' m' → goes (sts ++ sts') (_ ← m; m').
Proof.
  intros Hm Hm' l. rewrite M_bind_eq. destruct (Hm l) as (t & Ht & Hs). destruct (m l) as [[[]|e] l1]; cbn [fst snd] in *.
  - destruct (Hm' l1) as (t' & Ht' & Hs'). exists (t ++ t'). split; [by rewrite Ht', Ht, app_assoc|]. by apply stages_app.
  - exists t. split; [done|]. by apply stages_stop.
Qed.

Lemma goes_one st m : (∀ l, ∃ tail, log (m l).2 = log l ++ tail ∧ stage_log st tail (m l).1) → goes [st] m.
Proof.
  intros H l. destruct (H l) as (t & Ht & Hs). exists t. split; [done|]. destruct (m l).1 as [[]|e]; [|by apply sts_stop].
  rewrite <- (app_nil_r t). apply sts_next; [done|constructor].
Qed.

(** [k] polls are left of 500. *)
Lemma busy_poll_log k l :
  ∃ tail, log (busy_poll k l).2 = log l ++ tail ∧
    match (busy_poll k l).1 with
    | Ok _ => ∃ j t, (j < k)%nat ∧ busy_polls j t ∧ tail = t ++ [EvDelay 1; EvStatus (Some true)]
    | Err e => e = BusyTimeout ∧ ∃ t x, busy_polls k t ∧ tail = t ++ [EvDeviceErrors x]
    end.
Proof.
  revert l. induction k as [|k IH]; intros l; cbn [busy_poll].
  - unfold chip_device_errors, logged_chip, noted. destruct (chip_device_errors (chip l)) as [x r]. cbn.
    exists [EvDeviceErrors x]. split; [done|]. split; [done|]. exists [], x. split; [|done]. by exists [].
  - cbn [chip_status chip_delay_ms logged_chip]. unfold noted. cbn [chip log].
    destruct (chip_status (chip_delay_ms 1 (chip l))) as [s r].
    set (l1 := mkLogged r ((log l ++ [EvDelay 1]) ++ [EvStatus s])).
    assert (log l1 = log l ++ [EvDelay 1; EvStatus s]) as Hl1 by (cbn; by rewrite <- app_assoc).
    destruct (decide (s = Some true)) as [->|Hs].
    { cbn. exists [EvDelay 1; EvStatus (Some true)]. split; [by rewrite <- app_assoc|]. exists 0%nat, []. split; [lia|]. split; [|done]. by exists []. }
    replace (match s with Some true => (Ok tt, l1) | _ => busy_poll k l1 end) with (busy_poll k l1) by (by destruct s as [[]|]).
    destruct (IH l1) as (t & Ht & Hr). exists ([EvDelay 1; EvStatus s] ++ t). split; [by rewrite Ht, Hl1, <- app_assoc|].
    assert (∀ j u, busy_polls j u → busy_polls (S j) ([EvDelay 1; EvStatus s] ++ u)) as Hcons.
    { intros j u (ss & <- & Hf & ->). exists (s :: ss). split; [done|]. split; [by constructor|done]. }
    destruct (busy_poll k l1).1 as [[]|e].
    + destruct Hr as (j & u & Hj & Hu & ->). exists (S j), ([EvDelay 1; EvStatus s] ++ u). split; [lia|]. split; [by apply Hcons|by rewrite <- app_assoc].
    + destruct Hr as (-> & u & x & Hu & ->). split; [done|]. exists ([EvDelay 1; EvStatus s] ++ u), x. split; [by apply Hcons|by rewrite <- app_assoc].
Qed.

Lemma wait_goes : goes [St_Wait] wait_busy_spi.
Proof.
  apply goes_one. intros l. unfold wait_busy_spi, BUSY_POLL_MAX_ITER. destruct (busy_poll_log 500 l) as (t & Ht & Hr). exists t. split; [done|].
  destruct (busy_poll 500 l).1 as [[]|e].
  - destruct Hr as (j & u & Hj & Hu & ->). by eapply sl_ready.
  - destruct Hr as (-> & u & x & Hu & ->). by apply sl_busy.
Qed.

Lemma init_step_goes c : goes [St_Command c; St_Wait] (init_step c).
Proof.
  apply (goes_seq [_] [_]); [|apply wait_goes]. apply goes_one. intros l. unfold command. cbn [chip_command logged_chip]. unfold noted.
  destruct (chip_command c (chip l)) as [[] r]; cbn; eexists; (split; [done|]); constructor.
Qed.

Lemma log_device_errors_goes : goes [St_LogErrors] log_device_errors.
Proof.
  apply goes_one. intros l. unfold log_device_errors. cbn [chip_device_errors logged_chip]. unfold noted.
  destruct (chip_device_errors (chip l)) as [e r]. exists [EvDeviceErrors e]. split; [done|]. constructor.
Qed.

Lemma calibration_check_goes : goes [St_CheckErrors] calibration_check.
Proof.
  apply goes_one. intros l. unfold calibration_check. cbn [chip_device_errors logged_chip]. unfold noted.
  destruct (chip_device_errors (chip l)) as [e r]. exists [EvDeviceErrors e]. split; [done|].
  destruct e as [e|]; [|constructor]. cbn. destruct (any_err e) eqn:E; by constructor.
Qed.

Lemma final_status_goes : goes [St_Status] (act (λ r, (Ok tt, (chip_status r).2))).
Proof.
  apply goes_one. intros l. unfold act. cbn [chip_status logged_chip]. unfold noted. destruct (chip_status (chip l)) as [s r].
  exists [EvStatus s]. split; [done|]. constructor.
Qed.

Lemma init_goes : goes BRING_UP init_sx1262.
Proof.
  unfold init_sx1262. change BRING_UP with ([St_Wait] ++ drop 1 BRING_UP).
  apply goes_seq; [apply wait_goes|].
  repeat first [apply (goes_seq [St_Command _; St_Wait]); [apply init_step_goes|]
               | apply (goes_seq [St_LogErrors]); [apply log_device_errors_goes|]
               | apply (goes_seq [St_CheckErrors]); [apply calibration_check_goes|]].
  apply final_status_goes.
Qed.

(** C30: The bring-up of the radio follows the datasheet whatever the chip answers. After the reset pulse, if the pin can be set, the driver goes through the stages of the sequence in their order: each command is sent once, and only after at most 500 polls, a millisecond apart, the last of which found the chip ready; the device errors are cleared before the calibration, and read to judge it right after it. The first stage that fails is the last thing that happens on the bus, and its error is the result: a refused command or a calibration fault is [RadioInitFailed], a chip that stays busy is [BusyTimeout]. A report of the calibration that cannot be read is no fault, as in the code, which only logs it. The driver comes back only if every stage succeeded. *)
Theorem bring_up_exact (set_low set_high : result unit unit) (r : R) :
  let '(res, l) := EspIdfLoraRadio_new set_low set_high (mkLogged r []) in
  if is_err set_low || is_err set_high then res = Err RadioInitFailed ∧ log l = []
  else stages_log BRING_UP (log l) (_ ← res; Ok tt) ∧ ∀ d, res = Ok d → d = mkRadio l 0 0 None.
Proof.
  unfold EspIdfLoraRadio_new, pulse_nrst. destruct (init_goes (mkLogged r [])) as (t & Ht & Hs). revert Ht Hs.
  generalize (init_sx1262 (mkLogged r [])). intros [res l] Ht Hs. cbn [fst snd log app] in *. subst t.
  destruct set_low as [[]|[]], set_high as [[]|[]]; cbn; try (by split).
  destruct res as [[]|e]; (split; [exact Hs|]); by intros d [= <-].
Qed.

(** ** On the air *)

(** What the chip is set up for, as far as accepted commands tell. *)
Record Setup := mkSetup { packet : option (Z * bool * bool); loaded : option bytes }.

(** An uplink goes out with CRC and standard IQ and with the length of the frame that was loaded for it; a window opens without CRC and with inverted IQ. *)
Definition air_step (s : option Setup) (e : ChipEvent) : option Setup :=
  match s with
  | None => None
  | Some s =>
      match e with
      | EvCommand (SetPacketParams _ _ len crc iq) ok => Some (mkSetup (if ok then Some (len, crc, iq) else None) (loaded s))
      | EvCommand (WriteBuffer 0 bs) ok => Some (mkSetup (packet s) (if ok then Some bs else None))
      | EvCommand (WriteBuffer _ _) _ => Some (mkSetup (packet s) None)
      | EvCommand (SetTx _) _ =>
          match loaded s with
          | Some bs => if decide (packet s = Some (u8_of (length bs), true, false)) then Some s else None
          | None => None
          end
      | EvCommand (SetRx _) _ => if decide (packet s = Some (255, false, true)) then Some (mkSetup (packet s) None) else None
      | _ => Some s
      end
  end.

Definition air (l : list ChipEvent) : option Setup := foldl air_step (Some (mkSetup None None)) l.

Lemma air_app l tail : air (l ++ tail) = foldl air_step (air l) tail.
Proof. unfold air. apply foldl_app. Qed.

(** The chip of an adapter. *)
Definition seen (a : LoraRadioAdapter (Logged R)) : list ChipEvent := log (radio (inner a)).

(** Nothing but what the chip delivered: the packet is empty, or it is the last frame read, after an interrupt status with a reception and neither an error nor a timeout, and no window was opened since. *)
Definition window_opened (e : ChipEvent) : Prop := match e with EvCommand (SetRx _) _ => True | _ => False end.

Definition genuine (packet : bytes) (l : list ChipEvent) : Prop :=
  packet = [] ∨
  ∃ pre irq len offset post,
    l = pre ++ [EvIrq (Some irq); EvCommand ClearIrqStatusAll true; EvRxStatus (Some (len, offset));
                EvRead offset (Z.to_nat len) (Some packet)] ++ post ∧
    rx_done irq = true ∧ irq_timeout irq = false ∧ crc_err irq = false ∧
    length packet = Z.to_nat len ∧ Forall (λ e, ¬ window_opened e) post.

Record adapter_ok (a : LoraRadioAdapter (Logged R)) : Prop := {
  ao_air : is_Some (air (seen a));
  ao_len : (rx_len a ≤ length (rx_buf a))%nat;
  ao_buf : length (rx_buf a) = RX_BUF_LEN;
  ao_packet : genuine (get_received_packet a) (seen a);
  ao_listening : op a = RO_Rxing → rx_len a = 0%nat }.

Abbreviation driver := (EspIdfLoraRadio (Logged R)).

(** What a step of the driver does to the set-up; [ev] bounds what it adds to the log. *)
Definition driven (ev : ChipEvent → Prop) {E A} (P : Setup → Prop) (m : M driver E A) (Q : Setup → Prop) : Prop :=
  ∀ d s, air (log (radio d)) = Some s → P s →
    ∃ tail s', log (radio (m d).2) = log (radio d) ++ tail ∧ Forall ev tail ∧ air (log (radio (m d).2)) = Some s' ∧
      (is_err (m d).1 = false → Q s').

Definition any_setup (s : Setup) : Prop := True.
Definition closed (e : ChipEvent) : Prop := ¬ window_opened e.
Definition any_event (e : ChipEvent) : Prop := True.

Lemma driven_bind ev {E A B} (P Q S : Setup → Prop) (m : M driver E A) (f : A → M driver E B) :
  driven ev P m Q → (∀ a, driven ev Q (f a) S) → driven ev P (m ≫= f) S.
Proof.
  intros Hm Hf d s Hs HP. rewrite M_bind_eq. destruct (Hm d s Hs HP) as (t & s1 & Hl & He & Ha & HQ).
  destruct (m d) as [[a|e] d1]; cbn in *.
  - destruct (Hf a d1 s1 Ha (HQ eq_refl)) as (t' & s2 & Hl' & He' & Ha' & HS). exists (t ++ t'), s2.
    split; [by rewrite Hl', Hl, app_assoc|]. split; [by apply Forall_app|]. by split.
  - exists t, s1. split; [done|]. split; [done|]. by split.
Qed.

Lemma driven_command (ev : ChipEvent → Prop) {E} c (e : E) (P Q : Setup → Prop) :
  (∀ ok, ev (EvCommand c ok)) →
  (∀ s ok, P s → ∃ s', air_step (Some s) (EvCommand c ok) = Some s' ∧ (ok = true → Q s')) →
  driven ev P (on_radio (command c e)) Q.
Proof.
  intros Hev Hair d s Hs HP. unfold on_radio, command. cbn [chip_command logged_chip]. unfold noted.
  destruct (chip_command c (chip (radio d))) as [ok r]. destruct (Hair s ok HP) as (s' & Hs' & HQ).
  exists [EvCommand c ok], s'. cbn. split; [done|]. split; [by constructor|].
  split; [rewrite air_app, Hs; exact Hs'|]. by destruct ok; [intros _; apply HQ|].
Qed.

Lemma driven_irq (ev : ChipEvent → Prop) {E} (e : E) P :
  (∀ i, ev (EvIrq i)) → driven ev P (on_radio (query chip_irq_status e)) P.
Proof.
  intros Hev d s Hs HP. unfold on_radio, query. cbn [chip_irq_status logged_chip]. unfold noted.
  destruct (chip_irq_status (chip (radio d))) as [i r]. exists [EvIrq i], s. cbn.
  split; [done|]. split; [by constructor|]. split; [by rewrite air_app, Hs|done].
Qed.

Lemma driven_quiet ev {E A} P (m : M driver E A) : (∀ d, log (radio (m d).2) = log (radio d)) → driven ev P m P.
Proof. intros Hm d s Hs HP. exists [], s. rewrite Hm, app_nil_r. by repeat split. Qed.

(** A command that is always in order. *)
Ltac allowed := intros ?; first [exact I | intros Hopen; exact Hopen].
Ltac in_order := apply driven_command; [allowed|]; intros s ok ?; eexists; (split; [reflexivity|]); intros ->; first [exact I | done].

Lemma prepare_tx_driven config buf : driven closed any_setup (prepare_tx config buf) any_setup.
Proof.
  unfold prepare_tx. set (Q1 s := packet s = Some (u8_of (length buf), true, false)).
  set (Q2 s := Q1 s ∧ loaded s = Some buf).
  eapply (driven_bind _ _ any_setup); [in_order|intros _].
  eapply (driven_bind _ _ Q1); [in_order|intros _].
  eapply (driven_bind _ _ Q1); [in_order|intros _].
  eapply (driven_bind _ _ Q2); [in_order|intros _].
  eapply (driven_bind _ _ Q2); [in_order|intros _].
  eapply (driven_bind _ _ Q2); [by apply driven_quiet|intros _].
  apply driven_command; [allowed|]. intros s ok [Hp Hl]. exists s. split; [|done]. cbn [air_step]. by rewrite Hl, decide_True.
Qed.

Lemma prepare_rx_driven config w : driven any_event any_setup (prepare_rx config w) any_setup.
Proof.
  unfold prepare_rx. set (Q s := packet s = Some (255, false, true)).
  eapply (driven_bind _ _ any_setup); [in_order|intros _].
  eapply (driven_bind _ _ Q); [in_order|intros _].
  eapply (driven_bind _ _ Q); [in_order|intros _].
  apply driven_command; [allowed|]. intros s ok Hp. eexists. split; [|done]. cbn [air_step]. by rewrite decide_True.
Qed.

Lemma transmit_driven : driven closed any_setup transmit any_setup.
Proof.
  unfold transmit. eapply (driven_bind _ _ any_setup); [apply driven_irq; allowed|intros irq].
  eapply (driven_bind _ _ any_setup); [in_order|intros _].
  destruct (irq_timeout irq); [|destruct (negb _)]; by apply driven_quiet.
Qed.

(** [receive]: on success the log ends in the frame it returns. *)
Definition frame_events irq len offset frame : list ChipEvent :=
  [EvIrq (Some irq); EvCommand ClearIrqStatusAll true; EvRxStatus (Some (len, offset)); EvRead offset (Z.to_nat len) (Some frame)].

Lemma receive_driven cap : driven closed any_setup (receive cap) any_setup.
Proof.
  unfold receive. eapply (driven_bind _ _ any_setup); [apply driven_irq; allowed|intros irq].
  eapply (driven_bind _ _ any_setup); [in_order|intros _].
  destruct (irq_timeout irq); [by apply driven_quiet|]. destruct (crc_err irq); [by apply driven_quiet|].
  destruct (negb _); [by apply driven_quiet|].
  eapply (driven_bind _ _ any_setup); [|intros [len offset]; destruct (_ <? _)%nat; [by apply driven_quiet|]].
  { intros d s Hs _. unfold on_radio, query. cbn [chip_rx_buffer_status logged_chip]. unfold noted.
    destruct (chip_rx_buffer_status (chip (radio d))) as [x r]. exists [EvRxStatus x], s. cbn.
    split; [done|]. split; [constructor; [intros []|constructor]|]. by rewrite air_app, Hs. }
  eapply (driven_bind _ _ any_setup); [|intros frame].
  { intros d s Hs _. unfold on_radio, query. cbn [chip_read_buffer logged_chip]. unfold noted.
    destruct (chip_read_buffer offset (Z.to_nat len) (chip (radio d))) as [x r]. exists [EvRead offset (Z.to_nat len) x], s. cbn.
    split; [done|]. split; [constructor; [intros []|constructor]|]. by rewrite air_app, Hs. }
  intros d s Hs _. unfold act. cbn [chip_packet_status logged_chip]. unfold noted.
  destruct (chip_packet_status (chip (radio d))) as [x r]. destruct (default (0, 0) x). exists [EvPacket], s. cbn.
  split; [done|]. split; [constructor; [intros []|constructor]|]. by rewrite air_app, Hs.
Qed.

Lemma receive_frame cap d frame q d' :
  receive cap d = (Ok (frame, q), d') →
  ∃ irq len offset, log (radio d') = log (radio d) ++ frame_events irq len offset frame ++ [EvPacket] ∧
    rx_done irq = true ∧ irq_timeout irq = false ∧ crc_err irq = false ∧ (Z.to_nat len ≤ cap)%nat ∧
    ∃ r : R, (chip_read_buffer offset (Z.to_nat len) r).1 = Some frame.
Proof.
  unfold receive, on_radio, query, command, act, mbind, M_bind.
  cbn [chip_irq_status chip_command chip_rx_buffer_status chip_read_buffer chip_packet_status logged_chip]. unfold noted.
  destruct (chip_irq_status (chip (radio d))) as [[irq|] r1]; [|done]. cbn [negb with_radio radio chip log last_rssi last_snr tx_start].
  destruct (chip_command ClearIrqStatusAll r1) as [[] r2]; [|done]. cbn [negb with_radio radio chip log last_rssi last_snr tx_start].
  destruct (irq_timeout irq) eqn:Et; [done|]. destruct (crc_err irq) eqn:Ec; [done|]. destruct (rx_done irq) eqn:Er; [|done]. cbn [negb with_radio radio chip log last_rssi last_snr tx_start].
  destruct (chip_rx_buffer_status r2) as [[[len offset]|] r3]; [|done]. cbn [negb with_radio radio chip log last_rssi last_snr tx_start].
  destruct (Nat.ltb_spec cap (Z.to_nat len)); [done|]. cbn [negb with_radio radio chip log last_rssi last_snr tx_start].
  destruct (chip_read_buffer offset (Z.to_nat len) r3) as [[bs|] r4] eqn:Eb; [|done]. cbn [negb with_radio radio chip log last_rssi last_snr tx_start].
  destruct (chip_packet_status r4) as [x r5]. destruct (default (0, 0) x) as [rs sn]. intros Heq. injection Heq as <- _ <-.
  exists irq, len, offset. cbn. rewrite <- !app_assoc. split; [done|]. repeat (split; [done|]). exists r3. by rewrite Eb.
Qed.

Lemma genuine_app p l tail : genuine p l → Forall closed tail → genuine p (l ++ tail).
Proof.
  intros [Hp|(pre & irq & len & offset & post & -> & H1 & H2 & H3 & H4 & H5)] Ht; [by left|].
  right. exists pre, irq, len, offset, (post ++ tail). rewrite <- !app_assoc. repeat (split; [done|]). by apply Forall_app.
Qed.

(** A step of the driver that opens no window leaves an adapter as it should be. *)
Lemma adapter_driven {E A} (m : M driver E A) a :
  driven closed any_setup m any_setup → adapter_ok a →
  adapter_ok (mkAdapter (m (inner a)).2 (rx_buf a) (rx_len a) (op a)).
Proof.
  intros Hm [[s Ha] Hl Hb Hp Ho]. destruct (Hm (inner a) s Ha I) as (t & s' & Hlog & Hc & Hs' & _).
  constructor; cbn; unfold seen in *; cbn; [by rewrite Hs'|done|done| |done]. rewrite Hlog. by apply genuine_app.
Qed.

Lemma adapter_op a o : adapter_ok a → o ≠ RO_Rxing → adapter_ok (mkAdapter (inner a) (rx_buf a) (rx_len a) o).
Proof. intros [H1 H2 H3 H4 H5] Ho. by constructor. Qed.

(** An emptied adapter only has to keep to the air discipline. *)
Lemma adapter_empty d buf o :
  is_Some (air (log (radio d))) → length buf = RX_BUF_LEN → adapter_ok (mkAdapter d buf 0 o).
Proof. intros Ha Hb. constructor; cbn; [done|lia|done|by left|done]. Qed.

Lemma cancel_rx_air (d : driver) : is_Some (air (log (radio d))) → is_Some (air (log (radio (cancel_rx d)))).
Proof.
  intros [s Hs]. unfold cancel_rx, command_ignored. cbn [chip_irq_status chip_command logged_chip]. unfold noted.
  destruct (chip_irq_status (chip (radio d))) as [i r1]. cbn. destruct (chip_command SetStandbyRc r1) as [o1 r2]. cbn.
  destruct (chip_command ClearIrqStatusAll r2) as [o2 r3]. cbn. rewrite !air_app, Hs. done.
Qed.

Lemma handle_event_ok `{!Sx126xLaws R} e a : adapter_ok a → adapter_ok (handle_event e a).2.
Proof.
  intros Ha. pose proof Ha as [[s Hair] Hl Hb Hp Ho]. destruct e as [rf pw buf|rf| |]; cbn [handle_event].
  - rewrite M_bind_eq. unfold of_result. destruct (map_rf_config rf) as [[[[freq sf] bw] cr]|]; [|done].
    rewrite M_bind_eq. unfold on_inner.
    pose proof (adapter_driven _ a (prepare_tx_driven (mkTx freq sf bw cr pw) buf) Ha) as Hd.
    destruct (prepare_tx _ _ (inner a)) as [[[]|e] d]; cbn in *; [|done]. by apply (adapter_op _ RO_Txing Hd).
  - rewrite M_bind_eq. cbn [set_rx_len]. rewrite M_bind_eq. unfold of_result.
    destruct (map_rf_config rf) as [[[[freq sf] bw] cr]|]; [|apply adapter_empty; [by exists s|done]].
    rewrite M_bind_eq. unfold on_inner. cbn [inner rx_buf rx_len op].
    destruct (prepare_rx_driven (mkRx freq sf bw cr) Rx1 (inner a) s Hair I) as (t & s' & _ & _ & Hs' & _).
    destruct (prepare_rx _ _ (inner a)) as [[[]|e] d]; cbn in *; (apply adapter_empty; [by exists s'|done]).
  - rewrite M_bind_eq. unfold on_inner, act. apply adapter_empty; [|done]. apply cancel_rx_air. by exists s.
  - destruct (op a) eqn:Eo; [done| |].
    + rewrite M_bind_eq. unfold catch, on_inner.
      pose proof (adapter_driven _ a transmit_driven Ha) as Hd. rewrite Eo in Hd.
      destruct (transmit (inner a)) as [[ms|[|e]] d]; cbn in *; rewrite ?Eo; try exact Hd. by apply (adapter_op _ RO_Idle Hd).
    + rewrite M_bind_eq. unfold catch, receive_into.
      pose proof (adapter_driven _ a (receive_driven RX_BUF_LEN) Ha) as Hd. rewrite Eo in Hd.
      destruct (receive RX_BUF_LEN (inner a)) as [[[frame q]|[|e]] d] eqn:Er; cbn in Hd |- *; rewrite ?Eo; try exact Hd.
      * apply receive_frame in Er as (irq & len & offset & Hlog & H1 & H2 & H3 & Hcap & r & Hr).
        apply read_buffer_length in Hr. destruct Hd as [Hd1 _ _ _ _]. rewrite <- Hr in Hcap.
        change (adapter_ok (mkAdapter d (frame ++ drop (length frame) (rx_buf a)) (length frame) RO_Idle)).
        constructor; cbn [rx_len rx_buf inner op]; [done|rewrite length_app; lia|rewrite length_app, length_drop, Hb; lia| |done].
        right. exists (seen a), irq, len, offset, [EvPacket]. unfold get_received_packet, seen in *. cbn in *.
        rewrite take_app_length. repeat (split; [done|]). constructor; [intros []|constructor].
      * destruct e; try exact Hd. cbn. destruct Hd as [Hd1 Hd2 Hd3 _ _]. by apply adapter_empty.
Qed.

(** Whatever the chip and the LoRaWAN stack do, the radio keeps its discipline. In every sequence of events, every transmission starts with the packet parameters of an uplink for exactly the frame that was loaded, and every window opens with those of a downlink; the packet handed up is empty or is the last frame read, whole, behind an interrupt status with a reception and neither a CRC error nor a timeout, with no window opened since; and it fits its buffer. *)
Lemma adapter_disciplined `{!Sx126xLaws R} (r : R) (events : list LdRadioEvent) :
  adapter_ok (run_events events (LoraRadioAdapter_new (mkRadio (mkLogged r []) 0 0 None))).2.
Proof.
  assert (adapter_ok (LoraRadioAdapter_new (mkRadio (mkLogged r []) 0 0 None))) as H0
    by (apply adapter_empty; [done|apply repeat_length]).
  revert H0. generalize (LoraRadioAdapter_new (mkRadio (mkLogged r []) 0 0 None)) as a. induction events as [|e events IH]; intros a Ha; [done|].
  cbn [run_events]. pose proof (handle_event_ok e a Ha) as He. destruct (handle_event e a) as [x a'].
  specialize (IH a' He). by destruct (run_events events a').
Qed.

End logged.

(** ** Examples *)

(** A chip that accepts everything, answers the interrupt statuses of a script and holds one frame. *)
Record SimChip := mkSim { sim_irqs : list Irq; sim_frame : bytes }.

#[local] Instance sim_chip : Sx126x SimChip := {
  chip_command _ r := (true, r);
  chip_status r := (Some true, r);
  chip_device_errors r := (None, r);
  chip_irq_status r := (head (sim_irqs r), mkSim (tail (sim_irqs r)) (sim_frame r));
  chip_rx_buffer_status r := (Some (u8_of (length (sim_frame r)), 0), r);
  chip_read_buffer _ len r := (Some (take len (sim_frame r ++ repeat 0 len)), r);
  chip_packet_status r := (Some (-80, 7), r);
  chip_delay_ms _ r := r;
  chip_now_ms _ := 0;
  calc_rf_freq f := f }.

#[local, program] Instance sim_chip_laws : Sx126xLaws SimChip.
Next Obligation. intros offset len r bs H. injection H as <-. rewrite length_take, length_app, repeat_length. lia. Qed.
Next Obligation. intros r len offset H. injection H as <- _. unfold u8_of. apply Z.mod_pos_bound. lia. Qed.

Definition eu868 : RfConfig := mkRf 868100000 Lm7 Lm125KHz Lm4_5.

(** An uplink, then a window in which a frame arrives. *)
Definition sample_events : list LdRadioEvent := [TxRequest eu868 14 [9; 9]; Phy; RxRequest eu868; Phy; Phy].
Definition sample_chip : SimChip :=
  mkSim [mkIrq true false false false; mkIrq false false false false; mkIrq false true false false] [1; 2; 3].

Lemma adapter_disciplined_witness :
  let a := (run_events sample_events (LoraRadioAdapter_new (mkRadio (mkLogged sample_chip []) 0 0 None))).2 in
  get_received_packet a = [1; 2; 3] ∧ adapter_ok a.
Proof. split; [vm_compute; reflexivity|]. apply adapter_disciplined. Defined.

(** A clean bring-up succeeds. *)
Example bring_up_sim : (init_sx1262 (mkSim [] [])).1 = Ok tt.
Proof. vm_compute. reflexivity. Qed.

(** ** The SPI wrapper *)

(** What the ESP-IDF driver accepts: nothing is received beyond what is sent. *)
Definition full_duplex (op : Operation) : Prop :=
  match op with Op_Read n => n = 0%nat | Op_Transfer n bs => (n ≤ length bs)%nat | _ => True end.

Lemma max_read_len_ge ops n : Op_Read n ∈ ops → (n ≤ max_read_len ops)%nat.
Proof.
  induction ops as [|op ops IH]; intros H; [by apply not_elem_of_nil in H|]. unfold max_read_len in *.
  apply elem_of_cons in H as [<-|H]; [cbn; lia|]. specialize (IH H). destruct op; cbn; lia.
Qed.

Lemma take_zeroes n m : (n ≤ m)%nat → take n (repeat 0 m) = repeat 0 n.
Proof. revert m. induction n as [|n IH]; intros [|m] H; try done; [lia|]. cbn. rewrite IH; [done|lia]. Qed.

(** Every read becomes a transfer of as many zeroes. *)
Lemma rewrite_op_zeroes ops :
  rewrite_op (repeat 0 (max_read_len ops)) <$> ops =
  (λ op, match op with Op_Read n => Op_Transfer n (repeat 0 n) | op => op end) <$> ops.
Proof.
  apply list_fmap_ext. intros i op Hop. apply list_elem_of_lookup_2 in Hop. destruct op; cbn; try done.
  pose proof (max_read_len_ge ops n Hop). by rewrite take_zeroes.
Qed.

(** A transaction whose own transfers are balanced reaches the driver balanced. *)
Lemma rewritten_balanced ops :
  Forall (λ op, read_len op = None → full_duplex op) ops →
  Forall full_duplex (rewrite_op (repeat 0 (max_read_len ops)) <$> ops).
Proof.
  intros Hf. rewrite rewrite_op_zeroes. apply Forall_fmap. eapply Forall_impl; [exact Hf|].
  intros [] H; try exact (H eq_refl). unfold compose. cbn. by rewrite repeat_length.
Qed.

(** On a device that ignores what is sent while it answers, the wrapper changes nothing but the balance. *)
Lemma full_duplex_transparent {S E} `{SpiDevice S E} ops (s : S) :
  (∀ pre n post s, spi_transaction (S := S) (E := E) (pre ++ Op_Read n :: post) s =
                   spi_transaction (pre ++ Op_Transfer n (repeat 0 n) :: post) s) →
  full_duplex_transaction ops s = spi_transaction (E := E) ops s.
Proof.
  intros Hmosi. unfold full_duplex_transaction. destruct (existsb _ _); cbn [negb]; [|done]. rewrite rewrite_op_zeroes.
  cut (∀ pre, spi_transaction (E := E) (pre ++ ((λ op, match op with Op_Read n => Op_Transfer n (repeat 0 n) | op => op end) <$> ops)) s =
              spi_transaction (pre ++ ops) s); [intros Hc; apply (Hc [])|].
  induction ops as [|op ops IH]; intros pre; [done|]. cbn [fmap list_fmap].
  destruct op; rewrite ?Hmosi, (cons_middle _ pre (list_fmap _ _ _ _)), (cons_middle _ pre ops), !app_assoc; apply IH.
Qed.

(** ** Credentials of the portal *)

Lemma hexdigit_value a : is_ascii_hexdigit a = true → ∃ v, hex_digit (byte_of a) = Some v ∧ 0 ≤ v < 16.
Proof.
  unfold is_ascii_hexdigit. destruct (hex_value (byte_of a)) as [v|] eqn:E; [|done]. intros _. exists v.
  split; [exact E | by eapply hex_value_range].
Qed.

(** Digits in pairs are read to the end. *)
Lemma hex_pairs_ok n s :
  String.length s = (2 * n)%nat → str_forall is_ascii_hexdigit s = true →
  ∃ l, hex_pairs (as_bytes s) = Some l ∧ length l = n ∧ Forall (λ b, 0 ≤ b < 256) l.
Proof.
  revert s. induction n as [|n IH]; intros s Hl Hs.
  { destruct s; [|done]. exists []. by repeat split. }
  destruct s as [|h [|l s]]; [done|cbn in Hl; lia|]. cbn in Hl. cbn [str_forall] in Hs.
  apply andb_true_iff in Hs as [Hh Hs]. apply andb_true_iff in Hs as [Hlo Hs].
  destruct (hexdigit_value _ Hh) as (hi & Ehi & Rhi), (hexdigit_value _ Hlo) as (lo & Elo & Rlo).
  destruct (IH s ltac:(lia) Hs) as (rest & Er & Hr & Hb).
  change (as_bytes (String h (String l s))) with (byte_of h :: byte_of l :: as_bytes s). cbn [hex_pairs].
  rewrite Ehi, Elo, Er. cbn [mbind option_bind]. eexists. split; [done|]. split; [cbn; by rewrite Hr|].
  constructor; [|done]. rewrite Z.mod_small by (rewrite Z.shiftl_mul_pow2; lia). by apply nibbles_range.
Qed.

Lemma parse_hex8_ok v : hex_ok EUI_HEX_LEN v → ∃ l, parse_hex8 v = Some l ∧ length l = 8%nat ∧ Forall (λ b, 0 ≤ b < 256) l.
Proof.
  intros [Hl Hs]. unfold parse_hex8. rewrite Hl. apply hex_pairs_ok; [|done]. unfold str_len, EUI_HEX_LEN in Hl. lia.
Qed.

Lemma parse_hex16_ok v : hex_ok APP_KEY_HEX_LEN v → ∃ l, parse_hex16 v = Some l ∧ length l = 16%nat ∧ Forall (λ b, 0 ≤ b < 256) l.
Proof.
  intros [Hl Hs]. unfold parse_hex16. rewrite Hl. apply hex_pairs_ok; [|done]. unfold str_len, APP_KEY_HEX_LEN in Hl. lia.
Qed.

(** The credentials of a configuration that the portal accepted for a LoRaWAN device are always read: identifiers of 8 bytes and a key of 16. *)
Lemma form_keys_load body c r :
  parse_form body LorawanFieldDevice = Ok c →
  ∃ l cfg, lora c = Some l ∧ from_hex_strings r (dev_eui_hex l) (join_eui_hex l) (app_key_hex l) = Some cfg ∧
    length (dev_eui cfg) = 8%nat ∧ length (app_eui cfg) = 8%nat ∧ length (app_key cfg) = 16%nat ∧
    Forall (λ b, 0 ≤ b < 256) (dev_eui cfg ++ app_eui cfg ++ app_key cfg).
Proof.
  intros Hp.
  destruct (parse_form_answers body LorawanFieldDevice) as [(c' & E & Hd & _)|(_ & L & _ & _ & _ & _ & E)];
    rewrite Hp in E; [injection E as <-|done].
  destruct Hd as (_ & _ & _ & _ & _ & _ & (_ & l & Hl & H1 & H2 & H3)). exists l. rewrite Hl.
  destruct H1 as [_ H1], H2 as [_ H2], H3 as [_ H3].
  destruct (parse_hex8_ok _ H1) as (x & Ex & Lx & Bx), (parse_hex8_ok _ H2) as (y & Ey & Ly & By), (parse_hex16_ok _ H3) as (z & Ez & Lz & Bz).
  exists (mkLoraConfig r y x z OTA_COMMAND_PORT). unfold from_hex_strings. rewrite Ex, Ey, Ez.
  repeat (split; [done|]). by repeat (apply Forall_app; split).
Qed.
