(* ===== verification/WaitList.v ===== *)
(** * WaitList: waits on a condition that another thread changes ([wait_list.rs] of juggler)

    Every access of the list and every check of the condition is one atomic step of a thread of
    its own; a waker is the task it wakes.  The ids are a [u64]. *)
From S2P Require Import Prelude.
Open Scope Z_scope.

(** ** The list *)

(** Next id, and the registered pairs of id and waker. *)
Record WaitList := mkWaitList { wl_next : Z; wl_entries : list (Z * Z) }.

Definition WaitList_new : WaitList := mkWaitList 0 [].

Definition set_waker (id waker : Z) (l : list (Z * Z)) : list (Z * Z) :=
  map (λ e, if decide (e.1 = id) then (id, waker) else e) l.

Definition wl_register (id : option Z) (waker : Z) (w : WaitList) : Z * WaitList :=
  let '(id, next) := match id with Some id => (id, wl_next w) | None => (wl_next w, (wl_next w + 1) `mod` (u64_max + 1)) end in
  (id, mkWaitList next (if decide (id ∈ map fst (wl_entries w)) then set_waker id waker (wl_entries w) else wl_entries w ++ [(id, waker)])).

Definition wl_unregister (id : Z) (w : WaitList) : WaitList := mkWaitList (wl_next w) (filter (λ e, e.1 ≠ id) (wl_entries w)).

(** [wake_all] takes the entries, then wakes them. *)
Definition wl_take (w : WaitList) : list (Z * Z) * WaitList := (wl_entries w, mkWaitList (wl_next w) []).

Definition wl_len (w : WaitList) : nat := length (wl_entries w).
Definition wl_is_empty (w : WaitList) : bool := bool_decide (wl_len w = 0%nat).

(** ** The futures *)

Section wait.
Context {St T : Type} (check : St → option T * St).

(** Where a [Wait] is: not polled yet; in [poll], about to check, to register, to check again, to
    remove its entry; or parked, or finished. *)
Inductive WaitPc := WP_New | WP_Check | WP_Register | WP_Again | WP_Finish (v : T) | WP_Parked | WP_Done (v : T).

(** [w_woken]: the task was woken since the future was last polled. *)
Record Wait := mkWait { w_pc : WaitPc; w_id : option Z; w_task : Z; w_woken : bool }.

Definition Wait_new (task : Z) : Wait := mkWait WP_New None task false.

(** One atomic step of [poll]. *)
Definition wait_step (s : St) (l : WaitList) (w : Wait) : St * WaitList * Wait :=
  match w_pc w with
  | WP_Check =>
      let '(r, s) := check s in
      (s, l, mkWait (match r with Some v => WP_Finish v | None => WP_Register end) (w_id w) (w_task w) (w_woken w))
  | WP_Register =>
      let '(id, l) := wl_register (w_id w) (w_task w) l in
      (s, l, mkWait WP_Again (Some id) (w_task w) (w_woken w))
  | WP_Again =>
      let '(r, s) := check s in
      (s, l, mkWait (match r with Some v => WP_Finish v | None => WP_Parked end) (w_id w) (w_task w) (w_woken w))
  | WP_Finish v =>
      (s, match w_id w with Some id => wl_unregister id l | None => l end, mkWait (WP_Done v) None (w_task w) (w_woken w))
  | WP_New | WP_Parked | WP_Done _ => (s, l, w)
  end.

(** The future is polled, the first time or again, perhaps by another task: the wake-up is used. *)
Definition wait_poll (task : Z) (w : Wait) : Wait := mkWait WP_Check (w_id w) task false.

Definition wake_task (task : Z) (w : Wait) : Wait := if decide (w_task w = task) then mkWait (w_pc w) (w_id w) task true else w.

(** The futures ([None] once dropped), threads that changed the condition and did not call [wake_all] yet, and
    entries taken by [wake_all] that are not woken yet. *)
Record WaitSystem := mkSystem {
  shared : St; wlist : WaitList; waits : list (option Wait); owed : nat; in_flight : list (Z * Z) }.

Inductive wait_sys : WaitSystem → WaitSystem → Prop :=
| wsy_new y task : wait_sys y (mkSystem (shared y) (wlist y) (waits y ++ [Some (Wait_new task)]) (owed y) (in_flight y))
| wsy_step y i w :
    waits y !! i = Some (Some w) →
    wait_sys y (let '(s, l, w) := wait_step (shared y) (wlist y) w in mkSystem s l (<[i := Some w]> (waits y)) (owed y) (in_flight y))
| wsy_poll y i w task :
    waits y !! i = Some (Some w) → w_pc w = WP_New ∨ w_pc w = WP_Parked →
    wait_sys y (mkSystem (shared y) (wlist y) (<[i := Some (wait_poll task w)]> (waits y)) (owed y) (in_flight y))
| wsy_drop y i w :
    waits y !! i = Some (Some w) →
    wait_sys y (mkSystem (shared y) (match w_id w with Some id => wl_unregister id (wlist y) | None => wlist y end)
                  (<[i := None]> (waits y)) (owed y) (in_flight y))
| wsy_change y s : wait_sys y (mkSystem s (wlist y) (waits y) (1 + owed y) (in_flight y))
| wsy_take y n :
    owed y = S n →
    wait_sys y (let '(taken, l) := wl_take (wlist y) in mkSystem (shared y) l (waits y) n (in_flight y ++ taken))
| wsy_wake y id task rest :
    in_flight y = (id, task) :: rest →
    wait_sys y (mkSystem (shared y) (wlist y) (map (fmap (wake_task task)) (waits y)) (owed y) rest).

Inductive wait_reach (s0 : St) : WaitSystem → Prop :=
| wr_start : wait_reach s0 (mkSystem s0 WaitList_new [] 0 [])
| wr_step y y' : wait_reach s0 y → wait_sys y y' → wait_reach s0 y'.

(** A check that finds nothing changes nothing. *)
Definition check_pure : Prop := ∀ s s', check s = (None, s') → s' = s.

(** ** No wake-up is lost *)

(** Ids are handed out once as long as fewer than 2^64 futures were made. *)
Definition few_waits (y : WaitSystem) : Prop := Z.of_nat (length (waits y)) ≤ u64_max.

Definition id_of (w : option Wait) : option Z := w ← w; w_id w.

(** A future that may still ask for an id. *)
Definition unregistered (w : option Wait) : nat :=
  match w with
  | Some w => match w_id w, w_pc w with None, (WP_New | WP_Check | WP_Register) => 1 | _, _ => 0 end
  | None => 0
  end.

#[local] Arguments unregistered : simpl never.

(** Ids of live futures are distinct, and every entry is of a live future. *)
Definition ids_ok (y : WaitSystem) : Prop :=
  0 ≤ wl_next (wlist y) ∧ wl_next (wlist y) + Z.of_nat (sum_list_with unregistered (waits y)) ≤ Z.of_nat (length (waits y)) ∧
  (∀ i id, waits y !! i ≫= id_of = Some id → 0 ≤ id < wl_next (wlist y)) ∧
  (∀ i j id, waits y !! i ≫= id_of = Some id → waits y !! j ≫= id_of = Some id → i = j) ∧
  (∀ e, e ∈ wl_entries (wlist y) → ∃ i, waits y !! i ≫= id_of = Some e.1).

Definition listed (y : WaitSystem) (w : Wait) : Prop := ∃ id, w_id w = Some id ∧ (id, w_task w) ∈ wl_entries (wlist y).
Definition to_wake (y : WaitSystem) (w : Wait) : Prop := w_woken w = true ∨ w_task w ∈ map snd (in_flight y).

(** A registered future is in the list under its task, or it is or will be woken. *)
Definition wait_ok (y : WaitSystem) (w : Wait) : Prop :=
  match w_pc w with
  | WP_Again => is_Some (w_id w) ∧ (to_wake y w ∨ listed y w)
  | WP_Parked => is_Some (w_id w) ∧ (to_wake y w ∨ listed y w ∧ ((check (shared y)).1 = None ∨ (0 < owed y)%nat))
  | WP_Done _ => w_id w = None
  | _ => True
  end.

Definition wait_inv (y : WaitSystem) : Prop := ids_ok y ∧ ∀ i w, waits y !! i = Some (Some w) → wait_ok y w.

Lemma sum_insert (l : list (option Wait)) i w w' : l !! i = Some w →
  (sum_list_with unregistered (<[i := w']> l) + unregistered w = sum_list_with unregistered l + unregistered w')%nat.
Proof. revert i. induction l as [|x l IH]; intros [|i] E; try done; [injection E as ->; cbn; lia|]. specialize (IH i E).
  change (<[Datatypes.S i:=w']> (x :: l)) with (x :: <[i:=w']> l). cbn [sum_list_with]. lia. Qed.

(** Replacing a future by one with the same id. *)
Lemma ids_same y i w w' s :
  ids_ok y → waits y !! i = Some (Some w) → w_id w' = w_id w → (unregistered (Some w') ≤ unregistered (Some w))%nat →
  ids_ok (mkSystem s (wlist y) (<[i := Some w']> (waits y)) (owed y) (in_flight y)).
Proof.
  intros (H0 & Hs & Hr & Hu & He) Hi Hid Hun. pose proof (sum_insert _ _ _ (Some w') Hi) as Hsum.
  assert (∀ j, <[i := Some w']> (waits y) !! j ≫= id_of = waits y !! j ≫= id_of) as Hl.
  { intros j. destruct (decide (i = j)) as [<-|]; [|by rewrite list_lookup_insert_ne]. rewrite list_lookup_insert_eq by (by eapply lookup_lt_Some). rewrite Hi. exact Hid. }
  unfold ids_ok. cbn. rewrite length_insert. split; [done|]. split; [lia|]. split; [intros j id; rewrite Hl; apply Hr|].
  split; [intros j k id; rewrite !Hl; apply Hu|]. intros e Hin. destruct (He e Hin) as [j Hj]. exists j. by rewrite Hl.
Qed.

(** A future loses its id, and its entry goes. *)
Lemma ids_unregister y i w w' :
  ids_ok y → waits y !! i = Some (Some w) → id_of w' = None → (unregistered w' = 0)%nat →
  let l := match w_id w with Some id => wl_unregister id (wlist y) | None => wlist y end in
  ids_ok (mkSystem (shared y) l (<[i := w']> (waits y)) (owed y) (in_flight y)).
Proof.
  intros (H0 & Hs & Hr & Hu & He) Hi Hid Hun l. pose proof (sum_insert _ _ _ w' Hi) as Hsum.
  assert (wl_next l = wl_next (wlist y)) as Hn by (unfold l; by destruct (w_id w)).
  assert (∀ j id, <[i := w']> (waits y) !! j ≫= id_of = Some id → i ≠ j ∧ waits y !! j ≫= id_of = Some id) as Hl.
  { intros j id. destruct (decide (i = j)) as [<-|Hne]; [|by rewrite list_lookup_insert_ne]. rewrite list_lookup_insert_eq by (by eapply lookup_lt_Some). cbn. by rewrite Hid. }
  unfold ids_ok. cbn [wlist waits]. rewrite Hn, length_insert. split; [done|]. split; [lia|]. split; [intros j id [_ ?]%Hl; by eapply Hr|].
  split; [intros j k id [_ Hj]%Hl [_ Hk]%Hl; by eapply Hu|]. intros e Hin.
  assert (e ∈ wl_entries (wlist y) ∧ w_id w ≠ Some e.1) as [Hin' Hne].
  { unfold l in Hin. destruct (w_id w) as [id|]; [|done]. cbn in Hin. apply list_elem_of_filter in Hin as [Hne Hin]. split; [done|]. by intros [= ->]. }
  destruct (He e Hin') as [j Hj]. exists j. rewrite list_lookup_insert_ne; [done|]. intros <-. rewrite Hi in Hj. cbn in Hj. congruence.
Qed.

Lemma set_waker_fst id waker l : map fst (set_waker id waker l) = map fst l.
Proof. unfold set_waker. rewrite map_map. apply map_ext. intros [a b]. cbn. by case_decide. Qed.

Lemma register_entries id waker w :
  ∀ e, e ∈ wl_entries (wl_register (Some id) waker w).2 ↔ e = (id, waker) ∨ (e ∈ wl_entries w ∧ e.1 ≠ id).
Proof.
  intros [a b]. unfold wl_register. cbn. destruct (decide _) as [Hin|Hin].
  - unfold set_waker. rewrite list_elem_of_fmap. split.
    + intros ([a' b'] & E & He). cbn in E. case_decide as Ha; [by left|]. injection E as -> ->. by right.
    + intros [E|[He Hne]]; cbn in *.
      * apply list_elem_of_fmap in Hin as ([a' b'] & Ha & He). exists (a', b'). cbn in *. split; [|done]. rewrite decide_True by done. by rewrite E.
      * exists (a, b). cbn. by rewrite decide_False.
  - rewrite elem_of_app, list_elem_of_singleton. split.
    + intros [He|He]; [right; split; [done|]|by left]. cbn. intros ->. apply Hin. apply list_elem_of_fmap. by exists (id, b).
    + intros [He|[He _]]; auto.
Qed.

(** Registering under a new id is registering under that id, and the counter moves. *)
Lemma register_new waker w :
  wl_next w < u64_max + 1 → 0 ≤ wl_next w →
  wl_register None waker w = (wl_next w, mkWaitList (if decide (wl_next w = u64_max) then 0 else wl_next w + 1) (wl_entries (wl_register (Some (wl_next w)) waker w).2)).
Proof.
  intros H1 H2. unfold wl_register. cbn. f_equal. f_equal. case_decide as E; [by rewrite E, Z.mod_same by done|]. apply Z.mod_small. lia.
Qed.

Lemma wait_ok_mono y y' w :
  wait_ok y w → (to_wake y w → to_wake y' w) → (listed y w → listed y' w ∨ to_wake y' w) →
  ((check (shared y)).1 = None ∨ (0 < owed y)%nat → (check (shared y')).1 = None ∨ (0 < owed y')%nat ∨ to_wake y' w) → wait_ok y' w.
Proof. unfold wait_ok. intros Hw H1 H2 H3. destruct (w_pc w); naive_solver. Qed.

(** The other futures keep their ids. *)
Lemma others_id y i j w id :
  ids_ok y → waits y !! i ≫= id_of = Some id → i ≠ j → waits y !! j = Some (Some w) → w_id w ≠ Some id.
Proof. intros (_ & _ & _ & Hu & _) Hi Hne Hj E. apply Hne. apply (Hu i j id); [done|]. by rewrite Hj. Qed.

Lemma step_others y i w s' l' w' :
  wait_inv y → waits y !! i = Some (Some w) →
  ids_ok (mkSystem s' l' (<[i := Some w']> (waits y)) (owed y) (in_flight y)) →
  (∀ j v, i ≠ j → waits y !! j = Some (Some v) → listed y v → ∃ id, w_id v = Some id ∧ (id, w_task v) ∈ wl_entries l') →
  ((check (shared y)).1 = None → (check s').1 = None) →
  wait_ok (mkSystem s' l' (<[i := Some w']> (waits y)) (owed y) (in_flight y)) w' →
  wait_inv (mkSystem s' l' (<[i := Some w']> (waits y)) (owed y) (in_flight y)).
Proof.
  intros [Hids Hok] Hi Hids' Hl Hc Hw'. split; [done|]. intros j v Hj. cbn in Hj. destruct (decide (i = j)) as [<-|Hne].
  - rewrite list_lookup_insert_eq in Hj by (by eapply lookup_lt_Some). by injection Hj as <-.
  - rewrite list_lookup_insert_ne in Hj by done. apply (wait_ok_mono y); [by eapply Hok|done|intros; left; by eapply (Hl j)|]. cbn. naive_solver.
Qed.

Lemma register_inv y i w :
  wait_inv y → few_waits y → waits y !! i = Some (Some w) → w_pc w = WP_Register →
  wait_inv (let '(s, l, w) := wait_step (shared y) (wlist y) w in mkSystem s l (<[i := Some w]> (waits y)) (owed y) (in_flight y)).
Proof.
  intros Hinv Hf Hi Hp. pose proof Hinv as [Hids _]. pose proof Hids as (H0 & Hs & Hr & Hu & He). unfold wait_step. rewrite Hp.
  destruct (wl_register (w_id w) (w_task w) (wlist y)) as [id l] eqn:El.
  assert (wl_entries l = wl_entries (wl_register (Some id) (w_task w) (wlist y)).2 ∧ wl_next (wlist y) ≤ wl_next l ∧ 0 ≤ id < wl_next l ∧
          (match w_id w with Some i => id = i ∧ wl_next l = wl_next (wlist y) | None => id = wl_next (wlist y) ∧ wl_next l = wl_next (wlist y) + 1 end)) as (Hen & Hn & Hidr & Hid).
  { destruct (w_id w) as [id0|] eqn:Ew.
    - assert (0 ≤ id0 < wl_next (wlist y)) as ? by (apply (Hr i); rewrite Hi; exact Ew).
      assert (id = id0 ∧ wl_next l = wl_next (wlist y)) as [-> Hnx] by (unfold wl_register in El; by injection El as <- <-).
      split; [by rewrite El|]. rewrite Hnx. split_and!; lia || done.
    - pose proof (sum_insert _ _ _ None Hi) as Hsum. unfold few_waits in Hf.
      assert (unregistered (Some w) = 1%nat) as Hun by (unfold unregistered; by rewrite Ew, Hp). rewrite Hun in Hsum. change (unregistered None) with 0%nat in Hsum.
      rewrite register_new in El by lia. rewrite decide_False in El by lia. injection El as <- <-. cbn. split_and!; lia || done. }
  assert (∀ j v, i ≠ j → waits y !! j = Some (Some v) → w_id v ≠ Some id) as Hother.
  { intros j v Hne Hj E. destruct (w_id w) as [id0|] eqn:Ew.
    - destruct Hid as [-> _]. apply (others_id y i j v id0 Hids); [by rewrite Hi|done|done|done].
    - destruct Hid as [-> _]. destruct (Hr j (wl_next (wlist y))) as [_ ?]; [by rewrite Hj|lia]. }
  set (w' := mkWait WP_Again (Some id) (w_task w) (w_woken w)).
  assert (∀ j k, <[i := Some w']> (waits y) !! j ≫= id_of = Some k → (i = j ∧ k = id) ∨ (i ≠ j ∧ waits y !! j ≫= id_of = Some k ∧ k ≠ id)) as Hl.
  { intros j k. destruct (decide (i = j)) as [<-|Hne]; [rewrite list_lookup_insert_eq by (by eapply lookup_lt_Some); intros [= <-]; by left|].
    rewrite list_lookup_insert_ne by done. intros E. right. split; [done|]. split; [done|]. intros ->. destruct (waits y !! j) as [[v|]|] eqn:Ej; try done.
    by apply (Hother j v Hne Ej). }
  apply (step_others y i w); [done|done| | |done|].
  - unfold ids_ok. cbn [wlist waits]. rewrite length_insert. pose proof (sum_insert _ _ _ (Some w') Hi) as Hsum.
    split; [lia|]. split.
    { assert (unregistered (Some w') = 0%nat) as E0 by done.
      assert (unregistered (Some w) = match w_id w with Some _ => 0 | None => 1 end%nat) as E1 by (unfold unregistered; rewrite Hp; by destruct (w_id w)).
      rewrite E0, E1 in Hsum. destruct (w_id w); destruct Hid as [_ ->]; lia. }
    split; [intros j k [[_ ->]|(_ & Hj & _)]%Hl; [lia|]; pose proof (Hr j k Hj); lia|].
    split; [intros j k m Hj%Hl Hk%Hl; destruct Hj as [[<- ->]|(? & Hj & ?)], Hk as [[<- Ek]|(? & Hk & ?)]; try done; by eapply Hu|].
    intros e Hin. rewrite Hen in Hin. apply register_entries in Hin as [->|[Hin Hne]].
    + exists i. rewrite list_lookup_insert_eq by (by eapply lookup_lt_Some). done.
    + destruct (He e Hin) as [j Hj]. exists j. destruct (decide (i = j)) as [<-|]; [|by rewrite list_lookup_insert_ne].
      rewrite Hi in Hj. cbn in Hj. rewrite Hj in Hid. destruct Hid as [E _]. by destruct Hne.
  - intros j v Hne Hj (k & Hk & Hin). exists k. split; [done|]. rewrite Hen. apply register_entries. right. split; [done|]. cbn. intros ->. by apply (Hother j v).
  - unfold wait_ok. cbn. split; [by eexists|]. right. exists id. split; [done|]. cbn. rewrite Hen. apply register_entries. by left.
Qed.

(** A step of [poll] that keeps the list. *)
Lemma quiet_wait_step y i w s' pc' :
  wait_inv y → waits y !! i = Some (Some w) → w_id w = None ∧ pc' = WP_Register ∨ is_Some (w_id w) ∨ (∃ v, pc' = WP_Finish v) →
  (w_id w = None → pc' = WP_Register → w_pc w = WP_Check) →
  ((check (shared y)).1 = None → (check s').1 = None) →
  let w' := mkWait pc' (w_id w) (w_task w) (w_woken w) in
  wait_ok (mkSystem s' (wlist y) (<[i := Some w']> (waits y)) (owed y) (in_flight y)) w' →
  wait_inv (mkSystem s' (wlist y) (<[i := Some w']> (waits y)) (owed y) (in_flight y)).
Proof.
  intros Hinv Hi Hor Hp Hc w' Hw'. apply (step_others y i w); try done.
  apply (ids_same y i w); [apply Hinv|done|done|]. unfold unregistered. cbn. destruct (w_id w); [lia|].
  destruct Hor as [[_ ->]|[[? [=]]|[v ->]]]; [|lia]. by rewrite Hp.
Qed.

Lemma poll_inv y i w :
  check_pure → wait_inv y → few_waits y → waits y !! i = Some (Some w) →
  wait_inv (let '(s, l, w) := wait_step (shared y) (wlist y) w in mkSystem s l (<[i := Some w]> (waits y)) (owed y) (in_flight y)).
Proof.
  intros Hpure Hinv Hf Hi. destruct (w_pc w) eqn:Ep; [| |by apply register_inv| | |..].
  - unfold wait_step. rewrite Ep. destruct y as [s l ws o f]. cbn in *. by rewrite list_insert_id.
  - unfold wait_step. rewrite Ep. destruct (check (shared y)) as [[v|] s'] eqn:Ec; apply quiet_wait_step; try done; rewrite ?Ec; try done; eauto.
    + destruct (w_id w); eauto.
    + apply Hpure in Ec as Hs. subst s'. by rewrite Ec.
  - pose proof (proj2 Hinv i w Hi) as Hw. unfold wait_ok in Hw. rewrite Ep in Hw. destruct Hw as [Hid Hw].
    unfold wait_step. rewrite Ep. destruct (check (shared y)) as [[v|] s'] eqn:Ec; apply quiet_wait_step; try done; rewrite ?Ec; try done; eauto.
    + apply Hpure in Ec as Hs. subst s'. by rewrite Ec.
    + apply Hpure in Ec as Hs. subst s'. unfold wait_ok. cbn. split; [done|]. rewrite Ec. destruct Hw as [Hw|Hw]; [by left|right]. split; [exact Hw|by left].
  - unfold wait_step. rewrite Ep. set (w' := mkWait _ _ _ _). apply (step_others y i w); try done.
    + apply (ids_unregister y i w (Some w') (proj1 Hinv) Hi); done.
    + intros j u Hne Hj (k & Hk & Hin). exists k. split; [done|]. destruct (w_id w) as [id|] eqn:Eid; [|done]. cbn. apply list_elem_of_filter. split; [|done].
      cbn. intros ->. apply (others_id y i j u id (proj1 Hinv)); try done. by rewrite Hi.
  - unfold wait_step. rewrite Ep. destruct y as [s l ws o f]. cbn in *. by rewrite list_insert_id.
  - unfold wait_step. rewrite Ep. destruct y as [s l ws o f]. cbn in *. by rewrite list_insert_id.
Qed.

Lemma wait_sys_inv y y' : check_pure → wait_inv y → few_waits y' → wait_sys y y' → wait_inv y'.
Proof.
  intros Hpure Hinv Hf Hstep. pose proof Hinv as [Hids Hok]. pose proof Hids as (H0 & Hs & Hr & Hu & He).
  destruct Hstep as [y task|y i w Hi|y i w task Hi Hp|y i w Hi|y s|y n Ho|y id task rest Hfl].
  - assert (∀ j, (waits y ++ [Some (Wait_new task)]) !! j ≫= id_of = waits y !! j ≫= id_of) as Hl.
    { intros j. destruct (decide (j < length (waits y))%nat) as [Hj|Hj]; [by rewrite lookup_app_l|]. rewrite lookup_app_r, (lookup_ge_None_2 (waits y)) by lia.
      by destruct (j - _)%nat as [|[|]]. }
    split.
    + unfold ids_ok. cbn. rewrite sum_list_with_app, length_app. cbn. change (unregistered (Some (Wait_new task))) with 1%nat. split; [done|]. split; [lia|].
      split; [intros j k; rewrite Hl; apply Hr|]. split; [intros j k m; rewrite !Hl; apply Hu|]. intros e Hin. destruct (He e Hin) as [j Hj]. exists j. by rewrite Hl.
    + intros j v [Hj|[_ Hj]]%lookup_app_Some; cbn in *; [apply (wait_ok_mono y); [by eapply Hok|auto..]; tauto|].
      destruct (j - _)%nat; [|done]. by injection Hj as <-.
  - apply poll_inv; try done. unfold few_waits in *. destruct (wait_step _ _ _) as [[s l] w']. cbn in Hf. by rewrite length_insert in Hf.
  - pose proof (Hok i w Hi) as Hw. unfold wait_ok in Hw. apply (step_others y i w); try done. apply (ids_same y i w); try done.
    unfold unregistered. cbn. destruct Hp as [Hp|Hp]; rewrite Hp in *; [done|]. destruct Hw as [[id Hid] _]. by rewrite Hid.
  - split; [apply (ids_unregister y i w None Hids Hi); done|]. intros j v Hj. cbn in Hj.
    destruct (decide (i = j)) as [<-|Hne]; [by rewrite list_lookup_insert_eq in Hj by (by eapply lookup_lt_Some)|]. rewrite list_lookup_insert_ne in Hj by done.
    apply (wait_ok_mono y); [by eapply Hok|done| |cbn; tauto]. intros (k & Hk & Hin). left. exists k. split; [done|]. cbn.
    destruct (w_id w) as [id|] eqn:Eid; [|done]. cbn. apply list_elem_of_filter. split; [|done]. cbn. intros ->. apply (others_id y i j v id Hids); try done. by rewrite Hi.
  - split; [done|]. intros j v Hj. apply (wait_ok_mono y); [by eapply Hok|done|by left|cbn; intros _; right; left; lia].
  - cbn. split.
    + unfold ids_ok. cbn. split_and!; try done. intros e Hin. by apply elem_of_nil in Hin.
    + intros j v Hj. pose proof (Hok j v Hj) as Hv.
      assert (listed y v → to_wake (mkSystem (shared y) (mkWaitList (wl_next (wlist y)) []) (waits y) n (in_flight y ++ wl_entries (wlist y))) v) as Hl.
      { intros (k & _ & Hin). right. cbn. rewrite map_app. apply elem_of_app. right. apply list_elem_of_fmap. by exists (k, w_task v). }
      assert (to_wake y v → to_wake (mkSystem (shared y) (mkWaitList (wl_next (wlist y)) []) (waits y) n (in_flight y ++ wl_entries (wlist y))) v) as Ht.
      { intros [?|?]; [by left|right]. cbn. rewrite map_app. apply elem_of_app. by left. }
      unfold wait_ok in *. destruct (w_pc v); naive_solver.
  - assert (∀ j, map (fmap (wake_task task)) (waits y) !! j ≫= id_of = waits y !! j ≫= id_of) as Hl.
    { intros j. rewrite list_lookup_fmap. destruct (waits y !! j) as [[v|]|]; try done. cbn. unfold wake_task. by case_decide. }
    assert (sum_list_with unregistered (map (fmap (wake_task task)) (waits y)) = sum_list_with unregistered (waits y)) as Hsum.
    { clear. induction (waits y) as [|[v|] l IH]; cbn; [done|rewrite IH; f_equal; unfold unregistered, wake_task; by case_decide|by rewrite IH]. }
    split.
    + unfold ids_ok. cbn. rewrite Hsum, length_map. split; [done|]. split; [lia|]. split; [intros j k; rewrite Hl; apply Hr|].
      split; [intros j k m; rewrite !Hl; apply Hu|]. intros e Hin. destruct (He e Hin) as [j Hj]. exists j. by rewrite Hl.
    + intros j v Hj. cbn in Hj. rewrite list_lookup_fmap in Hj. destruct (waits y !! j) as [[u|]|] eqn:Ej; try done. cbn in Hj. injection Hj as <-.
      pose proof (Hok j u Ej) as Hv. unfold wake_task. case_decide as Ht.
      * unfold wait_ok, to_wake in *. cbn. destruct (w_pc u); naive_solver.
      * assert (to_wake y u → to_wake (mkSystem (shared y) (wlist y) (map (fmap (wake_task task)) (waits y)) (owed y) rest) u) as Htw.
        { intros [?|Hin]; [by left|right]. rewrite Hfl in Hin. cbn in Hin. apply elem_of_cons in Hin as [?|?]; [congruence|done]. }
        apply (wait_ok_mono y); [done|done|by left|cbn; tauto].
Qed.

Lemma few_mono y y' : wait_sys y y' → few_waits y' → few_waits y.
Proof.
  unfold few_waits. destruct 1; cbn in *; rewrite ?length_app, ?length_insert, ?length_map; cbn; try lia.
  destruct (wait_step _ _ _) as [[s l] w']. cbn. rewrite length_insert. lia.
Qed.

(** One entry per id. *)
Lemma register_nodup id waker l :
  NoDup (map fst (wl_entries l)) → NoDup (map fst (wl_entries (wl_register id waker l).2)).
Proof.
  intros Hl. unfold wl_register. destruct id as [id|]; cbn; (case_decide as Hin; [by rewrite set_waker_fst|]);
    rewrite map_app; apply NoDup_app; (split; [done|]); (split; [by intros ? ? ->%list_elem_of_singleton|apply NoDup_singleton]).
Qed.

Lemma unregister_nodup id l : NoDup (map fst (wl_entries l)) → NoDup (map fst (wl_entries (wl_unregister id l))).
Proof. cbn. intros Hl. eapply sublist_NoDup; [exact Hl|]. apply (fmap_sublist fst), sublist_filter. Qed.

Lemma entries_nodup s0 y : wait_reach s0 y → NoDup (map fst (wl_entries (wlist y))).
Proof.
  induction 1 as [|y y' _ IH Hs]; [apply NoDup_nil_2|]. destruct Hs; cbn; try done; [| |apply NoDup_nil_2].
  - unfold wait_step. destruct (w_pc w); try done.
    + by destruct (check _).
    + pose proof (register_nodup (w_id w) (w_task w) _ IH) as Hn. by destruct (wl_register _ _ _).
    + by destruct (check _).
    + destruct (w_id w); [by apply unregister_nodup|done].
  - destruct (w_id w); [by apply unregister_nodup|done].
Qed.

(** C37: No wake-up is lost. Whatever threads change the condition (each calls [wake_all] afterwards), whatever futures are made, polled by whatever task, and dropped at whatever point: a parked future whose condition holds has been woken since it was last polled, or is among the wakers being woken, or stands in the list while a thread that has yet to call [wake_all] will find it there. And nothing is left behind: every entry of the list belongs to a future that is still alive, at most one to each. *)
Theorem no_wake_lost s0 y i w :
  check_pure → wait_reach s0 y → few_waits y → waits y !! i = Some (Some w) → w_pc w = WP_Parked → is_Some ((check (shared y)).1) →
  (w_woken w = true ∨ w_task w ∈ map snd (in_flight y) ∨ (0 < owed y)%nat ∧ ∃ id, w_id w = Some id ∧ (id, w_task w) ∈ wl_entries (wlist y)) ∧
  (∀ e, e ∈ wl_entries (wlist y) → ∃ j v, waits y !! j = Some (Some v) ∧ w_id v = Some e.1 ∧ ∀ v', w_pc v ≠ WP_Done v') ∧
  NoDup (map fst (wl_entries (wlist y))) ∧
  ∀ j k id, waits y !! j ≫= id_of = Some id → waits y !! k ≫= id_of = Some id → j = k.
Proof.
  intros Hpure Hreach Hf Hi Hp [v Hv].
  assert (wait_inv y) as [Hids Hok].
  { clear Hi Hp Hv. induction Hreach as [|y y' Hr IH Hs]; [|eapply wait_sys_inv; eauto; apply IH; by eapply few_mono].
    split; [|intros i' w'; cbn; by rewrite lookup_nil]. unfold ids_ok. cbn. split; [done|]. split; [lia|].
    split; [intros i' id'; by rewrite lookup_nil|]. split; [intros i' j' id'; by rewrite lookup_nil|]. intros e Hin. by apply elem_of_nil in Hin. }
  split_and!.
  - pose proof (Hok i w Hi) as Hw. unfold wait_ok in Hw. rewrite Hp in Hw. destruct Hw as [_ [[?|?]|[Hl [?|?]]]]; auto. congruence.
  - intros e Hin. destruct Hids as (_ & _ & _ & _ & He). destruct (He e Hin) as [j Hj]. destruct (waits y !! j) as [[u|]|] eqn:Ej; try done.
    exists j, u. split; [done|]. split; [exact Hj|]. intros v' Hd. pose proof (Hok j u Ej) as Hw. unfold wait_ok in Hw. rewrite Hd in Hw. cbn in Hj. congruence.
  - by eapply entries_nodup.
  - by destruct Hids as (_ & _ & _ & Hu & _).
Qed.
End wait.
Arguments mkSystem {St T}.

(** ** A queue as the condition: [arrivals] of the MQTT session *)

Definition pop_check (q : list Z) : option Z * list Z := match q with [] => (None, []) | x :: q => (Some x, q) end.

Definition parked_on (id : Z) (l : list (Z * Z)) (n : nat) (q : list Z) : WaitSystem (St:=list Z) (T:=Z) :=
  mkSystem q (mkWaitList (id + 1) l) [Some (mkWait WP_Parked (Some id) 7 false)] n [].

(** A future polled by task 7 finds nothing, registers, finds nothing again and parks; then a message arrives, and the
    thread that brought it has not called [wake_all] yet. *)
Lemma parked_reach : wait_reach pop_check [] (parked_on 0 [(0, 7)] 1 [5]).
Proof.
  assert (∀ y w, wait_reach pop_check [] y → waits y !! 0%nat = Some (Some w) →
    wait_reach pop_check [] (let '(s, l, w) := wait_step pop_check (shared y) (wlist y) w in mkSystem s l (<[0%nat := Some w]> (waits y)) (owed y) (in_flight y))) as Hstep.
  { intros y w Hr Hw. eapply wr_step; [exact Hr|]. by apply wsy_step. }
  pose proof (wr_step pop_check [] _ _ (wr_start pop_check []) (wsy_new pop_check _ 9)) as H0.
  pose proof (wr_step pop_check [] _ _ H0 (wsy_poll pop_check (mkSystem [] WaitList_new [Some (Wait_new 9)] 0 []) 0%nat (Wait_new 9) 7 eq_refl (or_introl eq_refl))) as H1.
  pose proof (Hstep _ _ H1 eq_refl) as H2. cbn in H2. pose proof (Hstep _ _ H2 eq_refl) as H3. cbn in H3. pose proof (Hstep _ _ H3 eq_refl) as H4. cbn in H4.
  exact (wr_step pop_check [] _ _ H4 (wsy_change pop_check _ [5])).
Qed.

(** Nobody has woken it: it is the entry of the list that the thread will find. *)
Lemma no_wake_lost_witness :
  let y := parked_on 0 [(0, 7)] 1 [5] in
  (0 < owed y)%nat ∧ (0, 7) ∈ wl_entries (wlist y) ∧ NoDup (map fst (wl_entries (wlist y))).
Proof.
  intros y. assert (check_pure pop_check) as Hpure by (intros s s' E; destruct s; [by injection E as <-|discriminate E]).
  destruct (no_wake_lost pop_check [] y 0%nat (mkWait WP_Parked (Some 0) 7 false) Hpure parked_reach ltac:(discriminate)
              eq_refl eq_refl ltac:(by exists 5)) as ([Hw|[Hf|(Ho & id & Hid & Hin)]] & _ & Hn & _).
  - discriminate Hw.
  - by apply elem_of_nil in Hf.
  - injection Hid as <-. by split_and!.
Defined.
