(* ===== verification/MqttConfig.v ===== *)
(** * MqttConfig: configuration types and connection flags of [mqtt/mod.rs]

    [MqttConfig] and [LwtConfig] with their builders, [SessionPhase], [ConnectionEpoch],
    [CallbackScope] and the connect thread.  An atomic operation is one step; what happens
    between two of them is an interleaving. *)
From S2P Require Import Prelude MqttSession MqttOutbox.
Open Scope Z_scope.

(** ** Configuration *)

Definition DEFAULT_MQTT_TASK_STACK_SIZE : Z := 8192.

Record LwtConfig := mkLwt { lwt_topic : string; lwt_payload : list Z; lwt_qos : QoS; lwt_retain : bool }.

Record MqttConfig := mkMqttConfig {
  host : string; port : Z; client_id : string; keep_alive_secs : option Z; connection_timeout_ms : option Z;
  reconnect_timeout_ms : option Z; task_stack_size : Z; mc_lwt : option LwtConfig; mc_username : option string;
  mc_password : option string }.

Definition MqttConfig_new (host : string) (port : Z) (client_id : string) : MqttConfig :=
  mkMqttConfig host port client_id None None None DEFAULT_MQTT_TASK_STACK_SIZE None None None.

Definition with_keep_alive (secs : Z) (c : MqttConfig) : MqttConfig :=
  mkMqttConfig (host c) (port c) (client_id c) (Some secs) (connection_timeout_ms c) (reconnect_timeout_ms c)
    (task_stack_size c) (mc_lwt c) (mc_username c) (mc_password c).

Definition with_timeout (ms : Z) (c : MqttConfig) : MqttConfig :=
  mkMqttConfig (host c) (port c) (client_id c) (keep_alive_secs c) (Some ms) (reconnect_timeout_ms c)
    (task_stack_size c) (mc_lwt c) (mc_username c) (mc_password c).

Definition with_reconnect_timeout (ms : Z) (c : MqttConfig) : MqttConfig :=
  mkMqttConfig (host c) (port c) (client_id c) (keep_alive_secs c) (connection_timeout_ms c) (Some ms)
    (task_stack_size c) (mc_lwt c) (mc_username c) (mc_password c).

Definition with_lwt (lwt : LwtConfig) (c : MqttConfig) : MqttConfig :=
  mkMqttConfig (host c) (port c) (client_id c) (keep_alive_secs c) (connection_timeout_ms c) (reconnect_timeout_ms c)
    (task_stack_size c) (Some lwt) (mc_username c) (mc_password c).

Definition with_auth (username password : string) (c : MqttConfig) : MqttConfig :=
  mkMqttConfig (host c) (port c) (client_id c) (keep_alive_secs c) (connection_timeout_ms c) (reconnect_timeout_ms c)
    (task_stack_size c) (mc_lwt c) (Some username) (Some password).

Definition with_username_only (username : string) (c : MqttConfig) : MqttConfig :=
  mkMqttConfig (host c) (port c) (client_id c) (keep_alive_secs c) (connection_timeout_ms c) (reconnect_timeout_ms c)
    (task_stack_size c) (mc_lwt c) (Some username) None.

Definition with_task_stack_size (bytes : Z) (c : MqttConfig) : MqttConfig :=
  mkMqttConfig (host c) (port c) (client_id c) (keep_alive_secs c) (connection_timeout_ms c) (reconnect_timeout_ms c)
    bytes (mc_lwt c) (mc_username c) (mc_password c).

(** ** The phase a handle sees *)

Definition ATTEMPTING : Z := 0.
Definition LOST : Z := 1.

(** [SessionPhase] is one atomic byte. *)
Definition SessionPhase : Type := Z.
Definition SessionPhase_new : SessionPhase := ATTEMPTING.
Definition attempt_started (_ : SessionPhase) : SessionPhase := ATTEMPTING.
Definition session_lost (_ : SessionPhase) : SessionPhase := LOST.
Definition phase_state (ready : bool) (p : SessionPhase) : MqttConnectionState :=
  if ready then MC_Connected else if p =? LOST then MC_Disconnected else MC_Connecting.

(** ** The connection epoch *)

Definition EpochToken : Type := Z.
Definition ConnectionEpoch_new : Z := 0.

(** The value [advance] tries to store over [current]. *)
Definition advanced (current : Z) : Z := u32_wrap (Z.shiftl (u32_wrapping_add (Z.shiftr current 1) 1) 1).
Definition epoch_confirm (raw : Z) (token : EpochToken) : bool * Z :=
  if raw =? token then (true, Z.lor token 1) else (false, raw).
Definition epoch_is_connected (raw : Z) : bool := Z.land raw 1 =? 1.
Definition epoch_is_current (raw : Z) (token : EpochToken) : bool := raw =? token.

(** Threads in [advance]: the value each last saw.  A weak exchange may fail for no reason. *)
Inductive EpochEvent := EE_Load (n : nat) | EE_Exchange (n : nat) (spurious : bool) | EE_Confirm (token : EpochToken).

Record EpochRun := mkEpochRun { raw : Z; seen : gmap nat Z; tokens : list EpochToken; confirmed : list bool }.

Definition epoch_step (e : EpochEvent) (r : EpochRun) : EpochRun :=
  match e with
  | EE_Load n => mkEpochRun (raw r) (<[n := raw r]> (seen r)) (tokens r) (confirmed r)
  | EE_Exchange n spurious =>
      match seen r !! n with
      | None => r
      | Some current =>
          if (raw r =? current) && negb spurious
          then mkEpochRun (advanced current) (delete n (seen r)) (tokens r ++ [advanced current]) (confirmed r)
          else mkEpochRun (raw r) (<[n := raw r]> (seen r)) (tokens r) (confirmed r)
      end
  | EE_Confirm token =>
      let '(ok, raw') := epoch_confirm (raw r) token in
      mkEpochRun raw' (seen r) (tokens r) (confirmed r ++ [ok])
  end.

Definition epoch_run (events : list EpochEvent) : EpochRun :=
  foldl (λ r e, epoch_step e r) (mkEpochRun ConnectionEpoch_new ∅ [] []) events.

(** ** Callback scopes: the thread-local depth *)

Definition scope_enter (depth : Z) : Z := u32_wrapping_add depth 1.
Definition scope_drop (depth : Z) : Z := Z.max 0 (depth - 1).
Definition in_callback (depth : Z) : bool := 0 <? depth.

(** ** The connect thread *)

Section connect.
  Context {C : Type} (subscribe_topic : string → QoS → C → bool * C).

(** The body of the thread, under the lock: a failing subscription is logged. *)
Definition connect_body (prelude : option (C → C)) (topics : list (string * QoS)) (client : C) : C :=
  foldl (λ c t, (subscribe_topic t.1 t.2 c).2) (match prelude with Some f => f client | None => client end) topics.

(** What the caller is told, and the client afterwards, where [spawned] is what the system
    answers and [poisoned] is the state of the client's mutex. *)
Definition spawn_connect_thread (spawned poisoned : bool) (prelude : option (C → C)) (topics : list (string * QoS)) (client : C) :
    bool * C :=
  match prelude, topics with
  | None, [] => (true, client)
  | _, _ => if spawned then (true, if poisoned then client else connect_body prelude topics client) else (false, client)
  end.

End connect.

(** ** Properties *)

(** The epoch counts generations modulo 2^31, beside one bit. *)
Definition epoch_raw (gen : Z) (bit : bool) : Z := 2 * (gen `mod` 2147483648) + Z.b2z bit.

Lemma epoch_raw_range gen bit : is_u32 (epoch_raw gen bit).
Proof. unfold is_u32, epoch_raw, u32_max. pose proof (Z.mod_pos_bound gen 2147483648 ltac:(lia)). destruct bit; cbn [Z.b2z]; lia. Qed.

Lemma advanced_raw gen bit : advanced (epoch_raw gen bit) = epoch_raw (gen + 1) false.
Proof.
  unfold advanced, epoch_raw, u32_wrapping_add, u32_wrap. rewrite Z.shiftr_div_pow2, Z.shiftl_mul_pow2 by lia.
  change (2 ^ 1) with 2. pose proof (Z.mod_pos_bound gen 2147483648 ltac:(lia)) as Hg.
  replace ((2 * (gen `mod` 2147483648) + Z.b2z bit) `div` 2) with (gen `mod` 2147483648)
    by (rewrite Z.mul_comm, Z.div_add_l by lia; rewrite Z.div_small by (destruct bit; cbn; lia); lia).
  rewrite (Z.mod_small (_ + 1) 4294967296) by lia. cbn [Z.b2z]. rewrite Z.add_0_r.
  change 4294967296 with (2147483648 * 2). rewrite Z.mul_mod_distr_r, Z.add_mod_idemp_l by lia. lia.
Qed.

Lemma confirmed_raw gen : Z.lor (epoch_raw gen false) 1 = epoch_raw gen true.
Proof.
  unfold epoch_raw. cbn [Z.b2z]. rewrite Z.add_0_r. set (g := gen `mod` _). rewrite Z.lor_comm.
  apply Z.bits_inj'. intros n Hn. rewrite Z.lor_spec. destruct (Z.eq_dec n 0) as [->|Hz].
  - rewrite Z.testbit_odd_0. done.
  - replace n with (Z.succ (n - 1)) by lia. rewrite Z.testbit_odd_succ, Z.testbit_even_succ by lia.
    change 1 with (2 * 0 + 1) at 1. by rewrite Z.testbit_odd_succ, Z.bits_0 by lia.
Qed.

Lemma connected_raw gen bit : epoch_is_connected (epoch_raw gen bit) = bit.
Proof.
  unfold epoch_is_connected. change 1 with (Z.ones 1) at 1. rewrite Z.land_ones by lia. change (2 ^ 1) with 2.
  unfold epoch_raw. rewrite Z.add_comm, Z.mul_comm, Z.mod_add by lia. by destruct bit.
Qed.

Lemma epoch_raw_inj g1 g2 b1 b2 :
  epoch_raw g1 b1 = epoch_raw g2 b2 → Z.abs (g1 - g2) < 2147483648 → g1 = g2 ∧ b1 = b2.
Proof.
  intros H Hd. unfold epoch_raw in H.
  assert (g1 `mod` 2147483648 = g2 `mod` 2147483648 ∧ b1 = b2) as [Hm ->] by (destruct b1, b2; cbn [Z.b2z] in H; split; (done || lia)).
  split; [|done]. pose proof (Z.div_mod g1 2147483648 ltac:(lia)). pose proof (Z.div_mod g2 2147483648 ltac:(lia)). nia.
Qed.

(** The abstract epoch: the generation, whether it is confirmed, and the generations of the tokens. *)
Definition epoch_ok (r : EpochRun) (gen : Z) (bit : bool) : Prop :=
  0 ≤ gen ∧ raw r = epoch_raw gen bit ∧
  tokens r = (λ i : nat, epoch_raw (Z.of_nat i) false) <$> seq 1 (Z.to_nat gen).

Definition fits (r : EpochRun) : Prop := Z.of_nat (length (tokens r)) < 2147483648.

(** One atomic step is a step of the abstract epoch: an exchange that succeeds starts the next
    generation; a confirmation succeeds exactly for the token of the current generation, once. *)
Lemma epoch_step_refines e r gen bit :
  epoch_ok r gen bit → fits (epoch_step e r) →
  match e with
  | EE_Load _ => epoch_ok (epoch_step e r) gen bit
  | EE_Exchange _ _ => epoch_ok (epoch_step e r) gen bit ∨ epoch_ok (epoch_step e r) (gen + 1) false
  | EE_Confirm token =>
      ∀ i, tokens r !! i = Some token →
      let current := (Z.of_nat i =? gen - 1) && negb bit in
      epoch_ok (epoch_step e r) gen (bit || current) ∧
      confirmed (epoch_step e r) = confirmed r ++ [current]
  end.
Proof.
  intros (Hg & Hr & Ht) Hf. destruct e as [n|n sp|token]; cbn [epoch_step].
  - by split_and!.
  - destruct (seen r !! n) as [current|]; [|by left; split_and!].
    destruct (_ && _) eqn:E; [|by left; split_and!]. right. apply andb_true_iff in E as [E%Z.eqb_eq _].
    subst current. split; [lia|]. cbn. rewrite Hr, advanced_raw. split; [done|].
    rewrite Ht. replace (Z.to_nat (gen + 1)) with (S (Z.to_nat gen)) by lia. rewrite seq_S, fmap_app. cbn.
    by replace (Z.of_nat (S (Z.to_nat gen))) with (gen + 1) by lia.
  - intros i Hi. rewrite Ht in Hi. apply list_lookup_fmap_Some in Hi as (j & -> & Hj).
    apply lookup_seq in Hj as [-> Hj].
    assert (Z.of_nat (length (tokens r)) = gen) as Hlen by (rewrite Ht, length_fmap, length_seq; lia).
    unfold fits, epoch_step, epoch_confirm in Hf. unfold epoch_confirm. rewrite Hr in *.
    destruct (Z.eqb_spec (epoch_raw gen bit) (epoch_raw (Z.of_nat (1 + i)) false)) as [E|E]; cbn in Hf.
    + apply epoch_raw_inj in E as [E ->]; [|lia]. rewrite (proj2 (Z.eqb_eq _ _)) by lia. cbn.
      split; [|done]. split_and!; [done| |done].
      change (Z.lor (epoch_raw (Z.of_nat (S i)) false) 1 = epoch_raw gen true). rewrite confirmed_raw. f_equal. lia.
    + assert ((Z.of_nat i =? gen - 1) && negb bit = false) as ->.
      { apply not_true_iff_false. intros [Hgi%Z.eqb_eq Hb]%andb_true_iff. apply E.
        destruct bit; [done|]. f_equal. lia. }
      rewrite orb_false_r. cbn. by split_and!.
Qed.

(** Scopes may close in any order: what counts is how many are open. *)
Lemma scopes_counted (events : list bool) (depth : Z) :
  0 ≤ depth → depth + Z.of_nat (length events) < u32_max →
  (∀ i, 0 < depth + Z.of_nat (length (filter (λ b, b = true) (take i events))) - Z.of_nat (length (filter (λ b, b = false) (take i events)))
        ∨ events !! i ≠ Some false) →
  foldl (λ d (b : bool), if b then scope_enter d else scope_drop d) depth events =
  depth + Z.of_nat (length (filter (λ b, b = true) events)) - Z.of_nat (length (filter (λ b, b = false) events)).
Proof.
  revert depth. induction events as [|b events IH]; intros depth Hd Hb Hp; [cbn; lia|]. cbn [foldl length] in *.
  assert (0 < depth ∨ b = true) as H0 by (destruct (Hp 0%nat) as [H|H]; [cbn in H; left; lia | right; by destruct b]).
  assert ((if b then scope_enter depth else scope_drop depth) = depth + (if b then 1 else -1)) as ->.
  { destruct b; unfold scope_enter, scope_drop, u32_wrapping_add; [rewrite u32_wrap_small by (unfold is_u32; lia); lia|].
    destruct H0; [lia|done]. }
  rewrite IH.
  - rewrite !filter_cons. destruct b; repeat case_decide; try done; cbn [length]; lia.
  - destruct b, H0; first [done | lia].
  - destruct b; lia.
  - intros i. specialize (Hp (S i)). destruct Hp as [Hp|Hp]; [left|by right]. cbn [take] in Hp. rewrite !filter_cons in Hp.
    destruct b; repeat case_decide; try done; cbn [length] in Hp; lia.
Qed.

(** A stale helper: its connection is gone before it confirms; and after 2^31 advances a token is
    current again. *)
Example stale_confirm_fails :
  confirmed (epoch_run [EE_Load 0; EE_Exchange 0 true; EE_Exchange 0 false; EE_Load 1; EE_Exchange 1 false; EE_Confirm 2; EE_Confirm 4; EE_Confirm 4]) =
  [false; true; false].
Proof. reflexivity. Qed.
