(* ===== verification/IdfMqtt.v ===== *)
(** * IdfMqtt: session state, event loop, handle and builder of the MQTT client of the ESP-IDF tier
    ([mqtt/session.rs] and [mqtt/mod.rs] of [rustyfarian-esp-idf-network])

    The client of ESP-IDF is third-party code: the class [EspMqtt] of its two calls, and the events it
    reports.  An operation under a lock is one step.  The runner of the session is [MqttRunner],
    the waiting of [receive] and [wait_connected] is [WaitList]. *)
From S2P Require Import Prelude Text Config MqttSession MqttRunner MqttAcks MqttTopics MqttOutbox MqttChunks MqttConfig.
Open Scope Z_scope.
Open Scope rn_scope.

(** ** The client *)

Class EspMqtt (C : Type) := {
  esp_enqueue : string → list Z → QoS → bool → C → result string MessageId * C;
  esp_subscribe : string → QoS → C → result string MessageId * C }.
#[global] Hint Mode EspMqtt ! : typeclass_instances.

Definition INBOUND_QUEUE_DEPTH : nat := 8.
Definition MAX_INBOUND_PAYLOAD_LEN : Z := 16384.
Definition PUBLISH_QUEUE_DEPTH : nat := 4.
Definition DEFAULT_RECONNECT_TIMEOUT_MS : Z := 10000.

Record InboundMessage := mkInbound { in_topic : string; in_payload : list Z }.

(** ** The session *)

Section session.
Context {C : Type} `{EspMqtt C}.

Record Session := mkIdfSession {
  ss_machine : SessionMachine; ss_inbound : list InboundMessage; ss_dropped : Z; ss_outbox : Outbox (C:=C); ss_inputs : list Msg }.

Definition Session_new (retry_ms : Z) : Session := mkIdfSession (with_retry retry_ms) [] 0 (Outbox_new PUBLISH_QUEUE_DEPTH) [].

Definition session_send (input : SessionInput) (s : Session) : Session :=
  mkIdfSession (ss_machine s) (ss_inbound s) (ss_dropped s) (ss_outbox s) (ss_inputs s ++ [MsgInput input]).

(** [Session::poll], with whether it wakes the tasks that wait for the connection. *)
Definition session_poll (input : SessionInput) (s : Session) : SessionAction * bool * Session :=
  let '(action, m) := poll input (ss_machine s) in
  (action, can_publish m && match input with WorkDone _ => true | _ => false end,
   mkIdfSession m (ss_inbound s) (ss_dropped s) (ss_outbox s) (ss_inputs s)).

Definition session_count_dropped (messages : Z) (s : Session) : Session :=
  if 0 <? messages then mkIdfSession (ss_machine s) (ss_inbound s) (ss_dropped s ⊞ messages) (ss_outbox s) (ss_inputs s) else s.

Definition with_inbound (q : list InboundMessage) (s : Session) : Session :=
  mkIdfSession (ss_machine s) q (ss_dropped s) (ss_outbox s) (ss_inputs s).

Definition push_message (message : InboundMessage) (s : Session) : Session :=
  let s := if (INBOUND_QUEUE_DEPTH <=? length (ss_inbound s))%nat then session_count_dropped 1 (with_inbound (drop 1 (ss_inbound s)) s) else s in
  with_inbound (ss_inbound s ++ [message]) s.

Definition try_receive (s : Session) : option InboundMessage * Session :=
  match ss_inbound s with
  | [] => (None, s)
  | m :: q => (Some m, with_inbound q s)
  end.

Definition with_outbox (b : Outbox (C:=C)) (s : Session) : Session :=
  mkIdfSession (ss_machine s) (ss_inbound s) (ss_dropped s) b (ss_inputs s).

Definition send_pending (c : C) (m : PendingPublish) : C * bool :=
  let '(r, c) := esp_enqueue (pp_topic m) (pp_payload m) (pp_qos m) (pp_retain m) c in
  (c, match r with Ok _ => true | Err _ => false end).

Definition session_attach (c : C) (s : Session) : Session := with_outbox (attach send_pending c (ss_outbox s)) s.
Definition session_take_client (s : Session) : option C * Session :=
  let '(c, b) := take_client (ss_outbox s) in (c, with_outbox b s).
Definition session_publish (m : PendingPublish) (s : Session) : Session := with_outbox (MqttOutbox.publish send_pending m (ss_outbox s)) s.
(** One round; [None] is the wait for a client or for room. *)
Definition session_publish_waiting (m : PendingPublish) (s : Session) : option Session :=
  b ← publish_waiting_round send_pending m (ss_outbox s); Some (with_outbox b s).

(** ** The event loop *)

Inductive Details := D_Complete | D_Initial (total : Z) | D_Subsequent (offset total : Z).

Inductive EspEvent :=
| EV_BeforeConnect | EV_Connected (session_present : bool) | EV_Disconnected
| EV_Received (topic : option string) (data : list Z) (details : Details)
| EV_Subscribed (id : MessageId) | EV_Published (id : MessageId) | EV_Error | EV_Other.

(** What the builder was given: the two callbacks of the loop. *)
Record LoopConfig := mkLoopConfig { on_message : bool; on_disconnect : bool }.

Inductive CallbackCall := CB_Message (topic : string) (payload : list Z) | CB_Disconnect.

Record EventLoop := mkLoop {
  el_state : MqttConnectionState; el_assembler : ChunkAssembler; el_session : Session; el_acks : PendingAcks; el_calls : list CallbackCall }.

Definition EventLoop_new (s : Session) : EventLoop :=
  mkLoop MC_Connecting (ChunkAssembler_new MAX_INBOUND_PAYLOAD_LEN) s PendingAcks_new [].

Context (cfg : LoopConfig).

Definition on_session (f : Session → Session) (l : EventLoop) : EventLoop :=
  mkLoop (el_state l) (el_assembler l) (f (el_session l)) (el_acks l) (el_calls l).
Definition on_acks (f : PendingAcks → PendingAcks) (l : EventLoop) : EventLoop :=
  mkLoop (el_state l) (el_assembler l) (el_session l) (f (el_acks l)) (el_calls l).
Definition with_state (st : MqttConnectionState) (l : EventLoop) : EventLoop :=
  mkLoop st (el_assembler l) (el_session l) (el_acks l) (el_calls l).
Definition with_assembler (a : ChunkAssembler) (l : EventLoop) : EventLoop :=
  mkLoop (el_state l) a (el_session l) (el_acks l) (el_calls l).
Definition call_back (c : CallbackCall) (l : EventLoop) : EventLoop :=
  mkLoop (el_state l) (el_assembler l) (el_session l) (el_acks l) (el_calls l ++ [c]).

Definition chunk_of (topic : option string) (data : list Z) (details : Details) : option Chunk :=
  match details, topic with
  | D_Complete, Some topic => Some (Complete topic data)
  | D_Initial total, Some topic => Some (First topic data total)
  | D_Subsequent offset total, _ => Some (Next data offset total)
  | _, _ => None
  end.

Definition on_chunk (c : Chunk) (l : EventLoop) : EventLoop :=
  let before := abandoned (el_assembler l) in
  let '(outcome, a) := MqttChunks.feed c (el_assembler l) in
  let l := on_session (session_count_dropped (abandoned a ⊟ before)) (with_assembler a l) in
  match outcome with
  | Message topic payload =>
      if on_message cfg then call_back (CB_Message topic payload) l else on_session (push_message (mkInbound topic payload)) l
  | Pending => l
  | TooLarge => on_session (session_count_dropped 1) l
  | OutOfOrder => if abandoned a =? before then on_session (session_count_dropped 1) l else l
  end.

Definition on_event (e : EspEvent) (l : EventLoop) : EventLoop :=
  match e with
  | EV_Connected session_present =>
      let l := match next_state (el_state l) ME_Connected with Some next => with_state next l | None => l end in
      on_session (session_send (Connected session_present)) l
  | EV_BeforeConnect => on_session (session_send AttemptStarted) l
  | EV_Disconnected =>
      let l := on_session (session_send Disconnected) l in
      match next_state (el_state l) ME_Disconnected with
      | Some next =>
          let l := on_acks (fail_all AckDisconnected) (with_state next l) in
          if on_disconnect cfg then call_back CB_Disconnect l else l
      | None => l
      end
  | EV_Received topic data details => match chunk_of topic data details with Some c => on_chunk c l | None => l end
  | EV_Published id => on_acks (resolve id Acked) l
  | EV_Subscribed _ | EV_Error | EV_Other => l
  end.

(** ** The handle *)

Inductive PublishAckError := PA_Timeout | PA_Disconnected | PA_WrongThread | PA_Other (why : string).
(** An error of the handle: a rejected call with its context, or a text. *)
Inductive HandleError := HE_Rejected (context : string) (cause : PublishAckError) | HE_Text (text : string).
Inductive TryPublishError := TPE_WouldBlock | TPE_Other (why : HandleError).

(** [depth] is the callback depth of the calling thread. *)
Definition ensure_not_in_callback (depth : Z) : result PublishAckError unit :=
  if in_callback depth then Err PA_WrongThread else Ok tt.

Definition WRONG_THREAD : string := "called from inside an MQTT callback (on_connect / on_message / on_disconnect) — would deadlock".

Definition ack_error_text (e : PublishAckError) : string :=
  match e with
  | PA_Timeout => "publish not acknowledged within timeout"
  | PA_Disconnected => "MQTT session dropped before acknowledgment"
  | PA_WrongThread => WRONG_THREAD
  | PA_Other why => why
  end.

Definition checked_publish (context : string) (depth : Z) (topic : string) : result HandleError unit :=
  _ ← map_err (HE_Rejected context) (ensure_not_in_callback depth);
  map_err (λ e, HE_Text ("invalid publish topic: " +:+ e)) (validate_publish_topic topic).

Definition publish_with (depth : Z) (topic : string) (payload : list Z) (qos : QoS) (retain : bool) (s : Session) : result HandleError unit * Session :=
  match checked_publish "publish_with rejected" depth topic with
  | Err e => (Err e, s)
  | Ok _ => (Ok tt, session_publish (mkPublish topic payload qos retain) s)
  end.

(** The first part of [publish_acked], to the id the client gave. *)
Definition publish_acked_enqueue (depth : Z) (topic : string) (payload : list Z) (retained : bool) (s : Session) :
    result PublishAckError MessageId * Session :=
  if in_callback depth then (Err PA_WrongThread, s)
  else
    match validate_publish_topic topic with
    | Err e => (Err (PA_Other ("invalid publish topic: " +:+ e)), s)
    | Ok _ =>
        let '(r, b) := with_client_mut (esp_enqueue topic payload AtLeastOnce retained) (ss_outbox s) in
        (match r with
         | None => Err PA_Disconnected
         | Some (Err e) => Err (PA_Other e)
         | Some (Ok id) => Ok id
         end, with_outbox b s)
    end.

(** The last part, from what the waiter was told. *)
Definition ack_result (outcome : option AckOutcome) : result PublishAckError unit :=
  match outcome with
  | Some Acked => Ok tt
  | Some AckDisconnected => Err PA_Disconnected
  | None => Err PA_Timeout
  end.

(** [locked]: another thread holds the client. *)
Definition try_publish_with (depth : Z) (locked : bool) (topic : string) (payload : list Z) (qos : QoS) (retain : bool) (s : Session) :
    result TryPublishError unit * Session :=
  match checked_publish "try_publish_with rejected" depth topic with
  | Err e => (Err (TPE_Other e), s)
  | Ok _ =>
      if negb (can_publish (ss_machine s)) then (Err TPE_WouldBlock, s)
      else
        let '(r, b) := try_with_client_mut locked (esp_enqueue topic payload qos retain) (ss_outbox s) in
        (match r with
         | Attached _ (Ok _) => Ok tt
         | Attached _ (Err e) => Err (TPE_Other (HE_Text e))
         | Detached _ | Busy _ => Err TPE_WouldBlock
         end, with_outbox b s)
  end.

Definition handle_subscribe (depth : Z) (topic : string) (qos : QoS) (s : Session) : result HandleError unit * Session :=
  match (_ ← map_err (HE_Rejected "subscribe rejected") (ensure_not_in_callback depth);
         map_err (λ e, HE_Text ("invalid subscribe filter: " +:+ e)) (validate_subscribe_filter topic)) with
  | Err e => (Err e, s)
  | Ok _ =>
      let '(r, b) := with_client_mut (esp_subscribe topic qos) (ss_outbox s) in
      (match r with
       | None => Err (HE_Text "MQTT client is not started yet (no network)")
       | Some (Err e) => Err (HE_Text e)
       | Some (Ok _) => Ok tt
       end, with_outbox b s)
  end.

(** The [publish] of the trait: [None] waits. *)
Definition publish_async (depth : Z) (topic : string) (payload : list Z) (qos : QoS) (retain : bool) (s : Session) : option (result HandleError unit * Session) :=
  match checked_publish "publish rejected" depth topic with
  | Err e => Some (Err e, s)
  | Ok _ => s ← session_publish_waiting (mkPublish topic payload qos retain) s; Some (Ok tt, s)
  end.
End session.

(** ** The builder *)

Record ClientConfig := mkClientConfig {
  cc_url : string; cc_client_id : string; cc_keep_alive_secs : Z; cc_task_stack_size : Z;
  cc_username : option string; cc_password : option string; cc_lwt : option LwtConfig }.

Record MqttBuilder := mkBuilder {
  b_config : MqttConfig; b_on_connect : bool; b_on_disconnect : bool; b_on_message : bool;
  b_topics : list (string * QoS); b_startup : bool }.

Definition MqttBuilder_new (c : MqttConfig) : MqttBuilder := mkBuilder c false false false [] false.
Definition builder_subscribe (topic : string) (qos : QoS) (b : MqttBuilder) : MqttBuilder :=
  mkBuilder (b_config b) (b_on_connect b) (b_on_disconnect b) (b_on_message b) (b_topics b ++ [(topic, qos)]) (b_startup b).
Definition builder_on_connect (b : MqttBuilder) : MqttBuilder :=
  mkBuilder (b_config b) true (b_on_disconnect b) (b_on_message b) (b_topics b) (b_startup b).
Definition builder_on_disconnect (b : MqttBuilder) : MqttBuilder :=
  mkBuilder (b_config b) (b_on_connect b) true (b_on_message b) (b_topics b) (b_startup b).
Definition builder_on_message (b : MqttBuilder) : MqttBuilder :=
  mkBuilder (b_config b) (b_on_connect b) (b_on_disconnect b) true (b_topics b) (b_startup b).
Definition builder_with_startup (b : MqttBuilder) : MqttBuilder :=
  mkBuilder (b_config b) (b_on_connect b) (b_on_disconnect b) (b_on_message b) (b_topics b) true.

Fixpoint check_filters (topics : list (string * QoS)) : result string unit :=
  match topics with
  | [] => Ok tt
  | (topic, _) :: topics =>
      _ ← map_err (λ e, "invalid subscribe filter '" +:+ topic +:+ "': " +:+ e) (validate_subscribe_filter topic);
      check_filters topics
  end.

Definition startup_topic_of (client_id : string) : string := "iot/" +:+ client_id +:+ "/startup".

(** What [build] hands to the session, the event loop and the runner; spawning the threads may fail too. *)
Record Built {C : Type} := mkBuilt { bt_session : Session (C:=C); bt_client : ClientConfig; bt_runner : RunnerConfig; bt_loop : LoopConfig }.
Arguments Built : clear implicits.

Definition mqtt_build {C : Type} (spawned : bool) (b : MqttBuilder) : result string (Built C) :=
  let c := b_config b in
  _ ← map_err (λ e, "invalid MQTT host: " +:+ e) (validate_broker_host (host c));
  _ ← map_err (λ e, "invalid MQTT port: " +:+ e) (validate_broker_port (port c));
  _ ← map_err (λ e, "invalid MQTT client_id: " +:+ e) (validate_client_id (client_id c));
  _ ← check_filters (b_topics b);
  if negb spawned then Err "failed to spawn MQTT builder event loop thread"%string
  else Ok (mkBuilt C (Session_new (default DEFAULT_RECONNECT_TIMEOUT_MS (reconnect_timeout_ms c)))
    (mkClientConfig (format_broker_url (host c) (port c)) (client_id c) (default 30 (keep_alive_secs c)) (task_stack_size c)
       (mc_username c) (mc_password c) (mc_lwt c))
    (mkRunnerConfig (map fst (b_topics b)) (if b_startup b then Some (startup_topic_of (client_id c)) else None) (b_on_connect b))
    (mkLoopConfig (b_on_message b) (b_on_disconnect b))).

(** ** Waiting for the first connection *)

Definition LED_POLL_INTERVAL_MS : Z := 50.
Definition ERROR_PULSE_FRAMES : nat := 20.

Inductive LedCall := LC_Connected | LC_Connecting | LC_Error.

(** [ERROR_PULSE_FRAMES] frames, or up to the one the LED refuses. *)
Fixpoint error_pulses (led_ok : nat → bool) (frames frame : nat) : list LedCall :=
  match frames with
  | O => []
  | S frames => LC_Error :: if led_ok frame then error_pulses led_ok frames (S frame) else []
  end.

(** The loop of [build_and_wait]: [None] while it waits. *)
Definition wait_turn (led_ok : nat → bool) (timeout : Z) (connected : bool) (elapsed : Z) : list LedCall * option (result string unit) :=
  if connected then ([LC_Connected], Some (Ok tt))
  else if timeout <=? elapsed then (error_pulses led_ok ERROR_PULSE_FRAMES 0, Some (Err ("MQTT broker unreachable within " +:+ show_uint timeout +:+ " ms")))
  else ([LC_Connecting], None).

(** [connected] and [elapsed] are read anew in every turn. *)
Fixpoint wait_loop (led_ok : nat → bool) (timeout : Z) (connected : nat → bool) (elapsed : nat → Z) (turns n : nat) :
    list LedCall * option (result string unit) :=
  match turns with
  | O => ([], None)
  | S turns =>
      match wait_turn led_ok timeout (connected n) (elapsed n) with
      | (calls, Some r) => (calls, Some r)
      | (calls, None) => let '(calls', r) := wait_loop led_ok timeout connected elapsed turns (S n) in (calls ++ calls', r)
      end
  end.

(** ** The deprecated manager *)

Record ManagerFlags := mkManagerFlags { mg_connected : bool; mg_error : bool; mg_shutdown : bool }.

(** One event of its loop; [None]: the loop exits. [shutdown] is read before and after. *)
Definition manager_event (e : EspEvent) (f : ManagerFlags) : option ManagerFlags * list CallbackCall :=
  if mg_shutdown f then (None, [])
  else
    match e with
    | EV_Connected _ => (Some (mkManagerFlags true (mg_error f) false), [])
    | EV_Received (Some topic) data _ => (Some f, [CB_Message topic data])
    | EV_Error => (Some (mkManagerFlags (mg_connected f) true false), [])
    | EV_Disconnected => (Some (mkManagerFlags false (mg_error f) false), [])
    | _ => (Some f, [])
    end.

(** The wait for the connection, [n] polls left. *)
Fixpoint manager_wait (polls : nat → bool * bool) (n i : nat) : bool :=
  match n with
  | O => false
  | S n =>
      let '(connected, error) := polls i in
      if connected then true else if error then false else manager_wait polls n (S i)
  end.

Section manager.
Context {C : Type} `{EspMqtt C}.

Fixpoint manager_subscribe (topics : list string) (c : C) : result string unit * C :=
  match topics with
  | [] => (Ok tt, c)
  | topic :: topics =>
      match validate_subscribe_filter topic with
      | Err e => (Err ("invalid subscribe filter '" +:+ topic +:+ "': " +:+ e), c)
      | Ok _ => match esp_subscribe topic AtLeastOnce c with
                | (Err e, c) => (Err e, c)
                | (Ok _, c) => manager_subscribe topics c
                end
      end
  end.

Definition manager_publish (topic : string) (payload : list Z) (qos : QoS) (retain : bool) (c : C) : result string unit * C :=
  match validate_publish_topic topic with
  | Err e => (Err ("invalid publish topic: " +:+ e), c)
  | Ok _ => let '(r, c) := esp_enqueue topic payload qos retain c in (match r with Ok _ => Ok tt | Err e => Err e end, c)
  end.

(** [shutdown], which [Drop] calls: the message is best effort. *)
Definition manager_shutdown (client_id : string) (c : C) (f : ManagerFlags) : C * ManagerFlags :=
  ((manager_publish ("iot/" +:+ client_id +:+ "/shutdown") [49] AtLeastOnce false c).2, mkManagerFlags (mg_connected f) (mg_error f) true).

(** [new], once the client and its thread exist: an error drops the manager. *)
Definition manager_new (cfg : MqttConfig) (topics : list string) (polls : nat → bool * bool) (c : C) (f : ManagerFlags) :
    result string unit * (C * ManagerFlags) :=
  let drop_with e c := (Err e, manager_shutdown (client_id cfg) c f) in
  if manager_wait polls (Z.to_nat (connection_wait_iterations (default 5000 (connection_timeout_ms cfg)))) 0
  then match manager_subscribe topics c with
       | (Ok _, c) => (Ok tt, (c, f))
       | (Err e, c) => drop_with e c
       end
  else drop_with "MQTT broker unreachable within timeout"%string c.
End manager.

(** ** Inbound messages *)

Section inbound.
Context {C : Type} `{EspMqtt C} (cfg : LoopConfig) (retry : Z).
Implicit Types (l : EventLoop (C:=C)) (s : Session (C:=C)).

(** An event of the client, a receive of the application, or a change another thread makes to the rest of the session. *)
Inductive LoopOp :=
| LO_Event (e : EspEvent) | LO_Receive
| LO_Other (m : SessionMachine) (b : Outbox (C:=C)) (inputs : list Msg).

(** The loop, and what the application has received. *)
Definition loop_step (w : EventLoop (C:=C) * list InboundMessage) (op : LoopOp) : EventLoop (C:=C) * list InboundMessage :=
  let '(l, got) := w in
  match op with
  | LO_Event e => (on_event cfg e l, got)
  | LO_Receive =>
      let '(m, s) := try_receive (el_session l) in
      (on_session (λ _, s) l, match m with Some m => got ++ [m] | None => got end)
  | LO_Other m b inputs => (on_session (λ s, mkIdfSession m (ss_inbound s) (ss_dropped s) b inputs) l, got)
  end.

Definition loop_run (ops : list LoopOp) : EventLoop (C:=C) * list InboundMessage :=
  foldl loop_step (EventLoop_new (Session_new retry), []) ops.

Definition chunk_of_op (op : LoopOp) : option Chunk :=
  match op with LO_Event (EV_Received topic data details) => chunk_of topic data details | _ => None end.
Definition chunks_of (ops : list LoopOp) : list Chunk := omap chunk_of_op ops.

(** The messages a stream of chunks carries, in the sense of [delivers]. *)
Inductive messages_in : list Chunk → list InboundMessage → Prop :=
| mi_nil : messages_in [] []
| mi_message cs ms c topic payload :
    messages_in cs ms → delivers MAX_INBOUND_PAYLOAD_LEN (cs ++ [c]) topic payload → messages_in (cs ++ [c]) (ms ++ [mkInbound topic payload])
| mi_none cs ms c :
    messages_in cs ms → (∀ topic payload, ¬ delivers MAX_INBOUND_PAYLOAD_LEN (cs ++ [c]) topic payload) → messages_in (cs ++ [c]) ms.

(** What one chunk costs: the message it breaks off, and its own if it is refused. *)
Definition chunk_loss (c : Chunk) (a : ChunkAssembler) : Z :=
  let '(outcome, a') := MqttChunks.feed c a in
  let broken := abandoned a' ⊟ abandoned a in
  broken + match outcome with TooLarge => 1 | OutOfOrder => if abandoned a' =? abandoned a then 1 else 0 | _ => 0 end.

Definition losses (cs : list Chunk) : Z :=
  (foldl (λ '(n, a) c, (n + chunk_loss c a, (MqttChunks.feed c a).2)) (0, ChunkAssembler_new MAX_INBOUND_PAYLOAD_LEN) cs).1.

Definition called (l : EventLoop (C:=C)) : list InboundMessage :=
  omap (λ c, match c with CB_Message topic payload => Some (mkInbound topic payload) | CB_Disconnect => None end) (el_calls l).

(** The queue is the end of the messages that arrived; what was received is in order; every other message, and
    every lost chunk, is counted. *)
Definition accounted (cs : list Chunk) (l : EventLoop (C:=C)) (got : list InboundMessage) : Prop :=
  let s := el_session l in
  ∃ ms gone, messages_in cs ms ∧ el_assembler l = after MAX_INBOUND_PAYLOAD_LEN cs ∧
    if on_message cfg then ms = called l ∧ got = [] ∧ ss_inbound s = [] ∧ ss_dropped s = u32_wrap (losses cs)
    else ms = gone ++ ss_inbound s ∧ got `sublist_of` gone ∧ (length (ss_inbound s) ≤ INBOUND_QUEUE_DEPTH)%nat ∧
      ss_dropped s = u32_wrap (Z.of_nat (length gone - length got) + losses cs).

Lemma losses_snoc cs c : losses (cs ++ [c]) = losses cs + chunk_loss c (after MAX_INBOUND_PAYLOAD_LEN cs).
Proof.
  unfold losses. rewrite foldl_snoc.
  assert ((foldl (λ '(n, a) c, (n + chunk_loss c a, (MqttChunks.feed c a).2)) (0, ChunkAssembler_new MAX_INBOUND_PAYLOAD_LEN) cs).2 = after MAX_INBOUND_PAYLOAD_LEN cs) as E.
  { induction cs as [|x cs IH] using rev_ind; [done|]. rewrite foldl_snoc. unfold after in *. rewrite foldl_snoc, <- IH. by destruct (foldl _ _ cs). }
  destruct (foldl _ _ cs) as [n a]. cbn in *. by rewrite E.
Qed.

Lemma chunks_snoc ops op : chunks_of (ops ++ [op]) = chunks_of ops ++ match chunk_of_op op with Some c => [c] | None => [] end.
Proof. unfold chunks_of. rewrite omap_app. cbn. by destruct (chunk_of_op op). Qed.

Lemma after_step cs c : after MAX_INBOUND_PAYLOAD_LEN (cs ++ [c]) = (MqttChunks.feed c (after MAX_INBOUND_PAYLOAD_LEN cs)).2.
Proof. unfold after. by rewrite foldl_snoc. Qed.

Lemma wrap_add n m : u32_wrap n ⊞ m = u32_wrap (n + m).
Proof. unfold u32_wrapping_add, u32_wrap. by rewrite Z.add_mod_idemp_l. Qed.

(** Counting what is lost is adding it, the zero included. *)
Lemma count_dropped_add n s : 0 ≤ n → ∀ k, ss_dropped s = u32_wrap k → ss_dropped (session_count_dropped n s) = u32_wrap (k + n).
Proof. intros Hn k Hk. unfold session_count_dropped. destruct (Z.ltb_spec 0 n); cbn; [by rewrite Hk, wrap_add|]. by replace (k + n) with k by lia. Qed.

Lemma count_dropped_rest n s : ss_inbound (session_count_dropped n s) = ss_inbound s.
Proof. unfold session_count_dropped. by destruct (_ <? _). Qed.

Definition short (c : Chunk) : Prop := chunk_len c < 2147483648.

(** What a chunk adds to the messages. *)
Lemma messages_step cs c ms :
  Forall short (cs ++ [c]) → messages_in cs ms →
  match (MqttChunks.feed c (after MAX_INBOUND_PAYLOAD_LEN cs)).1 with
  | Message topic payload => messages_in (cs ++ [c]) (ms ++ [mkInbound topic payload])
  | _ => messages_in (cs ++ [c]) ms
  end.
Proof.
  intros Hf Hm. pose proof (λ t p, chunks_exact MAX_INBOUND_PAYLOAD_LEN cs c t p eq_refl Hf) as Hex.
  destruct (MqttChunks.feed c _).1 as [t p| | |] eqn:E; [apply mi_message; [done|by apply Hex]|..];
    (apply mi_none; [done|]; intros t p Hd; apply Hex in Hd; congruence).
Qed.

(** The session after the count of the broken message. *)
Lemma push_message_spec m s :
  ss_inbound (push_message m s) = (if (INBOUND_QUEUE_DEPTH <=? length (ss_inbound s))%nat then drop 1 (ss_inbound s) else ss_inbound s) ++ [m] ∧
  ss_dropped (push_message m s) = if (INBOUND_QUEUE_DEPTH <=? length (ss_inbound s))%nat then ss_dropped s ⊞ 1 else ss_dropped s.
Proof. unfold push_message. by destruct (_ <=? _)%nat. Qed.

Lemma on_chunk_accounted cs c l got :
  Forall short (cs ++ [c]) → accounted cs l got → accounted (cs ++ [c]) (on_chunk cfg c l) got.
Proof.
  intros Hf (ms & gone & Hm & Ha & Hrest). pose proof (messages_step cs c ms Hf Hm) as Hstep. unfold on_chunk. rewrite Ha.
  assert (∀ n m, 0 ≤ n ⊟ m) as Hsub by (intros n m; pose proof (u32_wrap_range (n - m)); unfold is_u32, u32_wrapping_sub in *; lia).
  pose proof (losses_snoc cs c) as Hlo. unfold chunk_loss in Hlo.
  pose proof (after_step cs c) as Has. destruct (MqttChunks.feed c (after MAX_INBOUND_PAYLOAD_LEN cs)) as [outcome a0] eqn:Ef. cbn [snd fst] in *. subst a0.
  set (a := after MAX_INBOUND_PAYLOAD_LEN (cs ++ [c])) in *. set (d := abandoned a ⊟ abandoned (after MAX_INBOUND_PAYLOAD_LEN cs)) in *.
  pose proof (Hsub (abandoned a) (abandoned (after MAX_INBOUND_PAYLOAD_LEN cs))) as Hd. fold d in Hd.
  set (l1 := on_session (session_count_dropped d) (with_assembler a l)).
  assert (∀ k, ss_dropped (el_session l) = u32_wrap k → ss_dropped (el_session l1) = u32_wrap (k + d)) as Hdrop by (intros k Hk; by apply count_dropped_add).
  assert (ss_inbound (el_session l1) = ss_inbound (el_session l)) as Hin by apply count_dropped_rest.
  assert (∀ e, losses (cs ++ [c]) = losses cs + d + e →
     messages_in (cs ++ [c]) ms → ∀ l2, el_assembler l2 = a → el_calls l2 = el_calls l → ss_inbound (el_session l2) = ss_inbound (el_session l) →
       (∀ k, ss_dropped (el_session l) = u32_wrap k → ss_dropped (el_session l2) = u32_wrap (k + d + e)) → accounted (cs ++ [c]) l2 got) as Hquiet.
  { intros e He Hms l2 Ha2 Hc2 Hi2 Hd2. exists ms, gone. split; [done|]. split; [done|]. unfold called in *. rewrite Hc2, Hi2, He. destruct (on_message cfg).
    - destruct Hrest as (-> & -> & -> & Hdr). split_and!; try done. by rewrite (Hd2 _ Hdr).
    - destruct Hrest as (-> & Hs & Hq & Hdr). split_and!; try done. rewrite (Hd2 _ Hdr). f_equal. lia. }
  destruct outcome as [topic payload| | |].
  - destruct (on_message cfg) eqn:Ecfg.
    + destruct Hrest as (-> & -> & Hi & Hdr). exists (called l ++ [mkInbound topic payload]), []. split; [done|]. split; [done|]. rewrite Ecfg.
      unfold called, call_back. cbn [el_calls el_session]. rewrite omap_app. split_and!; try done; [by rewrite Hin|]. rewrite (Hdrop _ Hdr), Hlo. f_equal. lia.
    + destruct Hrest as (-> & Hs & Hq & Hdr). destruct (push_message_spec (mkInbound topic payload) (el_session l1)) as [Hi Hdp]. rewrite Hin in Hi, Hdp.
      pose proof (sublist_length _ _ Hs) as Hlen. pose proof (Hdrop _ Hdr) as Hdr1. destruct (INBOUND_QUEUE_DEPTH <=? _)%nat eqn:Efull.
      * destruct (ss_inbound (el_session l)) as [|x q] eqn:Eq; [done|]. rewrite ?Eq in *. exists ((gone ++ x :: q) ++ [mkInbound topic payload]), (gone ++ [x]).
        split; [done|]. split; [done|]. rewrite Ecfg. unfold on_session. cbn [el_session]. rewrite Hi, Hdp, Hdr1, wrap_add, Hlo. split_and!.
        -- cbn. by rewrite <- !app_assoc.
        -- by apply sublist_inserts_r.
        -- rewrite length_app, length_drop. change (length [mkInbound topic payload]) with 1%nat. assert (1 ≤ length (x :: q))%nat by (cbn; lia). lia.
        -- f_equal. rewrite length_app. cbn [length]. lia.
      * exists ((gone ++ ss_inbound (el_session l)) ++ [mkInbound topic payload]), gone.
        split; [done|]. split; [done|]. rewrite Ecfg. unfold on_session. cbn [el_session]. rewrite Hi, Hdp, Hdr1, Hlo. split_and!; try done.
        -- by rewrite <- app_assoc.
        -- apply Nat.leb_gt in Efull. rewrite length_app. cbn. lia.
        -- f_equal. lia.
  - apply (Hquiet 0); try done; [lia|]. intros k Hk. rewrite Z.add_0_r. by apply Hdrop.
  - apply (Hquiet 1); try done; [lia|]. intros k Hk. unfold on_session; cbn [el_session]. apply count_dropped_add; [done|]. by apply Hdrop.
  - destruct (abandoned a =? _) eqn:Eab.
    + apply (Hquiet 1); try done; [lia|]. intros k Hk. unfold on_session; cbn [el_session]. apply count_dropped_add; [done|]. by apply Hdrop.
    + apply (Hquiet 0); try done; [lia|]. intros k Hk. rewrite Z.add_0_r. by apply Hdrop.
Qed.

(** An operation that brings no chunk touches neither the queue nor what is counted. *)
Lemma on_event_quiet e l :
  chunk_of_op (LO_Event e) = None →
  el_assembler (on_event cfg e l) = el_assembler l ∧ called (on_event cfg e l) = called l ∧
  ss_inbound (el_session (on_event cfg e l)) = ss_inbound (el_session l) ∧ ss_dropped (el_session (on_event cfg e l)) = ss_dropped (el_session l).
Proof.
  intros He. destruct e as [|p| |topic data details| | | |]; try done; unfold on_event.
  - by destruct (next_state (el_state l) ME_Connected).
  - unfold called, call_back. cbn [on_session el_state]. destruct (next_state (el_state l) ME_Disconnected); [|done].
    destruct (on_disconnect cfg); [|done]. cbn. by rewrite omap_app, app_nil_r.
  - cbn in He. by rewrite He.
Qed.

Lemma accounted_same cs l l' got :
  el_assembler l' = el_assembler l → called l' = called l → ss_inbound (el_session l') = ss_inbound (el_session l) →
  ss_dropped (el_session l') = ss_dropped (el_session l) → accounted cs l got → accounted cs l' got.
Proof. unfold accounted. by intros -> -> -> ->. Qed.

Lemma receive_accounted cs l got m s :
  try_receive (el_session l) = (m, s) → accounted cs l got →
  accounted cs (on_session (λ _, s) l) (match m with Some m => got ++ [m] | None => got end).
Proof.
  intros Hr (ms & gone & Hm & Ha & Hrest). unfold try_receive in Hr. destruct (ss_inbound (el_session l)) as [|x q] eqn:Eq; injection Hr as <- <-.
  - exists ms, gone. split; [done|]. split; [done|]. unfold on_session. cbn [el_session]. by rewrite Eq.
  - destruct (on_message cfg) eqn:Ecfg; [by destruct Hrest as (_ & _ & Hi & _)|]. destruct Hrest as (-> & Hs & Hq & Hd).
    exists (gone ++ x :: q), (gone ++ [x]). split; [done|]. split; [done|]. rewrite Ecfg. unfold on_session, with_inbound. cbn [el_session ss_inbound ss_dropped].
    split_and!; [by rewrite <- app_assoc|by apply sublist_app|cbn [length] in Hq; lia|]. rewrite Hd, !length_app. f_equal. lia.
Qed.

Lemma run_accounted ops :
  Forall short (chunks_of ops) → accounted (chunks_of ops) (loop_run ops).1 (loop_run ops).2.
Proof.
  induction ops as [|op ops IH] using rev_ind; intros Hf.
  - exists [], []. split; [constructor|]. split; [done|]. cbn. by destruct (on_message cfg); split_and!; try done; cbn; lia.
  - unfold loop_run in *. rewrite foldl_snoc. rewrite chunks_snoc in *. destruct (foldl _ _ ops) as [l got]. cbn [fst snd] in *.
    assert (accounted (chunks_of ops) l got) as Ha by (apply IH; by apply Forall_app in Hf as [? _]). clear IH.
    destruct op as [e| |m b inputs]; cbn [loop_step].
    + destruct (chunk_of_op (LO_Event e)) as [c|] eqn:Ec.
      * destruct e; try done. cbn in Ec. cbn [fst snd on_event]. rewrite Ec. by apply on_chunk_accounted.
      * destruct (on_event_quiet e l Ec) as (? & ? & ? & ?). rewrite app_nil_r. by apply (accounted_same _ l).
    + destruct (try_receive (el_session l)) as [m s] eqn:Er. cbn [chunk_of_op fst snd]. rewrite app_nil_r. by apply receive_accounted.
    + cbn [chunk_of_op fst snd]. rewrite app_nil_r. by apply (accounted_same _ l).
Qed.
End inbound.

(** C38: What the event loop does to the messages is exact, whatever events arrive, whatever the application receives in between, and whatever other threads do to the rest of the session. The messages are those that the stream of chunks delivers. With [on_message], the callback is called with each of them, in order, and nothing is queued. Without it, what the application has received and what is still queued are messages in the order of arrival, the queue being the newest of them, never more than [INBOUND_QUEUE_DEPTH]. The counter of dropped messages is the number of messages that arrived and are neither received nor queued, plus those the assembler lost, modulo 2^32. *)
Theorem inbound_channel {C : Type} `{EspMqtt C} (cfg : LoopConfig) (retry : Z) (ops : list (LoopOp (C:=C))) :
  Forall short (chunks_of ops) →
  let l := (loop_run cfg retry ops).1 in let got := (loop_run cfg retry ops).2 in let s := el_session l in
  ∃ ms gone, messages_in (chunks_of ops) ms ∧
    if on_message cfg then called l = ms ∧ got = [] ∧ ss_inbound s = [] ∧ ss_dropped s = u32_wrap (losses (chunks_of ops))
    else ms = gone ++ ss_inbound s ∧ got `sublist_of` gone ∧ (length (ss_inbound s) ≤ INBOUND_QUEUE_DEPTH)%nat ∧
      ss_dropped s = u32_wrap (Z.of_nat (length gone - length got) + losses (chunks_of ops)).
Proof.
  intros Hf. destruct (run_accounted cfg retry ops Hf) as (ms & gone & Hm & _ & Hrest). exists ms, gone. split; [done|].
  destruct (on_message cfg); [by destruct Hrest as (-> & Hrest)|done].
Qed.

(** A client for examples: it gives every message the next id, and refuses an empty payload. *)
#[global] Instance counting_mqtt : EspMqtt Z := {
  esp_enqueue := λ topic payload _ _ n, match payload with [] => (Err "empty"%string, n) | _ => (Ok n, n + 1) end;
  esp_subscribe := λ _ _ n, (Ok n, n + 1) }.

(** Nine short messages and one in two chunks; the application receives once. *)
Abbreviation ten_messages := (
  (λ n, LO_Event (EV_Received (Some "t"%string) [n] D_Complete)) <$> [1; 2; 3; 4; 5; 6; 7; 8; 9]) (only parsing).

Example one_dropped :
  let '(l, got) := loop_run (C:=Z) (mkLoopConfig false true) 5000
    (ten_messages ++ [LO_Event (EV_Received (Some "u"%string) [1] (D_Initial 2)); LO_Receive; LO_Event (EV_Received None [2] (D_Subsequent 1 2))]) in
  got = [mkInbound "t" [2]] ∧ ss_dropped (el_session l) = 1 ∧ last (ss_inbound (el_session l)) = Some (mkInbound "u" [1; 2]).
Proof. by vm_compute. Qed.

Lemma inbound_channel_witness :
  let l := (loop_run (C:=Z) (mkLoopConfig false true) 5000 ten_messages).1 in
  ∃ ms gone, messages_in (chunks_of (C:=Z) ten_messages) ms ∧ ms = gone ++ ss_inbound (el_session l) ∧ (length (ss_inbound (el_session l)) ≤ 8)%nat.
Proof.
  destruct (inbound_channel (C:=Z) (mkLoopConfig false true) 5000 ten_messages) as (ms & gone & Hm & Hs & _ & Hl & _).
  - repeat constructor.
  - exists ms, gone. split; [exact Hm|]. split; [exact Hs|exact Hl].
Defined.

(** ** Acknowledged publishes *)

Section acks.
Context {C : Type} `{EspMqtt C} (cfg : LoopConfig).
Implicit Types (l : EventLoop (C:=C)).

(** An event, or what a publisher does to the registry. *)
Inductive AckOp := AO_Event (e : EspEvent) | AO_Register (id : MessageId) | AO_Cancel (id : MessageId).

Definition ack_step (l : EventLoop (C:=C)) (op : AckOp) : EventLoop (C:=C) :=
  match op with
  | AO_Event e => on_event cfg e l
  | AO_Register id => on_acks (λ p, (register id p).2) l
  | AO_Cancel id => on_acks (cancel id) l
  end.

(** What an operation is to the registry, and to the connection state of the loop. *)
Definition registry_events (st : MqttConnectionState) (op : AckOp) : list MqttAcks.Event :=
  match op with
  | AO_Event (EV_Published id) => [Resolve id Acked]
  | AO_Event EV_Disconnected => match next_state st ME_Disconnected with Some _ => [FailAll AckDisconnected] | None => [] end
  | AO_Event _ => []
  | AO_Register id => [Register id]
  | AO_Cancel id => [Cancel id]
  end.

Lemma ack_step_registry l op :
  el_acks (ack_step l op) = foldl apply_event (el_acks l) (registry_events (el_state l) op).
Proof.
  destruct op as [e|id|id]; [|done..]. destruct e as [|p| |topic data details| | | |]; try done; cbn [ack_step on_event registry_events].
  - by destruct (next_state (el_state l) ME_Connected).
  - cbn [on_session el_state]. destruct (next_state (el_state l) ME_Disconnected); [|done]. by destruct (on_disconnect cfg).
  - destruct (chunk_of topic data details) as [c|]; [|done]. unfold on_chunk. destruct (MqttChunks.feed c _) as [[t p| | |] a]; try done.
    + by destruct (on_message cfg).
    + by destruct (abandoned a =? _).
Qed.

(** The connection state of the loop. *)
Definition conn_step (st : MqttConnectionState) (op : AckOp) : MqttConnectionState :=
  match op with
  | AO_Event (EV_Connected _) => default st (next_state st ME_Connected)
  | AO_Event EV_Disconnected => default st (next_state st ME_Disconnected)
  | _ => st
  end.

Lemma ack_step_conn l op : el_state (ack_step l op) = conn_step (el_state l) op.
Proof.
  destruct op as [e|id|id]; [|done..]. destruct e as [|p| |topic data details| | | |]; try done; cbn [ack_step on_event conn_step].
  - by destruct (next_state (el_state l) ME_Connected).
  - cbn [on_session el_state]. destruct (next_state (el_state l) ME_Disconnected); [|done]. by destruct (on_disconnect cfg).
  - destruct (chunk_of topic data details) as [c|]; [|done]. unfold on_chunk. destruct (MqttChunks.feed c _) as [[t p| | |] a]; try done.
    + by destruct (on_message cfg).
    + by destruct (abandoned a =? _).
Qed.

(** What happens to a message id, oldest first: the broker answers, the session is lost, or another
    publisher takes the id or gives it up. *)
Inductive Fact := F_Answer | F_Lost | F_Taken.

Definition facts_of (id : MessageId) (st : MqttConnectionState) (op : AckOp) : list Fact :=
  match op with
  | AO_Event (EV_Published i) => if decide (i = id) then [F_Answer] else []
  | AO_Event EV_Disconnected => match next_state st ME_Disconnected with Some _ => [F_Lost] | None => [] end
  | AO_Event _ => []
  | AO_Register i | AO_Cancel i => if decide (i = id) then [F_Taken] else []
  end.

Fixpoint facts (id : MessageId) (st : MqttConnectionState) (ops : list AckOp) : list Fact :=
  match ops with
  | [] => []
  | op :: ops => facts_of id st op ++ facts id (conn_step st op) ops
  end.

Fixpoint events_of (st : MqttConnectionState) (ops : list AckOp) : list MqttAcks.Event :=
  match ops with
  | [] => []
  | op :: ops => registry_events st op ++ events_of (conn_step st op) ops
  end.

Lemma run_registry ops l :
  el_acks (foldl ack_step l ops) = foldl apply_event (el_acks l) (events_of (el_state l) ops).
Proof.
  revert l. induction ops as [|op ops IH]; intros l; [done|]. cbn [foldl events_of].
  by rewrite IH, ack_step_registry, ack_step_conn, foldl_app.
Qed.

(** While nobody else uses the id, an answer is kept exactly when it is the last that happened to it. *)
Lemma kept_exact id st ops kept :
  F_Taken ∉ facts id st ops →
  foldl (id_step id) (false, kept) (events_of st ops) =
    (false, match last (facts id st ops) with Some F_Answer => Some Acked | Some _ => None | None => kept end).
Proof.
  revert st kept. induction ops as [|op ops IH]; intros st kept Hn; [done|]. cbn [facts events_of] in *. apply not_elem_of_app in Hn as [Hn Hn'].
  rewrite foldl_app, last_app.
  assert (foldl (id_step id) (false, kept) (registry_events st op) =
          (false, match last (facts_of id st op) with Some F_Answer => Some Acked | Some _ => None | None => kept end)) as ->.
  { destruct op as [e|i|i]; cbn in *; [|case_decide; [set_solver|done]..].
    destruct e; cbn; try done; [by destruct (next_state st _)|by case_decide]. }
  rewrite IH by done. by destruct (last (facts id (conn_step st op) ops)).
Qed.

(** A publisher that waits is told the first thing that happens to the id. *)
Lemma first_exact id st ops :
  first_outcome id (events_of st ops) =
    match head (facts id st ops) with Some F_Answer => Some Acked | Some F_Lost => Some AckDisconnected | Some F_Taken | None => None end.
Proof.
  revert st. induction ops as [|op ops IH]; intros st; [done|]. cbn [facts events_of].
  destruct op as [e|i|i]; cbn; [|by case_decide..].
  destruct e; cbn; rewrite ?IH; try done; [by destruct (next_state st _); cbn; rewrite ?IH|by case_decide].
Qed.
End acks.



(** ** Building *)

Lemma check_filters_ok topics : check_filters topics = Ok tt ↔ Forall (λ t, validate_subscribe_filter t.1 = Ok tt) topics.
Proof.
  induction topics as [|[t q] topics IH]; cbn; [split; [constructor|done]|]. rewrite Forall_cons. cbn.
  destruct (validate_subscribe_filter t) as [[]|e]; cbn; [by rewrite IH; naive_solver|naive_solver].
Qed.

(** A client exists only for a valid configuration, with the filters and the callbacks of the builder. *)
Lemma build_validates {C : Type} spawned b (r : Built C) :
  mqtt_build spawned b = Ok r →
  validate_broker_host (host (b_config b)) = Ok tt ∧ validate_broker_port (port (b_config b)) = Ok tt ∧
  validate_client_id (client_id (b_config b)) = Ok tt ∧ Forall (λ t, validate_subscribe_filter t.1 = Ok tt) (b_topics b) ∧
  subscribe_topics (bt_runner r) = map fst (b_topics b) ∧ on_message (bt_loop r) = b_on_message b ∧ spawned = true.
Proof.
  unfold mqtt_build. rewrite <- check_filters_ok.
  destruct (validate_broker_host _) as [[]|]; [|done]. destruct (validate_broker_port _) as [[]|]; [|done].
  destruct (validate_client_id _) as [[]|]; [|done]. cbn. destruct (check_filters _) as [[]|]; [|done]. cbn.
  destruct spawned; [|done]. by intros [= <-].
Qed.

(** [build_and_wait] answers, once the client is connected or the time is up. *)
Lemma wait_loop_ends led_ok timeout (connected : nat → bool) (elapsed : nat → Z) (k n : nat) :
  (connected (n + k)%nat = true ∨ timeout ≤ elapsed (n + k)%nat) → ∃ r, (wait_loop led_ok timeout connected elapsed (S k) n).2 = Some r.
Proof.
  revert n. induction k as [|k IH]; intros n Hk.
  - rewrite Nat.add_0_r in Hk. cbn. unfold wait_turn. destruct (connected n); [by eexists|]. destruct Hk as [?|Hk]; [done|].
    apply Z.leb_le in Hk. rewrite Hk. by eexists.
  - rewrite <- Nat.add_succ_comm in Hk. destruct (IH (S n) Hk) as [r Hr]. change (wait_loop led_ok timeout connected elapsed (S (S k)) n) with
      (match wait_turn led_ok timeout (connected n) (elapsed n) with
       | (calls, Some r) => (calls, Some r)
       | (calls, None) => let '(calls', r) := wait_loop led_ok timeout connected elapsed (S k) (S n) in (calls ++ calls', r) end).
    destruct (wait_turn _ _ _ _) as [calls [r'|]]; [by eexists|]. destruct (wait_loop _ _ _ _ (S k) (S n)) as [calls' r'']. cbn in *. by eexists.
Qed.
