(* ===== verification/ProvBoot.v ===== *)
(** * ProvBoot: names of an access point and a device, the re-entry hook, and loading a
    provisioned device at boot ([ssid.rs], [device_name.rs], [reentry.rs] in juggler,
    [provisioning/boot.rs] of the ESP-IDF tier)

    A MAC address is a list of six bytes.  A factory or a hook that runs once is an argument,
    and a log of calls shows when it ran. *)
From Stdlib Require Import Ascii.
From S2P Require Import Prelude Text ProvConfig ProvForm ProvFormProps ProvFlow MqttOutbox MqttTopics MqttConfig ProvKv ProvKvProps.
Open Scope Z_scope.

(** ** Names *)

Definition SUFFIX_LEN : nat := 5.

(** [while !s.is_char_boundary(end) { end -= 1; }]: 0 is a boundary. *)
Fixpoint floor_boundary (n : nat) (s : string) : nat :=
  match n with
  | O => O
  | S m => if is_char_boundary n s then n else floor_boundary m s
  end.

(** [{:02x}] and [{:02X}]. *)
Definition hex_nibble (upper : bool) (n : Z) : ascii := byte_chr (if n <? 10 then 48 + n else (if upper then 55 else 87) + n).
Definition hex2 (upper : bool) (b : Z) : string :=
  String (hex_nibble upper (b `div` 16)) (String (hex_nibble upper (b `mod` 16)) "").

(** [heapless::String::push_str] and [write!], their errors dropped: what does not fit is left out. *)
Definition push_fitting (cap : Z) (out piece : string) : string := if str_len out + str_len piece <=? cap then out +:+ piece else out.

Definition mac_byte (mac : list Z) (i : nat) : Z := default 0 (mac !! i).

Definition derive_softap_ssid (prefix : string) (mac : list Z) : string :=
  let end_ := floor_boundary (Nat.min (String.length prefix) (32 - SUFFIX_LEN)) prefix in
  let ssid := push_fitting 32 "" (String.substring 0 end_ prefix) in
  push_fitting 32 ssid ("-" +:+ hex2 true (mac_byte mac 4) +:+ hex2 true (mac_byte mac 5)).

Definition resolve_softap_ssid (ssid_override : option string) (prefix : string) (mac : list Z) : result string string :=
  match ssid_override with
  | Some s =>
      if decide (trim s = "") then Err "SSID is whitespace-only"
      else _ ← validate_ssid s; Ok (push_fitting 32 "" s)
  | None => Ok (derive_softap_ssid prefix mac)
  end.

Definition derive_device_name (prefix : string) (mac : list Z) : string :=
  let prefix := trim prefix in
  if decide (prefix = "") then push_fitting DEVICE_NAME_MAX_LEN "" (hex2 false (mac_byte mac 4) +:+ hex2 false (mac_byte mac 5))
  else
    let end_ := floor_boundary (Nat.min (String.length prefix) (Z.to_nat DEVICE_NAME_MAX_LEN - SUFFIX_LEN)) prefix in
    let name := push_fitting DEVICE_NAME_MAX_LEN "" (String.substring 0 end_ prefix) in
    push_fitting DEVICE_NAME_MAX_LEN name ("-" +:+ hex2 false (mac_byte mac 4) +:+ hex2 false (mac_byte mac 5)).

Inductive DeviceName := Fixed (s : string) | MacSuffixed (prefix : string).

Definition DeviceName_resolve (d : DeviceName) (mac : list Z) : string :=
  match d with
  | Fixed s =>
      let end_ := floor_boundary (Nat.min (String.length s) (Z.to_nat DEVICE_NAME_MAX_LEN)) s in
      push_fitting DEVICE_NAME_MAX_LEN "" (String.substring 0 end_ s)
  | MacSuffixed p => derive_device_name p mac
  end.

(** ** The re-entry hook *)

Inductive ReentryRequest := RR_None | RR_Portal | RR_FactoryReset.
Inductive ReentryGate (T : Type) := RG_Portal | RG_FactoryReset | RG_Proceed (t : T).
Arguments RG_Portal {T}.
Arguments RG_FactoryReset {T}.
Arguments RG_Proceed {T}.

(** [hook] and [open] run at most once each, in this order: [S] is what they work on. *)
Definition gate_reentry {S T E} (hook : M S E ReentryRequest) (open : M S E T) : M S E (ReentryGate T) :=
  answer ← hook;
  match answer with
  | RR_Portal => mret RG_Portal
  | RR_FactoryReset => mret RG_FactoryReset
  | RR_None => t ← open; mret (RG_Proceed t)
  end.

(** ** Boot *)

Record WifiMqttBoot := mkBoot { boot_config : ProvisioningConfig; boot_client_id : string }.

Inductive WifiMqttLoadOutcome :=
| WL_Ready (b : WifiMqttBoot) | WL_NotProvisioned | WL_OtherProfile (p : SchemaProfile)
| WL_PortalRequested | WL_FactoryResetRequested.

Inductive BootError := BE_Store (e : KvStoreError) | BE_ClientId (e : string) | BE_Open.

Definition default_client_id (cfg : ProvisioningConfig) : result BootError string :=
  let operator_id := match mqtt cfg with Some m => mqtt_client_id m | None => None end in
  map_err BE_ClientId (resolve_client_id operator_id (device_name cfg) "rustyfarian").

(** A debug build stops at the two shapes that the comments call unreachable. *)
Definition boot_mqtt_config (b : WifiMqttBoot) : MqttConfig :=
  match mqtt (boot_config b) with
  | None => MqttConfig_new "" 0 (boot_client_id b)
  | Some m =>
      let config := MqttConfig_new (mqtt_host m) (mqtt_port m) (boot_client_id b) in
      match mqtt_username m, mqtt_password m with
      | Some user, Some pass => with_auth user pass config
      | Some user, None => with_username_only user config
      | None, None => config
      | None, Some _ => config
      end
  end.

Definition boot_wifi_config (b : WifiMqttBoot) : string * string := (wifi_ssid (boot_config b), wifi_password (boot_config b)).

Section boot.
  Context {K : Type} `{ProvisioningKv K}.

Definition boot_load : M K BootError (option ProvisioningConfig) := λ s, let '(r, s) := load s in (map_err BE_Store r, s).

Definition classify (client_id_fn : ProvisioningConfig → result BootError string) : M K BootError WifiMqttLoadOutcome :=
  loaded ← boot_load;
  match loaded with
  | None => mret WL_NotProvisioned
  | Some cfg =>
      match mqtt cfg with
      | None => mret (WL_OtherProfile (config_profile cfg))
      | Some _ =>
          client_id ← of_result (client_id_fn cfg);
          _ ← of_result (map_err BE_ClientId (validate_client_id client_id));
          mret (WL_Ready (mkBoot cfg client_id))
      end
  end.

(** [open] is [ProvisioningStore::open] on the NVS partition. *)
Definition load_with (open : M K BootError unit) (client_id_fn : ProvisioningConfig → result BootError string) :
    M K BootError WifiMqttLoadOutcome :=
  _ ← open; classify client_id_fn.

Definition load_with_reentry (open : M K BootError unit) (reentry : ReentryRequest)
    (client_id_fn : ProvisioningConfig → result BootError string) : M K BootError WifiMqttLoadOutcome :=
  gate ← gate_reentry (mret reentry) open;
  match gate with
  | RG_Portal => mret WL_PortalRequested
  | RG_FactoryReset => mret WL_FactoryResetRequested
  | RG_Proceed _ => classify client_id_fn
  end.

End boot.

(** ** Properties of the names *)

Lemma floor_boundary_spec n s :
  (floor_boundary n s ≤ n)%nat ∧ is_char_boundary (floor_boundary n s) s = true ∨ floor_boundary n s = 0%nat.
Proof.
  induction n as [|n IH]; [by right|]. cbn [floor_boundary]. destruct (is_char_boundary (S n) s) eqn:E; [by left|].
  destruct IH as [[H1 H2]|H]; [left; split; [lia|done]|by right].
Qed.

(** Cut at the boundary below [n], a text stays a text, of at most [n] bytes. *)
Lemma floor_boundary_text n s :
  utf8_valid (as_bytes s) = true →
  hstring_ok (Z.of_nat n) (String.substring 0 (floor_boundary n s) s).
Proof.
  intros Hs. unfold hstring_ok, str_len. rewrite <- as_bytes_length, as_bytes_take, length_take.
  destruct (floor_boundary_spec n s) as [[H1 H2]|H]; [|rewrite H; split; [lia|done]].
  split; [lia|]. apply utf8_valid_take; [done|]. intros b Hb. unfold is_char_boundary in H2. rewrite Hb in H2.
  by apply negb_true_iff.
Qed.

(** The last two bytes of the address, in digits. *)
Definition mac_suffix (upper : bool) (mac : list Z) : string := hex2 upper (mac_byte mac 4) +:+ hex2 upper (mac_byte mac 5).

Lemma push_fitting_fits cap out piece : str_len out + str_len piece ≤ cap → push_fitting cap out piece = out +:+ piece.
Proof. intros H. unfold push_fitting. by rewrite (proj2 (Z.leb_le _ _)). Qed.

Lemma suffix_length upper mac : str_len ("-" +:+ hex2 upper (mac_byte mac 4) +:+ hex2 upper (mac_byte mac 5)) = 5.
Proof. reflexivity. Qed.

Lemma substring_prefix n s : ∃ rest, s = String.substring 0 n s +:+ rest.
Proof.
  revert n. induction s as [|a s IH]; intros [|n]; [by exists ""..|by exists (String a s)|].
  destruct (IH n) as [rest Hr]. exists rest. cbn. by rewrite Hr at 1.
Qed.

(** The name of an access point keeps its suffix: a prefix cut to a text of at most 27 bytes, a dash and the four digits. *)
Lemma ssid_shape prefix mac :
  utf8_valid (as_bytes prefix) = true →
  ∃ p, hstring_ok 27 p ∧ (∃ rest, prefix = p +:+ rest) ∧ derive_softap_ssid prefix mac = p +:+ "-" +:+ mac_suffix true mac.
Proof.
  intros Hp. unfold derive_softap_ssid. set (n := Nat.min (String.length prefix) (32 - SUFFIX_LEN)).
  set (p := String.substring 0 (floor_boundary n prefix) prefix). exists p.
  destruct (floor_boundary_text n prefix Hp) as [Hl Hu]. fold p in Hl, Hu.
  assert (str_len p ≤ 27) as Hl27 by (unfold n, SUFFIX_LEN in Hl; lia).
  split; [by split|]. split; [apply substring_prefix|].
  rewrite (push_fitting_fits 32 "" p) by (change (str_len p ≤ 32); lia).
  rewrite push_fitting_fits; [done|]. change ("" +:+ p) with p. rewrite (suffix_length true mac). lia.
Qed.

(** So does the name of a device, unless nothing is left of its prefix; the digits are those of the access point. *)
Lemma device_name_shape prefix mac :
  utf8_valid (as_bytes (trim prefix)) = true → trim prefix ≠ "" →
  ∃ p, hstring_ok 19 p ∧ (∃ rest, trim prefix = p +:+ rest) ∧ derive_device_name prefix mac = p +:+ "-" +:+ mac_suffix false mac.
Proof.
  intros Hp Hne. unfold derive_device_name. rewrite decide_False by done.
  set (n := Nat.min (String.length (trim prefix)) (Z.to_nat DEVICE_NAME_MAX_LEN - SUFFIX_LEN)).
  set (p := String.substring 0 (floor_boundary n (trim prefix)) (trim prefix)). exists p.
  destruct (floor_boundary_text n (trim prefix) Hp) as [Hl Hu]. fold p in Hl, Hu.
  assert (str_len p ≤ 19) as Hl19 by (unfold n, SUFFIX_LEN, DEVICE_NAME_MAX_LEN in Hl; lia).
  split; [by split|]. split; [apply substring_prefix|].
  rewrite (push_fitting_fits DEVICE_NAME_MAX_LEN "" p) by (change (str_len p ≤ 24); lia).
  rewrite push_fitting_fits; [done|]. change ("" +:+ p) with p. rewrite (suffix_length false mac). unfold DEVICE_NAME_MAX_LEN. lia.
Qed.

(** ** Properties of the boot *)

Lemma fitting_len_bound fuel s n : (n ≤ 23)%nat → (fitting_len fuel s n ≤ 23)%nat.
Proof.
  revert s n. induction fuel as [|fuel IH]; intros s n Hn; [done|]. destruct s as [|a s]; [done|]. cbn [fitting_len].
  unfold CLIENT_ID_MAX_LEN. destruct (Z.ltb_spec 23 (Z.of_nat (n + utf8_len a))); [done|]. apply IH. lia.
Qed.

Lemma substring_length n s : (String.length (String.substring 0 n s) ≤ n)%nat.
Proof. rewrite <- as_bytes_length, as_bytes_take, length_take. lia. Qed.

Lemma validate_client_id_short id : id ≠ "" → str_len id ≤ 23 → validate_client_id id = Ok tt.
Proof.
  intros Hn Hl. unfold validate_client_id, CLIENT_ID_MAX_LEN. rewrite decide_False by done. by rewrite (proj2 (Z.ltb_ge _ _)).
Qed.

(** A client id is always found: the stored one, what fits of the name, or the fallback. *)
Lemma resolve_client_id_total operator_id device_name fallback :
  match operator_id with Some id => str_len id ≤ 23 | None => True end → validate_client_id fallback = Ok tt →
  ∃ id, resolve_client_id operator_id device_name fallback = Ok id ∧ validate_client_id id = Ok tt.
Proof.
  intros Hop Hf. unfold resolve_client_id.
  set (derived := String.substring 0 _ _). set (chosen := if decide (derived = "") then fallback else derived).
  assert (validate_client_id chosen = Ok tt) as Hc.
  { unfold chosen. case_decide as Hd; [done|]. apply validate_client_id_short; [done|].
    pose proof (substring_length (fitting_len (String.length device_name) device_name 0) device_name).
    pose proof (fitting_len_bound (String.length device_name) device_name 0 ltac:(lia)). unfold derived, str_len. lia. }
  destruct operator_id as [id|]; [case_decide as Hid|].
  - exists chosen. cbn. rewrite Hc. done.
  - pose proof (validate_client_id_short id Hid Hop) as Hv. exists id. cbn. rewrite Hv. done.
  - exists chosen. cbn. rewrite Hc. done.
Qed.

Section boot_props.
  Context {K : Type} {KV : ProvisioningKv K} {KVL : ProvisioningKvLaws K}.

(** What a boot finds in a register. *)
Definition booted (reg : option ProvisioningConfig) (o : WifiMqttLoadOutcome) : Prop :=
  match reg with
  | None => o = WL_NotProvisioned
  | Some c =>
      match mqtt c with
      | None => o = WL_OtherProfile (config_profile c)
      | Some _ => ∃ id, o = WL_Ready (mkBoot c id) ∧ validate_client_id id = Ok tt
      end
  end.

Lemma booted_load (s : K) reg : kv_implements s reg → ∃ s', load s = (Ok reg, s') ∧ kv_implements s' reg.
Proof using KVL.
  intros Hi. destruct (kv_step_implements K_Load s reg I Hi) as (s' & E & Hi'). cbn [kv_step kv_register fst snd] in *.
  rewrite M_bind_eq in E. destruct (load s) as [[c|e] s1]; [|done]. injection E as -> ->. by exists s'.
Qed.

(** The client id stored in a register is short enough. *)
Lemma register_client_id (s : K) c m :
  kv_implements s (Some c) → mqtt c = Some m → opt_hstring_ok MQTT_CLIENT_ID_MAX_LEN (mqtt_client_id m).
Proof. intros (_ & c0 & -> & ((_ & _ & _ & _ & Hm & _) & _) & _) Hc. cbn in Hc. rewrite Hc in Hm. apply Hm. Qed.

Lemma classify_booted (s : K) reg :
  kv_implements s reg → ∃ o s', classify default_client_id s = (Ok o, s') ∧ booted reg o ∧ kv_implements s' reg.
Proof using KVL.
  intros Hi. destruct (booted_load s reg Hi) as (s' & E & Hi').
  unfold classify, boot_load. rewrite M_bind_eq, E. cbn [map_err].
  destruct reg as [c|]; [|by exists WL_NotProvisioned, s']. unfold booted.
  destruct (mqtt c) as [m|] eqn:Em; [|by exists (WL_OtherProfile (config_profile c)), s'].
  destruct (resolve_client_id_total (mqtt_client_id m) (device_name c) "rustyfarian") as (id & Hid & Hv); [| |].
  { pose proof (register_client_id s c m Hi Em) as Hc. destruct (mqtt_client_id m); [apply Hc|done]. }
  { done. }
  exists (WL_Ready (mkBoot c id)), s'. rewrite M_bind_eq. unfold of_result, default_client_id. rewrite Em, Hid. cbn [map_err].
  rewrite M_bind_eq, Hv. split; [done|]. split; [by exists id|done].
Qed.

End boot_props.

(** A save whose best-effort removal of the old password fails leaves what the comment of
    [mqtt_config] calls unreachable: a password without a user name. *)
Example password_without_user :
  let anonymous := mkConfig "attic net" "open sesame" "" "lamp" None (Some (mkMqtt "broker.lan" 1883 None None None)) [] in
  let '(_, s) := save lamp (empty_kv []) in
  let '(r, s') := save anonymous (mkScript (replicate 8 None ++ [Some false]) (stored s)) in
  r = Ok tt ∧
  match (classify default_client_id s').1 with
  | Ok (WL_Ready b) => (λ m, (mqtt_username m, mqtt_password m)) <$> mqtt (boot_config b) = Some (None, Some "p"%string)
  | _ => False
  end.
Proof. vm_compute. done. Qed.
