(* ===== verification/IdfPortal.v ===== *)
(** * IdfPortal: the captive portal of the ESP-IDF tier ([provisioning/portal.rs] of
    [rustyfarian-esp-idf-network])

    The handlers run one at a time on the task of the HTTP server, which is third-party code: a
    request is its route and what reading its body returns.  The HTML assets and the [Display]
    texts of the field errors are arguments.  Errors of writing a response are dropped by the
    server and come after every effect, so a handler is the response it writes and its effects. *)
From Stdlib Require Import Ascii.
From S2P Require Import Prelude Text ProvConfig ProvForm ProvKv ProvSession Http Portal.
Open Scope Z_scope.

Definition MAX_BODY_LEN : nat := Z.to_nat 2048.
Definition READ_CHUNK : nat := 512.

(** ** The request body *)

(** [String::from_utf8_lossy]: the bytes of the next chunk, and whether they are a character. *)
Definition lossy_char (l : bytes) : nat * bool :=
  let b i := default 0 (l !! i) in
  let b0 := b 0%nat in
  if b0 <? 128 then (1%nat, true)
  else if in_range 194 223 b0 then if continuation (b 1%nat) then (2%nat, true) else (1%nat, false)
  else if in_range 224 239 b0 then
    let second := if Z.eqb b0 224 then in_range 160 191 (b 1%nat)
                  else if Z.eqb b0 237 then in_range 128 159 (b 1%nat) else continuation (b 1%nat) in
    if negb second then (1%nat, false) else if continuation (b 2%nat) then (3%nat, true) else (2%nat, false)
  else if in_range 240 244 b0 then
    let second := if Z.eqb b0 240 then in_range 144 191 (b 1%nat)
                  else if Z.eqb b0 244 then in_range 128 143 (b 1%nat) else continuation (b 1%nat) in
    if negb second then (1%nat, false)
    else if negb (continuation (b 2%nat)) then (2%nat, false)
    else if continuation (b 3%nat) then (4%nat, true) else (3%nat, false)
  else (1%nat, false).

Definition REPLACEMENT : bytes := [239; 191; 189].

Fixpoint lossy (fuel : nat) (l : bytes) : bytes :=
  match fuel, l with
  | S fuel, _ :: _ =>
      let '(n, valid) := lossy_char l in (if (valid : bool) then take n l else REPLACEMENT) ++ lossy fuel (drop n l)
  | _, _ => []
  end.

Definition from_utf8_lossy (l : bytes) : string := of_bytes (lossy (length l) l).

Inductive BodyRead := BR_Ok (body : string) | BR_TooLarge | BR_ReadError.

(** Each turn adds a byte, or ends. *)
Fixpoint idf_read_body (fuel : nat) (body : bytes) (conn : reads) : BodyRead :=
  match fuel with
  | O => BR_TooLarge
  | S fuel =>
      match sock_read READ_CHUNK conn with
      | (Some [], _) => BR_Ok (from_utf8_lossy body)
      | (Some chunk, conn) =>
          if (MAX_BODY_LEN <? length body + length chunk)%nat then BR_TooLarge else idf_read_body fuel (body ++ chunk) conn
      | (None, _) => BR_ReadError
      end
  end.

Definition read_request_body (conn : reads) : BodyRead := idf_read_body (MAX_BODY_LEN + 2) [] conn.

(** ** The session token *)

Fixpoint percent_decode_bytes (l : bytes) : option bytes :=
  match l with
  | [] => Some []
  | b :: l =>
      if Z.eqb b 43 then rest ← percent_decode_bytes l; Some (32 :: rest)
      else if Z.eqb b 37 then
        match l with
        | h :: o :: l' =>
            hi ← hex_value h; lo ← hex_value o; rest ← percent_decode_bytes l'; Some (Z.lor (Z.shiftl hi 4) lo :: rest)
        | _ => None
        end
      else rest ← percent_decode_bytes l; Some (b :: rest)
  end.

Definition percent_decode_simple (input : string) : option string :=
  out ← percent_decode_bytes (as_bytes input); from_utf8 out.

Fixpoint nonce_in (l : list string) (expected : string) : bool :=
  match l with
  | [] => false
  | p :: l =>
      match strip_prefix "_nonce=" p with
      | Some raw => match percent_decode_simple raw with Some decoded => bool_decide (decoded = expected) | None => false end
      | None => nonce_in l expected
      end
  end.

Definition idf_nonce_matches (body expected : string) : bool := nonce_in (split "&" body) expected.

(** ** Pre-fill *)

Record IdfDefaults := mkIdfDefaults {
  d_wifi_ssid : string; d_dev_eui : string; d_join_eui : string; d_mqtt_host : string; d_mqtt_port : string;
  d_mqtt_user : string; d_mqtt_client : string; d_ota_url : string }.

Record IdfPrefill := mkIdfPrefill {
  f_wifi_ssid : string; f_dev_eui : string; f_join_eui : string; f_mqtt_uri : string; f_mqtt_user : string;
  f_mqtt_client : string; f_ota_url : string; f_dev_name : string }.

Definition idf_compose_mqtt_uri (host port : string) : string :=
  if bool_decide (host = ""%string) || bool_decide (port = ""%string) then ""%string else ("mqtt://" +:+ host +:+ ":" +:+ port)%string.

Definition idf_prefill_from_defaults (d : IdfDefaults) (p : SchemaProfile) (device_name : string) : IdfPrefill :=
  match p with
  | LorawanFieldDevice => mkIdfPrefill (d_wifi_ssid d) (d_dev_eui d) (d_join_eui d) "" "" "" (d_ota_url d) device_name
  | WifiMqttDevice =>
      mkIdfPrefill (d_wifi_ssid d) "" "" (idf_compose_mqtt_uri (d_mqtt_host d) (d_mqtt_port d)) (d_mqtt_user d)
        (d_mqtt_client d) (d_ota_url d) device_name
  end.

Definition prefill_for (stored : option ProvisioningConfig) (p : SchemaProfile) (d : IdfDefaults) (device_name : string) : IdfPrefill :=
  match stored with
  | Some cfg =>
      if decide (config_profile cfg = p) then
        let m := mqtt cfg in
        mkIdfPrefill (wifi_ssid cfg)
          (match lora cfg with Some l => dev_eui_hex l | None => "" end)
          (match lora cfg with Some l => join_eui_hex l | None => "" end)
          (match m with
           | Some m => if decide (p = WifiMqttDevice) then idf_compose_mqtt_uri (mqtt_host m) (show_uint (mqtt_port m)) else ""
           | None => ""
           end)
          (default ""%string (match m with Some m => mqtt_username m | None => None end))
          (default ""%string (match m with Some m => mqtt_client_id m | None => None end))
          (default ""%string (config_ota_url cfg)) (ProvConfig.device_name cfg)
      else idf_prefill_from_defaults d p device_name
  | None => idf_prefill_from_defaults d p device_name
  end.

(** ** Rendering *)

(** [str::replace]: every occurrence from the left; each step consumes the pattern. *)
Fixpoint replace_fuel (fuel : nat) (pat new l : bytes) : bytes :=
  match fuel with
  | O => l
  | S fuel =>
      match find_sub pat l with
      | Some i => take i l ++ new ++ replace_fuel fuel pat new (drop (i + length pat) l)
      | None => l
      end
  end.

Definition replace (pat : string) (new l : bytes) : bytes := replace_fuel (length l) (as_bytes pat) new l.

Definition html_escape (input : string) : bytes := html_escape_to (as_bytes input).
Definition json_escape (input : string) : bytes := json_escape_to (as_bytes input).

Definition field_label (f : Field) : string :=
  match f with
  | WifiSsid => "Wi-Fi network name" | WifiPassword => "Wi-Fi password" | DevEui => "DevEUI" | JoinEui => "JoinEUI"
  | AppKey => "AppKey" | MqttUri => "MQTT broker URI" | MqttUser => "MQTT username" | MqttPass => "MQTT password"
  | MqttClient => "MQTT client ID" | OtaUrl => "OTA URL" | DeviceName => "Device name" | Form => "Submission"
  end.

Definition resubmit_hint : bytes := as_bytes "<p>" ++ RESUBMIT_HINT ++ as_bytes "</p>".

Definition render_banner (message : string) : bytes :=
  html "<div class='errors'>" ++ html_escape message ++ resubmit_hint ++ as_bytes "</div>".

(** ** What the handlers share *)

Inductive IdfEvent := IE_PortalStarted | IE_ClientConnected | IE_SubmissionRejected | IE_Committed | IE_FactoryResetRequested.

Record IdfConfig := mkIdfConfig {
  ap_ip : string; nonce : string; idf_device_name : string; idf_firmware_version : string;
  status_entries : list (string * string); idf_profile : SchemaProfile; idf_defaults : IdfDefaults }.

(** The session, the store behind its mutex, what the callback was told, and
    the saves tried (each oldest first). *)
Record Idf (K : Type) := mkIdf {
  idf_session : SessionState; idf_store : K; store_poisoned : bool; idf_events : list IdfEvent;
  idf_saves : list (ProvisioningConfig * bool) }.
Arguments mkIdf {K}.
Arguments idf_session {K}.
Arguments idf_store {K}.
Arguments store_poisoned {K}.
Arguments idf_events {K}.
Arguments idf_saves {K}.

Record HttpResponse := mkResponse { status : Z; response_headers : list (string * string); response_body : bytes }.

Section render.
  Context (LORAWAN_PORTAL_HTML WIFI_MQTT_PORTAL_HTML : bytes) (error_display : ValidationError → string).

Definition idf_template_for (p : SchemaProfile) : bytes :=
  match p with LorawanFieldDevice => LORAWAN_PORTAL_HTML | WifiMqttDevice => WIFI_MQTT_PORTAL_HTML end.

Definition render_errors (errors : FieldErrors) : bytes :=
  match errors with
  | [] => []
  | _ =>
      html "<div class='errors'><strong>Please fix:</strong><ul>" ++
      (errors ≫= λ e, as_bytes "<li>" ++ html_escape (field_label (fe_field e)) ++ as_bytes ": " ++
                      html_escape (error_display (fe_error e)) ++ as_bytes "</li>") ++
      as_bytes "</ul>" ++ resubmit_hint ++ as_bytes "</div>"
  end.

Definition render_template (p : SchemaProfile) (nonce : string) (prefill : IdfPrefill) (errors : bytes) : bytes :=
  replace "{{DEV_NAME}}" (html_escape (f_dev_name prefill))
    (replace "{{OTA_URL}}" (html_escape (f_ota_url prefill))
      (replace "{{MQTT_CLIENT}}" (html_escape (f_mqtt_client prefill))
        (replace "{{MQTT_USER}}" (html_escape (f_mqtt_user prefill))
          (replace "{{MQTT_URI}}" (html_escape (f_mqtt_uri prefill))
            (replace "{{JOIN_EUI}}" (html_escape (f_join_eui prefill))
              (replace "{{DEV_EUI}}" (html_escape (f_dev_eui prefill))
                (replace "{{WIFI_SSID}}" (html_escape (f_wifi_ssid prefill))
                  (replace "{{ERRORS}}" errors
                    (replace "{{NONCE}}" (html_escape nonce) (idf_template_for p)))))))))).

Definition render_form (p : SchemaProfile) (nonce : string) (prefill : IdfPrefill) (errors : FieldErrors) : bytes :=
  render_template p nonce prefill (render_errors errors).

Definition render_form_with_banner (p : SchemaProfile) (nonce : string) (prefill : IdfPrefill) (message : string) : bytes :=
  render_template p nonce prefill (render_banner message).

Definition json_entry (e : string * string) : bytes := [34] ++ json_escape e.1 ++ html "':'" ++ json_escape e.2 ++ [34].

Fixpoint json_entries (extras : list (string * string)) : bytes :=
  match extras with
  | [] => []
  | [e] => json_entry e
  | e :: extras => json_entry e ++ [44] ++ json_entries extras
  end.

Definition render_status (state : string) (provisioned : bool) (p : SchemaProfile) (device_name firmware_version : string)
    (uptime_s : Z) (extras : list (string * string)) : bytes :=
  html "{'schema':2,'state':'" ++ json_escape state ++ html "','provisioned':" ++
  as_bytes (if provisioned then "true" else "false") ++ html ",'profile':'" ++ as_bytes (SchemaProfile_as_str p) ++
  html "','device_name':'" ++ json_escape device_name ++ html "','firmware_version':'" ++ json_escape firmware_version ++
  html "','uptime_s':" ++ as_bytes (show_uint uptime_s) ++ html ",'extra':{" ++ json_entries extras ++ as_bytes "}}".

(** ** The handlers *)

Section handlers.
  Context {K : Type} `{ProvisioningKv K} (cfg : IdfConfig).

Definition with_session (s : SessionState) (p : Idf K) : Idf K := mkIdf s (idf_store p) (store_poisoned p) (idf_events p) (idf_saves p).
Definition with_store (k : K) (p : Idf K) : Idf K := mkIdf (idf_session p) k (store_poisoned p) (idf_events p) (idf_saves p).
Definition tell (e : IdfEvent) (p : Idf K) : Idf K :=
  mkIdf (idf_session p) (idf_store p) (store_poisoned p) (idf_events p ++ [e]) (idf_saves p).

(** A call on the session. *)
Definition on_session {A} (f : SessionState → A * SessionState) (p : Idf K) : A * Idf K :=
  let '(a, s) := f (idf_session p) in (a, with_session s p).

(** [store.lock()] and a call. *)
Definition on_store {E A} (m : M K E A) (p : Idf K) : option (result E A) * Idf K :=
  if store_poisoned p then (None, p) else let '(r, k) := m (idf_store p) in (Some r, with_store k p).

Definition idf_load_prefill (p : Idf K) : IdfPrefill * Idf K :=
  let '(stored, p) := on_store load p in
  (prefill_for (match stored with Some (Ok cfg) => cfg | _ => None end) (idf_profile cfg) (idf_defaults cfg) (idf_device_name cfg), p).

Definition plain (status : Z) (body : string) : HttpResponse := mkResponse status [] (as_bytes body).

Definition idf_get_root (p : Idf K) : HttpResponse * Idf K :=
  let '(prefill, p) := idf_load_prefill p in
  (mkResponse 200 [("Content-Type"%string, "text/html; charset=utf-8"%string); ("Cache-Control"%string, "no-store"%string)]
     (render_form (idf_profile cfg) (nonce cfg) prefill []), p).

Definition banner_page (status : Z) (message : string) (p : Idf K) : HttpResponse * Idf K :=
  let '(prefill, p) := idf_load_prefill p in
  (mkResponse status [] (render_form_with_banner (idf_profile cfg) (nonce cfg) prefill message), p).

Definition idf_save_config (c : ProvisioningConfig) (p : Idf K) : bool * Idf K :=
  let '(r, p) := on_store (save c) p in
  let ok := match r with Some (Ok _) => true | _ => false end in
  (ok, mkIdf (idf_session p) (idf_store p) (store_poisoned p) (idf_events p) (idf_saves p ++ [(c, ok)])).

Definition idf_accepted (c : ProvisioningConfig) (p : Idf K) : HttpResponse * Idf K :=
  match on_session (session_apply ValidSubmission) p with
  | (Err _, p) => (mkResponse 409 [] SESSION_FINISHED_BODY, p)
  | (Ok _, p) =>
      match idf_save_config c p with
      | (true, p) =>
          match on_session (session_commit c) p with
          | (Err _, p) => (mkResponse 409 [] SESSION_FINISHED_BODY, p)
          | (Ok _, p) => (mkResponse 200 [] COMMITTED_HTML, tell IE_Committed p)
          end
      | (false, p) =>
          let '(_, p) := on_session (session_apply PersistFailed) p in
          banner_page 500 "Could not save credentials to flash. Please try again." p
      end
  end.

(** [parse_form(..)] and what follows it. *)
Definition idf_submit (body : string) (p : Idf K) : HttpResponse * Idf K :=
  match parse_form body (idf_profile cfg) with
  | Ok c => idf_accepted c p
  | Err errors =>
      let '(_, p) := on_session (session_apply InvalidSubmission) p in
      let p := tell IE_SubmissionRejected p in
      let '(prefill, p) := idf_load_prefill p in
      (mkResponse 400 [] (render_form (idf_profile cfg) (nonce cfg) prefill errors), p)
  end.

Definition too_large_message : string := of_bytes (as_bytes "Request body too large " ++ [226; 128; 148] ++ as_bytes " please try again.").

Definition idf_post_save (conn : reads) (p : Idf K) : HttpResponse * Idf K :=
  match read_request_body conn with
  | BR_TooLarge => banner_page 413 too_large_message p
  | BR_ReadError => (plain 400 "Bad request: could not read body.", p)
  | BR_Ok body =>
      if negb (idf_nonce_matches body (nonce cfg)) then (plain 403 "Forbidden: session token mismatch.", p)
      else idf_submit body p
  end.

Definition idf_get_status (uptime_s : Z) (p : Idf K) : HttpResponse * Idf K :=
  let '(r, p) := on_store is_provisioned p in
  let provisioned := match r with Some (Ok b) => b | _ => false end in
  (mkResponse 200 [("Content-Type"%string, "application/json"%string)]
     (render_status (state_str (session_current (idf_session p))) provisioned (idf_profile cfg) (idf_device_name cfg)
        (idf_firmware_version cfg) uptime_s (status_entries cfg)), p).

Definition idf_post_factory_reset (conn : reads) (p : Idf K) : HttpResponse * Idf K :=
  match read_request_body conn with
  | BR_TooLarge => (plain 413 "Request body too large.", p)
  | BR_ReadError => (plain 400 "Bad request: could not read body.", p)
  | BR_Ok body =>
      if negb (idf_nonce_matches body (nonce cfg)) then (plain 403 "Forbidden: session token mismatch.", p)
      else
        match on_session (apply_and_notify FactoryReset) p with
        | (Err _, p) => (mkResponse 409 [] SESSION_FINISHED_BODY, p)
        | (Ok _, p) => (mkResponse 200 [] FACTORY_RESET_HTML, tell IE_FactoryResetRequested p)
        end
  end.

Definition idf_probe (p : Idf K) : HttpResponse * Idf K :=
  (mkResponse 302 [("Location"%string, ("http://" +:+ ap_ip cfg +:+ "/")%string)] [], p).

(** The routes. *)
Inductive IdfRequest := GetRoot | PostSave (conn : reads) | GetStatus (uptime_s : Z) | PostFactoryReset (conn : reads) | GetProbe.

Definition idf_handle (r : IdfRequest) : Idf K → HttpResponse * Idf K :=
  match r with
  | GetRoot => idf_get_root
  | PostSave conn => idf_post_save conn
  | GetStatus uptime_s => idf_get_status uptime_s
  | PostFactoryReset conn => idf_post_factory_reset conn
  | GetProbe => idf_probe
  end.

Definition idf_init (k : K) : Idf K := mkIdf SessionState_new k false [IE_PortalStarted] [].

Fixpoint idf_run (rs : list IdfRequest) (p : Idf K) : list HttpResponse * Idf K :=
  match rs with
  | [] => ([], p)
  | r :: rs => let '(x, p) := idf_handle r p in let '(xs, p) := idf_run rs p in (x :: xs, p)
  end.

End handlers.
End render.
