(* ===== verification/IdfPortalProps.v ===== *)
(** * IdfPortalProps: one outcome for a session of the ESP-IDF portal, and a boot after it *)
From Stdlib Require Import Ascii.
From S2P Require Import Prelude Text ProvConfig ProvForm ProvFormProps ProvFlow ProvKv ProvKvProps ProvSession Http Portal ProvBoot IdfPortal.
Open Scope Z_scope.

#[export] Instance IdfEvent_eq_dec : EqDecision IdfEvent.
Proof. solve_decision. Defined.

(** The events that end a session. *)
Definition ends (e : IdfEvent) : bool := bool_decide (e = IE_Committed) || bool_decide (e = IE_FactoryResetRequested).
Definition verdicts {K} (p : Idf K) : list IdfEvent := filter (λ e, ends e = true) (idf_events p).
Definition saved {K} (p : Idf K) : list ProvisioningConfig := (filter (λ e : ProvisioningConfig * bool, e.2 = true) (idf_saves p)).*1.

(** A client is told that its request is granted. *)
Definition grants (r : IdfRequest) (x : HttpResponse) : bool :=
  match r with PostSave _ | PostFactoryReset _ => status x =? 200 | _ => false end.

Fixpoint granted (rs : list IdfRequest) (xs : list HttpResponse) : nat :=
  match rs, xs with
  | r :: rs, x :: xs => ((if grants r x then 1 else 0) + granted rs xs)%nat
  | _, _ => O
  end.

Lemma verdicts_tell {K} e (p : Idf K) : verdicts (tell e p) = verdicts p ++ (if ends e then [e] else []).
Proof. unfold verdicts. cbn. rewrite filter_app. f_equal. by destruct e. Qed.

Lemma saved_app {K} s k b ev l c ok :
  saved (K := K) (mkIdf s k b ev (l ++ [(c, ok)])) = saved (mkIdf s k b ev l) ++ (if (ok : bool) then [c] else []).
Proof. unfold saved. cbn. rewrite filter_app, fmap_app. f_equal. by destruct ok. Qed.

Section portal.
  Context (LORAWAN_PORTAL_HTML WIFI_MQTT_PORTAL_HTML : bytes) (error_display : ValidationError → string).
  Context {K : Type} {KV : ProvisioningKv K} (cfg : IdfConfig) (asked : list IdfRequest).

Abbreviation handle := (idf_handle LORAWAN_PORTAL_HTML WIFI_MQTT_PORTAL_HTML error_display cfg).
Abbreviation run := (idf_run LORAWAN_PORTAL_HTML WIFI_MQTT_PORTAL_HTML error_display cfg).

(** A configuration that an accepted form carries, of one of the requests. *)
Definition submitted_as (c : ProvisioningConfig) : Prop :=
  ∃ conn body, PostSave conn ∈ asked ∧ read_request_body conn = BR_Ok body ∧ idf_nonce_matches body (nonce cfg) = true ∧ parse_form body (idf_profile cfg) = Ok c.

(** Between two requests: what the session, the callback and the saves agree on. *)
Record idf_ok (p : Idf K) : Prop := {
  io_sound : poisoned (idf_session p) = false;
  io_genuine : Forall (λ e, submitted_as e.1) (idf_saves p);
  io_state :
    match session_state (idf_session p) with
    | AwaitingSubmission => committed (idf_session p) = None ∧ verdicts p = [] ∧ saved p = []
    | Persisting => False
    | Committed => ∃ c, committed (idf_session p) = Some c ∧ verdicts p = [IE_Committed] ∧ saved p = [c]
    | FactoryResetPending => committed (idf_session p) = None ∧ verdicts p = [IE_FactoryResetRequested] ∧ saved p = []
    end }.

(** [p'] differs from [p] in its store only. *)
Definition same_but_store (p p' : Idf K) : Prop :=
  idf_session p' = idf_session p ∧ idf_events p' = idf_events p ∧ idf_saves p' = idf_saves p ∧ store_poisoned p' = store_poisoned p.

Lemma same_ok p p' : same_but_store p p' → idf_ok p → idf_ok p'.
Proof. destruct p, p'. intros (H1 & H2 & H3 & _) [? ? H]. cbn in *. subst. by constructor. Qed.

Lemma on_store_same {E A} (m : M K E A) p : same_but_store p (on_store m p).2.
Proof. unfold on_store. destruct (store_poisoned p) eqn:E'; [done|]. by destruct (m (idf_store p)). Qed.

Lemma idf_load_prefill_same p : same_but_store p (idf_load_prefill cfg p).2.
Proof. unfold idf_load_prefill. pose proof (on_store_same load p). by destruct (on_store load p). Qed.

Lemma banner_page_same status message p :
  same_but_store p (banner_page LORAWAN_PORTAL_HTML WIFI_MQTT_PORTAL_HTML cfg status message p).2.
Proof. unfold banner_page. pose proof (idf_load_prefill_same p). by destruct (idf_load_prefill cfg p). Qed.

(** How many verdicts a handler adds, with the response it gives. *)
Definition step_ok (p p' : Idf K) (granted : bool) : Prop :=
  idf_ok p' ∧ length (verdicts p') = (length (verdicts p) + (if granted then 1 else 0))%nat.

Lemma same_step p p' : same_but_store p p' → idf_ok p → step_ok p p' false.
Proof. intros Hs Hp. split; [by eapply same_ok|]. unfold verdicts. destruct Hs as (_ & -> & _). lia. Qed.

Lemma idf_save_same c p :
  let '(ok, p') := idf_save_config c p in
  idf_session p' = idf_session p ∧ idf_events p' = idf_events p ∧ idf_saves p' = idf_saves p ++ [(c, ok)] ∧
  store_poisoned p' = store_poisoned p.
Proof.
  unfold idf_save_config. destruct (on_store_same (save c) p) as (H1 & H2 & H3 & H4).
  destruct (on_store (save c) p) as [r p']. cbn in *. by rewrite H1, H2, H3, H4.
Qed.

Lemma refused_ok p (s : SessionState) : idf_ok p → s = idf_session p → step_ok p (with_session s p) false.
Proof. intros Hp ->. by apply same_step. Qed.

Lemma idf_accepted_ok c p :
  submitted_as c → idf_ok p →
  let '(x, p') := idf_accepted LORAWAN_PORTAL_HTML WIFI_MQTT_PORTAL_HTML cfg c p in
  step_ok p p' (status x =? 200).
Proof.
  intros Hc Hp. unfold idf_accepted, on_session at 1, session_apply at 1, session_transition at 1.
  rewrite (io_sound p Hp). pose proof (io_state p Hp) as Hst.
  destruct (session_state (idf_session p)) eqn:Es; cbn [state_apply]; try done; try by apply refused_ok.
  destruct Hst as (Hcom & Hv & Hsv). cbn [id].
  set (p1 := with_session _ p). pose proof (idf_save_same c p1) as Hsave.
  destruct (idf_save_config c p1) as [ok p2]. destruct Hsave as (Hs2 & He2 & Hsv2 & _).
  assert (Forall (λ e, submitted_as e.1) (idf_saves p2)) as Hg.
  { rewrite Hsv2. apply Forall_app. split; [apply Hp | by constructor]. }
  assert (saved p2 = if ok then [c] else []) as Hsaved.
  { unfold saved in *. rewrite Hsv2. cbn. rewrite filter_app, fmap_app, Hsv. by destruct ok. }
  assert (verdicts p2 = []) as Hv2 by (unfold verdicts in *; by rewrite He2).
  destruct ok; unfold on_session, session_commit, session_apply, session_transition; rewrite Hs2; cbn.
  - split; [constructor; cbn; [done|exact Hg|]|].
    + exists c. unfold verdicts, saved in *. cbn. rewrite filter_app, Hv2. done.
    + unfold verdicts in *. cbn. rewrite filter_app, Hv2, Hv. done.
  - unfold banner_page. set (p3 := with_session _ p2).
    assert (idf_ok p3) as Hp3 by (by constructor).
    pose proof (same_step p3 _ (idf_load_prefill_same p3) Hp3) as [H1 H2].
    destruct (idf_load_prefill cfg p3) as [prefill p4]. cbn in *. split; [exact H1|]. rewrite H2. unfold verdicts, p3 in *. cbn. by rewrite Hv2, Hv.
Qed.

Lemma idf_submit_ok conn body p :
  PostSave conn ∈ asked → read_request_body conn = BR_Ok body → idf_nonce_matches body (nonce cfg) = true → idf_ok p →
  let '(x, p') := idf_submit LORAWAN_PORTAL_HTML WIFI_MQTT_PORTAL_HTML error_display cfg body p in
  step_ok p p' (status x =? 200).
Proof.
  intros Hin Hr Hn Hp. unfold idf_submit. destruct (parse_form body (idf_profile cfg)) as [c|errors] eqn:Hf.
  { apply idf_accepted_ok; [by exists conn, body|done]. }
  destruct (on_session (session_apply InvalidSubmission) p) as [r p0] eqn:Ea. set (p1' := tell IE_SubmissionRejected p0).
  assert (idf_ok p1' ∧ length (verdicts p1') = length (verdicts p)) as [H1 H2].
  { unfold on_session, session_apply, session_transition in Ea. rewrite (io_sound p Hp) in Ea.
    pose proof (io_state p Hp) as Hst. destruct Hp as [Hpo Hg _]. unfold p1'. rewrite verdicts_tell, app_nil_r.
    destruct (session_state (idf_session p)) eqn:Es; cbn in Ea; try done; injection Ea as <- <-;
      (split; [constructor; [done|done|cbn; unfold verdicts in *; cbn; rewrite ?filter_app, ?app_nil_r, ?Es; done] | done]). }
  pose proof (same_step p1' _ (idf_load_prefill_same p1') H1) as [H3 H4].
  destruct (idf_load_prefill cfg p1') as [prefill p2]. cbn in *. split; [done|]. lia.
Qed.

Lemma idf_handle_ok r p : r ∈ asked → idf_ok p → let '(x, p') := handle r p in step_ok p p' (grants r x).
Proof.
  intros Hin Hp. destruct r as [|conn|uptime|conn|]; cbn [idf_handle grants].
  - unfold idf_get_root. pose proof (same_step p _ (idf_load_prefill_same p) Hp). by destruct (idf_load_prefill cfg p).
  - unfold idf_post_save. destruct (read_request_body conn) as [body| |] eqn:Hr.
    + destruct (idf_nonce_matches body (nonce cfg)) eqn:Hn; cbn [negb]; [by eapply idf_submit_ok | by apply same_step].
    + unfold banner_page. pose proof (same_step p _ (idf_load_prefill_same p) Hp). by destruct (idf_load_prefill cfg p).
    + by apply same_step.
  - unfold idf_get_status. pose proof (same_step p _ (on_store_same is_provisioned p) Hp). by destruct (on_store is_provisioned p).
  - unfold idf_post_factory_reset. destruct (read_request_body conn) as [body| |]; try by apply same_step.
    destruct (idf_nonce_matches body (nonce cfg)); cbn [negb]; [|by apply same_step].
    unfold on_session, apply_and_notify, session_transition. rewrite (io_sound p Hp). pose proof (io_state p Hp) as Hst.
    destruct (session_state (idf_session p)) eqn:Es; cbn [state_apply]; try done; try by apply refused_ok.
    destruct Hst as (Hc & Hv & Hs), Hp as [_ Hg _]. split; [constructor; cbn; [done..|]|].
    + unfold verdicts in *. cbn. by rewrite filter_app, Hv.
    + unfold verdicts in *. cbn. by rewrite filter_app, Hv.
  - by apply same_step.
Qed.

Lemma idf_run_ok rs p : (∀ r, r ∈ rs → r ∈ asked) → idf_ok p → let '(xs, p') := run rs p in idf_ok p' ∧ length (verdicts p') = (length (verdicts p) + granted rs xs)%nat.
Proof.
  revert p. induction rs as [|r rs IH]; intros p Hin Hp; cbn [idf_run]; [split; [done|cbn; lia]|].
  pose proof (idf_handle_ok r p (Hin r (list_elem_of_here r rs)) Hp) as Hr. destruct (handle r p) as [x p1]. destruct Hr as [Hp1 Hv1].
  pose proof (IH p1 (λ r' H, Hin r' (list_elem_of_further _ _ _ H)) Hp1) as Hrs. destruct (run rs p1) as [xs p2]. destruct Hrs as [Hp2 Hv2]. split; [done|]. cbn [granted]. lia.
Qed.

Lemma idf_init_ok (k : K) : idf_ok (idf_init k).
Proof. by constructor. Qed.

End portal.

(** What a finished run tells: the session, the callback and the saves agree. *)
Definition outcome_agrees {K} (p : Idf K) (n : nat) : Prop :=
  match session_state (idf_session p) with
  | AwaitingSubmission => n = 0%nat ∧ verdicts p = [] ∧ saved p = []
  | Persisting => False
  | Committed => ∃ c, n = 1%nat ∧ committed (idf_session p) = Some c ∧ verdicts p = [IE_Committed] ∧ saved p = [c]
  | FactoryResetPending => n = 1%nat ∧ verdicts p = [IE_FactoryResetRequested] ∧ saved p = []
  end.

(** ** Readers *)

Section readers.
  Context {K : Type} {KV : ProvisioningKv K} {KVL : ProvisioningKvLaws K}.

(** [m] changes nothing, and breaks nothing. *)
Definition passive {E A} (m : M K E A) : Prop :=
  ∀ s, content (m s).2 = content s ∧ (healthy s → healthy (m s).2).

Lemma passive_ret {E A} (a : A) : passive (E := E) (mret a).
Proof. by intros s. Qed.

Lemma passive_throw {E A} (e : E) : passive (A := A) (throw e).
Proof. by intros s. Qed.

Lemma passive_bind {E A B} (m : M K E A) (f : A → M K E B) : passive m → (∀ a, passive (f a)) → passive (m ≫= f).
Proof.
  intros Hm Hf s. rewrite M_bind_eq. destruct (Hm s) as [Hc Hh]. destruct (m s) as [[a|e] s']; [|done].
  destruct (Hf a s') as [Hc' Hh']. cbn in *. rewrite Hc', Hc. auto.
Qed.

Lemma keeps_read_str key : passive (read_str key).
Proof.
  intros s. destruct (get_str_law key s) as (H1 & _ & H3). unfold read_str, named. destruct (kv_get_str key s). cbn in *.
  split; [done|]. intros H. by apply H3.
Qed.

Lemma keeps_get_u8 key : passive (named key (kv_get_u8 key)).
Proof.
  intros s. destruct (get_u8_law key s) as (H1 & _ & H3). unfold named. destruct (kv_get_u8 key s). cbn in *.
  split; [done|]. intros H. by apply H3.
Qed.

Ltac keeps_go :=
  repeat first
    [ apply passive_ret | apply passive_throw | apply keeps_read_str | apply keeps_get_u8
    | apply passive_bind; [|intros ?]
    | match goal with |- passive (if ?b then _ else _) => destruct b end
    | match goal with |- passive (match ?x with _ => _ end) => destruct x end ].

Lemma keeps_is_provisioned : passive is_provisioned.
Proof. unfold is_provisioned. keeps_go. Qed.

Lemma keeps_load_extras names : passive (load_extras names).
Proof. induction names as [|n l IH]; cbn [load_extras]; unfold ProvKv.capped; keeps_go; apply IH. Qed.

Lemma keeps_load : passive load.
Proof.
  unfold load, load_profile, load_lora, load_mqtt, read_capped, read_capped_opt, ProvKv.capped, extra_names.
  repeat first [apply keeps_is_provisioned | apply keeps_load_extras | progress keeps_go].
Qed.

End readers.

Section boot.
  Context (LORAWAN_PORTAL_HTML WIFI_MQTT_PORTAL_HTML : bytes) (error_display : ValidationError → string).
  Context {K : Type} {KV : ProvisioningKv K} (cfg : IdfConfig).

Abbreviation handle := (idf_handle LORAWAN_PORTAL_HTML WIFI_MQTT_PORTAL_HTML error_display cfg).
Abbreviation run := (idf_run LORAWAN_PORTAL_HTML WIFI_MQTT_PORTAL_HTML error_display cfg).

(** A portal session has one outcome, and nobody is told otherwise. Over any backend, failing or not, and for any requests in any order, at most one client is told that its save or its reset was granted; the session's state, the configuration it holds, the events of the callback and the saves that succeeded all agree on it: a commit is the one configuration that was saved, a reset comes with no save at all. Every save that is even tried carries what the form parser made of a request with the session's token. *)
Lemma idf_portal_one_outcome (k : K) (rs : list IdfRequest) :
  let '(xs, p) := run rs (idf_init k) in
  (granted rs xs ≤ 1)%nat ∧ outcome_agrees p (granted rs xs) ∧
  (∀ c ok, (c, ok) ∈ idf_saves p → submitted_as cfg rs c).
Proof.
  pose proof (idf_run_ok LORAWAN_PORTAL_HTML WIFI_MQTT_PORTAL_HTML error_display cfg rs rs (idf_init k) (λ r H, H)
                (idf_init_ok cfg rs k)) as H.
  destruct (run rs (idf_init k)) as [xs p]. destruct H as [[_ Hg Hs] Hn]. unfold outcome_agrees. change (length (verdicts (idf_init k))) with 0%nat in Hn.
  split_and!.
  - destruct (session_state _); [|done| |]; [destruct Hs as (_ & Hv & _)|destruct Hs as (c & _ & Hv & _)|destruct Hs as (_ & Hv & _)];
      rewrite Hv in Hn; cbn in Hn; lia.
  - destruct (session_state _); [|done| |]; [destruct Hs as (_ & Hv & ?)|destruct Hs as (c & ? & Hv & ?); exists c|destruct Hs as (_ & Hv & ?)];
      rewrite Hv in Hn; cbn in Hn; split_and!; first [done|lia].
  - rewrite Forall_forall in Hg. intros c ok Hin. by apply (Hg (c, ok)).
Qed.

Context {KVL : ProvisioningKvLaws K}.

(** A parsed form can be written, and loads as it is. *)
Lemma parsed_writable body p c :
  parse_form body p = Ok c → writable c ∧ config_profile c = p ∧ stored_kv c = c ∧
  (Forall (λ e, split_once "," (extra_key e) = None) (extras c) → storable c).
Proof using.
  intros Hp. destruct (parse_form_answers body p) as [(c' & E & Hd & _)|(_ & L & _ & _ & _ & _ & E)];
    rewrite Hp in E; [injection E as <-|done].
  pose proof (described_wf _ _ _ Hd) as Hw. pose proof (described_storable _ _ _ Hd) as Hx.
  pose proof (described_keys _ _ _ Hd) as Hk. pose proof (described_profile _ _ _ Hd) as [H1 _].
  destruct c as [ssid pass ota name lo mq ex]. destruct Hd as (_ & _ & _ & _ & _ & _ & Hd). unfold writable, stored_kv, storable, keys_ok in *. cbn in *.
  destruct p; [destruct Hd as (-> & m & -> & _)|destruct Hd as (-> & l & -> & _)]; split_and!; try done;
    intros Hc; split_and!; try done; destruct Hk as ([? _] & [? _] & [? _]); lia.
Qed.

(** The store after a commit, and before. *)
Definition remembers (reg : option ProvisioningConfig) (p : Idf K) : Prop :=
  store_poisoned p = false ∧
  match committed (idf_session p) with
  | Some c => healthy (idf_store p) ∧ writable c ∧ carries True c (content (idf_store p)) ∧
              content (idf_store p) !! KEY_SCHEMA_VER = Some (KvU8 SCHEMA_VERSION)
  | None => kv_implements (idf_store p) reg
  end.

Lemma keeps_register (s s' : K) reg :
  content s' = content s → (healthy s → healthy s') → kv_implements s reg → kv_implements s' reg.
Proof. intros Hc Hh [H1 H2]. split; [auto|]. by rewrite Hc. Qed.

Lemma keeps_remembers {E A} (m : M K E A) reg p : passive m → remembers reg p → remembers reg (on_store m p).2.
Proof.
  intros Hm [Hp H]. unfold on_store. rewrite Hp. destruct (Hm (idf_store p)) as [Hc Hh].
  destruct (m (idf_store p)) as [r s']. split; [exact Hp|]. cbn in *. destruct (committed _).
  - rewrite Hc. destruct H as (? & ? & ? & ?). split_and!; auto.
  - by eapply keeps_register.
Qed.

Lemma prefill_remembers reg p : remembers reg p → remembers reg (idf_load_prefill cfg p).2.
Proof.
  intros H. unfold idf_load_prefill. pose proof (keeps_remembers load reg p keeps_load H).
  by destruct (on_store load p).
Qed.

(** On a device without faults every save of a form succeeds. *)
Lemma idf_save_writes c p :
  writable c → store_poisoned p = false → healthy (idf_store p) →
  ∃ p', idf_save_config c p = (true, p') ∧ idf_session p' = idf_session p ∧ store_poisoned p' = false ∧
        healthy (idf_store p') ∧ carries True c (content (idf_store p')) ∧
        content (idf_store p') !! KEY_SCHEMA_VER = Some (KvU8 SCHEMA_VERSION).
Proof using KVL.
  intros Hw Hp Hh. unfold idf_save_config, on_store. rewrite Hp.
  destruct (save_ok c (idf_store p) Hw Hh) as (s' & -> & Hs). by eexists.
Qed.

Lemma accepted_remembers rs c reg p :
  writable c → idf_ok cfg rs p → remembers reg p →
  remembers reg (idf_accepted LORAWAN_PORTAL_HTML WIFI_MQTT_PORTAL_HTML cfg c p).2.
Proof using KVL.
  intros Hw Hp [Hpo Hr]. unfold idf_accepted, on_session at 1, session_apply at 1, session_transition at 1.
  rewrite (io_sound _ _ p Hp). pose proof (io_state _ _ p Hp) as Hst.
  destruct (session_state (idf_session p)) eqn:Es; cbn [state_apply]; try done.
  destruct Hst as (Hcom & _ & _). rewrite Hcom in Hr. cbn [id].
  set (p1 := with_session _ p).
  destruct (idf_save_writes c p1 Hw Hpo (proj1 Hr)) as (p' & Hsv & Hs & Hpo' & Hrest).
  rewrite Hsv. unfold on_session, session_commit, session_transition. rewrite Hs. cbn.
  split; [done|]. cbn. split_and!; [apply Hrest|done|apply Hrest|apply Hrest].
Qed.

Lemma session_keeps {A} (f : SessionState → A * SessionState) reg p :
  committed (f (idf_session p)).2 = committed (idf_session p) → remembers reg p → remembers reg (on_session f p).2.
Proof.
  intros Hf Hr. unfold on_session, remembers in *. destruct (f (idf_session p)) as [a s]. cbn in *. by rewrite Hf.
Qed.

Lemma transition_keeps input notify s : committed (session_transition input notify id s).2 = committed s.
Proof. unfold session_transition. destruct (poisoned s); [done|]. by destruct (state_apply _ _). Qed.

Lemma handle_remembers rs r reg p :
  idf_ok cfg rs p → remembers reg p → remembers reg (handle r p).2.
Proof using KVL.
  intros Hp Hr. destruct r as [|conn|uptime|conn|]; cbn [idf_handle].
  - unfold idf_get_root. pose proof (prefill_remembers reg p Hr). by destruct (idf_load_prefill cfg p).
  - unfold idf_post_save. destruct (read_request_body conn) as [body| |]; [| |done].
    + destruct (idf_nonce_matches body (nonce cfg)); cbn [negb]; [|done]. unfold idf_submit.
      destruct (parse_form body (idf_profile cfg)) as [c|errors] eqn:Hf.
      * by eapply accepted_remembers; [apply (parsed_writable _ _ _ Hf)| |].
      * pose proof (session_keeps (session_apply InvalidSubmission) reg p (transition_keeps _ _ _) Hr) as H1.
        destruct (on_session (session_apply InvalidSubmission) p) as [r p1].
        pose proof (prefill_remembers reg (tell IE_SubmissionRejected p1) H1) as H2.
        by destruct (idf_load_prefill cfg (tell IE_SubmissionRejected p1)).
    + unfold banner_page. pose proof (prefill_remembers reg p Hr). by destruct (idf_load_prefill cfg p).
  - unfold idf_get_status. pose proof (keeps_remembers is_provisioned reg p keeps_is_provisioned Hr).
    by destruct (on_store is_provisioned p).
  - unfold idf_post_factory_reset. destruct (read_request_body conn) as [body| |]; try done.
    destruct (idf_nonce_matches body (nonce cfg)); cbn [negb]; [|done].
    pose proof (session_keeps (apply_and_notify FactoryReset) reg p (transition_keeps _ _ _) Hr) as H1.
    by destruct (on_session (apply_and_notify FactoryReset) p) as [[]].
  - done.
Qed.

Lemma run_remembers asked rs reg p :
  (∀ r, r ∈ rs → r ∈ asked) → idf_ok cfg asked p → remembers reg p → remembers reg (run rs p).2.
Proof using KVL.
  revert p. induction rs as [|r rs IH]; intros p Hin Hp Hr; [done|]. cbn [idf_run].
  pose proof (handle_remembers asked r reg p Hp Hr) as H1.
  pose proof (idf_handle_ok LORAWAN_PORTAL_HTML WIFI_MQTT_PORTAL_HTML error_display cfg asked r p (Hin r (list_elem_of_here r rs)) Hp) as H2.
  destruct (handle r p) as [x p1]. destruct H2 as [H2 _].
  pose proof (IH p1 (λ r' H, Hin r' (list_elem_of_further _ _ _ H)) H2 H1). by destruct (run rs p1).
Qed.

(** C31: What the portal committed is what the device boots with. On a backend without faults, after any requests, the boot loader answers for exactly what the session decided: if a configuration was committed it has the portal's profile and, when its extras are named without commas, the boot finds it, for a Wi-Fi and MQTT device ready to run with a client id that passes validation; if nothing was committed, the boot finds what the store held before the session. *)
Theorem idf_portal_boots (s : K) reg (rs : list IdfRequest) :
  kv_implements s reg →
  let p := (run rs (idf_init s)).2 in
  match committed (idf_session p) with
  | Some c =>
      config_profile c = idf_profile cfg ∧
      (Forall (λ e, split_once "," (extra_key e) = None) (extras c) →
       ∃ o s', classify default_client_id (idf_store p) = (Ok o, s') ∧ booted (Some c) o)
  | None => ∃ o s', classify default_client_id (idf_store p) = (Ok o, s') ∧ booted reg o
  end.
Proof using KVL.
  intros Hi p.
  assert (remembers reg (idf_init s)) as H0 by (by split).
  pose proof (run_remembers rs rs reg _ (λ r H, H) (idf_init_ok cfg rs s) H0) as [_ Hm].
  pose proof (idf_run_ok LORAWAN_PORTAL_HTML WIFI_MQTT_PORTAL_HTML error_display cfg rs rs (idf_init s) (λ r H, H) (idf_init_ok cfg rs s)) as Hok.
  fold p in Hm. assert (idf_ok cfg rs p) as Hp by (unfold p; destruct (run rs (idf_init s)) as [xs p0]; apply Hok). clear Hok.
  destruct (committed (idf_session p)) as [c|] eqn:Hc.
  - destruct Hm as (Hh & _ & Hcar & Hv). destruct Hp as [_ Hg Hst]. rewrite Hc in Hst.
    assert (submitted_as cfg rs c) as (conn & body & _ & _ & _ & Hf).
    { destruct (session_state (idf_session p)); try done; try (by destruct Hst as [? _]).
      destruct Hst as (c' & [= <-] & _ & Hsv). rewrite Forall_forall in Hg.
      assert (c ∈ saved p) as Hin by (rewrite Hsv; apply list_elem_of_here).
      apply list_elem_of_fmap in Hin as ([c' ok] & -> & Hin). apply list_elem_of_filter in Hin as [_ Hin]. exact (Hg _ Hin). }
    destruct (parsed_writable _ _ _ Hf) as (_ & Hprof & Hst' & Hstor). split; [done|]. intros Hcommas.
    destruct (classify_booted (idf_store p) (Some c)) as (o & s' & E & Hb & _); [|by exists o, s'].
    split; [done|]. exists c. split_and!; [done|by apply Hstor|done|done].
  - destruct (classify_booted (idf_store p) reg Hm) as (o & s' & E & Hb & _). by exists o, s'.
Qed.

End boot.

(** ** Examples *)

Definition sample_idf : IdfConfig :=
  mkIdfConfig "192.168.4.1" "0badcafe" "lamp-01" "1.0.0" [] WifiMqttDevice (mkIdfDefaults "" "" "" "" "" "" "" "").

Definition submission_of (body : string) : IdfRequest := PostSave [Some (as_bytes (String.substring 0 40 body)); Some (as_bytes (String.substring 40 2000 body))].

(** A wrong token, the form, the form again, and a reset. *)
Definition sample_requests : list IdfRequest :=
  [GetRoot; submission_of ("_nonce=00000000&" +:+ good_body); submission_of ("_nonce=0badcafe&" +:+ good_body);
   submission_of ("_nonce=0badcafe&" +:+ good_body); PostFactoryReset [Some (as_bytes "_nonce=0badcafe")]; GetProbe].

Abbreviation sample_run := (idf_run [] [] (λ _, ""%string) sample_idf sample_requests (idf_init (empty_kv []))).

Example sample_statuses : status <$> sample_run.1 = [200; 403; 200; 409; 409; 302].
Proof. vm_compute. reflexivity. Qed.

Lemma idf_portal_boots_witness :
  (∃ c, committed (idf_session sample_run.2) = Some c ∧ mqtt c = Some (mkMqtt "broker.lan" 1883 None None None) ∧ Forall (λ e, split_once "," (extra_key e) = None) (extras c)) ∧
  match committed (idf_session sample_run.2) with
  | Some c =>
      config_profile c = WifiMqttDevice ∧
      (Forall (λ e, split_once "," (extra_key e) = None) (extras c) →
       ∃ o s', classify default_client_id (idf_store sample_run.2) = (Ok o, s') ∧ booted (Some c) o)
  | None => ∃ o s', classify default_client_id (idf_store sample_run.2) = (Ok o, s') ∧ booted None o
  end.
Proof.
  split; [eexists; split_and!; [vm_compute; reflexivity | reflexivity | repeat constructor]|].
  apply (idf_portal_boots [] [] (λ _, ""%string) sample_idf (empty_kv []) None sample_requests).
  split; [by apply Forall_nil|reflexivity].
Defined.

(** The placeholders are replaced one after the other, so a stored text that looks like a later one is expanded again. *)
Example stored_placeholder_expanded :
  render_form [] (as_bytes "<input value='{{WIFI_SSID}}'>") (λ _, ""%string) WifiMqttDevice "n"
    (mkIdfPrefill "{{DEV_NAME}}" "" "" "" "" "" "" "lamp-01") [] = as_bytes "<input value='lamp-01'>".
Proof. vm_compute. reflexivity. Qed.
