(* ===== verification/OtaHttp.v ===== *)
(** * OtaHttp: the strict HTTP client of the bare-metal update tier ([ota/http.rs] of
    [rustyfarian-esp-hal-network])

    The socket is third-party code: a state with a write that takes some of the bytes and a
    read that offers bytes, of which the caller's slice takes what fits.  The slice helpers are
    those of [Http], where the portal has the same ones. *)
From Stdlib Require Import Ascii.
From S2P Require Import Prelude Text Version Url ProvConfig ProvForm Http.
Open Scope Z_scope.

Inductive HttpError :=
| HE_BadStatusLine | HE_NonSuccess (status : Z) | HE_MissingContentLength | HE_DuplicateContentLength
| HE_InvalidContentLength | HE_TransferEncodingPresent | HE_BodyTooLarge | HE_EmptyBody | HE_Io | HE_EarlyEof | HE_BadUrl.

Definition OtaError_from (e : HttpError) : OtaError :=
  match e with
  | HE_NonSuccess status => DownloadFailed status
  | HE_TransferEncodingPresent | HE_EmptyBody => DownloadFailed 0
  | HE_BadStatusLine | HE_MissingContentLength | HE_DuplicateContentLength | HE_InvalidContentLength
  | HE_EarlyEof | HE_Io | HE_BadUrl => ServerUnreachable
  | HE_BodyTooLarge => InsufficientSpace
  end.

(** ** URLs *)

Record ParsedUrl := mkUrl { url_host : string; url_port : Z; url_path : string; url_query : string }.

(** The host with its brackets, and the text behind the colon. *)
Definition url_host_port (host_port : string) : option (string * option string) :=
  match strip_char "["%char host_port with
  | Some bracketed =>
      match split_once "]"%char bracketed with
      | None => None
      | Some (inner, after) =>
          let host := ("[" +:+ inner +:+ "]")%string in
          match strip_char ":"%char after with
          | Some p => Some (host, Some p)
          | None => if decide (after = ""%string) then Some (host, None) else None
          end
      end
  | None =>
      match split_once ":"%char host_port with
      | Some (h, p) => Some (h, Some p)
      | None => Some (host_port, None)
      end
  end.

Definition url_port_of (port : option string) : result HttpError Z :=
  match port with
  | Some p =>
      if negb (str_forall is_digit p) then Err HE_BadUrl
      else match parse_u16 p with Some n => Ok n | None => Err HE_BadUrl end
  | None => Ok 80
  end.

Definition parse_url (url : string) : result HttpError ParsedUrl :=
  match get_prefix (String.length SCHEME) url with
  | None => Err HE_BadUrl
  | Some (prefix, rest) =>
      if negb (eq_ignore_ascii_case prefix SCHEME) then Err HE_BadUrl
      else if str_any (λ b, is_ascii_whitespace b || is_ascii_control b) rest then Err HE_BadUrl
      else
        let '(authority, tail) := split_first ends_authority rest in
        let tail := (split_first (Ascii.eqb "#"%char) tail).1 in
        let '(path, query) := split_first (Ascii.eqb "?"%char) tail in
        let path := if decide (path = ""%string) then "/"%string else path in
        match url_host_port (after_last "@"%char authority) with
        | None => Err HE_BadUrl
        | Some (host, port) =>
            port ← url_port_of port;
            if decide (host = ""%string) then Err HE_BadUrl
            else if decide (host = "[]"%string) then Err HE_BadUrl
            else Ok (mkUrl host port path query)
        end
  end.

(** ** The response header *)

Definition HTTP11 : bytes := as_bytes "HTTP/1.1 ".

Definition parse_status_line (line : bytes) : result HttpError Z :=
  if negb (starts_with HTTP11 line) then Err HE_BadStatusLine
  else
    match drop (length HTTP11) line with
    | a :: b :: c :: after_code =>
        if negb (is_ascii_digit a && is_ascii_digit b && is_ascii_digit c) then Err HE_BadStatusLine
        else
          match after_code with
          | x :: _ => if (x =? 32) || (x =? 13) || (x =? 10) then Ok ((a - 48) * 100 + (b - 48) * 10 + (c - 48)) else Err HE_BadStatusLine
          | [] => Ok ((a - 48) * 100 + (b - 48) * 10 + (c - 48))
          end
    | _ => Err HE_BadStatusLine
    end.

Definition parse_header (line : bytes) : result HttpError (bytes * bytes) :=
  match position (Z.eqb 58) line with
  | None | Some O => Err HE_BadStatusLine
  | Some (S i as colon) =>
      match line !! i with
      | Some (32 | 9) => Err HE_BadStatusLine
      | _ => Ok (take colon line, trim_ows (drop (S colon) line))
      end
  end.

Record HeaderState := mkHeaderState { hs_content_length : option Z; has_transfer_encoding : bool }.

Definition HeaderState_new : HeaderState := mkHeaderState None false.

Definition header_feed (line : bytes) (s : HeaderState) : result HttpError HeaderState :=
  match trim_ows line with
  | [] => Ok s
  | _ =>
      nv ← parse_header line;
      let '(name, value) := nv in
      if eq_ignore_case name (as_bytes "content-length") then
        match hs_content_length s with
        | Some _ => Err HE_DuplicateContentLength
        | None =>
            if bool_decide (value = []) || negb (forallb is_ascii_digit value) then Err HE_InvalidContentLength
            else match parse_digits_u64 value with
                 | Some n => Ok (mkHeaderState (Some n) (has_transfer_encoding s))
                 | None => Err HE_InvalidContentLength
                 end
        end
      else if eq_ignore_case name (as_bytes "transfer-encoding") then Ok (mkHeaderState (hs_content_length s) true)
      else Ok s
  end.

Definition header_finish (max_bytes : Z) (s : HeaderState) : result HttpError Z :=
  if has_transfer_encoding s then Err HE_TransferEncodingPresent
  else match hs_content_length s with
       | None => Err HE_MissingContentLength
       | Some n => if n =? 0 then Err HE_EmptyBody else if max_bytes <? n then Err HE_BodyTooLarge else Ok n
       end.

(** [HeaderLineIter]: each line takes its bytes away. *)
Fixpoint header_lines (fuel : nat) (data : bytes) : list bytes :=
  match fuel, data with
  | S fuel, _ :: _ =>
      match find_sub CRLF data with
      | Some O => []
      | Some pos => take pos data :: header_lines fuel (drop (pos + 2) data)
      | None => [data]
      end
  | _, _ => []
  end.

Fixpoint feed_headers (lines : list bytes) (s : HeaderState) : result HttpError HeaderState :=
  match lines with
  | [] => Ok s
  | line :: lines => s ← header_feed line s; feed_headers lines s
  end.

Definition split_status_line (data : bytes) : result OtaError (Z * bytes) :=
  match find_sub CRLF data with
  | None => Err ServerUnreachable
  | Some crlf => status ← map_err OtaError_from (parse_status_line (take crlf data)); Ok (status, drop (crlf + 2) data)
  end.

(** What [fetch_get] makes of the header it read. *)
Definition parse_head (max_bytes : Z) (header : bytes) : result OtaError Z :=
  sr ← split_status_line header;
  let '(status, block) := sr in
  if negb (status =? 200) then Err (DownloadFailed status)
  else
    s ← map_err OtaError_from (feed_headers (header_lines (length block) block) HeaderState_new);
    map_err OtaError_from (header_finish max_bytes s).

(** ** The request *)

Definition REQ_BUF : nat := 256.
Definition HEADER_BUF : nat := Z.to_nat 1024.

Definition format_get_request (cap : nat) (u : ParsedUrl) : result unit bytes :=
  out ← write_bytes cap (as_bytes "GET ") [];
  out ← write_bytes cap (as_bytes (url_path u)) out;
  out ← write_bytes cap (as_bytes (url_query u)) out;
  out ← write_bytes cap (as_bytes " HTTP/1.1" ++ CRLF ++ as_bytes "Host: ") out;
  out ← write_bytes cap (as_bytes (url_host u)) out;
  out ← (if url_port u =? 80 then Ok out
         else out ← write_bytes cap (as_bytes ":") out; write_bytes cap (as_bytes (show_uint (url_port u))) out);
  write_bytes cap (CRLF ++ as_bytes "Connection: close" ++ CRLF ++ CRLF) out.

(** ** The socket *)

Class TcpSocket (S : Type) := {
  sock_write : bytes → M S unit nat;
  sock_recv : nat → M S unit bytes }.
#[global] Hint Mode TcpSocket ! : typeclass_instances.

Section client.
  Context {K : Type} `{TcpSocket K}.

(** [socket.read(&mut buf[..n])]. *)
Definition sock_read_into (n : nat) : M K unit bytes := l ← sock_recv n; mret (take n l).

(** Each turn sends a byte or more, or ends; a count beyond the rest is the end as well. *)
Fixpoint write_request (fuel : nat) (req : bytes) : M K OtaError unit :=
  match fuel, req with
  | _, [] => mret tt
  | O, _ => throw ServerUnreachable
  | S fuel, _ =>
      n ← (λ s, let '(r, s) := sock_write req s in (map_err (λ _, ServerUnreachable) r, s));
      if (n =? 0)%nat then throw ServerUnreachable else write_request fuel (drop n req)
  end.

(** One byte a turn, until the blank line or the end of the buffer. *)
Fixpoint read_headers (fuel : nat) (filled : bytes) : M K HttpError bytes :=
  match fuel with
  | O => throw HE_Io
  | S fuel =>
      l ← (λ s, let '(r, s) := sock_read_into 1 s in (map_err (λ _, HE_Io) r, s));
      match l with
      | [] => throw HE_EarlyEof
      | _ =>
          let filled := filled ++ l in
          if (4 <=? length filled)%nat && bool_decide (drop (length filled - 4) filled = HEADER_END)
          then mret filled else read_headers fuel filled
      end
  end.

Definition fetch_get (u : ParsedUrl) (max_bytes : Z) : M K OtaError Z :=
  req ← of_result (map_err (λ _, ServerUnreachable) (format_get_request REQ_BUF u));
  _ ← write_request (length req) req;
  header ← (λ s, let '(r, s) := read_headers HEADER_BUF [] s in (map_err OtaError_from r, s));
  of_result (parse_head max_bytes header).

End client.

(** A socket that holds the segments to come.  A read takes at most one segment; an empty list is the end of the stream. *)
#[export] Instance seg_socket : TcpSocket (list bytes) := {
  sock_write req s := (Ok (length req), s);
  sock_recv n s :=
    match s with
    | [] => (Ok [], [])
    | seg :: s => (Ok (take n seg), if (length seg <=? n)%nat then s else drop n seg :: s)
    end }.

(** ** Properties *)

(** The URL check of the wire accepts what the downloader can parse. *)
Lemma url_host_port_agrees hp :
  host_port hp = match url_host_port hp with
                 | Some (h, p) => Some (match strip_char "["%char hp with Some b => match split_once "]"%char b with Some (inner, _) => inner | None => h end | None => h end, p)
                 | None => None
                 end.
Proof.
  unfold host_port, url_host_port. destruct (strip_char "["%char hp) as [b|].
  - destruct (split_once "]"%char b) as [[inner after]|]; [|done]. destruct (strip_char ":"%char after); [done|].
    case_bool_decide; by case_decide.
  - by destruct (split_once ":"%char hp) as [[h p]|].
Qed.

Lemma url_port_agrees p :
  (∃ n, url_port_of p = Ok n) ↔ match p with Some p => port_ok p | None => true end = true.
Proof.
  unfold url_port_of, port_ok. destruct p as [p|]; [|split; [done|by eexists]].
  rewrite !andb_true_iff, negb_true_iff, bool_decide_eq_false, bool_decide_eq_true.
  destruct (str_forall is_digit p); cbn [negb]; [|split; [by intros [n ?]|naive_solver]].
  destruct (parse_u16 p) as [n|] eqn:E; split; try naive_solver.
Qed.

Lemma parse_url_accepts url : (∃ u, parse_url url = Ok u) ↔ is_plain_http_url url = true.
Proof.
  unfold parse_url, is_plain_http_url. destruct (get_prefix _ url) as [[prefix rest]|]; [|naive_solver].
  destruct (eq_ignore_ascii_case prefix SCHEME); cbn [negb]; [|naive_solver].
  destruct (str_any _ rest); [naive_solver|].
  destruct (split_first ends_authority rest) as [authority tail]. cbn [fst].
  destruct (split_first _ (split_first _ tail).1) as [path query].
  set (hp := after_last "@"%char authority). clearbody hp. rewrite url_host_port_agrees.
  destruct (url_host_port hp) as [[h p]|] eqn:Ehp; [|naive_solver].
  pose proof (url_port_agrees p) as Hp.
  set (h' := match strip_char "["%char hp with Some _ => _ | None => _ end).
  assert (h' = ""%string ↔ h = ""%string ∨ h = "[]"%string) as Hh.
  { unfold h', url_host_port in *. destruct (strip_char "["%char hp) as [b|] eqn:Eb.
    - destruct (split_once "]"%char b) as [[inner after]|]; [|done].
      assert (h = ("[" +:+ inner +:+ "]")%string) as ->
        by (destruct (strip_char ":"%char after); [by simplify_eq|]; case_decide; by simplify_eq).
      split; [intros ->; by right|]. intros [?|E]; [done|]. destruct inner as [|a [|]]; [done|discriminate E..].
    - assert (h ≠ "[]"%string); [|naive_solver]. intros E. subst h. destruct (split_once ":"%char hp) as [[h p0]|] eqn:Es; simplify_eq.
      apply split_once_spec in Es as [Es _]. by rewrite Es in Eb. }
  destruct (decide (h' = ""%string)) as [E|E].
  - rewrite bool_decide_true by done. split; [|done]. intros [u Hu]. destruct (url_port_of p) as [n|]; [|done]. cbn in Hu.
    destruct (proj1 Hh E) as [-> | ->]; [by rewrite decide_True in Hu|by rewrite decide_False, decide_True in Hu].
  - rewrite bool_decide_false by done. assert (h ≠ ""%string ∧ h ≠ "[]"%string) as [H1 H2] by naive_solver.
    rewrite <- Hp. split.
    + intros [u Hu]. destruct (url_port_of p) as [n|]; [by exists n|done].
    + intros [n ->]. cbn. rewrite !decide_False by done. by eexists.
Qed.

Lemma parse_uint_nonneg maxv s n : 0 ≤ maxv → parse_uint maxv s = Some n → 0 ≤ n.
Proof.
  intros Hm. destruct s as [|a s]; [done|]. cbn [parse_uint]. destruct (Ascii.eqb a "+"); [destruct s; [done|]|];
    intros H; eapply parse_digits_range in H; lia.
Qed.

(** A header line with a name. *)
Definition named (k : string) (line : bytes) : Prop :=
  trim_ows line ≠ [] ∧ ∃ n v, parse_header line = Ok (n, v) ∧ eq_ignore_case n (as_bytes k) = true.

Definition states_length (line : bytes) (n : Z) : Prop :=
  ∃ nm v, parse_header line = Ok (nm, v) ∧ eq_ignore_case nm (as_bytes "content-length") = true ∧
          v ≠ [] ∧ forallb is_ascii_digit v = true ∧ parse_digits_u64 v = Some n.

Lemma cl_not_te n : eq_ignore_case n (as_bytes "content-length") = true → eq_ignore_case n (as_bytes "transfer-encoding") = false.
Proof.
  unfold eq_ignore_case. rewrite bool_decide_eq_true, bool_decide_eq_false. intros -> H. discriminate H.
Qed.

Lemma header_feed_spec line s s' :
  header_feed line s = Ok s' →
  has_transfer_encoding s' = false →
  has_transfer_encoding s = false ∧ ¬ named "transfer-encoding" line ∧
  (¬ named "content-length" line ∧ hs_content_length s' = hs_content_length s ∨
   ∃ n, hs_content_length s = None ∧ hs_content_length s' = Some n ∧ states_length line n).
Proof.
  unfold header_feed, named. destruct (trim_ows line) as [|t tl] eqn:Et.
  { intros [= <-] H. split_and!; [done|by intros [? _]|]. left. split; [by intros [? _]|done]. }
  destruct (parse_header line) as [[name value]|] eqn:Eh; [|done]. cbn [mbind result_bind].
  destruct (eq_ignore_case name (as_bytes "content-length")) eqn:Ec.
  - destruct (hs_content_length s) eqn:Es; [done|].
    destruct (_ || _) eqn:Ev; [done|]. apply orb_false_iff in Ev as [Ev1%bool_decide_eq_false Ev2%negb_false_iff].
    destruct (parse_digits_u64 value) as [n|] eqn:En; [|done]. intros [= <-] H. cbn [has_transfer_encoding hs_content_length] in *. split; [done|].
    split; [intros (_ & n' & v & [= <- <-] & H'); by rewrite (cl_not_te _ Ec) in H'|].
    right. exists n. split_and!; [done..|]. by exists name, value.
  - destruct (eq_ignore_case name (as_bytes "transfer-encoding")) eqn:Ee; intros [= <-] H; [discriminate H|].
    split_and!; [done|intros (_ & ? & ? & Hv & ?); congruence|left].
    split; [intros (_ & ? & ? & Hv & ?); congruence|done].
Qed.

Definition plain_line (line : bytes) : Prop := ¬ named "content-length" line ∧ ¬ named "transfer-encoding" line.

Lemma states_length_plain line n : states_length line n → ¬ named "transfer-encoding" line.
Proof. intros (nm & v & E & Hc & _) (_ & n' & v' & E' & Ht). rewrite E in E'. simplify_eq. by rewrite (cl_not_te _ Hc) in Ht. Qed.

Lemma feed_headers_spec lines s s' :
  feed_headers lines s = Ok s' → has_transfer_encoding s' = false →
  (Forall plain_line lines ∧ hs_content_length s' = hs_content_length s) ∨
  ∃ l1 line l2 n, lines = l1 ++ line :: l2 ∧ hs_content_length s = None ∧ hs_content_length s' = Some n ∧
                  states_length line n ∧ Forall plain_line (l1 ++ l2).
Proof.
  revert s. induction lines as [|line lines IH]; intros s; cbn [feed_headers].
  { intros [= <-] H. left. done. }
  destruct (header_feed line s) as [s1|] eqn:E1; [|done]. intros H Ht. cbn in H.
  assert (has_transfer_encoding s1 = false) as Ht1.
  { destruct (has_transfer_encoding s1) eqn:E; [|done]. exfalso. clear -H Ht E.
    revert s1 H E. induction lines as [|l lines IH]; intros s1 H E; cbn in H; [injection H as <-; congruence|].
    destruct (header_feed l s1) as [s2|] eqn:E2; [|done]. apply (IH s2); [done|].
    destruct (has_transfer_encoding s2) eqn:E3; [done|]. apply header_feed_spec in E2; [|done]. destruct E2 as [? _]. congruence. }
  destruct (header_feed_spec line s s1 E1 Ht1) as (Hs & Hte & Hl).
  destruct (IH s1 H Ht) as [[Hp Hc]|(l1 & line' & l2 & n & -> & Hc1 & Hc2 & Hn & Hp)].
  - destruct Hl as [[Hn Hc1]|(n & Hc0 & Hc1 & Hn)].
    + left. split; [by constructor|congruence].
    + right. exists [], line, lines, n. split_and!; try done. congruence.
  - destruct Hl as [[Hn1 Hc0]|(n' & _ & Hc1' & _)]; [|congruence].
    right. exists (line :: l1), line', l2, n. split_and!; try done; [congruence|]. by constructor.
Qed.

(** A response is accepted only with the status 200 and, among its header lines, exactly one
    length, a decimal number from 1 to the limit, and no transfer encoding. *)
Lemma parse_head_strict max_bytes header n :
  parse_head max_bytes header = Ok n →
  0 < n ≤ max_bytes ∧
  ∃ block, split_status_line header = Ok (200, block) ∧
  ∃ l1 line l2, header_lines (length block) block = l1 ++ line :: l2 ∧ states_length line n ∧ Forall plain_line (l1 ++ l2).
Proof.
  unfold parse_head. destruct (split_status_line header) as [[status block]|] eqn:E0; [|done]. cbn.
  destruct (Z.eqb_spec status 200) as [->|]; [|done]. cbn.
  destruct (feed_headers _ _) as [s|] eqn:Ef; [|done]. cbn. unfold header_finish.
  destruct (has_transfer_encoding s) eqn:Ht; [done|].
  destruct (hs_content_length s) as [m|] eqn:Ec; [|done].
  destruct (Z.eqb_spec m 0); [done|]. destruct (Z.ltb_spec max_bytes m); [done|]. cbn. intros [= <-].
  destruct (feed_headers_spec _ _ _ Ef Ht) as [[_ Hc]|(l1 & line & l2 & k & El & _ & Hk & Hs & Hp)]; [cbn in Hc; congruence|].
  assert (k = m) as -> by congruence. split.
  - destruct Hs as (? & v & _ & _ & _ & _ & Hv). apply parse_uint_nonneg in Hv; [lia|done].
  - exists block. split; [done|]. by exists l1, line, l2.
Qed.

(** What [fetch_get] returns it read from a header. *)
Lemma fetch_get_head {K} `{TcpSocket K} u max_bytes (s : K) :
  match (fetch_get u max_bytes s).1 with Ok n => ∃ header, parse_head max_bytes header = Ok n | Err _ => True end.
Proof.
  unfold fetch_get. rewrite M_bind_eq. destruct (of_result _ s) as [[req|] s1]; [|done].
  rewrite M_bind_eq. destruct (write_request _ _ s1) as [[[]|] s2]; [|done].
  rewrite M_bind_eq. destruct (read_headers _ _ s2) as [[header|] s3]; [|done].
  cbn [map_err]. unfold of_result. cbn [fst]. destruct (parse_head max_bytes header) eqn:E; [by exists header|done].
Qed.
