(* ===== verification/HalOta.v ===== *)
(** * HalOta: the bare-metal update manager ([ota/manager.rs] of [rustyfarian-esp-hal-network])

    The socket is a [TcpSocket]; [OtaUpdater], the flash driver and the clock are third-party
    code: what they answer is an environment, and the world records what reached the flash.
    The second half shows that an update succeeds when nothing fails. *)
From S2P Require Import Prelude Text Version Config WriteAlign Url Hex Fetch ProvConfig ProvForm Http OtaHttp.
Open Scope Z_scope.
Open Scope rn_scope.

Definition CHUNK_LEN : nat := 512.

(** [embassy_time] counts microseconds. *)
Definition to_core (micros : Z) : duration := micros * 1000.
Definition to_embassy (d : duration) : Z := Z.min (Z.min (d / 1000) u64_max) (u64_max / 2).

(** What the [n]-th reading of the clock says, whether the [n]-th wait ends before its future
    does, given its limit, and what the updater and the flash answer. *)
Record HalEnv := mkHalEnv {
  elapsed_us : nat → Z; expires : nat → Z → bool; updater_ok : bool; next_partition : option Z;
  nor_capable : bool; refuse_erase : bool; refuse_write : wlog → bool; refuse_activate : bool;
  WRITE_SIZE : nat; SECTOR_SIZE : Z }.

(** How far a session is: the body reads and the flash operations so far. *)
Definition Point : Type := nat * nat.

(** The socket, the point of each reading of the clock, how often a wait was made, and, each oldest
    first, what the body reads delivered, the writes, the erasures and the activations tried, the
    last two with the number of writes before them. *)
Record HalWorld (K : Type) := mkHalWorld {
  hal_sock : K; readings : list Point; waits : nat; hal_reads : list (list Z); hal_writes : wlog;
  hal_erases : list (nat * Z * Z); hal_activations : list nat }.
Arguments mkHalWorld {K}.
Arguments hal_sock {K}.
Arguments readings {K}.
Arguments waits {K}.
Arguments hal_reads {K}.
Arguments hal_writes {K}.
Arguments hal_erases {K}.
Arguments hal_activations {K}.

Definition point {K} (w : HalWorld K) : Point := (length (hal_reads w), (length (hal_erases w) + length (hal_writes w))%nat).

(** How a call ends without success; [HS_Fuel] is only a lack of fuel. *)
Inductive HalStop := HS_Err (e : OtaError) | HS_Panic | HS_Fuel.

Section manager.
  Context {K : Type} `{TcpSocket K}.
  Context {Sha256 : Type} (sha_new : Sha256) (sha_update : Sha256 → list Z → Sha256) (sha_finalize : Sha256 → list Z).
  Context (env : HalEnv) (timeout_secs : Z) (deadline : Deadline).

Local Abbreviation MH := (M (HalWorld K) HalStop).
Local Abbreviation Verifier := (StreamingVerifier (Sha256 := Sha256)).

Definition elapsed : MH duration := λ w,
  (Ok (to_core (elapsed_us env (length (readings w)))),
   mkHalWorld (hal_sock w) (readings w ++ [point w]) (waits w) (hal_reads w) (hal_writes w) (hal_erases w) (hal_activations w)).

Definition check : MH unit := e ← elapsed; of_result (map_err HS_Err (deadline_check deadline e)).

Definition budget : MH Z := e ← elapsed; mret (to_embassy (clip deadline (from_secs timeout_secs) e)).

(** The wait itself: [None] when it ends first; the socket is then wherever it is. *)
Definition wait_for {E A} (m : M K E A) (limit : Z) : MH (option (result E A)) := λ w,
  let '(r, s) := m (hal_sock w) in
  (Ok (if expires env (waits w) limit then None else Some r),
   mkHalWorld s (readings w) (S (waits w)) (hal_reads w) (hal_writes w) (hal_erases w) (hal_activations w)).

(** [with_timeout(budget(), m).await]. *)
Definition with_timeout {E A} (m : M K E A) : MH (option (result E A)) := limit ← budget; wait_for m limit.

Definition erase (from to : Z) : MH unit := λ w,
  if refuse_erase env then (Err (HS_Err FlashWriteFailed), w)
  else (Ok tt, mkHalWorld (hal_sock w) (readings w) (waits w) (hal_reads w) (hal_writes w)
                 (hal_erases w ++ [(length (hal_writes w), from, to)]) (hal_activations w)).

(** A driver write. *)
Definition hal_refuse (log : wlog) : option unit := if refuse_write env log then Some tt else None.

(** Runs on the aligner and the write log. *)
Definition on_flash {E} (m : M (ChunkAligner * wlog) E unit) (a : ChunkAligner) : MH ChunkAligner := λ w,
  let '(r, (a, log)) := m (a, hal_writes w) in
  (match r with Ok _ => Ok a | Err _ => Err (HS_Err FlashWriteFailed) end,
   mkHalWorld (hal_sock w) (readings w) (waits w) (hal_reads w) log (hal_erases w) (hal_activations w)).

(** [Sink]: through the aligner, or read-modify-erase-write. *)
Definition sink_write (offset : Z) (chunk : list Z) (a : ChunkAligner) : MH ChunkAligner :=
  if nor_capable env then on_flash (push (recording hal_refuse) offset chunk) a
  else on_flash (do_write (recording hal_refuse) offset chunk) a.

Definition note_read (chunk : list Z) : MH unit := λ w,
  (Ok tt, mkHalWorld (hal_sock w) (readings w) (waits w) (hal_reads w ++ [chunk]) (hal_writes w) (hal_erases w) (hal_activations w)).

Definition read_chunk (remaining : Z) : MH (list Z) :=
  r ← with_timeout (sock_read_into (Nat.min (Z.to_nat (u32_wrap remaining)) CHUNK_LEN));
  match r with
  | None => throw (HS_Err (classify_read_error true))
  | Some (Err _) => throw (HS_Err (classify_read_error false))
  | Some (Ok chunk) => mret chunk
  end.

(** Each turn takes a byte or more of the rest, or ends. *)
Fixpoint body_loop (fuel : nat) (content_length remaining : Z) (a : ChunkAligner) (v : Verifier) : MH (ChunkAligner * Verifier) :=
  if remaining <=? 0 then mret (a, v)
  else
    match fuel with
    | O => throw HS_Fuel
    | S fuel =>
        chunk ← read_chunk remaining;
        if decide (chunk = []) then throw (HS_Err (DownloadFailed 0))
        else
          _ ← note_read chunk;
          _ ← check;
          let v := verifier_update sha_update chunk v in
          a ← sink_write (u32_wrap (content_length - remaining)) chunk a;
          _ ← check;
          body_loop fuel content_length (remaining - Z.of_nat (length chunk)) a v
    end.

(** Steps 0 to 4a: the length of the image, and the aligner. *)
Definition prepare (url : string) : MH (Z * ChunkAligner) :=
  _ ← check;
  parsed ← of_result (map_err (λ e, HS_Err (OtaError_from e)) (parse_url url));
  if negb (updater_ok env) then throw (HS_Err PartitionNotFound)
  else
    match next_partition env with
    | None => throw (HS_Err PartitionNotFound)
    | Some max_bytes =>
        _ ← check;
        r ← with_timeout (fetch_get parsed max_bytes);
        content_length ← match r with
                         | None => throw (HS_Err (classify_read_error true))
                         | Some r => of_result (map_err HS_Err r)
                         end;
        _ ← check;
        let erased_span := Z.min (round_up (u32_wrap content_length) (SECTOR_SIZE env)) (u32_wrap max_bytes) in
        match ChunkAligner_new (WRITE_SIZE env) with
        | None => throw HS_Panic
        | Some aligner =>
            _ ← (if nor_capable env then erase 0 erased_span else mret tt);
            _ ← check;
            mret (content_length, aligner)
        end
    end.

(** Steps 5 and 5a. *)
Definition download (content_length : Z) (aligner : ChunkAligner) : MH Verifier :=
  av ← body_loop (Z.to_nat content_length) content_length content_length aligner (StreamingVerifier_new sha_new);
  _ ← (if nor_capable env then
         _ ← on_flash (aligner_finish (recording hal_refuse) (u32_wrap content_length)) (fst av); check
       else mret tt);
  mret (snd av).

Definition activate (_ : ActivationPermit) : MH unit := λ w,
  (if refuse_activate env then Err (HS_Err FlashWriteFailed) else Ok tt,
   mkHalWorld (hal_sock w) (readings w) (waits w) (hal_reads w) (hal_writes w) (hal_erases w)
     (hal_activations w ++ [length (hal_writes w)])).

(** Steps 6 to 8. *)
Definition commit (expected_sha256 : list Z) (v : Verifier) : MH unit :=
  if decide (verifier_finalize sha_finalize v = expected_sha256) then
    _ ← check;
    e ← elapsed;
    permit ← of_result (map_err HS_Err (permit_activation deadline e));
    activate permit
  else throw (HS_Err ChecksumMismatch).

Definition fetch_and_apply (url : string) (expected_sha256 : list Z) : MH unit :=
  ca ← prepare url;
  v ← download (fst ca) (snd ca);
  commit expected_sha256 v.

(** [mark_valid] and [rollback]: whether [set_current_ota_state] works is the argument. *)
Definition set_state (set_ok : bool) : result OtaError unit :=
  if negb (updater_ok env) then Err PartitionNotFound else if set_ok then Ok tt else Err FlashWriteFailed.

Definition hal_init (s : K) : HalWorld K := mkHalWorld s [] 0 [] [] [] [].

End manager.

(** ** What the steps do to the flash *)

Section specs.
  Context {K : Type} `{TcpSocket K}.
  Context {Sha256 : Type} (sha_new : Sha256) (sha_update : Sha256 → list Z → Sha256) (sha_finalize : Sha256 → list Z).
  Context (env : HalEnv) (timeout_secs : Z) (deadline : Deadline).

Local Abbreviation MH := (M (HalWorld K) HalStop).
Local Abbreviation chk := (check env deadline).

Definition same_flash (w w' : HalWorld K) : Prop :=
  hal_reads w' = hal_reads w ∧ hal_writes w' = hal_writes w ∧ hal_erases w' = hal_erases w ∧ hal_activations w' = hal_activations w.

(** Neither the flash nor the record of the reads is touched, and an error is one of the API's. *)
Definition benign {A} (m : MH A) : Prop :=
  ∀ w, same_flash w (m w).2 ∧ match (m w).1 with Ok _ => True | Err e => ∃ x, e = HS_Err x end.

Lemma same_flash_trans w1 w2 w3 : same_flash w1 w2 → same_flash w2 w3 → same_flash w1 w3.
Proof. intros (? & ? & ? & ?) (? & ? & ? & ?). repeat split; congruence. Qed.

Lemma benign_ret {A} (a : A) : benign (mret a).
Proof. by intros w. Qed.

Lemma benign_throw {A} e : benign (A := A) (throw (HS_Err e)).
Proof. intros w. split; [done|by eexists]. Qed.

Lemma benign_of_result {A} (r : result OtaError A) : benign (of_result (map_err HS_Err r)).
Proof. intros w. split; [done|]. destruct r; [done|by eexists]. Qed.

Lemma benign_bind {A B} (m : MH A) (f : A → MH B) : benign m → (∀ a, benign (f a)) → benign (m ≫= f).
Proof.
  intros Hm Hf w. rewrite M_bind_eq. destruct (Hm w) as [Hs He]. destruct (m w) as [[a|e] w1]; [|done].
  destruct (Hf a w1) as [Hs' He']. split; [by eapply same_flash_trans|done].
Qed.

Lemma benign_elapsed : benign (elapsed env).
Proof. by intros w. Qed.

Lemma benign_check : benign chk.
Proof. apply benign_bind; [apply benign_elapsed|intros e; apply benign_of_result]. Qed.

Lemma benign_timeout {E A} (m : M K E A) : benign (with_timeout env timeout_secs deadline m).
Proof.
  apply benign_bind; [apply benign_bind; [apply benign_elapsed|intros; apply benign_ret]|].
  intros limit w. unfold wait_for. destruct (m (hal_sock w)) as [r s]. done.
Qed.

Lemma read_chunk_spec remaining w :
  0 ≤ remaining ≤ u32_max →
  let '(r, w') := read_chunk env timeout_secs deadline remaining w in
  same_flash w w' ∧ match r with Ok chunk => Z.of_nat (length chunk) ≤ remaining | Err e => ∃ x, e = HS_Err x end.
Proof.
  intros Hr. unfold read_chunk. rewrite M_bind_eq. rewrite u32_wrap_small by (unfold is_u32; lia).
  set (n := Nat.min (Z.to_nat remaining) CHUNK_LEN).
  pose proof (benign_timeout (sock_read_into n) w) as [Hs He].
  assert (Hlen : ∀ c, (with_timeout env timeout_secs deadline (sock_read_into n) w).1 = Ok (Some (Ok c)) → (length c ≤ n)%nat).
  { unfold with_timeout, wait_for. rewrite M_bind_eq. destruct (budget _ _ _ _) as [[limit|] w1]; [|done].
    unfold sock_read_into. rewrite M_bind_eq. destruct (sock_recv n (hal_sock w1)) as [[l|] s]; cbn; destruct (expires _ _ _); intros; simplify_eq.
    rewrite length_take. lia. }
  destruct (with_timeout _ _ _ _ w) as [[[[c|]|]|e] w']; cbn in *; split; try done; try by eexists.
  specialize (Hlen c eq_refl). unfold n in Hlen. lia.
Qed.

Local Abbreviation word := (WRITE_SIZE env).

(** The writes so far and what the aligner holds back are the stream. *)
Definition sink_inv (stream : list Z) (a : ChunkAligner) (w : HalWorld K) : Prop :=
  if nor_capable env then al_inv word stream a (hal_writes w)
  else aligned_from 1 0 (hal_writes w) ∧ written (hal_writes w) = stream.

Lemma sink_inv_same stream a w w' : same_flash w w' → sink_inv stream a w → sink_inv stream a w'.
Proof. unfold sink_inv. by intros (_ & -> & _). Qed.

Lemma sink_write_spec stream chunk a w :
  write_size_ok word = true → chunk ≠ [] → Z.of_nat (length stream + length chunk) + Z.of_nat word ≤ u32_max →
  sink_inv stream a w →
  let '(r, w') := sink_write env (Z.of_nat (length stream)) chunk a w in
  hal_reads w' = hal_reads w ∧ hal_erases w' = hal_erases w ∧ hal_activations w' = hal_activations w ∧
  match r with Ok a' => sink_inv (stream ++ chunk) a' w' | Err e => e = HS_Err FlashWriteFailed end.
Proof.
  intros Hok Hc Hmax Hi. unfold sink_write, sink_inv, on_flash in *. destruct (nor_capable env).
  - pose proof (push_spec (hal_refuse env) word stream a (hal_writes w) chunk Hok Hi Hmax) as Hp.
    destruct (push _ _ _ _) as [[[]|e] [a' log']]; done.
  - unfold do_write, recording. cbn. destruct Hi as [Ha Hw]. destruct (hal_refuse env (hal_writes w)); cbn; [done|].
    split_and!; [done..| |by rewrite written_snoc, Hw].
    apply aligned_snoc; [done|by rewrite Hw| |done|].
    + change (Z.of_nat 1) with 1. apply Z.mod_1_r.
    + apply Nat.mod_1_r.
Qed.

(** The hasher has seen what was read. *)
Definition hashed (v : StreamingVerifier (Sha256 := Sha256)) (w : HalWorld K) : Prop :=
  hasher v = foldl sha_update sha_new (hal_reads w).

Definition same_record (w w' : HalWorld K) : Prop :=
  hal_erases w' = hal_erases w ∧ hal_activations w' = hal_activations w.

Lemma body_loop_spec content_length fuel remaining a v w :
  write_size_ok word = true → 0 ≤ remaining ≤ Z.of_nat fuel → content_length + Z.of_nat word ≤ u32_max →
  content_length = Z.of_nat (length (concat (hal_reads w))) + remaining →
  sink_inv (concat (hal_reads w)) a w → hashed v w →
  let '(r, w') := body_loop sha_update env timeout_secs deadline fuel content_length remaining a v w in
  same_record w w' ∧
  match r with
  | Ok (a', v') => Z.of_nat (length (concat (hal_reads w'))) = content_length ∧ sink_inv (concat (hal_reads w')) a' w' ∧ hashed v' w'
  | Err e => ∃ x, e = HS_Err x
  end.
Proof.
  intros Hok. revert remaining a v w. induction fuel as [|fuel IH]; intros remaining a v w Hr Hmax Hcl Hi Hh; cbn [body_loop].
  { rewrite (proj2 (Z.leb_le _ _)) by lia. split; [done|]. split_and!; [lia|done|done]. }
  destruct (Z.leb_spec remaining 0); [split; [done|]; split_and!; [lia|done|done]|].
  rewrite M_bind_eq. pose proof (read_chunk_spec remaining w ltac:(lia)) as Hc.
  destruct (read_chunk _ _ _ _ w) as [[chunk|e] w1]; destruct Hc as [Hs Hc]; [|destruct Hs as (_ & _ & ? & ?); done].
  destruct (decide (chunk = [])) as [|Hne]; [destruct Hs as (_ & _ & ? & ?); split; [done|by eexists]|].
  rewrite M_bind_eq. cbn [note_read]. set (w2 := mkHalWorld _ _ _ _ _ _ _).
  rewrite M_bind_eq. pose proof (benign_check w2) as [Hs2 He2].
  destruct (chk w2) as [[[]|e] w3]; cbn [fst snd] in *;
    [|destruct Hs as (? & ? & ? & ?), Hs2 as (? & ? & ? & ?); split; [split; cbn in *; congruence|done]].
  assert (Hw3 : hal_reads w3 = hal_reads w ++ [chunk] ∧ hal_writes w3 = hal_writes w ∧ same_record w w3).
  { destruct Hs as (R1 & W1 & E1 & A1), Hs2 as (R2 & W2 & E2 & A2). unfold w2 in *. cbn in *.
    split_and!; [congruence|congruence|split; congruence]. }
  destruct Hw3 as (R3 & W3 & S3). cbv zeta. rewrite M_bind_eq.
  replace (u32_wrap (content_length - remaining)) with (Z.of_nat (length (concat (hal_reads w))))
    by (rewrite u32_wrap_small by (unfold is_u32; lia); lia).
  pose proof (sink_write_spec (concat (hal_reads w)) chunk a w3 Hok Hne ltac:(lia)) as Hw.
  destruct (sink_write _ _ _ _ w3) as [r w4].
  destruct Hw as (R4 & E4 & A4 & Hr4); [unfold sink_inv in *; by rewrite W3|].
  assert (S4 : same_record w w4) by (destruct S3; split; congruence).
  destruct r as [a'|e]; [|split; [done|by eexists]].
  rewrite M_bind_eq. pose proof (benign_check w4) as [Hs5 He5].
  destruct (chk w4) as [[[]|e] w5]; cbn [fst snd] in *; destruct Hs5 as (R5 & W5 & E5 & A5);
    [|split; [destruct S4; split; congruence|done]].
  assert (Hcat : concat (hal_reads w5) = concat (hal_reads w) ++ chunk)
    by (rewrite R5, R4, R3, concat_app; cbn; by rewrite app_nil_r).
  pose proof (IH (remaining - Z.of_nat (length chunk)) a' (verifier_update sha_update chunk v) w5) as H5.
  destruct (body_loop _ _ _ _ _ _ _ _ _ w5) as [r w6]. destruct H5 as [S6 H6].
  - destruct chunk; [done|]. cbn [length] in *. lia.
  - done.
  - rewrite Hcat, length_app. lia.
  - rewrite Hcat. unfold sink_inv in *. by rewrite W5.
  - unfold hashed in *. rewrite R5, R4, R3, foldl_snoc. cbn. by rewrite Hh.
  - split; [|exact H6]. destruct S4, S6. split; congruence.
Qed.

Definition span_of (content_length max_bytes : Z) : Z :=
  Z.min (round_up (u32_wrap content_length) (SECTOR_SIZE env)) (u32_wrap max_bytes).

(** What the header said, and what the flash got, before the body. *)
Definition prepared (content_length : Z) (a : ChunkAligner) (w : HalWorld K) : Prop :=
  ∃ max_bytes, next_partition env = Some max_bytes ∧ 0 < content_length ≤ max_bytes ∧
  ChunkAligner_new word = Some a ∧ hal_reads w = [] ∧ hal_writes w = [] ∧ hal_activations w = [] ∧
  hal_erases w = (if nor_capable env then [(0%nat, 0, span_of content_length max_bytes)] else []).

Definition failed {A} (r : result HalStop A) (w : HalWorld K) : Prop :=
  hal_activations w = [] ∧
  match r with Ok _ => False | Err e => (∃ x, e = HS_Err x) ∨ e = HS_Panic ∧ ChunkAligner_new word = None end.

Ltac benign_step Hb :=
  rewrite M_bind_eq;
  match goal with |- context [match ?m ?w with (_, _) => _ end] =>
    let E := fresh "E" in let F := fresh "F" in
    pose proof (Hb w) as [F E]; destruct (m w) as [[?|?] ?]; cbn [fst snd] in F, E
  end.

Lemma fresh_failed {A} (r : result HalStop A) w0 w :
  hal_activations w0 = [] → same_flash w0 w → (match r with Ok _ => False | Err e => ∃ x, e = HS_Err x end) → failed r w.
Proof. intros H0 (_ & _ & _ & Ha) Hr. split; [congruence|]. destruct r; [done|by left]. Qed.

Lemma prepare_spec url s :
  let '(r, w) := prepare env timeout_secs deadline url (hal_init s) in
  match r with Ok (cl, a) => prepared cl a w | Err _ => failed r w end.
Proof.
  unfold prepare. set (w0 := hal_init s). assert (Hw0 : hal_activations w0 = []) by done.
  benign_step benign_check; [|by eapply fresh_failed].
  rewrite M_bind_eq. unfold of_result at 1. destruct (parse_url url) as [u|e]; cbn [map_err];
    [|eapply fresh_failed; [done..|by eexists]].
  destruct (updater_ok env); cbn [negb]; [|eapply fresh_failed; [done..|by eexists]].
  destruct (next_partition env) as [max_bytes|] eqn:Ep; [|eapply fresh_failed; [done..|by eexists]].
  benign_step benign_check; [|eapply fresh_failed; [exact Hw0|by eapply same_flash_trans|done]].
  assert (Hw : same_flash w0 h0) by (by eapply same_flash_trans). clear F F0.
  rewrite M_bind_eq. pose proof (benign_timeout (fetch_get u max_bytes) h0) as [F Ef].
  assert (Hhead : ∀ n, (with_timeout env timeout_secs deadline (fetch_get u max_bytes) h0).1 = Ok (Some (Ok n)) →
                       0 < n ≤ max_bytes).
  { unfold with_timeout, wait_for. rewrite M_bind_eq. destruct (budget _ _ _ _) as [[limit|] w1]; [|done].
    pose proof (fetch_get_head u max_bytes (hal_sock w1)) as Hf. destruct (fetch_get u max_bytes (hal_sock w1)) as [r s'].
    cbn in *. destruct (expires _ _ _); intros n Hn; simplify_eq. destruct Hf as [header Hf].
    apply (parse_head_strict _ _ _ Hf). }
  destruct (with_timeout _ _ _ _ h0) as [[x|e] w1]; cbn [fst snd] in *;
    [|eapply fresh_failed; [exact Hw0|by eapply same_flash_trans|done]].
  assert (Hw1 : same_flash w0 w1) by (by eapply same_flash_trans). clear F Hw.
  rewrite M_bind_eq. destruct x as [[cl|e]|]; cbn [of_result map_err throw];
    [|eapply fresh_failed; [exact Hw0|done|by eexists]..].
  pose proof (Hhead cl eq_refl) as Hcl.
  benign_step benign_check; [|eapply fresh_failed; [exact Hw0|by eapply same_flash_trans|done]].
  assert (Hw2 : same_flash w0 h1) by (by eapply same_flash_trans). clear F Hw1 Hhead.
  destruct (ChunkAligner_new word) as [al|] eqn:Ea; [|split; [destruct Hw2 as (_ & _ & _ & ?); congruence|by right]].
  rewrite M_bind_eq. change (Z.min (round_up (u32_wrap cl) (SECTOR_SIZE env)) (u32_wrap max_bytes)) with (span_of cl max_bytes).
  destruct Hw2 as (R2 & W2 & E2 & A2). unfold w0 in *. cbn in R2, W2, E2, A2.
  assert ((∃ h2, (if nor_capable env then erase env 0 (span_of cl max_bytes) else mret tt) h1 = (Ok tt, h2) ∧
            hal_reads h2 = [] ∧ hal_writes h2 = [] ∧ hal_activations h2 = [] ∧
            hal_erases h2 = (if nor_capable env then [(0%nat, 0, span_of cl max_bytes)] else [])) ∨
          ∃ x, (if nor_capable env then erase env 0 (span_of cl max_bytes) else mret tt) h1 = (Err (HS_Err x), h1)) as Herase.
  { destruct (nor_capable env); [|left; by exists h1]. unfold erase. destruct (refuse_erase env); [right; by eexists|].
    left. eexists. split; [done|]. cbn. rewrite W2, E2. done. }
  destruct Herase as [(h2 & -> & R3 & W3 & A3 & E3)|[x ->]]; [|split; [done|left; by eexists]].
  benign_step benign_check; [|split; [destruct F as (_ & _ & _ & ?); congruence|by left]].
  destruct F as (R4 & W4 & X4 & A4). exists max_bytes. split_and!; try done; first [lia|congruence].
Qed.

Lemma round_up_cover len align cap :
  0 < len ≤ cap → cap ≤ u32_max → 0 < align → cap mod align = 0 →
  round_up (u32_wrap len) align mod align = 0 ∧ len ≤ Z.min (round_up (u32_wrap len) align) (u32_wrap cap) ≤ cap ∧
  Z.min (round_up (u32_wrap len) align) (u32_wrap cap) mod align = 0.
Proof.
  intros Hl Hc Ha Hm. rewrite !u32_wrap_small by (unfold is_u32; lia). unfold round_up.
  pose proof (Z.div_mod len align ltac:(lia)) as Hd. pose proof (Z.mod_pos_bound len align Ha) as Hb.
  pose proof (Z.div_mod cap align ltac:(lia)) as Hdc. rewrite Hm, Z.add_0_r in Hdc.
  set (q := len / align + (if len mod align =? 0 then 0 else 1)).
  assert (len ≤ q * align < len + align) as Hq by (unfold q; destruct (Z.eqb_spec (len mod align) 0); nia).
  assert (q * align ≤ cap) as Hqc by (assert (q < cap / align + 1) by (apply (Z.mul_lt_mono_pos_r align); [done|lia]); nia).
  rewrite u32_wrap_small by (unfold is_u32, u32_max in *; nia). rewrite Z.min_l by lia.
  split; [by apply Z.mod_mul; lia|]. split; [lia|by apply Z.mod_mul; lia].
Qed.

(** ** The clock: where it is read, and which readings have to pass *)

Definition passed (t : nat) : Prop := deadline_check deadline (to_core (elapsed_us env t)) = Ok tt.

(** A schedule of readings: a check of the deadline, or the budget of a wait, at a point of the session. *)
Inductive Reading := R_check | R_budget.

Local Abbreviation Schedule := (list (Reading * Point)).

(** The readings from the [t]-th on follow the schedule, and every check passed. *)
Definition follows (t : nat) (l : Schedule) (points : list Point) : Prop :=
  points = map snd l ∧ ∀ i p, l !! i = Some (R_check, p) → passed (t + i).

(** Before the header and after it, and, where there was an erasure, after that. *)
Definition opening : Schedule :=
  let e := if nor_capable env then 1%nat else 0%nat in
  [(R_check, (0%nat, 0%nat)); (R_check, (0%nat, 0%nat)); (R_budget, (0%nat, 0%nat)); (R_check, (0%nat, 0%nat)); (R_check, (0%nat, e))].

(** Per chunk: the read, then a check before its write and one behind it; [fs] is how far the flash
    was after each chunk. *)
Fixpoint chunk_readings (n f : nat) (fs : list nat) : Schedule :=
  match fs with
  | [] => []
  | f' :: fs => (R_budget, (n, f)) :: (R_check, (S n, f)) :: (R_check, (S n, f')) :: chunk_readings (S n) f' fs
  end.

(** After the last write: where the padded tail was flushed, after the digest, and for the permit. *)
Definition closing (p : Point) : Schedule :=
  replicate (if nor_capable env then 3 else 2) (R_check, p).

(** Every reading of the clock of a session that reached the activation. *)
Definition all_checked (w : HalWorld K) : Prop :=
  ∃ fs, length fs = length (hal_reads w) ∧
  follows 0 (opening ++ chunk_readings 0 (if nor_capable env then 1 else 0) fs ++ closing (point w)) (readings w).

(** What a step adds to the readings. *)
Definition timed (w : HalWorld K) (l : Schedule) (w' : HalWorld K) : Prop :=
  ∃ points, readings w' = readings w ++ points ∧ follows (length (readings w)) l points.

Lemma timed_nil w w' : readings w' = readings w → timed w [] w'.
Proof. intros HT. exists []. by rewrite app_nil_r. Qed.

Lemma timed_app w1 w2 w3 l1 l2 : timed w1 l1 w2 → timed w2 l2 w3 → timed w1 (l1 ++ l2) w3.
Proof.
  intros (p1 & E1 & -> & H1) (p2 & E2 & -> & H2). exists (map snd (l1 ++ l2)). split; [by rewrite E2, E1, map_app, app_assoc|].
  split; [done|]. intros i p [Hi|[Hl Hi]]%lookup_app_Some; [by eapply H1|].
  apply H2 in Hi. rewrite E1, length_app, length_map in Hi.
  by replace (length (readings w1) + i)%nat with (length (readings w1) + length l1 + (i - length l1))%nat by lia.
Qed.

(** The same step, with the world where it started told apart from the world it is said of. *)
Lemma timed_cons w1 w2 w3 x l : timed w1 [x] w2 → timed w2 l w3 → timed w1 (x :: l) w3.
Proof. apply (timed_app w1 w2 w3 [x] l). Qed.

Lemma check_timed w u w' : chk w = (Ok u, w') → timed w [(R_check, point w)] w'.
Proof.
  unfold check, elapsed. rewrite M_bind_eq. unfold of_result. intros [= Hd <-]. eexists. split; [done|]. split; [done|].
  intros [|i] p Hi; [|done]. rewrite Nat.add_0_r. unfold passed.
  by destruct (deadline_check _ _) as [[]|x].
Qed.

Lemma timeout_timed {E A} (m : M K E A) w r w' :
  with_timeout env timeout_secs deadline m w = (r, w') → timed w [(R_budget, point w)] w'.
Proof.
  unfold with_timeout, budget, elapsed, wait_for. rewrite !M_bind_eq. cbn. destruct (m (hal_sock w)) as [x s].
  intros [= _ <-]. eexists. split; [done|]. split; [done|]. by intros [|i] p Hi.
Qed.

Lemma point_same w w' : same_flash w w' → point w' = point w.
Proof. intros (R & W & E & _). unfold point. by rewrite R, W, E. Qed.

Lemma read_chunk_timed remaining w r w' :
  read_chunk env timeout_secs deadline remaining w = (r, w') → timed w [(R_budget, point w)] w'.
Proof.
  unfold read_chunk. rewrite M_bind_eq. pose proof (timeout_timed (sock_read_into (Nat.min (Z.to_nat (u32_wrap remaining)) CHUNK_LEN)) w) as HT.
  destruct (with_timeout _ _ _ _ w) as [x w1]. specialize (HT x w1 eq_refl). destruct x as [[[c|]|]|e]; by intros [= _ <-].
Qed.

(** Each chunk came out of one read of the socket. *)
Fixpoint delivers (s : K) (chunks : list (list Z)) (s' : K) : Prop :=
  match chunks with
  | [] => s = s'
  | chunk :: chunks => chunk ≠ [] ∧ ∃ n s1, sock_read_into n s = (Ok chunk, s1) ∧ delivers s1 chunks s'
  end.

Lemma timeout_delivers {E A} (m : M K E A) w a w' :
  with_timeout env timeout_secs deadline m w = (Ok (Some (Ok a)), w') → m (hal_sock w) = (Ok a, hal_sock w').
Proof.
  unfold with_timeout, budget, elapsed, wait_for. rewrite !M_bind_eq. cbn. destruct (m (hal_sock w)) as [x s].
  destruct (expires _ _ _); [done|]. by intros [= -> <-].
Qed.

Lemma read_chunk_delivers remaining w chunk w' :
  read_chunk env timeout_secs deadline remaining w = (Ok chunk, w') →
  same_flash w w' ∧ ∃ n, sock_read_into n (hal_sock w) = (Ok chunk, hal_sock w').
Proof.
  unfold read_chunk. rewrite M_bind_eq. set (n := Nat.min _ _). pose proof (benign_timeout (sock_read_into n) w) as [Hs _].
  destruct (with_timeout _ _ _ _ w) as [[[[c|]|]|e] w2] eqn:E; try done. intros [= -> ->]. split; [done|].
  exists n. by eapply timeout_delivers.
Qed.

Lemma check_quiet w r w' : chk w = (r, w') → same_flash w w' ∧ hal_sock w' = hal_sock w.
Proof. unfold check, elapsed. rewrite M_bind_eq. by intros [= _ <-]. Qed.

(** The aligner reads no clock, and only the writes change. *)
Lemma on_flash_quiet {E} (m : M (ChunkAligner * wlog) E unit) a (w : HalWorld K) r w' :
  on_flash m a w = (r, w') → readings w' = readings w ∧ hal_reads w' = hal_reads w ∧ hal_erases w' = hal_erases w ∧ hal_sock w' = hal_sock w.
Proof. unfold on_flash. destruct (m (a, hal_writes w)) as [x [a' log]]. by intros [= _ <-]. Qed.

Lemma sink_write_quiet offset chunk a (w : HalWorld K) r w' :
  sink_write env offset chunk a w = (r, w') → readings w' = readings w ∧ hal_reads w' = hal_reads w ∧ hal_erases w' = hal_erases w ∧ hal_sock w' = hal_sock w.
Proof. unfold sink_write. destruct (nor_capable env); apply on_flash_quiet. Qed.

Lemma body_loop_timed content_length fuel remaining a v w x w' :
  body_loop sha_update env timeout_secs deadline fuel content_length remaining a v w = (Ok x, w') →
  ∃ fs chunks, hal_reads w' = hal_reads w ++ chunks ∧ length fs = length chunks ∧ hal_erases w' = hal_erases w ∧
        timed w (chunk_readings (length (hal_reads w)) (point w).2 fs) w' ∧ delivers (hal_sock w) chunks (hal_sock w').
Proof.
  revert remaining a v w. induction fuel as [|fuel IH]; intros remaining a v w; cbn [body_loop];
    (destruct (remaining <=? 0); [intros [= _ <-]; exists [], []; rewrite app_nil_r; split_and!; [done..|by apply timed_nil|done]|]); [done|].
  rewrite M_bind_eq. destruct (read_chunk _ _ _ _ w) as [[chunk|e] w1] eqn:E1; [|done].
  pose proof (read_chunk_timed _ _ _ _ E1) as T1. destruct (read_chunk_delivers _ _ _ _ E1) as [F1 [n D1]].
  destruct (decide (chunk = [])) as [|Hne]; [done|]. rewrite M_bind_eq. cbn [note_read].
  set (w2 := mkHalWorld _ _ _ _ _ _ _). rewrite M_bind_eq.
  destruct (chk w2) as [[u|e] w3] eqn:E3; [|done]. pose proof (check_timed _ _ _ E3) as T3. destruct (check_quiet _ _ _ E3) as [F3 D3].
  cbv zeta. rewrite M_bind_eq. destruct (sink_write _ _ _ _ w3) as [[a'|e] w4] eqn:E4; [|done].
  destruct (sink_write_quiet _ _ _ _ _ _ E4) as (Q4 & R4 & X4 & D4).
  rewrite M_bind_eq. destruct (chk w4) as [[u'|e] w5] eqn:E5; [|done].
  pose proof (check_timed _ _ _ E5) as T5. destruct (check_quiet _ _ _ E5) as [F5 D5].
  intros HT. destruct (IH _ _ _ _ HT) as (fs & cs & R & Hl & X & T & D). clear IH HT E1 E3 E4 E5. pose proof (point_same _ _ F5) as P5.
  destruct F1 as (R1 & W1 & X1 & _), F3 as (R3 & W3 & X3 & _), F5 as (R5 & W5 & X5 & _). cbn in R3, W3, X3, D3.
  assert (hal_reads w5 = hal_reads w ++ [chunk]) as Hr by (by rewrite R5, R4, R3, R1).
  assert (length (hal_reads w5) = S (length (hal_reads w))) as Hn by (rewrite Hr, length_app; cbn; lia).
  exists ((point w5).2 :: fs), (chunk :: cs). split_and!; [by rewrite R, Hr, <- app_assoc|cbn; congruence|congruence| |].
  2:{ split; [done|]. exists n, (hal_sock w1). split; [done|]. by rewrite <- D3, <- D4, <- D5. }
  cbn [chunk_readings]. rewrite <- Hn. eapply timed_cons; [exact T1|]. eapply timed_cons.
  { destruct T3 as (ps & Ep & HF). exists ps. split; [exact Ep|]. revert HF. unfold point, w2. cbn. rewrite R1, W1, X1, length_app. cbn.
    rewrite Hn, Nat.add_1_r. exact (λ h, h). }
  eapply timed_cons; [|exact T]. eapply (timed_app _ w4 _ []); [by apply timed_nil|].
  rewrite <- P5 in T5. exact T5.
Qed.

(** The server's answer, as the socket gave it: the header, the length in it, and the socket behind it. *)
Definition answered (url : string) (s : K) (max_bytes n : Z) (s' : K) : Prop :=
  ∃ u req header s1, parse_url url = Ok u ∧ format_get_request REQ_BUF u = Ok req ∧ write_request (length req) req s = (Ok tt, s1) ∧
  read_headers HEADER_BUF [] s1 = (Ok header, s') ∧ parse_head max_bytes header = Ok n.

Lemma fetch_get_answered url u max_bytes s n s' :
  parse_url url = Ok u → fetch_get u max_bytes s = (Ok n, s') → answered url s max_bytes n s'.
Proof.
  intros Hu. unfold fetch_get. rewrite M_bind_eq. unfold of_result. destruct (format_get_request _ _) as [req|] eqn:Hq; cbn [map_err]; [|done].
  rewrite M_bind_eq. destruct (write_request _ _ _) as [[[]|] s1] eqn:Hw; [|done].
  rewrite M_bind_eq. destruct (read_headers _ _ _) as [[header|] s2] eqn:Hr; cbn [map_err]; [|done].
  intros [= Hp <-]. by exists u, req, header, s1.
Qed.

Lemma prepare_timed url s n a w :
  prepare env timeout_secs deadline url (hal_init s) = (Ok (n, a), w) →
  ∃ max_bytes, next_partition env = Some max_bytes ∧ answered url s max_bytes n (hal_sock w) ∧ timed (hal_init s) opening w.
Proof.
  unfold prepare. rewrite M_bind_eq. destruct (chk (hal_init s)) as [[[]|e] w1] eqn:E1; [|done].
  destruct (check_quiet _ _ _ E1) as [F1 D1]. apply check_timed in E1. rewrite M_bind_eq. unfold of_result at 1.
  destruct (parse_url url) as [u|] eqn:Hu; cbn [map_err]; [|done]. destruct (updater_ok env); cbn [negb]; [|done].
  destruct (next_partition env) as [max_bytes|]; [|done]. rewrite M_bind_eq.
  destruct (chk w1) as [[[]|e] w2] eqn:E2; [|done]. destruct (check_quiet _ _ _ E2) as [F2 D2]. apply check_timed in E2.
  rewrite M_bind_eq. pose proof (benign_timeout (fetch_get u max_bytes) w2) as [F3 _].
  destruct (with_timeout _ _ _ _ w2) as [[r|e] w3] eqn:E3; [|done]. cbn [fst snd] in F3.
  rewrite M_bind_eq. destruct r as [[cl|e]|]; cbn [of_result map_err throw]; [|done..].
  pose proof (timeout_delivers _ _ _ _ E3) as Hf. apply timeout_timed in E3.
  rewrite M_bind_eq. destruct (chk w3) as [[[]|e] w4] eqn:E4; [|done]. destruct (check_quiet _ _ _ E4) as [F4 D4]. apply check_timed in E4.
  destruct (ChunkAligner_new _) as [al|]; [|done]. rewrite M_bind_eq.
  set (m := if nor_capable env then _ else _). destruct (m w4) as [[[]|e] w5] eqn:E5; [|done].
  rewrite M_bind_eq. destruct (chk w5) as [[[]|e] w6] eqn:E6; [|done]. destruct (check_quiet _ _ _ E6) as [F6 D6]. apply check_timed in E6.
  intros [= -> -> <-]. exists max_bytes. split; [done|].
  assert (hal_sock w5 = hal_sock w4 ∧ readings w5 = readings w4 ∧ point w5 = (0, if nor_capable env then 1 else 0)%nat) as (D5 & Q5 & P5).
  { destruct F1 as (R1 & W1 & X1 & _), F2 as (R2 & W2 & X2 & _), F3 as (R3 & W3 & X3 & _), F4 as (R4 & W4 & X4 & _). cbn in R1, W1, X1.
    unfold m, erase in E5. destruct (nor_capable env); [destruct (refuse_erase env); [done|]|]; injection E5 as <-;
      split_and!; try done; unfold point; cbn; rewrite R4, R3, R2, R1, W4, W3, W2, W1, X4, X3, X2, X1; done. }
  split.
  - rewrite D6, D5, D4. eapply fetch_get_answered; [done|]. rewrite <- Hf. by rewrite D2, D1.
  - rewrite (point_same _ _ F3), (point_same _ _ F2), (point_same _ _ F1) in E4. rewrite (point_same _ _ F2), (point_same _ _ F1) in E3.
    rewrite (point_same _ _ F1) in E2. rewrite P5 in E6. repeat (eapply timed_cons; [eassumption|]). eapply (timed_app _ w5 _ []); [by apply timed_nil|done].
Qed.

Lemma download_timed n a w v w' :
  download sha_new sha_update env timeout_secs deadline n a w = (Ok v, w') → hal_reads w = [] →
  ∃ fs chunks, hal_reads w' = chunks ∧ length fs = length chunks ∧ delivers (hal_sock w) chunks (hal_sock w') ∧
  timed w (chunk_readings 0 (point w).2 fs ++ (if nor_capable env then [(R_check, point w')] else [])) w'.
Proof.
  intros Hd Hr0. revert Hd. unfold download. rewrite M_bind_eq. destruct (body_loop _ _ _ _ _ _ _ _ _ w) as [[[a1 v1]|e] w1] eqn:E1; [|done].
  destruct (body_loop_timed _ _ _ _ _ _ _ _ E1) as (fs & chunks & R & Hl & _ & T & D). rewrite Hr0 in R, T. cbn in R, T.
  rewrite M_bind_eq. destruct (nor_capable env); [|intros [= _ <-]; exists fs, chunks; by rewrite app_nil_r].
  rewrite M_bind_eq. destruct (on_flash _ _ w1) as [[a2|e] w2] eqn:E2; [|done]. destruct (on_flash_quiet _ _ _ _ _ E2) as (Q2 & R2 & _ & D2).
  destruct (chk w2) as [[[]|e] w3] eqn:E3; [|done]. destruct (check_quiet _ _ _ E3) as [F3 D3]. apply check_timed in E3. intros [= _ <-].
  exists fs, chunks. rewrite (point_same _ _ F3). destruct F3 as (R3 & _). split_and!; [congruence|done|by rewrite D3, D2|].
  eapply timed_app; [exact T|]. eapply (timed_app _ w2 _ []); [by apply timed_nil|done].
Qed.

(** The bytes the target partition gets: whole words, or what came. *)
Definition flash_word : nat := if nor_capable env then word else 1%nat.

(** What every activation rests on, [s] being the socket at the start. *)
Definition image_verified (url : string) (expected : list Z) (s : K) (sha256 : list Z → list Z) (w : HalWorld K) : Prop :=
  let body := concat (hal_reads w) in
  ∃ max_bytes s', next_partition env = Some max_bytes ∧ answered url s max_bytes (Z.of_nat (length body)) s' ∧
  delivers s' (hal_reads w) (hal_sock w) ∧ sha256 body = expected ∧ all_checked w ∧
  aligned_from flash_word 0 (hal_writes w) ∧ written (hal_writes w) = padded flash_word body ∧
  Z.of_nat (length body) ≤ max_bytes ∧
  (if nor_capable env then
     ∃ span, hal_erases w = [(0%nat, 0, span)] ∧ span mod SECTOR_SIZE env = 0 ∧
             Z.of_nat (length (written (hal_writes w))) ≤ span ≤ max_bytes
   else hal_erases w = []).

(** A driver with words of a size the aligner knows; a partition of whole sectors, which hold whole
    words, short of the end of the address space. *)
Definition flash_ok : Prop :=
  write_size_ok word = true ∧ 0 < SECTOR_SIZE env ∧ SECTOR_SIZE env mod Z.of_nat word = 0 ∧
  match next_partition env with
  | Some cap => cap + Z.of_nat word ≤ u32_max ∧ cap mod SECTOR_SIZE env = 0
  | None => True
  end.

Lemma download_spec content_length a w max_bytes :
  flash_ok → next_partition env = Some max_bytes → 0 < content_length ≤ max_bytes →
  ChunkAligner_new word = Some a → hal_reads w = [] → hal_writes w = [] →
  let '(r, w') := download sha_new sha_update env timeout_secs deadline content_length a w in
  same_record w w' ∧
  match r with
  | Ok v => hashed v w' ∧ Z.of_nat (length (concat (hal_reads w'))) = content_length ∧
            aligned_from flash_word 0 (hal_writes w') ∧ written (hal_writes w') = padded flash_word (concat (hal_reads w'))
  | Err e => ∃ x, e = HS_Err x
  end.
Proof.
  intros (Hok & Hs0 & Hsw & Hcap) Hp Hcl Ha Hr Hw. rewrite Hp in Hcap. destruct (write_size_cases word Hok) as [Hw1 Hw0].
  unfold ChunkAligner_new in Ha. rewrite Hok in Ha. injection Ha as <-.
  unfold download. rewrite M_bind_eq.
  set (al := mkAligner word (replicate MAX_WRITE_SIZE 0) 0 0).
  assert (sink_inv (concat (hal_reads w)) al w) as Hi0.
  { rewrite Hr. unfold sink_inv, al_inv. rewrite Hw. destruct (nor_capable env); cbn; split_and!; try done; lia. }
  assert (hashed (StreamingVerifier_new sha_new) w) as Hh0 by (unfold hashed; by rewrite Hr).
  pose proof (body_loop_spec content_length (Z.to_nat content_length) content_length al (StreamingVerifier_new sha_new) w
                Hok ltac:(lia) ltac:(lia) ltac:(rewrite Hr; cbn; lia) Hi0 Hh0) as Hb.
  destruct (body_loop _ _ _ _ _ _ _ _ _ w) as [r w1]. destruct Hb as [S1 Hb]. destruct r as [[a' v']|e]; [|by split].
  destruct Hb as (Hlen & Hi & Hh). cbn [fst snd]. unfold sink_inv, flash_word in *.
  destruct (nor_capable env).
  2:{ rewrite M_bind_eq. cbn. destruct Hi as [Hal Hwr]. split; [done|]. split_and!; [done|done|done|].
      unfold padded. rewrite Nat.mod_1_r. cbn. by rewrite app_nil_r. }
  rewrite !M_bind_eq. unfold on_flash at 1. rewrite u32_wrap_small by (unfold is_u32; lia).
  pose proof (finish_spec (hal_refuse env) word (concat (hal_reads w1)) a' (hal_writes w1) Hok Hi ltac:(lia)) as Hf.
  rewrite Hlen in Hf. destruct (aligner_finish _ _ _) as [[[]|x] [a2 log]]; [|split; [exact S1|by eexists]].
  destruct Hf as (Hal & Hwr & _). set (w2 := mkHalWorld _ _ _ _ _ _ _).
  pose proof (benign_check w2) as [(R & W & X & A) He].
  destruct (chk w2) as [[[]|e] w3]; cbn [fst snd] in *; (split; [destruct S1; split; cbn in *; congruence|]); [|done].
  cbn in R, W. rewrite R, W. unfold hashed in *. by rewrite R.
Qed.

Lemma padded_length n stream m :
  n ≠ 0%nat → (length stream ≤ m)%nat → (m mod n = 0)%nat → (length (padded n stream) ≤ m)%nat.
Proof.
  intros Hn Hl Hm. unfold padded. rewrite length_app, length_replicate.
  pose proof (Nat.div_mod_eq (length stream) n) as H1. pose proof (Nat.div_mod_eq m n) as H2.
  pose proof (Nat.mod_upper_bound (length stream) n Hn) as H3. rewrite Hm, Nat.add_0_r in H2.
  destruct (decide (length stream `mod` n = 0)%nat) as [E|E].
  - rewrite E, Nat.sub_0_r, Nat.Div0.mod_same. lia.
  - rewrite (Nat.mod_small (n - _)) by lia. assert (length stream / n < m / n)%nat by (apply (Nat.mul_lt_mono_pos_l n); lia). nia.
Qed.

Lemma span_covers content_length max_bytes stream :
  flash_ok → next_partition env = Some max_bytes → 0 < content_length ≤ max_bytes →
  Z.of_nat (length stream) = content_length →
  span_of content_length max_bytes mod SECTOR_SIZE env = 0 ∧
  Z.of_nat (length (padded word stream)) ≤ span_of content_length max_bytes ≤ max_bytes.
Proof.
  intros (Hok & Hs0 & Hsw & Hcap) Hp Hcl Hlen. rewrite Hp in Hcap. destruct (write_size_cases word Hok) as [Hw1 Hw0].
  destruct (round_up_cover content_length (SECTOR_SIZE env) max_bytes) as (_ & H1 & H2); [done|lia|done|apply Hcap|].
  fold (span_of content_length max_bytes) in H1, H2. split; [done|]. split; [|lia].
  assert (span_of content_length max_bytes mod Z.of_nat word = 0) as Hm.
  { apply Z.mod_divide; [lia|]. apply Z.mod_divide in H2; [|lia]. apply Z.mod_divide in Hsw; [|lia]. by etrans. }
  pose proof (padded_length word stream (Z.to_nat (span_of content_length max_bytes)) Hw0 ltac:(lia)) as Hl.
  apply Nat2Z.inj_le in Hl; [lia|]. apply Nat2Z.inj. rewrite Nat2Z.inj_mod, Z2Nat.id by lia. done.
Qed.

Context (sha256 : list Z → list Z).
(** Hashing in pieces is hashing the whole. *)
Context (sha_streams : ∀ chunks, sha_finalize (foldl sha_update sha_new chunks) = sha256 (concat chunks)).


End specs.

(** A server whose header and body come in three pieces, the last with bytes to spare. *)
Definition sample_head : bytes :=
  as_bytes "HTTP/1.1 200 OK" ++ CRLF ++ as_bytes "Content-Length: 6" ++ HEADER_END.
Definition sample_image : bytes := [233; 1; 2; 3; 4; 5].
Definition sample_pieces : list bytes := [take 10 sample_head; drop 10 sample_head ++ take 2 sample_image; drop 2 sample_image ++ [7]].

Definition calm_env : HalEnv :=
  mkHalEnv (λ _, 0) (λ _ _, false) true (Some 8192) true false (λ _, false) false 4 4096.
Definition sample_deadline : Deadline := Deadline_after (from_secs 60).

(** Hashing that keeps every byte. *)
Definition keep_update (h chunk : list Z) : list Z := h ++ chunk.

Lemma keep_streams chunks : foldl keep_update [] chunks = concat chunks.
Proof.
  enough (∀ h, foldl keep_update h chunks = h ++ concat chunks) as H by apply H.
  induction chunks as [|c chunks IH]; intros h; cbn; [by rewrite app_nil_r|]. rewrite IH. unfold keep_update. by rewrite app_assoc.
Qed.


(** ** the bare-metal update succeeds when nothing fails

    The socket is a list of segments, so that every read may be cut short. *)

Definition segments (s : list bytes) : Prop := Forall (λ seg, seg ≠ []) s.

Lemma seg_read n s data :
  segments s → concat s = data → data ≠ [] → (0 < n)%nat →
  ∃ k s', (1 ≤ k ≤ n)%nat ∧ (k ≤ length data)%nat ∧ sock_read_into n s = (Ok (take k data), s') ∧
          concat s' = drop k data ∧ segments s'.
Proof.
  intros Hs Hd Hne Hn. destruct s as [|seg s]; [by subst|]. apply Forall_cons in Hs as [Hseg Hs].
  assert (0 < length seg)%nat as Hl by (destruct seg; [done|cbn; lia]). subst data. cbn [concat].
  unfold sock_read_into. rewrite M_bind_eq. cbn [sock_recv seg_socket].
  destruct (Nat.leb_spec (length seg) n).
  - exists (length seg), s. rewrite !length_app. split_and!; try lia; [|by rewrite drop_app_length|done].
    rewrite take_app_length, !take_ge; rewrite ?length_take; try lia; done.
  - exists n, (drop n seg :: s). rewrite !length_app. split_and!; try lia.
    + rewrite take_app_le, take_take, Nat.min_id by lia. done.
    + cbn. by rewrite drop_app_le by lia.
    + constructor; [|done]. intros E. apply (f_equal length) in E. rewrite length_drop in E. cbn in E. lia.
Qed.

(** The header ends at its first blank line. *)
Definition header_ends (header : bytes) : Prop :=
  (4 ≤ length header ≤ HEADER_BUF)%nat ∧ drop (length header - 4) header = HEADER_END ∧
  ∀ k, (4 ≤ k < length header)%nat → drop (k - 4) (take k header) ≠ HEADER_END.

Lemma read_headers_seg header fuel filled rest tail s :
  header_ends header → header = filled ++ rest → rest ≠ [] → (length rest ≤ fuel)%nat →
  segments s → concat s = rest ++ tail →
  ∃ s', read_headers fuel filled s = (Ok header, s') ∧ segments s' ∧ concat s' = tail.
Proof.
  intros (Hl & Hend & Hno). revert filled rest s. induction fuel as [|fuel IH]; intros filled rest s Hh Hne Hf Hs Hc;
    (destruct rest as [|b rest]; [done|]); cbn [length] in Hf; [lia|]. cbn [read_headers].
  destruct (seg_read 1 s _ Hs Hc ltac:(done) ltac:(lia)) as (k & s' & Hk & _ & E & Hc' & Hs').
  assert (k = 1%nat) as -> by lia. rewrite M_bind_eq, E. cbn [map_err take]. cbn in Hc'. rewrite drop_0 in Hc'.
  change (take 1 ((b :: rest) ++ tail)) with [b]. cbv iota. set (f := filled ++ [b]).
  assert (header = f ++ rest) as Hh' by (unfold f; by rewrite <- app_assoc).
  assert (f = take (length f) header) as Hft by (rewrite Hh'; by rewrite take_app_length).
  destruct (decide (rest = [])) as [->|Hr].
  - rewrite app_nil_r in Hh'. assert ((4 <=? length f)%nat && bool_decide (drop (length f - 4) f = HEADER_END) = true) as ->.
    { rewrite <- Hh'. rewrite (proj2 (Nat.leb_le _ _)) by lia. by apply bool_decide_eq_true. }
    exists s'. by rewrite <- Hh'.
  - assert (length header = length f + length rest)%nat as Hlen by (by rewrite Hh', length_app).
    assert (0 < length rest)%nat by (destruct rest; [done|cbn; lia]).
    assert ((4 <=? length f)%nat && bool_decide (drop (length f - 4) f = HEADER_END) = false) as ->.
    { apply not_true_iff_false. intros [H1%Nat.leb_le H2%bool_decide_eq_true]%andb_true_iff.
      apply (Hno (length f)); [lia|]. by rewrite <- Hft. }
    apply (IH f rest s' Hh' Hr); [lia|done|done].
Qed.

Lemma write_request_seg req (s : list bytes) : write_request (length req) req s = (Ok tt, s).
Proof.
  destruct req as [|q req]; [done|]. cbn [length write_request]. rewrite M_bind_eq. cbn [sock_write seg_socket map_err length Nat.eqb].
  change (drop (S (length req)) (q :: req)) with (drop (length req) req). rewrite drop_all. by destruct (length req).
Qed.

Lemma fetch_get_seg u max_bytes header n tail req s :
  format_get_request REQ_BUF u = Ok req → header_ends header → parse_head max_bytes header = Ok n →
  segments s → concat s = header ++ tail →
  ∃ s', fetch_get u max_bytes s = (Ok n, s') ∧ segments s' ∧ concat s' = tail.
Proof.
  intros Hq Hh Hn Hs Hc. unfold fetch_get. rewrite M_bind_eq. unfold of_result at 1. rewrite Hq. cbn [map_err].
  rewrite M_bind_eq, write_request_seg, M_bind_eq.
  destruct (read_headers_seg header HEADER_BUF [] header tail s Hh eq_refl) as (s' & -> & Hs' & Hc'); [|apply Hh|done|done|].
  { intros ->. destruct Hh as [[H _] _]. cbn in H. lia. }
  exists s'. cbn [map_err]. unfold of_result. by rewrite Hn.
Qed.

(** A driver that refuses nothing makes no write fail. *)
Lemma push_accepted (refuse : wlog → option unit) offset bytes a log x :
  (∀ l, refuse l = None) → (push (recording refuse) offset bytes (a, log)).1 ≠ Err (AE_Write x).
Proof.
  intros Hr. unfold push, push_carry, push_whole, push_tail, mbind, M_bind, get_aligner, put_aligner, do_write, recording, throw, mret, M_ret.
  cbn [fst snd]. repeat (rewrite ?Hr; case_match; simplify_eq; cbn [fst snd map_err] in *; simplify_eq); try congruence.
Qed.

Lemma finish_accepted (refuse : wlog → option unit) stream_end a log x :
  (∀ l, refuse l = None) → (aligner_finish (recording refuse) stream_end (a, log)).1 ≠ Err (AE_Write x).
Proof.
  intros Hr. unfold aligner_finish, mbind, M_bind, get_aligner, put_aligner, do_write, recording, throw, mret, M_ret.
  cbn [fst snd]. repeat (rewrite ?Hr; case_match; simplify_eq; cbn [fst snd map_err] in *; simplify_eq); try congruence.
Qed.

Section live.
  Context {Sha256 : Type} (sha_new : Sha256) (sha_update : Sha256 → list Z → Sha256) (sha_finalize : Sha256 → list Z).
  Context (env : HalEnv) (timeout_secs : Z) (deadline : Deadline).

Local Abbreviation World := (HalWorld (list bytes)).
Local Abbreviation word := (WRITE_SIZE env).

(** No wait runs out, the deadline is never reached, and the flash refuses nothing. *)
Definition calm : Prop :=
  (∀ n l, expires env n l = false) ∧ (∀ t, deadline_check deadline (to_core (elapsed_us env t)) = Ok tt) ∧
  updater_ok env = true ∧ refuse_erase env = false ∧ (∀ l, refuse_write env l = false) ∧ refuse_activate env = false.

Context (Hcalm : calm).

Lemma calm_check (w : World) :
  ∃ w', check env deadline w = (Ok tt, w') ∧ same_flash w w' ∧ hal_sock w' = hal_sock w.
Proof using Hcalm.
  destruct Hcalm as (_ & Hd & _). unfold check. rewrite M_bind_eq. cbn [elapsed]. unfold of_result. rewrite Hd.
  eexists. split; [done|]. done.
Qed.

Lemma calm_timeout {E A} (m : M (list bytes) E A) (w : World) r s :
  m (hal_sock w) = (r, s) →
  ∃ w', with_timeout env timeout_secs deadline m w = (Ok (Some r), w') ∧ same_flash w w' ∧ hal_sock w' = s.
Proof using Hcalm.
  intros Hm. destruct Hcalm as (Hx & _). unfold with_timeout, budget. rewrite !M_bind_eq. cbn [elapsed mret M_ret].
  unfold wait_for. cbn [hal_sock]. rewrite Hm, Hx. eexists. split; [done|]. done.
Qed.

Lemma refuses_nothing l : hal_refuse env l = None.
Proof using Hcalm. unfold hal_refuse. destruct Hcalm as (_ & _ & _ & _ & H & _). by rewrite H. Qed.

Lemma read_chunk_live remaining (w : World) rest tail :
  segments (hal_sock w) → concat (hal_sock w) = rest ++ tail → Z.of_nat (length rest) = remaining → 0 < remaining ≤ u32_max →
  ∃ k w', (1 ≤ k ≤ length rest)%nat ∧ read_chunk env timeout_secs deadline remaining w = (Ok (take k rest), w') ∧
          same_flash w w' ∧ segments (hal_sock w') ∧ concat (hal_sock w') = drop k rest ++ tail.
Proof using Hcalm.
  intros Hs Hc Hr Hpos. unfold read_chunk. rewrite u32_wrap_small by (unfold is_u32; lia).
  set (n := Nat.min (Z.to_nat remaining) CHUNK_LEN). assert (0 < n ≤ length rest)%nat as Hn by (unfold n, CHUNK_LEN; lia).
  destruct (seg_read n _ _ Hs Hc) as (k & s' & Hk & _ & E & Hc' & Hs'); [destruct rest; [cbn in *; lia|done]|lia|].
  destruct (calm_timeout _ w _ _ E) as (w' & Ew & Hf & Hsock). rewrite M_bind_eq, Ew.
  exists k, w'. rewrite take_app_le, drop_app_le in * by lia. rewrite Hsock. split_and!; try done; lia.
Qed.

Lemma sink_write_live stream chunk a (w : World) :
  write_size_ok word = true → chunk ≠ [] → Z.of_nat (length stream + length chunk) + Z.of_nat word ≤ u32_max →
  sink_inv env stream a w →
  ∃ a' w', sink_write env (Z.of_nat (length stream)) chunk a w = (Ok a', w') ∧ hal_sock w' = hal_sock w ∧
           hal_reads w' = hal_reads w ∧ sink_inv env (stream ++ chunk) a' w'.
Proof using Hcalm.
  intros Hok Hc Hmax Hi. pose proof (sink_write_spec env stream chunk a w Hok Hc Hmax Hi) as H.
  unfold sink_write, sink_inv, on_flash in *. destruct (nor_capable env).
  - pose proof (push_spec (hal_refuse env) word stream a (hal_writes w) chunk Hok Hi Hmax) as Hp.
    pose proof (λ x, push_accepted (hal_refuse env) (Z.of_nat (length stream)) chunk a (hal_writes w) x refuses_nothing) as Ha.
    destruct (push _ _ _ _) as [[[]|e] [a' log']]; [|destruct Hp as [[x ->] _]; by destruct (Ha x)].
    eexists a', _. split; [done|]. done.
  - unfold do_write, recording in *. rewrite refuses_nothing in *. cbn in *. eexists a, _. split; [done|].
    split; [done|]. split; [done|]. apply H.
Qed.

Lemma body_loop_live content_length fuel remaining a v (w : World) rest tail :
  write_size_ok word = true → 0 ≤ remaining ≤ Z.of_nat fuel → content_length + Z.of_nat word ≤ u32_max →
  content_length = Z.of_nat (length (concat (hal_reads w))) + remaining → Z.of_nat (length rest) = remaining →
  segments (hal_sock w) → concat (hal_sock w) = rest ++ tail →
  sink_inv env (concat (hal_reads w)) a w → hashed sha_new sha_update v w →
  ∃ a' v' w', body_loop sha_update env timeout_secs deadline fuel content_length remaining a v w = (Ok (a', v'), w') ∧
    concat (hal_reads w') = concat (hal_reads w) ++ rest ∧ sink_inv env (concat (hal_reads w')) a' w' ∧
    hashed sha_new sha_update v' w'.
Proof using Hcalm.
  intros Hok. revert remaining a v w rest. induction fuel as [|fuel IH];
    intros remaining a v w rest Hr Hmax Hcl Hrest Hs Hc Hi Hh; cbn [body_loop].
  { rewrite (proj2 (Z.leb_le _ _)) by lia. destruct rest; [|cbn in *; lia]. rewrite app_nil_r. by exists a, v, w. }
  destruct (Z.leb_spec remaining 0); [destruct rest; [|cbn in *; lia]; rewrite app_nil_r; by exists a, v, w|].
  destruct (read_chunk_live remaining w rest tail Hs Hc Hrest ltac:(lia)) as (k & w1 & Hk & E1 & (R1 & W1 & _) & Hs1 & Hc1).
  rewrite M_bind_eq, E1. set (chunk := take k rest) in *.
  assert (length chunk = k) as Hlk by (unfold chunk; rewrite length_take; lia).
  assert (chunk ≠ []) as Hne by (intros E; rewrite E in Hlk; cbn in Hlk; lia).
  rewrite decide_False by done. rewrite M_bind_eq. cbn [note_read]. set (w2 := mkHalWorld _ _ _ _ _ _ _).
  destruct (calm_check w2) as (w3 & E3 & (R3 & W3 & _) & S3). rewrite M_bind_eq, E3. cbv zeta. rewrite M_bind_eq.
  assert (hal_reads w3 = hal_reads w ++ [chunk] ∧ hal_writes w3 = hal_writes w) as [Rw Ww]
    by (rewrite R3, W3; cbn; by rewrite R1, W1).
  replace (u32_wrap (content_length - remaining)) with (Z.of_nat (length (concat (hal_reads w))))
    by (rewrite u32_wrap_small by (unfold is_u32; lia); lia).
  destruct (sink_write_live (concat (hal_reads w)) chunk a w3 Hok Hne ltac:(lia)) as (a' & w4 & E4 & S4 & R4 & Hi4);
    [unfold sink_inv in *; by rewrite Ww|].
  rewrite E4. destruct (calm_check w4) as (w5 & E5 & (R5 & W5 & _) & S5). rewrite M_bind_eq, E5.
  assert (concat (hal_reads w5) = concat (hal_reads w) ++ chunk) as Hcat
    by (rewrite R5, R4, Rw, concat_app; cbn; by rewrite app_nil_r).
  assert (hal_sock w5 = hal_sock w1) as Hsock by (rewrite S5, S4, S3; done).
  destruct (IH (remaining - Z.of_nat (length chunk)) a' (verifier_update sha_update chunk v) w5 (drop k rest))
    as (a6 & v6 & w6 & E6 & C6 & I6 & H6).
  - lia.
  - done.
  - rewrite Hcat, length_app. lia.
  - rewrite length_drop. lia.
  - by rewrite Hsock.
  - by rewrite Hsock.
  - rewrite Hcat. unfold sink_inv in *. by rewrite W5.
  - unfold hashed in *. rewrite R5, R4, Rw, foldl_snoc. cbn. by rewrite Hh.
  - exists a6, v6, w6. split; [done|]. split; [|done]. rewrite C6, Hcat, <- app_assoc. unfold chunk. by rewrite take_drop.
Qed.

Lemma prepare_live url u req cap header n tail s :
  parse_url url = Ok u → format_get_request REQ_BUF u = Ok req → next_partition env = Some cap → write_size_ok word = true →
  header_ends header → parse_head cap header = Ok n → segments s → concat s = header ++ tail →
  ∃ a w, prepare env timeout_secs deadline url (hal_init s) = (Ok (n, a), w) ∧ ChunkAligner_new word = Some a ∧
         hal_reads w = [] ∧ hal_writes w = [] ∧ hal_activations w = [] ∧ segments (hal_sock w) ∧ concat (hal_sock w) = tail.
Proof using Hcalm.
  intros Hu Hq Hp Hok Hh Hn Hs Hc. destruct Hcalm as (_ & _ & Hup & Her & _).
  destruct (fetch_get_seg u cap header n tail req s Hq Hh Hn Hs Hc) as (s' & Ef & Hs' & Hc').
  unfold prepare. destruct (calm_check (hal_init s)) as (w1 & E1 & F1 & S1). rewrite M_bind_eq, E1, M_bind_eq, Hu.
  cbn [of_result map_err]. rewrite Hup, Hp. cbn [negb]. destruct (calm_check w1) as (w2 & E2 & F2 & S2). rewrite M_bind_eq, E2.
  destruct (calm_timeout (fetch_get u cap) w2 (Ok n) s') as (w3 & E3 & F3 & S3); [by rewrite S2, S1|].
  rewrite M_bind_eq, E3, M_bind_eq. cbn [of_result map_err]. destruct (calm_check w3) as (w4 & E4 & F4 & S4). rewrite M_bind_eq, E4.
  destruct (ChunkAligner_new word) as [a|] eqn:Ea; [|unfold ChunkAligner_new in Ea; by rewrite Hok in Ea].
  assert (same_flash (hal_init s) w4) as F by (do 3 (eapply same_flash_trans; [eassumption|]); done).
  destruct F as (R & W & X & A). rewrite M_bind_eq. cbv zeta.
  set (m := if nor_capable env then _ else _).
  assert (∃ w5, m w4 = (Ok tt, w5) ∧ hal_reads w5 = [] ∧ hal_writes w5 = [] ∧ hal_activations w5 = [] ∧ hal_sock w5 = s') as (w5 & -> & R5 & W5 & A5 & S5).
  { unfold m. destruct (nor_capable env); [unfold erase; rewrite Her|]; eexists; (split; [done|]); cbn in *; split_and!; congruence. }
  destruct (calm_check w5) as (w6 & E6 & (R6 & W6 & _ & A6) & S6). rewrite M_bind_eq, E6.
  exists a, w6. rewrite S6, S5. split_and!; try done; congruence.
Qed.

Lemma download_live n a cap (w : World) body tail :
  flash_ok env → next_partition env = Some cap → 0 < n ≤ cap → ChunkAligner_new word = Some a →
  hal_reads w = [] → hal_writes w = [] → Z.of_nat (length body) = n →
  segments (hal_sock w) → concat (hal_sock w) = body ++ tail →
  ∃ v w', download sha_new sha_update env timeout_secs deadline n a w = (Ok v, w') ∧ concat (hal_reads w') = body ∧
          hashed sha_new sha_update v w'.
Proof using Hcalm.
  intros (Hok & _ & _ & Hcap) Hp Hn Ha Hr Hw Hb Hs Hc. rewrite Hp in Hcap.
  unfold ChunkAligner_new in Ha. rewrite Hok in Ha. unfold download. rewrite M_bind_eq.
  set (al := mkAligner word (replicate MAX_WRITE_SIZE 0) 0 0) in Ha. assert (a = al) as -> by congruence. destruct (write_size_cases word Hok) as [Hw1 Hw0].
  destruct (body_loop_live n (Z.to_nat n) n al (StreamingVerifier_new sha_new) w body tail) as (a' & v & w1 & E & C & I & H);
    try done; [lia|lia|rewrite Hr; cbn; lia| |by unfold hashed; rewrite Hr|].
  { rewrite Hr. unfold sink_inv, al_inv. rewrite Hw. destruct (nor_capable env); cbn; split_and!; try done; lia. }
  rewrite Hr in C. cbn in C. rewrite E. cbn [fst snd]. unfold sink_inv in I.
  destruct (nor_capable env); [|rewrite M_bind_eq; by exists v, w1].
  rewrite !M_bind_eq. unfold on_flash at 1. rewrite u32_wrap_small by (unfold is_u32; lia). rewrite C in I.
  pose proof (finish_spec (hal_refuse env) word body a' (hal_writes w1) Hok I ltac:(lia)) as Hf. rewrite Hb in Hf.
  pose proof (λ x, finish_accepted (hal_refuse env) n a' (hal_writes w1) x refuses_nothing) as Hx.
  destruct (aligner_finish _ _ _) as [[[]|x] [a2 log]]; [|destruct Hf as [[x' ->] _]; by destruct (Hx x')].
  set (w2 := mkHalWorld _ _ _ _ _ _ _). destruct (calm_check w2) as (w3 & E3 & (R & _) & _). rewrite E3.
  exists v, w3. split; [done|]. unfold hashed in *. by rewrite R.
Qed.

Context (sha256 : list Z → list Z).
Context (sha_streams : ∀ chunks, sha_finalize (foldl sha_update sha_new chunks) = sha256 (concat chunks)).

(** C33: The bare-metal update is not refused for the way its bytes arrive. A server that answers with a well-formed header and the promised image, cut by the network into any pieces, has its image read to the last byte, activated and reported a success, on an open connection as on a closed one, when no wait runs out and the flash refuses nothing. *)
Theorem hal_update_applies (url : string) (u : ParsedUrl) (req : bytes) (cap : Z) (header body tail : bytes) (s : list bytes) :
  flash_ok env → parse_url url = Ok u → format_get_request REQ_BUF u = Ok req → next_partition env = Some cap →
  header_ends header → parse_head cap header = Ok (Z.of_nat (length body)) →
  segments s → concat s = header ++ body ++ tail →
  let '(r, w) := fetch_and_apply sha_new sha_update sha_finalize env timeout_secs deadline url (sha256 body) (hal_init s) in
  r = Ok tt ∧ concat (hal_reads w) = body ∧ length (hal_activations w) = 1%nat.
Proof using sha_streams Hcalm.
  intros Hok Hu Hq Hp Hh Hn Hs Hc. pose proof (proj1 (parse_head_strict _ _ _ Hn)) as Hcl.
  destruct (prepare_live url u req cap header _ (body ++ tail) s Hu Hq Hp (proj1 Hok) Hh Hn Hs Hc) as (a & w1 & E1 & Ha & R1 & W1 & A1 & S1 & C1).
  pose proof (download_spec sha_new sha_update env timeout_secs deadline _ a w1 cap Hok Hp Hcl Ha R1 W1) as Hd.
  destruct (download_live _ a cap w1 body tail Hok Hp Hcl Ha R1 W1 eq_refl S1 C1) as (v & w2 & E2 & C2 & H2).
  rewrite E2 in Hd. destruct Hd as [[_ A2] _].
  unfold fetch_and_apply. rewrite M_bind_eq, E1. cbn [fst snd]. rewrite M_bind_eq, E2. unfold commit, verifier_finalize.
  rewrite H2, sha_streams, C2, decide_True by done. destruct (calm_check w2) as (w3 & E3 & (R3 & _ & _ & A3) & _).
  rewrite M_bind_eq, E3, M_bind_eq. cbn [elapsed]. rewrite M_bind_eq. unfold permit_activation, of_result.
  destruct Hcalm as (_ & Hdl & _ & _ & _ & Hact). rewrite Hdl. cbn [map_err mbind result_bind]. unfold activate. rewrite Hact.
  cbn. rewrite R3, A3, A2, A1. done.
Qed.

End live.

Lemma calm_env_calm : calm calm_env sample_deadline.
Proof. by unfold calm. Qed.

Lemma hal_update_applies_witness :
  let '(r, w) := fetch_and_apply [] keep_update (λ h, h) calm_env 5 sample_deadline "http://10.0.0.2:8080/fw.bin?v=2"
                   sample_image (hal_init sample_pieces) in
  r = Ok tt ∧ concat (hal_reads w) = sample_image ∧ length (hal_activations w) = 1%nat.
Proof.
  apply (hal_update_applies [] keep_update (λ h, h) calm_env 5 sample_deadline calm_env_calm (λ d, d) keep_streams
           "http://10.0.0.2:8080/fw.bin?v=2" (mkUrl "10.0.0.2" 8080 "/fw.bin" "?v=2")
           (as_bytes "GET /fw.bin?v=2 HTTP/1.1" ++ CRLF ++ as_bytes "Host: 10.0.0.2:8080" ++ CRLF ++ as_bytes "Connection: close" ++ HEADER_END)
           8192 sample_head sample_image [7] sample_pieces).
  - by vm_compute.
  - by vm_compute.
  - by vm_compute.
  - done.
  - split; [vm_compute; lia|]. split; [by vm_compute|]. intros k Hk. vm_compute in Hk.
    assert (∃ j, k = (4 + j)%nat ∧ (j < 34)%nat) as (j & -> & Hj) by (exists (k - 4)%nat; lia).
    do 34 (destruct j as [|j]; [by vm_compute|]). lia.
  - by vm_compute.
  - repeat constructor; done.
  - by vm_compute.
Defined.
