(* ===== verification/HalMqtt.v ===== *)
(** * HalMqtt: the MQTT client of the bare-metal tier ([mqtt/mod.rs] and [mqtt/runner.rs] of
    [rustyfarian-esp-hal-network])

    The runner is one task; what it awaits (the stack, the socket, [minimq], the timers) is
    third-party code and answers as an event.  Between two awaits it runs undisturbed but for the
    locks: an operation under a lock is one step of its own where another task could see it. *)
From Stdlib Require Import Ascii.
From S2P Require Import Prelude Text Dhcp WifiHal MqttSession MqttOutbox MqttTopics MqttConfig.
Open Scope Z_scope.
Open Scope rn_scope.

(** ** Data and validation *)

Definition MAX_TOPIC_LEN : Z := 64.
Definition MAX_PAYLOAD_LEN : Z := 256.
Definition MAX_SUBSCRIPTIONS : nat := 8.
Definition PUBLISH_QUEUE_DEPTH : nat := 4.
Definition INBOUND_QUEUE_DEPTH : nat := 4.
Definition DEFAULT_KEEP_ALIVE_SECS : Z := 30.
Definition DEFAULT_CONNECTION_TIMEOUT_MS : Z := 5000.
Definition DEFAULT_RECONNECT_TIMEOUT_MS : Z := 10000.
Definition PUBLISH_ATTEMPTS : nat := 3.
Definition CONNECTED_WAITERS : nat := 4.

Inductive MqttError :=
| HM_InvalidConfig (what : string) | HM_AlreadyBuilt | HM_TopicTooLong | HM_PayloadTooLarge
| HM_InvalidTopic (why : string) | HM_TooManySubscriptions.

Inductive TryPublishError := WouldBlock | TP_Other (e : MqttError).

Record InboundMessage := mkInbound { in_topic : string; in_payload : list Z; in_retained : bool; in_qos : QoS }.

Record PublishRequest := mkRequest { pr_topic : string; pr_payload : list Z; pr_qos : QoS; pr_retain : bool }.

(** [heapless::String::try_from] and [heapless::Vec::from_slice]. *)
Definition fit_topic (topic : string) : option string := if str_len topic <=? MAX_TOPIC_LEN then Some topic else None.
Definition fit_payload (payload : list Z) : option (list Z) :=
  if Z.of_nat (length payload) <=? MAX_PAYLOAD_LEN then Some payload else None.

Definition copy_from (topic : string) (payload : list Z) (retained : bool) (qos : QoS) : option InboundMessage :=
  topic ← fit_topic topic; payload ← fit_payload payload; Some (mkInbound topic payload retained qos).

Definition PublishRequest_new (topic : string) (payload : list Z) (qos : QoS) (retain : bool) : result MqttError PublishRequest :=
  _ ← map_err HM_InvalidTopic (validate_publish_topic topic);
  topic ← (match fit_topic topic with Some t => Ok t | None => Err HM_TopicTooLong end);
  payload ← (match fit_payload payload with Some p => Ok p | None => Err HM_PayloadTooLarge end);
  Ok (mkRequest topic payload qos retain).

(** [Ipv4Addr::from_str]: four decimal bytes, without leading zeros. *)
Definition parse_octet (s : string) : option Z :=
  if (str_len s <=? 3) && str_forall is_digit s && (bool_decide (s = "0") || negb (bool_decide (String.get 0 s = Some "0"%char)))
  then match parse_u16 s with Some n => if n <=? 255 then Some n else None | None => None end
  else None.

Definition parse_broker_ipv4 (host : string) : result MqttError Ipv4Addr :=
  match map parse_octet (split "." (trim host)) with
  | [Some a; Some b; Some c; Some d] => Ok (mkIp a b c d)
  | _ => Err (HM_InvalidConfig "host must be an IPv4 literal on the esp-hal tier")
  end.

Definition keep_alive_of (c : MqttConfig) : Z := default DEFAULT_KEEP_ALIVE_SECS (keep_alive_secs c).

Definition KEEP_ALIVE_RANGE : string := "keep_alive_secs must be 1..=65535".

Definition validate_config (c : MqttConfig) : result MqttError unit :=
  _ ← parse_broker_ipv4 (host c);
  _ ← map_err HM_InvalidConfig (validate_broker_port (port c));
  _ ← map_err HM_InvalidConfig (validate_client_id (client_id c));
  _ ← (match mc_lwt c with
       | Some lwt =>
           _ ← map_err HM_InvalidConfig (validate_publish_topic (lwt_topic lwt));
           if MAX_TOPIC_LEN <? str_len (lwt_topic lwt) then Err (HM_InvalidConfig "lwt topic too long") else Ok tt
       | None => Ok tt
       end);
  if (keep_alive_of c =? 0) || (u16_max <? keep_alive_of c) then Err (HM_InvalidConfig KEEP_ALIVE_RANGE) else Ok tt.

(** [u64] arithmetic that saturates. *)
Definition u64_mul (a b : Z) : Z := Z.min u64_max (a * b).
Definition u64_add (a b : Z) : Z := Z.min u64_max (a + b).

Definition socket_timeout_ms (keep_alive_secs : Z) : Z :=
  let scaled := u64_mul keep_alive_secs 1500 in
  let floor := u64_add (u64_mul keep_alive_secs 1000) 5000 in
  if floor <? scaled then scaled else floor.

Definition stall_timeout_ms (keep_alive_secs : Z) : Z := u64_add (socket_timeout_ms keep_alive_secs) (u64_mul keep_alive_secs 1000).

Definition clamp_qos (q : QoS) : QoS := match q with ExactlyOnce => AtLeastOnce | other => other end.

(** ** The builder *)

Record StartupMessage := mkStartup { sm_topic : string; sm_payload : list Z; sm_qos : QoS; sm_retain : bool }.

Record MqttBuilder := mkBuilder {
  b_config : MqttConfig; b_subscriptions : list (string * QoS); b_startup : option StartupMessage; overflow : bool }.

Definition MqttBuilder_new (c : MqttConfig) : MqttBuilder := mkBuilder c [] None false.

Definition builder_subscribe (topic : string) (qos : QoS) (b : MqttBuilder) : MqttBuilder :=
  if (length (b_subscriptions b) <? MAX_SUBSCRIPTIONS)%nat then
    mkBuilder (b_config b) (b_subscriptions b ++ [(topic, clamp_qos qos)]) (b_startup b) (overflow b)
  else mkBuilder (b_config b) (b_subscriptions b) (b_startup b) true.

Definition with_startup_message (topic : string) (payload : list Z) (qos : QoS) (retain : bool) (b : MqttBuilder) : MqttBuilder :=
  mkBuilder (b_config b) (b_subscriptions b) (Some (mkStartup topic payload (clamp_qos qos) retain)) (overflow b).

(** What the runner is built with. *)
Record HalRunnerConfig := mkHalRunnerConfig {
  subscriptions : list (string * QoS); startup : option StartupMessage; broker : Ipv4Addr * Z;
  connection_timeout : Z; stall : Z; socket_timeout : Z; reconnect_ms : Z }.

Definition validate_filters (l : list (string * QoS)) : result MqttError unit :=
  foldr (λ tq r, _ ← map_err HM_InvalidTopic (validate_subscribe_filter tq.1); r) (Ok tt) l.

(** The static cells are taken at most once; [build_session] is what [minimq] says of the
    credentials and the will.  The state is whether the cells are taken. *)
Definition build (b : MqttBuilder) (build_session : result MqttError unit) : M bool MqttError HalRunnerConfig := λ built,
  match (_ ← validate_config (b_config b);
         _ ← (if overflow b then Err HM_TooManySubscriptions else Ok tt);
         _ ← validate_filters (b_subscriptions b);
         _ ← (match b_startup b with
              | Some m => map_err HM_InvalidTopic (validate_publish_topic (sm_topic m))
              | None => Ok tt
              end);
         parse_broker_ipv4 (host (b_config b))) with
  | Err e => (Err e, built)
  | Ok ip =>
      if built then (Err HM_AlreadyBuilt, built)
      else
        let c := b_config b in
        (_ ← build_session;
         Ok (mkHalRunnerConfig (b_subscriptions b) (b_startup b) (ip, port c)
               (default DEFAULT_CONNECTION_TIMEOUT_MS (connection_timeout_ms c)) (stall_timeout_ms (keep_alive_of c))
               (socket_timeout_ms (keep_alive_of c)) (default DEFAULT_RECONNECT_TIMEOUT_MS (reconnect_timeout_ms c))), true)
  end.

(** ** The runner *)

Inductive PubReply := PR_Ok | PR_NotReady | PR_Resource | PR_InvalidRequest | PR_Err | PR_Stalled.
Inductive DriveReply := DR_Ok | DR_Err | DR_Stalled.

(** What [publish_queued] does after a reply: it is done, gives the message up, ends the session,
    or drives the session before it tries again. *)
Inductive PubTurn := PT_Done | PT_Dropped | PT_End | PT_Drive.

Definition publish_turn (attempt : nat) (r : PubReply) : PubTurn :=
  match r with
  | PR_Ok => PT_Done
  | PR_NotReady => if (attempt <? PUBLISH_ATTEMPTS)%nat then PT_Drive else PT_Dropped
  | PR_Resource | PR_InvalidRequest => PT_Dropped
  | PR_Err | PR_Stalled => PT_End
  end.

(** The request made of the startup message: what does not fit is left out. *)
Definition startup_request (m : StartupMessage) : PublishRequest :=
  mkRequest (default "" (fit_topic (sm_topic m))) (default [] (fit_payload (sm_payload m))) (sm_qos m) (sm_retain m).

(** Whose publish it is: the startup message of the connect work, or a request of the queue. *)
Inductive Publisher := Startup (token : SessionToken) | Queued.

(** What [connect_event] of [minimq] says of a CONNACK: the one constructor the code names, and the rest. *)
Inductive ConnectEvent := CE_Connected | CE_Reconnected.

#[export] Instance ConnectEvent_eq_dec : EqDecision ConnectEvent.
Proof. solve_decision. Defined.

(** Where the runner awaits: the network, the idle pause, the TCP connect, the handshake, a
    subscribe (the first of the rest), a publish or the drive before the next attempt, the wake-up
    of the waiters, the session and the queue, the end of [close] before an action, the same before
    the machine is told, and the pause before the next attempt. *)
Inductive HalRunPc :=
| R_Gate | R_Idle | R_Tcp | R_Mqtt | R_Sub (token : SessionToken) (rest : list (string * QoS))
| R_Pub (who : Publisher) (request : PublishRequest) (attempt : nat) (driving : bool)
| R_Wake | R_Poll | R_Close (next : SessionAction) | R_Shut | R_Wait (ms : Z).

(** The calls into the session, in order. *)
Inductive SessionCall :=
| SC_Session (event : ConnectEvent) | SC_Subscribe (tq : string * QoS) (acked : bool)
| SC_Publish (who : Publisher) (request : PublishRequest) (reply : PubReply) | SC_Drive (who : Publisher) (reply : DriveReply)
| SC_Dropped (who : Publisher) (request : PublishRequest) | SC_End.

(** What became of a request of the queue. *)
Inductive Fate := F_Sent | F_Dropped | F_Lost.

(** A task in [publish_with] or between the check and the send of [try_publish_with]. *)
Record Caller := mkCaller { cl_request : PublishRequest; cl_waits : bool }.

(** A call of [wait_connected], with the waker of its task: about to register, registered or
    refused and about to check, asleep until woken or until its timer, and done.  A wake-up in
    between makes the executor poll it again. *)
Inductive ConnWaitPc := WP_Register | WP_Check (registered woken : bool) | WP_Asleep | WP_Timer | WP_Done.
Record HalWaiter := mkHalWaiter { hw_waker : Z; hw_pc : ConnWaitPc }.

(** The last five are what happened: the requests the queue took, what became of those the runner
    took, the calls, the inbound messages that fit, and those a consumer took. *)
Record HalRun := mkHalRun {
  machine : SessionMachine; publish_q : list PublishRequest; inbound_q : list InboundMessage; connected : WakerSlots;
  dropped_inbound : Z; dropped_publish : Z; pc : HalRunPc; callers : list Caller; waiters : list HalWaiter;
  accepted : list PublishRequest; fates : list (PublishRequest * Fate); calls : list SessionCall;
  arrived : list InboundMessage; consumed : list InboundMessage }.

Definition with_machine x s := mkHalRun x (publish_q s) (inbound_q s) (connected s) (dropped_inbound s) (dropped_publish s) (pc s) (callers s) (waiters s) (accepted s) (fates s) (calls s) (arrived s) (consumed s).
Definition with_publish_q x s := mkHalRun (machine s) x (inbound_q s) (connected s) (dropped_inbound s) (dropped_publish s) (pc s) (callers s) (waiters s) (accepted s) (fates s) (calls s) (arrived s) (consumed s).
Definition with_inbound_q x s := mkHalRun (machine s) (publish_q s) x (connected s) (dropped_inbound s) (dropped_publish s) (pc s) (callers s) (waiters s) (accepted s) (fates s) (calls s) (arrived s) (consumed s).
Definition with_connected x s := mkHalRun (machine s) (publish_q s) (inbound_q s) x (dropped_inbound s) (dropped_publish s) (pc s) (callers s) (waiters s) (accepted s) (fates s) (calls s) (arrived s) (consumed s).
Definition with_dropped_inbound x s := mkHalRun (machine s) (publish_q s) (inbound_q s) (connected s) x (dropped_publish s) (pc s) (callers s) (waiters s) (accepted s) (fates s) (calls s) (arrived s) (consumed s).
Definition with_dropped_publish x s := mkHalRun (machine s) (publish_q s) (inbound_q s) (connected s) (dropped_inbound s) x (pc s) (callers s) (waiters s) (accepted s) (fates s) (calls s) (arrived s) (consumed s).
Definition with_pc x s := mkHalRun (machine s) (publish_q s) (inbound_q s) (connected s) (dropped_inbound s) (dropped_publish s) x (callers s) (waiters s) (accepted s) (fates s) (calls s) (arrived s) (consumed s).
Definition with_callers x s := mkHalRun (machine s) (publish_q s) (inbound_q s) (connected s) (dropped_inbound s) (dropped_publish s) (pc s) x (waiters s) (accepted s) (fates s) (calls s) (arrived s) (consumed s).
Definition with_waiters x s := mkHalRun (machine s) (publish_q s) (inbound_q s) (connected s) (dropped_inbound s) (dropped_publish s) (pc s) (callers s) x (accepted s) (fates s) (calls s) (arrived s) (consumed s).
Definition with_accepted x s := mkHalRun (machine s) (publish_q s) (inbound_q s) (connected s) (dropped_inbound s) (dropped_publish s) (pc s) (callers s) (waiters s) x (fates s) (calls s) (arrived s) (consumed s).
Definition with_fates x s := mkHalRun (machine s) (publish_q s) (inbound_q s) (connected s) (dropped_inbound s) (dropped_publish s) (pc s) (callers s) (waiters s) (accepted s) x (calls s) (arrived s) (consumed s).
Definition with_calls x s := mkHalRun (machine s) (publish_q s) (inbound_q s) (connected s) (dropped_inbound s) (dropped_publish s) (pc s) (callers s) (waiters s) (accepted s) (fates s) x (arrived s) (consumed s).
Definition with_arrived x s := mkHalRun (machine s) (publish_q s) (inbound_q s) (connected s) (dropped_inbound s) (dropped_publish s) (pc s) (callers s) (waiters s) (accepted s) (fates s) (calls s) x (consumed s).
Definition with_consumed x s := mkHalRun (machine s) (publish_q s) (inbound_q s) (connected s) (dropped_inbound s) (dropped_publish s) (pc s) (callers s) (waiters s) (accepted s) (fates s) (calls s) (arrived s) x.

Definition HalShared_new (retry_ms : Z) : HalRun :=
  mkHalRun (with_retry retry_ms) [] [] (WakerSlots_new CONNECTED_WAITERS) 0 0 R_Gate [] [] [] [] [] [] [].

(** [Shared::poll], but for the wake-up, which is the step [R_Wake]. *)
Definition feed_machine (input : SessionInput) (s : HalRun) : SessionAction * HalRun :=
  let '(a, m) := poll input (machine s) in (a, with_machine m s).

Definition push_inbound (msg : InboundMessage) (s : HalRun) : HalRun :=
  let s := with_arrived (arrived s ++ [msg]) s in
  if (length (inbound_q s) <? INBOUND_QUEUE_DEPTH)%nat then with_inbound_q (inbound_q s ++ [msg]) s
  else with_dropped_inbound (dropped_inbound s ⊞ 1) (with_inbound_q (drop 1 (inbound_q s) ++ [msg]) s).

Definition note (c : SessionCall) (s : HalRun) : HalRun := with_calls (calls s ++ [c]) s.

(** A request of the queue is settled; the startup message is not one. *)
Definition settle_publish (who : Publisher) (request : PublishRequest) (f : Fate) (s : HalRun) : HalRun :=
  match who with Queued => with_fates (fates s ++ [(request, f)]) s | Startup _ => s end.

Section runner.
  Context (cfg : HalRunnerConfig).

(** [match action] of [run], up to the await of its arm. *)
Definition dispatch (a : SessionAction) (s : HalRun) : HalRun :=
  with_pc match a with
          | A_None => R_Gate
          | A_Connect => R_Tcp
          | A_Wait ms => R_Wait ms
          | A_Close | ConnectWork _ _ => R_Shut
          end s.

(** [serve] ended, or lost the race with [network_lost]: a publish on the way is lost with it. *)
Definition serve_ended (lost : bool) (s : HalRun) : HalRun :=
  let s := match pc s with R_Pub who request _ _ => settle_publish who request F_Lost s | _ => s end in
  let s := note SC_End s in
  let s := if lost then (feed_machine NetworkDown s).2 else s in
  let '(next, s) := feed_machine Disconnected s in
  with_pc (R_Close next) s.

(** The same behind [WorkFailed]. *)
Definition work_failed (token : SessionToken) (s : HalRun) : HalRun := serve_ended false (feed_machine (WorkFailed token) s).2.

Definition work_done (token : SessionToken) (s : HalRun) : HalRun := with_pc R_Wake (feed_machine (WorkDone token) s).2.

Definition begin_startup (token : SessionToken) (s : HalRun) : HalRun :=
  match startup cfg with
  | Some m => with_pc (R_Pub (Startup token) (startup_request m) 1 false) s
  | None => work_done token s
  end.

Definition next_subscribe (token : SessionToken) (rest : list (string * QoS)) (s : HalRun) : HalRun :=
  match rest with [] => begin_startup token s | _ => with_pc (R_Sub token rest) s end.

(** The arm behind a CONNACK. *)
Definition connack (event : ConnectEvent) (s : HalRun) : HalRun :=
  match feed_machine (Connected (negb (bool_decide (event = CE_Connected)))) s with
  | (ConnectWork token subscribe, s) =>
      next_subscribe token (if subscribe then subscriptions cfg else []) (note (SC_Session event) s)
  | (_, s) => serve_ended false s
  end.

(** [publish_queued] returned: with [Ok], or with the end of the session. *)
Definition published (who : Publisher) (s : HalRun) : HalRun :=
  match who with Startup token => work_done token s | Queued => with_pc R_Poll s end.
Definition publish_failed (who : Publisher) (s : HalRun) : HalRun :=
  match who with Startup token => work_failed token s | Queued => serve_ended false s end.

Definition publish_reply (who : Publisher) (request : PublishRequest) (attempt : nat) (r : PubReply) (s : HalRun) : HalRun :=
  let s := note (SC_Publish who request r) s in
  match publish_turn attempt r with
  | PT_Done => published who (settle_publish who request F_Sent s)
  | PT_Dropped =>
      published who (settle_publish who request F_Dropped
                       (note (SC_Dropped who request) (with_dropped_publish (dropped_publish s ⊞ 1) s)))
  | PT_End => publish_failed who s
  | PT_Drive => with_pc (R_Pub who request attempt true) s
  end.

Definition drive_reply (who : Publisher) (request : PublishRequest) (attempt : nat) (r : DriveReply) (s : HalRun) : HalRun :=
  let s := note (SC_Drive who r) s in
  match r with
  | DR_Ok => with_pc (R_Pub who request (S attempt) false) s
  | _ => publish_failed who s
  end.

(** The effect of the wakers that are woken on a call. *)
Definition hal_wake (woken : list Z) (w : HalWaiter) : HalWaiter :=
  if decide (hw_waker w ∈ woken) then
    mkHalWaiter (hw_waker w) match hw_pc w with WP_Asleep => WP_Register | WP_Check r _ => WP_Check r true | p => p end
  else w.

Definition in_serve (p : HalRunPc) : bool :=
  match p with R_Tcp | R_Mqtt | R_Sub _ _ | R_Pub _ _ _ _ | R_Poll => true | _ => false end.

(** ** Events

    What the runner's await answers, and what the tasks with a handle do. *)
Inductive HalEvent :=
| HE_Net (up : bool) | HE_Tcp (ok : bool) | HE_Mqtt (r : option ConnectEvent) | HE_Sub (acked : bool)
| HE_Pub (r : PubReply) | HE_Drive (r : DriveReply) | HE_Wake
| HE_Inbound (topic : string) (payload : list Z) (retained : bool) (qos : QoS) | HE_Nothing | HE_PollEnd | HE_Receive
| HE_Closed | HE_Timer
| HE_Try (topic : string) (payload : list Z) (qos : QoS) (retain : bool)
| HE_Publish (topic : string) (payload : list Z) (qos : QoS) (retain : bool)
| HE_Send (n : nat) | HE_Cancel (n : nat) | HE_Take
| HE_WaitConnected (waker : Z) | HE_WaitTurn (n : nat) | HE_WaitDrop (n : nat).

(** The runner's turn. *)
Definition runner_step (e : HalEvent) (s : HalRun) : option HalRun :=
  match pc s, e with
  | R_Gate, HE_Net false => Some s
  | R_Gate, HE_Net true =>
      let '(next, s) := feed_machine NetworkUp s in
      Some (if decide (next = A_None) then with_pc R_Idle s else dispatch next s)
  | R_Idle, HE_Timer => Some (dispatch A_None s)
  | R_Tcp, HE_Tcp true => Some (with_pc R_Mqtt s)
  | R_Tcp, HE_Tcp false | R_Mqtt, HE_Mqtt None => Some (serve_ended false s)
  | R_Mqtt, HE_Mqtt (Some event) => Some (connack event s)
  | R_Sub token (tq :: rest), HE_Sub true => Some (next_subscribe token rest (note (SC_Subscribe tq true) s))
  | R_Sub token (tq :: _), HE_Sub false => Some (work_failed token (note (SC_Subscribe tq false) s))
  | R_Pub who request attempt false, HE_Pub r => Some (publish_reply who request attempt r s)
  | R_Pub who request attempt true, HE_Drive r => Some (drive_reply who request attempt r s)
  | R_Wake, HE_Wake =>
      Some (with_pc R_Poll (if can_publish (machine s) then
                              let '(woken, w) := slots_wake_all (connected s) in
                              with_waiters (map (hal_wake woken) (waiters s)) (with_connected w s)
                            else s))
  | R_Poll, HE_Inbound topic payload retained qos =>
      Some match copy_from topic payload retained qos with
           | Some msg => push_inbound msg s
           | None => with_dropped_inbound (dropped_inbound s ⊞ 1) s
           end
  | R_Poll, HE_Nothing => Some s
  | R_Poll, HE_PollEnd => Some (serve_ended false s)
  | R_Poll, HE_Receive =>
      match publish_q s with
      | request :: rest => Some (with_pc (R_Pub Queued request 1 false) (with_publish_q rest s))
      | [] => None
      end
  | R_Close next, HE_Closed => Some (dispatch next s)
  | R_Shut, HE_Closed => let '(next, s) := feed_machine Disconnected s in Some (dispatch next s)
  | R_Wait _, HE_Timer => let '(next, s) := feed_machine RetryElapsed s in Some (dispatch next s)
  | R_Wait _, HE_Net false => let '(next, s) := feed_machine NetworkDown s in Some (dispatch next s)
  | R_Wait _, HE_Net true => Some s
  | p, HE_Net up => if in_serve p then Some (if up then s else serve_ended true s) else None
  | _, _ => None
  end.

End runner.

(** ** The handle *)

(** The parts of [try_publish_with] before and at its [try_send]. *)
Definition try_publish_check (topic : string) (payload : list Z) (qos : QoS) (retain : bool) (s : HalRun) : result TryPublishError PublishRequest :=
  request ← map_err TP_Other (PublishRequest_new topic payload (clamp_qos qos) retain);
  if can_publish (machine s) then Ok request else Err WouldBlock.

Definition hal_try_send (request : PublishRequest) : M HalRun unit unit := λ s,
  if (length (publish_q s) <? PUBLISH_QUEUE_DEPTH)%nat then
    (Ok tt, with_accepted (accepted s ++ [request]) (with_publish_q (publish_q s ++ [request]) s))
  else (Err tt, s).

(** Nothing came between the two. *)
Definition try_publish_with (topic : string) (payload : list Z) (qos : QoS) (retain : bool) : M HalRun TryPublishError unit := λ s,
  match try_publish_check topic payload qos retain s with
  | Err e => (Err e, s)
  | Ok request => let '(r, s) := hal_try_send request s in (map_err (λ _, WouldBlock) r, s)
  end.

Definition publish_with (topic : string) (payload : list Z) (qos : QoS) (retain : bool) (s : HalRun) : result MqttError HalRun :=
  request ← PublishRequest_new topic payload (clamp_qos qos) retain;
  Ok (with_callers (callers s ++ [mkCaller request true]) s).

Definition remove_caller (n : nat) (s : HalRun) : HalRun := with_callers (delete n (callers s)) s.

(** [send().await] stays until there is room; a [try_send] returns. *)
Definition send_turn (n : nat) (s : HalRun) : option HalRun :=
  c ← callers s !! n;
  match hal_try_send (cl_request c) s with
  | (Ok _, s) => Some (remove_caller n s)
  | (Err _, s) => if cl_waits c then None else Some (remove_caller n s)
  end.

Definition hal_try_receive (s : HalRun) : option InboundMessage * HalRun :=
  match inbound_q s with
  | msg :: rest => (Some msg, with_consumed (consumed s ++ [msg]) (with_inbound_q rest s))
  | [] => (None, s)
  end.

(** One lock of [wait_connected]: the registration, then the check. *)
Definition hal_wait_turn (n : nat) (s : HalRun) : option HalRun :=
  w ← waiters s !! n;
  let at_ (p : ConnWaitPc) := <[n := mkHalWaiter (hw_waker w) p]> (waiters s) in
  match hw_pc w with
  | WP_Register =>
      let '(registered, slots) := slots_register (hw_waker w) (connected s) in
      Some (with_waiters (at_ (WP_Check registered false)) (with_connected slots s))
  | WP_Check registered woken =>
      Some (with_waiters
              (at_ match poll_ready registered (can_publish (machine s)) with
                   | RP_Ready => WP_Done
                   | RP_Waiting => if woken then WP_Register else WP_Asleep
                   | RP_Full => WP_Timer
                   end) s)
  | WP_Timer => Some (with_waiters (at_ WP_Register) s)
  | WP_Asleep | WP_Done => None
  end.

Definition hal_mqtt_step (cfg : HalRunnerConfig) (e : HalEvent) (s : HalRun) : option HalRun :=
  match e with
  | HE_Try topic payload qos retain =>
      Some match try_publish_check topic payload qos retain s with
           | Ok request => with_callers (callers s ++ [mkCaller request false]) s
           | Err _ => s
           end
  | HE_Publish topic payload qos retain => Some match publish_with topic payload qos retain s with Ok s => s | Err _ => s end
  | HE_Send n => send_turn n s
  | HE_Cancel n => Some (remove_caller n s)
  | HE_Take => Some (hal_try_receive s).2
  | HE_WaitConnected waker => Some (with_waiters (waiters s ++ [mkHalWaiter waker WP_Register]) s)
  | HE_WaitTurn n => hal_wait_turn n s
  | HE_WaitDrop n => Some (with_waiters (alter (λ w, mkHalWaiter (hw_waker w) WP_Done) n (waiters s)) s)
  | e => runner_step cfg e s
  end.

Inductive hal_reach (cfg : HalRunnerConfig) : HalRun → Prop :=
| hal_start : hal_reach cfg (HalShared_new (reconnect_ms cfg))
| hal_next e s s' : hal_reach cfg s → hal_mqtt_step cfg e s = Some s' → hal_reach cfg s'.

(** Runs events one after the other. *)
Fixpoint hal_run (cfg : HalRunnerConfig) (es : list HalEvent) (s : HalRun) : option HalRun :=
  match es with
  | [] => Some s
  | e :: es => s ← hal_mqtt_step cfg e s; hal_run cfg es s
  end.
