(* ===== verification/HalMqttProps.v ===== *)
(** * HalMqttProps: the bare-metal MQTT runner keeps its promises

    Invariants of every reachable state, by induction on the events: the machine and the runner
    agree, the queues lose nothing silently, and a session is set up before it is used. *)
From S2P Require Import Prelude Text Dhcp WifiHal MqttSession MqttOutbox MqttTopics MqttConfig HalMqtt.
Open Scope Z_scope.

(** ** The turns of the runner *)

Inductive turn (cfg : HalRunnerConfig) (s : HalRun) : HalRun → Prop :=
| T_stay : turn cfg s s
| T_up : pc s = R_Gate →
    turn cfg s (if decide ((poll NetworkUp (machine s)).1 = A_None) then with_pc R_Idle (with_machine (poll NetworkUp (machine s)).2 s)
                else dispatch (poll NetworkUp (machine s)).1 (with_machine (poll NetworkUp (machine s)).2 s))
| T_idle : pc s = R_Idle → turn cfg s (dispatch A_None s)
| T_tcp : pc s = R_Tcp → turn cfg s (with_pc R_Mqtt s)
| T_end lost : in_serve (pc s) = true → turn cfg s (serve_ended lost s)
| T_connack event : pc s = R_Mqtt → turn cfg s (connack cfg event s)
| T_sub token tq rest : pc s = R_Sub token (tq :: rest) → turn cfg s (next_subscribe cfg token rest (note (SC_Subscribe tq true) s))
| T_refused token tq rest : pc s = R_Sub token (tq :: rest) → turn cfg s (work_failed token (note (SC_Subscribe tq false) s))
| T_pub who request attempt r : pc s = R_Pub who request attempt false → turn cfg s (publish_reply who request attempt r s)
| T_drive who request attempt r : pc s = R_Pub who request attempt true → turn cfg s (drive_reply who request attempt r s)
| T_wake : pc s = R_Wake →
    turn cfg s (with_pc R_Poll (if can_publish (machine s) then
                                  with_waiters (map (hal_wake (omap id (connected s))) (waiters s))
                                    (with_connected (replicate (length (connected s)) None) s)
                                else s))
| T_inbound topic payload retained qos msg : pc s = R_Poll → copy_from topic payload retained qos = Some msg → turn cfg s (push_inbound msg s)
| T_oversized : pc s = R_Poll → turn cfg s (with_dropped_inbound (dropped_inbound s ⊞ 1) s)
| T_receive request rest : pc s = R_Poll → publish_q s = request :: rest →
    turn cfg s (with_pc (R_Pub Queued request 1 false) (with_publish_q rest s))
| T_close next : pc s = R_Close next → turn cfg s (dispatch next s)
| T_feed i : pc s = R_Shut ∧ i = Disconnected ∨ (∃ ms, pc s = R_Wait ms) ∧ (i = RetryElapsed ∨ i = NetworkDown) →
    turn cfg s (dispatch (poll i (machine s)).1 (with_machine (poll i (machine s)).2 s)).

Lemma feed_machine_eq i s : feed_machine i s = ((poll i (machine s)).1, with_machine (poll i (machine s)).2 s).
Proof. unfold feed_machine. by destruct (poll i (machine s)). Qed.

Lemma runner_turn cfg e s s' : runner_step cfg e s = Some s' → turn cfg s s'.
Proof.
  unfold runner_step. destruct (pc s) eqn:Epc; destruct e; cbn [in_serve]; intros H; try discriminate H;
    repeat match goal with
           | H : Some _ = Some _ |- _ => injection H as <-
           | H : context [match ?x with _ => _ end] |- _ => rewrite ?feed_machine_eq in H; destruct x eqn:?; try discriminate H
           end; simplify_eq; try by econstructor.
  all: try (destruct up; [by constructor|apply T_end; by rewrite Epc]).
  all: try (apply T_end; by rewrite Epc).
  - destruct (copy_from _ _ _ _) eqn:?; by econstructor.
  - apply T_feed. by left.
  - apply T_feed. right. split; [by eexists|by right].
  - apply T_feed. right. split; [by eexists|by left].
Qed.

(** A task with the handle leaves the runner, its machine and its calls alone. *)
Lemma handle_quiet cfg e s s' :
  hal_mqtt_step cfg e s = Some s' → turn cfg s s' ∨ machine s' = machine s ∧ pc s' = pc s ∧ calls s' = calls s.
Proof.
  destruct e; cbn [hal_mqtt_step]; intros H; try (left; by eapply runner_turn); right; try (injection H as <-).
  - by destruct (try_publish_check _ _ _ _ _).
  - unfold publish_with. by destruct (PublishRequest_new _ _ _ _).
  - unfold send_turn in H. destruct (callers s !! n) as [c|]; [|done]. cbn in H. unfold hal_try_send in H.
    destruct (_ <? _)%nat; [by simplify_eq|]. destruct (cl_waits c); by simplify_eq.
  - done.
  - unfold hal_try_receive. by destruct (inbound_q s).
  - done.
  - unfold hal_wait_turn in H. destruct (waiters s !! n) as [w|]; [|done]. cbn in H.
    destruct (hw_pc w); try destruct (slots_register _ _); by simplify_eq.
  - done.
Qed.

(** ** The machine and the runner agree *)

Definition agrees_at (p : HalRunPc) (m : SessionMachine) : Prop :=
  match p with
  | R_Gate => phase m = P_Starting ∨ phase m = P_Offline
  | R_Idle => False
  | R_Tcp | R_Mqtt => phase m = P_Connecting
  | R_Sub token rest => phase m = Working token ∧ rest ≠ []
  | R_Pub (Startup token) _ _ _ => phase m = Working token
  | R_Pub Queued _ _ _ | R_Wake | R_Poll => phase m = P_Ready
  | R_Close next => next = A_Wait (retry_ms m) ∧ phase m = Retrying ∨ next = A_None ∧ phase m = P_Offline
  | R_Shut => ∃ idle, phase m = Closing idle
  | R_Wait ms => ms = retry_ms m ∧ phase m = Retrying
  end.

Section agree.
  Context (cfg : HalRunnerConfig).

Definition agrees (s : HalRun) : Prop := agrees_at (pc s) (machine s) ∧ retry_ms (machine s) = reconnect_ms cfg.

(** What the end of [serve] tells the machine, from any phase of a connection. *)
Definition connection (p : Phase) : Prop :=
  match p with P_Connecting | Working _ | P_Ready | Closing _ => True | _ => False end.

Lemma poll_disconnected m :
  connection (phase m) →
  poll Disconnected m = (if network_up m then (A_Wait (retry_ms m), set_phase Retrying m) else (A_None, set_phase P_Offline m)).
Proof. destruct m as [[]]; intros []; done. Qed.

Lemma poll_network_down m : connection (phase m) → connection (phase (poll NetworkDown m).2) ∧ retry_ms (poll NetworkDown m).2 = retry_ms m.
Proof. destruct m as [[]]; intros []; done. Qed.

Definition lost_publish (s : HalRun) : HalRun :=
  match pc s with R_Pub who request _ _ => settle_publish who request F_Lost s | _ => s end.

Lemma lost_publish_machine s : machine (lost_publish s) = machine s.
Proof. unfold lost_publish. destruct (pc s) as [| | | | |[] ? ? ?| | | | |]; done. Qed.

Lemma serve_ended_eq lost s :
  serve_ended lost s =
  let m := if lost then (poll NetworkDown (machine s)).2 else machine s in
  let r := poll Disconnected m in
  with_pc (R_Close r.1) (with_machine r.2 (note SC_End (lost_publish s))).
Proof.
  unfold serve_ended. fold (lost_publish s). destruct lost; rewrite !feed_machine_eq; cbn; by rewrite lost_publish_machine.
Qed.

Lemma serve_ended_agrees lost s : connection (phase (machine s)) → retry_ms (machine s) = reconnect_ms cfg → agrees (serve_ended lost s).
Proof.
  intros Hc Hr. rewrite serve_ended_eq. cbv zeta.
  assert (∃ m, (if lost then (poll NetworkDown (machine s)).2 else machine s) = m ∧ connection (phase m) ∧ retry_ms m = reconnect_ms cfg) as (m & -> & Hm & Hrm).
  { destruct lost; [|by eexists]. destruct (poll_network_down _ Hc) as [? E]. eexists; split_and!; [done..|congruence]. }
  rewrite poll_disconnected by done. unfold agrees, agrees_at. destruct (network_up m); cbn; split; auto.
Qed.

Lemma work_failed_agrees token s : phase (machine s) = Working token → retry_ms (machine s) = reconnect_ms cfg → agrees (work_failed token s).
Proof.
  intros Hp Hr. unfold work_failed. rewrite feed_machine_eq. cbn [snd]. apply serve_ended_agrees; cbn; unfold poll; rewrite Hp; cbn;
    by rewrite decide_True.
Qed.

Lemma work_done_agrees token s : phase (machine s) = Working token → retry_ms (machine s) = reconnect_ms cfg → agrees (work_done token s).
Proof.
  intros Hp Hr. unfold work_done, agrees. rewrite feed_machine_eq. cbn. unfold poll. rewrite Hp. cbn. by rewrite decide_True.
Qed.

Lemma next_subscribe_agrees token rest s :
  phase (machine s) = Working token → retry_ms (machine s) = reconnect_ms cfg → agrees (next_subscribe cfg token rest s).
Proof.
  intros Hp Hr. unfold next_subscribe, begin_startup. destruct rest; [|done].
  destruct (startup cfg); [done|by apply work_done_agrees].
Qed.

Lemma connack_agrees event s :
  phase (machine s) = P_Connecting → retry_ms (machine s) = reconnect_ms cfg → agrees (connack cfg event s).
Proof.
  intros Hp Hr. unfold connack. generalize (negb (bool_decide (event = CE_Connected))). intros present.
  rewrite feed_machine_eq. unfold poll. rewrite Hp. cbn.
  by apply next_subscribe_agrees.
Qed.

Lemma published_agrees who s :
  match who with Startup token => phase (machine s) = Working token | Queued => phase (machine s) = P_Ready end →
  retry_ms (machine s) = reconnect_ms cfg → agrees (published who s) ∧ agrees (publish_failed who s).
Proof.
  intros Hp Hr. destruct who as [token|]; cbn; [split; [by apply work_done_agrees|by apply work_failed_agrees]|].
  split; [done|]. apply serve_ended_agrees; [by rewrite Hp|done].
Qed.

Lemma settle_request_machine who r f s : machine (settle_publish who r f s) = machine s.
Proof. by destruct who. Qed.

Lemma publish_reply_agrees who request attempt r s :
  agrees (with_pc (R_Pub who request attempt false) s) → agrees (publish_reply who request attempt r s).
Proof.
  intros [Hp Hr]. cbn in Hp, Hr. unfold publish_reply.
  destruct (publish_turn attempt r); try (apply published_agrees; rewrite ?settle_request_machine; by destruct who); by split.
Qed.

Lemma drive_reply_agrees who request attempt r s :
  agrees (with_pc (R_Pub who request attempt true) s) → agrees (drive_reply who request attempt r s).
Proof.
  intros [Hp Hr]. cbn in Hp, Hr. unfold drive_reply. destruct r; [by split|apply published_agrees; by destruct who..].
Qed.

Lemma with_pc_same s : with_pc (pc s) s = s.
Proof. by destruct s. Qed.

Lemma in_serve_connection s : agrees s → in_serve (pc s) = true → connection (phase (machine s)).
Proof. intros [Hp _]. destruct (pc s) as [| | | | |[] ? ? ?| | | | |]; cbn in *; try done; intros _; first [by rewrite Hp|by rewrite (proj1 Hp)]. Qed.

Lemma turn_agrees s s' : agrees s → turn cfg s s' → agrees s'.
Proof.
  intros Ha. pose proof Ha as [Hp Hr]. pose proof (in_serve_connection s Ha) as Hc. intros Ht.
  destruct Ht as [|E|E|E|lost E|event E|token tq rest E|token tq rest E|who request attempt r E|who request attempt r E|E|? ? ? ? ? E|E|request rest E|next E|i E];
    try (rewrite E in Hp; cbn in Hp); try done.
  - unfold agrees, poll. destruct (machine s) as [ph]; cbn in *. by destruct Hp as [-> | ->].
  - apply serve_ended_agrees; [by apply Hc|done].
  - by apply connack_agrees.
  - apply next_subscribe_agrees; [apply Hp|done].
  - apply work_failed_agrees; [apply Hp|done].
  - by apply publish_reply_agrees.
  - by apply drive_reply_agrees.
  - unfold agrees. cbn. by destruct (can_publish _).
  - unfold push_inbound. cbn. case_match; split; cbn; rewrite ?E; done.
  - unfold agrees. cbn. destruct Hp as [[-> ?]|[-> ?]]; cbn; auto.
  - destruct E as [[E ->]|[[ms E] [-> | ->]]]; rewrite E in Hp; cbn in Hp.
    + destruct Hp as [idle Hp]. rewrite poll_disconnected by (by rewrite Hp). unfold agrees. destruct (network_up _); cbn; auto.
    + destruct Hp as [-> Hp]. unfold agrees, poll. rewrite Hp, bool_decide_false by done. cbn. auto.
    + destruct Hp as [-> Hp]. unfold agrees, poll. rewrite Hp, bool_decide_false by done. cbn. split; [by eexists|done].
Qed.

Lemma reach_agrees s : hal_reach cfg s → agrees s.
Proof.
  induction 1 as [|e s s' _ IH Hs]; [split; [by left|done]|].
  destruct (handle_quiet cfg e s s' Hs) as [Ht|(Em & Ep & _)]; [by eapply turn_agrees|]. unfold agrees in *. by rewrite Em, Ep.
Qed.

End agree.

(** ** The queues *)

Definition in_flight (p : HalRunPc) : list PublishRequest := match p with R_Pub Queued request _ _ => [request] | _ => [] end.

(** The requests of the queue the session took, and every message given up. *)
Definition handed (l : list SessionCall) : list PublishRequest :=
  omap (λ c, match c with SC_Publish Queued request PR_Ok => Some request | _ => None end) l.
Definition given_up (l : list SessionCall) : list PublishRequest :=
  omap (λ c, match c with SC_Dropped _ request => Some request | _ => None end) l.
Definition ends (l : list SessionCall) : nat := length (omap (λ c, match c with SC_End => Some tt | _ => None end) l).
Definition with_fate (f : Fate) (l : list (PublishRequest * Fate)) : list PublishRequest :=
  omap (λ rf, match rf.2, f with F_Sent, F_Sent | F_Dropped, F_Dropped | F_Lost, F_Lost => Some rf.1 | _, _ => None end) l.

#[global] Arguments handed : simpl never.
#[global] Arguments given_up : simpl never.
#[global] Arguments ends : simpl never.
#[global] Arguments with_fate : simpl never.

Definition request_ok (r : PublishRequest) : Prop :=
  validate_publish_topic (pr_topic r) = Ok tt ∧ str_len (pr_topic r) ≤ MAX_TOPIC_LEN ∧
  Z.of_nat (length (pr_payload r)) ≤ MAX_PAYLOAD_LEN ∧ pr_qos r ≠ ExactlyOnce.

Definition tries_ok (p : HalRunPc) : Prop :=
  match p with R_Pub _ _ attempt driving => (1 ≤ attempt ≤ PUBLISH_ATTEMPTS)%nat ∧ (driving = true → attempt < PUBLISH_ATTEMPTS)%nat | _ => True end.

Record accounts (s : HalRun) : Prop := {
  acc_fifo : accepted s = map fst (fates s) ++ in_flight (pc s) ++ publish_q s;
  acc_handed : handed (calls s) = with_fate F_Sent (fates s);
  acc_lost : (length (with_fate F_Lost (fates s)) ≤ ends (calls s))%nat;
  acc_dropped : dropped_publish s = u32_wrap (Z.of_nat (length (given_up (calls s))));
  acc_bound : (length (publish_q s) ≤ PUBLISH_QUEUE_DEPTH)%nat ∧ (length (inbound_q s) ≤ INBOUND_QUEUE_DEPTH)%nat;
  acc_tries : tries_ok (pc s);
  acc_ok : Forall request_ok (accepted s) ∧ Forall (λ c, request_ok (cl_request c)) (callers s);
  acc_inbound : ∃ gone, arrived s = gone ++ inbound_q s ∧ consumed s `sublist_of` gone }.

Lemma u32_wrapping_succ n : u32_wrap (Z.of_nat n) ⊞ 1 = u32_wrap (Z.of_nat (S n)).
Proof. unfold u32_wrapping_add, u32_wrap. rewrite Zplus_mod_idemp_l. f_equal. lia. Qed.

Lemma ends_app l1 l2 : ends (l1 ++ l2) = (ends l1 + ends l2)%nat.
Proof. unfold ends. by rewrite omap_app, length_app. Qed.
Lemma handed_snoc l c : handed (l ++ [c]) = handed l ++ handed [c].
Proof. apply omap_app. Qed.
Lemma given_up_snoc l c : given_up (l ++ [c]) = given_up l ++ given_up [c].
Proof. apply omap_app. Qed.
Lemma ends_snoc l c : ends (l ++ [c]) = (ends l + ends [c])%nat.
Proof. apply ends_app. Qed.
Lemma with_fate_snoc f l x : with_fate f (l ++ [x]) = with_fate f l ++ with_fate f [x].
Proof. apply omap_app. Qed.

Lemma tries_start : (1 ≤ 1 ≤ PUBLISH_ATTEMPTS)%nat ∧ (false = true → 1 < PUBLISH_ATTEMPTS)%nat.
Proof. unfold PUBLISH_ATTEMPTS. split; [lia|done]. Qed.

Section accounting.
  Context (cfg : HalRunnerConfig).

(** The same but for the machine, the call that was noted, and the place, from which no request
    was on the way. *)
Lemma accounts_quiet m p c s :
  accounts s → in_flight (pc s) = [] → in_flight p = [] →
  tries_ok p →
  handed [c] = [] → given_up [c] = [] →
  accounts (with_pc p (with_machine m s)) ∧ accounts (with_pc p (with_machine m (note c s))).
Proof.
  intros [] E Ep Ht Hh Hg. rewrite E in acc_fifo0.
  split; constructor; cbn; rewrite ?Ep, ?handed_snoc, ?given_up_snoc, ?ends_snoc, ?length_app, ?Hh, ?Hg, ?app_nil_r; cbn; rewrite ?Nat.add_0_r; try done; try lia.
Qed.

Lemma lost_publish_accounts s :
  accounts s →
  ∀ m p, in_flight p = [] → match p with R_Pub _ _ _ _ => False | _ => True end →
  accounts (with_pc p (with_machine m (note SC_End (lost_publish s)))).
Proof.
  intros Ha m p Ep Hp.
  assert (in_flight (pc s) = [] ∨ ∃ r a d, pc s = R_Pub Queued r a d) as [E|(r & a & d & E)].
  { destruct (pc s) as [| | | | |[] ? ? ?| | | | |]; eauto. }
  - assert (lost_publish s = s) as -> by (unfold lost_publish; by destruct (pc s) as [| | | | |[] ? ? ?| | | | |]).
    apply (accounts_quiet m p SC_End s Ha E Ep); [by destruct p|done|done].
  - unfold lost_publish. rewrite E. destruct Ha. rewrite E in *. constructor; cbn; rewrite ?Ep; try done.
    + rewrite map_app. cbn. by rewrite <- app_assoc.
    + rewrite handed_snoc, with_fate_snoc. change (handed [SC_End]) with ([] : list PublishRequest).
      change (with_fate F_Sent [(r, F_Lost)]) with ([] : list PublishRequest). by rewrite !app_nil_r.
    + rewrite ends_snoc, with_fate_snoc, length_app. change (ends [SC_End]) with 1%nat. change (length (with_fate F_Lost [(r, F_Lost)])) with 1%nat. lia.
    + rewrite given_up_snoc. change (given_up [SC_End]) with ([] : list PublishRequest). by rewrite app_nil_r.
    + by destruct p.
Qed.

Lemma serve_ended_accounts lost s : accounts s → accounts (serve_ended lost s).
Proof. intros Ha. rewrite serve_ended_eq. cbv zeta. by apply lost_publish_accounts. Qed.

Lemma work_done_accounts token s : accounts s → in_flight (pc s) = [] → accounts (work_done token s).
Proof. intros Ha E. unfold work_done. rewrite feed_machine_eq. by apply (accounts_quiet _ R_Wake SC_End s Ha E). Qed.

Lemma feed_accounts i s : accounts s → accounts (feed_machine i s).2.
Proof. intros []. rewrite feed_machine_eq. by constructor. Qed.

Lemma next_subscribe_accounts token rest s : accounts s → in_flight (pc s) = [] → accounts (next_subscribe cfg token rest s).
Proof.
  intros Ha E. unfold next_subscribe, begin_startup.
  assert (∀ p, in_flight p = [] → tries_ok p → accounts (with_pc p s)) as Hq.
  { intros p Ep Ht. pose proof (proj1 (accounts_quiet (machine s) p SC_End s Ha E Ep Ht eq_refl eq_refl)) as H. by destruct s. }
  destruct rest; [|by apply Hq]. destruct (startup cfg); [|by apply work_done_accounts]. apply Hq; [done|apply tries_start].
Qed.

(** A settled request moves from the runner to the fates. *)
Lemma settled_accounts who r f s attempt driving call :
  accounts s → pc s = R_Pub who r attempt driving →
  match f with F_Lost => False | F_Sent => call = [SC_Publish who r PR_Ok] | F_Dropped => handed call = [] end →
  given_up call = [] → ends call = 0%nat →
  ∀ p m, in_flight p = [] → tries_ok p →
  accounts (with_pc p (with_machine m (settle_publish who r f (with_calls (calls s ++ call) s)))).
Proof.
  intros [] E Hf Hg He p m Ep Ht. rewrite E in *. 
  assert (given_up (calls s ++ call) = given_up (calls s)) as Hg' by (unfold given_up in *; by rewrite omap_app, Hg, app_nil_r).
  assert (ends (calls s ++ call) = ends (calls s)) as He' by (rewrite ends_app; lia).
  assert (handed (calls s ++ call) = handed (calls s) ++ handed call) as Hh by apply omap_app.
  destruct who as [token|]; constructor; cbn in *; rewrite ?Ep, ?Hg', ?He', ?Hh; try done.
  - destruct f; [subst call|rewrite Hf|done]; by rewrite app_nil_r.
  - rewrite map_app, <- app_assoc. done.
  - rewrite with_fate_snoc, acc_handed0. f_equal. destruct f; [by subst call|by rewrite Hf|done].
  - rewrite with_fate_snoc, length_app. replace (length (with_fate F_Lost [(r, f)])) with 0%nat by (by destruct f). lia.
Qed.

Lemma published_accounts who s :
  (∀ p m, in_flight p = [] → tries_ok p → accounts (with_pc p (with_machine m s))) → accounts (published who s).
Proof.
  intros H. destruct who as [token|]; cbn; [|by destruct s; apply (H R_Poll)].
  unfold work_done. rewrite feed_machine_eq. by apply H.
Qed.

Lemma publish_failed_accounts who s : accounts s → accounts (publish_failed who s).
Proof.
  intros Ha. destruct who as [token|]; cbn; [|by apply serve_ended_accounts].
  by apply serve_ended_accounts, feed_accounts.
Qed.

(** A call that is not a success and gives nothing up. *)
Lemma note_accounts c s : accounts s → handed [c] = [] → given_up [c] = [] → accounts (note c s).
Proof.
  intros [] Hh Hg. constructor; cbn; rewrite ?handed_snoc, ?given_up_snoc, ?ends_snoc, ?Hh, ?Hg, ?app_nil_r; try done. lia.
Qed.

Lemma bump_accounts who r s :
  accounts s → accounts (note (SC_Dropped who r) (with_dropped_publish (dropped_publish s ⊞ 1) s)).
Proof.
  intros []. constructor; cbn; rewrite ?handed_snoc, ?given_up_snoc, ?ends_snoc, ?app_nil_r; try done.
  - lia.
  - rewrite length_app, acc_dropped0, u32_wrapping_succ. change (length (given_up [SC_Dropped who r])) with 1%nat. by rewrite Nat.add_1_r.
Qed.

Lemma publish_reply_accounts who r attempt reply s :
  accounts s → pc s = R_Pub who r attempt false → accounts (publish_reply who r attempt reply s).
Proof.
  intros Ha E. assert (publish_turn attempt reply = PT_Done ∧ reply = PR_Ok ∨ handed [SC_Publish who r reply] = [] ∧ publish_turn attempt reply ≠ PT_Done) as Hc.
  { destruct reply; cbn; try case_match; auto; right; by destruct who. }
  unfold publish_reply. destruct (publish_turn attempt reply) eqn:Et.
  - destruct Hc as [[_ ->]|[_ ?]]; [|done].
    apply published_accounts. intros p m Ep Ht. by apply (settled_accounts who r F_Sent s attempt false [SC_Publish who r PR_Ok]).
  - destruct Hc as [[? _]|[Hh _]]; [done|]. apply published_accounts. intros p m Ep Ht.
    pose proof (settled_accounts who r F_Dropped s attempt false [SC_Publish who r reply] Ha E Hh eq_refl eq_refl p m Ep Ht) as H.
    apply (bump_accounts who r) in H. by destruct who.
  - destruct Hc as [[? _]|[Hh _]]; [done|]. by apply publish_failed_accounts, note_accounts.
  - destruct Hc as [[? _]|[Hh _]]; [done|]. pose proof (note_accounts (SC_Publish who r reply) s Ha Hh eq_refl) as [].
    constructor; cbn in *; try done; [by rewrite E in *|]. rewrite E in acc_tries0. destruct acc_tries0 as [? _].
    destruct reply; try discriminate Et. unfold publish_turn in Et. destruct (attempt <? PUBLISH_ATTEMPTS)%nat eqn:El; [|discriminate]. apply Nat.ltb_lt in El. split; [lia|done].
Qed.

Lemma drive_reply_accounts who r attempt reply s :
  accounts s → pc s = R_Pub who r attempt true → accounts (drive_reply who r attempt reply s).
Proof.
  intros Ha E. unfold drive_reply. assert (accounts (note (SC_Drive who reply) s)) as Hn by (by apply note_accounts).
  destruct reply; [|by apply publish_failed_accounts..]. destruct Hn. constructor; cbn in *; try done; [by rewrite E in *|].
  rewrite E in acc_tries0. destruct acc_tries0 as [? Hd]. specialize (Hd eq_refl). split; [lia|done].
Qed.

Lemma push_inbound_accounts msg s : accounts s → accounts (push_inbound msg s).
Proof.
  intros []. destruct acc_bound0 as [Hb1 Hb2]. destruct acc_inbound0 as (gone & Ha & Hs). unfold push_inbound. cbv zeta.
  change (inbound_q (with_arrived (arrived s ++ [msg]) s)) with (inbound_q s).
  destruct (Nat.ltb_spec (length (inbound_q s)) INBOUND_QUEUE_DEPTH); constructor; cbn; try done.
  - split; [done|]. rewrite length_app. cbn. lia.
  - exists gone. split; [by rewrite Ha, <- app_assoc|done].
  - split; [done|]. rewrite length_app, length_drop. cbn. unfold INBOUND_QUEUE_DEPTH in *. lia.
  - exists (gone ++ take 1 (inbound_q s)). split; [|by apply sublist_inserts_r].
    rewrite Ha, <- (take_drop 1 (inbound_q s)) at 1. by rewrite <- !app_assoc.
Qed.

Lemma turn_accounts s s' : accounts s → turn cfg s s' → accounts s'.
Proof.
  intros Ha Ht.
  assert (∀ p m, in_flight (pc s) = [] → in_flight p = [] → tries_ok p → accounts (with_pc p (with_machine m s))) as Hq.
  { intros p m E Ep Hp. by apply (accounts_quiet m p SC_End s Ha E Ep Hp). }
  assert (∀ a m, in_flight (pc s) = [] → accounts (dispatch a (with_machine m s))) as Hd by (intros [] m E; by apply Hq).
  destruct Ht as [|E|E|E|lost E|event E|token tq rest E|token tq rest E|who request attempt r E|who request attempt r E|E|? ? ? ? ? E|E|request rest E Eq|next E|i E];
    try done.
  - case_match; [apply Hq|apply Hd]; by rewrite ?E.
  - specialize (Hd A_None (machine s)). rewrite E in Hd. destruct s. by apply Hd.
  - specialize (Hq R_Mqtt (machine s)). rewrite E in Hq. destruct s. by apply Hq.
  - by apply serve_ended_accounts.
  - unfold connack. generalize (negb (bool_decide (event = CE_Connected))). intros present.
    pose proof (feed_accounts (Connected present) s Ha) as Hf. rewrite feed_machine_eq in *. cbn [snd] in Hf.
    destruct (poll _ _).1; try by apply serve_ended_accounts.
    apply next_subscribe_accounts; [by apply note_accounts|cbn; by rewrite E].
  - apply next_subscribe_accounts; [by apply note_accounts|cbn; by rewrite E].
  - by apply serve_ended_accounts, feed_accounts, note_accounts.
  - by apply publish_reply_accounts.
  - by apply drive_reply_accounts.
  - specialize (Hq R_Poll (machine s)). rewrite E in Hq. destruct (can_publish _); [|destruct s; by apply Hq].
    destruct (Hq eq_refl eq_refl I). by constructor.
  - by apply push_inbound_accounts.
  - destruct Ha. by constructor.
  - destruct Ha. rewrite E, Eq in *. constructor; cbn in *; rewrite ?E; try done; [lia|apply tries_start].
  - specialize (Hd next (machine s)). rewrite E in Hd. destruct s. by apply Hd.
  - apply Hd. by destruct E as [[-> _]|[[ms ->] _]].
Qed.

(** ** The handle *)

Lemma request_new_ok topic payload qos retain r :
  PublishRequest_new topic payload (clamp_qos qos) retain = Ok r → request_ok r.
Proof.
  unfold PublishRequest_new, fit_topic, fit_payload. destruct (validate_publish_topic topic) as [[]|] eqn:Ev; [|done]. cbn.
  destruct (Z.leb_spec (str_len topic) MAX_TOPIC_LEN); [|done]. cbn.
  destruct (Z.leb_spec (Z.of_nat (length payload)) MAX_PAYLOAD_LEN); [|done]. intros [= <-].
  split_and!; try done. by destruct qos.
Qed.

Lemma check_ok topic payload qos retain s r : try_publish_check topic payload qos retain s = Ok r → request_ok r.
Proof.
  unfold try_publish_check. destruct (PublishRequest_new _ _ _ _) as [q|] eqn:E; [|done]. cbn.
  destruct (can_publish _); [|done]. intros [= <-]. by eapply request_new_ok.
Qed.

Lemma with_callers_accounts l s : accounts s → Forall (λ c, request_ok (cl_request c)) l → accounts (with_callers l s).
Proof. intros [] H. constructor; try done. split; [apply acc_ok0|done]. Qed.

Lemma remove_caller_accounts n s : accounts s → accounts (remove_caller n s).
Proof. intros Ha. apply with_callers_accounts; [done|]. apply Forall_delete, Ha. Qed.

Lemma send_turn_accounts n s s' : accounts s → send_turn n s = Some s' → accounts s'.
Proof.
  intros Ha H. unfold send_turn in H. destruct (callers s !! n) as [c|] eqn:Ec; [|done]. cbn in H. unfold hal_try_send in H.
  destruct (Nat.ltb_spec (length (publish_q s)) PUBLISH_QUEUE_DEPTH).
  - injection H as <-. apply remove_caller_accounts. destruct Ha, acc_ok0 as [Ho Hc], acc_bound0. constructor; cbn; try done.
    + by rewrite acc_fifo0, <- !app_assoc.
    + split; [|done]. rewrite length_app. cbn. lia.
    + split; [|done]. apply Forall_app. split; [done|]. constructor; [|done]. by eapply Forall_lookup_1 in Hc.
  - destruct (cl_waits c); [done|]. injection H as <-. by apply remove_caller_accounts.
Qed.

Lemma handle_accounts e s s' : accounts s → hal_mqtt_step cfg e s = Some s' → turn cfg s s' ∨ accounts s'.
Proof.
  intros Ha. pose proof (acc_ok s Ha) as [_ Hc]. destruct e; cbn [hal_mqtt_step]; intros H; try (left; by eapply runner_turn); right; try (injection H as <-).
  - destruct (try_publish_check _ _ _ _ _) eqn:E; [|done]. apply with_callers_accounts; [done|]. apply Forall_app.
    split; [done|]. constructor; [by eapply check_ok|done].
  - unfold publish_with. destruct (PublishRequest_new _ _ _ _) eqn:E; [|done]. cbn. apply with_callers_accounts; [done|]. apply Forall_app.
    split; [done|]. constructor; [by eapply request_new_ok|done].
  - by eapply send_turn_accounts.
  - by apply remove_caller_accounts.
  - unfold hal_try_receive. destruct (inbound_q s) as [|msg rest] eqn:Eq; [done|]. destruct Ha. rewrite Eq in *.
    constructor; cbn in *; try done; [lia|]. destruct acc_inbound0 as (gone & Hg & Hs). exists (gone ++ [msg]).
    split; [by rewrite Hg, <- app_assoc|by apply sublist_app].
  - destruct Ha. by constructor.
  - unfold hal_wait_turn in H. destruct (waiters s !! n) as [w|]; [|done]. cbn in H.
    destruct Ha, (hw_pc w); try destruct (slots_register _ _); simplify_eq; by constructor.
  - destruct Ha. by constructor.
Qed.

Lemma reach_accounts s : hal_reach cfg s → accounts s.
Proof.
  induction 1 as [|e s s' _ IH Hs].
  - constructor; cbn; try done; [split; unfold PUBLISH_QUEUE_DEPTH, INBOUND_QUEUE_DEPTH; lia|]. by exists [].
  - destruct (handle_accounts e s s' IH Hs); [by eapply turn_accounts|done].
Qed.

(** C34: The bare-metal publish queue loses nothing silently. In every interleaving of the runner with any tasks that publish, receive, wait and give up, and whatever the network, the broker and the timers do, the requests the queue accepted are, in the order it accepted them, first those that were settled, then the one on its way to the session, then those still queued, at most four. Those settled as sent are, in that order, exactly the requests the session took, each once; one that was given up is counted (in 32 bits, together with the startup message); and one is lost only with a session that ends, at most one for each end. Every accepted request has a topic and a payload within the limits and a QoS of 0 or 1. Of the inbound messages that fit, the queue holds the newest, at most four, and the consumers got others of them, in order. *)
Theorem hal_mqtt_fifo (s : HalRun) :
  hal_reach cfg s →
  accepted s = map fst (fates s) ++ in_flight (pc s) ++ publish_q s ∧
  handed (calls s) = with_fate F_Sent (fates s) ∧
  (length (with_fate F_Lost (fates s)) ≤ ends (calls s))%nat ∧
  dropped_publish s = u32_wrap (Z.of_nat (length (given_up (calls s)))) ∧
  (length (publish_q s) ≤ PUBLISH_QUEUE_DEPTH)%nat ∧ (length (inbound_q s) ≤ INBOUND_QUEUE_DEPTH)%nat ∧
  Forall request_ok (accepted s) ∧
  ∃ gone, arrived s = gone ++ inbound_q s ∧ consumed s `sublist_of` gone.
Proof.
  intros H. destruct (reach_accounts s H) as [? ? ? ? [? ?] _ [? _] ?]. done.
Qed.

End accounting.

(** ** Sessions *)

Definition by_startup (c : SessionCall) : Prop :=
  match c with SC_Publish (Startup _) _ _ | SC_Drive (Startup _) _ => True | _ => False end.
Definition by_queue (c : SessionCall) : Prop :=
  match c with SC_Publish Queued _ _ | SC_Drive Queued _ | SC_Dropped Queued _ => True | _ => False end.

Section sessions.
  Context (cfg : HalRunnerConfig).

(** Every subscription of the builder, asked for in order and acknowledged. *)
Definition acknowledged : list SessionCall := map (λ tq, SC_Subscribe tq true) (subscriptions cfg).

(** The startup message, if there is one, was taken by the session, or given up. *)
Definition startup_served (l : list SessionCall) : Prop :=
  match startup cfg with
  | None => l = []
  | Some m => ∃ token l', Forall by_startup l' ∧
      (l = l' ++ [SC_Publish (Startup token) (startup_request m) PR_Ok] ∨
       ∃ r, l = l' ++ [SC_Publish (Startup token) (startup_request m) r; SC_Dropped (Startup token) (startup_request m)])
  end.

(** A session in which the broker acknowledged every subscription finished its connect work, and
    the broker reported no fresh session since. *)
Definition remembered (l : list SessionCall) : Prop :=
  ∃ pre event st rest, l = pre ++ SC_Session event :: acknowledged ++ st ++ rest ∧ startup_served st ∧
    Forall (λ c, c ≠ SC_Session CE_Connected) rest.

(** What a session that follows [pre] asked for: all of it, or nothing, where the broker reported a
    session it kept and still has the subscriptions. *)
Definition subscriptions_held (pre : list SessionCall) (event : ConnectEvent) (subs : list SessionCall) : Prop :=
  subs = acknowledged ∨ subs = [] ∧ event = CE_Reconnected ∧ remembered pre.

(** The calls end with those of a session whose connect work is complete: every subscription
    acknowledged in order (or kept by the broker), the startup message served, and since then
    nothing but the queue. *)
Definition established (l : list SessionCall) : Prop :=
  ∃ pre event subs st rest, l = pre ++ SC_Session event :: subs ++ st ++ rest ∧
    subscriptions_held pre event subs ∧ startup_served st ∧ Forall by_queue rest.

Definition shape (p : HalRunPc) (l : list SessionCall) : Prop :=
  match p with
  | R_Sub _ rest => ∃ pre event done, l = pre ++ SC_Session event :: map (λ tq, SC_Subscribe tq true) done ∧ done ++ rest = subscriptions cfg
  | R_Pub (Startup _) r _ _ => ∃ m pre event subs st, startup cfg = Some m ∧ r = startup_request m ∧
      l = pre ++ SC_Session event :: subs ++ st ∧ subscriptions_held pre event subs ∧ Forall by_startup st
  | R_Pub Queued _ _ _ | R_Wake | R_Poll => established l
  | _ => True
  end.

(** Every message of the queue was published in such a session. *)
Definition queue_in_session (l : list SessionCall) : Prop :=
  ∀ pre r reply post, l = pre ++ SC_Publish Queued r reply :: post → established pre.

(** The machine's flag is about what the broker holds. *)
Definition flag_true (s : HalRun) : Prop := subscribed (machine s) = true → remembered (calls s).

Record well_shaped (s : HalRun) : Prop := mkWell {
  ws_shape : shape (pc s) (calls s); ws_queue : queue_in_session (calls s); ws_flag : flag_true s }.

Lemma queue_in_session_snoc l c :
  queue_in_session l → match c with SC_Publish Queued _ _ => established l | _ => True end → queue_in_session (l ++ [c]).
Proof.
  intros Hl Hc pre r reply post E. destruct post as [|x post] using rev_ind.
  - apply app_inj_tail in E as [-> ->]. done.
  - clear IHpost. rewrite app_comm_cons, app_assoc in E. apply app_inj_tail in E as [-> _]. by eapply Hl.
Qed.

Lemma established_snoc l c : established l → by_queue c → established (l ++ [c]).
Proof.
  intros (pre & event & subs & st & rest & -> & Hh & Hst & Hr) Hc. exists pre, event, subs, st, (rest ++ [c]).
  split; [by rewrite <- !app_assoc; cbn; rewrite <- !app_assoc|]. split; [done|]. split; [done|]. apply Forall_app. by split; [|constructor].
Qed.

Lemma remembered_app l l' : remembered l → Forall (λ c, c ≠ SC_Session CE_Connected) l' → remembered (l ++ l').
Proof.
  intros (pre & event & st & rest & -> & Hst & Hr) Hc. exists pre, event, st, (rest ++ l').
  split; [by rewrite <- !app_assoc; cbn; rewrite <- !app_assoc|]. split; [done|]. by apply Forall_app.
Qed.

Lemma startup_no_session st : startup_served st → Forall (λ c, c ≠ SC_Session CE_Connected) st.
Proof.
  unfold startup_served. destruct (startup cfg); [|by intros ->].
  assert (∀ l, Forall by_startup l → Forall (λ c, c ≠ SC_Session CE_Connected) l) as Hl 
    by (intros l Hl; eapply Forall_impl; [exact Hl|by intros []]).
  intros (token & l' & H%Hl & [-> |[r ->]]); apply Forall_app; (split; [done|]); by repeat constructor.
Qed.

(** Complete connect work is remembered. *)
Lemma complete_remembered pre event subs st :
  subscriptions_held pre event subs → startup_served st → remembered (pre ++ SC_Session event :: subs ++ st).
Proof.
  intros [-> |(-> & -> & Hr)] Hst.
  - exists pre, event, st, []. rewrite app_nil_r. split; [done|]. by split.
  - apply remembered_app; [done|]. constructor; [done|]. by apply startup_no_session.
Qed.

Lemma calls_settle who r f s : calls (settle_publish who r f s) = calls s.
Proof. by destruct who. Qed.

(** Only connect work that is done sets the flag. *)
Lemma poll_flag i m : subscribed (poll i m).2 = true → subscribed m = true ∨ ∃ token, i = WorkDone token.
Proof.
  unfold poll. case_bool_decide; [by left|]. destruct (phase m), i; cbn; try (by left); try (right; by eexists); try (by destruct (negb _); [|left]);
    try (by destruct (decide _); left); try (by destruct (network_up m); left).
Qed.

Lemma flag_note c s : c ≠ SC_Session CE_Connected → flag_true s → flag_true (note c s).
Proof. intros Hc H Hf. apply remembered_app; [by apply H|]. by constructor. Qed.

Lemma flag_feed i s : (∀ token, i ≠ WorkDone token) → flag_true s → flag_true (feed_machine i s).2.
Proof.
  intros Hi H. rewrite feed_machine_eq. intros Hf. cbn in *. destruct (poll_flag i (machine s) Hf) as [E|[token E]]; [by apply H|by destruct (Hi token)].
Qed.

Lemma serve_ended_shape lost s : queue_in_session (calls s) → flag_true s → well_shaped (serve_ended lost s).
Proof.
  intros H Hf. rewrite serve_ended_eq. assert (calls (lost_publish s) = calls s) as E
    by (unfold lost_publish; by destruct (pc s) as [| | | | |[] ? ? ?| | | | |]).
  constructor; [done|cbn; rewrite E; by apply queue_in_session_snoc|]. intros Hs. cbn in Hs. cbn [calls with_pc with_machine note with_calls].
  rewrite E. apply remembered_app; [|by constructor].
  apply poll_flag in Hs as [Hs|[? [=]]]. apply Hf. destruct lost; [|done]. by apply poll_flag in Hs as [Hs|[? [=]]].
Qed.

Lemma work_failed_shape token s : queue_in_session (calls s) → flag_true s → well_shaped (work_failed token s).
Proof.
  intros H Hf. unfold work_failed. apply serve_ended_shape; [by rewrite feed_machine_eq|by apply flag_feed].
Qed.

Lemma work_done_shape token pre event subs st s :
  calls s = pre ++ SC_Session event :: subs ++ st → subscriptions_held pre event subs → startup_served st →
  queue_in_session (calls s) → well_shaped (work_done token s).
Proof.
  intros E Hh Hst H. unfold work_done. rewrite feed_machine_eq. constructor; [|done|].
  - cbn. exists pre, event, subs, st, []. by rewrite app_nil_r.
  - intros _. cbn. rewrite E. by apply complete_remembered.
Qed.

(** The connect work has its subscriptions. *)
Lemma begin_startup_shape token pre event subs s :
  calls s = pre ++ SC_Session event :: subs → subscriptions_held pre event subs → queue_in_session (calls s) → flag_true s →
  well_shaped (begin_startup cfg token s).
Proof.
  intros E Hh H Hf. unfold begin_startup. destruct (startup cfg) as [m|] eqn:Em.
  - constructor; [|done|done]. cbn. exists m, pre, event, subs, []. by rewrite app_nil_r.
  - apply (work_done_shape token pre event subs []); try done; [by rewrite app_nil_r|]. unfold startup_served. by rewrite Em.
Qed.

Lemma next_subscribe_shape token pre event done rest s :
  calls s = pre ++ SC_Session event :: map (λ tq, SC_Subscribe tq true) done → done ++ rest = subscriptions cfg →
  queue_in_session (calls s) → flag_true s → well_shaped (next_subscribe cfg token rest s).
Proof.
  intros E Hd H Hf. unfold next_subscribe. destruct rest as [|tq rest]; [|constructor; [by exists pre, event, done|done|done]].
  rewrite app_nil_r in Hd. apply (begin_startup_shape token pre event acknowledged); [|by left|done|done]. unfold acknowledged. by rewrite <- Hd.
Qed.

(** The subscriptions are left out only where the broker reported a session it kept. *)
Lemma connack_shape event s : queue_in_session (calls s) → flag_true s → well_shaped (connack cfg event s).
Proof.
  intros H Hf. unfold connack. set (present := negb (bool_decide (event = CE_Connected))).
  pose proof (flag_feed (Connected present) s ltac:(done) Hf) as Hf1. rewrite feed_machine_eq in *. cbn [snd] in Hf1.
  destruct (poll (Connected present) (machine s)) as [a m] eqn:E. cbn [fst snd] in *.
  destruct a as [| |token subscribe| |]; try by apply serve_ended_shape.
  assert (subscribe = negb (present && subscribed (machine s)) ∧ subscribed m = (if subscribe then false else subscribed (machine s))) as [Es Em].
  { unfold poll, accept_session in E. repeat case_match; simplify_eq; done. }
  assert (queue_in_session (calls (note (SC_Session event) (with_machine m s)))) as H1 by (by apply queue_in_session_snoc).
  destruct subscribe.
  - apply (next_subscribe_shape token (calls s) event []); [done|done|done|]. intros Hs. cbn in Hs. by rewrite Em in Hs.
  - symmetry in Es. apply negb_false_iff, andb_true_iff in Es as [Ep Es]. subst present. apply negb_true_iff, bool_decide_eq_false in Ep.
    assert (event = CE_Reconnected) as -> by (by destruct event).
    apply (begin_startup_shape token (calls s) CE_Reconnected []); [done|right; split; [done|]; split; [done|by apply Hf]|done|].
    by apply flag_note.
Qed.

Lemma publish_reply_shape who r attempt reply s :
  well_shaped s → pc s = R_Pub who r attempt false → well_shaped (publish_reply who r attempt reply s).
Proof.
  intros [Hs Hq Hf] E. rewrite E in Hs. unfold publish_reply.
  pose proof (flag_note (SC_Publish who r reply) s ltac:(done) Hf) as Hf1. destruct who as [token|]; cbn in Hs.
  - destruct Hs as (m & pre & event & subs & st & Em & -> & Ec & Hh & Hst).
    assert (queue_in_session (calls s ++ [SC_Publish (Startup token) (startup_request m) reply])) as H1 by (by apply queue_in_session_snoc).
    destruct (publish_turn attempt reply) eqn:Et; cbn [published publish_failed settle_publish].
    + assert (reply = PR_Ok) as -> by (destruct reply; cbn in Et; try case_match; done).
      apply (work_done_shape token pre event subs (st ++ [SC_Publish (Startup token) (startup_request m) PR_Ok])); [|done| |done].
      * cbn. by rewrite Ec, <- app_assoc, <- app_comm_cons, <- app_assoc.
      * unfold startup_served. rewrite Em. exists token, st. auto.
    + apply (work_done_shape token pre event subs
               (st ++ [SC_Publish (Startup token) (startup_request m) reply; SC_Dropped (Startup token) (startup_request m)])); [|done| |].
      * cbn. by rewrite Ec, <- !app_assoc, <- app_comm_cons, <- !app_assoc.
      * unfold startup_served. rewrite Em. exists token, st. split; [done|]. right. by exists reply.
      * cbn. by apply queue_in_session_snoc.
    + by apply work_failed_shape.
    + constructor; [|done|done]. cbn. exists m, pre, event, subs, (st ++ [SC_Publish (Startup token) (startup_request m) reply]).
      rewrite Ec, <- app_assoc, <- app_comm_cons, <- app_assoc. split_and!; try done. apply Forall_app. by split; [|constructor].
  - assert (queue_in_session (calls s ++ [SC_Publish Queued r reply])) as H1 by (by apply queue_in_session_snoc).
    assert (established (calls s ++ [SC_Publish Queued r reply])) as H2 by (by apply established_snoc).
    destruct (publish_turn attempt reply); cbn [published publish_failed settle_publish]; [by constructor| |by apply serve_ended_shape|by constructor].
    constructor; cbn; [by apply established_snoc|by apply queue_in_session_snoc|].
    by apply (flag_note (SC_Dropped Queued r) (with_pc R_Poll (with_dropped_publish (dropped_publish s ⊞ 1) (note (SC_Publish Queued r reply) s)))).
Qed.

Lemma drive_reply_shape who r attempt reply s :
  well_shaped s → pc s = R_Pub who r attempt true → well_shaped (drive_reply who r attempt reply s).
Proof.
  intros [Hs Hq Hf] E. rewrite E in Hs. unfold drive_reply. pose proof (flag_note (SC_Drive who reply) s ltac:(done) Hf) as Hf1.
  assert (queue_in_session (calls s ++ [SC_Drive who reply])) as H1 by (by apply queue_in_session_snoc).
  assert (well_shaped (publish_failed who (note (SC_Drive who reply) s))) as Hd.
  { destruct who; cbn; [by apply work_failed_shape|by apply serve_ended_shape]. }
  destruct reply; try done. constructor; [|done|done]. destruct who as [token|]; cbn in *.
  - destruct Hs as (m & pre & event & subs & st & Em & -> & Ec & Hh & Hst). exists m, pre, event, subs, (st ++ [SC_Drive (Startup token) DR_Ok]).
    rewrite Ec, <- app_assoc, <- app_comm_cons, <- app_assoc. split_and!; try done. apply Forall_app. by split; [|constructor].
  - by apply established_snoc.
Qed.

Lemma turn_shape s s' : well_shaped s → turn cfg s s' → well_shaped s'.
Proof.
  intros Hw Ht. pose proof Hw as [Hs Hq Hf].
  assert (∀ a i, (∀ token, i ≠ WorkDone token) → well_shaped (dispatch a (with_machine (poll i (machine s)).2 s))) as Hd.
  { intros a i Hi. pose proof (flag_feed i s Hi Hf) as H. rewrite feed_machine_eq in H. by destruct a. }
  destruct Ht as [|E|E|E|lost E|event E|token tq rest E|token tq rest E|who request attempt r E|who request attempt r E|E|? ? ? ? ? E|E|request rest E Eq|next E|i E];
    try done.
  - case_match; [|by apply Hd]. pose proof (Hd A_None NetworkUp ltac:(done)) as []. by constructor.
  - by apply serve_ended_shape.
  - by apply connack_shape.
  - rewrite E in Hs. destruct Hs as (pre & event & done & Ec & Hd'). apply (next_subscribe_shape token pre event (done ++ [tq])).
    + cbn. by rewrite Ec, map_app, <- app_assoc.
    + by rewrite <- app_assoc.
    + by apply queue_in_session_snoc.
    + by apply flag_note.
  - apply work_failed_shape; [by apply queue_in_session_snoc|by apply flag_note].
  - by apply publish_reply_shape.
  - by apply drive_reply_shape.
  - rewrite E in Hs. by destruct (can_publish _).
  - unfold push_inbound. by case_match.
  - rewrite E in Hs. by constructor.
  - by destruct next.
  - destruct E as [[_ ->]|[_ [-> | ->]]]; by apply Hd.
Qed.

Lemma reach_shape s : hal_reach cfg s → well_shaped s.
Proof.
  induction 1 as [|e s s' _ [Hs Hq Hf] IHs].
  - constructor; [done| |done]. intros pre r reply post E. by destruct pre.
  - destruct (handle_quiet cfg e s s' IHs) as [Ht|(Em & Ep & Ec)]; [by eapply turn_shape|].
    constructor; [by rewrite Ec, Ep|by rewrite Ec|]. unfold flag_true. by rewrite Em, Ec.
Qed.

End sessions.

(** ** Waiters *)

Section waiting.
  Context (cfg : HalRunnerConfig).

Definition ready_place (p : HalRunPc) : Prop := match p with R_Poll | R_Pub Queued _ _ _ => True | _ => False end.

(** A waiter that sleeps, or is about to, holds a slot; behind the wake-up nobody sleeps. *)
Definition heard_at (slots : WakerSlots) (p : HalRunPc) (w : HalWaiter) : Prop :=
  match hw_pc w with
  | WP_Asleep => Some (hw_waker w) ∈ slots ∧ ¬ ready_place p
  | WP_Check true false => Some (hw_waker w) ∈ slots
  | _ => True
  end.

Definition heard (s : HalRun) : Prop := Forall (heard_at (connected s) (pc s)) (waiters s).

Lemma agrees_ready s : agrees cfg s → can_publish (machine s) = true ↔ pc s = R_Wake ∨ ready_place (pc s).
Proof.
  intros [Hp _]. unfold can_publish. rewrite bool_decide_eq_true.
  destruct (pc s) as [| | | | |[] ? ? ?| | | | |] eqn:E; cbn in *; naive_solver congruence.
Qed.

Lemma heard_mono slots slots' p p' w :
  (∀ k, Some k ∈ slots → Some k ∈ slots') → (ready_place p' → ready_place p) → heard_at slots p w → heard_at slots' p' w.
Proof. unfold heard_at. destruct (hw_pc w) as [|[] []| | |]; naive_solver. Qed.

Lemma register_keeps k w : (∀ j, Some j ∈ w → Some j ∈ (slots_register k w).2) ∧ ((slots_register k w).1 = true → Some k ∈ (slots_register k w).2).
Proof.
  unfold slots_register, WakerSlots in *. case_bool_decide; [done|]. destruct (list_find _ w) as [[i x]|] eqn:E; [|done].
  apply list_find_Some in E as (Hi & -> & _). cbn [fst snd]. split; [|intros _; by eapply list_elem_of_insert, lookup_lt_Some].
  intros j (i' & Hj)%list_elem_of_lookup. apply list_elem_of_lookup. exists i'.
  rewrite list_lookup_insert_ne; [done|]. intros ->. congruence.
Qed.

Lemma wake_heard slots p w : heard_at slots p w → heard_at (replicate (length slots) None) R_Poll (hal_wake (omap id slots) w).
Proof.
  intros H. assert (Some (hw_waker w) ∈ slots ↔ hw_waker w ∈ omap id slots) as Hin.
  { unfold WakerSlots in *. rewrite list_elem_of_omap. split; [intros ?; by exists (Some (hw_waker w))|intros ([x|] & ? & E); cbn in E; by simplify_eq]. }
  unfold heard_at, hal_wake in *. destruct w as [k pc]; cbn in *.
  destruct (decide (k ∈ omap id slots)); destruct pc as [|[] []| | |]; cbn in *; try done; naive_solver.
Qed.

Lemma serve_ended_waiters lost s : waiters (serve_ended lost s) = waiters s ∧ connected (serve_ended lost s) = connected s ∧ ¬ ready_place (pc (serve_ended lost s)).
Proof.
  rewrite serve_ended_eq. cbn. unfold lost_publish. destruct (pc s) as [| | | | |[] ? ? ?| | | | |]; auto.
Qed.

Lemma next_subscribe_waiters token rest s :
  waiters (next_subscribe cfg token rest s) = waiters s ∧ connected (next_subscribe cfg token rest s) = connected s ∧
  ¬ ready_place (pc (next_subscribe cfg token rest s)).
Proof.
  unfold next_subscribe, begin_startup, work_done. rewrite feed_machine_eq. destruct rest, (startup cfg); auto.
Qed.

Lemma connack_waiters event s :
  waiters (connack cfg event s) = waiters s ∧ connected (connack cfg event s) = connected s ∧ ¬ ready_place (pc (connack cfg event s)).
Proof.
  unfold connack. rewrite feed_machine_eq. set (m := (poll _ _).2).
  destruct (poll _ _).1 as [| |token subscribe| |]; try exact (serve_ended_waiters false (with_machine m s)).
  exact (next_subscribe_waiters token _ (note (SC_Session event) (with_machine m s))).
Qed.

Lemma publish_waiters who r attempt s :
  (pc s = R_Pub who r attempt false → ∀ reply, let s' := publish_reply who r attempt reply s in
     waiters s' = waiters s ∧ connected s' = connected s ∧ (ready_place (pc s') → ready_place (pc s))) ∧
  (pc s = R_Pub who r attempt true → ∀ reply, let s' := drive_reply who r attempt reply s in
     waiters s' = waiters s ∧ connected s' = connected s ∧ (ready_place (pc s') → ready_place (pc s))).
Proof.
  assert (∀ s, let s' := publish_failed who s in waiters s' = waiters s ∧ connected s' = connected s ∧ ¬ ready_place (pc s')) as Hf.
  { intros s0. destruct who; cbn; [|apply serve_ended_waiters]. unfold work_failed. rewrite feed_machine_eq. exact (serve_ended_waiters false (with_machine _ s0)). }
  assert (∀ s, let s' := published who s in waiters s' = waiters s ∧ connected s' = connected s ∧ (ready_place (pc s') → who = Queued)) as Hp.
  { intros s0. destruct who; cbn; [|done]. unfold work_done. rewrite feed_machine_eq. by cbn. }
  split; intros E reply; rewrite E; cbn zeta.
  - unfold publish_reply. destruct (publish_turn attempt reply).
    + destruct (Hp (settle_publish who r F_Sent (note (SC_Publish who r reply) s))) as (-> & -> & H). destruct who; naive_solver.
    + match goal with |- context [published who ?x] => destruct (Hp x) as (-> & -> & H) end. destruct who; naive_solver.
    + destruct (Hf (note (SC_Publish who r reply) s)) as (-> & -> & H). naive_solver.
    + by destruct who.
  - unfold drive_reply. destruct reply; [by destruct who|destruct (Hf (note (SC_Drive who DR_Err) s)) as (-> & -> & H)|destruct (Hf (note (SC_Drive who DR_Stalled) s)) as (-> & -> & H)]; naive_solver.
Qed.

Lemma heard_quiet s s' :
  heard s → waiters s' = waiters s → connected s' = connected s → (ready_place (pc s') → ready_place (pc s)) → heard s'.
Proof. unfold heard. intros H -> -> Hr. eapply Forall_impl; [exact H|]. intros w. by apply heard_mono. Qed.

Lemma turn_heard s s' : agrees cfg s → heard s → turn cfg s s' → heard s'.
Proof.
  intros Ha H Ht. pose proof (agrees_ready s Ha) as Hr.
  assert (∀ a m, (ready_place (pc s) ∨ True) → heard (dispatch a (with_machine m s))) as Hd.
  { intros a m _. apply (heard_quiet s); try done. by destruct a. }
  destruct Ht as [|E|E|E|lost E|event E|token tq rest E|token tq rest E|who request attempt r E|who request attempt r E|E|? ? ? ? ? E|E|request rest E Eq|next E|i E];
    try done.
  - case_match; [by apply (heard_quiet s)|apply Hd; by right].
  - by apply (heard_quiet s).
  - by apply (heard_quiet s).
  - destruct (serve_ended_waiters lost s) as (E1 & E2 & E3). by apply (heard_quiet s).
  - destruct (connack_waiters event s) as (E1 & E2 & E3). by apply (heard_quiet s).
  - destruct (next_subscribe_waiters token rest (note (SC_Subscribe tq true) s)) as (E1 & E2 & E3). by apply (heard_quiet s).
  - unfold work_failed. rewrite feed_machine_eq. match goal with |- heard (serve_ended ?b ?x) => destruct (serve_ended_waiters b x) as (E1 & E2 & E3) end.
    by apply (heard_quiet s).
  - destruct (proj1 (publish_waiters who request attempt s) E r) as (E1 & E2 & E3). by apply (heard_quiet s).
  - destruct (proj2 (publish_waiters who request attempt s) E r) as (E1 & E2 & E3). by apply (heard_quiet s).
  - rewrite (proj2 Hr) by auto. unfold heard. cbn. apply Forall_map. eapply Forall_impl; [exact H|]. intros w Hw. by eapply wake_heard.
  - apply (heard_quiet s); [done|..]; unfold push_inbound; by case_match.
  - apply (heard_quiet s); try done. intros _. cbn. by rewrite E.
  - apply (heard_quiet s); try done. by destruct next.
  - apply Hd. by right.
Qed.

Lemma waiters_insert n w p s slots :
  heard s → waiters s !! n = Some w → (∀ k, Some k ∈ connected s → Some k ∈ slots) → heard_at slots (pc s) (mkHalWaiter (hw_waker w) p) →
  heard (with_waiters (<[n := mkHalWaiter (hw_waker w) p]> (waiters s)) (with_connected slots s)).
Proof.
  intros H Hn Hs Hp. apply Forall_insert; [|done]. eapply Forall_impl; [exact H|]. intros w'. by apply heard_mono.
Qed.

Lemma handle_heard e s s' : agrees cfg s → heard s → hal_mqtt_step cfg e s = Some s' → heard s'.
Proof.
  intros Ha H Hs. destruct (handle_quiet cfg e s s' Hs) as [Ht|(_ & Ep & _)]; [by eapply turn_heard|].
  destruct e; cbn [hal_mqtt_step] in Hs; try (apply runner_turn in Hs; by eapply turn_heard); try (injection Hs as <-).
  - destruct (try_publish_check _ _ _ _ _); [by apply (heard_quiet s)|done].
  - unfold publish_with in *. destruct (PublishRequest_new _ _ _ _); [by apply (heard_quiet s)|done].
  - unfold send_turn in Hs. destruct (callers s !! n) as [c|]; [|done]. cbn in Hs. unfold hal_try_send in Hs.
    destruct (_ <? _)%nat; [simplify_eq; by apply (heard_quiet s)|]. destruct (cl_waits c); [done|]. simplify_eq. by apply (heard_quiet s).
  - by apply (heard_quiet s).
  - unfold hal_try_receive in *. destruct (inbound_q s); [done|by apply (heard_quiet s)].
  - apply Forall_app. split; [done|]. by constructor.
  - unfold hal_wait_turn in Hs. destruct (waiters s !! n) as [w|] eqn:En; [|done]. cbn in Hs.
    destruct (register_keeps (hw_waker w) (connected s)) as [Hk Hi]. pose proof (Forall_lookup_1 _ _ _ _ H En) as Hw.
    destruct (hw_pc w) as [|r woken| | |] eqn:Epc; try discriminate Hs.
    + destruct (slots_register _ _) as [r slots]; injection Hs as <-. cbn in Hk, Hi.
      apply (waiters_insert n w _ s slots); try done. unfold heard_at. cbn. destruct r; auto.
    + injection Hs as <-. apply (λ Hp, waiters_insert n w _ s (connected s) H En (λ k Hk, Hk) Hp).
      unfold heard_at in *. rewrite Epc in Hw. cbn. pose proof (agrees_ready s Ha) as Hr.
      destruct (can_publish (machine s)) eqn:Ec; [done|]. destruct r, woken; cbn; try done. split; [done|]. intros Hp.
      discriminate (proj2 Hr (or_intror Hp)).
    + injection Hs as <-. by apply (λ Hp, waiters_insert n w WP_Register s (connected s) H En (λ k Hk, Hk) Hp).
  - unfold heard. cbn. apply Forall_alter; [done|]. by intros w _ _.
Qed.

Lemma reach_heard s : hal_reach cfg s → heard s.
Proof.
  induction 1 as [|e s s' Hr IH Hs]; [constructor|]. eapply handle_heard; [by apply reach_agrees|done|done].
Qed.

(** C35: The session is what the handle says it is, on the bare-metal tier. In every interleaving the machine and the runner agree: a CONNACK is always expected, connect work is never seen outside a connection, and the gate never spins. The handle reports a connection, and lets [try_publish] pass, only in a session in which every subscription of the builder was asked for in order and acknowledged, or in which none was asked for because the broker reported in its CONNACK a session it kept, an earlier session with all of them acknowledged had finished its connect work, and no fresh session was reported since; after the subscriptions the session took the startup message, or it was given up. Every message of the queue is published in such a session. And no caller of [wait_connected] is forgotten: once the runner has passed the wake-up of a session nobody sleeps in it, however few slots there are. *)
Theorem hal_mqtt_session (s : HalRun) :
  hal_reach cfg s →
  (can_publish (machine s) = true → established cfg (calls s) ∧ (pc s = R_Wake ∨ Forall (λ w, hw_pc w ≠ WP_Asleep) (waiters s))) ∧
  queue_in_session cfg (calls s) ∧ agrees cfg s ∧ pc s ≠ R_Idle.
Proof.
  intros H. pose proof (reach_agrees cfg s H) as Ha. destruct (reach_shape cfg s H) as [Hs Hq _].
  split_and!; [|done|done|by destruct Ha as [Hp _]; intros E; rewrite E in Hp].
  intros Hc. destruct (proj1 (agrees_ready s Ha) Hc) as [E|E]; [rewrite E in *; auto|].
  split; [by destruct (pc s) as [| | | | |[] ? ? ?| | | | |]|]. right. eapply Forall_impl; [exact (reach_heard s H)|].
  intros w Hw Ew. unfold heard_at in Hw. rewrite Ew in Hw. by destruct Hw.
Qed.

End waiting.

(** ** Recovery *)

Section recovery.
  Context (cfg : HalRunnerConfig).

(** What happens next when the network is up, the broker accepts and every call goes through; nothing
    once the queue is empty. *)
Definition favour (s : HalRun) : option HalEvent :=
  match pc s with
  | R_Gate => Some (HE_Net true)
  | R_Idle | R_Wait _ => Some HE_Timer
  | R_Tcp => Some (HE_Tcp true)
  | R_Mqtt => Some (HE_Mqtt (Some CE_Connected))
  | R_Sub _ _ => Some (HE_Sub true)
  | R_Pub _ _ _ false => Some (HE_Pub PR_Ok)
  | R_Pub _ _ _ true => Some (HE_Drive DR_Ok)
  | R_Wake => Some HE_Wake
  | R_Poll => match publish_q s with [] => None | _ => Some HE_Receive end
  | R_Close _ | R_Shut => Some HE_Closed
  end.

Definition favoured (s : HalRun) : option HalRun := e ← favour s; hal_mqtt_step cfg e s.

Fixpoint hal_served (n : nat) (s : HalRun) : HalRun :=
  match n with
  | O => s
  | S n => match favoured s with Some s => hal_served n s | None => s end
  end.

(** An upper bound of the steps to go. *)
Definition place_rank (p : HalRunPc) : nat :=
  match p with
  | R_Poll => 0
  | R_Pub Queued _ _ driving => if driving then 2 else 1
  | R_Wake => 1
  | R_Pub (Startup _) _ _ driving => if driving then 3 else 2
  | R_Sub _ rest => length rest + 2
  | R_Mqtt => length (subscriptions cfg) + 3
  | R_Tcp => length (subscriptions cfg) + 4
  | R_Gate | R_Wait _ => length (subscriptions cfg) + 5
  | R_Close _ | R_Shut => length (subscriptions cfg) + 6
  | R_Idle => length (subscriptions cfg) + 7
  end.

Definition measure (s : HalRun) : nat := place_rank (pc s) + 2 * length (publish_q s).

(** The requests on their way, and what they will have become. *)
Definition outstanding (s : HalRun) : list PublishRequest := in_flight (pc s) ++ publish_q s.
Definition settled (s : HalRun) : list (PublishRequest * Fate) := fates s ++ map (λ r, (r, F_Sent)) (outstanding s).

Definition nearer (s s' : HalRun) : Prop :=
  (measure s' < measure s)%nat ∧ settled s' = settled s ∧ accepted s' = accepted s.

Lemma next_subscribe_nearer token rest s n :
  in_flight (pc s) = [] → (length rest + 2 < n)%nat →
  let s' := next_subscribe cfg token rest s in
  (measure s' < n + 2 * length (publish_q s))%nat ∧ settled s' = settled s ∧ accepted s' = accepted s.
Proof.
  intros E Hn. unfold next_subscribe, begin_startup, work_done, measure, settled, outstanding. rewrite feed_machine_eq, E.
  destruct rest as [|tq rest]; [destruct (startup cfg)|]; cbn in *; (split; [lia|done]).
Qed.

Lemma favoured_nearer s :
  agrees cfg s → match favoured s with Some s' => nearer s s' | None => pc s = R_Poll ∧ publish_q s = [] end.
Proof.
  intros [Hp _]. unfold favoured, favour, nearer. destruct (pc s) as [| | | |token rest|who r attempt driving| | |next| |ms] eqn:E; cbn in Hp; cbn [mbind option_bind hal_mqtt_step];
    unfold runner_step; rewrite ?E; rewrite ?feed_machine_eq.
  - assert ((poll NetworkUp (machine s)).1 = A_Connect) as -> by (unfold poll; by destruct Hp as [-> | ->]).
    rewrite decide_False by done. unfold measure, settled, outstanding. cbn. rewrite E. cbn. split; [lia|done].
  - done.
  - unfold measure, settled, outstanding. cbn. rewrite E. cbn. split; [lia|done].
  - unfold connack. rewrite feed_machine_eq.
    change (negb (bool_decide (CE_Connected = CE_Connected))) with false.
    assert (poll (Connected false) (machine s) = accept_session false (machine s)) as -> by (unfold poll; by rewrite Hp).
    unfold accept_session. cbn [fst snd negb andb]. cbv iota.
    set (s1 := note _ _). pose proof (next_subscribe_nearer (generation (machine s) ⊞ 1) (subscriptions cfg) s1 (length (subscriptions cfg) + 3)) as H.
    destruct H as (H1 & H2 & H3); [cbn; by rewrite E|lia|]. unfold measure at 2. rewrite E. done.
  - destruct rest as [|tq rest]; [by destruct Hp|]. set (s1 := note _ _).
    destruct (next_subscribe_nearer token rest s1 (S (length rest) + 2)) as (H1 & H2 & H3); [cbn; by rewrite E|lia|]. unfold measure at 2. rewrite E. done.
  - destruct driving.
    + cbn [mbind option_bind hal_mqtt_step]. unfold runner_step. rewrite E. unfold drive_reply, measure, settled, outstanding. cbn. rewrite E. destruct who; cbn; (split; [lia|done]).
    + cbn [mbind option_bind hal_mqtt_step]. unfold runner_step. rewrite E. unfold publish_reply, measure, settled, outstanding. cbn. rewrite E.
      destruct who; cbn; [unfold work_done; rewrite feed_machine_eq; cbn; split; [lia|done]|]. split; [lia|]. by rewrite <- app_assoc.
  - unfold measure, settled, outstanding. destruct (can_publish _); cbn; rewrite E; cbn; (split; [lia|done]).
  - destruct (publish_q s) as [|r rest] eqn:Eq; [done|]. cbn [mbind option_bind hal_mqtt_step]. unfold runner_step. rewrite E, Eq.
    unfold measure, settled, outstanding. cbn. rewrite E, Eq. cbn. split; [lia|done].
  - unfold measure, settled, outstanding. cbn. rewrite E. destruct Hp as [[-> _]|[-> _]]; cbn; (split; [lia|done]).
  - destruct Hp as [idle Hp]. rewrite poll_disconnected by (by rewrite Hp). unfold measure, settled, outstanding. rewrite E.
    destruct (network_up _); cbn; (split; [lia|done]).
  - assert (poll RetryElapsed (machine s) = (A_Connect, set_phase P_Connecting (machine s))) as ->
      by (unfold poll; by rewrite (proj2 Hp), bool_decide_false by done).
    unfold measure, settled, outstanding. rewrite E. cbn. split; [lia|done].
Qed.

Lemma served_reach n s : hal_reach cfg s → hal_reach cfg (hal_served n s).
Proof.
  revert s. induction n as [|n IH]; intros s H; [done|]. cbn. destruct (favoured s) as [s'|] eqn:E; [|done].
  apply IH. unfold favoured in E. destruct (favour s) as [e|]; [|done]. by eapply hal_next.
Qed.

Lemma served_done n s :
  hal_reach cfg s → (measure s ≤ n)%nat →
  pc (hal_served n s) = R_Poll ∧ publish_q (hal_served n s) = [] ∧ settled (hal_served n s) = settled s ∧ accepted (hal_served n s) = accepted s.
Proof.
  revert s. induction n as [|n IH]; intros s H Hn; cbn; pose proof (favoured_nearer s (reach_agrees cfg s H)) as Hf.
  - destruct (favoured s) as [s'|]; [destruct Hf as [? _]; lia|by destruct Hf].
  - destruct (favoured s) as [s'|] eqn:E; [|by destruct Hf]. destruct Hf as (Hm & Hs & Ha).
    assert (hal_reach cfg s') as H' by (unfold favoured in E; destruct (favour s); [by eapply hal_next|done]).
    destruct (IH s' H' ltac:(lia)) as (? & ? & Es & Ea). split_and!; [done|done|congruence|congruence].
Qed.

(** C36: The bare-metal MQTT runner always recovers and then sends what waits. From every reachable state, in whatever phase of an attempt, a session or a shutdown it is, once the network is up, the broker accepts and the calls go through, the runner reaches in at most twice the queue and as many steps as there are subscriptions, and seven, a connected session with an empty queue; by then every request that was queued or on its way was sent, in order, and nothing else was settled. Each of these steps is one the runner waits for with a timer or a poll of its own, so it waits for nobody else. *)
Theorem hal_mqtt_recovers (s : HalRun) :
  hal_reach cfg s →
  let s' := hal_served (2 * PUBLISH_QUEUE_DEPTH + length (subscriptions cfg) + 7) s in
  hal_reach cfg s' ∧ pc s' = R_Poll ∧ can_publish (machine s') = true ∧ publish_q s' = [] ∧ accepted s' = accepted s ∧
  fates s' = fates s ++ map (λ r, (r, F_Sent)) (in_flight (pc s) ++ publish_q s).
Proof.
  intros H s'. pose proof (served_reach (2 * PUBLISH_QUEUE_DEPTH + length (subscriptions cfg) + 7) s H) as H'. fold s' in H'.
  destruct (served_done (2 * PUBLISH_QUEUE_DEPTH + length (subscriptions cfg) + 7) s H) as (Hp & Hq & Hs & Ha).
  { pose proof (reach_accounts cfg s H) as [_ _ _ _ [Hb _] _ _ _]. pose proof (reach_agrees cfg s H) as [Hp _]. unfold measure.
    assert (place_rank (pc s) ≤ length (subscriptions cfg) + 7)%nat; [|lia].
    pose proof (reach_shape cfg s H) as [Hsh _ _]. destruct (pc s) as [| | | |token rest|[] ? ? []| | | | |]; cbn; try lia.
    destruct Hsh as (pre & event & done & _ & E). apply (f_equal length) in E. rewrite length_app in E. lia. }
  fold s' in Hp, Hq, Hs, Ha. split_and!; try done.
  - apply (agrees_ready cfg s' (reach_agrees cfg s' H')). right. by rewrite Hp.
  - unfold settled, outstanding in Hs. rewrite Hp, Hq in Hs. cbn in Hs. by rewrite app_nil_r in Hs.
Qed.

End recovery.

(** ** Concrete runs *)

Lemma hal_run_reach cfg es : ∀ s s', hal_reach cfg s → hal_run cfg es s = Some s' → hal_reach cfg s'.
Proof.
  induction es as [|e es IH]; intros s s' H; cbn; [by intros [= <-]|].
  destruct (hal_mqtt_step cfg e s) as [s1|] eqn:E; [|done]. cbn. apply IH. by eapply hal_next.
Qed.

(** A message and a waiter come before the network; the transmit arena is full once. *)
Definition sample_builder : MqttBuilder :=
  with_startup_message "knob/status" [111; 110] AtLeastOnce true
    (builder_subscribe "knob/cmd/#" ExactlyOnce (MqttBuilder_new (MqttConfig_new " 192.168.1.10" 1883 "knob-01"))).
Definition sample_runner : HalRunnerConfig :=
  mkHalRunnerConfig [("knob/cmd/#", AtLeastOnce)] (Some (mkStartup "knob/status" [111; 110] AtLeastOnce true)) (mkIp 192 168 1 10, 1883)
    5000 75000 45000 10000.
Definition sample_events : list HalEvent :=
  [HE_Publish "knob/level" [7] ExactlyOnce false; HE_Send 0; HE_WaitConnected 3; HE_WaitTurn 0; HE_WaitTurn 0; HE_Net false; HE_Net true;
   HE_Tcp true; HE_Mqtt (Some CE_Reconnected); HE_Sub true; HE_Pub PR_NotReady; HE_Drive DR_Ok; HE_Pub PR_Ok; HE_Wake; HE_Receive].
Definition sample_request : PublishRequest := mkRequest "knob/level" [7] AtLeastOnce false.
Definition sample_state : HalRun := default (HalShared_new 10000) (hal_run sample_runner sample_events (HalShared_new 10000)).

Example sample_builds : build sample_builder (Ok tt) false = (Ok sample_runner, true).
Proof. by vm_compute. Qed.

Lemma sample_reached : hal_reach sample_runner sample_state.
Proof. apply (hal_run_reach sample_runner sample_events (HalShared_new 10000)); [apply hal_start|by vm_compute]. Qed.

Lemma hal_mqtt_fifo_witness :
  pc sample_state = R_Pub Queued sample_request 1 false ∧ accepted sample_state = [sample_request] ∧
  accepted sample_state = map fst (fates sample_state) ++ in_flight (pc sample_state) ++ publish_q sample_state.
Proof. split; [by vm_compute|]. split; [by vm_compute|]. apply (hal_mqtt_fifo sample_runner sample_state sample_reached). Defined.

(** The session of [sample_state] ends, and the broker kept it: nothing is subscribed again. *)
Definition kept_events : list HalEvent :=
  sample_events ++ [HE_Pub PR_Ok; HE_PollEnd; HE_Closed; HE_Timer; HE_Tcp true; HE_Mqtt (Some CE_Reconnected); HE_Pub PR_Ok; HE_Wake].
Definition kept_state : HalRun := default (HalShared_new 10000) (hal_run sample_runner kept_events (HalShared_new 10000)).

Lemma hal_mqtt_session_witness :
  can_publish (machine kept_state) = true ∧ established sample_runner (calls kept_state) ∧
  drop (length (calls kept_state) - 3) (calls kept_state) =
    [SC_End; SC_Session CE_Reconnected; SC_Publish (Startup 2) (mkRequest "knob/status" [111; 110] AtLeastOnce true) PR_Ok].
Proof.
  assert (hal_reach sample_runner kept_state) as Hr.
  { apply (hal_run_reach sample_runner kept_events (HalShared_new 10000)); [apply hal_start|by vm_compute]. }
  split; [by vm_compute|]. split; [|by vm_compute].
  destruct (hal_mqtt_session sample_runner kept_state Hr) as (H & _). destruct H as [H _]; [by vm_compute|exact H].
Defined.

Lemma hal_mqtt_recovers_witness :
  let s' := hal_served sample_runner (2 * PUBLISH_QUEUE_DEPTH + 1 + 7) sample_state in
  pc s' = R_Poll ∧ fates s' = [(sample_request, F_Sent)].
Proof.
  destruct (hal_mqtt_recovers sample_runner sample_state sample_reached) as (_ & Hp & _ & _ & _ & Hf).
  split; [exact Hp|]. refine (eq_trans Hf _). by vm_compute.
Defined.

(** A startup message that does not fit the queue's types is checked by nobody: it is published
    without its payload, which takes a retained message off the broker. *)
Example startup_payload_lost :
  let b := with_startup_message "knob/status" (replicate 300 120) AtLeastOnce true (MqttBuilder_new (MqttConfig_new "10.0.0.1" 1883 "k")) in
  match (build b (Ok tt) false).1 with
  | Ok cfg => option_map startup_request (startup cfg) = Some (mkRequest "knob/status" [] AtLeastOnce true)
  | Err _ => False
  end.
Proof. by vm_compute. Qed.

(** ** Deadlines *)

(** Every keep-alive the builder accepts: the socket times out after the keep-alive and five
    seconds at the least, the stall deadline a keep-alive later and, from ten seconds on, after two
    and a half of them. *)
Lemma deadlines_ordered k :
  1 ≤ k ≤ u16_max →
  k * 1000 + 5000 ≤ socket_timeout_ms k ∧ stall_timeout_ms k = socket_timeout_ms k + k * 1000 ∧
  (10 ≤ k → stall_timeout_ms k = k * 2500).
Proof.
  intros Hk. unfold stall_timeout_ms, socket_timeout_ms, u64_add, u64_mul, u64_max, u16_max in *.
  rewrite !(Z.min_r _ (k * _)) by lia. rewrite (Z.min_r _ (k * 1000 + 5000)) by lia.
  destruct (Z.ltb_spec (k * 1000 + 5000) (k * 1500)); rewrite Z.min_r by lia; lia.
Qed.
