(* ===== verification/IdfOta.v ===== *)
(** * IdfOta: the update session of the ESP-IDF tier ([ota/downloader.rs], [ota/flasher.rs] and
    [ota/mod.rs] of [rustyfarian-esp-idf-network])

    The HTTP client, the OTA partition and the clock are third-party code: the client is a state
    with its calls, the others answer as an environment, and the world records the calls that reach
    the flash with their results. *)
From Stdlib Require Import Ascii.
From S2P Require Import Prelude Text Version Url Hex Config Fetch.
Open Scope Z_scope.
Open Scope rn_scope.

Definition DOWNLOAD_BUFFER_SIZE : nat := Z.to_nat 4096.

(** ** Logging a URL *)

(** [split_once] at a string. *)
Fixpoint split_once_str (sep s : string) : option (string * string) :=
  match strip_prefix sep s with
  | Some rest => Some (EmptyString, rest)
  | None =>
      match s with
      | EmptyString => None
      | String a s => '(l, r) ← split_once_str sep s; Some (String a l, r)
      end
  end.

Definition url_for_log (url : string) : string :=
  match split_once_str "://" url with
  | None => url
  | Some (scheme, rest) =>
      let '(authority, path) := default (rest, EmptyString) (split_once "/"%char rest) in
      let authority_no_userinfo := after_last "@"%char authority in
      if decide (path = EmptyString) then scheme +:+ "://" +:+ authority_no_userinfo
      else scheme +:+ "://" +:+ authority_no_userinfo +:+ "/" +:+ path
  end.

(** ** The HTTP client *)

(** A read fails with the code of the backend. *)
Class HttpClient (K : Type) := {
  http_new : duration → M K unit unit;
  http_request : string → string → M K unit unit;
  http_response : M K unit unit;
  http_status : K → Z;
  http_content_len : K → option Z;
  http_recv : nat → M K Z (list Z) }.
#[global] Hint Mode HttpClient ! : typeclass_instances.

(** Calls into the OTA partition: the session it opens for an image of that length. *)
Inductive FlashOp := FO_Begin (image_len : Z) | FO_Write (data : list Z) | FO_Complete | FO_Abort.

Definition flash_log : Type := list (FlashOp * bool).

(** What the [n]-th reading of the clock says, whether the one handle of the partition is free, the
    size of the update partition, and whether the next call succeeds. *)
Record IdfEnv := mkIdfEnv {
  clock : nat → duration; ota_free : bool; capacity : option Z; op_ok : flash_log → FlashOp → bool }.

(** [readings]: for every reading of the clock, the number of calls that had reached the partition before it. *)
Record IdfWorld (K : Type) := mkIdfWorld { http : K; readings : list nat; flash_ops : flash_log }.
Arguments mkIdfWorld {K}.
Arguments http {K}.
Arguments readings {K}.
Arguments flash_ops {K}.

Definition ACCEPT_FIRMWARE : string := "application/octet-stream".

(** [Content-Length] against the partition; a length fits [u64]. *)
Definition check_content_length (content_length : option Z) (cap : Z) : result OtaError Z :=
  match content_length with
  | None => Err (DownloadFailed 0)
  | Some len => if len =? 0 then Err (DownloadFailed 0) else if cap <? len then Err InsufficientSpace else Ok len
  end.

Definition check_body_complete (received expected : Z) : result OtaError unit :=
  if received =? expected then Ok tt else Err (DownloadFailed 0).

Section session.
  Context {K : Type} `{HttpClient K} (ESP_ERR_HTTP_EAGAIN : Z).
  Context {Sha256 : Type} (sha_new : Sha256) (sha_update : Sha256 → list Z → Sha256) (sha_finalize : Sha256 → list Z).
  Context (env : IdfEnv) (timeout_secs : Z) (deadline : Deadline).

Local Abbreviation MI := (M (IdfWorld K) OtaError).
Local Abbreviation Verifier := (StreamingVerifier (Sha256 := Sha256)).

Definition is_read_timeout (code : Z) : bool := (code =? - ESP_ERR_HTTP_EAGAIN) || (code =? ESP_ERR_HTTP_EAGAIN).

Definition unreachable {A} (m : M K unit A) : M K OtaError A := λ s,
  let '(r, s) := m s in (map_err (λ _, ServerUnreachable) r, s).

Definition check_status : M K OtaError unit := λ s,
  (if http_status s =? 200 then Ok tt else Err (DownloadFailed (http_status s)), s).

Definition create_http_connection (url : string) (timeout : duration) (accept : string) : M K OtaError unit :=
  if negb (bool_decide (strip_prefix "https://" url = None)) then throw ServerUnreachable
  else
    _ ← unreachable (http_new timeout);
    _ ← unreachable (http_request url accept);
    _ ← unreachable http_response;
    check_status.

Definition on_http {A} (m : M K OtaError A) : MI A := λ w,
  let '(r, s) := m (http w) in (r, mkIdfWorld s (readings w) (flash_ops w)).

(** [start.elapsed()]. *)
Definition idf_elapsed (w : IdfWorld K) : duration * IdfWorld K :=
  (clock env (length (readings w)), mkIdfWorld (http w) (readings w ++ [length (flash_ops w)]) (flash_ops w)).

Definition idf_check : MI unit := λ w,
  let '(elapsed, w) := idf_elapsed w in (deadline_check deadline elapsed, w).

Definition idf_permit : MI ActivationPermit := λ w,
  let '(elapsed, w) := idf_elapsed w in (permit_activation deadline elapsed, w).

Definition response_content_length : MI (option Z) := λ w, (Ok (http_content_len (http w)), w).

(** One call into the partition. *)
Definition flash_call (op : FlashOp) : MI unit := λ w,
  let ok := op_ok env (flash_ops w) op in
  (if ok then Ok tt else Err FlashWriteFailed, mkIdfWorld (http w) (readings w) (flash_ops w ++ [(op, ok)])).

Definition flasher_new : MI unit := of_result (if ota_free env then Ok tt else Err PartitionNotFound).
Definition update_partition_capacity : result OtaError Z :=
  match capacity env with Some size => Ok size | None => Err PartitionNotFound end.

(** [client.read] into the first [want] bytes of the buffer. *)
Definition idf_read (want : nat) : M K OtaError (list Z) := λ s,
  let '(r, s) := http_recv want s in
  (match r with Ok l => Ok (take want l) | Err code => Err (classify_read_error (is_read_timeout code)) end, s).

(** [VerifyingWriter::write] through [write_all]. *)
Definition verifying_write (data : list Z) (v : Verifier) : MI Verifier :=
  let v := verifier_update sha_update data v in
  _ ← flash_call (FO_Write data);
  mret v.

(** Each turn takes a byte or more, or ends. *)
Fixpoint stream_loop (fuel : nat) (expected_len downloaded : Z) (v : Verifier) : MI (Z * Verifier) :=
  if expected_len <=? downloaded then mret (downloaded, v)
  else
    match fuel with
    | O => mret (downloaded, v)
    | S fuel =>
        chunk ← on_http (idf_read (Nat.min (Z.to_nat (expected_len - downloaded)) DOWNLOAD_BUFFER_SIZE));
        if decide (chunk = []) then mret (downloaded, v)
        else
          _ ← idf_check;
          v ← verifying_write chunk v;
          _ ← idf_check;
          stream_loop fuel expected_len (downloaded + Z.of_nat (length chunk)) v
    end.

Definition stream (expected_len : Z) (v : Verifier) : MI Verifier :=
  dv ← stream_loop (Z.to_nat expected_len) expected_len 0 v;
  _ ← of_result (check_body_complete (fst dv) expected_len);
  mret (snd dv).

(** The abort result is ignored. *)
Definition abort_with (e : OtaError) : MI unit := λ w,
  let '(_, w) := flash_call FO_Abort w in (Err e, w).

(** [if let Err(e) = r { return Err(abort_with(writer, e)) }]. *)
Definition or_abort {A} (m : MI A) (f : A → MI unit) : MI unit := λ w,
  match m w with
  | (Ok a, w) => f a w
  | (Err e, w) => abort_with e w
  end.

(** What follows [begin]. *)
Definition write_session (image_len : Z) (expected_sha256 : list Z) : MI unit :=
  or_abort idf_check (λ _,
  or_abort (stream image_len (StreamingVerifier_new sha_new)) (λ v,
  if decide (verifier_finalize sha_finalize v = expected_sha256) then
    or_abort idf_check (λ _,
    or_abort idf_permit (λ _, flash_call FO_Complete))
  else abort_with ChecksumMismatch)).

Definition idf_fetch_and_apply (url : string) (expected_sha256 : list Z) : MI unit :=
  _ ← idf_check;
  _ ← on_http (create_http_connection url (from_secs timeout_secs) ACCEPT_FIRMWARE);
  _ ← idf_check;
  content_length ← response_content_length;
  _ ← flasher_new;
  cap ← of_result update_partition_capacity;
  image_len ← of_result (check_content_length content_length cap);
  _ ← flash_call (FO_Begin image_len);
  write_session image_len expected_sha256.

Definition idf_init (s : K) : IdfWorld K := mkIdfWorld s [] [].

(** [mark_valid], and [rollback], which returns only when it failed. *)
Definition idf_mark_valid (marked : bool) : result OtaError unit :=
  if negb (ota_free env) then Err FlashWriteFailed else if marked then Ok tt else Err FlashWriteFailed.
Definition idf_rollback_failed : result OtaError unit := Err FlashWriteFailed.

End session.

(** ** Nothing but a verified image is selected *)

Definition writes (chunks : list (list Z)) : flash_log := map (λ d, (FO_Write d, true)) chunks.

Section safety.
  Context {K : Type} `{HttpClient K} (ESP_ERR_HTTP_EAGAIN : Z).
  Context {Sha256 : Type} (sha_new : Sha256) (sha_update : Sha256 → list Z → Sha256) (sha_finalize : Sha256 → list Z).
  Context (env : IdfEnv) (timeout_secs : Z) (deadline : Deadline).

Local Abbreviation Verifier := (StreamingVerifier (Sha256 := Sha256)).

Definition hashed (v : Verifier) (chunks : list (list Z)) : Prop := hasher v = foldl sha_update sha_new chunks.

(** The image so far, and a write that failed behind it, within the length that was erased. *)
Definition written_within (n : Z) (chunks : list (list Z)) (tail : flash_log) : Prop :=
  (tail = [] ∧ Z.of_nat (length (concat chunks)) ≤ n) ∨
  (∃ data, tail = [(FO_Write data, false)] ∧ Z.of_nat (length (concat chunks ++ data)) ≤ n).

(** When the clock is read in an update of [k] chunks that is completed: on entry, after connecting, after the
    erase, before and after every write, after the verification, and before the activation. *)
Fixpoint chunk_points (ops : nat) (k : nat) : list nat :=
  match k with O => [] | S k => [ops; S ops] ++ chunk_points (S ops) k end.
Definition opening_points (k : nat) : list nat := [0; 0; 1]%nat ++ chunk_points 1 k.
Definition check_points (k : nat) : list nat := opening_points k ++ [1 + k; 1 + k]%nat.

(** Every reading of the clock so far was before the deadline. *)
Definition all_passed (rs : list nat) : Prop :=
  ∀ t, (t < length rs)%nat → deadline_check deadline (clock env t) = Ok tt.

Lemma all_passed_snoc rs x : all_passed rs → deadline_check deadline (clock env (length rs)) = Ok tt → all_passed (rs ++ [x]).
Proof. intros Hp Hx t. rewrite length_app. cbn. intros Ht. destruct (decide (t = length rs)) as [->|]; [done|apply Hp; lia]. Qed.

Lemma chunk_points_snoc ops k : chunk_points ops (S k) = chunk_points ops k ++ [ops + k; S (ops + k)]%nat.
Proof.
  revert ops. induction k as [|k IH]; intros ops; [cbn; by rewrite Nat.add_0_r|].
  change (chunk_points ops (S (S k))) with ([ops; S ops] ++ chunk_points (S ops) (S k)). rewrite IH. cbn. by rewrite Nat.add_succ_r.
Qed.

Lemma opening_snoc k : opening_points (S k) = (opening_points k ++ [1 + k]%nat) ++ [2 + k]%nat.
Proof. unfold opening_points. rewrite chunk_points_snoc. rewrite <- !app_assoc. done. Qed.

Lemma writes_snoc chunks d : writes (chunks ++ [d]) = writes chunks ++ [(FO_Write d, true)].
Proof. apply map_app. Qed.

Lemma idf_read_length want (s : K) : match (idf_read ESP_ERR_HTTP_EAGAIN want s).1 with Ok l => (length l ≤ want)%nat | Err _ => True end.
Proof. unfold idf_read. destruct (http_recv want s) as [[l|] s']; cbn; [|done]. rewrite length_take. lia. Qed.

Lemma stream_loop_spec n fuel : ∀ downloaded v (w : IdfWorld K) chunks,
  downloaded = Z.of_nat (length (concat chunks)) → downloaded ≤ n →
  flash_ops w = (FO_Begin n, true) :: writes chunks → hashed v chunks →
  readings w = opening_points (length chunks) → all_passed (readings w) →
  let '(r, w') := stream_loop ESP_ERR_HTTP_EAGAIN sha_update env deadline fuel n downloaded v w in
  ∃ chunks' tail, flash_ops w' = (FO_Begin n, true) :: writes chunks' ++ tail ∧ written_within n chunks' tail ∧
    match r with
    | Ok (d, v') => tail = [] ∧ d = Z.of_nat (length (concat chunks')) ∧ hashed v' chunks' ∧
                    readings w' = opening_points (length chunks') ∧ all_passed (readings w')
    | Err _ => True
    end.
Proof.
  induction fuel as [|fuel IH]; intros downloaded v w chunks Hd Hn Hops Hv Hrd Hps; cbn [stream_loop].
  { destruct (n <=? downloaded); cbn; exists chunks, []; rewrite app_nil_r; (split; [done|]; split; [left; split; [done|lia]|done]). }
  destruct (n <=? downloaded) eqn:En; [cbn; exists chunks, []; rewrite app_nil_r; split; [done|]; split; [left; split; [done|lia]|done]|].
  apply Z.leb_gt in En. rewrite M_bind_eq. unfold on_http at 1.
  set (want := Nat.min _ _). pose proof (idf_read_length want (http w)) as Hlen. destruct (idf_read _ want (http w)) as [[chunk|e] s]; cbn in Hlen;
    [|exists chunks, []; rewrite app_nil_r; split; [done|]; split; [left; split; [done|lia]|done]].
  destruct (decide (chunk = [])) as [|Hc]; [exists chunks, []; rewrite app_nil_r; split; [done|]; split; [left; split; [done|lia]|done]|].
  rewrite M_bind_eq. unfold idf_check, idf_elapsed at 1. cbn [readings http flash_ops].
  cbn [mbind]. destruct (deadline_check deadline (clock env (length (readings w)))) as [[]|e] eqn:Ed1; [|exists chunks, []; rewrite app_nil_r; split; [done|]; split; [left; split; [done|lia]|done]].
  assert (Z.of_nat (length (concat chunks ++ chunk)) ≤ n) as Hn' by (rewrite length_app; unfold want in Hlen; lia).
  rewrite M_bind_eq. unfold verifying_write. rewrite M_bind_eq. unfold flash_call. cbn [readings http flash_ops].
  destruct (op_ok env (flash_ops w) (FO_Write chunk)).
  2:{ exists chunks, [(FO_Write chunk, false)]. split; [cbn; by rewrite Hops|]. split; [right; by exists chunk|done]. }
  cbn [mret M_ret]. rewrite M_bind_eq. unfold idf_check, idf_elapsed at 1. cbn [readings http flash_ops].
  set (w2 := mkIdfWorld s _ _).
  assert (readings w2 = opening_points (length (chunks ++ [chunk]))) as Hrd2.
  { unfold w2. cbn [readings]. rewrite Hrd, Hops, !length_app. cbn [length]. unfold writes. rewrite length_map. by rewrite !Nat.add_1_r, opening_snoc. }
  assert (flash_ops w2 = (FO_Begin n, true) :: writes (chunks ++ [chunk])) as Hops2 by (unfold w2; cbn; by rewrite Hops, writes_snoc).
  assert (concat (chunks ++ [chunk]) = concat chunks ++ chunk) as Hcat by (rewrite concat_app; cbn; by rewrite app_nil_r).
  destruct (deadline_check deadline (clock env (length (readings w ++ [length (flash_ops w)])))) as [[]|e] eqn:Ed2.
  - apply (IH _ _ w2 (chunks ++ [chunk])); [rewrite Hcat, length_app; lia|rewrite length_app in Hn'; lia|done| |done|].
    + unfold hashed in *. cbn. by rewrite foldl_snoc, Hv.
    + unfold w2. cbn [readings]. by apply all_passed_snoc; [apply all_passed_snoc|].
  - exists (chunks ++ [chunk]), []. rewrite app_nil_r. split; [done|]. split; [left; by rewrite Hcat|done].
Qed.

(** A length is a [u64]; hashing in pieces is hashing the whole. *)
Context (len_u64 : ∀ (s : K) n, http_content_len s = Some n → 0 ≤ n).
Context (sha256 : list Z → list Z).
Context (sha_streams : ∀ chunks, sha_finalize (foldl sha_update sha_new chunks) = sha256 (concat chunks)).

(** A session that was begun and aborted, or completed with the image the caller asked for. *)
Definition session_closed (n : Z) (expected : list Z) (w : IdfWorld K) (r : result OtaError unit) : Prop :=
  ∃ chunks tail ok, flash_ops w = (FO_Begin n, true) :: writes chunks ++ tail ++ [ok] ∧ written_within n chunks tail ∧
  (ok.1 = FO_Abort ∧ r ≠ Ok tt ∨
   tail = [] ∧ ok.1 = FO_Complete ∧ Z.of_nat (length (concat chunks)) = n ∧ sha256 (concat chunks) = expected ∧
   readings w = check_points (length chunks) ∧ all_passed (readings w) ∧ r = if ok.2 then Ok tt else Err FlashWriteFailed).

Lemma or_abort_eq {A} (m : M (IdfWorld K) OtaError A) f w :
  or_abort env m f w = match m w with (Ok a, w) => f a w | (Err e, w) => (Err e, mkIdfWorld (http w) (readings w) (flash_ops w ++ [(FO_Abort, op_ok env (flash_ops w) FO_Abort)])) end.
Proof. unfold or_abort. destruct (m w) as [[a|e] w']; [done|]. done. Qed.

Lemma aborted n expected (w : IdfWorld K) chunks tail e :
  flash_ops w = (FO_Begin n, true) :: writes chunks ++ tail → written_within n chunks tail →
  session_closed n expected (mkIdfWorld (http w) (readings w) (flash_ops w ++ [(FO_Abort, op_ok env (flash_ops w) FO_Abort)])) (Err e).
Proof.
  intros Hops Hw. exists chunks, tail, (FO_Abort, op_ok env (flash_ops w) FO_Abort).
  cbn [flash_ops]. rewrite Hops at 1. split; [cbn; by rewrite <- app_assoc|]. split; [done|]. by left.
Qed.

Lemma write_session_spec n expected (w : IdfWorld K) :
  0 < n → flash_ops w = [(FO_Begin n, true)] → readings w = [0; 0]%nat → all_passed (readings w) →
  let '(r, w') := write_session ESP_ERR_HTTP_EAGAIN sha_new sha_update sha_finalize env deadline n expected w in
  session_closed n expected w' r.
Proof using sha_streams.
  intros Hn Hops Hrd Hps. unfold write_session. rewrite or_abort_eq. unfold idf_check, idf_elapsed at 1. set (w1 := mkIdfWorld _ _ _).
  assert (flash_ops w1 = (FO_Begin n, true) :: writes []) as H1 by done.
  destruct (deadline_check deadline (clock env (length (readings w)))) as [[]|e] eqn:E1; [|apply (aborted n expected w1 [] [] e); [done|left; cbn; split; [done|lia]]].
  assert (readings w1 = opening_points 0) as Hrd1 by (unfold w1; cbn [readings]; by rewrite Hrd, Hops).
  assert (all_passed (readings w1)) as Hps1 by by apply all_passed_snoc.
  rewrite or_abort_eq. unfold stream. rewrite M_bind_eq.
  pose proof (stream_loop_spec n (Z.to_nat n) 0 (StreamingVerifier_new sha_new) w1 [] eq_refl ltac:(lia) H1 eq_refl Hrd1 Hps1) as Hs.
  destruct (stream_loop _ _ _ _ _ _ _ _ w1) as [[[d v]|e] w2]; destruct Hs as (chunks & tail & Hops2 & Hw & Hr);
    [|by apply (aborted n expected w2 chunks tail e)].
  destruct Hr as (-> & -> & Hv & Hrd2 & Hps2). rewrite app_nil_r in Hops2. cbn [fst snd]. rewrite M_bind_eq. unfold of_result, check_body_complete.
  assert (flash_ops w2 = (FO_Begin n, true) :: writes chunks ++ []) as Hops2' by (by rewrite app_nil_r).
  destruct (Z.eqb_spec (Z.of_nat (length (concat chunks))) n) as [Hlen|]; [|by apply (aborted n expected w2 chunks [])].
  cbn [mret M_ret]. unfold verifier_finalize. rewrite Hv, sha_streams.
  destruct (decide (sha256 (concat chunks) = expected)) as [Hsha|];
    [|apply (aborted n expected w2 chunks [] ChecksumMismatch Hops2' Hw)].
  rewrite or_abort_eq. unfold idf_check, idf_elapsed. set (w3 := mkIdfWorld _ _ _).
  destruct (deadline_check deadline (clock env (length (readings w2)))) as [[]|e] eqn:E3; [|by apply (aborted n expected w3 chunks [])].
  rewrite or_abort_eq. unfold idf_permit, idf_elapsed, permit_activation. set (w4 := mkIdfWorld (http w3) _ _).
  destruct (deadline_check deadline (clock env (length (readings w3)))) as [[]|e] eqn:Ed; cbn [mbind result_bind];
    [|by apply (aborted n expected w4 chunks [])].
  unfold flash_call. exists chunks, [], (FO_Complete, op_ok env (flash_ops w4) FO_Complete). cbn [flash_ops].
  split; [unfold w4, w3 at 1; cbn; by rewrite Hops2|]. split; [done|]. right.
  assert (length (flash_ops w2) = 1 + length chunks)%nat as Hl2 by (rewrite Hops2; unfold writes; cbn; by rewrite length_map).
  split_and!; try done; cbn [readings w4 w3]; [|by apply all_passed_snoc; [apply all_passed_snoc|]].
  unfold w4, w3. cbn [readings flash_ops]. by rewrite Hrd2, Hl2, <- app_assoc.
Qed.


End safety.

(** ** Credentials stay out of the log *)

Lemma split_once_str_scheme scheme rest :
  no_char ":"%char scheme → split_once_str "://" (scheme +:+ "://" +:+ rest) = Some (scheme, rest).
Proof.
  unfold no_char. induction scheme as [|a scheme IH]; [done|]. cbn [str_forall]. intros [Ha%negb_true_iff Hno]%andb_true_iff.
  change (String a scheme +:+ "://" +:+ rest) with (String a (scheme +:+ "://" +:+ rest)).
  set (t := scheme +:+ "://" +:+ rest) in *. cbn [split_once_str strip_prefix]. rewrite Ascii.eqb_sym, Ha. by rewrite (IH Hno).
Qed.

Lemma string_append_assoc (a b c : string) : (a +:+ b) +:+ c = a +:+ b +:+ c.
Proof. induction a as [|x a IH]; [done|]. change (String x ((a +:+ b) +:+ c) = String x (a +:+ b +:+ c)). by rewrite IH. Qed.

Lemma no_char_app c s t : no_char c s → no_char c t → no_char c (s +:+ t).
Proof. unfold no_char. intros Hs Ht. by rewrite str_forall_app, Hs, Ht. Qed.

(** Whatever stands before the last [@] of the authority is not in what is logged. *)
Lemma url_for_log_hides scheme credentials host path :
  no_char ":"%char scheme → no_char "/"%char credentials → no_char "/"%char host → no_char "@"%char host →
  url_for_log (scheme +:+ "://" +:+ credentials +:+ "@" +:+ host +:+ "/" +:+ path) =
  scheme +:+ "://" +:+ host +:+ (if decide (path = EmptyString) then EmptyString else "/" +:+ path).
Proof.
  intros Hs Hc Hh Ha. unfold url_for_log. rewrite split_once_str_scheme by done.
  assert (credentials +:+ "@" +:+ host +:+ "/" +:+ path = (credentials +:+ "@" +:+ host) +:+ String "/"%char path) as ->
    by (change (String "/" path) with ("/" +:+ path); by rewrite !string_append_assoc).
  rewrite split_once_app by (apply no_char_app; [done|by apply no_char_app]). cbn [default id].
  change ("@" +:+ host) with (String "@"%char host). rewrite after_last_app by done. case_decide; [|done]. by rewrite app_nil_str.
Qed.

(** ** A concrete run *)

(** A connection with its status, its length and the segments to come. *)
Record SegHttp := mkSegHttp { seg_status : Z; seg_len : option Z; segs : list (list Z) }.

#[export] Instance SegHttp_client : HttpClient SegHttp := {
  http_new _ s := (Ok tt, s);
  http_request _ _ s := (Ok tt, s);
  http_response s := (Ok tt, s);
  http_status := seg_status;
  http_content_len s := Z.abs <$> seg_len s;
  http_recv n s :=
    match segs s with
    | [] => (Ok [], s)
    | seg :: rest => (Ok (take n seg), mkSegHttp (seg_status s) (seg_len s) (if (length seg <=? n)%nat then rest else drop n seg :: rest))
    end }.

Definition append_update (h chunk : list Z) : list Z := h ++ chunk.

Lemma append_streams chunks : foldl append_update [] chunks = concat chunks.
Proof.
  enough (∀ h, foldl append_update h chunks = h ++ concat chunks) as H by apply H.
  induction chunks as [|c chunks IH]; intros h; cbn; [by rewrite app_nil_r|]. rewrite IH. unfold append_update. by rewrite app_assoc.
Qed.

Definition idf_sample_env (write_ok : bool) : IdfEnv :=
  mkIdfEnv (λ n, Z.of_nat n) true (Some 4096) (λ l op, match op with FO_Write _ => write_ok || (length l <? 2)%nat | _ => true end).
Definition idf_sample_run (write_ok : bool) (expected : list Z) : result OtaError unit * IdfWorld SegHttp :=
  idf_fetch_and_apply 28679 [] append_update (λ h, h) (idf_sample_env write_ok) 30 (Deadline_after (from_secs 60))
    "http://10.0.0.2/fw.bin" expected (idf_init (mkSegHttp 200 (Some 5) [[233; 1]; [2; 3; 4]])).

Lemma seg_len_nonneg (s : SegHttp) n : http_content_len s = Some n → 0 ≤ n.
Proof. intros (m & _ & ->)%fmap_Some. lia. Qed.


(** A write that fails, or another digest, aborts the session. *)
Example idf_aborts :
  flash_ops (idf_sample_run false [233; 1; 2; 3; 4]).2 =
    [(FO_Begin 5, true); (FO_Write [233; 1], true); (FO_Write [2; 3; 4], false); (FO_Abort, true)] ∧
  (idf_sample_run true [0]).1 = Err ChecksumMismatch.
Proof. by vm_compute. Qed.
