(* ===== verification/IdfOtaStore.v ===== *)
(** * IdfOtaStore: the NVS backend and the hardware facts of the ESP-IDF update tier
    ([ota/store.rs] and [ota/boot_facts.rs] of [rustyfarian-esp-idf-network])

    [EspNvs] is the third-party NVS handle, with the documented behaviour of NVS as its laws; the
    backend on top of it is shown to keep the contract that every theorem about the record store
    rests on.  [EspOta] answers as an environment. *)
From Stdlib Require Import Ascii.
From S2P Require Import Prelude Text Decision Kv KvLogic Store Boot.
Open Scope Z_scope.
Open Scope rn_scope.

(** ** The NVS handle *)

(** Errors are codes.  A getter answers [None] for a key that is absent and for one of another type;
    [nvs_set_str] is the raw call of the C library. *)
Class EspNvs (K : Type) := {
  nvs_find_key : string → M K Z bool;
  nvs_get_u8 : string → M K Z (option Z);
  nvs_get_u32 : string → M K Z (option Z);
  nvs_get_str : nat → string → M K Z (option string);
  nvs_set_u8 : string → Z → M K Z unit;
  nvs_set_u32 : string → Z → M K Z unit;
  nvs_set_str : string → string → M K Z unit;
  nvs_commit : M K Z unit;
  nvs_remove : string → M K Z bool }.
#[global] Hint Mode EspNvs ! : typeclass_instances.

Inductive NvsVal := NU8 (n : Z) | NU32 (n : Z) | NStr (s : string).

Definition STR_BUF_LEN : nat := 33.

Section backend.
  Context {K : Type} `{EspNvs K}.

(** [.map_err(kv_err)]. *)
Definition kv_err {A} (m : M K Z A) : M K KvError A := λ s, let '(r, s) := m s in (map_err mkKvError r, s).

Definition absent_not_mismatched {A} (key : string) : M K KvError (option A) :=
  found ← kv_err (nvs_find_key key);
  if found : bool then throw type_mismatch else mret None.

Definition esp_get_u8 (key : string) : M K KvError (option Z) :=
  v ← kv_err (nvs_get_u8 key);
  match v with Some value => mret (Some value) | None => absent_not_mismatched key end.

Definition esp_get_u32 (key : string) : M K KvError (option Z) :=
  v ← kv_err (nvs_get_u32 key);
  match v with Some value => mret (Some value) | None => absent_not_mismatched key end.

(** [KvStr::try_from]. *)
Definition esp_get_str (key : string) : M K KvError (option string) :=
  v ← kv_err (nvs_get_str STR_BUF_LEN key);
  match v with
  | Some text =>
      if is_ascii text then
        if str_len text <=? kv_str_cap then mret (Some text) else throw invalid_value
      else throw invalid_value
  | None => absent_not_mismatched key
  end.

(** [CString::new]. *)
Definition c_string (s : string) : bool := str_forall (λ a, negb (byte_of a =? 0)) s.

Definition esp_set_str (key value : string) : M K KvError unit :=
  if negb (is_ascii value) || (Z.of_nat STR_BUF_LEN <=? str_len value) then throw invalid_value
  else if negb (c_string key) then throw invalid_value
  else if negb (c_string value) then throw invalid_value
  else _ ← kv_err (nvs_set_str key value); kv_err nvs_commit.

#[export] Instance EspNvsKv : OtaKv K := {
  get_u8 := esp_get_u8;
  get_u32 := esp_get_u32;
  get_str := esp_get_str;
  set_u8 key value := kv_err (nvs_set_u8 key value);
  set_u32 key value := kv_err (nvs_set_u32 key value);
  set_str := esp_set_str;
  remove key := _ ← kv_err (nvs_remove key); mret tt }.

End backend.

(** ** Namespaces *)

Definition NAMESPACE_MAX_LEN : Z := 15.
Definition OTA_NAMESPACE : string := "ota".

Definition valid_namespace (namespace : string) : bool :=
  (1 <=? str_len namespace) && (str_len namespace <=? NAMESPACE_MAX_LEN) && c_string namespace.

(** What opening the handle answers, and the hardware's random numbers, are arguments. *)
Definition open_store_in {K} (opened : result Z K) (rng : nat → Z) (namespace : string) : result StoreError (OtaStore K) :=
  if negb (valid_namespace namespace) then Err (SE_Kv invalid_value)
  else match opened with
       | Err code => Err (SE_Kv (mkKvError code))
       | Ok nvs => Ok (OtaStore_open nvs rng)
       end.

(** ** Hardware facts *)

Record BusyRetry := mkBusyRetry { tries : Z; delay_ms : Z }.
Definition BusyRetry_default : BusyRetry := mkBusyRetry 5 200.

Inductive SvcSlotState := Svc_Valid | Svc_Unverified | Svc_Invalid | Svc_Factory | Svc_Unknown.

Definition map_state (st : SvcSlotState) : SlotState :=
  match st with
  | Svc_Valid => SValid
  | Svc_Unverified => SPendingVerify
  | Svc_Invalid => SInvalid
  | Svc_Factory | Svc_Unknown => SUnknown
  end.

Definition BUSY_CODE : Z := 259.
Definition NO_UPDATE_PARTITION_CODE : Z := 261.

Definition is_busy_code (code : Z) : bool := code =? BUSY_CODE.

Definition update_slot_of_failure (code : Z) : UpdateSlot :=
  if code =? NO_UPDATE_PARTITION_CODE then US_Absent else US_Unreadable code.

(** A slot as [EspOta] answers it: its label and its state. *)
Definition SvcSlot : Type := string * SvcSlotState.

(** What one handle answers: whether it could be made, and its three reads. *)
Record EspOtaAnswers := mkAnswers {
  made : result Z unit; running_slot : result Z SvcSlot; next_update : result Z SvcSlot; boot_slot : result Z SvcSlot }.

Record Failure := mkFailure { fail_code : Z; fail_busy : bool }.
Definition of_new (code : Z) : Failure := mkFailure code (is_busy_code code).
Definition of_read (code : Z) : Failure := mkFailure code false.

Definition read_once (a : EspOtaAnswers) : result Failure HardwareFacts :=
  _ ← map_err of_new (made a);
  running ← map_err of_read (running_slot a);
  let update_slot := match next_update a with
                     | Ok slot => US_Present (slot_for_partition (fst slot)) (map_state (snd slot))
                     | Err code => update_slot_of_failure code
                     end in
  Ok (mkHw (slot_for_partition (fst running)) (map_state (snd running)) update_slot).

Definition read_next_boot_once (a : EspOtaAnswers) : result Failure SlotId :=
  _ ← map_err of_new (made a);
  boot ← map_err of_read (boot_slot a);
  Ok (slot_for_partition (fst boot)).

(** The loop over the tries; the answers are those of the handles made, in order. *)
Fixpoint retry_loop {A} (read : EspOtaAnswers → result Failure A) (answers : nat → EspOtaAnswers) (n attempt : nat) (tally : BusyTally) :
    result HardwareReadError A :=
  match n with
  | O => Err (BusyTally_into_error tally)
  | S n =>
      match read (answers attempt) with
      | Ok x => Ok x
      | Err f => retry_loop read answers n (S attempt) (BusyTally_record tally (fail_code f) (fail_busy f))
      end
  end.

Definition tries_of (retry : BusyRetry) : nat := Z.to_nat (Z.max (tries retry) 1).

Definition read_hardware_facts (retry : BusyRetry) (answers : nat → EspOtaAnswers) : result HardwareReadError HardwareFacts :=
  retry_loop read_once answers (tries_of retry) 0 BusyTally_new.

Definition read_next_boot (retry : BusyRetry) (answers : nat → EspOtaAnswers) : result HardwareReadError SlotId :=
  retry_loop read_next_boot_once answers (tries_of retry) 0 BusyTally_new.

Definition read_running_slot (a : EspOtaAnswers) : result HardwareReadError SlotId :=
  _ ← map_err (λ code, if is_busy_code code then HRE_Busy else HRE_Read code) (made a);
  running ← map_err HRE_Read (running_slot a);
  Ok (slot_for_partition (fst running)).

Definition note_boot_slot_idf {K} `{EspNvs K} (a : EspOtaAnswers) : M (OtaStore K) NoteBootError NoteBoot :=
  note_boot_slot (λ _, read_running_slot a).

(** ** The evidence line *)

Definition show_code (code : Z) : string := if code <? 0 then "-" +:+ show_uint (- code) else show_uint code.

Definition slot_name (slot : SlotId) : string := default "unknown" (slot_label slot).

Definition state_name (st : SlotState) : string :=
  match st with SValid => "Valid" | SPendingVerify => "PendingVerify" | SInvalid => "Invalid" | SUnknown => "Unknown" end.

Definition unreadable_code (code : Z) : string := "unreadable(" +:+ show_code code +:+ ")".

Definition unreadable (e : HardwareReadError) : string :=
  match e with HRE_Busy => "unreadable(busy)" | HRE_Read code => unreadable_code code end.

Definition slot_and_state (slot : SlotId) (st : SlotState) : string := slot_name slot +:+ " (" +:+ state_name st +:+ ")".

Definition format_slot_evidence (hardware : result HardwareReadError HardwareFacts) (next_boot : result HardwareReadError SlotId) : string :=
  let next := match next_boot with Ok slot => slot_name slot | Err e => unreadable e end in
  let '(running, update) :=
    match hardware with
    | Ok facts =>
        (slot_and_state (hw_running_slot facts) (hw_running_state facts),
         match hw_update_slot facts with
         | US_Present slot st => slot_and_state slot st
         | US_Absent => "absent"
         | US_Unreadable code => unreadable_code code
         end)
    | Err e => (unreadable e, "unknown"%string)
    end in
  "[ota] slots: running=" +:+ running +:+ ", next boot=" +:+ next +:+ ", update=" +:+ update.

Definition slot_evidence_line (hardware : result HardwareReadError HardwareFacts) (retry : BusyRetry) (answers : nat → EspOtaAnswers) : string :=
  format_slot_evidence hardware (read_next_boot retry answers).

(** ** The contract of the backend *)

(** A key NVS takes: at most 15 bytes, a C string. *)
Definition nvs_key (k : string) : Prop := str_len k ≤ 15 ∧ c_string k = true.

Section laws.
  Context {K : Type} (nvs_content : K → gmap string NvsVal) (nvs_ok nvs_healthy : K → Prop).

(** A read answers the content or fails, with a code of its own. *)
Definition nvs_read_law {A} (m : M K Z A) (f : gmap string NvsVal → A) (s : K) : Prop :=
  nvs_ok s → ∀ r s', m s = (r, s') →
    nvs_ok s' ∧ nvs_content s' = nvs_content s ∧ (nvs_healthy s → nvs_healthy s' ∧ r = Ok (f (nvs_content s))) ∧
    (∀ a, r = Ok a → a = f (nvs_content s)) ∧ (∀ e, r = Err e → is_corrupt_code (mkKvError e) = false).

(** A write is one durable step: it is done, or it failed before or behind it. *)
Definition nvs_write_law {A} (m : M K Z A) (post : gmap string NvsVal → gmap string NvsVal) : Prop :=
  ∀ s, nvs_ok s → ∀ r s', m s = (r, s') →
    nvs_ok s' ∧ (nvs_healthy s → nvs_healthy s' ∧ ∃ a, r = Ok a) ∧
    match r with
    | Ok _ => nvs_content s' = post (nvs_content s)
    | Err _ => nvs_content s' = nvs_content s ∨ nvs_content s' = post (nvs_content s)
    end.
End laws.

Definition value_u8 (v : option NvsVal) : option Z := match v with Some (NU8 n) => Some n | _ => None end.
Definition value_u32 (v : option NvsVal) : option Z := match v with Some (NU32 n) => Some n | _ => None end.
Definition value_str (v : option NvsVal) : option string := match v with Some (NStr t) => Some t | _ => None end.

(** What the documentation of NVS says of its calls on a valid key; a string is read only into a
    buffer that holds it with its NUL, and a commit changes nothing (the writes are durable). *)
Class NvsLaws (K : Type) `{EspNvs K} := {
  nvs_content : K → gmap string NvsVal;
  nvs_ok : K → Prop;
  nvs_healthy : K → Prop;
  find_key_law k s : nvs_key k → nvs_read_law nvs_content nvs_ok nvs_healthy (nvs_find_key k) (λ c, bool_decide (is_Some (c !! k))) s;
  get_u8_law k s : nvs_key k → nvs_read_law nvs_content nvs_ok nvs_healthy (nvs_get_u8 k) (λ c, value_u8 (c !! k)) s;
  get_u32_law k s : nvs_key k → nvs_read_law nvs_content nvs_ok nvs_healthy (nvs_get_u32 k) (λ c, value_u32 (c !! k)) s;
  get_str_law n k s : nvs_key k → (∀ t, nvs_content s !! k = Some (NStr t) → str_len t < Z.of_nat n) →
    nvs_read_law nvs_content nvs_ok nvs_healthy (nvs_get_str n k) (λ c, value_str (c !! k)) s;
  set_u8_law k n : nvs_key k → nvs_write_law nvs_content nvs_ok nvs_healthy (nvs_set_u8 k n) <[k := NU8 n]>;
  set_u32_law k n : nvs_key k → nvs_write_law nvs_content nvs_ok nvs_healthy (nvs_set_u32 k n) <[k := NU32 n]>;
  set_str_law k v : nvs_key k → c_string v = true → nvs_write_law nvs_content nvs_ok nvs_healthy (nvs_set_str k v) <[k := NStr v]>;
  commit_law : nvs_write_law nvs_content nvs_ok nvs_healthy nvs_commit id;
  remove_law k : nvs_key k → nvs_write_law nvs_content nvs_ok nvs_healthy (nvs_remove k) (delete k) }.
#[global] Hint Mode NvsLaws ! - : typeclass_instances.

Definition to_val (v : NvsVal) : Val :=
  match v with NU8 n => VU8 n | NU32 n => VU32 n | NStr t => if is_ascii t then VStr t else VBad end.

Section contract.
  Context {K : Type} `{HN : EspNvs K} `{HL : !NvsLaws K}.

(** The namespace holds what this code writes: strings that fit the buffer. *)
Definition esp_content (s : K) : contents := to_val <$> nvs_content s.
Definition esp_ok (s : K) : Prop := nvs_ok s ∧ map_Forall (λ _ v, ∀ t, v = NStr t → str_len t ≤ kv_str_cap) (nvs_content s).

Lemma kv_err_eq {A} (m : M K Z A) s : kv_err m s = (map_err mkKvError (m s).1, (m s).2).
Proof. unfold kv_err. by destruct (m s). Qed.

(** A getter of one type, then the search for the key. *)
Lemma nvs_read_spec {A} (m : M K Z (option A)) k (pick : option NvsVal → option A) (f : option Val → result KvError (option A))
    (post : A → M K KvError (option A)) :
  nvs_key k →
  (∀ s, esp_ok s → nvs_read_law nvs_content nvs_ok nvs_healthy m (λ c, pick (c !! k)) s) →
  f None = Ok None → pick None = None →
  (∀ v x, pick (Some v) = Some x → str_len match v with NStr t => t | _ => EmptyString end ≤ kv_str_cap →
     ∀ s, post x s = (f (Some (to_val v)), s)) →
  (∀ v, pick (Some v) = None → f (Some (to_val v)) = Err type_mismatch) →
  read_contract esp_content esp_ok nvs_healthy
    (v ← kv_err m; match v with Some x => post x | None => absent_not_mismatched k end) (λ c, f (c !! k)).
Proof.
  intros Hk Hm Hf0 Hp0 Hpost Hmis s Hok r s' E. pose proof (Hm s Hok) as Hlaw. destruct Hok as [Ho Hs]. rewrite M_bind_eq, kv_err_eq in E.
  destruct (m s) as [r1 s1] eqn:Em. destruct (Hlaw Ho r1 s1 Em) as (Ho1 & Hc1 & Hh1 & Ha1 & He1). cbn [fst snd] in E.
  assert (esp_content s1 = esp_content s) as Hec by (unfold esp_content; by rewrite Hc1).
  assert (esp_ok s1) as Hok1 by (split; [done|by rewrite Hc1]).
  assert (esp_content s !! k = to_val <$> nvs_content s !! k) as Hlk by apply lookup_fmap.
  destruct r1 as [x|e]; cbn [map_err] in E.
  2:{ injection E as <- <-. split_and!; [done|done| |done|].
      - intros Hh. by destruct (Hh1 Hh).
      - intros e' [= <-] Hc. by rewrite (He1 e eq_refl) in Hc. }
  specialize (Ha1 x eq_refl). destruct x as [x|].
  - destruct (nvs_content s !! k) as [v|] eqn:Ev; [|by rewrite Hp0 in Ha1].
    rewrite (Hpost v x) in E; [|done|]. 2:{ destruct v; try done. by apply (Hs _ _ Ev). }
    injection E as <- <-. rewrite Hlk. cbn. split_and!; try done; [intros Hh; split; [by apply Hh1|done]|..]; naive_solver.
  - unfold absent_not_mismatched in E. rewrite M_bind_eq, kv_err_eq in E.
    destruct (nvs_find_key k s1) as [r2 s2] eqn:Ef. destruct (find_key_law k s1 Hk Ho1 r2 s2 Ef) as (Ho2 & Hc2 & Hh2 & Ha2 & He2). cbn [fst snd] in E.
    assert (esp_content s2 = esp_content s) as Hec2 by (unfold esp_content; by rewrite Hc2, Hc1).
    assert (esp_ok s2) as Hok2 by (split; [done|by rewrite Hc2, Hc1]).
    destruct r2 as [b|e]; cbn [map_err] in E.
    + specialize (Ha2 b eq_refl). rewrite Hc1 in Ha2. destruct (nvs_content s !! k) as [v|] eqn:Ev; cbn in Ha2; subst b; cbn in E; injection E as <- <-;
        rewrite Hlk; cbn; rewrite ?(Hmis v) by done; rewrite ?Hf0; (split_and!; [done|done| |naive_solver|naive_solver]);
        intros Hh; (split; [|done]); by apply Hh2, Hh1.
    + injection E as <- <-. split_and!; [done|done| |done|].
      * intros Hh. destruct (Hh1 Hh) as [Hh' _]. by destruct (Hh2 Hh') as [_ ?].
      * intros e' [= <-] Hc. by rewrite (He2 e eq_refl) in Hc.
Qed.

Lemma fmap_insert_val k v (c : gmap string NvsVal) w : to_val v = w → to_val <$> <[k := v]> c = <[k := w]> (to_val <$> c).
Proof. intros <-. apply fmap_insert. Qed.

(** One durable write. *)
Lemma nvs_write_spec {A} (m : M K Z A) (post : gmap string NvsVal → gmap string NvsVal) (f : contents → contents) :
  nvs_write_law nvs_content nvs_ok nvs_healthy m post →
  (∀ c, to_val <$> post c = f (to_val <$> c)) →
  (∀ c, map_Forall (λ _ v, ∀ t, v = NStr t → str_len t ≤ kv_str_cap) c → map_Forall (λ _ v, ∀ t, v = NStr t → str_len t ≤ kv_str_cap) (post c)) →
  write_contract esp_content esp_ok nvs_healthy (_ ← kv_err m; mret tt) True f (torn_commit f).
Proof.
  intros Hm Hf Hs s [Ho Hc] r s' E. rewrite M_bind_eq, kv_err_eq in E. destruct (m s) as [r1 s1] eqn:Em.
  destruct (Hm s Ho r1 s1 Em) as (Ho1 & Hh & Hp). cbn [fst snd] in E. unfold esp_content, esp_ok, torn_commit.
  destruct r1 as [a|e]; cbn in E; injection E as <- <-.
  - rewrite Hp, Hf. split; [split; [done|by apply Hs]|]. split; [intros Hhs; by destruct (Hh Hhs)|done].
  - split; [split; [done|destruct Hp as [-> | ->]; auto]|]. split; [intros Hhs; by destruct (Hh Hhs) as [_ [? ?]]|].
    destruct Hp as [-> | ->]; auto.
Qed.

Lemma kv_err_unit (m : M K Z unit) : ∀ s, (_ ← kv_err m; mret tt) s = kv_err m s.
Proof. intros s. rewrite M_bind_eq, kv_err_eq. by destruct (m s) as [[[]|] s']. Qed.

Lemma write_contract_ext (m m' : M K KvError unit) (acc : Prop) f torn :
  (∀ s, m s = m' s) → write_contract esp_content esp_ok nvs_healthy m acc f torn → write_contract esp_content esp_ok nvs_healthy m' acc f torn.
Proof. intros He Hw s Hok r s' E. apply (Hw s Hok). by rewrite He. Qed.

Lemma storable_c_string v : kv_storable v → is_ascii v = true ∧ c_string v = true.
Proof.
  intros [H _]. unfold is_ascii, c_string, kv_char in *. split; (eapply str_forall_impl; [|exact H]); by intros a [? ?]%andb_true_iff.
Qed.

Lemma set_str_spec k v :
  nvs_key k → write_contract esp_content esp_ok nvs_healthy (esp_set_str k v) (kv_storable v) <[k := VStr v]> (torn_commit <[k := VStr v]>).
Proof.
  intros Hk s Hok r s' E. unfold esp_set_str in E. rewrite (proj2 Hk) in E. cbn [negb] in E.
  destruct (negb (is_ascii v) || (Z.of_nat STR_BUF_LEN <=? str_len v)) eqn:Ev.
  { injection E as <- <-. split_and!; [done| |by left]. intros Hh. split; [done|]. intros Hst. exfalso.
    destruct (storable_c_string v Hst) as [Ha _]. destruct Hst as [_ Hl]. apply orb_true_iff in Ev as [Ev|Ev%Z.leb_le]; [by rewrite Ha in Ev|].
    unfold kv_str_cap, STR_BUF_LEN in *. lia. }
  apply orb_false_iff in Ev as [Ha%negb_false_iff Hl%Z.leb_gt]. destruct (c_string v) eqn:Ec; cbn [negb] in E.
  2:{ injection E as <- <-. split_and!; [done| |by left]. intros Hh. split; [done|]. intros Hst.
      destruct (storable_c_string v Hst) as [_ Hc]. congruence. }
  assert (to_val (NStr v) = VStr v) as Hv by (cbn; by rewrite Ha).
  assert (∀ c : gmap string NvsVal, to_val <$> <[k := NStr v]> c = <[k := VStr v]> (to_val <$> c)) as Hf by (intros c; by apply fmap_insert_val).
  destruct Hok as [Ho Hc]. rewrite M_bind_eq, !kv_err_eq in E. destruct (nvs_set_str k v s) as [r1 s1] eqn:E1.
  destruct (set_str_law k v Hk Ec s Ho r1 s1 E1) as (Ho1 & Hh1 & Hp1). cbn [fst snd] in E.
  assert (map_Forall (λ _ w, ∀ t, w = NStr t → str_len t ≤ kv_str_cap) (<[k := NStr v]> (nvs_content s))) as Hc'.
  { apply map_Forall_insert_2; [|done]. intros t [= <-]. unfold kv_str_cap, STR_BUF_LEN in *. lia. }
  unfold esp_content, esp_ok, torn_commit. destruct r1 as [[]|e]; cbn [map_err] in E.
  2:{ injection E as <- <-. split; [split; [done|destruct Hp1 as [-> | ->]; done]|]. split; [intros Hh; by destruct (Hh1 Hh) as [_ [? ?]]|].
      destruct Hp1 as [-> | ->]; rewrite ?Hf; auto. }
  destruct (nvs_commit s1) as [r2 s2] eqn:E2. destruct (commit_law s1 Ho1 r2 s2 E2) as (Ho2 & Hh2 & Hp2). cbn [fst snd] in E.
  assert (nvs_content s2 = <[k := NStr v]> (nvs_content s)) as Hs2 by (destruct r2; [|destruct Hp2 as [Hp2|Hp2]]; rewrite Hp2; done).
  destruct r2 as [[]|e]; cbn [map_err] in E; injection E as <- <-; rewrite Hs2, Hf; (split; [done|]); (split; [|auto]); intros Hh;
    destruct (Hh1 Hh) as [Hh' _]; destruct (Hh2 Hh') as [Hh'' [? ?]]; done.
Qed.

(** C9: The NVS backend keeps the contract of the record store. Over an NVS that behaves as documented, on every key NVS takes and in a namespace that holds what this code writes, each read of the backend answers the durable content or fails, reports an absent key as absent and only that (a key of another type is an error of its own), and never changes the content; each write is one durable step that is done, or fails with the old or the new content in place, and a string set never leaves the key absent; on a healthy flash every call succeeds. Every key of the records is such a key. So what is proved of the record store against that contract holds on the device. *)
Theorem esp_nvs_contract :
  Forall nvs_key [RB; RB_WHY; RB_ID; ATT_CTR; ATT_EPOCH; ATT_ID; ATT_BOOT; ATT_VER; ATT_SLOT; ATT_ACT; ATT_INV; ATT_WHY; RQ_ID; RQ_WHY; RQ_FROM; REJ_VER] ∧
  ∀ k, nvs_key k →
  read_contract esp_content esp_ok nvs_healthy (get_u8 k) (λ c, read_u8 (c !! k)) ∧
  read_contract esp_content esp_ok nvs_healthy (get_u32 k) (λ c, read_u32 (c !! k)) ∧
  read_contract esp_content esp_ok nvs_healthy (get_str k) (λ c, read_str (c !! k)) ∧
  (∀ n, write_contract esp_content esp_ok nvs_healthy (set_u8 k n) True <[k := VU8 n]> (torn_commit <[k := VU8 n]>)) ∧
  (∀ n, write_contract esp_content esp_ok nvs_healthy (set_u32 k n) True <[k := VU32 n]> (torn_commit <[k := VU32 n]>)) ∧
  (∀ v, write_contract esp_content esp_ok nvs_healthy (set_str k v) (kv_storable v) <[k := VStr v]> (torn_commit <[k := VStr v]>)) ∧
  write_contract esp_content esp_ok nvs_healthy (remove k) True (delete k) (torn_commit (delete k)).
Proof.
  split; [repeat constructor; vm_compute; done|]. intros k Hk. split_and!.
  - apply (nvs_read_spec _ k value_u8 read_u8 (λ x, mret (Some x))); try done.
    + intros s _. by apply get_u8_law.
    + intros [] x; try discriminate. by intros [= ->].
    + intros [| |t]; try done. intros _. cbn. by destruct (is_ascii t).
  - apply (nvs_read_spec _ k value_u32 read_u32 (λ x, mret (Some x))); try done.
    + intros s _. by apply get_u32_law.
    + intros [] x; try discriminate. by intros [= ->].
    + intros [| |t]; try done. intros _. cbn. by destruct (is_ascii t).
  - apply (nvs_read_spec _ k value_str read_str (λ text, if is_ascii text then if str_len text <=? kv_str_cap then mret (Some text) else throw invalid_value else throw invalid_value)); try done.
    + intros s [_ Hs]. apply get_str_law; [done|]. intros t Ht. pose proof (Hs _ _ Ht t eq_refl). unfold kv_str_cap, STR_BUF_LEN in *. lia.
    + intros [| |t] x; try discriminate. intros [= ->] Hl s. cbn. destruct (is_ascii x); [|done]. by rewrite (proj2 (Z.leb_le _ _)).
    + by intros [].
  - intros n. eapply write_contract_ext; [apply kv_err_unit|]. apply (nvs_write_spec _ <[k := NU8 n]>); [by apply set_u8_law|by intros; apply fmap_insert_val|].
    intros c Hc. by apply map_Forall_insert_2.
  - intros n. eapply write_contract_ext; [apply kv_err_unit|]. apply (nvs_write_spec _ <[k := NU32 n]>); [by apply set_u32_law|by intros; apply fmap_insert_val|].
    intros c Hc. by apply map_Forall_insert_2.
  - intros v. by apply set_str_spec.
  - apply (nvs_write_spec _ (delete k)); [by apply remove_law|by intros; apply fmap_delete|]. intros c Hc. by apply map_Forall_delete.
Qed.

End contract.

(** ** Retries *)

(** The failures of the first tries, and what the last of them comes to. *)
Definition failures_of {A} (read : EspOtaAnswers → result Failure A) (answers : nat → EspOtaAnswers) (n : nat) (l : list Failure) : Prop :=
  length l = n ∧ ∀ i f, l !! i = Some f → read (answers i) = Err f.

Definition tally_of (l : list Failure) : BusyTally := foldl (λ t f, BusyTally_record t (fail_code f) (fail_busy f)) BusyTally_new l.

Lemma tally_of_spec l :
  tally_of l = mkTally (negb (bool_decide (l = []))) (forallb fail_busy l) (default 0 (fail_code <$> last l)).
Proof.
  unfold tally_of. induction l as [|f l IH] using rev_ind; [done|]. rewrite foldl_app. cbn. rewrite IH. unfold BusyTally_record. cbn.
  rewrite last_snoc, forallb_app. cbn. rewrite andb_true_r, bool_decide_false by (by destruct l). done.
Qed.

Lemma retry_loop_spec {A} (read : EspOtaAnswers → result Failure A) answers n : ∀ done,
  failures_of read answers (length done) done →
  (∃ i x l, failures_of read answers i l ∧ (i < length done + n)%nat ∧ read (answers i) = Ok x ∧
            retry_loop read answers n (length done) (tally_of done) = Ok x) ∨
  (∃ l, failures_of read answers (length done + n) l ∧
        retry_loop read answers n (length done) (tally_of done) = Err (BusyTally_into_error (tally_of l))).
Proof.
  induction n as [|n IH]; intros done_ Hd; cbn [retry_loop].
  { right. exists done_. by rewrite Nat.add_0_r. }
  destruct (read (answers (length done_))) as [x|f] eqn:E; [left; exists (length done_), x, done_; split_and!; [done|lia|done|done]|].
  destruct (IH (done_ ++ [f])) as [(i & x & l & Hl & Hi & Hx & Hr)|(l & Hl & Hr)].
  - split; [by rewrite length_app|]. intros i g [Hg|[Hi Hg]]%lookup_app_Some; [by apply Hd|].
    destruct (i - length done_)%nat eqn:Ei; [|done]. injection Hg as ->. by replace i with (length done_) by lia.
  - left. exists i, x, l. rewrite length_app in *. cbn in *. split_and!; [done|lia|done|].
    rewrite Nat.add_1_r in Hr. unfold tally_of in *. by rewrite foldl_app in Hr.
  - right. exists l. rewrite length_app in *. cbn in *. split; [by replace (length done_ + S n)%nat with (length done_ + 1 + n)%nat by lia|].
    rewrite Nat.add_1_r in Hr. unfold tally_of in *. by rewrite foldl_app in Hr.
Qed.

(** The hardware facts are retried as often as asked and no more, and called busy only when that is all that was wrong. [read_hardware_facts] makes one handle after another, at least one, until a read on it succeeds, and answers with that read; when every try failed, the error is [Busy] exactly when each of them failed because the handle was in use, and otherwise carries the code of the last. *)
Lemma hardware_facts_retried (retry : BusyRetry) (answers : nat → EspOtaAnswers) :
  (∃ i facts l, failures_of read_once answers i l ∧ (i < tries_of retry)%nat ∧ read_once (answers i) = Ok facts ∧
     read_hardware_facts retry answers = Ok facts) ∨
  (∃ l, failures_of read_once answers (tries_of retry) l ∧ l ≠ [] ∧
     read_hardware_facts retry answers =
       Err (if forallb fail_busy l then HRE_Busy else HRE_Read (default 0 (fail_code <$> last l)))).
Proof.
  destruct (retry_loop_spec read_once answers (tries_of retry) []) as [(i & x & l & Hl & Hi & Hx & Hr)|(l & Hl & Hr)]; [by split|left; by exists i, x, l|].
  right. exists l. assert (l ≠ []) as Hne by (intros ->; destruct Hl as [Hl _]; unfold tries_of in Hl; cbn in Hl; lia).
  split_and!; [done|done|]. unfold read_hardware_facts. refine (eq_trans Hr _). rewrite tally_of_spec. unfold BusyTally_into_error. cbn.
  rewrite bool_decide_false by done. by destruct (forallb fail_busy l).
Qed.

Example retried_twice :
  let busy := mkAnswers (Err BUSY_CODE) (Err 0) (Err 0) (Err 0) in
  let good := mkAnswers (Ok tt) (Ok ("ota_0"%string, Svc_Unverified)) (Err NO_UPDATE_PARTITION_CODE) (Err 0) in
  read_hardware_facts BusyRetry_default (λ n, if (n <? 2)%nat then busy else good) =
    Ok (mkHw (mkSlotId 0) SPendingVerify US_Absent) ∧
  read_hardware_facts (mkBusyRetry 0 0) (λ _, busy) = Err HRE_Busy ∧
  slot_evidence_line (Err (HRE_Read (-1))) BusyRetry_default (λ _, busy) =
    "[ota] slots: running=unreadable(-1), next boot=unreadable(busy), update=unknown".
Proof. by vm_compute. Qed.

(** ** An NVS in memory *)

Definition nvs_mem : Type := gmap string NvsVal.

Definition mem_read {A} (f : nvs_mem → A) : M nvs_mem Z A := λ c, (Ok (f c), c).
Definition mem_write {A} (a : A) (f : nvs_mem → nvs_mem) : M nvs_mem Z A := λ c, (Ok a, f c).

(** 4364 is the code for a buffer that is too small. *)
#[export] Instance EspNvs_mem : EspNvs nvs_mem := {
  nvs_find_key k := mem_read (λ c, bool_decide (is_Some (c !! k)));
  nvs_get_u8 k := mem_read (λ c, value_u8 (c !! k));
  nvs_get_u32 k := mem_read (λ c, value_u32 (c !! k));
  nvs_get_str n k c :=
    match c !! k with
    | Some (NStr t) => if str_len t <? Z.of_nat n then (Ok (Some t), c) else (Err 4364, c)
    | _ => (Ok None, c)
    end;
  nvs_set_u8 k n := mem_write tt <[k := NU8 n]>;
  nvs_set_u32 k n := mem_write tt <[k := NU32 n]>;
  nvs_set_str k v := mem_write tt <[k := NStr v]>;
  nvs_commit := mem_write tt id;
  nvs_remove k := mem_write true (delete k) }.

Lemma mem_read_law {A} (f : nvs_mem → A) s : nvs_read_law id (λ _, True) (λ _, True) (mem_read f) f s.
Proof. intros _ r s' [= <- <-]. split_and!; try done; naive_solver. Qed.

Lemma mem_write_law {A} (a : A) f : nvs_write_law id (λ _, True) (λ _, True) (mem_write a f) f.
Proof. intros s _ r s' [= <- <-]. split_and!; try done. intros _. split; [done|by exists a]. Qed.

#[export] Instance NvsLaws_mem : NvsLaws nvs_mem.
Proof.
  refine {| nvs_content := (λ c : nvs_mem, c); nvs_ok := λ _, True; nvs_healthy := λ _, True |}; intros;
    try apply mem_read_law; try apply mem_write_law.
  intros _ r s' E. apply (mem_read_law (λ c : nvs_mem, value_str (c !! k)) s I). refine (eq_trans _ E). unfold mem_read.
  cbn [nvs_get_str EspNvs_mem]. destruct (s !! k) as [[| |t]|] eqn:Ek; try done.
  by rewrite (proj2 (Z.ltb_lt _ _)) by auto.
Defined.

Lemma esp_nvs_contract_witness :
  let c : nvs_mem := <["att_id" := NStr "7"]> ∅ in
  esp_content c = <["att_id" := VStr "7"]> ∅ ∧ (get_u8 "att_id" c).1 = Err type_mismatch ∧
  esp_content (set_str "att_id" "8" c).2 = <["att_id" := VStr "8"]> (esp_content c).
Proof.
  split; [by vm_compute|]. split; [by vm_compute|].
  destruct (esp_nvs_contract (K := nvs_mem)) as [Hk H]. destruct (H "att_id"%string) as (_ & _ & _ & _ & _ & Hs & _); [by vm_compute|].
  destruct (Hs "8"%string (<["att_id"%string := NStr "7"]> ∅) ltac:(split; [done|]; apply map_Forall_insert_2; [by intros t [= <-]|apply map_Forall_empty])
              (Ok tt) _ eq_refl) as (_ & _ & E). exact E.
Defined.

(** A stored string that does not fit the buffer is an error of the flash to the record store, not a
    value it repairs. *)
Example over_long_is_not_corrupt :
  let c : nvs_mem := <["rb_why" := NStr "123456789012345678901234567890123"]> ∅ in
  (get_str "rb_why" c).1 = Err (mkKvError 4364) ∧ is_corrupt_code (mkKvError 4364) = false.
Proof. by vm_compute. Qed.
