(* ===== verification/OtaRuntime.v ===== *)
(** * OtaRuntime: start-up and health thread of the update runtime of the ESP-IDF tier
    ([ota/runtime/mod.rs], [health.rs], [publish.rs], [stack.rs] and the outer loop of
    [reporter.rs] in [rustyfarian-esp-idf-network])

    Threads, channels, the MQTT client, the clock and the OTA partition are third-party: they answer
    as an environment indexed by the turn of the loop that asks.  Log output is left out. *)
From S2P Require Import Prelude Text Version Decision Kv Reason KvLogic Store StoreViews StoreAttempt StoreReport Boot StoreOps Config Status WorkerPlan Health MqttTopics Reporter IdfOtaStore FaultKv Samples.
Open Scope Z_scope.
Open Scope rn_scope.

(** ** Publishing a status *)

Inductive TryPublish := TP_Sent | TP_WouldBlock | TP_Other.

Inductive PubStep := PT_Try (r : TryPublish) | PT_Sleep (d : duration).

Inductive PublishEnd := PE_Sent | PE_Unserialised | PE_Failed | PE_Dropped.

#[export] Instance PublishEnd_eq_dec : EqDecision PublishEnd.
Proof. solve_decision. Defined.

(** [for attempt in 0..=retries]; [n] of them are left. *)
Fixpoint publish_loop (retries : Z) (delay : duration) (answers : Z → TryPublish) (n : nat) (attempt : Z) :
    list PubStep * PublishEnd :=
  match n with
  | O => ([], PE_Dropped)
  | S n =>
      match answers attempt with
      | TP_Sent => ([PT_Try TP_Sent], PE_Sent)
      | TP_WouldBlock =>
          let '(l, e) := publish_loop retries delay answers n (attempt + 1) in
          (PT_Try TP_WouldBlock :: (if attempt <? retries then [PT_Sleep delay] else []) ++ l, e)
      | TP_Other => ([PT_Try TP_Other], PE_Failed)
      end
  end.

Definition publish_status (serializes : bool) (answers : Z → TryPublish) (t : OtaTimings) : list PubStep * PublishEnd :=
  if negb serializes then ([], PE_Unserialised)
  else publish_loop (status_publish_retries t) (status_publish_delay t) answers (Z.to_nat (status_publish_retries t + 1)) 0.

(** ** Stack marks *)

Definition stack_sample (cell free : Z) : Z := Z.min cell free.
Definition stack_read (cell : Z) : option Z := if cell =? u32_max then None else Some cell.

(** ** The flags *)

Record OtaFlags := mkFlags {
  admission_open : bool; refuse_mark_valid : bool; health_settled : bool; records_suspect : bool;
  roll_back_now_at_boot : bool }.

Definition OtaFlags_new : OtaFlags := mkFlags false false false false false.

(** ** The health thread *)

(** What an action came to; a lock shows the store before and after. *)
Inductive HealthEffect {K : Type} :=
| HF_Read (r : result HardwareReadError HardwareFacts)
| HF_Slept (d : duration)
| HF_Asked (b : bool)
| HF_MarkValid (r : result OtaError unit)
| HF_Complete (before after : OtaStore K) (r : result StoreError unit)
| HF_NoSlot
| HF_Note (slot : SlotId) (reason : RollbackReason) (before after : OtaStore K) (r : result StoreError ReasonNote)
| HF_Rollback (r : result OtaError unit)
| HF_Restart
| HF_Finish (v : HealthVerdict).
Arguments HealthEffect : clear implicits.

Section health.
Context {K : Type} `{HO : OtaKv K}.

Record HealthEnv := mkHealthEnv {
  he_elapsed : nat → duration; he_refuse : nat → bool; he_ota : nat → nat → EspOtaAnswers; he_healthy : nat → bool;
  he_mark_valid : nat → result OtaError unit; he_rollback : nat → result OtaError unit;
  he_others : nat → OtaStore K → OtaStore K }.

Definition turn : Type := Entry * HealthEffect K.

(** The turns so far, oldest first. *)
Record HealthDriver := mkDriver {
  hd_store : OtaStore K; hd_machine : HealthMachine; running_slot : option SlotId; hd_turns : list turn }.

Context (settings : OtaSettings) (env : HealthEnv).

Definition single_read : BusyRetry := mkBusyRetry 1 0.

Definition slot_reading (r : result HardwareReadError HardwareFacts) : SlotReading :=
  match r with
  | Ok hw => if decide (hw_running_state hw = SPendingVerify) then SR_PendingVerify else SR_NotPending
  | Err HRE_Busy => SR_Busy
  | Err (HRE_Read _) => SR_Failed
  end.

Definition is_ok {E A} (r : result E A) : bool := bool_decide (is_Some (result_ok r)).

(** The event that answers an effect. *)
Definition event_of (ef : HealthEffect K) : HealthEvent :=
  match ef with
  | HF_Read r => EvSlot (slot_reading r)
  | HF_Slept _ => Woke
  | HF_Asked b => Healthy b
  | HF_MarkValid r => Marked (is_ok r)
  | HF_Complete _ _ r => Completed (is_ok r)
  | HF_NoSlot | HF_Note _ _ _ _ _ => Noted
  | HF_Rollback r => RollbackReturned (is_ok r)
  | HF_Restart => EvRestartReturned
  | HF_Finish _ => Noted
  end.

(** [ctx.records.with(|store| ..)] *)
Definition health_lock {A} (n : nat) (f : M (OtaStore K) StoreError A) (s : OtaStore K) :
    OtaStore K * OtaStore K * result StoreError A :=
  let before := he_others env n s in let '(r, after) := f before in (before, after, r).

(** [mark_valid], [complete_attempt], [note_rollback] and [rollback] of the handle. *)
Definition health_mark_valid (n : nat) (d : HealthDriver) : HealthEffect K * option SlotId * OtaStore K :=
  (HF_MarkValid (he_mark_valid env n), running_slot d, hd_store d).

Definition health_complete (n : nat) (d : HealthDriver) : HealthEffect K * option SlotId * OtaStore K :=
  let '(before, after, r) := health_lock n (complete_attempt (os_running_version settings)) (hd_store d) in
  (HF_Complete before after r, running_slot d, after).

Definition health_note (n : nat) (reason : RollbackReason) (d : HealthDriver) : HealthEffect K * option SlotId * OtaStore K :=
  match running_slot d with
  | None => (HF_NoSlot, None, hd_store d)
  | Some slot =>
      let '(before, after, r) := health_lock n (note_rollback reason slot) (hd_store d) in
      (HF_Note slot reason before after r, Some slot, after)
  end.

Definition health_rollback (n : nat) (d : HealthDriver) : HealthEffect K * option SlotId * OtaStore K :=
  (HF_Rollback (he_rollback env n), running_slot d, hd_store d).

(** The [match action] of the loop. *)
Definition perform (n : nat) (action : HealthAction) (d : HealthDriver) : HealthEffect K * option SlotId * OtaStore K :=
  match action with
  | ReadSlot =>
      let r := read_hardware_facts single_read (he_ota env n) in
      (HF_Read r, match r with Ok hw => Some (hw_running_slot hw) | Err _ => running_slot d end, hd_store d)
  | Sleep dur => (HF_Slept dur, running_slot d, hd_store d)
  | Evaluate => (HF_Asked (he_healthy env n), running_slot d, hd_store d)
  | MarkValid => health_mark_valid n d
  | CompleteAttempt => health_complete n d
  | NoteRollback reason => health_note n reason d
  | Rollback => health_rollback n d
  | Restart => (HF_Restart, running_slot d, hd_store d)
  | Finish v => (HF_Finish v, running_slot d, hd_store d)
  end.

(** One turn of the loop: the action, and the driver after it. *)
Definition health_turn (n : nat) (event : HealthEvent) (d : HealthDriver) : HealthAction * HealthDriver :=
  let '(action, m) := step (he_elapsed env n) (he_refuse env n) event (hd_machine d) in
  let '(ef, slot, store) := perform n action d in
  (action, mkDriver store (take_warning m).2 slot
             (hd_turns d ++ [(mkEntry (he_elapsed env n) (he_refuse env n) event action, ef)])).

Definition last_event (d : HealthDriver) : HealthEvent :=
  match last (hd_turns d) with Some (_, ef) => event_of ef | None => Begin end.

(** [None] when the turns run out. *)
Fixpoint health_loop (turns n : nat) (d : HealthDriver) : option HealthVerdict * HealthDriver :=
  match turns with
  | O => (None, d)
  | S turns =>
      match health_turn n (last_event d) d with
      | (Finish v, d) => (Some v, d)
      | (_, d) => health_loop turns (S n) d
      end
  end.

Definition health_start (s : OtaStore K) : HealthDriver :=
  mkDriver s (HealthMachine_new (HealthConfig_from (timings settings))) None [].

(** What [settle] does. *)
Inductive SettleAct := SA_Publish (version : string) (steps : list PubStep) | SA_RequestRetry | SA_OpenAdmission | SA_Settled.

Definition health_settle (answers : Z → TryPublish) (v : HealthVerdict) : list SettleAct :=
  (if publishes_applied v
   then [SA_Publish (Version_display (os_running_version settings)) (publish_status true answers (timings settings)).1] else []) ++
  (if arms_completion_retry v then [SA_RequestRetry] else []) ++
  (if opens_admission v then [SA_OpenAdmission] else []) ++
  [SA_Settled].

(** [run_health_policy]; [started] is what the swap of [health_started] returned. *)
Definition run_health_policy (turns : nat) (started : bool) (answers : Z → TryPublish) (s : OtaStore K) :
    option HealthVerdict * list SettleAct * list turn :=
  if started then (Some AlreadyRunning, [], [])
  else
    let '(v, d) := health_loop turns 0 (health_start s) in
    (v, match v with Some v => health_settle answers v | None => [] end, hd_turns d).
End health.

(** ** What the health thread does is justified by what it saw *)

Section justified.
Context {K : Type} `{HO : OtaKv K}.
Context (settings : OtaSettings) (env : HealthEnv (K:=K)).

Implicit Types (ts : list (turn (K:=K))) (d : HealthDriver (K:=K)).

Definition health_cfg : HealthConfig := HealthConfig_from (timings settings).
#[local] Arguments health_cfg : simpl never.

(** The reason the deadline gives. *)
Definition deadline_reason : RollbackReason :=
  match deadline_action health_cfg with DA_Rollback => RR_HealthDeadline | DA_NoteAndRestart r => r end.

Definition pending_seen ts (slot : SlotId) : Prop :=
  ∃ x hw, (x, HF_Read (Ok hw)) ∈ ts ∧ hw_running_state hw = SPendingVerify ∧ hw_running_slot hw = slot.
Definition asked_healthy ts : Prop :=
  ∃ x, (x, HF_Asked true) ∈ ts ∧ en_refuse x = false ∧ healthy_dwell health_cfg ≤ en_elapsed x.
Definition mark_done ts : Prop := ∃ x, (x, HF_MarkValid (Ok tt)) ∈ ts.
Definition reason_noted ts : Prop :=
  ∃ x slot before after r, (x, HF_Note slot deadline_reason before after r) ∈ ts ∧
    failure_deadline health_cfg ≤ en_elapsed x.

(** What a turn needs of the turns before it. *)
Definition turn_justified ts (t : turn (K:=K)) : Prop :=
  match t.2 with
  | HF_Read _ | HF_Slept _ => True
  | HF_Asked _ => (∃ slot, pending_seen ts slot) ∧ en_refuse t.1 = false ∧ healthy_dwell health_cfg ≤ en_elapsed t.1
  | HF_MarkValid _ => (∃ slot, pending_seen ts slot) ∧ asked_healthy ts
  | HF_Complete before after r => mark_done ts ∧ complete_attempt (os_running_version settings) before = (r, after)
  | HF_NoSlot => False
  | HF_Note slot reason before after r =>
      pending_seen ts slot ∧ reason = deadline_reason ∧ failure_deadline health_cfg ≤ en_elapsed t.1 ∧
      note_rollback reason slot before = (r, after)
  | HF_Rollback _ => reason_noted ts ∧ deadline_action health_cfg = DA_Rollback
  | HF_Restart => reason_noted ts ∧ deadline_action health_cfg ≠ DA_Rollback
  | HF_Finish v =>
      match v with
      | Applied | ApplyNotRecorded => mark_done ts
      | NothingToVerify => ∃ x hw, (x, HF_Read (Ok hw)) ∈ ts ∧ hw_running_state hw ≠ SPendingVerify
      | DeadlineRolledBack | DeadlineRollbackFailed | RestartReturned => reason_noted ts
      | SlotUnreadable => failure_deadline health_cfg ≤ en_elapsed t.1
      | AlreadyRunning => False
      end
  end.

Definition seen d : Prop := ∃ slot, running_slot d = Some slot ∧ pending_seen (hd_turns d) slot.

(** Where the machine stands, and what the last turn answered. *)
Definition driver_phase d : Prop :=
  let ev := last_event d in
  match phase (hd_machine d) with
  | PhReadSlot =>
      match ev with
      | Begin | Woke => True
      | EvSlot r => ∃ x res, (x, HF_Read res) ∈ hd_turns d ∧ slot_reading res = r ∧
          ∀ hw, res = Ok hw → running_slot d = Some (hw_running_slot hw)
      | _ => False
      end
  | PhPoll => ev = Woke ∧ seen d
  | PhEvaluating => (∃ b, ev = Healthy b ∧ (b = true → asked_healthy (hd_turns d))) ∧ seen d
  | PhMarking => (∃ b, ev = Marked b ∧ (b = true → mark_done (hd_turns d))) ∧ seen d
  | PhCompleting => (∃ b, ev = Completed b) ∧ mark_done (hd_turns d)
  | PhCompleteWait => ev = Woke ∧ mark_done (hd_turns d)
  | PhNoting restart => ev = Noted ∧ reason_noted (hd_turns d) ∧
      restart = match deadline_action health_cfg with DA_Rollback => false | _ => true end
  | PhRollingBack => (∃ b, ev = RollbackReturned b) ∧ reason_noted (hd_turns d) ∧ deadline_action health_cfg = DA_Rollback
  | PhRollbackWait => ev = Woke ∧ reason_noted (hd_turns d) ∧ deadline_action health_cfg = DA_Rollback
  | PhRestarting => ev = EvRestartReturned ∧ reason_noted (hd_turns d)
  | PhDone _ => False
  end.

Definition driver_ok d : Prop := cfg (hd_machine d) = health_cfg ∧ driver_phase d.

(** The rest of a turn, once the machine has answered. *)
Definition after_step (n : nat) (event : HealthEvent) d (am : HealthAction * HealthMachine) : HealthAction * HealthDriver (K:=K) :=
  let '(action, m) := am in
  let '(ef, slot, store) := perform settings env n action d in
  (action, mkDriver store (take_warning (with_pending action m)).2 slot
             (hd_turns d ++ [(mkEntry (he_elapsed env n) (he_refuse env n) event action, ef)])).

Lemma health_turn_eq n event d :
  health_turn settings env n event d = after_step n event d (advance (he_elapsed env n) (he_refuse env n) event (hd_machine d)).
Proof. unfold health_turn, after_step, step. by destruct (advance _ _ _ _). Qed.

Definition turn_ok d (ad : HealthAction * HealthDriver (K:=K)) : Prop :=
  ∃ t, hd_turns ad.2 = hd_turns d ++ [t] ∧ turn_justified (hd_turns d) t ∧
    match ad.1 with Finish v => t.2 = HF_Finish v | _ => driver_ok ad.2 end.

Lemma seen_snoc ts t slot : pending_seen ts slot → pending_seen (ts ++ [t]) slot.
Proof. intros (x & hw & Hx & ?). exists x, hw. split; [set_solver|done]. Qed.
Lemma mark_done_snoc ts t : mark_done ts → mark_done (ts ++ [t]).
Proof. intros (x & Hx). exists x. set_solver. Qed.
Lemma noted_snoc ts t : reason_noted ts → reason_noted (ts ++ [t]).
Proof. intros (x & slot & b & a & r & Hx & ?). exists x, slot, b, a, r. split; [set_solver|done]. Qed.
#[local] Hint Resolve seen_snoc mark_done_snoc noted_snoc : rn.

Lemma unhealthy_ok n event d m :
  cfg m = health_cfg → seen d → turn_ok d (after_step n event d (after_unhealthy (he_elapsed env n) m)).
Proof.
  intros Hc (slot & Hs & Hp). unfold after_unhealthy. rewrite Hc. destruct (he_elapsed env n <? _) eqn:E.
  { eexists. split; [done|]. split; [done|]. split; [done|]. unfold driver_phase, last_event. cbn. rewrite last_snoc. split; [done|].
    exists slot. cbn. auto with rn. }
  apply Z.ltb_ge in E. unfold after_step. destruct (deadline_action health_cfg) as [|reason] eqn:Ed; cbn [perform]; unfold health_note; rewrite Hs; unfold health_lock;
    destruct (note_rollback _ _ _) as [r after] eqn:En; (eexists; split; [done|]); unfold turn_justified, deadline_reason; cbn; rewrite Ed;
    (split; [split_and!; done|]); (split; [done|]); unfold driver_phase, last_event; cbn; rewrite last_snoc, Ed; (split; [done|]); (split; [|done]);
    (eexists _, slot, _, after, r; unfold deadline_reason; rewrite Ed; split; [apply elem_of_app; right; by apply list_elem_of_singleton|done]).
Qed.

Lemma poll_ok n event d m :
  cfg m = health_cfg → seen d → turn_ok d (after_step n event d (poll_tick (he_elapsed env n) (he_refuse env n) m)).
Proof.
  intros Hc Hs. unfold poll_tick. destruct (negb _ && _) eqn:E; [|by apply unhealthy_ok].
  apply andb_true_iff in E as [Er%negb_true_iff Ed%Z.leb_le]. rewrite Hc in Ed. destruct Hs as (slot & Hs & Hp).
  eexists. split; [done|]. split; [split_and!; eauto|]. split; [done|]. unfold driver_phase, last_event. cbn. rewrite last_snoc. cbn. split.
  - eexists. split; [done|]. intros Hb. eexists. rewrite Hb. split; [apply elem_of_app; right; by apply list_elem_of_singleton|done].
  - exists slot. cbn. auto with rn.
Qed.

Lemma elem_last ts (t : turn (K:=K)) : t ∈ ts ++ [t].
Proof. apply elem_of_app. right. by apply list_elem_of_singleton. Qed.
#[local] Hint Resolve elem_last : rn.

(** A turn that is justified and whose effect puts the machine where it stands. *)
Ltac plain_turn :=
  eexists; split; [done|]; split; [unfold turn_justified; cbn; eauto with rn|];
  try (split; [done|]; unfold driver_phase, last_event; cbn; rewrite last_snoc; cbn).

Lemma read_slot_ok n d m :
  cfg m = health_cfg → phase m = PhReadSlot → hd_machine d = m →
  turn_ok d (after_step n (last_event d) d (ReadSlot, m)).
Proof.
  intros Hc Hp <-. plain_turn. rewrite Hp. eexists _, _. split; [apply elem_last|]. split; [done|]. by intros hw ->.
Qed.

Lemma reading_ok n d x res :
  cfg (hd_machine d) = health_cfg → phase (hd_machine d) = PhReadSlot → (x, HF_Read res) ∈ hd_turns d →
  last_event d = EvSlot (slot_reading res) → (∀ hw, res = Ok hw → running_slot d = Some (hw_running_slot hw)) →
  turn_ok d (after_step n (last_event d) d (advance (he_elapsed env n) (he_refuse env n) (last_event d) (hd_machine d))).
Proof.
  intros Hc Hp Hin Hl Hslot. rewrite Hl. unfold advance. rewrite Hp. destruct res as [hw|[|code]]; cbn [slot_reading].
  - destruct (decide (hw_running_state hw = SPendingVerify)) as [Hpv|Hpv]; cbn [on_slot].
    + apply poll_ok; [done|]. exists (hw_running_slot hw). split; [by apply Hslot|]. by exists x, hw.
    + eexists. split; [done|]. split; [by exists x, hw|done].
  - cbn [on_slot]. plain_turn. by rewrite Hp.
  - cbn [on_slot]. destruct (_ && _) eqn:E.
    + apply andb_true_iff in E as [_ E%Z.leb_le]. eexists. split; [done|]. split; [|done]. unfold turn_justified. cbn [fst snd en_elapsed]. rewrite <- Hc. exact E.
    + plain_turn. by rewrite Hp.
Qed.

Lemma health_turn_ok n d : driver_ok d → turn_ok d (health_turn settings env n (last_event d) d).
Proof.
  intros [Hc Hph]. rewrite health_turn_eq. unfold driver_phase in Hph. destruct (phase (hd_machine d)) eqn:Ep.
  - destruct (last_event d) eqn:El; try done; [rewrite <- El; unfold advance; rewrite Ep, El; rewrite <- El; by apply read_slot_ok..|].
    destruct Hph as (x & res & Hin & <- & Hs). rewrite <- El. by apply (reading_ok n d x res).
  - destruct Hph as [-> Hs]. unfold advance. rewrite Ep. by apply poll_ok.
  - destruct Hph as [(b & -> & Hb) (slot & Hs & Hp)]. unfold advance. rewrite Ep. destruct b; [|apply unhealthy_ok; [done|by exists slot]].
    plain_turn. split; [|exists slot; cbn; eauto with rn]. eexists. split; [done|]. unfold is_ok.
    destruct (he_mark_valid env n) as [[]|e] eqn:Em; [|done]. intros _. eexists. apply elem_last.
  - destruct Hph as [(b & -> & Hb) (slot & Hs & Hp)]. unfold advance. rewrite Ep. destruct b; [|apply unhealthy_ok; [done|by exists slot]].
    unfold after_step. cbn [perform]. unfold health_complete, health_lock. destruct (complete_attempt _ _) as [r after] eqn:Ec. plain_turn.
    split; [by eexists|auto with rn].
  - destruct Hph as [(b & ->) Hm]. unfold advance. rewrite Ep. destruct b; [eexists; split; [done|]; by split|]. cbn zeta.
    destruct (_ <? _); [plain_turn; auto with rn|]. eexists. split; [done|]. by split.
  - destruct Hph as [-> Hm]. unfold advance. rewrite Ep. unfold after_step. cbn [perform]. unfold health_complete, health_lock.
    destruct (complete_attempt _ _) as [r after] eqn:Ec. plain_turn. split; [by eexists|auto with rn].
  - destruct Hph as (-> & Hn & ->). unfold advance. rewrite Ep. destruct (deadline_action health_cfg) eqn:Ed; plain_turn; rewrite ?Ed; eauto 6 with rn.
  - destruct Hph as ((b & ->) & Hn & Ha). unfold advance. rewrite Ep. destruct b; [eexists; split; [done|]; by split|]. cbn zeta.
    destruct (_ <? _); [plain_turn; auto with rn|]. eexists. split; [done|]. by split.
  - destruct Hph as (-> & Hn & Ha). unfold advance. rewrite Ep. plain_turn. eauto 6 with rn.
  - destruct Hph as [-> Hn]. unfold advance. rewrite Ep. eexists. split; [done|]. by split.
  - done.
Qed.

Definition all_justified ts : Prop := ∀ l1 t l2, ts = l1 ++ t :: l2 → turn_justified l1 t.

Lemma all_justified_snoc ts t : all_justified ts → turn_justified ts t → all_justified (ts ++ [t]).
Proof.
  intros Hall Ht l1 t' l2 E. destruct l2 as [|t2 l2 _] using rev_ind.
  - apply app_inj_tail in E as [-> ->]. done.
  - rewrite app_comm_cons, app_assoc in E. apply app_inj_tail in E as [-> _]. by eapply Hall.
Qed.

Lemma justified_elem ts t : all_justified ts → t ∈ ts → ∃ l1 l2, ts = l1 ++ t :: l2 ∧ turn_justified l1 t.
Proof. intros Hall (l1 & l2 & ->)%list_elem_of_split. exists l1, l2. split; [done|]. by eapply Hall. Qed.

Lemma health_loop_ok turns n d :
  driver_ok d → all_justified (hd_turns d) →
  let '(v, d') := health_loop settings env turns n d in
  all_justified (hd_turns d') ∧
  match v with Some v => ∃ l x, hd_turns d' = l ++ [(x, HF_Finish v)] | None => driver_ok d' end.
Proof.
  revert n d. induction turns as [|turns IH]; intros n d Hd Hall; cbn [health_loop]; [done|].
  destruct (health_turn_ok n d Hd) as ([x ef] & Ht & Hj & Hk). destruct (health_turn settings env n (last_event d) d) as [a d'].
  cbn [fst snd] in *. assert (all_justified (hd_turns d')) as Hall' by (rewrite Ht; by apply all_justified_snoc).
  destruct a; try (by apply IH). split; [done|]. exists (hd_turns d), x. rewrite Ht. cbn in Hk. by rewrite Hk.
Qed.

Lemma health_start_ok s : driver_ok (health_start settings s).
Proof. by split. Qed.

Lemma mark_seen ts : all_justified ts → mark_done ts → ∃ slot, pending_seen ts slot.
Proof.
  intros Hall [x Hx]. destruct (justified_elem _ _ Hall Hx) as (l1 & l2 & -> & [(slot & y & hw & Hy & ?) _]).
  exists slot, y, hw. split; [set_solver|done].
Qed.

Lemma note_seen ts : all_justified ts → reason_noted ts → ∃ slot, pending_seen ts slot.
Proof.
  intros Hall (x & slot & b & a & r & Hx & _). destruct (justified_elem _ _ Hall Hx) as (l1 & l2 & -> & ((y & hw & Hy & ?) & _)).
  exists slot, y, hw. split; [set_solver|done].
Qed.

(** Every turn carries the flag it read. *)
Lemma health_loop_refuse turns n d :
  (∀ n, he_refuse env n = true) → (∀ t, t ∈ hd_turns d → en_refuse t.1 = true) →
  ∀ t, t ∈ hd_turns (health_loop settings env turns n d).2 → en_refuse t.1 = true.
Proof.
  intros Hr. revert n d. induction turns as [|turns IH]; intros n d Hd; cbn [health_loop]; [done|].
  assert (∀ t, t ∈ hd_turns (health_turn settings env n (last_event d) d).2 → en_refuse t.1 = true) as Ht.
  { unfold health_turn. destruct (step _ _ _ _) as [a m]. destruct (perform _ _ _ _ _) as [[ef slot] store]. cbn.
    intros t [?|Hl]%elem_of_app; [by apply Hd|]. apply list_elem_of_singleton in Hl as ->. by rewrite <- (Hr n). }
  destruct (health_turn settings env n (last_event d) d) as [a d']. destruct a; try (by apply IH). exact Ht.
Qed.

(** C10: Every call the health thread makes is earned by what it saw before it. Whatever the device, the clock, the application and the other threads answer, and wherever the thread stands when it is looked at: [healthy] is only asked, and the image only marked valid, after a read showed the running slot waiting for verification, and marked valid only after a healthy answer given without a refusal and after the dwell time; the attempt is completed only after a successful mark; a rollback reason is noted only for the slot that was read, after the failure deadline and with the configured reason; a rollback or restart only after such a note, as configured. "applied" is published only after a successful mark, admission opens only when a slot was read, and an image that is refused throughout is never marked valid. *)
Theorem health_policy_earned turns started answers s v acts ts :
  run_health_policy settings env turns started answers s = (v, acts, ts) →
  all_justified ts ∧
  (∀ version steps, SA_Publish version steps ∈ acts → mark_done ts ∧ version = Version_display (os_running_version settings)) ∧
  (SA_RequestRetry ∈ acts → mark_done ts) ∧
  (SA_OpenAdmission ∈ acts → ∃ x hw, (x, HF_Read (Ok hw)) ∈ ts) ∧
  ((∀ n, he_refuse env n = true) → ∀ x r, (x, HF_MarkValid r) ∉ ts).
Proof.
  unfold run_health_policy. destruct started; [intros [= <- <- <-]; split_and!; try (intros; set_solver); by intros [|? ?] ? ? ?|].
  pose proof (health_loop_ok turns 0 (health_start settings s) (health_start_ok s) ltac:(by intros [|? ?] ? ? ?)) as Hok.
  pose proof (health_loop_refuse turns 0 (health_start settings s)) as Href.
  destruct (health_loop settings env turns 0 _) as [v' d]. destruct Hok as [Hall Hv]. intros [= <- <- <-]. cbn [snd] in Href.
  assert (∀ w, v' = Some w → turn_justified (hd_turns d) (mkEntry 0 false Begin ReadSlot, HF_Finish w) ∨ w = SlotUnreadable) as Hfin.
  { intros w ->. destruct Hv as (l & x & Hl). pose proof (Hall l _ [] Hl) as Hj. rewrite Hl.
    destruct w; try (right; done); left; unfold turn_justified in *; cbn [fst snd] in *; auto with rn.
    destruct Hj as (y & hw & Hy & ?). exists y, hw. split; [set_solver|done]. }
  split_and!; [done| | | |].
  - intros version steps Hin. destruct v' as [w|]; [|set_solver]. destruct (Hfin w eq_refl) as [Hj| ->]; [|set_solver].
    destruct w; cbn in Hin, Hj; set_solver.
  - intros Hin. destruct v' as [w|]; [|set_solver]. destruct (Hfin w eq_refl) as [Hj| ->]; [|set_solver].
    destruct w; cbn in Hin, Hj; set_solver.
  - intros Hin. destruct v' as [w|]; [|set_solver]. destruct (Hfin w eq_refl) as [Hj| ->]; [|cbn in Hin; set_solver].
    destruct w; cbn in Hj; try (by destruct (mark_seen _ Hall Hj) as (? & y & hw & ? & _); eauto);
      try (by destruct (note_seen _ Hall Hj) as (? & y & hw & ? & _); eauto); [|by cbn in Hin; set_solver|done].
    destruct Hj as (y & hw & ? & _). eauto.
  - intros Hr x r Hin. destruct (justified_elem _ _ Hall Hin) as (l1 & l2 & E & [_ (y & Hy & Hf & _)]).
    assert (en_refuse (y, HF_Asked (K:=K) true).1 = true) as Ht; [|by cbn in Ht; rewrite Ht in Hf].
    apply (Href Hr); [set_solver|]. rewrite E. set_solver.
Qed.
End justified.

(** ** The health thread ends *)

Section ends.
Context {K : Type} `{HO : OtaKv K}.
Context (settings : OtaSettings) (env : HealthEnv (K:=K)).
Implicit Types (d : HealthDriver (K:=K)).

Local Abbreviation c := (HealthConfig_from (timings settings)).
Local Abbreviation run := (health_loop settings env).
Local Abbreviation one n d := (health_turn settings env n (last_event d) d).

Definition entries d : list Entry := map fst (hd_turns d).

(** The counters of a machine that has made at most [n] steps. *)
Definition counted (n : Z) (m : HealthMachine) : Prop :=
  0 ≤ failed_reads m ≤ n ∧ 0 ≤ complete_tries m ≤ n ∧ 0 ≤ rollback_tries m ≤ n.

Lemma step_counted n e r ev m :
  n < u32_max → counted n m → counted (n + 1) (step e r ev m).2.
Proof.
  intros Hn (Hf & Hc & Hr).
  assert (∀ x, 0 ≤ x ≤ n → 0 ≤ u32_wrapping_add x 1 ≤ n + 1) as Hsucc by (intros x Hx; rewrite tries_succ; lia).
  assert (∀ p m, counted n m → counted (n + 1) (with_phase p m)) as Hph by (unfold counted; cbn; intros; lia).
  assert (∀ e m, counted n m → counted (n + 1) (after_unhealthy e m).2) as Hun.
  { intros e' m' Hm'. unfold after_unhealthy. destruct (_ <? _); [by apply Hph|]. destruct (deadline_action _); by apply Hph. }
  assert (∀ e r m, counted n m → counted (n + 1) (poll_tick e r m).2) as Hpt.
  { intros e' r' m' Hm'. unfold poll_tick. destruct (negb _ && _); [by apply Hph|by apply Hun]. }
  assert (counted n m) as Hm by done. assert (counted (n + 1) m) as Hm' by (unfold counted; lia).
  assert (∀ am, counted (n + 1) am.2 → counted (n + 1) (let '(action, m) := am in (action, with_pending action m)).2) as Hpend by (by intros [a m1]).
  unfold step. apply Hpend. unfold advance.
  destruct (phase m); destruct ev as [| |[]|[]|[]|[]| |[]|]; try exact Hm'; try (by apply Hun); try (by apply Hpt); try (by apply Hph);
    cbn [on_slot]; cbn zeta; repeat case_match; unfold counted; cbn; try lia; pose proof (Hsucc (failed_reads m)); pose proof (Hsucc (complete_tries m));
    pose proof (Hsucc (rollback_tries m)); split_and!; try lia.
  all: unfold counted in *; cbn; lia.
Qed.

Definition not_busy (n : nat) : Prop := slot_reading (read_hardware_facts single_read (he_ota env n)) ≠ SR_Busy.

(** What the loop keeps after [n] turns. *)
Definition loop_inv (n : nat) d : Prop :=
  driver_ok settings d ∧ health_inv c (entries d) (hd_machine d) ∧ counted (Z.of_nat n) (hd_machine d).

Lemma turn_machine n ev d :
  (one n d).1 = (step (he_elapsed env n) (he_refuse env n) (last_event d) (hd_machine d)).1 ∧
  hd_machine (health_turn settings env n ev d).2 = (take_warning (step (he_elapsed env n) (he_refuse env n) ev (hd_machine d)).2).2 ∧
  last_event (one n d).2 = event_of (perform settings env n (one n d).1 d).1.1 ∧
  entries (one n d).2 = entries d ++ [mkEntry (he_elapsed env n) (he_refuse env n) (last_event d) (one n d).1].
Proof.
  unfold health_turn. destruct (step _ _ (last_event d) _) as [a m]. destruct (perform settings env n a d) as [[ef slot] store] eqn:Ep. cbn.
  rewrite Ep. split_and!; [done| | |unfold entries; cbn; by rewrite map_app].
  - destruct (step _ _ ev _) as [a' m']. by destruct (perform settings env n a' d) as [[ef' slot'] store'].
  - unfold last_event. cbn. by rewrite last_snoc.
Qed.

Lemma health_turn_inv n d :
  Z.of_nat n < u32_max → loop_inv n d →
  match (one n d).1 with Finish _ => True | _ => loop_inv (S n) (one n d).2 end.
Proof.
  intros Hn (Hd & Hi & Hcn). destruct (health_turn_ok settings env n d Hd) as (t & _ & _ & Hk).
  destruct (turn_machine n (last_event d) d) as (Ha & Hm & _ & He).
  assert (loop_inv (S n) (one n d).2 ∨ (∃ v, (one n d).1 = Finish v)) as [H|[v ->]]; [|by destruct (one n d).1|done].
  assert (driver_ok settings (one n d).2 ∨ ∃ v, (one n d).1 = Finish v) as [Hd'|?]; [destruct (one n d).1; eauto| |by right].
  left. split; [done|]. rewrite Hm, He. destruct (step _ _ _ (hd_machine d)) as [a m] eqn:Es.
  pose proof (step_inv _ _ _ _ _ _ _ _ Hi Es) as Hi'. cbn in Ha. rewrite Ha. split; [exact Hi'|].
  pose proof (step_counted _ (he_elapsed env n) (he_refuse env n) (last_event d) _ Hn Hcn) as Hc'. rewrite Es in Hc'.
  rewrite Nat2Z.inj_succ. exact Hc'.
Qed.

(** The event of a turn answers its action. *)
Lemma turn_answers n d : not_busy n → answers (one n d).1 (last_event (one n d).2).
Proof.
  intros Hb. destruct (turn_machine n (last_event d) d) as (_ & _ & -> & _).
  destruct (one n d).1; cbn [perform]; try done. 
  - unfold health_complete, health_lock. by destruct (complete_attempt _ _).
  - unfold health_note. destruct (running_slot d); [|done]. unfold health_lock. by destruct (note_rollback _ _ _).
Qed.

Lemma turn_pending n d : pending (hd_machine (one n d).2) = (one n d).1.
Proof.
  destruct (turn_machine n (last_event d) d) as (Ha & -> & _). rewrite Ha. unfold step. by destruct (advance _ _ _ _) as [a m].
Qed.

Lemma loop_add a : ∀ b n d,
  run (a + b)%nat n d = match run a n d with (Some v, d') => (Some v, d') | (None, d') => run b (n + a)%nat d' end.
Proof.
  induction a as [|a IH]; intros b n d; cbn [health_loop Nat.add]; [by rewrite Nat.add_0_r|].
  destruct (one n d) as [action d']. destruct action; try done; rewrite IH; destruct (run a (S n) d') as [[v|] d'']; try done; by rewrite Nat.add_succ_r.
Qed.

Lemma loop_inv_turns a : ∀ n d, Z.of_nat (n + a) < u32_max → loop_inv n d →
  let '(v, d') := run a n d in match v with Some _ => True | None => loop_inv (n + a) d' end.
Proof.
  induction a as [|a IH]; intros n d Hn Hi; cbn [health_loop]; [by rewrite Nat.add_0_r|].
  pose proof (health_turn_inv n d ltac:(lia) Hi) as Ht. destruct (one n d) as [action d']. cbn [fst snd] in Ht.
  destruct action; try done; rewrite Nat.add_succ_r; apply (IH (S n) d'); try done; lia.
Qed.

(** Once the deadline has passed and the handle is free, every turn is progress. *)
Lemma late_loop f : ∀ n d,
  driver_ok settings d → health_inv c (entries d) (hd_machine d) → counters_ok (hd_machine d) → answers (pending (hd_machine d)) (last_event d) →
  (∀ i, (n ≤ i)%nat → failure_deadline c ≤ he_elapsed env i ∧ not_busy i) → health_fuel (hd_machine d) ≤ Z.of_nat f →
  is_Some (run f n d).1.
Proof.
  assert (∀ d, driver_ok settings d → ∀ v, phase (hd_machine d) ≠ PhDone v) as Hnd.
  { intros d [_ Hph] v E. unfold driver_phase in Hph. by rewrite E in Hph. }
  induction f as [|f IH]; intros n d Hd Hi Hc Ha Hlate Hf.
  { destruct (fuel_done _ Hf) as [v Hv]. by destruct (Hnd d Hd v). }
  cbn [health_loop]. destruct (Hlate n ltac:(lia)) as [He Hb]. pose proof Hi as (Hcfg & Hph & Hco).
  destruct (answered_progress (he_elapsed env n) (he_refuse env n) (last_event d) (hd_machine d) Hco Hc Ha) as (Hcfg' & Hlt & Hor);
    [by rewrite Hcfg|by apply Hnd|].
  destruct (turn_machine n (last_event d) d) as (Ha1 & Hm & _ & He1). pose proof (turn_answers n d Hb) as Hans. pose proof (turn_pending n d) as Hpe.
  destruct (health_turn_ok settings env n d Hd) as (t & _ & _ & Hk). destruct (step _ _ _ (hd_machine d)) as [a m] eqn:Es.
  pose proof (step_inv _ _ _ _ _ _ _ _ Hi Es) as Hi'. cbn [fst snd] in *. destruct (one n d) as [action d'] eqn:Eo. cbn [fst snd] in *. subst action.
  assert ((∃ v, a = Finish v) ∨ driver_ok settings d') as [[v ->]|Hd']; [destruct a; eauto|by eexists|].
  assert (is_Some (run f (S n) d').1) as Hrec.
  { apply IH; [done|rewrite He1, Hm; exact Hi'| |by rewrite Hpe| |].
    - destruct Hor as [[v Hv]|Hc']; [|by rewrite Hm]. destruct (Hnd d' Hd' v). by rewrite Hm.
    - intros i Hin. apply Hlate. lia.
    - rewrite Hm. change (health_fuel (take_warning m).2) with (health_fuel m). lia. }
  by destruct a; try by eexists.
Qed.

Lemma fuel_bound n m : counted n m →
  health_fuel m ≤ 7 + 2 * Z.max 0 (slot_min_attempts (cfg m)) + 2 * Z.max 1 (complete_attempts (cfg m)) + 2 * Z.max 1 (rollback_attempts (cfg m)).
Proof. intros (? & ? & ?). unfold health_fuel, rollback_fuel, complete_fuel. destruct (phase m); try (case_bool_decide; lia); lia. Qed.

(** The turns that are enough once nothing holds the policy up. *)
Definition turns_needed : nat :=
  Z.to_nat (8 + 2 * Z.max 0 (slot_min_attempts c) + 2 * Z.max 1 (complete_attempts c) + 2 * Z.max 1 (rollback_attempts c)).

(** C11: The health policy always comes to a verdict. Whatever was read, answered or failed before, once the failure deadline has passed and the handle of the OTA partition is no longer in use, the loop ends after at most the given number of further turns, and settles: no failure of the flash, the store, the application or the driver keeps it running. *)
Theorem health_policy_ends N answers s :
  is_u32 (slot_min_attempts c) → is_u32 (complete_attempts c) → is_u32 (rollback_attempts c) →
  Z.of_nat N + 1 < u32_max →
  (∀ n, (N ≤ n)%nat → failure_deadline c ≤ he_elapsed env n ∧ not_busy n) →
  ∃ v acts ts, run_health_policy settings env (N + turns_needed) false answers s = (Some v, acts, ts) ∧ SA_Settled ∈ acts.
Proof.
  intros Hs Hc Hr HN Hlate.
  assert (is_Some (run (N + turns_needed)%nat 0%nat (health_start settings s)).1) as [v Hv].
  2:{ unfold run_health_policy. destruct (run (N + turns_needed) 0 _) as [v' d]. cbn in Hv. subst v'. eexists _, _, _. split; [done|]. unfold health_settle. set_solver. }
  assert (loop_inv 0 (health_start settings s)) as H0 by (split_and!; [done|split_and!; [done|done|by left]|by unfold counted; cbn; lia]).
  rewrite loop_add. pose proof (loop_inv_turns N 0 _ ltac:(lia) H0) as Hi. destruct (run N 0 _) as [[v|] d]; [by eexists|]. cbn [Nat.add] in *.
  destruct turns_needed as [|f] eqn:Ef; [unfold turns_needed in Ef; lia|]. cbn [health_loop].
  pose proof (health_turn_inv N d ltac:(lia) Hi) as Hi'. destruct (Hlate N ltac:(lia)) as [_ Hb].
  pose proof (turn_answers N d Hb) as Ha. pose proof (turn_pending N d) as Hp. destruct (one N d) as [action d'] eqn:Eo. cbn [fst snd] in *.
  assert ((∃ v, action = Finish v) ∨ loop_inv (S N) d') as [[v ->]|(Hd & Hh & Hcn)]; [destruct action; eauto|by eexists|].
  assert (is_Some (run f (S N) d').1) as Hrec.
  { apply late_loop; try done.
    - destruct Hh as (Hcfg & _). destruct Hcn as (? & ? & ?). unfold counters_ok. rewrite Hcfg. split_and!; try done; lia.
    - by rewrite Hp.
    - intros i Hin. apply Hlate. lia.
    - pose proof (fuel_bound _ _ Hcn) as Hfb. destruct Hh as (Hcfg & _). rewrite Hcfg in Hfb. unfold turns_needed in Ef. lia. }
  by destruct action; try by eexists.
Qed.
End ends.

(** ** Start-up *)

Inductive LaunchError := LE_Config (e : ConfigError) | LE_Topic (e : string) | LE_Reporter | LE_Worker | LE_AlreadyStarted.

Inductive LaunchAct := LA_Rollback (r : result OtaError unit) | LA_Reporter | LA_Worker.

Section start.
Context {K : Type} `{HO : OtaKv K}.

(** The OTA handle, the rollback (which returns only when it failed), and whether each thread starts. *)
Record LaunchEnv := mkLaunchEnv {
  le_ota : nat → EspOtaAnswers; le_rollback : result OtaError unit; le_reporter : bool; le_worker : bool }.

Context (settings : OtaSettings) (env : LaunchEnv).

Definition launch_hardware : result HardwareReadError HardwareFacts := read_hardware_facts BusyRetry_default (le_ota env).

Definition launch_flags (outcome : BootOutcome) : OtaFlags :=
  let admit_offer := initial_admission outcome in
  mkFlags admit_offer (bo_refuse_mark_valid outcome) admit_offer (store_fault (bo_disposition outcome)) (bo_roll_back_now outcome).

(** [roll_back_at_boot]; the result is only logged. *)
Definition roll_back_at_boot : list LaunchAct := [LA_Rollback (le_rollback env)].

Definition launch (s : OtaStore K) : result LaunchError OtaFlags * OtaStore K * list LaunchAct :=
  match OtaSettings_validate settings with
  | Err e => (Err (LE_Config e), s, [])
  | Ok _ =>
      match validate_publish_topic (status_topic settings) with
      | Err e => (Err (LE_Topic e), s, [])
      | Ok _ =>
          match reconcile_boot (E:=Empty_set) launch_hardware (Some (os_running_version settings)) s with
          | (Err e, s) => match e with end
          | (Ok outcome, s) =>
              let acts := if bo_roll_back_now outcome then roll_back_at_boot else [] in
              if negb (le_reporter env) then (Err LE_Reporter, s, acts)
              else if negb (le_worker env) then (Err LE_Worker, s, acts ++ [LA_Reporter])
              else (Ok (launch_flags outcome), s, acts ++ [LA_Reporter; LA_Worker])
          end
      end
  end.

(** Whether the parts are still there, and the flag the submitter reads. *)
Record Runtime := mkRuntime { rt_parts : bool; rt_closed : bool }.

(** [channel]: the runtime and the depth of the rejection queue. *)
Definition ota_channel : Runtime * Z := (mkRuntime true false, Z.max (reject_queue_depth (timings settings)) 1).

Definition ota_start (rt : Runtime) (s : OtaStore K) : result LaunchError OtaFlags * Runtime * OtaStore K * list LaunchAct :=
  if negb (rt_parts rt) then (Err LE_AlreadyStarted, mkRuntime false true, s, [])
  else
    let '(r, s, acts) := launch s in
    (r, mkRuntime false (match r with Ok _ => rt_closed rt | Err _ => true end), s, acts).

Definition ota_drop (rt : Runtime) : Runtime := if rt_parts rt then mkRuntime true true else rt.

End start.

(** [open_records]: the note of the boot slot may fail. *)
Definition open_records {K} `{EspNvs K} (opened : result Z K) (rng : nat → Z) (a : EspOtaAnswers) : result StoreError (OtaStore K) :=
  match open_store_in opened rng OTA_NAMESPACE with
  | Err e => Err e
  | Ok store => Ok (note_boot_slot_idf a store).2
  end.

Section start_facts.
Context {K : Type} `{HO : OtaKv K}.
Implicit Types (s : OtaStore K).

(** The flags an outcome carries, whatever the records said. *)
Lemma reconcile_flags hw running s :
  match reconcile_boot (E:=Empty_set) hw running s with
  | (Ok o, _) =>
      bo_refuse_mark_valid o = (match bo_disposition o with BD_FailedClosed _ => true | _ => false end || bo_roll_back_now o) ∧
      bo_slot_released o = match hw with Ok hw => negb (bool_decide (hw_running_state hw = SPendingVerify)) | Err _ => false end ∧
      ((∃ e, hw = Err e) → ∃ f, bo_disposition o = BD_FailedClosed f)
  | (Err e, _) => False
  end.
Proof.
  assert (∀ hwo d act w s, match outcome (E:=Empty_set) hwo d act w s with
    | (Ok o, _) => bo_disposition o = d ∧ bo_roll_back_now o = bool_decide (d = BD_RollBackNow) ∧
        bo_refuse_mark_valid o = (match d with BD_FailedClosed _ => true | _ => false end || bool_decide (d = BD_RollBackNow)) ∧
        bo_slot_released o = match hwo with Some hw => negb (bool_decide (hw_running_state hw = SPendingVerify)) | None => false end
    | (Err e, _) => False end) as Hout.
  { intros hwo d act w s0. unfold outcome. rewrite M_bind_eq.
    match goal with |- context [(if ?b then ?p else ?q) s0] => destruct ((if b then p else q) s0) as [[open|[]] s1] end. rewrite M_bind_eq.
    destruct (catch report_undelivered s1) as [[p|[]] s2]. cbn. split_and!; try done. by destruct hwo. }
  unfold reconcile_boot. destruct hw as [hw|e].
  2:{ specialize (Hout None (BD_FailedClosed (BF_Hardware e)) None BootWarnings_default s). destruct (outcome _ _ _ _ s) as [[o|[]] s'].
      destruct Hout as (-> & -> & -> & ->). split_and!; try done. intros _. by eexists. }
  rewrite M_bind_eq. destruct (catch read_phase s) as [[r|[]] s1]. destruct r as [records|e].
  2:{ specialize (Hout (Some hw) (BD_FailedClosed (BF_Store e)) None BootWarnings_default s1). destruct (outcome _ _ _ _ s1) as [[o|[]] s'].
      destruct Hout as (-> & -> & -> & ->). split_and!; try done. by intros [? [=]]. }
  rewrite M_bind_eq. destruct (sequence hw _ running BootWarnings_default s1) as [[[d w]|[]] s2].
  set (d' := match d with Ok d => d | Err e => BD_Incomplete e end).
  match goal with |- context [outcome _ _ ?a _ _] => specialize (Hout (Some hw) d' a w s2) end. destruct (outcome _ _ _ _ s2) as [[o|[]] s'].
  destruct Hout as (-> & -> & -> & ->). split_and!; try done. by intros [? [=]].
Qed.

(** C12: Start-up fails closed. When anything goes wrong (a bad configuration, a thread that does not start, a second start) commands are refused from then on and no worker runs; dropping a runtime that was never started refuses them too. When it succeeds, admission is open only if the running slot was read and is not waiting for verification, nothing refuses the image and no rollback is due; hardware that cannot be read leaves admission closed and the image refused; and a rollback is tried at boot exactly when the reconciliation asks for one, which also refuses the image. *)
Theorem start_fails_closed settings env rt s :
  let '(r, rt', _, acts) := ota_start settings env rt s in
  rt_closed (ota_drop (mkRuntime true false)) = true ∧ rt_parts rt' = false ∧
  match r with
  | Err _ => rt_closed rt' = true ∧ LA_Worker ∉ acts
  | Ok flags =>
      rt_parts rt = true ∧ rt_closed rt' = rt_closed rt ∧ LA_Reporter ∈ acts ∧ LA_Worker ∈ acts ∧
      health_settled flags = admission_open flags ∧
      (admission_open flags = true →
        (∃ hw, launch_hardware env = Ok hw ∧ hw_running_state hw ≠ SPendingVerify) ∧
        refuse_mark_valid flags = false ∧ roll_back_now_at_boot flags = false) ∧
      ((∃ e, launch_hardware env = Err e) → admission_open flags = false ∧ refuse_mark_valid flags = true) ∧
      (roll_back_now_at_boot flags = true ↔ LA_Rollback (le_rollback env) ∈ acts) ∧
      (roll_back_now_at_boot flags = true → refuse_mark_valid flags = true)
  end.
Proof.
  assert (∀ a b c : LaunchAct, ((a ∈ [b]) ↔ (a = b)) ∧ ((a ∈ [b; c]) ↔ (a = b ∨ a = c))) as Hin.
  { intros a b c'. rewrite !elem_of_cons, !elem_of_nil. tauto. }
  assert (LA_Worker ∉ @nil LaunchAct) as Hnil by apply not_elem_of_nil.
  unfold ota_start. destruct (rt_parts rt) eqn:Ep; cbn [negb]; [|by split_and!; try done].
  unfold launch. destruct (OtaSettings_validate settings) as [[]|e]; [|by split_and!; try done].
  destruct (validate_publish_topic (status_topic settings)) as [[]|e]; [|by split_and!; try done].
  pose proof (reconcile_flags (launch_hardware env) (Some (os_running_version settings)) s) as Hf.
  destruct (reconcile_boot _ _ s) as [[o|[]] s']. destruct Hf as (Href & Hrel & Hhw).
  unfold launch_flags, initial_admission, roll_back_at_boot. destruct (bo_roll_back_now o) eqn:Er.
  - destruct (le_reporter env); cbn [negb]; [|split_and!; try done; cbn; rewrite (proj1 (Hin _ _ LA_Worker)); done].
    destruct (le_worker env); cbn [negb]; [|split_and!; try done; cbn; rewrite (proj2 (Hin _ _ _)); by intros [?|?]].
    rewrite orb_true_r in Href. cbn. rewrite Href, andb_false_r, !andb_false_l. split_and!; try done; cbn; repeat constructor.
  - destruct (le_reporter env); cbn [negb]; [|split_and!; try done; exact Hnil].
    destruct (le_worker env); cbn [negb]; [|split_and!; try done; cbn; rewrite (proj1 (Hin _ _ LA_Worker)); done].
    rewrite orb_false_r in Href. cbn. rewrite Href, andb_true_r. split_and!; try done; try (cbn; repeat constructor; fail).
    + intros [[Ha Hb]%andb_true_iff Hc]%andb_true_iff. rewrite Hrel in Ha. destruct (launch_hardware env) as [hw|]; [|done].
      split_and!; [|by apply negb_true_iff|done]. exists hw. split; [done|]. apply negb_true_iff, bool_decide_eq_false in Ha. done.
    + intros He. destruct (Hhw He) as [f ->]. by rewrite !andb_false_r.
    + split; [done|]. rewrite (proj2 (Hin _ _ _)). by intros [?|?].
Qed.
End start_facts.

(** ** The reporter thread *)

#[export] Instance CompletionTry_eq_dec : EqDecision CompletionTry.
Proof. solve_decision. Defined.

Inductive Received := RX_Rejection (reason : FailReason) | RX_Timeout | RX_Disconnected.

Section reporter.
Context {K : Type} `{HO : OtaKv K}.

(** What the reporter did, oldest first. *)
Inductive ReporterAct :=
| RA_Wait (d : duration)
| RA_Rejection (reason : FailReason) (steps : list PubStep)
| RA_Dropped (n : Z)
| RA_Service (events : list (RepEvent (K:=K)))
| RA_Completion (before after : OtaStore K) (r : CompletionTry)
| RA_ClearRetry.

(** [rv_now n i] is the [i]-th reading of the clock in turn [n]; [rv_requests n]: the health policy asks for the
    completion retry before it; [rv_queue n k] is what the rejection channel holds when it is drained
    for the [k]-th time in the turn, and [rv_try n k i] answers the publish of the [i]-th of them. *)
Record ReporterEnv := mkReporterEnv {
  rv_now : nat → nat → duration; rv_recv : nat → duration → Received; rv_queue : nat → nat → list FailReason;
  rv_closed : nat → bool; rv_rejects : nat → Z; rv_requests : nat → bool; rv_try : nat → nat → nat → Z → TryPublish;
  rv_service : nat → RepEnv (K:=K); rv_others : nat → OtaStore K → OtaStore K }.

Record ReporterThread := mkReporterThread {
  rt_store : OtaStore K; rt_machine : ReporterMachine; rt_completion : CompletionRetry; rt_last_seen : Z;
  rt_requested : bool; rt_log : list ReporterAct }.

Context (settings : OtaSettings) (env : ReporterEnv).

Definition logged (a : list ReporterAct) (w : ReporterThread) : ReporterThread :=
  mkReporterThread (rt_store w) (rt_machine w) (rt_completion w) (rt_last_seen w) (rt_requested w) (rt_log w ++ a).

Definition publish_rejection (n k i : nat) (reason : FailReason) : ReporterAct :=
  RA_Rejection reason (publish_status true (rv_try env n k i) (timings settings)).1.

(** At most the depth of the queue. *)
Definition drain_rejections (n k : nat) : list ReporterAct :=
  imap (publish_rejection n k) (take (Z.to_nat (reject_queue_depth (timings settings))) (rv_queue env n k)).

Definition reporter_wait (n : nat) (w : ReporterThread) : duration :=
  let now := rv_now env n 0 in
  match retry_next_wait now (rt_completion w) with
  | None => next_wait now (rt_machine w)
  | Some d => Z.min d (next_wait now (rt_machine w))
  end.

Definition with_completion (c : CompletionRetry) (w : ReporterThread) : ReporterThread :=
  mkReporterThread (rt_store w) (rt_machine w) c (rt_last_seen w) (rt_requested w) (rt_log w).

(** Before each turn the flag may be set. *)
Definition note_request (n : nat) (w : ReporterThread) : ReporterThread :=
  mkReporterThread (rt_store w) (rt_machine w) (rt_completion w) (rt_last_seen w) (rt_requested w || rv_requests env n) (rt_log w).

(** [None]: a [Duration] overflows. *)
Definition service_completion (n : nat) (w : ReporterThread) : option ReporterThread :=
  c ← (if negb (is_armed (rt_completion w)) && rt_requested w then arm (rv_now env n 2) (rt_completion w) else Some (rt_completion w));
  if negb (retry_due (rv_now env n 3) c) then Some (with_completion c w)
  else
    let before := rv_others env n (rt_store w) in
    match retry_completion (E:=Empty_set) (os_running_version settings) before with
    | (Err e, _) => match e with end
    | (Ok result, after) =>
        '(keep, c) ← on_result (rv_now env n 4) result c;
        Some (mkReporterThread after (rt_machine w) c (rt_last_seen w) (keep && rt_requested w)
                (rt_log w ++ RA_Completion before after result :: if keep : bool then [] else [RA_ClearRetry]))
    end.

(** [service_report] on the shared store; [rp_max_other_passes] follow-ups are the most it makes. *)
Definition run_service (n : nat) (w : ReporterThread) : option ReporterThread :=
  let fuel := S (Z.to_nat (rp_max_other_passes (rm_cfg (rt_machine w)))) in
  match service_report (rv_service env n) fuel (mkRep (rt_store w) (rt_machine w) []) with
  | (Ok _, r) => Some (mkReporterThread (rw_store r) (rw_machine r) (rt_completion w) (rt_last_seen w) (rt_requested w)
                         (rt_log w ++ [RA_Service (rw_events r)]))
  | (Err _, _) => None
  end.

Definition count_dropped_rejects (n : nat) (w : ReporterThread) : ReporterThread :=
  let dropped := rejects_delta (rv_rejects env n) (rt_last_seen w) in
  if 0 <? dropped
  then mkReporterThread (rt_store w) (rt_machine w) (rt_completion w) (rv_rejects env n) (rt_requested w) (rt_log w ++ [RA_Dropped dropped])
  else w.

Definition publish_received (n : nat) (got : Received) (w : ReporterThread) : ReporterThread :=
  match got with
  | RX_Rejection reason => logged (publish_rejection n 0 0 reason :: drain_rejections n 1) w
  | _ => w
  end.

(** One turn; [inl] when the thread returns. *)
Definition reporter_turn (n : nat) (w : ReporterThread) : option (ReporterThread + ReporterThread) :=
  let w := note_request n w in
  let wait := reporter_wait n w in
  let w := publish_received n (rv_recv env n wait) (logged [RA_Wait wait] w) in
  match rv_recv env n wait with
  | RX_Disconnected => Some (inl w)
  | _ =>
      if rv_closed env n then Some (inl (logged (drain_rejections n 2) w))
      else
        let w := count_dropped_rejects n w in
        w ← (if report_due (rv_now env n 1) (rt_machine w) then run_service n w else Some w);
        w ← service_completion n w;
        Some (inr w)
  end.

Fixpoint reporter_run (turns n : nat) (w : ReporterThread) : option (ReporterThread + ReporterThread) :=
  match turns with
  | O => Some (inr w)
  | S turns =>
      r ← reporter_turn n w;
      match r with inl w => Some (inl w) | inr w => reporter_run turns (S n) w end
  end.

Definition reporter_start (s : OtaStore K) : ReporterThread :=
  mkReporterThread s (ReporterMachine_new (ReporterConfig_from (timings settings)))
    (CompletionRetry_new (CompletionRetryConfig_from (timings settings))) 0 false [].
End reporter.

Section reporter_facts.
Context {K : Type} `{HO : OtaKv K}.
Context (settings : OtaSettings) (env : ReporterEnv (K:=K)).
Implicit Types (w : ReporterThread (K:=K)).

(** One service of the completion retry: nothing is due, or one attempt is made, and the request is withdrawn
    exactly when nothing is left to complete. *)
Lemma service_completion_spec n w w' :
  service_completion settings env n w = Some w' →
  rt_log w' = rt_log w ∧ rt_store w' = rt_store w ∧ rt_requested w' = rt_requested w ∨
  ∃ after r, retry_completion (E:=Empty_set) (os_running_version settings) (rv_others env n (rt_store w)) = (Ok r, after) ∧ rt_store w' = after ∧
    rt_log w' = rt_log w ++ RA_Completion (rv_others env n (rt_store w)) after r :: (if decide (r = CT_StillFailing) then [] else [RA_ClearRetry]) ∧
    rt_requested w' = (if decide (r = CT_StillFailing) then rt_requested w else false).
Proof.
  unfold service_completion. destruct (if negb (is_armed _) && _ then _ else _) as [c|]; [cbn|done].
  destruct (retry_due _ c) eqn:Ed; cbn [negb]; [|intros [= <-]; by left].
  destruct (retry_completion _ _) as [[r|[]] after]. destruct (on_result _ r c) as [[keep c']|] eqn:Er; [cbn|done]. intros [= <-]. right.
  exists after, r. split; [done|]. split; [done|]. unfold retry_due in Ed. unfold on_result in Er.
  destruct r; cbn; [injection Er as <- <-; done..|]. destruct (armed c); [|done]. destruct (dur_add _ _); [cbn in Er|done]. by injection Er as <- <-.
Qed.

(** The request is only withdrawn by an attempt that left nothing to complete. *)
Definition clears_done (l : list (ReporterAct (K:=K))) : Prop :=
  ∀ l1 l2, l = l1 ++ RA_ClearRetry :: l2 → ∃ l0 before after r, l1 = l0 ++ [RA_Completion before after r] ∧ r ≠ CT_StillFailing.

Lemma clears_done_app l l' : clears_done l → (∀ a, a ∈ l' → a ≠ RA_ClearRetry) → clears_done (l ++ l').
Proof.
  intros Hl Hn l1 l2 E. apply app_eq_inv in E as [(k & -> & E)|(k & -> & E)].
  - destruct k as [|a k]; cbn in E; [|injection E as <- E; subst; by eapply (Hl l1 k)].
    destruct (Hn RA_ClearRetry); [rewrite <- E; left|done].
  - destruct (Hn RA_ClearRetry); [rewrite E; set_solver|done].
Qed.

Lemma clears_done_snoc l before after r :
  clears_done l → r ≠ CT_StillFailing → clears_done (l ++ [RA_Completion before after r; RA_ClearRetry]).
Proof.
  intros Hl Hr l1 l2 E. destruct l2 as [|a l2 _] using rev_ind.
  - change [RA_Completion before after r; RA_ClearRetry] with ([RA_Completion before after r] ++ [RA_ClearRetry]) in E.
    rewrite app_assoc in E. apply app_inj_tail in E as [<- _]. by exists l, before, after, r.
  - assert (clears_done (l ++ [RA_Completion before after r])) as Hl'.
    { apply clears_done_app; [done|]. intros a' ->%list_elem_of_singleton. done. }
    apply (Hl' l1 l2). change [RA_Completion before after r; RA_ClearRetry] with ([RA_Completion before after r] ++ [RA_ClearRetry]) in E.
    rewrite app_comm_cons, !app_assoc in E. by apply app_inj_tail in E as [-> _].
Qed.

Lemma drain_no_clear n k a : a ∈ drain_rejections settings env n k → a ≠ RA_ClearRetry.
Proof. unfold drain_rejections. intros (i & E)%list_elem_of_lookup. rewrite list_lookup_imap in E. by destruct (_ !! i); [injection E as <-|]. Qed.

Lemma reporter_turn_clears n w r :
  clears_done (rt_log w) → reporter_turn settings env n w = Some r → clears_done (rt_log match r with inl w => w | inr w => w end).
Proof.
  intros Hw. unfold reporter_turn. cbn zeta. set (got := rv_recv env n _). set (w1 := publish_received _ _ _ _ _).
  assert (clears_done (rt_log w1)) as H1.
  { unfold w1, publish_received. assert (clears_done (rt_log (logged [RA_Wait (reporter_wait env n (note_request env n w))] (note_request env n w)))) as H0.
    { cbn. apply clears_done_app; [done|]. by intros a ->%list_elem_of_singleton. }
    destruct got; try done. apply clears_done_app; [done|]. intros a [->|Ha]%elem_of_cons; [done|by eapply drain_no_clear]. }
  set (end_ := if rv_closed env n then _ else _).
  enough (end_ = Some r → clears_done (rt_log match r with inl w => w | inr w => w end)) as He.
  { destruct got; try exact He. by intros [= <-]. }
  unfold end_. destruct (rv_closed env n); [intros [= <-]; cbn; apply clears_done_app; [done|]; intros a; apply drain_no_clear|].
  set (w2 := count_dropped_rejects env n w1).
  assert (clears_done (rt_log w2)) as H2.
  { unfold w2, count_dropped_rejects. cbn zeta. destruct (0 <? _); [|done]. apply clears_done_app; [done|]. by intros a ->%list_elem_of_singleton. }
  destruct (if report_due _ _ then _ else _) as [w3|] eqn:E3; [cbn|done].
  assert (clears_done (rt_log w3)) as H3.
  { destruct (report_due _ _); [|by injection E3 as <-]. unfold run_service in E3. destruct (service_report _ _ _) as [[[]|?] rw]; [|done].
    injection E3 as <-. apply clears_done_app; [done|]. by intros a ->%list_elem_of_singleton. }
  destruct (service_completion settings env n w3) as [w4|] eqn:E4; [cbn|done]. intros [= <-].
  destruct (service_completion_spec _ _ _ E4) as [(-> & _)|(after & res & _ & _ & -> & _)]; [done|].
  destruct (decide (res = CT_StillFailing)); [apply clears_done_app; [done|]; by intros a ->%list_elem_of_singleton|by apply clears_done_snoc].
Qed.

(** The reporter withdraws the request for a retry only right after an attempt that left nothing to complete. *)
Lemma reporter_clears turns s r :
  reporter_run settings env turns 0 (reporter_start settings s) = Some r → clears_done (rt_log match r with inl w => w | inr w => w end).
Proof.
  assert (∀ turns n w, clears_done (rt_log w) → reporter_run settings env turns n w = Some r → clears_done (rt_log match r with inl w => w | inr w => w end)) as H.
  { clear turns s. intros turns. induction turns as [|turns IH]; intros n w Hw; cbn [reporter_run]; [by intros [= <-]|].
    destruct (reporter_turn settings env n w) as [r'|] eqn:Et; [cbn|done]. pose proof (reporter_turn_clears n w r' Hw Et) as Hr.
    destruct r' as [w'|w']; [by intros [= <-]|]. by apply IH. }
  apply H. by intros [|? ?].
Qed.
End reporter_facts.

(** ** Runs *)

Definition sample_settings : OtaSettings := mkSettings "cmd" "status" v120 OtaTimings_default OtaStacks_default.

(** The new image runs in [ota_1], not yet verified. *)
Definition pending_answers : EspOtaAnswers :=
  mkAnswers (Ok tt) (Ok ("ota_1"%string, Svc_Unverified)) (Ok ("ota_0"%string, Svc_Valid)) (Ok ("ota_1"%string, Svc_Unverified)).

(** A clock of one second a turn, from [start]. *)
Definition sample_health (start : Z) (ota : EspOtaAnswers) (healthy : bool) : HealthEnv (K:=Inner) :=
  mkHealthEnv (λ n, from_secs (start + Z.of_nat n)) (λ _, false) (λ _ _, ota) (λ _, healthy) (λ _, Ok tt) (λ _, Err FlashWriteFailed) (λ _ s, s).

Abbreviation sample_policy start ota healthy turns :=
  (run_health_policy sample_settings (sample_health start ota healthy) turns false (λ _, TP_Sent) (sample m_attempt None)).

Example healthy_image_applied :
  (sample_policy 40 pending_answers true 10).1 = (Some Applied, [SA_Publish "1.2.0" [PT_Try TP_Sent]; SA_OpenAdmission; SA_Settled]) ∧
  (sample_policy 0 pending_answers false 200).1.1 = Some DeadlineRollbackFailed.
Proof. by vm_compute. Qed.

Lemma health_policy_earned_witness :
  let r := sample_policy 40 pending_answers true 10 in SA_Publish "1.2.0" [PT_Try TP_Sent] ∈ r.1.2 ∧ mark_done r.2.
Proof.
  intros r. assert (r = (r.1.1, r.1.2, r.2)) as E by by destruct r as [[? ?] ?].
  assert (SA_Publish "1.2.0" [PT_Try TP_Sent] ∈ r.1.2) as Hin.
  { pose proof (f_equal snd (proj1 healthy_image_applied)) as Ha. fold r in Ha. cbn [snd] in Ha. rewrite Ha. left. }
  split; [exact Hin|]. destruct (health_policy_earned sample_settings (sample_health 40 pending_answers true) 10 false (λ _, TP_Sent) (sample m_attempt None) _ _ _ E) as (_ & H & _).
  exact (proj1 (H _ _ Hin)).
Defined.

(** The handle is in use for three turns, then every read fails. *)
Definition unreadable_health : HealthEnv (K:=Inner) :=
  mkHealthEnv (λ n, from_secs (if (n <? 3)%nat then 1 else 121)) (λ _, false)
    (λ n _, mkAnswers (Err (if (n <? 3)%nat then BUSY_CODE else -1)) (Err 0) (Err 0) (Err 0)) (λ _, true) (λ _, Ok tt) (λ _, Ok tt) (λ _ s, s).

Lemma health_policy_ends_witness :
  ∃ v acts ts, run_health_policy sample_settings unreadable_health (3 + turns_needed sample_settings) false (λ _, TP_Sent) (sample m_attempt None) = (Some v, acts, ts) ∧
    SA_Settled ∈ acts.
Proof.
  assert (∀ n, (3 ≤ n)%nat → failure_deadline (HealthConfig_from (timings sample_settings)) ≤ he_elapsed unreadable_health n ∧ not_busy unreadable_health n) as Hlate.
  { intros n Hn. unfold not_busy, unreadable_health. cbn [he_elapsed he_ota]. rewrite (proj2 (Nat.ltb_ge n 3)) by done.
    split; by vm_compute. }
  assert (is_u32 5 ∧ is_u32 3) as [H5 H3] by (vm_compute; repeat split; discriminate).
  exact (health_policy_ends sample_settings unreadable_health 3 (λ _, TP_Sent) (sample m_attempt None) H5 H3 H3 eq_refl Hlate).
Defined.

(** A configuration that is refused closes the command path; one that is fine starts both threads. *)
Example started :
  let env := mkLaunchEnv (λ _, pending_answers) (Err FlashWriteFailed) true true in
  let good := ota_start sample_settings env (mkRuntime true false) (sample m_attempt None) in
  good.1.1.1 = Ok (mkFlags false false false false false) ∧ good.1.1.2 = mkRuntime false false ∧
  (ota_start (mkSettings "same" "same" v120 OtaTimings_default OtaStacks_default) env (mkRuntime true false) (sample m_attempt None)).1.1.2 = mkRuntime false true.
Proof. by vm_compute. Qed.
